(* ===== verification/_CoqProject ===== *)
-Q . S2P
Prelude.v
GoText.v
GoFloat.v
GoCrypto.v
PolicyTypes.v
PolicyEvaluator.v
PolicyEngine.v
PolicyRules.v
PolicyAdmission.v
GoFiles.v
IPPool.v
ServiceRegistry.v
LoadBalancer.v
BootstrapTokens.v
Node.v
NodeHealth.v
Scorer.v
BinPack.v
Scheduler.v
Rollout.v
RaftFSM.v
ServicePersistence.v
ServiceRecovery.v
Membership.v
MembershipSpec.v
MembershipTiming.v
Enrollment.v
MembershipLocks.v
ClusterScheduling.v
Probes.v
HealthMonitor.v
HealthMonitorSpec.v
Workloads.v
WorkloadsSpec.v
Coordinator.v
CoordinatorSpec.v
CoordinatorSystem.v
Events.v
Goroutines.v
ContainerSecurity.v
ContainerRuntime.v
ContainerRuntimeSpec.v
ResourceMonitor.v
Agent.v
AgentSpec.v
Deployment.v
Peers.v
Mesh.v
MeshSpec.v
StorageTypes.v
ChunkStore.v
ChunkStoreSpec.v
ContentEngine.v
ContentSpec.v
Erasure.v
ErasureSpec.v
StoragePlacement.v
Replication.v
ReplicationSpec.v
Volumes.v
VolumeSpec.v
ObjectMetadata.v
ObjectStore.v
ObjectStoreSpec.v
Repair.v
RepairSpec.v
StorageManager.v
StorageManagerSpec.v
ColdData.v
ColdDataSpec.v
SecretCrypto.v
SecretTokens.v
Secrets.v
SecretStores.v
SecretManager.v
SecretRotation.v
SecretsService.v
SecretsServiceSpec.v
SecretsClient.v
SecretsClientSpec.v
