(* ===== verification/Prelude.v ===== *)
(** * Cloudless: a verification development of the platform's control plane

    Cloudless is a distributed container platform.  A coordinator admits
    workloads through a policy engine, keeps the membership of the cluster,
    places replicas on the nodes with a scheduler, plans rollouts, keeps its
    state in a Raft-replicated key-value store, names services on a virtual
    network and hands out secrets; agents run the containers.  This library
    models the decision logic of the coordinator, the storage, and the agents
    with their container runtime as executable definitions, translated from the
    Go sources under src/, and proves what they do, alone and together.

    ** Files and the code they model

    - [Prelude] (this file): tactics, hint database [go], the [result] type of
      fallible code, record update, machine integers with their wrap-around,
      time, and two interfaces of the language: [GoRange], the unspecified
      order of a [range] loop over a map, and [GoSort], the unstable
      [sort.Slice].  Theorems quantify over these interfaces, so they hold for
      every order the runtime may choose.
    - [GoText]: strings of bytes, case folding, splitting, prefixes, decimal
      printing, the fragment of package regexp the policies use, runes.
    - [GoFloat]: float64 as binary64 with rounding to nearest, computed by the
      Standard Library's specification of floating-point numbers; differences
      of times and the text of durations and numbers.
    - [GoCrypto]: SHA-256, computed as the standard defines it.
    - [GoFiles]: cleaned paths and files; failing calls are arguments.
    - [PolicyTypes], [PolicyEvaluator], [PolicyEngine], [PolicyRules]:
      pkg/policy.  The state is [Engine] (policies by name, result cache);
      [Evaluate], [AddPolicy] and [RemovePolicy] return the new state.  The
      evaluation deadline and the clock are inputs.
    - [PolicyAdmission]: pkg/coordinator/policy_integration.go, the conversion
      of API workloads (pkg/api/cloudless.proto) and the admission decision.
    - [IPPool], [ServiceRegistry]: pkg/overlay/registry.go.  The pool is its
      range and the set of allocated addresses; the registry maps full names to
      services and endpoints and identifiers to full names.
    - [LoadBalancer]: pkg/overlay/loadbalancer.go, the selection algorithms,
      session affinity and the health counters.
    - [BootstrapTokens]: pkg/mtls/token.go over the classes for JWT signing.
    - [Node]: the node records of pkg/coordinator/membership/manager.go and
      the class [NodeLister], all the scheduler knows of the manager.
    - [NodeHealth]: health conditions and reliability scores of the manager.
    - [Scorer], [BinPack], [Scheduler], [Rollout]: pkg/scheduler.  The
      scheduler keeps its configuration and weights; placement is a function
      of the listed nodes.  A rollout plan is a list of phase actions.
    - [RaftFSM]: pkg/raft/fsm.go and the writes and reads of store.go.  The
      state is the map of entries; [Apply] takes the readings of the replica's
      own clock.  A log entry is the set of JSON members that the decoders
      look at, with absent and ill-typed ones told apart.
    - [ServicePersistence], [ServiceRecovery]: the Raft-backed registry of
      pkg/overlay, which writes services and endpoints through [RaftFSM] and
      rebuilds a registry and its pool from the store.
    - [Membership]: the rest of the manager, every operation as a function of
      the manager's state, the store and the clock; [MembershipSpec] is its
      state machine as a step relation; [MembershipTiming] and [Enrollment]
      hold the theorems on silent nodes, on queued assignments and commands,
      and on tokens; [MembershipLocks] models the manager's [sync.RWMutex] and the lock operations of its
      methods as threads that interleave.
    - [ClusterScheduling]: the manager as an instance of [NodeLister], so the
      scheduler's theorems apply to the nodes it lists.
    - [Probes]: pkg/runtime/health.go, the queue of health probes and their
      results.  [HealthMonitor]: pkg/agent/health_monitor.go and the reports
      agent.go makes of it; [HealthMonitorSpec] holds the histories of checks,
      registrations and settings, and the theorems on restarts and readiness.
    - [Workloads]: pkg/coordinator/state_manager.go.  The state is the store, a
      heap of workload objects and the cache of pointers to them, since callers
      change the objects they get.  [WorkloadsSpec] is its specification, two
      maps: what readers see and what is stored.
    - [Coordinator]: the handlers of pkg/coordinator/grpc_handlers.go (named
      [Handle...] where a manager has the same name) over the managers, the
      scheduler and admission, and replica_monitor.go.  [CoordinatorSpec] says
      what each handler does to the maps and to the queues of the nodes,
      [CoordinatorSystem] puts handlers, background work and restarts together
      as a step relation and runs it.
    - [Events]: pkg/observability/events.go, the stream of audit events with its
      filters and watchers, and its theorem.
    - [Goroutines]: programs that call an environment, their runs, and the
      interleavings of a pool of them, with rely/guarantee reasoning; no code
      of its own.
    - [ContainerSecurity]: the security context of pkg/runtime (types.go,
      seccomp.go, apparmor.go, selinux.go, runtimeclass.go and the option of
      container.go that applies it), and its theorem.
    - [ContainerRuntime]: pkg/runtime/container.go and image.go as programs
      whose calls are those of the containerd client ([Cd]).
      [ContainerRuntimeSpec] states what containerd promises as the classes
      [ContainerdLaws] and [ContainerdUp], and what the programs do over them.
    - [ResourceMonitor]: pkg/agent/monitor.go, snapshots of the host's readings
      and their reports.
    - [Agent]: pkg/agent/agent.go, enrollment, heartbeats and the assignments
      and commands they bring, and the requests of grpc_handlers.go that run,
      stop and enter containers; the goroutines of one heartbeat are a pool of
      programs.  [AgentSpec] holds the theorems, against the laws only, and runs
      them over a containerd that is kept in memory.
    - [Deployment]: [Coordinator] and [Agent] together, from a request of a
      user to the containers of a node.
    - [Peers], [Mesh]: pkg/overlay/peer.go, nat.go, types.go and mesh.go, the
      peers, routes and NAT traversal of a node as programs that start others;
      the transport and the STUN and TURN clients are their environment.
      [MeshSpec] holds the theorems on every interleaving of them.
    - [StorageTypes]: pkg/storage/types.go, the records the parts of the
      storage share.
    - [ChunkStore]: pkg/storage/chunk.go over the files of a directory; gzip is
      the class [Gzip].  [ChunkStoreSpec] is its specification, a map from
      identifiers to contents and reference counts.
    - [ContentEngine]: pkg/storage/content.go, objects cut into chunks, written
      and read through a chunk store, and [ContentSpec] its theorems.
    - [Erasure]: pkg/storage/erasure.go over the class [ReedSolomon]; the laws
      of the code are [ReedSolomonLaws], and [ErasureSpec] uses only them.
    - [StoragePlacement]: pkg/storage/placement.go, the choice of nodes for
      the replicas of a chunk, failures and capacity reports.
    - [Replication]: pkg/storage/replication.go; the goroutines that record
      replicas are threads whose loads and stores of the replica list
      interleave.  [ReplicationSpec] holds the invariant of the interleaving.
    - [Volumes]: pkg/storage/volume.go, the volume manager over its directory
      tree, and [VolumeSpec] the theorem that volumes are isolated.
    - [ObjectMetadata]: pkg/storage/metadata.go, batch.go, consistency.go and
      errors.go, the caches of buckets and objects over [RaftFSM]; JSON is the
      class [MetadataCodec].  [ObjectStore]: store.go, objects and multipart
      uploads over the content engine, replication and metadata, with the
      goroutines that delete and repair chunks in its state.  [ObjectStoreSpec]
      is the specification, maps of contents and uploads, and the refinement.
    - [Repair]: pkg/storage/repair.go, checks, the queue of tasks, the workers
      and Merkle trees; [RepairSpec] its theorems.  [ColdData]: cold_data.go,
      which turns objects into shards; [ColdDataSpec] its theorems.
    - [StorageManager]: pkg/storage/manager.go, the object store with its repair
      engine, the storage nodes with their reports and checks, volumes and
      rebalancing; [StorageManagerSpec] the theorems on its histories.
    - [SecretCrypto]: pkg/secrets/encryption.go over the class [AEAD].
    - [SecretTokens]: pkg/secrets/token.go over the class [JWT], and the
      interleaving of token validations under a read lock.
    - [Secrets]: pkg/secrets/manager.go and store.go.  The manager's state is
      its keys, tokens, audit log and a store of the class [SecretStore], with
      the in-memory and the Raft-backed store as instances.  A store that hands
      out the objects it holds says so by [st_mutate].
    - [SecretStores]: the class [StoreLaws], what the manager relies on, and
      its proofs for both stores; secrets are compared up to a JSON round trip.
    - [SecretManager], [SecretRotation]: the theorems on the manager, stated on
      the plaintext view [plain] of the stored secrets.
    - [SecretsService]: pkg/coordinator/secrets_service.go, the handlers over
      the manager with the codes of their errors, and the start-up of the
      service in coordinator.go; [SecretsServiceSpec] is its specification, a
      vault of contents by reference, and the theorems on histories of calls.
    - [SecretsClient]: pkg/agent/secrets.go, the agent's client with its cache
      of values; [SecretsClientSpec] is the theorem on clients, users and the
      service that interleave.

    ** What the theorems show

    - Policies: evaluation refines a declarative table of considered, violated
      deny policies and the default action; it does not depend on map order or
      on ties of the priority sort; the cache holds only results of the
      current policies; the pattern matcher decides globbing; the built-in
      policies decide exactly their stated rules.  Concrete runs show where the
      cache key, the window between evaluation and caching, and the conversion
      of security contexts let workloads pass.
    - Membership: every history of operations keeps the invariant of the
      manager and moves each node only along the edges of a state machine; a
      node that stays silent is offline after a bounded number of monitor
      turns; a queued assignment reaches its node in exactly one heartbeat; a
      token enrols at most as many nodes as it allows; health and reliability
      are functions of the observed samples.  [DrainNode] and a heartbeat that
      queues a command take a lock they hold already and never return.
    - Coordinator: the manager of workload state refines the two maps for every
      history; creating and updating a workload are specified on every branch,
      down to the assignments queued for each node.  An update that is refused
      by policy is visible at once and deployed by the next scaling; no
      reachable state records a replica, with what follows for deletion,
      scaling and the monitor; and the monitor reschedules a failed replica in
      every turn.
    - Events: the stream shows the latest events that match a filter, and its
      watchers get, in order, the events recorded while they watch, except
      those recorded while a hundred are waiting.
    - Agent: whatever the probes and the runtime answer, no period as long as
      the restart window has more recorded restarts of a container than the
      limit; the changes of readiness that are reported are the changes among
      the results the monitor has seen, and heartbeats show the last of them.
      Liveness is always reported as false.  A container that is accepted runs
      with the user, the capabilities, the root file system and the seccomp
      filter of its security context.  In every interleaving of the goroutines
      of a heartbeat with requests to the agent's service, containers that
      neither concerns are left as they are; without such requests the assigned
      workloads end up in started containers.
    - Deployment: a workload that the coordinator accepts is running on every
      node it is placed on when that node has handled its next heartbeat.  No
      container is ever stopped by what the coordinator sends, in any reachable
      state: its stop assignments lack the specification the agent asks for.
    - Scheduling: every decision is for an eligible node and no node is
      overcommitted, under every strategy; bin packing succeeds exactly when
      the replicas fit, and first fit and best fit place as many as any
      distribution; spreading uses distinct nodes and doubles up in a zone
      only when all zones are used; preemption frees what is needed with a
      minimal prefix.  Scores are in the unit interval or NaN.  Over the
      manager, decisions name registered nodes that are ready.
    - Rollouts: executing a plan is an abstract specification of replica
      counts; rolling updates keep the minimum when they can and replace every
      replica once, and the theorems give the exact condition under which the
      minimum and the desired number are missed.
    - Replication: reads refine a key-value store with expiry for every
      history; replicas agree on logs without expiry and can diverge on others;
      the encoding of commands is inverse to the dispatch of [Apply].
    - Services: the pool hands out fresh addresses of its network until none
      is left; services of a registry have distinct addresses; a registry
      rebuilt from the store has the services and endpoints it had, but a
      restart while an address is reserved hands that address out twice; the
      balancer picks healthy endpoints only, round robin is fair and a session
      keeps its endpoint.
    - Mesh: in every interleaving of the programs of a node, each route leads
      to its destination by itself, so no packet has a second hop; a peer that
      is lost while its connection is open is given up for good.
    - Storage: for every history and whichever calls of the operating system
      fail, the chunk store refines a reference-counted map, and a restart
      keeps the chunks that are stored uncompressed; an object that is held is
      read back whole and a collection keeps exactly the chunks of held
      objects; an erasure-coded object is read from any [k] of its shards;
      placement uses distinct eligible nodes and as many zones as it can; a
      replication records at least one and at most all of the replicas it
      wrote, as the writes to the list may overwrite each other; operations on
      one volume leave the files and the records of the others unchanged when
      identifiers are single path elements.  The object store refines a map of
      contents for every history, with failures of the disk, of replication and
      of the cluster and with deletions running in the background.  Repair
      comes to rest with enough healthy replicas and none corrupted or stale;
      Merkle trees are built in as many levels as their depth and find every
      difference of sets of one size.  An object encoded as shards is decoded
      from any [k] of them and fails plain reads; refused encodings lose it.
      The manager allocates a volume exactly when the history of some node
      allows it; the nodes it registers never hold replicas of its objects.
    - Secrets: envelope encryption round-trips, also across a change of the
      master key; tokens are used at most as often as allowed when
      validations do not interleave, and without bound when they do; revoked
      tokens are refused.  Creating, updating, deleting and a successful key
      rotation refine a map from references to plaintexts, over every store
      that satisfies the laws; reads are answered exactly for accepted tokens.
      A rotation that fails half-way or follows a restart loses plaintexts, and
      a deletion the cluster refuses still hides the secret on that node.
      Histories of calls of the service are runs of a vault, a secret is handed
      out at most as often as uses were granted, and the status code of every
      refused read is given.  What the client of an agent answers was in the
      vault at some moment of the last day less five minutes, up to the difference
      of the clocks, however its calls interleave with those of others.

    ** Conventions

    A Go [error] is a value of [result] or an [option string]; a panic is
    [None] of an outer [option].  Loops over slices and maps are structural or
    folds.  Four kinds of loop take a bound: the search for a free address of
    [IPPool] runs [max_hosts] turns, which is the bound of the Go loop itself;
    printing in base 16 takes 16 digits, as many as a uint64 has; the loops
    that cut content into pieces take as many turns as there are bytes, each
    of which consumes at least one; and the levels of a Merkle tree are at most
    as many as its leaves, which [merkle_tree_built] proves to be enough.  The
    replacement of text in a path takes one turn more than it has bytes.
    Integers are [Z] with [int64] or [int32] written around every operation that can wrap.
    SHA-256 is computed; that the contents at hand do not collide is a
    hypothesis of the theorems that need it.  Gzip, Reed-Solomon codes,
    authenticated encryption and JWT are classes with the laws their packages
    document.  Clock readings, random bytes, identifiers from uuid.New and answers of
    third-party libraries are arguments.  Logging, metrics and the locks of
    code that is modelled one operation at a time are dropped; where
    interleaving matters it is written as a step relation.  Within one
    operation, repeated loops over the same map use one order, except where two
    orders are arguments.

    ** Not modelled, and the plan

    Process start-up, connections and gRPC plumbing, the QUIC transport, the STUN
    and TURN clients, X.509 certificates, metrics, tracing and the command line
    have no decision logic of their own or are calls of third-party code. Of the
    runtime, logs, statistics, the listing of images and the injection of
    secrets are left out; of the agent, the requests for status and logs, the
    database of metrics and the storage of fragments; timers and sleeps are left
    out throughout. What a continuation would take first: the injection of
    secrets, the clients of pkg/storage (client.go, metadata_client.go), and the
    STUN and TURN messages of pkg/overlay. *)

From stdpp Require Export base gmap strings list sorting fin_maps pretty.
From Stdlib Require Export Ascii ZArith Lia.

#[global] Open Scope Z_scope.

(** ** Hint databases and tactics of the development *)

Create HintDb go.

(** Splits every [match]/[if] of the hypotheses and the goal and
    simplifies the resulting equations. *)
Ltac case_all := repeat (case_match; simplify_eq/=).

(** Turns boolean tests in the context into propositions. *)
Ltac bool_to_prop :=
  repeat match goal with
  | H : _ && _ = true |- _ => apply andb_true_iff in H; destruct H
  | H : _ || _ = false |- _ => apply orb_false_iff in H; destruct H
  | H : negb _ = true |- _ => apply negb_true_iff in H
  | H : negb _ = false |- _ => apply negb_false_iff in H
  | H : bool_decide _ = true |- _ => apply bool_decide_eq_true_1 in H
  | H : bool_decide _ = false |- _ => apply bool_decide_eq_false_1 in H
  | H : (_ <? _)%Z = true |- _ => apply Z.ltb_lt in H
  | H : (_ <? _)%Z = false |- _ => apply Z.ltb_ge in H
  | H : (_ <=? _)%Z = true |- _ => apply Z.leb_le in H
  | H : (_ <=? _)%Z = false |- _ => apply Z.leb_gt in H
  | H : (_ =? _)%Z = true |- _ => apply Z.eqb_eq in H
  | H : (_ =? _)%Z = false |- _ => apply Z.eqb_neq in H
  end.

(** Membership of a literal list. *)
Ltac in_list := repeat first [apply list_elem_of_here | apply list_elem_of_further].

(** ** Results: Go's [(value, error)] pair *)

Inductive result (E A : Type) : Type :=
| Ok (a : A)
| Err (e : E).
Arguments Ok {E A} _.
Arguments Err {E A} _.

Definition is_ok {E A} (r : result E A) : bool :=
  match r with Ok _ => true | Err _ => false end.

#[export] Instance result_eq_dec `{EqDecision E, EqDecision A} : EqDecision (result E A).
Proof. solve_decision. Defined.

(** [bind] threads the first error through a sequence of calls, as the
    [if err != nil { return nil, err }] idiom does. *)
Definition rbind {E A B} (r : result E A) (k : A → result E B) : result E B :=
  match r with Ok a => k a | Err e => Err e end.

Declare Scope go_scope.
Delimit Scope go_scope with go.
Notation "'let?' x ':=' c 'in' k" := (rbind c (fun x => k))
  (at level 10, x pattern, c at level 100, k at level 200) : go_scope.

Lemma rbind_ok {E A B} (r : result E A) (k : A → result E B) b :
  rbind r k = Ok b ↔ ∃ a, r = Ok a ∧ k a = Ok b.
Proof. destruct r; naive_solver. Qed.

(** ** Record update

    A Go struct is updated field by field.  [Eta] lists the fields of a record
    once; [r <| field := v |>] is then the record with one field replaced. *)

Class Eta (R : Type) := eta_expansion : R → R.

Class Setter {R E : Type} (getter : R → E) := with_field : E → R → R.
Arguments with_field {R E} getter {Setter} v r /.

Ltac derive_setter :=
  lazymatch goal with
  | |- @Setter ?R ?E ?getter =>
      let inst := constr:(ltac:(typeclasses eauto) : Eta R) in
      let body := eval hnf in inst in
      lazymatch eval pattern getter in body with
      | ?build _ =>
          let t := eval cbv beta in (fun (v : E) (r : R) => build (fun _ : R => v) r) in
          exact t
      end
  end.

#[export] Hint Extern 1 (Setter _) => derive_setter : typeclass_instances.

Notation "r <| f := v |>" := (with_field f v r) (at level 1, left associativity, v at level 99) : go_scope.
#[global] Open Scope go_scope.

(** ** Machine integers

    A value of Go type [int64] (and [int], 64 bits wide on the supported
    platforms) is a [Z] in range; the arithmetic operators of the source
    wrap around, which [int64] writes out. *)

Definition int64 (z : Z) : Z := (z + 2 ^ 63) mod 2 ^ 64 - 2 ^ 63.
Definition int32 (z : Z) : Z := (z + 2 ^ 31) mod 2 ^ 32 - 2 ^ 31.
Definition uint64 (z : Z) : Z := z mod 2 ^ 64.
Definition uint32 (z : Z) : Z := z mod 2 ^ 32.

(** Go's [len], an [int]. *)
Definition len {A} (l : list A) : Z := Z.of_nat (length l).

Definition in_int64 (z : Z) : Prop := - 2 ^ 63 ≤ z < 2 ^ 63.
Definition in_int32 (z : Z) : Prop := - 2 ^ 31 ≤ z < 2 ^ 31.

Lemma int64_id z : in_int64 z → int64 z = z.
Proof. unfold int64, in_int64. intros. rewrite Z.mod_small; lia. Qed.

Lemma int64_range z : in_int64 (int64 z).
Proof.
  unfold int64, in_int64.
  pose proof (Z.mod_pos_bound (z + 2 ^ 63) (2 ^ 64)). lia.
Qed.

(** Wrapping an intermediate sum does not matter. *)
Lemma int64_add_l s x : int64 (int64 s + x) = int64 (s + x).
Proof.
  unfold int64. f_equal.
  replace ((s + 2 ^ 63) mod 2 ^ 64 - 2 ^ 63 + x + 2 ^ 63) with ((s + 2 ^ 63) mod 2 ^ 64 + x) by lia.
  rewrite Zplus_mod_idemp_l. f_equal. lia.
Qed.

Lemma int32_id z : in_int32 z → int32 z = z.
Proof. unfold int32, in_int32. intros. rewrite Z.mod_small; lia. Qed.

Lemma int32_range z : in_int32 (int32 z).
Proof.
  unfold int32, in_int32.
  pose proof (Z.mod_pos_bound (z + 2 ^ 31) (2 ^ 32)). lia.
Qed.

#[export] Hint Resolve int64_range int32_range : go.

(** ** Time

    [time.Time] is a [Z] of nanoseconds since the Unix epoch and
    [time.Duration] a [Z] of nanoseconds.  An operation that reads the clock
    takes the reading as an argument. *)

Definition nanosecond : Z := 1.
Definition second : Z := 1000000000.
Definition minute : Z := 60 * second.
Definition hour : Z := 60 * minute.

(** [time.Unix(s, 0)]. *)
Definition time_Unix (s : Z) : Z := s * second.

(** The zero [time.Time], January 1 of year 1 UTC, that [IsZero] tests. *)
Definition zero_time : Z := -62135596800 * second.
Definition IsZero (t : Z) : bool := t =? zero_time.

(** ** Iteration over a Go map and [sort.Slice]

    The language leaves the order of [for k, v := range m] unspecified, and
    [sort.Slice] is not stable.  Both are parameters of the development: the
    theorems hold for every order the runtime may choose. *)

Class GoRange : Type := {
  range_map : ∀ {A : Type}, gmap string A → list (string * A);
  range_map_perm : ∀ (A : Type) (m : gmap string A), range_map m ≡ₚ map_to_list m
}.

Record strict_weak {A} (less : A → A → bool) : Prop := {
  sw_irrefl : ∀ x, less x x = false;
  sw_trans : ∀ x y z, less x y = true → less y z = true → less x z = true;
  sw_incomp : ∀ x y z, less x y = false → less y z = false → less x z = false
}.

(** No later element is [less] than an earlier one. *)
Definition sorted_by {A} (less : A → A → bool) (l : list A) : Prop :=
  StronglySorted (fun x y => less y x = false) l.

Class GoSort : Type := {
  sort_slice : ∀ {A : Type}, (A → A → bool) → list A → list A;
  sort_slice_perm : ∀ (A : Type) (less : A → A → bool) (l : list A),
    sort_slice less l ≡ₚ l;
  sort_slice_sorted : ∀ (A : Type) (less : A → A → bool) (l : list A),
    strict_weak less → sorted_by less (sort_slice less l)
}.

(** One runtime that iterates in the map's canonical order. *)
Definition range_canonical : GoRange := {|
  range_map := fun A m => map_to_list m;
  range_map_perm := fun A m => reflexivity (map_to_list m)
|}.

(** A runtime that iterates in the reverse of that order. *)
Definition range_reversed : GoRange := {|
  range_map := fun A m => reverse (map_to_list m);
  range_map_perm := fun A m => reverse_Permutation (map_to_list m)
|}.

(** Insertion sort: one sorting routine that satisfies the interface. *)
Fixpoint insert_less {A} (less : A → A → bool) (x : A) (l : list A) : list A :=
  match l with
  | [] => [x]
  | y :: l' => if less y x then y :: insert_less less x l' else x :: l
  end.

Definition insertion_sort {A} (less : A → A → bool) (l : list A) : list A :=
  foldr (insert_less less) [] l.

Lemma insert_less_perm {A} (less : A → A → bool) x l : insert_less less x l ≡ₚ x :: l.
Proof.
  induction l as [|y l IH]; simpl; [done|]. case_match; [|done].
  rewrite IH. apply Permutation_swap.
Qed.

Lemma insertion_sort_perm {A} (less : A → A → bool) l : insertion_sort less l ≡ₚ l.
Proof. induction l as [|x l IH]; simpl; [done|]. by rewrite insert_less_perm, IH. Qed.

Lemma insert_less_sorted {A} (less : A → A → bool) x l :
  strict_weak less → sorted_by less l → sorted_by less (insert_less less x l).
Proof.
  intros [Hirr Htr Hinc]. unfold sorted_by.
  induction 1 as [|y l Hl IH Hy]; simpl.
  - repeat constructor.
  - case_match eqn:Hyx; constructor; auto.
    + rewrite insert_less_perm. constructor; [|done].
      destruct (less x y) eqn:Hxy; [|done].
      by rewrite <-(Hirr y), (Htr _ _ _ Hyx Hxy).
    + by constructor.
    + constructor; [done|]. eapply Forall_impl; [done|]. simpl. intros z Hz. eauto.
Qed.

Lemma insertion_sort_sorted {A} (less : A → A → bool) l :
  strict_weak less → sorted_by less (insertion_sort less l).
Proof.
  intros Hsw. induction l as [|x l IH]; simpl; [constructor|].
  by apply insert_less_sorted.
Qed.

Definition sort_insertion : GoSort := {|
  sort_slice := @insertion_sort;
  sort_slice_perm := @insertion_sort_perm;
  sort_slice_sorted := @insertion_sort_sorted
|}.

(** Comparing by an integer key gives a strict weak order, in either direction. *)
Lemma strict_weak_key_gt {A} (key : A → Z) : strict_weak (fun x y => key y <? key x).
Proof. split; intros; bool_to_prop; try apply Z.ltb_ge; try apply Z.ltb_lt; lia. Qed.

Lemma strict_weak_key_lt {A} (key : A → Z) : strict_weak (fun x y => key x <? key y).
Proof. split; intros; bool_to_prop; try apply Z.ltb_ge; try apply Z.ltb_lt; lia. Qed.

#[export] Hint Resolve strict_weak_key_gt strict_weak_key_lt : go.

(** ** Lemmas on lists and maps shared by the components *)

Lemma elem_of_range_map `{GoRange} {A} (m : gmap string A) k v :
  (k, v) ∈ range_map m ↔ m !! k = Some v.
Proof. by rewrite range_map_perm, elem_of_map_to_list. Qed.

Lemma range_map_length `{GoRange} {A} (m : gmap string A) : length (range_map m) = size m.
Proof. rewrite range_map_perm. by rewrite length_map_to_list. Qed.

Lemma range_map_keys `{GoRange} {A} (m : gmap string A) : NoDup (range_map m).*1.
Proof. rewrite range_map_perm. apply NoDup_fst_map_to_list. Qed.

Lemma range_map_empty `{GoRange} {A} : range_map (∅ : gmap string A) = [].
Proof. apply Permutation_nil_r. by rewrite range_map_perm, map_to_list_empty. Qed.

Lemma existsb_exists' {A} (f : A → bool) l :
  existsb f l = true ↔ ∃ x, x ∈ l ∧ f x = true.
Proof. rewrite existsb_exists. by setoid_rewrite list_elem_of_In. Qed.

Lemma existsb_perm {A} (f : A → bool) l k : l ≡ₚ k → existsb f l = existsb f k.
Proof. induction 1; simpl; try congruence. by rewrite !orb_assoc, (orb_comm (f y)). Qed.

Lemma forallb_forall' {A} (f : A → bool) l :
  forallb f l = true ↔ ∀ x, x ∈ l → f x = true.
Proof. rewrite forallb_forall. by setoid_rewrite list_elem_of_In. Qed.

Lemma forallb_perm {A} (f : A → bool) l k : l ≡ₚ k → forallb f l = forallb f k.
Proof. induction 1; simpl; try congruence. by rewrite !andb_assoc, (andb_comm (f y)). Qed.

Lemma flat_map_nil_iff {A B} (f : A → list B) l :
  flat_map f l = [] ↔ ∀ x, x ∈ l → f x = [].
Proof.
  induction l as [|x l IH]; simpl.
  - split; [|done]. by intros _ x ?%elem_of_nil.
  - rewrite app_nil, IH. setoid_rewrite elem_of_cons. naive_solver.
Qed.

Lemma flat_map_perm {A B} (f g : A → list B) l k :
  l ≡ₚ k → (∀ x, f x ≡ₚ g x) → flat_map f l ≡ₚ flat_map g k.
Proof.
  intros Hl Hfg. transitivity (flat_map f k).
  - induction Hl; simpl; [done|by f_equiv| |by etrans].
    by rewrite !app_assoc, (Permutation_app_comm (f y)).
  - clear Hl. induction k; simpl; [done|]. by apply Permutation_app.
Qed.

Lemma filter_nil_iff {A} (f : A → bool) l :
  List.filter f l = [] ↔ ∀ x, x ∈ l → f x = false.
Proof.
  induction l as [|x l IH]; simpl.
  - split; [|done]. by intros _ x ?%elem_of_nil.
  - setoid_rewrite elem_of_cons. destruct (f x) eqn:E.
    + split; [done|]. intros Hx. by rewrite Hx in E by auto.
    + rewrite IH. split; [|auto]. intros ? y [->|?]; auto.
Qed.

Lemma filter_all {A} (f : A → bool) l : (∀ x, x ∈ l → f x = true) → List.filter f l = l.
Proof.
  induction l as [|x l IH]; intros Hl; simpl; [done|]. rewrite Hl by left. f_equal. apply IH.
  intros y Hy. apply Hl. by right.
Qed.

Lemma NoDup_filter' {A} (f : A → bool) l : NoDup l → NoDup (List.filter f l).
Proof.
  induction 1 as [|x l Hx _ IH]; simpl; [constructor|]. case_match; [|done]. constructor; [|done].
  by rewrite list_elem_of_In, filter_In, <-list_elem_of_In; intros [? _].
Qed.

Lemma NoDup_fmap_filter {A B} (g : A → B) (f : A → bool) l :
  NoDup (g <$> l) → NoDup (g <$> List.filter f l).
Proof.
  induction l as [|x l IH]; simpl; [done|]. intros [Hx Hl]%NoDup_cons. case_match; [|auto].
  apply NoDup_cons. split; [|auto]. intros (y & Hy & Hin)%list_elem_of_fmap. apply Hx. rewrite Hy.
  apply list_elem_of_fmap_2. by rewrite list_elem_of_In, filter_In, <-list_elem_of_In in Hin; destruct Hin.
Qed.

Lemma strongly_sorted_mono {A} (R R' : A → A → Prop) l :
  (∀ x y, R x y → R' x y) → StronglySorted R l → StronglySorted R' l.
Proof.
  intros HR. induction 1; constructor; [done|]. eapply Forall_impl; [done|]. auto.
Qed.

Lemma sorted_filter {A} (less : A → A → bool) (f : A → bool) l :
  sorted_by less l → sorted_by less (List.filter f l).
Proof.
  induction 1 as [|x l Hl IH Hx]; simpl; [constructor|]. case_match; [|done].
  constructor; [done|]. rewrite Forall_forall in Hx |- *. intros y Hy.
  rewrite list_elem_of_In, filter_In in Hy. apply Hx, list_elem_of_In, Hy.
Qed.

