(* ===== verification/GoText.v ===== *)
(** * Text: what the sources use of Go's [strings], [fmt] and [regexp]

    Go strings are byte sequences; the development uses Stdlib strings, whose
    characters are bytes, and models the functions on ASCII text (case
    folding and the regular-expression [.] work on one byte per character). *)

From S2P Require Import Prelude.

(** ** Characters *)

(** The library's [==] on strings, as a boolean. *)
Notation "s =?s t" := (bool_decide (s = t :> string)) (at level 70).

Definition lower_ascii (c : ascii) : ascii :=
  let n := Ascii.N_of_ascii c in
  if (65 <=? n)%N && (n <=? 90)%N then Ascii.ascii_of_N (n + 32) else c.

Fixpoint string_map (f : ascii → ascii) (s : string) : string :=
  match s with
  | EmptyString => EmptyString
  | String c s' => String (f c) (string_map f s')
  end.

(** [strings.ToLower] *)
Definition ToLower (s : string) : string := string_map lower_ascii s.

(** [strings.EqualFold] *)
Definition EqualFold (s t : string) : bool := ToLower s =?s ToLower t.

(** [strings.Contains(s, "c")] for a one-character needle. *)
Fixpoint contains_char (c : ascii) (s : string) : bool :=
  match s with
  | EmptyString => false
  | String d s' => if decide (d = c) then true else contains_char c s'
  end.

(** [strings.SplitN(s, "c", 2)]: the text before the first separator, and
    the rest when there is a separator. *)
Fixpoint split_first (c : ascii) (s : string) : string * option string :=
  match s with
  | EmptyString => (EmptyString, None)
  | String d s' =>
      if decide (d = c) then (EmptyString, Some s')
      else let '(a, b) := split_first c s' in (String d a, b)
  end.

(** [strings.HasPrefix(s, p)] and [strings.TrimPrefix(s, p)]. *)
Fixpoint strip_prefix (p s : string) : option string :=
  match p, s with
  | EmptyString, _ => Some s
  | String _ _, EmptyString => None
  | String c p', String d s' => if decide (c = d) then strip_prefix p' s' else None
  end.

Definition HasPrefix (s p : string) : bool := bool_decide (is_Some (strip_prefix p s)).
Definition TrimPrefix (s p : string) : string := default s (strip_prefix p s).

(** [fmt.Sprintf("%d", z)] *)
Definition show_Z (z : Z) : string := pretty z.

Lemma append_nil_l t : "" +:+ t = t.
Proof. done. Qed.

Lemma append_cons c s t : String c s +:+ t = String c (s +:+ t).
Proof. done. Qed.

Ltac simpl_append := rewrite ?append_nil_l, ?append_cons in *.

Lemma contains_char_split c s a b :
  split_first c s = (a, b) → contains_char c a = false.
Proof.
  revert a b. induction s as [|d s IH]; intros a b; simpl; [naive_solver|].
  case_decide; [naive_solver|]. destruct (split_first c s) as [a' b'].
  intros [= <- <-]. simpl. rewrite decide_False by done. eauto.
Qed.

Lemma split_first_app c s a b :
  split_first c s = (a, Some b) → s = a +:+ String c b.
Proof.
  revert a b. induction s as [|d s IH]; intros a b; simpl; [done|].
  case_decide; [by intros [= <- <-]; subst|]. destruct (split_first c s) as [a' b'].
  intros [= <- ->]. by rewrite (IH a' b).
Qed.

Lemma strip_prefix_spec p s t : strip_prefix p s = Some t ↔ s = p +:+ t.
Proof.
  revert s. induction p as [|c p IH]; intros s; simpl_append; simpl; [split; congruence|].
  destruct s as [|d s]; [split; congruence|]. case_decide; subst.
  - rewrite IH. split; congruence.
  - split; congruence.
Qed.

Lemma HasPrefix_app p s : HasPrefix (p +:+ s) p = true.
Proof. apply bool_decide_eq_true_2. exists s. by apply strip_prefix_spec. Qed.

Lemma HasPrefix_spec s p : HasPrefix s p = true ↔ ∃ t, s = p +:+ t.
Proof.
  unfold HasPrefix. rewrite bool_decide_eq_true. split; intros [t Ht]; exists t; by apply strip_prefix_spec.
Qed.

Lemma string_app_assoc (a b c : string) : (a +:+ b) +:+ c = a +:+ (b +:+ c).
Proof. induction a; simpl_append; congruence. Qed.

Lemma string_app_nil_r (a : string) : a +:+ "" = a.
Proof. induction a; simpl_append; congruence. Qed.

Lemma string_app_inj_l (a b c : string) : a +:+ b = a +:+ c → b = c.
Proof. induction a; simpl_append; [done|]. intros [=]. auto. Qed.

(** A text split at the first separator is recovered from its two parts. *)
Lemma sep_inj (c : ascii) (a a' b b' : string) :
  contains_char c a = false → contains_char c a' = false →
  a +:+ String c b = a' +:+ String c b' → a = a' ∧ b = b'.
Proof.
  revert a'. induction a as [|x a IH]; intros [|x' a']; simpl; intros Ha Ha' Heq;
    simpl_append.
  - by injection Heq.
  - injection Heq as <- _. by rewrite decide_True in Ha'.
  - injection Heq as -> _. by rewrite decide_True in Ha.
  - injection Heq as <- Heq. case_decide; [done|]. destruct (IH a'); by subst.
Qed.

Lemma contains_char_app c a b :
  contains_char c (a +:+ b) = contains_char c a || contains_char c b.
Proof. induction a; simpl_append; simpl; [done|]. by case_decide. Qed.

(** A text split at the last separator is recovered too. *)
Lemma sep_inj_last (c : ascii) (a a' b b' : string) :
  contains_char c b = false → contains_char c b' = false →
  a +:+ String c b = a' +:+ String c b' → a = a' ∧ b = b'.
Proof.
  revert a'. induction a as [|x a IH]; intros [|x' a']; intros Hb Hb' Heq; simpl_append.
  - by injection Heq.
  - injection Heq as _ ->. rewrite contains_char_app in Hb. simpl in Hb.
    rewrite decide_True, orb_true_r in Hb by done. done.
  - injection Heq as _ <-. rewrite contains_char_app in Hb'. simpl in Hb'.
    rewrite decide_True, orb_true_r in Hb' by done. done.
  - injection Heq as <- Heq. destruct (IH a'); by subst.
Qed.

(** ** Regular expressions

    The fragment of RE2 syntax that [matchesPattern] builds: literals,
    escaped punctuation, [.], [.*], [^] and [$]. *)

Module Regexp.

Definition bs : ascii := "\"%char.
Definition star : ascii := "*"%char.
Definition qmark : ascii := "?"%char.
Definition dot : ascii := "."%char.
Definition newline : ascii := Ascii.ascii_of_nat 10.

(** The bytes [regexp.QuoteMeta] escapes. *)
Definition special : list ascii :=
  ["\"; "."; "+"; "*"; "?"; "("; ")"; "|"; "["; "]"; "{"; "}"; "^"; "$"]%char.

Definition quote_char (c : ascii) : list ascii :=
  if bool_decide (c ∈ special) then [bs; c] else [c].

(** [regexp.QuoteMeta] *)
Definition QuoteMeta (s : list ascii) : list ascii := flat_map quote_char s.

Fixpoint is_prefix (p s : list ascii) : bool :=
  match p, s with
  | [], _ => true
  | _, [] => false
  | c :: p', d :: s' => bool_decide (c = d) && is_prefix p' s'
  end.

(** [strings.ReplaceAll] for a non-empty [old]: replaces the non-overlapping
    occurrences from left to right; [skip] counts the bytes of the current
    occurrence still to be dropped. *)
Fixpoint replace_from (old new : list ascii) (skip : nat) (s : list ascii) : list ascii :=
  match s with
  | [] => []
  | c :: s' =>
      match skip with
      | S k => replace_from old new k s'
      | O =>
          if is_prefix old s
          then new ++ replace_from old new (pred (length old)) s'
          else c :: replace_from old new 0 s'
      end
  end.

Definition ReplaceAll (s old new : list ascii) : list ascii := replace_from old new 0 s.

Inductive node :=
| Begin
| End
| Lit (c : ascii)
| AnyChar
| AnyStar.

(** Parsing of the fragment; [None] is syntax outside it. *)
Fixpoint parse (s : list ascii) : option (list node) :=
  match s with
  | [] => Some []
  | c :: s' =>
      if decide (c = bs) then
        match s' with
        | d :: s'' => if decide (d ∈ special) then cons (Lit d) <$> parse s'' else None
        | [] => None
        end
      else if decide (c = dot) then
        match s' with
        | d :: s'' =>
            if decide (d = star) then cons AnyStar <$> parse s''
            else cons AnyChar <$> parse s'
        | [] => Some [AnyChar]
        end
      else if decide (c = "^"%char) then cons Begin <$> parse s'
      else if decide (c = "$"%char) then cons End <$> parse s'
      else if decide (c ∈ special) then None
      else cons (Lit c) <$> parse s'
  end.

(** [.*]: tries the continuation after each prefix free of newlines. *)
Fixpoint star_loop (k : list ascii → bool) (s : list ascii) : bool :=
  k s || match s with
         | [] => false
         | x :: s' => negb (bool_decide (x = newline)) && star_loop k s'
         end.

(** Matching at a position; [start] says it is the beginning of the text. *)
Fixpoint matches (r : list node) (start : bool) (s : list ascii) : bool :=
  match r with
  | [] => true
  | Begin :: r' => start && matches r' start s
  | End :: r' => match s with [] => matches r' start s | _ => false end
  | Lit c :: r' =>
      match s with
      | x :: s' => bool_decide (x = c) && matches r' false s'
      | [] => false
      end
  | AnyChar :: r' =>
      match s with
      | x :: s' => negb (bool_decide (x = newline)) && matches r' false s'
      | [] => false
      end
  | AnyStar :: r' =>
      matches r' start s ||
      match s with
      | [] => false
      | x :: s' => negb (bool_decide (x = newline)) && star_loop (matches r' false) s'
      end
  end.

(** Unanchored search over the later positions. *)
Fixpoint search (r : list node) (s : list ascii) : bool :=
  match s with
  | [] => false
  | _ :: s' => matches r false s' || search r s'
  end.

(** [regexp.MatchString]: [None] when the pattern does not compile. *)
Definition MatchString (pattern s : list ascii) : option bool :=
  r ← parse pattern; Some (matches r true s || search r s).

(** ** The reference: glob matching *)

Fixpoint glob (p s : list ascii) : bool :=
  match p with
  | [] => match s with [] => true | _ => false end
  | c :: p' =>
      if decide (c = star) then star_loop (glob p') s
      else
        match s with
        | [] => false
        | x :: s' =>
            (if decide (c = qmark) then negb (bool_decide (x = newline))
             else bool_decide (x = c)) && glob p' s'
        end
  end.

(** *** The translated pattern, token by token *)

Definition tok1 (c : ascii) : list ascii :=
  if decide (c = star) then [dot; star] else quote_char c.

Definition tok2 (c : ascii) : list ascii :=
  if decide (c = star) then [dot; star]
  else if decide (c = qmark) then [dot] else quote_char c.

Definition node_of (c : ascii) : node :=
  if decide (c = star) then AnyStar
  else if decide (c = qmark) then AnyChar else Lit c.

(** The next token never begins with the given wildcard. *)
Definition no_head (w : ascii) (s : list ascii) : Prop :=
  match s with [] => True | c :: _ => c ≠ w end.

Lemma no_head_quote w p e :
  w ∈ special → w ≠ bs → no_head w e → no_head w (flat_map quote_char p ++ e).
Proof.
  intros Hw Hb He. destruct p as [|c p]; simpl; [done|].
  unfold quote_char. case_bool_decide; simpl; naive_solver.
Qed.

Lemma no_head_tok1 p e :
  no_head qmark e → no_head qmark (flat_map tok1 p ++ e).
Proof.
  intros He. destruct p as [|c p]; simpl; [done|].
  unfold tok1, quote_char. case_decide; [done|].
  case_bool_decide as Hc; simpl; [done|]. intros ->. by apply Hc; compute_done.
Qed.

(** Replacing an escaped wildcard [w] rewrites exactly the tokens of [w]. *)
Lemma replace_step w new c rest :
  c ≠ w → no_head w rest →
  replace_from [bs; w] new 0 (quote_char c ++ rest) =
  quote_char c ++ replace_from [bs; w] new 0 rest.
Proof.
  intros Hc Hr. unfold quote_char. case_bool_decide as Hs; simpl.
  - rewrite bool_decide_eq_false_2 with (P := w = c) by congruence. simpl.
    destruct (decide (bs = c)) as [<-|Hne].
    + rewrite bool_decide_eq_true_2 by done. simpl. destruct rest as [|d rest]; [done|].
      simpl in Hr. by rewrite bool_decide_eq_false_2 with (P := w = d) by congruence.
    + by rewrite bool_decide_eq_false_2 with (P := bs = c) by done.
  - rewrite bool_decide_eq_false_2; [done|]. intros <-. apply Hs. compute_done.
Qed.

Lemma replace_star p e :
  no_head star e →
  replace_from [bs; star] [dot; star] 0 (flat_map quote_char p ++ e) =
  flat_map tok1 p ++ replace_from [bs; star] [dot; star] 0 e.
Proof.
  intros He. induction p as [|c p IH]; cbn [flat_map app]; [done|].
  rewrite <-!app_assoc. unfold tok1 at 1. case_decide as Hc; subst.
  - by rewrite <-IH.
  - rewrite replace_step, IH; [done|done|]. apply no_head_quote; [compute_done..|done].
Qed.

Lemma replace_qmark p e :
  no_head qmark e →
  replace_from [bs; qmark] [dot] 0 (flat_map tok1 p ++ e) =
  flat_map tok2 p ++ replace_from [bs; qmark] [dot] 0 e.
Proof.
  intros He. induction p as [|c p IH]; cbn [flat_map app]; [done|].
  rewrite <-!app_assoc. unfold tok1 at 1, tok2 at 1. case_decide as Hc; subst.
  - simpl. by rewrite IH.
  - case_decide as Hq; subst; [by rewrite <-IH|].
    rewrite replace_step, IH; [done|done|]. by apply no_head_tok1.
Qed.

Lemma parse_quote c e :
  parse (quote_char c ++ e) = cons (Lit c) <$> parse e.
Proof.
  unfold quote_char. case_bool_decide as Hs; simpl.
  - by rewrite decide_True by done.
  - repeat (case_decide; [exfalso; subst; apply Hs; first [done|compute_done]|]). done.
Qed.

Lemma no_head_tok2 p e :
  no_head star e → no_head star (flat_map tok2 p ++ e).
Proof.
  intros He. destruct p as [|c p]; simpl; [done|].
  unfold tok2, quote_char. do 2 (case_decide; [done|]).
  by case_bool_decide as Hc; simpl.
Qed.

Lemma parse_tok2 p e :
  no_head star e →
  parse (flat_map tok2 p ++ e) = app (node_of <$> p) <$> parse e.
Proof.
  intros He. induction p as [|c p IH]; cbn [flat_map app].
  - by destruct (parse e).
  - rewrite <-app_assoc, fmap_cons. unfold tok2 at 1, node_of at 1.
    assert (∀ n, cons n <$> parse (flat_map tok2 p ++ e) =
      app (n :: (node_of <$> p)) <$> parse e) as Hn.
    { intros n. rewrite IH. by destruct (parse e). }
    case_decide as Hc; [by rewrite <-Hn|]. case_decide as Hq.
    + pose proof (no_head_tok2 p e He) as Hh. rewrite <-Hn. simpl.
      destruct (flat_map tok2 p ++ e); [done|]. simpl in Hh. by rewrite decide_False.
    + by rewrite parse_quote, Hn.
Qed.

Lemma star_loop_ext k k' s : (∀ t, k t = k' t) → star_loop k s = star_loop k' s.
Proof. intros Hk. induction s as [|x s IH]; simpl; rewrite Hk; congruence. Qed.

Lemma matches_glob p start s :
  matches ((node_of <$> p) ++ [End]) start s = glob p s.
Proof.
  revert start s. induction p as [|c p IH]; intros start s; [by destruct s|].
  rewrite fmap_cons. cbn [app glob]. unfold node_of at 1. case_decide as Hc.
  - simpl. rewrite IH. destruct s as [|x s]; simpl; [done|].
    do 2 f_equal. apply star_loop_ext. intros. by apply IH.
  - case_decide as Hq; simpl; destruct s as [|x s]; by rewrite ?IH.
Qed.

Lemma search_begin r s : search (Begin :: r) s = false.
Proof. by induction s. Qed.

(** The regular expression built from a pattern always compiles and matches
    exactly the glob's texts. *)
Lemma MatchString_glob p s :
  MatchString
    (ReplaceAll (ReplaceAll ("^"%char :: QuoteMeta p ++ ["$"%char]) [bs; star] [dot; star])
       [bs; qmark] [dot]) s = Some (glob p s).
Proof.
  unfold MatchString, ReplaceAll, QuoteMeta.
  assert (∀ l new w, replace_from [bs; w] new 0 ("^"%char :: l) =
                     "^"%char :: replace_from [bs; w] new 0 l) as Hb by done.
  rewrite Hb, replace_star, Hb, replace_qmark by done.
  cbn [parse]. simpl decide. rewrite parse_tok2 by done.
  simpl. by rewrite matches_glob, search_begin, orb_false_r.
Qed.

End Regexp.

(** ** Byte strings *)

Definition slen (s : string) : Z := Z.of_nat (String.length s).

(** [s[:n]] and [s[n:]] *)
Fixpoint take_bytes (n : nat) (s : string) : string :=
  match n, s with
  | S n', String c s' => String c (take_bytes n' s')
  | _, _ => EmptyString
  end.

Fixpoint drop_bytes (n : nat) (s : string) : string :=
  match n, s with
  | S n', String _ s' => drop_bytes n' s'
  | _, _ => s
  end.

Lemma take_drop_app (a b : string) :
  take_bytes (String.length a) (a +:+ b) = a ∧ drop_bytes (String.length a) (a +:+ b) = b.
Proof.
  induction a as [|c a [IH1 IH2]]; simpl_append; simpl; [by destruct b|].
  by rewrite IH1, IH2.
Qed.

Lemma slen_app a b : slen (a +:+ b) = slen a + slen b.
Proof. unfold slen. induction a; simpl_append; simpl; lia. Qed.

(** ** Fields *)

(** The fields of a text separated by a character. *)
Fixpoint fields (c : ascii) (s : string) : list string :=
  match s with
  | EmptyString => [EmptyString]
  | String d s' =>
      if decide (d = c) then EmptyString :: fields c s'
      else match fields c s' with
           | [] => [String d EmptyString]
           | f :: fs => String d f :: fs
           end
  end.

Lemma fields_app c a s :
  contains_char c a = false → fields c (a +:+ String c s) = a :: fields c s.
Proof.
  induction a as [|d a IH]; simpl; intros Ha; simpl_append; simpl.
  - by rewrite decide_True.
  - case_decide; [done|]. by rewrite IH.
Qed.

Lemma fields_one c a : contains_char c a = false → fields c a = [a].
Proof. induction a as [|d a IH]; simpl; intros Ha; [done|]. case_decide; [done|]. by rewrite IH. Qed.

(** ** Hexadecimal text: [fmt.Sprintf("%x", b)] and [hex.DecodeString] *)

Definition hex_digit (n : N) : ascii :=
  if (n <? 10)%N then ascii_of_N (48 + n) else ascii_of_N (87 + n).

Definition hex_value (c : ascii) : option N :=
  let n := N_of_ascii c in
  if ((48 <=? n) && (n <=? 57))%N then Some (n - 48)%N
  else if ((97 <=? n) && (n <=? 102))%N then Some (n - 87)%N
  else if ((65 <=? n) && (n <=? 70))%N then Some (n - 55)%N
  else None.

Fixpoint hex_encode (s : string) : string :=
  match s with
  | EmptyString => EmptyString
  | String c s' =>
      let n := N_of_ascii c in
      String (hex_digit (n / 16)) (String (hex_digit (n mod 16)) (hex_encode s'))
  end.

(** [None] is the error of a bad digit or an odd length. *)
Fixpoint hex_decode (s : string) : option string :=
  match s with
  | EmptyString => Some EmptyString
  | String _ EmptyString => None
  | String a (String b s') =>
      match hex_value a, hex_value b, hex_decode s' with
      | Some x, Some y, Some r => Some (String (ascii_of_N (16 * x + y)) r)
      | _, _, _ => None
      end
  end.

Lemma hex_digit_value n : (n < 16)%N → hex_value (hex_digit n) = Some n.
Proof.
  intros Hn. assert (n = N.of_nat (N.to_nat n)) as -> by lia.
  assert (N.to_nat n < 16)%nat as Hk by lia. revert Hk. generalize (N.to_nat n). clear.
  intros k Hk. do 16 (destruct k as [|k]; [reflexivity|]). lia.
Qed.

(** Decoding the hexadecimal text of any bytes gives the bytes. *)
Lemma hex_roundtrip s : hex_decode (hex_encode s) = Some s.
Proof.
  induction s as [|c s IH]; [done|]. cbn [hex_encode hex_decode].
  pose proof (N_ascii_bounded c) as Hc.
  rewrite !hex_digit_value, IH by (try apply N.mod_lt; try apply N.Div0.div_lt_upper_bound; lia).
  do 2 f_equal. rewrite <-N.div_mod by lia. apply ascii_N_embedding.
Qed.

Lemma hex_encode_empty s : hex_encode s = EmptyString → s = EmptyString.
Proof. by destruct s. Qed.

(** ** [string(r)] of a rune

    The UTF-8 encoding of a code point; what is not a code point becomes
    U+FFFD. *)

Definition byte_Z (z : Z) : ascii := ascii_of_N (Z.to_N z).

Definition string_of_rune (r : Z) : string :=
  let r := if ((r <? 0) || (1114111 <? r) || ((55296 <=? r) && (r <=? 57343)))
           then 65533 else r in
  let cont k := byte_Z (128 + Z.land (Z.shiftr r k) 63) in
  if r <? 128 then String (byte_Z r) ""
  else if r <? 2048 then String (byte_Z (192 + Z.shiftr r 6)) (String (cont 0) "")
  else if r <? 65536 then
    String (byte_Z (224 + Z.shiftr r 12)) (String (cont 6) (String (cont 0) ""))
  else
    String (byte_Z (240 + Z.shiftr r 18))
      (String (cont 12) (String (cont 6) (String (cont 0) ""))).

Example string_of_rune_ascii : string_of_rune 65 = "A"%string.
Proof. reflexivity. Qed.

(** Two bytes for U+00E9. *)
Example string_of_rune_two :
  string_of_rune 233 = String (byte_Z 195) (String (byte_Z 169) "").
Proof. reflexivity. Qed.
