(* ===== verification/GoFloat.v ===== *)
(** * Go's [float64]

    IEEE 754 binary64 arithmetic, computed by the Standard Library's
    axiom-free specification of floating-point numbers ([SpecFloat]) with a
    53-bit significand: every operation rounds to nearest, ties to even, as
    the Go specification requires. *)

From S2P Require Import Prelude.
From Stdlib Require Import SpecFloat.

Abbreviation float64 := spec_float.

Definition fadd : float64 → float64 → float64 := SFadd 53 1024.
Definition fsub : float64 → float64 → float64 := SFsub 53 1024.
Definition fmul : float64 → float64 → float64 := SFmul 53 1024.
Definition fdiv : float64 → float64 → float64 := SFdiv 53 1024.

(** The comparison operators; every one is false on NaN. *)
Definition flt (x y : float64) : bool := SFltb x y.
Definition fle (x y : float64) : bool := SFleb x y.
Definition feq (x y : float64) : bool := SFeqb x y.

(** The conversion [float64(z)] of an integer. *)
Definition f_of_Z (z : Z) : float64 := binary_normalize 53 1024 z 0 false.

(** A decimal literal, the binary64 number nearest to [n/d]. *)
Definition flit (n d : Z) : float64 := fdiv (f_of_Z n) (f_of_Z d).

Definition f0 : float64 := S754_zero false.
Definition f1 : float64 := f_of_Z 1.

(** The conversion [int64(x)]: truncation toward zero.  Outside the range of
    [int64] the language leaves the result to the implementation; it is the
    one of the amd64 instruction. *)
Definition int64_of_f (x : float64) : Z :=
  let indefinite := - 2 ^ 63 in
  match x with
  | S754_zero _ => 0
  | S754_infinity _ | S754_nan => indefinite
  | S754_finite s m e =>
      let a := if 0 <=? e then Z.pos m * 2 ^ e else Z.pos m / 2 ^ (- e) in
      let z := if s then - a else a in
      if (- 2 ^ 63 <=? z) && (z <? 2 ^ 63) then z else indefinite
  end.

Definition is_nan (x : float64) : bool := match x with S754_nan => true | _ => false end.

Definition sign_bit (x : float64) : bool :=
  match x with
  | S754_zero s | S754_infinity s => s
  | S754_finite s _ _ => s
  | S754_nan => false
  end.

(** [math.Max] *)
Definition math_Max (x y : float64) : float64 :=
  match x, y with
  | S754_infinity false, _ | _, S754_infinity false => S754_infinity false
  | S754_nan, _ | _, S754_nan => S754_nan
  | S754_zero s, S754_zero _ => if s then y else x
  | _, _ => if flt y x then x else y
  end.

(** [math.Min] *)
Definition math_Min (x y : float64) : float64 :=
  match x, y with
  | S754_infinity true, _ | _, S754_infinity true => S754_infinity true
  | S754_nan, _ | _, S754_nan => S754_nan
  | S754_zero s, S754_zero _ => if s then x else y
  | _, _ => if flt x y then x else y
  end.

(** [math.Abs] *)
Definition math_Abs (x : float64) : float64 := SFabs x.

(** [math.Max(0, math.Min(1, x))] *)
Definition clamp01 (x : float64) : float64 := math_Max f0 (math_Min f1 x).

(** ** Order facts *)

Lemma SFcompare_antisym x y :
  SFcompare y x = CompOpp <$> SFcompare x y.
Proof.
  destruct x as [[]|[]| |[] mx ex], y as [[]|[]| |[] my ey]; try done; simpl;
    rewrite (Z.compare_antisym ex ey); destruct (ex ?= ey); simpl; try done;
    change (Pos.compare_cont Eq ?a ?b) with (Pos.compare a b);
    rewrite (Pos.compare_antisym mx my); by destruct (Pos.compare mx my).
Qed.

Lemma SFcompare_some x y :
  is_nan x = false → is_nan y = false → is_Some (SFcompare x y).
Proof.
  destruct x as [[]|[]| |[] mx ex], y as [[]|[]| |[] my ey]; simpl; try done;
    intros _ _; case_match; eauto.
Qed.

(** Total on numbers: what is not below is at least. *)
Lemma flt_fle x y :
  is_nan x = false → is_nan y = false → flt x y = false → fle y x = true.
Proof.
  unfold flt, fle, SFltb, SFleb. intros Hx Hy.
  destruct (SFcompare_some x y Hx Hy) as [c Hc].
  rewrite (SFcompare_antisym x y), Hc. by destruct c.
Qed.

Lemma flt_fle_weak x y : flt x y = true → fle x y = true.
Proof. unfold flt, fle, SFltb, SFleb. by destruct (SFcompare x y) as [[]|]. Qed.

Lemma f1_pos : fle f0 f1 = true.
Proof. done. Qed.

(** A clamped number is NaN or in the unit interval. *)
Lemma clamp01_range x :
  is_nan (clamp01 x) = true ∨
  (fle f0 (clamp01 x) = true ∧ fle (clamp01 x) f1 = true).
Proof.
  assert (is_nan x = true ∨ is_nan x = false ∧
    (math_Min f1 x = f1 ∨ math_Min f1 x = x ∧ fle x f1 = true)) as Hmin.
  { destruct (is_nan x) eqn:Hx; [by left|right; split; [done|]].
    destruct (flt f1 x) eqn:Hlt.
    - left. destruct x as [s|[]| |s m e]; try done. simpl math_Min. by rewrite Hlt.
    - right. split; [|by apply flt_fle].
      destruct x as [s|[]| |s m e]; try done; simpl math_Min; by rewrite ?Hlt. }
  unfold clamp01. destruct Hmin as [Hn|[Hn [->|[-> Hle]]]]; [by destruct x; left|by right|].
  right. destruct (flt x f0) eqn:Hlt.
  - assert (math_Max f0 x = f0) as ->; [|by split].
    destruct x as [[]|[]| |s m e]; try done. unfold math_Max, f0 in *. by rewrite Hlt.
  - pose proof (flt_fle x f0 Hn eq_refl Hlt) as H0.
    assert (math_Max f0 x = x ∨ math_Max f0 x = f0) as [->| ->]; [|by split|by split].
    destruct x as [[]|[]| |s m e]; auto. unfold math_Max, f0 in *. rewrite Hlt. auto.
Qed.

(** [clamp01] gives NaN only for NaN. *)
Lemma clamp01_nan x : is_nan (clamp01 x) = is_nan x.
Proof.
  destruct x as [[]|[]| |s m e]; try done. unfold clamp01.
  change f1 with (S754_finite false 4503599627370496 (-52)). cbn [math_Min].
  destruct (flt _ _); [done|]. unfold math_Max, f0. by destruct (flt _ _).
Qed.

(** Dividing by a positive number keeps the sign bit clear. *)
Lemma fdiv_nonneg x y :
  sign_bit x = false → flt f0 y = true → sign_bit (fdiv x y) = false.
Proof.
  unfold fdiv, flt, SFltb. destruct x as [[]|[]| |[] mx ex], y as [[]|[]| |[] my ey]; simpl; try done.
  intros _ _. case_match. unfold binary_round_aux. by repeat case_match.
Qed.

Lemma math_Max_nonneg x : sign_bit (math_Max f0 x) = false.
Proof.
  unfold f0. destruct x as [[]|[]| |s m e]; simpl; try done.
  unfold flt, SFltb. by destruct s.
Qed.

#[export] Hint Resolve fdiv_nonneg math_Max_nonneg : go.

(** ** Durations, times and their text (packages time and fmt)

    What the sources use of [time.Time.Sub], [time.Duration.String] and the
    verb [%.1f]. *)

From S2P Require Import GoText.
From Stdlib Require Import SpecFloat.

(** [t.Sub(u)] saturates at the bounds of [int64]. *)
Definition time_Sub (t u : Z) : Z := Z.max (- 2 ^ 63) (Z.min (2 ^ 63 - 1) (t - u)).

Lemma time_Sub_range t u : in_int64 (time_Sub t u).
Proof. unfold time_Sub, in_int64. lia. Qed.

(** Comparing a difference with a bound is comparing the times. *)
Lemma time_Sub_gt t u d : 0 ≤ d < 2 ^ 63 - 1 → (d <? time_Sub t u) = (d <? t - u).
Proof.
  intros Hd. unfold time_Sub. destruct (d <? t - u) eqn:E.
  - apply Z.ltb_lt in E. apply Z.ltb_lt. lia.
  - apply Z.ltb_ge in E. apply Z.ltb_ge. lia.
Qed.

(** ** [Duration.String] *)

(** The digits of [v / 10^prec] after the point, without trailing zeros; the
    second component is the integer part. *)
Fixpoint fmtFrac (prec : nat) (v : Z) (print : bool) (out : string) : string * Z :=
  match prec with
  | O => (if print then "." +:+ out else out, v)
  | S p =>
      let digit := v mod 10 in
      let print := print || negb (digit =? 0) in
      fmtFrac p (v / 10) print (if print then show_Z digit +:+ out else out)
  end.

Definition with_unit (prec : nat) (v : Z) (unit : string) : string :=
  let '(frac, v) := fmtFrac prec v false "" in show_Z v +:+ frac +:+ unit.

Definition Duration_String (d : Z) : string :=
  let u := Z.abs d in
  let text :=
    if u <? second then
      if u =? 0 then "0s"
      else if u <? 1000 then with_unit 0 u "ns"
      else if u <? 1000000 then with_unit 3 u (String "194" (String "181" "s"))
      else with_unit 6 u "ms"
    else
      let '(frac, s) := fmtFrac 9 u false "" in
      let seconds := show_Z (s mod 60) +:+ frac +:+ "s" in
      let m := s / 60 in
      if 0 <? m then
        let minutes := show_Z (m mod 60) +:+ "m" +:+ seconds in
        let h := m / 60 in
        if 0 <? h then show_Z h +:+ "h" +:+ minutes else minutes
      else seconds in
  if d <? 0 then "-" +:+ text else text.

Example duration_texts :
  Duration_String (90 * minute + 1500000000) = "1h30m1.5s"%string ∧
  Duration_String (12 * second) = "12s"%string ∧
  Duration_String 1200000 = "1.2ms"%string ∧ Duration_String 0 = "0s"%string ∧
  Duration_String (- 24 * hour) = "-24h0m0s"%string.
Proof. by vm_compute. Qed.

(** ** The verb [%.2f] and its like *)

(** [n / d] rounded to the nearest integer, ties to even. *)
Definition round_even (n d : Z) : Z :=
  let q := n / d in
  let r := n mod d in
  if 2 * r <? d then q
  else if d <? 2 * r then q + 1
  else if Z.even q then q else q + 1.

(** A number with zeros in front, of [digits] digits at least. *)
Definition padded (digits : nat) (n : Z) : string :=
  let text := show_Z n in String.concat "" (replicate (digits - String.length text) "0") +:+ text.

(** [%.1f], [%.2f], ... *)
Definition fmt_fixed (digits : nat) (x : float64) : string :=
  let unit := 10 ^ Z.of_nat digits in
  match x with
  | S754_nan => "NaN"
  | S754_infinity s => if s then "-Inf" else "+Inf"
  | S754_zero s => (if s then "-0." else "0.") +:+ padded digits 0
  | S754_finite s m e =>
      let parts := if 0 <=? e then unit * Z.pos m * 2 ^ e else round_even (unit * Z.pos m) (2 ^ (- e)) in
      let text := show_Z (parts / unit) +:+ "." +:+ padded digits (parts mod unit) in
      if s then "-" +:+ text else text
  end.

Definition fmt_1f : float64 → string := fmt_fixed 1.
Definition fmt_2f : float64 → string := fmt_fixed 2.

Example percent_texts :
  fmt_1f (flit 915 10) = "91.5"%string ∧ fmt_1f (flit 9225 100) = "92.2"%string ∧
  fmt_1f (f_of_Z 100) = "100.0"%string ∧ fmt_2f (flit 105 100) = "1.05"%string ∧ fmt_2f f0 = "0.00"%string.
Proof. by vm_compute. Qed.
