(* ===== verification/GoCrypto.v ===== *)
(** * SHA-256 (package crypto/sha256)

    The storage layer names data by its SHA-256 digest in hexadecimal.  The
    digest is computed as FIPS 180-4 defines it, on 32-bit words. *)

From S2P Require Import Prelude GoText.

Section Words.

Definition rotr (n x : Z) : Z := Z.lor (Z.shiftr x n) (uint32 (Z.shiftl x (32 - n))).

Definition Ch (x y z : Z) : Z := Z.lxor (Z.land x y) (Z.land (Z.lxor x (2 ^ 32 - 1)) z).
Definition Maj (x y z : Z) : Z := Z.lxor (Z.lxor (Z.land x y) (Z.land x z)) (Z.land y z).
Definition Sigma0 (x : Z) : Z := Z.lxor (Z.lxor (rotr 2 x) (rotr 13 x)) (rotr 22 x).
Definition Sigma1 (x : Z) : Z := Z.lxor (Z.lxor (rotr 6 x) (rotr 11 x)) (rotr 25 x).
Definition sigma0 (x : Z) : Z := Z.lxor (Z.lxor (rotr 7 x) (rotr 18 x)) (Z.shiftr x 3).
Definition sigma1 (x : Z) : Z := Z.lxor (Z.lxor (rotr 17 x) (rotr 19 x)) (Z.shiftr x 10).

(** The constants of the standard: the first 32 bits of the fractional parts of
    the cube roots of the first 64 primes, and of the square roots of the first
    eight. *)
Definition is_prime (n : Z) : bool :=
  (1 <? n) && forallb (fun d => negb (n mod Z.of_nat d =? 0)) (seq 2 (Z.to_nat (Z.sqrt n) - 1)).

Definition primes_upto (n : nat) : list Z := List.filter is_prime (map Z.of_nat (seq 0 (S n))).

(** The largest [r] below [lo + 2 ^ bits] with [r ^ 3 <= x], from one [lo] that is not too large. *)
Fixpoint cube_root_from (bits : nat) (lo x : Z) : Z :=
  match bits with
  | O => lo
  | S bits =>
      let mid := lo + 2 ^ Z.of_nat bits in
      cube_root_from bits (if mid ^ 3 <=? x then mid else lo) x
  end.

Definition cube_root (x : Z) : Z := cube_root_from 40 0 x.

Definition round_constants : list Z :=
  Eval vm_compute in map (fun p => uint32 (cube_root (p * 2 ^ 96))) (primes_upto 311).

Definition initial_hash : list Z :=
  Eval vm_compute in map (fun p => uint32 (Z.sqrt (p * 2 ^ 64))) (primes_upto 19).

(** The message schedule, most recent word first. *)
Fixpoint schedule (k : nat) (w : list Z) : list Z :=
  match k with
  | O => w
  | S k =>
      let at_ i := nth i w 0 in
      schedule k (uint32 (sigma1 (at_ 1%nat) + at_ 6%nat + sigma0 (at_ 14%nat) + at_ 15%nat) :: w)
  end.

Definition round (h : list Z) (kw : Z * Z) : list Z :=
  match h with
  | [a; b; c; d; e; f; g; h'] =>
      let t1 := uint32 (h' + Sigma1 e + Ch e f g + kw.1 + kw.2) in
      let t2 := uint32 (Sigma0 a + Maj a b c) in
      [uint32 (t1 + t2); a; b; c; uint32 (d + t1); e; f; g]
  | _ => h
  end.

Definition block (h : list Z) (words : list Z) : list Z :=
  let w := rev (schedule 48 (rev words)) in
  zip_with (fun x y => uint32 (x + y)) h (fold_left round (zip round_constants w) h).

End Words.

(** ** Padding and digest *)

Definition byte_values (s : string) : list Z :=
  map (fun c => Z.of_N (N_of_ascii c)) (String.list_ascii_of_string s).

(** The low [n] bytes of a number, most significant first. *)
Fixpoint be_bytes (n : nat) (x : Z) : list Z :=
  match n with
  | O => []
  | S n => Z.shiftr x (8 * Z.of_nat n) mod 256 :: be_bytes n x
  end.

(** The bit 1, zeros up to 56 bytes modulo 64, and the length in bits. *)
Definition pad (s : string) : list Z :=
  byte_values s ++ [128] ++ repeat 0 (Z.to_nat ((55 - slen s) mod 64)) ++ be_bytes 8 (8 * slen s).

Fixpoint words (bytes : list Z) : list Z :=
  match bytes with
  | a :: b :: c :: d :: bytes =>
      Z.lor (Z.lor (Z.lor (Z.shiftl a 24) (Z.shiftl b 16)) (Z.shiftl c 8)) d :: words bytes
  | _ => []
  end.

(** [n] blocks of sixteen words. *)
Fixpoint blocks (n : nat) (h w : list Z) : list Z :=
  match n with
  | O => h
  | S n => blocks n (block h (take 16 w)) (drop 16 w)
  end.

Definition Sum256 (s : string) : string :=
  let w := words (pad s) in
  String.string_of_list_ascii (map byte_Z
    (flat_map (be_bytes 4) (blocks (length w / 16) initial_hash w))).

(** [hash := sha256.Sum256(data); hex.EncodeToString(hash[:])] *)
Definition sha256_hex (s : string) : string := hex_encode (Sum256 s).

(** The test vectors of the standard. *)
Example sha256_abc : sha256_hex "abc" =
  "ba7816bf8f01cfea414140de5dae2223b00361a396177a9cb410ff61f20015ad"%string.
Proof. vm_compute. reflexivity. Qed.

Example sha256_two_blocks : sha256_hex "abcdbcdecdefdefgefghfghighijhijkijkljklmklmnlmnomnopnopq" =
  "248d6a61d20638b8e5c026930c3e6039a33ce45964ff2167f6ecedd419db06c1"%string.
Proof. vm_compute. reflexivity. Qed.

(** ** The shape of a digest *)

Lemma round_length h kw : length h = 8%nat → length (round h kw) = 8%nat.
Proof. do 9 (destruct h as [|? h]; simpl; try lia). Qed.

Lemma rounds_length kws h : length h = 8%nat → length (fold_left round kws h) = 8%nat.
Proof. revert h. induction kws; simpl; auto using round_length. Qed.

Lemma block_length h w : length h = 8%nat → length (block h w) = 8%nat.
Proof. intros Hh. unfold block. rewrite length_zip_with, rounds_length; lia. Qed.

Lemma blocks_length n h w : length h = 8%nat → length (blocks n h w) = 8%nat.
Proof. revert h w. induction n; simpl; auto using block_length. Qed.

Lemma be_bytes_length n x : length (be_bytes n x) = n.
Proof. induction n; simpl; auto. Qed.

Lemma flat_map_length {A B} (f : A → list B) k l :
  (∀ x, length (f x) = k) → length (flat_map f l) = (length l * k)%nat.
Proof. intros Hf. induction l; simpl; [done|]. rewrite length_app, Hf, IHl. lia. Qed.

Lemma string_of_list_length l : String.length (String.string_of_list_ascii l) = length l.
Proof. induction l; simpl; auto. Qed.

Lemma Sum256_length s : String.length (Sum256 s) = 32%nat.
Proof.
  unfold Sum256. rewrite string_of_list_length, length_map.
  rewrite (flat_map_length _ 4) by apply be_bytes_length. by rewrite blocks_length.
Qed.

Lemma hex_encode_length s : String.length (hex_encode s) = (2 * String.length s)%nat.
Proof. induction s; cbn [hex_encode String.length]; [done|]. lia. Qed.

Lemma sha256_hex_length s : String.length (sha256_hex s) = 64%nat.
Proof. unfold sha256_hex. by rewrite hex_encode_length, Sum256_length. Qed.

(** A character of a hexadecimal text is a digit or a letter from a to f. *)
Definition is_hex (c : ascii) : bool :=
  let n := N_of_ascii c in ((48 <=? n) && (n <=? 57) || (97 <=? n) && (n <=? 102))%N.

Lemma hex_digit_is_hex n : (n < 16)%N → is_hex (hex_digit n) = true.
Proof.
  intros Hn. assert (n = N.of_nat (N.to_nat n)) as -> by lia.
  assert (N.to_nat n < 16)%nat as Hk by lia. revert Hk. generalize (N.to_nat n). clear.
  intros k Hk. do 16 (destruct k as [|k]; [reflexivity|]). lia.
Qed.

(** No other character occurs in a hexadecimal text. *)
Lemma hex_encode_no_char c s : is_hex c = false → contains_char c (hex_encode s) = false.
Proof.
  intros Hc. induction s as [|d s IH]; [done|]. cbn [hex_encode contains_char].
  pose proof (N_ascii_bounded d) as Hd.
  assert (∀ n, (n < 16)%N → hex_digit n ≠ c) as Hne.
  { intros n Hn <-. by rewrite hex_digit_is_hex in Hc. }
  rewrite !decide_False by (apply Hne; first [apply N.mod_lt | apply N.Div0.div_lt_upper_bound]; lia).
  done.
Qed.

Lemma sha256_hex_no_char c s : is_hex c = false → contains_char c (sha256_hex s) = false.
Proof. apply hex_encode_no_char. Qed.
