(* ===== verification/PolicyTypes.v ===== *)
(** * Policy: the data model of [pkg/policy/types.go]

    Struct fields keep their Go names behind a prefix naming the struct.
    [interface{}] values, which come from JSON documents or from Go literals
    in [rules.go], are the type [Value]. *)

From S2P Require Import Prelude GoFloat.

(** ** [interface{}] *)

Inductive Value :=
| VNil
| VString (s : string)
| VBool (b : bool)
| VInt (z : Z)
| VFloat (f : float64)
| VList (l : list Value)
| VMap (m : gmap string Value).

(** The type assertions [x, _ := v.(T)] on a possibly missing map entry give
    the zero value of [T] on failure. *)
Definition as_string (v : option Value) : string :=
  match v with Some (VString s) => s | _ => ""%string end.
Definition as_bool (v : option Value) : bool :=
  match v with Some (VBool b) => b | _ => false end.
Definition as_float (v : option Value) : float64 :=
  match v with Some (VFloat f) => f | _ => f0 end.
Definition as_list (v : option Value) : list Value :=
  match v with Some (VList l) => l | _ => [] end.
Definition as_map (v : option Value) : gmap string Value :=
  match v with Some (VMap m) => m | _ => ∅ end.

(** ** Policies *)

(** [PolicyAction], [RuleType] and [ConditionOperator] are string types. *)
Definition PolicyActionAllow : string := "Allow".
Definition PolicyActionDeny : string := "Deny".
Definition PolicyActionAudit : string := "Audit".

Definition RuleTypeImageRegistry : string := "ImageRegistry".
Definition RuleTypeCapabilities : string := "Capabilities".
Definition RuleTypeEgressDestination : string := "EgressDestination".
Definition RuleTypeResourceLimit : string := "ResourceLimit".
Definition RuleTypeNodeSelector : string := "NodeSelector".
Definition RuleTypePrivilegedMode : string := "PrivilegedMode".
Definition RuleTypeHostNetwork : string := "HostNetwork".
Definition RuleTypeVolumeType : string := "VolumeType".
Definition RuleTypeSecurityContext : string := "SecurityContext".
Definition RuleTypeSeccompProfile : string := "SeccompProfile".
Definition RuleTypeAppArmorProfile : string := "AppArmorProfile".
Definition RuleTypeSELinuxOptions : string := "SELinuxOptions".
Definition RuleTypeRuntimeClass : string := "RuntimeClass".
Definition RuleTypeRunAsNonRoot : string := "RunAsNonRoot".
Definition RuleTypeReadOnlyRootFS : string := "ReadOnlyRootFS".

Definition OperatorEqual : string := "Equal".
Definition OperatorNotEqual : string := "NotEqual".
Definition OperatorIn : string := "In".
Definition OperatorNotIn : string := "NotIn".
Definition OperatorExists : string := "Exists".
Definition OperatorDoesNotExist : string := "DoesNotExist".
Definition OperatorMatches : string := "Matches".
Definition OperatorDoesNotMatch : string := "DoesNotMatch".

Record Condition := {
  cond_Field : string;
  cond_Operator : string;
  cond_Value : Value
}.

Record Rule := {
  rule_Name : string;
  rule_Description : string;
  rule_Type : string;
  rule_Config : gmap string Value;
  rule_Conditions : list Condition
}.

Record Policy := {
  pol_Name : string;
  pol_Namespace : string;
  pol_Description : string;
  pol_Enabled : bool;
  pol_Priority : Z;
  pol_Labels : gmap string string;
  pol_Rules : list Rule;
  pol_Action : string;
  pol_CreatedAt : Z;
  pol_UpdatedAt : Z;
  pol_DeletedAt : option Z
}.

(** ** Workloads *)

Record VolumeSpec := {
  vol_Name : string;
  vol_Type : string;
  vol_Source : string;
  vol_MountPath : string;
  vol_ReadOnly : bool
}.

Record PortSpec := {
  port_Name : string;
  port_Port : Z;
  port_Protocol : string;
  port_HostPort : Z
}.

Record PolicySeccompProfile := {
  sc_Type : string;
  sc_LocalhostProfile : string
}.

Record PolicyAppArmorProfile := {
  aa_Type : string;
  aa_LocalhostProfile : string
}.

Record PolicySELinuxOptions := {
  se_User : string;
  se_Role : string;
  se_Type : string;
  se_Level : string
}.

Record PolicyLinuxSecurityOptions := {
  lx_SeccompProfile : option PolicySeccompProfile;
  lx_AppArmorProfile : option PolicyAppArmorProfile;
  lx_SELinuxOptions : option PolicySELinuxOptions;
  lx_SupplementalGroups : list Z;
  lx_FSGroup : option Z;
  lx_Sysctls : gmap string string
}.

Record PolicySecurityContext := {
  ctx_Linux : option PolicyLinuxSecurityOptions;
  ctx_Privileged : bool;
  ctx_HostNetwork : bool;
  ctx_HostPID : bool;
  ctx_HostIPC : bool;
  ctx_RunAsUser : option Z;
  ctx_RunAsGroup : option Z;
  ctx_RunAsNonRoot : option bool;
  ctx_ReadOnlyRootFilesystem : bool;
  ctx_CapabilitiesAdd : list string;
  ctx_CapabilitiesDrop : list string;
  ctx_RuntimeClassName : string
}.

Record WorkloadSpec := {
  ws_Name : string;
  ws_Namespace : string;
  ws_Image : string;
  ws_Command : list string;
  ws_Args : list string;
  ws_Env : gmap string string;
  ws_Labels : gmap string string;
  ws_Annotations : gmap string string;
  ws_Privileged : bool;
  ws_Capabilities : list string;
  ws_HostNetwork : bool;
  ws_HostPID : bool;
  ws_HostIPC : bool;
  ws_RunAsUser : option Z;
  ws_RunAsGroup : option Z;
  ws_FSGroup : option Z;
  ws_ReadOnlyRootFS : bool;
  ws_SecurityContext : option PolicySecurityContext;
  ws_CPURequest : Z;
  ws_MemoryRequest : Z;
  ws_CPULimit : Z;
  ws_MemoryLimit : Z;
  ws_Volumes : list VolumeSpec;
  ws_Ports : list PortSpec;
  ws_EgressDomains : list string;
  ws_NodeSelector : gmap string string;
  ws_Region : string;
  ws_Zone : string
}.

(** ** Evaluation *)

Record Violation := {
  vio_PolicyName : string;
  vio_RuleName : string;
  vio_Message : string;
  vio_Severity : string;
  vio_Field : string;
  vio_Value : string
}.

Record AuditEntry := {
  aud_PolicyName : string;
  aud_RuleName : string;
  aud_Message : string;
  aud_Timestamp : Z;
  aud_Action : string
}.

Record EvaluationResult := {
  er_Allowed : bool;
  er_Reason : string;
  er_MatchedPolicies : list string;
  er_Violations : list Violation;
  er_AuditEntries : list AuditEntry;
  er_EvaluationTime : Z;
  er_PolicyCount : Z
}.

Record EngineConfig := {
  cfg_DefaultAction : string;
  cfg_EnableAuditLogging : bool;
  cfg_MaxEvaluationTime : Z;
  cfg_CacheEnabled : bool;
  cfg_CacheTTL : Z
}.

Definition DefaultEngineConfig : EngineConfig := {|
  cfg_DefaultAction := PolicyActionDeny;
  cfg_EnableAuditLogging := true;
  cfg_MaxEvaluationTime := 5 * second;
  cfg_CacheEnabled := true;
  cfg_CacheTTL := 5 * minute
|}.

(** A workload with every field at its zero value except the identity; the
    starting point of the concrete examples. *)
Definition bare_workload (name ns image : string) : WorkloadSpec := {|
  ws_Name := name; ws_Namespace := ns; ws_Image := image;
  ws_Command := []; ws_Args := []; ws_Env := ∅; ws_Labels := ∅; ws_Annotations := ∅;
  ws_Privileged := false; ws_Capabilities := [];
  ws_HostNetwork := false; ws_HostPID := false; ws_HostIPC := false;
  ws_RunAsUser := None; ws_RunAsGroup := None; ws_FSGroup := None;
  ws_ReadOnlyRootFS := false; ws_SecurityContext := None;
  ws_CPURequest := 0; ws_MemoryRequest := 0; ws_CPULimit := 0; ws_MemoryLimit := 0;
  ws_Volumes := []; ws_Ports := []; ws_EgressDomains := []; ws_NodeSelector := ∅;
  ws_Region := ""; ws_Zone := ""
|}.
