(* ===== verification/PolicyEvaluator.v ===== *)
(** * Policy: the rule evaluators of [pkg/policy/evaluator.go]

    One definition per [evaluate*] method, in the order of the source, and
    for each of them when it reports no violation. *)

From S2P Require Import Prelude GoText GoFloat PolicyTypes.

(** ** Matching *)

(** [matchesPattern]: the glob is translated to a regular expression.  A
    pattern that does not compile matches nothing. *)
Definition matchesPattern (value pattern : string) : bool :=
  let value := String.list_ascii_of_string (ToLower value) in
  let pattern := String.list_ascii_of_string (ToLower pattern) in
  let regexPattern := "^"%char :: Regexp.QuoteMeta pattern ++ ["$"%char] in
  let regexPattern := Regexp.ReplaceAll regexPattern ["\"; "*"]%char ["."; "*"]%char in
  let regexPattern := Regexp.ReplaceAll regexPattern ["\"; "?"]%char ["."]%char in
  match Regexp.MatchString regexPattern value with
  | Some matched => matched
  | None => false
  end.

(** [extractRegistry] *)
Definition extractRegistry (image : string) : string :=
  match split_first "/"%char image with
  | (_, None) => "docker.io"
  | (first, Some _) =>
      if contains_char "."%char first || contains_char ":"%char first
      then first
      else "docker.io"
  end.

(** The loop [for _, x := range l { if s, ok := x.(string); ok && test(s) ... }]. *)
Definition any_string (test : string → bool) (l : list Value) : bool :=
  existsb (fun v => match v with VString s => test s | _ => false end) l.

(** One violation for each string of the list that satisfies the test. *)
Definition each_string (test : string → bool) (v : Violation) (l : list Value) : list Violation :=
  flat_map (fun x => match x with VString s => if test s then [v] else [] | _ => [] end) l.

Definition nonempty {A} (l : list A) : bool := match l with [] => false | _ => true end.

Section Rules.
Context `{GoRange}.
Variables (rule : Rule) (spec : WorkloadSpec).

Let cfg (k : string) : option Value := rule_Config rule !! k.

Definition mkViolation (msg sev field value : string) : Violation := {|
  vio_PolicyName := ""; vio_RuleName := rule_Name rule; vio_Message := msg;
  vio_Severity := sev; vio_Field := field; vio_Value := value |}.

(** [evaluateImageRegistry] *)
Definition evaluateImageRegistry : list Violation :=
  let allowedRegistries := as_list (cfg "allowed_registries") in
  let deniedRegistries := as_list (cfg "denied_registries") in
  let registry := extractRegistry (ws_Image spec) in
  if any_string (matchesPattern registry) deniedRegistries then
    [mkViolation ("Image registry '" +:+ registry +:+ "' is denied by policy")
       "High" "image" (ws_Image spec)]
  else if nonempty allowedRegistries &&
          negb (any_string (matchesPattern registry) allowedRegistries) then
    [mkViolation ("Image registry '" +:+ registry +:+ "' is not in allowed list")
       "High" "image" (ws_Image spec)]
  else [].

(** [evaluateCapabilities] *)
Definition evaluateCapabilities : list Violation :=
  let allowedCaps := as_list (cfg "allowed_capabilities") in
  let deniedCaps := as_list (cfg "denied_capabilities") in
  flat_map (fun cap =>
    each_string (EqualFold cap)
      (mkViolation ("Capability '" +:+ cap +:+ "' is denied by policy")
         "Critical" "capabilities" cap) deniedCaps ++
    (if nonempty allowedCaps && negb (any_string (EqualFold cap) allowedCaps) then
       [mkViolation ("Capability '" +:+ cap +:+ "' is not in allowed list")
          "High" "capabilities" cap]
     else [])) (ws_Capabilities spec).

(** [evaluateEgressDestination] *)
Definition evaluateEgressDestination : list Violation :=
  let allowedDests := as_list (cfg "allowed_destinations") in
  let deniedDests := as_list (cfg "denied_destinations") in
  flat_map (fun domain =>
    each_string (matchesPattern domain)
      (mkViolation ("Egress to '" +:+ domain +:+ "' is denied by policy")
         "High" "egress_domains" domain) deniedDests ++
    (if nonempty allowedDests && negb (any_string (matchesPattern domain) allowedDests) then
       [mkViolation ("Egress to '" +:+ domain +:+ "' is not in allowed list")
          "Medium" "egress_domains" domain]
     else [])) (ws_EgressDomains spec).

(** [evaluateResourceLimit] *)
Definition evaluateResourceLimit : list Violation :=
  let maxCPU := as_float (cfg "max_cpu_millicores") in
  let maxMemory := as_float (cfg "max_memory_bytes") in
  let requireLimits := as_bool (cfg "require_limits") in
  (if flt f0 maxCPU && flt maxCPU (f_of_Z (ws_CPURequest spec)) then
     [mkViolation ("CPU request " +:+ show_Z (ws_CPURequest spec) +:+ "m exceeds maximum "
                   +:+ show_Z (int64_of_f maxCPU) +:+ "m")
        "Medium" "resources.cpu_request" (show_Z (ws_CPURequest spec))]
   else []) ++
  (if flt f0 maxMemory && flt maxMemory (f_of_Z (ws_MemoryRequest spec)) then
     [mkViolation ("Memory request " +:+ show_Z (ws_MemoryRequest spec)
                   +:+ " bytes exceeds maximum " +:+ show_Z (int64_of_f maxMemory) +:+ " bytes")
        "Medium" "resources.memory_request" (show_Z (ws_MemoryRequest spec))]
   else []) ++
  (if requireLimits then
     (if ws_CPULimit spec =? 0 then
        [mkViolation "CPU limit is required by policy" "Medium" "resources.cpu_limit" "0"]
      else []) ++
     (if ws_MemoryLimit spec =? 0 then
        [mkViolation "Memory limit is required by policy" "Medium" "resources.memory_limit" "0"]
      else [])
   else []).

(** [evaluateNodeSelector]: the two loops range over maps. *)
Definition required_label (key : string) (value : Value) : list Violation :=
  let requiredValue := as_string (Some value) in
  match ws_NodeSelector spec !! key with
  | None =>
      [mkViolation ("Required node selector label '" +:+ key +:+ "' is missing")
         "Medium" "node_selector" ""]
  | Some specValue =>
      if negb (requiredValue =?s "") && negb (specValue =?s requiredValue) then
        [mkViolation ("Node selector label '" +:+ key +:+ "' has value '" +:+ specValue
                      +:+ "', expected '" +:+ requiredValue +:+ "'")
           "Medium" "node_selector" specValue]
      else []
  end.

Definition denied_label (key : string) (value : Value) : list Violation :=
  let deniedValue := as_string (Some value) in
  match ws_NodeSelector spec !! key with
  | None => []
  | Some specValue =>
      if (deniedValue =?s "") || (specValue =?s deniedValue) then
        [mkViolation ("Node selector label '" +:+ key +:+ "=" +:+ specValue
                      +:+ "' is denied by policy")
           "High" "node_selector" specValue]
      else []
  end.

Definition evaluateNodeSelector : list Violation :=
  let requiredLabels := as_map (cfg "required_labels") in
  let deniedLabels := as_map (cfg "denied_labels") in
  flat_map (fun kv => required_label kv.1 kv.2) (range_map requiredLabels) ++
  flat_map (fun kv => denied_label kv.1 kv.2) (range_map deniedLabels).

(** [evaluatePrivilegedMode] *)
Definition evaluatePrivilegedMode : list Violation :=
  let allowPrivileged := as_bool (cfg "allow_privileged") in
  if ws_Privileged spec && negb allowPrivileged then
    [mkViolation "Privileged mode is not allowed by policy" "Critical" "privileged" "true"]
  else [].

(** [evaluateHostNetwork] *)
Definition evaluateHostNetwork : list Violation :=
  let allowHostNetwork := as_bool (cfg "allow_host_network") in
  let allowHostPID := as_bool (cfg "allow_host_pid") in
  let allowHostIPC := as_bool (cfg "allow_host_ipc") in
  (if ws_HostNetwork spec && negb allowHostNetwork then
     [mkViolation "Host network access is not allowed by policy" "Critical" "host_network" "true"]
   else []) ++
  (if ws_HostPID spec && negb allowHostPID then
     [mkViolation "Host PID namespace access is not allowed by policy" "Critical" "host_pid" "true"]
   else []) ++
  (if ws_HostIPC spec && negb allowHostIPC then
     [mkViolation "Host IPC namespace access is not allowed by policy" "Critical" "host_ipc" "true"]
   else []).

(** [evaluateVolumeType] *)
Definition evaluateVolumeType : list Violation :=
  let allowedTypes := as_list (cfg "allowed_types") in
  let deniedTypes := as_list (cfg "denied_types") in
  flat_map (fun volume =>
    each_string (fun denied => vol_Type volume =?s denied)
      (mkViolation ("Volume type '" +:+ vol_Type volume +:+ "' is denied by policy")
         "High" "volumes" (vol_Type volume)) deniedTypes ++
    (if nonempty allowedTypes &&
        negb (any_string (fun allowed => vol_Type volume =?s allowed) allowedTypes) then
       [mkViolation ("Volume type '" +:+ vol_Type volume +:+ "' is not in allowed list")
          "Medium" "volumes" (vol_Type volume)]
     else [])) (ws_Volumes spec).

(** [evaluateSecurityContext] *)
Definition evaluateSecurityContext : list Violation :=
  let requireSecurityContext := as_bool (cfg "require_security_context") in
  match ws_SecurityContext spec with
  | None =>
      if requireSecurityContext then
        [mkViolation "Security context is required by policy but not specified"
           "High" "security_context" "nil"]
      else []
  | Some sc =>
      let forbidPrivileged := as_bool (cfg "forbid_privileged") in
      let requireNonRoot := as_bool (cfg "require_non_root") in
      let requireReadOnlyRoot := as_bool (cfg "require_read_only_root") in
      (if forbidPrivileged && ctx_Privileged sc then
         [mkViolation "Privileged containers are forbidden by security policy"
            "Critical" "security_context.privileged" "true"]
       else []) ++
      (if requireNonRoot && negb (default false (ctx_RunAsNonRoot sc)) then
         [mkViolation "RunAsNonRoot must be set to true"
            "High" "security_context.run_as_non_root" "false or unset"]
       else []) ++
      (if requireReadOnlyRoot && negb (ctx_ReadOnlyRootFilesystem sc) then
         [mkViolation "Read-only root filesystem is required by policy"
            "Medium" "security_context.read_only_root_filesystem" "false"]
       else [])
  end.

(** [spec.SecurityContext.Linux], [nil] when either pointer is. *)
Definition linux_options : option PolicyLinuxSecurityOptions :=
  ws_SecurityContext spec ≫= ctx_Linux.

(** [evaluateSeccompProfile] *)
Definition evaluateSeccompProfile : list Violation :=
  let requireSeccomp := as_bool (cfg "require_seccomp") in
  let allowedTypes := as_list (cfg "allowed_types") in
  let forbidUnconfined := as_bool (cfg "forbid_unconfined") in
  match linux_options ≫= lx_SeccompProfile with
  | None =>
      if requireSeccomp then
        [mkViolation "Seccomp profile is required by policy but not specified"
           "High" "security_context.linux.seccomp_profile" "nil"]
      else []
  | Some profile =>
      (if forbidUnconfined && (sc_Type profile =?s "Unconfined") then
         [mkViolation "Unconfined seccomp profile is not allowed by policy"
            "Critical" "security_context.linux.seccomp_profile.type" "Unconfined"]
       else []) ++
      (if nonempty allowedTypes &&
          negb (any_string (fun t => sc_Type profile =?s t) allowedTypes) then
         [mkViolation ("Seccomp profile type '" +:+ sc_Type profile +:+ "' is not in allowed list")
            "High" "security_context.linux.seccomp_profile.type" (sc_Type profile)]
       else [])
  end.

(** [evaluateAppArmorProfile] *)
Definition evaluateAppArmorProfile : list Violation :=
  let requireAppArmor := as_bool (cfg "require_apparmor") in
  let allowedTypes := as_list (cfg "allowed_types") in
  let forbidUnconfined := as_bool (cfg "forbid_unconfined") in
  match linux_options ≫= lx_AppArmorProfile with
  | None =>
      if requireAppArmor then
        [mkViolation "AppArmor profile is required by policy but not specified"
           "High" "security_context.linux.apparmor_profile" "nil"]
      else []
  | Some profile =>
      (if forbidUnconfined && (aa_Type profile =?s "Unconfined") then
         [mkViolation "Unconfined AppArmor profile is not allowed by policy"
            "Critical" "security_context.linux.apparmor_profile.type" "Unconfined"]
       else []) ++
      (if nonempty allowedTypes &&
          negb (any_string (fun t => aa_Type profile =?s t) allowedTypes) then
         [mkViolation ("AppArmor profile type '" +:+ aa_Type profile +:+ "' is not in allowed list")
            "High" "security_context.linux.apparmor_profile.type" (aa_Type profile)]
       else [])
  end.

(** [evaluateSELinuxOptions] *)
Definition evaluateSELinuxOptions : list Violation :=
  let requireSELinux := as_bool (cfg "require_selinux") in
  let requiredType := as_string (cfg "required_type") in
  let requiredLevel := as_string (cfg "required_level") in
  let allowedTypes := as_list (cfg "allowed_types") in
  match linux_options ≫= lx_SELinuxOptions with
  | None =>
      if requireSELinux then
        [mkViolation "SELinux options are required by policy but not specified"
           "Medium" "security_context.linux.selinux_options" "nil"]
      else []
  | Some options =>
      (if nonempty allowedTypes &&
          negb (any_string (fun t => se_Type options =?s t) allowedTypes) then
         [mkViolation ("SELinux type '" +:+ se_Type options +:+ "' is not in allowed list")
            "High" "security_context.linux.selinux_options.type" (se_Type options)]
       else []) ++
      (if negb (requiredType =?s "") && negb (se_Type options =?s requiredType) then
         [mkViolation ("SELinux type must be '" +:+ requiredType +:+ "', got '"
                       +:+ se_Type options +:+ "'")
            "High" "security_context.linux.selinux_options.type" (se_Type options)]
       else []) ++
      (if negb (requiredLevel =?s "") && negb (se_Level options =?s requiredLevel) then
         [mkViolation ("SELinux level must be '" +:+ requiredLevel +:+ "', got '"
                       +:+ se_Level options +:+ "'")
            "Medium" "security_context.linux.selinux_options.level" (se_Level options)]
       else [])
  end.

Definition sandboxedRuntimes : list string := ["gvisor"; "kata"; "firecracker"].

(** [evaluateRuntimeClass] *)
Definition evaluateRuntimeClass : list Violation :=
  let allowedRuntimeClasses := as_list (cfg "allowed_runtime_classes") in
  let allowedClasses :=
    if nonempty allowedRuntimeClasses then allowedRuntimeClasses
    else as_list (cfg "allowed_classes") in
  let forbiddenClasses := as_list (cfg "forbidden_classes") in
  let requireRuntimeClass := as_bool (cfg "require_runtime_class") in
  let requireSandboxed := as_bool (cfg "require_sandboxed") in
  let runtimeClass :=
    match ws_SecurityContext spec with
    | Some sc => ctx_RuntimeClassName sc
    | None => ""%string
    end in
  if requireRuntimeClass && (runtimeClass =?s "") then
    [mkViolation "Runtime class is required by policy but not specified"
       "Medium" "security_context.runtime_class_name" "empty"]
  else
    (if requireSandboxed &&
        ((runtimeClass =?s "") || (runtimeClass =?s "runc")
         || negb (bool_decide (runtimeClass ∈ sandboxedRuntimes))) then
       [mkViolation ("Sandboxed runtime required but got '" +:+ runtimeClass +:+ "'")
          "High" "security_context.runtime_class_name" runtimeClass]
     else []) ++
    each_string (fun forbidden => runtimeClass =?s forbidden)
      (mkViolation ("Runtime class '" +:+ runtimeClass +:+ "' is forbidden by policy")
         "High" "security_context.runtime_class_name" runtimeClass) forbiddenClasses ++
    (if nonempty allowedClasses && negb (runtimeClass =?s "") &&
        negb (any_string (fun c => runtimeClass =?s c) allowedClasses) then
       [mkViolation ("Runtime class '" +:+ runtimeClass +:+ "' is not in allowed list")
          "High" "security_context.runtime_class_name" runtimeClass]
     else []).

(** [evaluateRunAsNonRoot] *)
Definition evaluateRunAsNonRoot : list Violation :=
  let enforceNonRoot := as_bool (cfg "enforce") in
  if negb enforceNonRoot then []
  else
    match ws_SecurityContext spec with
    | None =>
        [mkViolation "Security context is required to enforce RunAsNonRoot"
           "High" "security_context" "nil"]
    | Some sc =>
        let hasRunAsNonRoot := default false (ctx_RunAsNonRoot sc) in
        let hasNonRootUser := match ctx_RunAsUser sc with Some u => 0 <? u | None => false end in
        let hasRootUser := match ctx_RunAsUser sc with Some u => u =? 0 | None => false end in
        if hasRootUser then
          [mkViolation "RunAsUser cannot be 0 (root) when RunAsNonRoot is required"
             "Critical" "security_context.run_as_user" "0"]
        else if negb hasRunAsNonRoot && negb hasNonRootUser then
          [mkViolation "RunAsNonRoot must be explicitly set to true"
             "High" "security_context.run_as_non_root" "false or unset"]
        else []
    end.

(** [evaluateReadOnlyRootFS] *)
Definition evaluateReadOnlyRootFS : list Violation :=
  let enforceReadOnly := as_bool (cfg "enforce") in
  if negb enforceReadOnly then []
  else if any_string (fun exception => ws_Name spec =?s exception) (as_list (cfg "exceptions"))
  then []
  else
    match ws_SecurityContext spec with
    | None =>
        [mkViolation "Security context is required to enforce ReadOnlyRootFilesystem"
           "Medium" "security_context" "nil"]
    | Some sc =>
        if negb (ctx_ReadOnlyRootFilesystem sc) then
          [mkViolation "Read-only root filesystem is required by policy"
             "Medium" "security_context.read_only_root_filesystem" "false"]
        else []
    end.

(** [EvaluateRule]: the dispatch on the rule's type. *)
Definition EvaluateRule : list Violation :=
  let t := rule_Type rule in
  if t =?s RuleTypeImageRegistry then evaluateImageRegistry
  else if t =?s RuleTypeCapabilities then evaluateCapabilities
  else if t =?s RuleTypeEgressDestination then evaluateEgressDestination
  else if t =?s RuleTypeResourceLimit then evaluateResourceLimit
  else if t =?s RuleTypeNodeSelector then evaluateNodeSelector
  else if t =?s RuleTypePrivilegedMode then evaluatePrivilegedMode
  else if t =?s RuleTypeHostNetwork then evaluateHostNetwork
  else if t =?s RuleTypeVolumeType then evaluateVolumeType
  else if t =?s RuleTypeSecurityContext then evaluateSecurityContext
  else if t =?s RuleTypeSeccompProfile then evaluateSeccompProfile
  else if t =?s RuleTypeAppArmorProfile then evaluateAppArmorProfile
  else if t =?s RuleTypeSELinuxOptions then evaluateSELinuxOptions
  else if t =?s RuleTypeRuntimeClass then evaluateRuntimeClass
  else if t =?s RuleTypeRunAsNonRoot then evaluateRunAsNonRoot
  else if t =?s RuleTypeReadOnlyRootFS then evaluateReadOnlyRootFS
  else [].

End Rules.

(** ** Facts about the loops *)

Lemma any_string_spec test l :
  any_string test l = true ↔ ∃ s, VString s ∈ l ∧ test s = true.
Proof.
  unfold any_string. rewrite existsb_exists'. split.
  - intros ([| s | | | | |] & ? & ?); naive_solver.
  - intros (s & ? & ?). by exists (VString s).
Qed.

Lemma each_string_nil test v l :
  each_string test v l = [] ↔ any_string test l = false.
Proof.
  unfold each_string, any_string. induction l as [|x l IH]; simpl; [done|].
  destruct x; simpl; try done. by case_match.
Qed.

Lemma if_nil {A} (b : bool) (x : A) : (if b then [x] else []) = [] ↔ b = false.
Proof. by destruct b. Qed.

Lemma allow_list_ok (l : list Value) test :
  nonempty l && negb (any_string test l) = false ↔ l = [] ∨ any_string test l = true.
Proof.
  destruct l as [|x l]; cbn [nonempty andb]; [by split; auto|].
  destruct (any_string test (x :: l)); simpl; split; auto. by intros [?|?].
Qed.

Definition allow_deny_ok (allowed denied : list Value) (test : string → bool) : Prop :=
  any_string test denied = false ∧ (allowed = [] ∨ any_string test allowed = true).

(** The deny-list/allow-list check shared by the capability, egress and
    volume rules. *)
Lemma allow_deny_nil (allowed denied : list Value) test v w :
  each_string test v denied ++
    (if nonempty allowed && negb (any_string test allowed) then [w] else []) = [] ↔
  allow_deny_ok allowed denied test.
Proof. unfold allow_deny_ok. by rewrite app_nil, each_string_nil, if_nil, allow_list_ok. Qed.

(** ** Matching *)

Lemma matchesPattern_eq value pattern :
  matchesPattern value pattern =
  Regexp.glob (String.list_ascii_of_string (ToLower pattern))
              (String.list_ascii_of_string (ToLower value)).
Proof.
  unfold matchesPattern. change ["\"; "*"]%char with [Regexp.bs; Regexp.star].
  change ["."; "*"]%char with [Regexp.dot; Regexp.star].
  change ["\"; "?"]%char with [Regexp.bs; Regexp.qmark].
  change ["."]%char with [Regexp.dot]. by rewrite Regexp.MatchString_glob.
Qed.

Lemma glob_literal p s :
  Regexp.star ∉ p → Regexp.qmark ∉ p → Regexp.glob p s = true ↔ s = p.
Proof.
  revert s. induction p as [|c p IH]; intros s Hs Hq; simpl; [by destruct s|].
  apply not_elem_of_cons in Hs as [? ?], Hq as [? ?].
  rewrite decide_False by done. destruct s as [|x s]; [by split|].
  rewrite decide_False, andb_true_iff, bool_decide_eq_true, IH by done.
  split; [by intros [-> ->]|by intros [= -> ->]].
Qed.

Lemma extractRegistry_no_slash image :
  contains_char "/"%char (extractRegistry image) = false.
Proof.
  unfold extractRegistry. destruct (split_first _ image) as [first [rest|]] eqn:E; [|done].
  case_match; [|done]. by eapply contains_char_split.
Qed.

Lemma lower_ascii_slash c : lower_ascii c = "/"%char → c = "/"%char.
Proof.
  unfold lower_ascii. case_match eqn:Hr; [|done]. intros Hc.
  apply andb_true_iff in Hr as [?%N.leb_le ?%N.leb_le].
  apply (f_equal Ascii.N_of_ascii) in Hc. rewrite Ascii.N_ascii_embedding in Hc by lia.
  change (N_of_ascii "/") with 47%N in Hc. lia.
Qed.

Lemma contains_char_lower s :
  contains_char "/"%char s = false → "/"%char ∉ String.list_ascii_of_string (ToLower s).
Proof.
  induction s as [|c s IH]; simpl; [set_solver|]. case_decide; [done|]. intros Hs.
  apply not_elem_of_cons. split; [|by apply IH].
  intros Heq. by apply H, lower_ascii_slash.
Qed.


(** A pattern without wildcards and without a slash compares texts up to case. *)
Definition plain (pattern : string) : bool :=
  forallb (fun c => negb (bool_decide (c = Regexp.star)) && negb (bool_decide (c = Regexp.qmark)))
    (String.list_ascii_of_string (ToLower pattern)).

Lemma plain_glob pattern s :
  plain pattern = true →
  Regexp.glob (String.list_ascii_of_string (ToLower pattern)) s =
  bool_decide (s = String.list_ascii_of_string (ToLower pattern)).
Proof.
  unfold plain. rewrite forallb_forall'. intros Hp. apply eq_true_iff_eq.
  rewrite bool_decide_eq_true, glob_literal; [done| |];
    intros Hin; apply Hp in Hin; bool_to_prop; done.
Qed.

Lemma matchesPattern_literal value pattern :
  plain pattern = true → matchesPattern value pattern = bool_decide (ToLower value = ToLower pattern).
Proof.
  intros Hp. rewrite matchesPattern_eq, plain_glob by done. apply bool_decide_ext.
  split; [|by intros ->]. intros Heq.
  rewrite <-(String.string_of_list_ascii_of_string (ToLower value)), Heq.
  apply String.string_of_list_ascii_of_string.
Qed.

Lemma matchesPattern_slash image pattern :
  plain pattern = true → contains_char "/"%char (ToLower pattern) = true →
  matchesPattern (extractRegistry image) pattern = false.
Proof.
  intros Hp Hs. rewrite matchesPattern_literal by done. apply bool_decide_eq_false. intros Heq.
  pose proof (contains_char_lower _ (extractRegistry_no_slash image)) as Hn. rewrite Heq in Hn.
  clear Heq Hp. induction (ToLower pattern) as [|c s IH]; simpl in *; [done|].
  apply not_elem_of_cons in Hn as [? ?]. case_decide; [by subst|auto].
Qed.

(** a wildcard-free pattern that contains a slash matches the registry of
    no image, so an allow-list entry such as [gcr.io/company-prod] is dead. *)
Theorem slash_pattern_matches_no_registry (image pattern : string) :
  plain pattern = true → contains_char "/"%char (ToLower pattern) = true →
  matchesPattern (extractRegistry image) pattern = false.
Proof. apply matchesPattern_slash. Qed.

Lemma slash_pattern_matches_no_registry_witness :
  matchesPattern (extractRegistry "gcr.io/company-prod/api:1") "gcr.io/company-prod" = false.
Proof.
  apply (slash_pattern_matches_no_registry "gcr.io/company-prod/api:1" "gcr.io/company-prod");
    reflexivity.
Defined.

(** ** When the evaluators report nothing *)

Section Clean.
Variables (rule : Rule) (spec : WorkloadSpec).
Let cfg (k : string) : option Value := rule_Config rule !! k.

(** An image passes the registry rule exactly when its registry matches no
    denied pattern and, if there is an allow list, one of its patterns. *)
Theorem evaluateImageRegistry_clean :
  evaluateImageRegistry rule spec = [] ↔
  allow_deny_ok (as_list (cfg "allowed_registries")) (as_list (cfg "denied_registries"))
    (matchesPattern (extractRegistry (ws_Image spec))).
Proof.
  unfold evaluateImageRegistry, allow_deny_ok. fold (cfg "allowed_registries").
  fold (cfg "denied_registries"). rewrite <-allow_list_ok.
  destruct (any_string _ (as_list (cfg "denied_registries"))); [by split; [|intros [? ?]]|].
  rewrite if_nil. tauto.
Qed.

Lemma evaluateCapabilities_clean_iff :
  evaluateCapabilities rule spec = [] ↔
  ∀ cap, cap ∈ ws_Capabilities spec →
    allow_deny_ok (as_list (cfg "allowed_capabilities"))
      (as_list (cfg "denied_capabilities")) (EqualFold cap).
Proof.
  unfold evaluateCapabilities. rewrite flat_map_nil_iff. by setoid_rewrite allow_deny_nil.
Qed.

Lemma evaluateEgressDestination_clean_iff :
  evaluateEgressDestination rule spec = [] ↔
  ∀ domain, domain ∈ ws_EgressDomains spec →
    allow_deny_ok (as_list (cfg "allowed_destinations"))
      (as_list (cfg "denied_destinations")) (matchesPattern domain).
Proof.
  unfold evaluateEgressDestination. rewrite flat_map_nil_iff. by setoid_rewrite allow_deny_nil.
Qed.

Lemma evaluateVolumeType_clean_iff :
  evaluateVolumeType rule spec = [] ↔
  ∀ v, v ∈ ws_Volumes spec →
    allow_deny_ok (as_list (cfg "allowed_types")) (as_list (cfg "denied_types"))
      (fun t => vol_Type v =?s t).
Proof.
  unfold evaluateVolumeType. rewrite flat_map_nil_iff. by setoid_rewrite allow_deny_nil.
Qed.

Lemma evaluatePrivilegedMode_clean_iff :
  evaluatePrivilegedMode rule spec = [] ↔
  ws_Privileged spec = false ∨ as_bool (cfg "allow_privileged") = true.
Proof.
  unfold evaluatePrivilegedMode. fold (cfg "allow_privileged"). rewrite if_nil.
  destruct (ws_Privileged spec), (as_bool _); simpl; intuition done.
Qed.

Lemma evaluateHostNetwork_clean_iff :
  evaluateHostNetwork rule spec = [] ↔
  (ws_HostNetwork spec = false ∨ as_bool (cfg "allow_host_network") = true) ∧
  (ws_HostPID spec = false ∨ as_bool (cfg "allow_host_pid") = true) ∧
  (ws_HostIPC spec = false ∨ as_bool (cfg "allow_host_ipc") = true).
Proof.
  unfold evaluateHostNetwork. fold (cfg "allow_host_network"). fold (cfg "allow_host_pid").
  fold (cfg "allow_host_ipc"). rewrite !app_nil, !if_nil.
  destruct (ws_HostNetwork spec), (ws_HostPID spec), (ws_HostIPC spec), (as_bool (cfg _)),
    (as_bool (cfg _)), (as_bool (cfg _)); simpl; intuition done.
Qed.

(** The non-root rule, when enforced, accepts exactly the workloads with a
    security context whose user is not the root user and that either
    declares [RunAsNonRoot] or names a positive user id. *)
Theorem evaluateRunAsNonRoot_clean :
  evaluateRunAsNonRoot rule spec = [] ↔
  as_bool (cfg "enforce") = false ∨
  ∃ sc, ws_SecurityContext spec = Some sc ∧ ctx_RunAsUser sc ≠ Some 0 ∧
    (ctx_RunAsNonRoot sc = Some true ∨ ∃ u, ctx_RunAsUser sc = Some u ∧ 0 < u).
Proof.
  unfold evaluateRunAsNonRoot. fold (cfg "enforce").
  destruct (as_bool (cfg "enforce")); simpl; [|by split; auto].
  destruct (ws_SecurityContext spec) as [sc|]; [|split; [done|intros [|(?&?&_)]; done]].
  destruct (ctx_RunAsUser sc) as [u|] eqn:Hu; simpl.
  - destruct (u =? 0) eqn:H0; bool_to_prop; subst.
    { split; [done|]. intros [|(?&[= <-]&?&?)]; congruence. }
    destruct (0 <? u) eqn:Hp; bool_to_prop.
    + rewrite andb_false_r. split; [|done]. intros _. right. exists sc.
      split; [done|]. split; [congruence|eauto].
    + rewrite andb_true_r, if_nil, negb_false_iff. split.
      * intros Hd. right. exists sc. split; [done|]. split; [congruence|left].
        by destruct (ctx_RunAsNonRoot sc) as [[]|].
      * intros [|(?&[= <-]&?&[->|(?&[= ->]%(eq_trans (eq_sym Hu))&?)])]; [done..|lia].
  - rewrite andb_true_r, if_nil, negb_false_iff. split.
    + intros Hd. right. exists sc. split; [done|]. split; [congruence|left].
      by destruct (ctx_RunAsNonRoot sc) as [[]|].
    + intros [|(?&[= <-]&?&[->|(?&Hu'&?)])]; first [done|congruence].
Qed.

(** A rule that requires a sandboxed runtime accepts only workloads of one
    of the sandboxed runtime classes. *)
Theorem evaluateRuntimeClass_sandboxed :
  as_bool (cfg "require_sandboxed") = true →
  evaluateRuntimeClass rule spec = [] →
  ∃ sc, ws_SecurityContext spec = Some sc ∧ ctx_RuntimeClassName sc ∈ sandboxedRuntimes.
Proof.
  unfold evaluateRuntimeClass. fold (cfg "require_sandboxed"). intros ->. simpl.
  destruct (_ && _); [done|]. rewrite app_nil, if_nil. intros [Hs _]. bool_to_prop.
  destruct (ws_SecurityContext spec) as [sc|]; [eauto|done].
Qed.

End Clean.

(** ** The order of iteration over maps does not change the violations *)

Lemma evaluateNodeSelector_order (R1 R2 : GoRange) rule spec :
  @evaluateNodeSelector R1 rule spec ≡ₚ @evaluateNodeSelector R2 rule spec.
Proof.
  unfold evaluateNodeSelector.
  apply Permutation_app; (apply flat_map_perm; [by rewrite !range_map_perm|done]).
Qed.

Lemma EvaluateRule_order (R1 R2 : GoRange) rule spec :
  @EvaluateRule R1 rule spec ≡ₚ @EvaluateRule R2 rule spec.
Proof.
  unfold EvaluateRule. do 4 (case_match; [done|]).
  case_match; [apply evaluateNodeSelector_order|done].
Qed.

Lemma EvaluateRule_nil_order (R1 R2 : GoRange) rule spec :
  @EvaluateRule R1 rule spec = [] → @EvaluateRule R2 rule spec = [].
Proof.
  intros Hn. apply Permutation_nil. rewrite <-Hn. apply EvaluateRule_order.
Qed.

#[export] Hint Resolve EvaluateRule_order EvaluateRule_nil_order : go.
