(* ===== verification/PolicyEngine.v ===== *)
(** * Policy: the engine of [pkg/policy/engine.go]

    The engine's state is its policy table and the cache of evaluation
    results.  Clock readings and the expiry of the evaluation deadline are
    inputs ([EvalEnv]).  The abstract specification is [admits], a predicate
    on the policy table alone; [Evaluate_refines] shows that an evaluation
    that misses the cache decides it. *)

From S2P Require Import Prelude GoText GoFloat PolicyTypes PolicyEvaluator.

(** ** State *)

Record cachedResult := {
  cr_result : EvaluationResult;
  cr_expiresAt : Z
}.

Record Engine := {
  eng_config : EngineConfig;
  eng_policies : gmap string Policy;
  eng_cache : gmap string cachedResult
}.

Definition NewEngine (config : EngineConfig) : Engine :=
  {| eng_config := config; eng_policies := ∅; eng_cache := ∅ |}.

(** What an evaluation observes of its environment: the clock at the places
    where the code reads it, and whether the evaluation deadline has passed
    when the loop reaches the [i]-th policy. *)
Record EvalEnv := {
  env_start : Z;
  env_cache_read : Z;
  env_done : nat → bool;
  env_audit : nat → Z;
  env_end : Z;
  env_cache_write : Z
}.

Inductive engine_error :=
| PolicyIsNil
| PolicyNameRequired
| PolicyNotFound (name : string)
| EvaluationTimeout.

#[export] Instance engine_error_eq_dec : EqDecision engine_error.
Proof. solve_decision. Defined.

(** ** Conditions *)

(** [==] on [interface{}] values whose left side is a string, a boolean or nil. *)
Definition iface_eq (a b : Value) : bool :=
  match a, b with
  | VNil, VNil => true
  | VString s, VString t => s =?s t
  | VBool s, VBool t => Bool.eqb s t
  | _, _ => false
  end.

(** [getFieldValue] *)
Definition getFieldValue (field : string) (spec : WorkloadSpec) : Value :=
  if field =?s "namespace" then VString (ws_Namespace spec)
  else if field =?s "name" then VString (ws_Name spec)
  else if field =?s "image" then VString (ws_Image spec)
  else if field =?s "privileged" then VBool (ws_Privileged spec)
  else if field =?s "hostNetwork" then VBool (ws_HostNetwork spec)
  else
    match strip_prefix "labels." field with
    | Some (String _ _ as labelKey) => VString (default ""%string (ws_Labels spec !! labelKey))
    | _ => VNil
    end.

(** [evaluateCondition] *)
Definition evaluateCondition (condition : Condition) (spec : WorkloadSpec) : bool :=
  let fieldValue := getFieldValue (cond_Field condition) spec in
  let op := cond_Operator condition in
  if op =?s OperatorEqual then iface_eq fieldValue (cond_Value condition)
  else if op =?s OperatorNotEqual then negb (iface_eq fieldValue (cond_Value condition))
  else if op =?s OperatorIn then existsb (iface_eq fieldValue) (as_list (Some (cond_Value condition)))
  else if op =?s OperatorNotIn then
    negb (existsb (iface_eq fieldValue) (as_list (Some (cond_Value condition))))
  else if op =?s OperatorExists then negb (iface_eq fieldValue VNil)
  else if op =?s OperatorDoesNotExist then iface_eq fieldValue VNil
  else false.

(** [evaluateConditions] *)
Definition evaluateConditions (conditions : list Condition) (spec : WorkloadSpec) : bool :=
  forallb (fun condition => evaluateCondition condition spec) conditions.

Section Engine.
Context `{GoRange, GoSort}.

(** ** One policy *)

(** [policyApplies] *)
Definition policyApplies (policy : Policy) (spec : WorkloadSpec) : bool :=
  if negb (pol_Namespace policy =?s "") &&
     negb (pol_Namespace policy =?s ws_Namespace spec) &&
     negb (pol_Namespace policy =?s "*")
  then false
  else forallb (fun '(labelKey, labelValue) =>
         bool_decide (ws_Labels spec !! labelKey = Some labelValue))
       (range_map (pol_Labels policy)).

Record policyEvalResult := {
  per_Matched : bool;
  per_Violations : list Violation;
  per_Message : string
}.

(** One iteration of the loop over a policy's rules. *)
Definition eval_rule (spec : WorkloadSpec) (acc : bool * list Violation) (rule : Rule)
    : bool * list Violation :=
  if negb (evaluateConditions (rule_Conditions rule) spec) then acc
  else (true, acc.2 ++ EvaluateRule rule spec).

(** [evaluatePolicy] *)
Definition evaluatePolicy (policy : Policy) (spec : WorkloadSpec) : policyEvalResult :=
  if negb (nonempty (pol_Rules policy)) && (pol_Action policy =?s PolicyActionAllow) then
    {| per_Matched := true; per_Violations := [];
       per_Message := "Allow policy " +:+ pol_Name policy +:+ " matched (no specific rules)" |}
  else
    let '(matched, violations) := foldl (eval_rule spec) (false, []) (pol_Rules policy) in
    {| per_Matched := matched; per_Violations := violations;
       per_Message :=
         if matched then
           "Policy " +:+ pol_Name policy +:+ " evaluated with "
           +:+ show_Z (len violations) +:+ " violation(s)"
         else "" |}.

(** ** The policy table *)

(** [ListPolicies] *)
Definition ListPolicies (e : Engine) : list Policy :=
  List.filter (fun p => bool_decide (pol_DeletedAt p = None))
    (snd <$> range_map (eng_policies e)).

(** [getSortedPolicies] *)
Definition getSortedPolicies (e : Engine) : list Policy :=
  sort_slice (fun p q => pol_Priority q <? pol_Priority p) (ListPolicies e).

(** [clearCache] *)
Definition clearCache (e : Engine) : Engine :=
  {| eng_config := eng_config e; eng_policies := eng_policies e; eng_cache := ∅ |}.

(** [AddPolicy]; the stored policy carries the updated timestamps. *)
Definition AddPolicy (now : Z) (policy : option Policy) (e : Engine)
    : Engine * result engine_error unit :=
  match policy with
  | None => (e, Err PolicyIsNil)
  | Some p =>
      if pol_Name p =?s "" then (e, Err PolicyNameRequired)
      else
        let p' := {|
          pol_Name := pol_Name p; pol_Namespace := pol_Namespace p;
          pol_Description := pol_Description p; pol_Enabled := pol_Enabled p;
          pol_Priority := pol_Priority p; pol_Labels := pol_Labels p;
          pol_Rules := pol_Rules p; pol_Action := pol_Action p;
          pol_CreatedAt := if IsZero (pol_CreatedAt p) then now else pol_CreatedAt p;
          pol_UpdatedAt := now; pol_DeletedAt := pol_DeletedAt p |} in
        (clearCache {| eng_config := eng_config e;
                       eng_policies := <[pol_Name p := p']> (eng_policies e);
                       eng_cache := eng_cache e |}, Ok tt)
  end.

(** [RemovePolicy] *)
Definition RemovePolicy (name : string) (e : Engine) : Engine * result engine_error unit :=
  match eng_policies e !! name with
  | None => (e, Err (PolicyNotFound name))
  | Some _ =>
      (clearCache {| eng_config := eng_config e;
                     eng_policies := delete name (eng_policies e);
                     eng_cache := eng_cache e |}, Ok tt)
  end.

(** [GetPolicy] *)
Definition GetPolicy (name : string) (e : Engine) : result engine_error Policy :=
  match eng_policies e !! name with
  | None => Err (PolicyNotFound name)
  | Some p => Ok p
  end.

(** ** The result cache *)

(** [getCacheKey] *)
Definition getCacheKey (spec : WorkloadSpec) : string :=
  ws_Namespace spec +:+ "/" +:+ ws_Name spec +:+ "/" +:+ ws_Image spec.

(** [getCachedResult] *)
Definition getCachedResult (now : Z) (spec : WorkloadSpec) (e : Engine)
    : option EvaluationResult :=
  match eng_cache e !! getCacheKey spec with
  | Some cached => if now <? cr_expiresAt cached then Some (cr_result cached) else None
  | None => None
  end.

(** [cacheResult] *)
Definition cacheResult (now : Z) (spec : WorkloadSpec) (r : EvaluationResult) (e : Engine)
    : Engine :=
  {| eng_config := eng_config e; eng_policies := eng_policies e;
     eng_cache := <[getCacheKey spec := {| cr_result := r;
       cr_expiresAt := now + cfg_CacheTTL (eng_config e) |}]> (eng_cache e) |}.

(** ** Evaluation *)

(** The [switch policy.Action] of the loop. *)
Definition apply_action (now : Z) (policy : Policy) (pr : policyEvalResult)
    (r : EvaluationResult) : EvaluationResult :=
  let matched := er_MatchedPolicies r ++ [pol_Name policy] in
  if pol_Action policy =?s PolicyActionDeny then
    if nonempty (per_Violations pr) then
      {| er_Allowed := false; er_Reason := er_Reason r; er_MatchedPolicies := matched;
         er_Violations := er_Violations r ++ per_Violations pr;
         er_AuditEntries := er_AuditEntries r;
         er_EvaluationTime := er_EvaluationTime r; er_PolicyCount := er_PolicyCount r |}
    else
      {| er_Allowed := er_Allowed r; er_Reason := er_Reason r; er_MatchedPolicies := matched;
         er_Violations := er_Violations r; er_AuditEntries := er_AuditEntries r;
         er_EvaluationTime := er_EvaluationTime r; er_PolicyCount := er_PolicyCount r |}
  else if pol_Action policy =?s PolicyActionAllow then
    {| er_Allowed := er_Allowed r;
       er_Reason := if er_Allowed r then "Allowed by policy: " +:+ pol_Name policy
                    else er_Reason r;
       er_MatchedPolicies := matched;
       er_Violations := er_Violations r; er_AuditEntries := er_AuditEntries r;
       er_EvaluationTime := er_EvaluationTime r; er_PolicyCount := er_PolicyCount r |}
  else if pol_Action policy =?s PolicyActionAudit then
    {| er_Allowed := er_Allowed r; er_Reason := er_Reason r; er_MatchedPolicies := matched;
       er_Violations := er_Violations r;
       er_AuditEntries := er_AuditEntries r ++
         [{| aud_PolicyName := pol_Name policy; aud_RuleName := "audit";
             aud_Message := per_Message pr; aud_Timestamp := now; aud_Action := "audit" |}];
       er_EvaluationTime := er_EvaluationTime r; er_PolicyCount := er_PolicyCount r |}
  else
    {| er_Allowed := er_Allowed r; er_Reason := er_Reason r; er_MatchedPolicies := matched;
       er_Violations := er_Violations r; er_AuditEntries := er_AuditEntries r;
       er_EvaluationTime := er_EvaluationTime r; er_PolicyCount := er_PolicyCount r |}.

(** The loop over the sorted policies, from the [i]-th on. *)
Fixpoint eval_loop (env : EvalEnv) (spec : WorkloadSpec) (i : nat) (ps : list Policy)
    (r : EvaluationResult) : result engine_error EvaluationResult :=
  match ps with
  | [] => Ok r
  | policy :: ps' =>
      if env_done env i then Err EvaluationTimeout
      else if negb (pol_Enabled policy) then eval_loop env spec (S i) ps' r
      else if negb (policyApplies policy spec) then eval_loop env spec (S i) ps' r
      else
        let pr := evaluatePolicy policy spec in
        eval_loop env spec (S i) ps'
          (if per_Matched pr then apply_action (env_audit env i) policy pr r else r)
  end.

Definition initial_result (count : Z) : EvaluationResult :=
  {| er_Allowed := true; er_Reason := ""; er_MatchedPolicies := []; er_Violations := [];
     er_AuditEntries := []; er_EvaluationTime := 0; er_PolicyCount := count |}.

(** The default action, the final reason and the evaluation time. *)
Definition finish_result (config : EngineConfig) (elapsed : Z) (r : EvaluationResult)
    : EvaluationResult :=
  let '(allowed, reason) :=
    if nonempty (er_MatchedPolicies r) then (er_Allowed r, er_Reason r)
    else if cfg_DefaultAction config =?s PolicyActionDeny
         then (false, "No matching allow policy (default deny)")
         else (true, "No matching deny policy (default allow)") in
  let reason :=
    if negb allowed && (reason =?s "")
    then show_Z (len (er_Violations r)) +:+ " policy violation(s)"
    else reason in
  {| er_Allowed := allowed; er_Reason := reason;
     er_MatchedPolicies := er_MatchedPolicies r; er_Violations := er_Violations r;
     er_AuditEntries := er_AuditEntries r;
     er_EvaluationTime := elapsed; er_PolicyCount := er_PolicyCount r |}.

(** The part of [Evaluate] between the cache lookup and the cache update. *)
Definition evaluate_policies (env : EvalEnv) (config : EngineConfig) (ps : list Policy)
    (spec : WorkloadSpec) : result engine_error EvaluationResult :=
  match eval_loop env spec 0 ps (initial_result (len ps)) with
  | Err err => Err err
  | Ok r => Ok (finish_result config (env_end env - env_start env) r)
  end.

(** [Evaluate] *)
Definition Evaluate (env : EvalEnv) (spec : WorkloadSpec) (e : Engine)
    : Engine * result engine_error EvaluationResult :=
  let cached :=
    if cfg_CacheEnabled (eng_config e)
    then getCachedResult (env_cache_read env) spec e else None in
  match cached with
  | Some r => (e, Ok r)
  | None =>
      match evaluate_policies env (eng_config e) (getSortedPolicies e) spec with
      | Err err => (e, Err err)
      | Ok r =>
          (if cfg_CacheEnabled (eng_config e)
           then cacheResult (env_cache_write env) spec r e else e, Ok r)
      end
  end.

End Engine.

(** ** The specification: admission as a predicate on the policy table *)

Definition applies (p : Policy) (spec : WorkloadSpec) : Prop :=
  (pol_Namespace p = "" ∨ pol_Namespace p = ws_Namespace spec ∨ pol_Namespace p = "*")%string ∧
  ∀ k v, pol_Labels p !! k = Some v → ws_Labels spec !! k = Some v.

(** Some rule of the policy has its conditions met, or it is an unconditional
    allow policy. *)
Definition triggered (p : Policy) (spec : WorkloadSpec) : Prop :=
  (pol_Rules p = [] ∧ pol_Action p = PolicyActionAllow) ∨
  ∃ r, r ∈ pol_Rules p ∧ evaluateConditions (rule_Conditions r) spec = true.

Definition considered (e : Engine) (spec : WorkloadSpec) (p : Policy) : Prop :=
  (∃ name, eng_policies e !! name = Some p) ∧ pol_DeletedAt p = None ∧
  pol_Enabled p = true ∧ applies p spec ∧ triggered p spec.

Definition violated `{GoRange} (p : Policy) (spec : WorkloadSpec) : Prop :=
  ∃ r, r ∈ pol_Rules p ∧ evaluateConditions (rule_Conditions r) spec = true ∧
    EvaluateRule r spec ≠ [].

Definition admits `{GoRange} (e : Engine) (spec : WorkloadSpec) : Prop :=
  ((∃ p, considered e spec p) ∧
   ∀ p, considered e spec p → pol_Action p = PolicyActionDeny → ¬ violated p spec) ∨
  ((¬ ∃ p, considered e spec p) ∧ cfg_DefaultAction (eng_config e) ≠ PolicyActionDeny).

Section Facts.
Context `{GoRange, GoSort}.
Implicit Types (e : Engine) (spec : WorkloadSpec) (p : Policy).

Lemma policyApplies_spec p spec : policyApplies p spec = true ↔ applies p spec.
Proof.
  unfold policyApplies, applies.
  destruct (decide (pol_Namespace p = "")%string) as [H1|H1],
    (decide (pol_Namespace p = ws_Namespace spec)) as [H2|H2],
    (decide (pol_Namespace p = "*")%string) as [H3|H3];
    rewrite ?(bool_decide_eq_true_2 _ H1), ?(bool_decide_eq_true_2 _ H2),
      ?(bool_decide_eq_true_2 _ H3), ?(bool_decide_eq_false_2 _ H1),
      ?(bool_decide_eq_false_2 _ H2), ?(bool_decide_eq_false_2 _ H3); cbn [negb andb].
  all: try (split; [done|]; intros [[?|[?|?]] _]; done).
  all: rewrite forallb_forall'; split; [intros Hf; split; [tauto|]|intros [_ Hf]].
  all: try (intros k v Hkv; apply elem_of_range_map in Hkv; by apply Hf in Hkv; bool_to_prop).
  all: intros [k v] Hkv%elem_of_range_map; apply bool_decide_eq_true; by apply Hf.
Qed.

(** The rules whose conditions hold, which are the ones evaluated. *)
Definition live_rules (p : Policy) (spec : WorkloadSpec) : list Rule :=
  List.filter (fun r => evaluateConditions (rule_Conditions r) spec) (pol_Rules p).

Lemma eval_rule_fold spec rules b vs :
  let live := List.filter (fun r => evaluateConditions (rule_Conditions r) spec) rules in
  foldl (eval_rule spec) (b, vs) rules =
  (b || nonempty live, vs ++ flat_map (fun r => EvaluateRule r spec) live).
Proof.
  simpl. revert b vs. induction rules as [|r rules IH]; intros b vs; simpl.
  - by rewrite orb_false_r, app_nil_r.
  - unfold eval_rule at 2. destruct (evaluateConditions _ _); simpl; rewrite IH.
    + by rewrite orb_true_r, <-app_assoc.
    + done.
Qed.

Lemma evaluatePolicy_violations p spec :
  per_Violations (evaluatePolicy p spec) =
  flat_map (fun r => EvaluateRule r spec) (live_rules p spec).
Proof.
  unfold evaluatePolicy, live_rules. destruct (_ && _) eqn:E; simpl.
  - bool_to_prop. by destruct (pol_Rules p).
  - by rewrite eval_rule_fold.
Qed.

Lemma live_rules_spec p spec r :
  r ∈ live_rules p spec ↔ r ∈ pol_Rules p ∧ evaluateConditions (rule_Conditions r) spec = true.
Proof. unfold live_rules. by rewrite !list_elem_of_In, filter_In. Qed.

Lemma nonempty_spec {A} (l : list A) : nonempty l = true ↔ ∃ x, x ∈ l.
Proof.
  destruct l as [|x l]; simpl; split; [done| |eauto using list_elem_of_here|done].
  by intros [x ?%elem_of_nil].
Qed.

Lemma evaluatePolicy_matched p spec :
  per_Matched (evaluatePolicy p spec) = true ↔ triggered p spec.
Proof.
  unfold evaluatePolicy, triggered. destruct (_ && _) eqn:E; simpl.
  - bool_to_prop. split; [|done]. intros _. left. by destruct (pol_Rules p).
  - rewrite eval_rule_fold. simpl. fold (live_rules p spec). rewrite nonempty_spec.
    setoid_rewrite live_rules_spec. split; [by right|].
    intros [[Hr Ha]|?]; [|done]. rewrite Hr, Ha in E. by vm_compute in E.
Qed.

Lemma evaluatePolicy_violated p spec :
  per_Violations (evaluatePolicy p spec) = [] ↔ ¬ violated p spec.
Proof.
  rewrite evaluatePolicy_violations, flat_map_nil_iff. unfold violated.
  setoid_rewrite live_rules_spec. split.
  - intros Hn (r & ? & ? & Hv). by apply Hv, Hn.
  - intros Hn r [? ?]. destruct (EvaluateRule r spec) eqn:Hv; [done|].
    destruct Hn. exists r. by rewrite Hv.
Qed.

Lemma elem_of_sorted e p :
  p ∈ getSortedPolicies e ↔
  (∃ name, eng_policies e !! name = Some p) ∧ pol_DeletedAt p = None.
Proof.
  unfold getSortedPolicies, ListPolicies.
  rewrite sort_slice_perm, list_elem_of_In, filter_In, <-list_elem_of_In.
  rewrite bool_decide_eq_true, list_elem_of_fmap. f_equiv.
  split; [intros ([name q] & -> & Hin)|intros [name Hin]].
  - exists name. by apply elem_of_range_map.
  - exists (name, p). split; [done|]. by apply elem_of_range_map.
Qed.

(** The policy is evaluated and matches. *)
Definition live (spec : WorkloadSpec) (p : Policy) : bool :=
  pol_Enabled p && policyApplies p spec && per_Matched (evaluatePolicy p spec).

Definition denies (spec : WorkloadSpec) (p : Policy) : bool :=
  live spec p && (pol_Action p =?s PolicyActionDeny)
  && nonempty (per_Violations (evaluatePolicy p spec)).

Lemma live_spec e spec p :
  p ∈ getSortedPolicies e → live spec p = true ↔ considered e spec p.
Proof.
  rewrite elem_of_sorted. intros [? ?]. unfold live, considered.
  rewrite !andb_true_iff, policyApplies_spec, evaluatePolicy_matched. tauto.
Qed.

Lemma denies_spec spec p :
  denies spec p = true ↔
  live spec p = true ∧ pol_Action p = PolicyActionDeny ∧ ¬ ¬ violated p spec.
Proof.
  unfold denies. rewrite !andb_true_iff, bool_decide_eq_true, <-evaluatePolicy_violated.
  destruct (per_Violations _); simpl; intuition done.
Qed.

(** ** The loop *)

Lemma apply_action_allowed now p pr r :
  er_Allowed (apply_action now p pr r) =
  er_Allowed r && negb ((pol_Action p =?s PolicyActionDeny) && nonempty (per_Violations pr)).
Proof.
  unfold apply_action. destruct (pol_Action p =?s PolicyActionDeny); simpl.
  - destruct (nonempty _); simpl; by rewrite ?andb_false_r, ?andb_true_r.
  - rewrite andb_true_r. by repeat case_match.
Qed.

Lemma apply_action_matched now p pr r :
  er_MatchedPolicies (apply_action now p pr r) = er_MatchedPolicies r ++ [pol_Name p].
Proof. unfold apply_action. by repeat case_match. Qed.

Lemma apply_action_violations now p pr r :
  er_Violations (apply_action now p pr r) =
  er_Violations r ++ (if pol_Action p =?s PolicyActionDeny then per_Violations pr else []).
Proof.
  unfold apply_action. destruct (pol_Action p =?s PolicyActionDeny); simpl.
  - destruct (per_Violations pr); simpl; by rewrite ?app_nil_r.
  - rewrite app_nil_r. by repeat case_match.
Qed.

(** What the loop contributes to a result. *)
Definition loop_violations (spec : WorkloadSpec) (ps : list Policy) : list Violation :=
  flat_map (fun p => if live spec p && (pol_Action p =?s PolicyActionDeny)
                     then per_Violations (evaluatePolicy p spec) else []) ps.

Lemma eval_loop_spec env spec i ps r r' :
  eval_loop env spec i ps r = Ok r' →
  er_Allowed r' = er_Allowed r && negb (existsb (denies spec) ps) ∧
  er_MatchedPolicies r' = er_MatchedPolicies r ++ (pol_Name <$> List.filter (live spec) ps) ∧
  er_Violations r' = er_Violations r ++ loop_violations spec ps.
Proof.
  revert i r. induction ps as [|p ps IH]; intros i r; simpl.
  { intros [= <-]. by rewrite andb_true_r, !app_nil_r. }
  destruct (env_done env i); [done|]. intros Hl.
  unfold denies at 1.
  assert (live spec p =
    pol_Enabled p && policyApplies p spec && per_Matched (evaluatePolicy p spec)) as -> by done.
  destruct (pol_Enabled p); simpl in *; [|by eapply IH].
  destruct (policyApplies p spec); simpl in *; [|by eapply IH].
  destruct (per_Matched _); simpl in *; [|by eapply IH].
  apply IH in Hl as (Ha & Hm & Hv).
  rewrite apply_action_allowed in Ha. rewrite apply_action_matched in Hm.
  rewrite apply_action_violations in Hv. split_and!.
  - by rewrite Ha, negb_orb, andb_assoc.
  - by rewrite Hm, <-app_assoc.
  - by rewrite Hv, <-app_assoc.
Qed.

Lemma eval_loop_total env spec i ps r :
  (∀ j, (i ≤ j < i + length ps)%nat → env_done env j = false) →
  is_ok (eval_loop env spec i ps r) = true.
Proof.
  revert i r. induction ps as [|p ps IH]; intros i r Hd; simpl in *; [done|].
  rewrite Hd by lia. assert (∀ r', is_ok (eval_loop env spec (S i) ps r') = true).
  { intros r'. apply IH. intros j Hj. apply Hd. lia. }
  by repeat case_match.
Qed.

Lemma eval_loop_error env spec i ps r err :
  eval_loop env spec i ps r = Err err → err = EvaluationTimeout.
Proof.
  revert i r. induction ps as [|p ps IH]; intros i r; simpl; [done|].
  destruct (env_done env i); [by intros [= <-]|]. repeat case_match; apply IH.
Qed.

Lemma evaluate_policies_allowed env config ps spec r :
  evaluate_policies env config ps spec = Ok r →
  er_Allowed r =
    (if existsb (live spec) ps then negb (existsb (denies spec) ps)
     else negb (cfg_DefaultAction config =?s PolicyActionDeny)) ∧
  er_Violations r = loop_violations spec ps ∧
  er_MatchedPolicies r = pol_Name <$> List.filter (live spec) ps.
Proof.
  unfold evaluate_policies. destruct (eval_loop _ _ _ _ _) as [r0|] eqn:El; [|done].
  intros [= <-]. apply eval_loop_spec in El as (Ha & Hm & Hv). simpl in *.
  unfold finish_result. rewrite Hm.
  assert (nonempty (pol_Name <$> List.filter (live spec) ps) = existsb (live spec) ps) as ->.
  { clear. induction ps; simpl; [done|]. by case_match. }
  destruct (existsb (live spec) ps); [by cbn; rewrite Ha, Hv|].
  destruct (cfg_DefaultAction config =?s PolicyActionDeny); cbn; by rewrite Hv.
Qed.

Lemma evaluate_policies_admits env e spec r :
  evaluate_policies env (eng_config e) (getSortedPolicies e) spec = Ok r →
  er_Allowed r = true ↔ admits e spec.
Proof.
  intros (-> & _)%evaluate_policies_allowed. unfold admits.
  destruct (existsb (live spec) _) eqn:Hl.
  - apply existsb_exists' in Hl as (p & Hp & Hlive).
    assert (∃ p, considered e spec p) as Hc by (exists p; by apply live_spec).
    rewrite negb_true_iff, <-not_true_iff_false, existsb_exists'. split.
    + intros Hn. left. split; [done|]. intros q Hq Ha Hv. apply Hn. exists q.
      assert (q ∈ getSortedPolicies e) as Hin
        by (apply elem_of_sorted; by destruct Hq as (?&?&_)).
      split; [done|]. apply denies_spec. split; [by apply (live_spec e)|tauto].
    + intros [[_ Hn]|[? _]]; [|done]. intros (q & Hq & (Hlq & Ha & Hv)%denies_spec).
      apply Hv, Hn; [by apply live_spec|done].
  - assert (¬ ∃ p, considered e spec p) as Hc.
    { intros [p Hp]. apply not_true_iff_false in Hl. apply Hl, existsb_exists'.
      assert (p ∈ getSortedPolicies e) as Hin
        by (apply elem_of_sorted; by destruct Hp as (?&?&_)).
      exists p. split; [done|]. by apply (live_spec e). }
    rewrite negb_true_iff, bool_decide_eq_false. tauto.
Qed.

End Facts.

(** ** The operations as a transition system *)

Section Steps.
Context `{GoRange, GoSort}.

Inductive engine_step : Engine → Engine → Prop :=
| step_add now p e : engine_step e (AddPolicy now p e).1
| step_remove name e : engine_step e (RemovePolicy name e).1
| step_evaluate env spec e : engine_step e (Evaluate env spec e).1.

Definition reachable (config : EngineConfig) : Engine → Prop :=
  rtc engine_step (NewEngine config).

(** The table is keyed by policy names, and no policy is anonymous. *)
Definition keyed (e : Engine) : Prop :=
  ∀ name p, eng_policies e !! name = Some p → pol_Name p = name ∧ name ≠ ""%string.

(** Every cached result is one that the current policies give to some
    workload with that cache key. *)
Definition coherent (e : Engine) : Prop :=
  ∀ key c, eng_cache e !! key = Some c →
    ∃ env spec, getCacheKey spec = key ∧
      evaluate_policies env (eng_config e) (getSortedPolicies e) spec = Ok (cr_result c).

Definition engine_inv (config : EngineConfig) (e : Engine) : Prop :=
  eng_config e = config ∧ keyed e ∧ coherent e.

(** [Evaluate] either answers from the cache, or evaluates and caches. *)
Lemma Evaluate_cases env spec e :
  (∃ r, getCachedResult (env_cache_read env) spec e = Some r ∧
    cfg_CacheEnabled (eng_config e) = true ∧ Evaluate env spec e = (e, Ok r)) ∨
  (∃ err, evaluate_policies env (eng_config e) (getSortedPolicies e) spec = Err err ∧
    Evaluate env spec e = (e, Err err)) ∨
  (∃ r, evaluate_policies env (eng_config e) (getSortedPolicies e) spec = Ok r ∧
    Evaluate env spec e =
      (if cfg_CacheEnabled (eng_config e)
       then cacheResult (env_cache_write env) spec r e else e, Ok r)).
Proof.
  unfold Evaluate. destruct (cfg_CacheEnabled (eng_config e)) eqn:Hc.
  - destruct (getCachedResult _ _ _) as [r|] eqn:Hg; [by left; eauto|right].
    destruct (evaluate_policies _ _ _ _) as [r|err]; [right|left]; eauto.
  - right. destruct (evaluate_policies _ _ _ _) as [r|err]; [right|left]; eauto.
Qed.

Lemma engine_inv_init config : engine_inv config (NewEngine config).
Proof. split_and!; [done| |]; intros ? ? Hl; simpl in Hl; by rewrite lookup_empty in Hl. Qed.

Lemma coherent_cleared e : coherent (clearCache e).
Proof. intros ? ? Hl. simpl in Hl; by rewrite lookup_empty in Hl. Qed.

Lemma engine_inv_step config e e' :
  engine_inv config e → engine_step e e' → engine_inv config e'.
Proof.
  intros Hinv Hs. revert Hinv.
  destruct Hs as [now p e0|name e0|env spec e0]; intros (Hcfg & Hk & Hco).
  - destruct p as [p|]; [|done]. unfold AddPolicy. case_bool_decide as Hn; [done|].
    split_and!; [done| |apply coherent_cleared]. intros name q. simpl.
    rewrite lookup_insert. case_decide as Heq; [|apply Hk].
    intros [= <-]. subst. done.
  - unfold RemovePolicy. destruct (eng_policies e0 !! name); [|done].
    split_and!; [done| |apply coherent_cleared]. intros k q. simpl.
    rewrite lookup_delete. case_decide; [done|apply Hk].
  - destruct (Evaluate_cases env spec e0) as [(r & _ & _ & ->)|[(err & _ & ->)|(r & Hr & ->)]];
      [done|done|]. cbn [fst]. destruct (cfg_CacheEnabled _); [|done].
    split_and!; [done|done|]. intros key c. simpl. rewrite lookup_insert.
    case_decide as Heq; [intros [= <-]; eauto|apply Hco].
Qed.

Lemma reachable_inv config e : reachable config e → engine_inv config e.
Proof.
  intros He. refine (rtc_ind_r (engine_inv config) _ _ _ _ He); [apply engine_inv_init|].
  intros ? ? _ ? ?. by eapply engine_inv_step.
Qed.

End Steps.

(** ** Properties *)

(** C1: an evaluation that is not answered from the cache admits a workload
    exactly when the policy table does: some considered policy exists and no
    considered deny policy is violated, or no policy is considered and the
    default action is not to deny. *)
Theorem Evaluate_refines `{GoRange, GoSort} env spec e e' r :
  getCachedResult (env_cache_read env) spec e = None →
  Evaluate env spec e = (e', Ok r) →
  er_Allowed r = true ↔ admits e spec.
Proof.
  intros Hmiss He.
  destruct (Evaluate_cases env spec e) as [(r' & Hg & _)|[(err & _ & Hr)|(r' & Hp & Hr)]];
    [congruence..|].
  rewrite Hr in He. injection He as <- <-. by eapply evaluate_policies_admits.
Qed.

(** an evaluation whose deadline does not pass while it runs returns a
    result. *)
Theorem Evaluate_returns `{GoRange, GoSort} env spec e :
  (∀ i, env_done env i = false) → is_ok (Evaluate env spec e).2 = true.
Proof.
  intros Hd.
  destruct (Evaluate_cases env spec e) as [(r & _ & _ & ->)|[(err & Hp & _)|(r & _ & ->)]];
    [done| |done].
  unfold evaluate_policies in Hp.
  pose proof (eval_loop_total env spec 0 (getSortedPolicies e)
    (initial_result (len (getSortedPolicies e)))) as Ht.
  by destruct (eval_loop _ _ _ _ _); [|discriminate Ht].
Qed.

Lemma live_order (R1 R2 : GoRange) spec p :
  @live R1 spec p = @live R2 spec p.
Proof.
  unfold live. assert (@policyApplies R1 p spec = @policyApplies R2 p spec) as ->.
  { apply eq_true_iff_eq. by rewrite !policyApplies_spec. }
  f_equal. apply eq_true_iff_eq. by rewrite !evaluatePolicy_matched.
Qed.

Lemma violations_order (R1 R2 : GoRange) spec p :
  per_Violations (@evaluatePolicy R1 p spec) ≡ₚ per_Violations (@evaluatePolicy R2 p spec).
Proof. rewrite !evaluatePolicy_violations. apply flat_map_perm; auto with go. Qed.

Lemma sorted_order (R1 R2 : GoRange) (S1 S2 : GoSort) e :
  @getSortedPolicies R1 S1 e ≡ₚ @getSortedPolicies R2 S2 e.
Proof.
  unfold getSortedPolicies. rewrite !sort_slice_perm. unfold ListPolicies.
  assert (snd <$> @range_map R1 Policy (eng_policies e) ≡ₚ
          snd <$> @range_map R2 Policy (eng_policies e)) as Hp by by rewrite !range_map_perm.
  induction Hp; simpl; repeat case_match; auto using Permutation_cons, Permutation_swap.
  by etrans.
Qed.

(** The decision and the set of reported violations do not depend on the
    iteration order of the runtime's maps nor on how ties in the priority
    sort are broken. *)
Theorem evaluation_order_independent (R1 R2 : GoRange) (S1 S2 : GoSort) env1 env2 spec e r1 r2 :
  @evaluate_policies R1 env1 (eng_config e) (@getSortedPolicies R1 S1 e) spec = Ok r1 →
  @evaluate_policies R2 env2 (eng_config e) (@getSortedPolicies R2 S2 e) spec = Ok r2 →
  er_Allowed r1 = er_Allowed r2 ∧ er_Violations r1 ≡ₚ er_Violations r2.
Proof.
  intros H1 H2. split.
  - apply eq_true_iff_eq. rewrite (evaluate_policies_admits _ _ _ _ H1).
    rewrite (evaluate_policies_admits _ _ _ _ H2). unfold admits, violated.
    assert (∀ r, @EvaluateRule R1 r spec ≠ [] ↔ @EvaluateRule R2 r spec ≠ []) as Hr.
    { intros r. split; intros Hn Hm; apply Hn.
      - by apply (EvaluateRule_nil_order R2 R1).
      - by apply (EvaluateRule_nil_order R1 R2). }
    by setoid_rewrite Hr.
  - apply evaluate_policies_allowed in H1 as (_ & -> & _).
    apply evaluate_policies_allowed in H2 as (_ & -> & _).
    apply flat_map_perm; [apply sorted_order|]. intros p. rewrite (live_order R1 R2).
    case_match; [apply violations_order|done].
Qed.

(** The matched policies are reported in decreasing order of priority,
    and are exactly the considered policies. *)
Theorem matched_by_priority `{GoRange, GoSort} env spec e r :
  evaluate_policies env (eng_config e) (getSortedPolicies e) spec = Ok r →
  ∃ ps, er_MatchedPolicies r = pol_Name <$> ps ∧
    StronglySorted (fun p q => pol_Priority q ≤ pol_Priority p) ps ∧
    ∀ p, p ∈ ps ↔ considered e spec p.
Proof.
  intros (_ & _ & ->)%evaluate_policies_allowed.
  exists (List.filter (live spec) (getSortedPolicies e)). split_and!; [done| |].
  - unfold getSortedPolicies. pose proof (sorted_filter _ (live spec) _
      (sort_slice_sorted _ _ (ListPolicies e) (strict_weak_key_gt pol_Priority))) as Hs.
    eapply strongly_sorted_mono; [|apply Hs]. simpl. intros p q ?. bool_to_prop. lia.
  - intros p. rewrite list_elem_of_In, filter_In, <-list_elem_of_In. split.
    + intros [Hp Hl]. by apply live_spec.
    + intros Hc. assert (p ∈ getSortedPolicies e) as Hp
        by (apply elem_of_sorted; by destruct Hc as (?&?&_)).
      split; [done|]. by apply (live_spec e).
Qed.

(** In every state the operations can reach, policies are stored under
    their own non-empty name and every cached result is one that the current
    policies give to a workload with that cache key: no policy change leaves
    a stale result behind when operations run one after the other. *)
Theorem engine_invariant `{GoRange, GoSort} config e :
  reachable config e → eng_config e = config ∧ keyed e ∧ coherent e.
Proof. apply reachable_inv. Qed.

(** a result answers every later request with the same namespace, name and
    image until it expires, whatever the rest of the workload says. *)
Theorem cache_ignores_workload `{GoRange, GoSort} env1 env2 spec1 spec2 e e1 r :
  cfg_CacheEnabled (eng_config e) = true →
  getCachedResult (env_cache_read env1) spec1 e = None →
  Evaluate env1 spec1 e = (e1, Ok r) →
  getCacheKey spec2 = getCacheKey spec1 →
  env_cache_read env2 < env_cache_write env1 + cfg_CacheTTL (eng_config e) →
  Evaluate env2 spec2 e1 = (e1, Ok r).
Proof.
  intros Hc Hmiss He Hk Ht.
  destruct (Evaluate_cases env1 spec1 e) as [(? & ? & _)|[(? & _ & Hr)|(r' & _ & Hr)]];
    [congruence..|].
  rewrite Hr, Hc in He. injection He as <- <-.
  unfold Evaluate, getCachedResult. simpl. rewrite Hc, Hk, lookup_insert_eq. simpl.
  by rewrite (proj2 (Z.ltb_lt _ _) Ht).
Qed.

(** A result written back after a policy was added answers later requests. *)
Lemma stale_result_survives_AddPolicy `{GoRange, GoSort} env1 env2 now spec p e r :
  cfg_CacheEnabled (eng_config e) = true →
  env_cache_read env2 < env_cache_write env1 + cfg_CacheTTL (eng_config e) →
  let e1 := (AddPolicy now (Some p) e).1 in
  let e2 := cacheResult (env_cache_write env1) spec r e1 in
  (Evaluate env2 spec e2).2 = Ok r.
Proof.
  intros Hc Ht e1 e2. subst e1 e2. unfold AddPolicy. case_bool_decide;
    unfold Evaluate, getCachedResult; simpl; rewrite Hc, lookup_insert_eq; simpl;
    by rewrite (proj2 (Z.ltb_lt _ _) Ht).
Qed.

(** [Exists] on a label holds of every workload and [DoesNotExist] of none,
    labelled or not: a missing label reads as the empty string, not as nil. *)
Theorem label_always_exists c key spec v :
  evaluateCondition {| cond_Field := "labels." +:+ String c key;
    cond_Operator := OperatorExists; cond_Value := v |} spec = true ∧
  evaluateCondition {| cond_Field := "labels." +:+ String c key;
    cond_Operator := OperatorDoesNotExist; cond_Value := v |} spec = false.
Proof. done. Qed.

(** ** Violations are anonymous *)

Definition anonymous (rule : Rule) (v : Violation) : Prop :=
  vio_PolicyName v = ""%string ∧ vio_RuleName v = rule_Name rule.

Lemma anonymous_mk rule msg sev field value : anonymous rule (mkViolation rule msg sev field value).
Proof. done. Qed.

Lemma Forall_each_string (P : Violation → Prop) test v l : P v → Forall P (each_string test v l).
Proof.
  intros Hv. unfold each_string. induction l as [|x l IH]; simpl; [constructor|].
  apply Forall_app. split; [|done]. repeat case_match; auto.
Qed.

Lemma Forall_flat_map_all {A B} (P : B → Prop) (f : A → list B) l :
  (∀ x, Forall P (f x)) → Forall P (flat_map f l).
Proof. intros Hf. induction l; simpl; [constructor|]. apply Forall_app; auto. Qed.

Create HintDb violations.
#[export] Hint Resolve anonymous_mk Forall_each_string Forall_flat_map_all
  Forall_nil_2 Forall_cons_2 Forall_app_2 : violations.
#[export] Hint Extern 1 (Forall _ (if _ then _ else _)) => case_match : violations.
#[export] Hint Extern 1 (Forall _ (match _ with _ => _ end)) => case_match : violations.

Lemma EvaluateRule_anonymous `{GoRange} rule spec :
  Forall (anonymous rule) (EvaluateRule rule spec).
Proof.
  unfold EvaluateRule, evaluateImageRegistry, evaluateCapabilities, evaluateEgressDestination,
    evaluateResourceLimit, evaluateNodeSelector, required_label, denied_label,
    evaluatePrivilegedMode, evaluateHostNetwork, evaluateVolumeType, evaluateSecurityContext,
    evaluateSeccompProfile, evaluateAppArmorProfile, evaluateSELinuxOptions,
    evaluateRuntimeClass, evaluateRunAsNonRoot, evaluateReadOnlyRootFS.
  repeat (case_match; [auto 8 with violations|]). auto with violations.
Qed.

(** A reported violation names the rule that produced it but never the
    policy: its policy name is always empty. *)
Theorem violations_name_no_policy `{GoRange, GoSort} env config ps spec r v :
  evaluate_policies env config ps spec = Ok r → v ∈ er_Violations r →
  vio_PolicyName v = ""%string ∧
  ∃ p rule, p ∈ ps ∧ rule ∈ pol_Rules p ∧ vio_RuleName v = rule_Name rule.
Proof.
  intros (_ & -> & _)%evaluate_policies_allowed. unfold loop_violations.
  rewrite list_elem_of_In, in_flat_map. intros (p & Hp & Hv).
  destruct (live spec p && _); [|done].
  rewrite evaluatePolicy_violations, in_flat_map in Hv. destruct Hv as (rule & Hr & Hv).
  apply list_elem_of_In, live_rules_spec in Hr as [Hr _].
  pose proof (EvaluateRule_anonymous rule spec) as Ha. rewrite Forall_forall in Ha.
  destruct (Ha v) as [? ?]; [by apply list_elem_of_In|].
  split; [done|]. exists p, rule. by rewrite list_elem_of_In.
Qed.
