(* ===== verification/PolicyRules.v ===== *)
(** * Policy: the built-in policies of [pkg/policy/rules.go]

    The two [time.Now()] readings of each constructor are arguments. *)

From S2P Require Import Prelude GoText GoFloat PolicyTypes PolicyEvaluator PolicyEngine.

Definition strings_value (l : list string) : Value := VList (VString <$> l).

Section Rules.
Variables (created updated : Z).

(** The fields the constructors share. *)
Let mk (name ns desc : string) (enabled : bool) (prio : Z) (action : string)
    (labels : gmap string string) (rules : list Rule) : Policy := {|
  pol_Name := name; pol_Namespace := ns; pol_Description := desc; pol_Enabled := enabled;
  pol_Priority := prio; pol_Labels := labels; pol_Rules := rules; pol_Action := action;
  pol_CreatedAt := created; pol_UpdatedAt := updated; pol_DeletedAt := None |}.

Let mkRule (name desc type : string) (config : list (string * Value)) : Rule := {|
  rule_Name := name; rule_Description := desc; rule_Type := type;
  rule_Config := list_to_map config; rule_Conditions := [] |}.

Definition RestrictPrivilegedContainersPolicy : Policy :=
  mk "restrict-privileged-containers" "*" "Denies privileged containers for security"
    true 100 PolicyActionDeny ∅
    [mkRule "no-privileged" "Containers must not run in privileged mode"
       RuleTypePrivilegedMode [("allow_privileged", VBool false)]].

Definition RestrictHostNamespacesPolicy : Policy :=
  mk "restrict-host-namespaces" "*" "Denies host network, PID, and IPC namespace access"
    true 100 PolicyActionDeny ∅
    [mkRule "no-host-namespaces" "Containers must not access host namespaces"
       RuleTypeHostNetwork
       [("allow_host_network", VBool false); ("allow_host_pid", VBool false);
        ("allow_host_ipc", VBool false)]].

Definition AllowedRegistriesPolicy : Policy :=
  mk "allowed-registries" "*" "Restricts images to trusted registries"
    true 90 PolicyActionDeny ∅
    [mkRule "registry-allowlist" "Images must come from allowed registries"
       RuleTypeImageRegistry
       [("allowed_registries", strings_value
          ["docker.io"; "gcr.io"; "ghcr.io"; "quay.io"; "*.azurecr.io"; "*.amazonaws.com"]);
        ("denied_registries", strings_value [])]].

Definition DenyDangerousCapabilitiesPolicy : Policy :=
  mk "deny-dangerous-capabilities" "*" "Denies dangerous Linux capabilities"
    true 95 PolicyActionDeny ∅
    [mkRule "no-dangerous-caps" "Containers must not use dangerous capabilities"
       RuleTypeCapabilities
       [("denied_capabilities", strings_value
          ["SYS_ADMIN"; "SYS_MODULE"; "SYS_RAWIO"; "SYS_PTRACE"; "SYS_BOOT"; "MAC_ADMIN";
           "NET_ADMIN"; "SETPCAP"; "ALL"]);
        ("allowed_capabilities", strings_value
          ["CHOWN"; "DAC_OVERRIDE"; "FOWNER"; "FSETID"; "KILL"; "SETGID"; "SETUID";
           "NET_BIND_SERVICE"])]].

Definition RequireResourceLimitsPolicy : Policy :=
  mk "require-resource-limits" "*" "Requires CPU and memory limits on all containers"
    true 80 PolicyActionDeny ∅
    [mkRule "must-set-limits" "Containers must define resource limits"
       RuleTypeResourceLimit
       [("require_limits", VBool true);
        ("max_cpu_millicores", VFloat (f_of_Z 16000));
        ("max_memory_bytes", VFloat (f_of_Z (32 * 1024 * 1024 * 1024)));
        ("max_limit_to_request_ratio", VFloat (f_of_Z 4))]].

Definition ProductionNamespacePolicy : Policy :=
  mk "production-namespace-restrictions" "production"
    "Stricter security requirements for production workloads"
    true 110 PolicyActionDeny {["env" := "production"%string]}
    [mkRule "prod-registry-restriction" "Production must use verified registries only"
       RuleTypeImageRegistry
       [("allowed_registries", strings_value ["gcr.io/company-prod"; "company.azurecr.io"]);
        ("require_signed_images", VBool true)];
     mkRule "prod-resource-limits" "Production workloads must have conservative resource limits"
       RuleTypeResourceLimit
       [("require_limits", VBool true);
        ("max_cpu_millicores", VFloat (f_of_Z 8000));
        ("max_memory_bytes", VFloat (f_of_Z (16 * 1024 * 1024 * 1024)));
        ("max_limit_to_request_ratio", VFloat (f_of_Z 2))]].

Definition DevelopmentNamespacePolicy : Policy :=
  mk "development-namespace-permissions" "development"
    "More permissive policy for development workloads"
    true 50 PolicyActionAudit {["env" := "development"%string]}
    [mkRule "dev-registry-audit" "Audit registry usage in development"
       RuleTypeImageRegistry [("allowed_registries", strings_value ["*"])]].

Definition RestrictHostPathVolumesPolicy : Policy :=
  mk "restrict-hostpath-volumes" "*" "Denies hostPath volume mounts for security"
    true 95 PolicyActionDeny ∅
    [mkRule "no-hostpath" "Containers must not mount hostPath volumes"
       RuleTypeVolumeType
       [("denied_types", strings_value ["hostPath"]);
        ("allowed_types", strings_value ["emptyDir"; "configMap"; "secret"; "persistentVolume"])]].

Definition RestrictEgressPolicy : Policy :=
  mk "restrict-egress-destinations" "*" "Restricts network egress to known safe destinations"
    false 85 PolicyActionDeny ∅
    [mkRule "egress-allowlist" "Containers can only egress to allowed destinations"
       RuleTypeEgressDestination
       [("allowed_destinations", strings_value
          ["*.example.com"; "api.company.com"; "10.0.0.0/8"; "172.16.0.0/12"; "192.168.0.0/16"]);
        ("denied_destinations", strings_value ["*.onion"; "*.suspicious.com"]);
        ("allow_private_ips", VBool true)]].

Definition RequireNodeAffinityPolicy (requiredLabels : gmap string string) : Policy :=
  mk "require-node-affinity" "*" "Requires specific node labels for placement"
    false 70 PolicyActionDeny ∅
    [mkRule "node-label-requirement" "Workloads must specify required node selectors"
       RuleTypeNodeSelector [("required_labels", VMap (VString <$> requiredLabels))]].

Definition AllowDefaultNamespacePolicy : Policy :=
  mk "allow-default-namespace" "default"
    "Allows workloads in the default namespace (for testing)"
    true 10 PolicyActionAllow ∅ [].

Definition DefaultPolicies : list Policy :=
  [AllowDefaultNamespacePolicy; RestrictPrivilegedContainersPolicy;
   RestrictHostNamespacesPolicy; AllowedRegistriesPolicy; DenyDangerousCapabilitiesPolicy;
   RequireResourceLimitsPolicy].

End Rules.

(** An engine loaded with a list of policies, as [InitializePolicyEngine] of
    [pkg/coordinator/policy_integration.go] does with the defaults. *)
Definition add_all (now : Z) (ps : list Policy) (e : Engine) : Engine :=
  foldl (fun e p => (AddPolicy now (Some p) e).1) e ps.

Definition InitializePolicyEngine (created updated now : Z) : Engine :=
  add_all now (DefaultPolicies created updated) (NewEngine DefaultEngineConfig).

(** ** The default policies *)

Definition stamp (now : Z) (p : Policy) : Policy := {|
  pol_Name := pol_Name p; pol_Namespace := pol_Namespace p;
  pol_Description := pol_Description p; pol_Enabled := pol_Enabled p;
  pol_Priority := pol_Priority p; pol_Labels := pol_Labels p;
  pol_Rules := pol_Rules p; pol_Action := pol_Action p;
  pol_CreatedAt := if IsZero (pol_CreatedAt p) then now else pol_CreatedAt p;
  pol_UpdatedAt := now; pol_DeletedAt := pol_DeletedAt p |}.

Lemma default_table created updated now p :
  (∃ name, eng_policies (InitializePolicyEngine created updated now) !! name = Some p) ↔
  p ∈ stamp now <$> DefaultPolicies created updated.
Proof.
  assert (eng_policies (InitializePolicyEngine created updated now) =
    foldl (fun m p => <[pol_Name p := stamp now p]> m) ∅ (DefaultPolicies created updated))
    as -> by reflexivity.
  cbn [foldl DefaultPolicies fmap list_fmap]. split.
  - intros [name Hn]. rewrite !lookup_insert_Some, lookup_empty in Hn.
    repeat (destruct Hn as [[_ <-]|[_ Hn]]; [in_list|]). done.
  - intros Hin. repeat (apply elem_of_cons in Hin as [->|Hin];
      [match goal with |- ∃ _, _ = Some ?q => exists (pol_Name q); by vm_compute end|]).
    by apply elem_of_nil in Hin.
Qed.

(** What the default policies ask of a workload. *)
Definition default_registries : list Value :=
  VString <$> ["docker.io"; "gcr.io"; "ghcr.io"; "quay.io"; "*.azurecr.io"; "*.amazonaws.com"]%string.
Definition default_denied_caps : list Value :=
  VString <$> ["SYS_ADMIN"; "SYS_MODULE"; "SYS_RAWIO"; "SYS_PTRACE"; "SYS_BOOT"; "MAC_ADMIN";
               "NET_ADMIN"; "SETPCAP"; "ALL"]%string.
Definition default_allowed_caps : list Value :=
  VString <$> ["CHOWN"; "DAC_OVERRIDE"; "FOWNER"; "FSETID"; "KILL"; "SETGID"; "SETUID";
               "NET_BIND_SERVICE"]%string.

Record complies (spec : WorkloadSpec) : Prop := {
  ok_privileged : ws_Privileged spec = false;
  ok_host : ws_HostNetwork spec = false ∧ ws_HostPID spec = false ∧ ws_HostIPC spec = false;
  ok_registry : any_string (matchesPattern (extractRegistry (ws_Image spec)))
    default_registries = true;
  ok_caps : ∀ cap, cap ∈ ws_Capabilities spec →
    any_string (EqualFold cap) default_denied_caps = false ∧
    any_string (EqualFold cap) default_allowed_caps = true;
  ok_requests : flt (f_of_Z 16000) (f_of_Z (ws_CPURequest spec)) = false ∧
    flt (f_of_Z (32 * 1024 * 1024 * 1024)) (f_of_Z (ws_MemoryRequest spec)) = false;
  ok_limits : ws_CPULimit spec ≠ 0 ∧ ws_MemoryLimit spec ≠ 0
}.

(** The rule of a one-rule deny policy decides whether it is violated. *)
Lemma single_rule_violated `{GoRange} p r spec :
  pol_Rules p = [r] → rule_Conditions r = [] →
  ¬ violated p spec ↔ EvaluateRule r spec = [].
Proof.
  intros Hr Hc. unfold violated. rewrite Hr. split.
  - intros Hn. destruct (EvaluateRule r spec) eqn:He; [done|]. destruct Hn.
    exists r. rewrite Hc, He. split_and!; [set_solver|done..].
  - intros He (r' & ->%list_elem_of_singleton & _ & Hv). done.
Qed.

Lemma default_considered created updated now spec p :
  pol_Namespace p = "*"%string → p ∈ stamp now <$> DefaultPolicies created updated →
  considered (InitializePolicyEngine created updated now) spec p.
Proof.
  intros Hns Hin. unfold considered. rewrite default_table. split; [done|].
  cbn [DefaultPolicies fmap list_fmap] in Hin.
  apply elem_of_cons in Hin as [->|Hin]; [by vm_compute in Hns|].
  assert (pol_DeletedAt p = None ∧ pol_Enabled p = true ∧ pol_Labels p = ∅ ∧
    ∃ r, pol_Rules p = [r] ∧ rule_Conditions r = []) as (Hd & He & Hl & r & Hr & Hc).
  { repeat (apply elem_of_cons in Hin as [->|Hin]; [by split_and!; try eexists|]).
    by apply elem_of_nil in Hin. }
  split_and!; [done|done| |].
  - split; [auto|]. intros k v. by rewrite Hl, lookup_empty.
  - right. exists r. rewrite Hr, Hc. split; [set_solver|done].
Qed.

Section Default.
Context `{GoRange, GoSort}.
Variables (created updated now : Z).
Let P := stamp now.

Ltac one_rule := etrans; [eapply single_rule_violated; reflexivity|].

Lemma privileged_policy_ok spec :
  ¬ violated (P (RestrictPrivilegedContainersPolicy created updated)) spec ↔
  ws_Privileged spec = false.
Proof.
  one_rule. etrans; [apply evaluatePrivilegedMode_clean_iff|].
  split; [intros [?|Hc]; [done|by vm_compute in Hc]|by left].
Qed.

Lemma host_policy_ok spec :
  ¬ violated (P (RestrictHostNamespacesPolicy created updated)) spec ↔
  ws_HostNetwork spec = false ∧ ws_HostPID spec = false ∧ ws_HostIPC spec = false.
Proof.
  one_rule. etrans; [apply evaluateHostNetwork_clean_iff|].
  split; [|intros (?&?&?); auto].
  intros ([?|Hc]&[?|Hd]&[?|He]); first [done|by vm_compute in Hc|by vm_compute in Hd|by vm_compute in He].
Qed.

Lemma registry_policy_ok spec :
  ¬ violated (P (AllowedRegistriesPolicy created updated)) spec ↔
  any_string (matchesPattern (extractRegistry (ws_Image spec))) default_registries = true.
Proof.
  one_rule. etrans; [apply evaluateImageRegistry_clean|].
  split; [by intros [_ [Hc|?]]|]. intros Ha. by split; [|right].
Qed.

Lemma capabilities_policy_ok spec :
  ¬ violated (P (DenyDangerousCapabilitiesPolicy created updated)) spec ↔
  ∀ cap, cap ∈ ws_Capabilities spec →
    any_string (EqualFold cap) default_denied_caps = false ∧
    any_string (EqualFold cap) default_allowed_caps = true.
Proof.
  one_rule. etrans; [apply evaluateCapabilities_clean_iff|].
  split; intros Hc cap Hin; destruct (Hc cap Hin) as [? Ha]; (split; [done|]).
  - by destruct Ha.
  - by right.
Qed.

Lemma limits_policy_ok spec :
  ¬ violated (P (RequireResourceLimitsPolicy created updated)) spec ↔
  (flt (f_of_Z 16000) (f_of_Z (ws_CPURequest spec)) = false ∧
   flt (f_of_Z (32 * 1024 * 1024 * 1024)) (f_of_Z (ws_MemoryRequest spec)) = false) ∧
  ws_CPULimit spec ≠ 0 ∧ ws_MemoryLimit spec ≠ 0.
Proof.
  one_rule. match goal with |- EvaluateRule ?r _ = [] ↔ _ =>
    change (EvaluateRule r spec) with (evaluateResourceLimit r spec) end.
  unfold evaluateResourceLimit. rewrite !app_nil, !if_nil.
  change (as_float _) with (f_of_Z 16000) at 1 2.
  change (as_float _) with (f_of_Z (32 * 1024 * 1024 * 1024)) at 1 2.
  change (as_bool _) with true. cbn [andb]. rewrite app_nil, !if_nil, !Z.eqb_neq.
  change (flt f0 (f_of_Z 16000)) with true.
  change (flt f0 (f_of_Z (32 * 1024 * 1024 * 1024))) with true. cbn [andb]. tauto.
Qed.

End Default.

(** With the default policies loaded, a workload of any namespace is
    admitted exactly when it complies with every default rule: the policies
    for namespace [*] always apply, so the default action is never used. *)
Theorem default_engine_decision `{GoRange} created updated now spec :
  admits (InitializePolicyEngine created updated now) spec ↔ complies spec.
Proof.
  set (e := InitializePolicyEngine created updated now).
  assert (∀ p, pol_Namespace p = "*"%string → p ∈ stamp now <$> DefaultPolicies created updated →
    considered e spec p) as Hcons by (intros; by apply default_considered).
  assert (admits e spec ↔ ∀ p, considered e spec p → pol_Action p = PolicyActionDeny →
    ¬ violated p spec) as ->.
  { unfold admits. split; [intros [[_ Hd]|[Hn _]]; [done|]|].
    - destruct Hn. exists (stamp now (RestrictPrivilegedContainersPolicy created updated)).
      apply Hcons; [done|]. cbn [DefaultPolicies fmap list_fmap]. in_list.
    - left. split; [|done]. exists (stamp now (RestrictPrivilegedContainersPolicy created updated)).
      apply Hcons; [done|]. cbn [DefaultPolicies fmap list_fmap]. in_list. }
  assert (∀ p, p ∈ stamp now <$> tail (DefaultPolicies created updated) →
    considered e spec p ∧ pol_Action p = PolicyActionDeny) as Hdeny.
  { intros p Hin. assert (pol_Namespace p = "*"%string ∧ pol_Action p = PolicyActionDeny) as [? ?].
    { cbn [DefaultPolicies tail fmap list_fmap] in Hin.
      repeat (apply elem_of_cons in Hin as [->|Hin]; [done|]). by apply elem_of_nil in Hin. }
    split; [|done]. apply Hcons; [done|]. by right. }
  cbn [DefaultPolicies tail fmap list_fmap] in Hdeny. split.
  - intros Hall.
    split.
    + apply (privileged_policy_ok created updated now). apply Hall; apply Hdeny; in_list.
    + apply (host_policy_ok created updated now). apply Hall; apply Hdeny; in_list.
    + apply (registry_policy_ok created updated now). apply Hall; apply Hdeny; in_list.
    + apply (capabilities_policy_ok created updated now). apply Hall; apply Hdeny; in_list.
    + apply (limits_policy_ok created updated now). apply Hall; apply Hdeny; in_list.
    + apply (limits_policy_ok created updated now). apply Hall; apply Hdeny; in_list.
  - intros [] p (Ht & _) Ha. apply default_table in Ht.
    cbn [DefaultPolicies fmap list_fmap] in Ht.
    repeat (apply elem_of_cons in Ht as [->|Ht];
      [first [by apply privileged_policy_ok|by apply host_policy_ok|by apply registry_policy_ok
             |by apply capabilities_policy_ok|by apply limits_policy_ok|done]|]).
    by apply elem_of_nil in Ht.
Qed.

(** ** Concrete runs *)

(** An environment whose clock stands still and whose deadline never passes. *)
Definition calm (t : Z) : EvalEnv := {|
  env_start := t; env_cache_read := t; env_done := fun _ => false;
  env_audit := fun _ => t; env_end := t; env_cache_write := t |}.

Definition set_privileged (b : bool) (s : WorkloadSpec) : WorkloadSpec := {|
  ws_Name := ws_Name s; ws_Namespace := ws_Namespace s; ws_Image := ws_Image s;
  ws_Command := ws_Command s; ws_Args := ws_Args s; ws_Env := ws_Env s;
  ws_Labels := ws_Labels s; ws_Annotations := ws_Annotations s;
  ws_Privileged := b; ws_Capabilities := ws_Capabilities s;
  ws_HostNetwork := ws_HostNetwork s; ws_HostPID := ws_HostPID s; ws_HostIPC := ws_HostIPC s;
  ws_RunAsUser := ws_RunAsUser s; ws_RunAsGroup := ws_RunAsGroup s; ws_FSGroup := ws_FSGroup s;
  ws_ReadOnlyRootFS := ws_ReadOnlyRootFS s; ws_SecurityContext := ws_SecurityContext s;
  ws_CPURequest := ws_CPURequest s; ws_MemoryRequest := ws_MemoryRequest s;
  ws_CPULimit := ws_CPULimit s; ws_MemoryLimit := ws_MemoryLimit s;
  ws_Volumes := ws_Volumes s; ws_Ports := ws_Ports s; ws_EgressDomains := ws_EgressDomains s;
  ws_NodeSelector := ws_NodeSelector s; ws_Region := ws_Region s; ws_Zone := ws_Zone s |}.

Definition set_limits (cpu mem : Z) (s : WorkloadSpec) : WorkloadSpec := {|
  ws_Name := ws_Name s; ws_Namespace := ws_Namespace s; ws_Image := ws_Image s;
  ws_Command := ws_Command s; ws_Args := ws_Args s; ws_Env := ws_Env s;
  ws_Labels := ws_Labels s; ws_Annotations := ws_Annotations s;
  ws_Privileged := ws_Privileged s; ws_Capabilities := ws_Capabilities s;
  ws_HostNetwork := ws_HostNetwork s; ws_HostPID := ws_HostPID s; ws_HostIPC := ws_HostIPC s;
  ws_RunAsUser := ws_RunAsUser s; ws_RunAsGroup := ws_RunAsGroup s; ws_FSGroup := ws_FSGroup s;
  ws_ReadOnlyRootFS := ws_ReadOnlyRootFS s; ws_SecurityContext := ws_SecurityContext s;
  ws_CPURequest := ws_CPURequest s; ws_MemoryRequest := ws_MemoryRequest s;
  ws_CPULimit := cpu; ws_MemoryLimit := mem;
  ws_Volumes := ws_Volumes s; ws_Ports := ws_Ports s; ws_EgressDomains := ws_EgressDomains s;
  ws_NodeSelector := ws_NodeSelector s; ws_Region := ws_Region s; ws_Zone := ws_Zone s |}.

(** A web server that complies with the default policies. *)
Definition web : WorkloadSpec := set_limits 500 1073741824 (bare_workload "web" "prod" "nginx:1").

Definition e0 : Engine := InitializePolicyEngine 1 1 1.

(** The engine's decision in the canonical runtime. *)
Definition decide_in (env : EvalEnv) (spec : WorkloadSpec) (e : Engine)
    : Engine * result engine_error EvaluationResult :=
  @Evaluate range_canonical sort_insertion env spec e.

Definition allowed_of (r : result engine_error EvaluationResult) : bool :=
  match r with Ok r => er_Allowed r | Err _ => false end.

Example web_admitted : allowed_of (decide_in (calm 1) web e0).2 = true.
Proof. vm_compute. reflexivity. Qed.

Example privileged_denied : allowed_of (decide_in (calm 1) (set_privileged true web) e0).2 = false.
Proof. vm_compute. reflexivity. Qed.

(** The cache lets a privileged container through: once a compliant
    workload has been evaluated, the same name and image with privileged mode
    on is admitted, although the policies do not admit it. *)
Theorem cache_admits_privileged :
  let e1 := (decide_in (calm 1) web e0).1 in
  let bad := set_privileged true web in
  allowed_of (decide_in (calm 2) bad e1).2 = true ∧
  ¬ @admits range_canonical e1 bad.
Proof.
  intros e1 bad. split; [vm_compute; reflexivity|].
  assert (@admits range_canonical e1 bad ↔ @admits range_canonical e0 bad) as -> by done.
  unfold e0. rewrite default_engine_decision. intros []. by vm_compute in ok_privileged0.
Qed.

(** A policy that denies every image of docker.io. *)
Definition no_docker : Policy := {|
  pol_Name := "no-docker"; pol_Namespace := "*"; pol_Description := ""; pol_Enabled := true;
  pol_Priority := 200; pol_Labels := ∅;
  pol_Rules := [{| rule_Name := "no-docker"; rule_Description := "";
                   rule_Type := RuleTypeImageRegistry;
                   rule_Config := {["denied_registries" := strings_value ["docker.io"]]};
                   rule_Conditions := [] |}];
  pol_Action := PolicyActionDeny;
  pol_CreatedAt := 1; pol_UpdatedAt := 1; pol_DeletedAt := None |}.

(** [Evaluate] reads the policies and writes the cache in two critical
    sections.  When [AddPolicy] runs between them, the result of the old
    policies is cached after the cache was cleared, and later evaluations
    admit a workload that the new policy denies. *)
Theorem stale_result_defeats_new_policy :
  let snapshot := @getSortedPolicies range_canonical sort_insertion e0 in
  let e1 := (AddPolicy 2 (Some no_docker) e0).1 in
  ∃ r, @evaluate_policies range_canonical (calm 1) (eng_config e0) snapshot web = Ok r ∧
    let e2 := cacheResult 3 web r e1 in
    allowed_of (decide_in (calm 4) web e2).2 = true ∧ ¬ @admits range_canonical e2 web.
Proof.
  intros snapshot e1. eexists. split; [vm_compute; reflexivity|]. split; [vm_compute; reflexivity|].
  match goal with |- ¬ admits ?e _ =>
    intros Ha; eapply (evaluate_policies_admits (H0 := sort_insertion) (calm 4) e web) in Ha;
      [|vm_compute; reflexivity] end.
  by vm_compute in Ha.
Qed.

Definition vip : Policy := {|
  pol_Name := "vip"; pol_Namespace := "prod"; pol_Description := ""; pol_Enabled := true;
  pol_Priority := 150; pol_Labels := ∅; pol_Rules := []; pol_Action := PolicyActionAllow;
  pol_CreatedAt := 1; pol_UpdatedAt := 1; pol_DeletedAt := None |}.

(** A denied workload can carry the reason of an allow policy: the reason
    is only filled in when it is still empty, and an allow policy of higher
    priority than the denying one has set it. *)
Theorem denied_with_allow_reason :
  let e1 := (AddPolicy 2 (Some vip) e0).1 in
  ∃ r, (decide_in (calm 3) (set_privileged true web) e1).2 = Ok r ∧
    er_Allowed r = false ∧ er_Reason r = "Allowed by policy: vip"%string.
Proof. eexists. split; [vm_compute; reflexivity|]. split; reflexivity. Qed.

(** The production policy means to admit images of [gcr.io/company-prod],
    but the registry of an image has no slash, so the only images its
    registry rule accepts are those of [company.azurecr.io]. *)
Theorem production_registry_only_azure spec rule :
  rule ∈ pol_Rules (ProductionNamespacePolicy 1 1) → rule_Type rule = RuleTypeImageRegistry →
  evaluateImageRegistry rule spec = [] ↔
  ToLower (extractRegistry (ws_Image spec)) = "company.azurecr.io"%string.
Proof.
  intros Hin Ht. apply elem_of_cons in Hin as [->|Hin];
    [|apply list_elem_of_singleton in Hin as ->; by vm_compute in Ht].
  etrans; [apply evaluateImageRegistry_clean|]. unfold allow_deny_ok.
  match goal with |- any_string _ ?d = _ ∧ (?a = _ ∨ _) ↔ _ =>
    change d with (@nil Value);
    change a with [VString "gcr.io/company-prod"; VString "company.azurecr.io"] end.
  cbn [any_string existsb]. rewrite matchesPattern_slash, matchesPattern_literal by compute_done.
  rewrite orb_false_r. cbn [orb]. rewrite bool_decide_eq_true.
  split; [by intros [_ [?|?]]|]. intros ?. split; [done|by right].
Qed.

Lemma production_registry_only_azure_witness :
  evaluateImageRegistry (hd (Build_Rule "" "" "" ∅ []) (pol_Rules (ProductionNamespacePolicy 1 1)))
    (bare_workload "api" "production" "gcr.io/company-prod/api:1") = [] ↔
  ToLower (extractRegistry "gcr.io/company-prod/api:1") = "company.azurecr.io"%string.
Proof.
  apply (production_registry_only_azure
    (bare_workload "api" "production" "gcr.io/company-prod/api:1")); [in_list|reflexivity].
Defined.

(** ** Witnesses of the engine's properties on concrete runs *)

Lemma Evaluate_refines_witness :
  getCachedResult 1 web e0 = None ∧
  ∃ r, (decide_in (calm 1) web e0).2 = Ok r ∧
    (er_Allowed r = true ↔ @admits range_canonical e0 web).
Proof.
  split; [reflexivity|].
  destruct (decide_in (calm 1) web e0) as [e' [r|err]] eqn:E; [|by vm_compute in E].
  exists r. split; [done|].
  apply (@Evaluate_refines range_canonical sort_insertion (calm 1) web e0 e' r); [reflexivity|exact E].
Defined.

Lemma Evaluate_returns_witness : is_ok (decide_in (calm 1) web e0).2 = true.
Proof.
  apply (@Evaluate_returns range_canonical sort_insertion (calm 1) web e0). intros i. reflexivity.
Defined.

Lemma evaluation_order_independent_witness :
  ∃ r1 r2,
    @evaluate_policies range_canonical (calm 1) (eng_config e0)
      (@getSortedPolicies range_canonical sort_insertion e0) (set_privileged true web) = Ok r1 ∧
    @evaluate_policies range_reversed (calm 2) (eng_config e0)
      (@getSortedPolicies range_reversed sort_insertion e0) (set_privileged true web) = Ok r2 ∧
    er_Allowed r1 = er_Allowed r2 ∧ er_Violations r1 ≡ₚ er_Violations r2.
Proof.
  eexists _, _. split; [vm_compute; reflexivity|]. split; [vm_compute; reflexivity|].
  eapply (evaluation_order_independent range_canonical range_reversed sort_insertion sort_insertion
    (calm 1) (calm 2) (set_privileged true web) e0); vm_compute; reflexivity.
Defined.

Lemma matched_by_priority_witness :
  ∃ r ps, @evaluate_policies range_canonical (calm 1) (eng_config e0)
      (@getSortedPolicies range_canonical sort_insertion e0) web = Ok r ∧
    er_MatchedPolicies r = pol_Name <$> ps ∧
    StronglySorted (fun p q => pol_Priority q ≤ pol_Priority p) ps.
Proof.
  destruct (@evaluate_policies range_canonical (calm 1) (eng_config e0)
    (@getSortedPolicies range_canonical sort_insertion e0) web) as [r|] eqn:E; [|by vm_compute in E].
  destruct (@matched_by_priority range_canonical sort_insertion (calm 1) web e0 r E)
    as (ps & Hm & Hs & _). eauto.
Defined.

Lemma engine_invariant_witness :
  @keyed e0 ∧ @coherent range_canonical sort_insertion (decide_in (calm 1) web (NewEngine DefaultEngineConfig)).1.
Proof.
  split.
  - apply (@engine_invariant range_canonical sort_insertion DefaultEngineConfig e0).
    unfold reachable, e0, InitializePolicyEngine, add_all. cbn [foldl DefaultPolicies].
    do 6 (eapply rtc_r; [|apply step_add]). apply rtc_refl.
  - apply (@engine_invariant range_canonical sort_insertion DefaultEngineConfig).
    eapply rtc_once, step_evaluate.
Defined.

Lemma cache_ignores_workload_witness :
  let e1 := (decide_in (calm 1) web e0).1 in
  ∃ r, (decide_in (calm 1) web e0).2 = Ok r ∧
    decide_in (calm 2) (set_privileged true web) e1 = (e1, Ok r).
Proof.
  intros e1. destruct (decide_in (calm 1) web e0) as [e' [r|err]] eqn:E; [|by vm_compute in E].
  exists r. split; [done|]. subst e1.
  eapply (@cache_ignores_workload range_canonical sort_insertion (calm 1) (calm 2) web
    (set_privileged true web) e0 e' r); [reflexivity|reflexivity|exact E|reflexivity|].
  reflexivity.
Defined.

Lemma violations_name_no_policy_witness :
  ∃ r v, @evaluate_policies range_canonical (calm 1) (eng_config e0)
      (@getSortedPolicies range_canonical sort_insertion e0) (set_privileged true web) = Ok r ∧
    v ∈ er_Violations r ∧ vio_PolicyName v = ""%string.
Proof.
  eexists _, _. split; [vm_compute; reflexivity|]. split; [apply list_elem_of_here|].
  eapply (@violations_name_no_policy range_canonical sort_insertion (calm 1) (eng_config e0)
    (@getSortedPolicies range_canonical sort_insertion e0) (set_privileged true web));
    [vm_compute; reflexivity|apply list_elem_of_here].
Defined.

(** A rule that requires a sandboxed runtime, and a workload that runs in one. *)
Definition sandbox_rule : Rule := {|
  rule_Name := "sandbox"; rule_Description := ""; rule_Type := RuleTypeRuntimeClass;
  rule_Config := {["require_sandboxed" := VBool true]}; rule_Conditions := [] |}.

Definition gvisor_context : PolicySecurityContext := {|
  ctx_Linux := None; ctx_Privileged := false; ctx_HostNetwork := false; ctx_HostPID := false;
  ctx_HostIPC := false; ctx_RunAsUser := None; ctx_RunAsGroup := None; ctx_RunAsNonRoot := None;
  ctx_ReadOnlyRootFilesystem := false; ctx_CapabilitiesAdd := []; ctx_CapabilitiesDrop := [];
  ctx_RuntimeClassName := "gvisor" |}.

Definition sandboxed : WorkloadSpec :=
  let s := bare_workload "job" "default" "nginx" in {|
  ws_Name := ws_Name s; ws_Namespace := ws_Namespace s; ws_Image := ws_Image s;
  ws_Command := ws_Command s; ws_Args := ws_Args s; ws_Env := ws_Env s;
  ws_Labels := ws_Labels s; ws_Annotations := ws_Annotations s;
  ws_Privileged := ws_Privileged s; ws_Capabilities := ws_Capabilities s;
  ws_HostNetwork := ws_HostNetwork s; ws_HostPID := ws_HostPID s; ws_HostIPC := ws_HostIPC s;
  ws_RunAsUser := ws_RunAsUser s; ws_RunAsGroup := ws_RunAsGroup s; ws_FSGroup := ws_FSGroup s;
  ws_ReadOnlyRootFS := ws_ReadOnlyRootFS s; ws_SecurityContext := Some gvisor_context;
  ws_CPURequest := ws_CPURequest s; ws_MemoryRequest := ws_MemoryRequest s;
  ws_CPULimit := ws_CPULimit s; ws_MemoryLimit := ws_MemoryLimit s;
  ws_Volumes := ws_Volumes s; ws_Ports := ws_Ports s; ws_EgressDomains := ws_EgressDomains s;
  ws_NodeSelector := ws_NodeSelector s; ws_Region := ws_Region s; ws_Zone := ws_Zone s |}.

Lemma evaluateRuntimeClass_sandboxed_witness :
  ∃ sc, ws_SecurityContext sandboxed = Some sc ∧ ctx_RuntimeClassName sc ∈ sandboxedRuntimes.
Proof. apply (evaluateRuntimeClass_sandboxed sandbox_rule sandboxed); reflexivity. Defined.
