(* ===== verification/PolicyAdmission.v ===== *)
(** * Admission control: [pkg/coordinator/policy_integration.go]

    The client of the policy engine: the coordinator converts an API workload
    to the engine's [WorkloadSpec] and turns the engine's answer into a gRPC
    status.  The API messages are those of [pkg/api/cloudless.proto], with the
    fields that the conversion could read. *)

From S2P Require Import Prelude GoText GoFloat PolicyTypes PolicyEvaluator PolicyEngine PolicyRules.

(** ** API messages *)

Module api.

Record ResourceCapacity := {
  CpuMillicores : Z; MemoryBytes : Z; StorageBytes : Z; BandwidthBps : Z; GpuCount : Z
}.

Record ResourceRequirements := {
  Requests : option ResourceCapacity; Limits : option ResourceCapacity
}.

Record Volume := {
  vol_name : string; vol_source : string; vol_mount_path : string; vol_read_only : bool
}.

Record Port := {
  port_name : string; container_port : Z; host_port : Z; protocol : string
}.

Record PlacementPolicy := {
  regions : list string; zones : list string; node_selector : gmap string string
}.

Record SecurityContext := {
  privileged : bool; host_network : bool; host_pid : bool; host_ipc : bool;
  run_as_user : Z; run_as_group : Z; run_as_non_root : bool;
  read_only_root_filesystem : bool;
  capabilities_add : list string; capabilities_drop : list string;
  runtime_class_name : string
}.

(** The enumerations by their numbers. *)
Record RestartPolicy := { restart_policy : Z; max_retries : Z }.

Record RolloutStrategy := {
  strategy : Z; max_surge : Z; max_unavailable : Z; min_available : Z
}.

Record HTTPHeader := { header_name : string; header_value : string }.

Inductive Check :=
| CheckExec (command : list string)
| CheckHttp (path : string) (port : Z) (scheme : string) (headers : list HTTPHeader)
| CheckTcp (port : Z).

(** Durations in nanoseconds; the one of the fields that is set. *)
Record HealthCheck := {
  check : option Check;
  initial_delay : option Z; period : option Z; timeout : option Z;
  success_threshold : Z; failure_threshold : Z
}.

Record WorkloadSpec := {
  image : string; command : list string; args : list string; env : gmap string string;
  resources : option ResourceRequirements; replicas : Z; placement : option PlacementPolicy;
  restart : option RestartPolicy; rollout : option RolloutStrategy;
  volumes : list Volume; ports : list Port;
  liveness_probe : option HealthCheck; readiness_probe : option HealthCheck;
  security_context : option SecurityContext
}.

Record WorkloadStatus := {
  phase : Z; ready_replicas : Z; current_replicas : Z; desired_replicas : Z
}.

(** The maps of a message may be nil, which is [None] for the annotations: the
    coordinator writes to them. *)
Record Workload := {
  id : string; name : string; namespace : string; spec : option WorkloadSpec;
  wstatus : option WorkloadStatus; created_at : option Z; updated_at : option Z;
  labels : gmap string string; annotations : option (gmap string string)
}.

End api.

(** ** Conversion *)

Definition convert_volume (v : api.Volume) : VolumeSpec := {|
  vol_Name := api.vol_name v; vol_Type := api.vol_source v; vol_Source := api.vol_source v;
  vol_MountPath := api.vol_mount_path v; vol_ReadOnly := api.vol_read_only v |}.

Definition convert_port (p : api.Port) : PortSpec := {|
  port_Name := api.port_name p; port_Port := api.container_port p;
  port_Protocol := api.protocol p; port_HostPort := api.host_port p |}.

(** [convertToPolicyWorkloadSpec] *)
Definition convertToPolicyWorkloadSpec (w : api.Workload) : WorkloadSpec :=
  match api.spec w with
  | None => bare_workload (api.name w) (api.namespace w) ""
  | Some spec =>
      let requests := api.resources spec ≫= api.Requests in
      let limits := api.resources spec ≫= api.Limits in
      {| ws_Name := api.name w; ws_Namespace := api.namespace w; ws_Image := api.image spec;
         ws_Command := api.command spec; ws_Args := api.args spec; ws_Env := api.env spec;
         ws_Labels := api.labels w; ws_Annotations := default ∅ (api.annotations w);
         ws_Privileged := false; ws_Capabilities := [];
         ws_HostNetwork := false; ws_HostPID := false; ws_HostIPC := false;
         ws_RunAsUser := None; ws_RunAsGroup := None; ws_FSGroup := None;
         ws_ReadOnlyRootFS := false; ws_SecurityContext := None;
         ws_CPURequest := from_option api.CpuMillicores 0 requests;
         ws_MemoryRequest := from_option api.MemoryBytes 0 requests;
         ws_CPULimit := from_option api.CpuMillicores 0 limits;
         ws_MemoryLimit := from_option api.MemoryBytes 0 limits;
         ws_Volumes := convert_volume <$> api.volumes spec;
         ws_Ports := convert_port <$> api.ports spec;
         ws_EgressDomains := [];
         ws_NodeSelector := from_option api.node_selector ∅ (api.placement spec);
         ws_Region := default ""%string (api.placement spec ≫= fun p => head (api.regions p));
         ws_Zone := default ""%string (api.placement spec ≫= fun p => head (api.zones p)) |}
  end.

(** ** Admission *)

(** The gRPC status of a refused request. *)
Inductive status :=
| Internal (err : engine_error)
| PermissionDenied (msg : string).

(** The numbered lines of the error message. *)
Fixpoint violation_lines (i : Z) (vs : list Violation) : string :=
  match vs with
  | [] => ""
  | v :: vs' =>
      show_Z (i + 1) +:+ ". [" +:+ vio_Severity v +:+ "] " +:+ vio_RuleName v +:+ ": "
      +:+ vio_Message v +:+ String (Ascii.ascii_of_nat 10) (violation_lines (i + 1) vs')
  end.

Definition nl : string := String (Ascii.ascii_of_nat 10) "".

Definition denial_message (r : EvaluationResult) : string :=
  "Workload denied by policy: " +:+ er_Reason r +:+ nl +:+ nl +:+ "Violations:" +:+ nl
  +:+ violation_lines 0 (er_Violations r).

(** [AdmitWorkload]; the coordinator's engine is [nil] before it is
    initialized. *)
Definition AdmitWorkload `{GoRange, GoSort} (env : EvalEnv) (w : api.Workload)
    (engine : option Engine) : option Engine * result status unit :=
  match engine with
  | None => (None, Ok tt)
  | Some e =>
      let '(e', r) := Evaluate env (convertToPolicyWorkloadSpec w) e in
      (Some e',
       match r with
       | Err err => Err (Internal err)
       | Ok r => if negb (er_Allowed r) then Err (PermissionDenied (denial_message r)) else Ok tt
       end)
  end.

(** ** Properties *)

Definition with_security_context (sc : option api.SecurityContext) (w : api.Workload)
    : api.Workload := {|
  api.id := api.id w; api.name := api.name w; api.namespace := api.namespace w;
  api.spec := (fun s => {|
    api.image := api.image s; api.command := api.command s; api.args := api.args s;
    api.env := api.env s; api.resources := api.resources s; api.replicas := api.replicas s;
    api.placement := api.placement s; api.restart := api.restart s; api.rollout := api.rollout s;
    api.volumes := api.volumes s; api.ports := api.ports s;
    api.liveness_probe := api.liveness_probe s; api.readiness_probe := api.readiness_probe s;
    api.security_context := sc |}) <$> api.spec w;
  api.wstatus := api.wstatus w; api.created_at := api.created_at w;
  api.updated_at := api.updated_at w;
  api.labels := api.labels w; api.annotations := api.annotations w |}.

(** Admission does not depend on a workload's security context: replacing
    it, by a privileged one for instance, changes neither the answer nor the
    engine's state, whatever policies are loaded. *)
Theorem admission_ignores_security_context `{GoRange, GoSort} env w sc engine :
  AdmitWorkload env (with_security_context sc w) engine = AdmitWorkload env w engine.
Proof.
  unfold AdmitWorkload. by assert (convertToPolicyWorkloadSpec (with_security_context sc w) =
    convertToPolicyWorkloadSpec w) as -> by (destruct w as [? ? ? [] ? ? ? ? ?]; reflexivity).
Qed.


(** A privileged root container, and its admission by the default policies. *)
Definition privileged_context : api.SecurityContext := {|
  api.privileged := true; api.host_network := true; api.host_pid := true; api.host_ipc := true;
  api.run_as_user := 0; api.run_as_group := 0; api.run_as_non_root := false;
  api.read_only_root_filesystem := false; api.capabilities_add := ["SYS_ADMIN"%string];
  api.capabilities_drop := []; api.runtime_class_name := "" |}.

Definition rooted : api.Workload := {|
  api.id := "w1"; api.name := "web"; api.namespace := "prod";
  api.spec := Some {|
    api.image := "nginx:1"; api.command := []; api.args := []; api.env := ∅;
    api.resources := Some {|
      api.Requests := None;
      api.Limits := Some {| api.CpuMillicores := 500; api.MemoryBytes := 1073741824;
        api.StorageBytes := 0; api.BandwidthBps := 0; api.GpuCount := 0 |} |};
    api.replicas := 1; api.placement := None; api.restart := None; api.rollout := None;
    api.volumes := []; api.ports := []; api.liveness_probe := None; api.readiness_probe := None;
    api.security_context := Some privileged_context |};
  api.wstatus := None; api.created_at := None; api.updated_at := None;
  api.labels := ∅; api.annotations := None |}.

(** the default engine admits a privileged container with host namespaces
    and [SYS_ADMIN], on a first request and with nothing cached. *)
Theorem default_admission_admits_privileged :
  (@AdmitWorkload range_canonical sort_insertion (calm 1) rooted (Some e0)).2 = Ok tt ∧
  (api.spec rooted ≫= api.security_context) = Some privileged_context.
Proof. split; [vm_compute; reflexivity|reflexivity]. Qed.

