(* ===== verification/GoFiles.v ===== *)
(** * Files and paths (packages os and path/filepath)

    A path is kept in the cleaned form that [filepath.Join] and
    [filepath.Clean] return: whether it starts at the root, and its elements.
    The file system is the map of regular files; directories are implicit.
    Whether a call of the system fails is an argument of the operation that
    makes it. *)

From S2P Require Import Prelude GoText.

Record Path := { rooted : bool; elems : list string }.

#[export] Instance path_eq_dec : EqDecision Path.
Proof. solve_decision. Defined.

#[export] Instance path_countable : Countable Path.
Proof.
  refine (inj_countable' (fun p => (rooted p, elems p)) (fun x => Build_Path x.1 x.2) _).
  by intros [].
Defined.

(** One element: nothing for an empty element or a point, the parent for two
    points unless there is none. *)
Definition push (p : Path) (e : string) : Path :=
  if (e =?s "") || (e =?s ".") then p
  else if e =?s ".." then
    match last (elems p) with
    | Some l =>
        if l =?s ".." then {| rooted := rooted p; elems := elems p ++ [".."%string] |}
        else {| rooted := rooted p; elems := removelast (elems p) |}
    | None => if rooted p then p else {| rooted := false; elems := [".."%string] |}
    end
  else {| rooted := rooted p; elems := elems p ++ [e] |}.

(** [filepath.Join(p, s)] for a cleaned [p]. *)
Definition Join (p : Path) (s : string) : Path := fold_left push (fields "/" s) p.

(** [filepath.Clean(s)] *)
Definition Clean (s : string) : Path := Join {| rooted := HasPrefix s "/"; elems := [] |} s.

(** [filepath.Base] *)
Definition Base (p : Path) : string :=
  match last (elems p) with
  | Some e => e
  | None => if rooted p then "/" else "."
  end.

Definition path_text (p : Path) : string :=
  match elems p with
  | [] => if rooted p then "/" else "."
  | e :: es => (if rooted p then "/" else "") +:+ e +:+
               foldr (fun e t => String "/" (e +:+ t)) "" es
  end.

(** ** Files *)

Abbreviation Files := (gmap Path string).

(** How [os.WriteFile] ends: it writes everything, it does not open the file,
    or it opens (and empties) the file and stops after some bytes. *)
Inductive Writing :=
| Written
| NotOpened (err : string)
| Interrupted (n : nat) (err : string).

Definition WriteFile (w : Writing) (files : Files) (p : Path) (data : string) : Files * option string :=
  match w with
  | Written => (<[p := data]> files, None)
  | NotOpened err => (files, Some err)
  | Interrupted n err => (<[p := take_bytes n data]> files, Some err)
  end.

(** [os.ReadFile]; [io] is an error other than a missing file. *)
Definition ReadFile (io : option string) (files : Files) (p : Path) : result string string :=
  match io with
  | Some err => Err err
  | None => match files !! p with
            | Some data => Ok data
            | None => Err ("open " +:+ path_text p +:+ ": no such file or directory")
            end
  end.

(** ** The walk of a directory *)

Fixpoint elems_less (p q : list string) : bool :=
  match p, q with
  | [], [] => false
  | [], _ :: _ => true
  | _ :: _, [] => false
  | a :: p, b :: q => String.ltb a b || ((a =?s b) && elems_less p q)
  end.

(** The path lies below the directory. *)
Definition below (dir p : Path) : bool :=
  bool_decide (rooted dir = rooted p) && bool_decide (elems dir `prefix_of` elems p) &&
  bool_decide (elems dir ≠ elems p).

(** The files [filepath.Walk] visits, in lexical order. *)
Definition walk (files : Files) (dir : Path) : list (Path * string) :=
  insertion_sort (fun x y => elems_less (elems x.1) (elems y.1))
    (List.filter (fun x => below dir x.1) (map_to_list files)).

(** ** Lemmas *)

(** An element that [push] appends. *)
Definition plain (e : string) : Prop :=
  e ≠ ""%string ∧ e ≠ "."%string ∧ e ≠ ".."%string.

Lemma push_plain p e :
  plain e → push p e = {| rooted := rooted p; elems := elems p ++ [e] |}.
Proof.
  intros (H1 & H2 & H3). unfold push.
  by rewrite !bool_decide_eq_false_2 by done.
Qed.

Lemma Join_plain p e :
  plain e → contains_char "/" e = false →
  Join p e = {| rooted := rooted p; elems := elems p ++ [e] |}.
Proof. intros He Hc. unfold Join. rewrite fields_one by done. simpl. by apply push_plain. Qed.

Lemma Base_Join p e : plain e → contains_char "/" e = false → Base (Join p e) = e.
Proof. intros. rewrite Join_plain by done. unfold Base. simpl. by rewrite last_snoc. Qed.

Lemma walk_elem files dir p d :
  (p, d) ∈ walk files dir ↔ files !! p = Some d ∧ below dir p = true.
Proof.
  unfold walk. rewrite insertion_sort_perm, list_elem_of_In, filter_In, <-list_elem_of_In.
  pose proof (elem_of_map_to_list files p d). simpl. tauto.
Qed.
