(* ===== verification/IPPool.v ===== *)
(** * The pool of virtual addresses (pkg/overlay/registry.go)

    [IPPool] hands out the host addresses of a network in turn.  Addresses
    are 32-bit numbers printed as dotted decimals; arithmetic on them wraps
    around at [2^32] as [uint32] does.  Of [net.ParseCIDR] the IPv4 form is
    modelled; what an IPv6 text stands for is an argument. *)

From S2P Require Import Prelude GoText.

(** ** Addresses (package net) *)

(** [byte(n >> k)] *)
Definition octet (n k : Z) : Z := Z.shiftr n k mod 256.

(** [net.IPv4(byte(n>>24), byte(n>>16), byte(n>>8), byte(n)).String()] *)
Definition uint32ToIP (n : Z) : string :=
  show_Z (octet n 24) +:+ String "." (show_Z (octet n 16) +:+ String "."
    (show_Z (octet n 8) +:+ String "." (show_Z (octet n 0)))).

Definition digit_value (c : ascii) : option Z :=
  let n := Z.of_N (N_of_ascii c) in
  if (48 <=? n) && (n <=? 57) then Some (n - 48) else None.

(** The decimal value of a string of digits. *)
Fixpoint decimal (acc : Z) (s : string) : option Z :=
  match s with
  | EmptyString => Some acc
  | String c s => match digit_value c with
                  | Some d => decimal (acc * 10 + d) s
                  | None => None
                  end
  end.

(** A field of an IPv4 address: digits without a leading zero, at most 255. *)
Definition parse_octet (s : string) : option Z :=
  match s with
  | EmptyString => None
  | String "0" (String _ _) => None
  | _ => match decimal 0 s with
         | Some v => if v <=? 255 then Some v else None
         | None => None
         end
  end.

(** [ipToUint32] of the address [netip.ParseAddr] reads from an IPv4 text. *)
Definition parse_ip (s : string) : option Z :=
  match fields "." s with
  | [a; b; c; d] =>
      match parse_octet a, parse_octet b, parse_octet c, parse_octet d with
      | Some a, Some b, Some c, Some d =>
          Some (Z.lor (Z.lor (Z.lor (Z.shiftl a 24) (Z.shiftl b 16)) (Z.shiftl c 8)) d)
      | _, _, _, _ => None
      end
  | _ => None
  end.

(** What the pool uses of [*net.IPNet]: [IP.To4()], with [nil] for an address
    that is not IPv4, and the number of host bits, [bits - ones]. *)
Record IPNet := { net_IP : option Z; net_hostBits : Z }.

(** [dtoi]: a number of at most [0xFFFFFF]. *)
Definition parse_mask (s : string) : option Z :=
  match s with
  | EmptyString => None
  | _ => match decimal 0 s with
         | Some n => if n <? 16777215 then Some n else None
         | None => None
         end
  end.

(** [ip & mask] for a mask of [32 - k] ones. *)
Definition mask_ip (ip k : Z) : Z := Z.shiftl (Z.shiftr ip k) k.

(** [netip.ParseAddr] takes a text for IPv6 when a colon comes before any
    point or zone. *)
Fixpoint colon_first (s : string) : bool :=
  match s with
  | EmptyString => false
  | String c s =>
      if decide (c = ":"%char) then true
      else if decide (c = "."%char ∨ c = "%"%char) then false else colon_first s
  end.

Definition ParseCIDR (ipv6 : string → option IPNet) (s : string) : result string IPNet :=
  let invalid := Err ("invalid CIDR address: " +:+ s) in
  match split_first "/" s with
  | (_, None) => invalid
  | (addr, Some mask) =>
      if colon_first addr then match ipv6 s with Some n => Ok n | None => invalid end
      else match parse_ip addr, parse_mask mask with
      | Some ip, Some n =>
          if n <=? 32
          then Ok {| net_IP := Some (mask_ip ip (32 - n)); net_hostBits := 32 - n |}
          else invalid
      | _, _ => invalid
      end
  end.

(** ** The pool *)

Record IPPool := {
  pool_cidr : string;
  pool_network : IPNet;
  pool_allocated : gset string;
  pool_nextOffset : Z
}.

#[export] Instance eta_IPPool : Eta IPPool := fun p =>
  Build_IPPool (pool_cidr p) (pool_network p) (pool_allocated p) (pool_nextOffset p).

(** The first offset: 0 in a network of two addresses (RFC 3021), else 1. *)
Definition start_offset (network : IPNet) : Z := if net_hostBits network =? 1 then 0 else 1.

Definition NewIPPool (ipv6 : string → option IPNet) (cidr : string) : result string IPPool :=
  let cidr := if cidr =?s "" then "10.96.0.0/12" else cidr in
  match ParseCIDR ipv6 cidr with
  | Err err => Err ("invalid CIDR: " +:+ err)
  | Ok network => Ok {| pool_cidr := cidr; pool_network := network; pool_allocated := ∅;
                        pool_nextOffset := start_offset network |}
  end.

(** [uint32(1 << uint(bits-ones))] *)
Definition total_addresses (network : IPNet) : Z := uint32 (Z.shiftl 1 (net_hostBits network)).

Definition max_hosts (network : IPNet) : Z :=
  let total := total_addresses network in
  let endOffset := if net_hostBits network =? 1 then total else uint32 (total - 1) in
  uint32 (endOffset - start_offset network).

(** The address [offset] of turn [i], before and after adding the network. *)
Definition turn_offset (pool : IPPool) (i : Z) : Z :=
  let start := start_offset (pool_network pool) in
  uint32 (start + uint32 (pool_nextOffset pool - start + i) mod max_hosts (pool_network pool)).

(** The loop, from turn [i] with [fuel] turns left. *)
Fixpoint find_free (fuel : nat) (pool : IPPool) (networkUint i : Z) : option (Z * string) :=
  match fuel with
  | O => None
  | S fuel =>
      let offset := turn_offset pool i in
      let ipStr := uint32ToIP (uint32 (networkUint + offset)) in
      if bool_decide (ipStr ∈ pool_allocated pool)
      then find_free fuel pool networkUint (i + 1)
      else Some (offset, ipStr)
  end.

Definition Allocate (pool : IPPool) : IPPool * result string string :=
  match net_IP (pool_network pool) with
  | None => (pool, Err "only IPv4 is supported"%string)
  | Some networkUint =>
      let start := start_offset (pool_network pool) in
      let maxHosts := max_hosts (pool_network pool) in
      match find_free (Z.to_nat maxHosts) pool networkUint 0 with
      | None => (pool, Err "IP pool exhausted"%string)
      | Some (offset, ipStr) =>
          (pool <| pool_allocated := {[ ipStr ]} ∪ pool_allocated pool |>
                <| pool_nextOffset := uint32 (start + uint32 (offset - start + 1) mod maxHosts) |>,
           Ok ipStr)
      end
  end.

Definition Release (pool : IPPool) (ip : string) : IPPool :=
  pool <| pool_allocated := pool_allocated pool ∖ {[ ip ]} |>.

(** What [updatePoolMetrics] is given by [Release]. *)
Definition release_pool_size (network : IPNet) : Z :=
  let total := total_addresses network in
  if net_hostBits network =? 1 then total else uint32 (total - 2).

Example pool_30 :
  match NewIPPool (fun _ => None) "10.1.2.3/30" with
  | Ok p => let '(p, a) := Allocate p in let '(p, b) := Allocate p in
            let '(q, c) := Allocate p in let '(r, d) := Allocate (Release p "10.1.2.1") in
            (a, b, c, d)
  | Err _ => (Err "", Err "", Err "", Err "")
  end = (Ok "10.1.2.1", Ok "10.1.2.2", Err "IP pool exhausted", Ok "10.1.2.1")%string.
Proof. by vm_compute. Qed.

(** ** Addresses and their texts *)

Lemma octet_range n k : 0 ≤ octet n k < 256.
Proof. apply Z.mod_pos_bound. lia. Qed.

Lemma octets_sum n :
  0 ≤ n < 2 ^ 32 →
  n = octet n 24 * 2 ^ 24 + octet n 16 * 2 ^ 16 + octet n 8 * 2 ^ 8 + octet n 0.
Proof.
  intros Hn. unfold octet. rewrite !Z.shiftr_div_pow2 by lia.
  change (2 ^ 24) with 16777216. change (2 ^ 16) with 65536. change (2 ^ 8) with 256.
  change (2 ^ 0) with 1. Z.to_euclidean_division_equations. lia.
Qed.

(** The texts of the octets: no point or colon, and read back as they were. *)
Lemma octet_text z :
  0 ≤ z < 256 →
  contains_char "." (show_Z z) = false ∧ colon_first (show_Z z) = false ∧
  contains_char "/" (show_Z z) = false ∧ parse_octet (show_Z z) = Some z.
Proof.
  intros Hz.
  assert (forallb (fun z => bool_decide (contains_char "." (show_Z z) = false ∧
    colon_first (show_Z z) = false ∧ contains_char "/" (show_Z z) = false ∧
    parse_octet (show_Z z) = Some z)) (seqZ 0 256) = true) as Hall by by vm_compute.
  rewrite forallb_forall' in Hall. apply (bool_decide_eq_true_1 _ (Hall z (proj2 (elem_of_seqZ _ _ _) Hz))).
Qed.

Lemma uint32ToIP_inj n m :
  0 ≤ n < 2 ^ 32 → 0 ≤ m < 2 ^ 32 → uint32ToIP n = uint32ToIP m → n = m.
Proof.
  intros Hn Hm. unfold uint32ToIP.
  assert (∀ a b, contains_char "." (show_Z (octet a b)) = false) as Hdot
    by (intros a b; apply octet_text, octet_range).
  intros (H1 & (H2 & (H3 & H4)%sep_inj)%sep_inj)%sep_inj; [|done..].
  rewrite (octets_sum n Hn), (octets_sum m Hm).
  apply (inj pretty) in H1, H2, H3, H4. congruence.
Qed.

Lemma lor_disjoint x y k : 0 ≤ k → x mod 2 ^ k = 0 → 0 ≤ y < 2 ^ k → Z.lor x y = x + y.
Proof.
  intros Hk Hx Hy. assert (Z.land x y = 0) as Hl.
  { apply Z.bits_inj'. intros i Hi. rewrite Z.land_spec, Z.bits_0.
    destruct (Z.lt_ge_cases i k).
    - replace (Z.testbit x i) with (Z.testbit (x mod 2 ^ k) i) by (by rewrite Z.mod_pow2_bits_low).
      by rewrite Hx, Z.bits_0.
    - rewrite <-(Z.mod_small y (2 ^ k)), (Z.mod_pow2_bits_high y k i) by lia. apply andb_false_r. }
  by rewrite <-Z.lxor_lor, Z.add_nocarry_lxor.
Qed.

Lemma parse_ip_show n : 0 ≤ n < 2 ^ 32 → parse_ip (uint32ToIP n) = Some n.
Proof.
  intros Hn. unfold parse_ip, uint32ToIP.
  rewrite !fields_app, fields_one by apply octet_text, octet_range.
  destruct (octet_text (octet n 24) (octet_range _ _)) as (_ & _ & _ & ->).
  destruct (octet_text (octet n 16) (octet_range _ _)) as (_ & _ & _ & ->).
  destruct (octet_text (octet n 8) (octet_range _ _)) as (_ & _ & _ & ->).
  destruct (octet_text (octet n 0) (octet_range _ _)) as (_ & _ & _ & ->).
  f_equal. rewrite (octets_sum n Hn) at 5.
  pose proof (octet_range n 24). pose proof (octet_range n 16). pose proof (octet_range n 8).
  pose proof (octet_range n 0).
  rewrite !Z.shiftl_mul_pow2 by lia.
  rewrite (lor_disjoint _ (octet n 16 * 2 ^ 16) 24); [|lia|apply Z_mod_mult|lia].
  rewrite (lor_disjoint _ (octet n 8 * 2 ^ 8) 16); [|lia| |lia].
  2:{ replace (octet n 24 * 2 ^ 24 + octet n 16 * 2 ^ 16) with
        ((octet n 24 * 2 ^ 8 + octet n 16) * 2 ^ 16) by lia. apply Z_mod_mult. }
  rewrite (lor_disjoint _ (octet n 0) 8); [done|lia| |lia].
  replace (octet n 24 * 2 ^ 24 + octet n 16 * 2 ^ 16 + octet n 8 * 2 ^ 8) with
    ((octet n 24 * 2 ^ 16 + octet n 16 * 2 ^ 8 + octet n 8) * 2 ^ 8) by lia. apply Z_mod_mult.
Qed.

Lemma split_first_skip c a b : contains_char c a = false → split_first c (a +:+ String c b) = (a, Some b).
Proof.
  induction a as [|d a IH]; simpl; intros Ha; simpl_append; simpl; [by rewrite decide_True|].
  case_decide; [done|]. by rewrite IH.
Qed.

Lemma contains_char_sep c d a b :
  c ≠ d → contains_char c (a +:+ String d b) = contains_char c a || contains_char c b.
Proof.
  intros Hne. rewrite contains_char_app. f_equal. cbn [contains_char]. by rewrite decide_False.
Qed.

Lemma colon_first_app a s : colon_first a = false → colon_first (a +:+ String "." s) = false.
Proof.
  induction a as [|d a IH]; intros Ha; simpl_append; simpl in *; [done|].
  case_decide; [done|]. case_decide; [done|]. auto.
Qed.

Lemma mask_text k : 0 ≤ k ≤ 32 → parse_mask (show_Z k) = Some k.
Proof.
  intros Hk.
  assert (forallb (fun k => bool_decide (parse_mask (show_Z k) = Some k)) (seqZ 0 33) = true) as Hall
    by by vm_compute.
  rewrite forallb_forall' in Hall.
  apply (bool_decide_eq_true_1 _ (Hall k (proj2 (elem_of_seqZ 0 33 k) ltac:(lia)))).
Qed.

(** A network in CIDR notation is read as the network. *)
Lemma ParseCIDR_show ipv6 n k :
  0 ≤ n < 2 ^ 32 → 0 ≤ k ≤ 32 →
  ParseCIDR ipv6 (uint32ToIP n +:+ String "/" (show_Z k)) =
  Ok {| net_IP := Some (mask_ip n (32 - k)); net_hostBits := 32 - k |}.
Proof.
  intros Hn Hk. unfold ParseCIDR. rewrite split_first_skip.
  - assert (colon_first (uint32ToIP n) = false) as ->
      by (apply colon_first_app, octet_text, octet_range).
    rewrite (parse_ip_show n Hn), (mask_text k Hk). by rewrite (proj2 (Z.leb_le k 32)) by lia.
  - unfold uint32ToIP. rewrite !contains_char_sep by done.
    by rewrite !(proj1 (proj2 (proj2 (octet_text _ (octet_range _ _))))).
Qed.

(** ** Allocation *)

(** A pool over a network of [2^h] addresses that starts at [u]. *)
Record pool_ok (u h : Z) (pool : IPPool) : Prop := {
  po_net : pool_network pool = {| net_IP := Some u; net_hostBits := h |};
  po_bits : 1 ≤ h ≤ 31;
  po_range : 0 ≤ u < 2 ^ 32;
  po_aligned : u mod 2 ^ h = 0;
  po_next : start_offset (pool_network pool) ≤ pool_nextOffset pool <
            start_offset (pool_network pool) + max_hosts (pool_network pool)
}.

(** The usable addresses: all but the first and last, both in a network of
    two. *)
Definition host_count (h : Z) : Z := if h =? 1 then 2 else 2 ^ h - 2.
Definition first_host (h : Z) : Z := if h =? 1 then 0 else 1.

Definition host_address (u h ip : Z) : Prop :=
  u + first_host h ≤ ip < u + first_host h + host_count h.

Lemma pow2_bounds h : 1 ≤ h ≤ 31 → 2 ≤ 2 ^ h ≤ 2 ^ 31 ∧ (h ≠ 1 → 4 ≤ 2 ^ h).
Proof.
  intros Hh. split.
  - split; [apply (Z.pow_le_mono_r 2 1 h)|apply Z.pow_le_mono_r]; lia.
  - intros. apply (Z.pow_le_mono_r 2 2 h); lia.
Qed.

Lemma max_hosts_eq n h : 1 ≤ h ≤ 31 → max_hosts {| net_IP := n; net_hostBits := h |} = host_count h.
Proof.
  intros Hh. unfold max_hosts, total_addresses, host_count, start_offset, uint32. simpl.
  destruct (pow2_bounds h Hh) as [Hb H4]. rewrite Z.shiftl_1_l.
  rewrite (Z.mod_small (2 ^ h)) by lia. destruct (Z.eqb_spec h 1) as [->|Hne]; [done|].
  specialize (H4 Hne). rewrite (Z.mod_small (2 ^ h - 1)) by lia. rewrite Z.mod_small by lia. lia.
Qed.

Section allocate.
Context (u h : Z) (pool : IPPool) (Hok : pool_ok u h pool).

#[local] Set Default Proof Using "Hok".

Lemma pool_start : start_offset (pool_network pool) = first_host h.
Proof. by rewrite (po_net _ _ _ Hok). Qed.

Lemma pool_hosts : max_hosts (pool_network pool) = host_count h.
Proof. rewrite (po_net _ _ _ Hok). apply max_hosts_eq, Hok. Qed.

Lemma pool_numbers :
  (first_host h = 0 ∨ first_host h = 1) ∧ 2 ≤ host_count h ∧
  first_host h + host_count h ≤ 2 ^ h ≤ 2 ^ 31 ∧ u + 2 ^ h ≤ 2 ^ 32.
Proof.
  pose proof (po_bits _ _ _ Hok) as Hh. destruct (pow2_bounds h Hh) as [Hb H4].
  assert (u + 2 ^ h ≤ 2 ^ 32) as Hu.
  { pose proof (po_range _ _ _ Hok). pose proof (po_aligned _ _ _ Hok) as Ha.
    assert (2 ^ 32 = 2 ^ (32 - h) * 2 ^ h) as H32 by (rewrite <-Z.pow_add_r by lia; f_equal; lia).
    apply Z.mod_divide in Ha as [q Hq]; [|lia]. rewrite Hq, H32 in *.
    assert (q < 2 ^ (32 - h)) by nia. nia. }
  unfold first_host, host_count. destruct (Z.eqb_spec h 1) as [->|Hne]; [|specialize (H4 Hne)]; lia.
Qed.

(** Turn [i] visits the hosts cyclically from [nextOffset]. *)
Lemma turn_offset_eq i :
  0 ≤ i < host_count h →
  turn_offset pool i =
    first_host h + (pool_nextOffset pool - first_host h + i) mod host_count h ∧
  first_host h ≤ turn_offset pool i < first_host h + host_count h.
Proof.
  intros Hi. destruct pool_numbers as (Hf & Hc & Hs & Hu).
  pose proof (po_next _ _ _ Hok) as Hn. rewrite pool_start, pool_hosts in Hn.
  unfold turn_offset, uint32. rewrite pool_start, pool_hosts.
  rewrite (Z.mod_small (pool_nextOffset pool - first_host h + i) (2 ^ 32)) by lia.
  pose proof (Z.mod_pos_bound (pool_nextOffset pool - first_host h + i) (host_count h)) as Hm.
  rewrite Z.mod_small by lia. split; [done|lia].
Qed.

(** Every host has a turn. *)
Lemma turn_offset_surj off :
  first_host h ≤ off < first_host h + host_count h →
  ∃ i, 0 ≤ i < host_count h ∧ turn_offset pool i = off.
Proof.
  intros Hoff. destruct pool_numbers as (Hf & Hc & Hs & Hu).
  exists ((off - pool_nextOffset pool) mod host_count h).
  pose proof (Z.mod_pos_bound (off - pool_nextOffset pool) (host_count h) ltac:(lia)) as Hm.
  split; [done|]. rewrite (proj1 (turn_offset_eq _ Hm)). rewrite Z.add_mod_idemp_r by lia.
  rewrite Z.mod_small by lia. lia.
Qed.

(** The address of a turn. *)
Definition turn_ip (i : Z) : string := uint32ToIP (u + turn_offset pool i).

Lemma find_free_spec fuel i :
  0 ≤ i → i + Z.of_nat fuel ≤ host_count h →
  match find_free fuel pool u i with
  | Some (off, ip) => ∃ j, i ≤ j < i + Z.of_nat fuel ∧ off = turn_offset pool j ∧ ip = turn_ip j ∧
      (ip ∉ pool_allocated pool) ∧ ∀ k, i ≤ k < j → turn_ip k ∈ pool_allocated pool
  | None => ∀ k, i ≤ k < i + Z.of_nat fuel → turn_ip k ∈ pool_allocated pool
  end.
Proof.
  revert i. induction fuel as [|fuel IH]; intros i Hi Hf; [simpl; intros; lia|].
  assert (uint32 (u + turn_offset pool i) = u + turn_offset pool i) as Hu.
  { destruct pool_numbers as (Hfh & Hc & Hs & Hu). pose proof (po_range _ _ _ Hok).
    destruct (turn_offset_eq i) as [_ Hr]; [lia|]. apply Z.mod_small. lia. }
  simpl. rewrite Hu. fold (turn_ip i). case_bool_decide as Hin.
  - specialize (IH (i + 1) ltac:(lia) ltac:(lia)). destruct (find_free fuel pool u (i + 1)) as [[off ip]|].
    + destruct IH as (j & Hj & -> & -> & Hnin & Hk). exists j. split_and!; [lia..|done|done|done|].
      intros k Hki. destruct (decide (k = i)) as [->|]; [done|]. apply Hk. lia.
    + intros k Hki. destruct (decide (k = i)) as [->|]; [done|]. apply IH. lia.
  - exists i. split_and!; [lia..|done|done|done|]. intros k Hk. lia.
Qed.

(** The pool after handing out the host of a turn. *)
Lemma next_ok j A :
  0 ≤ j < host_count h →
  pool_ok u h (pool <| pool_allocated := A |>
    <| pool_nextOffset := uint32 (start_offset (pool_network pool) + uint32 (turn_offset pool j -
         start_offset (pool_network pool) + 1) mod max_hosts (pool_network pool)) |>).
Proof.
  intros Hj. destruct pool_numbers as (Hf & Hc & Hs & Hu). destruct (turn_offset_eq j Hj) as [_ Hr].
  destruct Hok as [Hnet Hh Hrange Hal Hnext]. split; [done..|].
  cbn [pool_network pool_nextOffset with_field]. simpl. rewrite pool_start, pool_hosts. unfold uint32.
  rewrite (Z.mod_small (turn_offset pool j - first_host h + 1)) by lia.
  pose proof (Z.mod_pos_bound (turn_offset pool j - first_host h + 1) (host_count h)).
  rewrite Z.mod_small by lia. lia.
Qed.

(** All host addresses. *)
Definition hosts : list string :=
  (fun off => uint32ToIP (u + off)) <$> seqZ (first_host h) (host_count h).

Lemma hosts_NoDup : NoDup hosts.
Proof.
  apply NoDup_fmap_2_strong; [|apply NoDup_seqZ].
  destruct pool_numbers as (Hf & Hc & Hs & Hu). pose proof (po_range _ _ _ Hok).
  intros x y Hx%elem_of_seqZ Hy%elem_of_seqZ Heq. apply uint32ToIP_inj in Heq; lia.
Qed.

Lemma exhausted_hosts :
  (∀ k, 0 ≤ k < host_count h → turn_ip k ∈ pool_allocated pool) →
  list_to_set hosts ⊆ pool_allocated pool ∧ host_count h ≤ Z.of_nat (size (pool_allocated pool)).
Proof.
  intros Hall. assert (list_to_set hosts ⊆ pool_allocated pool) as Hsub.
  { intros ip. rewrite elem_of_list_to_set. unfold hosts.
    intros (off & -> & (i & Hi & <-)%elem_of_seqZ%turn_offset_surj)%list_elem_of_fmap. by apply Hall. }
  split; [done|]. apply subseteq_size in Hsub. rewrite size_list_to_set in Hsub by apply hosts_NoDup.
  unfold hosts in Hsub. rewrite length_fmap, length_seqZ in Hsub.
  destruct pool_numbers. lia.
Qed.

(** What [Allocate] may answer. *)
Definition allocation (p' : IPPool) (r : result string string) : Prop :=
  match r with
  | Ok ip => ip ∈ hosts ∧ (ip ∉ pool_allocated pool) ∧
      pool_allocated p' = {[ ip ]} ∪ pool_allocated pool ∧ pool_ok u h p'
  | Err e => e = "IP pool exhausted"%string ∧ p' = pool ∧
      list_to_set hosts ⊆ pool_allocated pool ∧
      host_count h ≤ Z.of_nat (size (pool_allocated pool))
  end.

Lemma Allocate_spec : allocation (Allocate pool).1 (Allocate pool).2.
Proof.
  unfold Allocate. rewrite (po_net _ _ _ Hok) at 1 2. simpl net_IP. cbn match.
  rewrite pool_hosts. destruct pool_numbers as (Hf & Hc & Hs & Hu).
  pose proof (find_free_spec (Z.to_nat (host_count h)) 0 ltac:(lia) ltac:(lia)) as Hff.
  rewrite Z2Nat.id in Hff by lia.
  destruct (find_free _ pool u 0) as [[off ip]|]; simpl.
  - destruct Hff as (j & Hj & -> & -> & Hnin & _). split_and!; [|done|done|].
    + apply list_elem_of_fmap. exists (turn_offset pool j). split; [done|].
      apply elem_of_seqZ. by apply turn_offset_eq.
    + rewrite <-pool_hosts. by apply next_ok.
  - split_and!; [done..| |]; by apply exhausted_hosts.
Qed.

End allocate.


Lemma mask_ip_aligned n k : 0 ≤ n < 2 ^ 32 → 0 ≤ k → 0 ≤ mask_ip n k < 2 ^ 32 ∧ mask_ip n k mod 2 ^ k = 0.
Proof.
  intros Hn Hk. unfold mask_ip. rewrite Z.shiftl_mul_pow2, Z.shiftr_div_pow2 by lia.
  split; [|apply Z_mod_mult]. pose proof (Z.pow_pos_nonneg 2 k ltac:(lia) Hk).
  pose proof (Z.mul_div_le n (2 ^ k) ltac:(lia)). pose proof (Z.div_pos n (2 ^ k)). nia.
Qed.

(** A new pool of the network a text names is in order. *)
Lemma NewIPPool_ok ipv6 n k :
  0 ≤ n < 2 ^ 32 → 1 ≤ k ≤ 31 →
  ∃ p, NewIPPool ipv6 (uint32ToIP n +:+ String "/" (show_Z (32 - k))) = Ok p ∧
       pool_ok (mask_ip n k) k p ∧ pool_allocated p = ∅.
Proof.
  intros Hn Hk. unfold NewIPPool. rewrite bool_decide_eq_false_2.
  2:{ destruct (uint32ToIP n); simpl_append; congruence. }
  rewrite ParseCIDR_show by lia. replace (32 - (32 - k)) with k by lia.
  eexists. split; [done|]. destruct (mask_ip_aligned n k Hn) as [Hr Ha]; [lia|].
  split; [|done]. split; simpl; [done..|]. rewrite max_hosts_eq by done.
  destruct (pow2_bounds k Hk) as [Hb H4]. unfold start_offset, host_count. simpl.
  destruct (Z.eqb_spec k 1) as [->|Hne]; [|specialize (H4 Hne)]; lia.
Qed.

Definition sample_pool : IPPool :=
  {| pool_cidr := "10.1.2.0/29"; pool_network := {| net_IP := Some 167838208; net_hostBits := 3 |};
     pool_allocated := {[ "10.1.2.1"; "10.1.2.3" ]}; pool_nextOffset := 3 |}.


(** In a network of one address the number of hosts wraps around to
    [2^32 - 1], and the pool hands out addresses outside the network. *)
Example pool_32_leaves_network :
  ∃ p p', NewIPPool (fun _ => None) "10.0.0.5/32" = Ok p ∧
    max_hosts (pool_network p) = 2 ^ 32 - 1 ∧ Allocate p = (p', Ok "10.0.0.6"%string).
Proof.
  eexists _, _. split; [vm_compute; reflexivity|]. split; [vm_compute; reflexivity|].
  unfold Allocate. simpl net_IP. cbn match.
  replace (Z.to_nat (max_hosts _)) with (S (Z.to_nat (2 ^ 32 - 2))).
  - reflexivity.
  - change (max_hosts _) with (2 ^ 32 - 1). lia.
Qed.
