(* ===== verification/ServiceRegistry.v ===== *)
(** * Services, endpoints and virtual addresses (pkg/overlay/registry.go)

    The in-memory registry: a service is kept under its full name, with the
    virtual address that stands for it, and its endpoints are kept beside it.
    Operations are called under the lock of the registry; clock readings are
    arguments; metrics are left out.  A service is passed by pointer and the
    registry fills in its address and times: [RegisterService] returns the
    service as the caller sees it afterwards. *)

From S2P Require Import Prelude GoText IPPool.

(** ** Data (pkg/overlay/types.go) *)

Definition HealthStatusHealthy : string := "healthy".
Definition HealthStatusUnhealthy : string := "unhealthy".
Definition HealthStatusUnknown : string := "unknown".

Record Endpoint := {
  ep_ID : string;
  ep_PeerID : string;
  ep_Address : string;
  ep_Port : Z;
  ep_Weight : Z;
  ep_Health : string;
  ep_Region : string;
  ep_Zone : string;
  ep_Metadata : gmap string string
}.

#[export] Instance eta_Endpoint : Eta Endpoint := fun e =>
  Build_Endpoint (ep_ID e) (ep_PeerID e) (ep_Address e) (ep_Port e) (ep_Weight e) (ep_Health e)
    (ep_Region e) (ep_Zone e) (ep_Metadata e).

#[export] Instance endpoint_eq_dec : EqDecision Endpoint.
Proof. solve_decision. Defined.

Record Service := {
  svc_Name : string;
  svc_Namespace : string;
  svc_VirtualIP : string;
  svc_Endpoints : list Endpoint;
  svc_Protocol : string;
  svc_Port : Z;
  svc_Labels : gmap string string;
  svc_CreatedAt : Z;
  svc_UpdatedAt : Z
}.

#[export] Instance eta_Service : Eta Service := fun s =>
  Build_Service (svc_Name s) (svc_Namespace s) (svc_VirtualIP s) (svc_Endpoints s) (svc_Protocol s)
    (svc_Port s) (svc_Labels s) (svc_CreatedAt s) (svc_UpdatedAt s).

#[export] Instance service_eq_dec : EqDecision Service.
Proof. solve_decision. Defined.

Record ServiceRegistry := {
  sr_services : gmap string Service;
  sr_endpoints : gmap string (list Endpoint);
  sr_virtualIPs : gmap string string;
  sr_ipPool : IPPool
}.

#[export] Instance eta_ServiceRegistry : Eta ServiceRegistry := fun r =>
  Build_ServiceRegistry (sr_services r) (sr_endpoints r) (sr_virtualIPs r) (sr_ipPool r).

Definition NewServiceRegistry (ipv6 : string → option IPNet) (cidr : string)
    : result string ServiceRegistry :=
  match NewIPPool ipv6 cidr with
  | Err err => Err ("failed to create IP pool: " +:+ err)
  | Ok pool => Ok {| sr_services := ∅; sr_endpoints := ∅; sr_virtualIPs := ∅; sr_ipPool := pool |}
  end.

Definition getFullServiceName (name namespace : string) : string :=
  name +:+ String "." (if namespace =?s "" then "default" else namespace).

(** ** Services *)

(** [created] and [updated] are the two readings of the clock. *)
Definition RegisterService (created updated : Z) (sr : ServiceRegistry) (service : Service)
    : ServiceRegistry * Service * option string :=
  let '(sr, service, err) :=
    if svc_VirtualIP service =?s "" then
      let '(pool, r) := Allocate (sr_ipPool sr) in
      let sr := sr <| sr_ipPool := pool |> in
      match r with
      | Err err => (sr, service, Some ("failed to allocate virtual IP: " +:+ err))
      | Ok ip => (sr, service <| svc_VirtualIP := ip |>, None)
      end
    else (sr, service, None) in
  match err with
  | Some e => (sr, service, Some e)
  | None =>
      let service := service <| svc_CreatedAt := created |> <| svc_UpdatedAt := updated |> in
      let fullName := getFullServiceName (svc_Name service) (svc_Namespace service) in
      (sr <| sr_services := <[fullName := service]> (sr_services sr) |>
          <| sr_virtualIPs := <[fullName := svc_VirtualIP service]> (sr_virtualIPs sr) |>,
       service, None)
  end.

Definition DeregisterService (sr : ServiceRegistry) (name namespace : string) : ServiceRegistry :=
  let fullName := getFullServiceName name namespace in
  let sr := match sr_virtualIPs sr !! fullName with
            | Some vip => sr <| sr_ipPool := Release (sr_ipPool sr) vip |>
                             <| sr_virtualIPs := delete fullName (sr_virtualIPs sr) |>
            | None => sr
            end in
  sr <| sr_services := delete fullName (sr_services sr) |>
     <| sr_endpoints := delete fullName (sr_endpoints sr) |>.

Definition GetService (sr : ServiceRegistry) (name namespace : string) : result string Service :=
  match sr_services sr !! getFullServiceName name namespace with
  | Some s => Ok s
  | None => Err ("service not found: " +:+ namespace +:+ "/" +:+ name)
  end.

Definition ResolveService (sr : ServiceRegistry) (name namespace : string) : result string string :=
  match sr_virtualIPs sr !! getFullServiceName name namespace with
  | Some vip => Ok vip
  | None => Err ("service not found: " +:+ namespace +:+ "/" +:+ name)
  end.

Section ranges.
Context `{GoRange}.

Definition ListServices (sr : ServiceRegistry) : list Service := (range_map (sr_services sr)).*2.

(** The loop stops at the first address that matches and has a service. *)
Fixpoint reverse_loop (sr : ServiceRegistry) (virtualIP : string) (l : list (string * string))
    : option Service :=
  match l with
  | [] => None
  | (fullName, vip) :: l =>
      if vip =?s virtualIP then
        match sr_services sr !! fullName with
        | Some s => Some s
        | None => reverse_loop sr virtualIP l
        end
      else reverse_loop sr virtualIP l
  end.

Definition ReverseLookup (sr : ServiceRegistry) (virtualIP : string) : result string Service :=
  match reverse_loop sr virtualIP (range_map (sr_virtualIPs sr)) with
  | Some s => Ok s
  | None => Err ("service not found for IP: " +:+ virtualIP)
  end.

End ranges.

(** ** Endpoints *)

(** [service.UpdatedAt = time.Now()] when the service is known. *)
Definition touch_service (now : Z) (fullName : string) (sr : ServiceRegistry) : ServiceRegistry :=
  match sr_services sr !! fullName with
  | Some s => sr <| sr_services := <[fullName := s <| svc_UpdatedAt := now |>]> (sr_services sr) |>
  | None => sr
  end.

(** The loop over the endpoints: replace the first with the identifier, or
    append. *)
Definition put_endpoint (endpoint : Endpoint) (l : list Endpoint) : list Endpoint :=
  match list_find (fun e => ep_ID e = ep_ID endpoint) l with
  | Some (i, _) => <[i := endpoint]> l
  | None => l ++ [endpoint]
  end.

Definition RegisterEndpoint (now : Z) (sr : ServiceRegistry) (name namespace : string)
    (endpoint : Endpoint) : ServiceRegistry :=
  let fullName := getFullServiceName name namespace in
  let endpoints := put_endpoint endpoint (default [] (sr_endpoints sr !! fullName)) in
  touch_service now fullName
    (sr <| sr_endpoints := <[fullName := endpoints]> (sr_endpoints sr) |>).

Definition DeregisterEndpoint (sr : ServiceRegistry) (name namespace endpointID : string)
    : ServiceRegistry :=
  let fullName := getFullServiceName name namespace in
  match sr_endpoints sr !! fullName with
  | None => sr
  | Some endpoints =>
      let newEndpoints := List.filter (fun e => negb (ep_ID e =?s endpointID)) endpoints in
      if 0 <? len newEndpoints
      then sr <| sr_endpoints := <[fullName := newEndpoints]> (sr_endpoints sr) |>
      else sr <| sr_endpoints := delete fullName (sr_endpoints sr) |>
  end.

Definition GetEndpoints (sr : ServiceRegistry) (name namespace : string) : list Endpoint :=
  default [] (sr_endpoints sr !! getFullServiceName name namespace).

Definition GetHealthyEndpoints (sr : ServiceRegistry) (name namespace : string) : list Endpoint :=
  List.filter (fun e => ep_Health e =?s HealthStatusHealthy) (GetEndpoints sr name namespace).

Definition UpdateEndpointHealth (sr : ServiceRegistry) (name namespace endpointID health : string)
    : ServiceRegistry * option string :=
  let fullName := getFullServiceName name namespace in
  let notFound := (sr, Some ("endpoint not found: " +:+ endpointID)) in
  match sr_endpoints sr !! fullName with
  | None => notFound
  | Some endpoints =>
      match list_find (fun e => ep_ID e = endpointID) endpoints with
      | Some (i, e) =>
          (sr <| sr_endpoints := <[fullName := <[i := e <| ep_Health := health |>]> endpoints]>
                 (sr_endpoints sr) |>, None)
      | None => notFound
      end
  end.

(** [UpdateEndpoints] (loadbalancer.go) *)
Definition UpdateEndpoints (now : Z) (sr : ServiceRegistry) (name namespace : string)
    (endpoints : list Endpoint) : ServiceRegistry :=
  let fullName := getFullServiceName name namespace in
  let sr := sr <| sr_endpoints := <[fullName := endpoints]> (sr_endpoints sr) |> in
  match sr_services sr !! fullName with
  | Some s => sr <| sr_services := <[fullName := s <| svc_UpdatedAt := now |>
                    <| svc_Endpoints := endpoints |>]> (sr_services sr) |>
  | None => sr
  end.

(** ** One service per address *)

Inductive reg_op : Type :=
| OpRegister (created updated : Z) (service : Service)
| OpDeregister (name namespace : string)
| OpEndpoint (now : Z) (name namespace : string) (endpoint : Endpoint)
| OpDropEndpoint (name namespace endpointID : string)
| OpHealth (name namespace endpointID health : string)
| OpReplace (now : Z) (name namespace : string) (endpoints : list Endpoint).

Definition reg_exec (sr : ServiceRegistry) (op : reg_op) : ServiceRegistry :=
  match op with
  | OpRegister created updated s => (RegisterService created updated sr s).1.1
  | OpDeregister name ns => DeregisterService sr name ns
  | OpEndpoint now name ns e => RegisterEndpoint now sr name ns e
  | OpDropEndpoint name ns id => DeregisterEndpoint sr name ns id
  | OpHealth name ns id health => (UpdateEndpointHealth sr name ns id health).1
  | OpReplace now name ns l => UpdateEndpoints now sr name ns l
  end.

(** Services come without an address of their own. *)
Definition unaddressed (op : reg_op) : Prop :=
  match op with OpRegister _ _ s => svc_VirtualIP s = EmptyString | _ => True end.

Record registry_ok (u h : Z) (sr : ServiceRegistry) : Prop := {
  ro_pool : pool_ok u h (sr_ipPool sr);
  ro_vip : ∀ n, sr_virtualIPs sr !! n = svc_VirtualIP <$> sr_services sr !! n;
  ro_allocated : ∀ n ip, sr_virtualIPs sr !! n = Some ip →
    ip ∈ hosts u h ∧ ip ∈ pool_allocated (sr_ipPool sr);
  ro_inj : ∀ n m ip, sr_virtualIPs sr !! n = Some ip → sr_virtualIPs sr !! m = Some ip → n = m
}.

(** Operations that keep names and addresses keep the registry in order. *)
Lemma registry_ok_ext u h sr sr' :
  sr_ipPool sr' = sr_ipPool sr → sr_virtualIPs sr' = sr_virtualIPs sr →
  (∀ n, svc_VirtualIP <$> sr_services sr' !! n = svc_VirtualIP <$> sr_services sr !! n) →
  registry_ok u h sr → registry_ok u h sr'.
Proof.
  intros Hp Hv Hs [Hpool Hvip Hal Hinj]. split; rewrite ?Hp, ?Hv; try done.
  intros n. by rewrite Hs.
Qed.

Lemma touch_service_vip now full sr n :
  svc_VirtualIP <$> sr_services (touch_service now full sr) !! n =
  svc_VirtualIP <$> sr_services sr !! n.
Proof.
  unfold touch_service. destruct (sr_services sr !! full) as [s|] eqn:Hs; [|done]. simpl.
  rewrite lookup_insert. case_decide; [subst|done]. by rewrite Hs.
Qed.

Lemma touch_service_rest now full sr :
  sr_ipPool (touch_service now full sr) = sr_ipPool sr ∧
  sr_virtualIPs (touch_service now full sr) = sr_virtualIPs sr ∧
  sr_endpoints (touch_service now full sr) = sr_endpoints sr.
Proof. unfold touch_service. by case_match. Qed.

Lemma register_ok u h created updated sr s :
  svc_VirtualIP s = EmptyString → registry_ok u h sr →
  registry_ok u h (RegisterService created updated sr s).1.1.
Proof.
  intros Hs [Hpool Hvip Hal Hinj]. unfold RegisterService. rewrite bool_decide_eq_true_2 by done.
  pose proof (Allocate_spec u h _ Hpool) as Ha. destruct (Allocate (sr_ipPool sr)) as [pool r].
  simpl in Ha. destruct r as [ip|e]; simpl in *.
  2:{ destruct Ha as (_ & -> & _). by split. }
  destruct Ha as (Hhost & Hnew & Halloc & Hok). set (full := getFullServiceName _ _).
  split; simpl; [done|..].
  - intros n. rewrite !lookup_insert. by case_decide.
  - intros n ip'. rewrite lookup_insert, Halloc. case_decide.
    + intros [= <-]. split; [done|set_solver].
    + intros [? ?]%Hal. split; [done|set_solver].
  - assert (∀ n, sr_virtualIPs sr !! n ≠ Some ip) as Hfresh by (intros n [_ ?]%Hal; done).
    intros n m ip'. rewrite !lookup_insert. do 2 case_decide; [congruence|..].
    + intros [= <-] Hm. by destruct (Hfresh m).
    + intros Hn [= <-]. by destruct (Hfresh n).
    + apply Hinj.
Qed.

Lemma release_ok u h pool ip : pool_ok u h pool → pool_ok u h (Release pool ip).
Proof. intros [Hnet Hb Hr Ha Hn]. by split. Qed.

Lemma deregister_ok u h sr name ns :
  registry_ok u h sr → registry_ok u h (DeregisterService sr name ns).
Proof.
  intros [Hpool Hvip Hal Hinj]. unfold DeregisterService. set (full := getFullServiceName name ns).
  destruct (sr_virtualIPs sr !! full) as [vip|] eqn:Hv; split; simpl; auto using release_ok.
  - intros n. rewrite !lookup_delete. by case_decide.
  - intros n ip. rewrite lookup_delete. case_decide as Hne; [done|]. intros Hn.
    destruct (Hal n ip Hn) as [Hh Hin]. split; [done|]. apply elem_of_difference. split; [done|].
    rewrite elem_of_singleton. intros ->. by destruct Hne; eapply Hinj.
  - intros n m ip. rewrite !lookup_delete. do 2 (case_decide; [done|]). apply Hinj.
  - intros n. rewrite lookup_delete. case_decide; [subst|done]. rewrite Hv. done.
Qed.

Lemma reg_exec_ok u h sr op : unaddressed op → registry_ok u h sr → registry_ok u h (reg_exec sr op).
Proof.
  destruct op as [c up s|name ns|now name ns e|name ns id|name ns id health|now name ns l]; simpl;
    intros Hop Hok; [by apply register_ok|by apply deregister_ok|..].
  - unfold RegisterEndpoint. set (sr1 := sr <| sr_endpoints := _ |>).
    destruct (touch_service_rest now (getFullServiceName name ns) sr1) as (Hp & Hv & _).
    apply (registry_ok_ext u h sr); [done..| |done]. intros n. by rewrite touch_service_vip.
  - unfold DeregisterEndpoint. repeat case_match; by apply (registry_ok_ext u h sr).
  - unfold UpdateEndpointHealth. repeat case_match; by apply (registry_ok_ext u h sr).
  - unfold UpdateEndpoints. simpl. destruct (sr_services sr !! _) as [s|] eqn:Hs;
      apply (registry_ok_ext u h sr); simpl; try done.
    intros n. rewrite lookup_insert. case_decide; [subst|done]. by rewrite Hs.
Qed.

Section addresses.
Context `{GoRange}.

Lemma reverse_loop_found u h sr n s l :
  registry_ok u h sr → sr_services sr !! n = Some s →
  (∀ kv, kv ∈ l → sr_virtualIPs sr !! kv.1 = Some kv.2) → (n, svc_VirtualIP s) ∈ l →
  reverse_loop sr (svc_VirtualIP s) l = Some s.
Proof.
  intros Hok Hs Hl Hin. assert (sr_virtualIPs sr !! n = Some (svc_VirtualIP s)) as Hv
    by by rewrite (ro_vip _ _ _ Hok), Hs.
  induction l as [|[k vip] l IH]; [by apply elem_of_nil in Hin|]. simpl.
  destruct (vip =?s svc_VirtualIP s) eqn:Heq; bool_to_prop.
  - subst vip. assert (k = n) as ->.
    { apply (ro_inj _ _ _ Hok k n (svc_VirtualIP s)); [|done]. apply (Hl (k, _)). by left. }
    by rewrite Hs.
  - apply IH; [intros kv Hkv; apply Hl; by right|].
    apply elem_of_cons in Hin as [Hin|?]; [|done]. congruence.
Qed.

(** In a registry over a network of [2^k] addresses in which services are
    registered without an address of their own, after any sequence of
    operations two services never share a virtual address, every address is
    a host address of the network, a name resolves to the address of its
    service, and an address looks up the service that has it. *)
Theorem virtual_addresses ipv6 n k sr0 ops sr :
  0 ≤ n < 2 ^ 32 → 1 ≤ k ≤ 31 →
  NewServiceRegistry ipv6 (uint32ToIP n +:+ String "/" (show_Z (32 - k))) = Ok sr0 →
  Forall unaddressed ops → sr = foldl reg_exec sr0 ops →
  (∀ a b s t, sr_services sr !! a = Some s → sr_services sr !! b = Some t →
     svc_VirtualIP s = svc_VirtualIP t → a = b) ∧
  (∀ a s, sr_services sr !! a = Some s →
     svc_VirtualIP s ∈ hosts (mask_ip n k) k ∧ ReverseLookup sr (svc_VirtualIP s) = Ok s) ∧
  (∀ name ns s, GetService sr name ns = Ok s → ResolveService sr name ns = Ok (svc_VirtualIP s)).
Proof.
  intros Hn Hk Hnew Hops ->.
  assert (registry_ok (mask_ip n k) k (foldl reg_exec sr0 ops)) as Hok.
  { assert (registry_ok (mask_ip n k) k sr0) as Hok0.
    { unfold NewServiceRegistry in Hnew. destruct (NewIPPool_ok ipv6 n k Hn Hk) as (p & Hp & Hok & _).
      rewrite Hp in Hnew. injection Hnew as <-. by split. }
    clear Hnew. revert sr0 Hok0.
    induction Hops as [|op ops Hop _ IH]; intros sr0 Hok0; simpl; [done|]. by apply IH, reg_exec_ok. }
  set (sr := foldl reg_exec sr0 ops) in *.
  assert (∀ a s, sr_services sr !! a = Some s → sr_virtualIPs sr !! a = Some (svc_VirtualIP s)) as Hv.
  { intros a s Hs. by rewrite (ro_vip _ _ _ Hok), Hs. }
  split_and!.
  - intros a b s t Hs Ht Heq. apply (ro_inj _ _ _ Hok a b (svc_VirtualIP s)); [auto|].
    rewrite Heq. auto.
  - intros a s Hs. split; [by apply (ro_allocated _ _ _ Hok a), Hv|]. unfold ReverseLookup.
    erewrite reverse_loop_found; [done..| |apply elem_of_range_map; auto].
    intros [k' v]. apply elem_of_range_map.
  - intros name ns s. unfold GetService, ResolveService.
    destruct (sr_services sr !! _) as [s'|] eqn:Hs; [|done]. intros [= ->]. by rewrite (Hv _ _ Hs).
Qed.

End addresses.

(** ** Sample registries *)

Definition sample_service (name ns vip : string) : Service :=
  {| svc_Name := name; svc_Namespace := ns; svc_VirtualIP := vip; svc_Endpoints := [];
     svc_Protocol := "tcp"; svc_Port := 80; svc_Labels := ∅; svc_CreatedAt := 0;
     svc_UpdatedAt := 0 |}.

Definition sample_registry : ServiceRegistry :=
  {| sr_services := ∅; sr_endpoints := ∅; sr_virtualIPs := ∅;
     sr_ipPool := {| pool_cidr := "10.1.2.0/29";
       pool_network := {| net_IP := Some 167838208; net_hostBits := 3 |};
       pool_allocated := ∅; pool_nextOffset := 1 |} |}.

Definition sample_ops : list reg_op :=
  [OpRegister 1 1 (sample_service "web" "" ""); OpRegister 2 2 (sample_service "db" "prod" "");
   OpDeregister "web" "default"; OpRegister 3 3 (sample_service "mq" "prod" "")].

Lemma virtual_addresses_witness :
  let sr := foldl reg_exec sample_registry sample_ops in
  (∀ name ns s, GetService sr name ns = Ok s → ResolveService sr name ns = Ok (svc_VirtualIP s)) ∧
  ResolveService sr "db" "prod" = Ok "10.1.2.2"%string ∧
  ResolveService sr "mq" "prod" = Ok "10.1.2.3"%string.
Proof.
  intros sr. split; [|split; vm_compute; reflexivity].
  apply (@virtual_addresses range_canonical (fun _ => None) 167838208 3 sample_registry sample_ops).
  - split; [discriminate|vm_compute; reflexivity].
  - split; discriminate.
  - vm_compute. reflexivity.
  - repeat constructor.
  - reflexivity.
Defined.

(** The separator of full names may occur in a name and in a namespace: a
    service replaces another one of a different namespace. *)
Example full_name_collision :
  getFullServiceName "a.b" "c" = getFullServiceName "a" "b.c".
Proof. done. Qed.

(** A service that is registered with an address, as one that was deregistered
    before is, does not take the address out of the pool: the next service
    gets the same one. *)
Example readdressed_service :
  let '(sr, web, _) := RegisterService 1 1 sample_registry (sample_service "web" "" "") in
  let sr := DeregisterService sr "web" "" in
  let '(sr, _, _) := RegisterService 2 2 sr web in
  let sr := foldl reg_exec sr ((fun name => OpRegister 3 3 (sample_service name "" "")) <$>
    ["a"; "b"; "c"; "d"; "e"; "f"]%string) in
  (ResolveService sr "web" "", ResolveService sr "f" "") = (Ok "10.1.2.1", Ok "10.1.2.1")%string.
Proof. by vm_compute. Qed.
