(* ===== verification/LoadBalancer.v ===== *)
(** * The layer 4 load balancer (pkg/overlay/loadbalancer.go)

    [SelectEndpoint] picks a healthy endpoint of a service by one of four
    algorithms, with optional session affinity.  The counters that the code
    keeps in concurrent maps are the fields of [L4LoadBalancer]; a call is one
    step.  Clock readings are arguments. *)

From S2P Require Import Prelude GoText GoFloat IPPool ServiceRegistry.

(** ** Data *)

Definition AlgorithmRoundRobin : string := "round-robin".
Definition AlgorithmWeightedRoundRobin : string := "weighted-round-robin".
Definition AlgorithmLeastConnections : string := "least-connections".
Definition AlgorithmLocalityAware : string := "locality-aware".

Record LoadBalancerConfig := {
  lbc_Algorithm : string;
  lbc_HealthCheckEnabled : bool;
  lbc_HealthCheckInterval : Z;
  lbc_SessionAffinity : bool;
  lbc_SessionAffinityTTL : Z
}.

Record EndpointStats := {
  es_EndpointID : string;
  es_Requests : Z;
  es_Failures : Z;
  es_AverageLatency : Z;
  es_ActiveConnections : Z
}.

#[export] Instance eta_EndpointStats : Eta EndpointStats := fun e =>
  Build_EndpointStats (es_EndpointID e) (es_Requests e) (es_Failures e) (es_AverageLatency e)
    (es_ActiveConnections e).

Record LoadBalancerStats := {
  ls_ServiceName : string;
  ls_TotalRequests : Z;
  ls_EndpointStats : gmap string EndpointStats;
  ls_LastUpdated : Z
}.

Record sessionEntry := { se_endpointID : string; se_createdAt : Z }.

Record L4LoadBalancer := {
  lb_config : LoadBalancerConfig;
  lb_registry : ServiceRegistry;
  lb_stats : gmap string LoadBalancerStats;
  lb_endpointStats : gmap string EndpointStats;
  lb_sessionCache : gmap string sessionEntry;
  lb_rrCounters : gmap string Z
}.

#[export] Instance eta_L4LoadBalancer : Eta L4LoadBalancer := fun l =>
  Build_L4LoadBalancer (lb_config l) (lb_registry l) (lb_stats l) (lb_endpointStats l)
    (lb_sessionCache l) (lb_rrCounters l).

Definition NewL4LoadBalancer (config : LoadBalancerConfig) (registry : ServiceRegistry)
    : L4LoadBalancer :=
  {| lb_config := config; lb_registry := registry; lb_stats := ∅; lb_endpointStats := ∅;
     lb_sessionCache := ∅; lb_rrCounters := ∅ |}.

(** ** Session keys *)

(** [hash/fnv]: FNV-1a with 64 bits. *)
Fixpoint fnv64a (h : Z) (s : string) : Z :=
  match s with
  | EmptyString => h
  | String c s => fnv64a (uint64 (Z.lxor h (Z.of_N (N_of_ascii c)) * 1099511628211)) s
  end.

Definition hex_lower (n : Z) : ascii :=
  ascii_of_N (Z.to_N (if n <? 10 then 48 + n else 87 + n)).

(** [fmt.Sprintf("%x", n)] of a [uint64]. *)
Fixpoint hex_loop (fuel : nat) (n : Z) (out : string) : string :=
  match fuel with
  | O => out
  | S fuel =>
      let out := String (hex_lower (n mod 16)) out in
      if n / 16 =? 0 then out else hex_loop fuel (n / 16) out
  end.

Definition getSessionKey (serviceName clientAddr : string) : string :=
  hex_loop 16 (fnv64a 14695981039346656037 (serviceName +:+ ":" +:+ clientAddr)) "".

Example session_key : getSessionKey "web" "10.0.0.1" = "7579384a20937f81"%string.
Proof. by vm_compute. Qed.

(** An expired session is dropped. *)
Definition getSessionEndpoint (now : Z) (lb : L4LoadBalancer) (serviceName clientAddr : string)
    : L4LoadBalancer * string :=
  let key := getSessionKey serviceName clientAddr in
  match lb_sessionCache lb !! key with
  | None => (lb, "")
  | Some session =>
      if time_Sub now (se_createdAt session) <? lbc_SessionAffinityTTL (lb_config lb)
      then (lb, se_endpointID session)
      else (lb <| lb_sessionCache := delete key (lb_sessionCache lb) |>, "")
  end.

Definition setSessionEndpoint (now : Z) (lb : L4LoadBalancer)
    (serviceName clientAddr endpointID : string) : L4LoadBalancer :=
  lb <| lb_sessionCache := <[getSessionKey serviceName clientAddr :=
          {| se_endpointID := endpointID; se_createdAt := now |}]> (lb_sessionCache lb) |>.

(** ** Statistics *)

Definition new_stats (endpointID : string) : EndpointStats :=
  {| es_EndpointID := endpointID; es_Requests := 0; es_Failures := 0; es_AverageLatency := 0;
     es_ActiveConnections := 0 |}.

Definition getEndpointStats (lb : L4LoadBalancer) (endpointID : string)
    : L4LoadBalancer * EndpointStats :=
  match lb_endpointStats lb !! endpointID with
  | Some s => (lb, s)
  | None =>
      let s := new_stats endpointID in
      (lb <| lb_endpointStats := <[endpointID := s]> (lb_endpointStats lb) |>, s)
  end.

(** An update of the statistics of an endpoint. *)
Definition change_stats (f : EndpointStats → EndpointStats) (lb : L4LoadBalancer)
    (endpointID : string) : L4LoadBalancer :=
  let '(lb, s) := getEndpointStats lb endpointID in
  lb <| lb_endpointStats := <[endpointID := f s]> (lb_endpointStats lb) |>.

Definition updateRequestStats (now : Z) (lb : L4LoadBalancer) (serviceName endpointID : string)
    : L4LoadBalancer :=
  let old := default {| ls_ServiceName := serviceName; ls_TotalRequests := 0;
                        ls_EndpointStats := ∅; ls_LastUpdated := now |}
                     (lb_stats lb !! serviceName) in
  let stats := {| ls_ServiceName := ls_ServiceName old;
                  ls_TotalRequests := uint64 (ls_TotalRequests old + 1);
                  ls_EndpointStats := ls_EndpointStats old; ls_LastUpdated := now |} in
  change_stats (fun s => s <| es_Requests := uint64 (es_Requests s + 1) |>)
    (lb <| lb_stats := <[serviceName := stats]> (lb_stats lb) |>) endpointID.

Definition GetStats (now : Z) (lb : L4LoadBalancer) (serviceName : string) : LoadBalancerStats :=
  default {| ls_ServiceName := serviceName; ls_TotalRequests := 0; ls_EndpointStats := ∅;
             ls_LastUpdated := now |} (lb_stats lb !! serviceName).

Definition RecordFailure (lb : L4LoadBalancer) (serviceName endpointID : string) : L4LoadBalancer :=
  let lb := change_stats (fun s => s <| es_Failures := uint64 (es_Failures s + 1) |>) lb endpointID in
  if lbc_HealthCheckEnabled (lb_config lb)
  then lb <| lb_registry := (UpdateEndpointHealth (lb_registry lb) serviceName "default" endpointID
                               HealthStatusUnhealthy).1 |>
  else lb.

(** An exponential moving average with weight one tenth. *)
Definition RecordLatency (lb : L4LoadBalancer) (endpointID : string) (latency : Z)
    : L4LoadBalancer :=
  change_stats (fun s => s <| es_AverageLatency :=
    if es_Requests s =? 0 then latency
    else int64_of_f (fadd (fmul (f_of_Z (es_AverageLatency s)) (flit 9 10))
                          (fmul (f_of_Z latency) (flit 1 10))) |>) lb endpointID.

Definition IncrementActiveConnections (lb : L4LoadBalancer) (endpointID : string)
    : L4LoadBalancer :=
  change_stats (fun s => s <| es_ActiveConnections := int32 (es_ActiveConnections s + 1) |>)
    lb endpointID.

Definition DecrementActiveConnections (lb : L4LoadBalancer) (endpointID : string)
    : L4LoadBalancer :=
  change_stats (fun s => if es_ActiveConnections s <=? 0 then s
                         else s <| es_ActiveConnections := es_ActiveConnections s - 1 |>)
    lb endpointID.

(** ** Selection *)

(** The next value of the counter of a service, from 1. *)
Definition next_turn (lb : L4LoadBalancer) (serviceName : string) : L4LoadBalancer * Z :=
  let next := uint64 (default 0 (lb_rrCounters lb !! serviceName) + 1) in
  (lb <| lb_rrCounters := <[serviceName := next]> (lb_rrCounters lb) |>, next).

Definition selectRoundRobin (lb : L4LoadBalancer) (serviceName : string) (endpoints : list Endpoint)
    : L4LoadBalancer * option Endpoint :=
  if len endpoints =? 0 then (lb, None)
  else
    let '(lb, next) := next_turn lb serviceName in
    let index := int64 (uint64 (next - 1) mod len endpoints) in
    (lb, endpoints !! Z.to_nat index).

(** The first loop: a weight that is not positive counts as one. *)
Definition weighed (e : Endpoint) : Endpoint := if ep_Weight e <=? 0 then e <| ep_Weight := 1 |> else e.

Definition sum_weights (endpoints : list Endpoint) : Z :=
  foldl (fun total e => int64 (total + ep_Weight e)) 0 endpoints.

(** The second loop. *)
Fixpoint weighted_loop (target current : Z) (endpoints : list Endpoint) : option Endpoint :=
  match endpoints with
  | [] => None
  | e :: rest =>
      let current := int64 (current + ep_Weight e) in
      if target <? current then Some e else weighted_loop target current rest
  end.

Definition selectWeightedRoundRobin (lb : L4LoadBalancer) (serviceName : string)
    (endpoints : list Endpoint) : L4LoadBalancer * option Endpoint :=
  if len endpoints =? 0 then (lb, None)
  else
    let endpoints := weighed <$> endpoints in
    let total := sum_weights endpoints in
    if total =? 0 then selectRoundRobin lb serviceName endpoints
    else
      let '(lb, next) := next_turn lb serviceName in
      let target := int64 (uint64 (next - 1) mod uint64 total) in
      match weighted_loop target 0 endpoints with
      | Some e => (lb, Some e)
      | None => (lb, endpoints !! 0%nat)
      end.

(** The loop over the endpoints with the best one so far. *)
Definition least_step (acc : L4LoadBalancer * option Endpoint * Z) (e : Endpoint)
    : L4LoadBalancer * option Endpoint * Z :=
  let '(lb, best, minConnections) := acc in
  let '(lb, s) := getEndpointStats lb (ep_ID e) in
  if es_ActiveConnections s <? minConnections then (lb, Some e, es_ActiveConnections s)
  else (lb, best, minConnections).

Definition selectLeastConnections (lb : L4LoadBalancer) (endpoints : list Endpoint)
    : L4LoadBalancer * option Endpoint :=
  if len endpoints =? 0 then (lb, None)
  else (foldl least_step (lb, None, 2 ^ 31 - 1) endpoints).1.

Definition extractClientLocality (clientAddr : string) : string * string := ("", "")%string.

Definition selectLocalityAware (lb : L4LoadBalancer) (endpoints : list Endpoint) (clientAddr : string)
    : L4LoadBalancer * option Endpoint :=
  if len endpoints =? 0 then (lb, None)
  else
    let '(clientRegion, clientZone) := extractClientLocality clientAddr in
    match List.find (fun e => (ep_Zone e =?s clientZone) && (ep_Region e =?s clientRegion)) endpoints with
    | Some e => (lb, Some e)
    | None =>
        match List.find (fun e => ep_Region e =?s clientRegion) endpoints with
        | Some e => (lb, Some e)
        | None => selectRoundRobin lb "locality-fallback" endpoints
        end
    end.

(** The switch on the algorithm. *)
Definition select_by (lb : L4LoadBalancer) (serviceName : string) (endpoints : list Endpoint)
    (clientAddr : string) : L4LoadBalancer * option Endpoint :=
  let a := lbc_Algorithm (lb_config lb) in
  if a =?s AlgorithmRoundRobin then selectRoundRobin lb serviceName endpoints
  else if a =?s AlgorithmWeightedRoundRobin then selectWeightedRoundRobin lb serviceName endpoints
  else if a =?s AlgorithmLeastConnections then selectLeastConnections lb endpoints
  else if a =?s AlgorithmLocalityAware then selectLocalityAware lb endpoints clientAddr
  else selectRoundRobin lb serviceName endpoints.

(** The readings of the clock: at the session check, when a session is made,
    when the statistics are updated. *)
Record SelectClock := { sc_session : Z; sc_store : Z; sc_stats : Z }.

Definition SelectEndpoint (c : SelectClock) (lb : L4LoadBalancer) (service : Service)
    (clientAddr : string) : L4LoadBalancer * result string Endpoint :=
  let name := svc_Name service in
  let endpoints := GetHealthyEndpoints (lb_registry lb) name (svc_Namespace service) in
  let affinity := lbc_SessionAffinity (lb_config lb) in
  let '(lb, held) :=
    if affinity then
      let '(lb, endpointID) := getSessionEndpoint (sc_session c) lb name clientAddr in
      (lb, if endpointID =?s "" then None
           else List.find (fun e => ep_ID e =?s endpointID) endpoints)
    else (lb, None) in
  match held with
  | Some e => (lb, Ok e)
  | None =>
      if len endpoints =? 0
      then (lb, Err ("no healthy endpoints available for service: " +:+ name))
      else
        match select_by lb name endpoints clientAddr with
        | (lb, None) => (lb, Err "failed to select endpoint"%string)
        | (lb, Some selected) =>
            let lb := if affinity
                      then setSessionEndpoint (sc_store c) lb name clientAddr (ep_ID selected)
                      else lb in
            (updateRequestStats (sc_stats c) lb name (ep_ID selected), Ok selected)
        end
  end.

Definition LB_UpdateEndpoints (now : Z) (lb : L4LoadBalancer) (serviceName : string)
    (endpoints : list Endpoint) : L4LoadBalancer :=
  lb <| lb_registry := UpdateEndpoints now (lb_registry lb) serviceName "default" endpoints |>.

(** ** Fairness of the two round-robin algorithms *)

(** The endpoints in the order of their turns: each once, or each as often as
    its weight. *)
Definition weighted_slots (endpoints : list Endpoint) : list Endpoint :=
  concat ((fun e => replicate (Z.to_nat (ep_Weight e)) e) <$> endpoints).

Definition slots (algorithm : string) (endpoints : list Endpoint) : list Endpoint :=
  if algorithm =?s AlgorithmWeightedRoundRobin then weighted_slots (weighed <$> endpoints)
  else endpoints.

Lemma weighed_positive endpoints : Forall (fun e => 0 < ep_Weight e) (weighed <$> endpoints).
Proof.
  apply Forall_forall. intros e (e0 & -> & _)%list_elem_of_fmap. unfold weighed.
  destruct (ep_Weight e0 <=? 0) eqn:Hw; bool_to_prop; [done|lia].
Qed.

Lemma slots_app e endpoints :
  weighted_slots (e :: endpoints) =
  replicate (Z.to_nat (ep_Weight e)) e ++ weighted_slots endpoints.
Proof. done. Qed.

Lemma slots_cons e endpoints :
  0 < ep_Weight e →
  len (weighted_slots (e :: endpoints)) = ep_Weight e + len (weighted_slots endpoints).
Proof.
  intros He. unfold len. rewrite slots_app, length_app, length_replicate. lia.
Qed.

Lemma sum_weights_slots acc endpoints :
  0 ≤ acc → acc + len (weighted_slots endpoints) < 2 ^ 63 → Forall (fun e => 0 < ep_Weight e) endpoints →
  foldl (fun total e => int64 (total + ep_Weight e)) acc endpoints = acc + len (weighted_slots endpoints).
Proof.
  intros Hacc Hlen Hpos. revert acc Hacc Hlen.
  induction Hpos as [|e endpoints He _ IH]; intros acc Hacc Hlen; simpl.
  - unfold len. simpl. lia.
  - rewrite slots_cons in Hlen |- * by done. assert (0 ≤ len (weighted_slots endpoints)) by (unfold len; lia).
    rewrite int64_id by (unfold in_int64; lia). rewrite IH by lia. lia.
Qed.

Lemma weighted_loop_slots target current endpoints :
  0 ≤ current ≤ target → current + len (weighted_slots endpoints) < 2 ^ 63 →
  Forall (fun e => 0 < ep_Weight e) endpoints →
  weighted_loop target current endpoints =
  weighted_slots endpoints !! Z.to_nat (target - current).
Proof.
  intros Hc Hlen Hpos. revert current Hc Hlen.
  induction Hpos as [|e endpoints He _ IH]; intros current Hc Hlen; simpl; [done|].
  rewrite slots_cons in Hlen by done. assert (0 ≤ len (weighted_slots endpoints)) by (unfold len; lia).
  rewrite int64_id by (unfold in_int64; lia). rewrite slots_app.
  destruct (target <? current + ep_Weight e) eqn:Ht; bool_to_prop.
  - rewrite lookup_app_l by (rewrite length_replicate; lia).
    by rewrite lookup_replicate_2 by lia.
  - rewrite IH by lia. rewrite lookup_app_r by (rewrite length_replicate; lia).
    rewrite length_replicate. f_equal. lia.
Qed.

Lemma slots_nonempty algorithm endpoints : endpoints ≠ [] → 0 < len (slots algorithm endpoints).
Proof.
  intros Hne. unfold slots. destruct endpoints as [|e endpoints]; [done|].
  case_match; [|unfold len; simpl; lia].
  pose proof (weighed_positive (e :: endpoints)) as Hpos. simpl in *. inversion Hpos; subst.
  rewrite slots_cons by done. unfold len. lia.
Qed.

(** A turn picks the slot of the counter. *)
Lemma select_turn lb name endpoints client c :
  lbc_Algorithm (lb_config lb) = AlgorithmRoundRobin ∨
  lbc_Algorithm (lb_config lb) = AlgorithmWeightedRoundRobin →
  let S := slots (lbc_Algorithm (lb_config lb)) endpoints in
  endpoints ≠ [] → len S < 2 ^ 63 → default 0 (lb_rrCounters lb !! name) = c → 0 ≤ c < 2 ^ 64 - 1 →
  ∃ e, S !! Z.to_nat (c mod len S) = Some e ∧
    select_by lb name endpoints client =
      (lb <| lb_rrCounters := <[name := c + 1]> (lb_rrCounters lb) |>, Some e).
Proof.
  intros Halg S Hne Hlen Hcount Hc. pose proof (slots_nonempty (lbc_Algorithm (lb_config lb)) endpoints Hne) as HS.
  fold S in HS. pose proof (Z.mod_pos_bound c (len S) HS) as Hmod.
  destruct (lookup_lt_is_Some_2 S (Z.to_nat (c mod len S))) as [e He]; [unfold len in *; lia|].
  exists e. split; [done|].
  assert (next_turn lb name = (lb <| lb_rrCounters := <[name := c + 1]> (lb_rrCounters lb) |>, c + 1)) as Hn.
  { unfold next_turn. rewrite Hcount. unfold uint64. by rewrite Z.mod_small by lia. }
  assert (uint64 (c + 1 - 1) = c) as Hu by (unfold uint64; rewrite Z.mod_small; lia).
  assert ((len endpoints =? 0) = false) as H0.
  { apply Z.eqb_neq. unfold len. destruct endpoints; [done|simpl; lia]. }
  unfold select_by. destruct Halg as [Ha|Ha]; rewrite Ha; subst S; rewrite Ha in *; simpl.
  - unfold slots in *. rewrite bool_decide_eq_false_2 in * by done.
    unfold selectRoundRobin. rewrite H0, Hn, Hu. f_equal.
    by rewrite int64_id by (unfold in_int64; lia).
  - unfold slots in *. rewrite bool_decide_eq_true_2 in * by done.
    unfold selectWeightedRoundRobin. rewrite H0.
    pose proof (weighed_positive endpoints) as Hpos.
    unfold sum_weights. rewrite sum_weights_slots by (done || lia). rewrite Z.add_0_l.
    rewrite (proj2 (Z.eqb_neq _ 0)) by lia. rewrite Hn, Hu.
    unfold uint64. rewrite (Z.mod_small (len _) (2 ^ 64)) by lia. rewrite int64_id by (unfold in_int64; lia).
    rewrite weighted_loop_slots by (done || lia). rewrite Z.sub_0_r. by rewrite He.
Qed.

(** Any window of [length l] turns visits every slot once. *)
Definition pick {A} (l : list A) (j : nat) : option A := l !! (j mod length l)%nat.

Lemma pick_window {A} (l : list A) c : pick l <$> seq c (length l) ≡ₚ Some <$> l.
Proof.
  destruct (decide (l = [])) as [->|Hne]; [done|].
  assert (length l ≠ 0)%nat as Hl by by destruct l.
  induction c as [|c IH].
  - apply reflexive_eq, list_eq. intros i. rewrite !list_lookup_fmap.
    destruct (decide (i < length l)%nat) as [Hi|Hi].
    + rewrite lookup_seq_lt by done. simpl. unfold pick. rewrite Nat.mod_small by done.
      by destruct (lookup_lt_is_Some_2 l i Hi) as [x ->].
    + rewrite lookup_seq_ge, lookup_ge_None_2 by lia. done.
  - rewrite <-IH. apply (Permutation_cons_inv (a := pick l c)).
    change (pick l c :: (pick l <$> seq (S c) (length l))) with (pick l <$> seq c (S (length l))).
    rewrite seq_S, fmap_app. simpl.
    assert (pick l (c + length l) = pick l c) as ->.
    { unfold pick. replace (c + length l)%nat with (c + 1 * length l)%nat by lia.
      by rewrite Nat.Div0.mod_add. }
    symmetry. apply Permutation_cons_append.
Qed.

Lemma pick_windows {A} (l : list A) k c :
  pick l <$> seq c (k * length l) ≡ₚ Some <$> concat (replicate k l).
Proof.
  revert c. induction k as [|k IH]; intros c; simpl; [done|].
  rewrite seq_app, !fmap_app. by rewrite pick_window, IH.
Qed.

(** Requests one after another, each with its clock and client. *)
Fixpoint select_many (reqs : list (SelectClock * string)) (lb : L4LoadBalancer) (service : Service)
    : L4LoadBalancer * list (result string Endpoint) :=
  match reqs with
  | [] => (lb, [])
  | (c, client) :: reqs =>
      let '(lb, r) := SelectEndpoint c lb service client in
      let '(lb, rs) := select_many reqs lb service in (lb, r :: rs)
  end.

Definition from_pick (o : option Endpoint) : result string Endpoint :=
  match o with Some e => Ok e | None => Err "" end.

Lemma updateRequestStats_fields now lb name id :
  let lb' := updateRequestStats now lb name id in
  lb_config lb' = lb_config lb ∧ lb_registry lb' = lb_registry lb ∧
  lb_rrCounters lb' = lb_rrCounters lb ∧ lb_sessionCache lb' = lb_sessionCache lb.
Proof. unfold updateRequestStats, change_stats, getEndpointStats. simpl. by destruct (lb_endpointStats lb !! id). Qed.

Section fairness.
Context (lb0 : L4LoadBalancer) (service : Service).
Let cfg := lb_config lb0.
Let endpoints := GetHealthyEndpoints (lb_registry lb0) (svc_Name service) (svc_Namespace service).
Let S := slots (lbc_Algorithm cfg) endpoints.
Context (Halg : lbc_Algorithm cfg = AlgorithmRoundRobin ∨
                lbc_Algorithm cfg = AlgorithmWeightedRoundRobin).
Context (Haff : lbc_SessionAffinity cfg = false) (Hne : endpoints ≠ []) (Hlen : len S < 2 ^ 63).

Lemma select_many_turns reqs lb (c : nat) :
  lb_config lb = cfg → lb_registry lb = lb_registry lb0 →
  default 0 (lb_rrCounters lb !! svc_Name service) = Z.of_nat c →
  Z.of_nat c + len reqs < 2 ^ 64 →
  (select_many reqs lb service).2 = from_pick <$> (pick S <$> seq c (length reqs)).
Proof using Halg Haff Hne Hlen.
  revert lb c. induction reqs as [|[t client] reqs IH]; intros lb c Hcfg Hreg Hcount Hc; [done|].
  unfold len in Hc. simpl in Hc.
  destruct (select_turn lb (svc_Name service) endpoints client (Z.of_nat c)) as (e & He & Hsel);
    rewrite ?Hcfg; [done..|lia|].
  rewrite Hcfg in He. fold S in He. unfold len in He.
  rewrite <-Nat2Z.inj_mod, Nat2Z.id in He.
  simpl. destruct (SelectEndpoint t lb service client) as [lb' r] eqn:Hs.
  unfold SelectEndpoint in Hs. rewrite Hcfg, Hreg, Haff in Hs. fold endpoints in Hs.
  rewrite (proj2 (Z.eqb_neq (len endpoints) 0)) in Hs by (unfold len; destruct endpoints; [done|simpl; lia]).
  rewrite Hsel in Hs. injection Hs as <- <-.
  set (lb1 := lb <| lb_rrCounters := <[svc_Name service := Z.of_nat c + 1]> (lb_rrCounters lb) |>).
  destruct (updateRequestStats_fields (sc_stats t) lb1 (svc_Name service) (ep_ID e)) as (H1 & H2 & H3 & _).
  specialize (IH (updateRequestStats (sc_stats t) lb1 (svc_Name service) (ep_ID e)) (Datatypes.S c)).
  destruct (select_many reqs _ service) as [lb2 rs]. simpl in *. f_equal.
  - unfold pick. by rewrite He.
  - apply IH; [by rewrite H1|by rewrite H2| |unfold len; lia].
    rewrite H3. simpl. rewrite lookup_insert_eq. simpl. lia.
Qed.

End fairness.


(** ** Least connections *)

Definition active (lb : L4LoadBalancer) (id : string) : Z :=
  match lb_endpointStats lb !! id with Some s => es_ActiveConnections s | None => 0 end.

Lemma getEndpointStats_active lb id :
  es_ActiveConnections (getEndpointStats lb id).2 = active lb id ∧
  (∀ id', active (getEndpointStats lb id).1 id' = active lb id') ∧
  lb_config (getEndpointStats lb id).1 = lb_config lb ∧
  lb_registry (getEndpointStats lb id).1 = lb_registry lb ∧
  lb_sessionCache (getEndpointStats lb id).1 = lb_sessionCache lb.
Proof.
  unfold getEndpointStats, active. destruct (lb_endpointStats lb !! id) eqn:Hid; [done|].
  split_and!; [done| |done..]. intros id'. simpl. rewrite lookup_insert.
  case_decide; [by subst; rewrite Hid|done].
Qed.

(** The best of the endpoints seen, and the fewest connections below [m0]. *)
Definition best_of (lb : L4LoadBalancer) (m0 : Z) (seen : list Endpoint) (best : option Endpoint)
    (m : Z) : Prop :=
  (∀ e, e ∈ seen → m ≤ active lb (ep_ID e)) ∧
  match best with
  | Some e => e ∈ seen ∧ m = active lb (ep_ID e) ∧ m < m0
  | None => m = m0
  end.

Lemma least_fold lb0 m0 seen rest lb best m :
  (∀ id, active lb id = active lb0 id) → best_of lb0 m0 seen best m →
  m ≤ m0 → lb_registry lb = lb_registry lb0 → lb_sessionCache lb = lb_sessionCache lb0 →
  lb_config lb = lb_config lb0 →
  let '(lb', best', m') := foldl least_step (lb, best, m) rest in
  best_of lb0 m0 (seen ++ rest) best' m' ∧ lb_registry lb' = lb_registry lb0 ∧
  lb_sessionCache lb' = lb_sessionCache lb0 ∧ lb_config lb' = lb_config lb0.
Proof.
  revert seen lb best m. induction rest as [|e rest IH]; intros seen lb best m Hact Hbest Hm Hr Hs Hc; simpl.
  - by rewrite app_nil_r.
  - destruct (getEndpointStats_active lb (ep_ID e)) as (Ha & Hact' & Hcfg & Hreg & Hses).
    destruct (getEndpointStats lb (ep_ID e)) as [lb1 st]. simpl in *.
    change (e :: rest) with ([e] ++ rest). rewrite app_assoc.
    destruct Hbest as [Hall Hb].
    destruct (es_ActiveConnections st <? m) eqn:Hlt; bool_to_prop; apply IH;
      rewrite ?Hreg, ?Hses, ?Hcfg; try done; try (intros; by rewrite Hact'); try lia.
    + split.
      * intros e' [He'|He'%list_elem_of_singleton]%elem_of_app; [|subst; rewrite <-Hact; lia].
        specialize (Hall e' He'). lia.
      * split_and!; [apply elem_of_app; right; by left|rewrite <-Hact; lia|lia].
    + split.
      * intros e' [He'|He'%list_elem_of_singleton]%elem_of_app; [by apply Hall|].
        subst. rewrite <-Hact. lia.
      * destruct best as [b|]; [|done]. destruct Hb as (Hb & ? & ?). split; [|done].
        apply elem_of_app. by left.
Qed.

Lemma select_least lb endpoints :
  let '(lb', best) := selectLeastConnections lb endpoints in
  (match best with
   | Some e => e ∈ endpoints ∧ ∀ e', e' ∈ endpoints → active lb (ep_ID e) ≤ active lb (ep_ID e')
   | None => ∀ e', e' ∈ endpoints → 2 ^ 31 - 1 ≤ active lb (ep_ID e')
   end) ∧ lb_registry lb' = lb_registry lb ∧ lb_sessionCache lb' = lb_sessionCache lb ∧
  lb_config lb' = lb_config lb.
Proof.
  unfold selectLeastConnections. destruct (len endpoints =? 0) eqn:H0; bool_to_prop.
  - split; [|done]. destruct endpoints; [by intros e ?%elem_of_nil|]. unfold len in H0. simpl in H0. lia.
  - pose proof (least_fold lb (2 ^ 31 - 1) [] endpoints lb None (2 ^ 31 - 1)) as Hf.
    destruct (foldl least_step _ endpoints) as [[lb' best] m]. simpl.
    destruct Hf as ([Hall Hb] & Hrest); [done| |done..|].
    { split; [by intros e ?%elem_of_nil|done]. }
    split; [|done]. destruct best as [e|]; simpl in *; [|by subst m].
    destruct Hb as (He & Hm & _). split; [done|]. intros e' He'. rewrite <-Hm. by apply Hall.
Qed.

(** ** What a selection returns *)

Lemma next_turn_fields lb name :
  lb_registry (next_turn lb name).1 = lb_registry lb ∧
  lb_sessionCache (next_turn lb name).1 = lb_sessionCache lb ∧
  lb_config (next_turn lb name).1 = lb_config lb.
Proof. done. Qed.

Lemma weighted_loop_in target current l e : weighted_loop target current l = Some e → e ∈ l.
Proof.
  revert current. induction l as [|x l IH]; intros current; simpl; [done|].
  case_match; [intros [= ->]; by left|]. intros He. right. by eapply IH.
Qed.

Lemma round_robin_some lb name endpoints :
  endpoints ≠ [] → len endpoints < 2 ^ 63 →
  let '(lb', r) := selectRoundRobin lb name endpoints in
  (∃ e, r = Some e ∧ e ∈ endpoints) ∧ lb_registry lb' = lb_registry lb ∧
  lb_sessionCache lb' = lb_sessionCache lb ∧ lb_config lb' = lb_config lb.
Proof.
  intros Hne Hlen. assert (0 < len endpoints) as Hpos
    by (unfold len; destruct endpoints; [done|simpl; lia]).
  unfold selectRoundRobin. rewrite (proj2 (Z.eqb_neq _ 0)) by lia.
  destruct (next_turn lb name) as [lb' next] eqn:Hn. apply (f_equal fst) in Hn. simpl in Hn. subst lb'.
  split; [|done]. set (i := uint64 (next - 1) mod len endpoints).
  pose proof (Z.mod_pos_bound (uint64 (next - 1)) (len endpoints) Hpos) as Hi. fold i in Hi.
  rewrite int64_id by (unfold in_int64; lia).
  destruct (lookup_lt_is_Some_2 endpoints (Z.to_nat i)) as [e He]; [unfold len in *; lia|].
  exists e. split; [done|]. by eapply list_elem_of_lookup_2.
Qed.

(** What the balancer may hand out for an endpoint: the endpoint, or the
    endpoint with the weight that it counts with. *)
Definition stands_for (endpoints : list Endpoint) (e : Endpoint) : Prop :=
  ∃ e0, e0 ∈ endpoints ∧ (e = e0 ∨ e = weighed e0).

(** What the algorithms but the third promise. *)
Definition picked (lb : L4LoadBalancer) (endpoints : list Endpoint)
    (p : L4LoadBalancer * option Endpoint) : Prop :=
  (∃ e, p.2 = Some e ∧ stands_for endpoints e) ∧ lb_registry p.1 = lb_registry lb ∧
  lb_sessionCache p.1 = lb_sessionCache lb ∧ lb_config p.1 = lb_config lb.

Lemma picked_round_robin lb name endpoints :
  endpoints ≠ [] → len endpoints < 2 ^ 63 → picked lb endpoints (selectRoundRobin lb name endpoints).
Proof.
  intros Hne Hlen. pose proof (round_robin_some lb name endpoints Hne Hlen) as Hr. unfold picked.
  destruct (selectRoundRobin lb name endpoints) as [lb' r]. destruct Hr as [(e & -> & He) Hr].
  split; [|done]. exists e. split; [done|]. exists e. auto.
Qed.

Lemma picked_weighted lb name endpoints :
  endpoints ≠ [] → len endpoints < 2 ^ 63 →
  picked lb endpoints (selectWeightedRoundRobin lb name endpoints).
Proof.
  intros Hne Hlen. unfold selectWeightedRoundRobin.
  rewrite (proj2 (Z.eqb_neq (len endpoints) 0)) by (unfold len; destruct endpoints; [done|simpl; lia]).
  assert (∀ e, e ∈ weighed <$> endpoints → stands_for endpoints e) as Hw.
  { intros e (e0 & -> & He0)%list_elem_of_fmap. exists e0. auto. }
  destruct (sum_weights (weighed <$> endpoints) =? 0).
  - pose proof (round_robin_some lb name (weighed <$> endpoints)) as Hr. unfold picked.
    destruct (selectRoundRobin lb name _) as [lb' r].
    destruct Hr as [(e & -> & He) Hr]; [by destruct endpoints|unfold len in *; by rewrite length_fmap|].
    split; [|done]. exists e. auto.
  - destruct (next_turn lb name) as [lb' next] eqn:Hn. apply (f_equal fst) in Hn. simpl in Hn. subst lb'.
    destruct (weighted_loop _ 0 _) as [e|] eqn:Hl; (split; [|done]).
    + exists e. split; [done|]. by apply Hw, weighted_loop_in with (1 := Hl).
    + destruct endpoints as [|e0 l]; [done|]. exists (weighed e0). split; [done|]. apply Hw. by left.
Qed.

Lemma picked_locality lb endpoints client :
  endpoints ≠ [] → len endpoints < 2 ^ 63 →
  picked lb endpoints (selectLocalityAware lb endpoints client).
Proof.
  intros Hne Hlen. unfold selectLocalityAware.
  rewrite (proj2 (Z.eqb_neq (len endpoints) 0)) by (unfold len; destruct endpoints; [done|simpl; lia]).
  cbn [extractClientLocality].
  assert (∀ f e, List.find f endpoints = Some e → picked lb endpoints (lb, Some e)) as Hfind.
  { intros f e [He%list_elem_of_In _]%find_some. split; [|done]. exists e. split; [done|]. exists e. auto. }
  destruct (List.find _ endpoints) as [e|] eqn:Hf; [by eapply Hfind|].
  destruct (List.find (fun e => ep_Region e =?s "") endpoints) as [e|] eqn:Hf2; [by eapply Hfind|].
  by apply picked_round_robin.
Qed.

Lemma select_by_spec lb name endpoints client :
  endpoints ≠ [] → len endpoints < 2 ^ 63 →
  let p := select_by lb name endpoints client in
  picked lb endpoints p ∨
  p.2 = None ∧ lbc_Algorithm (lb_config lb) = AlgorithmLeastConnections ∧
  (∀ e, e ∈ endpoints → 2 ^ 31 - 1 ≤ active lb (ep_ID e)) ∧ lb_registry p.1 = lb_registry lb.
Proof.
  intros Hne Hlen. unfold select_by.
  destruct (_ =?s AlgorithmRoundRobin); [left; by apply picked_round_robin|].
  destruct (_ =?s AlgorithmWeightedRoundRobin); [left; by apply picked_weighted|].
  destruct (_ =?s AlgorithmLeastConnections) eqn:Hleast; bool_to_prop.
  - pose proof (select_least lb endpoints) as Hl.
    destruct (selectLeastConnections lb endpoints) as [lb' [e|]]; simpl.
    + destruct Hl as [[He _] Hr]. left. split; [|done]. exists e. split; [done|]. exists e. auto.
    + destruct Hl as (Hl & Hr & _). right. by split_and!.
  - left. destruct (_ =?s AlgorithmLocalityAware); [by apply picked_locality|].
    by apply picked_round_robin.
Qed.

(** The two halves of [SelectEndpoint]: the endpoint of a session, and a new
    choice. *)
Definition session_held (now : Z) (lb : L4LoadBalancer) (name client : string)
    (endpoints : list Endpoint) : L4LoadBalancer * option Endpoint :=
  if lbc_SessionAffinity (lb_config lb) then
    let '(lb, endpointID) := getSessionEndpoint now lb name client in
    (lb, if endpointID =?s "" then None
         else List.find (fun e => ep_ID e =?s endpointID) endpoints)
  else (lb, None).

Definition finish (c : SelectClock) (affinity : bool) (lb : L4LoadBalancer) (name client : string)
    (e : Endpoint) : L4LoadBalancer :=
  updateRequestStats (sc_stats c)
    (if affinity then setSessionEndpoint (sc_store c) lb name client (ep_ID e) else lb) name (ep_ID e).

Definition select_fresh (c : SelectClock) (affinity : bool) (lb : L4LoadBalancer)
    (name client : string) (endpoints : list Endpoint) : L4LoadBalancer * result string Endpoint :=
  if len endpoints =? 0
  then (lb, Err ("no healthy endpoints available for service: " +:+ name))
  else match select_by lb name endpoints client with
       | (lb, None) => (lb, Err "failed to select endpoint"%string)
       | (lb, Some e) => (finish c affinity lb name client e, Ok e)
       end.

Lemma SelectEndpoint_eq c lb service client :
  let name := svc_Name service in
  let healthy := GetHealthyEndpoints (lb_registry lb) name (svc_Namespace service) in
  SelectEndpoint c lb service client =
  match session_held (sc_session c) lb name client healthy with
  | (lb1, Some e) => (lb1, Ok e)
  | (lb1, None) => select_fresh c (lbc_SessionAffinity (lb_config lb)) lb1 name client healthy
  end.
Proof. done. Qed.

Lemma session_held_fields now lb name client endpoints :
  let p := session_held now lb name client endpoints in
  lb_registry p.1 = lb_registry lb ∧ lb_config p.1 = lb_config lb ∧
  lb_endpointStats p.1 = lb_endpointStats lb ∧
  match p.2 with Some e => e ∈ endpoints | None => True end ∧
  match p.2 with Some e => lbc_SessionAffinity (lb_config lb) = true | None => True end.
Proof.
  unfold session_held, getSessionEndpoint. destruct (lbc_SessionAffinity (lb_config lb)); [|done].
  destruct (lb_sessionCache lb !! _) as [se|]; [|done].
  destruct (time_Sub now (se_createdAt se) <? _); [|done].
  destruct (se_endpointID se =?s ""); [done|].
  destruct (List.find _ endpoints) as [e|] eqn:Hf; [|done].
  by apply find_some in Hf as [?%list_elem_of_In _].
Qed.

Lemma finish_registry c affinity lb name client e :
  lb_registry (finish c affinity lb name client e) = lb_registry lb.
Proof.
  unfold finish. destruct (updateRequestStats_fields (sc_stats c) (if affinity then
    setSessionEndpoint (sc_store c) lb name client (ep_ID e) else lb) name (ep_ID e)) as (_ & -> & _).
  by destruct affinity.
Qed.

(** A call of [SelectEndpoint] changes nothing in the registry, and returns an
    endpoint that is registered for the service and healthy, or a reason: no
    endpoint of the service is healthy, or every one of them has reached the
    limit of the counter of connections.  When the endpoint is chosen by least
    connections, no healthy endpoint has fewer. *)
Theorem SelectEndpoint_sound c lb service client lb' r :
  let healthy := GetHealthyEndpoints (lb_registry lb) (svc_Name service) (svc_Namespace service) in
  len healthy < 2 ^ 63 → SelectEndpoint c lb service client = (lb', r) →
  lb_registry lb' = lb_registry lb ∧
  match r with
  | Ok e => stands_for healthy e ∧
      (lbc_SessionAffinity (lb_config lb) = false →
       lbc_Algorithm (lb_config lb) = AlgorithmLeastConnections →
       ∀ e', e' ∈ healthy → active lb (ep_ID e) ≤ active lb (ep_ID e'))
  | Err _ => healthy = [] ∨ lbc_Algorithm (lb_config lb) = AlgorithmLeastConnections ∧
      ∀ e, e ∈ healthy → 2 ^ 31 - 1 ≤ active lb (ep_ID e)
  end.
Proof.
  intros healthy Hlen. rewrite SelectEndpoint_eq. fold healthy.
  destruct (session_held_fields (sc_session c) lb (svc_Name service) client healthy)
    as (Hreg & Hcfg & Hst & Hin & Haff).
  destruct (session_held _ lb _ client healthy) as [lb1 held]. simpl in *.
  destruct held as [e|].
  { intros [= <- <-]. split; [done|]. split; [exists e; auto|]. intros Hoff. by rewrite Hoff in Haff. }
  unfold select_fresh. destruct (decide (healthy = [])) as [Hnil|Hne].
  { rewrite Hnil. simpl. intros [= <- <-]. auto. }
  rewrite (proj2 (Z.eqb_neq (len healthy) 0)) by (unfold len; destruct healthy; [done|simpl; lia]).
  pose proof (select_by_spec lb1 (svc_Name service) healthy client Hne Hlen) as Hsel. simpl in Hsel.
  assert (∀ id, active lb1 id = active lb id) as Hact by (intros id; unfold active; by rewrite Hst).
  destruct (select_by lb1 _ healthy client) as [lb2 sel] eqn:Hby. simpl in Hsel.
  destruct Hsel as [[(e & Hsome & He) (Hreg2 & _ & _)]|(Hnone & Halg & Hall & Hreg2)]; simpl in *.
  - subst sel. intros [= <- <-]. split; [by rewrite finish_registry, Hreg2|]. split; [done|].
    intros _ Halg e' He'. unfold select_by in Hby. rewrite Hcfg, Halg in Hby.
    pose proof (select_least lb1 healthy) as Hl.
    change (selectLeastConnections lb1 healthy = (lb2, Some e)) in Hby. rewrite Hby in Hl.
    rewrite <-!Hact. by apply Hl.
  - subst sel. intros [= <- <-]. split; [congruence|]. right. rewrite <-Hcfg. split; [done|].
    intros e He. rewrite <-Hact. by apply Hall.
Qed.

(** ** Session affinity *)

Lemma round_robin_fields lb name endpoints :
  let lb' := (selectRoundRobin lb name endpoints).1 in
  lb_registry lb' = lb_registry lb ∧ lb_sessionCache lb' = lb_sessionCache lb ∧
  lb_config lb' = lb_config lb.
Proof. unfold selectRoundRobin, next_turn. by case_match. Qed.

Lemma select_by_fields lb name endpoints client :
  let lb' := (select_by lb name endpoints client).1 in
  lb_registry lb' = lb_registry lb ∧ lb_sessionCache lb' = lb_sessionCache lb ∧
  lb_config lb' = lb_config lb.
Proof.
  unfold select_by. destruct (_ =?s AlgorithmRoundRobin); [apply round_robin_fields|].
  destruct (_ =?s AlgorithmWeightedRoundRobin).
  { unfold selectWeightedRoundRobin. destruct (len endpoints =? 0); [done|].
    destruct (sum_weights _ =? 0); [apply round_robin_fields|]. unfold next_turn.
    by destruct (weighted_loop _ _ _). }
  destruct (_ =?s AlgorithmLeastConnections).
  { pose proof (select_least lb endpoints) as Hl. destruct (selectLeastConnections lb endpoints). apply Hl. }
  destruct (_ =?s AlgorithmLocalityAware); [|apply round_robin_fields].
  unfold selectLocalityAware. destruct (len endpoints =? 0); [done|]. simpl.
  destruct (List.find _ endpoints); [done|].
  destruct (List.find (fun e => ep_Region e =?s "") endpoints); [done|apply round_robin_fields].
Qed.

Lemma finish_fields c affinity lb name client e :
  let lb' := finish c affinity lb name client e in
  lb_config lb' = lb_config lb ∧
  lb_sessionCache lb' = if affinity then <[getSessionKey name client :=
    {| se_endpointID := ep_ID e; se_createdAt := sc_store c |}]> (lb_sessionCache lb)
    else lb_sessionCache lb.
Proof.
  unfold finish. destruct (updateRequestStats_fields (sc_stats c) (if affinity then
    setSessionEndpoint (sc_store c) lb name client (ep_ID e) else lb) name (ep_ID e)) as (-> & _ & _ & ->).
  by destruct affinity.
Qed.

(** A call changes at most the session of its own key. *)
Lemma select_sessions c lb service client :
  let lb' := (SelectEndpoint c lb service client).1 in
  lb_config lb' = lb_config lb ∧
  ∀ key, key ≠ getSessionKey (svc_Name service) client →
    lb_sessionCache lb' !! key = lb_sessionCache lb !! key.
Proof.
  rewrite SelectEndpoint_eq. set (healthy := GetHealthyEndpoints _ _ _).
  assert (∀ key, key ≠ getSessionKey (svc_Name service) client → lb_sessionCache
    (session_held (sc_session c) lb (svc_Name service) client healthy).1 !! key =
    lb_sessionCache lb !! key) as Hses.
  { intros key Hkey. unfold session_held, getSessionEndpoint.
    destruct (lbc_SessionAffinity _); [|done]. destruct (lb_sessionCache lb !! getSessionKey _ _) as [se|];
      [|done]. destruct (_ <? _); [done|]. simpl. by rewrite lookup_delete_ne. }
  destruct (session_held_fields (sc_session c) lb (svc_Name service) client healthy) as (_ & Hcfg & _).
  destruct (session_held _ lb _ client healthy) as [lb1 [e|]]; simpl in *; [done|].
  unfold select_fresh. destruct (len healthy =? 0); [done|].
  pose proof (select_by_fields lb1 (svc_Name service) healthy client) as (_ & Hs & Hc).
  destruct (select_by lb1 _ healthy client) as [lb2 [e|]]; simpl in *; [|by rewrite Hs, Hc].
  destruct (finish_fields c (lbc_SessionAffinity (lb_config lb)) lb2 (svc_Name service) client e) as [-> ->].
  split; [congruence|]. intros key Hkey. rewrite <-(Hses key Hkey), <-Hs.
  destruct (lbc_SessionAffinity (lb_config lb)); [|done]. by rewrite lookup_insert_ne.
Qed.

Definition select_others (others : list (SelectClock * Service * string)) (lb : L4LoadBalancer)
    : L4LoadBalancer :=
  foldl (fun lb r => (SelectEndpoint r.1.1 lb r.1.2 r.2).1) lb others.

Lemma others_sessions key others lb :
  Forall (fun r => key ≠ getSessionKey (svc_Name r.1.2) r.2) others →
  lb_config (select_others others lb) = lb_config lb ∧
  lb_sessionCache (select_others others lb) !! key = lb_sessionCache lb !! key.
Proof.
  intros Hall. revert lb. induction Hall as [|r others Hr _ IH]; intros lb; simpl; [done|].
  destruct (select_sessions r.1.1 lb r.1.2 r.2) as [Hc Hs].
  destruct (IH (SelectEndpoint r.1.1 lb r.1.2 r.2).1) as [Hc' Hs'].
  rewrite Hc', Hc, Hs', Hs by done. done.
Qed.

(** A first selection makes a session. *)
Lemma first_session c lb service client lb' e :
  lbc_SessionAffinity (lb_config lb) = true →
  lb_sessionCache lb !! getSessionKey (svc_Name service) client = None →
  SelectEndpoint c lb service client = (lb', Ok e) →
  lb_config lb' = lb_config lb ∧ lb_sessionCache lb' !! getSessionKey (svc_Name service) client =
    Some {| se_endpointID := ep_ID e; se_createdAt := sc_store c |}.
Proof.
  intros Haff Hnone. rewrite SelectEndpoint_eq. unfold session_held, getSessionEndpoint.
  rewrite Haff, Hnone. cbn -[select_fresh]. unfold select_fresh.
  set (healthy := GetHealthyEndpoints _ _ _). destruct (len healthy =? 0); [done|].
  pose proof (select_by_fields lb (svc_Name service) healthy client) as (_ & _ & Hc).
  destruct (select_by lb _ healthy client) as [lb2 [e2|]]; [|done]. simpl in Hc. intros [= <- <-].
  destruct (finish_fields c true lb2 (svc_Name service) client e2) as [-> ->].
  split; [done|]. apply lookup_insert_eq.
Qed.

(** With session affinity, the endpoint a client was given without a session
    is the one it is given again for as long as the session lasts and the
    endpoint is healthy, whatever requests with other session keys are made
    and however the registry changes in between. *)
Theorem session_sticks c1 lb service client lb1 e others registry c2 e0 :
  lbc_SessionAffinity (lb_config lb) = true →
  lb_sessionCache lb !! getSessionKey (svc_Name service) client = None →
  SelectEndpoint c1 lb service client = (lb1, Ok e) → ep_ID e ≠ EmptyString →
  Forall (fun r => getSessionKey (svc_Name service) client ≠ getSessionKey (svc_Name r.1.2) r.2) others →
  time_Sub (sc_session c2) (sc_store c1) < lbc_SessionAffinityTTL (lb_config lb) →
  e0 ∈ GetHealthyEndpoints registry (svc_Name service) (svc_Namespace service) → ep_ID e0 = ep_ID e →
  ∃ e', (SelectEndpoint c2 ((select_others others lb1) <| lb_registry := registry |>) service client).2 =
      Ok e' ∧ ep_ID e' = ep_ID e ∧
    e' ∈ GetHealthyEndpoints registry (svc_Name service) (svc_Namespace service).
Proof.
  intros Haff Hnone Hsel Hid Hothers Httl He0 Hid0.
  destruct (first_session c1 lb service client lb1 e Haff Hnone Hsel) as [Hcfg Hses].
  destruct (others_sessions _ others lb1 Hothers) as [Hcfg2 Hses2]. rewrite Hses in Hses2.
  revert Hcfg2 Hses2. generalize (select_others others lb1). intros lb2 Hcfg2 Hses2.
  rewrite SelectEndpoint_eq. unfold session_held, getSessionEndpoint. simpl.
  rewrite Hcfg2, Hcfg, Haff, Hses2. simpl. rewrite (proj2 (Z.ltb_lt _ _) Httl).
  rewrite bool_decide_eq_false_2 by done.
  set (healthy := GetHealthyEndpoints _ _ _) in *.
  destruct (List.find (fun e' => ep_ID e' =?s ep_ID e) healthy) as [e'|] eqn:Hf.
  - apply find_some in Hf as [He'%list_elem_of_In Heq]. bool_to_prop. exists e'. done.
  - apply list_elem_of_In in He0. apply (find_none _ _ Hf) in He0. bool_to_prop. done.
Qed.

(** ** Sample balancers *)

Definition sample_endpoint (id region health : string) (weight : Z) : Endpoint :=
  {| ep_ID := id; ep_PeerID := "p"; ep_Address := "10.0.0.9"; ep_Port := 80; ep_Weight := weight;
     ep_Health := health; ep_Region := region; ep_Zone := ""; ep_Metadata := ∅ |}.

Definition sample_backends : ServiceRegistry :=
  foldl reg_exec sample_registry
    [OpRegister 1 1 (sample_service "web" "prod" "");
     OpEndpoint 2 "web" "prod" (sample_endpoint "a" "eu" "healthy" 2);
     OpEndpoint 2 "web" "prod" (sample_endpoint "b" "us" "healthy" 0);
     OpEndpoint 2 "web" "prod" (sample_endpoint "c" "us" "unhealthy" 5)].

Definition sample_config (algorithm : string) (affinity : bool) : LoadBalancerConfig :=
  {| lbc_Algorithm := algorithm; lbc_HealthCheckEnabled := true; lbc_HealthCheckInterval := second;
     lbc_SessionAffinity := affinity; lbc_SessionAffinityTTL := minute |}.

Definition sample_lb (algorithm : string) (affinity : bool) : L4LoadBalancer :=
  NewL4LoadBalancer (sample_config algorithm affinity) sample_backends.

Definition at_time (t : Z) : SelectClock := {| sc_session := t; sc_store := t; sc_stats := t |}.


Lemma SelectEndpoint_sound_witness :
  let lb := IncrementActiveConnections (sample_lb AlgorithmLeastConnections false) "a" in
  let b := sample_endpoint "b" "us" "healthy" 0 in
  (SelectEndpoint (at_time 0) lb (sample_service "web" "prod" "") "1.2.3.4").2 = Ok b ∧
  stands_for (GetHealthyEndpoints (lb_registry lb) "web" "prod") b.
Proof.
  intros lb b. split; [vm_compute; reflexivity|].
  refine (proj1 (proj2 (SelectEndpoint_sound (at_time 0) lb (sample_service "web" "prod" "") "1.2.3.4"
    (SelectEndpoint (at_time 0) lb (sample_service "web" "prod" "") "1.2.3.4").1 (Ok b) _ _))).
  - vm_compute. reflexivity.
  - vm_compute. reflexivity.
Defined.

Lemma session_sticks_witness :
  let lb := sample_lb AlgorithmRoundRobin true in
  let web := sample_service "web" "prod" "" in
  let a := sample_endpoint "a" "eu" "healthy" 2 in
  let lb1 := (SelectEndpoint (at_time 0) lb web "1.2.3.4").1 in
  ∃ e', (SelectEndpoint (at_time (30 * second)) ((select_others [(at_time second, web, "5.6.7.8"%string)]
      lb1) <| lb_registry := sample_backends |>) web "1.2.3.4").2 = Ok e' ∧ ep_ID e' = "a"%string ∧
    e' ∈ GetHealthyEndpoints sample_backends "web" "prod".
Proof.
  intros lb web a lb1.
  apply (session_sticks (at_time 0) lb web "1.2.3.4" lb1 a [(at_time second, web, "5.6.7.8"%string)]
    sample_backends (at_time (30 * second)) a).
  - reflexivity.
  - reflexivity.
  - vm_compute. reflexivity.
  - discriminate.
  - repeat constructor. vm_compute. discriminate.
  - vm_compute. reflexivity.
  - vm_compute. left.
  - reflexivity.
Defined.

(** The empty locality that every client has matches only endpoints without a
    region: the locality-aware algorithm falls back to round-robin among
    endpoints that have one, against the comment that it matches any. *)
Example locality_falls_back :
  let lb := sample_lb AlgorithmLocalityAware false in
  (select_many [(at_time 0, "1.2.3.4"%string); (at_time 0, "1.2.3.4"%string)] lb
    (sample_service "web" "prod" "")).2 =
  [Ok (sample_endpoint "a" "eu" "healthy" 2); Ok (sample_endpoint "b" "us" "healthy" 0)].
Proof. by vm_compute. Qed.

(** [RecordFailure] looks for the endpoint in the namespace [default] only: a
    failing endpoint of a service in another namespace stays healthy. *)
Example failure_in_namespace :
  let lb := RecordFailure (sample_lb AlgorithmRoundRobin false) "web" "a" in
  ep_ID <$> GetHealthyEndpoints (lb_registry lb) "web" "prod" = ["a"; "b"]%string.
Proof. by vm_compute. Qed.
