(* ===== verification/BootstrapTokens.v ===== *)
(** * Bootstrap tokens for node enrollment (pkg/mtls/token.go)

    The manager tracks the tokens it has issued and counts their uses; a token
    string is a JSON web token, whose library is the class [BootstrapJWT].
    [HashedToken], which is always nil, is left out. *)

From S2P Require Import Prelude GoText.

Record TokenClaims := {
  tc_TokenID : string;
  tc_NodeID : string;
  tc_NodeName : string;
  tc_Region : string;
  tc_Zone : string;
  tc_MaxUses : Z;
  tc_ID : string;
  tc_Issuer : string;
  tc_IssuedAt : Z;
  tc_ExpiresAt : Z
}.

(** Signing and parsing with a key; parsing checks the signature, the signing
    method and the expiry at the given time. *)
Class BootstrapJWT : Type := {
  boot_sign : string → TokenClaims → result string string;
  boot_parse : Z → string → string → result string TokenClaims
}.

Record BootstrapToken := {
  bt_ID : string;
  bt_Token : string;
  bt_NodeID : string;
  bt_NodeName : string;
  bt_Region : string;
  bt_Zone : string;
  bt_CreatedAt : Z;
  bt_ExpiresAt : Z;
  bt_Used : bool;
  bt_UsedAt : Z;
  bt_UsedBy : string;
  bt_MaxUses : Z;
  bt_UseCount : Z
}.

Record BootstrapTokenManager := {
  boot_signingKey : string;
  boot_tokens : gmap string BootstrapToken
}.

Definition with_boot_tokens (tm : BootstrapTokenManager) (ts : gmap string BootstrapToken)
    : BootstrapTokenManager :=
  {| boot_signingKey := boot_signingKey tm; boot_tokens := ts |}.

(** [NewTokenManager]; [random] is what [rand.Read] delivers. *)
Definition NewBootstrapTokenManager (key : string) (random : option string)
    : result string BootstrapTokenManager :=
  if key =?s "" then
    match random with
    | None => Err "failed to generate signing key"%string
    | Some k => Ok {| boot_signingKey := k; boot_tokens := ∅ |}
    end
  else Ok {| boot_signingKey := key; boot_tokens := ∅ |}.

(** A token with another string and other counters. *)
Definition set_token_string (t : BootstrapToken) (s : string) : BootstrapToken := {|
  bt_ID := bt_ID t; bt_Token := s; bt_NodeID := bt_NodeID t; bt_NodeName := bt_NodeName t;
  bt_Region := bt_Region t; bt_Zone := bt_Zone t; bt_CreatedAt := bt_CreatedAt t;
  bt_ExpiresAt := bt_ExpiresAt t; bt_Used := bt_Used t; bt_UsedAt := bt_UsedAt t;
  bt_UsedBy := bt_UsedBy t; bt_MaxUses := bt_MaxUses t; bt_UseCount := bt_UseCount t |}.

Definition set_uses (t : BootstrapToken) (used : bool) (at_ : Z) (by_ : string) (count : Z)
    : BootstrapToken := {|
  bt_ID := bt_ID t; bt_Token := bt_Token t; bt_NodeID := bt_NodeID t; bt_NodeName := bt_NodeName t;
  bt_Region := bt_Region t; bt_Zone := bt_Zone t; bt_CreatedAt := bt_CreatedAt t;
  bt_ExpiresAt := bt_ExpiresAt t; bt_Used := used; bt_UsedAt := at_; bt_UsedBy := by_;
  bt_MaxUses := bt_MaxUses t; bt_UseCount := count |}.

Section bootstrap.
Context `{BootstrapJWT}.

(** [GenerateToken]; [tokenID] comes from [uuid.New]. *)
Definition GenerateBootstrapToken (tokenID : string) (now : Z) (tm : BootstrapTokenManager)
    (nodeID nodeName region zone : string) (validityDuration maxUses : Z)
    : BootstrapTokenManager * result string BootstrapToken :=
  let validityDuration := if validityDuration <=? 0 then 24 * hour else validityDuration in
  let maxUses := if maxUses <=? 0 then 1 else maxUses in
  let expiresAt := now + validityDuration in
  let claims := {|
    tc_TokenID := tokenID; tc_NodeID := nodeID; tc_NodeName := nodeName; tc_Region := region;
    tc_Zone := zone; tc_MaxUses := maxUses; tc_ID := tokenID;
    tc_Issuer := "cloudless-coordinator"; tc_IssuedAt := now / second * second;
    tc_ExpiresAt := expiresAt / second * second |} in
  match boot_sign (boot_signingKey tm) claims with
  | Err err => (tm, Err ("failed to sign token: " +:+ err))
  | Ok tokenString =>
      let token := {|
        bt_ID := tokenID; bt_Token := tokenString; bt_NodeID := nodeID; bt_NodeName := nodeName;
        bt_Region := region; bt_Zone := zone; bt_CreatedAt := now; bt_ExpiresAt := expiresAt;
        bt_Used := false; bt_UsedAt := zero_time; bt_UsedBy := ""; bt_MaxUses := maxUses;
        bt_UseCount := 0 |} in
      (with_boot_tokens tm (<[tokenID := set_token_string token ""]> (boot_tokens tm)), Ok token)
  end.

(** [ValidateToken] with the clock at parsing and at the check. *)
Definition ValidateBootstrapToken (parsed now : Z) (tm : BootstrapTokenManager)
    (tokenString : string) : result string BootstrapToken :=
  match boot_parse parsed (boot_signingKey tm) tokenString with
  | Err err => Err ("failed to parse token: " +:+ err)
  | Ok claims =>
      match boot_tokens tm !! tc_TokenID claims with
      | None => Err "token not found"%string
      | Some stored =>
          if bt_ExpiresAt stored <? now then Err "token has expired"%string
          else if bt_MaxUses stored <=? bt_UseCount stored then
            Err ("token has reached maximum uses (" +:+ show_Z (bt_UseCount stored) +:+ "/"
                 +:+ show_Z (bt_MaxUses stored) +:+ ")")
          else Ok (set_token_string stored tokenString)
      end
  end.

Definition UseToken (now : Z) (tm : BootstrapTokenManager) (tokenID usedBy : string)
    : BootstrapTokenManager * option string :=
  match boot_tokens tm !! tokenID with
  | None => (tm, Some ("token not found: " +:+ tokenID))
  | Some token =>
      if bt_MaxUses token <=? bt_UseCount token then
        (tm, Some "token has reached maximum uses"%string)
      else
        let count := int64 (bt_UseCount token + 1) in
        let used := if bt_MaxUses token <=? count then true else bt_Used token in
        (with_boot_tokens tm (<[tokenID := set_uses token used now usedBy count]>
           (boot_tokens tm)), None)
  end.

Definition RevokeBootstrapToken (tm : BootstrapTokenManager) (tokenID : string)
    : BootstrapTokenManager * option string :=
  match boot_tokens tm !! tokenID with
  | None => (tm, Some ("token not found: " +:+ tokenID))
  | Some token =>
      (with_boot_tokens tm (<[tokenID := set_uses token true (bt_UsedAt token) (bt_UsedBy token)
         (bt_MaxUses token)]> (boot_tokens tm)), None)
  end.

Definition GetToken (tm : BootstrapTokenManager) (tokenID : string)
    : result string BootstrapToken :=
  match boot_tokens tm !! tokenID with
  | None => Err ("token not found: " +:+ tokenID)
  | Some token => Ok token
  end.

Record TokenInfo := {
  ti_ID : string;
  ti_NodeID : string;
  ti_NodeName : string;
  ti_Region : string;
  ti_Zone : string;
  ti_CreatedAt : Z;
  ti_ExpiresAt : Z;
  ti_Used : bool;
  ti_UseCount : Z;
  ti_MaxUses : Z;
  ti_UsedBy : string;
  ti_UsedAt : Z
}.

Definition GetTokenInfo (tm : BootstrapTokenManager) (tokenID : string) : result string TokenInfo :=
  match GetToken tm tokenID with
  | Err err => Err err
  | Ok t => Ok {| ti_ID := bt_ID t; ti_NodeID := bt_NodeID t; ti_NodeName := bt_NodeName t;
                  ti_Region := bt_Region t; ti_Zone := bt_Zone t; ti_CreatedAt := bt_CreatedAt t;
                  ti_ExpiresAt := bt_ExpiresAt t; ti_Used := bt_Used t;
                  ti_UseCount := bt_UseCount t; ti_MaxUses := bt_MaxUses t;
                  ti_UsedBy := bt_UsedBy t; ti_UsedAt := bt_UsedAt t |}
  end.

Context `{GoRange}.

Definition ListTokens (tm : BootstrapTokenManager) : list BootstrapToken :=
  (range_map (boot_tokens tm)).*2.

(** The loop of [CleanupExpiredTokens]. *)
Definition boot_removable (now : Z) (t : BootstrapToken) : bool :=
  (bt_ExpiresAt t <? now) || (bt_Used t && (bt_MaxUses t <=? bt_UseCount t)).

Definition CleanupBootstrapTokens (now : Z) (tm : BootstrapTokenManager)
    : BootstrapTokenManager * Z :=
  foldl (fun '(g, removed) kt =>
    if boot_removable now kt.2
    then (with_boot_tokens g (delete kt.1 (boot_tokens g)), int64 (removed + 1))
    else (g, removed)) (tm, 0) (range_map (boot_tokens tm)).

End bootstrap.

(** ** Base64 and random token strings *)

Definition base64_digit (n : N) : ascii :=
  if (n <? 26)%N then ascii_of_N (65 + n)
  else if (n <? 52)%N then ascii_of_N (71 + n)
  else if (n <? 62)%N then ascii_of_N (n - 4)
  else if (n =? 62)%N then "-"%char else "_"%char.

(** [base64.URLEncoding.EncodeToString] *)
Fixpoint base64_url (s : string) : string :=
  match s with
  | String a (String b (String c rest)) =>
      let n := (N_of_ascii a * 65536 + N_of_ascii b * 256 + N_of_ascii c)%N in
      String (base64_digit (n / 262144)) (String (base64_digit (n / 4096 mod 64))
        (String (base64_digit (n / 64 mod 64)) (String (base64_digit (n mod 64)) (base64_url rest))))
  | String a (String b EmptyString) =>
      let n := (N_of_ascii a * 1024 + N_of_ascii b * 4)%N in
      String (base64_digit (n / 4096)) (String (base64_digit (n / 64 mod 64))
        (String (base64_digit (n mod 64)) "="))
  | String a EmptyString =>
      let n := (N_of_ascii a * 16)%N in
      String (base64_digit (n / 64)) (String (base64_digit (n mod 64)) "==")
  | EmptyString => EmptyString
  end.

Example base64_text : base64_url "Cloudless?" = "Q2xvdWRsZXNzPw=="%string.
Proof. by vm_compute. Qed.

(** [bytes] answers [rand.Read] for the requested length. *)
Definition GenerateRandomToken (bytes : Z → option string) (length : Z) : result string string :=
  let length := if length <=? 0 then 32 else length in
  match bytes length with
  | None => Err "failed to generate random bytes"%string
  | Some b => Ok (base64_url b)
  end.
