(* ===== verification/Node.v ===== *)
(** * Nodes of the cluster

    The data the membership manager keeps about a node
    (pkg/coordinator/membership/manager.go) and the interface through which
    the scheduler reads it.  [Certificate], an in-memory handle that is not
    serialized and that no modelled operation reads, is left out. *)

From S2P Require Import Prelude GoText GoFloat.

Definition StateEnrolling : string := "enrolling".
Definition StateReady : string := "ready".
Definition StateDraining : string := "draining".
Definition StateCordoned : string := "cordoned".
Definition StateOffline : string := "offline".
Definition StateFailed : string := "failed".

Definition DefaultHeartbeatInterval : Z := 10 * second.
Definition HeartbeatTimeout : Z := 10 * second.
Definition EnrollmentTimeout : Z := 60 * second.

Record NodeCapabilities := {
  ncap_ContainerRuntimes : list string;
  ncap_SupportsGPU : bool;
  ncap_SupportsARM : bool;
  ncap_SupportsX86 : bool;
  ncap_NetworkFeatures : list string;
  ncap_StorageClasses : list string
}.

Record ResourceCapacity := {
  rc_CPUMillicores : Z;
  rc_MemoryBytes : Z;
  rc_StorageBytes : Z;
  rc_BandwidthBPS : Z;
  rc_GPUCount : Z
}.

Record ResourceUsage := {
  ru_CPUMillicores : Z;
  ru_MemoryBytes : Z;
  ru_StorageBytes : Z;
  ru_BandwidthBPS : Z;
  ru_GPUCount : Z;
  ru_CPUPercent : float64;
  ru_MemoryPercent : float64
}.

Record Taint := { taint_Key : string; taint_Value : string; taint_Effect : string }.

Record FragmentInfo := {
  fi_ID : string;
  fi_WorkloadID : string;
  fi_Resources : ResourceCapacity;
  fi_State : string
}.

Record ContainerInfo := {
  ci_ID : string;
  ci_WorkloadID : string;
  ci_State : string;
  ci_StartedAt : Z;
  ci_Usage : ResourceUsage
}.

Record NetworkInfo := {
  ni_PrivateIP : string;
  ni_PublicIP : string;
  ni_Hostname : string;
  ni_DNSNames : list string;
  ni_OverlayIP : string;
  ni_ListenAddress : string
}.

Record NodeCondition := {
  nc_Type : string;
  nc_Status : string;
  nc_Reason : string;
  nc_Message : string;
  nc_LastTransition : Z
}.

Record NodeInfo := {
  node_ID : string;
  node_Name : string;
  node_Region : string;
  node_Zone : string;
  node_State : string;
  node_LastHeartbeat : Z;
  node_EnrolledAt : Z;
  node_JoinStartedAt : Z;
  node_JoinConvergedAt : Z;
  node_LeaveStartedAt : Z;
  node_LeaveConvergedAt : Z;
  node_Capabilities : NodeCapabilities;
  node_Capacity : ResourceCapacity;
  node_Usage : ResourceUsage;
  node_Labels : gmap string string;
  node_Taints : list Taint;
  node_ReliabilityScore : float64;
  node_Fragments : list FragmentInfo;
  node_Containers : list ContainerInfo;
  node_NetworkInfo : NetworkInfo;
  node_Conditions : list NodeCondition;
  node_HeartbeatInterval : Z
}.

#[export] Instance float64_eq_dec : EqDecision float64.
Proof. solve_decision. Defined.
#[export] Instance node_capabilities_eq_dec : EqDecision NodeCapabilities.
Proof. solve_decision. Defined.
#[export] Instance resource_capacity_eq_dec : EqDecision ResourceCapacity.
Proof. solve_decision. Defined.
#[export] Instance resource_usage_eq_dec : EqDecision ResourceUsage.
Proof. solve_decision. Defined.
#[export] Instance taint_eq_dec : EqDecision Taint.
Proof. solve_decision. Defined.
#[export] Instance fragment_info_eq_dec : EqDecision FragmentInfo.
Proof. solve_decision. Defined.
#[export] Instance container_info_eq_dec : EqDecision ContainerInfo.
Proof. solve_decision. Defined.
#[export] Instance network_info_eq_dec : EqDecision NetworkInfo.
Proof. solve_decision. Defined.
#[export] Instance node_condition_eq_dec : EqDecision NodeCondition.
Proof. solve_decision. Defined.
#[export] Instance node_info_eq_dec : EqDecision NodeInfo.
Proof. solve_decision. Defined.

#[export] Instance eta_NodeInfo : Eta NodeInfo := fun n =>
  Build_NodeInfo (node_ID n) (node_Name n) (node_Region n) (node_Zone n) (node_State n)
    (node_LastHeartbeat n) (node_EnrolledAt n) (node_JoinStartedAt n) (node_JoinConvergedAt
    n) (node_LeaveStartedAt n) (node_LeaveConvergedAt n) (node_Capabilities n)
    (node_Capacity n) (node_Usage n) (node_Labels n) (node_Taints n) (node_ReliabilityScore
    n) (node_Fragments n) (node_Containers n) (node_NetworkInfo n) (node_Conditions n)
    (node_HeartbeatInterval n).

(** What the scheduler calls of the membership manager, [ListNodes(nil)], and
    what the manager promises: the nodes it knows, each under its own
    identifier. *)
Class NodeLister (M : Type) : Type := {
  ListNodes : M → result string (list NodeInfo)
}.

Class NodeListerLaws (M : Type) `{NodeLister M} : Prop := {
  ListNodes_NoDup : ∀ m nodes, ListNodes m = Ok nodes → NoDup (node_ID <$> nodes)
}.

(** ** Free resources of a node *)

Definition free_cpu (n : NodeInfo) : Z :=
  int64 (rc_CPUMillicores (node_Capacity n) - ru_CPUMillicores (node_Usage n)).
Definition free_memory (n : NodeInfo) : Z :=
  int64 (rc_MemoryBytes (node_Capacity n) - ru_MemoryBytes (node_Usage n)).
Definition free_storage (n : NodeInfo) : Z :=
  int64 (rc_StorageBytes (node_Capacity n) - ru_StorageBytes (node_Usage n)).

(** Key/value requirements on labels, as placement, affinity and policy
    selectors test them: every required label is present with its value. *)
Definition labels_match `{GoRange} (required labels : gmap string string) : bool :=
  forallb (fun kv => match labels !! kv.1 with
                     | Some v => v =?s kv.2
                     | None => false
                     end) (range_map required).

(** [labels_match] is inclusion of maps, whatever the iteration order. *)
Lemma labels_match_spec `{GoRange} required labels :
  labels_match required labels = true ↔ required ⊆ labels.
Proof.
  unfold labels_match. rewrite forallb_forall', map_subseteq_spec. split.
  - intros Hall k v Hk. apply elem_of_range_map in Hk. specialize (Hall _ Hk). simpl in Hall.
    destruct (labels !! k); [|done]. by bool_to_prop; subst.
  - intros Hsub [k v] Hk%elem_of_range_map. simpl. rewrite (Hsub _ _ Hk).
    by apply bool_decide_eq_true_2.
Qed.
