(* ===== verification/NodeHealth.v ===== *)
(** * Health records and reliability scores of nodes
    (pkg/coordinator/membership/health.go, scoring.go)

    [HealthMonitor] counts heartbeats and misses; [ScoringEngine] turns what is
    known of a node into a score.  Clock readings are arguments. *)

From S2P Require Import Prelude GoText GoFloat Node.

(** ** The health monitor *)

Record HealthEvent := {
  he_Timestamp : Z;
  he_FromState : string;
  he_ToState : string;
  he_Reason : string
}.

Record HealthRecord := {
  hr_NodeID : string;
  hr_ConsecutiveMisses : Z;
  hr_LastHealthy : Z;
  hr_LastUnhealthy : Z;
  hr_TotalHeartbeats : Z;
  hr_MissedHeartbeats : Z;
  hr_Uptime : Z;
  hr_DownTime : Z;
  hr_LastTransition : Z;
  hr_CurrentState : string;
  hr_HealthHistory : list HealthEvent
}.

#[export] Instance eta_HealthRecord : Eta HealthRecord := fun r =>
  Build_HealthRecord (hr_NodeID r) (hr_ConsecutiveMisses r) (hr_LastHealthy r) (hr_LastUnhealthy r)
    (hr_TotalHeartbeats r) (hr_MissedHeartbeats r) (hr_Uptime r) (hr_DownTime r)
    (hr_LastTransition r) (hr_CurrentState r) (hr_HealthHistory r).

Record HealthMonitor := {
  hm_heartbeatTimeout : Z;
  hm_records : gmap string HealthRecord
}.

Definition NewHealthMonitor (heartbeatTimeout : Z) : HealthMonitor :=
  {| hm_heartbeatTimeout := heartbeatTimeout; hm_records := ∅ |}.

Definition new_record (nodeID state : string) (lastHealthy : Z) : HealthRecord :=
  {| hr_NodeID := nodeID; hr_ConsecutiveMisses := 0; hr_LastHealthy := lastHealthy;
     hr_LastUnhealthy := zero_time; hr_TotalHeartbeats := 0; hr_MissedHeartbeats := 0;
     hr_Uptime := 0; hr_DownTime := 0; hr_LastTransition := zero_time;
     hr_CurrentState := state; hr_HealthHistory := [] |}.

(** The history keeps the last 100 events. *)
Definition recordTransition (now : Z) (r : HealthRecord) (from to reason : string) : HealthRecord :=
  let history := hr_HealthHistory r ++
    [{| he_Timestamp := now; he_FromState := from; he_ToState := to; he_Reason := reason |}] in
  let history := if 100 <? len history then drop (Z.to_nat (len history - 100)) history
                 else history in
  r <| hr_HealthHistory := history |> <| hr_LastTransition := now |>.

Definition set_record (h : HealthMonitor) (nodeID : string) (r : HealthRecord) : HealthMonitor :=
  {| hm_heartbeatTimeout := hm_heartbeatTimeout h;
     hm_records := <[nodeID := r]> (hm_records h) |}.

(** [clock] gives the readings in the order the code takes them. *)
Definition RecordHeartbeat (clock : nat → Z) (h : HealthMonitor) (nodeID : string) : HealthMonitor :=
  let r := default (new_record nodeID "healthy" (clock 0%nat)) (hm_records h !! nodeID) in
  let now := clock 1%nat in
  let r := r <| hr_LastHealthy := now |> <| hr_TotalHeartbeats := int64 (hr_TotalHeartbeats r + 1) |>
             <| hr_ConsecutiveMisses := 0 |> in
  let r :=
    if negb (hr_CurrentState r =?s "healthy") then
      let r := recordTransition (clock 2%nat) r (hr_CurrentState r) "healthy" "Heartbeat received" in
      if negb (hr_LastUnhealthy r =? zero_time) then
        r <| hr_DownTime := int64 (hr_DownTime r + time_Sub now (hr_LastUnhealthy r)) |>
      else r
    else r in
  set_record h nodeID (r <| hr_CurrentState := "healthy"%string |>).

(** The state by the number of heartbeats missed in a row. *)
Definition state_of_misses (misses : Z) : string :=
  if 6 <=? misses then "failed"
  else if 3 <=? misses then "unhealthy"
  else if 1 <=? misses then "degraded"
  else "healthy".

Definition RecordMiss (clock : nat → Z) (h : HealthMonitor) (nodeID : string) : HealthMonitor :=
  let r := default (new_record nodeID "unknown" zero_time) (hm_records h !! nodeID) in
  let now := clock 0%nat in
  let r := r <| hr_ConsecutiveMisses := int64 (hr_ConsecutiveMisses r + 1) |>
             <| hr_MissedHeartbeats := int64 (hr_MissedHeartbeats r + 1) |>
             <| hr_LastUnhealthy := now |> in
  let newState := state_of_misses (hr_ConsecutiveMisses r) in
  let r :=
    if negb (newState =?s hr_CurrentState r) then
      let r := recordTransition (clock 1%nat) r (hr_CurrentState r) newState "Missed heartbeats" in
      if (hr_CurrentState r =?s "healthy") && negb (hr_LastHealthy r =? zero_time) then
        r <| hr_Uptime := int64 (hr_Uptime r + time_Sub now (hr_LastHealthy r)) |>
      else r
    else r in
  set_record h nodeID (r <| hr_CurrentState := newState |>).

Definition GetHealthStatus (h : HealthMonitor) (nodeID : string) : string :=
  match hm_records h !! nodeID with None => "unknown" | Some r => hr_CurrentState r end.

Definition GetHealthRecord (h : HealthMonitor) (nodeID : string) : option HealthRecord :=
  hm_records h !! nodeID.

Definition GetAvailability (h : HealthMonitor) (nodeID : string) : float64 :=
  match hm_records h !! nodeID with
  | None => f0
  | Some r =>
      if hr_TotalHeartbeats r =? 0 then f0
      else
        let rate := fdiv (f_of_Z (int64 (hr_TotalHeartbeats r - hr_MissedHeartbeats r)))
                      (f_of_Z (hr_TotalHeartbeats r)) in
        fmul rate (f_of_Z 100)
  end.

Section monitor_loops.
Context `{GoRange}.

Definition old_record (now maxAge : Z) (r : HealthRecord) : bool :=
  let lastSeen := if hr_LastHealthy r <? hr_LastUnhealthy r then hr_LastUnhealthy r
                  else hr_LastHealthy r in
  maxAge <? time_Sub now lastSeen.

Definition CleanupOldRecords (now maxAge : Z) (h : HealthMonitor) : HealthMonitor * Z :=
  foldl (fun '(g, removed) kr =>
    if old_record now maxAge kr.2
    then ({| hm_heartbeatTimeout := hm_heartbeatTimeout g;
             hm_records := delete kr.1 (hm_records g) |}, int64 (removed + 1))
    else (g, removed)) (h, 0) (range_map (hm_records h)).

Definition GetUnhealthyNodes (h : HealthMonitor) : list string :=
  (List.filter (fun kr => negb (hr_CurrentState kr.2 =?s "healthy")) (range_map (hm_records h))).*1.

Record HealthStats := {
  hs_TotalNodes : Z;
  hs_HealthyNodes : Z;
  hs_DegradedNodes : Z;
  hs_UnhealthyNodes : Z;
  hs_FailedNodes : Z;
  hs_UnknownNodes : Z
}.

#[local] Instance eta_HealthStats : Eta HealthStats := fun s =>
  Build_HealthStats (hs_TotalNodes s) (hs_HealthyNodes s) (hs_DegradedNodes s)
    (hs_UnhealthyNodes s) (hs_FailedNodes s) (hs_UnknownNodes s).

Definition count_record (s : HealthStats) (r : HealthRecord) : HealthStats :=
  let st := hr_CurrentState r in
  if st =?s "healthy" then s <| hs_HealthyNodes := int64 (hs_HealthyNodes s + 1) |>
  else if st =?s "degraded" then s <| hs_DegradedNodes := int64 (hs_DegradedNodes s + 1) |>
  else if st =?s "unhealthy" then s <| hs_UnhealthyNodes := int64 (hs_UnhealthyNodes s + 1) |>
  else if st =?s "failed" then s <| hs_FailedNodes := int64 (hs_FailedNodes s + 1) |>
  else s <| hs_UnknownNodes := int64 (hs_UnknownNodes s + 1) |>.

Definition GetHealthStats (h : HealthMonitor) : HealthStats :=
  foldl count_record
    {| hs_TotalNodes := Z.of_nat (size (hm_records h)); hs_HealthyNodes := 0; hs_DegradedNodes := 0;
       hs_UnhealthyNodes := 0; hs_FailedNodes := 0; hs_UnknownNodes := 0 |}
    (range_map (hm_records h)).*2.

End monitor_loops.

(** ** The scoring engine *)

Record ScoringEngine := {
  uptimeWeight : float64;
  responseTimeWeight : float64;
  successRateWeight : float64;
  capacityWeight : float64;
  stabilityWeight : float64
}.

Definition NewScoringEngine : ScoringEngine :=
  {| uptimeWeight := flit 3 10; responseTimeWeight := flit 2 10; successRateWeight := flit 2 10;
     capacityWeight := flit 15 100; stabilityWeight := flit 15 100 |}.

Definition calculateUptimeScore (now : Z) (node : NodeInfo) : float64 :=
  let uptime := time_Sub now (node_EnrolledAt node) in
  if uptime <? hour then flit 5 10
  else
    let since := time_Sub now (node_LastHeartbeat node) in
    let score := if since <? 15 * second then f1
                 else if since <? 30 * second then flit 9 10
                 else if since <? 60 * second then flit 7 10
                 else if since <? 5 * minute then flit 5 10
                 else flit 1 10 in
    let score := if 24 * hour <? uptime then fadd score (flit 1 10) else score in
    let score := if 7 * 24 * hour <? uptime then fadd score (flit 1 10) else score in
    math_Min score f1.

Definition calculateResponseScore (now : Z) (node : NodeInfo) : float64 :=
  let since := time_Sub now (node_LastHeartbeat node) in
  let expected := node_HeartbeatInterval node in
  if since <=? expected then f1
  else if since <=? int64 (expected * 2) then flit 8 10
  else if since <=? int64 (expected * 3) then flit 6 10
  else flit 3 10.

Definition container_ok (c : ContainerInfo) : bool :=
  (ci_State c =?s "running") || (ci_State c =?s "succeeded").
Definition container_failed (c : ContainerInfo) : bool :=
  (ci_State c =?s "failed") || (ci_State c =?s "error") || (ci_State c =?s "crashed").

Definition calculateSuccessScore (node : NodeInfo) : float64 :=
  if len (node_Containers node) =? 0 then f1
  else
    let successful := len (List.filter container_ok (node_Containers node)) in
    let failed := len (List.filter container_failed (node_Containers node)) in
    let total := int64 (successful + failed) in
    if total =? 0 then f1 else fdiv (f_of_Z successful) (f_of_Z total).

Definition utilizationToScore (utilization : float64) : float64 :=
  if flt utilization (flit 3 10) then flit 7 10
  else if flt utilization (flit 5 10) then flit 9 10
  else if flt utilization (flit 7 10) then f1
  else if flt utilization (flit 85 100) then flit 8 10
  else if flt utilization (flit 95 100) then flit 5 10
  else flit 2 10.

Definition calculateCapacityScore (node : NodeInfo) : float64 :=
  let cap := node_Capacity node in
  if (rc_CPUMillicores cap =? 0) || (rc_MemoryBytes cap =? 0) then f0
  else
    let cpu := fdiv (f_of_Z (ru_CPUMillicores (node_Usage node))) (f_of_Z (rc_CPUMillicores cap)) in
    let mem := fdiv (f_of_Z (ru_MemoryBytes (node_Usage node))) (f_of_Z (rc_MemoryBytes cap)) in
    fdiv (fadd (utilizationToScore cpu) (utilizationToScore mem)) (f_of_Z 2).

Definition condition_penalty (score : float64) (c : NodeCondition) : float64 :=
  if nc_Status c =?s "True" then
    if nc_Type c =?s "MemoryPressure" then fsub score (flit 3 10)
    else if nc_Type c =?s "DiskPressure" then fsub score (flit 3 10)
    else if nc_Type c =?s "NetworkUnavailable" then fsub score (flit 5 10)
    else if nc_Type c =?s "CPUPressure" then fsub score (flit 2 10)
    else score
  else score.

Definition calculateStabilityScore (node : NodeInfo) : float64 :=
  let score := foldl condition_penalty f1 (node_Conditions node) in
  let st := node_State node in
  let score := if st =?s StateReady then score
               else if st =?s StateEnrolling then fsub score (flit 2 10)
               else if (st =?s StateDraining) || (st =?s StateCordoned) then fsub score (flit 5 10)
               else if (st =?s StateOffline) || (st =?s StateFailed) then f0
               else score in
  math_Max score f0.

Definition applyPenalties (now : Z) (node : NodeInfo) (score : float64) : float64 :=
  let score := fsub score (fmul (f_of_Z (len (node_Taints node))) (flit 1 10)) in
  let score := if ni_PublicIP (node_NetworkInfo node) =?s "" then fsub score (flit 1 10) else score in
  if time_Sub now (node_EnrolledAt node) <? 10 * minute then fmul score (flit 8 10) else score.

(** The clock is read three times. *)
Record ScoreClock := { at_uptime : Z; at_response : Z; at_penalty : Z }.

Definition CalculateReliability (c : ScoreClock) (s : ScoringEngine) (node : option NodeInfo)
    : float64 :=
  match node with
  | None => f0
  | Some node =>
      let total :=
        fadd (fadd (fadd (fadd (fmul (calculateUptimeScore (at_uptime c) node) (uptimeWeight s))
                               (fmul (calculateResponseScore (at_response c) node)
                                     (responseTimeWeight s)))
                         (fmul (calculateSuccessScore node) (successRateWeight s)))
                   (fmul (calculateCapacityScore node) (capacityWeight s)))
             (fmul (calculateStabilityScore node) (stabilityWeight s)) in
      let total := applyPenalties (at_penalty c) node total in
      if flt total f0 then f0 else if flt f1 total then f1 else total
  end.

Definition CompareNodes (ca cb : ScoreClock) (s : ScoringEngine) (a b : option NodeInfo) : Z :=
  let scoreA := CalculateReliability ca s a in
  let scoreB := CalculateReliability cb s b in
  if flt scoreB scoreA then 1 else if flt scoreA scoreB then -1 else 0.

Definition GetRecommendation (score : float64) : string :=
  if fle (flit 9 10) score then "Excellent - Ideal for critical workloads"
  else if fle (flit 75 100) score then "Good - Suitable for most workloads"
  else if fle (flit 6 10) score then "Fair - Suitable for non-critical workloads"
  else if fle (flit 4 10) score then "Poor - Use only for testing or low-priority tasks"
  else "Unreliable - Not recommended for workloads".

Definition AdjustWeights (uptime response success capacity stability : float64) : ScoringEngine :=
  let total := fadd (fadd (fadd (fadd uptime response) success) capacity) stability in
  {| uptimeWeight := fdiv uptime total; responseTimeWeight := fdiv response total;
     successRateWeight := fdiv success total; capacityWeight := fdiv capacity total;
     stabilityWeight := fdiv stability total |}.

(** ** The status of a node is how many heartbeats it missed in a row *)

Inductive health_event : Set := Heartbeat | Miss.

(** What the monitor is told of the nodes, with the clock readings. *)
Definition health_step (h : HealthMonitor) (e : string * health_event * (nat → Z)) : HealthMonitor :=
  match e with
  | (id, Heartbeat, clock) => RecordHeartbeat clock h id
  | (id, Miss, clock) => RecordMiss clock h id
  end.

(** The misses of a node since its last heartbeat; none when it was never
    heard of. *)
Definition count_event (id : string) (n : option Z) (e : string * health_event * (nat → Z))
    : option Z :=
  match e with
  | (id', Heartbeat, _) => if decide (id' = id) then Some 0 else n
  | (id', Miss, _) => if decide (id' = id) then Some (default 0 n + 1) else n
  end.

Definition trailing_misses (id : string) (es : list (string * health_event * (nat → Z)))
    : option Z := foldl (count_event id) None es.

(** A record that agrees with the count. *)
Definition record_ok (n : option Z) (r : option HealthRecord) : Prop :=
  match n, r with
  | None, None => True
  | Some n, Some r => hr_ConsecutiveMisses r = n ∧ hr_CurrentState r = state_of_misses n ∧
                      len (hr_HealthHistory r) ≤ 100
  | _, _ => False
  end.

(** Whatever is appended, the history is cut to 100 events. *)
Ltac bounded_history :=
  unfold record_ok; repeat case_match; simpl; split_and!; try done; repeat case_match; try done;
  bool_to_prop; unfold len in *; rewrite ?length_drop, ?length_app in *; simpl in *; lia.

Lemma RecordHeartbeat_ok clock h id n :
  record_ok n (hm_records h !! id) →
  record_ok (Some 0) (hm_records (RecordHeartbeat clock h id) !! id).
Proof.
  intros Hr. unfold RecordHeartbeat. simpl. rewrite lookup_insert_eq.
  set (r := default _ _). assert (len (hr_HealthHistory r) ≤ 100) as Hlen.
  { unfold r. destruct n, (hm_records h !! id); simpl in *; try done; lia. }
  bounded_history.
Qed.

Lemma RecordMiss_ok clock h id n :
  0 ≤ default 0 n < 2 ^ 62 → record_ok n (hm_records h !! id) →
  record_ok (Some (default 0 n + 1)) (hm_records (RecordMiss clock h id) !! id).
Proof.
  intros Hn Hr. unfold RecordMiss. simpl. rewrite lookup_insert_eq.
  set (r := default _ _).
  assert (len (hr_HealthHistory r) ≤ 100 ∧ hr_ConsecutiveMisses r = default 0 n) as [Hlen Hc].
  { unfold r. destruct n, (hm_records h !! id); simpl in *; unfold len in *; simpl; try done; naive_solver lia. }
  rewrite Hc, (int64_id (default 0 n + 1)) by (unfold in_int64; lia).
  bounded_history.
Qed.

Lemma health_step_other h e id :
  e.1.1 ≠ id → hm_records (health_step h e) !! id = hm_records h !! id.
Proof. destruct e as [[j []] clock]; simpl; intros; by rewrite lookup_insert_ne. Qed.

Lemma trailing_bounds id es : 0 ≤ default 0 (trailing_misses id es) ≤ len es.
Proof.
  unfold trailing_misses, len. induction es as [|e es IH] using rev_ind; simpl; [lia|].
  rewrite foldl_app, length_app. simpl. unfold count_event at 1 3.
  destruct e as [[j []] clock]; case_decide; simpl; lia.
Qed.

Lemma health_run id es :
  len es < 2 ^ 62 →
  record_ok (trailing_misses id es) (hm_records (foldl health_step (NewHealthMonitor HeartbeatTimeout) es) !! id).
Proof.
  unfold trailing_misses. induction es as [|e es IH] using rev_ind; intros Hlen; [done|].
  unfold len in Hlen. rewrite length_app in Hlen. simpl in Hlen. rewrite !foldl_app. simpl.
  assert (len es < 2 ^ 62) as Hes by (unfold len; lia). specialize (IH Hes).
  destruct (decide (e.1.1 = id)) as [Hid|Hid].
  - destruct e as [[j []] clock]; simpl in *; subst j; rewrite decide_True by done.
    + by eapply RecordHeartbeat_ok.
    + apply RecordMiss_ok; [|done]. pose proof (trailing_bounds id es). unfold trailing_misses in *. lia.
  - rewrite health_step_other by done. destruct e as [[j []] clock]; simpl in *;
      by rewrite decide_False.
Qed.

(** After any sequence of heartbeats and misses the status of a node is
    [unknown] when it was never mentioned and is otherwise decided by the
    number of misses since its last heartbeat: healthy, degraded from one,
    unhealthy from three, failed from six; the other nodes have no influence.
    The history of a record never exceeds 100 events. *)
Theorem health_status_spec id es :
  len es < 2 ^ 62 →
  let h := foldl health_step (NewHealthMonitor HeartbeatTimeout) es in
  GetHealthStatus h id =
    match trailing_misses id es with None => "unknown" | Some n => state_of_misses n end ∧
  ∀ r, GetHealthRecord h id = Some r → len (hr_HealthHistory r) ≤ 100.
Proof.
  intros Hlen h. pose proof (health_run id es Hlen) as Hr. fold h in Hr.
  unfold GetHealthStatus, GetHealthRecord.
  destruct (trailing_misses id es), (hm_records h !! id); simpl in Hr; try done.
  destruct Hr as (_ & Hs & Hl). split; [done|]. by intros r [= <-].
Qed.

Lemma health_status_spec_witness :
  let es := [("a", Heartbeat, fun _ => 0); ("a", Miss, fun _ => 1); ("b", Heartbeat, fun _ => 2);
             ("a", Miss, fun _ => 3); ("a", Miss, fun _ => 4)]%string in
  GetHealthStatus (foldl health_step (NewHealthMonitor HeartbeatTimeout) es) "a" = "unhealthy"%string.
Proof.
  intros es. destruct (health_status_spec "a" es) as [H _]; [vm_compute; reflexivity|exact H].
Defined.

(** Misses are not counted among the total heartbeats they are subtracted
    from: a node that was heard once and missed three times has an
    availability of minus 200 percent. *)
Example availability_below_zero :
  let h := foldl health_step (NewHealthMonitor HeartbeatTimeout)
    [("a", Heartbeat, fun _ => 0); ("a", Miss, fun _ => 1); ("a", Miss, fun _ => 2);
     ("a", Miss, fun _ => 3)]%string in
  GetAvailability h "a" = f_of_Z (-200).
Proof. by vm_compute. Qed.
