(* ===== verification/Scorer.v ===== *)
(** * Node scoring

    The workload types of pkg/scheduler/scheduler.go and the scorer of
    pkg/scheduler/scorer.go, in binary64 arithmetic without fused
    multiply-add.  A floating-point literal [0.1] is [flit 1 10]. *)

From S2P Require Import Prelude GoText GoFloat Node.

(** ** Workloads *)

Record ResourceSpec := {
  rs_CPUMillicores : Z;
  rs_MemoryBytes : Z;
  rs_StorageBytes : Z;
  rs_BandwidthBPS : Z;
  rs_GPUCount : Z
}.

Record ResourceRequirements := { rr_Requests : ResourceSpec; rr_Limits : ResourceSpec }.

Record AffinityRule := {
  aff_Type : string;
  aff_MatchLabels : gmap string string;
  aff_TopologyKey : string;
  aff_Required : bool;
  aff_Weight : Z
}.

Record Toleration := {
  tol_Key : string;
  tol_Value : string;
  tol_Operator : string;
  tol_Effect : string
}.

Record PlacementPolicy := {
  pp_Regions : list string;
  pp_Zones : list string;
  pp_NodeSelector : gmap string string;
  pp_Affinity : list AffinityRule;
  pp_AntiAffinity : list AffinityRule;
  pp_Tolerations : list Toleration;
  pp_SpreadTopology : string
}.

Record RestartPolicy := { rp_Policy : string; rp_MaxRetries : Z; rp_Backoff : Z }.

Record RolloutStrategy := {
  ro_Strategy : string;
  ro_MaxSurge : Z;
  ro_MaxUnavailable : Z;
  ro_MinAvailable : Z;
  ro_PauseDuration : Z
}.

(** [Annotations] is [None] for the nil map. *)
Record WorkloadSpec := {
  w_ID : string;
  w_Name : string;
  w_Namespace : string;
  w_Replicas : Z;
  w_Resources : ResourceRequirements;
  w_PlacementPolicy : PlacementPolicy;
  w_RestartPolicy : RestartPolicy;
  w_RolloutStrategy : RolloutStrategy;
  w_Priority : Z;
  w_Labels : gmap string string;
  w_Annotations : option (gmap string string)
}.

(** ** The scorer *)

Record ScorerConfig := {
  sc_LocalityWeight : float64;
  sc_ReliabilityWeight : float64;
  sc_CostWeight : float64;
  sc_UtilizationWeight : float64;
  sc_NetworkPenaltyWeight : float64
}.

Record ScoreComponents := {
  LocalityScore : float64;
  ReliabilityScore : float64;
  CostScore : float64;
  UtilizationScore : float64;
  NetworkPenalty : float64
}.

Record ScoredNode := {
  sn_Node : NodeInfo;
  sn_Score : float64;
  sn_Components : ScoreComponents
}.

Definition total_weight (c : ScorerConfig) : float64 :=
  fadd (fadd (fadd (fadd (sc_LocalityWeight c) (sc_ReliabilityWeight c))
    (sc_CostWeight c)) (sc_UtilizationWeight c)) (sc_NetworkPenaltyWeight c).

Definition divide_weights (c : ScorerConfig) (total : float64) : ScorerConfig := {|
  sc_LocalityWeight := fdiv (sc_LocalityWeight c) total;
  sc_ReliabilityWeight := fdiv (sc_ReliabilityWeight c) total;
  sc_CostWeight := fdiv (sc_CostWeight c) total;
  sc_UtilizationWeight := fdiv (sc_UtilizationWeight c) total;
  sc_NetworkPenaltyWeight := fdiv (sc_NetworkPenaltyWeight c) total
|}.

Definition default_weights : ScorerConfig := {|
  sc_LocalityWeight := flit 25 100;
  sc_ReliabilityWeight := flit 30 100;
  sc_CostWeight := flit 15 100;
  sc_UtilizationWeight := flit 20 100;
  sc_NetworkPenaltyWeight := flit 10 100
|}.

(** [NewScorer]; the scorer's state is its configuration. *)
Definition NewScorer (config : ScorerConfig) : ScorerConfig :=
  let total := total_weight config in
  if flt f0 total then divide_weights config total else default_weights.

(** The index of the first match, as [for i, region := range regions] finds it. *)
Fixpoint index_of (x : string) (l : list string) (i : Z) : option Z :=
  match l with
  | [] => None
  | y :: l' => if x =?s y then Some i else index_of x l' (i + 1)
  end.

Definition calculateLocalityScore (node : NodeInfo) (workload : WorkloadSpec) : float64 :=
  let policy := w_PlacementPolicy workload in
  let score :=
    if 0 <? len (pp_Regions policy) then
      match index_of (node_Region node) (pp_Regions policy) 0 with
      | Some i => fsub (flit 1 1) (fmul (f_of_Z i) (flit 1 10))
      | None => flit 5 10
      end
    else flit 7 10 in
  let score :=
    if 0 <? len (pp_Zones policy) then
      if existsb (fun zone => node_Zone node =?s zone) (pp_Zones policy)
      then fadd score (flit 2 10) else fsub score (flit 2 10)
    else score in
  clamp01 score.

(** The adjustment of one node condition. *)
Definition adjust_condition (baseScore : float64) (condition : NodeCondition) : float64 :=
  if nc_Status condition =?s "True" then
    if nc_Type condition =?s "MemoryPressure" then fsub baseScore (flit 2 10)
    else if nc_Type condition =?s "DiskPressure" then fsub baseScore (flit 2 10)
    else if nc_Type condition =?s "NetworkUnavailable" then fsub baseScore (flit 4 10)
    else if nc_Type condition =?s "Ready" then fadd baseScore (flit 1 10)
    else baseScore
  else baseScore.

Definition calculateReliabilityScore (node : NodeInfo) : float64 :=
  let baseScore := foldl adjust_condition (node_ReliabilityScore node) (node_Conditions node) in
  let baseScore :=
    if node_State node =?s StateReady then baseScore
    else if node_State node =?s StateEnrolling then fmul baseScore (flit 5 10)
    else f0 in
  clamp01 baseScore.

Definition calculateCostScore (node : NodeInfo) (workload : WorkloadSpec) : float64 :=
  let cap := node_Capacity node in
  let req := rr_Requests (w_Resources workload) in
  if (rc_CPUMillicores cap =? 0) || (rc_MemoryBytes cap =? 0) then f0
  else
    let cpuRatio := fdiv (f_of_Z (rs_CPUMillicores req)) (f_of_Z (rc_CPUMillicores cap)) in
    let memRatio := fdiv (f_of_Z (rs_MemoryBytes req)) (f_of_Z (rc_MemoryBytes cap)) in
    let avgRatio := fdiv (fadd cpuRatio memRatio) (f_of_Z 2) in
    let score :=
      if flt avgRatio (flit 1 10) then flit 7 10
      else if flt avgRatio (flit 3 10) then flit 1 1
      else if flt avgRatio (flit 5 10) then flit 8 10
      else if flt avgRatio (flit 7 10) then flit 6 10
      else flit 3 10 in
    let score :=
      if (0 <? rc_GPUCount cap) && (rs_GPUCount req =? 0)
      then fsub score (flit 3 10) else score in
    clamp01 score.

Definition calculateUtilizationScore (node : NodeInfo) (workload : WorkloadSpec) : float64 :=
  let cap := node_Capacity node in
  let usage := node_Usage node in
  let req := rr_Requests (w_Resources workload) in
  if (rc_CPUMillicores cap =? 0) || (rc_MemoryBytes cap =? 0) then f0
  else
    let capCPU := f_of_Z (rc_CPUMillicores cap) in
    let capMem := f_of_Z (rc_MemoryBytes cap) in
    let usedCPU := f_of_Z (ru_CPUMillicores usage) in
    let usedMem := f_of_Z (ru_MemoryBytes usage) in
    let currentCPUUtil := fdiv usedCPU capCPU in
    let currentMemUtil := fdiv usedMem capMem in
    let futureCPUUtil := fdiv (fadd usedCPU (f_of_Z (rs_CPUMillicores req))) capCPU in
    let futureMemUtil := fdiv (fadd usedMem (f_of_Z (rs_MemoryBytes req))) capMem in
    if flt (flit 1 1) futureCPUUtil || flt (flit 1 1) futureMemUtil then f0
    else
      let targetUtil := flit 65 100 in
      let cpuDiff := math_Abs (fsub futureCPUUtil targetUtil) in
      let memDiff := math_Abs (fsub futureMemUtil targetUtil) in
      let avgDiff := fdiv (fadd cpuDiff memDiff) (f_of_Z 2) in
      let score := fsub (flit 1 1) avgDiff in
      let currentBalance := math_Abs (fsub currentCPUUtil currentMemUtil) in
      let futureBalance := math_Abs (fsub futureCPUUtil futureMemUtil) in
      let score := if flt futureBalance currentBalance then fadd score (flit 1 10) else score in
      let score :=
        if flt (flit 9 10) futureCPUUtil || flt (flit 9 10) futureMemUtil
        then fsub score (flit 3 10) else score in
      clamp01 score.

Section scorer.
Context `{GoRange}.

(** The bandwidth part of the penalty. *)
Definition bandwidth_penalty (node : NodeInfo) (workload : WorkloadSpec) (penalty : float64)
    : float64 :=
  if 0 <? rc_BandwidthBPS (node_Capacity node) then
    let availableBandwidth :=
      int64 (rc_BandwidthBPS (node_Capacity node) - ru_BandwidthBPS (node_Usage node)) in
    let requiredBandwidth := rs_BandwidthBPS (rr_Requests (w_Resources workload)) in
    if 0 <? requiredBandwidth then
      if availableBandwidth <? requiredBandwidth then
        let deficitRatio :=
          fsub (flit 1 1) (fdiv (f_of_Z availableBandwidth) (f_of_Z requiredBandwidth)) in
        fadd penalty (fmul deficitRatio (flit 5 10))
      else penalty
    else penalty
  else penalty.

(** The loop over the node selector that looks for missing network features. *)
Definition feature_penalty (node : NodeInfo) (penalty : float64) (kv : string * string) : float64 :=
  if HasPrefix kv.1 "network.feature/" && (kv.2 =?s "required") then
    let featureName := TrimPrefix kv.1 "network.feature/" in
    if existsb (fun f => f =?s featureName) (ncap_NetworkFeatures (node_Capabilities node))
    then penalty else fadd penalty (flit 3 10)
  else penalty.

Definition calculateNetworkPenalty (node : NodeInfo) (workload : WorkloadSpec) : float64 :=
  let policy := w_PlacementPolicy workload in
  let penalty := bandwidth_penalty node workload f0 in
  let penalty :=
    match w_Annotations workload with
    | Some ann =>
        if default EmptyString (ann !! "network.requirePublicIP"%string) =?s "true" then
          if ni_PublicIP (node_NetworkInfo node) =?s "" then fadd penalty (flit 1 10) else penalty
        else penalty
    | None => penalty
    end in
  let penalty :=
    foldl (fun p c => if (nc_Type c =?s "NetworkUnavailable") && (nc_Status c =?s "True")
                      then fadd p (flit 1 1) else p) penalty (node_Conditions node) in
  let penalty := foldl (feature_penalty node) penalty (range_map (pp_NodeSelector policy)) in
  let penalty :=
    if 0 <? len (pp_Regions policy) then
      if existsb (fun r => node_Region node =?s r) (pp_Regions policy)
      then penalty else fadd penalty (flit 2 10)
    else penalty in
  clamp01 penalty.

(** The topology switch of the code has empty branches. *)
Definition nodeMatchesAffinity (node : NodeInfo) (affinity : AffinityRule) : bool :=
  if aff_Type affinity =?s "node" then
    labels_match (aff_MatchLabels affinity) (node_Labels node)
  else false.

Definition affinity_bonus (node : NodeInfo) (score : float64) (affinity : AffinityRule) : float64 :=
  if nodeMatchesAffinity node affinity then
    if aff_Required affinity then fadd score (flit 1 10)
    else fadd score (fmul (fdiv (f_of_Z (aff_Weight affinity)) (flit 100 1)) (flit 2 10))
  else score.

Definition anti_affinity_penalty (node : NodeInfo) (score : float64) (anti : AffinityRule)
    : float64 :=
  if nodeMatchesAffinity node anti then
    if aff_Required anti then f0
    else fsub score (fmul (fdiv (f_of_Z (aff_Weight anti)) (flit 100 1)) (flit 3 10))
  else score.

Definition applyAffinityAdjustments (score : float64) (node : NodeInfo) (workload : WorkloadSpec)
    : float64 :=
  let policy := w_PlacementPolicy workload in
  let score := foldl (affinity_bonus node) score (pp_Affinity policy) in
  foldl (anti_affinity_penalty node) score (pp_AntiAffinity policy).

Definition ScoreNode (s : ScorerConfig) (node : NodeInfo) (workload : WorkloadSpec) : ScoredNode :=
  let components := {|
    LocalityScore := calculateLocalityScore node workload;
    ReliabilityScore := calculateReliabilityScore node;
    CostScore := calculateCostScore node workload;
    UtilizationScore := calculateUtilizationScore node workload;
    NetworkPenalty := calculateNetworkPenalty node workload |} in
  let totalScore :=
    fsub (fadd (fadd (fadd
      (fmul (LocalityScore components) (sc_LocalityWeight s))
      (fmul (ReliabilityScore components) (sc_ReliabilityWeight s)))
      (fmul (CostScore components) (sc_CostWeight s)))
      (fmul (UtilizationScore components) (sc_UtilizationWeight s)))
      (fmul (NetworkPenalty components) (sc_NetworkPenaltyWeight s)) in
  let totalScore := applyAffinityAdjustments totalScore node workload in
  let totalScore := clamp01 totalScore in
  {| sn_Node := node; sn_Score := totalScore; sn_Components := components |}.

End scorer.

(** [UpdateWeights] *)
Definition UpdateWeights (config : ScorerConfig) : ScorerConfig :=
  let config := {|
    sc_LocalityWeight := math_Max f0 (sc_LocalityWeight config);
    sc_ReliabilityWeight := math_Max f0 (sc_ReliabilityWeight config);
    sc_CostWeight := math_Max f0 (sc_CostWeight config);
    sc_UtilizationWeight := math_Max f0 (sc_UtilizationWeight config);
    sc_NetworkPenaltyWeight := math_Max f0 (sc_NetworkPenaltyWeight config) |} in
  let total := total_weight config in
  if flt f0 total then divide_weights config total else config.

(** [CompareScores] *)
Definition CompareScores (a b : ScoredNode) : Z :=
  if flt (sn_Score b) (sn_Score a) then 1
  else if flt (sn_Score a) (sn_Score b) then -1
  else 0.

(** ** Properties *)

Definition unit_or_nan (x : float64) : Prop :=
  is_nan x = true ∨ (fle f0 x = true ∧ fle x f1 = true).

#[export] Hint Unfold unit_or_nan : go.
#[export] Hint Resolve clamp01_range : go.

Lemma unit_or_nan_f0 : unit_or_nan f0.
Proof. by right. Qed.
#[export] Hint Resolve unit_or_nan_f0 : go.

(** Whatever the node, the workload and the weights, the score of a node
    and each of its five components is NaN or a number of the unit interval
    ([0 <= x <= 1]), and the score is the one of the node that was given. *)
Theorem ScoreNode_range `{GoRange} s node workload :
  let scored := ScoreNode s node workload in
  let c := sn_Components scored in
  sn_Node scored = node ∧
  Forall unit_or_nan [sn_Score scored; LocalityScore c; ReliabilityScore c; CostScore c;
                      UtilizationScore c; NetworkPenalty c].
Proof.
  split; [done|].
  rewrite !Forall_cons, Forall_nil. repeat split; try apply clamp01_range; simpl.
  - unfold calculateCostScore. case_match; [apply unit_or_nan_f0|apply clamp01_range].
  - unfold calculateUtilizationScore.
    repeat case_match; (apply unit_or_nan_f0 || apply clamp01_range).
Qed.

Definition weights (c : ScorerConfig) : list float64 :=
  [sc_LocalityWeight c; sc_ReliabilityWeight c; sc_CostWeight c; sc_UtilizationWeight c;
   sc_NetworkPenaltyWeight c].

Definition no_weights : ScorerConfig :=
  {| sc_LocalityWeight := f0; sc_ReliabilityWeight := f0; sc_CostWeight := f0;
     sc_UtilizationWeight := f0; sc_NetworkPenaltyWeight := f0 |}.

(** After [UpdateWeights] no weight is negative, but [NewScorer], which
    its comment calls consistent with it, keeps negative weights: a locality
    weight of -1 beside a reliability weight of 2 gives a scorer that prefers
    remote nodes.  With every weight zero [NewScorer] takes the default
    weights and [UpdateWeights] keeps the zeros. *)
Theorem weights_update_vs_new :
  (∀ c, Forall (fun x => sign_bit x = false) (weights (UpdateWeights c))) ∧
  (∃ c, sign_bit (sc_LocalityWeight (NewScorer c)) = true ∧
        sign_bit (sc_ReliabilityWeight (NewScorer c)) = false ∧
        flt (sc_LocalityWeight (NewScorer c)) f0 = true) ∧
  NewScorer no_weights = default_weights ∧ UpdateWeights no_weights = no_weights.
Proof.
  split; [|split; [|split; reflexivity]].
  - intros c. unfold UpdateWeights. case_match eqn:Ht; unfold weights, divide_weights;
      cbn [sc_LocalityWeight sc_ReliabilityWeight sc_CostWeight sc_UtilizationWeight
           sc_NetworkPenaltyWeight];
      rewrite !Forall_cons, Forall_nil; repeat split;
      solve [apply math_Max_nonneg | apply fdiv_nonneg; [apply math_Max_nonneg|exact Ht]].
  - exists {| sc_LocalityWeight := f_of_Z (-1); sc_ReliabilityWeight := f_of_Z 2;
              sc_CostWeight := f0; sc_UtilizationWeight := f0; sc_NetworkPenaltyWeight := f0 |}.
    by vm_compute.
Qed.
