(* ===== verification/BinPack.v ===== *)
(** * Bin packing of replicas (pkg/scheduler/binpack.go)

    [Pack] (first fit), [PackBestFit] (least waste) and [PackWithSpread]
    place identical replicas on nodes.  The two packers share a loop that
    takes the free resources of the chosen bin; they differ in how a bin is
    chosen, and the theorems on capacity and optimality are proved once for
    any complete choice. *)

From S2P Require Import Prelude GoText GoFloat Node Scorer.

Record Bin := {
  bin_NodeID : string;
  bin_NodeName : string;
  AvailableCPU : Z;
  AvailableMemory : Z;
  AvailableStorage : Z;
  bin_Score : float64
}.

Record Item := {
  item_ID : string;
  RequiredCPU : Z;
  RequiredMemory : Z;
  RequiredStorage : Z
}.

Record Placement := {
  pl_NodeID : string;
  pl_NodeName : string;
  pl_ItemID : string;
  pl_Score : float64
}.

Definition createBin (node : ScoredNode) : Bin := {|
  bin_NodeID := node_ID (sn_Node node);
  bin_NodeName := node_Name (sn_Node node);
  AvailableCPU := free_cpu (sn_Node node);
  AvailableMemory := free_memory (sn_Node node);
  AvailableStorage := free_storage (sn_Node node);
  bin_Score := sn_Score node
|}.

Definition createBins (nodes : list ScoredNode) : list Bin := createBin <$> nodes.

Definition fits (item : Item) (bin : Bin) : bool :=
  (RequiredCPU item <=? AvailableCPU bin) &&
  (RequiredMemory item <=? AvailableMemory bin) &&
  (RequiredStorage item <=? AvailableStorage bin).

Definition calculateWaste (item : Item) (bin : Bin) : Z :=
  let cpuWaste := int64 (AvailableCPU bin - RequiredCPU item) in
  let memoryWaste := Z.quot (int64 (AvailableMemory bin - RequiredMemory item)) 1000000 in
  let storageWaste := Z.quot (int64 (AvailableStorage bin - RequiredStorage item)) 1000000000 in
  int64 (int64 (cpuWaste + memoryWaste) + storageWaste).

(** The item of replica [i]. *)
Definition make_item (resources : ResourceSpec) (i : Z) : Item := {|
  item_ID := string_of_rune (int32 i);
  RequiredCPU := rs_CPUMillicores resources;
  RequiredMemory := rs_MemoryBytes resources;
  RequiredStorage := rs_StorageBytes resources
|}.

Definition item_size (item : Item) : Z :=
  int64 (RequiredCPU item + Z.quot (RequiredMemory item) 1000000).

(** The bin after the item is placed in it. *)
Definition consume (item : Item) (bin : Bin) : Bin := {|
  bin_NodeID := bin_NodeID bin;
  bin_NodeName := bin_NodeName bin;
  AvailableCPU := int64 (AvailableCPU bin - RequiredCPU item);
  AvailableMemory := int64 (AvailableMemory bin - RequiredMemory item);
  AvailableStorage := int64 (AvailableStorage bin - RequiredStorage item);
  bin_Score := bin_Score bin
|}.

Definition place_in (item : Item) (bin : Bin) : Placement := {|
  pl_NodeID := bin_NodeID bin;
  pl_NodeName := bin_NodeName bin;
  pl_ItemID := item_ID item;
  pl_Score := bin_Score bin
|}.

(** One turn of the packing loop, for a way [choose] to pick a bin. *)
Definition pack_step (choose : Item → list Bin → option nat)
    (st : list Placement * list Bin) (item : Item) : list Placement * list Bin :=
  match choose item st.2 with
  | Some i =>
      match st.2 !! i with
      | Some bin => (st.1 ++ [place_in item bin], <[i := consume item bin]> st.2)
      | None => st
      end
  | None => st
  end.

(** The first bin the item fits in. *)
Definition first_fit (item : Item) (bins : list Bin) : option nat :=
  fst <$> list_find (fun b => fits item b = true) bins.

Definition max_int64 : Z := 2 ^ 63 - 1.

(** The scan of [PackBestFit]: [bestBin], [minWaste] after looking at bin [j]. *)
Definition best_fit_step (item : Item) (acc : Z * Z) (jb : nat * Bin) : Z * Z :=
  if fits item jb.2 then
    let waste := calculateWaste item jb.2 in
    if waste <? acc.2 then (Z.of_nat jb.1, waste) else acc
  else acc.

Definition best_fit (item : Item) (bins : list Bin) : option nat :=
  let '(bestBin, _) := foldl (best_fit_step item) (-1, max_int64) (imap pair bins) in
  if 0 <=? bestBin then Some (Z.to_nat bestBin) else None.

(** Grouping by zone, region or node. *)
Definition topology_key (topology : string) (node : ScoredNode) : string :=
  if topology =?s "zone" then node_Zone (sn_Node node)
  else if topology =?s "region" then node_Region (sn_Node node)
  else if topology =?s "node" then node_ID (sn_Node node)
  else "default".

Definition score_greater (a b : ScoredNode) : bool := flt (sn_Score b) (sn_Score a).

Definition add_to_group (topology : string) (groups : gmap string (list ScoredNode))
    (node : ScoredNode) : gmap string (list ScoredNode) :=
  let key := topology_key topology node in
  <[key := default [] (groups !! key) ++ [node]]> groups.

Definition nodeHasCapacity (node : NodeInfo) (resources : ResourceSpec) : bool :=
  (rs_CPUMillicores resources <=? free_cpu node) &&
  (rs_MemoryBytes resources <=? free_memory node) &&
  (rs_StorageBytes resources <=? free_storage node).

Definition selectBestNode (nodes : list ScoredNode) (resources : ResourceSpec)
    : option ScoredNode :=
  snd <$> list_find (fun n => nodeHasCapacity (sn_Node n) resources = true) nodes.

Definition place_node (node : ScoredNode) (replicasPlaced : Z) : Placement := {|
  pl_NodeID := node_ID (sn_Node node);
  pl_NodeName := node_Name (sn_Node node);
  pl_ItemID := string_of_rune (int32 replicasPlaced);
  pl_Score := sn_Score node
|}.

(** The two passes of a spread placement, shared by [PackWithSpread] and the
    scheduler's [spreadSchedule].  The number of replicas placed so far is the
    length of the placements.  First pass: one replica per group, on the node
    [pick] finds in it, until all replicas are placed. *)
Definition spread_group {A} (pick : list ScoredNode → option ScoredNode)
    (mk : ScoredNode → Z → A) (replicas : Z)
    (placements : list A) (group : string * list ScoredNode) : list A :=
  if replicas <=? len placements then placements
  else match pick group.2 with
       | Some node => placements ++ [mk node (len placements)]
       | None => placements
       end.

(** Second pass: the nodes that pass [cap] and have no replica yet. *)
Definition spread_rest {A} (id : A → string) (cap : ScoredNode → bool)
    (mk : ScoredNode → Z → A) (replicas : Z)
    (placements : list A) (node : ScoredNode) : list A :=
  if replicas <=? len placements then placements
  else
    let hasReplica := existsb (fun p => id p =?s node_ID (sn_Node node)) placements in
    if negb hasReplica && cap node then placements ++ [mk node (len placements)] else placements.

Definition OptimizePacking (currentPlacements : list Placement) (nodes : list ScoredNode)
    (resources : ResourceSpec) : list Placement := currentPlacements.

Section packer.
Context `{GoSort}.

Definition groupNodes (nodes : list ScoredNode) (spreadKey : string)
    : gmap string (list ScoredNode) :=
  sort_slice score_greater <$> foldl (add_to_group spreadKey) ∅ nodes.

Definition Pack (nodes : list ScoredNode) (resources : ResourceSpec) (replicas : Z)
    : list Placement :=
  let bins := sort_slice (fun a b => flt (bin_Score b) (bin_Score a)) (createBins nodes) in
  let items := make_item resources <$> seqZ 0 replicas in
  let items := sort_slice (fun a b => item_size b <? item_size a) items in
  (foldl (pack_step first_fit) ([], bins) items).1.

Definition PackBestFit (nodes : list ScoredNode) (resources : ResourceSpec) (replicas : Z)
    : list Placement :=
  let bins := createBins nodes in
  (foldl (pack_step best_fit) ([], bins) (make_item resources <$> seqZ 0 replicas)).1.

(** The two loops over the groups may iterate in different orders. *)
Definition PackWithSpread (order1 order2 : GoRange) (nodes : list ScoredNode)
    (resources : ResourceSpec) (replicas : Z) (spreadKey : string) : list Placement :=
  let nodeGroups := groupNodes nodes spreadKey in
  let placements :=
    foldl (spread_group (fun group => selectBestNode group resources) place_node replicas) []
      (@range_map order1 _ nodeGroups) in
  if len placements <? replicas then
    let allNodes := flat_map snd (@range_map order2 _ nodeGroups) in
    let allNodes := sort_slice score_greater allNodes in
    foldl (spread_rest pl_NodeID (fun node => nodeHasCapacity (sn_Node node) resources)
      place_node replicas) placements allNodes
  else placements.

End packer.

(** The totals of [EstimateFragmentation]. *)
Record Totals := {
  totalCapacityCPU : Z; totalUsedCPU : Z; totalCapacityMem : Z; totalUsedMem : Z;
  fragmentedCPU : Z; fragmentedMem : Z
}.

Definition add_node_totals (t : Totals) (node : ScoredNode) : Totals :=
  let cap := node_Capacity (sn_Node node) in
  let usage := node_Usage (sn_Node node) in
  let availableCPU := free_cpu (sn_Node node) in
  let availableMem := free_memory (sn_Node node) in
  {| totalCapacityCPU := int64 (totalCapacityCPU t + rc_CPUMillicores cap);
     totalUsedCPU := int64 (totalUsedCPU t + ru_CPUMillicores usage);
     totalCapacityMem := int64 (totalCapacityMem t + rc_MemoryBytes cap);
     totalUsedMem := int64 (totalUsedMem t + ru_MemoryBytes usage);
     fragmentedCPU :=
       if (0 <? availableCPU) && (availableCPU <? 250)
       then int64 (fragmentedCPU t + availableCPU) else fragmentedCPU t;
     fragmentedMem :=
       if (0 <? availableMem) && (availableMem <? 256 * 1024 * 1024)
       then int64 (fragmentedMem t + availableMem) else fragmentedMem t |}.

Definition EstimateFragmentation (nodes : list ScoredNode) : float64 :=
  let t := foldl add_node_totals
    {| totalCapacityCPU := 0; totalUsedCPU := 0; totalCapacityMem := 0; totalUsedMem := 0;
       fragmentedCPU := 0; fragmentedMem := 0 |} nodes in
  let totalAvailableCPU := int64 (totalCapacityCPU t - totalUsedCPU t) in
  let totalAvailableMem := int64 (totalCapacityMem t - totalUsedMem t) in
  let cpuFragmentation :=
    if 0 <? totalAvailableCPU
    then fdiv (f_of_Z (fragmentedCPU t)) (f_of_Z totalAvailableCPU) else f0 in
  let memFragmentation :=
    if 0 <? totalAvailableMem
    then fdiv (f_of_Z (fragmentedMem t)) (f_of_Z totalAvailableMem) else f0 in
  fdiv (fadd cpuFragmentation memFragmentation) (f_of_Z 2).

(** ** Feasible distributions of replicas

    A distribution gives the number of replicas of every node; it is
    feasible when the replicas of a node fit its free resources together. *)

Definition feasible (nodes : list NodeInfo) (res : ResourceSpec) (f : string → nat) : Prop :=
  ∀ n, n ∈ nodes → f (node_ID n) = 0%nat ∨
    (Z.of_nat (f (node_ID n)) * rs_CPUMillicores res ≤ free_cpu n ∧
     Z.of_nat (f (node_ID n)) * rs_MemoryBytes res ≤ free_memory n ∧
     Z.of_nat (f (node_ID n)) * rs_StorageBytes res ≤ free_storage n).

Definition total (nodes : list NodeInfo) (f : string → nat) : nat :=
  sum_list (f <$> (node_ID <$> nodes)).

(** Replicas a list of placements puts on a node. *)
Definition cnt (ps : list Placement) (id : string) : nat :=
  length (filter (fun p => pl_NodeID p = id) ps).

Record nonneg_spec (res : ResourceSpec) : Prop := {
  nonneg_cpu : 0 ≤ rs_CPUMillicores res;
  nonneg_memory : 0 ≤ rs_MemoryBytes res;
  nonneg_storage : 0 ≤ rs_StorageBytes res
}.

Lemma cnt_app ps qs id : cnt (ps ++ qs) id = (cnt ps id + cnt qs id)%nat.
Proof. unfold cnt. by rewrite filter_app, length_app. Qed.

Lemma cnt_singleton p id : cnt [p] id = if decide (pl_NodeID p = id) then 1%nat else 0%nat.
Proof. unfold cnt. rewrite filter_cons, filter_nil. by case_decide. Qed.

Lemma cnt_zero ps id : (∀ p, p ∈ ps → pl_NodeID p ≠ id) → cnt ps id = 0%nat.
Proof.
  intros Hp. unfold cnt. destruct (filter _ ps) as [|p l] eqn:E; [done|].
  assert (p ∈ filter (fun p => pl_NodeID p = id) ps) as [? Hin]%list_elem_of_filter
    by (rewrite E; left).
  by destruct (Hp p).
Qed.

(** Summing the counts of distinct nodes gives the number of placements. *)
Lemma cnt_total ids ps :
  NoDup ids → (∀ p, p ∈ ps → pl_NodeID p ∈ ids) → sum_list (cnt ps <$> ids) = length ps.
Proof.
  intros Hnd. induction ps as [|p ps IH]; intros Hin.
  - clear. by induction ids.
  - change (length (p :: ps)) with (S (length ps)). rewrite <-IH by (intros; apply Hin; by right).
    assert (pl_NodeID p ∈ ids) as Hp by (apply Hin; left).
    clear IH Hin. induction Hnd as [|i ids Hi Hnd IH]; [by apply elem_of_nil in Hp|].
    rewrite !fmap_cons. simpl.
    rewrite (cnt_app [p] ps i : cnt (p :: ps) i = _), cnt_singleton.
    case_decide as Hd.
    + enough (sum_list (cnt (p :: ps) <$> ids) = sum_list (cnt ps <$> ids)) by lia.
      f_equal. apply list_fmap_ext. intros k j Hj.
      rewrite (cnt_app [p] ps j : cnt (p :: ps) j = _), cnt_singleton.
      rewrite decide_False; [done|]. intros <-. apply Hi. rewrite <-Hd.
      by eapply list_elem_of_lookup_2.
    + apply elem_of_cons in Hp as [?|Hp]; [done|]. rewrite IH by done. lia.
Qed.

Lemma sum_list_mono (f g : string → nat) ids :
  (∀ i, i ∈ ids → (f i ≤ g i)%nat) → (sum_list (f <$> ids) ≤ sum_list (g <$> ids))%nat.
Proof.
  induction ids as [|i ids IH]; simpl; [done|]. intros Hfg.
  apply Nat.add_le_mono; [apply Hfg; left|]. apply IH. intros j Hj. apply Hfg. by right.
Qed.

(** ** The packing loop, for any choice of a bin *)

Definition is_item (res : ResourceSpec) (item : Item) : Prop :=
  RequiredCPU item = rs_CPUMillicores res ∧ RequiredMemory item = rs_MemoryBytes res ∧
  RequiredStorage item = rs_StorageBytes res.

(** The bin after [k] items were placed in it. *)
Definition drained (res : ResourceSpec) (k : nat) (b : Bin) : Bin := {|
  bin_NodeID := bin_NodeID b;
  bin_NodeName := bin_NodeName b;
  AvailableCPU := AvailableCPU b - Z.of_nat k * rs_CPUMillicores res;
  AvailableMemory := AvailableMemory b - Z.of_nat k * rs_MemoryBytes res;
  AvailableStorage := AvailableStorage b - Z.of_nat k * rs_StorageBytes res;
  bin_Score := bin_Score b
|}.

Definition holds (res : ResourceSpec) (k : nat) (b : Bin) : Prop :=
  k = 0%nat ∨ (Z.of_nat k * rs_CPUMillicores res ≤ AvailableCPU b ∧
               Z.of_nat k * rs_MemoryBytes res ≤ AvailableMemory b ∧
               Z.of_nat k * rs_StorageBytes res ≤ AvailableStorage b).

Definition bin_in_range (b : Bin) : Prop :=
  in_int64 (AvailableCPU b) ∧ in_int64 (AvailableMemory b) ∧ in_int64 (AvailableStorage b).

Lemma drained_0 res b : drained res 0 b = b.
Proof. destruct b. unfold drained; simpl. f_equal; lia. Qed.

Lemma fits_holds res item k b :
  nonneg_spec res → is_item res item →
  fits item (drained res k b) = true ↔ holds res (S k) b.
Proof.
  intros [] (E1 & E2 & E3). unfold fits, holds. simpl.
  rewrite !andb_true_iff, !Z.leb_le, E1, E2, E3.
  split; [intros; right|intros [?|?]; [done|]]; nia.
Qed.

Lemma holds_le res j k b : nonneg_spec res → (j ≤ k)%nat → holds res k b → holds res j b.
Proof. intros [] Hj [->|?]; [left; lia|right; nia]. Qed.

Lemma consume_drained res item k b :
  nonneg_spec res → is_item res item → bin_in_range b → holds res (S k) b →
  consume item (drained res k b) = drained res (S k) b.
Proof.
  intros [] (E1 & E2 & E3) (R1 & R2 & R3) [?|(H1 & H2 & H3)]; [done|].
  unfold consume, drained, in_int64 in *; simpl. rewrite E1, E2, E3.
  rewrite !int64_id by (unfold in_int64; nia). f_equal; lia.
Qed.

Section pack_loop.
Context (choose : Item → list Bin → option nat) (res : ResourceSpec) (bs0 : list Bin).
Context (small : Bin → Prop).
Hypothesis Hres : nonneg_spec res.
Hypothesis Hids : NoDup (bin_NodeID <$> bs0).
Hypothesis Hrange : Forall bin_in_range bs0.
Hypothesis Hsmall : ∀ b k, b ∈ bs0 → holds res k b → small (drained res k b).
Hypothesis choose_fits : ∀ item bins i,
  choose item bins = Some i → ∃ b, bins !! i = Some b ∧ fits item b = true.
Hypothesis choose_complete : ∀ item bins,
  is_item res item → Forall small bins → choose item bins = None →
  Forall (fun b => fits item b = false) bins.

Definition bins_of (ps : list Placement) : list Bin :=
  (fun b => drained res (cnt ps (bin_NodeID b)) b) <$> bs0.

(** The bins are the initial ones less what the placements took. *)
Definition pack_inv (st : list Placement * list Bin) : Prop :=
  st.2 = bins_of st.1 ∧
  (∀ p, p ∈ st.1 → pl_NodeID p ∈ bin_NodeID <$> bs0) ∧
  (∀ b, b ∈ bs0 → holds res (cnt st.1 (bin_NodeID b)) b).

Lemma pack_inv_init : pack_inv ([], bs0).
Proof.
  split; [|split]; simpl.
  - unfold bins_of. rewrite <-(list_fmap_id bs0) at 1. apply list_fmap_ext.
    intros. by rewrite drained_0.
  - by intros ? ?%elem_of_nil.
  - by left.
Qed.

(** Identifiers are distinct, so a placement changes one bin. *)
Lemma bins_of_insert ps p i b :
  bs0 !! i = Some b → pl_NodeID p = bin_NodeID b →
  <[i := drained res (S (cnt ps (bin_NodeID b))) b]> (bins_of ps) = bins_of (ps ++ [p]).
Proof.
  intros Hi Hp. unfold bins_of. apply list_eq. intros j.
  rewrite list_lookup_fmap. destruct (decide (i = j)) as [<-|Hij].
  - rewrite list_lookup_insert_eq by (rewrite length_fmap; by eapply lookup_lt_Some).
    rewrite Hi. simpl. rewrite cnt_app, cnt_singleton, decide_True by done.
    by rewrite Nat.add_1_r.
  - rewrite list_lookup_insert_ne by done. rewrite list_lookup_fmap.
    destruct (bs0 !! j) as [c|] eqn:Hj; [|done]. simpl.
    rewrite cnt_app, cnt_singleton, decide_False, Nat.add_0_r; [done|].
    rewrite Hp. intros Heq. apply Hij.
    apply (NoDup_lookup (bin_NodeID <$> bs0) i j (bin_NodeID b)); [done| |];
      rewrite list_lookup_fmap, ?Hi, ?Hj; simpl; congruence.
Qed.

Lemma pack_step_inv st item :
  is_item res item → pack_inv st → pack_inv (pack_step choose st item).
Proof.
  intros Hitem (Hb & Hin & Hh). destruct st as [ps bins]; simpl in *. subst bins.
  unfold pack_step; simpl. destruct (choose _ _) as [i|] eqn:Hc; [|done].
  destruct (choose_fits _ _ _ Hc) as (b' & Hi' & Hf). rewrite Hi'.
  pose proof Hi' as Hi. unfold bins_of in Hi. rewrite list_lookup_fmap in Hi.
  destruct (bs0 !! i) as [b|] eqn:Hib; [|done]. simpl in Hi. injection Hi as <-.
  assert (b ∈ bs0) as Hbin by (by eapply list_elem_of_lookup_2).
  apply fits_holds in Hf; [|done|done].
  rewrite Forall_forall in Hrange. rewrite consume_drained by auto.
  split; [|split]; simpl.
  - by apply bins_of_insert.
  - intros p [?| ->%list_elem_of_singleton]%elem_of_app; [auto|]. simpl.
    by apply list_elem_of_fmap_2.
  - intros c Hcin. rewrite cnt_app, cnt_singleton. simpl.
    case_decide as Hd; [|rewrite Nat.add_0_r; auto]. rewrite Nat.add_1_r.
    assert (c = b) as ->; [|done].
    apply list_elem_of_lookup in Hcin as [j Hj].
    enough (j = i) by congruence.
    apply (NoDup_lookup (bin_NodeID <$> bs0) j i (bin_NodeID b)); [done| |];
      rewrite list_lookup_fmap, ?Hib, ?Hj; simpl; congruence.
Qed.

Lemma pack_loop_inv items st :
  Forall (is_item res) items → pack_inv st → pack_inv (foldl (pack_step choose) st items).
Proof. intros Hi. revert st. induction Hi; simpl; auto using pack_step_inv. Qed.

Lemma pack_step_length st item :
  (length st.1 ≤ length (pack_step choose st item).1 ≤ S (length st.1))%nat.
Proof.
  unfold pack_step. case_match; [|lia]. case_match; [|lia]. simpl. rewrite length_app. simpl. lia.
Qed.

Lemma pack_loop_length items st :
  (length (foldl (pack_step choose) st items).1 ≤ length st.1 + length items)%nat.
Proof.
  revert st. induction items as [|x items IH]; intros st; simpl; [lia|].
  pose proof (IH (pack_step choose st x)). pose proof (pack_step_length st x). lia.
Qed.

Lemma fits_same item1 item2 b : is_item res item1 → is_item res item2 → fits item1 b = fits item2 b.
Proof. intros (E1 & E2 & E3) (F1 & F2 & F3). unfold fits. congruence. Qed.

(** Once an item finds no bin, no later one does. *)
Lemma pack_loop_stuck items st item :
  is_item res item → Forall (is_item res) items →
  Forall (fun b => fits item b = false) st.2 → foldl (pack_step choose) st items = st.
Proof.
  intros Hitem Hitems Hst. induction Hitems as [|x items Hx _ IH]; simpl; [done|].
  replace (pack_step choose st x) with st; [done|].
  unfold pack_step. destruct (choose x st.2) as [i|] eqn:Hc; [|done].
  destruct (choose_fits _ _ _ Hc) as (b & Hb & Hf). exfalso.
  rewrite Forall_forall in Hst. rewrite (fits_same x item) in Hf by done.
  rewrite Hst in Hf; [done|]. by eapply list_elem_of_lookup_2.
Qed.

Lemma pack_inv_small st : pack_inv st → Forall small st.2.
Proof.
  intros (-> & _ & Hh). unfold bins_of. apply Forall_fmap, Forall_forall. auto.
Qed.

(** Either every item is placed or no bin takes another one. *)
Lemma pack_loop_full items st item :
  is_item res item → Forall (is_item res) items → pack_inv st →
  length (foldl (pack_step choose) st items).1 = (length st.1 + length items)%nat ∨
  Forall (fun b => fits item b = false) (foldl (pack_step choose) st items).2.
Proof.
  intros Hitem Hitems. revert st. induction Hitems as [|x items Hx Hxs IH]; intros st Hinv; simpl.
  { left. lia. }
  destruct (choose x st.2) as [i|] eqn:Hc.
  - destruct (IH (pack_step choose st x)) as [Hl|?]; [by apply pack_step_inv| |by right].
    left. rewrite Hl. unfold pack_step. rewrite Hc.
    destruct (choose_fits _ _ _ Hc) as (b & -> & _). simpl. rewrite length_app. simpl. lia.
  - right. assert (Forall (fun b => fits item b = false) st.2) as Hno.
    { eapply Forall_impl.
      - apply (choose_complete x); [done|by apply pack_inv_small|done].
      - intros b Hb. by rewrite <-Hb, (fits_same x item). }
    replace (pack_step choose st x) with st by (unfold pack_step; by rewrite Hc).
    by rewrite (pack_loop_stuck items st item).
Qed.

(** No distribution that the bins hold places more items. *)
Lemma pack_loop_optimal items item f :
  is_item res item → Forall (is_item res) items →
  (∀ b, b ∈ bs0 → holds res (f (bin_NodeID b)) b) →
  (sum_list (f <$> (bin_NodeID <$> bs0)) ≤ length items)%nat →
  (sum_list (f <$> (bin_NodeID <$> bs0)) ≤
   length (foldl (pack_step choose) ([], bs0) items).1)%nat.
Proof.
  intros Hitem Hitems Hf Hsum.
  pose proof (pack_loop_inv items _ Hitems pack_inv_init) as (Hb & Hin & Hh).
  destruct (pack_loop_full items _ item Hitem Hitems pack_inv_init) as [->|Hno];
    [simpl; lia|].
  rewrite <-(cnt_total (bin_NodeID <$> bs0)) by done. apply sum_list_mono.
  intros id (b & -> & Hbin)%list_elem_of_fmap.
  destruct (decide (f (bin_NodeID b) ≤ cnt (foldl (pack_step choose) ([], bs0) items).1
    (bin_NodeID b))%nat) as [?|Hlt]; [done|exfalso].
  rewrite Hb in Hno. unfold bins_of in Hno.
  rewrite Forall_fmap, Forall_forall in Hno. specialize (Hno _ Hbin). simpl in Hno.
  apply not_true_iff_false in Hno. apply Hno, (fits_holds res); [done|done|].
  eapply holds_le; [done| |by apply Hf]. lia.
Qed.

End pack_loop.

(** ** First fit *)

Lemma first_fit_fits item bins i :
  first_fit item bins = Some i → ∃ b, bins !! i = Some b ∧ fits item b = true.
Proof.
  unfold first_fit. destruct (list_find _ bins) as [[j b]|] eqn:E; [|done].
  intros [= <-]. apply list_find_Some in E as (? & ? & _). eauto.
Qed.

Lemma first_fit_complete item bins :
  first_fit item bins = None → Forall (fun b => fits item b = false) bins.
Proof.
  unfold first_fit. destruct (list_find _ bins) as [[j b]|] eqn:E; [done|]. intros _.
  apply list_find_None in E. eapply Forall_impl; [done|]. simpl. intros b. by destruct (fits _ _).
Qed.

Lemma sum_list_perm (f : string → nat) l k : l ≡ₚ k → sum_list (f <$> l) = sum_list (f <$> k).
Proof. induction 1; csimpl; lia. Qed.

Lemma createBins_in_range nodes : Forall bin_in_range (createBins nodes).
Proof.
  apply Forall_fmap, Forall_forall. intros n _. split; [|split]; apply int64_range.
Qed.

Lemma createBins_ids nodes :
  bin_NodeID <$> createBins nodes = node_ID <$> (sn_Node <$> nodes).
Proof. unfold createBins. by rewrite <-!list_fmap_compose. Qed.

Lemma make_items_are res k : Forall (is_item res) (make_item res <$> seqZ 0 k).
Proof. apply Forall_fmap, Forall_forall. done. Qed.

Lemma make_item_is res i : is_item res (make_item res i).
Proof. done. Qed.

(** [holds] of the bins of a node list is feasibility. *)
Lemma holds_feasible nodes res f :
  (∀ b, b ∈ createBins nodes → holds res (f (bin_NodeID b)) b) ↔
  feasible (sn_Node <$> nodes) res f.
Proof.
  unfold feasible, createBins. split.
  - intros Hb n (s & -> & Hs)%list_elem_of_fmap. by apply (Hb (createBin s)), list_elem_of_fmap_2.
  - intros Hn b (s & -> & Hs)%list_elem_of_fmap. by apply (Hn (sn_Node s)), list_elem_of_fmap_2.
Qed.

Section first_fit_packing.
Context `{GoSort} (nodes : list ScoredNode) (res : ResourceSpec) (replicas : Z).
Hypothesis Hnd : NoDup (node_ID <$> (sn_Node <$> nodes)).
Hypothesis Hres : nonneg_spec res.

(** The bins and items of [Pack], in the order its sorts put them. *)
Local Abbreviation bins :=
  (sort_slice (fun a b => flt (bin_Score b) (bin_Score a)) (createBins nodes)).
Local Abbreviation items :=
  (sort_slice (fun a b => item_size b <? item_size a) (make_item res <$> seqZ 0 replicas)).

Lemma Pack_bins : bins ≡ₚ createBins nodes.
Proof. apply sort_slice_perm. Qed.

Lemma Pack_bin_ids : bin_NodeID <$> bins ≡ₚ node_ID <$> (sn_Node <$> nodes).
Proof. rewrite Pack_bins. by rewrite createBins_ids. Qed.

Lemma Pack_bin_ids_NoDup : NoDup (bin_NodeID <$> bins).
Proof. by rewrite Pack_bin_ids. Qed.

Lemma Pack_items : Forall (is_item res) items ∧ length items = Z.to_nat replicas.
Proof.
  rewrite sort_slice_perm. split; [apply make_items_are|].
  rewrite length_fmap. apply length_seqZ.
Qed.

Lemma Pack_bins_range : Forall bin_in_range bins.
Proof. rewrite Pack_bins. apply createBins_in_range. Qed.

Lemma Pack_nodes p :
  p ∈ Pack nodes res replicas → pl_NodeID p ∈ node_ID <$> (sn_Node <$> nodes).
Proof.
  rewrite <-Pack_bin_ids.
  apply (pack_loop_inv first_fit res bins Hres Pack_bin_ids_NoDup Pack_bins_range first_fit_fits
    items _ (proj1 Pack_items) (pack_inv_init res bins)).
Qed.

Lemma Pack_length : len (Pack nodes res replicas) ≤ Z.max 0 replicas.
Proof.
  pose proof (pack_loop_length first_fit items ([], bins)) as Hl.
  rewrite (proj2 Pack_items) in Hl. unfold len, Pack. simpl in *. lia.
Qed.

Lemma Pack_feasible : feasible (sn_Node <$> nodes) res (cnt (Pack nodes res replicas)).
Proof.
  apply holds_feasible. intros b Hb.
  apply (pack_loop_inv first_fit res bins Hres Pack_bin_ids_NoDup Pack_bins_range first_fit_fits
    items _ (proj1 Pack_items) (pack_inv_init res bins)).
  by rewrite Pack_bins.
Qed.

Lemma Pack_maximal f :
  feasible (sn_Node <$> nodes) res f →
  Z.of_nat (total (sn_Node <$> nodes) f) ≤ replicas →
  Z.of_nat (total (sn_Node <$> nodes) f) ≤ len (Pack nodes res replicas).
Proof.
  intros Hf Hsum. pose proof (proj2 (holds_feasible nodes res f) Hf) as Hb.
  unfold total, len in *. rewrite <-(sum_list_perm f _ _ Pack_bin_ids) in *.
  destruct Pack_items as [Hitems Hlen].
  apply inj_le, (pack_loop_optimal first_fit res bins (fun _ => True))
    with (item := make_item res 0);
    auto using first_fit_fits, first_fit_complete, make_item_is, Pack_bin_ids_NoDup,
      Pack_bins_range; [|lia].
  intros b Hbin. apply Hb. by rewrite <-Pack_bins.
Qed.

End first_fit_packing.

(** The packing of [Pack] puts replicas on listed nodes only, at most
    [replicas] of them and never more on a node than its free CPU, memory and
    storage hold together; and it is optimal: no feasible distribution of at
    most [replicas] replicas over the nodes places more. *)
Theorem Pack_optimal `{GoSort} nodes res replicas :
  NoDup (node_ID <$> (sn_Node <$> nodes)) → nonneg_spec res →
  let ps := Pack nodes res replicas in
  (∀ p, p ∈ ps → pl_NodeID p ∈ node_ID <$> (sn_Node <$> nodes)) ∧
  len ps ≤ Z.max 0 replicas ∧
  feasible (sn_Node <$> nodes) res (cnt ps) ∧
  ∀ f, feasible (sn_Node <$> nodes) res f →
    Z.of_nat (total (sn_Node <$> nodes) f) ≤ replicas →
    Z.of_nat (total (sn_Node <$> nodes) f) ≤ len ps.
Proof.
  intros Hnd Hres. repeat split.
  - by apply Pack_nodes.
  - apply Pack_length.
  - by apply Pack_feasible.
  - by apply Pack_maximal.
Qed.

(** ** Best fit *)

(** What the scan for the least waste finds. *)
Lemma best_fit_scan item bins :
  let r := foldl (best_fit_step item) (-1, max_int64) (imap pair bins) in
  (∀ c, c ∈ bins → fits item c = true → r.2 ≤ calculateWaste item c) ∧
  (r = (-1, max_int64) ∨
   ∃ i b, r = (Z.of_nat i, calculateWaste item b) ∧ bins !! i = Some b ∧ fits item b = true).
Proof.
  induction bins as [|b bins [IHmin IHr]] using rev_ind; simpl.
  { split; [by intros ? ?%elem_of_nil|by left]. }
  rewrite imap_app, foldl_app. simpl. rewrite Nat.add_0_r.
  set (r := foldl _ _ (imap pair bins)) in *.
  assert (∀ i c, bins !! i = Some c → (bins ++ [b]) !! i = Some c) as Hlook
    by (intros; by apply lookup_app_l_Some).
  unfold best_fit_step; simpl. destruct (fits item b) eqn:Hf; [case_match eqn:Hw|];
    bool_to_prop; (split; [intros c [Hc| ->%list_elem_of_singleton]%elem_of_app Hfc|]); simpl in *;
    try (specialize (IHmin c Hc Hfc); lia); try lia; try congruence; auto.
  - right. exists (length bins), b. by rewrite list_lookup_middle.
  - destruct IHr as [?|(i & c & ? & ? & ?)]; [by left|right; eauto 10].
  - destruct IHr as [?|(i & c & ? & ? & ?)]; [by left|right; eauto 10].
Qed.

Lemma best_fit_fits item bins i :
  best_fit item bins = Some i → ∃ b, bins !! i = Some b ∧ fits item b = true.
Proof.
  unfold best_fit. destruct (best_fit_scan item bins) as [_ [->|(j & b & -> & Hj & Hf)]]; [done|].
  rewrite (proj2 (Z.leb_le _ _)) by lia. intros [= <-]. rewrite Nat2Z.id. eauto.
Qed.

(** A bin small enough that the waste of an item does not overflow. *)
Definition small_bin (b : Bin) : Prop :=
  AvailableCPU b ≤ 2 ^ 61 ∧ AvailableMemory b ≤ 2 ^ 61 ∧ AvailableStorage b ≤ 2 ^ 61.

Lemma waste_bound res item b :
  nonneg_spec res → is_item res item → small_bin b → fits item b = true →
  calculateWaste item b < max_int64.
Proof.
  intros [] (E1 & E2 & E3) (S1 & S2 & S3) Hf. unfold fits in Hf. bool_to_prop.
  rewrite E1, E2, E3 in *. unfold calculateWaste, max_int64. rewrite E1, E2, E3.
  rewrite !(int64_id (_ - _)) by (unfold in_int64; lia).
  rewrite !Z.quot_div_nonneg by lia.
  pose proof (Z.div_le_upper_bound (AvailableMemory b - rs_MemoryBytes res) 1000000 (2 ^ 61)).
  pose proof (Z.div_le_upper_bound (AvailableStorage b - rs_StorageBytes res) 1000000000 (2 ^ 61)).
  pose proof (Z.div_pos (AvailableMemory b - rs_MemoryBytes res) 1000000).
  pose proof (Z.div_pos (AvailableStorage b - rs_StorageBytes res) 1000000000).
  rewrite !int64_id; unfold in_int64; rewrite ?int64_id; unfold in_int64; lia.
Qed.

Lemma best_fit_complete res item bins :
  nonneg_spec res → is_item res item → Forall small_bin bins →
  best_fit item bins = None → Forall (fun b => fits item b = false) bins.
Proof.
  intros Hres Hi Hs. unfold best_fit.
  destruct (best_fit_scan item bins) as [Hmin [E|(j & b & -> & _)]].
  - intros _. rewrite Forall_forall in *. intros b Hb. apply not_true_iff_false. intros Hf.
    specialize (Hmin b Hb Hf). rewrite E in Hmin. simpl in Hmin.
    pose proof (waste_bound res item b Hres Hi (Hs b Hb) Hf). lia.
  - by rewrite (proj2 (Z.leb_le _ _)) by lia.
Qed.

(** [PackBestFit] never puts more replicas on a node than its free
    resources hold, and on nodes with at most 2^61 free units of each
    resource, where the waste of a bin does not overflow, it places as many
    replicas as any feasible distribution. *)
Theorem PackBestFit_optimal nodes res replicas :
  NoDup (node_ID <$> (sn_Node <$> nodes)) → nonneg_spec res →
  Forall small_bin (createBins nodes) →
  let ps := PackBestFit nodes res replicas in
  feasible (sn_Node <$> nodes) res (cnt ps) ∧
  ∀ f, feasible (sn_Node <$> nodes) res f →
    Z.of_nat (total (sn_Node <$> nodes) f) ≤ replicas →
    Z.of_nat (total (sn_Node <$> nodes) f) ≤ len ps.
Proof.
  intros Hnd Hres Hsm. unfold PackBestFit. cbn zeta.
  rewrite <-createBins_ids in Hnd.
  pose proof (make_items_are res replicas) as Hitems.
  pose proof (pack_loop_inv best_fit res _ Hres Hnd (createBins_in_range nodes) best_fit_fits _ _
    Hitems (pack_inv_init res _)) as (_ & _ & Hh).
  split; [by apply holds_feasible|].
  intros f Hf Hsum. pose proof (proj2 (holds_feasible nodes res f) Hf) as Hb. unfold total, len in *.
  rewrite <-createBins_ids in *.
  apply inj_le, (pack_loop_optimal best_fit res (createBins nodes) small_bin)
    with (item := make_item res 0); try done.
  - apply createBins_in_range.
  - intros b k Hbin Hk. rewrite Forall_forall in Hsm. destruct (Hsm b Hbin) as (? & ? & ?).
    destruct Hres. unfold small_bin; simpl. nia.
  - apply best_fit_fits.
  - intros item bins. by apply best_fit_complete.
  - rewrite length_fmap, length_seqZ. lia.
Qed.

(** ** Spreading over groups *)

Definition groups_of (topology : string) (nodes : list ScoredNode)
    : gmap string (list ScoredNode) :=
  foldl (add_to_group topology) ∅ nodes.

(** The flattened groups of a map. *)
Definition flat (m : gmap string (list ScoredNode)) : list ScoredNode :=
  flat_map snd (map_to_list m).

Lemma flat_insert_new m k l : m !! k = None → flat (<[k := l]> m) ≡ₚ l ++ flat m.
Proof.
  intros Hk. unfold flat.
  by rewrite (flat_map_perm snd snd _ _ (map_to_list_insert m k l Hk)).
Qed.

Lemma flat_delete m k l : m !! k = Some l → flat m ≡ₚ l ++ flat (delete k m).
Proof.
  intros Hk. rewrite <-(insert_delete_id m k l Hk) at 1.
  by rewrite flat_insert_new by apply lookup_delete_eq.
Qed.

Lemma flat_add topology m n : flat (add_to_group topology m n) ≡ₚ n :: flat m.
Proof.
  unfold add_to_group. set (k := topology_key topology n).
  destruct (m !! k) as [l|] eqn:Hk; simpl.
  - rewrite <-insert_delete_eq, flat_insert_new by apply lookup_delete_eq.
    rewrite (flat_delete m k l Hk). by rewrite <-app_assoc, Permutation_middle.
  - by rewrite flat_insert_new.
Qed.

(** The groups partition the nodes. *)
Lemma flat_groups topology nodes m :
  flat (foldl (add_to_group topology) m nodes) ≡ₚ nodes ++ flat m.
Proof.
  revert m. induction nodes as [|n nodes IH]; intros m; simpl; [done|].
  by rewrite IH, flat_add, Permutation_middle.
Qed.

Definition keyed (topology : string) (m : gmap string (list ScoredNode)) : Prop :=
  ∀ k l n, m !! k = Some l → n ∈ l → topology_key topology n = k.

Lemma groups_keyed topology nodes m :
  keyed topology m → keyed topology (foldl (add_to_group topology) m nodes).
Proof.
  revert m. induction nodes as [|n nodes IH]; intros m Hm; simpl; [done|].
  apply IH. intros k l n' Hk Hn'. unfold add_to_group in Hk.
  destruct (decide (topology_key topology n = k)) as [Heq|Hne].
  - rewrite Heq, lookup_insert_eq in Hk. injection Hk as <-.
    apply elem_of_app in Hn' as [Hn'|Hn'].
    + destruct (m !! k) eqn:Hmk; [by eapply Hm|by apply elem_of_nil in Hn'].
    + by apply list_elem_of_singleton in Hn' as ->.
  - rewrite lookup_insert_ne in Hk by done. eauto.
Qed.

Lemma flat_map_fmap_perm (f : list ScoredNode → list ScoredNode)
    (l : list (string * list ScoredNode)) :
  (∀ x, f x ≡ₚ x) → flat_map snd (prod_map id f <$> l) ≡ₚ flat_map snd l.
Proof. intros Hf. induction l as [|[k x] l IH]; csimpl; [done|]. by rewrite Hf, IH. Qed.

(** What iterating over the sorted groups yields: distinct keys, each with
    its own nodes, together all nodes. *)
Record grouping (topology : string) (nodes : list ScoredNode)
    (gs : list (string * list ScoredNode)) : Prop := {
  grouping_keys : NoDup gs.*1;
  grouping_keyed : ∀ g n, g ∈ gs → n ∈ g.2 → topology_key topology n = g.1;
  grouping_flat : flat_map snd gs ≡ₚ nodes
}.

Lemma groupNodes_grouping `{GoSort} (order : GoRange) nodes topology :
  grouping topology nodes (range_map (groupNodes nodes topology)).
Proof.
  split.
  - rewrite range_map_perm. apply NoDup_fst_map_to_list.
  - intros [k l] n Hg Hn. apply elem_of_range_map in Hg. unfold groupNodes in Hg.
    rewrite lookup_fmap in Hg. apply fmap_Some in Hg as (l' & Hl' & ->). simpl in *.
    rewrite sort_slice_perm in Hn.
    eapply groups_keyed; [|done|done]. by intros ???; rewrite lookup_empty.
  - rewrite (flat_map_perm snd snd _ _ (range_map_perm _ _)) by done.
    unfold groupNodes. rewrite map_to_list_fmap, flat_map_fmap_perm by apply sort_slice_perm.
    change (flat_map snd (map_to_list ?m)) with (flat m). rewrite flat_groups.
    unfold flat. by rewrite map_to_list_empty, app_nil_r.
Qed.

Section spread.
Context {A : Type} (id : A → string) (cap : ScoredNode → bool) (topology : string).
Context (pick : list ScoredNode → option ScoredNode) (mk1 mk2 : ScoredNode → Z → A).
Context (replicas : Z).
Hypothesis pick_some : ∀ l n, pick l = Some n → n ∈ l ∧ cap n = true.
Hypothesis pick_none : ∀ l, pick l = None → ∀ n, n ∈ l → cap n = false.
Hypothesis id_mk1 : ∀ n i, id (mk1 n i) = node_ID (sn_Node n).
Hypothesis id_mk2 : ∀ n i, id (mk2 n i) = node_ID (sn_Node n).

Abbreviation key := (topology_key topology).
Abbreviation nid n := (node_ID (sn_Node n)).

(** The placements [ps] are those of the nodes [ns], in order. *)
Definition places (ps : list A) (ns : list ScoredNode) : Prop :=
  Forall2 (fun p n => (∃ i, p = mk1 n i ∨ p = mk2 n i)) ps ns.

Lemma places_ids ps ns : places ps ns → id <$> ps = (fun n => nid n) <$> ns.
Proof.
  induction 1 as [|p n ps ns (i & [->| ->]) _ IH]; csimpl; [done| |];
    rewrite IH; by rewrite ?id_mk1, ?id_mk2.
Qed.

Lemma places_len ps ns : places ps ns → len ps = len ns.
Proof. intros Hp. unfold len. by rewrite (Forall2_length _ _ _ Hp). Qed.

Lemma hasReplica_spec ps ns n :
  places ps ns →
  existsb (fun p => id p =?s nid n) ps = true ↔ nid n ∈ (fun n => nid n) <$> ns.
Proof.
  intros Hp. rewrite existsb_exists', <-(places_ids _ _ Hp), list_elem_of_fmap.
  split; intros (p & H1 & H2); exists p; split; try done; by bool_to_prop || apply bool_decide_eq_true_2.
Qed.

(** The first pass over the groups [gs] chose the nodes [ns]: of distinct
    groups, and a group with a suitable node is left out only when all
    replicas are placed. *)
Record pass1 (gs : list (string * list ScoredNode)) (ps : list A) (ns : list ScoredNode) : Prop := {
  pass1_places : places ps ns;
  pass1_keys : NoDup (key <$> ns);
  pass1_cap : ∀ n, n ∈ ns → cap n = true ∧ ∃ g, g ∈ gs ∧ n ∈ g.2;
  pass1_len : len ns ≤ Z.max 0 replicas;
  pass1_cover : replicas ≤ len ns ∨
    ∀ g n, g ∈ gs → n ∈ g.2 → cap n = true → key n ∈ key <$> ns
}.

Lemma places_snoc ps ns n i :
  places ps ns → places (ps ++ [mk1 n i]) (ns ++ [n]) ∧ places (ps ++ [mk2 n i]) (ns ++ [n]).
Proof. intros. split; apply Forall2_app; try done; repeat constructor; eauto. Qed.

Lemma len_snoc {B} (l : list B) x : len (l ++ [x]) = len l + 1.
Proof. unfold len. rewrite length_app. simpl. lia. Qed.

Lemma pass1_step gs g ps ns :
  (∀ g' n, g' ∈ gs ++ [g] → n ∈ g'.2 → key n = g'.1) → g.1 ∉ gs.*1 →
  pass1 gs ps ns → ∃ ns', pass1 (gs ++ [g]) (spread_group pick mk1 replicas ps g) ns'.
Proof.
  intros Hkey Hg [Hpl Hk Hcap Hlen Hcov]. unfold spread_group.
  assert (∀ x, x ∈ gs → x ∈ gs ++ [g]) as Hin by (intros; apply elem_of_app; by left).
  assert (g ∈ gs ++ [g]) as Hgin by (apply elem_of_app; right; by apply list_elem_of_singleton).
  rewrite (places_len _ _ Hpl). destruct (replicas <=? len ns) eqn:Hr; bool_to_prop.
  { exists ns. split; auto. intros n Hn. destruct (Hcap n Hn) as (? & g' & ? & ?). eauto. }
  destruct (pick g.2) as [m|] eqn:Hp.
  - apply pick_some in Hp as [Hm Hc]. exists (ns ++ [m]).
    split; [by apply places_snoc| | | |].
    + rewrite fmap_app. apply NoDup_app. split; [done|split; [|by apply NoDup_singleton]].
      intros k Hkn ->%list_elem_of_singleton. apply Hg.
      rewrite <-(Hkey g m) by done. apply list_elem_of_fmap in Hkn as (n & Hnk & Hn).
      destruct (Hcap n Hn) as (_ & g' & Hg' & Hn'). rewrite Hnk, (Hkey g' n) by auto.
      by apply list_elem_of_fmap_2.
    + intros n [Hn| ->%list_elem_of_singleton]%elem_of_app; [|eauto].
      destruct (Hcap n Hn) as (? & g' & ? & ?). eauto.
    + rewrite len_snoc. lia.
    + rewrite len_snoc. destruct Hcov as [?|Hcov]; [left; lia|right].
      intros g' n [Hg'| ->%list_elem_of_singleton]%elem_of_app Hn Hcn;
        rewrite fmap_app; apply elem_of_app; [left; eauto|right].
      rewrite (Hkey g n), <-(Hkey g m) by done. by apply list_elem_of_singleton.
  - exists ns. split; auto; [intros n Hn; destruct (Hcap n Hn) as (? & g' & ? & ?); eauto|].
    destruct Hcov as [?|Hcov]; [by left|right].
    intros g' n [Hg'| ->%list_elem_of_singleton]%elem_of_app Hn Hcn; [eauto|].
    by rewrite (pick_none _ Hp n Hn) in Hcn.
Qed.

Lemma pass1_loop gs :
  (∀ g n, g ∈ gs → n ∈ g.2 → key n = g.1) → NoDup gs.*1 →
  ∃ ns, pass1 gs (foldl (spread_group pick mk1 replicas) [] gs) ns.
Proof.
  induction gs as [|g gs IH] using rev_ind; intros Hkey Hnd.
  - exists []. split; simpl.
    + constructor.
    + constructor.
    + by intros ? ?%elem_of_nil.
    + unfold len; simpl; lia.
    + right. by intros ? ? ?%elem_of_nil.
  - rewrite fmap_app in Hnd. apply NoDup_app in Hnd as (Hnd & Hdis & _).
    destruct IH as [ns Hns]; [|done|].
    { intros g' n Hg'. apply Hkey. apply elem_of_app. by left. }
    rewrite foldl_app. simpl. apply (pass1_step _ _ _ ns); auto.
    intros Hg. apply (Hdis g.1 Hg). by apply list_elem_of_singleton.
Qed.

(** The second pass over the nodes [l]: the identifiers stay distinct, and a
    suitable node is left out only when all replicas are placed. *)
Record pass2 (ns0 l : list ScoredNode) (ps : list A) (ns : list ScoredNode) : Prop := {
  pass2_places : places ps ns;
  pass2_prefix : ∃ ext, ns = ns0 ++ ext ∧ (replicas ≤ len ns0 → ext = []);
  pass2_ids : NoDup ((fun n => nid n) <$> ns);
  pass2_cap : ∀ n, n ∈ ns → n ∈ ns0 ∨ (cap n = true ∧ n ∈ l);
  pass2_len : len ns ≤ Z.max 0 replicas;
  pass2_cover : replicas ≤ len ns ∨
    ∀ n, n ∈ l → cap n = true → nid n ∈ (fun n => nid n) <$> ns
}.

Lemma pass2_step ns0 l n ps ns :
  pass2 ns0 l ps ns →
  ∃ ns', pass2 ns0 (l ++ [n]) (spread_rest id cap mk2 replicas ps n) ns'.
Proof.
  intros [Hpl (ext & Hext & Hfull) Hids Hcap Hlen Hcov]. unfold spread_rest.
  assert (∀ m, m ∈ ns → m ∈ ns0 ∨ cap m = true ∧ m ∈ l ++ [n]) as Hcap'.
  { intros m Hm. destruct (Hcap m Hm) as [?|[? ?]]; [by left|right].
    split; [done|]. apply elem_of_app. by left. }
  rewrite (places_len _ _ Hpl). destruct (replicas <=? len ns) eqn:Hr; bool_to_prop.
  { exists ns. split; eauto. }
  destruct Hcov as [?|Hcov]; [lia|].
  destruct (existsb _ ps) eqn:Hrep; simpl.
  { exists ns. split; eauto. right.
    intros m [Hm| ->%list_elem_of_singleton]%elem_of_app Hc; [auto|].
    by apply (hasReplica_spec ps ns n Hpl). }
  destruct (cap n) eqn:Hc.
  - exists (ns ++ [n]). split; [by apply places_snoc| | | | |].
    + exists (ext ++ [n]). rewrite Hext, app_assoc. split; [done|]. intros Hge.
      rewrite (Hfull Hge), app_nil_r in Hext. subst. lia.
    + rewrite fmap_app. apply NoDup_app. split; [done|split; [|by apply NoDup_singleton]].
      intros i Hi ->%list_elem_of_singleton.
      apply (hasReplica_spec ps ns n Hpl) in Hi. congruence.
    + intros m [Hm| ->%list_elem_of_singleton]%elem_of_app; [auto|right].
      split; [done|]. apply elem_of_app. right. by apply list_elem_of_singleton.
    + rewrite len_snoc. lia.
    + right. intros m [Hm| ->%list_elem_of_singleton]%elem_of_app Hcm;
        rewrite fmap_app; apply elem_of_app; [left; auto|right; by apply list_elem_of_singleton].
  - exists ns. split; eauto. right.
    intros m [Hm| ->%list_elem_of_singleton]%elem_of_app Hcm; [auto|congruence].
Qed.

Lemma pass2_loop ns0 l ps :
  places ps ns0 → NoDup ((fun n => nid n) <$> ns0) → len ns0 ≤ Z.max 0 replicas →
  ∃ ns, pass2 ns0 l (foldl (spread_rest id cap mk2 replicas) ps l) ns.
Proof.
  intros Hpl Hnd Hlen. induction l as [|n l [ns IH]] using rev_ind.
  - exists ns0. split; auto; [|right; by intros ? ?%elem_of_nil].
    exists []. by rewrite app_nil_r.
  - rewrite foldl_app. simpl. by eapply pass2_step.
Qed.

(** The specification of a spread placement: distinct suitable nodes, as
    many as there are replicas or suitable nodes, and two replicas share a
    group only when every group with a suitable node has one. *)
Record spread_spec (nodes : list ScoredNode) (ps : list A) (ns : list ScoredNode) : Prop := {
  spread_places : places ps ns;
  spread_ids : NoDup ((fun n => nid n) <$> ns);
  spread_cap : ∀ n, n ∈ ns → n ∈ nodes ∧ cap n = true;
  spread_len : len ns = Z.min (Z.max 0 replicas) (len (List.filter cap nodes));
  spread_even : NoDup (key <$> ns) ∨
    ∀ n, n ∈ nodes → cap n = true → key n ∈ key <$> ns
}.

Lemma length_incl_NoDup {B} (l k : list B) :
  NoDup l → (∀ x, x ∈ l → x ∈ k) → (length l ≤ length k)%nat.
Proof. intros Hl Hlk. by apply submseteq_length, NoDup_submseteq. Qed.

Lemma spread_passes_len nodes ns :
  NoDup ((fun n => nid n) <$> nodes) → NoDup ((fun n => nid n) <$> ns) →
  (∀ n, n ∈ ns → n ∈ nodes ∧ cap n = true) → len ns ≤ Z.max 0 replicas →
  (replicas ≤ len ns ∨ ∀ n, n ∈ nodes → cap n = true → nid n ∈ (fun n => nid n) <$> ns) →
  len ns = Z.min (Z.max 0 replicas) (len (List.filter cap nodes)).
Proof.
  intros Hnd Hids Hin Hlen Hcov.
  assert (length ns ≤ length (List.filter cap nodes))%nat as Hle.
  { apply length_incl_NoDup; [by eapply NoDup_fmap_1|].
    intros n Hn. apply list_elem_of_In, filter_In. rewrite <-list_elem_of_In. auto. }
  destruct Hcov as [Hge|Hcov]; unfold len in *; [lia|].
  enough (length (List.filter cap nodes) ≤ length ns)%nat by lia.
  rewrite <-(length_fmap (fun n => nid n) ns), <-(length_fmap (fun n => nid n) (List.filter _ _)).
  apply length_incl_NoDup.
  - eapply sublist_NoDup; [apply Hnd|]. apply fmap_sublist. clear.
    induction nodes; simpl; [constructor|]. case_match; by constructor.
  - intros i (n & -> & Hn)%list_elem_of_fmap.
    apply list_elem_of_In, filter_In in Hn as [Hn Hc]. rewrite <-list_elem_of_In in Hn. auto.
Qed.

(** Both passes together meet the specification, for every iteration order. *)
Lemma spread_correct nodes gs all :
  NoDup ((fun n => nid n) <$> nodes) → grouping topology nodes gs → all ≡ₚ nodes →
  ∃ ns, spread_spec nodes (foldl (spread_rest id cap mk2 replicas)
    (foldl (spread_group pick mk1 replicas) [] gs) all) ns.
Proof.
  intros Hnd [Hgk Hgn Hgf] Hall.
  assert (∀ g n, g ∈ gs → n ∈ g.2 → n ∈ nodes) as Hin.
  { intros g n Hg Hn. rewrite <-Hgf. apply list_elem_of_In, in_flat_map. exists g.
    by rewrite <-!list_elem_of_In. }
  destruct (pass1_loop gs Hgn Hgk) as [ns1 [Hpl1 Hk1 Hcap1 Hlen1 Hcov1]].
  assert (NoDup ((fun n => nid n) <$> ns1)) as Hids1.
  { assert (∀ n, n ∈ ns1 → n ∈ nodes) as Hsub
      by (intros n Hn; destruct (Hcap1 n Hn) as (_ & g & ? & ?); eauto).
    apply NoDup_fmap_1 in Hk1. revert Hk1 Hsub. clear -Hnd.
    induction ns1 as [|n ns1 IH]; csimpl; intros Hk Hsub; [constructor|].
    apply NoDup_cons in Hk as [Hn Hk]. apply NoDup_cons. split; [|apply IH; auto; intros; apply Hsub; by right].
    intros (m & Heq & Hm)%list_elem_of_fmap. apply Hn.
    assert (n = m) as ->; [|done].
    assert (n ∈ nodes) as [i Hi]%list_elem_of_lookup by (apply Hsub; left).
    assert (m ∈ nodes) as [j Hj]%list_elem_of_lookup by (apply Hsub; by right).
    enough (i = j) by congruence. eapply (NoDup_lookup _ i j (nid n)); [exact Hnd| |];
      rewrite list_lookup_fmap, ?Hi, ?Hj; simpl; congruence. }
  destruct (pass2_loop ns1 all _ Hpl1 Hids1 Hlen1) as [ns [Hpl (ext & -> & Hfull) Hids Hcap Hlen Hcov]].
  assert (∀ n, n ∈ ns1 ++ ext → n ∈ nodes ∧ cap n = true) as Hsuit.
  { intros n Hn. destruct (Hcap n Hn) as [H1|[Hc Hl]]; [|by rewrite Hall in Hl].
    destruct (Hcap1 n H1) as (? & g & ? & ?). eauto. }
  exists (ns1 ++ ext). split; try done.
  - apply spread_passes_len; try done. destruct Hcov as [?|Hcov]; [by left|right].
    intros n Hn. apply Hcov. by rewrite Hall.
  - destruct Hcov1 as [Hge|Hcov1]; [left; by rewrite (Hfull Hge), app_nil_r|right].
    intros n Hn Hc. rewrite <-Hgf in Hn.
    apply list_elem_of_In, in_flat_map in Hn as (g & Hg & Hn).
    rewrite <-list_elem_of_In in Hg. rewrite <-list_elem_of_In in Hn.
    rewrite fmap_app. apply elem_of_app. left. eauto.
Qed.

Lemma spread_rest_done l ps :
  replicas ≤ len ps → foldl (spread_rest id cap mk2 replicas) ps l = ps.
Proof.
  intros Hge. induction l as [|n l IH]; simpl; [done|].
  unfold spread_rest at 2. by rewrite (proj2 (Z.leb_le _ _)).
Qed.

End spread.

Lemma selectBestNode_some res l n :
  selectBestNode l res = Some n → n ∈ l ∧ nodeHasCapacity (sn_Node n) res = true.
Proof.
  unfold selectBestNode. destruct (list_find _ l) as [[i m]|] eqn:E; [|done].
  intros [= ->]. apply list_find_Some in E as (Hi & Hc & _).
  split; [by eapply list_elem_of_lookup_2|done].
Qed.

Lemma selectBestNode_none res l :
  selectBestNode l res = None → ∀ n, n ∈ l → nodeHasCapacity (sn_Node n) res = false.
Proof.
  unfold selectBestNode. destruct (list_find _ l) as [[i m]|] eqn:E; [done|]. intros _ n Hn.
  apply list_find_None in E. rewrite Forall_forall in E. apply not_true_iff_false. by apply E.
Qed.

(** [PackWithSpread] places replicas on distinct nodes with enough free
    resources, as many as there are replicas or such nodes, and puts two
    replicas into one zone (region, node) only when every zone with a
    suitable node has a replica; in whatever order the groups are visited. *)
Theorem PackWithSpread_correct `{GoSort} order1 order2 nodes res replicas topology :
  NoDup ((fun n => node_ID (sn_Node n)) <$> nodes) →
  ∃ ns, spread_spec (fun n => nodeHasCapacity (sn_Node n) res) topology place_node place_node
    replicas nodes (PackWithSpread order1 order2 nodes res replicas topology) ns.
Proof.
  intros Hnd. unfold PackWithSpread.
  set (all := sort_slice score_greater _).
  destruct (spread_correct pl_NodeID (fun n => nodeHasCapacity (sn_Node n) res) topology
    (fun g => selectBestNode g res) place_node place_node replicas (selectBestNode_some res)
    (selectBestNode_none res) (fun _ _ => eq_refl) (fun _ _ => eq_refl) nodes
    (range_map (groupNodes nodes topology)) all Hnd (groupNodes_grouping order1 nodes topology))
    as [ns Hns].
  { unfold all. rewrite sort_slice_perm. apply (groupNodes_grouping order2 nodes topology). }
  exists ns. case_match eqn:Hlt; [done|]. bool_to_prop.
  by rewrite spread_rest_done in Hns.
Qed.

(** ** A sample cluster *)

Definition no_usage : ResourceUsage :=
  {| ru_CPUMillicores := 0; ru_MemoryBytes := 0; ru_StorageBytes := 0; ru_BandwidthBPS := 0;
     ru_GPUCount := 0; ru_CPUPercent := f0; ru_MemoryPercent := f0 |}.

Definition sample_node (id zone : string) (cpu mem storage : Z) : NodeInfo :=
  {| node_ID := id; node_Name := id; node_Region := "eu"; node_Zone := zone;
     node_State := StateReady; node_LastHeartbeat := 0; node_EnrolledAt := 0;
     node_JoinStartedAt := 0; node_JoinConvergedAt := 0; node_LeaveStartedAt := 0;
     node_LeaveConvergedAt := 0;
     node_Capabilities := {| ncap_ContainerRuntimes := []; ncap_SupportsGPU := false;
       ncap_SupportsARM := false; ncap_SupportsX86 := true; ncap_NetworkFeatures := [];
       ncap_StorageClasses := [] |};
     node_Capacity := {| rc_CPUMillicores := cpu; rc_MemoryBytes := mem;
       rc_StorageBytes := storage; rc_BandwidthBPS := 0; rc_GPUCount := 0 |};
     node_Usage := no_usage; node_Labels := ∅; node_Taints := [];
     node_ReliabilityScore := flit 9 10; node_Fragments := []; node_Containers := [];
     node_NetworkInfo := {| ni_PrivateIP := ""; ni_PublicIP := ""; ni_Hostname := "";
       ni_DNSNames := []; ni_OverlayIP := ""; ni_ListenAddress := "" |};
     node_Conditions := []; node_HeartbeatInterval := DefaultHeartbeatInterval |}.

Definition sample_scored (n : NodeInfo) : ScoredNode :=
  {| sn_Node := n; sn_Score := flit 5 10;
     sn_Components := {| LocalityScore := f0; ReliabilityScore := f0; CostScore := f0;
                         UtilizationScore := f0; NetworkPenalty := f0 |} |}.

Definition sample_nodes : list NodeInfo :=
  [sample_node "a" "z1" 1000 4000 9000; sample_node "b" "z1" 300 9000 9000;
   sample_node "c" "z2" 2000 1000 9000].

Definition sample_req : ResourceSpec :=
  {| rs_CPUMillicores := 500; rs_MemoryBytes := 1000; rs_StorageBytes := 0;
     rs_BandwidthBPS := 0; rs_GPUCount := 0 |}.

Lemma sample_req_nonneg : nonneg_spec sample_req.
Proof. split; simpl; lia. Qed.

(** Two replicas on [a], none on [b], one on [c]; the fourth fits nowhere. *)
Example sample_pack :
  pl_NodeID <$> @Pack sort_insertion (sample_scored <$> sample_nodes) sample_req 4 =
  ["a"; "a"; "c"]%string.
Proof. by vm_compute. Qed.

Lemma Pack_optimal_witness :
  feasible (sn_Node <$> (sample_scored <$> sample_nodes)) sample_req
    (cnt (@Pack sort_insertion (sample_scored <$> sample_nodes) sample_req 4)).
Proof.
  apply (@Pack_optimal sort_insertion (sample_scored <$> sample_nodes) sample_req 4).
  - by apply (bool_decide_unpack _).
  - apply sample_req_nonneg.
Defined.

Lemma PackBestFit_optimal_witness :
  feasible (sn_Node <$> (sample_scored <$> sample_nodes)) sample_req
    (cnt (PackBestFit (sample_scored <$> sample_nodes) sample_req 4)).
Proof.
  apply (PackBestFit_optimal (sample_scored <$> sample_nodes) sample_req 4).
  - by apply (bool_decide_unpack _).
  - apply sample_req_nonneg.
  - repeat constructor; by vm_compute.
Defined.

Lemma PackWithSpread_correct_witness :
  ∃ ns, spread_spec (fun n => nodeHasCapacity (sn_Node n) sample_req) "zone" place_node place_node
    3 (sample_scored <$> sample_nodes)
    (@PackWithSpread sort_insertion range_canonical range_reversed
       (sample_scored <$> sample_nodes) sample_req 3 "zone") ns.
Proof.
  apply (@PackWithSpread_correct sort_insertion range_canonical range_reversed
    (sample_scored <$> sample_nodes) sample_req 3 "zone").
  by apply (bool_decide_unpack _).
Defined.
