(* ===== verification/Scheduler.v ===== *)
(** * The scheduler (pkg/scheduler/scheduler.go)

    [Schedule], [Reschedule] and [PreemptWorkloads] over the nodes the
    membership manager lists.  The manager is known only through the
    [NodeLister] interface.  A clock reading of [generateFragmentID] is an
    input, indexed by the decision it is made for. *)

From S2P Require Import Prelude GoText GoFloat Node Scorer BinPack.

Record SchedulerConfig := {
  cfg_LocalityWeight : float64;
  cfg_ReliabilityWeight : float64;
  cfg_CostWeight : float64;
  cfg_UtilizationWeight : float64;
  cfg_NetworkPenaltyWeight : float64;
  cfg_MaxRetries : Z;
  cfg_RetryBackoff : Z;
  cfg_SpreadPolicy : string;
  cfg_PackingStrategy : string;
  cfg_PreferredLocality : string;
  cfg_EnforcePlacement : bool
}.

Record ScheduleDecision := {
  dec_ReplicaID : string;
  dec_NodeID : string;
  dec_NodeName : string;
  dec_FragmentID : string;
  dec_Score : float64;
  dec_Reasons : list string
}.

Record ScheduleResult := {
  res_Decisions : list ScheduleDecision;
  res_Success : bool;
  res_Message : string;
  res_UnscheduledReplicas : Z
}.

Definition DefaultSchedulerConfig : SchedulerConfig := {|
  cfg_LocalityWeight := flit 25 100;
  cfg_ReliabilityWeight := flit 30 100;
  cfg_CostWeight := flit 15 100;
  cfg_UtilizationWeight := flit 20 100;
  cfg_NetworkPenaltyWeight := flit 10 100;
  cfg_MaxRetries := 3;
  cfg_RetryBackoff := second;
  cfg_SpreadPolicy := "zone";
  cfg_PackingStrategy := "binpack";
  cfg_PreferredLocality := "";
  cfg_EnforcePlacement := false
|}.

Record Scheduler (M : Type) := {
  membershipManager : M;
  scorer : ScorerConfig;
  config : SchedulerConfig
}.
Arguments membershipManager {M} _.
Arguments scorer {M} _.
Arguments config {M} _.

Definition scorer_weights (c : SchedulerConfig) : ScorerConfig := {|
  sc_LocalityWeight := cfg_LocalityWeight c;
  sc_ReliabilityWeight := cfg_ReliabilityWeight c;
  sc_CostWeight := cfg_CostWeight c;
  sc_UtilizationWeight := cfg_UtilizationWeight c;
  sc_NetworkPenaltyWeight := cfg_NetworkPenaltyWeight c
|}.

(** [NewScheduler]; [logger] tells whether a logger was given. *)
Definition NewScheduler {M} (manager : option M) (cfg : option SchedulerConfig) (logger : bool)
    : result string (Scheduler M) :=
  match manager with
  | None => Err "membership manager is required"%string
  | Some m =>
      let c := default DefaultSchedulerConfig cfg in
      if logger then
        Ok {| membershipManager := m; scorer := NewScorer (scorer_weights c); config := c |}
      else Err "logger is required"%string
  end.

Definition UpdateSchedulerConfig {M} (s : Scheduler M) (c : SchedulerConfig) : Scheduler M :=
  {| membershipManager := membershipManager s;
     scorer := UpdateWeights (scorer_weights c);
     config := c |}.

(** ** Filtering *)

Definition hasEnoughResources (node : NodeInfo) (requests : ResourceSpec) : bool :=
  (rs_CPUMillicores requests <=? free_cpu node) &&
  (rs_MemoryBytes requests <=? free_memory node) &&
  (rs_StorageBytes requests <=? free_storage node).

Definition matchesToleration (taint : Taint) (toleration : Toleration) : bool :=
  if negb (tol_Key toleration =?s taint_Key taint) then false
  else if tol_Operator toleration =?s "Exists" then true
  else if (tol_Operator toleration =?s "Equal") && (tol_Value toleration =?s taint_Value taint)
  then (tol_Effect toleration =?s "") || (tol_Effect toleration =?s taint_Effect taint)
  else false.

Definition toleratesTaints (node : NodeInfo) (tolerations : list Toleration) : bool :=
  forallb (fun taint =>
    let tolerated := existsb (matchesToleration taint) tolerations in
    negb (negb tolerated && (taint_Effect taint =?s "NoSchedule"))) (node_Taints node).

Definition in_list_of (x : string) (l : list string) : bool := existsb (fun y => x =?s y) l.

Section scheduler.
Context `{GoRange}.

Definition matchesAffinity (node : NodeInfo) (affinity : AffinityRule) : bool :=
  if aff_Type affinity =?s "node" then
    labels_match (aff_MatchLabels affinity) (node_Labels node)
  else false.

Definition matchesPlacementPolicy (node : NodeInfo) (policy : PlacementPolicy) : bool :=
  if (0 <? len (pp_Regions policy)) && negb (in_list_of (node_Region node) (pp_Regions policy))
  then false
  else if (0 <? len (pp_Zones policy)) && negb (in_list_of (node_Zone node) (pp_Zones policy))
  then false
  else if negb (labels_match (pp_NodeSelector policy) (node_Labels node)) then false
  else if existsb (fun a => aff_Required a && negb (matchesAffinity node a)) (pp_Affinity policy)
  then false
  else if existsb (fun a => aff_Required a && matchesAffinity node a) (pp_AntiAffinity policy)
  then false
  else true.

(** The four guards of the loop of [filterNodes]. *)
Definition keep_node (workload : WorkloadSpec) (node : NodeInfo) : bool :=
  if negb (node_State node =?s StateReady) then false
  else if negb (hasEnoughResources node (rr_Requests (w_Resources workload))) then false
  else if negb (matchesPlacementPolicy node (w_PlacementPolicy workload)) then false
  else if negb (toleratesTaints node (pp_Tolerations (w_PlacementPolicy workload))) then false
  else true.

Definition filterNodes (nodes : list NodeInfo) (workload : WorkloadSpec) : list NodeInfo :=
  List.filter (keep_node workload) nodes.

Definition filterFailedNodes (nodes : list NodeInfo) (failedNodeIDs : list string)
    : list NodeInfo :=
  let failedSet : gset string := list_to_set failedNodeIDs in
  List.filter (fun node =>
    if bool_decide (node_ID node ∈ failedSet) then false
    else if (node_State node =?s StateFailed) || (node_State node =?s StateOffline) then false
    else true) nodes.

(** ** Placement strategies *)

Definition scoreNodes (s : ScorerConfig) (nodes : list NodeInfo) (workload : WorkloadSpec)
    : list ScoredNode :=
  (fun node => ScoreNode s node workload) <$> nodes.

(** [generateFragmentID], from its two readings of the clock. *)
Definition generateFragmentID (reading : Z * Z) : string :=
  "fragment-" +:+ show_Z (reading.1 / second) +:+ "-" +:+ show_Z (reading.2 mod second).

Definition replica_id (workload : WorkloadSpec) (i : Z) : string :=
  w_ID workload +:+ "-" +:+ show_Z i.

(** The loop of [binPackSchedule] with [scheduled] decisions made. *)
Fixpoint binpack_decisions (clock : Z → Z * Z) (workload : WorkloadSpec)
    (packing : list Placement) (scheduled : Z) : list ScheduleDecision :=
  match packing with
  | [] => []
  | placement :: rest =>
      {| dec_ReplicaID := replica_id workload scheduled;
         dec_NodeID := pl_NodeID placement;
         dec_NodeName := pl_NodeName placement;
         dec_FragmentID := generateFragmentID (clock scheduled);
         dec_Score := pl_Score placement;
         dec_Reasons := ["bin-packed"%string] |} ::
      (if w_Replicas workload <=? scheduled + 1 then []
       else binpack_decisions clock workload rest (scheduled + 1))
  end.

Definition node_decision (clock : Z → Z * Z) (workload : WorkloadSpec) (reason : string)
    (node : ScoredNode) (i : Z) : ScheduleDecision := {|
  dec_ReplicaID := replica_id workload i;
  dec_NodeID := node_ID (sn_Node node);
  dec_NodeName := node_Name (sn_Node node);
  dec_FragmentID := generateFragmentID (clock i);
  dec_Score := sn_Score node;
  dec_Reasons := [reason]
|}.

Context `{GoSort}.

Definition binPackSchedule (clock : Z → Z * Z) (nodes : list ScoredNode)
    (workload : WorkloadSpec) : list ScheduleDecision :=
  let packing := Pack nodes (rr_Requests (w_Resources workload)) (w_Replicas workload) in
  binpack_decisions clock workload packing 0.

Definition groupNodesByTopology (nodes : list ScoredNode) (topology : string)
    : gmap string (list ScoredNode) :=
  sort_slice score_greater <$> foldl (add_to_group topology) ∅ nodes.

(** The spread strategy: the first node of every group, then the remaining
    nodes in score order. *)
Definition spreadSchedule (clock : Z → Z * Z) (spreadPolicy : string) (nodes : list ScoredNode)
    (workload : WorkloadSpec) : list ScheduleDecision :=
  let nodeGroups := groupNodesByTopology nodes spreadPolicy in
  let decisions :=
    foldl (spread_group head
      (node_decision clock workload ("spread across " +:+ spreadPolicy)) (w_Replicas workload))
      [] (range_map nodeGroups) in
  foldl (spread_rest dec_NodeID (fun _ => true)
    (node_decision clock workload "spread overflow") (w_Replicas workload)) decisions nodes.

Definition defaultSchedule (clock : Z → Z * Z) (nodes : list ScoredNode)
    (workload : WorkloadSpec) : list ScheduleDecision :=
  imap (fun i node => node_decision clock workload "default placement" node (Z.of_nat i))
    (take (Z.to_nat (w_Replicas workload)) nodes).

(** Scoring, sorting and the switch on the packing strategy, which
    [Schedule] and [Reschedule] share. *)
Definition place_replicas (clock : Z → Z * Z) (scorer : ScorerConfig) (cfg : SchedulerConfig)
    (candidateNodes : list NodeInfo) (workload : WorkloadSpec) : list ScheduleDecision :=
  let scoredNodes := scoreNodes scorer candidateNodes workload in
  let scoredNodes := sort_slice score_greater scoredNodes in
  if cfg_PackingStrategy cfg =?s "binpack" then binPackSchedule clock scoredNodes workload
  else if cfg_PackingStrategy cfg =?s "spread" then
    spreadSchedule clock (cfg_SpreadPolicy cfg) scoredNodes workload
  else defaultSchedule clock scoredNodes workload.

Definition no_placement (message : string) (workload : WorkloadSpec) : ScheduleResult := {|
  res_Decisions := [];
  res_Success := false;
  res_Message := message;
  res_UnscheduledReplicas := w_Replicas workload
|}.

Context `{NodeLister M}.

Definition Schedule (clock : Z → Z * Z) (s : Scheduler M) (workload : WorkloadSpec)
    : result string ScheduleResult :=
  match ListNodes (membershipManager s) with
  | Err err => Err ("failed to list nodes: " +:+ err)
  | Ok nodes =>
      let candidateNodes := filterNodes nodes workload in
      if len candidateNodes =? 0 then Ok (no_placement "No nodes match requirements" workload)
      else
        let decisions := place_replicas clock (scorer s) (config s) candidateNodes workload in
        let scheduled := len decisions in
        Ok {| res_Decisions := decisions;
              res_Success := scheduled =? w_Replicas workload;
              res_Message :=
                if scheduled =? w_Replicas workload
                then "Successfully scheduled " +:+ show_Z scheduled +:+ " replicas"
                else "Only scheduled " +:+ show_Z scheduled +:+ " of "
                     +:+ show_Z (w_Replicas workload) +:+ " replicas";
              res_UnscheduledReplicas := int64 (w_Replicas workload - scheduled) |}
  end.

Definition Reschedule (clock : Z → Z * Z) (s : Scheduler M) (workload : WorkloadSpec)
    (failedNodes : list string) (currentReadyReplicas : Z) : result string ScheduleResult :=
  let minAvailable := ro_MinAvailable (w_RolloutStrategy workload) in
  if (0 <? minAvailable) && (currentReadyReplicas <? minAvailable) then
    Err ("cannot reschedule: current ready replicas (" +:+ show_Z currentReadyReplicas
         +:+ ") below minAvailable (" +:+ show_Z minAvailable
         +:+ ") - wait for capacity or reduce minAvailable")
  else match ListNodes (membershipManager s) with
  | Err err => Err ("failed to list nodes: " +:+ err)
  | Ok nodes =>
      let healthyNodes := filterFailedNodes nodes failedNodes in
      if len healthyNodes =? 0 then
        Ok (no_placement "No healthy nodes available after excluding failed nodes" workload)
      else
        let candidateNodes := filterNodes healthyNodes workload in
        if len candidateNodes =? 0 then
          Ok (no_placement "No nodes match requirements - insufficient capacity in VRN" workload)
        else
          let requests := rr_Requests (w_Resources workload) in
          let hasCapacity := existsb (fun n => hasEnoughResources n requests) candidateNodes in
          if negb hasCapacity then
            Ok (no_placement ("Insufficient capacity in VRN for workload requirements (CPU: "
                  +:+ show_Z (rs_CPUMillicores requests) +:+ " mCores, Mem: "
                  +:+ show_Z (rs_MemoryBytes requests) +:+ " bytes)") workload)
          else
            let decisions := place_replicas clock (scorer s) (config s) candidateNodes workload in
            let scheduled := len decisions in
            Ok {| res_Decisions := decisions;
                  res_Success := scheduled =? w_Replicas workload;
                  res_Message :=
                    if scheduled =? w_Replicas workload
                    then "Successfully rescheduled " +:+ show_Z scheduled
                         +:+ " replicas on healthy nodes"
                    else "Partially rescheduled " +:+ show_Z scheduled +:+ " of "
                         +:+ show_Z (w_Replicas workload) +:+ " replicas - insufficient capacity";
                  res_UnscheduledReplicas := int64 (w_Replicas workload - scheduled) |}
  end.

(** ** Preemption *)

Record PreemptionCandidate := {
  pc_WorkloadID : string;
  pc_Priority : Z;
  pc_NodeID : string;
  pc_Resources : ResourceSpec
}.

Definition totalNeeded (workload : WorkloadSpec) : ResourceSpec :=
  let req := rr_Requests (w_Resources workload) in
  let n := w_Replicas workload in
  {| rs_CPUMillicores := int64 (rs_CPUMillicores req * n);
     rs_MemoryBytes := int64 (rs_MemoryBytes req * n);
     rs_StorageBytes := int64 (rs_StorageBytes req * n);
     rs_BandwidthBPS := int64 (rs_BandwidthBPS req * n);
     rs_GPUCount := int32 (rs_GPUCount req * int32 n) |}.

Definition usage_spec (u : ResourceUsage) : ResourceSpec :=
  {| rs_CPUMillicores := ru_CPUMillicores u; rs_MemoryBytes := ru_MemoryBytes u;
     rs_StorageBytes := ru_StorageBytes u; rs_BandwidthBPS := ru_BandwidthBPS u;
     rs_GPUCount := ru_GPUCount u |}.

(** The candidates of one node: every container with a workload. *)
Definition node_candidates (node : NodeInfo) : list PreemptionCandidate :=
  if (node_State node =?s "draining") || (node_State node =?s "offline")
     || (node_State node =?s "failed") then []
  else
    (fun c => {| pc_WorkloadID := ci_WorkloadID c; pc_Priority := 50;
                 pc_NodeID := node_ID node; pc_Resources := usage_spec (ci_Usage c) |}) <$>
    List.filter (fun c => negb (ci_WorkloadID c =?s "")) (node_Containers node).

Definition enough (freed needed : ResourceSpec) : bool :=
  (rs_CPUMillicores needed <=? rs_CPUMillicores freed) &&
  (rs_MemoryBytes needed <=? rs_MemoryBytes freed) &&
  (rs_StorageBytes needed <=? rs_StorageBytes freed) &&
  (rs_BandwidthBPS needed <=? rs_BandwidthBPS freed) &&
  (rs_GPUCount needed <=? rs_GPUCount freed).

Definition add_freed (freed r : ResourceSpec) : ResourceSpec :=
  {| rs_CPUMillicores := int64 (rs_CPUMillicores freed + rs_CPUMillicores r);
     rs_MemoryBytes := int64 (rs_MemoryBytes freed + rs_MemoryBytes r);
     rs_StorageBytes := int64 (rs_StorageBytes freed + rs_StorageBytes r);
     rs_BandwidthBPS := int64 (rs_BandwidthBPS freed + rs_BandwidthBPS r);
     rs_GPUCount := int32 (rs_GPUCount freed + rs_GPUCount r) |}.

Definition nothing_freed : ResourceSpec :=
  {| rs_CPUMillicores := 0; rs_MemoryBytes := 0; rs_StorageBytes := 0; rs_BandwidthBPS := 0;
     rs_GPUCount := 0 |}.

(** The greedy selection; the candidates taken and what they free. *)
Fixpoint select_candidates (needed freed : ResourceSpec) (candidates : list PreemptionCandidate)
    : list PreemptionCandidate * ResourceSpec :=
  match candidates with
  | [] => ([], freed)
  | c :: rest =>
      if enough freed needed then ([], freed)
      else
        let '(taken, freed') := select_candidates needed (add_freed freed (pc_Resources c)) rest in
        (c :: taken, freed')
  end.

Definition PreemptWorkloads (s : Scheduler M) (workload : WorkloadSpec)
    : result string (list string) :=
  if w_Priority workload <=? 100 then Ok []
  else match ListNodes (membershipManager s) with
  | Err err => Err ("failed to list nodes: " +:+ err)
  | Ok nodes =>
      let needed := totalNeeded workload in
      let candidates := flat_map node_candidates nodes in
      if len candidates =? 0 then Ok []
      else
        let candidates := sort_slice (fun a b => pc_Priority a <? pc_Priority b) candidates in
        let '(taken, freed) := select_candidates needed nothing_freed candidates in
        if negb (enough freed needed) then Ok [] else Ok (pc_WorkloadID <$> taken)
  end.

End scheduler.

(** ** What filtering means *)

(** A node a replica of the workload may run on. *)
Record eligible (w : WorkloadSpec) (n : NodeInfo) : Prop := {
  el_ready : node_State n = StateReady;
  el_cpu : rs_CPUMillicores (rr_Requests (w_Resources w)) ≤ free_cpu n;
  el_memory : rs_MemoryBytes (rr_Requests (w_Resources w)) ≤ free_memory n;
  el_storage : rs_StorageBytes (rr_Requests (w_Resources w)) ≤ free_storage n;
  el_region : pp_Regions (w_PlacementPolicy w) = [] ∨
    node_Region n ∈ pp_Regions (w_PlacementPolicy w);
  el_zone : pp_Zones (w_PlacementPolicy w) = [] ∨ node_Zone n ∈ pp_Zones (w_PlacementPolicy w);
  el_selector : pp_NodeSelector (w_PlacementPolicy w) ⊆ node_Labels n;
  el_affinity : ∀ a, a ∈ pp_Affinity (w_PlacementPolicy w) → aff_Required a = true →
    aff_Type a = "node"%string ∧ aff_MatchLabels a ⊆ node_Labels n;
  el_anti_affinity : ∀ a, a ∈ pp_AntiAffinity (w_PlacementPolicy w) → aff_Required a = true →
    ¬ (aff_Type a = "node"%string ∧ aff_MatchLabels a ⊆ node_Labels n);
  el_taints : ∀ t, t ∈ node_Taints n → taint_Effect t = "NoSchedule"%string →
    ∃ tol, tol ∈ pp_Tolerations (w_PlacementPolicy w) ∧ matchesToleration t tol = true
}.

Lemma negb_if (b c : bool) : (if negb b then false else c) = b && c.
Proof. by destruct b. Qed.

Lemma if_false (b c : bool) : (if b then false else c) = negb b && c.
Proof. by destruct b. Qed.

Lemma in_list_of_spec x l : in_list_of x l = true ↔ x ∈ l.
Proof.
  unfold in_list_of. rewrite existsb_exists'. split.
  - intros (y & ? & ?). by bool_to_prop; subst.
  - intros. exists x. split; [done|]. by apply bool_decide_eq_true_2.
Qed.

Lemma matchesAffinity_spec `{GoRange} n a :
  matchesAffinity n a = true ↔ aff_Type a = "node"%string ∧ aff_MatchLabels a ⊆ node_Labels n.
Proof.
  unfold matchesAffinity. rewrite <-labels_match_spec.
  case_bool_decide; [by rewrite (right_id_L True)%type || tauto|].
  split; [done|by intros []].
Qed.

Lemma restricted_spec (l : list string) x :
  negb ((0 <? len l) && negb (in_list_of x l)) = true ↔ l = [] ∨ x ∈ l.
Proof.
  destruct l as [|y l]; [simpl; tauto|].
  rewrite (proj2 (Z.ltb_lt 0 (len (y :: l)))) by (unfold len; simpl; lia).
  cbn [andb]. rewrite negb_involutive, in_list_of_spec. split; [auto|by intros [?|?]].
Qed.

Lemma toleratesTaints_spec n tols :
  toleratesTaints n tols = true ↔
  ∀ t, t ∈ node_Taints n → taint_Effect t = "NoSchedule"%string →
    ∃ tol, tol ∈ tols ∧ matchesToleration t tol = true.
Proof.
  unfold toleratesTaints. rewrite forallb_forall'.
  setoid_rewrite negb_true_iff. setoid_rewrite andb_false_iff.
  setoid_rewrite negb_false_iff. setoid_rewrite existsb_exists'.
  setoid_rewrite bool_decide_eq_false. split.
  - intros Ht t Hin He. by destruct (Ht t Hin).
  - intros Ht t Hin. destruct (decide (taint_Effect t = "NoSchedule"%string)); auto.
Qed.

Lemma existsb_false {A} (f : A → bool) l : existsb f l = false ↔ ∀ x, x ∈ l → f x = false.
Proof.
  rewrite <-not_true_iff_false, existsb_exists'. setoid_rewrite <-not_true_iff_false.
  split; [intros H x Hx Hf; apply H; eauto|intros H (x & Hx & Hf); by apply (H x)].
Qed.

Lemma matchesAffinity_false `{GoRange} n a :
  matchesAffinity n a = false ↔
  ¬ (aff_Type a = "node"%string ∧ aff_MatchLabels a ⊆ node_Labels n).
Proof. by rewrite <-not_true_iff_false, matchesAffinity_spec. Qed.

Lemma false_or_iff (b : bool) (P : Prop) : b = false ∨ P ↔ (b = true → P).
Proof. destruct b; naive_solver. Qed.

(** [keep_node] decides eligibility. *)
Lemma keep_node_spec `{GoRange} w n : keep_node w n = true ↔ eligible w n.
Proof.
  unfold keep_node, matchesPlacementPolicy, hasEnoughResources.
  rewrite !negb_if, !if_false, !andb_true_r, !andb_true_iff, !restricted_spec, !negb_true_iff,
    !Z.leb_le, bool_decide_eq_true, labels_match_spec, toleratesTaints_spec,
    !existsb_false.
  setoid_rewrite andb_false_iff. setoid_rewrite negb_false_iff.
  setoid_rewrite matchesAffinity_spec. setoid_rewrite matchesAffinity_false.
  setoid_rewrite false_or_iff. split.
  - intros (? & ((? & ?) & ?) & (? & ? & ? & ? & ?) & ?). by split.
  - intros []. tauto.
Qed.

Lemma filterNodes_spec `{GoRange} nodes w n :
  n ∈ filterNodes nodes w ↔ n ∈ nodes ∧ eligible w n.
Proof.
  unfold filterNodes. rewrite list_elem_of_In, filter_In, <-list_elem_of_In.
  by rewrite keep_node_spec.
Qed.

Lemma filterNodes_ids `{GoRange} nodes w :
  NoDup (node_ID <$> nodes) → NoDup (node_ID <$> filterNodes nodes w).
Proof.
  intros Hnd. eapply sublist_NoDup; [apply Hnd|]. apply fmap_sublist.
  unfold filterNodes. clear. induction nodes; simpl; [constructor|]. case_match; by constructor.
Qed.

(** ** Decisions *)

(** How often an identifier occurs. *)
Definition occ (ids : list string) (id : string) : nat := length (filter (fun i => i = id) ids).

Lemma cnt_occ ps id : cnt ps id = occ (pl_NodeID <$> ps) id.
Proof.
  unfold cnt, occ. induction ps as [|p ps IH]; csimpl; [done|].
  rewrite !filter_cons. case_decide; simpl; by rewrite IH.
Qed.

Lemma occ_NoDup ids id : NoDup ids → (occ ids id ≤ 1)%nat.
Proof.
  intros Hnd. unfold occ. apply (NoDup_filter (fun i => i = id)) in Hnd.
  assert (∀ i, i ∈ filter (fun i => i = id) ids → i = id) as Heq
    by (by intros i [? _]%list_elem_of_filter).
  destruct (filter _ ids) as [|a [|b l]]; simpl; [lia..|].
  apply NoDup_cons in Hnd as [Hn _]. destruct Hn.
  rewrite (Heq a), (Heq b) by (repeat (left || right)). left.
Qed.

(** One replica per node is feasible on nodes that hold one. *)
Lemma feasible_NoDup nodes w ids :
  NoDup ids → (∀ n, n ∈ nodes → eligible w n) →
  feasible nodes (rr_Requests (w_Resources w)) (occ ids).
Proof.
  intros Hnd Hel n Hn. pose proof (occ_NoDup ids (node_ID n) Hnd).
  destruct (occ ids (node_ID n)) as [|[|k]]; [by left|right|lia].
  destruct (Hel n Hn). lia.
Qed.

(** The properties of the decisions that do not depend on the strategy. *)
Record decisions_ok (candidates : list NodeInfo) (w : WorkloadSpec) (ds : list ScheduleDecision)
    : Prop := {
  ds_nodes : ∀ d, d ∈ ds → dec_NodeID d ∈ node_ID <$> candidates;
  ds_feasible : feasible candidates (rr_Requests (w_Resources w)) (occ (dec_NodeID <$> ds));
  ds_replicas : ∀ i d, ds !! i = Some d → dec_ReplicaID d = replica_id w (Z.of_nat i);
  ds_len : len ds ≤ Z.max 0 (w_Replicas w)
}.

(** The packing has at most [Replicas] entries, so the break of the loop
    drops none of them. *)
Lemma binpack_decisions_spec clock w ps k :
  Z.of_nat k + len ps ≤ Z.max (Z.of_nat k) (w_Replicas w) →
  let ds := binpack_decisions clock w ps (Z.of_nat k) in
  dec_NodeID <$> ds = pl_NodeID <$> ps ∧
  ∀ i d, ds !! i = Some d → dec_ReplicaID d = replica_id w (Z.of_nat (k + i)).
Proof.
  revert k. induction ps as [|p ps IH]; intros k Hk; simpl; [done|].
  unfold len in *. simpl length in *.
  destruct (w_Replicas w <=? Z.of_nat k + 1) eqn:Hb; bool_to_prop.
  - destruct ps; [|simpl in *; lia]. split; [done|].
    intros [|i] d; [|done]. intros [= <-]. by rewrite Nat.add_0_r.
  - replace (Z.of_nat k + 1) with (Z.of_nat (S k)) in * by lia.
    destruct (IH (S k)) as [Hids Hrep]; [lia|]. split.
    + cbn. f_equal. exact Hids.
    + intros [|i] d; [intros [= <-]; by rewrite Nat.add_0_r|].
      rewrite Nat.add_succ_r. apply Hrep.
Qed.

Lemma scoreNodes_nodes `{GoRange} s nodes w : sn_Node <$> scoreNodes s nodes w = nodes.
Proof. unfold scoreNodes. rewrite <-list_fmap_compose. by apply list_fmap_id. Qed.

Section strategies.
Context `{GoRange, GoSort}.
Context (clock : Z → Z * Z) (w : WorkloadSpec) (candidates : list NodeInfo)
  (scored : list ScoredNode).
Hypothesis Hscored : sn_Node <$> scored ≡ₚ candidates.
Hypothesis Hids : NoDup (node_ID <$> candidates).
Hypothesis Hel : ∀ n, n ∈ candidates → eligible w n.
Hypothesis Hreq : nonneg_spec (rr_Requests (w_Resources w)).

Lemma feasible_perm nodes nodes' res f :
  nodes ≡ₚ nodes' → feasible nodes res f → feasible nodes' res f.
Proof. intros Hp Hf n Hn. apply Hf. by rewrite Hp. Qed.

Lemma scored_ids : NoDup (node_ID <$> (sn_Node <$> scored)).
Proof using Hids Hscored. by rewrite Hscored. Qed.

Lemma scored_in i : i ∈ node_ID <$> (sn_Node <$> scored) → i ∈ node_ID <$> candidates.
Proof using Hscored. by rewrite Hscored. Qed.

Lemma binPackSchedule_spec :
  let ps := Pack scored (rr_Requests (w_Resources w)) (w_Replicas w) in
  let ds := binPackSchedule clock scored w in
  dec_NodeID <$> ds = pl_NodeID <$> ps ∧
  ∀ i d, ds !! i = Some d → dec_ReplicaID d = replica_id w (Z.of_nat i).
Proof. apply (binpack_decisions_spec clock w _ 0). apply Pack_length. Qed.

Lemma len_of_ids {A B} (f : A → string) (g : B → string) l k : f <$> l = g <$> k → len l = len k.
Proof. intros Heq. unfold len. by rewrite <-(length_fmap f), Heq, length_fmap. Qed.

Lemma binPackSchedule_ok : decisions_ok candidates w (binPackSchedule clock scored w).
Proof using Hscored Hids Hreq.
  destruct binPackSchedule_spec as [Hdn Hrep]. split; [| |done|].
  - intros d Hd. apply (list_elem_of_fmap_2 dec_NodeID) in Hd. rewrite Hdn in Hd.
    apply list_elem_of_fmap in Hd as (p & -> & Hp). apply scored_in.
    by eapply Pack_nodes, Hp; [apply scored_ids|].
  - rewrite Hdn. eapply feasible_perm; [exact Hscored|].
    intros n Hn. rewrite <-cnt_occ. revert n Hn. apply Pack_feasible; [apply scored_ids|done].
  - rewrite (len_of_ids _ _ _ _ Hdn). apply Pack_length.
Qed.

(** The positions of the spread decisions number the replicas. *)
Lemma spread_replica_ids reason1 reason2 gs l :
  let ds := foldl (spread_rest dec_NodeID (fun _ => true) (node_decision clock w reason2) (w_Replicas w))
    (foldl (spread_group head (node_decision clock w reason1) (w_Replicas w)) [] gs) l in
  ∀ i d, ds !! i = Some d → dec_ReplicaID d = replica_id w (Z.of_nat i).
Proof.
  set (numbered (ds : list ScheduleDecision) := ∀ i d, ds !! i = Some d → dec_ReplicaID d = replica_id w (Z.of_nat i)).
  assert (∀ ds reason n, numbered ds → numbered (ds ++ [node_decision clock w reason n (len ds)]))
    as Hsnoc.
  { intros ds reason n Hds i d [Hi|[Hi Hd]]%lookup_app_Some; [by apply Hds|].
    apply list_lookup_singleton_Some in Hd as [Hi0 <-]. simpl. f_equal. unfold len. lia. }
  assert (∀ ds, numbered ds → numbered (foldl (spread_rest dec_NodeID (fun _ => true)
    (node_decision clock w reason2) (w_Replicas w)) ds l)) as H2.
  { induction l as [|n l IH]; simpl; [done|]. intros ds Hds. apply IH.
    unfold spread_rest. repeat case_match; auto. }
  apply H2. assert (∀ ds, numbered ds → numbered (foldl (spread_group head
    (node_decision clock w reason1) (w_Replicas w)) ds gs)) as H1.
  { induction gs as [|n gs IH]; simpl; [done|]. intros ds Hds. apply IH.
    unfold spread_group. repeat case_match; auto. }
  apply H1. by intros i d; rewrite lookup_nil.
Qed.

Lemma head_some (l : list ScoredNode) n : head l = Some n → n ∈ l ∧ true = true.
Proof. destruct l; [done|]. intros [= ->]. split; [left|done]. Qed.

Lemma head_none (l : list ScoredNode) : head l = None → ∀ n, n ∈ l → true = false.
Proof. destruct l; [|done]. by intros _ n ?%elem_of_nil. Qed.

Lemma spreadSchedule_spec policy :
  ∃ ns, spread_spec (fun _ => true) policy
    (node_decision clock w ("spread across " +:+ policy)) (node_decision clock w "spread overflow")
    (w_Replicas w) scored (spreadSchedule clock policy scored w) ns.
Proof using Hscored Hids.
  apply (spread_correct dec_NodeID (fun _ => true) policy head
    (node_decision clock w ("spread across " +:+ policy)) (node_decision clock w "spread overflow")
    (w_Replicas w) head_some head_none); try done.
  - rewrite (list_fmap_compose sn_Node node_ID). apply scored_ids.
  - apply groupNodes_grouping.
Qed.

Lemma spreadSchedule_ok policy : decisions_ok candidates w (spreadSchedule clock policy scored w).
Proof using Hscored Hids Hel.
  destruct (spreadSchedule_spec policy) as [ns [Hpl Hnd Hcap Hlen _]].
  assert (dec_NodeID <$> spreadSchedule clock policy scored w =
    (fun n => node_ID (sn_Node n)) <$> ns) as Hdn by (by apply (places_ids dec_NodeID) in Hpl).
  split.
  - intros d Hd. apply (list_elem_of_fmap_2 dec_NodeID) in Hd. rewrite Hdn in Hd.
    apply list_elem_of_fmap in Hd as (n & -> & Hn). apply scored_in.
    destruct (Hcap n Hn) as [Hin _]. rewrite <-list_fmap_compose.
    by apply (list_elem_of_fmap_2 (node_ID ∘ sn_Node)).
  - apply feasible_NoDup; [by rewrite Hdn|done].
  - apply spread_replica_ids.
  - rewrite (places_len _ _ _ _ Hpl). lia.
Qed.

Lemma defaultSchedule_ok : decisions_ok candidates w (defaultSchedule clock scored w).
Proof using Hscored Hids Hel.
  set (l := take (Z.to_nat (w_Replicas w)) scored).
  assert (∀ k, dec_NodeID <$> imap (fun i node => node_decision clock w "default placement" node
    (Z.of_nat (k + i))) l = node_ID <$> (sn_Node <$> l)) as Hdn.
  { induction l as [|n l IH]; intros k; csimpl; [done|]. f_equal.
    rewrite <-(IH (S k)). f_equal. apply imap_ext. intros. simpl. do 2 f_equal. lia. }
  assert (dec_NodeID <$> defaultSchedule clock scored w = node_ID <$> (sn_Node <$> l)) as Hdn0
    by apply (Hdn 0%nat). clear Hdn. rename Hdn0 into Hdn.
  split.
  - intros d Hd. apply (list_elem_of_fmap_2 dec_NodeID) in Hd. rewrite Hdn in Hd.
    apply scored_in. revert Hd. rewrite <-!list_fmap_compose. unfold l. rewrite fmap_take.
    intros Hd. by eapply elem_of_take in Hd as (i & Hi & _); eapply list_elem_of_lookup_2.
  - apply feasible_NoDup; [|done]. rewrite Hdn. unfold l. rewrite !fmap_take.
    eapply sublist_NoDup; [apply scored_ids|]. apply sublist_take.
  - intros i d. unfold defaultSchedule. rewrite list_lookup_imap.
    destruct (_ !! i); [|done]. by intros [= <-].
  - unfold defaultSchedule, len. rewrite length_imap, length_take. lia.
Qed.

End strategies.

Lemma place_replicas_ok `{GoRange, GoSort} clock sc cfg candidates w :
  NoDup (node_ID <$> candidates) → (∀ n, n ∈ candidates → eligible w n) →
  nonneg_spec (rr_Requests (w_Resources w)) →
  decisions_ok candidates w (place_replicas clock sc cfg candidates w).
Proof.
  intros Hids Hel Hreq. unfold place_replicas.
  assert (sn_Node <$> sort_slice score_greater (scoreNodes sc candidates w) ≡ₚ candidates) as Hs
    by (rewrite sort_slice_perm; by rewrite scoreNodes_nodes).
  repeat case_match; by (apply binPackSchedule_ok || apply spreadSchedule_ok
    || apply defaultSchedule_ok).
Qed.

(** ** Properties of the scheduler *)

Lemma len_zero {A} (l : list A) : (len l =? 0) = true ↔ l = [].
Proof. unfold len. rewrite Z.eqb_eq. destruct l; simpl; split; (done || lia). Qed.

Lemma decisions_ok_nil candidates w : decisions_ok candidates w [].
Proof.
  split; simpl.
  - by intros d ?%elem_of_nil.
  - by intros n _; left.
  - by intros i d; rewrite lookup_nil.
  - unfold len; simpl; lia.
Qed.

(** The result of a placement: its decisions and the fields computed from them. *)
Definition result_ok (candidates : list NodeInfo) (w : WorkloadSpec) (r : ScheduleResult) : Prop :=
  decisions_ok candidates w (res_Decisions r) ∧
  (res_Success r = true → len (res_Decisions r) = w_Replicas w) ∧
  (0 ≤ w_Replicas w → in_int64 (w_Replicas w) →
   res_UnscheduledReplicas r = w_Replicas w - len (res_Decisions r) ∧
   0 ≤ res_UnscheduledReplicas r).

Lemma unscheduled_ok w (ds : list ScheduleDecision) :
  len ds ≤ Z.max 0 (w_Replicas w) → 0 ≤ w_Replicas w → in_int64 (w_Replicas w) →
  int64 (w_Replicas w - len ds) = w_Replicas w - len ds ∧ 0 ≤ int64 (w_Replicas w - len ds).
Proof.
  intros Hl H0 [_ Hw]. rewrite int64_id; [lia|]. unfold in_int64, len in *. lia.
Qed.

Lemma no_placement_ok candidates w message : result_ok candidates w (no_placement message w).
Proof.
  split; [apply decisions_ok_nil|]. split; [done|]. intros. simpl. unfold len. simpl. lia.
Qed.

Section placement.
Context `{GoRange, GoSort, NodeLister M, !NodeListerLaws M}.

Lemma Schedule_result clock (s : Scheduler M) w nodes r :
  ListNodes (membershipManager s) = Ok nodes →
  nonneg_spec (rr_Requests (w_Resources w)) →
  Schedule clock s w = Ok r → result_ok (filterNodes nodes w) w r.
Proof.
  intros Hnodes Hreq. unfold Schedule. rewrite Hnodes. intros Hr.
  destruct (len (filterNodes nodes w) =? 0); injection Hr as <-; [apply no_placement_ok|].
  assert (decisions_ok (filterNodes nodes w) w
    (place_replicas clock (scorer s) (config s) (filterNodes nodes w) w)) as Hd.
  { apply place_replicas_ok; [by eapply filterNodes_ids, ListNodes_NoDup| |done].
    by intros n [_ ?]%filterNodes_spec. }
  split; [done|split; simpl; [by intros ?%Z.eqb_eq|]]. apply unscheduled_ok, Hd.
Qed.

Lemma result_eligible nodes w r d :
  result_ok (filterNodes nodes w) w r → d ∈ res_Decisions r →
  ∃ n, n ∈ nodes ∧ eligible w n ∧ node_ID n = dec_NodeID d.
Proof.
  intros [[Hin _ _ _] _]. intros (n & Hid & [Hn Hel]%filterNodes_spec)%Hin%list_elem_of_fmap. eauto.
Qed.

(** When [Schedule] returns a result, under any strategy, every decision
    is for a listed node that is ready, has the requested resources free,
    satisfies region, zone, selector and required affinities and whose
    NoSchedule taints are tolerated; the decisions together never exceed the
    free resources of a node; they are numbered from 0 and at most as many as
    the replicas; [Success] is reported only when all replicas are placed and
    [UnscheduledReplicas] is the number of missing ones. *)
Theorem Schedule_sound clock (s : Scheduler M) w nodes r :
  ListNodes (membershipManager s) = Ok nodes →
  nonneg_spec (rr_Requests (w_Resources w)) →
  Schedule clock s w = Ok r →
  (∀ d, d ∈ res_Decisions r → ∃ n, n ∈ nodes ∧ eligible w n ∧ node_ID n = dec_NodeID d) ∧
  result_ok (filterNodes nodes w) w r.
Proof.
  intros Hnodes Hreq Hr. assert (result_ok (filterNodes nodes w) w r) as Hok
    by by eapply Schedule_result.
  split; [|done]. intros d. by apply result_eligible.
Qed.

(** C2: with the bin-packing strategy [Schedule] succeeds exactly when the
    eligible nodes can hold all replicas: there is a distribution of
    [Replicas] replicas over them that fits every node's free resources. *)
Theorem Schedule_binpack_complete clock (s : Scheduler M) w nodes :
  ListNodes (membershipManager s) = Ok nodes →
  nonneg_spec (rr_Requests (w_Resources w)) →
  0 < w_Replicas w → cfg_PackingStrategy (config s) = "binpack"%string →
  ∃ r, Schedule clock s w = Ok r ∧
    (res_Success r = true ↔
     ∃ f, feasible (filterNodes nodes w) (rr_Requests (w_Resources w)) f ∧
          Z.of_nat (total (filterNodes nodes w) f) = w_Replicas w).
Proof.
  intros Hnodes Hreq Hpos Hstrat. unfold Schedule. rewrite Hnodes.
  assert (NoDup (node_ID <$> filterNodes nodes w)) as Hnd
    by (by eapply filterNodes_ids, ListNodes_NoDup).
  destruct (len (filterNodes nodes w) =? 0) eqn:Hz.
  { eexists. split; [done|]. simpl. split; [done|]. intros (f & _ & Hf).
    apply len_zero in Hz. rewrite Hz in Hf. unfold total in Hf. simpl in Hf. lia. }
  eexists. split; [done|]. simpl. rewrite Z.eqb_eq. unfold place_replicas.
  rewrite Hstrat, bool_decide_eq_true_2 by done.
  set (scored := sort_slice score_greater (scoreNodes (scorer s) (filterNodes nodes w) w)).
  assert (sn_Node <$> scored ≡ₚ filterNodes nodes w) as Hs
    by (unfold scored; rewrite sort_slice_perm; by rewrite scoreNodes_nodes).
  assert (NoDup (node_ID <$> (sn_Node <$> scored))) as Hnd' by (by rewrite Hs).
  rewrite (len_of_ids _ _ _ _ (proj1 (binPackSchedule_spec clock w scored))).
  assert (∀ f, total (filterNodes nodes w) f = total (sn_Node <$> scored) f) as Htot.
  { intros f. apply sum_list_perm. by rewrite Hs. }
  split.
  - intros Hlen. exists (cnt (Pack scored (rr_Requests (w_Resources w)) (w_Replicas w))).
    split; [by eapply feasible_perm, Pack_feasible|].
    rewrite Htot. unfold total. rewrite cnt_total; [done..|]. intros p. by apply Pack_nodes.
  - intros (f & Hf & Hsum). apply (feasible_perm _ _ _ _ (symmetry Hs)) in Hf.
    rewrite Htot in Hsum.
    pose proof (Pack_maximal scored _ (w_Replicas w) Hnd' Hreq f Hf).
    pose proof (Pack_length scored (rr_Requests (w_Resources w)) (w_Replicas w)). lia.
Qed.

(** The spread strategy places replicas on distinct nodes, as many as
    there are replicas or candidate nodes, and puts two of them into one
    zone (or region) only when every zone with a candidate node has one. *)
Theorem spreadSchedule_correct clock w policy scored :
  NoDup (node_ID <$> (sn_Node <$> scored)) →
  ∃ ns, spread_spec (fun _ => true) policy
    (node_decision clock w ("spread across " +:+ policy)) (node_decision clock w "spread overflow")
    (w_Replicas w) scored (spreadSchedule clock policy scored w) ns.
Proof. intros Hnd. by apply (spreadSchedule_spec clock w (sn_Node <$> scored)). Qed.

Lemma filterFailedNodes_spec nodes failed n :
  n ∈ filterFailedNodes nodes failed ↔
  n ∈ nodes ∧ (node_ID n ∉ failed) ∧ node_State n ≠ StateFailed ∧ node_State n ≠ StateOffline.
Proof.
  unfold filterFailedNodes. rewrite list_elem_of_In, filter_In, <-list_elem_of_In.
  rewrite !if_false, andb_true_r, andb_true_iff, !negb_true_iff, orb_false_iff,
    !bool_decide_eq_false, elem_of_list_to_set. done.
Qed.

Lemma filterFailedNodes_ids nodes failed :
  NoDup (node_ID <$> nodes) → NoDup (node_ID <$> filterFailedNodes nodes failed).
Proof.
  intros Hnd. eapply sublist_NoDup; [apply Hnd|]. apply fmap_sublist.
  unfold filterFailedNodes. clear. induction nodes; simpl; [constructor|].
  case_match; by constructor.
Qed.

(** When [Reschedule] returns a result, the ready replicas meet a positive
    [MinAvailable], every decision is for an eligible node that is not among
    the failed ones, and no node is overcommitted. *)
Theorem Reschedule_sound clock (s : Scheduler M) w nodes failed ready r :
  ListNodes (membershipManager s) = Ok nodes →
  nonneg_spec (rr_Requests (w_Resources w)) →
  Reschedule clock s w failed ready = Ok r →
  ro_MinAvailable (w_RolloutStrategy w) ≤ Z.max 0 ready ∧
  (∀ d, d ∈ res_Decisions r →
     (dec_NodeID d ∉ failed) ∧ ∃ n, n ∈ nodes ∧ eligible w n ∧ node_ID n = dec_NodeID d) ∧
  result_ok (filterNodes (filterFailedNodes nodes failed) w) w r.
Proof.
  intros Hnodes Hreq. unfold Reschedule. rewrite Hnodes.
  destruct (_ && _) eqn:Hmin; [done|]. intros Hr.
  assert (result_ok (filterNodes (filterFailedNodes nodes failed) w) w r) as Hok.
  { repeat (case_match; [injection Hr as <-; apply no_placement_ok|]). injection Hr as <-.
    assert (decisions_ok (filterNodes (filterFailedNodes nodes failed) w) w
      (place_replicas clock (scorer s) (config s)
        (filterNodes (filterFailedNodes nodes failed) w) w)) as Hd.
    { apply place_replicas_ok; [|by intros n [_ ?]%filterNodes_spec|done].
      by eapply filterNodes_ids, filterFailedNodes_ids, ListNodes_NoDup. }
    split; [done|split; simpl; [by intros ?%Z.eqb_eq|]]. apply unscheduled_ok, Hd. }
  split; [apply andb_false_iff in Hmin as [?|?]; bool_to_prop; lia|]. split; [|done].
  destruct Hok as [[Hin _ _ _] _].
  intros d (n & Hid & [Hn Hel]%filterNodes_spec)%Hin%list_elem_of_fmap.
  apply filterFailedNodes_spec in Hn as (Hn & Hf & _). rewrite Hid. eauto.
Qed.

(** Below a positive [MinAvailable] every [Reschedule] fails with an
    error, whatever nodes are listed and however much capacity is free: once
    a failure has brought the service below its minimum, rescheduling never
    restores it. *)
Theorem Reschedule_refuses_below_min clock (s : Scheduler M) w failed ready :
  0 < ro_MinAvailable (w_RolloutStrategy w) → ready < ro_MinAvailable (w_RolloutStrategy w) →
  is_ok (Reschedule clock s w failed ready) = false.
Proof.
  intros Hmin Hr. unfold Reschedule.
  by rewrite (proj2 (Z.ltb_lt _ _) Hmin), (proj2 (Z.ltb_lt _ _) Hr).
Qed.

(** *** Preemption *)

(** The resources a list of candidates frees, in the code's arithmetic. *)
Definition freed_by (taken : list PreemptionCandidate) : ResourceSpec :=
  foldl (fun freed c => add_freed freed (pc_Resources c)) nothing_freed taken.

(** The greedy choice is the shortest prefix that frees enough, if any. *)
Lemma select_candidates_spec needed freed cs taken freed' :
  select_candidates needed freed cs = (taken, freed') →
  taken `prefix_of` cs ∧
  freed' = foldl (fun f c => add_freed f (pc_Resources c)) freed taken ∧
  (∀ k, (k < length taken)%nat →
     enough (foldl (fun f c => add_freed f (pc_Resources c)) freed (take k taken)) needed = false).
Proof.
  revert freed taken freed'. induction cs as [|c cs IH]; intros freed taken freed'; simpl.
  { intros [= <- <-]. repeat split; [done|]. simpl. lia. }
  destruct (enough freed needed) eqn:He.
  { intros [= <- <-]. repeat split; [apply prefix_nil|]. simpl. lia. }
  destruct (select_candidates _ _ cs) as [taken0 freed0] eqn:Hsel. intros [= <- <-].
  apply IH in Hsel as (Hpre & -> & Hmin). split; [by apply prefix_cons|]. split; [done|].
  intros [|k] Hk; [done|]. simpl in *. apply Hmin. lia.
Qed.

(** When [PreemptWorkloads] names victims, the workload has a priority
    above 100, the victims are containers of listed nodes that are not
    draining, offline or failed, stopping them frees every requested resource
    for all replicas, and no shorter prefix of the list frees enough. *)
Theorem PreemptWorkloads_sound (s : Scheduler M) w nodes ids :
  ListNodes (membershipManager s) = Ok nodes →
  PreemptWorkloads s w = Ok ids → ids ≠ [] →
  100 < w_Priority w ∧
  ∃ taken, ids = pc_WorkloadID <$> taken ∧
    (∀ c, c ∈ taken → ∃ n, n ∈ nodes ∧ pc_NodeID c = node_ID n ∧
       (node_State n ∉ [StateDraining; StateOffline; StateFailed]) ∧
       ∃ k, k ∈ node_Containers n ∧ ci_WorkloadID k = pc_WorkloadID c ∧
            pc_Resources c = usage_spec (ci_Usage k)) ∧
    enough (freed_by taken) (totalNeeded w) = true ∧
    (∀ k, (k < length taken)%nat → enough (freed_by (take k taken)) (totalNeeded w) = false).
Proof.
  intros Hnodes. unfold PreemptWorkloads.
  destruct (_ <=? 100) eqn:Hp; [by intros [= <-]|]. rewrite Hnodes.
  destruct (_ =? 0); [by intros [= <-]|].
  destruct (select_candidates _ _ _) as [taken freed] eqn:Hsel.
  apply select_candidates_spec in Hsel as (Hpre & -> & Hmin).
  destruct (enough _ _) eqn:He; [|by intros [= <-]]. intros [= <-] _. bool_to_prop.
  split; [lia|]. exists taken. repeat split; try done.
  intros c Hc. destruct Hpre as [rest Hpre].
  assert (c ∈ flat_map node_candidates nodes) as Hin.
  { rewrite <-(sort_slice_perm _ (fun a b => pc_Priority a <? pc_Priority b)).
    rewrite Hpre. apply elem_of_app. by left. }
  apply list_elem_of_In, in_flat_map in Hin as (n & Hn & Hin%list_elem_of_In).
  apply list_elem_of_In in Hn. exists n. split; [done|]. revert Hin. unfold node_candidates.
  destruct (_ || _) eqn:Hst; [by intros ?%elem_of_nil|].
  intros (k & -> & Hk)%list_elem_of_fmap.
  apply list_elem_of_In, filter_In in Hk as [Hk _]. rewrite <-list_elem_of_In in Hk.
  bool_to_prop. repeat split; [|by eauto].
  rewrite !elem_of_cons, elem_of_nil. tauto.
Qed.

End placement.

(** ** Witnesses and sample runs *)

(** A membership manager that lists a fixed set of nodes. *)
Record FixedNodes := { fixed_nodes : list NodeInfo; fixed_ids : NoDup (node_ID <$> fixed_nodes) }.

#[export] Instance fixed_lister : NodeLister FixedNodes :=
  {| ListNodes := fun m => Ok (fixed_nodes m) |}.

#[export] Instance fixed_laws : NodeListerLaws FixedNodes.
Proof. split. intros m nodes [= <-]. apply fixed_ids. Qed.

Definition sample_manager : FixedNodes :=
  {| fixed_nodes := sample_nodes;
     fixed_ids := bool_decide_unpack (NoDup (node_ID <$> sample_nodes)) I |}.

Definition sample_scheduler (c : SchedulerConfig) : Scheduler FixedNodes :=
  {| membershipManager := sample_manager; scorer := NewScorer (scorer_weights c); config := c |}.

Definition sample_workload (replicas minAvailable priority : Z) : WorkloadSpec :=
  {| w_ID := "web"; w_Name := "web"; w_Namespace := "default"; w_Replicas := replicas;
     w_Resources := {| rr_Requests := sample_req; rr_Limits := sample_req |};
     w_PlacementPolicy := {| pp_Regions := []; pp_Zones := []; pp_NodeSelector := ∅;
       pp_Affinity := []; pp_AntiAffinity := []; pp_Tolerations := []; pp_SpreadTopology := "" |};
     w_RestartPolicy := {| rp_Policy := "Always"; rp_MaxRetries := 0; rp_Backoff := 0 |};
     w_RolloutStrategy := {| ro_Strategy := "RollingUpdate"; ro_MaxSurge := 0;
       ro_MaxUnavailable := 0; ro_MinAvailable := minAvailable; ro_PauseDuration := 0 |};
     w_Priority := priority; w_Labels := ∅; w_Annotations := None |}.

Definition still_clock : Z → Z * Z := fun _ => (0, 0).

Definition run_schedule (w : WorkloadSpec) : result string ScheduleResult :=
  @Schedule range_canonical sort_insertion FixedNodes fixed_lister still_clock
    (sample_scheduler DefaultSchedulerConfig) w.

Example schedule_two :
  match run_schedule (sample_workload 3 0 0) with
  | Ok r => (dec_NodeID <$> res_Decisions r, res_Success r) = (["a"; "a"; "c"]%string, true)
  | Err _ => False
  end.
Proof. by vm_compute. Qed.

Lemma Schedule_sound_witness :
  ∃ r, run_schedule (sample_workload 3 0 0) = Ok r ∧
    result_ok (@filterNodes range_canonical sample_nodes (sample_workload 3 0 0))
      (sample_workload 3 0 0) r.
Proof.
  eexists. split; [reflexivity|].
  eapply (@Schedule_sound range_canonical sort_insertion FixedNodes fixed_lister fixed_laws still_clock
    (sample_scheduler DefaultSchedulerConfig) (sample_workload 3 0 0) sample_nodes).
  - reflexivity.
  - apply sample_req_nonneg.
  - reflexivity.
Defined.

Lemma Schedule_binpack_complete_witness :
  ∃ r, run_schedule (sample_workload 4 0 0) = Ok r ∧
    (res_Success r = true ↔
     ∃ f, feasible (@filterNodes range_canonical sample_nodes (sample_workload 4 0 0)) sample_req f ∧
          Z.of_nat (total (@filterNodes range_canonical sample_nodes (sample_workload 4 0 0)) f) = 4).
Proof.
  apply (@Schedule_binpack_complete range_canonical sort_insertion FixedNodes fixed_lister fixed_laws
    still_clock (sample_scheduler DefaultSchedulerConfig) (sample_workload 4 0 0) sample_nodes).
  - reflexivity.
  - apply sample_req_nonneg.
  - simpl. lia.
  - reflexivity.
Defined.

Lemma spreadSchedule_correct_witness :
  ∃ ns, spread_spec (fun _ => true) "zone"
    (node_decision still_clock (sample_workload 2 0 0) "spread across zone")
    (node_decision still_clock (sample_workload 2 0 0) "spread overflow")
    2 (sample_scored <$> sample_nodes)
    (@spreadSchedule range_canonical sort_insertion still_clock "zone"
       (sample_scored <$> sample_nodes) (sample_workload 2 0 0)) ns.
Proof.
  apply (@spreadSchedule_correct range_canonical sort_insertion still_clock
    (sample_workload 2 0 0) "zone" (sample_scored <$> sample_nodes)).
  by apply (bool_decide_unpack _).
Defined.

Definition run_reschedule (w : WorkloadSpec) (failed : list string) (ready : Z)
    : result string ScheduleResult :=
  @Reschedule range_canonical sort_insertion FixedNodes fixed_lister still_clock
    (sample_scheduler DefaultSchedulerConfig) w failed ready.

Lemma Reschedule_sound_witness :
  ∃ r, run_reschedule (sample_workload 2 1 0) ["c"%string] 1 = Ok r ∧
    ro_MinAvailable (w_RolloutStrategy (sample_workload 2 1 0)) ≤ Z.max 0 1.
Proof.
  eexists. split; [reflexivity|].
  eapply (@Reschedule_sound range_canonical sort_insertion FixedNodes fixed_lister fixed_laws still_clock
    (sample_scheduler DefaultSchedulerConfig) (sample_workload 2 1 0) sample_nodes
    ["c"%string] 1).
  - reflexivity.
  - apply sample_req_nonneg.
  - reflexivity.
Defined.

(** One of three replicas is ready and two of the sample nodes are free. *)
Lemma Reschedule_refuses_below_min_witness :
  is_ok (run_reschedule (sample_workload 3 2 0) ["c"%string] 1) = false.
Proof.
  apply (@Reschedule_refuses_below_min range_canonical sort_insertion FixedNodes fixed_lister
    still_clock (sample_scheduler DefaultSchedulerConfig) (sample_workload 3 2 0) ["c"%string] 1);
    simpl; lia.
Defined.

(** A node that runs one container, of the workload [web]. *)
Definition busy_node : NodeInfo :=
  let n := sample_node "d" "z1" 4000 8000 8000 in
  let usage := {| ru_CPUMillicores := 500; ru_MemoryBytes := 1000; ru_StorageBytes := 0;
    ru_BandwidthBPS := 0; ru_GPUCount := 0; ru_CPUPercent := f0; ru_MemoryPercent := f0 |} in
  {| node_ID := node_ID n; node_Name := node_Name n; node_Region := node_Region n;
     node_Zone := node_Zone n; node_State := node_State n; node_LastHeartbeat := 0;
     node_EnrolledAt := 0; node_JoinStartedAt := 0; node_JoinConvergedAt := 0;
     node_LeaveStartedAt := 0; node_LeaveConvergedAt := 0;
     node_Capabilities := node_Capabilities n; node_Capacity := node_Capacity n;
     node_Usage := usage; node_Labels := ∅; node_Taints := [];
     node_ReliabilityScore := node_ReliabilityScore n; node_Fragments := [];
     node_Containers := [{| ci_ID := "web-0"; ci_WorkloadID := "web"; ci_State := "running";
       ci_StartedAt := 0; ci_Usage := usage |}];
     node_NetworkInfo := node_NetworkInfo n; node_Conditions := [];
     node_HeartbeatInterval := DefaultHeartbeatInterval |}.

Definition busy_scheduler : Scheduler FixedNodes :=
  {| membershipManager :=
       {| fixed_nodes := [busy_node];
          fixed_ids := bool_decide_unpack (NoDup (node_ID <$> [busy_node])) I |};
     scorer := default_weights; config := DefaultSchedulerConfig |}.

(** Preemption assumes priority 50 for every container: a workload of
    priority 101 that needs one more replica is told to preempt itself, on a
    node whose free resources would hold that replica without preemption. *)
Theorem preempts_itself :
  @PreemptWorkloads sort_insertion FixedNodes fixed_lister busy_scheduler (sample_workload 1 0 101)
    = Ok [w_ID (sample_workload 1 0 101)] ∧
  hasEnoughResources busy_node sample_req = true.
Proof. split; by vm_compute. Qed.

Lemma PreemptWorkloads_sound_witness : 100 < w_Priority (sample_workload 1 0 101).
Proof.
  eapply (@PreemptWorkloads_sound sort_insertion FixedNodes fixed_lister busy_scheduler
    (sample_workload 1 0 101) [busy_node] ["web"%string]); [reflexivity..|done].
Defined.
