(* ===== verification/Rollout.v ===== *)
(** * Rollout plans (pkg/scheduler/rollout.go)

    [PlanRollout] turns the current and the desired workload into a list of
    phase actions.  Its promise, that the number of running replicas never
    falls below [minAvailable], is stated by executing the plan: [counts]
    gives the number of replicas after each action. *)

From S2P Require Import Prelude GoText GoFloat Node Scorer.

(** The helpers of the file, on [int]. *)
Definition min (a b : Z) : Z := if a <? b then a else b.
Definition max (a b : Z) : Z := if b <? a then a else b.

Definition RolloutPhaseInitializing : string := "Initializing".
Definition RolloutPhaseScalingUp : string := "ScalingUp".
Definition RolloutPhaseUpdating : string := "Updating".
Definition RolloutPhaseScalingDown : string := "ScalingDown".
Definition RolloutPhasePaused : string := "Paused".
Definition RolloutPhaseCompleted : string := "Completed".
Definition RolloutPhaseFailed : string := "Failed".

Record RolloutState := {
  rst_WorkloadID : string;
  rst_TotalReplicas : Z;
  rst_ReadyReplicas : Z;
  rst_UpdatedReplicas : Z;
  rst_OldReplicas : Z;
  rst_Strategy : RolloutStrategy;
  rst_Phase : string;
  rst_StartTime : Z
}.

Record RolloutPhaseAction := {
  act_Phase : string;
  act_Action : string;
  act_ReplicaCount : Z;
  act_WaitDuration : Z;
  act_AllowedFailures : Z
}.

Record RolloutPlan := {
  plan_Strategy : string;
  plan_MinAvailable : Z;
  plan_MaxSurge : Z;
  plan_MaxUnavailable : Z;
  plan_PauseDuration : Z;
  plan_Phases : list RolloutPhaseAction
}.

(** The three literals the planners build. *)
Definition start (phase : string) (n : Z) : RolloutPhaseAction :=
  {| act_Phase := phase; act_Action := "start"; act_ReplicaCount := n; act_WaitDuration := 0;
     act_AllowedFailures := 0 |}.
Definition stop (phase : string) (n : Z) : RolloutPhaseAction :=
  {| act_Phase := phase; act_Action := "stop"; act_ReplicaCount := n; act_WaitDuration := 0;
     act_AllowedFailures := 0 |}.
Definition wait (phase : string) (d : Z) : RolloutPhaseAction :=
  {| act_Phase := phase; act_Action := "wait"; act_ReplicaCount := 0; act_WaitDuration := d;
     act_AllowedFailures := 0 |}.

(** The number of replicas the first phase starts. *)
Definition surge_replicas (currentReplicas desiredReplicas : Z) (strategy : RolloutStrategy) : Z :=
  let maxSurgeReplicas := if ro_MaxSurge strategy =? 0 then 1 else ro_MaxSurge strategy in
  min (int64 (desiredReplicas - currentReplicas)) maxSurgeReplicas.

(** How many old replicas a batch replaces. *)
Definition batch_size (currentReplicas minAvailable : Z) (strategy : RolloutStrategy) : Z :=
  let maxUnavailable := if ro_MaxUnavailable strategy =? 0 then 1 else ro_MaxUnavailable strategy in
  let batchSize := min maxUnavailable (int64 (currentReplicas - minAvailable)) in
  if batchSize <? 1 then 1 else batchSize.

(** The three actions of batch [i]. *)
Definition batch (currentReplicas batchSize : Z) (strategy : RolloutStrategy) (i : Z)
    : list RolloutPhaseAction :=
  let stopCount := min batchSize (int64 (currentReplicas - int64 (i * batchSize))) in
  [stop RolloutPhaseUpdating stopCount; start RolloutPhaseUpdating stopCount;
   wait RolloutPhaseUpdating (ro_PauseDuration strategy)].

Definition planRollingUpdate (current desired : WorkloadSpec) (minAvailable : Z)
    (strategy : RolloutStrategy) : RolloutPlan :=
  let currentReplicas := w_Replicas current in
  let desiredReplicas := w_Replicas desired in
  let phase1 :=
    if currentReplicas <? desiredReplicas then
      [start RolloutPhaseScalingUp (surge_replicas currentReplicas desiredReplicas strategy);
       wait RolloutPhaseScalingUp (30 * second)]
    else [] in
  let phase2 :=
    if 0 <? currentReplicas then
      let batchSize := batch_size currentReplicas minAvailable strategy in
      let batches := Z.quot (int64 (int64 (currentReplicas + batchSize) - 1)) batchSize in
      flat_map (batch currentReplicas batchSize strategy) (seqZ 0 batches)
    else [] in
  let phase3 :=
    if desiredReplicas <? currentReplicas then
      [stop RolloutPhaseScalingDown (int64 (currentReplicas - desiredReplicas))]
    else [] in
  {| plan_Strategy := "RollingUpdate";
     plan_MinAvailable := minAvailable;
     plan_MaxSurge := ro_MaxSurge strategy;
     plan_MaxUnavailable := ro_MaxUnavailable strategy;
     plan_PauseDuration := ro_PauseDuration strategy;
     plan_Phases := phase1 ++ phase2 ++ phase3 |}.

Definition planRecreate (current desired : WorkloadSpec) (minAvailable : Z)
    (strategy : RolloutStrategy) : RolloutPlan :=
  {| plan_Strategy := "Recreate";
     plan_MinAvailable := minAvailable;
     plan_MaxSurge := 0;
     plan_MaxUnavailable := 0;
     plan_PauseDuration := ro_PauseDuration strategy;
     plan_Phases :=
       (if 0 <? w_Replicas current then
          [stop RolloutPhaseScalingDown (w_Replicas current);
           wait RolloutPhaseScalingDown (10 * second)]
        else []) ++
       [start RolloutPhaseScalingUp (w_Replicas desired);
        wait RolloutPhaseScalingUp (30 * second)] |}.

Definition planBlueGreen (current desired : WorkloadSpec) (minAvailable : Z)
    (strategy : RolloutStrategy) : RolloutPlan :=
  {| plan_Strategy := "BlueGreen";
     plan_MinAvailable := minAvailable;
     plan_MaxSurge := 0;
     plan_MaxUnavailable := 0;
     plan_PauseDuration := ro_PauseDuration strategy;
     plan_Phases :=
       [start RolloutPhaseScalingUp (w_Replicas desired);
        wait RolloutPhaseScalingUp (30 * second)] ++
       (if 0 <? ro_PauseDuration strategy then
          [wait RolloutPhasePaused (ro_PauseDuration strategy)] else []) ++
       (if 0 <? w_Replicas current then
          [stop RolloutPhaseScalingDown (w_Replicas current)] else []) |}.

(** The [minAvailable] of a plan. *)
Definition plan_min_available (desired : WorkloadSpec) : Z :=
  let strategy := w_RolloutStrategy desired in
  let minAvailable :=
    if ro_MinAvailable strategy =? 0 then
      if 0 <? ro_MaxUnavailable strategy
      then int64 (w_Replicas desired - ro_MaxUnavailable strategy)
      else max 1 (int64 (w_Replicas desired - 1))
    else ro_MinAvailable strategy in
  max 0 (min minAvailable (w_Replicas desired)).

Definition PlanRollout (currentState desiredState : WorkloadSpec) : result string RolloutPlan :=
  let strategy := w_RolloutStrategy desiredState in
  let minAvailable := plan_min_available desiredState in
  if ro_Strategy strategy =?s "RollingUpdate" then
    Ok (planRollingUpdate currentState desiredState minAvailable strategy)
  else if ro_Strategy strategy =?s "Recreate" then
    Ok (planRecreate currentState desiredState minAvailable strategy)
  else if ro_Strategy strategy =?s "BlueGreen" then
    Ok (planBlueGreen currentState desiredState minAvailable strategy)
  else Err ("unsupported rollout strategy: " +:+ ro_Strategy strategy).

(** [None] is the nil error. *)
Definition ValidateRollout (state : RolloutState) : option string :=
  let minAvailable := ro_MinAvailable (rst_Strategy state) in
  if minAvailable =? 0 then None
  else if rst_ReadyReplicas state <? minAvailable then
    Some ("rollout violates minAvailable constraint: ready="
          +:+ show_Z (rst_ReadyReplicas state) +:+ ", min=" +:+ show_Z minAvailable)
  else None.

Definition CalculateMaxReplicasToStop (totalReplicas readyReplicas minAvailable : Z) : Z :=
  if minAvailable =? 0 then totalReplicas
  else
    let canStop := int64 (readyReplicas - minAvailable) in
    if canStop <? 0 then 0 else canStop.

(** ** Executing a plan *)

Definition delta (a : RolloutPhaseAction) : Z :=
  if act_Action a =?s "start" then act_ReplicaCount a
  else if act_Action a =?s "stop" then - act_ReplicaCount a
  else 0.

(** The number of replicas after each action, from [n] running ones. *)
Fixpoint counts (n : Z) (l : list RolloutPhaseAction) : list Z :=
  match l with
  | [] => []
  | a :: l' => (n + delta a) :: counts (n + delta a) l'
  end.

(** The number of replicas at the end. *)
Definition final (n : Z) (l : list RolloutPhaseAction) : Z :=
  foldl (fun c a => c + delta a) n l.

Lemma delta_start p n : delta (start p n) = n.
Proof. reflexivity. Qed.
Lemma delta_stop p n : delta (stop p n) = - n.
Proof. reflexivity. Qed.
Lemma delta_wait p d : delta (wait p d) = 0.
Proof. reflexivity. Qed.
Create Rewrite HintDb rollout.
#[export] Hint Rewrite delta_start delta_stop delta_wait : rollout.

Lemma counts_app n l k : counts n (l ++ k) = counts n l ++ counts (final n l) k.
Proof. revert n. induction l as [|a l IH]; intros n; simpl; [done|]. by rewrite IH. Qed.

Lemma final_app n l k : final n (l ++ k) = final (final n l) k.
Proof. apply foldl_app. Qed.

(** Replica counts and limits that stay clear of overflow. *)
Definition sane (current desired : WorkloadSpec) : Prop :=
  let s := w_RolloutStrategy desired in
  0 ≤ w_Replicas current < 2 ^ 31 ∧ 0 ≤ w_Replicas desired < 2 ^ 31 ∧
  0 ≤ ro_MaxSurge s < 2 ^ 31 ∧ 0 ≤ ro_MaxUnavailable s < 2 ^ 31 ∧
  0 ≤ ro_MinAvailable s < 2 ^ 31.

Lemma int64_small z : - 2 ^ 62 ≤ z ≤ 2 ^ 62 → int64 z = z.
Proof. intros. apply int64_id. unfold in_int64. lia. Qed.

Lemma min_spec a b : min a b = Z.min a b.
Proof. unfold min. case_match; bool_to_prop; lia. Qed.

Lemma max_spec a b : max a b = Z.max a b.
Proof. unfold max. case_match; bool_to_prop; lia. Qed.

Lemma plan_min_available_range current desired :
  sane current desired → 0 ≤ plan_min_available desired ≤ w_Replicas desired.
Proof.
  intros (H1 & H2 & H3 & H4 & H5). unfold plan_min_available.
  rewrite !max_spec, !min_spec. lia.
Qed.

(** A batch replaces at least one replica and, when there are more replicas
    than must be available, no more than may be missing. *)
Lemma batch_size_spec c m s :
  0 ≤ c < 2 ^ 31 → 0 ≤ m < 2 ^ 31 → 0 ≤ ro_MaxUnavailable s < 2 ^ 31 →
  1 ≤ batch_size c m s < 2 ^ 31 ∧ (m < c → batch_size c m s ≤ c - m) ∧
  (c ≤ m → batch_size c m s = 1).
Proof.
  intros Hc Hm Hu. unfold batch_size. rewrite min_spec, int64_small by lia.
  destruct (_ =? 0) eqn:E; bool_to_prop; case_match; bool_to_prop; lia.
Qed.

(** ** The batches of a rolling update *)

Definition batch_stop (c b i : Z) : Z := min b (int64 (c - int64 (i * b))).
Definition batch_count (c b : Z) : Z := Z.quot (int64 (int64 (c + b) - 1)) b.

(** A batch leaves the number of replicas as it was. *)
Lemma batch_counts c b s n l :
  counts n (flat_map (batch c b s) l) = flat_map (fun i => [n - batch_stop c b i; n; n]) l ∧
  final n (flat_map (batch c b s) l) = n.
Proof.
  induction l as [|i l [IH1 IH2]]; [done|]. change (flat_map (batch c b s) (i :: l)) with
    (batch c b s i ++ flat_map (batch c b s) l). rewrite counts_app, final_app.
  assert (final n (batch c b s i) = n) as ->.
  { unfold final, batch. cbn [foldl]. autorewrite with rollout. lia. }
  rewrite IH1, IH2. split; [|done]. cbn [flat_map]. f_equal.
  unfold batch. cbn [counts]. autorewrite with rollout. fold (batch_stop c b i).
  repeat (f_equal; try lia).
Qed.

Section batches.
Context (c b : Z).
Hypothesis Hc : 0 < c < 2 ^ 31.
Hypothesis Hb : 1 ≤ b < 2 ^ 31.

Lemma batch_count_div : batch_count c b = (c + b - 1) / b.
Proof using Hb Hc.
  unfold batch_count. rewrite (int64_small (c + b)) by lia. rewrite int64_small by lia.
  by rewrite Z.quot_div_nonneg by lia.
Qed.

(** The batches are exactly as many as the replicas need. *)
Lemma batch_count_spec : 0 < batch_count c b ∧ (batch_count c b - 1) * b < c ≤ batch_count c b * b.
Proof using Hb Hc.
  rewrite batch_count_div.
  pose proof (Z.div_mod (c + b - 1) b). pose proof (Z.mod_pos_bound (c + b - 1) b). nia.
Qed.

Lemma batch_stop_spec i :
  0 ≤ i < batch_count c b → batch_stop c b i = Z.min b (c - i * b) ∧ 1 ≤ batch_stop c b i ≤ b.
Proof using Hb Hc.
  intros Hi. pose proof batch_count_spec as [_ ?]. unfold batch_stop.
  assert (0 ≤ i * b < c) by nia.
  rewrite min_spec, (int64_small (i * b)), int64_small by lia. lia.
Qed.

(** [k] batches stop [min (k * b) c] replicas. *)
Lemma batch_stops_sum (k : nat) :
  Z.of_nat k ≤ batch_count c b →
  foldl Z.add 0 (batch_stop c b <$> seqZ 0 (Z.of_nat k)) = Z.min (Z.of_nat k * b) c.
Proof using Hb Hc.
  induction k as [|k IH]; intros Hk; [simpl; lia|].
  replace (Z.of_nat (S k)) with (Z.of_nat k + 1) by lia.
  rewrite seqZ_app by lia. rewrite fmap_app, foldl_app, IH by lia. simpl.
  pose proof batch_count_spec as [_ ?].
  destruct (batch_stop_spec (Z.of_nat 0 + (0 + Z.of_nat k))) as [-> _]; [lia|].
  assert (Z.of_nat k * b ≤ (batch_count c b - 1) * b) by (apply Z.mul_le_mono_nonneg_r; lia). lia.
Qed.
End batches.

(** The replica counts of the update phase. *)
Lemma update_counts c b s n z :
  0 < c < 2 ^ 31 → 1 ≤ b < 2 ^ 31 →
  z ∈ counts n (flat_map (batch c b s) (seqZ 0 (batch_count c b))) → n - b ≤ z ≤ n.
Proof.
  intros Hc Hb. rewrite (proj1 (batch_counts c b s n _)).
  intros (i & Hi%list_elem_of_In & Hz%list_elem_of_In)%list_elem_of_In%in_flat_map.
  apply elem_of_seqZ in Hi.
  destruct (batch_stop_spec c b Hc Hb i) as [_ ?]; [lia|].
  rewrite !elem_of_cons, elem_of_nil in Hz. lia.
Qed.

(** The first batch stops at least one replica before it starts another. *)
Lemma update_dips c b s n :
  0 < c < 2 ^ 31 → 1 ≤ b < 2 ^ 31 →
  ∃ z, z ∈ counts n (flat_map (batch c b s) (seqZ 0 (batch_count c b))) ∧ z < n.
Proof.
  intros Hc Hb. rewrite (proj1 (batch_counts c b s n _)).
  pose proof (batch_count_spec c b Hc Hb) as [Hp _].
  destruct (batch_stop_spec c b Hc Hb 0) as [_ ?]; [lia|].
  rewrite seqZ_cons by lia. exists (n - batch_stop c b 0). split; [left|lia].
Qed.

(** The whole plan: surge, batches and scale-down. *)
Definition surged (current desired : WorkloadSpec) : Z :=
  if w_Replicas current <? w_Replicas desired
  then surge_replicas (w_Replicas current) (w_Replicas desired) (w_RolloutStrategy desired) else 0.

Lemma surged_spec current desired :
  sane current desired →
  surged current desired =
    Z.max 0 (Z.min (w_Replicas desired - w_Replicas current)
                   (Z.max 1 (ro_MaxSurge (w_RolloutStrategy desired)))).
Proof.
  intros (H1 & H2 & H3 & _). unfold surged, surge_replicas.
  rewrite min_spec. case_match; bool_to_prop; [|lia].
  rewrite int64_small by lia. case_match; bool_to_prop; lia.
Qed.

Section rolling_update.
Context (current desired : WorkloadSpec).
Hypothesis Hsane : sane current desired.

Abbreviation cur := (w_Replicas current).
Abbreviation des := (w_Replicas desired).
Abbreviation strategy := (w_RolloutStrategy desired).
Abbreviation minAvail := (plan_min_available desired).
Abbreviation size := (batch_size cur minAvail strategy).
Abbreviation plan := (planRollingUpdate current desired minAvail strategy).

(** The three parts of the plan and the counts after them. *)
Definition surge_phase : list RolloutPhaseAction :=
  if cur <? des then
    [start RolloutPhaseScalingUp (surge_replicas cur des strategy);
     wait RolloutPhaseScalingUp (30 * second)] else [].
Definition update_phase : list RolloutPhaseAction :=
  if 0 <? cur then flat_map (batch cur size strategy) (seqZ 0 (batch_count cur size)) else [].
Definition down_phase : list RolloutPhaseAction :=
  if des <? cur then [stop RolloutPhaseScalingDown (int64 (cur - des))] else [].

Lemma plan_parts : plan_Phases plan = surge_phase ++ update_phase ++ down_phase.
Proof. reflexivity. Qed.

Lemma size_spec :
  1 ≤ size < 2 ^ 31 ∧ (minAvail < cur → size ≤ cur - minAvail) ∧ (cur ≤ minAvail → size = 1).
Proof using Hsane.
  pose proof (plan_min_available_range _ _ Hsane). destruct Hsane as (? & ? & ? & ? & ?).
  apply batch_size_spec; lia.
Qed.

Lemma surge_counts z : z ∈ counts cur surge_phase → z = cur + surged current desired.
Proof.
  unfold surge_phase, surged. case_match; cbn [counts]; autorewrite with rollout;
    rewrite ?elem_of_cons, elem_of_nil; lia.
Qed.

Lemma surge_final : final cur surge_phase = cur + surged current desired.
Proof.
  unfold surge_phase, surged, final. case_match; cbn [foldl]; autorewrite with rollout; lia.
Qed.

Lemma update_final n : final n update_phase = n.
Proof. unfold update_phase. case_match; [apply batch_counts|done]. Qed.

Lemma down_final n : final n down_phase = n - Z.max 0 (cur - des).
Proof using Hsane.
  destruct Hsane as (? & ? & _). unfold down_phase, final.
  case_match; bool_to_prop; cbn [foldl]; autorewrite with rollout; [rewrite int64_small|]; lia.
Qed.

Lemma down_counts n z : z ∈ counts n down_phase → z = n - Z.max 0 (cur - des).
Proof using Hsane.
  rewrite <-down_final. unfold down_phase, final. case_match; simpl; [|by intros ?%elem_of_nil].
  by intros ?%list_elem_of_singleton.
Qed.

(** Every count of the plan is one of the surge, of a batch or of the end. *)
Lemma plan_counts z :
  z ∈ counts cur (plan_Phases plan) →
  (0 < cur ∧ cur + surged current desired - size ≤ z ≤ cur + surged current desired) ∨
  z = cur + surged current desired ∨
  z = cur + surged current desired - Z.max 0 (cur - des).
Proof using Hsane.
  rewrite plan_parts, !counts_app, surge_final, update_final.
  intros [Hz|[Hz|Hz]%elem_of_app]%elem_of_app; auto using surge_counts, down_counts.
  left. unfold update_phase in Hz. case_match eqn:Hc; [|by apply elem_of_nil in Hz].
  bool_to_prop. pose proof size_spec. destruct Hsane as (? & _).
  split; [done|]. eapply update_counts; [| |exact Hz]; lia.
Qed.

Lemma plan_dips :
  0 < cur → ∃ z, z ∈ counts cur (plan_Phases plan) ∧ z < cur + surged current desired.
Proof using Hsane.
  intros Hc. rewrite plan_parts, !counts_app, surge_final.
  assert (update_phase = flat_map (batch cur size strategy) (seqZ 0 (batch_count cur size))) as ->
    by (unfold update_phase; by rewrite (proj2 (Z.ltb_lt _ _) Hc)).
  pose proof size_spec. destruct Hsane as (? & _).
  destruct (update_dips cur size strategy (cur + surged current desired)) as (z & Hz & Hlt); [lia..|].
  exists z. split; [|done]. apply elem_of_app. right. apply elem_of_app. by left.
Qed.

Lemma plan_final :
  final cur (plan_Phases plan) =
  Z.min des (cur + Z.max 1 (ro_MaxSurge strategy)).
Proof using Hsane.
  rewrite plan_parts, !final_app, surge_final, update_final, down_final, surged_spec by done.
  destruct Hsane as (? & ? & ? & _). lia.
Qed.

End rolling_update.

Definition rolling (w : WorkloadSpec) : Prop :=
  ro_Strategy (w_RolloutStrategy w) = "RollingUpdate"%string.

Lemma PlanRollout_rolling current desired :
  rolling desired →
  PlanRollout current desired =
    Ok (planRollingUpdate current desired (plan_min_available desired) (w_RolloutStrategy desired)).
Proof. intros Hr. unfold PlanRollout. by rewrite Hr, bool_decide_eq_true_2. Qed.

(** C5: the replicas running while a rolling update is executed never fall
    below the plan's [MinAvailable] when more than [MinAvailable] replicas run
    at the start, and never exceed them by more than the surge.  Without a
    surge the converse holds: starting from [MinAvailable] replicas or fewer,
    the first batch takes the service below [MinAvailable]. *)
Theorem rolling_update_min_available current desired plan :
  sane current desired → rolling desired → PlanRollout current desired = Ok plan →
  (plan_MinAvailable plan < w_Replicas current →
   ∀ c, c ∈ counts (w_Replicas current) (plan_Phases plan) →
     plan_MinAvailable plan ≤ c ≤
       w_Replicas current + Z.max 1 (ro_MaxSurge (w_RolloutStrategy desired))) ∧
  (0 < w_Replicas current ≤ plan_MinAvailable plan → w_Replicas desired ≤ w_Replicas current →
   ∃ c, c ∈ counts (w_Replicas current) (plan_Phases plan) ∧ c < plan_MinAvailable plan).
Proof.
  intros Hsane Hr. rewrite PlanRollout_rolling by done. intros [= <-].
  change (plan_MinAvailable (planRollingUpdate ?a ?b ?m ?s)) with m.
  pose proof (size_spec _ _ Hsane) as (Hs1 & Hs2 & Hs3).
  pose proof (surged_spec _ _ Hsane) as Hsurge.
  pose proof (plan_min_available_range _ _ Hsane) as Hm. split.
  - intros Hlt c Hc%plan_counts; [|done]. destruct Hsane as (? & ? & ? & _). specialize (Hs2 Hlt).
    destruct Hc as [Hc|[Hc|Hc]]; rewrite Hsurge in Hc; clear Hsurge; split; try lia.
  - intros [Hpos Hle] Hdes. destruct (plan_dips _ _ Hsane Hpos) as (c & Hc & Hlt).
    exists c. split; [done|]. destruct Hsane as (? & ? & ? & _). lia.
Qed.

(** Executing a rolling update ends with the desired number of replicas
    exactly when the scale-up fits one surge; a larger scale-up stops at the
    current number plus the surge. *)
Theorem rolling_update_final current desired plan :
  sane current desired → rolling desired → PlanRollout current desired = Ok plan →
  let surge := Z.max 1 (ro_MaxSurge (w_RolloutStrategy desired)) in
  final (w_Replicas current) (plan_Phases plan) =
    Z.min (w_Replicas desired) (w_Replicas current + surge) ∧
  (final (w_Replicas current) (plan_Phases plan) = w_Replicas desired ↔
   w_Replicas desired - w_Replicas current ≤ surge).
Proof.
  intros Hsane Hr. rewrite PlanRollout_rolling by done. intros [= <-] surge.
  rewrite plan_final by done. unfold surge. lia.
Qed.

(** The replicas an action of the update phase stops. *)
Definition update_stops (l : list RolloutPhaseAction) : list Z :=
  act_ReplicaCount <$>
  List.filter (fun a => (act_Phase a =?s RolloutPhaseUpdating) && (act_Action a =?s "stop")) l.

Lemma update_stops_batches c b s l :
  update_stops (flat_map (batch c b s) l) = batch_stop c b <$> l.
Proof.
  induction l as [|i l IH]; [done|].
  change (flat_map (batch c b s) (i :: l)) with (batch c b s i ++ flat_map (batch c b s) l).
  unfold update_stops in *. rewrite List.filter_app, fmap_app, IH. done.
Qed.

(** A rolling update replaces every old replica exactly once: the stops
    of its update phase add up to the current number of replicas, and each
    stops at least one and at most [max 1 MaxUnavailable] of them. *)
Theorem rolling_update_replaces_all current desired plan :
  sane current desired → rolling desired → PlanRollout current desired = Ok plan →
  foldl Z.add 0 (update_stops (plan_Phases plan)) = w_Replicas current ∧
  Forall (fun k => 1 ≤ k ≤ Z.max 1 (ro_MaxUnavailable (w_RolloutStrategy desired)))
    (update_stops (plan_Phases plan)).
Proof.
  intros Hsane Hr. rewrite PlanRollout_rolling by done. intros [= <-].
  pose proof (size_spec _ _ Hsane) as (Hs1 & Hs2 & Hs3).
  assert (batch_size (w_Replicas current) (plan_min_available desired) (w_RolloutStrategy desired)
    ≤ Z.max 1 (ro_MaxUnavailable (w_RolloutStrategy desired))) as Hmax.
  { unfold batch_size. rewrite min_spec. destruct Hsane as (_ & _ & _ & ? & _).
    repeat case_match; bool_to_prop; lia. }
  assert (update_stops (plan_Phases (planRollingUpdate current desired (plan_min_available desired)
      (w_RolloutStrategy desired))) = update_stops (update_phase current desired)) as ->.
  { rewrite plan_parts. unfold update_stops. rewrite !List.filter_app, !fmap_app.
    unfold surge_phase, down_phase. by repeat case_match; rewrite ?app_nil_r. }
  destruct Hsane as (Hc & _). unfold update_phase.
  destruct (0 <? w_Replicas current) eqn:Hpos; bool_to_prop; [|split; [simpl; lia|constructor]].
  rewrite update_stops_batches.
  set (b := batch_size _ _ _) in *. set (c := w_Replicas current) in *.
  destruct (batch_count_spec c b) as [Hk1 Hk2]; [lia..|].
  split.
  - replace (batch_count c b) with (Z.of_nat (Z.to_nat (batch_count c b))) by lia.
    rewrite batch_stops_sum by lia. nia.
  - apply Forall_fmap, Forall_forall. intros i Hi%elem_of_seqZ. simpl.
    destruct (batch_stop_spec c b ltac:(lia) ltac:(lia) i); lia.
Qed.

(** A blue-green rollout never runs fewer replicas than the smaller of the
    current and the desired number and ends with the desired one; a recreate
    rollout ends with it too, after stopping every current replica. *)
Theorem bluegreen_recreate_counts current desired m :
  0 ≤ w_Replicas current → 0 ≤ w_Replicas desired →
  let s := w_RolloutStrategy desired in
  let bg := plan_Phases (planBlueGreen current desired m s) in
  let rc := plan_Phases (planRecreate current desired m s) in
  (∀ c, c ∈ counts (w_Replicas current) bg → Z.min (w_Replicas current) (w_Replicas desired) ≤ c) ∧
  final (w_Replicas current) bg = w_Replicas desired ∧
  final (w_Replicas current) rc = w_Replicas desired ∧
  (0 < w_Replicas current → 0 ∈ counts (w_Replicas current) rc).
Proof.
  intros Hc Hd s bg rc. unfold bg, rc, planBlueGreen, planRecreate, final.
  cbn [plan_Phases].
  destruct (0 <? ro_PauseDuration s), (0 <? w_Replicas current) eqn:Hpos; bool_to_prop;
    cbn [app counts foldl]; autorewrite with rollout;
    (split; [intros c; rewrite ?elem_of_cons, elem_of_nil; lia|]);
    (split; [lia|split; [lia|]]); intros Hlt; try lia; rewrite !elem_of_cons; lia.
Qed.

(** Stopping as many ready replicas as [CalculateMaxReplicasToStop]
    allows keeps [minAvailable] of them, when so many are ready, and stops
    none otherwise; [ValidateRollout] then accepts the remaining number. *)
Theorem stop_keeps_min_available total ready m state :
  0 < m < 2 ^ 31 → 0 ≤ ready < 2 ^ 31 →
  ro_MinAvailable (rst_Strategy state) = m →
  rst_ReadyReplicas state = ready - CalculateMaxReplicasToStop total ready m →
  0 ≤ CalculateMaxReplicasToStop total ready m ≤ ready ∧
  (m ≤ ready ↔ ValidateRollout state = None) ∧
  (m ≤ ready → rst_ReadyReplicas state = m).
Proof.
  intros Hm Hr Hs. unfold CalculateMaxReplicasToStop, ValidateRollout. rewrite Hs.
  rewrite (proj2 (Z.eqb_neq m 0)), int64_small by lia. intros ->.
  destruct (_ <? 0) eqn:H1; bool_to_prop; destruct (_ <? m) eqn:H2; bool_to_prop;
    repeat split; (lia || done).
Qed.

(** ** Witnesses *)

Definition no_resources : ResourceSpec :=
  {| rs_CPUMillicores := 0; rs_MemoryBytes := 0; rs_StorageBytes := 0; rs_BandwidthBPS := 0;
     rs_GPUCount := 0 |}.

Definition rollout_sample (replicas maxUnavailable minAvailable : Z) : WorkloadSpec :=
  {| w_ID := "web"; w_Name := "web"; w_Namespace := "default"; w_Replicas := replicas;
     w_Resources := {| rr_Requests := no_resources; rr_Limits := no_resources |};
     w_PlacementPolicy := {| pp_Regions := []; pp_Zones := []; pp_NodeSelector := ∅;
       pp_Affinity := []; pp_AntiAffinity := []; pp_Tolerations := []; pp_SpreadTopology := "" |};
     w_RestartPolicy := {| rp_Policy := "Always"; rp_MaxRetries := 0; rp_Backoff := 0 |};
     w_RolloutStrategy := {| ro_Strategy := "RollingUpdate"; ro_MaxSurge := 0;
       ro_MaxUnavailable := maxUnavailable; ro_MinAvailable := minAvailable;
       ro_PauseDuration := 0 |};
     w_Priority := 0; w_Labels := ∅; w_Annotations := None |}.

Lemma rollout_sample_sane r1 r2 u m :
  0 ≤ r1 < 2 ^ 31 → 0 ≤ r2 < 2 ^ 31 → 0 ≤ u < 2 ^ 31 → 0 ≤ m < 2 ^ 31 →
  sane (rollout_sample r1 0 0) (rollout_sample r2 u m).
Proof. intros. unfold sane. simpl. lia. Qed.

Definition plan_of (current desired : WorkloadSpec) : RolloutPlan :=
  planRollingUpdate current desired (plan_min_available desired) (w_RolloutStrategy desired).

(** Five replicas, two at a time, four actions deep: 3 is the lowest count. *)
Example rollout_sample_counts :
  counts 5 (plan_Phases (plan_of (rollout_sample 5 0 0) (rollout_sample 5 2 0))) =
  [3; 5; 5; 3; 5; 5; 4; 5; 5].
Proof. by vm_compute. Qed.

(** A single replica that must stay available is stopped first. *)
Lemma rolling_update_min_available_witness :
  ∃ c, c ∈ counts 1 (plan_Phases (plan_of (rollout_sample 1 0 0) (rollout_sample 1 0 1))) ∧ c < 1.
Proof.
  apply (rolling_update_min_available (rollout_sample 1 0 0) (rollout_sample 1 0 1)
    (plan_of (rollout_sample 1 0 0) (rollout_sample 1 0 1))).
  - apply rollout_sample_sane; lia.
  - reflexivity.
  - reflexivity.
  - vm_compute; split; [reflexivity|discriminate].
  - vm_compute; discriminate.
Defined.

(** From 2 to 10 replicas without a surge: the plan ends at 3. *)
Lemma rolling_update_final_witness :
  final 2 (plan_Phases (plan_of (rollout_sample 2 0 0) (rollout_sample 10 1 0))) =
  Z.min 10 (2 + Z.max 1 0).
Proof.
  apply (rolling_update_final (rollout_sample 2 0 0) (rollout_sample 10 1 0)
    (plan_of (rollout_sample 2 0 0) (rollout_sample 10 1 0))).
  - apply rollout_sample_sane; lia.
  - reflexivity.
  - reflexivity.
Defined.

Lemma rolling_update_replaces_all_witness :
  foldl Z.add 0 (update_stops (plan_Phases (plan_of (rollout_sample 5 0 0) (rollout_sample 5 2 0))))
    = 5.
Proof.
  apply (rolling_update_replaces_all (rollout_sample 5 0 0) (rollout_sample 5 2 0)
    (plan_of (rollout_sample 5 0 0) (rollout_sample 5 2 0))).
  - apply rollout_sample_sane; lia.
  - reflexivity.
  - reflexivity.
Defined.

Lemma bluegreen_recreate_counts_witness :
  final 2 (plan_Phases (planBlueGreen (rollout_sample 2 0 0) (rollout_sample 3 0 0) 1
    (w_RolloutStrategy (rollout_sample 3 0 0)))) = 3.
Proof.
  apply (bluegreen_recreate_counts (rollout_sample 2 0 0) (rollout_sample 3 0 0) 1); simpl; lia.
Defined.

Definition sample_state : RolloutState :=
  {| rst_WorkloadID := "web"; rst_TotalReplicas := 5; rst_ReadyReplicas := 3;
     rst_UpdatedReplicas := 0; rst_OldReplicas := 5;
     rst_Strategy := w_RolloutStrategy (rollout_sample 5 0 3); rst_Phase := RolloutPhaseUpdating;
     rst_StartTime := 0 |}.

Lemma stop_keeps_min_available_witness : 0 ≤ CalculateMaxReplicasToStop 5 4 3 ≤ 4.
Proof.
  apply (stop_keeps_min_available 5 4 3 sample_state); [lia|lia|reflexivity|reflexivity].
Defined.
