(* ===== verification/RaftFSM.v ===== *)
(** * The replicated key-value state machine (pkg/raft/fsm.go, store.go)

    The state machine that every coordinator replica drives from the Raft
    log, and the leader's write operations that fill the log.  The consensus
    library itself is not modelled: a committed entry is one that [Apply] is
    called on.  [time.Now()] is an argument, since every replica reads its own
    clock.  Byte slices are [string]s. *)

From S2P Require Import Prelude GoText.

(** ** Commands and their JSON form *)

Record Command := {
  cmd_Op : string;
  cmd_Key : string;
  cmd_Value : string;
  cmd_ExpiresAt : Z
}.

Record MetadataCommand := {
  mc_Op : string;
  mc_Bucket : string;
  mc_Key : string;
  mc_Value : string
}.

Record MetadataBatchCommand := { Operations : list MetadataCommand }.

(** A JSON [null] in the list decodes to a nil pointer. *)
Record BatchCommand := { Commands : list (option Command) }.

(** A member of a JSON object as [json.Unmarshal] meets it: not there, of a
    type that does not fit the Go field, or a value. *)
Inductive field (A : Type) : Type :=
| Absent
| IllTyped
| Given (a : A).
Arguments Absent {A}.
Arguments IllTyped {A}.
Arguments Given {A} _.

(** The bytes of a log entry: not a JSON object, or its members among the
    names the four command types use. *)
Record LogObject := {
  j_op : field string;
  j_key : field string;
  j_value : field string;
  j_expires_at : field Z;
  j_bucket : field string;
  j_operations : field (list MetadataCommand);
  j_commands : field (list (option Command))
}.

Inductive LogData : Type :=
| NotAnObject
| Object (o : LogObject).

(** What a member leaves in a field that starts as [zero]; [None] is an error. *)
Definition decode {A} (zero : A) (f : field A) : option A :=
  match f with
  | Absent => Some zero
  | IllTyped => None
  | Given a => Some a
  end.

Definition UnmarshalMetadataBatch (d : LogData) : option MetadataBatchCommand :=
  match d with
  | NotAnObject => None
  | Object o =>
      match decode [] (j_operations o) with
      | Some ops => Some {| Operations := ops |}
      | None => None
      end
  end.

Definition UnmarshalMetadataCommand (d : LogData) : option MetadataCommand :=
  match d with
  | NotAnObject => None
  | Object o =>
      match decode EmptyString (j_op o), decode EmptyString (j_bucket o), decode EmptyString (j_key o),
            decode EmptyString (j_value o) with
      | Some op, Some bucket, Some key, Some value =>
          Some {| mc_Op := op; mc_Bucket := bucket; mc_Key := key; mc_Value := value |}
      | _, _, _, _ => None
      end
  end.

Definition UnmarshalBatch (d : LogData) : option BatchCommand :=
  match d with
  | NotAnObject => None
  | Object o =>
      match decode [] (j_commands o) with
      | Some cmds => Some {| Commands := cmds |}
      | None => None
      end
  end.

Definition UnmarshalCommand (d : LogData) : option Command :=
  match d with
  | NotAnObject => None
  | Object o =>
      match decode EmptyString (j_op o), decode EmptyString (j_key o), decode EmptyString (j_value o),
            decode 0 (j_expires_at o) with
      | Some op, Some key, Some value, Some exp =>
          Some {| cmd_Op := op; cmd_Key := key; cmd_Value := value; cmd_ExpiresAt := exp |}
      | _, _, _, _ => None
      end
  end.

(** [json.Marshal]; [omitempty] drops an empty string, slice or number. *)
Definition omit_string (s : string) : field string := if s =?s "" then Absent else Given s.
Definition omit_int (z : Z) : field Z := if z =? 0 then Absent else Given z.

Definition MarshalCommand (c : Command) : LogData := Object {|
  j_op := Given (cmd_Op c); j_key := Given (cmd_Key c); j_value := omit_string (cmd_Value c);
  j_expires_at := omit_int (cmd_ExpiresAt c); j_bucket := Absent; j_operations := Absent;
  j_commands := Absent |}.

Definition MarshalBatch (b : BatchCommand) : LogData := Object {|
  j_op := Absent; j_key := Absent; j_value := Absent; j_expires_at := Absent; j_bucket := Absent;
  j_operations := Absent; j_commands := Given (Commands b) |}.

Definition MarshalMetadataCommand (c : MetadataCommand) : LogData := Object {|
  j_op := Given (mc_Op c); j_key := omit_string (mc_Key c); j_value := omit_string (mc_Value c);
  j_expires_at := Absent; j_bucket := omit_string (mc_Bucket c); j_operations := Absent;
  j_commands := Absent |}.

Definition MarshalMetadataBatch (b : MetadataBatchCommand) : LogData := Object {|
  j_op := Absent; j_key := Absent; j_value := Absent; j_expires_at := Absent; j_bucket := Absent;
  j_operations := Given (Operations b); j_commands := Absent |}.

(** ** The state machine *)

Record Entry := {
  e_Value : string;
  e_ExpiresAt : Z;
  e_CreatedAt : Z;
  e_UpdatedAt : Z
}.

Record FSM := { data : gmap string Entry }.

Definition NewFSM : FSM := {| data := ∅ |}.

(** [expiresAt > 0 && time.Unix(expiresAt, 0).Before(now)] *)
Definition expired (expiresAt now : Z) : bool :=
  (0 <? expiresAt) && (time_Unix expiresAt <? now).

(** The response of an applied command: [None] is nil, [Some] an error. *)
Definition response : Type := option string.

Definition applySet (now : Z) (key value : string) (expiresAt : Z) (f : FSM) : FSM * response :=
  if expired expiresAt now then (f, None)
  else
    let created := match data f !! key with Some existing => e_CreatedAt existing | None => now end in
    ({| data := <[key := {| e_Value := value; e_ExpiresAt := expiresAt; e_CreatedAt := created;
                            e_UpdatedAt := now |}]> (data f) |}, None).

Definition applyDelete (key : string) (f : FSM) : FSM * response :=
  match data f !! key with
  | Some _ => ({| data := delete key (data f) |}, None)
  | None => (f, None)
  end.

Definition applyCommand (now : Z) (cmd : Command) (f : FSM) : FSM * response :=
  if cmd_Op cmd =?s "set" then applySet now (cmd_Key cmd) (cmd_Value cmd) (cmd_ExpiresAt cmd) f
  else if cmd_Op cmd =?s "delete" then applyDelete (cmd_Key cmd) f
  else (f, Some ("unknown operation: " +:+ cmd_Op cmd)).

(** The loop of [applyBatch]; command [i] reads [clock i].  [None] is the
    panic on a nil command. *)
Fixpoint batch_loop (clock : nat → Z) (i : nat) (cmds : list (option Command)) (lastErr : response)
    (f : FSM) : option (FSM * response) :=
  match cmds with
  | [] => Some (f, lastErr)
  | None :: _ => None
  | Some cmd :: rest =>
      let '(f', result) := applyCommand (clock i) cmd f in
      batch_loop clock (S i) rest (match result with Some err => Some err | None => lastErr end) f'
  end.

Definition applyBatch (clock : nat → Z) (batch : BatchCommand) (f : FSM) : option (FSM * response) :=
  batch_loop clock 0 (Commands batch) None f.

Definition bucket_key (bucketName : string) : string := "bucket:" +:+ bucketName.
Definition object_key (bucket objectKey : string) : string :=
  "object:" +:+ bucket +:+ ":" +:+ objectKey.

Definition applyCreateBucket (now : Z) (bucketName value : string) (f : FSM) : FSM * response :=
  applySet now (bucket_key bucketName) value 0 f.

Definition applyDeleteBucket (bucketName : string) (f : FSM) : FSM * response :=
  applyDelete (bucket_key bucketName) f.

Definition applyPutObjectMeta (now : Z) (bucket objectKey value : string) (f : FSM)
    : FSM * response :=
  applySet now (object_key bucket objectKey) value 0 f.

Definition applyDeleteObjectMeta (bucket objectKey : string) (f : FSM) : FSM * response :=
  applyDelete (object_key bucket objectKey) f.

Definition applyMetadataCommand (now : Z) (cmd : MetadataCommand) (f : FSM) : FSM * response :=
  if mc_Op cmd =?s "create_bucket" then applyCreateBucket now (mc_Bucket cmd) (mc_Value cmd) f
  else if mc_Op cmd =?s "delete_bucket" then applyDeleteBucket (mc_Bucket cmd) f
  else if mc_Op cmd =?s "put_object_meta" then
    applyPutObjectMeta now (mc_Bucket cmd) (mc_Key cmd) (mc_Value cmd) f
  else if mc_Op cmd =?s "delete_object_meta" then
    applyDeleteObjectMeta (mc_Bucket cmd) (mc_Key cmd) f
  else (f, Some ("unknown metadata operation: " +:+ mc_Op cmd)).

Fixpoint metadata_loop (clock : nat → Z) (i : nat) (ops : list MetadataCommand)
    (lastErr : response) (f : FSM) : FSM * response :=
  match ops with
  | [] => (f, lastErr)
  | cmd :: rest =>
      let '(f', result) := applyMetadataCommand (clock i) cmd f in
      metadata_loop clock (S i) rest (match result with Some err => Some err | None => lastErr end) f'
  end.

Definition applyMetadataBatch (clock : nat → Z) (batch : MetadataBatchCommand) (f : FSM)
    : FSM * response :=
  metadata_loop clock 0 (Operations batch) None f.

(** [Apply]: the decodings are tried in the order of the code. *)
Definition Apply (clock : nat → Z) (d : LogData) (f : FSM) : option (FSM * response) :=
  let single :=
    match UnmarshalCommand d with
    | None => Some (f, Some "invalid command"%string)
    | Some cmd => Some (applyCommand (clock 0%nat) cmd f)
    end in
  let batch :=
    match UnmarshalBatch d with
    | Some b => if 0 <? len (Commands b) then applyBatch clock b f else single
    | None => single
    end in
  let meta :=
    match UnmarshalMetadataCommand d with
    | Some cmd =>
        if negb (mc_Op cmd =?s "") && negb (mc_Bucket cmd =?s "")
        then Some (applyMetadataCommand (clock 0%nat) cmd f) else batch
    | None => batch
    end in
  match UnmarshalMetadataBatch d with
  | Some b => if 0 <? len (Operations b) then Some (applyMetadataBatch clock b f) else meta
  | None => meta
  end.

(** ** Reads *)

Definition Get (now : Z) (key : string) (f : FSM) : result string string :=
  match data f !! key with
  | None => Err ("key not found: " +:+ key)
  | Some entry =>
      if expired (e_ExpiresAt entry) now then Err ("key expired: " +:+ key)
      else Ok (e_Value entry)
  end.

Definition Size (f : FSM) : Z := Z.of_nat (size (data f)).

Section reads.
Context `{GoRange}.

Definition GetAll (now : Z) (f : FSM) : gmap string string :=
  foldl (fun acc ke =>
    if expired (e_ExpiresAt ke.2) now then acc else <[ke.1 := e_Value ke.2]> acc)
    ∅ (range_map (data f)).

(** [CleanupExpired] with the number of removed entries. *)
Definition CleanupExpired (now : Z) (f : FSM) : FSM * Z :=
  foldl (fun '(g, removed) ke =>
    if expired (e_ExpiresAt ke.2) now
    then ({| data := delete ke.1 (data g) |}, int64 (removed + 1)) else (g, removed))
    (f, 0) (range_map (data f)).

Record FSMStats := {
  TotalEntries : Z;
  TotalBytes : Z;
  ExpiredEntries : Z;
  ExpiringEntries : Z
}.

Definition add_stats (now : Z) (stats : FSMStats) (ke : string * Entry) : FSMStats :=
  let total := int64 (TotalBytes stats + Z.of_nat (String.length (e_Value ke.2))) in
  if 0 <? e_ExpiresAt ke.2 then
    if time_Unix (e_ExpiresAt ke.2) <? now
    then {| TotalEntries := TotalEntries stats; TotalBytes := total;
            ExpiredEntries := int64 (ExpiredEntries stats + 1);
            ExpiringEntries := ExpiringEntries stats |}
    else {| TotalEntries := TotalEntries stats; TotalBytes := total;
            ExpiredEntries := ExpiredEntries stats;
            ExpiringEntries := int64 (ExpiringEntries stats + 1) |}
  else {| TotalEntries := TotalEntries stats; TotalBytes := total;
          ExpiredEntries := ExpiredEntries stats; ExpiringEntries := ExpiringEntries stats |}.

Definition Stats (now : Z) (f : FSM) : FSMStats :=
  foldl (add_stats now)
    {| TotalEntries := Z.of_nat (size (data f)); TotalBytes := 0; ExpiredEntries := 0;
       ExpiringEntries := 0 |} (range_map (data f)).

(** ** Snapshots *)

(** [FSMSnapshot] holds copies of the entries. *)
Record FSMSnapshot := { snap_data : gmap string Entry }.

Record SnapshotData := {
  sd_Version : Z;
  sd_Timestamp : Z;
  sd_Data : gmap string Entry
}.

Definition Snapshot (f : FSM) : FSMSnapshot :=
  {| snap_data := foldl (fun acc kv =>
       <[kv.1 := {| e_Value := e_Value kv.2; e_ExpiresAt := e_ExpiresAt kv.2;
                    e_CreatedAt := e_CreatedAt kv.2; e_UpdatedAt := e_UpdatedAt kv.2 |}]> acc)
       ∅ (range_map (data f)) |}.

(** What [Persist] encodes. *)
Definition Persist (now : Z) (s : FSMSnapshot) : SnapshotData :=
  {| sd_Version := 1; sd_Timestamp := now; sd_Data := snap_data s |}.

(** [Restore] from the decoded snapshot; the previous state is dropped. *)
Definition Restore (now : Z) (snapshot : SnapshotData) : FSM :=
  {| data := foldl (fun acc ke =>
       if expired (e_ExpiresAt ke.2) now then acc else <[ke.1 := ke.2]> acc)
       ∅ (range_map (sd_Data snapshot)) |}.

End reads.

(** ** The leader's writes (store.go)

    [raft] is the library's answer to [raft.Apply]: the entry was committed
    and applied to the local state machine, or the future has an error. *)

Inductive raft_answer : Type :=
| Committed (clock : nat → Z)
| Rejected (err : string).

Record Store := { fsm : FSM; is_leader : bool }.

(** Submitting an entry; [None] is the panic of the state machine. *)
Definition submit (what : string) (d : LogData) (raft : raft_answer) (s : Store)
    : option (Store * response) :=
  if negb (is_leader s) then Some (s, Some "not leader"%string)
  else match raft with
  | Rejected err => Some (s, Some ("failed to apply " +:+ what +:+ ": " +:+ err))
  | Committed clock =>
      match Apply clock d (fsm s) with
      | None => None
      | Some (f, r) => Some ({| fsm := f; is_leader := is_leader s |}, r)
      end
  end.

Definition Store_Set (key value : string) : raft_answer → Store → option (Store * response) :=
  submit "command" (MarshalCommand
    {| cmd_Op := "set"; cmd_Key := key; cmd_Value := value; cmd_ExpiresAt := 0 |}).

Definition Store_Delete (key : string) : raft_answer → Store → option (Store * response) :=
  submit "command" (MarshalCommand
    {| cmd_Op := "delete"; cmd_Key := key; cmd_Value := ""; cmd_ExpiresAt := 0 |}).

(** [SetWithTTL]: the expiry is [now + ttl] in whole seconds. *)
Definition SetWithTTL (now : Z) (key value : string) (ttl : Z)
    : raft_answer → Store → option (Store * response) :=
  submit "command" (MarshalCommand
    {| cmd_Op := "set"; cmd_Key := key; cmd_Value := value;
       cmd_ExpiresAt := (now + ttl) / second |}).

Definition ApplyBatch (commands : list (option Command))
    : raft_answer → Store → option (Store * response) :=
  submit "batch" (MarshalBatch {| Commands := commands |}).

Definition ApplyRaw (d : LogData) : raft_answer → Store → option (Store * response) :=
  submit "command" d.

Definition Store_Get (now : Z) (key : string) (s : Store) : result string string :=
  Get now key (fsm s).

Definition ListKeys `{GoRange} (prefix : string) (now : Z) (s : Store) : list string :=
  List.filter (fun k => HasPrefix k prefix) (range_map (GetAll now (fsm s))).*1.

(** ** The abstract store

    A key-value store with expiry times: what a client can observe.  [view]
    is the contents at a time, [kv] drops the bookkeeping timestamps. *)

Abbreviation kv := (gmap string (string * Z)).

Definition abs (f : FSM) : kv := (fun e => (e_Value e, e_ExpiresAt e)) <$> data f.

Definition kv_set (now : Z) (k v : string) (exp : Z) (m : kv) : kv :=
  if expired exp now then m else <[k := (v, exp)]> m.

(** The value of a key at a time. *)
Definition kv_get (now : Z) (k : string) (m : kv) : option string :=
  match m !! k with
  | Some (v, exp) => if expired exp now then None else Some v
  | None => None
  end.

Definition view (now : Z) (m : kv) : gmap string string :=
  omap (fun ve => if expired ve.2 now then None else Some ve.1) m.

Lemma view_lookup now m k : view now m !! k = kv_get now k m.
Proof.
  unfold view, kv_get. rewrite lookup_omap. by destruct (m !! k) as [[v exp]|].
Qed.

Lemma abs_lookup f k : abs f !! k = (fun e => (e_Value e, e_ExpiresAt e)) <$> data f !! k.
Proof. apply lookup_fmap. Qed.

Lemma applySet_abs now k v exp f :
  abs (applySet now k v exp f).1 = kv_set now k v exp (abs f) ∧ (applySet now k v exp f).2 = None.
Proof.
  unfold applySet, kv_set. case_match; [done|]. split; [|done]. unfold abs. simpl.
  by rewrite fmap_insert.
Qed.

Lemma applyDelete_abs k f :
  abs (applyDelete k f).1 = delete k (abs f) ∧ (applyDelete k f).2 = None.
Proof.
  unfold applyDelete. destruct (data f !! k) eqn:Hk; simpl.
  - split; [|done]. unfold abs. simpl. by rewrite fmap_delete.
  - split; [|done]. rewrite delete_id; [done|]. by rewrite abs_lookup, Hk.
Qed.

(** Expiry is permanent. *)
Lemma expired_mono exp t t' : t ≤ t' → expired exp t = true → expired exp t' = true.
Proof. unfold expired. intros. bool_to_prop. apply andb_true_iff. lia. Qed.

Lemma expired_zero now : expired 0 now = false.
Proof. done. Qed.

(** Reading is reading the abstract store. *)
Lemma Get_abs now k f :
  Get now k f =
  match abs f !! k with
  | None => Err ("key not found: " +:+ k)
  | Some (v, exp) => if expired exp now then Err ("key expired: " +:+ k) else Ok v
  end.
Proof. unfold Get. rewrite abs_lookup. by destruct (data f !! k). Qed.

(** A loop that inserts the entries it keeps, in whatever order the map is
    visited, builds the filtered map. *)
Lemma foldl_insert_omap {A B} (g : A → option B) (l : list (string * A)) (acc : gmap string B) :
  NoDup l.*1 → (∀ k, k ∈ l.*1 → acc !! k = None) →
  foldl (fun acc kv => match g kv.2 with Some b => <[kv.1 := b]> acc | None => acc end) acc l =
  omap g (list_to_map l : gmap string A) ∪ acc.
Proof.
  revert acc. induction l as [|[k a] l IH]; csimpl; intros acc Hnd Hacc.
  { by rewrite omap_empty, (left_id_L ∅ (∪)). }
  apply NoDup_cons in Hnd as [Hk Hnd].
  assert ((list_to_map l : gmap string A) !! k = None) as Hlk by (by apply not_elem_of_list_to_map_1).
  apply map_eq. intros j.
  assert (∀ b, foldl (fun acc kv => match g kv.2 with Some b => <[kv.1 := b]> acc | None => acc end)
    (<[k := b]> acc) l !! j = (omap g (list_to_map l : gmap string A) ∪ <[k := b]> acc) !! j) as Hins.
  { intros b. rewrite IH; [done|done|]. intros i Hi. rewrite lookup_insert_ne; [|by intros ->].
    apply Hacc. by right. }
  rewrite omap_insert. destruct (g a) as [b|].
  - rewrite Hins. destruct (decide (j = k)) as [->|Hj].
    + rewrite lookup_union_r by (by rewrite lookup_omap, Hlk).
      rewrite lookup_insert_eq, lookup_union, lookup_insert_eq. by rewrite (Hacc k) by left.
    + rewrite !lookup_union, !lookup_insert_ne by done. done.
  - rewrite IH; [|done|intros i Hi; apply Hacc; by right].
    rewrite delete_id by (by rewrite lookup_omap, Hlk). done.
Qed.

Lemma list_to_range_map `{GoRange} {A} (m : gmap string A) :
  (list_to_map (range_map m) : gmap string A) = m.
Proof.
  apply map_eq. intros k. apply option_eq. intros a.
  rewrite <-elem_of_list_to_map by apply range_map_keys. apply elem_of_range_map.
Qed.

Lemma foldl_range_omap `{GoRange} {A B} (g : A → option B) (m : gmap string A) :
  foldl (fun acc kv => match g kv.2 with Some b => <[kv.1 := b]> acc | None => acc end)
    ∅ (range_map m) = omap g m.
Proof.
  rewrite foldl_insert_omap by (try apply range_map_keys; done).
  by rewrite list_to_range_map, (right_id_L ∅ (∪)).
Qed.

Lemma foldl_pointwise {A B} (f g : A → B → A) a l :
  (∀ acc x, f acc x = g acc x) → foldl f a l = foldl g a l.
Proof. intros Hfg. revert a. induction l as [|x l IH]; intros a; simpl; [done|]. by rewrite Hfg, IH. Qed.

Lemma GetAll_view `{GoRange} now f : GetAll now f = view now (abs f).
Proof.
  unfold GetAll. transitivity (omap (fun e => if expired (e_ExpiresAt e) now then None
    else Some (e_Value e)) (data f)).
  - rewrite <-foldl_range_omap. apply foldl_pointwise. intros acc [k e]. simpl. by case_match.
  - apply map_eq. intros k. unfold view, abs. rewrite !lookup_omap, lookup_fmap.
    by destruct (data f !! k).
Qed.

Definition live (now : Z) (e : Entry) : option Entry :=
  if expired (e_ExpiresAt e) now then None else Some e.

Lemma Restore_data `{GoRange} now s : data (Restore now s) = omap (live now) (sd_Data s).
Proof.
  unfold Restore. simpl. rewrite <-foldl_range_omap. apply foldl_pointwise.
  intros acc [k e]. unfold live. simpl. by case_match.
Qed.

Lemma Snapshot_data `{GoRange} f : snap_data (Snapshot f) = data f.
Proof.
  unfold Snapshot. simpl. transitivity (omap Some (data f)).
  - rewrite <-foldl_range_omap. apply foldl_pointwise. by intros acc [k []].
  - apply map_eq. intros k. rewrite lookup_omap. by destruct (data f !! k).
Qed.

(** A set of removals, in whatever order. *)
Lemma cleanup_loop now l f n :
  NoDup l.*1 →
  let r := foldl (fun '(g, removed) ke => if expired (e_ExpiresAt ke.2) now
    then ({| data := delete ke.1 (data g) |}, int64 (removed + 1)) else (g, removed)) (f, n) l in
  ∀ k, data r.1 !! k =
    match (list_to_map l : gmap string Entry) !! k with
    | Some e => if expired (e_ExpiresAt e) now then None else data f !! k
    | None => data f !! k
    end.
Proof.
  intros Hnd. revert f n. induction l as [|[j e] l IH]; intros f n; csimpl; [done|].
  apply NoDup_cons in Hnd as [Hj Hnd]. intros k.
  assert ((list_to_map l : gmap string Entry) !! j = None) as Hlj by (by apply not_elem_of_list_to_map_1).
  destruct (decide (k = j)) as [->|Hk].
  - rewrite lookup_insert_eq. destruct (expired _ _); rewrite IH by done; rewrite Hlj; simpl;
      by rewrite ?lookup_delete_eq.
  - rewrite lookup_insert_ne by done. destruct (expired _ _); rewrite IH by done; [|done].
    simpl. by rewrite lookup_delete_ne by done.
Qed.

Lemma CleanupExpired_data `{GoRange} now f :
  data (CleanupExpired now f).1 = omap (live now) (data f).
Proof.
  apply map_eq. intros k. unfold CleanupExpired. rewrite cleanup_loop by apply range_map_keys.
  rewrite list_to_range_map, lookup_omap. unfold live. by destruct (data f !! k).
Qed.

(** Dropping expired entries is invisible from then on. *)
Lemma omap_live_view now t m g :
  now ≤ t → data g = omap (live now) m → view t (abs g) = view t ((fun e => (e_Value e, e_ExpiresAt e)) <$> m).
Proof.
  intros Hle Hg. apply map_eq. intros k. rewrite !view_lookup. unfold kv_get, abs.
  rewrite Hg, !lookup_fmap, lookup_omap. destruct (m !! k) as [e|]; [|done]. simpl.
  unfold live. destruct (expired (e_ExpiresAt e) now) eqn:He; [|done]. simpl.
  by rewrite (expired_mono _ _ _ Hle He).
Qed.

(** ** Histories *)

Inductive op : Type :=
| OpSet (k v : string) (exp : Z)
| OpDelete (k : string)
| OpCleanup
| OpSnapshotRestore.

(** One operation at a time on the state machine, and on the abstract store,
    which knows neither cleaning nor snapshots. *)
Definition run_op `{GoRange} (f : FSM) (to : Z * op) : FSM :=
  match to.2 with
  | OpSet k v exp => (applySet to.1 k v exp f).1
  | OpDelete k => (applyDelete k f).1
  | OpCleanup => (CleanupExpired to.1 f).1
  | OpSnapshotRestore => Restore to.1 (Persist to.1 (Snapshot f))
  end.

Definition spec_op (m : kv) (to : Z * op) : kv :=
  match to.2 with
  | OpSet k v exp => kv_set to.1 k v exp m
  | OpDelete k => delete k m
  | OpCleanup | OpSnapshotRestore => m
  end.

(** The state machine and the abstract store look the same from [t] on. *)
Definition same_view (t : Z) (f : FSM) (m : kv) : Prop :=
  ∀ t', t ≤ t' → view t' (abs f) = view t' m.

Lemma view_set t now k v exp m m' :
  view t m = view t m' → view t (kv_set now k v exp m) = view t (kv_set now k v exp m').
Proof.
  intros Hv. unfold kv_set. case_match; [done|]. apply map_eq. intros j.
  pose proof (f_equal (lookup j) Hv) as Hj. rewrite !view_lookup in *. unfold kv_get in *.
  destruct (decide (j = k)) as [->|Hne]; [by rewrite !lookup_insert_eq|].
  by rewrite !lookup_insert_ne.
Qed.

Lemma view_delete t k m m' : view t m = view t m' → view t (delete k m) = view t (delete k m').
Proof.
  intros Hv. apply map_eq. intros j.
  pose proof (f_equal (lookup j) Hv) as Hj. rewrite !view_lookup in *. unfold kv_get in *.
  destruct (decide (j = k)) as [->|Hne]; [by rewrite !lookup_delete_eq|].
  by rewrite !lookup_delete_ne.
Qed.

Lemma run_op_same_view `{GoRange} t f m to :
  t ≤ to.1 → same_view t f m → same_view to.1 (run_op f to) (spec_op m to).
Proof.
  intros Hle Hv t' Ht'. specialize (Hv t' ltac:(lia)). destruct to as [now o]; simpl in *.
  destruct o as [k v exp|k| |]; unfold run_op, spec_op; simpl.
  - rewrite (proj1 (applySet_abs _ _ _ _ _)). by apply view_set.
  - rewrite (proj1 (applyDelete_abs _ _)). by apply view_delete.
  - rewrite (omap_live_view now t' (data f)); [done|done|apply CleanupExpired_data].
  - rewrite (omap_live_view now t' (data f)); [done|done|].
    rewrite Restore_data. cbn [Persist sd_Data]. by rewrite Snapshot_data.
Qed.

(** C3: for every history of writes, deletions, clean-ups and snapshot
    round trips with a clock that does not go back, [Get] and [GetAll]
    answer, at any later time, what a key-value store with expiry times that
    never cleans up and never restores answers. *)
Theorem reads_refine_history `{GoRange} history t t0 k :
  StronglySorted (fun a b : Z * op => a.1 ≤ b.1) history →
  Forall (fun to => t0 ≤ to.1 ≤ t) history → t0 ≤ t →
  let f := foldl run_op NewFSM history in
  let m := foldl spec_op ∅ history in
  GetAll t f = view t m ∧
  (kv_get t k m = None ↔ is_ok (Get t k f) = false) ∧
  (∀ v, kv_get t k m = Some v ↔ Get t k f = Ok v).
Proof.
  intros Hs Ht Ht0 f m.
  assert (same_view t f m) as Hv.
  { assert (∀ t1 f1 m1, same_view t1 f1 m1 → t1 ≤ t → Forall (fun to => t1 ≤ to.1 ≤ t) history →
      same_view t (foldl run_op f1 history) (foldl spec_op m1 history)) as Hrun.
    { clear Ht Ht0 f m. induction Hs as [|to history Hs IH Hall]; intros t1 f1 m1 Hv Hle Hb; simpl.
      - intros t' ?. apply Hv. lia.
      - apply Forall_cons in Hb as [Hto Hb].
        apply (IH to.1); [by eapply run_op_same_view; [|done]; lia|lia|].
        apply Forall_forall. intros x Hx. rewrite Forall_forall in Hall, Hb.
        split; [by apply Hall|by apply Hb]. }
    apply (Hrun t0); [done|done|done]. }
  split; [rewrite GetAll_view; by apply Hv|].
  assert (kv_get t k (abs f) = kv_get t k m) as Hk by (rewrite <-!view_lookup; by rewrite Hv).
  rewrite <-Hk, Get_abs. unfold kv_get. destruct (abs f !! k) as [[v exp]|]; [case_match|];
    simpl; split; intros; split; congruence.
Qed.

(** ** Replication *)

(** A command that carries no expiry. *)
Definition no_ttl (c : Command) : Prop := cmd_ExpiresAt c ≤ 0.

Definition entry_no_ttl (d : LogData) : Prop :=
  match d with
  | NotAnObject => True
  | Object o =>
      (∀ z, j_expires_at o = Given z → z ≤ 0) ∧
      (∀ l, j_commands o = Given l → Forall (fun c => match c with Some c => no_ttl c | None => True end) l)
  end.

(** Applying a log, entry by entry, with the readings of a replica's clock. *)
Fixpoint apply_log (clock : nat → nat → Z) (i : nat) (log : list LogData) (f : FSM)
    : option (FSM * list response) :=
  match log with
  | [] => Some (f, [])
  | d :: rest =>
      match Apply (clock i) d f with
      | None => None
      | Some (f', r) =>
          match apply_log clock (S i) rest f' with
          | None => None
          | Some (f'', rs) => Some (f'', r :: rs)
          end
      end
  end.

(** The outcomes of two replicas agree: same contents, same responses. *)
Definition agree {R} (x y : FSM * R) : Prop := abs x.1 = abs y.1 ∧ x.2 = y.2.

Definition agree_opt {R} (x y : option (FSM * R)) : Prop :=
  match x, y with
  | Some a, Some b => agree a b
  | None, None => True
  | _, _ => False
  end.

Lemma applySet_agree t1 t2 k v exp f g :
  exp ≤ 0 → abs f = abs g → agree (applySet t1 k v exp f) (applySet t2 k v exp g).
Proof.
  intros Hexp Hfg. split; [|by rewrite !(proj2 (applySet_abs _ _ _ _ _))].
  rewrite !(proj1 (applySet_abs _ _ _ _ _)). unfold kv_set, expired.
  rewrite (proj2 (Z.ltb_ge 0 exp)) by lia. simpl. by rewrite Hfg.
Qed.

Lemma applyDelete_agree k f g : abs f = abs g → agree (applyDelete k f) (applyDelete k g).
Proof.
  intros Hfg. split; [|by rewrite !(proj2 (applyDelete_abs _ _))].
  rewrite !(proj1 (applyDelete_abs _ _)). by rewrite Hfg.
Qed.

Lemma applyCommand_agree t1 t2 c f g :
  no_ttl c → abs f = abs g → agree (applyCommand t1 c f) (applyCommand t2 c g).
Proof.
  intros Hc Hfg. unfold applyCommand. repeat case_match;
    [by apply applySet_agree|by apply applyDelete_agree|done].
Qed.

Lemma applyMetadataCommand_agree t1 t2 c f g :
  abs f = abs g → agree (applyMetadataCommand t1 c f) (applyMetadataCommand t2 c g).
Proof.
  intros Hfg. unfold applyMetadataCommand, applyCreateBucket, applyDeleteBucket,
    applyPutObjectMeta, applyDeleteObjectMeta.
  repeat case_match; (apply applySet_agree || apply applyDelete_agree || idtac); try done; lia.
Qed.

Lemma metadata_loop_agree c1 c2 i ops e f g :
  abs f = abs g → agree (metadata_loop c1 i ops e f) (metadata_loop c2 i ops e g).
Proof.
  revert i e f g. induction ops as [|c ops IH]; intros i e f g Hfg; simpl; [done|].
  destruct (applyMetadataCommand_agree (c1 i) (c2 i) c f g Hfg) as [Ha Hr].
  destruct (applyMetadataCommand (c1 i) c f), (applyMetadataCommand (c2 i) c g); simpl in *.
  subst. by apply IH.
Qed.

Lemma batch_loop_agree c1 c2 i cmds e f g :
  Forall (fun c => match c with Some c => no_ttl c | None => True end) cmds → abs f = abs g →
  agree_opt (batch_loop c1 i cmds e f) (batch_loop c2 i cmds e g).
Proof.
  intros Hc. revert i e f g. induction Hc as [|[c|] cmds Hc Hcs IH]; intros i e f g Hfg; simpl; [done| |done].
  destruct (applyCommand_agree (c1 i) (c2 i) c f g Hc Hfg) as [Ha Hr].
  destruct (applyCommand (c1 i) c f), (applyCommand (c2 i) c g); simpl in *. subst. by apply IH.
Qed.

Lemma UnmarshalCommand_no_ttl d c :
  entry_no_ttl d → UnmarshalCommand d = Some c → no_ttl c.
Proof.
  destruct d as [|o]; [done|]. intros [He _]. simpl. unfold no_ttl.
  destruct (j_expires_at o) eqn:Ej; simpl; intros; case_all; [lia|by apply He].
Qed.

Lemma UnmarshalBatch_no_ttl d b :
  entry_no_ttl d → UnmarshalBatch d = Some b →
  Forall (fun c => match c with Some c => no_ttl c | None => True end) (Commands b).
Proof.
  destruct d as [|o]; [done|]. intros [_ Hb]. simpl.
  destruct (j_commands o) eqn:Ej; simpl; intros [= <-]; [constructor|by apply Hb].
Qed.

(** An entry without expiry has the same effect on every replica. *)
Lemma Apply_agree c1 c2 d f g :
  entry_no_ttl d → abs f = abs g → agree_opt (Apply c1 d f) (Apply c2 d g).
Proof.
  intros Hd Hfg. unfold Apply.
  destruct (UnmarshalMetadataBatch d) as [mb|]; [case_match; [by apply metadata_loop_agree|]|];
  (destruct (UnmarshalMetadataCommand d) as [mc|];
     [case_match; [by apply applyMetadataCommand_agree|]|]);
  (destruct (UnmarshalBatch d) as [b|] eqn:E3;
     [case_match; [apply batch_loop_agree; [by eapply UnmarshalBatch_no_ttl|done]|]|]);
  (destruct (UnmarshalCommand d) as [c|] eqn:E4;
     [apply applyCommand_agree; [by eapply UnmarshalCommand_no_ttl|done]|done]).
Qed.

(** Replicas that apply the same log agree, whatever their clocks read,
    as long as no entry carries an expiry time: they hold the same keys,
    values and expiry times and gave the same responses (or both panicked). *)
Theorem replicas_agree clock1 clock2 log f g :
  Forall entry_no_ttl log → abs f = abs g →
  agree_opt (apply_log clock1 0 log f) (apply_log clock2 0 log g).
Proof.
  intros Hlog. generalize 0%nat as i. revert f g.
  induction Hlog as [|d log Hd Hlog IH]; intros f g i Hfg; simpl; [done|].
  pose proof (Apply_agree (clock1 i) (clock2 i) d f g Hd Hfg) as Ha.
  destruct (Apply (clock1 i) d f) as [[f1 r1]|], (Apply (clock2 i) d g) as [[f2 r2]|]; try done.
  destruct Ha as [Ha Hr]. simpl in Ha, Hr. subst r2. specialize (IH f1 f2 (S i) Ha).
  destruct (apply_log clock1 (S i) log f1) as [[]|], (apply_log clock2 (S i) log f2) as [[]|]; try done.
  destruct IH as [IHa IHr]. simpl in *. split; simpl; [done|by f_equal].
Qed.

(** A value without expiry, then a new one that expires at second 100. *)
Definition ttl_log : list LogData :=
  [MarshalCommand {| cmd_Op := "set"; cmd_Key := "leader"; cmd_Value := "a"; cmd_ExpiresAt := 0 |};
   MarshalCommand {| cmd_Op := "set"; cmd_Key := "leader"; cmd_Value := "b"; cmd_ExpiresAt := 100 |}].

Definition state_of (r : option (FSM * list response)) : FSM :=
  match r with Some (f, _) => f | None => NewFSM end.

(** The same log with an expiring write, applied by a replica before the
    expiry and by another (restarted or lagging) after it, leaves two states
    that differ for good: one replica answers with the old value at every
    time after the expiry, the other reports the key as expired. *)
Theorem replicas_diverge :
  let early := apply_log (fun _ _ => 50 * second) 0 ttl_log NewFSM in
  let late := apply_log (fun _ _ => 200 * second) 0 ttl_log NewFSM in
  option_map snd early = option_map snd late ∧
  ∀ t, 100 * second < t →
    Get t "leader" (state_of early) = Err "key expired: leader"%string ∧
    Get t "leader" (state_of late) = Ok "a"%string.
Proof.
  split; [done|]. intros t Ht. split; [|done].
  transitivity (match expired 100 t with true => Err "key expired: leader"%string
                | false => Ok "b"%string end); [reflexivity|].
  unfold expired, time_Unix. by rewrite (proj2 (Z.ltb_lt (100 * second) t) Ht).
Qed.

(** ** Encoding and dispatch *)

Lemma decode_omit_string s : decode EmptyString (omit_string s) = Some s.
Proof. unfold omit_string. case_bool_decide; by subst. Qed.

Lemma decode_omit_int z : decode 0 (omit_int z) = Some z.
Proof. unfold omit_int. case_match; bool_to_prop; by subst. Qed.

Lemma Apply_command clock c f :
  Apply clock (MarshalCommand c) f = Some (applyCommand (clock 0%nat) c f).
Proof.
  unfold Apply. destruct c. simpl. rewrite decode_omit_string, decode_omit_int. simpl.
  by rewrite andb_false_r.
Qed.

(** A write to the Raft store is applied, or refused and has no effect. *)
Lemma Store_Set_cases key value a (r : Store) :
  (∃ r', Store_Set key value a r = Some (r', None) ∧
         abs (fsm r') = <[key := (value, 0)]> (abs (fsm r))) ∨
  (∃ err, Store_Set key value a r = Some (r, Some err)).
Proof.
  unfold Store_Set, submit. destruct (is_leader r); cbn [negb]; [|eauto].
  destruct a as [clock|err]; [|eauto]. rewrite Apply_command. left.
  set (c := clock 0%nat). unfold applyCommand; cbn -[applySet].
  destruct (applySet_abs c key value 0 (fsm r)) as [Hf Hr].
  destruct (applySet c key value 0 (fsm r)) as [f resp]. simpl in *. subst resp.
  eexists. split; [done|]. done.
Qed.

Lemma Store_Delete_cases key a (r : Store) :
  (∃ r', Store_Delete key a r = Some (r', None) ∧ abs (fsm r') = delete key (abs (fsm r))) ∨
  (∃ err, Store_Delete key a r = Some (r, Some err)).
Proof.
  unfold Store_Delete, submit. destruct (is_leader r); cbn [negb]; [|eauto].
  destruct a as [clock|err]; [|eauto]. rewrite Apply_command. left.
  unfold applyCommand; cbn -[applyDelete].
  destruct (applyDelete_abs key (fsm r)) as [Hf Hr].
  destruct (applyDelete key (fsm r)) as [f resp]. simpl in *. subst resp.
  eexists. split; [done|]. done.
Qed.

(** What the leader encodes is what every replica executes: a command, a
    non-empty batch, a metadata operation on a named bucket and a non-empty
    metadata batch are decoded to themselves by [Apply]'s four attempts.  An
    empty batch is not: it is taken for a command without an operation and
    answered with an error, as is a metadata operation without a bucket. *)
Theorem Apply_dispatch clock f :
  (∀ c, Apply clock (MarshalCommand c) f = Some (applyCommand (clock 0%nat) c f)) ∧
  (∀ b, Commands b ≠ [] → Apply clock (MarshalBatch b) f = applyBatch clock b f) ∧
  (∀ c, mc_Op c ≠ EmptyString → mc_Bucket c ≠ EmptyString →
     Apply clock (MarshalMetadataCommand c) f = Some (applyMetadataCommand (clock 0%nat) c f)) ∧
  (∀ b, Operations b ≠ [] →
     Apply clock (MarshalMetadataBatch b) f = Some (applyMetadataBatch clock b f)) ∧
  Apply clock (MarshalBatch {| Commands := [] |}) f = Some (f, Some "unknown operation: "%string) ∧
  Apply clock (MarshalMetadataCommand {| mc_Op := "create_bucket"; mc_Bucket := "";
    mc_Key := ""; mc_Value := "{}" |}) f = Some (f, Some "unknown operation: create_bucket"%string).
Proof.
  assert (∀ {A} (l : list A), l ≠ [] → (0 <? len l) = true) as Hlen.
  { intros A l Hl. apply Z.ltb_lt. unfold len. destruct l; [done|simpl; lia]. }
  repeat split; [intros c; apply Apply_command|..]; unfold Apply.
  - intros [l] Hl. cbn. by rewrite (Hlen _ l Hl).
  - intros [op bucket key value] Hop Hb. cbn. rewrite !decode_omit_string. cbn.
    by rewrite !bool_decide_eq_false_2.
  - intros [l] Hl. cbn. by rewrite (Hlen _ l Hl).
Qed.

(** *** Batches *)

(** A metadata batch is not atomic: an operation that fails is reported,
    and the ones before and after it are applied all the same. *)
Theorem metadata_batch_not_atomic clock f :
  let put k := {| mc_Op := "put_object_meta"; mc_Bucket := "b"; mc_Key := k; mc_Value := "v" |} in
  let bad := {| mc_Op := "rename"; mc_Bucket := "b"; mc_Key := "x"; mc_Value := "" |} in
  ∃ f', Apply clock (MarshalMetadataBatch {| Operations := [put "x"; bad; put "y"]%string |}) f =
          Some (f', Some "unknown metadata operation: rename"%string) ∧
        is_Some (data f' !! "object:b:x"%string) ∧ is_Some (data f' !! "object:b:y"%string).
Proof.
  eexists. split; [reflexivity|]. simpl. split.
  - rewrite lookup_insert_ne by done. rewrite lookup_insert_eq. eauto.
  - rewrite lookup_insert_eq. eauto.
Qed.

(** *** Expiry in whole seconds *)

(** [SetWithTTL] rounds the expiry down to a second, so a time to live
    that ends in the second the entry is applied in is lost: the leader
    reports success, nothing is stored, and a previous value stays. *)
Theorem SetWithTTL_lost now key value ttl clock s :
  is_leader s = true →
  0 < (now + ttl) / second → (now + ttl) / second * second < clock 0%nat →
  SetWithTTL now key value ttl (Committed clock) s = Some (s, None).
Proof.
  intros Hl Hpos Hlate. unfold SetWithTTL, submit. rewrite Hl. cbn [negb].
  set (c := {| cmd_Op := "set" |}).
  assert (Apply clock (MarshalCommand c) (fsm s) = Some (fsm s, None)) as ->;
    [|by destruct s; simpl in *; subst].
  transitivity (Some (applyCommand (clock 0%nat) c (fsm s))).
  - unfold Apply. cbn -[applyCommand]. rewrite decode_omit_string, decode_omit_int. cbn -[applyCommand].
    done.
  - f_equal. unfold applyCommand, applySet. cbn -[Z.div second expired]. unfold expired, time_Unix.
    by rewrite (proj2 (Z.ltb_lt _ _) Hpos), (proj2 (Z.ltb_lt _ _) Hlate).
Qed.

(** *** Keys of buckets and objects *)

(** The keys of buckets and objects do not clash when bucket names have
    no colon; with a colon in a bucket name two different objects share a
    key, and writing one overwrites the other. *)
Theorem metadata_keys :
  (∀ b b' o o', contains_char ":" b = false → contains_char ":" b' = false →
     object_key b o = object_key b' o' → b = b' ∧ o = o') ∧
  (∀ b b', bucket_key b = bucket_key b' → b = b') ∧
  (∀ b b' o, bucket_key b ≠ object_key b' o) ∧
  object_key "a:b" "c" = object_key "a" "b:c".
Proof.
  split; [|split; [|split; [|reflexivity]]].
  - intros b b' o o' Hb Hb' Heq. unfold object_key in Heq.
    apply string_app_inj_l in Heq. by apply (sep_inj ":") in Heq.
  - intros b b' Heq. by apply string_app_inj_l in Heq.
  - intros b b' o. unfold bucket_key, object_key. by simpl_append.
Qed.

(** ** Witnesses *)

Definition sample_history : list (Z * op) :=
  [(1 * second, OpSet "a" "1" 0); (2 * second, OpSet "b" "2" 5); (6 * second, OpCleanup);
   (7 * second, OpSnapshotRestore); (8 * second, OpDelete "a")].

Lemma reads_refine_history_witness :
  GetAll (H := range_canonical) (9 * second)
    (foldl (run_op (H := range_canonical)) NewFSM sample_history) =
  view (9 * second) (foldl spec_op ∅ sample_history).
Proof.
  apply (@reads_refine_history range_canonical sample_history (9 * second) 0 "a").
  - repeat (apply SSorted_cons || apply SSorted_nil || apply Forall_cons_2 || apply Forall_nil_2);
      simpl; unfold second; lia.
  - repeat (apply Forall_cons_2 || apply Forall_nil_2); simpl; unfold second; lia.
  - unfold second. lia.
Defined.

Lemma replicas_agree_witness :
  agree_opt
    (apply_log (fun _ _ => 1) 0 [MarshalCommand {| cmd_Op := "set"; cmd_Key := "k";
       cmd_Value := "v"; cmd_ExpiresAt := 0 |}] NewFSM)
    (apply_log (fun _ _ => 9 * second) 0 [MarshalCommand {| cmd_Op := "set"; cmd_Key := "k";
       cmd_Value := "v"; cmd_ExpiresAt := 0 |}] NewFSM).
Proof.
  apply (replicas_agree (fun _ _ => 1) (fun _ _ => 9 * second)); [|reflexivity].
  repeat constructor; done.
Defined.

(** A time to live of 700 ms from 10.2 s, applied 1 ms later. *)
Lemma SetWithTTL_lost_witness :
  let s := {| fsm := NewFSM; is_leader := true |} in
  SetWithTTL (10200 * 1000000) "k" "v" (700 * 1000000)
    (Committed (fun _ => 10201 * 1000000)) s = Some (s, None).
Proof.
  apply (SetWithTTL_lost (10200 * 1000000) "k" "v" (700 * 1000000) (fun _ => 10201 * 1000000));
    [reflexivity|by vm_compute|by vm_compute].
Defined.
