(* ===== verification/ServicePersistence.v ===== *)
(** * The service registry on the Raft store (pkg/overlay/registry_persistent.go)

    [PersistentServiceRegistry] writes every change through to the Raft store
    and reads the store when it starts.  The JSON encoding of a stored service
    is the class [ServiceCodec]. *)

From S2P Require Import Prelude GoText IPPool ServiceRegistry RaftFSM.

Record ServicePersistentState := {
  ps_Service : option Service;
  ps_Endpoints : list Endpoint;
  ps_CreatedAt : Z;
  ps_UpdatedAt : Z;
  ps_DeletedAt : option Z
}.

#[export] Instance eta_ServicePersistentState : Eta ServicePersistentState := fun s =>
  Build_ServicePersistentState (ps_Service s) (ps_Endpoints s) (ps_CreatedAt s) (ps_UpdatedAt s)
    (ps_DeletedAt s).

#[export] Instance persistent_state_eq_dec : EqDecision ServicePersistentState.
Proof. solve_decision. Defined.

(** [json.Marshal] and [json.Unmarshal]; [None] is an error. *)
Class ServiceCodec : Type := {
  service_marshal : ServicePersistentState → option string;
  service_unmarshal : string → option ServicePersistentState
}.

Class ServiceCodecLaws `{ServiceCodec} : Prop := {
  service_roundtrip : ∀ s v, service_marshal s = Some v → service_unmarshal v = Some s
}.

Record PersistentServiceRegistry := {
  psr_mem : ServiceRegistry;
  psr_store : Store
}.

#[export] Instance eta_PersistentServiceRegistry : Eta PersistentServiceRegistry := fun p =>
  Build_PersistentServiceRegistry (psr_mem p) (psr_store p).

Definition getServiceKey (name namespace : string) : string :=
  "service:" +:+ getFullServiceName name namespace.

Section registry.
Context `{GoRange, ServiceCodec}.

(** A write with the texts of its errors; a single command never makes the
    state machine panic. *)
Definition write_state (key : string) (st : ServicePersistentState) (ans : raft_answer)
    (p : PersistentServiceRegistry) : PersistentServiceRegistry * option string :=
  match service_marshal st with
  | None => (p, Some "failed to marshal service"%string)
  | Some data =>
      match Store_Set key data ans (psr_store p) with
      | Some (s, None) => (p <| psr_store := s |>, None)
      | Some (s, Some e) => (p <| psr_store := s |>, Some ("failed to write to RAFT: " +:+ e))
      | None => (p, None)
      end
  end.

Definition persistService (now : Z) (ans : raft_answer) (p : PersistentServiceRegistry)
    (service : Service) : PersistentServiceRegistry * option string :=
  let endpoints := GetEndpoints (psr_mem p) (svc_Name service) (svc_Namespace service) in
  write_state (getServiceKey (svc_Name service) (svc_Namespace service))
    {| ps_Service := Some service; ps_Endpoints := endpoints; ps_CreatedAt := svc_CreatedAt service;
       ps_UpdatedAt := now; ps_DeletedAt := None |} ans p.

(** [read] and [now] are the clock of the read and of the new state. *)
Definition markServiceDeleted (read now : Z) (ans : raft_answer) (p : PersistentServiceRegistry)
    (name namespace : string) : PersistentServiceRegistry * option string :=
  let key := getServiceKey name namespace in
  match Store_Get read key (psr_store p) with
  | Err e => (p, Some ("failed to read from RAFT: " +:+ e))
  | Ok data =>
      match service_unmarshal data with
      | None => (p, Some "failed to unmarshal service"%string)
      | Some st =>
          write_state key (st <| ps_DeletedAt := Some now |> <| ps_UpdatedAt := now |>) ans p
      end
  end.

(** The readings of the clock and the answer of the consensus library. *)
Record PersistInputs := {
  pi_created : Z;
  pi_updated : Z;
  pi_read : Z;
  pi_saved : Z;
  pi_raft : raft_answer
}.

Definition PersistentRegisterService (i : PersistInputs) (p : PersistentServiceRegistry)
    (service : Service) : PersistentServiceRegistry * option string :=
  let '(mem, service, err) := RegisterService (pi_created i) (pi_updated i) (psr_mem p) service in
  let p := p <| psr_mem := mem |> in
  match err with
  | Some e => (p, Some e)
  | None => persistService (pi_saved i) (pi_raft i) p service
  end.

Definition PersistentDeregisterService (i : PersistInputs) (p : PersistentServiceRegistry)
    (name namespace : string) : PersistentServiceRegistry * option string :=
  let p := p <| psr_mem := DeregisterService (psr_mem p) name namespace |> in
  markServiceDeleted (pi_read i) (pi_saved i) (pi_raft i) p name namespace.

(** What follows a change of the endpoints in memory. *)
Definition persist_named (i : PersistInputs) (p : PersistentServiceRegistry)
    (name namespace : string) : PersistentServiceRegistry * option string :=
  match GetService (psr_mem p) name namespace with
  | Err e => (p, Some e)
  | Ok service => persistService (pi_saved i) (pi_raft i) p service
  end.

Definition PersistentRegisterEndpoint (i : PersistInputs) (p : PersistentServiceRegistry)
    (name namespace : string) (endpoint : Endpoint)
    : PersistentServiceRegistry * option string :=
  persist_named i (p <| psr_mem := RegisterEndpoint (pi_updated i) (psr_mem p) name namespace
                        endpoint |>) name namespace.

Definition PersistentDeregisterEndpoint (i : PersistInputs) (p : PersistentServiceRegistry)
    (name namespace endpointID : string) : PersistentServiceRegistry * option string :=
  persist_named i (p <| psr_mem := DeregisterEndpoint (psr_mem p) name namespace endpointID |>)
    name namespace.

Definition PersistentUpdateEndpointHealth (i : PersistInputs) (p : PersistentServiceRegistry)
    (name namespace endpointID health : string) : PersistentServiceRegistry * option string :=
  let '(mem, err) := UpdateEndpointHealth (psr_mem p) name namespace endpointID health in
  let p := p <| psr_mem := mem |> in
  match err with
  | Some e => (p, Some e)
  | None => persist_named i p name namespace
  end.

Definition PurgeService (ans : raft_answer) (p : PersistentServiceRegistry)
    (name namespace : string) : PersistentServiceRegistry * option string :=
  match Store_Delete (getServiceKey name namespace) ans (psr_store p) with
  | Some (s, None) => (p <| psr_store := s |>, None)
  | Some (s, Some e) => (p <| psr_store := s |>, Some ("failed to delete from RAFT: " +:+ e))
  | None => (p, None)
  end.

(** ** Loading *)

(** One key of [loadFromRAFT]; [None] is the panic on a state without a
    service. *)
Definition load_service (now : Z) (store : Store) (mem : ServiceRegistry) (key : string)
    : option ServiceRegistry :=
  match Store_Get now key store with
  | Err _ => Some mem
  | Ok data =>
      match service_unmarshal data with
      | None => Some mem
      | Some st =>
          match ps_DeletedAt st, ps_Service st with
          | Some _, _ => Some mem
          | None, None => None
          | None, Some service =>
              let '(mem, service, err) := RegisterService now now mem service in
              match err with
              | Some _ => Some mem
              | None =>
                  Some (foldl (fun mem e =>
                    RegisterEndpoint now mem (svc_Name service) (svc_Namespace service) e)
                    mem (ps_Endpoints st))
              end
          end
      end
  end.

Definition loadFromRAFT (now : Z) (store : Store) (mem : ServiceRegistry)
    : option ServiceRegistry :=
  foldl (fun m key => match m with Some m => load_service now store m key | None => None end)
    (Some mem) (ListKeys "service:" now store).

(** [NewPersistentServiceRegistry] with a store and a logger. *)
Definition NewPersistentServiceRegistry (ipv6 : string → option IPNet) (now : Z) (store : Store)
    (cidr : string) : option (result string PersistentServiceRegistry) :=
  match NewServiceRegistry ipv6 cidr with
  | Err e => Some (Err ("failed to create in-memory registry: " +:+ e))
  | Ok mem =>
      match loadFromRAFT now store mem with
      | None => None
      | Some mem => Some (Ok {| psr_mem := mem; psr_store := store |})
      end
  end.

End registry.
