(* ===== verification/ServiceRecovery.v ===== *)
(** * The service registry survives a restart

    Over any history of calls that were answered without an error, restarts
    included, a registry that is started from the Raft store has the services,
    addresses and endpoints of the one before. *)

From S2P Require Import Prelude GoText IPPool ServiceRegistry RaftFSM ServicePersistence.

Definition service_key (n : string) : string := "service:" +:+ n.

Lemma service_key_inj n m : service_key n = service_key m → n = m.
Proof. apply string_app_inj_l. Qed.

Definition full (s : Service) : string := getFullServiceName (svc_Name s) (svc_Namespace s).

(** A service apart from its two times. *)
Definition restamp (created updated : Z) (s : Service) : Service :=
  s <| svc_CreatedAt := created |> <| svc_UpdatedAt := updated |>.
Definition untimed (s : Service) : Service := restamp 0 0 s.

Section recovery.
Context `{GoRange, ServiceCodec, !ServiceCodecLaws}.

(** ** Memory and store agree *)

(** What is stored for the name [n]. *)
Definition stored (p : PersistentServiceRegistry) (n : string) (s : Service) : Prop :=
  ∃ v st s0, abs (fsm (psr_store p)) !! service_key n = Some (v, 0) ∧
    service_unmarshal v = Some st ∧ ps_DeletedAt st = None ∧
    ps_Service st = Some s0 ∧ untimed s0 = untimed s ∧
    ps_Endpoints st = default [] (sr_endpoints (psr_mem p) !! n).

Definition endpoints_ok (mem : ServiceRegistry) : Prop :=
  ∀ n l, sr_endpoints mem !! n = Some l →
    is_Some (sr_services mem !! n) ∧ NoDup (ep_ID <$> l) ∧ l ≠ [].

Definition services_ok (mem : ServiceRegistry) : Prop :=
  (∀ n s, sr_services mem !! n = Some s → n = full s ∧ svc_VirtualIP s ≠ EmptyString) ∧
  (∀ n, sr_virtualIPs mem !! n = svc_VirtualIP <$> sr_services mem !! n).

(** Every key of a live service is the key of a service in memory, or of [n]. *)
Definition live_keys (p : PersistentServiceRegistry) (P : string → Prop) : Prop :=
  ∀ k v e st, HasPrefix k "service:" = true → abs (fsm (psr_store p)) !! k = Some (v, e) →
    service_unmarshal v = Some st → ps_DeletedAt st = None → ∃ n, k = service_key n ∧ P n.

Record synced (p : PersistentServiceRegistry) : Prop := {
  sy_services : services_ok (psr_mem p);
  sy_endpoints : endpoints_ok (psr_mem p);
  sy_stored : ∀ n s, sr_services (psr_mem p) !! n = Some s → stored p n s;
  sy_live : live_keys p (fun n => is_Some (sr_services (psr_mem p) !! n))
}.

(** In agreement except for the name [n]. *)
Record synced_but (n : string) (p : PersistentServiceRegistry) : Prop := {
  sb_services : services_ok (psr_mem p);
  sb_endpoints : endpoints_ok (psr_mem p);
  sb_stored : ∀ m s, m ≠ n → sr_services (psr_mem p) !! m = Some s → stored p m s;
  sb_live : live_keys p (fun m => m = n ∨ is_Some (sr_services (psr_mem p) !! m))
}.

Lemma write_state_ok key st ans p p' :
  write_state key st ans p = (p', None) →
  ∃ v, service_marshal st = Some v ∧ psr_mem p' = psr_mem p ∧
    abs (fsm (psr_store p')) = <[key := (v, 0)]> (abs (fsm (psr_store p))).
Proof.
  unfold write_state. destruct (service_marshal st) as [v|]; [|done].
  destruct (Store_Set_cases key v ans (psr_store p)) as [(s & -> & Hs)|(e & ->)]; [|done].
  intros [= <-]. eauto.
Qed.

(** Changing memory at one name. *)
Lemma change_memory n p mem' :
  synced p → services_ok mem' → endpoints_ok mem' →
  (∀ m, m ≠ n → sr_services mem' !! m = sr_services (psr_mem p) !! m ∧
                sr_endpoints mem' !! m = sr_endpoints (psr_mem p) !! m) →
  synced_but n (p <| psr_mem := mem' |>).
Proof.
  intros [_ _ Hst Hlive] Hs He Hsame. split; [done..| |]; simpl.
  - intros m s Hm. destruct (Hsame m Hm) as [-> Heq]. intros Hms.
    destruct (Hst m s Hms) as (v & st & s0 & Hrest). exists v, st, s0. simpl. by rewrite Heq.
  - intros k v e st Hk Hv Hu Hd. destruct (Hlive k v e st Hk Hv Hu Hd) as (m & -> & Hm).
    exists m. split; [done|]. destruct (decide (m = n)) as [|Hne]; [by left|right].
    by rewrite (proj1 (Hsame m Hne)).
Qed.

(** Writing the state of [n] restores agreement. *)
Lemma write_synced n st ans p p' :
  synced_but n p → write_state (service_key n) st ans p = (p', None) →
  (∀ s, sr_services (psr_mem p) !! n = Some s → ps_DeletedAt st = None ∧
     ∃ s0, ps_Service st = Some s0 ∧ untimed s0 = untimed s ∧
       ps_Endpoints st = default [] (sr_endpoints (psr_mem p) !! n)) →
  (sr_services (psr_mem p) !! n = None → is_Some (ps_DeletedAt st)) →
  synced p'.
Proof.
  intros [Hs He Hst Hlive] (v & Hv & Hmem & Habs)%write_state_ok Hin Hout.
  apply service_roundtrip in Hv. split; rewrite ?Hmem; [done..| |].
  - intros m s Hm. unfold stored. rewrite Hmem, Habs. destruct (decide (m = n)) as [->|Hne].
    + rewrite lookup_insert_eq. destruct (Hin s Hm) as (Hd & s0 & Hs0 & Heq & Hep).
      by exists v, st, s0.
    + rewrite lookup_insert_ne by (by intros ?%service_key_inj). by apply Hst.
  - intros k v' e st'. rewrite Habs, lookup_insert. case_decide as Hk.
    + intros _ [= <- <-] Hu Hd. exists n. split; [done|]. rewrite Hv in Hu. simplify_eq.
      destruct (sr_services (psr_mem p) !! n); [done|]. destruct Hout as [? ?]; [done|]. congruence.
    + intros Hpre Hvk Hu Hd. destruct (Hlive k v' e st' Hpre Hvk Hu Hd) as (m & -> & [->|Hm]); [done|].
      eauto.
Qed.

Lemma persist_synced n s now ans p p' :
  synced_but n p → sr_services (psr_mem p) !! n = Some s →
  persistService now ans p s = (p', None) → synced p'.
Proof.
  intros Hb Hs Hp. destruct (proj1 (sb_services _ _ Hb) n s Hs) as [Hn Hvip].
  eapply (write_synced n); [done|unfold persistService in Hp; fold (full s) in Hp; rewrite Hn;
    exact Hp| |].
  - intros s' Hs'. simplify_eq/=. split; [done|]. exists s. split_and!; [done..|].
    unfold GetEndpoints. fold (full s). done.
  - intros Hnone. congruence.
Qed.

(** ** Changes of memory *)

Lemma Allocate_nonempty pool pool' ip : Allocate pool = (pool', Ok ip) → ip ≠ EmptyString.
Proof.
  assert (∀ fuel u i off ip, find_free fuel pool u i = Some (off, ip) → ip ≠ EmptyString) as Hff.
  { induction fuel as [|fuel IH]; intros u i off ip'; simpl; [done|].
    case_bool_decide; [by apply IH|]. intros [= _ <-]. unfold uint32ToIP.
    destruct (show_Z _); simpl_append; congruence. }
  unfold Allocate. case_match; [|done]. destruct (find_free _ pool _ 0) as [[off ip']|] eqn:Hf; [|done].
  intros [= _ <-]. by eapply Hff.
Qed.

Lemma register_memory c u mem s mem' s' :
  RegisterService c u mem s = (mem', s', None) →
  svc_VirtualIP s' ≠ EmptyString ∧ full s' = full s ∧
  sr_services mem' = <[full s := s']> (sr_services mem) ∧
  sr_virtualIPs mem' = <[full s := svc_VirtualIP s']> (sr_virtualIPs mem) ∧
  sr_endpoints mem' = sr_endpoints mem.
Proof.
  unfold RegisterService. destruct (svc_VirtualIP s =?s "") eqn:Hv.
  - destruct (Allocate (sr_ipPool mem)) as [pool [ip|e]] eqn:Ha; [|done].
    intros [= <- <-]. split; [by eapply Allocate_nonempty|done].
  - bool_to_prop. intros [= <- <-]. done.
Qed.

Lemma services_ok_insert mem mem' s :
  services_ok mem → svc_VirtualIP s ≠ EmptyString →
  sr_services mem' = <[full s := s]> (sr_services mem) →
  sr_virtualIPs mem' = <[full s := svc_VirtualIP s]> (sr_virtualIPs mem) → services_ok mem'.
Proof.
  intros [Hs Hv] Hne Hs' Hv'. split.
  - intros n t. rewrite Hs', lookup_insert. case_decide; [|apply Hs]. by intros [= <-].
  - intros n. rewrite Hs', Hv', !lookup_insert. by case_decide.
Qed.

(** Touching a service. *)
Lemma touch_lookup now f mem n :
  sr_services (touch_service now f mem) !! n =
  if decide (f = n) then (fun s => s <| svc_UpdatedAt := now |>) <$> sr_services mem !! n
  else sr_services mem !! n.
Proof.
  unfold touch_service. destruct (sr_services mem !! f) as [s|] eqn:Hs; simpl.
  - rewrite lookup_insert. case_decide; [subst; by rewrite Hs|done].
  - case_decide; [subst; by rewrite Hs|done].
Qed.

Lemma touch_services_ok now f mem : services_ok mem → services_ok (touch_service now f mem).
Proof.
  intros [Hs Hv]. split.
  - intros n s. rewrite touch_lookup. case_decide; [|apply Hs].
    intros (t & Ht & ->)%fmap_Some. by apply Hs in Ht.
  - intros n. destruct (touch_service_rest now f mem) as (_ & -> & _).
    by rewrite touch_service_vip.
Qed.

Lemma put_endpoint_ids e l :
  NoDup (ep_ID <$> l) → NoDup (ep_ID <$> put_endpoint e l) ∧ put_endpoint e l ≠ [].
Proof.
  intros Hl. unfold put_endpoint. destruct (list_find _ l) as [[i e']|] eqn:Hf.
  - apply list_find_Some in Hf as (Hi & Hid & _). split.
    + rewrite list_fmap_insert, list_insert_id; [done|]. rewrite list_lookup_fmap, Hi. simpl. by rewrite Hid.
    + apply lookup_lt_Some in Hi. intros Heq. apply (f_equal length) in Heq.
      rewrite length_insert in Heq. simpl in Heq. lia.
  - split; [|by destruct l]. apply list_find_None in Hf. rewrite fmap_app.
    apply NoDup_app. split_and!; [done| |apply NoDup_singleton].
    intros id (e' & -> & He')%list_elem_of_fmap Hid%list_elem_of_singleton.
    rewrite Forall_forall in Hf. by apply (Hf e').
Qed.

(** The endpoints of one known service. *)
Lemma endpoints_ok_at mem mem' n :
  endpoints_ok mem →
  (∀ m, is_Some (sr_services mem !! m) → is_Some (sr_services mem' !! m)) →
  (∀ m, m ≠ n → sr_endpoints mem' !! m = sr_endpoints mem !! m) →
  (∀ l, sr_endpoints mem' !! n = Some l →
     is_Some (sr_services mem' !! n) ∧ NoDup (ep_ID <$> l) ∧ l ≠ []) →
  endpoints_ok mem'.
Proof.
  intros He Hs Hsame Hn m l Hm. destruct (decide (m = n)) as [->|Hne]; [by apply Hn|].
  rewrite Hsame in Hm by done. destruct (He m l Hm) as (? & ? & ?). eauto.
Qed.

Lemma filter_ids (f : Endpoint → bool) l :
  NoDup (ep_ID <$> l) → NoDup (ep_ID <$> List.filter f l).
Proof.
  intros Hl. eapply sublist_NoDup; [done|]. apply fmap_sublist.
  clear Hl. induction l as [|e l IH]; simpl; [constructor|]. case_match; by constructor.
Qed.

(** ** Successful calls *)

Inductive saved (p : PersistentServiceRegistry) : PersistentServiceRegistry → Prop :=
| sv_register i s p' : PersistentRegisterService i p s = (p', None) → saved p p'
| sv_deregister i name ns p' : PersistentDeregisterService i p name ns = (p', None) → saved p p'
| sv_endpoint i name ns e p' : PersistentRegisterEndpoint i p name ns e = (p', None) → saved p p'
| sv_drop i name ns id p' : PersistentDeregisterEndpoint i p name ns id = (p', None) → saved p p'
| sv_health i name ns id h p' :
    PersistentUpdateEndpointHealth i p name ns id h = (p', None) → saved p p'
| sv_other s : (∀ k, HasPrefix k "service:" = true →
      abs (fsm s) !! k = abs (fsm (psr_store p)) !! k) → saved p (p <| psr_store := s |>).

Lemma register_synced i p s p' :
  synced p → PersistentRegisterService i p s = (p', None) → synced p'.
Proof.
  intros Hp. unfold PersistentRegisterService.
  destruct (RegisterService _ _ (psr_mem p) s) as [[mem s'] [e|]] eqn:Hr; [done|].
  apply register_memory in Hr as (Hne & Hfull & Hs & Hv & He).
  apply (persist_synced (full s)); simpl; [|by rewrite Hs, lookup_insert_eq].
  apply change_memory; [done|..].
  - rewrite <-Hfull in Hs, Hv. eapply services_ok_insert; [apply Hp|done..].
  - eapply (endpoints_ok_at _ _ (full s)); [apply Hp|rewrite Hs|by rewrite He|].
    + intros m Hm. rewrite lookup_insert. case_decide; eauto.
    + intros l. rewrite He, Hs, lookup_insert_eq. intros Hl.
      split; [eauto|]. by apply (sy_endpoints _ Hp) in Hl as [_ Hl].
  - intros m Hm. by rewrite Hs, He, lookup_insert_ne.
Qed.

Lemma persist_named_synced i p mem' name ns p' :
  synced p → services_ok mem' →
  (is_Some (sr_services mem' !! getFullServiceName name ns) → endpoints_ok mem') →
  (∀ m, m ≠ getFullServiceName name ns →
     sr_services mem' !! m = sr_services (psr_mem p) !! m ∧
     sr_endpoints mem' !! m = sr_endpoints (psr_mem p) !! m) →
  persist_named i (p <| psr_mem := mem' |>) name ns = (p', None) → synced p'.
Proof.
  intros Hp Hs He Hsame. unfold persist_named, GetService. simpl.
  destruct (sr_services mem' !! getFullServiceName name ns) as [s|] eqn:Hn; [|done].
  apply (persist_synced (getFullServiceName name ns)); [|done].
  apply change_memory; eauto.
Qed.

(** The three ways to change endpoints, at the name [n]. *)
Lemma endpoint_memory now mem name ns e :
  let n := getFullServiceName name ns in
  let mem' := RegisterEndpoint now mem name ns e in
  services_ok mem → endpoints_ok mem →
  services_ok mem' ∧ (is_Some (sr_services mem' !! n) → endpoints_ok mem') ∧
  (∀ m, m ≠ n → sr_services mem' !! m = sr_services mem !! m ∧
                sr_endpoints mem' !! m = sr_endpoints mem !! m).
Proof.
  intros n mem' Hs He. unfold mem', RegisterEndpoint. fold n.
  set (mem1 := mem <| sr_endpoints := _ |>).
  destruct (touch_service_rest now n mem1) as (_ & _ & Hep). split_and!.
  - by apply touch_services_ok.
  - intros Hn. eapply (endpoints_ok_at mem _ n); [done|..]; rewrite ?Hep; simpl.
    + intros m Hm. rewrite touch_lookup. case_decide; [|done]. by apply fmap_is_Some.
    + intros m Hm. by rewrite lookup_insert_ne.
    + rewrite lookup_insert_eq. intros l [= <-]. split; [done|]. apply put_endpoint_ids.
      destruct (sr_endpoints mem !! n) as [l|] eqn:Hl; [by apply He in Hl as (_ & ? & _)|constructor].
  - intros m Hm. rewrite touch_lookup, decide_False, Hep by done. simpl.
    by rewrite lookup_insert_ne.
Qed.

(** A change of the stored list only. *)
Lemma list_memory mem mem' n :
  sr_services mem' = sr_services mem → sr_virtualIPs mem' = sr_virtualIPs mem →
  (∀ m, m ≠ n → sr_endpoints mem' !! m = sr_endpoints mem !! m) →
  (∀ l, sr_endpoints mem' !! n = Some l → NoDup (ep_ID <$> l) ∧ l ≠ []) →
  services_ok mem → endpoints_ok mem →
  services_ok mem' ∧ (is_Some (sr_services mem' !! n) → endpoints_ok mem') ∧
  (∀ m, m ≠ n → sr_services mem' !! m = sr_services mem !! m ∧
                sr_endpoints mem' !! m = sr_endpoints mem !! m).
Proof.
  intros Hs Hv Hsame Hn Hok He. unfold services_ok in *. rewrite Hs, Hv. split_and!; [apply Hok..| |].
  - intros Hin. eapply (endpoints_ok_at mem mem' n); rewrite ?Hs; eauto.
  - intros m Hm. auto.
Qed.

Lemma drop_memory mem name ns id :
  let n := getFullServiceName name ns in
  let mem' := DeregisterEndpoint mem name ns id in
  services_ok mem → endpoints_ok mem →
  services_ok mem' ∧ (is_Some (sr_services mem' !! n) → endpoints_ok mem') ∧
  (∀ m, m ≠ n → sr_services mem' !! m = sr_services mem !! m ∧
                sr_endpoints mem' !! m = sr_endpoints mem !! m).
Proof.
  intros n mem' Hs He. unfold mem', DeregisterEndpoint. fold n.
  destruct (sr_endpoints mem !! n) as [l|] eqn:Hl; [|done].
  destruct (He n l Hl) as (_ & Hnd & _).
  set (l' := List.filter _ l). destruct (0 <? len l') eqn:Hlen; bool_to_prop;
    apply list_memory; try done; simpl.
  - intros m Hm. by rewrite lookup_insert_ne.
  - rewrite lookup_insert_eq. intros k [= <-]. split; [by apply filter_ids|].
    unfold len in Hlen. intros Heq. rewrite Heq in Hlen. simpl in Hlen. lia.
  - intros m Hm. by rewrite lookup_delete_ne.
  - by rewrite lookup_delete_eq.
Qed.

Lemma health_memory mem name ns id h mem' :
  let n := getFullServiceName name ns in
  UpdateEndpointHealth mem name ns id h = (mem', None) →
  services_ok mem → endpoints_ok mem →
  services_ok mem' ∧ (is_Some (sr_services mem' !! n) → endpoints_ok mem') ∧
  (∀ m, m ≠ n → sr_services mem' !! m = sr_services mem !! m ∧
                sr_endpoints mem' !! m = sr_endpoints mem !! m).
Proof.
  intros n. unfold UpdateEndpointHealth. fold n.
  destruct (sr_endpoints mem !! n) as [l|] eqn:Hl; [|done].
  destruct (list_find _ l) as [[i e]|] eqn:Hf; [|done]. intros [= <-] Hs He.
  destruct (He n l Hl) as (_ & Hnd & Hne). apply list_find_Some in Hf as (Hi & _).
  apply list_memory; try done; simpl.
  - intros m Hm. by rewrite lookup_insert_ne.
  - rewrite lookup_insert_eq. intros k [= <-]. split.
    + rewrite list_fmap_insert, list_insert_id; [done|]. by rewrite list_lookup_fmap, Hi.
    + intros Heq. apply (f_equal length) in Heq. rewrite length_insert in Heq. by destruct l.
Qed.

Lemma delete_memory mem name ns :
  let n := getFullServiceName name ns in
  let mem' := DeregisterService mem name ns in
  services_ok mem → endpoints_ok mem →
  services_ok mem' ∧ endpoints_ok mem' ∧ sr_services mem' !! n = None ∧
  (∀ m, m ≠ n → sr_services mem' !! m = sr_services mem !! m ∧
                sr_endpoints mem' !! m = sr_endpoints mem !! m).
Proof.
  intros n mem' [Hs Hv] He. assert (sr_services mem' = delete n (sr_services mem) ∧
    sr_endpoints mem' = delete n (sr_endpoints mem) ∧
    ∀ m, sr_virtualIPs mem' !! m = delete n (sr_virtualIPs mem) !! m) as (Hs' & He' & Hv').
  { unfold mem', DeregisterService. fold n. destruct (sr_virtualIPs mem !! n) as [vip|] eqn:Hvip; simpl.
    - done.
    - split_and!; [done..|]. intros m. rewrite lookup_delete. case_decide; [by subst|done]. }
  split_and!.
  - split; intros m.
    + intros s. rewrite Hs'. intros [_ ?]%lookup_delete_Some. by apply Hs.
    + rewrite Hs', Hv', !lookup_delete. by case_decide.
  - intros m l. rewrite He', Hs'. intros [Hm Hl]%lookup_delete_Some.
    rewrite lookup_delete_ne by done. by apply He.
  - by rewrite Hs', lookup_delete_eq.
  - intros m Hm. by rewrite Hs', He', !lookup_delete_ne.
Qed.

Lemma saved_synced p p' : synced p → saved p p' → synced p'.
Proof.
  intros Hp. pose proof (sy_services _ Hp) as Hs. pose proof (sy_endpoints _ Hp) as He.
  destruct 1 as [i s p' Hc|i name ns p' Hc|i name ns e p' Hc|i name ns id p' Hc|i name ns id h p' Hc
    |s Hs'].
  - by eapply register_synced.
  - unfold PersistentDeregisterService, markServiceDeleted in Hc. simpl in Hc.
    destruct (delete_memory (psr_mem p) name ns Hs He) as (Hs' & He' & Hn & Hsame).
    case_match; [|done]. destruct (service_unmarshal _) as [st|]; [|done].
    eapply (write_synced (getFullServiceName name ns)); [by eapply change_memory|exact Hc|..].
    + intros s Hsome. assert (Some s = None) by (etrans; [symmetry; exact Hsome|exact Hn]). done.
    + intros _. by eexists.
  - destruct (endpoint_memory (pi_updated i) (psr_mem p) name ns e Hs He) as (? & ? & ?).
    by eapply (persist_named_synced i p).
  - destruct (drop_memory (psr_mem p) name ns id Hs He) as (? & ? & ?).
    by eapply (persist_named_synced i p).
  - unfold PersistentUpdateEndpointHealth in Hc.
    destruct (UpdateEndpointHealth _ _ _ _ _) as [mem' [e|]] eqn:Hu; [done|].
    destruct (health_memory _ _ _ _ _ _ Hu Hs He) as (? & ? & ?).
    by eapply (persist_named_synced i p).
  - destruct Hp as [_ _ Hst Hlive]. split; [done..| |]; simpl.
    + intros n s' Hn. destruct (Hst n s' Hn) as (v & st & s0 & Hv & Hrest). exists v, st, s0. simpl.
      rewrite Hs' by apply HasPrefix_app. done.
    + intros k v e st Hk. simpl. rewrite Hs' by done. by apply Hlive.
Qed.

(** ** Loading *)

Lemma put_fresh e l : (ep_ID e ∉ ep_ID <$> l) → put_endpoint e l = l ++ [e].
Proof.
  intros Hnin. unfold put_endpoint. rewrite (proj2 (list_find_None _ l)); [done|].
  apply Forall_forall. intros e' He' Heq. apply Hnin. rewrite <-Heq. by apply list_elem_of_fmap_2.
Qed.

(** Registering the stored endpoints of a service that was just registered. *)
Lemma endpoints_loop now name ns eps mem s :
  let n := getFullServiceName name ns in
  sr_services mem !! n = Some s → svc_UpdatedAt s = now →
  NoDup (ep_ID <$> default [] (sr_endpoints mem !! n) ++ eps) →
  let mem' := foldl (fun mem e => RegisterEndpoint now mem name ns e) mem eps in
  sr_services mem' = sr_services mem ∧ sr_virtualIPs mem' = sr_virtualIPs mem ∧
  sr_endpoints mem' = match eps with
                      | [] => sr_endpoints mem
                      | _ => <[n := default [] (sr_endpoints mem !! n) ++ eps]> (sr_endpoints mem)
                      end.
Proof.
  intros n Hs Hup. revert mem Hs. induction eps as [|e eps IH]; intros mem Hs Hnd; [done|].
  cbn [foldl]. set (mem1 := RegisterEndpoint now mem name ns e).
  assert (sr_services mem1 = sr_services mem ∧ sr_virtualIPs mem1 = sr_virtualIPs mem ∧
    sr_endpoints mem1 = <[n := default [] (sr_endpoints mem !! n) ++ [e]]> (sr_endpoints mem))
    as (Hs1 & Hv1 & He1).
  { unfold mem1, RegisterEndpoint. fold n. rewrite put_fresh.
    - set (mem0 := mem <| sr_endpoints := _ |>). destruct (touch_service_rest now n mem0) as (_ & Hv & He).
      split_and!; [|done..]. apply map_eq. intros m. rewrite touch_lookup. simpl.
      case_decide; [|done]. subst m. rewrite Hs. simpl. f_equal. rewrite <-Hup. by destruct s.
    - intros Hin. rewrite fmap_app, NoDup_app in Hnd. destruct Hnd as (_ & Hnd & _).
      apply (Hnd (ep_ID e)); [done|]. simpl. by left. }
  destruct (IH mem1) as (Hs2 & Hv2 & He2); [by rewrite Hs1|..].
  { rewrite He1, lookup_insert_eq. simpl. by rewrite <-app_assoc. }
  rewrite Hs2, Hv2, He2, Hs1, Hv1, He1. split_and!; [done..|].
  destruct eps; [done|]. rewrite lookup_insert_eq, insert_insert_eq. simpl. by rewrite <-app_assoc.
Qed.

Lemma register_preset c u mem s :
  svc_VirtualIP s ≠ EmptyString →
  RegisterService c u mem s =
  (mem <| sr_services := <[full s := restamp c u s]> (sr_services mem) |>
       <| sr_virtualIPs := <[full s := svc_VirtualIP (restamp c u s)]> (sr_virtualIPs mem) |>,
   restamp c u s, None).
Proof. intros Hne. unfold RegisterService. by rewrite bool_decide_eq_false_2. Qed.

Lemma untimed_vip s t : untimed s = untimed t → svc_VirtualIP s = svc_VirtualIP t ∧ full s = full t.
Proof. destruct s, t. intros [=]. by subst. Qed.

Section load.
Context (now : Z) (p : PersistentServiceRegistry) (Hp : synced p).

Lemma load_dead mem k :
  HasPrefix k "service:" = true → (∀ n, k = service_key n → sr_services (psr_mem p) !! n = None) →
  load_service now (psr_store p) mem k = Some mem.
Proof.
  intros Hk Hdead. unfold load_service, Store_Get. rewrite Get_abs.
  destruct (abs _ !! k) as [[v e]|] eqn:Hv; [|done]. destruct (expired e now); [done|].
  destruct (service_unmarshal v) as [st|] eqn:Hu; [|done].
  destruct (ps_DeletedAt st) eqn:Hd; [done|].
  destruct (sy_live _ Hp k v e st Hk Hv Hu Hd) as (n & -> & [s Hs]). by rewrite Hdead in Hs.
Qed.

Lemma load_live mem n s :
  sr_services (psr_mem p) !! n = Some s → sr_endpoints mem !! n = None →
  ∃ mem' s', load_service now (psr_store p) mem (service_key n) = Some mem' ∧
    untimed s' = untimed s ∧ sr_services mem' = <[n := s']> (sr_services mem) ∧
    sr_virtualIPs mem' = <[n := svc_VirtualIP s']> (sr_virtualIPs mem) ∧
    ∀ m, sr_endpoints mem' !! m =
      if decide (m = n) then sr_endpoints (psr_mem p) !! n else sr_endpoints mem !! m.
Proof.
  intros Hs Hnone. destruct (sy_stored _ Hp n s Hs) as (v & st & s0 & Hv & Hu & Hd & Hs0 & Heq & Hep).
  destruct (untimed_vip _ _ Heq) as [Hvip Hfull].
  destruct (proj1 (sy_services _ Hp) n s Hs) as [Hn Hne].
  unfold load_service, Store_Get. rewrite Get_abs, Hv, expired_zero, Hu, Hd, Hs0.
  rewrite (register_preset now now mem s0), Hfull, <-Hn by congruence.
  set (s1 := restamp now now s0).
  set (mem1 := mem <| sr_services := <[n := s1]> (sr_services mem) |>
    <| sr_virtualIPs := <[n := svc_VirtualIP s1]> (sr_virtualIPs mem) |>).
  assert (getFullServiceName (svc_Name s1) (svc_Namespace s1) = n) as Hn1.
  { change (full s0 = n). congruence. }
  destruct (endpoints_loop now (svc_Name s1) (svc_Namespace s1) (ps_Endpoints st) mem1 s1)
    as (Hs2 & Hv2 & He2); rewrite ?Hn1; simpl; [by rewrite lookup_insert_eq|done| |].
  { rewrite Hnone. simpl. rewrite Hep.
    destruct (sr_endpoints (psr_mem p) !! n) as [l|] eqn:Hl; [|constructor].
    by apply (sy_endpoints _ Hp) in Hl as (_ & ? & _). }
  exists (foldl (fun mem e => RegisterEndpoint now mem (svc_Name s1) (svc_Namespace s1) e) mem1
    (ps_Endpoints st)), s1. split; [done|]. split; [by rewrite <-Heq|]. split; [exact Hs2|].
  split; [exact Hv2|]. intros m. rewrite He2, Hn1. simpl. rewrite Hnone, Hep. simpl.
  destruct (sr_endpoints (psr_mem p) !! n) as [l|] eqn:Hl; simpl.
  - apply (sy_endpoints _ Hp) in Hl as (_ & _ & Hne'). destruct l; [done|].
    rewrite lookup_insert. by do 2 case_decide.
  - case_decide; [by subst|done].
Qed.

(** Memory after the keys [l] have been read. *)
Definition loaded (l : list string) (mem : ServiceRegistry) : Prop :=
  (∀ n, untimed <$> sr_services mem !! n =
     if decide (service_key n ∈ l) then untimed <$> sr_services (psr_mem p) !! n else None) ∧
  (∀ n, sr_endpoints mem !! n =
     if decide (service_key n ∈ l) then sr_endpoints (psr_mem p) !! n else None) ∧
  (∀ n, sr_virtualIPs mem !! n = svc_VirtualIP <$> sr_services mem !! n).

Lemma load_step l mem k :
  loaded l mem → k ∉ l → HasPrefix k "service:" = true →
  ∃ mem', load_service now (psr_store p) mem k = Some mem' ∧ loaded (l ++ [k]) mem'.
Proof using Hp.
  intros (Hs & He & Hv) Hk Hpre.
  assert (∃ n, k = service_key n) as [n ->].
  { apply bool_decide_eq_true_1 in Hpre as [n Hn]. exists n. by apply strip_prefix_spec. }
  assert (∀ m, m ≠ n → service_key m ∈ l ++ [service_key n] ↔ service_key m ∈ l) as Hne.
  { intros m Hm. rewrite elem_of_app, list_elem_of_singleton. split; [|auto].
    intros [?|?%service_key_inj]; done. }
  assert (service_key n ∈ l ++ [service_key n]) as Hin by (apply elem_of_app; right; by left).
  destruct (sr_services (psr_mem p) !! n) as [s|] eqn:Hn.
  - destruct (load_live mem n s Hn) as (mem' & s' & Hl & Hs' & Hss & Hvs & Hes).
    { by rewrite He, decide_False. }
    exists mem'. split; [done|]. split_and!; intros m.
    + rewrite Hss, lookup_insert. case_decide as Hm.
      * subst m. rewrite decide_True, Hn by done. simpl. congruence.
      * rewrite Hs. apply decide_ext. symmetry. by apply Hne.
    + rewrite Hes. case_decide as Hm.
      * subst m. by rewrite decide_True.
      * rewrite He. apply decide_ext. symmetry. by apply Hne.
    + rewrite Hss, Hvs, !lookup_insert. by case_decide.
  - exists mem. split; [apply load_dead; [done|]; by intros m <-%service_key_inj|].
    assert (sr_endpoints (psr_mem p) !! n = None) as Hen.
    { destruct (sr_endpoints (psr_mem p) !! n) as [l'|] eqn:Hl'; [|done].
      apply (sy_endpoints _ Hp) in Hl' as ([? ?] & _). congruence. }
    split_and!; intros m; [..|done].
    + rewrite Hs. destruct (decide (m = n)) as [->|Hm].
      * by rewrite decide_False, decide_True, Hn.
      * apply decide_ext. symmetry. by apply Hne.
    + rewrite He. destruct (decide (m = n)) as [->|Hm].
      * by rewrite decide_False, decide_True, Hen.
      * apply decide_ext. symmetry. by apply Hne.
Qed.

Lemma load_keys l ks mem :
  loaded l mem → NoDup (l ++ ks) → Forall (fun k => HasPrefix k "service:" = true) ks →
  ∃ mem', foldl (fun m key => match m with Some m => load_service now (psr_store p) m key
            | None => None end) (Some mem) ks = Some mem' ∧ loaded (l ++ ks) mem'.
Proof using Hp.
  intros Hl Hnd Hks. revert l mem Hl Hnd. induction Hks as [|k ks Hk _ IH]; intros l mem Hl Hnd; simpl.
  - exists mem. by rewrite app_nil_r.
  - destruct (load_step l mem k) as (mem' & -> & Hl'); [done| |done|].
    { intros Hin. apply NoDup_app in Hnd as (_ & Hnd & _). apply (Hnd k); [done|by left]. }
    change (k :: ks) with ([k] ++ ks). change (k :: ks) with ([k] ++ ks) in Hnd.
    rewrite app_assoc in Hnd |- *. by apply IH.
Qed.

(** Every live service has a key that is listed. *)
Lemma listed_live n s :
  sr_services (psr_mem p) !! n = Some s → service_key n ∈ ListKeys "service:" now (psr_store p).
Proof using Hp.
  intros Hs. destruct (sy_stored _ Hp n s Hs) as (v & st & s0 & Hv & _).
  unfold ListKeys. apply list_elem_of_In, filter_In. split; [|apply HasPrefix_app].
  apply list_elem_of_In, list_elem_of_fmap. exists (service_key n, v). split; [done|].
  apply elem_of_range_map. rewrite GetAll_view, view_lookup. unfold kv_get. by rewrite Hv.
Qed.

Lemma load_all mem :
  sr_services mem = ∅ → sr_endpoints mem = ∅ → sr_virtualIPs mem = ∅ →
  ∃ mem', loadFromRAFT now (psr_store p) mem = Some mem' ∧
    (∀ n, untimed <$> sr_services mem' !! n = untimed <$> sr_services (psr_mem p) !! n) ∧
    sr_endpoints mem' = sr_endpoints (psr_mem p) ∧
    (∀ n, sr_virtualIPs mem' !! n = svc_VirtualIP <$> sr_services mem' !! n).
Proof using Hp.
  intros Hs He Hv. destruct (load_keys [] (ListKeys "service:" now (psr_store p)) mem)
    as (mem' & Hload & Hs' & He' & Hv').
  - unfold loaded. rewrite Hs, He, Hv. split_and!; intros n; rewrite !lookup_empty; [..|done];
      by rewrite decide_False by apply not_elem_of_nil.
  - simpl. apply NoDup_filter'. apply range_map_keys.
  - apply Forall_forall. intros k Hk. apply list_elem_of_In, filter_In in Hk as [_ Hk]. done.
  - exists mem'. split; [done|]. simpl in Hs', He'.
    assert (∀ n, (service_key n ∉ ListKeys "service:" now (psr_store p)) →
      sr_services (psr_mem p) !! n = None) as Hdead.
    { intros n Hn. destruct (sr_services (psr_mem p) !! n) as [s|] eqn:Hsn; [|done].
      by apply listed_live in Hsn. }
    split_and!; [|apply map_eq|done]; intros n.
    + rewrite Hs'. case_decide as Hin; [done|]. by rewrite Hdead.
    + rewrite He'. case_decide as Hin; [done|].
      destruct (sr_endpoints (psr_mem p) !! n) as [l|] eqn:Hl; [|done].
      apply (sy_endpoints _ Hp) in Hl as ([s Hsn] & _). by rewrite Hdead in Hsn.
Qed.

End load.
(** ** Restarts *)

Lemma new_memory ipv6 cidr mem :
  NewServiceRegistry ipv6 cidr = Ok mem →
  sr_services mem = ∅ ∧ sr_endpoints mem = ∅ ∧ sr_virtualIPs mem = ∅.
Proof. unfold NewServiceRegistry. case_match; [|done]. by intros [= <-]. Qed.

Inductive persisted : PersistentServiceRegistry → Prop :=
| pe_fresh ipv6 now store cidr p :
    (∀ k, HasPrefix k "service:" = true → abs (fsm store) !! k = None) →
    NewPersistentServiceRegistry ipv6 now store cidr = Some (Ok p) → persisted p
| pe_saved p p' : persisted p → saved p p' → persisted p'
| pe_restart ipv6 now cidr p p' : persisted p →
    NewPersistentServiceRegistry ipv6 now (psr_store p) cidr = Some (Ok p') → persisted p'.

Lemma restart_synced ipv6 now cidr p p' :
  synced p → NewPersistentServiceRegistry ipv6 now (psr_store p) cidr = Some (Ok p') → synced p'.
Proof.
  intros Hp. unfold NewPersistentServiceRegistry.
  destruct (NewServiceRegistry ipv6 cidr) as [mem0|e] eqn:Hnew; [|done].
  destruct (new_memory _ _ _ Hnew) as (Hs0 & He0 & Hv0).
  destruct (load_all now p Hp mem0 Hs0 He0 Hv0) as (mem & -> & Hs & He & Hv). intros [= <-].
  assert (∀ n s, sr_services mem !! n = Some s → ∃ t, sr_services (psr_mem p) !! n = Some t ∧
    untimed s = untimed t) as Hold.
  { intros n s Hn. specialize (Hs n). rewrite Hn in Hs. simpl in Hs.
    destruct (sr_services (psr_mem p) !! n) as [t|]; [|done].
    exists t. split; [done|]. simpl in Hs. congruence. }
  split; simpl.
  - split; [|done]. intros n s (t & Ht & Heq)%Hold. destruct (untimed_vip _ _ Heq) as [-> ->].
    by apply (sy_services _ Hp).
  - intros n l. rewrite He. intros (Hin & Hrest)%(sy_endpoints _ Hp). split; [|done].
    apply fmap_is_Some with (f := untimed). rewrite Hs. by apply fmap_is_Some.
  - intros n s (t & Ht & Heq)%Hold. destruct (sy_stored _ Hp n t Ht) as (v & st & s0 & Hrest).
    exists v, st, s0. simpl. rewrite He. by rewrite Heq.
  - intros k v e st Hk Hx Hu Hd. destruct (sy_live _ Hp k v e st Hk Hx Hu Hd) as (n & -> & Hn).
    exists n. split; [done|]. apply fmap_is_Some with (f := untimed). rewrite Hs. by apply fmap_is_Some.
Qed.

Lemma fresh_synced store mem :
  (∀ k, HasPrefix k "service:" = true → abs (fsm store) !! k = None) →
  sr_services mem = ∅ → sr_endpoints mem = ∅ → sr_virtualIPs mem = ∅ →
  synced {| psr_mem := mem; psr_store := store |}.
Proof.
  intros Hstore Hs He Hv. split; simpl; unfold services_ok, endpoints_ok, live_keys; rewrite ?Hs, ?He, ?Hv; simpl.
  - split; [|intros n; by rewrite !lookup_empty]. intros n s. by rewrite lookup_empty.
  - intros n l. by rewrite lookup_empty.
  - intros n s. by rewrite lookup_empty.
  - intros k v e st Hk. by rewrite Hstore.
Qed.

Lemma persisted_synced p : persisted p → synced p.
Proof.
  induction 1 as [ipv6 now store cidr p Hstore Hp|p p' _ IH Hsave|ipv6 now cidr p p' _ IH Hnew].
  - revert Hp. unfold NewPersistentServiceRegistry.
    destruct (NewServiceRegistry ipv6 cidr) as [mem0|e] eqn:Hnew; [|done].
    destruct (new_memory _ _ _ Hnew) as (Hs0 & He0 & Hv0).
    intros Hp. apply (restart_synced ipv6 now cidr {| psr_mem := mem0; psr_store := store |}).
    + by apply fresh_synced.
    + unfold NewPersistentServiceRegistry. by rewrite Hnew.
  - by eapply saved_synced.
  - by eapply restart_synced.
Qed.

(** C12: after any history of calls answered without an error, restarts included,
    a registry started from the store has the same services (apart from their
    times), with the same addresses and the same endpoints. *)
Theorem registry_recovers p ipv6 now cidr mem0 :
  persisted p → NewServiceRegistry ipv6 cidr = Ok mem0 →
  ∃ p', NewPersistentServiceRegistry ipv6 now (psr_store p) cidr = Some (Ok p') ∧
    psr_store p' = psr_store p ∧
    (∀ n, untimed <$> sr_services (psr_mem p') !! n = untimed <$> sr_services (psr_mem p) !! n) ∧
    sr_virtualIPs (psr_mem p') = sr_virtualIPs (psr_mem p) ∧
    sr_endpoints (psr_mem p') = sr_endpoints (psr_mem p).
Proof.
  intros Hp%persisted_synced Hnew. destruct (new_memory _ _ _ Hnew) as (Hs0 & He0 & Hv0).
  unfold NewPersistentServiceRegistry. rewrite Hnew.
  destruct (load_all now p Hp mem0 Hs0 He0 Hv0) as (mem & -> & Hs & He & Hv).
  eexists. split; [done|]. simpl. split_and!; [done..| |done].
  apply map_eq. intros n. rewrite Hv, (proj2 (sy_services _ Hp)). specialize (Hs n).
  destruct (sr_services mem !! n) as [s|], (sr_services (psr_mem p) !! n) as [t|]; try done.
  simpl in *. f_equal. apply (untimed_vip s t). congruence.
Qed.

End recovery.

(** ** A restarted registry *)

(** A codec for the states of a table. *)
Definition service_table (l : list ServicePersistentState) : ServiceCodec := {|
  service_marshal st := (fun q => Nat.iter q.1 (String "x") EmptyString) <$> list_find (eq st) l;
  service_unmarshal v := l !! String.length v |}.

Lemma service_table_laws l : @ServiceCodecLaws (service_table l).
Proof.
  split. simpl. intros st v [[i st'] [(Hi & <- & _)%list_find_Some ->]]%fmap_Some. simpl.
  replace (String.length _) with i; [done|]. clear Hi.
  induction i as [|i IH]; simpl; [done|by rewrite <-IH].
Qed.

Section sample.
#[local] Existing Instance range_canonical.

Definition web : Service := restamp 1 2 (sample_service "web" "" "10.1.2.1").
Definition stored_web : ServicePersistentState :=
  {| ps_Service := Some web; ps_Endpoints := []; ps_CreatedAt := 1; ps_UpdatedAt := 3;
     ps_DeletedAt := None |}.

Definition sample_services : ServiceCodec := service_table [stored_web].
#[local] Existing Instance sample_services.
#[local] Instance sample_services_laws : ServiceCodecLaws := service_table_laws _.

Definition sample_persist : PersistInputs :=
  {| pi_created := 1; pi_updated := 2; pi_read := 3; pi_saved := 3;
     pi_raft := Committed (fun _ => 3) |}.

Definition sample_registered : PersistentServiceRegistry :=
  (PersistentRegisterService sample_persist
    {| psr_mem := sample_registry; psr_store := {| fsm := NewFSM; is_leader := true |} |}
    (sample_service "web" "" "")).1.

Lemma sample_persisted : persisted sample_registered.
Proof.
  eapply pe_saved; [eapply (pe_fresh (fun _ => None) 0 {| fsm := NewFSM; is_leader := true |}
    "10.1.2.0/29")|eapply (sv_register _ sample_persist (sample_service "web" "" ""))].
  - done.
  - vm_compute. reflexivity.
  - vm_compute. reflexivity.
Qed.

Lemma registry_recovers_witness :
  ∃ p', NewPersistentServiceRegistry (fun _ => None) 50 (psr_store sample_registered) "10.1.2.0/29" =
      Some (Ok p') ∧ ResolveService (psr_mem p') "web" "default" = Ok "10.1.2.1"%string.
Proof.
  destruct (registry_recovers sample_registered (fun _ => None) 50 "10.1.2.0/29" sample_registry
    sample_persisted) as (p' & Hp' & _ & _ & Hv & _); [vm_compute; reflexivity|].
  exists p'. split; [exact Hp'|]. unfold ResolveService. rewrite Hv. vm_compute. reflexivity.
Defined.

(** The addresses of loaded services are not taken out of the pool: the first
    service registered after a restart gets the address of a loaded one, and
    is then stored with it. *)
Theorem restart_shares_address :
  match NewPersistentServiceRegistry (fun _ => None) 50 (psr_store sample_registered) "10.1.2.0/29" with
  | Some (Ok p) =>
      let p := (PersistentRegisterService sample_persist p (sample_service "db" "" "")).1 in
      (ResolveService (psr_mem p) "web" "", ResolveService (psr_mem p) "db" "") =
      (Ok "10.1.2.1", Ok "10.1.2.1")%string
  | _ => False
  end.
Proof. by vm_compute. Qed.

(** Deregistering a service that was never stored fails after memory has been
    changed, against the comment that nothing is to be done then. *)
Example deregister_unknown :
  (PersistentDeregisterService sample_persist
    {| psr_mem := sample_registry; psr_store := {| fsm := NewFSM; is_leader := true |} |} "x" "").2 =
  Some "failed to read from RAFT: key not found: service:x.default"%string.
Proof. by vm_compute. Qed.

End sample.
