(* ===== verification/Membership.v ===== *)
(** * The membership manager (pkg/coordinator/membership/manager.go)

    The manager keeps the nodes of the cluster, the work queued for each of
    them, and writes nodes through to the Raft store.  Clock readings, the
    answers of the consensus library and the certificate that is issued are
    arguments; the JSON encoding of a node is the class [NodeCodec].  The locks
    are modelled in [MembershipLocks]. *)

From S2P Require Import Prelude GoText GoFloat Node NodeHealth BootstrapTokens RaftFSM PolicyAdmission.

(** ** Messages (pkg/api/cloudless.proto) *)

Module msg.

Record ResourceCapacity := {
  CpuMillicores : Z;
  MemoryBytes : Z;
  StorageBytes : Z;
  BandwidthBps : Z;
  GpuCount : Z
}.

Record ResourceUsage := {
  u_CpuMillicores : Z;
  u_MemoryBytes : Z;
  u_StorageBytes : Z;
  u_BandwidthBps : Z;
  u_GpuCount : Z
}.

Record Fragment := {
  frag_Id : string;
  frag_Resources : option ResourceCapacity;
  frag_WorkloadId : string;
  frag_State : option Z
}.

Record ContainerStatus := { cs_ContainerId : string; cs_State : string }.

Record EnrollNodeRequest := {
  en_Token : string;
  en_NodeName : string;
  en_Region : string;
  en_Zone : string;
  en_Capabilities : option NodeCapabilities;
  en_Capacity : option ResourceCapacity;
  en_Labels : gmap string string
}.

Record EnrollNodeResponse := {
  er_NodeId : string;
  er_Certificate : string;
  er_CaCertificate : string;
  er_HeartbeatInterval : Z
}.

Record WorkloadAssignment := {
  wa_FragmentId : string;
  wa_Workload : api.Workload;
  wa_Action : string
}.

Record ContainerHealth := {
  container_id : string;
  liveness_healthy : bool;
  liveness_consecutive_failures : Z;
  liveness_last_check_time : Z;
  readiness_healthy : bool;
  readiness_consecutive_failures : Z;
  readiness_last_check_time : Z
}.

Record HeartbeatRequest := {
  hb_NodeId : string;
  hb_Capacity : option ResourceCapacity;
  hb_Usage : option ResourceUsage;
  hb_Fragments : option (list Fragment);
  hb_Containers : option (list ContainerStatus);
  hb_ContainerHealth : list ContainerHealth
}.

Record HeartbeatResponse := {
  hr_Assignments : list WorkloadAssignment;
  hr_ContainersToStop : list string;
  hr_NextHeartbeat : Z
}.

End msg.

(** [FragmentStatus_State.String()] *)
Definition fragment_state_name (s : Z) : string :=
  if s =? 0 then "UNKNOWN" else if s =? 1 then "AVAILABLE" else if s =? 2 then "RESERVED"
  else if s =? 3 then "ALLOCATED" else if s =? 4 then "RELEASING" else show_Z s.

(** ** State *)

(** [json.Marshal], which fails on a float that is not a number, and
    [json.Unmarshal]. *)
Class NodeCodec : Type := {
  node_marshal : NodeInfo → option string;
  node_unmarshal : string → option NodeInfo
}.

Record MembershipManager := {
  mm_store : Store;
  mm_tokens : BootstrapTokenManager;
  mm_scoring : ScoringEngine;
  mm_nodes : gmap string NodeInfo;
  mm_assignments : gmap string (list msg.WorkloadAssignment);
  mm_commands : gmap string (list string)
}.

#[export] Instance eta_MembershipManager : Eta MembershipManager := fun m =>
  Build_MembershipManager (mm_store m) (mm_tokens m) (mm_scoring m) (mm_nodes m)
    (mm_assignments m) (mm_commands m).

(** Zero values. *)
Definition no_capabilities : NodeCapabilities :=
  {| ncap_ContainerRuntimes := []; ncap_SupportsGPU := false; ncap_SupportsARM := false;
     ncap_SupportsX86 := false; ncap_NetworkFeatures := []; ncap_StorageClasses := [] |}.
Definition no_capacity : ResourceCapacity :=
  {| rc_CPUMillicores := 0; rc_MemoryBytes := 0; rc_StorageBytes := 0; rc_BandwidthBPS := 0;
     rc_GPUCount := 0 |}.
Definition no_usage : ResourceUsage :=
  {| ru_CPUMillicores := 0; ru_MemoryBytes := 0; ru_StorageBytes := 0; ru_BandwidthBPS := 0;
     ru_GPUCount := 0; ru_CPUPercent := f0; ru_MemoryPercent := f0 |}.
Definition no_network : NetworkInfo :=
  {| ni_PrivateIP := ""; ni_PublicIP := ""; ni_Hostname := ""; ni_DNSNames := [];
     ni_OverlayIP := ""; ni_ListenAddress := "" |}.

Definition convert_capacity (c : msg.ResourceCapacity) : ResourceCapacity :=
  {| rc_CPUMillicores := msg.CpuMillicores c; rc_MemoryBytes := msg.MemoryBytes c;
     rc_StorageBytes := msg.StorageBytes c; rc_BandwidthBPS := msg.BandwidthBps c;
     rc_GPUCount := msg.GpuCount c |}.

(** *** Persistence *)

Definition node_key (id : string) : string := "node:" +:+ id.

Section manager.
Context `{GoRange, NodeCodec, BootstrapJWT}.

(** Writing one node; a panic of the state machine does not occur for a
    single command. *)
Definition saveNode (ans : raft_answer) (m : MembershipManager) (node : NodeInfo)
    : MembershipManager * option string :=
  match node_marshal node with
  | None => (m, Some "failed to marshal node"%string)
  | Some data =>
      match Store_Set (node_key (node_ID node)) data ans (mm_store m) with
      | Some (s, err) => (m <| mm_store := s |>, err)
      | None => (m, None)
      end
  end.

(** [saveNodes]: failures are logged only. *)
Definition saveNodes (ans : string → raft_answer) (m : MembershipManager) : MembershipManager :=
  foldl (fun m kn => (saveNode (ans kn.1) m kn.2).1) m (range_map (mm_nodes m)).

(** One stored pair of [loadNodes]. *)
Definition load_node (nodes : gmap string NodeInfo) (kv : string * string) : gmap string NodeInfo :=
  if (5 <? Z.of_nat (String.length kv.1)) && HasPrefix kv.1 "node:" then
    match node_unmarshal kv.2 with
    | None => nodes
    | Some node => <[node_ID node := node]> nodes
    end
  else nodes.

Definition loadNodes (now : Z) (m : MembershipManager) : MembershipManager :=
  m <| mm_nodes := foldl load_node (mm_nodes m) (range_map (GetAll now (fsm (mm_store m)))) |>.

(** [NewManager] with its required parts present. *)
Definition NewMembershipManager (now : Z) (store : Store) (tokens : BootstrapTokenManager)
    : MembershipManager :=
  loadNodes now {| mm_store := store; mm_tokens := tokens; mm_scoring := NewScoringEngine;
                   mm_nodes := ∅; mm_assignments := ∅; mm_commands := ∅ |}.

(** *** Enrollment *)

Record EnrollInputs := {
  ei_parsed : Z;
  ei_checked : Z;
  ei_named : Z;
  ei_now : Z;
  ei_used : Z;
  ei_cert : result string string;
  ei_ca : string;
  ei_raft : raft_answer
}.

Definition enrolled_node (nodeID : string) (now : Z) (req : msg.EnrollNodeRequest) : NodeInfo := {|
  node_ID := nodeID; node_Name := msg.en_NodeName req; node_Region := msg.en_Region req;
  node_Zone := msg.en_Zone req; node_State := StateEnrolling; node_LastHeartbeat := now;
  node_EnrolledAt := now; node_JoinStartedAt := now; node_JoinConvergedAt := zero_time;
  node_LeaveStartedAt := zero_time; node_LeaveConvergedAt := zero_time;
  node_Capabilities := default no_capabilities (msg.en_Capabilities req);
  node_Capacity := default no_capacity (convert_capacity <$> msg.en_Capacity req);
  node_Usage := no_usage; node_Labels := msg.en_Labels req; node_Taints := [];
  node_ReliabilityScore := f1; node_Fragments := []; node_Containers := [];
  node_NetworkInfo := no_network; node_Conditions := [];
  node_HeartbeatInterval := DefaultHeartbeatInterval |}.

Definition EnrollNode (i : EnrollInputs) (m : MembershipManager) (req : msg.EnrollNodeRequest)
    : MembershipManager * result string msg.EnrollNodeResponse :=
  match ValidateBootstrapToken (ei_parsed i) (ei_checked i) (mm_tokens m) (msg.en_Token req) with
  | Err err => (m, Err ("invalid token: " +:+ err))
  | Ok token =>
      let nodeID := if bt_NodeID token =?s ""
                    then "node-" +:+ msg.en_NodeName req +:+ "-" +:+ show_Z (ei_named i / second)
                    else bt_NodeID token in
      let taken := match mm_nodes m !! nodeID with
                   | Some existing => negb (node_State existing =?s StateOffline) &&
                                      negb (node_State existing =?s StateFailed)
                   | None => false
                   end in
      if taken then (m, Err ("node " +:+ nodeID +:+ " already enrolled"))
      else match ei_cert i with
      | Err err => (m, Err ("failed to generate certificate: " +:+ err))
      | Ok cert =>
          let node := enrolled_node nodeID (ei_now i) req in
          let m := m <| mm_nodes := <[nodeID := node]> (mm_nodes m) |> in
          let m := m <| mm_tokens := (UseToken (ei_used i) (mm_tokens m) (bt_ID token) nodeID).1 |> in
          let m := (saveNode (ei_raft i) m node).1 in
          (m, Ok {| msg.er_NodeId := nodeID; msg.er_Certificate := cert;
                    msg.er_CaCertificate := ei_ca i;
                    msg.er_HeartbeatInterval := DefaultHeartbeatInterval |})
      end
  end.

(** *** Heartbeats *)

Record HeartbeatInputs := {
  hi_now : Z;
  hi_joined : Z;
  hi_since : Z;
  hi_transition : Z;
  hi_raft : raft_answer
}.

Definition join_step (i : HeartbeatInputs) (node : NodeInfo) : NodeInfo :=
  if node_State node =?s StateEnrolling
  then node <| node_State := StateReady |> <| node_JoinConvergedAt := hi_joined i |> else node.

Definition recovery_step (i : HeartbeatInputs) (node : NodeInfo) : NodeInfo :=
  if node_State node =?s StateOffline then
    let recoveryTime := if node_LeaveConvergedAt node =? zero_time then 0
                        else time_Sub (hi_since i) (node_LeaveConvergedAt node) in
    node <| node_State := StateReady |>
         <| node_Conditions := node_Conditions node ++
              [{| nc_Type := "Ready"; nc_Status := "True"; nc_Reason := "HeartbeatResumed";
                  nc_Message := "Node recovered after " +:+ Duration_String recoveryTime
                                +:+ " offline";
                  nc_LastTransition := hi_transition i |}] |>
  else node.

(** [float64(used) / float64(capacity) * 100] *)
Definition percent (used capacity : Z) : float64 :=
  if 0 <? capacity then fmul (fdiv (f_of_Z used) (f_of_Z capacity)) (f_of_Z 100) else f0.

Definition usage_step (req : msg.HeartbeatRequest) (node : NodeInfo) : NodeInfo :=
  match msg.hb_Usage req with
  | None => node
  | Some u =>
      node <| node_Usage :=
        {| ru_CPUMillicores := msg.u_CpuMillicores u; ru_MemoryBytes := msg.u_MemoryBytes u;
           ru_StorageBytes := msg.u_StorageBytes u; ru_BandwidthBPS := msg.u_BandwidthBps u;
           ru_GPUCount := msg.u_GpuCount u;
           ru_CPUPercent := percent (msg.u_CpuMillicores u) (rc_CPUMillicores (node_Capacity node));
           ru_MemoryPercent := percent (msg.u_MemoryBytes u) (rc_MemoryBytes (node_Capacity node))
        |} |>
  end.

Definition convert_fragment (f : msg.Fragment) : FragmentInfo :=
  {| fi_ID := msg.frag_Id f; fi_WorkloadID := msg.frag_WorkloadId f;
     fi_Resources := default no_capacity (convert_capacity <$> msg.frag_Resources f);
     fi_State := fragment_state_name (default 0 (msg.frag_State f)) |}.

Definition convert_container (c : msg.ContainerStatus) : ContainerInfo :=
  {| ci_ID := msg.cs_ContainerId c; ci_WorkloadID := ""; ci_State := msg.cs_State c;
     ci_StartedAt := zero_time; ci_Usage := no_usage |}.

Definition inventory_step (req : msg.HeartbeatRequest) (node : NodeInfo) : NodeInfo :=
  let node := match msg.hb_Fragments req with
              | Some fs => node <| node_Fragments := convert_fragment <$> fs |>
              | None => node
              end in
  match msg.hb_Containers req with
  | Some cs => node <| node_Containers := convert_container <$> cs |>
  | None => node
  end.

(** What a heartbeat changes of the node. *)
Definition heartbeat_node (i : HeartbeatInputs) (req : msg.HeartbeatRequest) (node : NodeInfo)
    : NodeInfo :=
  inventory_step req (usage_step req (recovery_step i (join_step i
    (node <| node_LastHeartbeat := hi_now i |>)))).

Definition drain_command : string := "drain:graceful".

Definition ProcessHeartbeat (i : HeartbeatInputs) (m : MembershipManager)
    (req : msg.HeartbeatRequest) : MembershipManager * result string msg.HeartbeatResponse :=
  let id := msg.hb_NodeId req in
  match mm_nodes m !! id with
  | None => (m, Err ("node not found: " +:+ id))
  | Some node =>
      let node := heartbeat_node i req node in
      let m := m <| mm_nodes := <[id := node]> (mm_nodes m) |> in
      let m := (saveNode (hi_raft i) m node).1 in
      let assignments := default [] (mm_assignments m !! id) in
      let commands := default [] (mm_commands m !! id) in
      let m := m <| mm_assignments := delete id (mm_assignments m) |>
                 <| mm_commands := delete id (mm_commands m) |> in
      let commands :=
        if (node_State node =?s StateDraining) &&
           negb (existsb (fun c => c =?s drain_command) commands)
        then commands ++ [drain_command] else commands in
      (m, Ok {| msg.hr_Assignments := assignments; msg.hr_ContainersToStop := commands;
                msg.hr_NextHeartbeat := node_HeartbeatInterval node |})
  end.

(** *** Reading *)

Definition GetNode (m : MembershipManager) (id : string) : result string NodeInfo :=
  match mm_nodes m !! id with
  | None => Err ("node not found: " +:+ id)
  | Some node => Ok node
  end.

Definition matches_one (node : NodeInfo) (kv : string * string) : bool :=
  if kv.1 =?s "state" then node_State node =?s kv.2
  else if kv.1 =?s "region" then node_Region node =?s kv.2
  else if kv.1 =?s "zone" then node_Zone node =?s kv.2
  else match node_Labels node !! kv.1 with Some v => v =?s kv.2 | None => false end.

Definition matchesFilters (node : NodeInfo) (filters : gmap string string) : bool :=
  forallb (matches_one node) (range_map filters).

Definition Manager_ListNodes (m : MembershipManager) (filters : gmap string string)
    : list NodeInfo :=
  List.filter (fun n => matchesFilters n filters) (range_map (mm_nodes m)).*2.

Definition GetActiveNodeCount (m : MembershipManager) : Z :=
  len (List.filter (fun n => node_State n =?s StateReady) (range_map (mm_nodes m)).*2).

Record ClusterStatus := {
  st_TotalNodes : Z;
  st_ActiveNodes : Z;
  st_OfflineNodes : Z;
  st_DrainingNodes : Z;
  st_FailedNodes : Z;
  st_NodesByState : gmap string Z;
  st_NodesByRegion : gmap string Z;
  st_NodesByZone : gmap string Z
}.

(** [m[k]++] *)
Definition incr (k : string) (m : gmap string Z) : gmap string Z :=
  <[k := int64 (default 0 (m !! k) + 1)]> m.

Definition count_node (s : ClusterStatus) (n : NodeInfo) : ClusterStatus :=
  let st := node_State n in
  {| st_TotalNodes := st_TotalNodes s;
     st_ActiveNodes := if st =?s StateReady then int64 (st_ActiveNodes s + 1) else st_ActiveNodes s;
     st_OfflineNodes :=
       if st =?s StateOffline then int64 (st_OfflineNodes s + 1) else st_OfflineNodes s;
     st_DrainingNodes :=
       if st =?s StateDraining then int64 (st_DrainingNodes s + 1) else st_DrainingNodes s;
     st_FailedNodes := if st =?s StateFailed then int64 (st_FailedNodes s + 1) else st_FailedNodes s;
     st_NodesByState := incr st (st_NodesByState s);
     st_NodesByRegion := if node_Region n =?s "" then st_NodesByRegion s
                         else incr (node_Region n) (st_NodesByRegion s);
     st_NodesByZone := if node_Zone n =?s "" then st_NodesByZone s
                       else incr (node_Zone n) (st_NodesByZone s) |}.

Definition GetClusterStatus (m : MembershipManager) : ClusterStatus :=
  foldl count_node
    {| st_TotalNodes := Z.of_nat (size (mm_nodes m)); st_ActiveNodes := 0; st_OfflineNodes := 0;
       st_DrainingNodes := 0; st_FailedNodes := 0; st_NodesByState := ∅; st_NodesByRegion := ∅;
       st_NodesByZone := ∅ |} (range_map (mm_nodes m)).*2.

(** *** Queued work *)

Definition push {A} (id : string) (a : A) (q : gmap string (list A)) : gmap string (list A) :=
  <[id := default [] (q !! id) ++ [a]]> q.

Definition QueueAssignment (m : MembershipManager) (id : string) (a : msg.WorkloadAssignment)
    : MembershipManager * option string :=
  match mm_nodes m !! id with
  | None => (m, Some ("node not found: " +:+ id))
  | Some _ => (m <| mm_assignments := push id a (mm_assignments m) |>, None)
  end.

Definition QueueCommand (m : MembershipManager) (id command : string)
    : MembershipManager * option string :=
  match mm_nodes m !! id with
  | None => (m, Some ("node not found: " +:+ id))
  | Some _ => (m <| mm_commands := push id command (mm_commands m) |>, None)
  end.

Definition GetPendingAssignmentCount (m : MembershipManager) (id : string) : Z :=
  len (default [] (mm_assignments m !! id)).

Definition stop_command (graceful : bool) (c : ContainerInfo) : string :=
  (if graceful then "stop:graceful:" else "stop:force:") +:+ ci_ID c.

(** What [triggerWorkloadMigration] does when it can take the lock. *)
Definition triggerWorkloadMigration (m : MembershipManager) (id : string) (graceful : bool)
    : MembershipManager * option string :=
  match mm_nodes m !! id with
  | None => (m, Some ("node not found: " +:+ id))
  | Some node =>
      (foldl (fun m c => (QueueCommand m id (stop_command graceful c)).1) m (node_Containers node),
       None)
  end.

(** *** Draining *)

(** A call that returns, or one that waits forever for a lock, with the state
    it has reached. *)
Inductive outcome (A : Type) : Type :=
| Returns (m : MembershipManager) (a : A)
| Blocks (m : MembershipManager).
#[global] Arguments Returns {A} m a.
#[global] Arguments Blocks {A} m.

Definition drain_taint : Taint :=
  {| taint_Key := "cloudless.io/drain"; taint_Value := "true"; taint_Effect := "NoSchedule" |}.

(** [DrainNode] holds the write lock [m.mu] when it calls
    [triggerWorkloadMigration], whose first action is to take the read lock of
    [m.mu]: from there the call does not return ([MembershipLocks]). *)
Definition DrainNode (ans : raft_answer) (m : MembershipManager) (id : string)
    : outcome (option string) :=
  match mm_nodes m !! id with
  | None => Returns m (Some ("node not found: " +:+ id))
  | Some node =>
      if node_State node =?s StateDraining then Returns m (Some "node already draining"%string)
      else
        let node := node <| node_State := StateDraining |>
                         <| node_Taints := node_Taints node ++ [drain_taint] |> in
        let m := m <| mm_nodes := <[id := node]> (mm_nodes m) |> in
        let '(m, err) := saveNode ans m node in
        match err with
        | Some e => Returns m (Some ("failed to persist node state: " +:+ e))
        | None => Blocks m
        end
  end.

Definition admin_taint (t : Taint) : bool :=
  (taint_Key t =?s "cloudless.io/drain") || (taint_Key t =?s "cloudless.io/cordon").

Definition uncordoned (node : NodeInfo) : NodeInfo :=
  let node := if node_State node =?s StateCordoned then node <| node_State := StateReady |>
              else node in
  node <| node_Taints := List.filter (fun t => negb (admin_taint t)) (node_Taints node) |>.

Definition UncordonNode (ans : raft_answer) (m : MembershipManager) (id : string)
    : MembershipManager * option string :=
  match mm_nodes m !! id with
  | None => (m, Some ("node not found: " +:+ id))
  | Some node =>
      let node := uncordoned node in
      let m := m <| mm_nodes := <[id := node]> (mm_nodes m) |> in
      let '(m, err) := saveNode ans m node in
      (m, match err with
          | Some e => Some ("failed to persist node state: " +:+ e)
          | None => None
          end)
  end.

(** *** Periodic work *)

(** [addCondition]: an existing condition is replaced only when its status
    changes. *)
Definition add_condition (now : Z) (conds : list NodeCondition) (type status reason message : string)
    : list NodeCondition :=
  let c := {| nc_Type := type; nc_Status := status; nc_Reason := reason; nc_Message := message;
              nc_LastTransition := now |} in
  match list_find (fun c => nc_Type c = type) conds with
  | Some (i, old) => if negb (nc_Status old =?s status) then <[i := c]> conds else conds
  | None => conds ++ [c]
  end.

Definition addCondition (now : Z) (node : NodeInfo) (type status reason message : string)
    : NodeInfo :=
  node <| node_Conditions := add_condition now (node_Conditions node) type status reason message |>.

Definition timeout_step (now : Z) (node : NodeInfo) : NodeInfo :=
  let since := time_Sub now (node_LastHeartbeat node) in
  if HeartbeatTimeout <? since then
    if negb (node_State node =?s StateOffline) && negb (node_State node =?s StateFailed) then
      node <| node_LeaveStartedAt := node_LastHeartbeat node |>
           <| node_LeaveConvergedAt := now |>
           <| node_State := StateOffline |>
           <| node_Conditions := node_Conditions node ++
                [{| nc_Type := "Ready"; nc_Status := "False"; nc_Reason := "HeartbeatTimeout";
                    nc_Message := "No heartbeat for " +:+ Duration_String since;
                    nc_LastTransition := now |}] |>
    else node
  else node.

Definition pressure_step (clock : string → Z) (node : NodeInfo) : NodeInfo :=
  let node :=
    if flt (f_of_Z 90) (ru_MemoryPercent (node_Usage node)) then
      addCondition (clock "MemoryPressure") node "MemoryPressure" "True" "HighMemoryUsage"
        ("Memory usage at " +:+ fmt_1f (ru_MemoryPercent (node_Usage node)) +:+ "%")
    else node in
  if flt (f_of_Z 90) (ru_CPUPercent (node_Usage node)) then
    addCondition (clock "CPUPressure") node "CPUPressure" "True" "HighCPUUsage"
      ("CPU usage at " +:+ fmt_1f (ru_CPUPercent (node_Usage node)) +:+ "%")
  else node.

(** [checkNodeHealth]: each turn of the loop changes its own node; [clock] is
    the reading of [addCondition] by node and condition. *)
Definition checkNodeHealth (now : Z) (clock : string → string → Z) (m : MembershipManager)
    : MembershipManager :=
  m <| mm_nodes := map_imap (fun id n => Some (pressure_step (clock id) (timeout_step now n)))
                     (mm_nodes m) |>.

(** One tick of [updateReliabilityScores]. *)
Definition update_scores (clock : string → ScoreClock) (m : MembershipManager) : MembershipManager :=
  m <| mm_nodes := map_imap (fun id n => Some (n <| node_ReliabilityScore :=
         CalculateReliability (clock id) (mm_scoring m) (Some n) |>)) (mm_nodes m) |>.

Definition expired_node (now : Z) (node : NodeInfo) : bool :=
  (node_State node =?s StateOffline) && (24 * hour <? time_Sub now (node_LastHeartbeat node)).

Definition remove_node (ans : string → raft_answer) (m : MembershipManager) (id : string)
    : MembershipManager :=
  let m := m <| mm_nodes := delete id (mm_nodes m) |> in
  match Store_Delete (node_key id) (ans id) (mm_store m) with
  | Some (s, _) => m <| mm_store := s |>
  | None => m
  end.

Definition removeExpiredNodes (now : Z) (ans : string → raft_answer) (m : MembershipManager)
    : MembershipManager :=
  let toRemove :=
    (List.filter (fun kn => expired_node now kn.2) (range_map (mm_nodes m))).*1 in
  foldl (remove_node ans) m toRemove.

End manager.
