(* ===== verification/MembershipSpec.v ===== *)
(** * The membership manager keeps its nodes in order

    The operations of [Membership] as a step relation, the life cycle of a node
    as a small transition system that every step follows, the invariant of the
    reachable managers (restarts included), and what heartbeats, time-outs,
    draining and enrollment tokens guarantee. *)

From S2P Require Import Prelude GoText GoFloat Node NodeHealth BootstrapTokens RaftFSM PolicyAdmission Membership.

Class NodeCodecLaws `{NodeCodec} : Prop := {
  node_roundtrip : ∀ n v, node_marshal n = Some v → node_unmarshal v = Some n
}.

(** ** The life cycle of a node *)

Definition state_at (m : MembershipManager) (id : string) : option string :=
  node_State <$> mm_nodes m !! id.

Inductive lifecycle : option string → option string → Prop :=
| lc_stay s : lifecycle s s
| lc_enroll s : s = None ∨ s = Some StateOffline ∨ s = Some StateFailed →
    lifecycle s (Some StateEnrolling)
| lc_join : lifecycle (Some StateEnrolling) (Some StateReady)
| lc_recover : lifecycle (Some StateOffline) (Some StateReady)
| lc_drain s : s ≠ StateDraining → lifecycle (Some s) (Some StateDraining)
| lc_uncordon : lifecycle (Some StateCordoned) (Some StateReady)
| lc_timeout s : s ≠ StateOffline → s ≠ StateFailed → lifecycle (Some s) (Some StateOffline)
| lc_remove : lifecycle (Some StateOffline) None.

(** ** Steps *)

Section steps.
Context `{GoRange, NodeCodec, BootstrapJWT}.

(** The operations of the manager; [None] for a node or a queue that they do
    not concern is the identity.  [s_tokens] stands for the operations of the
    token manager and [s_store] for writes of other components under other
    keys. *)
Inductive mstep (m : MembershipManager) : MembershipManager → Prop :=
| s_enroll i req : mstep m (EnrollNode i m req).1
| s_heartbeat i req : mstep m (ProcessHeartbeat i m req).1
| s_drain ans id m' : (∃ e, DrainNode ans m id = Returns m' e) ∨ DrainNode ans m id = Blocks m' →
    mstep m m'
| s_uncordon ans id : mstep m (UncordonNode ans m id).1
| s_check now clock : mstep m (checkNodeHealth now clock m)
| s_score clock : mstep m (update_scores clock m)
| s_remove now ans : mstep m (removeExpiredNodes now ans m)
| s_assign id a : mstep m (QueueAssignment m id a).1
| s_command id c : mstep m (QueueCommand m id c).1
| s_migrate id g : mstep m (triggerWorkloadMigration m id g).1
| s_save ans : mstep m (saveNodes ans m)
| s_tokens tm : mstep m (m <| mm_tokens := tm |>)
| s_store s : (∀ k, HasPrefix k "node:" = true → abs (fsm s) !! k = abs (fsm (mm_store m)) !! k) →
    mstep m (m <| mm_store := s |>).

(** A restart forgets what is not stored. *)
Definition restarted (now : Z) (tm : BootstrapTokenManager) (m : MembershipManager)
    : MembershipManager := NewMembershipManager now (mm_store m) tm.

Inductive reachable : MembershipManager → Prop :=
| r_fresh now s tm : (∀ k, HasPrefix k "node:" = true → abs (fsm s) !! k = None) →
    reachable (NewMembershipManager now s tm)
| r_step m m' : reachable m → mstep m m' → reachable m'
| r_restart now tm m : reachable m → reachable (restarted now tm m).

(** ** Saving touches only the store *)

Lemma saveNode_fields ans m n :
  let m' := (saveNode ans m n).1 in
  mm_nodes m' = mm_nodes m ∧ mm_tokens m' = mm_tokens m ∧ mm_scoring m' = mm_scoring m ∧
  mm_assignments m' = mm_assignments m ∧ mm_commands m' = mm_commands m.
Proof. unfold saveNode. repeat case_match; done. Qed.

Lemma saveNode_store ans m n :
  abs (fsm (mm_store (saveNode ans m n).1)) = abs (fsm (mm_store m)) ∨
  ∃ v, node_marshal n = Some v ∧
    abs (fsm (mm_store (saveNode ans m n).1)) =
      <[node_key (node_ID n) := (v, 0)]> (abs (fsm (mm_store m))).
Proof.
  unfold saveNode. destruct (node_marshal n) as [v|]; [|by left].
  destruct (Store_Set_cases (node_key (node_ID n)) v ans (mm_store m)) as [(s & -> & Hs)|(e & ->)];
    [right; eauto|by left].
Qed.

Lemma saveNode_state ans m n id : state_at (saveNode ans m n).1 id = state_at m id.
Proof. unfold state_at. by destruct (saveNode_fields ans m n) as (-> & _). Qed.

(** Saving all nodes is a sequence of saves. *)
Lemma saveNodes_ind (P : MembershipManager → Prop) ans m :
  (∀ m' id n, mm_nodes m !! id = Some n → P m' → P (saveNode (ans id) m' n).1) →
  P m → P (saveNodes ans m).
Proof.
  intros Hstep. unfold saveNodes.
  assert (∀ kn, kn ∈ range_map (mm_nodes m) → mm_nodes m !! kn.1 = Some kn.2) as Hin.
  { intros [k n]. apply elem_of_range_map. }
  revert Hin. generalize (range_map (mm_nodes m)). intros l Hin Hm.
  assert (∀ m', P m' → P (foldl (fun m kn => (saveNode (ans kn.1) m kn.2).1) m' l)) as Hl;
    [|by apply Hl]. clear Hm.
  induction l as [|kn l IH]; intros m' Hm'; simpl; [done|]. apply IH.
  - intros kn' Hkn. apply Hin. by right.
  - apply Hstep; [|done]. apply Hin. by left.
Qed.

Lemma saveNodes_nodes ans m : mm_nodes (saveNodes ans m) = mm_nodes m.
Proof.
  apply (saveNodes_ind (fun m' => mm_nodes m' = mm_nodes m)); [|done].
  intros m' id n _ <-. apply saveNode_fields.
Qed.

Lemma state_at_tokens m tm id : state_at (m <| mm_tokens := tm |>) id = state_at m id.
Proof. done. Qed.

(** Replacing one node. *)
Lemma state_at_insert m id n id' :
  state_at (m <| mm_nodes := <[id := n]> (mm_nodes m) |>) id' =
  if decide (id' = id) then Some (node_State n) else state_at m id'.
Proof.
  unfold state_at. simpl. case_decide as Hid; [by subst; rewrite lookup_insert_eq|].
  by rewrite lookup_insert_ne.
Qed.

(** ** Every step follows the life cycle *)

Lemma heartbeat_lifecycle i req n :
  lifecycle (Some (node_State n)) (Some (node_State (heartbeat_node i req n))).
Proof.
  assert (node_State (heartbeat_node i req n) =
    node_State (recovery_step i (join_step i (n <| node_LastHeartbeat := hi_now i |>)))) as ->.
  { unfold heartbeat_node, inventory_step, usage_step. by repeat case_match. }
  unfold recovery_step, join_step. simpl.
  destruct (node_State n =?s StateEnrolling) eqn:He; bool_to_prop; simpl.
  { rewrite He. constructor. }
  destruct (node_State n =?s StateOffline) eqn:Ho; bool_to_prop; simpl; [|constructor].
  rewrite Ho. constructor.
Qed.

Lemma timeout_lifecycle now n :
  lifecycle (Some (node_State n)) (Some (node_State (timeout_step now n))).
Proof.
  unfold timeout_step. case_match; [|constructor]. case_match; [|constructor].
  bool_to_prop. simpl. by constructor.
Qed.

Lemma pressure_state clock n : node_State (pressure_step clock n) = node_State n.
Proof. unfold pressure_step. by repeat case_match. Qed.

Lemma remove_node_nodes ans m id : mm_nodes (remove_node ans m id) = delete id (mm_nodes m).
Proof. unfold remove_node. repeat case_match; done. Qed.

Lemma remove_loop_nodes ans m l :
  (∀ id, id ∈ l → mm_nodes (foldl (remove_node ans) m l) !! id = None) ∧
  (∀ id, id ∉ l → mm_nodes (foldl (remove_node ans) m l) !! id = mm_nodes m !! id).
Proof.
  revert m. induction l as [|j l IH]; intros m; simpl; [by split; [intros ? []%not_elem_of_nil|]|].
  destruct (IH (remove_node ans m j)) as [Hin Hout]. rewrite remove_node_nodes in Hout. split.
  - intros id Hid. destruct (decide (id ∈ l)) as [|Hl]; [auto|].
    apply elem_of_cons in Hid as [->|?]; [|done]. by rewrite Hout, lookup_delete_eq.
  - intros id [Hj Hl]%not_elem_of_cons. by rewrite Hout, lookup_delete_ne.
Qed.

Lemma removeExpiredNodes_lookup now ans m id :
  mm_nodes (removeExpiredNodes now ans m) !! id =
  match mm_nodes m !! id with
  | Some n => if expired_node now n then None else Some n
  | None => None
  end.
Proof.
  unfold removeExpiredNodes. set (l := (List.filter _ _).*1).
  destruct (remove_loop_nodes ans m l) as [Hin Hout].
  assert (id ∈ l ↔ ∃ n, mm_nodes m !! id = Some n ∧ expired_node now n = true) as Hl.
  { unfold l. rewrite list_elem_of_fmap. split.
    - intros ([k n] & -> & Hkn). apply list_elem_of_In, filter_In in Hkn as [Hkn He].
      exists n. split; [|done]. by apply list_elem_of_In, elem_of_range_map in Hkn.
    - intros (n & Hn & He). exists (id, n). split; [done|]. apply list_elem_of_In, filter_In.
      split; [|done]. by apply list_elem_of_In, elem_of_range_map. }
  destruct (mm_nodes m !! id) as [n|] eqn:Hn; [destruct (expired_node now n) eqn:He|].
  - apply Hin, Hl. eauto.
  - rewrite Hout; [done|]. rewrite Hl. intros (n' & [= <-] & ?). congruence.
  - rewrite Hout; [done|]. rewrite Hl. by intros (n' & ? & ?).
Qed.

Lemma push_commands_nodes m id g cs :
  mm_nodes (foldl (fun m c => (QueueCommand m id (stop_command g c)).1) m cs) = mm_nodes m.
Proof.
  revert m. induction cs as [|c cs IH]; intros m; simpl; [done|]. rewrite IH.
  unfold QueueCommand. by case_match.
Qed.

Lemma enroll_lifecycle i m req id :
  lifecycle (state_at m id) (state_at (EnrollNode i m req).1 id).
Proof.
  unfold EnrollNode.
  destruct (ValidateBootstrapToken _ _ _ _) as [token|]; [|constructor].
  set (nodeID := if bt_NodeID token =?s "" then _ else _).
  set (taken := match mm_nodes m !! nodeID with Some _ => _ | None => false end).
  destruct taken eqn:Ht; [constructor|]. destruct (ei_cert i) as [cert|]; [|constructor].
  cbn [fst]. rewrite saveNode_state, state_at_tokens, state_at_insert. case_decide as Hid; [subst id|constructor].
  apply lc_enroll. unfold state_at. revert Ht. unfold taken.
  destruct (mm_nodes m !! nodeID) as [n|]; [|by left]. simpl. intros Ht.
  right. destruct (node_State n =?s StateOffline) eqn:?; bool_to_prop; [left; congruence|].
  destruct (node_State n =?s StateFailed) eqn:?; bool_to_prop; [right; congruence|done].
Qed.

Lemma replace_lifecycle m id n n' j :
  mm_nodes m !! id = Some n → lifecycle (Some (node_State n)) (Some (node_State n')) →
  lifecycle (state_at m j) (state_at (m <| mm_nodes := <[id := n']> (mm_nodes m) |>) j).
Proof.
  intros Hn Hl. rewrite state_at_insert. case_decide; [subst j|constructor].
  unfold state_at. by rewrite Hn.
Qed.

Lemma map_lifecycle m (f : string → NodeInfo → NodeInfo) j :
  (∀ id n, lifecycle (Some (node_State n)) (Some (node_State (f id n)))) →
  lifecycle (state_at m j)
    (state_at (m <| mm_nodes := map_imap (fun id n => Some (f id n)) (mm_nodes m) |>) j).
Proof.
  intros Hf. unfold state_at. simpl. rewrite map_lookup_imap.
  destruct (mm_nodes m !! j); simpl; [apply Hf|constructor].
Qed.

Lemma drain_nodes ans m id m' :
  (∃ e, DrainNode ans m id = Returns m' e) ∨ DrainNode ans m id = Blocks m' →
  m' = m ∨ ∃ n n', mm_nodes m !! id = Some n ∧ node_State n ≠ StateDraining ∧
    n' = n <| node_State := StateDraining |> <| node_Taints := node_Taints n ++ [drain_taint] |> ∧
    m' = (saveNode ans (m <| mm_nodes := <[id := n']> (mm_nodes m) |>) n').1.
Proof.
  unfold DrainNode. destruct (mm_nodes m !! id) as [n|]; [|intros [[e ?]|?]; simplify_eq; auto].
  destruct (node_State n =?s StateDraining) eqn:Hs; [intros [[e ?]|?]; simplify_eq; auto|].
  set (n' := _ <| node_Taints := _ |>). intros Hd. right. exists n, n'. bool_to_prop.
  split_and!; [done..|]. destruct (saveNode ans _ n') as [m2 [e|]]; destruct Hd as [[? ?]|?]; by simplify_eq.
Qed.

(** Every operation moves every node along the life cycle, or not at all. *)
Lemma mstep_lifecycle m m' id : mstep m m' → lifecycle (state_at m id) (state_at m' id).
Proof.
  destruct 1 as [i req|i req|ans j m' Hd|ans j|now clock|clock|now ans|j a|j c|j g|ans|tm|s Hs].
  - apply enroll_lifecycle.
  - unfold ProcessHeartbeat. destruct (mm_nodes m !! _) as [n|] eqn:Hn; [|constructor].
    change (lifecycle (state_at m id) (state_at (saveNode (hi_raft i) (m <| mm_nodes :=
      <[msg.hb_NodeId req := heartbeat_node i req n]> (mm_nodes m) |>) (heartbeat_node i req n)).1 id)).
    rewrite saveNode_state. eapply replace_lifecycle, heartbeat_lifecycle; done.
  - apply drain_nodes in Hd as [->|(n & n' & Hn & Hs & -> & ->)]; [constructor|].
    rewrite saveNode_state. eapply replace_lifecycle; [done|]. by constructor.
  - unfold UncordonNode. destruct (mm_nodes m !! j) as [n|] eqn:Hn; [|constructor].
    destruct (saveNode _ _ _) as [m2 err] eqn:Hm. cbn [fst].
    assert (m2 = (saveNode ans (m <| mm_nodes := <[j := uncordoned n]> (mm_nodes m) |>)
      (uncordoned n)).1) as -> by by rewrite Hm.
    rewrite saveNode_state. eapply replace_lifecycle; [done|].
    unfold uncordoned. case_match; simpl; [bool_to_prop|constructor].
    match goal with H : node_State n = _ |- _ => rewrite H end. constructor.
  - apply map_lifecycle. intros j n. rewrite pressure_state. apply timeout_lifecycle.
  - apply map_lifecycle. intros j n. constructor.
  - unfold state_at. rewrite removeExpiredNodes_lookup. destruct (mm_nodes m !! id) as [n|]; [|constructor].
    destruct (expired_node now n) eqn:He; simpl; [|constructor].
    apply andb_prop in He as [He _]. bool_to_prop. rewrite He. constructor.
  - unfold QueueAssignment. case_match; constructor.
  - unfold QueueCommand. case_match; constructor.
  - unfold triggerWorkloadMigration. case_match; [|constructor]. cbn [fst].
    unfold state_at. rewrite push_commands_nodes. constructor.
  - unfold state_at. rewrite saveNodes_nodes. constructor.
  - constructor.
  - constructor.
Qed.

(** ** The invariant *)

Context `{!NodeCodecLaws}.

Definition known_state (s : string) : Prop :=
  s = StateEnrolling ∨ s = StateReady ∨ s = StateDraining ∨ s = StateOffline.

(** Every node is kept, and stored, under its own identifier and in one of
    four states. *)
Record members_ok (m : MembershipManager) : Prop := {
  ok_node : ∀ id n, mm_nodes m !! id = Some n → node_ID n = id ∧ known_state (node_State n);
  ok_stored : ∀ k v e n, HasPrefix k "node:" = true → abs (fsm (mm_store m)) !! k = Some (v, e) →
    node_unmarshal v = Some n → k = node_key (node_ID n) ∧ known_state (node_State n)
}.

(** Only the nodes and the store matter. *)
Lemma members_ok_ext m m' :
  mm_nodes m' = mm_nodes m → mm_store m' = mm_store m → members_ok m → members_ok m'.
Proof. intros Hn Hs [Hm Hst]. split; [rewrite Hn|rewrite Hs]; done. Qed.

Lemma saveNode_ok ans m n :
  known_state (node_State n) → members_ok m → members_ok (saveNode ans m n).1.
Proof.
  intros Hn [Hm Hst]. split.
  - destruct (saveNode_fields ans m n) as [-> _]. done.
  - destruct (saveNode_store ans m n) as [->|(v & Hv & ->)]; [done|].
    intros k v' e n' Hk. rewrite lookup_insert. case_decide as Hkey; [|by apply Hst].
    intros [= <- <-]. apply node_roundtrip in Hv. rewrite Hv. intros [= <-]. done.
Qed.

Lemma replace_ok m id n :
  node_ID n = id → known_state (node_State n) → members_ok m →
  members_ok (m <| mm_nodes := <[id := n]> (mm_nodes m) |>).
Proof.
  intros Hid Hn [Hm Hst]. split; [|done]. intros id' n'. simpl. rewrite lookup_insert.
  case_decide; [|apply Hm]. by intros [= <-]; subst.
Qed.

Lemma map_ok m (f : string → NodeInfo → NodeInfo) :
  (∀ id n, node_ID (f id n) = node_ID n) →
  (∀ id n, known_state (node_State n) → known_state (node_State (f id n))) → members_ok m →
  members_ok (m <| mm_nodes := map_imap (fun id n => Some (f id n)) (mm_nodes m) |>).
Proof.
  intros Hid Hf [Hm Hst]. split; [|done]. intros id n. simpl. rewrite map_lookup_imap.
  destruct (mm_nodes m !! id) as [n0|] eqn:Hn; [|done]. simpl. intros [= <-].
  rewrite Hid. split; [|apply Hf]; by apply (Hm id n0).
Qed.

Lemma remove_node_ok ans m id : members_ok m → members_ok (remove_node ans m id).
Proof.
  intros [Hm Hst]. split.
  - rewrite remove_node_nodes. intros id' n [_ Hn]%lookup_delete_Some. by apply Hm.
  - unfold remove_node. simpl.
    destruct (Store_Delete_cases (node_key id) (ans id) (mm_store m)) as [(s & -> & Hs)|(e & ->)];
      simpl; [|done].
    rewrite Hs. intros k v e n Hk [_ Hv]%lookup_delete_Some. by apply Hst with (e := e).
Qed.

Lemma lifecycle_known s s' :
  lifecycle (Some s) (Some s') → known_state s → known_state s'.
Proof. unfold known_state. intros Hl Hs. inversion Hl; subst; auto. Qed.

Lemma heartbeat_ID i req n : node_ID (heartbeat_node i req n) = node_ID n.
Proof.
  unfold heartbeat_node, inventory_step, usage_step, recovery_step, join_step.
  by repeat case_match.
Qed.

Lemma check_ID now clock n : node_ID (pressure_step clock (timeout_step now n)) = node_ID n.
Proof. unfold pressure_step, timeout_step. by repeat case_match. Qed.

Lemma enroll_ok i m req : members_ok m → members_ok (EnrollNode i m req).1.
Proof.
  intros Hm. unfold EnrollNode.
  destruct (ValidateBootstrapToken _ _ _ _) as [token|]; [|done].
  set (nodeID := if bt_NodeID token =?s "" then _ else _).
  destruct (match mm_nodes m !! nodeID with Some _ => _ | None => false end); [done|].
  destruct (ei_cert i) as [cert|]; [|done]. cbn [fst].
  apply saveNode_ok; [by left|].
  eapply members_ok_ext; [| |apply (replace_ok m nodeID (enrolled_node nodeID (ei_now i) req))];
    unfold known_state; auto.
Qed.

Lemma stored_known m id n n' :
  members_ok m → mm_nodes m !! id = Some n → lifecycle (Some (node_State n)) (Some (node_State n')) →
  node_ID n' = node_ID n → node_ID n' = id ∧ known_state (node_State n').
Proof.
  intros Hm [Hid Hk]%(ok_node _ Hm) Hl Hid'. split; [congruence|]. by eapply lifecycle_known.
Qed.

Lemma heartbeat_ok i m req : members_ok m → members_ok (ProcessHeartbeat i m req).1.
Proof.
  intros Hm. unfold ProcessHeartbeat. destruct (mm_nodes m !! _) as [n|] eqn:Hn; [|done].
  destruct (stored_known m _ n (heartbeat_node i req n) Hm Hn (heartbeat_lifecycle i req n)
    (heartbeat_ID i req n)) as [Hid Hk].
  eapply members_ok_ext; [| |apply (saveNode_ok (hi_raft i) (m <| mm_nodes :=
    <[msg.hb_NodeId req := heartbeat_node i req n]> (mm_nodes m) |>) (heartbeat_node i req n));
    [done|by apply replace_ok]]; done.
Qed.

Lemma removeExpiredNodes_ok now ans m : members_ok m → members_ok (removeExpiredNodes now ans m).
Proof.
  unfold removeExpiredNodes. generalize ((List.filter (fun kn => expired_node now kn.2)
    (range_map (mm_nodes m))).*1). intros l. revert m.
  induction l as [|id l IH]; intros m Hm; simpl; [done|]. by apply IH, remove_node_ok.
Qed.

Lemma migrate_store m id g cs :
  mm_store (foldl (fun m c => (QueueCommand m id (stop_command g c)).1) m cs) = mm_store m.
Proof.
  revert m. induction cs as [|c cs IH]; intros m; simpl; [done|]. rewrite IH.
  unfold QueueCommand. by case_match.
Qed.

Lemma uncordoned_lifecycle n : lifecycle (Some (node_State n)) (Some (node_State (uncordoned n))).
Proof.
  unfold uncordoned. case_match eqn:Hs; simpl; [|constructor]. bool_to_prop. rewrite Hs. constructor.
Qed.

Lemma UncordonNode_eq ans m id n :
  mm_nodes m !! id = Some n →
  (UncordonNode ans m id).1 =
  (saveNode ans (m <| mm_nodes := <[id := uncordoned n]> (mm_nodes m) |>) (uncordoned n)).1.
Proof. intros Hn. unfold UncordonNode. rewrite Hn. by destruct (saveNode _ _ _). Qed.

Lemma mstep_ok m m' : members_ok m → mstep m m' → members_ok m'.
Proof.
  intros Hm.
  destruct 1 as [i req|i req|ans j m' Hd|ans j|now clock|clock|now ans|j a|j c|j g|ans|tm|s Hs].
  - by apply enroll_ok.
  - by apply heartbeat_ok.
  - apply drain_nodes in Hd as [->|(n & n' & Hn & Hs & -> & ->)]; [done|].
    apply (ok_node _ Hm) in Hn as [Hid _]. unfold known_state.
    apply saveNode_ok; [simpl; unfold known_state; auto|]. apply replace_ok; simpl; unfold known_state; auto.
  - destruct (mm_nodes m !! j) as [n|] eqn:Hn; [|unfold UncordonNode; by rewrite Hn].
    rewrite (UncordonNode_eq _ _ _ _ Hn).
    destruct (stored_known m _ n (uncordoned n) Hm Hn (uncordoned_lifecycle n)) as [Hid Hk].
    { unfold uncordoned. by case_match. }
    apply saveNode_ok; [done|]. by apply replace_ok.
  - apply map_ok; [intros; apply check_ID| |done]. intros j n. rewrite pressure_state.
    apply lifecycle_known, timeout_lifecycle.
  - by apply map_ok.
  - by apply removeExpiredNodes_ok.
  - unfold QueueAssignment. by case_match; [eapply (members_ok_ext m)|].
  - unfold QueueCommand. by case_match; [eapply (members_ok_ext m)|].
  - unfold triggerWorkloadMigration. case_match; [|done].
    eapply members_ok_ext; [apply push_commands_nodes|apply migrate_store|done].
  - apply saveNodes_ind; [|done]. intros m2 id n Hn. apply saveNode_ok.
    by apply (ok_node _ Hm) in Hn as [_ Hk].
  - by eapply (members_ok_ext m).
  - destruct Hm as [Hn Hst]. split; [done|]. intros k v e n Hk. simpl. rewrite Hs by done.
    by apply Hst.
Qed.

(** Loading keeps of the stored nodes those that can be read. *)
Lemma load_nodes_ok m now :
  (∀ k v e n, HasPrefix k "node:" = true → abs (fsm (mm_store m)) !! k = Some (v, e) →
    node_unmarshal v = Some n → k = node_key (node_ID n) ∧ known_state (node_State n)) →
  mm_nodes m = ∅ → members_ok (loadNodes now m).
Proof.
  intros Hst Hempty. split; [|done]. unfold loadNodes. simpl. rewrite Hempty, GetAll_view.
  assert (∀ kv, kv ∈ range_map (view now (abs (fsm (mm_store m)))) →
    ∃ e, abs (fsm (mm_store m)) !! kv.1 = Some (kv.2, e)) as Hin.
  { intros [k v] Hkv%elem_of_range_map. rewrite view_lookup in Hkv. unfold kv_get in Hkv.
    destruct (abs _ !! k) as [[v' e]|] eqn:Hk; [|done]. case_match; simplify_eq. eauto. }
  revert Hin. generalize (range_map (view now (abs (fsm (mm_store m))))). intros l Hin.
  set (P (nodes : gmap string NodeInfo) := ∀ id n, nodes !! id = Some n → node_ID n = id ∧ known_state (node_State n)).
  change (P (foldl load_node ∅ l)). assert (P ∅) as Hacc by by intros id n.
  revert Hacc. generalize (∅ : gmap string NodeInfo). induction l as [|[k v] l IH]; simpl; [done|].
  intros acc Hacc. apply IH; [intros kv Hkv; apply Hin; by right|].
  unfold load_node. simpl. case_match eqn:Hb; [|done]. bool_to_prop.
  destruct (node_unmarshal v) as [n|] eqn:Hv; [|done]. intros id n'. rewrite lookup_insert.
  case_decide; [|apply Hacc]. intros [= <-].
  destruct (Hin (k, v)) as [e He]; [by left|]. by destruct (Hst k v e n).
Qed.

Lemma reachable_ok m : reachable m → members_ok m.
Proof.
  induction 1 as [now s tm Hs|m m' _ IH Hstep|now tm m _ IH].
  - apply load_nodes_ok; [|done]. simpl. intros k v e n Hk Hv. by rewrite Hs in Hv.
  - by eapply mstep_ok.
  - apply load_nodes_ok; [|done]. apply IH.
Qed.

Lemma listed_all m : Manager_ListNodes m ∅ = (range_map (mm_nodes m)).*2.
Proof.
  unfold Manager_ListNodes. apply filter_all. intros n _. unfold matchesFilters.
  by rewrite range_map_empty.
Qed.

Lemma listed_NoDup m : members_ok m → NoDup (node_ID <$> Manager_ListNodes m ∅).
Proof.
  intros Hm. rewrite listed_all, <-list_fmap_compose.
  rewrite (list_fmap_ext _ fst); [apply range_map_keys|].
  intros i [id n] Hi%list_elem_of_lookup_2%elem_of_range_map. simpl. by apply (ok_node _ Hm).
Qed.

(** C8: in every manager that can be reached from a store without nodes, over
    restarts as well, each node is kept under its own identifier and is
    enrolling, ready, draining or offline: [cordoned] and [failed] never occur.
    [ListNodes] lists no identifier twice, and every operation moves every
    node along an edge of [lifecycle] or leaves its state alone. *)
Theorem membership_reachable m :
  reachable m →
  (∀ id n, mm_nodes m !! id = Some n → node_ID n = id ∧ known_state (node_State n)) ∧
  NoDup (node_ID <$> Manager_ListNodes m ∅) ∧
  (∀ m' id, mstep m m' → lifecycle (state_at m id) (state_at m' id)).
Proof.
  intros Hm%reachable_ok. split_and!; [apply Hm|by apply listed_NoDup|].
  intros m' id. apply mstep_lifecycle.
Qed.

End steps.

(** ** Concrete parts *)

(** A codec for the nodes of a table. *)
Definition table_codec (l : list NodeInfo) : NodeCodec := {|
  node_marshal n := (fun p => Nat.iter p.1 (String "x") EmptyString) <$> list_find (eq n) l;
  node_unmarshal v := l !! String.length v |}.

Lemma table_codec_laws l : @NodeCodecLaws (table_codec l).
Proof.
  split. simpl. intros n v [[i n'] [(Hi & <- & _)%list_find_Some ->]]%fmap_Some. simpl.
  replace (String.length _) with i; [done|]. clear Hi. induction i as [|i IH]; simpl; [done|by rewrite <-IH].
Qed.

(** Tokens that name their identifier. *)
Definition plain_jwt : BootstrapJWT := {|
  boot_sign _ c := Ok (tc_TokenID c);
  boot_parse _ _ s := Ok {| tc_TokenID := s; tc_NodeID := ""; tc_NodeName := ""; tc_Region := "";
    tc_Zone := ""; tc_MaxUses := 1; tc_ID := s; tc_Issuer := "cloudless-coordinator";
    tc_IssuedAt := 0; tc_ExpiresAt := 0 |} |}.

Section sample.
#[local] Existing Instance range_canonical.
#[local] Existing Instance plain_jwt.

Definition sample_request : msg.EnrollNodeRequest :=
  {| msg.en_Token := "t1"; msg.en_NodeName := "edge"; msg.en_Region := "eu"; msg.en_Zone := "a";
     msg.en_Capabilities := None;
     msg.en_Capacity := Some {| msg.CpuMillicores := 4000; msg.MemoryBytes := 8000;
       msg.StorageBytes := 100; msg.BandwidthBps := 10; msg.GpuCount := 0 |};
     msg.en_Labels := ∅ |}.

Definition sample_codec : NodeCodec := table_codec [enrolled_node "n1" 5 sample_request].
#[local] Existing Instance sample_codec.
#[local] Instance sample_codec_laws : NodeCodecLaws := table_codec_laws _.

Definition sample_tokens : BootstrapTokenManager :=
  (GenerateBootstrapToken "t1" 0 {| boot_signingKey := "k"; boot_tokens := ∅ |} "n1" "edge" "eu" "a"
     hour 1).1.

Definition sample_store : Store := {| fsm := NewFSM; is_leader := true |}.

Definition sample_inputs : EnrollInputs :=
  {| ei_parsed := 1; ei_checked := 2; ei_named := 3; ei_now := 5; ei_used := 6; ei_cert := Ok "c"%string;
     ei_ca := "ca"; ei_raft := Committed (fun _ => 7) |}.

Definition sample_enrolled : MembershipManager :=
  (EnrollNode sample_inputs (NewMembershipManager 0 sample_store sample_tokens) sample_request).1.

Lemma sample_reachable : reachable (restarted 100 sample_tokens sample_enrolled).
Proof.
  apply r_restart. eapply r_step; [apply r_fresh|apply s_enroll]. done.
Qed.

Lemma membership_reachable_witness :
  node_State <$> mm_nodes (restarted 100 sample_tokens sample_enrolled) !! "n1"%string =
    Some StateEnrolling ∧
  ∀ m' id, mstep (restarted 100 sample_tokens sample_enrolled) m' →
    lifecycle (state_at (restarted 100 sample_tokens sample_enrolled) id) (state_at m' id).
Proof.
  split; [vm_compute; reflexivity|].
  apply (membership_reachable _ sample_reachable).
Defined.

End sample.
