(* ===== verification/MembershipTiming.v ===== *)
(** * How long the membership manager takes to notice a silent node

    [monitorHealth] (manager.go) checks every node on a ticker.  A run of the
    manager in which one node sends nothing is a list of checks with other
    operations between them; the node is marked offline by the first check that
    sees its last heartbeat more than [HeartbeatTimeout] ago, and not before. *)

From S2P Require Import Prelude GoText GoFloat Node NodeHealth BootstrapTokens RaftFSM PolicyAdmission Membership MembershipSpec.

(** The period of the ticker of [monitorHealth]. *)
Definition monitorHealth_period : Z := 2 * second.

Section timing.
Context `{GoRange, NodeCodec, BootstrapJWT}.

(** Operations that are not requests of the node [id] or for it. *)
Inductive quiet (id : string) (m : MembershipManager) : MembershipManager → Prop :=
| q_enroll i req : (∀ r, (EnrollNode i m req).2 = Ok r → msg.er_NodeId r ≠ id) →
    quiet id m (EnrollNode i m req).1
| q_heartbeat i req : msg.hb_NodeId req ≠ id → quiet id m (ProcessHeartbeat i m req).1
| q_drain ans j m' : j ≠ id →
    (∃ e, DrainNode ans m j = Returns m' e) ∨ DrainNode ans m j = Blocks m' → quiet id m m'
| q_uncordon ans j : j ≠ id → quiet id m (UncordonNode ans m j).1
| q_score clock : quiet id m (update_scores clock m)
| q_remove now ans : quiet id m (removeExpiredNodes now ans m)
| q_assign j a : quiet id m (QueueAssignment m j a).1
| q_command j c : quiet id m (QueueCommand m j c).1
| q_migrate j g : quiet id m (triggerWorkloadMigration m j g).1
| q_tokens tm : quiet id m (m <| mm_tokens := tm |>)
| q_store s : quiet id m (m <| mm_store := s |>).

(** A run in which the checks happen at the given times. *)
Inductive silent_run (id : string) : MembershipManager → list Z → MembershipManager → Prop :=
| sr_end m : silent_run id m [] m
| sr_quiet m m1 m2 ts : quiet id m m1 → silent_run id m1 ts m2 → silent_run id m ts m2
| sr_check m m2 now clock ts : silent_run id (checkNodeHealth now clock m) ts m2 →
    silent_run id m (now :: ts) m2.

(** Each check is at most [p] after the one before it, the first after [t]. *)
Fixpoint spaced (p t : Z) (ts : list Z) : Prop :=
  match ts with
  | [] => True
  | t' :: ts => t ≤ t' ≤ t + p ∧ spaced p t' ts
  end.

(** What the manager knows of the presence of a node. *)
Definition presence (n : NodeInfo) : string * Z * Z * Z :=
  (node_State n, node_LastHeartbeat n, node_LeaveStartedAt n, node_LeaveConvergedAt n).

Definition presence_at (m : MembershipManager) (id : string) : option (string * Z * Z * Z) :=
  presence <$> mm_nodes m !! id.

(** ** Quiet operations *)

Lemma enroll_other i m req id :
  (∀ r, (EnrollNode i m req).2 = Ok r → msg.er_NodeId r ≠ id) →
  mm_nodes (EnrollNode i m req).1 !! id = mm_nodes m !! id.
Proof.
  unfold EnrollNode. destruct (ValidateBootstrapToken _ _ _ _) as [token|]; [|done].
  set (nodeID := if bt_NodeID token =?s "" then _ else _).
  destruct (match mm_nodes m !! nodeID with Some _ => _ | None => false end); [done|].
  destruct (ei_cert i) as [cert|]; [|done]. cbn [fst snd]. intros Hr.
  destruct (saveNode_fields (ei_raft i) (m <| mm_nodes := <[nodeID :=
    enrolled_node nodeID (ei_now i) req]> (mm_nodes m) |> <| mm_tokens := (UseToken (ei_used i)
    (mm_tokens m) (bt_ID token) nodeID).1 |>) (enrolled_node nodeID (ei_now i) req)) as [Heq _].
  etrans; [apply (f_equal (fun g => g !! id) Heq)|]. simpl.
  rewrite lookup_insert_ne; [done|]. by apply (Hr _ eq_refl).
Qed.

Lemma saved_other ans m j n id :
  j ≠ id → mm_nodes (saveNode ans (m <| mm_nodes := <[j := n]> (mm_nodes m) |>) n).1 !! id =
           mm_nodes m !! id.
Proof.
  intros Hj. destruct (saveNode_fields ans (m <| mm_nodes := <[j := n]> (mm_nodes m) |>) n) as [-> _].
  simpl. by rewrite lookup_insert_ne.
Qed.

(** They leave the node alone, or remove it when it is offline. *)
Lemma quiet_presence id m m' :
  quiet id m m' →
  presence_at m' id = presence_at m id ∨
  presence_at m' id = None ∧ state_at m id = Some StateOffline.
Proof.
  unfold presence_at, state_at.
  destruct 1 as [i req Hr|i req Hr|ans j m' Hj Hd|ans j Hj|clock|now ans|j a|j c|j g|tm|s].
  - left. by rewrite enroll_other.
  - left. unfold ProcessHeartbeat. destruct (mm_nodes m !! msg.hb_NodeId req) as [n|]; [|done].
    f_equal. by apply (saved_other (hi_raft i) m _ (heartbeat_node i req n)).
  - left. apply drain_nodes in Hd as [->|(n & n' & Hn & Hs & _ & ->)]; [done|]. by rewrite saved_other.
  - left. destruct (mm_nodes m !! j) as [n|] eqn:Hn; [|unfold UncordonNode; by rewrite Hn].
    by rewrite (UncordonNode_eq _ _ _ _ Hn), saved_other.
  - left. unfold update_scores. simpl. rewrite map_lookup_imap. by destruct (mm_nodes m !! id).
  - rewrite removeExpiredNodes_lookup. destruct (mm_nodes m !! id) as [n|]; [|by left].
    destruct (expired_node now n) eqn:He; [right|by left].
    apply andb_prop in He as [He _]. bool_to_prop. simpl. by rewrite He.
  - left. unfold QueueAssignment. by case_match.
  - left. unfold QueueCommand. by case_match.
  - left. unfold triggerWorkloadMigration. case_match; [|done]. cbn [fst].
    by rewrite push_commands_nodes.
  - by left.
  - by left.
Qed.

(** ** Checks *)

Definition check_presence (now : Z) (p : string * Z * Z * Z) : string * Z * Z * Z :=
  let '(s, h, _, _) := p in
  if (HeartbeatTimeout <? now - h) && negb (s =?s StateOffline) && negb (s =?s StateFailed)
  then (StateOffline, h, h, now) else p.

Lemma check_presence_at now clock m id :
  presence_at (checkNodeHealth now clock m) id = check_presence now <$> presence_at m id.
Proof.
  unfold presence_at, checkNodeHealth. simpl. rewrite map_lookup_imap.
  destruct (mm_nodes m !! id) as [n|]; [|done]. simpl. f_equal.
  transitivity (presence (timeout_step now n)).
  { unfold pressure_step. by repeat case_match. }
  unfold timeout_step, check_presence. rewrite time_Sub_gt by (unfold HeartbeatTimeout, second; lia).
  simpl. by destruct (HeartbeatTimeout <? _), (node_State n =?s StateOffline),
    (node_State n =?s StateFailed).
Qed.

(** The node is as it was when it fell silent. *)
Definition waiting (id s : string) (h : Z) (m : MembershipManager) : Prop :=
  ∃ ls lc, presence_at m id = Some (s, h, ls, lc).

(** The node has been marked offline, at most [d] after its last heartbeat,
    and may have been removed since. *)
Definition gone (id : string) (h d : Z) (m : MembershipManager) : Prop :=
  presence_at m id = None ∨
  ∃ lc, presence_at m id = Some (StateOffline, h, h, lc) ∧ HeartbeatTimeout < lc - h ≤ d.

Lemma state_presence m id : state_at m id = (fun p => p.1.1.1) <$> presence_at m id.
Proof. unfold state_at, presence_at. by destruct (mm_nodes m !! id). Qed.

Lemma gone_run id h d m ts m' : silent_run id m ts m' → gone id h d m → gone id h d m'.
Proof.
  induction 1 as [m|m m1 m2 ts Hq _ IH|m m2 now clock ts _ IH]; intros Hg; [done|apply IH..].
  - unfold gone in *. destruct (quiet_presence _ _ _ Hq) as [->|[-> _]]; auto.
  - unfold gone. rewrite check_presence_at. destruct Hg as [->|(lc & -> & Hlc)]; [by left|right].
    exists lc. split; [|done]. cbn. by rewrite andb_false_r.
Qed.

Lemma waiting_run id s h p m ts m' t0 :
  s ≠ StateOffline → s ≠ StateFailed →
  silent_run id m ts m' → waiting id s h m → spaced p t0 ts → t0 - h ≤ HeartbeatTimeout →
  (Forall (fun t => t - h ≤ HeartbeatTimeout) ts → waiting id s h m') ∧
  (Exists (fun t => HeartbeatTimeout < t - h) ts → gone id h (HeartbeatTimeout + p) m').
Proof.
  intros Hoff Hfail Hrun. revert t0.
  induction Hrun as [m|m m1 m2 ts Hq _ IH|m m2 now clock ts Hrun IH]; intros t0 Hw Hsp Ht0.
  - split; [done|by intros ?%Exists_nil].
  - apply (IH t0); [|done..]. destruct Hw as (ls & lc & Hw). exists ls, lc.
    destruct (quiet_presence _ _ _ Hq) as [->|[_ Hs]]; [done|].
    rewrite state_presence, Hw in Hs. simplify_eq/=.
  - destruct Hw as (ls & lc & Hw), Hsp as [Hnow Hsp].
    pose proof (check_presence_at now clock m id) as Hc. rewrite Hw in Hc. simpl in Hc.
    rewrite !bool_decide_eq_false_2 in Hc by done. simpl in Hc. rewrite !andb_true_r in Hc.
    destruct (HeartbeatTimeout <? now - h) eqn:Hto; bool_to_prop.
    + split; [intros Hall; inversion Hall; lia|intros _]. eapply gone_run; [done|].
      right. exists now. split; [done|lia].
    + destruct (IH now) as [IHw IHg]; [by exists ls, lc|done..|].
      split; [intros Hall; inversion Hall; auto|]. intros [?|?]%Exists_cons; [lia|auto].
Qed.

(** C9: a node that is not offline or failed and sends nothing keeps its state
    until a check finds its last heartbeat more than [HeartbeatTimeout] ago;
    with checks at most [p] apart it is offline from then on (or removed),
    whatever else the manager does meanwhile, and the recorded departure is
    more than [HeartbeatTimeout] and at most [HeartbeatTimeout + p] after the
    last heartbeat.  With the two second ticker that is after 10 to 12
    seconds, never within five. *)
Theorem silent_node_goes_offline id n p m ts m' :
  mm_nodes m !! id = Some n → node_State n ≠ StateOffline → node_State n ≠ StateFailed →
  silent_run id m ts m' → spaced p (node_LastHeartbeat n) ts →
  (Forall (fun t => t - node_LastHeartbeat n ≤ HeartbeatTimeout) ts →
   state_at m' id = Some (node_State n)) ∧
  (Exists (fun t => HeartbeatTimeout < t - node_LastHeartbeat n) ts →
   mm_nodes m' !! id = None ∨
   ∃ n', mm_nodes m' !! id = Some n' ∧ node_State n' = StateOffline ∧
     node_LeaveStartedAt n' = node_LastHeartbeat n ∧
     HeartbeatTimeout < node_LeaveConvergedAt n' - node_LastHeartbeat n ≤ HeartbeatTimeout + p).
Proof.
  intros Hn Hoff Hfail Hrun Hsp.
  destruct (waiting_run id (node_State n) (node_LastHeartbeat n) p m ts m' (node_LastHeartbeat n))
    as [Hw Hg]; [done..| |done|unfold HeartbeatTimeout, second; lia|].
  { unfold waiting, presence_at. rewrite Hn. by repeat eexists. }
  split.
  - intros (ls & lc & Hp)%Hw. by rewrite state_presence, Hp.
  - intros [Hp|(lc & Hp & Hlc)]%Hg; unfold presence_at in Hp.
    + left. by destruct (mm_nodes m' !! id).
    + right. destruct (mm_nodes m' !! id) as [n'|]; [|done]. simpl in Hp. exists n'.
      unfold presence in Hp. simplify_eq. split_and!; by try done; lia.
Qed.

End timing.

Section sample.
#[local] Existing Instances range_canonical plain_jwt sample_codec.

Definition sample_clock (id condition : string) : Z := 0.

Lemma silent_node_goes_offline_witness :
  let check t m := checkNodeHealth (t * second) sample_clock m in
  let m' := check 12 (check 10 (check 8 (check 6 (check 4 (check 2 sample_enrolled))))) in
  mm_nodes m' !! "n1"%string = None ∨
  ∃ n', mm_nodes m' !! "n1"%string = Some n' ∧ node_State n' = StateOffline ∧
    node_LeaveStartedAt n' = 5 ∧
    HeartbeatTimeout < node_LeaveConvergedAt n' - 5 ≤ HeartbeatTimeout + monitorHealth_period.
Proof.
  intros check m'.
  apply (silent_node_goes_offline "n1" (enrolled_node "n1" 5 sample_request) monitorHealth_period
    sample_enrolled [2 * second; 4 * second; 6 * second; 8 * second; 10 * second; 12 * second]).
  - vm_compute. reflexivity.
  - vm_compute. discriminate.
  - vm_compute. discriminate.
  - do 6 apply (sr_check _ _ _ _ sample_clock). apply sr_end.
  - vm_compute. repeat split; discriminate.
  - do 5 apply Exists_cons_tl. apply Exists_cons_hd. vm_compute. reflexivity.
Defined.

End sample.

(** ** Queued work is delivered once and in order

    [QueueAssignment] appends to the queue of a node and [ProcessHeartbeat]
    hands the whole queue over and empties it (manager.go).  Against the
    specification of a channel: what has been handed over followed by what is
    pending is what was accepted. *)

Section queues.
Context `{GoRange, NodeCodec, BootstrapJWT}.

Definition pending (m : MembershipManager) (id : string) : list msg.WorkloadAssignment :=
  default [] (mm_assignments m !! id).

(** One operation, the assignments it accepts for the node [id] and those it
    delivers to it. *)
Inductive work (id : string) (m : MembershipManager)
    : list msg.WorkloadAssignment → list msg.WorkloadAssignment → MembershipManager → Prop :=
| w_accept a m' : QueueAssignment m id a = (m', None) → work id m [a] [] m'
| w_refuse a m' e : QueueAssignment m id a = (m', Some e) → work id m [] [] m'
| w_other j a : j ≠ id → work id m [] [] (QueueAssignment m j a).1
| w_deliver i req m' r : msg.hb_NodeId req = id → ProcessHeartbeat i m req = (m', Ok r) →
    work id m [] (msg.hr_Assignments r) m'
| w_unknown i req m' e : ProcessHeartbeat i m req = (m', Err e) → work id m [] [] m'
| w_beat i req : msg.hb_NodeId req ≠ id → work id m [] [] (ProcessHeartbeat i m req).1
| w_enroll i req : work id m [] [] (EnrollNode i m req).1
| w_drain ans j m' : (∃ e, DrainNode ans m j = Returns m' e) ∨ DrainNode ans m j = Blocks m' →
    work id m [] [] m'
| w_uncordon ans j : work id m [] [] (UncordonNode ans m j).1
| w_check now clock : work id m [] [] (checkNodeHealth now clock m)
| w_score clock : work id m [] [] (update_scores clock m)
| w_remove now ans : work id m [] [] (removeExpiredNodes now ans m)
| w_command j c : work id m [] [] (QueueCommand m j c).1
| w_migrate j g : work id m [] [] (triggerWorkloadMigration m j g).1
| w_save ans : work id m [] [] (saveNodes ans m)
| w_tokens tm : work id m [] [] (m <| mm_tokens := tm |>)
| w_store s : work id m [] [] (m <| mm_store := s |>).

Inductive works (id : string)
    : MembershipManager → list msg.WorkloadAssignment → list msg.WorkloadAssignment →
      MembershipManager → Prop :=
| ws_end m : works id m [] [] m
| ws_step m acc del m1 acc' del' m' : work id m acc del m1 → works id m1 acc' del' m' →
    works id m (acc ++ acc') (del ++ del') m'.

(** ** Operations that do not touch the queues *)

Lemma saveNode_assignments ans m n : mm_assignments (saveNode ans m n).1 = mm_assignments m.
Proof. apply saveNode_fields. Qed.

Lemma enroll_assignments i m req : mm_assignments (EnrollNode i m req).1 = mm_assignments m.
Proof.
  unfold EnrollNode. destruct (ValidateBootstrapToken _ _ _ _) as [token|]; [|done].
  set (nodeID := if bt_NodeID token =?s "" then _ else _).
  destruct (match mm_nodes m !! nodeID with Some _ => _ | None => false end); [done|].
  destruct (ei_cert i) as [cert|]; [|done]. cbn [fst]. by rewrite saveNode_assignments.
Qed.

Lemma remove_assignments ans m l :
  mm_assignments (foldl (remove_node ans) m l) = mm_assignments m.
Proof.
  revert m. induction l as [|id l IH]; intros m; simpl; [done|]. rewrite IH.
  unfold remove_node. by repeat case_match.
Qed.

Lemma migrate_assignments m id g cs :
  mm_assignments (foldl (fun m c => (QueueCommand m id (stop_command g c)).1) m cs) =
  mm_assignments m.
Proof.
  revert m. induction cs as [|c cs IH]; intros m; simpl; [done|]. rewrite IH.
  unfold QueueCommand. by case_match.
Qed.

Lemma heartbeat_assignments i m req :
  mm_assignments (ProcessHeartbeat i m req).1 =
    match mm_nodes m !! msg.hb_NodeId req with
    | Some _ => delete (msg.hb_NodeId req) (mm_assignments m)
    | None => mm_assignments m
    end ∧
  ∀ r, (ProcessHeartbeat i m req).2 = Ok r → msg.hr_Assignments r = pending m (msg.hb_NodeId req).
Proof.
  unfold ProcessHeartbeat. destruct (mm_nodes m !! _) as [n|]; [|by split; [|intros r [=]]].
  cbn [fst snd]. split; [|intros r [= <-]]; simpl; by rewrite saveNode_assignments.
Qed.

Lemma pending_delete m m' id j :
  mm_assignments m' = delete j (mm_assignments m) →
  pending m' id = if decide (id = j) then [] else pending m id.
Proof.
  unfold pending. intros ->. rewrite lookup_delete. by do 2 case_decide; subst.
Qed.

Lemma pending_push m m' id j a :
  mm_assignments m' = push j a (mm_assignments m) →
  pending m' id = if decide (id = j) then pending m id ++ [a] else pending m id.
Proof.
  unfold pending, push. intros ->. rewrite lookup_insert. by do 2 case_decide; subst.
Qed.

Lemma work_pending id m acc del m' :
  work id m acc del m' → del ++ pending m' id = pending m id ++ acc.
Proof.
  assert (∀ m', mm_assignments m' = mm_assignments m → pending m' id = pending m id ++ []) as Hsame.
  { intros m2 Heq. unfold pending. by rewrite Heq, app_nil_r. }
  destruct 1 as [a m' Hq|a m' e Hq|j a Hj|i req m' r Hid Hb|i req m' e Hb|i req Hid|i req
    |ans j m' Hd|ans j|now clock|clock|now ans|j c|j g|ans|tm|s]; simpl.
  - unfold QueueAssignment in Hq. case_match; simplify_eq.
    erewrite pending_push by done. by rewrite decide_True.
  - apply Hsame. unfold QueueAssignment in Hq. by case_match; simplify_eq.
  - unfold QueueAssignment. case_match; [|by apply Hsame].
    erewrite pending_push by done. by rewrite decide_False, app_nil_r.
  - destruct (heartbeat_assignments i m req) as [Hm Hr]. rewrite Hb in Hm, Hr.
    rewrite (Hr r eq_refl), Hid, app_nil_r. unfold ProcessHeartbeat in Hb.
    destruct (mm_nodes m !! _); [|done]. rewrite (pending_delete m m' id _ Hm), Hid.
    by rewrite decide_True, app_nil_r.
  - apply Hsame. unfold ProcessHeartbeat in Hb. by case_match; simplify_eq.
  - destruct (heartbeat_assignments i m req) as [Hm _]. case_match; [|by apply Hsame].
    rewrite (pending_delete m _ id _ Hm), decide_False, app_nil_r; done.
  - apply Hsame, enroll_assignments.
  - apply Hsame. apply drain_nodes in Hd as [->|(n & n' & _ & _ & _ & ->)]; [done|].
    by rewrite saveNode_assignments.
  - apply Hsame. destruct (mm_nodes m !! j) as [n|] eqn:Hn; [|unfold UncordonNode; by rewrite Hn].
    by rewrite (UncordonNode_eq _ _ _ _ Hn), saveNode_assignments.
  - by apply Hsame.
  - by apply Hsame.
  - apply Hsame, remove_assignments.
  - apply Hsame. unfold QueueCommand. by case_match.
  - apply Hsame. unfold triggerWorkloadMigration. case_match; [|done]. apply migrate_assignments.
  - apply Hsame. apply (saveNodes_ind (fun m' => mm_assignments m' = mm_assignments m)); [|done].
    intros m' j n _ <-. apply saveNode_assignments.
  - by apply Hsame.
  - by apply Hsame.
Qed.

(** C10: while a manager runs, what a node has been handed over by heartbeats
    followed by what is pending for it is what was pending at the start
    followed by what was accepted: every accepted assignment is delivered at
    most once, in the order of acceptance, and none is lost, whatever becomes
    of the node in between; a heartbeat that is answered leaves nothing
    pending. *)
Theorem assignments_delivered_once id m acc del m' :
  works id m acc del m' →
  del ++ pending m' id = pending m id ++ acc ∧
  GetPendingAssignmentCount m' id = len (pending m id) + len acc - len del ∧
  ∀ i req m2 r, msg.hb_NodeId req = id → ProcessHeartbeat i m' req = (m2, Ok r) →
    GetPendingAssignmentCount m2 id = 0 ∧ del ++ msg.hr_Assignments r = pending m id ++ acc.
Proof.
  intros Hw. assert (del ++ pending m' id = pending m id ++ acc) as Heq.
  { induction Hw as [m|m acc del m1 acc' del' m' Hw _ IH]; [by rewrite app_nil_r|].
    apply work_pending in Hw. by rewrite <-app_assoc, IH, !app_assoc, Hw. }
  split; [done|]. split.
  - apply (f_equal len) in Heq. unfold len in *. rewrite !length_app in Heq.
    unfold GetPendingAssignmentCount, len. fold (pending m' id). lia.
  - intros i req m2 r Hid Hb. apply (w_deliver id m' i req m2 r Hid) in Hb as Hd.
    apply work_pending in Hd. destruct (heartbeat_assignments i m' req) as [_ Hr].
    rewrite Hb in Hr. rewrite (Hr r eq_refl), Hid, app_nil_r in *. split; [|done].
    unfold GetPendingAssignmentCount. fold (pending m2 id).
    rewrite <-(app_nil_r (pending m' id)) in Hd at 2. by apply app_inv_head in Hd as ->.
Qed.

End queues.

Section sample.
#[local] Existing Instances range_canonical plain_jwt sample_codec.

Definition sample_assignment (f : string) : msg.WorkloadAssignment :=
  {| msg.wa_FragmentId := f; msg.wa_Workload := rooted; msg.wa_Action := "run" |}.

Definition sample_beat (now : Z) : HeartbeatInputs :=
  {| hi_now := now; hi_joined := now; hi_since := now; hi_transition := now;
     hi_raft := Committed (fun _ => now) |}.

Definition sample_ping : msg.HeartbeatRequest :=
  {| msg.hb_NodeId := "n1"; msg.hb_Capacity := None; msg.hb_Usage := None; msg.hb_Fragments := None;
     msg.hb_Containers := None; msg.hb_ContainerHealth := [] |}.

Lemma assignments_delivered_once_witness :
  let m1 := (QueueAssignment sample_enrolled "n1" (sample_assignment "f1")).1 in
  let m2 := (QueueAssignment m1 "n1" (sample_assignment "f2")).1 in
  let m3 := (ProcessHeartbeat (sample_beat 9) m2 sample_ping).1 in
  let m4 := (QueueAssignment m3 "n1" (sample_assignment "f3")).1 in
  GetPendingAssignmentCount m4 "n1" = 0 + 3 - 2 ∧
  [sample_assignment "f1"; sample_assignment "f2"] ++ pending m4 "n1" =
    [sample_assignment "f1"; sample_assignment "f2"; sample_assignment "f3"].
Proof.
  intros m1 m2 m3 m4.
  destruct (assignments_delivered_once "n1" sample_enrolled
    [sample_assignment "f1"; sample_assignment "f2"; sample_assignment "f3"]
    [sample_assignment "f1"; sample_assignment "f2"] m4) as (Heq & Hc & _); [|by split].
  apply (ws_step _ _ [_] [] m1); [by apply w_accept|].
  apply (ws_step _ _ [_] [] m2); [by apply w_accept|].
  apply (ws_step _ _ [] [_; _] m3).
  { apply (w_deliver _ _ (sample_beat 9) sample_ping m3 {| msg.hr_Assignments :=
      [sample_assignment "f1"; sample_assignment "f2"]; msg.hr_ContainersToStop := [];
      msg.hr_NextHeartbeat := DefaultHeartbeatInterval |}); vm_compute; reflexivity. }
  apply (ws_step _ _ [_] [] m4); [by apply w_accept|apply ws_end].
Defined.

End sample.
