(* ===== verification/Enrollment.v ===== *)
(** * How often a bootstrap token enrolls

    The bootstrap tokens (pkg/mtls/token.go) as the membership manager uses
    them: over any run of enrollments and token operations a token admits at
    most the uses it has left, none after it is revoked, used up, removed or
    expired. *)

From S2P Require Import Prelude GoText GoFloat Node NodeHealth BootstrapTokens RaftFSM PolicyAdmission Membership MembershipSpec.

Section enrollment.
Context `{GoRange, NodeCodec, BootstrapJWT}.

(** Every token is kept under its own identifier, with counters an [int]
    holds. *)
Definition tokens_ok (tm : BootstrapTokenManager) : Prop :=
  ∀ t tok, boot_tokens tm !! t = Some tok →
    bt_ID tok = t ∧ 0 ≤ bt_UseCount tok ∧ 0 < bt_MaxUses tok < 2 ^ 63.

(** The uses a token has left. *)
Definition uses_left (tm : BootstrapTokenManager) (t : string) : Z :=
  match boot_tokens tm !! t with
  | Some tok => Z.max 0 (bt_MaxUses tok - bt_UseCount tok)
  | None => 0
  end.

(** The token a string stands for. *)
Definition names (i : EnrollInputs) (m : MembershipManager) (s t : string) : Prop :=
  ∃ claims, boot_parse (ei_parsed i) (boot_signingKey (mm_tokens m)) s = Ok claims ∧
    tc_TokenID claims = t.

(** An enrollment by the token [t], in a manager and with its inputs. *)
Record use := {
  use_inputs : EnrollInputs;
  use_manager : MembershipManager;
  use_response : msg.EnrollNodeResponse
}.

(** One operation and the enrollments by [t] it makes; a new token has an
    identifier of its own, from [uuid.New]. *)
Inductive tstep (t : string) (m : MembershipManager) : list use → MembershipManager → Prop :=
| t_enroll i req m' r : names i m (msg.en_Token req) t → EnrollNode i m req = (m', Ok r) →
    tstep t m [{| use_inputs := i; use_manager := m; use_response := r |}] m'
| t_refused i req m' e : EnrollNode i m req = (m', Err e) → tstep t m [] m'
| t_other i req : ¬ names i m (msg.en_Token req) t → tstep t m [] (EnrollNode i m req).1
| t_generate id now node name region zone d u : id ≠ t → u < 2 ^ 63 →
    tstep t m [] (m <| mm_tokens :=
      (GenerateBootstrapToken id now (mm_tokens m) node name region zone d u).1 |>)
| t_revoke id : tstep t m [] (m <| mm_tokens := (RevokeBootstrapToken (mm_tokens m) id).1 |>)
| t_cleanup now : tstep t m [] (m <| mm_tokens := (CleanupBootstrapTokens now (mm_tokens m)).1 |>)
| t_rest m' : mm_tokens m' = mm_tokens m → tstep t m [] m'.

Inductive truns (t : string) : MembershipManager → list use → MembershipManager → Prop :=
| tr_end m : truns t m [] m
| tr_step m us m1 us' m' : tstep t m us m1 → truns t m1 us' m' → truns t m (us ++ us') m'.

(** ** Token operations *)

(** A successful validation is of a stored token with uses left. *)
Lemma validate_ok p c tm s tok :
  tokens_ok tm → ValidateBootstrapToken p c tm s = Ok tok →
  ∃ claims, boot_parse p (boot_signingKey tm) s = Ok claims ∧ bt_ID tok = tc_TokenID claims ∧
    0 < uses_left tm (bt_ID tok) ∧
    ∃ stored, boot_tokens tm !! bt_ID tok = Some stored ∧ c ≤ bt_ExpiresAt stored.
Proof.
  intros Hok. unfold ValidateBootstrapToken, uses_left.
  destruct (boot_parse p _ s) as [claims|]; [|done].
  destruct (boot_tokens tm !! tc_TokenID claims) as [stored|] eqn:Hs; [|done].
  do 2 (case_match; [done|]). intros [= <-]. simpl. bool_to_prop.
  destruct (Hok _ _ Hs) as [-> _]. exists claims. rewrite Hs. split_and!; [done..|lia|]. eauto.
Qed.

(** A use takes one of the uses left of its token and none of another's. *)
Lemma UseToken_left now tm id by_ t :
  tokens_ok tm → 0 < uses_left tm id →
  let tm' := (UseToken now tm id by_).1 in
  tokens_ok tm' ∧ uses_left tm' t = uses_left tm t - (if decide (t = id) then 1 else 0).
Proof.
  intros Hok Hleft. unfold UseToken, uses_left in *.
  destruct (boot_tokens tm !! id) as [tok|] eqn:Htok; [|lia].
  destruct (Hok _ _ Htok) as (Hid & Hc & Hm).
  destruct (bt_MaxUses tok <=? bt_UseCount tok) eqn:Hu; bool_to_prop; [lia|]. simpl.
  rewrite (int64_id (bt_UseCount tok + 1)) by (unfold in_int64; lia). split.
  - intros t' tok'. simpl. rewrite lookup_insert. case_decide; [|apply Hok]. subst t'.
    intros [= <-]. simpl. split_and!; [done|lia..].
  - rewrite lookup_insert. destruct (decide (id = t)) as [<-|Hne].
    + rewrite decide_True, Htok by done. simpl. lia.
    + rewrite decide_False by done. lia.
Qed.

Lemma revoke_left tm id t :
  tokens_ok tm → tokens_ok (RevokeBootstrapToken tm id).1 ∧
  uses_left (RevokeBootstrapToken tm id).1 t = if decide (t = id) then 0 else uses_left tm t.
Proof.
  intros Hok. unfold RevokeBootstrapToken, uses_left.
  destruct (boot_tokens tm !! id) as [tok|] eqn:Htok.
  - destruct (Hok _ _ Htok) as (Hid & Hc & Hm). split.
    + intros t' tok'. simpl. rewrite lookup_insert. case_decide; [|apply Hok]. subst t'.
      intros [= <-]. simpl. split_and!; [done|lia..].
    + simpl. rewrite lookup_insert. do 2 case_decide; try congruence. simpl. lia.
  - split; [done|]. simpl. case_decide; [|done]. subst. by rewrite Htok.
Qed.

Lemma generate_left id now tm node name region zone d u t :
  id ≠ t → u < 2 ^ 63 → tokens_ok tm →
  let tm' := (GenerateBootstrapToken id now tm node name region zone d u).1 in
  tokens_ok tm' ∧ uses_left tm' t = uses_left tm t.
Proof.
  intros Hne Hu Hok. unfold GenerateBootstrapToken, uses_left.
  destruct (boot_sign _ _) as [s|]; [|done]. simpl. split; [|by rewrite lookup_insert_ne].
  intros t' tok. simpl. rewrite lookup_insert. case_decide; [|apply Hok]. subst t'.
  intros [= <-]. simpl. case_match; bool_to_prop; split_and!; done || lia.
Qed.

(** The loop of [CleanupExpiredTokens] only deletes. *)
Lemma cleanup_left now tm t :
  tokens_ok tm → tokens_ok (CleanupBootstrapTokens now tm).1 ∧
  uses_left (CleanupBootstrapTokens now tm).1 t ≤ uses_left tm t.
Proof.
  unfold CleanupBootstrapTokens. generalize (range_map (boot_tokens tm)) 0. intros l z. revert tm z.
  induction l as [|[k tok] l IH]; intros tm z Hok; simpl; [by split|].
  destruct (boot_removable now tok); [|by apply IH].
  destruct (IH (with_boot_tokens tm (delete k (boot_tokens tm))) (int64 (z + 1))) as [Hok' Hle].
  { intros t' tok' Htok. simpl in Htok. apply lookup_delete_Some in Htok as [_ Htok]. by apply Hok. }
  split; [done|]. etrans; [exact Hle|]. unfold uses_left. simpl. rewrite lookup_delete.
  case_decide; [|done]. case_match; lia.
Qed.

(** ** Enrollments *)

Lemma saveNode_tokens ans m n : mm_tokens (saveNode ans m n).1 = mm_tokens m.
Proof. apply saveNode_fields. Qed.

(** An enrollment uses its token once; a refused one uses nothing. *)
Lemma enroll_tokens i m req :
  tokens_ok (mm_tokens m) →
  match (EnrollNode i m req).2 with
  | Ok r => ∃ tok, ValidateBootstrapToken (ei_parsed i) (ei_checked i) (mm_tokens m)
                     (msg.en_Token req) = Ok tok ∧
              mm_tokens (EnrollNode i m req).1 =
                (UseToken (ei_used i) (mm_tokens m) (bt_ID tok) (msg.er_NodeId r)).1
  | Err _ => mm_tokens (EnrollNode i m req).1 = mm_tokens m
  end.
Proof.
  intros Hok. unfold EnrollNode. destruct (ValidateBootstrapToken _ _ _ _) as [tok|] eqn:Hv; [|done].
  set (nodeID := if bt_NodeID tok =?s "" then _ else _).
  destruct (match mm_nodes m !! nodeID with Some _ => _ | None => false end); [done|].
  destruct (ei_cert i) as [cert|]; [|done]. cbn [fst snd]. exists tok. split; [done|].
  by rewrite saveNode_tokens.
Qed.

Lemma tstep_left t m us m' :
  tokens_ok (mm_tokens m) → tstep t m us m' →
  tokens_ok (mm_tokens m') ∧ uses_left (mm_tokens m') t + len us ≤ uses_left (mm_tokens m) t.
Proof.
  intros Hok.
  destruct 1 as [i req m' r (claims & Hp & Ht) He|i req m' e He|i req Hn|id now node name region
    zone d u Hid Hu|id|now|m' ->]; try rewrite Z.add_0_r; simpl.
  - pose proof (enroll_tokens i m req Hok) as Hen. rewrite He in Hen. destruct Hen as (tok & Hv & Htm).
    apply (validate_ok _ _ _ _ _ Hok) in Hv as (claims' & Hp' & Hid & Hleft & _). simpl in Htm. rewrite Htm.
    destruct (UseToken_left (ei_used i) (mm_tokens m) (bt_ID tok) (msg.er_NodeId r) t Hok Hleft)
      as [Hok' ->]. split; [done|]. rewrite decide_True by congruence. unfold len. simpl. lia.
  - pose proof (enroll_tokens i m req Hok) as Hen. rewrite He in Hen. simpl in Hen. rewrite Hen.
    split; [done|]. unfold len. simpl. lia.
  - pose proof (enroll_tokens i m req Hok) as Hen.
    destruct (EnrollNode i m req) as [m' [r|e]]; simpl in *; [|rewrite Hen; split; [done|unfold len; simpl; lia]].
    destruct Hen as (tok & Hv & ->).
    apply (validate_ok _ _ _ _ _ Hok) in Hv as (claims & Hp & Hid & Hleft & _).
    destruct (UseToken_left (ei_used i) (mm_tokens m) (bt_ID tok) (msg.er_NodeId r) t Hok Hleft)
      as [Hok' ->]. split; [done|]. case_decide; unfold len; simpl; lia.
  - destruct (generate_left id now (mm_tokens m) node name region zone d u t Hid Hu Hok) as [? ->].
    split; [done|]. unfold len. simpl. lia.
  - destruct (revoke_left (mm_tokens m) id t Hok) as [? ->]. split; [done|].
    unfold len, uses_left. simpl. repeat case_match; lia.
  - destruct (cleanup_left now (mm_tokens m) t Hok). split; [done|]. unfold len. simpl. lia.
  - split; [done|]. unfold len. simpl. lia.
Qed.

Lemma truns_left t m us m' :
  tokens_ok (mm_tokens m) → truns t m us m' →
  tokens_ok (mm_tokens m') ∧ uses_left (mm_tokens m') t + len us ≤ uses_left (mm_tokens m) t.
Proof.
  intros Hok Hrun. revert Hok. induction Hrun as [m|m us m1 us' m' Hs _ IH]; intros Hok.
  - split; [done|]. unfold len. simpl. lia.
  - destruct (tstep_left t m us m1 Hok Hs) as [Hok1 Hle]. destruct (IH Hok1) as [? ?].
    split; [done|]. unfold len in *. rewrite length_app. lia.
Qed.

(** The moment of every use is not after the expiry of the token. *)
Definition in_time (t : string) (u : use) : Prop :=
  ∃ tok, boot_tokens (mm_tokens (use_manager u)) !! t = Some tok ∧
    ei_checked (use_inputs u) ≤ bt_ExpiresAt tok.

Lemma tstep_in_time t m us m' :
  tokens_ok (mm_tokens m) → tstep t m us m' → Forall (in_time t) us.
Proof.
  intros Hok. destruct 1 as [i req m' r (claims & Hp & Ht) He| | | | | |]; [|constructor..].
  pose proof (enroll_tokens i m req Hok) as Hen. rewrite He in Hen. destruct Hen as (tok & Hv & _).
  apply (validate_ok _ _ _ _ _ Hok) in Hv as (claims' & Hp' & Hid & _ & stored & Hst & Hexp).
  constructor; [|constructor]. exists stored. split; [|done]. simpl. by replace t with (bt_ID tok) by congruence.
Qed.

Lemma uses_left_nonneg tm t : 0 ≤ uses_left tm t.
Proof. unfold uses_left. case_match; lia. Qed.

(** C11: a bootstrap token enrolls at most as many nodes as it has uses left,
    whatever enrollments, new tokens, revocations and clean-ups come in
    between; each of them no later than its expiry; and none at all once it
    has been revoked.  A token that [GenerateToken] has just made has
    [maxUses] uses left, one when none are asked for. *)
Theorem enrollments_bounded t m us m' :
  tokens_ok (mm_tokens m) → truns t m us m' →
  len us ≤ uses_left (mm_tokens m) t ∧ Forall (in_time t) us ∧
  (∀ us2 m2, truns t (m' <| mm_tokens := (RevokeBootstrapToken (mm_tokens m') t).1 |>) us2 m2 →
     us2 = []) ∧
  (∀ now node name region zone d u tok tm',
     GenerateBootstrapToken t now (mm_tokens m) node name region zone d u = (tm', Ok tok) →
     uses_left tm' t = if u <=? 0 then 1 else u).
Proof.
  intros Hok Hrun. destruct (truns_left t m us m' Hok Hrun) as [Hok' Hle]. split_and!.
  - pose proof (uses_left_nonneg (mm_tokens m') t). lia.
  - clear Hok' Hle. revert Hok. induction Hrun as [m|m us m1 us' m' Hs _ IH]; intros Hok; [done|].
    apply Forall_app. split; [by eapply tstep_in_time|]. apply IH. by eapply tstep_left.
  - intros us2 m2 Hrun2. destruct (revoke_left (mm_tokens m') t t Hok') as [Hok2 Hl].
    apply truns_left in Hrun2 as [_ Hle2]; [|exact Hok2]. simpl in Hle2.
    rewrite Hl, decide_True in Hle2 by done. pose proof (uses_left_nonneg (mm_tokens m2) t).
    unfold len in Hle2. destruct us2; [done|]. simpl in Hle2. lia.
  - intros now node name region zone d u tok tm'. unfold GenerateBootstrapToken.
    destruct (boot_sign _ _); [|done]. intros [= <- _]. unfold uses_left. simpl.
    rewrite lookup_insert_eq. simpl. case_match; bool_to_prop; lia.
Qed.

End enrollment.

Section sample.
#[local] Existing Instances range_canonical plain_jwt sample_codec.

Lemma sample_tokens_ok : tokens_ok sample_tokens.
Proof.
  intros t tok. unfold sample_tokens. simpl. rewrite lookup_insert, lookup_empty.
  case_decide; [|done]. subst. intros [= <-]. repeat split; vm_compute; reflexivity || discriminate.
Qed.

(** The sample token is used up by the sample enrollment. *)
Lemma enrollments_bounded_witness :
  let m := NewMembershipManager 0 sample_store sample_tokens in
  (EnrollNode sample_inputs m sample_request).2 =
    Ok {| msg.er_NodeId := "n1"; msg.er_Certificate := "c"; msg.er_CaCertificate := "ca";
          msg.er_HeartbeatInterval := DefaultHeartbeatInterval |} ∧
  len [sample_inputs] ≤ uses_left sample_tokens "t1" ∧
  (EnrollNode sample_inputs sample_enrolled sample_request).2 =
    Err "invalid token: token has reached maximum uses (1/1)"%string.
Proof.
  intros m. split; [vm_compute; reflexivity|]. split; [|vm_compute; reflexivity].
  destruct (enrollments_bounded "t1" m [{| use_inputs := sample_inputs; use_manager := m;
    use_response := {| msg.er_NodeId := "n1"; msg.er_Certificate := "c"; msg.er_CaCertificate := "ca";
      msg.er_HeartbeatInterval := DefaultHeartbeatInterval |} |}] sample_enrolled) as [Hle _].
  - exact sample_tokens_ok.
  - apply (tr_step _ _ [_] sample_enrolled []); [|apply tr_end].
    apply (t_enroll _ _ sample_inputs sample_request); [eexists; split; reflexivity|].
    vm_compute. reflexivity.
  - exact Hle.
Defined.

End sample.
