(* ===== verification/MembershipLocks.v ===== *)
(** * The locks of the membership manager

    The manager guards its nodes with [mu] and its queues with [assignmentMu],
    both [sync.RWMutex] (manager.go).  Each method is the sequence of its lock
    actions; goroutines interleave them under the rules of [sync.RWMutex]: a
    waiting writer keeps new readers out, and neither kind of lock can be taken
    again by the goroutine that holds the write lock. *)

From S2P Require Import Prelude GoText GoFloat Node NodeHealth BootstrapTokens RaftFSM PolicyAdmission Membership MembershipSpec.

(** ** sync.RWMutex *)

Inductive lock_id : Set := mu | assignmentMu.

#[export] Instance lock_id_eq_dec : EqDecision lock_id.
Proof. solve_decision. Defined.

Inductive act : Set :=
| Lock (l : lock_id)
| Unlock (l : lock_id)
| RLock (l : lock_id)
| RUnlock (l : lock_id).

(** The goroutine that holds the write lock, the number of read locks, the
    goroutines that wait to write. *)
Record rwmutex := {
  rw_writer : option nat;
  rw_readers : nat;
  rw_waiting : list nat
}.

#[export] Instance eta_rwmutex : Eta rwmutex := fun r =>
  Build_rwmutex (rw_writer r) (rw_readers r) (rw_waiting r).

(** The locks, and what each goroutine has left to do. *)
Record conf := { locks : lock_id → rwmutex; threads : list (list act) }.

Definition set_lock (l : lock_id) (r : rwmutex) (c : conf) : conf :=
  {| locks := fun l' => if decide (l' = l) then r else locks c l'; threads := threads c |}.

Definition set_thread (i : nat) (p : list act) (c : conf) : conf :=
  {| locks := locks c; threads := <[i := p]> (threads c) |}.

Inductive lstep (c : conf) : conf → Prop :=
| l_rlock i l p : threads c !! i = Some (RLock l :: p) → rw_writer (locks c l) = None →
    rw_waiting (locks c l) = [] →
    lstep c (set_thread i p (set_lock l
      ((locks c l) <| rw_readers := S (rw_readers (locks c l)) |>) c))
| l_runlock i l p n : threads c !! i = Some (RUnlock l :: p) → rw_readers (locks c l) = S n →
    lstep c (set_thread i p (set_lock l ((locks c l) <| rw_readers := n |>) c))
| l_wait i l p : threads c !! i = Some (Lock l :: p) → i ∉ rw_waiting (locks c l) →
    lstep c (set_lock l ((locks c l) <| rw_waiting := rw_waiting (locks c l) ++ [i] |>) c)
| l_lock i l p : threads c !! i = Some (Lock l :: p) → i ∈ rw_waiting (locks c l) →
    rw_writer (locks c l) = None → rw_readers (locks c l) = 0%nat →
    lstep c (set_thread i p (set_lock l {| rw_writer := Some i; rw_readers := 0;
      rw_waiting := List.filter (fun j => negb (Nat.eqb i j)) (rw_waiting (locks c l)) |} c))
| l_unlock i l p : threads c !! i = Some (Unlock l :: p) → rw_writer (locks c l) = Some i →
    lstep c (set_thread i p (set_lock l ((locks c l) <| rw_writer := None |>) c)).

Abbreviation lsteps := (rtc lstep).

Definition initial (ps : list (list act)) : conf :=
  {| locks := fun _ => {| rw_writer := None; rw_readers := 0; rw_waiting := [] |}; threads := ps |}.

(** ** The methods *)

(** [EnrollNode], [UncordonNode], [checkNodeHealth], [removeExpiredNodes], a
    tick of [updateReliabilityScores], and the refusals of [ProcessHeartbeat]. *)
Definition writer_locks : list act := [Lock mu; Unlock mu].

(** [GetNode], [ListNodes], [GetActiveNodeCount], [GetClusterStatus]. *)
Definition reader_locks : list act := [RLock mu; RUnlock mu].

Definition ProcessHeartbeat_locks : list act :=
  [Lock mu; Lock assignmentMu; Unlock assignmentMu; Unlock mu].

(** [QueueAssignment] and [QueueCommand]. *)
Definition Queue_locks : list act :=
  [Lock assignmentMu; RLock mu; RUnlock mu; Unlock assignmentMu].

Definition GetPendingAssignmentCount_locks : list act :=
  [RLock assignmentMu; RUnlock assignmentMu].

(** [triggerWorkloadMigration] on a node with [n] containers. *)
Definition triggerWorkloadMigration_locks (n : nat) : list act :=
  [RLock mu; RUnlock mu] ++ concat (replicate n Queue_locks).

Section drain.
Context `{GoRange, NodeCodec, BootstrapJWT}.

(** [DrainNode] by the way it takes. *)
Definition DrainNode_locks (ans : raft_answer) (m : MembershipManager) (id : string) : list act :=
  match DrainNode ans m id with
  | Returns _ _ => [Lock mu; Unlock mu]
  | Blocks m' =>
      [Lock mu] ++
      triggerWorkloadMigration_locks
        (match mm_nodes m' !! id with Some n => length (node_Containers n) | None => 0 end) ++
      [Unlock mu]
  end.

(** ** Blocking *)

(** Goroutine [i] holds [mu] and waits to read-lock it. *)
Definition stuck_on_mu (i : nat) (c : conf) : Prop :=
  rw_writer (locks c mu) = Some i ∧ ∃ p, threads c !! i = Some (RLock mu :: p).

(** It stays that way whatever the others do. *)
Lemma stuck_step i c c' : stuck_on_mu i c → lstep c c' → stuck_on_mu i c'.
Proof.
  intros [Hw (p & Hp)]. unfold stuck_on_mu.
  destruct 1 as [j l q Hq Hn Hwait|j l q n Hq Hn|j l q Hq Hwait|j l q Hq Hwait Hn Hr|j l q Hq Hn];
    destruct l; simpl in *; try congruence;
    (destruct (decide (j = i)) as [->|Hj]; [simplify_eq/=|]);
    split; try (rewrite list_lookup_insert_ne by done); eauto.
Qed.

Lemma stuck_steps i c c' : stuck_on_mu i c → lsteps c c' → stuck_on_mu i c'.
Proof. intros Hs Hc. revert Hs. induction Hc; eauto using stuck_step. Qed.

Definition takes_mu (a : act) : bool :=
  match a with Lock mu | RLock mu => true | _ => false end.

(** A goroutine that has yet to take [mu]. *)
Definition needs_mu (j : nat) (c : conf) : Prop :=
  ∃ p, threads c !! j = Some p ∧ existsb takes_mu p = true.

Lemma needs_mu_step i j c c' :
  stuck_on_mu i c → needs_mu j c → lstep c c' → needs_mu j c'.
Proof.
  intros [Hw _] (p & Hp & Hb) Hc. unfold needs_mu.
  assert (∀ k a q, threads c !! k = Some (a :: q) → takes_mu a = false →
    ∃ p', <[k := q]> (threads c) !! j = Some p' ∧ existsb takes_mu p' = true) as Hskip.
  { intros k a q Hk Ha. destruct (decide (k = j)) as [->|Hne].
    - rewrite list_lookup_insert_eq by (by eapply lookup_lt_Some). exists q. simplify_eq/=.
      by rewrite Ha in Hb.
    - rewrite list_lookup_insert_ne by done. eauto. }
  destruct Hc as [k [] q Hq Hn Hwait|k l q n Hq Hn|k l q Hq Hwait|k [] q Hq Hwait Hn Hr|k l q Hq Hn];
    simpl; (congruence || (by eapply Hskip) || eauto).
Qed.

Lemma needs_mu_steps i j c c' :
  stuck_on_mu i c → needs_mu j c → lsteps c c' → needs_mu j c'.
Proof. intros Hs Hn Hc. revert Hs Hn. induction Hc; eauto using needs_mu_step, stuck_step. Qed.

(** A goroutine that takes [mu] to write and then to read never gets past. *)
Lemma relock_never_returns i ps p c :
  ps !! i = Some (Lock mu :: RLock mu :: p) → lsteps (initial ps) c →
  stuck_on_mu i c ∨
  rw_writer (locks c mu) ≠ Some i ∧ threads c !! i = Some (Lock mu :: RLock mu :: p).
Proof.
  intros Hp Hc. apply rtc_nsteps_1 in Hc as [n Hc]. revert c Hc.
  induction n as [|n IH]; intros c Hc; [inversion Hc; subst; by right|].
  apply nsteps_inv_r in Hc as (c1 & Hc1 & Hs). destruct (IH c1 Hc1) as [Hst|[Hwr Ht]].
  { left. by eapply stuck_step. }
  destruct Hs as [k [] q Hq Hn Hw|k [] q m Hq Hn|k [] q Hq Hw|k [] q Hq Hw Hn Hr|k [] q Hq Hn];
    (destruct (decide (k = i)) as [->|Hne]; [simplify_eq/=|right; simpl;
      rewrite ?list_lookup_insert_ne by done; split; congruence]).
  - by right.
  - left. split; [done|]. exists p. simpl.
    by rewrite list_lookup_insert_eq by (by eapply lookup_lt_Some).
Qed.


End drain.

(** Every method but the last needs [mu]. *)
Lemma methods_need_mu :
  forallb (existsb takes_mu) [writer_locks; reader_locks; ProcessHeartbeat_locks; Queue_locks;
    triggerWorkloadMigration_locks 0] = true ∧
  existsb takes_mu GetPendingAssignmentCount_locks = false.
Proof. done. Qed.

(** ** Two calls that wait for each other *)

(** [ProcessHeartbeat] takes [mu] before [assignmentMu], [QueueAssignment] and
    [QueueCommand] take them the other way round: a heartbeat and a queued
    assignment can reach a configuration in which neither has finished and no
    step is possible. *)
Theorem heartbeat_queue_deadlock :
  ∃ c, lsteps (initial [ProcessHeartbeat_locks; Queue_locks]) c ∧
    threads c = [[Lock assignmentMu; Unlock assignmentMu; Unlock mu];
                 [RLock mu; RUnlock mu; Unlock assignmentMu]] ∧
    ∀ c', ¬ lstep c c'.
Proof.
  eexists. split.
  { eapply rtc_l; [by eapply (l_wait _ 0 mu); [reflexivity|apply not_elem_of_nil]|].
    eapply rtc_l; [by eapply (l_lock _ 0 mu); [reflexivity|left|..]|].
    eapply rtc_l; [by eapply (l_wait _ 1 assignmentMu); [reflexivity|apply not_elem_of_nil]|].
    eapply rtc_l; [by eapply (l_lock _ 1 assignmentMu); [reflexivity|left|..]|].
    eapply rtc_l; [by eapply (l_wait _ 0 assignmentMu); [reflexivity|apply not_elem_of_nil]|].
    apply rtc_refl. }
  split; [reflexivity|]. intros c' Hs.
  destruct Hs as [[|[|k]] l q Hq Hn Hw|[|[|k]] l q m Hq Hn|[|[|k]] l q Hq Hw|[|[|k]] l q Hq Hw Hn Hr
    |[|[|k]] l q Hq Hn]; cbn in Hq; simplify_eq; cbn in *; try done.
  apply Hw. by left.
Qed.

(** ** A drain on the sample cluster *)

Section sample.
#[local] Existing Instances range_canonical plain_jwt.
#[local] Instance drained_codec : NodeCodec := {|
  node_marshal _ := Some "{}"%string; node_unmarshal _ := None |}.

Definition sample_drain : list act :=
  DrainNode_locks (Committed (fun _ => 8)) sample_enrolled "n1".

Lemma sample_drain_run :
  ∃ c, lsteps (initial [sample_drain; ProcessHeartbeat_locks]) c ∧
    rw_writer (locks c mu) = Some 0%nat ∧ threads c !! 1%nat = Some ProcessHeartbeat_locks.
Proof.
  eexists. split.
  { eapply rtc_l; [eapply (l_wait _ 0 mu); [vm_compute; reflexivity|apply not_elem_of_nil]|].
    eapply rtc_l; [eapply (l_lock _ 0 mu); [vm_compute; reflexivity|left|reflexivity..]|].
    apply rtc_refl. }
  by split.
Qed.


End sample.
