(* ===== verification/ClusterScheduling.v ===== *)
(** * Scheduling over the membership manager

    The membership manager as an implementation of the interface the scheduler
    is written against, and what the two guarantee together. *)

From S2P Require Import Prelude GoText GoFloat Node NodeHealth Scorer BinPack Scheduler BootstrapTokens RaftFSM PolicyAdmission Membership MembershipSpec.

Section cluster.
Context `{GoRange, GoSort, NodeCodec, BootstrapJWT, !NodeCodecLaws}.

(** A manager in order. *)
Definition Members : Type := { m : MembershipManager | members_ok m }.

#[export] Instance manager_lister : NodeLister MembershipManager :=
  {| ListNodes := fun m => Ok (Manager_ListNodes m ∅) |}.

#[export] Instance members_lister : NodeLister Members :=
  {| ListNodes := fun m => ListNodes (`m) |}.

#[export] Instance members_laws : NodeListerLaws Members.
Proof. split. intros [m Hm] nodes [= <-]. by apply listed_NoDup. Qed.

Lemma elem_of_listed m n : n ∈ Manager_ListNodes m ∅ ↔ ∃ id, mm_nodes m !! id = Some n.
Proof.
  rewrite listed_all, list_elem_of_fmap. split.
  - intros ([id n'] & -> & Hn%elem_of_range_map). eauto.
  - intros [id Hn]. exists (id, n). split; [done|]. by apply elem_of_range_map.
Qed.

(** The state in which [DrainNode] leaves the manager, whether it returns or
    blocks. *)
Definition drained (ans : raft_answer) (m : MembershipManager) (id : string)
    : MembershipManager :=
  match DrainNode ans m id with Returns m' _ => m' | Blocks m' => m' end.

Lemma drained_state ans m id :
  state_at (drained ans m id) id = None ∨ state_at (drained ans m id) id = Some StateDraining.
Proof.
  unfold drained, DrainNode. destruct (mm_nodes m !! id) as [n|] eqn:Hn;
    [|left; unfold state_at; by rewrite Hn].
  right. destruct (node_State n =?s StateDraining) eqn:Hs.
  { unfold state_at. rewrite Hn. simpl. by bool_to_prop; f_equal. }
  destruct (saveNode _ _ _) as [m' err] eqn:Hm. apply (f_equal fst) in Hm. cbn [fst] in Hm.
  assert (state_at m' id = Some StateDraining) as Hst.
  { rewrite <-Hm, saveNode_state, state_at_insert. by rewrite decide_True. }
  by destruct err.
Qed.

Lemma drained_ok ans m id : members_ok m → members_ok (drained ans m id).
Proof.
  intros Hm. unfold drained.
  destruct (DrainNode ans m id) eqn:Hd; eapply (mstep_ok m), s_drain; eauto.
Qed.

(** The result of scheduling over a manager in order, and where its decisions
    go. *)
Lemma schedule_members clock m sc cfg w r :
  members_ok m → nonneg_spec (rr_Requests (w_Resources w)) →
  Schedule clock {| membershipManager := m; scorer := sc; config := cfg |} w = Ok r →
  result_ok (filterNodes (Manager_ListNodes m ∅) w) w r ∧
  ∀ d, d ∈ res_Decisions r →
    ∃ n, mm_nodes m !! dec_NodeID d = Some n ∧ node_State n = StateReady ∧ eligible w n.
Proof.
  intros Hm Hreq Hr.
  pose (s := {| membershipManager := exist _ m Hm : Members; scorer := sc; config := cfg |}).
  pose proof (Schedule_result clock s w _ r eq_refl Hreq Hr) as Hok. split; [done|].
  intros d Hd. destruct (result_eligible _ _ _ _ Hok Hd) as (n & [id Hn]%elem_of_listed & He & Hid).
  exists n. destruct (ok_node _ Hm id n Hn) as [<- _]. rewrite <-Hid. split_and!; [done|apply He|done].
Qed.

(** Over a membership manager in order, every replica that [Schedule] places
    goes to a member that is ready and eligible; in particular none goes to a
    node for which [DrainNode] has been called, whatever that call answered. *)
Theorem scheduled_on_ready_members clock (s : Scheduler Members) w r :
  nonneg_spec (rr_Requests (w_Resources w)) → Schedule clock s w = Ok r →
  (∀ d, d ∈ res_Decisions r →
     ∃ n, mm_nodes (proj1_sig (membershipManager s)) !! dec_NodeID d = Some n ∧
       node_State n = StateReady ∧ eligible w n) ∧
  (∀ ans m0 id, proj1_sig (membershipManager s) = drained ans m0 id →
     Forall (fun d => dec_NodeID d ≠ id) (res_Decisions r)).
Proof.
  destruct s as [[m Hm] sc cfg]. simpl. intros Hreq Hr.
  destruct (schedule_members clock m sc cfg w r Hm Hreq Hr) as [_ Hd].
  split; [done|]. intros ans m0 id ->. apply Forall_forall. intros d Hin Heq.
  destruct (Hd d Hin) as (n & Hn & Hst & _). rewrite Heq in Hn.
  destruct (drained_state ans m0 id) as [Hds|Hds]; unfold state_at in Hds; rewrite Hn in Hds; [done|].
  simpl in Hds. rewrite Hst in Hds. discriminate.
Qed.

End cluster.

(** ** A cluster with a drained node *)

Section sample.
#[local] Existing Instances range_canonical sort_insertion plain_jwt sample_codec sample_codec_laws.

Definition two_members : MembershipManager :=
  {| mm_store := sample_store; mm_tokens := sample_tokens; mm_scoring := NewScoringEngine;
     mm_nodes := list_to_map ((fun n => (node_ID n, n)) <$> sample_nodes);
     mm_assignments := ∅; mm_commands := ∅ |}.

Lemma two_members_ok : members_ok two_members.
Proof.
  split; [|done]. intros id n Hn%elem_of_list_to_map_2. simpl in Hn.
  rewrite !elem_of_cons, elem_of_nil in Hn. unfold known_state.
  destruct Hn as [Hn|[Hn|[Hn|[]]]]; injection Hn as -> ->; auto.
Qed.

Definition drained_members : Members :=
  drained (Committed (fun _ => 8)) two_members "a" ↾
  drained_ok (Committed (fun _ => 8)) two_members "a" two_members_ok.

Definition drained_scheduler : Scheduler Members :=
  {| membershipManager := drained_members;
     scorer := NewScorer (scorer_weights DefaultSchedulerConfig); config := DefaultSchedulerConfig |}.

(** All three replicas asked for go to [c] as far as they fit. *)
Lemma scheduled_on_ready_members_witness :
  ∃ r, Schedule still_clock drained_scheduler (sample_workload 3 0 0) = Ok r ∧
    dec_NodeID <$> res_Decisions r = ["c"%string] ∧
    Forall (fun d => dec_NodeID d ≠ "a"%string) (res_Decisions r).
Proof.
  eexists. split; [vm_compute; reflexivity|]. split; [vm_compute; reflexivity|].
  eapply (scheduled_on_ready_members still_clock drained_scheduler (sample_workload 3 0 0)).
  - apply sample_req_nonneg.
  - vm_compute. reflexivity.
  - reflexivity.
Defined.

End sample.
