(* ===== verification/Probes.v ===== *)
(** * Health probes (pkg/runtime/health.go)

    The executor keeps the latest result of each probe of each container.  One
    worker runs the probes of its queue; what the network and the containers
    answer is [ProbeEnv].  The timers that schedule probes and wait for results
    are not modelled.  [None] is a panic. *)

From S2P Require Import Prelude GoText.

Local Open Scope string_scope.
Local Open Scope Z_scope.

Definition ProbeTypeHTTP : string := "http".
Definition ProbeTypeTCP : string := "tcp".
Definition ProbeTypeExec : string := "exec".

Record HTTPProbe := {
  hp_Path : string; hp_Port : Z; hp_Scheme : string; hp_Headers : gmap string string
}.

Record TCPProbe := { tp_Port : Z }.

Record ExecProbe := { ep_Command : list string }.

Record ProbeConfig := {
  pc_Type : string;
  pc_HTTPGet : option HTTPProbe;
  pc_TCPSocket : option TCPProbe;
  pc_Exec : option ExecProbe;
  pc_InitialDelaySeconds : Z;
  pc_PeriodSeconds : Z;
  pc_TimeoutSeconds : Z;
  pc_SuccessThreshold : Z;
  pc_FailureThreshold : Z
}.

Record ProbeResult := {
  pr_Success : bool;
  pr_Message : string;
  pr_LastProbeTime : Z;
  pr_ConsecutiveSuccesses : Z;
  pr_ConsecutiveFailures : Z
}.

Record ProbeExecution := {
  px_ContainerID : string; px_ContainerIP : string; px_ProbeType : string; px_Config : ProbeConfig
}.

Record ProbeExecutor := {
  pe_probeResults : gmap string ProbeResult;
  pe_probeExecutions : list ProbeExecution;
  pe_closed : bool
}.

#[export] Instance eta_ProbeExecutor : Eta ProbeExecutor := fun x =>
  Build_ProbeExecutor (pe_probeResults x) (pe_probeExecutions x) (pe_closed x).

Definition NewProbeExecutor : ProbeExecutor :=
  {| pe_probeResults := ∅; pe_probeExecutions := []; pe_closed := false |}.

(** ** Running a probe *)

(** The answers to making a request, to the request itself (its status), to a
    connection and to a command (exit code and error output). *)
Record ProbeEnv := {
  env_request : string → option string;
  env_get : string → gmap string string → result string Z;
  env_dial : string → option string;
  env_exec : string → list string → result string (Z * string)
}.

Definition executeHTTPProbe (env : ProbeEnv) (containerIP : string) (probe : option HTTPProbe)
    : bool * string :=
  match probe with
  | None => (false, "HTTP probe config is nil")
  | Some probe =>
      let scheme := if hp_Scheme probe =?s "" then "http" else hp_Scheme probe in
      let url := scheme +:+ "://" +:+ containerIP +:+ ":" +:+ show_Z (hp_Port probe) +:+ hp_Path probe in
      match env_request env url with
      | Some err => (false, "failed to create request: " +:+ err)
      | None =>
          match env_get env url (hp_Headers probe) with
          | Err err => (false, "HTTP request failed: " +:+ err)
          | Ok status =>
              if (200 <=? status) && (status <? 400) then (true, "HTTP " +:+ show_Z status)
              else (false, "HTTP " +:+ show_Z status +:+ " (expected 2xx-3xx)")
          end
      end
  end.

Definition executeTCPProbe (env : ProbeEnv) (containerIP : string) (probe : option TCPProbe)
    : bool * string :=
  match probe with
  | None => (false, "TCP probe config is nil")
  | Some probe =>
      match env_dial env (containerIP +:+ ":" +:+ show_Z (tp_Port probe)) with
      | Some err => (false, "TCP connection failed: " +:+ err)
      | None => (true, "TCP connection successful")
      end
  end.

Definition executeExecProbe (env : ProbeEnv) (containerID : string) (probe : option ExecProbe)
    : bool * string :=
  match probe with
  | None => (false, "Exec probe config is nil")
  | Some probe =>
      if len (ep_Command probe) =? 0 then (false, "Exec probe command is empty")
      else match env_exec env containerID (ep_Command probe) with
      | Err err => (false, "exec failed: " +:+ err)
      | Ok (exitCode, stderr) =>
          if exitCode =? 0 then (true, "exec command succeeded")
          else
            let message := "exec command failed with exit code " +:+ show_Z exitCode in
            (false, if 0 <? slen stderr then message +:+ ": " +:+ stderr else message)
      end
  end.

Definition probe_key (containerID probeType : string) : string := containerID +:+ ":" +:+ probeType.

Definition run_probe (env : ProbeEnv) (execution : ProbeExecution) : bool * string :=
  let config := px_Config execution in
  if pc_Type config =?s ProbeTypeHTTP then executeHTTPProbe env (px_ContainerIP execution) (pc_HTTPGet config)
  else if pc_Type config =?s ProbeTypeTCP then executeTCPProbe env (px_ContainerIP execution) (pc_TCPSocket config)
  else if pc_Type config =?s ProbeTypeExec then executeExecProbe env (px_ContainerID execution) (pc_Exec config)
  else (false, "unknown probe type: " +:+ pc_Type config).

(** The result after [prev]; the counters are 32 bits wide. *)
Definition next_result (now : Z) (outcome : bool * string) (prev : option ProbeResult) : ProbeResult :=
  let '(success, message) := outcome in
  {| pr_Success := success; pr_Message := message; pr_LastProbeTime := now;
     pr_ConsecutiveSuccesses :=
       if success then int32 (from_option pr_ConsecutiveSuccesses 0 prev + 1) else 0;
     pr_ConsecutiveFailures :=
       if success then 0 else int32 (from_option pr_ConsecutiveFailures 0 prev + 1) |}.

Definition executeProbeInternal (env : ProbeEnv) (now : Z) (execution : ProbeExecution) (pe : ProbeExecutor)
    : ProbeExecutor :=
  let key := probe_key (px_ContainerID execution) (px_ProbeType execution) in
  let result := next_result now (run_probe env execution) (pe_probeResults pe !! key) in
  pe <| pe_probeResults := <[key := result]> (pe_probeResults pe) |>.

(** ** The queue *)

(** [ExecuteProbe] as far as the send: a full queue refuses it after a while,
    and a send on the closed queue panics. *)
Definition ExecuteProbe (containerID containerIP probeType : string) (config : option ProbeConfig)
    (pe : ProbeExecutor) : option (ProbeExecutor * option string) :=
  match config with
  | None => Some (pe, Some "probe config is nil")
  | Some config =>
      let execution := {| px_ContainerID := containerID; px_ContainerIP := containerIP;
                          px_ProbeType := probeType; px_Config := config |} in
      if pe_closed pe then None
      else if len (pe_probeExecutions pe) <? 100 then
        Some (pe <| pe_probeExecutions := app (pe_probeExecutions pe) [execution] |>, None)
      else Some (pe, Some "probe execution queue is full")
  end.

(** One turn of the worker.  A receive from the closed and empty queue gives
    nil, whose configuration cannot be read. *)
Definition probeWorker (env : ProbeEnv) (now : Z) (pe : ProbeExecutor) : option ProbeExecutor :=
  match pe_probeExecutions pe with
  | execution :: rest =>
      Some (executeProbeInternal env now execution (pe <| pe_probeExecutions := rest |>))
  | [] => if pe_closed pe then None else Some pe
  end.

Definition Stop (pe : ProbeExecutor) : option ProbeExecutor :=
  if pe_closed pe then None else Some (pe <| pe_closed := true |>).

(** ** Results *)

Definition GetProbeResult (containerID probeType : string) (pe : ProbeExecutor) : option ProbeResult :=
  pe_probeResults pe !! probe_key containerID probeType.

Definition success_threshold (config : ProbeConfig) : Z :=
  if pc_SuccessThreshold config =? 0 then 1 else pc_SuccessThreshold config.

Definition failure_threshold (config : ProbeConfig) : Z :=
  if pc_FailureThreshold config =? 0 then 3 else pc_FailureThreshold config.

Definition IsHealthy (containerID probeType : string) (config : ProbeConfig) (pe : ProbeExecutor) : bool :=
  match GetProbeResult containerID probeType pe with
  | None => true
  | Some result =>
      if success_threshold config <=? pr_ConsecutiveSuccesses result then true
      else if failure_threshold config <=? pr_ConsecutiveFailures result then false
      else pr_Success result
  end.

(** Every key that starts with the identifier and is longer. *)
Definition ClearProbeResults (containerID : string) (pe : ProbeExecutor) : ProbeExecutor :=
  pe <| pe_probeResults := filter (fun kr => ¬ (slen containerID < slen kr.1 ∧ HasPrefix kr.1 containerID = true))
                             (pe_probeResults pe) |>.

(** The totals of [GetStats]. *)
Definition GetProbeStats `{GoRange} (pe : ProbeExecutor) : Z * Z * Z :=
  let results := (range_map (pe_probeResults pe)).*2 in
  (len results, len (List.filter pr_Success results),
   len (List.filter (fun r => negb (pr_Success r)) results)).
