(* ===== verification/HealthMonitor.v ===== *)
(** * The health monitor of the agent (pkg/agent/health_monitor.go, agent.go)

    The monitor restarts containers whose liveness probe fails, within a limit,
    and reports changes of readiness.  Calls of the container runtime and of the
    callbacks are the events an operation returns; the agent keeps a report per
    container from them, which goes out with its heartbeats.  Clock readings and
    the answers of the runtime are arguments; metrics are dropped. *)

From S2P Require Import Prelude GoText GoFloat Membership Probes.

Local Open Scope string_scope.
Local Open Scope Z_scope.

Record containerProbeConfig := {
  cp_containerID : string;
  cp_livenessConfig : option ProbeConfig;
  cp_readinessConfig : option ProbeConfig
}.

Record HealthMonitor := {
  hm_containers : gmap string containerProbeConfig;
  hm_restartAttempts : gmap string Z;
  hm_lastRestartTime : gmap string Z;
  hm_previousReadiness : gmap string bool;
  hm_maxRestarts : Z;
  hm_restartWindow : Z;
  hm_checkInterval : Z
}.

#[export] Instance eta_HealthMonitor : Eta HealthMonitor := fun x =>
  Build_HealthMonitor (hm_containers x) (hm_restartAttempts x) (hm_lastRestartTime x)
    (hm_previousReadiness x) (hm_maxRestarts x) (hm_restartWindow x) (hm_checkInterval x).

Definition NewHealthMonitor : HealthMonitor := {|
  hm_containers := ∅; hm_restartAttempts := ∅; hm_lastRestartTime := ∅; hm_previousReadiness := ∅;
  hm_maxRestarts := 5; hm_restartWindow := 5 * minute; hm_checkInterval := 5 * second |}.

(** Calls of the runtime that succeeded, and of the callbacks. *)
Inductive HealthEvent :=
| Stopped (containerID : string)
| Started (containerID : string)
| LivenessFailure (containerID : string) (consecutiveFailures : Z)
| ReadinessChange (containerID : string) (healthy : bool).

#[export] Instance HealthEvent_eq_dec : EqDecision HealthEvent.
Proof. solve_decision. Defined.

(** ** Restarts *)

(** The clock of [shouldRestart], the answers of the runtime and the two
    readings of [recordRestart]. *)
Record RestartInputs := {
  rs_check : Z; rs_stop : option string; rs_start : option string; rs_since : Z; rs_now : Z
}.

Definition getRestartCount (containerID : string) (hm : HealthMonitor) : Z :=
  default 0 (hm_restartAttempts hm !! containerID).

Definition shouldRestart (now : Z) (containerID : string) (hm : HealthMonitor) : bool :=
  match hm_lastRestartTime hm !! containerID with
  | None => true
  | Some lastRestart =>
      if hm_restartWindow hm <? time_Sub now lastRestart then true
      else getRestartCount containerID hm <? hm_maxRestarts hm
  end.

Definition recordRestart (since now : Z) (containerID : string) (hm : HealthMonitor) : HealthMonitor :=
  let attempts :=
    match hm_lastRestartTime hm !! containerID with
    | None => 1
    | Some lastRestart =>
        if hm_restartWindow hm <? time_Sub since lastRestart then 1
        else int64 (getRestartCount containerID hm + 1)
    end in
  hm <| hm_restartAttempts := <[containerID := attempts]> (hm_restartAttempts hm) |>
     <| hm_lastRestartTime := <[containerID := now]> (hm_lastRestartTime hm) |>.

Definition restartContainer (i : RestartInputs) (containerID : string) : list HealthEvent * option string :=
  match rs_stop i with
  | Some err => ([], Some ("stopping container: " +:+ err))
  | None =>
      match rs_start i with
      | Some err => ([Stopped containerID], Some ("starting container: " +:+ err))
      | None => ([Stopped containerID; Started containerID], None)
      end
  end.

Definition handleLivenessResult (i : RestartInputs) (containerID : string) (result : ProbeResult)
    (config : ProbeConfig) (hm : HealthMonitor) : HealthMonitor * list HealthEvent :=
  if pr_Success result then (hm, [])
  else if failure_threshold config <=? pr_ConsecutiveFailures result then
    if shouldRestart (rs_check i) containerID hm then
      match restartContainer i containerID with
      | (events, Some _) => (hm, events)
      | (events, None) =>
          (recordRestart (rs_since i) (rs_now i) containerID hm,
           app events [LivenessFailure containerID (pr_ConsecutiveFailures result)])
      end
    else (hm, [LivenessFailure containerID (pr_ConsecutiveFailures result)])
  else (hm, []).

(** ** Readiness *)

Definition handleReadinessResult (containerID : string) (result : ProbeResult) (hm : HealthMonitor)
    : HealthMonitor * list HealthEvent :=
  let previous := hm_previousReadiness hm !! containerID in
  let currentHealthy := pr_Success result in
  (hm <| hm_previousReadiness := <[containerID := currentHealthy]> (hm_previousReadiness hm) |>,
   if bool_decide (previous = Some currentHealthy) then []
   else [ReadinessChange containerID currentHealthy]).

(** ** The check *)

Definition check_container (i : string → RestartInputs) (pe : ProbeExecutor) (hm : HealthMonitor)
    (cfg : containerProbeConfig) : HealthMonitor * list HealthEvent :=
  let id := cp_containerID cfg in
  let '(hm, events) :=
    match cp_livenessConfig cfg, GetProbeResult id "liveness" pe with
    | Some config, Some result => handleLivenessResult (i id) id result config hm
    | _, _ => (hm, [])
    end in
  let '(hm, more) :=
    match cp_readinessConfig cfg, GetProbeResult id "readiness" pe with
    | Some _, Some result => handleReadinessResult id result hm
    | _, _ => (hm, [])
    end in
  (hm, app events more).

Fixpoint check_containers (i : string → RestartInputs) (pe : ProbeExecutor) (hm : HealthMonitor)
    (cfgs : list containerProbeConfig) : HealthMonitor * list HealthEvent :=
  match cfgs with
  | [] => (hm, [])
  | cfg :: cfgs =>
      let '(hm, events) := check_container i pe hm cfg in
      let '(hm, more) := check_containers i pe hm cfgs in
      (hm, app events more)
  end.

(** [i] gives what is read for each container. *)
Definition checkProbeHealth `{GoRange} (i : string → RestartInputs) (pe : ProbeExecutor) (hm : HealthMonitor)
    : HealthMonitor * list HealthEvent :=
  check_containers i pe hm (range_map (hm_containers hm)).*2.

(** ** Configuration *)

Definition SetMaxRestarts (max : Z) (hm : HealthMonitor) : HealthMonitor := hm <| hm_maxRestarts := max |>.

Definition SetRestartWindow (window : Z) (hm : HealthMonitor) : HealthMonitor :=
  hm <| hm_restartWindow := window |>.

Definition SetCheckInterval (interval : Z) (hm : HealthMonitor) : HealthMonitor :=
  hm <| hm_checkInterval := interval |>.

Definition ClearRestartHistory (containerID : string) (hm : HealthMonitor) : HealthMonitor :=
  hm <| hm_restartAttempts := delete containerID (hm_restartAttempts hm) |>
     <| hm_lastRestartTime := delete containerID (hm_lastRestartTime hm) |>.

Definition GetHealthStatus (containerID : string) (pe : ProbeExecutor) (hm : HealthMonitor)
    : bool * bool * Z :=
  (from_option pr_Success false (GetProbeResult containerID "liveness" pe),
   from_option pr_Success false (GetProbeResult containerID "readiness" pe),
   getRestartCount containerID hm).

Definition RegisterContainer (containerID : string) (livenessConfig readinessConfig : option ProbeConfig)
    (hm : HealthMonitor) : HealthMonitor :=
  hm <| hm_containers := <[containerID := {|
          cp_containerID := containerID; cp_livenessConfig := livenessConfig;
          cp_readinessConfig := readinessConfig |}]> (hm_containers hm) |>.

Definition UnregisterContainer (containerID : string) (hm : HealthMonitor) : HealthMonitor :=
  hm <| hm_containers := delete containerID (hm_containers hm) |>
     <| hm_previousReadiness := delete containerID (hm_previousReadiness hm) |>.

(** ** The reports of the agent *)

#[export] Instance eta_ContainerHealth : Eta msg.ContainerHealth := fun x =>
  msg.Build_ContainerHealth (msg.container_id x) (msg.liveness_healthy x)
    (msg.liveness_consecutive_failures x) (msg.liveness_last_check_time x) (msg.readiness_healthy x)
    (msg.readiness_consecutive_failures x) (msg.readiness_last_check_time x).

Abbreviation Reports := (gmap string msg.ContainerHealth).

Definition on_liveness_failure (now : Z) (containerID : string) (failures : Z) (reports : Reports) : Reports :=
  <[containerID :=
    match reports !! containerID with
    | Some health => health <| msg.liveness_consecutive_failures := int32 failures |>
                            <| msg.liveness_healthy := false |> <| msg.liveness_last_check_time := now |>
    | None => {| msg.container_id := containerID; msg.liveness_healthy := false;
                 msg.liveness_consecutive_failures := int32 failures; msg.liveness_last_check_time := now;
                 msg.readiness_healthy := false; msg.readiness_consecutive_failures := 0;
                 msg.readiness_last_check_time := 0 |}
    end]> reports.

Definition on_readiness_change (now : Z) (containerID : string) (healthy : bool) (reports : Reports) : Reports :=
  <[containerID :=
    match reports !! containerID with
    | Some health =>
        let health := health <| msg.readiness_healthy := healthy |> in
        (if healthy then health <| msg.readiness_consecutive_failures := 0 |> else health)
          <| msg.readiness_last_check_time := now |>
    | None => {| msg.container_id := containerID; msg.liveness_healthy := false;
                 msg.liveness_consecutive_failures := 0; msg.liveness_last_check_time := 0;
                 msg.readiness_healthy := healthy; msg.readiness_consecutive_failures := 0;
                 msg.readiness_last_check_time := now |}
    end]> reports.

(** The seconds of the clock at each event are [now]. *)
Definition report_event (now : Z) (reports : Reports) (e : HealthEvent) : Reports :=
  match e with
  | LivenessFailure id n => on_liveness_failure now id n reports
  | ReadinessChange id b => on_readiness_change now id b reports
  | _ => reports
  end.

Definition collectContainerHealth `{GoRange} (reports : Reports) : list msg.ContainerHealth :=
  (range_map reports).*2.
