(* ===== verification/HealthMonitorSpec.v ===== *)
(** * Restarts are limited and readiness is reported

    Whatever the probes and the runtime answer, a container is restarted no more
    often than the limit in any window of time, and the changes of readiness
    reported for it are those of the results seen. *)

From S2P Require Import Prelude GoText GoFloat Membership Probes HealthMonitor.

(** ** Histories *)

Inductive hop : Type :=
| HCheck (i : string → RestartInputs) (pe : ProbeExecutor)
| HRegister (id : string) (liveness readiness : option ProbeConfig)
| HUnregister (id : string).

Definition hexec `{GoRange} (o : hop) (hm : HealthMonitor) : HealthMonitor * list HealthEvent :=
  match o with
  | HCheck i pe => checkProbeHealth i pe hm
  | HRegister id l r => (RegisterContainer id l r hm, [])
  | HUnregister id => (UnregisterContainer id hm, [])
  end.

Definition event_id (e : HealthEvent) : string :=
  match e with Stopped id | Started id | LivenessFailure id _ | ReadinessChange id _ => id end.

Definition about (c : string) (events : list HealthEvent) : list HealthEvent :=
  List.filter (fun e => event_id e =?s c) events.

(** ** One container *)

(** What the monitor keeps of a container. *)
Definition cell (hm : HealthMonitor) (c : string) : option Z * option Z * option bool :=
  (hm_restartAttempts hm !! c, hm_lastRestartTime hm !! c, hm_previousReadiness hm !! c).

Definition settings (hm : HealthMonitor) : gmap string containerProbeConfig * Z * Z * Z :=
  (hm_containers hm, hm_maxRestarts hm, hm_restartWindow hm, hm_checkInterval hm).

(** Registered under their own identifier. *)
Definition keyed (hm : HealthMonitor) : Prop :=
  ∀ k cfg, hm_containers hm !! k = Some cfg → cp_containerID cfg = k.

Lemma cell_eq hm hm' c : cell hm' c = cell hm c ↔
  hm_restartAttempts hm' !! c = hm_restartAttempts hm !! c ∧
  hm_lastRestartTime hm' !! c = hm_lastRestartTime hm !! c ∧
  hm_previousReadiness hm' !! c = hm_previousReadiness hm !! c.
Proof. unfold cell. split; [by intros [= -> -> ->]|]. by intros (-> & -> & ->). Qed.

Lemma about_app c l k : about c (l ++ k) = about c l ++ about c k.
Proof. apply List.filter_app. Qed.

Lemma about_all c l : Forall (fun e => event_id e = c) l → about c l = l.
Proof.
  intros Hl. apply filter_all. intros e He. apply bool_decide_eq_true. exact (proj1 (Forall_forall _ _) Hl e He).
Qed.

Lemma about_none c c' l : Forall (fun e => event_id e = c') l → c ≠ c' → about c l = [].
Proof.
  intros Hl Hne. apply filter_nil_iff. intros e He. apply bool_decide_eq_false.
  rewrite (proj1 (Forall_forall _ _) Hl e He). congruence.
Qed.

(** A check of one container touches its cell only, and depends on it only. *)
Lemma liveness_cell i id result config hm :
  let r := handleLivenessResult i id result config hm in
  settings r.1 = settings hm ∧ Forall (fun e => event_id e = id) r.2 ∧
  (∀ c, c ≠ id → cell r.1 c = cell hm c) ∧ hm_previousReadiness r.1 = hm_previousReadiness hm.
Proof.
  unfold handleLivenessResult, restartContainer.
  repeat case_match; simplify_eq/=; split_and!; repeat constructor; try done; intros c Hc;
    apply cell_eq; simpl; by rewrite ?lookup_insert_ne.
Qed.

Lemma readiness_cell id result hm :
  let r := handleReadinessResult id result hm in
  settings r.1 = settings hm ∧ Forall (fun e => event_id e = id) r.2 ∧
  (∀ c, c ≠ id → cell r.1 c = cell hm c).
Proof.
  unfold handleReadinessResult. split_and!; [done|simpl; case_match; by repeat constructor|].
  intros c Hc. apply cell_eq. simpl. by rewrite lookup_insert_ne.
Qed.

Lemma container_cell i pe hm cfg :
  let r := check_container i pe hm cfg in
  settings r.1 = settings hm ∧ Forall (fun e => event_id e = cp_containerID cfg) r.2 ∧
  (∀ c, c ≠ cp_containerID cfg → cell r.1 c = cell hm c).
Proof.
  unfold check_container. set (id := cp_containerID cfg).
  match goal with |- context [match ?x with (_, _) => _ end] => set (r1 := x) end.
  assert (settings r1.1 = settings hm ∧ Forall (fun e => event_id e = id) r1.2 ∧
    (∀ c, c ≠ id → cell r1.1 c = cell hm c)) as (Hs1 & He1 & Hc1).
  { unfold r1. destruct (cp_livenessConfig cfg) as [lc|]; [|done]. destruct (GetProbeResult id _ pe) as [r|]; [|done].
    destruct (liveness_cell (i id) id r lc hm) as (? & ? & ? & _). done. }
  destruct r1 as [hm1 e1]. cbn [fst snd] in *.
  match goal with |- context [match ?x with (_, _) => _ end] => set (r2 := x) end.
  assert (settings r2.1 = settings hm1 ∧ Forall (fun e => event_id e = id) r2.2 ∧
    (∀ c, c ≠ id → cell r2.1 c = cell hm1 c)) as (Hs2 & He2 & Hc2).
  { unfold r2. destruct (cp_readinessConfig cfg); [|done]. destruct (GetProbeResult id _ pe) as [r|]; [|done].
    apply readiness_cell. }
  destruct r2 as [hm2 e2]. cbn [fst snd] in *. split_and!; [congruence|by apply Forall_app|].
  intros c Hc. by rewrite Hc2, Hc1.
Qed.

Lemma liveness_same i id result config hm hm' :
  settings hm' = settings hm → cell hm' id = cell hm id →
  (handleLivenessResult i id result config hm').2 = (handleLivenessResult i id result config hm).2 ∧
  cell (handleLivenessResult i id result config hm').1 id = cell (handleLivenessResult i id result config hm).1 id.
Proof.
  unfold settings. intros [= _ Hm Hw _] (Ha & Hl & Hp)%cell_eq. unfold handleLivenessResult, shouldRestart, recordRestart, getRestartCount.
  rewrite Hm, Hw, Ha, Hl. unfold restartContainer.
  repeat (case_match; simplify_eq/=; try done); split; try done; apply cell_eq; simpl;
    rewrite ?lookup_insert_eq; split_and!; congruence.
Qed.

Lemma readiness_same id result hm hm' :
  cell hm' id = cell hm id →
  (handleReadinessResult id result hm').2 = (handleReadinessResult id result hm).2 ∧
  cell (handleReadinessResult id result hm').1 id = cell (handleReadinessResult id result hm).1 id.
Proof.
  intros (Ha & Hl & Hp)%cell_eq. unfold handleReadinessResult. rewrite Hp. split; [done|].
  apply cell_eq. simpl. by rewrite !lookup_insert_eq.
Qed.

Lemma container_same i pe hm hm' cfg :
  settings hm' = settings hm → cell hm' (cp_containerID cfg) = cell hm (cp_containerID cfg) →
  (check_container i pe hm' cfg).2 = (check_container i pe hm cfg).2 ∧
  cell (check_container i pe hm' cfg).1 (cp_containerID cfg) = cell (check_container i pe hm cfg).1 (cp_containerID cfg).
Proof.
  intros Hs Hc. unfold check_container. set (id := cp_containerID cfg) in *.
  set (live h := match cp_livenessConfig cfg, GetProbeResult id "liveness" pe with
    | Some config, Some result => handleLivenessResult (i id) id result config h | _, _ => (h, []) end).
  fold (live hm'). fold (live hm).
  assert ((live hm').2 = (live hm).2 ∧ cell (live hm').1 id = cell (live hm).1 id) as [He Hc1].
  { unfold live. destruct (cp_livenessConfig cfg); [|done]. destruct (GetProbeResult id _ pe); [|done]. by apply liveness_same. }
  destruct (live hm') as [h' e'], (live hm) as [h e]. cbn [fst snd] in *. subst e'.
  destruct (cp_readinessConfig cfg); [|done]. destruct (GetProbeResult id "readiness" pe) as [r|]; [|done].
  destruct (readiness_same id r h h' Hc1) as [H2 H3].
  destruct (handleReadinessResult id r h') as [h2' e2'], (handleReadinessResult id r h) as [h2 e2]. cbn [fst snd] in *.
  by subst.
Qed.

(** The checks of several containers, seen from one of them. *)
Lemma containers_other i pe c cfgs : ∀ hm,
  Forall (fun cfg => cp_containerID cfg ≠ c) cfgs →
  let r := check_containers i pe hm cfgs in
  settings r.1 = settings hm ∧ cell r.1 c = cell hm c ∧ about c r.2 = [].
Proof.
  induction cfgs as [|cfg cfgs IH]; intros hm Hne; [done|]. apply Forall_cons in Hne as [Hc Hne]. simpl.
  pose proof (container_cell i pe hm cfg) as (Hs1 & He1 & Hc1).
  destruct (check_container i pe hm cfg) as [hm1 e1]. cbn [fst snd] in *. specialize (IH hm1 Hne).
  destruct (check_containers i pe hm1 cfgs) as [hm2 e2]. cbn [fst snd] in *. destruct IH as (Hs2 & Hc2 & He2).
  split_and!; [congruence|by rewrite Hc2, Hc1|]. rewrite about_app, He2, (about_none c _ e1 He1); [done|congruence].
Qed.

Lemma containers_one i pe c cfg l1 l2 hm :
  Forall (fun cfg => cp_containerID cfg ≠ c) (l1 ++ l2) → cp_containerID cfg = c →
  let r := check_containers i pe hm (l1 ++ cfg :: l2) in
  settings r.1 = settings hm ∧ cell r.1 c = cell (check_container i pe hm cfg).1 c ∧
  about c r.2 = (check_container i pe hm cfg).2.
Proof.
  intros [Hl1 Hl2]%Forall_app <-. revert hm. induction l1 as [|x l1 IH]; intros hm; simpl.
  - pose proof (container_cell i pe hm cfg) as (Hs & He & _).
    destruct (check_container i pe hm cfg) as [hm1 e1]. cbn [fst snd] in *.
    pose proof (containers_other i pe _ l2 hm1 Hl2) as (Hs2 & Hc2 & He2).
    destruct (check_containers i pe hm1 l2) as [hm2 e2]. cbn [fst snd] in *.
    split_and!; [congruence|done|]. by rewrite about_app, He2, app_nil_r, about_all.
  - apply Forall_cons in Hl1 as [Hx Hl1]. pose proof (container_cell i pe hm x) as (Hs & He & Hc).
    destruct (check_container i pe hm x) as [hm1 e1]. cbn [fst snd] in *. specialize (IH Hl1 hm1).
    destruct (check_containers i pe hm1 (l1 ++ cfg :: l2)) as [hm2 e2]. cbn [fst snd] in *. destruct IH as (Hs2 & Hc2 & He2).
    destruct (container_same i pe hm hm1 cfg Hs) as [Hsame1 Hsame2]; [by apply Hc|].
    split_and!; [congruence|congruence|]. rewrite about_app, He2, (about_none _ _ e1 He); [done|congruence].
Qed.

Lemma check_seen `{GoRange} i pe hm c :
  keyed hm →
  let r := checkProbeHealth i pe hm in
  settings r.1 = settings hm ∧
  match hm_containers hm !! c with
  | None => cell r.1 c = cell hm c ∧ about c r.2 = []
  | Some cfg => cell r.1 c = cell (check_container i pe hm cfg).1 c ∧ about c r.2 = (check_container i pe hm cfg).2
  end.
Proof.
  intros Hk. unfold checkProbeHealth.
  assert (∀ k cfg, (k, cfg) ∈ range_map (hm_containers hm) → cp_containerID cfg = k) as Hid.
  { intros k cfg Hin. apply Hk. by apply elem_of_range_map. }
  destruct (hm_containers hm !! c) as [cfg|] eqn:Hc.
  - assert ((c, cfg) ∈ range_map (hm_containers hm)) as Hin by (by apply elem_of_range_map).
    apply list_elem_of_split in Hin as (l1 & l2 & Hl). pose proof (range_map_keys (hm_containers hm)) as Hnd.
    rewrite Hl in Hnd, Hid |- *. rewrite map_app in Hnd. rewrite fmap_app, fmap_cons. cbn [map fst snd] in *.
    apply containers_one; [|apply Hid; set_solver].
    rewrite <-fmap_app. apply Forall_forall. intros x (y & -> & Hy)%list_elem_of_fmap E. destruct y as [k y]. simpl in E.
    assert (k = c) as -> by (rewrite <-E; symmetry; apply Hid; set_solver).
    apply NoDup_app in Hnd as (_ & Hd & Hnd). apply NoDup_cons in Hnd as [Hn2 _].
    apply elem_of_app in Hy as [Hy|Hy].
    + apply (Hd c); [apply list_elem_of_In, in_map_iff; exists (c, y); by rewrite <-list_elem_of_In|by left].
    + apply Hn2. apply list_elem_of_In, in_map_iff. exists (c, y). by rewrite <-list_elem_of_In.
  - destruct (containers_other i pe c (range_map (hm_containers hm)).*2 hm) as (? & ? & ?); [|done].
    apply Forall_forall. intros x ([k y] & -> & Hy)%list_elem_of_fmap E. simpl in E.
    rewrite (Hid k y Hy) in E. subst. apply elem_of_range_map in Hy. congruence.
Qed.

Lemma exec_keyed `{GoRange} o hm : keyed hm → keyed (hexec o hm).1.
Proof.
  intros Hk. destruct o as [i pe|id l r|id]; simpl.
  - destruct (check_seen i pe hm "" Hk) as [Hs _]. unfold settings in Hs. injection Hs as Hc _ _ _.
    intros k cfg. rewrite Hc. apply Hk.
  - intros k cfg. simpl. intros [[<- <-]|[_ Hl]]%lookup_insert_Some; [done|by apply Hk].
  - intros k cfg. simpl. intros [_ Hl]%lookup_delete_Some. by apply Hk.
Qed.

(** ** Restarts *)

(** The times at which a container is recorded as restarted. *)
Definition restarted `{GoRange} (c : string) (o : hop) (hm : HealthMonitor) : list Z :=
  match o with
  | HCheck i pe => if bool_decide (Started c ∈ (checkProbeHealth i pe hm).2) then [rs_now (i c)] else []
  | _ => []
  end.

Fixpoint restart_times `{GoRange} (c : string) (ops : list hop) (hm : HealthMonitor) : list Z :=
  match ops with
  | [] => []
  | o :: ops => restarted c o hm ++ restart_times c ops (hexec o hm).1
  end.

(** The clock does not go back, as the checks of the container read it. *)
Fixpoint clock_ok (c : string) (t : Z) (ops : list hop) : Prop :=
  match ops with
  | [] => True
  | HCheck i _ :: ops =>
      t ≤ rs_check (i c) ≤ rs_since (i c) ∧ rs_since (i c) ≤ rs_now (i c) ∧ clock_ok c (rs_now (i c)) ops
  | _ :: ops => clock_ok c t ops
  end.

Section limit.
Context (W M : Z) (HW : 0 ≤ W < 2 ^ 63 - 1) (HM : M < 2 ^ 63).

Definition in_window (t x : Z) : bool := (t <=? x) && (x <=? t + W).

Definition within_limit (ts : list Z) : Prop :=
  ∀ t, len (List.filter (in_window t) ts) ≤ Z.max 1 M.

(** The restarts so far: those counted now, and earlier ones more than a window
    before them. *)
Definition recorded (ts : list Z) (t : Z) (attempts last : option Z) : Prop :=
  match last with
  | None => ts = []
  | Some last =>
      last ≤ t ∧ Forall (fun x => x ≤ last) ts ∧
      ∃ before now, ts = before ++ now ∧ attempts = Some (len now) ∧ 1 ≤ len now ≤ Z.max 1 M ∧
        (∀ x y, x ∈ before → y ∈ now → x + W < y) ∧ within_limit before
  end.

Lemma filter_len_le {A} (f : A → bool) l : len (List.filter f l) ≤ len l.
Proof. unfold len. induction l as [|x l IH]; simpl; [lia|]. case_match; simpl; lia. Qed.

Lemma recorded_limit ts t a last : recorded ts t a last → within_limit ts.
Proof.
  unfold recorded, within_limit. destruct last as [last|]; [|intros -> t'; simpl; unfold len; simpl; lia].
  intros (_ & _ & before & now & -> & _ & Hn & Hgap & Hb) t'. rewrite List.filter_app. unfold len. rewrite length_app.
  destruct (List.filter (in_window t') now) as [|y l] eqn:Hf.
  - specialize (Hb t'). unfold len in Hb. simpl. lia.
  - assert (List.filter (in_window t') before = []) as ->.
    { apply filter_nil_iff. intros x Hx. assert (y ∈ List.filter (in_window t') now) as Hy by (rewrite Hf; left).
      apply list_elem_of_In, filter_In in Hy as [Hy Hin]. apply list_elem_of_In in Hy.
      specialize (Hgap x y Hx Hy). unfold in_window in *. bool_to_prop. apply andb_false_iff. left. apply Z.leb_gt. lia. }
    rewrite <-Hf. pose proof (filter_len_le (in_window t') now). unfold len in *. simpl. lia.
Qed.

Lemma recorded_mono ts t t' a last : recorded ts t a last → t ≤ t' → recorded ts t' a last.
Proof. unfold recorded. destruct last; [|done]. intros (? & ?) ?. split; [lia|done]. Qed.

(** A restart after a pause starts a new count. *)
Lemma recorded_reset ts t a last now :
  recorded ts t a last → (∀ l, last = Some l → l + W < now) → recorded (ts ++ [now]) now (Some 1) (Some now).
Proof.
  intros Hr Hgap. pose proof (recorded_limit _ _ _ _ Hr) as Hlim. simpl.
  assert (∀ x, x ∈ ts → x + W < now) as Hx.
  { unfold recorded in Hr. destruct last as [l|]; [|subst; by intros x ?%elem_of_nil].
    destruct Hr as (_ & Hle & _). intros x Hx. specialize (Hgap l eq_refl).
    pose proof (proj1 (Forall_forall _ _) Hle x Hx). simpl in *. lia. }
  split_and!; [lia| |].
  - apply Forall_app. split; [|by repeat constructor]. apply Forall_forall. intros x Hin. specialize (Hx x Hin). lia.
  - exists ts, [now]. split_and!; [done|done|unfold len; simpl; lia..| |done].
    intros x y Hin ->%list_elem_of_singleton. by apply Hx.
Qed.

(** One more in the count. *)
Lemma recorded_more ts t n last now :
  recorded ts t (Some n) (Some last) → n < M → last ≤ now →
  recorded (ts ++ [now]) now (Some (int64 (n + 1))) (Some now).
Proof.
  intros (_ & Hle & before & cur & -> & [= ->] & Hn & Hgap & Hb) Hlt Hnow. simpl. split_and!; [lia| |].
  - apply Forall_app. split; [|by repeat constructor]. eapply Forall_impl; [done|]. simpl. lia.
  - exists before, (cur ++ [now]). split_and!.
    + by rewrite app_assoc.
    + unfold len in *. rewrite length_app, int64_id by (unfold in_int64; lia). do 2 f_equal. simpl. lia.
    + unfold len in *. rewrite length_app. simpl. lia.
    + unfold len in *. rewrite length_app. simpl. lia.
    + intros x y Hx [Hy| ->%list_elem_of_singleton]%elem_of_app; [by apply Hgap|].
      destruct cur as [|z cur]; [unfold len in Hn; simpl in Hn; lia|].
      specialize (Hgap x z Hx ltac:(left)). apply Forall_app in Hle as [_ Hle].
      apply Forall_cons in Hle as [Hz _]. lia.
    + done.
Qed.

(** A check of the container keeps the record. *)
Lemma liveness_recorded c i result config hm ts t :
  hm_restartWindow hm = W → hm_maxRestarts hm = M →
  t ≤ rs_check i ≤ rs_since i → rs_since i ≤ rs_now i →
  recorded ts t (hm_restartAttempts hm !! c) (hm_lastRestartTime hm !! c) →
  let r := handleLivenessResult i c result config hm in
  recorded (ts ++ if bool_decide (Started c ∈ r.2) then [rs_now i] else []) (rs_now i)
    (hm_restartAttempts r.1 !! c) (hm_lastRestartTime r.1 !! c).
Proof.
  intros HW' HM' Ht Hn Hr. unfold handleLivenessResult.
  assert (∀ evs : list HealthEvent, Started c ∉ evs → recorded (ts ++ if bool_decide (Started c ∈ evs) then [rs_now i] else [])
    (rs_now i) (hm_restartAttempts hm !! c) (hm_lastRestartTime hm !! c)) as Hsame.
  { intros evs He. rewrite bool_decide_eq_false_2, app_nil_r by done. eapply recorded_mono; [done|lia]. }
  destruct (pr_Success result); [by apply Hsame, not_elem_of_nil|].
  destruct (_ <=? _); [|by apply Hsame, not_elem_of_nil].
  destruct (shouldRestart _ _ _) eqn:Hs; [|apply Hsame; cbn [snd]; set_solver].
  unfold restartContainer. destruct (rs_stop i); [by apply Hsame, not_elem_of_nil|].
  destruct (rs_start i); [apply Hsame; cbn [snd]; set_solver|]. cbn [fst snd app].
  rewrite bool_decide_eq_true_2 by set_solver. unfold recordRestart, getRestartCount in *. rewrite HW'. simpl.
  rewrite !lookup_insert_eq. unfold shouldRestart, getRestartCount in Hs. rewrite HW', HM' in Hs.
  destruct (hm_lastRestartTime hm !! c) as [last|] eqn:Hl; [|by eapply recorded_reset].
  rewrite time_Sub_gt in Hs |- * by done.
  destruct (Z.ltb_spec W (rs_since i - last)) as [Hg|Hg].
  - eapply recorded_reset; [done|]. intros l [= <-]. lia.
  - destruct (Z.ltb_spec W (rs_check i - last)) as [|Hg']; [lia|].
    destruct (hm_restartAttempts hm !! c) as [n|]; simpl in Hs |- *.
    + eapply recorded_more; [done|by apply Z.ltb_lt|]. destruct Hr as (? & _). lia.
    + by destruct Hr as (_ & _ & ? & ? & _ & [=] & _).
Qed.
End limit.

Lemma restarts_recorded `{GoRange} W M c ops :
  0 ≤ W < 2 ^ 63 - 1 → M < 2 ^ 63 → ∀ hm ts t,
  keyed hm → hm_restartWindow hm = W → hm_maxRestarts hm = M → clock_ok c t ops →
  recorded W M ts t (hm_restartAttempts hm !! c) (hm_lastRestartTime hm !! c) →
  within_limit W M (ts ++ restart_times c ops hm).
Proof.
  intros HW HM. induction ops as [|o ops IH]; intros hm ts t Hk HW' HM' Hclock Hr.
  { rewrite app_nil_r. by eapply recorded_limit. }
  cbn [restart_times]. rewrite app_assoc. pose proof (exec_keyed o hm Hk) as Hk'.
  destruct o as [i pe|id l r|id].
  - destruct Hclock as (H1 & H2 & H3).
    pose proof (check_seen i pe hm c Hk) as [Hs Hc]. cbn [hexec restarted] in *.
    unfold settings in Hs. injection Hs as _ Hm Hw _.
    assert (bool_decide (Started c ∈ (checkProbeHealth i pe hm).2) =
            bool_decide (Started c ∈ about c (checkProbeHealth i pe hm).2)) as Hab.
    { apply bool_decide_ext. unfold about. rewrite !list_elem_of_In, filter_In. simpl. rewrite bool_decide_eq_true_2 by done. tauto. }
    apply (IH _ _ (rs_now (i c))); [done|congruence|congruence|done|]. rewrite Hab.
    destruct (hm_containers hm !! c) as [cfg|] eqn:Hcfg.
    + destruct Hc as [(-> & -> & _)%cell_eq ->]. assert (cp_containerID cfg = c) as Hid by (by apply Hk).
      unfold check_container. rewrite Hid.
      set (live := match cp_livenessConfig cfg, GetProbeResult c "liveness" pe with
        | Some config, Some result => handleLivenessResult (i c) c result config hm | _, _ => (hm, []) end).
      assert (recorded W M (ts ++ if bool_decide (Started c ∈ live.2) then [rs_now (i c)] else []) (rs_now (i c))
        (hm_restartAttempts live.1 !! c) (hm_lastRestartTime live.1 !! c)) as Hlive.
      { unfold live. destruct (cp_livenessConfig cfg) as [lc|]; [destruct (GetProbeResult c "liveness" pe) as [res|]|].
        1: by apply (liveness_recorded W M HW HM c (i c) res lc hm ts t).
        all: rewrite bool_decide_eq_false_2 by apply not_elem_of_nil; rewrite app_nil_r; eapply recorded_mono; [done|lia]. }
      destruct live as [hm1 e1]. cbn [fst snd] in *.
      destruct (cp_readinessConfig cfg); [|simpl; by rewrite app_nil_r].
      destruct (GetProbeResult c "readiness" pe) as [res|]; [|simpl; by rewrite app_nil_r].
      unfold handleReadinessResult. cbn [fst snd]. simpl.
      assert (bool_decide (Started c ∈ e1 ++ (if bool_decide (hm_previousReadiness hm1 !! c = Some (pr_Success res)) then []
        else [ReadinessChange c (pr_Success res)])) = bool_decide (Started c ∈ e1)) as ->; [|done].
      apply bool_decide_ext. rewrite elem_of_app. split; [|by left]. intros [?|Hx]; [done|].
      destruct (bool_decide (hm_previousReadiness hm1 !! c = _)); [by apply elem_of_nil in Hx|by apply list_elem_of_singleton in Hx].
    + destruct Hc as [(-> & -> & _)%cell_eq ->]. rewrite bool_decide_eq_false_2 by apply not_elem_of_nil.
      rewrite app_nil_r. eapply recorded_mono; [done|lia].
  - cbn [restarted]. rewrite app_nil_r. by apply (IH _ _ t).
  - cbn [restarted]. rewrite app_nil_r. by apply (IH _ _ t).
Qed.

(** C26: restarts are limited: whatever the probes and the runtime answer, in a
    history of checks and registrations on a clock that does not go back, no
    window as long as the restart window has more recorded restarts of a
    container than the limit, which is at least one. *)
Theorem restarts_limited `{GoRange} window max c t0 ops :
  0 ≤ window < 2 ^ 63 - 1 → max < 2 ^ 63 → clock_ok c t0 ops →
  let hm := SetRestartWindow window (SetMaxRestarts max NewHealthMonitor) in
  ∀ t, len (List.filter (in_window window t) (restart_times c ops hm)) ≤ Z.max 1 max.
Proof.
  intros Hw Hm Hclock hm. apply (restarts_recorded window max c ops Hw Hm hm [] t0); done.
Qed.

(** ** Readiness *)

(** What is seen of a container's readiness: a result, or that it is gone. *)
Definition seen (c : string) (o : hop) (hm : HealthMonitor) : list (option bool) :=
  match o with
  | HCheck _ pe =>
      match hm_containers hm !! c ≫= cp_readinessConfig, GetProbeResult c "readiness" pe with
      | Some _, Some result => [Some (pr_Success result)]
      | _, _ => []
      end
  | HUnregister id => if id =?s c then [None] else []
  | HRegister _ _ _ => []
  end.

Fixpoint all_seen `{GoRange} (c : string) (ops : list hop) (hm : HealthMonitor) : list (option bool) :=
  match ops with
  | [] => []
  | o :: ops => seen c o hm ++ all_seen c ops (hexec o hm).1
  end.

(** A result is a change when it differs from the one before. *)
Fixpoint changes (previous : option bool) (l : list (option bool)) : list bool :=
  match l with
  | [] => []
  | None :: l => changes None l
  | Some b :: l =>
      if bool_decide (previous = Some b) then changes previous l else b :: changes (Some b) l
  end.

Fixpoint hrun `{GoRange} (ops : list hop) (hm : HealthMonitor) : HealthMonitor * list HealthEvent :=
  match ops with
  | [] => (hm, [])
  | o :: ops => let '(hm, events) := hexec o hm in let '(hm, more) := hrun ops hm in (hm, events ++ more)
  end.

(** The changes reported for a container. *)
Definition reported (c : string) (events : list HealthEvent) : list bool :=
  omap (fun e => match e with ReadinessChange id b => if id =?s c then Some b else None | _ => None end) events.

Lemma reported_app c l k : reported c (l ++ k) = reported c l ++ reported c k.
Proof. apply omap_app. Qed.

Lemma reported_about c l : reported c l = reported c (about c l).
Proof.
  induction l as [|e l IH]; [done|]. unfold about. cbn [List.filter]. destruct (event_id e =?s c) eqn:He.
  - cbn [reported omap list_omap]. case_match; [f_equal|]; apply IH.
  - etrans; [|exact IH]. unfold reported. cbn [omap list_omap]. destruct e; try done. simpl in He. by rewrite He.
Qed.

Lemma liveness_reports i c result config hm :
  reported c (handleLivenessResult i c result config hm).2 = [].
Proof. unfold handleLivenessResult, restartContainer. repeat case_match; by simplify_eq/=. Qed.

(** One operation. *)
Lemma exec_readiness `{GoRange} c o hm l :
  keyed hm →
  changes (hm_previousReadiness hm !! c) (seen c o hm ++ l) =
  reported c (hexec o hm).2 ++ changes (hm_previousReadiness (hexec o hm).1 !! c) l.
Proof.
  intros Hk. destruct o as [i pe|id lc rc|id]; cbn [seen hexec].
  - pose proof (check_seen i pe hm c Hk) as [_ Hc]. rewrite reported_about.
    destruct (hm_containers hm !! c) as [cfg|] eqn:Hcfg; cbn [mbind option_bind].
    + destruct Hc as [(_ & _ & ->)%cell_eq ->]. assert (cp_containerID cfg = c) as Hid by (by apply Hk).
      unfold check_container. rewrite Hid.
      set (live := match cp_livenessConfig cfg, GetProbeResult c "liveness" pe with
        | Some config, Some result => handleLivenessResult (i c) c result config hm | _, _ => (hm, []) end).
      assert (hm_previousReadiness live.1 = hm_previousReadiness hm ∧ reported c live.2 = []) as [Hp He].
      { unfold live. destruct (cp_livenessConfig cfg); [|done]. destruct (GetProbeResult c "liveness" pe); [|done].
        split; [apply liveness_cell|apply liveness_reports]. }
      destruct live as [hm1 e1]. cbn [fst snd] in *.
      destruct (cp_readinessConfig cfg); [|simpl; by rewrite app_nil_r, He, Hp].
      destruct (GetProbeResult c "readiness" pe) as [res|]; [|simpl; by rewrite app_nil_r, He, Hp].
      unfold handleReadinessResult. cbn [fst snd app changes]. rewrite reported_app, He, Hp. simpl.
      rewrite lookup_insert_eq. case_bool_decide as Hsame; [by rewrite Hsame|].
      cbn [reported omap list_omap]. unfold reported. simpl. by rewrite bool_decide_eq_true_2.
    + by destruct Hc as [(_ & _ & ->)%cell_eq ->].
  - done.
  - simpl. case_bool_decide as Hid; [subst; by rewrite lookup_delete_eq|by rewrite lookup_delete_ne].
Qed.

Lemma run_readiness `{GoRange} c ops : ∀ hm,
  keyed hm → reported c (hrun ops hm).2 = changes (hm_previousReadiness hm !! c) (all_seen c ops hm).
Proof.
  induction ops as [|o ops IH]; intros hm Hk; [done|]. cbn [all_seen hrun].
  rewrite exec_readiness by done. pose proof (exec_keyed o hm Hk) as Hk'.
  destruct (hexec o hm) as [hm1 e1]. cbn [fst snd] in *. rewrite <-IH by done.
  destruct (hrun ops hm1) as [hm2 e2]. cbn [fst snd]. apply reported_app.
Qed.

(** *** Reports *)

Definition report_all (l : list (Z * HealthEvent)) (reports : Reports) : Reports :=
  fold_left (fun reports te => report_event te.1 reports te.2) l reports.

(** The readiness a report shows. *)
Definition shown_ready (reports : Reports) (c : string) : option bool :=
  msg.readiness_healthy <$> reports !! c.

Lemma report_event_ready now reports e c :
  shown_ready (report_event now reports e) c =
  match e with
  | ReadinessChange id b => if id =?s c then Some b else shown_ready reports c
  | LivenessFailure id _ =>
      if id =?s c then Some (default false (shown_ready reports c)) else shown_ready reports c
  | _ => shown_ready reports c
  end.
Proof.
  unfold shown_ready. destruct e as [id|id|id n|id b]; try done; cbn [report_event];
    unfold on_liveness_failure, on_readiness_change;
    (case_bool_decide as Hid; [subst; rewrite lookup_insert_eq|by rewrite lookup_insert_ne]);
    destruct (reports !! c) as [h|]; simpl; try done. by destruct b.
Qed.

Definition latest (l : list bool) (d : option bool) : option bool :=
  match last l with Some b => Some b | None => d end.

Lemma report_all_ready l c : ∀ reports,
  let b := latest (reported c l.*2) (shown_ready reports c) in
  shown_ready (report_all l reports) c = b ∨ b = None ∧ shown_ready (report_all l reports) c = Some false.
Proof.
  induction l as [|[now e] l IH]; intros reports; [by left|]. cbn [report_all fold_left] in *.
  specialize (IH (report_event now reports e)). cbn [fst snd] in *. unfold report_all in IH.
  rewrite (report_event_ready now reports e c) in IH. cbn [fmap list_fmap]. unfold reported in *. cbn [omap list_omap].
  unfold latest in *. destruct e as [id|id|id n|id b]; try exact IH; cbn [snd].
  - destruct (id =?s c); [|exact IH]. destruct (last _); [exact IH|]. destruct (shown_ready reports c); simpl in *; [exact IH|].
    right. split; [done|]. by destruct IH as [IH|[? _]].
  - destruct (id =?s c); [|exact IH]. rewrite last_cons.
    match goal with |- context [last ?x] => destruct (last x) end; exact IH.
Qed.

Lemma report_all_live l c : ∀ reports,
  (∀ c h, reports !! c = Some h → msg.liveness_healthy h = false) →
  ∀ h, report_all l reports !! c = Some h → msg.liveness_healthy h = false.
Proof.
  induction l as [|[now e] l IH]; intros reports Hr; [apply Hr|]. cbn [report_all fold_left].
  apply IH. cbn [fst snd]. intros c' h. destruct e as [id|id|id n|id b]; cbn [report_event]; try apply Hr;
    unfold on_liveness_failure, on_readiness_change;
    intros [[<- <-]|[_ Hl]]%lookup_insert_Some; try (by eapply Hr);
    destruct (reports !! id) as [h'|] eqn:Hh; simpl; try done. destruct b; simpl; by eapply Hr.
Qed.

(** C27: readiness is reported as it is seen: for every history of checks and
    registrations the changes reported for a container are those among the
    results seen, where a container that was unregistered starts anew, and the
    report in the heartbeat shows the last of them.  The liveness in a report
    is always false. *)
Theorem readiness_reported `{GoRange} c ops times reports :
  let events := (hrun ops NewHealthMonitor).2 in
  length times = length events → reports = report_all (zip times events) ∅ →
  reported c events = changes None (all_seen c ops NewHealthMonitor) ∧
  (∀ b, last (changes None (all_seen c ops NewHealthMonitor)) = Some b →
     msg.readiness_healthy <$> reports !! c = Some b) ∧
  (∀ h, reports !! c = Some h → msg.liveness_healthy h = false).
Proof.
  intros events Hl ->. assert (reported c events = changes None (all_seen c ops NewHealthMonitor)) as Hrep.
  { by apply run_readiness. }
  split; [done|]. split.
  - intros b Hb. destruct (report_all_ready (zip times events) c ∅) as [Hs|[Hn _]].
    + rewrite snd_zip in Hs by lia. unfold latest in Hs. rewrite Hrep, Hb in Hs. exact Hs.
    + rewrite snd_zip in Hn by lia. unfold latest in Hn. rewrite Hrep, Hb in Hn. done.
  - apply report_all_live. intros c' h Hc. by rewrite lookup_empty in Hc.
Qed.

(** ** Concrete runs *)

Module HealthRuns.

#[local] Existing Instance range_canonical.

Definition tcp : ProbeConfig := {|
  pc_Type := ProbeTypeTCP; pc_HTTPGet := None; pc_TCPSocket := Some {| tp_Port := 80 |}; pc_Exec := None;
  pc_InitialDelaySeconds := 1; pc_PeriodSeconds := 10; pc_TimeoutSeconds := 1; pc_SuccessThreshold := 1;
  pc_FailureThreshold := 3 |}.

Definition env (answer : option string) : ProbeEnv := {|
  env_request := fun _ => None; env_get := fun _ _ => Ok 200; env_dial := fun _ => answer;
  env_exec := fun _ _ => Ok (0, EmptyString) |}.

Definition probe (kind : string) (answer : option string) (pe : ProbeExecutor) : ProbeExecutor :=
  executeProbeInternal (env answer) 1
    {| px_ContainerID := "c1"; px_ContainerIP := "10.0.0.2"; px_ProbeType := kind; px_Config := tcp |} pe.

Definition refused : option string := Some "connection refused"%string.

(** Three probes fail; no more are run. *)
Definition failing : ProbeExecutor :=
  probe "liveness" refused (probe "liveness" refused (probe "liveness" refused NewProbeExecutor)).

Definition at_time (start : option string) (t : Z) (id : string) : RestartInputs :=
  {| rs_check := t; rs_stop := None; rs_start := start; rs_since := t; rs_now := t |}.

(** [n] checks, five seconds apart. *)
Definition checks (start : option string) (n : nat) : list hop :=
  HRegister "c1" (Some tcp) None :: map (fun k => HCheck (at_time start (Z.of_nat k * 5 * second)) failing) (seq 1 n).

(** The result of the last probe stays: every check restarts the container
    again, without a probe in between, until the limit is reached. *)
Example restarted_without_new_probe :
  restart_times "c1" (checks None 8) NewHealthMonitor =
    [5 * second; 10 * second; 15 * second; 20 * second; 25 * second].
Proof. vm_compute. reflexivity. Qed.

(** Restarts that fail are not counted: the container is stopped in every check. *)
Example failed_restarts_unlimited :
  len (List.filter (fun e => bool_decide (e = Stopped "c1"))
    (hrun (checks (Some "no image"%string) 20) NewHealthMonitor).2) = 20.
Proof. vm_compute. reflexivity. Qed.

Lemma restarts_limited_witness :
  len (List.filter (in_window (5 * minute) 0) (restart_times "c1" (checks None 8) NewHealthMonitor)) ≤ 5.
Proof.
  apply (restarts_limited (5 * minute) 5 "c1" 0 (checks None 8)).
  - split; [discriminate|reflexivity].
  - reflexivity.
  - vm_compute. repeat split; discriminate.
Defined.

(** Ready, not ready twice, ready, unregistered and ready again. *)
Definition ready_checks : list hop :=
  let up := probe "readiness" None NewProbeExecutor in
  let down := probe "readiness" refused up in
  [HRegister "c1" None (Some tcp); HCheck (at_time None 1) up; HCheck (at_time None 2) down;
   HCheck (at_time None 3) down; HCheck (at_time None 4) up; HUnregister "c1";
   HRegister "c1" None (Some tcp); HCheck (at_time None 5) up].

Lemma readiness_reported_witness :
  reported "c1" (hrun ready_checks NewHealthMonitor).2 = [true; false; true; true] ∧
  msg.readiness_healthy <$> report_all (zip [1; 2; 4; 5] (hrun ready_checks NewHealthMonitor).2) ∅ !! "c1"%string
    = Some true.
Proof.
  destruct (readiness_reported "c1" ready_checks [1; 2; 4; 5]
    (report_all (zip [1; 2; 4; 5] (hrun ready_checks NewHealthMonitor).2) ∅)) as (Hr & Hb & _).
  - vm_compute. reflexivity.
  - reflexivity.
  - split.
    + rewrite Hr. vm_compute. reflexivity.
    + apply Hb. vm_compute. reflexivity.
Defined.

(** Clearing the results of a container clears those of another whose
    identifier starts with the same characters. *)
Example cleared_by_prefix :
  let pe := executeProbeInternal (env None) 1
    {| px_ContainerID := "c10"; px_ContainerIP := "10.0.0.3"; px_ProbeType := "liveness"; px_Config := tcp |}
    NewProbeExecutor in
  is_Some (GetProbeResult "c10" "liveness" pe) ∧ GetProbeResult "c10" "liveness" (ClearProbeResults "c1" pe) = None.
Proof. vm_compute. split; [eauto|reflexivity]. Qed.

(** A worker that receives from the closed queue reads the configuration of
    nil. *)
Example worker_after_stop : (Stop NewProbeExecutor ≫= probeWorker (env None) 1) = None.
Proof. reflexivity. Qed.

End HealthRuns.
