(* ===== verification/Workloads.v ===== *)
(** * The state of workloads (pkg/coordinator/state_manager.go)

    [WorkloadStateManager] keeps the state of every workload in the Raft store
    and in a cache.  The cache holds pointers, the callers of [GetWorkload]
    change the objects they point to, and [SaveWorkload] writes such an object
    out: the objects are modelled as a heap, so a change is seen by every
    reader of this coordinator before it is saved, and whether it is saved or
    not.  Clock readings and the answers of the consensus library are
    arguments; the JSON encoding of a workload is the class [WorkloadCodec]. *)

From S2P Require Import Prelude GoText GoFloat Node Scorer RaftFSM.

Local Open Scope string_scope.
Local Open Scope Z_scope.

Definition WorkloadStatusPending : string := "Pending".
Definition WorkloadStatusScheduling : string := "Scheduling".
Definition WorkloadStatusRunning : string := "Running".
Definition WorkloadStatusUpdating : string := "Updating".
Definition WorkloadStatusScaling : string := "Scaling".
Definition WorkloadStatusFailed : string := "Failed".
Definition WorkloadStatusCompleted : string := "Completed".
Definition WorkloadStatusDeleting : string := "Deleting".

Definition ReplicaStatusPending : string := "Pending".
Definition ReplicaStatusScheduled : string := "Scheduled".
Definition ReplicaStatusStarting : string := "Starting".
Definition ReplicaStatusRunning : string := "Running".
Definition ReplicaStatusStopping : string := "Stopping".
Definition ReplicaStatusStopped : string := "Stopped".
Definition ReplicaStatusFailed : string := "Failed".

Record ReplicaState := {
  re_ID : string;
  re_NodeID : string;
  re_NodeName : string;
  re_FragmentID : string;
  re_Status : string;
  re_Ready : bool;
  re_Message : string;
  re_CreatedAt : Z;
  re_StartedAt : option Z;
  re_StoppedAt : option Z;
  re_LivenessHealthy : bool;
  re_LivenessConsecutiveFailures : Z;
  re_LivenessLastCheckTime : Z;
  re_ReadinessHealthy : bool;
  re_ReadinessConsecutiveFailures : Z;
  re_ReadinessLastCheckTime : Z;
  re_ContainerID : string
}.

#[export] Instance eta_ReplicaState : Eta ReplicaState := fun r =>
  Build_ReplicaState (re_ID r) (re_NodeID r) (re_NodeName r) (re_FragmentID r) (re_Status r)
    (re_Ready r) (re_Message r) (re_CreatedAt r) (re_StartedAt r) (re_StoppedAt r)
    (re_LivenessHealthy r) (re_LivenessConsecutiveFailures r) (re_LivenessLastCheckTime r)
    (re_ReadinessHealthy r) (re_ReadinessConsecutiveFailures r) (re_ReadinessLastCheckTime r)
    (re_ContainerID r).

Record VolumeMount := { vmt_Name : string; vmt_MountPath : string; vmt_ReadOnly : bool }.

Record PortMapping := { pm_Name : string; pm_ContainerPort : Z; pm_Protocol : string }.

(** [Annotations] is [None] for the nil map. *)
Record WorkloadState := {
  wl_ID : string;
  wl_Name : string;
  wl_Namespace : string;
  wl_Image : string;
  wl_Command : list string;
  wl_Args : list string;
  wl_Env : gmap string string;
  wl_Volumes : list VolumeMount;
  wl_Ports : list PortMapping;
  wl_Resources : ResourceRequirements;
  wl_Placement : PlacementPolicy;
  wl_Restart : RestartPolicy;
  wl_Rollout : RolloutStrategy;
  wl_Priority : Z;
  wl_Labels : gmap string string;
  wl_Annotations : option (gmap string string);
  wl_DesiredReplicas : Z;
  wl_Status : string;
  wl_Replicas : list ReplicaState;
  wl_CurrentReplicas : Z;
  wl_ReadyReplicas : Z;
  wl_AvailableReplicas : Z;
  wl_CreatedAt : Z;
  wl_UpdatedAt : Z;
  wl_DeletedAt : option Z
}.

#[export] Instance eta_WorkloadState : Eta WorkloadState := fun w =>
  Build_WorkloadState (wl_ID w) (wl_Name w) (wl_Namespace w) (wl_Image w) (wl_Command w)
    (wl_Args w) (wl_Env w) (wl_Volumes w) (wl_Ports w) (wl_Resources w) (wl_Placement w)
    (wl_Restart w) (wl_Rollout w) (wl_Priority w) (wl_Labels w) (wl_Annotations w)
    (wl_DesiredReplicas w) (wl_Status w) (wl_Replicas w) (wl_CurrentReplicas w)
    (wl_ReadyReplicas w) (wl_AvailableReplicas w) (wl_CreatedAt w) (wl_UpdatedAt w)
    (wl_DeletedAt w).

(** [json.Marshal] and [json.Unmarshal] of a workload. *)
Class WorkloadCodec : Type := {
  workload_marshal : WorkloadState → result string string;
  workload_unmarshal : string → result string WorkloadState
}.

(** ** The heap of workloads *)

Abbreviation ptr := nat.

(** [wsm_next] is the next pointer that is not in use. *)
Record WorkloadStateManager := {
  wsm_store : Store;
  wsm_objects : gmap ptr WorkloadState;
  wsm_next : ptr;
  wsm_cache : gmap string ptr
}.

#[export] Instance eta_WorkloadStateManager : Eta WorkloadStateManager := fun m =>
  Build_WorkloadStateManager (wsm_store m) (wsm_objects m) (wsm_next m) (wsm_cache m).

(** Pointers are valid wherever the code follows one. *)
Definition zero_spec : ResourceSpec := {|
  rs_CPUMillicores := 0; rs_MemoryBytes := 0; rs_StorageBytes := 0; rs_BandwidthBPS := 0;
  rs_GPUCount := 0 |}.

Definition no_placement_policy : PlacementPolicy := {|
  pp_Regions := []; pp_Zones := []; pp_NodeSelector := ∅; pp_Affinity := [];
  pp_AntiAffinity := []; pp_Tolerations := []; pp_SpreadTopology := "" |}.

Definition zero_workload : WorkloadState := {|
  wl_ID := ""; wl_Name := ""; wl_Namespace := ""; wl_Image := ""; wl_Command := [];
  wl_Args := []; wl_Env := ∅; wl_Volumes := []; wl_Ports := [];
  wl_Resources := {| rr_Requests := zero_spec; rr_Limits := zero_spec |};
  wl_Placement := no_placement_policy;
  wl_Restart := {| rp_Policy := ""; rp_MaxRetries := 0; rp_Backoff := 0 |};
  wl_Rollout := {| ro_Strategy := ""; ro_MaxSurge := 0; ro_MaxUnavailable := 0;
                   ro_MinAvailable := 0; ro_PauseDuration := 0 |};
  wl_Priority := 0; wl_Labels := ∅; wl_Annotations := None; wl_DesiredReplicas := 0;
  wl_Status := ""; wl_Replicas := []; wl_CurrentReplicas := 0; wl_ReadyReplicas := 0;
  wl_AvailableReplicas := 0; wl_CreatedAt := 0; wl_UpdatedAt := 0; wl_DeletedAt := None |}.

Definition deref (m : WorkloadStateManager) (p : ptr) : WorkloadState :=
  default zero_workload (wsm_objects m !! p).

Definition assign (p : ptr) (w : WorkloadState) (m : WorkloadStateManager)
    : WorkloadStateManager :=
  m <| wsm_objects := <[p := w]> (wsm_objects m) |>.

Definition alloc (w : WorkloadState) (m : WorkloadStateManager) : WorkloadStateManager * ptr :=
  let p := wsm_next m in (assign p w (m <| wsm_next := S p |>), p).

Definition workload_key (id : string) : string := "workload:" +:+ id.

Section manager.
Context `{GoRange, WorkloadCodec}.

(** Writing a workload to the store; a single command does not make the state
    machine panic. *)
Definition write_workload (ans : raft_answer) (w : WorkloadState) (m : WorkloadStateManager)
    : WorkloadStateManager * option string :=
  match workload_marshal w with
  | Err e => (m, Some ("failed to marshal workload: " +:+ e))
  | Ok data =>
      match Store_Set (workload_key (wl_ID w)) data ans (wsm_store m) with
      | Some (s, None) => (m <| wsm_store := s |>, None)
      | Some (s, Some e) => (m <| wsm_store := s |>, Some ("failed to write to RAFT: " +:+ e))
      | None => (m, None)
      end
  end.

Definition SaveWorkload (now : Z) (ans : raft_answer) (p : ptr) (m : WorkloadStateManager)
    : WorkloadStateManager * option string :=
  let workload := (deref m p) <| wl_UpdatedAt := now |> in
  let m := assign p workload m in
  match write_workload ans workload m with
  | (m, Some e) => (m, Some e)
  | (m, None) => (m <| wsm_cache := <[wl_ID workload := p]> (wsm_cache m) |>, None)
  end.

(** A value that is empty is nil in Go. *)
Definition GetWorkload (read : Z) (workloadID : string) (m : WorkloadStateManager)
    : WorkloadStateManager * result string ptr :=
  match wsm_cache m !! workloadID with
  | Some p => (m, Ok p)
  | None =>
      match Store_Get read (workload_key workloadID) (wsm_store m) with
      | Err e => (m, Err ("failed to read from RAFT: " +:+ e))
      | Ok data =>
          if data =?s "" then (m, Err ("workload not found: " +:+ workloadID))
          else match workload_unmarshal data with
          | Err e => (m, Err ("failed to unmarshal workload: " +:+ e))
          | Ok w =>
              let '(m, p) := alloc w m in
              (m <| wsm_cache := <[workloadID := p]> (wsm_cache m) |>, Ok p)
          end
      end
  end.

(** A label that is absent reads as the empty text. *)
Definition label_is (labels : gmap string string) (kv : string * string) : bool :=
  default "" (labels !! kv.1) =?s kv.2.

Definition listed (namespace : string) (labels : gmap string string) (w : WorkloadState) : bool :=
  if negb (bool_decide (wl_DeletedAt w = None)) then false
  else if negb (namespace =?s "") && negb (wl_Namespace w =?s namespace) then false
  else if (0 <? Z.of_nat (size labels)) && negb (forallb (label_is (wl_Labels w)) (range_map labels))
  then false
  else true.

Definition ListWorkloads (namespace : string) (labels : gmap string string)
    (m : WorkloadStateManager) : list ptr :=
  List.filter (fun p => listed namespace labels (deref m p)) (range_map (wsm_cache m)).*2.

(** The operations that follow a [GetWorkload], change the object and save
    it.  The first reading of the clock is that of the store's read. *)
Definition with_workload (read : Z) (workloadID : string)
    (change : WorkloadState → result string WorkloadState) (now : Z) (ans : raft_answer)
    (m : WorkloadStateManager) : WorkloadStateManager * option string :=
  match GetWorkload read workloadID m with
  | (m, Err e) => (m, Some e)
  | (m, Ok p) =>
      match change (deref m p) with
      | Err e => (m, Some e)
      | Ok w => SaveWorkload now ans p (assign p w m)
      end
  end.

Definition deleted_state (at_ : Z) (w : WorkloadState) : WorkloadState :=
  w <| wl_DeletedAt := Some at_ |> <| wl_Status := WorkloadStatusDeleting |>.

Definition DeleteWorkload (read at_ now : Z) (ans : raft_answer) (workloadID : string)
    : WorkloadStateManager → WorkloadStateManager * option string :=
  with_workload read workloadID (fun w => Ok (deleted_state at_ w)) now ans.

Definition PurgeWorkload (ans : raft_answer) (workloadID : string) (m : WorkloadStateManager)
    : WorkloadStateManager * option string :=
  match Store_Delete (workload_key workloadID) ans (wsm_store m) with
  | Some (s, None) =>
      (m <| wsm_store := s |> <| wsm_cache := delete workloadID (wsm_cache m) |>, None)
  | Some (s, Some e) => (m <| wsm_store := s |>, Some ("failed to delete from RAFT: " +:+ e))
  | None => (m, None)
  end.

Definition status_state (status message : string) (w : WorkloadState) : WorkloadState :=
  let w := w <| wl_Status := status |> in
  if message =?s "" then w
  else w <| wl_Annotations :=
         Some (<["status_message" := message]> (default ∅ (wl_Annotations w))) |>.

Definition UpdateWorkloadStatus (read now : Z) (ans : raft_answer)
    (workloadID status message : string)
    : WorkloadStateManager → WorkloadStateManager * option string :=
  with_workload read workloadID (fun w => Ok (status_state status message w)) now ans.

Definition add_replica_state (replica : ReplicaState) (w : WorkloadState) : WorkloadState :=
  let replicas := app (wl_Replicas w) [replica] in
  w <| wl_Replicas := replicas |> <| wl_CurrentReplicas := int32 (len replicas) |>.

Definition AddReplica (read now : Z) (ans : raft_answer) (workloadID : string)
    (replica : ReplicaState) : WorkloadStateManager → WorkloadStateManager * option string :=
  with_workload read workloadID (fun w => Ok (add_replica_state replica w)) now ans.

(** The first replica with the identifier is changed. *)
Fixpoint update_replica_in (replicaID : string) (f : ReplicaState → ReplicaState)
    (l : list ReplicaState) : option (list ReplicaState) :=
  match l with
  | [] => None
  | r :: l =>
      if re_ID r =?s replicaID then Some (f r :: l)
      else cons r <$> update_replica_in replicaID f l
  end.

Definition replica_update (at_ : Z) (status : string) (ready : bool) (message : string)
    (r : ReplicaState) : ReplicaState :=
  let r := r <| re_Status := status |> <| re_Ready := ready |> <| re_Message := message |> in
  let r := if (status =?s ReplicaStatusRunning) && bool_decide (re_StartedAt r = None)
           then r <| re_StartedAt := Some at_ |> else r in
  if (status =?s ReplicaStatusStopped) || (status =?s ReplicaStatusFailed)
  then r <| re_StoppedAt := Some at_ |> else r.

(** The counting loop that [UpdateReplica] and [UpdateReplicaHealth] share. *)
Definition count_if (f : ReplicaState → bool) (l : list ReplicaState) : Z :=
  foldl (fun n r => if f r then int32 (n + 1) else n) 0 l.

Definition is_running (r : ReplicaState) : bool := re_Status r =?s ReplicaStatusRunning.

Definition recount (w : WorkloadState) : WorkloadState :=
  w <| wl_ReadyReplicas := count_if re_Ready (wl_Replicas w) |>
    <| wl_AvailableReplicas := count_if is_running (wl_Replicas w) |>.

Definition update_replica_state (at_ : Z) (replicaID status : string) (ready : bool)
    (message : string) (w : WorkloadState) : result string WorkloadState :=
  match update_replica_in replicaID (replica_update at_ status ready message) (wl_Replicas w) with
  | None => Err ("replica not found: " +:+ replicaID)
  | Some l => Ok (recount (w <| wl_Replicas := l |>))
  end.

Definition UpdateReplica (read at_ now : Z) (ans : raft_answer)
    (workloadID replicaID status : string) (ready : bool) (message : string)
    : WorkloadStateManager → WorkloadStateManager * option string :=
  with_workload read workloadID (update_replica_state at_ replicaID status ready message) now ans.

(** The parameters of a report on the health probes of one container. *)
Record ContainerHealth := {
  ch_ContainerId : string;
  ch_LivenessHealthy : bool;
  ch_LivenessConsecutiveFailures : Z;
  ch_ReadinessHealthy : bool;
  ch_ReadinessConsecutiveFailures : Z
}.

Definition replica_health (live ready : Z) (h : ContainerHealth) (r : ReplicaState)
    : ReplicaState :=
  r <| re_LivenessHealthy := ch_LivenessHealthy h |>
    <| re_LivenessConsecutiveFailures := ch_LivenessConsecutiveFailures h |>
    <| re_LivenessLastCheckTime := live |>
    <| re_ReadinessHealthy := ch_ReadinessHealthy h |>
    <| re_ReadinessConsecutiveFailures := ch_ReadinessConsecutiveFailures h |>
    <| re_ReadinessLastCheckTime := ready |>
    <| re_Ready := ch_ReadinessHealthy h |>.

(** The first replica of the list with the container. *)
Fixpoint update_container (containerID : string) (f : ReplicaState → ReplicaState)
    (l : list ReplicaState) : option (list ReplicaState) :=
  match l with
  | [] => None
  | r :: l =>
      if re_ContainerID r =?s containerID then Some (f r :: l)
      else cons r <$> update_container containerID f l
  end.

(** The first workload of the cache with such a replica, with its pointer. *)
Fixpoint find_container (containerID : string) (f : ReplicaState → ReplicaState)
    (m : WorkloadStateManager) (ps : list ptr) : option (ptr * list ReplicaState) :=
  match ps with
  | [] => None
  | p :: ps =>
      match update_container containerID f (wl_Replicas (deref m p)) with
      | Some l => Some (p, l)
      | None => find_container containerID f m ps
      end
  end.

(** [live], [ready] and [now] are the three readings of the clock. *)
Definition UpdateReplicaHealth (live ready now : Z) (ans : raft_answer) (h : ContainerHealth)
    (m : WorkloadStateManager) : WorkloadStateManager * option string :=
  match find_container (ch_ContainerId h) (replica_health live ready h) m
          (range_map (wsm_cache m)).*2 with
  | None => (m, None)
  | Some (p, l) =>
      let w := (recount ((deref m p) <| wl_Replicas := l |>)) <| wl_UpdatedAt := now |> in
      write_workload ans w (assign p w m)
  end.

Definition remove_replica_state (replicaID : string) (w : WorkloadState) : WorkloadState :=
  let replicas := List.filter (fun r => negb (re_ID r =?s replicaID)) (wl_Replicas w) in
  w <| wl_Replicas := replicas |> <| wl_CurrentReplicas := int32 (len replicas) |>.

Definition RemoveWorkloadReplica (read now : Z) (ans : raft_answer)
    (workloadID replicaID : string)
    : WorkloadStateManager → WorkloadStateManager * option string :=
  with_workload read workloadID (fun w => Ok (remove_replica_state replicaID w)) now ans.

(** ** Starting *)

Definition load_workload (read : string → Z) (m : WorkloadStateManager) (key : string)
    : WorkloadStateManager :=
  match Store_Get (read key) key (wsm_store m) with
  | Err _ => m
  | Ok data =>
      match workload_unmarshal data with
      | Err _ => m
      | Ok w =>
          let '(m, p) := alloc w m in
          m <| wsm_cache := <[wl_ID w := p]> (wsm_cache m) |>
      end
  end.

(** [now] is the clock when the keys are listed. *)
Definition loadWorkloads (now : Z) (read : string → Z) (m : WorkloadStateManager)
    : WorkloadStateManager :=
  foldl (load_workload read) m (ListKeys "workload:" now (wsm_store m)).

Definition empty_manager (store : Store) : WorkloadStateManager :=
  {| wsm_store := store; wsm_objects := ∅; wsm_next := 0%nat; wsm_cache := ∅ |}.

(** [logger] tells whether a logger was given. *)
Definition NewWorkloadStateManager (now : Z) (read : string → Z) (store : option Store)
    (logger : bool) : result string WorkloadStateManager :=
  match store with
  | None => Err "raft store is required"
  | Some s =>
      if logger then Ok (loadWorkloads now read (empty_manager s))
      else Err "logger is required"
  end.

End manager.
