(* ===== verification/WorkloadsSpec.v ===== *)
(** * What the workload state manager promises

    The manager refines a pair of maps from identifiers to workloads: [mem],
    what the readers of this coordinator see, and [dur], what is in the
    replicated store and what a coordinator that starts again sees.  A change
    that is answered without an error is in both.  A change whose write fails
    is in [mem] alone: the caller has changed the object the cache points to. *)

From S2P Require Import Prelude GoText GoFloat Node Scorer RaftFSM Workloads.

(** What [encoding/json] promises of a workload: what is encoded decodes to a
    workload with the same identifier. *)
Class WorkloadCodecLaws `{WorkloadCodec} : Prop := {
  codec_reads : ∀ w v, workload_marshal w = Ok v →
    v ≠ EmptyString ∧ ∃ w', workload_unmarshal v = Ok w' ∧ wl_ID w' = wl_ID w
}.

Record WorkloadMaps := {
  mem : gmap string WorkloadState;
  dur : gmap string WorkloadState
}.

#[export] Instance eta_WorkloadMaps : Eta WorkloadMaps := fun s => Build_WorkloadMaps (mem s) (dur s).

Section spec.
Context `{GoRange, WorkloadCodec, !WorkloadCodecLaws}.

(** ** The abstract manager *)

(** A workload after it has been encoded and decoded. *)
Definition json_workload (w : WorkloadState) : WorkloadState :=
  match workload_marshal w with
  | Ok v => match workload_unmarshal v with Ok w' => w' | Err _ => w end
  | Err _ => w
  end.

(** The workload [id] becomes [w], and [err] is the answer of its write. *)
Definition put (id : string) (w : WorkloadState) (err : option string) (s : WorkloadMaps)
    : WorkloadMaps :=
  {| mem := <[id := w]> (mem s);
     dur := match err with None => <[id := json_workload w]> (dur s) | Some _ => dur s end |}.

(** The operations.  [WCreate] saves a new object, as the creation of a
    workload does; [WTouch] changes a cached object and does not save it; [WOther]
    is any write of another component to the shared store. *)
Inductive wop : Type :=
| WCreate (now : Z) (ans : raft_answer) (w : WorkloadState)
| WTouch (id : string) (f : WorkloadState → WorkloadState)
| WGet (read : Z) (id : string)
| WDelete (read at_ now : Z) (ans : raft_answer) (id : string)
| WPurge (ans : raft_answer) (id : string)
| WStatus (read now : Z) (ans : raft_answer) (id status message : string)
| WAdd (read now : Z) (ans : raft_answer) (id : string) (r : ReplicaState)
| WUpdate (read at_ now : Z) (ans : raft_answer) (id rid status : string) (ready : bool)
    (message : string)
| WHealth (live ready now : Z) (ans : raft_answer) (h : ContainerHealth)
| WRemove (read now : Z) (ans : raft_answer) (id rid : string)
| WRestart (now : Z) (read : string → Z)
| WOther (s : Store).

Definition wexec (o : wop) (m : WorkloadStateManager) : WorkloadStateManager * option string :=
  match o with
  | WCreate now ans w => let '(m, p) := alloc w m in SaveWorkload now ans p m
  | WTouch id f =>
      (match wsm_cache m !! id with Some p => assign p (f (deref m p)) m | None => m end, None)
  | WGet read id =>
      let '(m, r) := GetWorkload read id m in
      (m, match r with Ok _ => None | Err e => Some e end)
  | WDelete read at_ now ans id => DeleteWorkload read at_ now ans id m
  | WPurge ans id => PurgeWorkload ans id m
  | WStatus read now ans id status message => UpdateWorkloadStatus read now ans id status message m
  | WAdd read now ans id r => AddReplica read now ans id r m
  | WUpdate read at_ now ans id rid status ready message =>
      UpdateReplica read at_ now ans id rid status ready message m
  | WHealth live ready now ans h => UpdateReplicaHealth live ready now ans h m
  | WRemove read now ans id rid => RemoveWorkloadReplica read now ans id rid m
  | WRestart now read => (loadWorkloads now read (empty_manager (wsm_store m)), None)
  | WOther s => (m <| wsm_store := s |>, None)
  end.

(** The change of a workload that [mem] has. *)
Definition spec_change (id : string) (change : WorkloadState → result string WorkloadState)
    (now : Z) (err : option string) (s s' : WorkloadMaps) : Prop :=
  match mem s !! id with
  | None => s' = s ∧ err ≠ None
  | Some w =>
      match change w with
      | Err e => s' = s ∧ err = Some e
      | Ok w' => s' = put id (w' <| wl_UpdatedAt := now |>) err s
      end
  end.

(** What an operation that answers [err] does to the maps.  A report of health
    concerns any one of the workloads with a replica in that container. *)
Definition wspec (o : wop) (err : option string) (s s' : WorkloadMaps) : Prop :=
  match o with
  | WCreate now _ w =>
      match err with
      | None => s' = put (wl_ID w) (w <| wl_UpdatedAt := now |>) None s
      | Some _ => s' = s
      end
  | WTouch id f => s' = s <| mem := alter f id (mem s) |> ∧ err = None
  | WGet _ id => s' = s ∧ (err = None ↔ is_Some (mem s !! id))
  | WDelete _ at_ now _ id => spec_change id (fun w => Ok (deleted_state at_ w)) now err s s'
  | WPurge _ id =>
      s' = match err with
           | None => {| mem := delete id (mem s); dur := delete id (dur s) |}
           | Some _ => s
           end
  | WStatus _ now _ id status message =>
      spec_change id (fun w => Ok (status_state status message w)) now err s s'
  | WAdd _ now _ id r => spec_change id (fun w => Ok (add_replica_state r w)) now err s s'
  | WUpdate _ at_ now _ id rid status ready message =>
      spec_change id (update_replica_state at_ rid status ready message) now err s s'
  | WHealth live ready now _ h =>
      (s' = s ∧ err = None ∧
       ∀ id w, mem s !! id = Some w →
         update_container (ch_ContainerId h) (replica_health live ready h) (wl_Replicas w) = None) ∨
      (∃ id w l, mem s !! id = Some w ∧
         update_container (ch_ContainerId h) (replica_health live ready h) (wl_Replicas w) = Some l ∧
         s' = put id ((recount (w <| wl_Replicas := l |>)) <| wl_UpdatedAt := now |>) err s)
  | WRemove _ now _ id rid => spec_change id (fun w => Ok (remove_replica_state rid w)) now err s s'
  | WRestart _ _ => s' = {| mem := dur s; dur := dur s |} ∧ err = None
  | WOther _ => s' = s ∧ err = None
  end.

(** What the environment respects: a touched workload keeps its identifier,
    and other components write under other keys. *)
Definition wlegal (o : wop) (m : WorkloadStateManager) : Prop :=
  match o with
  | WTouch _ f => ∀ w, wl_ID (f w) = wl_ID w
  | WOther s => ∀ k, HasPrefix k "workload:" = true →
      abs (fsm s) !! k = abs (fsm (wsm_store m)) !! k
  | _ => True
  end.

(** ** The refinement relation *)

(** The store holds exactly [d] under the keys of workloads. *)
Definition stores (st : Store) (d : gmap string WorkloadState) : Prop :=
  ∀ id, match abs (fsm st) !! workload_key id with
        | None => d !! id = None
        | Some (v, e) => e = 0 ∧ v ≠ EmptyString ∧
            ∃ w, workload_unmarshal v = Ok w ∧ wl_ID w = id ∧ d !! id = Some w
        end.

(** The cache shows [d] to its readers. *)
Record shows (m : WorkloadStateManager) (d : gmap string WorkloadState) : Prop := {
  sh_mem : ∀ id, d !! id = (wsm_cache m !! id) ≫= (wsm_objects m !!.);
  sh_ids : ∀ id w, d !! id = Some w → wl_ID w = id;
  sh_valid : ∀ id p, wsm_cache m !! id = Some p → is_Some (wsm_objects m !! p);
  sh_fresh : ∀ p, (wsm_next m ≤ p)%nat → wsm_objects m !! p = None
}.

Record represents (m : WorkloadStateManager) (s : WorkloadMaps) : Prop := {
  rp_dur : stores (wsm_store m) (dur s);
  rp_shows : shows m (mem s);
  rp_dom : ∀ id, mem s !! id = None ↔ dur s !! id = None
}.

Lemma sh_cached m d id p : shows m d → wsm_cache m !! id = Some p →
  d !! id = Some (deref m p) ∧ wsm_objects m !! p = Some (deref m p).
Proof.
  intros Hr Hc. destruct (sh_valid _ _ Hr id p Hc) as [w Hw]. unfold deref. rewrite Hw. simpl.
  split; [|done]. by rewrite (sh_mem _ _ Hr), Hc.
Qed.

Lemma sh_miss m d id : shows m d → wsm_cache m !! id = None ↔ d !! id = None.
Proof.
  intros Hr. rewrite (sh_mem _ _ Hr). destruct (wsm_cache m !! id) as [p|] eqn:Hc; [|done]. simpl.
  destruct (sh_valid _ _ Hr id p Hc) as [w ->]. done.
Qed.

(** Two identifiers do not share an object. *)
Lemma sh_inj m d id id' p : shows m d →
  wsm_cache m !! id = Some p → wsm_cache m !! id' = Some p → id = id'.
Proof.
  intros Hr Hc Hc'. destruct (sh_cached _ _ _ _ Hr Hc) as [Hw _], (sh_cached _ _ _ _ Hr Hc') as [Hw' _].
  rewrite <-(sh_ids _ _ Hr _ _ Hw). by apply (sh_ids _ _ Hr).
Qed.

Lemma shows_store m d st : shows m d → shows (m <| wsm_store := st |>) d.
Proof. intros []. by split. Qed.

Lemma workload_key_inj id id' : workload_key id = workload_key id' → id = id'.
Proof. apply string_app_inj_l. Qed.

Lemma stores_ext st st' d :
  (∀ k, HasPrefix k "workload:" = true → abs (fsm st') !! k = abs (fsm st) !! k) →
  stores st d → stores st' d.
Proof. intros Heq Hst id. rewrite Heq by apply HasPrefix_app. apply Hst. Qed.

Lemma stores_insert st st' d w v :
  workload_marshal w = Ok v → abs (fsm st') = <[workload_key (wl_ID w) := (v, 0)]> (abs (fsm st)) →
  stores st d → stores st' (<[wl_ID w := json_workload w]> d).
Proof.
  intros Hv Hst' Hst id. rewrite Hst'. destruct (codec_reads w v Hv) as (Hne & w' & Hu & Hid).
  destruct (decide (id = wl_ID w)) as [->|Hn].
  - rewrite lookup_insert_eq. split_and!; [done|done|]. exists w'. split_and!; [done|done|].
    rewrite lookup_insert_eq. unfold json_workload. by rewrite Hv, Hu.
  - rewrite !lookup_insert_ne by (first [done|intros ?%workload_key_inj; congruence]). apply Hst.
Qed.

Lemma stores_delete st st' d id :
  abs (fsm st') = delete (workload_key id) (abs (fsm st)) → stores st d → stores st' (delete id d).
Proof.
  intros Hst' Hst i. rewrite Hst'. destruct (decide (i = id)) as [->|Hn].
  - by rewrite !lookup_delete_eq.
  - rewrite !lookup_delete_ne by (first [done|intros ?%workload_key_inj; congruence]). apply Hst.
Qed.

(** ** The steps *)

(** Writing a workload leaves the objects and the cache alone. *)
Lemma write_workload_spec ans w m m' err s :
  stores (wsm_store m) (dur s) → write_workload ans w m = (m', err) →
  ∃ st, m' = m <| wsm_store := st |> ∧ stores st (dur (put (wl_ID w) w err s)).
Proof.
  intros Hst. unfold write_workload. destruct (workload_marshal w) as [v|e] eqn:Hv.
  - destruct (Store_Set_cases (workload_key (wl_ID w)) v ans (wsm_store m))
      as [(r & -> & Hr)|[e ->]]; intros [= <- <-].
    + exists r. split; [done|]. simpl. by eapply stores_insert.
    + by exists (wsm_store m).
  - intros [= <- <-]. exists (wsm_store m). by destruct m.
Qed.

Lemma deref_assign p w m : deref (assign p w m) p = w.
Proof. unfold deref. simpl. by rewrite lookup_insert_eq. Qed.

Lemma assign_assign p w w' m : assign p w' (assign p w m) = assign p w' m.
Proof. unfold assign. destruct m. unfold with_field. simpl. by rewrite insert_insert_eq. Qed.

Lemma recache m c : c = wsm_cache m → m <| wsm_cache := c |> = m.
Proof. intros ->. by destruct m. Qed.

(** The object of a cached workload is replaced. *)
Lemma shows_assign m d id p w :
  shows m d → wsm_cache m !! id = Some p → wl_ID w = id → shows (assign p w m) (<[id := w]> d).
Proof.
  intros Hr Hc Hid. destruct (sh_cached _ _ _ _ Hr Hc) as [Hw Ho]. split; simpl.
  - intros i. destruct (decide (i = id)) as [->|Hn].
    + rewrite lookup_insert_eq, Hc. simpl. by rewrite lookup_insert_eq.
    + rewrite lookup_insert_ne, (sh_mem _ _ Hr) by done.
      destruct (wsm_cache m !! i) as [q|] eqn:Hq; [|done]. simpl.
      rewrite lookup_insert_ne; [done|]. intros <-. by eapply Hn, sh_inj.
  - intros i w'. destruct (decide (i = id)) as [->|Hn].
    + rewrite lookup_insert_eq. by intros [= <-].
    + rewrite lookup_insert_ne by done. apply (sh_ids _ _ Hr).
  - intros i q Hq. destruct (decide (q = p)) as [->|Hn]; [rewrite lookup_insert_eq; eauto|].
    rewrite lookup_insert_ne by done. by eapply sh_valid.
  - intros q Hq. rewrite lookup_insert_ne; [by apply (sh_fresh _ _ Hr)|]. intros <-.
    pose proof (sh_fresh _ _ Hr p Hq). congruence.
Qed.

(** An object is allocated; the cache is pointed to it. *)
Lemma shows_alloc m d w : shows m d → shows (alloc w m).1 d.
Proof.
  intros Hr. unfold alloc. set (p := wsm_next m).
  assert (wsm_objects m !! p = None) as Hp by (by apply (sh_fresh _ _ Hr)).
  assert (∀ id q, wsm_cache m !! id = Some q → q ≠ p) as Hne.
  { intros id q Hq ->. destruct (sh_valid _ _ Hr id p Hq). congruence. }
  split; try apply Hr; simpl.
  - intros id. rewrite (sh_mem _ _ Hr). destruct (wsm_cache m !! id) as [q|] eqn:Hq; [|done].
    simpl. rewrite lookup_insert_ne; [done|]. by eapply not_eq_sym, Hne.
  - intros id q Hq. rewrite lookup_insert_ne by (by eapply not_eq_sym, Hne). by eapply sh_valid.
  - intros q Hq. rewrite lookup_insert_ne by lia. apply (sh_fresh _ _ Hr). lia.
Qed.

Lemma shows_point m d id p w :
  shows m d → wsm_objects m !! p = Some w → wl_ID w = id →
  shows (m <| wsm_cache := <[id := p]> (wsm_cache m) |>) (<[id := w]> d).
Proof.
  intros Hr Hp Hid. split; simpl; [..|apply Hr].
  - intros i. destruct (decide (i = id)) as [->|Hn].
    + by rewrite !lookup_insert_eq.
    + rewrite !lookup_insert_ne by done. apply Hr.
  - intros i w' Hw'. destruct (decide (i = id)) as [->|Hn].
    + rewrite lookup_insert_eq in Hw'. congruence.
    + rewrite lookup_insert_ne in Hw' by done. by apply (sh_ids _ _ Hr).
  - intros i q Hq. destruct (decide (i = id)) as [->|Hn].
    + rewrite lookup_insert_eq in Hq. injection Hq as <-. eauto.
    + rewrite lookup_insert_ne in Hq by done. by eapply sh_valid.
Qed.

(** Storing a workload under its identifier keeps the domains equal, if it was
    there or if it is written. *)
Lemma put_dom id w err s :
  is_Some (mem s !! id) ∨ err = None → (∀ i, mem s !! i = None ↔ dur s !! i = None) →
  ∀ i, mem (put id w err s) !! i = None ↔ dur (put id w err s) !! i = None.
Proof.
  intros Hor Hdom i. simpl. destruct (decide (i = id)) as [->|Hn].
  - rewrite lookup_insert_eq. destruct err as [e|]; [|by rewrite lookup_insert_eq].
    destruct Hor as [[w0 Hw]|]; [|done]. rewrite <-Hdom, Hw. done.
  - rewrite lookup_insert_ne by done. destruct err; [|rewrite lookup_insert_ne by done]; apply Hdom.
Qed.

(** Saving a cached workload that has been changed to [w]. *)
Lemma save_cached now ans p w m m' err s id :
  represents m s → wsm_cache m !! id = Some p → wl_ID w = id →
  SaveWorkload now ans p (assign p w m) = (m', err) →
  represents m' (put id (w <| wl_UpdatedAt := now |>) err s).
Proof.
  intros Hr Hc Hid. unfold SaveWorkload. rewrite deref_assign.
  set (w' := w <| wl_UpdatedAt := now |>). assert (wl_ID w' = id) as Hid' by done.
  rewrite assign_assign.
  destruct (write_workload ans w' (assign p w' m)) as [m1 e] eqn:Hw.
  destruct (write_workload_spec _ _ _ _ _ s (rp_dur _ _ Hr : stores (wsm_store (assign p w' m)) _) Hw)
    as (st & -> & Hst'). rewrite Hid' in *.
  assert (represents ((assign p w' m) <| wsm_store := st |>) (put id w' e s)) as Hrep.
  { split; [done|by apply shows_store, shows_assign; [apply Hr|..]|]. apply put_dom; [left|apply Hr].
    destruct (sh_cached _ _ _ _ (rp_shows _ _ Hr) Hc) as [-> _]. eauto. }
  destruct e as [e|]; intros [<- <-]%pair_eq; [done|].
  rewrite recache; [done|]. by apply insert_id.
Qed.

(** Reading: the cache answers, and what it does not have is not stored. *)
Lemma GetWorkload_spec read id m s :
  represents m s →
  GetWorkload read id m =
    (m, match wsm_cache m !! id with
        | Some p => Ok p
        | None => Err ("failed to read from RAFT: key not found: " +:+ workload_key id)
        end).
Proof.
  intros Hr. unfold GetWorkload. destruct (wsm_cache m !! id) as [p|] eqn:Hc; [done|].
  apply (sh_miss _ _ _ (rp_shows _ _ Hr)), (rp_dom _ _ Hr) in Hc.
  pose proof (rp_dur _ _ Hr id) as Hst. unfold Store_Get. rewrite Get_abs.
  destruct (abs _ !! workload_key id) as [[v e]|]; [|done].
  destruct Hst as (_ & _ & w & _ & _ & Hw). congruence.
Qed.

(** An operation that changes one workload and saves it. *)
Lemma with_workload_spec read id change now ans m m' err s :
  represents m s → (∀ w w', change w = Ok w' → wl_ID w' = wl_ID w) →
  with_workload read id change now ans m = (m', err) →
  ∃ s', represents m' s' ∧ spec_change id change now err s s'.
Proof.
  intros Hr Hid. unfold with_workload, spec_change. rewrite (GetWorkload_spec read id m s Hr).
  destruct (wsm_cache m !! id) as [p|] eqn:Hc.
  - destruct (sh_cached _ _ _ _ (rp_shows _ _ Hr) Hc) as [Hw _]. rewrite Hw.
    destruct (change (deref m p)) as [w|e] eqn:Hch.
    + intros Hs. eexists. split; [|done]. eapply save_cached; [done|done| |done].
      rewrite (Hid _ _ Hch). by apply (sh_ids _ _ (rp_shows _ _ Hr)).
    + intros [= <- <-]. by exists s.
  - intros [= <- <-]. exists s. apply (sh_miss _ _ _ (rp_shows _ _ Hr)) in Hc. by rewrite Hc.
Qed.

(** Saving an object that is not cached. *)
Lemma save_new now ans w m m' err s :
  represents m s → SaveWorkload now ans (alloc w m).2 (alloc w m).1 = (m', err) →
  represents m' (match err with
                 | None => put (wl_ID w) (w <| wl_UpdatedAt := now |>) None s
                 | Some _ => s
                 end).
Proof.
  intros Hr. unfold SaveWorkload, alloc. cbn [fst snd]. rewrite deref_assign, assign_assign.
  set (p := wsm_next m). set (w' := w <| wl_UpdatedAt := now |>).
  set (m1 := assign p w' (m <| wsm_next := S p |>)).
  assert (shows m1 (mem s)) as Hr1 by exact (shows_alloc m (mem s) w' (rp_shows _ _ Hr)).
  destruct (write_workload ans w' m1) as [m2 e] eqn:Hw.
  destruct (write_workload_spec _ _ _ _ _ s (rp_dur _ _ Hr : stores (wsm_store m1) _) Hw)
    as (st & -> & Hst).
  destruct e as [e|]; intros [<- <-]%pair_eq.
  - split; [done|by apply shows_store|apply Hr].
  - split; [done| |by apply put_dom; [right|apply Hr]].
    apply (shows_point (m1 <| wsm_store := st |>)); [by apply shows_store| |done].
    simpl. by rewrite lookup_insert_eq.
Qed.

(** *** Starting *)

Lemma load_workload_spec read m d dm id w :
  stores (wsm_store m) d → shows m dm → d !! id = Some w →
  wsm_store (load_workload read m (workload_key id)) = wsm_store m ∧
  shows (load_workload read m (workload_key id)) (<[id := w]> dm).
Proof.
  intros Hst Hsh Hd. unfold load_workload, Store_Get. rewrite Get_abs. specialize (Hst id).
  destruct (abs _ !! workload_key id) as [[v e]|]; [|congruence].
  destruct Hst as (-> & _ & w0 & Hu & Hid & Hd'). rewrite expired_zero, Hu.
  assert (w0 = w) as -> by congruence. split; [done|]. subst id.
  apply (shows_point (alloc w m).1 dm); [by apply shows_alloc| |done]. simpl. by rewrite lookup_insert_eq.
Qed.

Lemma load_keys_spec read ids : ∀ m d dm,
  stores (wsm_store m) d → shows m dm → Forall (fun id => is_Some (d !! id)) ids →
  ∃ dm', shows (foldl (load_workload read) m (workload_key <$> ids)) dm' ∧
    wsm_store (foldl (load_workload read) m (workload_key <$> ids)) = wsm_store m ∧
    ∀ id, dm' !! id = if decide (id ∈ ids) then d !! id else dm !! id.
Proof.
  induction ids as [|i ids IH]; intros m d dm Hst Hsh Hall.
  - exists dm. split_and!; [done|done|]. intros id. by rewrite decide_False by apply not_elem_of_nil.
  - apply Forall_cons in Hall as [[w Hi] Hall].
    destruct (load_workload_spec read m d dm i w Hst Hsh Hi) as [Hs Hsh'].
    destruct (IH (load_workload read m (workload_key i)) d (<[i := w]> dm)) as (dm' & H1' & H2' & H3');
      [by rewrite Hs|done|done|].
    exists dm'. split_and!; [done|by rewrite <-Hs|]. intros id. rewrite H3'.
    destruct (decide (id ∈ ids)) as [Hin|Hin].
    + by rewrite decide_True by (by right).
    + destruct (decide (id = i)) as [->|Hn].
      * by rewrite lookup_insert_eq, decide_True by left.
      * rewrite lookup_insert_ne, decide_False by (rewrite ?elem_of_cons; naive_solver). done.
Qed.

(** The keys that are listed are those of the stored workloads. *)
Lemma listed_keys now st d : stores st d →
  ∃ ids, ListKeys "workload:" now st = workload_key <$> ids ∧
    (∀ id, id ∈ ids ↔ is_Some (d !! id)).
Proof.
  intros Hst. exists (map (fun k => TrimPrefix k "workload:") (ListKeys "workload:" now st)).
  assert (∀ k, k ∈ ListKeys "workload:" now st ↔ ∃ id, k = workload_key id ∧ is_Some (d !! id)) as Hin.
  { intros k. unfold ListKeys. rewrite list_elem_of_In, filter_In, <-list_elem_of_In, HasPrefix_spec.
    rewrite list_elem_of_fmap. split.
    - intros [([k' v] & -> & Hv%elem_of_range_map) [id Hid]]. exists id. simpl in *. split; [done|].
      rewrite GetAll_view, view_lookup in Hv. unfold kv_get in Hv. rewrite Hid in Hv. specialize (Hst id).
      change ("workload:" +:+ id) with (workload_key id) in Hv.
      destruct (abs _ !! workload_key id) as [[v' e]|]; [|done].
      destruct Hst as (_ & _ & w & _ & _ & Hw). eauto.
    - intros (id & -> & Hd). split; [|by exists id]. specialize (Hst id).
      destruct (abs (fsm st) !! workload_key id) as [[v e]|] eqn:Hv; [|destruct Hd; congruence].
      destruct Hst as (-> & _). exists (workload_key id, v). split; [done|]. apply elem_of_range_map.
      rewrite GetAll_view, view_lookup. unfold kv_get. by rewrite Hv. }
  assert (∀ id, TrimPrefix (workload_key id) "workload:" = id) as Htrim.
  { intros id. unfold TrimPrefix. 
    by rewrite (proj2 (strip_prefix_spec "workload:" (workload_key id) id) eq_refl). }
  split.
  - change (@fmap list _ _ _) with (@map string string). rewrite map_map, <-(map_id (ListKeys _ _ _)) at 1.
    apply map_ext_in. intros k (id & -> & _)%list_elem_of_In%Hin. by rewrite Htrim.
  - intros id. change (map ?f ?l) with (f <$> l). rewrite list_elem_of_fmap. split.
    + intros (k & -> & (id' & -> & Hd)%Hin). by rewrite Htrim.
    + intros Hd. exists (workload_key id). rewrite Htrim. split; [done|]. apply Hin. eauto.
Qed.

Lemma restart_spec now read st d : stores st d →
  represents (loadWorkloads now read (empty_manager st)) {| mem := d; dur := d |}.
Proof.
  intros Hst. unfold loadWorkloads. cbn [wsm_store empty_manager].
  destruct (listed_keys now st d Hst) as (ids & -> & Hids).
  destruct (load_keys_spec read ids (empty_manager st) d ∅) as (dm & Hsh & Hs & Hdm).
  - done.
  - split; simpl; intros ?; rewrite ?lookup_empty; done.
  - apply Forall_forall. intros id. apply Hids.
  - assert (dm = d) as ->.
    { apply map_eq. intros id. rewrite Hdm. case_decide as Hin; [done|]. rewrite lookup_empty.
      destruct (d !! id) as [w|] eqn:Hd; [|done]. destruct Hin. apply Hids. eauto. }
    split; [by rewrite Hs|done|done].
Qed.

(** *** Health reports *)

Lemma find_container_spec cid f m ps :
  match find_container cid f m ps with
  | None => ∀ p, p ∈ ps → update_container cid f (wl_Replicas (deref m p)) = None
  | Some (p, l) => p ∈ ps ∧ update_container cid f (wl_Replicas (deref m p)) = Some l
  end.
Proof.
  induction ps as [|p ps IH]; simpl; [by intros ? ?%elem_of_nil|].
  destruct (update_container _ _ _) as [l|] eqn:Hl; [split; [left|done]|].
  destruct (find_container _ _ _ _) as [[q l]|].
  - destruct IH. split; [by right|done].
  - intros q [->|Hq]%elem_of_cons; [done|by apply IH].
Qed.

Lemma elem_of_pointers m p : p ∈ (range_map (wsm_cache m)).*2 ↔ ∃ id, wsm_cache m !! id = Some p.
Proof.
  rewrite list_elem_of_fmap. split.
  - intros ([id q] & -> & Hq%elem_of_range_map). eauto.
  - intros [id Hq]. exists (id, p). split; [done|]. by apply elem_of_range_map.
Qed.

Lemma health_spec live ready now ans h m m' err s :
  represents m s → UpdateReplicaHealth live ready now ans h m = (m', err) →
  ∃ s', represents m' s' ∧ wspec (WHealth live ready now ans h) err s s'.
Proof.
  intros Hr. unfold UpdateReplicaHealth. cbn [wspec].
  pose proof (find_container_spec (ch_ContainerId h) (replica_health live ready h) m
    (range_map (wsm_cache m)).*2) as Hf.
  destruct (find_container _ _ _ _) as [[p l]|].
  - destruct Hf as [[id Hc]%elem_of_pointers Hl].
    destruct (sh_cached _ _ _ _ (rp_shows _ _ Hr) Hc) as [Hw _].
    set (w := (recount _) <| wl_UpdatedAt := now |>). intros Hwr.
    assert (wl_ID w = id) as Hid by exact (sh_ids _ _ (rp_shows _ _ Hr) _ _ Hw).
    destruct (write_workload_spec _ _ _ _ _ s (rp_dur _ _ Hr : stores (wsm_store (assign p w m)) _) Hwr)
      as (st & -> & Hst). rewrite Hid in Hst.
    exists (put id w err s). split.
    + split; [done|by apply shows_store, shows_assign; [apply Hr|..]|].
      apply put_dom; [left; eauto|apply Hr].
    + right. by exists id, (deref m p), l.
  - intros [= <- <-]. exists s. split; [done|]. left. split_and!; [done|done|].
    intros id w Hw. rewrite (sh_mem _ _ (rp_shows _ _ Hr)) in Hw.
    destruct (wsm_cache m !! id) as [p|] eqn:Hc; [|done]. simpl in Hw.
    specialize (Hf p). unfold deref in Hf. rewrite Hw in Hf. apply Hf, elem_of_pointers. eauto.
Qed.

(** *** Every operation *)

Lemma update_state_id at_ rid status ready message w w' :
  update_replica_state at_ rid status ready message w = Ok w' → wl_ID w' = wl_ID w.
Proof. unfold update_replica_state. case_match; [|done]. by intros [= <-]. Qed.

Lemma status_state_id status message w : wl_ID (status_state status message w) = wl_ID w.
Proof. unfold status_state. by case_match. Qed.

Lemma touch_spec id f m s :
  represents m s → (∀ w, wl_ID (f w) = wl_ID w) →
  represents (match wsm_cache m !! id with Some p => assign p (f (deref m p)) m | None => m end)
    (s <| mem := alter f id (mem s) |>).
Proof.
  intros Hr Hf. destruct (wsm_cache m !! id) as [p|] eqn:Hc.
  - destruct (sh_cached _ _ _ _ (rp_shows _ _ Hr) Hc) as [Hw _].
    assert (alter f id (mem s) = <[id := f (deref m p)]> (mem s)) as Halt.
    { apply map_eq. intros i. destruct (decide (i = id)) as [->|Hn].
      - by rewrite lookup_alter_eq, lookup_insert_eq, Hw.
      - by rewrite lookup_alter_ne, lookup_insert_ne. }
    split; simpl; [apply Hr|rewrite Halt; apply shows_assign; [apply Hr|done|]|].
    + rewrite Hf. by apply (sh_ids _ _ (rp_shows _ _ Hr)).
    + intros i. rewrite <-(rp_dom _ _ Hr), lookup_alter. destruct (decide (id = i)) as [->|]; [|done]. by rewrite fmap_None.
  - apply (sh_miss _ _ _ (rp_shows _ _ Hr)) in Hc. destruct Hr.
    split; simpl; [done|..]; rewrite alter_id by (intros; congruence); done.
Qed.

Lemma purge_spec ans id m m' err s :
  represents m s → PurgeWorkload ans id m = (m', err) →
  ∃ s', represents m' s' ∧ wspec (WPurge ans id) err s s'.
Proof.
  intros Hr. unfold PurgeWorkload. cbn [wspec].
  destruct (Store_Delete_cases (workload_key id) ans (wsm_store m)) as [(r & -> & Hd)|[e ->]];
    intros [= <- <-]; eexists; (split; [|done]).
  - destruct (rp_shows _ _ Hr) as [Hmem Hids Hval Hfr]. split; simpl.
    + eapply stores_delete; [done|apply Hr].
    + split; simpl; [..|done].
      * intros i. destruct (decide (i = id)) as [->|Hn]; [by rewrite !lookup_delete_eq|].
        by rewrite !lookup_delete_ne.
      * intros i w [_ Hw]%lookup_delete_Some. by apply Hids.
      * intros i p [_ Hp]%lookup_delete_Some. by eapply Hval.
    + intros i. destruct (decide (i = id)) as [->|Hn]; [by rewrite !lookup_delete_eq|].
      rewrite !lookup_delete_ne by done. apply Hr.
  - by destruct m, Hr.
Qed.

Lemma wstep_refines o m m' err s :
  represents m s → wlegal o m → wexec o m = (m', err) →
  ∃ s', represents m' s' ∧ wspec o err s s'.
Proof.
  intros Hr Hl. destruct o; cbn [wexec]; try (apply (with_workload_spec _ _ _ _ _ _ _ _ _ Hr)).
  - unfold alloc. cbn [fst snd]. intros He. eexists.
    split; [exact (save_new _ _ _ _ _ _ _ Hr He)|]. by destruct err.
  - intros [= <- <-]. eexists. split; [by apply touch_spec|done].
  - rewrite (GetWorkload_spec _ _ _ _ Hr). intros [= <- <-]. exists s. split; [done|]. split; [done|].
    pose proof (sh_miss _ _ id (rp_shows _ _ Hr)) as Hm.
    destruct (wsm_cache m !! id) as [p|]; destruct (mem s !! id) as [w|]; naive_solver.
  - by intros w w' [= <-].
  - by apply purge_spec.
  - intros w w' [= <-]. apply status_state_id.
  - by intros w w' [= <-].
  - intros w w'. apply update_state_id.
  - by apply health_spec.
  - by intros w w' [= <-].
  - intros [= <- <-]. eexists. split; [apply restart_spec, Hr|done].
  - intros [= <- <-]. exists s. split; [|done]. destruct Hr. split; [|by apply shows_store|done].
    by eapply stores_ext.
Qed.

(** ** Histories *)

Fixpoint wrun (os : list wop) (m : WorkloadStateManager)
    : WorkloadStateManager * list (option string) :=
  match os with
  | [] => (m, [])
  | o :: os => let '(m, err) := wexec o m in let '(m, errs) := wrun os m in (m, err :: errs)
  end.

Fixpoint wlegals (os : list wop) (m : WorkloadStateManager) : Prop :=
  match os with
  | [] => True
  | o :: os => wlegal o m ∧ wlegals os (wexec o m).1
  end.

Inductive wspecs : list wop → list (option string) → WorkloadMaps → WorkloadMaps → Prop :=
| wspecs_nil s : wspecs [] [] s s
| wspecs_cons o os err errs s s1 s2 :
    wspec o err s s1 → wspecs os errs s1 s2 → wspecs (o :: os) (err :: errs) s s2.

Lemma wrun_refines os : ∀ m m' errs s,
  represents m s → wlegals os m → wrun os m = (m', errs) →
  ∃ s', represents m' s' ∧ wspecs os errs s s'.
Proof.
  induction os as [|o os IH]; intros m m' errs s Hr Hl; simpl.
  - intros [= <- <-]. exists s. split; [done|constructor].
  - destruct Hl as [Ho Hl]. destruct (wexec o m) as [m1 err] eqn:Hx.
    destruct (wstep_refines _ _ _ _ _ Hr Ho Hx) as (s1 & Hr1 & Hs1).
    destruct (wrun os m1) as [m2 errs2] eqn:Hrun. intros [= <- <-].
    destruct (IH _ _ _ _ Hr1 Hl Hrun) as (s' & Hr' & Hs'). exists s'. split; [done|].
    by econstructor.
Qed.

Lemma save_commits now clock p m v :
  is_leader (wsm_store m) = true →
  workload_marshal ((deref m p) <| wl_UpdatedAt := now |>) = Ok v →
  (SaveWorkload now (Committed clock) p m).2 = None.
Proof.
  intros Hl Hv. unfold SaveWorkload, write_workload. rewrite Hv. unfold Store_Set, submit. simpl.
  rewrite Hl. simpl. rewrite Apply_command. unfold applyCommand. cbn -[applySet].
  by rewrite (surjective_pairing (applySet _ _ _ _ _)), (proj2 (applySet_abs _ _ _ _ _)).
Qed.

End spec.

(** ** A run *)

Module WorkloadRuns.

(** An encoding that keeps the identifier and whether the workload is deleted. *)
#[local] Instance mini_codec : WorkloadCodec := {|
  workload_marshal w :=
    Ok (String (if decide (wl_DeletedAt w = None) then "l" else "d")%char (wl_ID w));
  workload_unmarshal v :=
    match v with
    | EmptyString => Err "unexpected end of JSON input"%string
    | String c id =>
        Ok (zero_workload <| wl_ID := id |>
              <| wl_DeletedAt := if decide (c = "d"%char) then Some 0 else None |>)
    end |}.

#[local] Instance mini_laws : WorkloadCodecLaws.
Proof. split. intros w v [= <-]. split; [done|]. by eexists. Qed.

Definition empty_store : Store := {| fsm := NewFSM; is_leader := true |}.

Definition web : WorkloadState := zero_workload <| wl_ID := "web"%string |>.

(** A workload is created, its deletion is refused by the cluster, and the
    coordinator starts again. *)
Definition created : list wop := [WCreate 1 (Committed (fun _ => 1)) web].
Definition refused : list wop := created ++ [WDelete 2 2 2 (Rejected "no quorum") "web"].
Definition restarted : list wop := refused ++ [WRestart 3 (fun _ => 3)].

Definition start : WorkloadStateManager :=
  loadWorkloads (H := range_canonical) 0 (fun _ => 0) (empty_manager empty_store).

Definition shown (os : list wop) : option (option Z) :=
  let m := (wrun (H := range_canonical) os start).1 in
  (fun p => wl_DeletedAt (deref m p)) <$> wsm_cache m !! "web"%string.

(** The refused deletion is visible until the restart. *)
Example refused_deletion_visible :
  shown created = Some None ∧ shown refused = Some (Some 2) ∧ shown restarted = Some None.
Proof. vm_compute. done. Qed.


End WorkloadRuns.
