(* ===== verification/Coordinator.v ===== *)
(** * The coordinator (pkg/coordinator/coordinator.go, grpc_handlers.go)

    The handlers of the coordinator's service, composed from the membership
    manager, the workload state manager, the scheduler and admission control.
    A handler is a function of the coordinator's state, of the request and of
    the readings of the clock and the answers of the cluster it gets; [None]
    is a panic, which ends the process.  Events and logging are dropped. *)

From S2P Require Import Prelude GoText GoFloat PolicyTypes PolicyEngine PolicyAdmission BootstrapTokens Node NodeHealth Scorer BinPack Scheduler RaftFSM Membership MembershipSpec ClusterScheduling Workloads.

Local Open Scope string_scope.
Local Open Scope Z_scope.

(** ** State

    The two managers hold the same Raft store; [set_members] and
    [set_workloads] give both of them the store that one has written. *)

Record Coordinator := {
  c_members : MembershipManager;
  c_workloads : WorkloadStateManager;
  c_scorer : ScorerConfig;
  c_scheduling : SchedulerConfig;
  c_engine : option Engine;
  c_leader : string
}.

#[export] Instance eta_Coordinator : Eta Coordinator := fun c =>
  Build_Coordinator (c_members c) (c_workloads c) (c_scorer c) (c_scheduling c) (c_engine c)
    (c_leader c).

Definition set_members (m : MembershipManager) (c : Coordinator) : Coordinator :=
  (c <| c_members := m |>)
    <| c_workloads := (c_workloads c) <| wsm_store := mm_store m |> |>.

Definition set_workloads (w : WorkloadStateManager) (c : Coordinator) : Coordinator :=
  (c <| c_workloads := w |>)
    <| c_members := (c_members c) <| mm_store := wsm_store w |> |>.

Definition IsLeader (c : Coordinator) : bool := is_leader (mm_store (c_members c)).

(** The error of a handler: a text, or the status of admission control, alone
    or within the text of [UpdateWorkload]. *)
Inductive handler_error :=
| Failed (msg : string)
| Denied (s : status)
| UpdateDenied (s : status).

Definition not_leader (c : Coordinator) : handler_error :=
  Failed ("not the leader, redirect to: " +:+ c_leader c).

(** ** Conversions *)

Definition convertRestartPolicyToString (policy : Z) : string :=
  if policy =? 0 then "Always" else if policy =? 1 then "OnFailure"
  else if policy =? 2 then "Never" else "Always".

Definition convertRolloutStrategyToString (strategy : Z) : string :=
  if strategy =? 0 then "RollingUpdate" else if strategy =? 1 then "Recreate"
  else if strategy =? 2 then "BlueGreen" else "RollingUpdate".

(** The numbers of [WorkloadStatus_Phase]. *)
Definition convertWorkloadStatusToPhase (s : string) : Z :=
  if s =?s WorkloadStatusPending then 1
  else if s =?s WorkloadStatusScheduling then 2
  else if s =?s WorkloadStatusRunning then 3
  else if s =?s WorkloadStatusUpdating then 4
  else if s =?s WorkloadStatusFailed then 5
  else if s =?s WorkloadStatusScaling then 3
  else 0.

(** The names of [NodeStatus_Phase]. *)
Definition convertNodeStateToPhase (state : string) : string :=
  if state =?s "enrolling" then "ENROLLING"
  else if state =?s "ready" then "READY"
  else if state =?s "draining" then "DRAINING"
  else if state =?s "cordoned" then "CORDONED"
  else if state =?s "offline" then "OFFLINE"
  else if state =?s "failed" then "FAILED"
  else "UNKNOWN".

(** The reply for a node; the capacity and usage are copied field by field. *)
Record NodeReply := {
  nr_Id : string;
  nr_Name : string;
  nr_Region : string;
  nr_Zone : string;
  nr_Capabilities : NodeCapabilities;
  nr_Capacity : msg.ResourceCapacity;
  nr_Usage : msg.ResourceUsage;
  nr_Phase : string;
  nr_ReliabilityScore : float64;
  nr_LastSeen : option Z
}.

Definition convertNodeInfoToProto (node : NodeInfo) : NodeReply := {|
  nr_Id := node_ID node; nr_Name := node_Name node; nr_Region := node_Region node;
  nr_Zone := node_Zone node; nr_Capabilities := node_Capabilities node;
  nr_Capacity := {|
    msg.CpuMillicores := rc_CPUMillicores (node_Capacity node);
    msg.MemoryBytes := rc_MemoryBytes (node_Capacity node);
    msg.StorageBytes := rc_StorageBytes (node_Capacity node);
    msg.BandwidthBps := rc_BandwidthBPS (node_Capacity node);
    msg.GpuCount := rc_GPUCount (node_Capacity node) |};
  nr_Usage := {|
    msg.u_CpuMillicores := ru_CPUMillicores (node_Usage node);
    msg.u_MemoryBytes := ru_MemoryBytes (node_Usage node);
    msg.u_StorageBytes := ru_StorageBytes (node_Usage node);
    msg.u_BandwidthBps := ru_BandwidthBPS (node_Usage node);
    msg.u_GpuCount := ru_GPUCount (node_Usage node) |};
  nr_Phase := convertNodeStateToPhase (node_State node);
  nr_ReliabilityScore := node_ReliabilityScore node;
  nr_LastSeen := None |}.

Definition convert_mount (v : api.Volume) : VolumeMount := {|
  vmt_Name := api.vol_name v; vmt_MountPath := api.vol_mount_path v;
  vmt_ReadOnly := api.vol_read_only v |}.

Definition convert_mapping (p : api.Port) : PortMapping := {|
  pm_Name := api.port_name p; pm_ContainerPort := api.container_port p;
  pm_Protocol := api.protocol p |}.

Definition convert_spec (r : api.ResourceCapacity) : ResourceSpec := {|
  rs_CPUMillicores := api.CpuMillicores r; rs_MemoryBytes := api.MemoryBytes r;
  rs_StorageBytes := api.StorageBytes r; rs_BandwidthBPS := 0; rs_GPUCount := 0 |}.

(** The fields of the requests and of the limits are read; a nil pointer is a
    panic. *)
Definition convert_resources (r : option api.ResourceRequirements)
    : option ResourceRequirements :=
  r ≫= fun r => api.Requests r ≫= fun req => api.Limits r ≫= fun lim =>
  Some {| rr_Requests := convert_spec req; rr_Limits := convert_spec lim |}.

Definition convert_placement (p : option api.PlacementPolicy) : PlacementPolicy :=
  match p with
  | None => no_placement_policy
  | Some p => {|
      pp_Regions := api.regions p; pp_Zones := api.zones p;
      pp_NodeSelector := api.node_selector p; pp_Affinity := []; pp_AntiAffinity := [];
      pp_Tolerations := []; pp_SpreadTopology := "" |}
  end.

Definition convert_restart (p : option api.RestartPolicy) : RestartPolicy :=
  match p with
  | None => {| rp_Policy := "always"; rp_MaxRetries := 0; rp_Backoff := 0 |}
  | Some p => {| rp_Policy := convertRestartPolicyToString (api.restart_policy p);
                 rp_MaxRetries := api.max_retries p; rp_Backoff := 0 |}
  end.

Definition convert_rollout (r : option api.RolloutStrategy) : RolloutStrategy :=
  match r with
  | None => {| ro_Strategy := "rolling"; ro_MaxSurge := 1; ro_MaxUnavailable := 0;
               ro_MinAvailable := 0; ro_PauseDuration := 0 |}
  | Some r => {| ro_Strategy := convertRolloutStrategyToString (api.strategy r);
                 ro_MaxSurge := api.max_surge r; ro_MaxUnavailable := api.max_unavailable r;
                 ro_MinAvailable := 0; ro_PauseDuration := 0 |}
  end.

(** Messages with the fields that a handler sets. *)
Definition bare_spec : api.WorkloadSpec := {|
  api.image := ""; api.command := []; api.args := []; api.env := ∅; api.resources := None;
  api.replicas := 0; api.placement := None; api.restart := None; api.rollout := None;
  api.volumes := []; api.ports := []; api.liveness_probe := None; api.readiness_probe := None;
  api.security_context := None |}.

Definition workload_message (id name namespace : string) (spec : option api.WorkloadSpec)
    (labels : gmap string string) (annotations : option (gmap string string)) : api.Workload := {|
  api.id := id; api.name := name; api.namespace := namespace; api.spec := spec;
  api.wstatus := None; api.created_at := None; api.updated_at := None;
  api.labels := labels; api.annotations := annotations |}.

Definition only_id (id : string) : api.Workload := workload_message id "" "" None ∅ None.

#[export] Instance eta_api_Workload : Eta api.Workload := fun w =>
  api.Build_Workload (api.id w) (api.name w) (api.namespace w) (api.spec w) (api.wstatus w)
    (api.created_at w) (api.updated_at w) (api.labels w) (api.annotations w).

#[export] Instance eta_api_WorkloadSpec : Eta api.WorkloadSpec := fun s =>
  api.Build_WorkloadSpec (api.image s) (api.command s) (api.args s) (api.env s) (api.resources s)
    (api.replicas s) (api.placement s) (api.restart s) (api.rollout s) (api.volumes s)
    (api.ports s) (api.liveness_probe s) (api.readiness_probe s) (api.security_context s).

(** ** Queueing work *)

(** The loops that queue one assignment after the other and only log an
    error. *)
Definition queue_all (l : list (string * msg.WorkloadAssignment)) (m : MembershipManager)
    : MembershipManager :=
  foldl (fun m na => (QueueAssignment m na.1 na.2).1) m l.

Definition assignment (action : string) (w : api.Workload) (fragment : string)
    : msg.WorkloadAssignment :=
  {| msg.wa_FragmentId := fragment; msg.wa_Workload := w; msg.wa_Action := action |}.

Definition run_on (w : api.Workload) (d : ScheduleDecision) : string * msg.WorkloadAssignment :=
  (dec_NodeID d, assignment "run" w (dec_FragmentID d)).

Definition on_replica (action : string) (w : api.Workload) (r : ReplicaState)
    : string * msg.WorkloadAssignment :=
  (re_NodeID r, assignment action w (re_FragmentID r)).

Section handlers.
Context `{GoRange, GoSort, NodeCodec, BootstrapJWT, WorkloadCodec}.

(** ** Nodes *)

(** The token is validated twice; [parsed] and [checked] are the clock of the
    first validation. *)
Definition HandleEnrollNode (parsed checked : Z) (i : EnrollInputs) (req : msg.EnrollNodeRequest)
    (c : Coordinator) : Coordinator * result handler_error msg.EnrollNodeResponse :=
  if negb (IsLeader c) then (c, Err (not_leader c))
  else match ValidateBootstrapToken parsed checked (mm_tokens (c_members c)) (msg.en_Token req) with
  | Err err => (c, Err (Failed ("invalid enrollment token: " +:+ err)))
  | Ok _ =>
      let '(m, r) := EnrollNode i (c_members c) req in
      (set_members m c,
       match r with
       | Err err => Err (Failed ("failed to enroll node: " +:+ err))
       | Ok response => Ok response
       end)
  end.

Definition health_report (h : msg.ContainerHealth) : ContainerHealth := {|
  ch_ContainerId := msg.container_id h;
  ch_LivenessHealthy := msg.liveness_healthy h;
  ch_LivenessConsecutiveFailures := msg.liveness_consecutive_failures h;
  ch_ReadinessHealthy := msg.readiness_healthy h;
  ch_ReadinessConsecutiveFailures := msg.readiness_consecutive_failures h |}.

(** The readings of the clock and the answer for each report. *)
Definition health_inputs : Type := nat → (Z * Z * Z) * raft_answer.

Fixpoint report_all (k : nat) (i : health_inputs) (hs : list msg.ContainerHealth)
    (m : WorkloadStateManager) : WorkloadStateManager :=
  match hs with
  | [] => m
  | h :: hs =>
      let '(live, ready, now, ans) := i k in
      report_all (S k) i hs (UpdateReplicaHealth live ready now ans (health_report h) m).1
  end.

Definition Heartbeat (i : HeartbeatInputs) (hi : health_inputs) (req : msg.HeartbeatRequest)
    (c : Coordinator) : Coordinator * result string msg.HeartbeatResponse :=
  let '(m, r) := ProcessHeartbeat i (c_members c) req in
  let c := set_members m c in
  match r with
  | Err err => (c, Err err)
  | Ok resp =>
      (set_workloads (report_all 0 hi (msg.hb_ContainerHealth req) (c_workloads c)) c, Ok resp)
  end.

Definition HandleGetNode (id : string) (c : Coordinator) : result string NodeReply :=
  match GetNode (c_members c) id with
  | Err _ => Err ("node not found: " +:+ id)
  | Ok node => Ok (convertNodeInfoToProto node)
  end.

Definition HandleListNodes (c : Coordinator) : list NodeReply :=
  convertNodeInfoToProto <$> Manager_ListNodes (c_members c) ∅.

(** The answer is [None] when the call does not return. *)
Definition HandleDrainNode (ans : raft_answer) (id : string) (c : Coordinator)
    : Coordinator * option (option handler_error) :=
  if negb (IsLeader c) then (c, Some (Some (not_leader c)))
  else match DrainNode ans (c_members c) id with
  | Returns m err => (set_members m c, Some (Failed <$> err))
  | Blocks m => (set_members m c, None)
  end.

Definition HandleUncordonNode (ans : raft_answer) (id : string) (c : Coordinator)
    : Coordinator * option handler_error :=
  if negb (IsLeader c) then (c, Some (not_leader c))
  else let '(m, err) := UncordonNode ans (c_members c) id in (set_members m c, Failed <$> err).

(** ** Scheduling *)

Definition the_scheduler (c : Coordinator) : Scheduler MembershipManager :=
  {| membershipManager := c_members c; scorer := c_scorer c; config := c_scheduling c |}.

Definition ScheduleWorkload (clock : Z → Z * Z) (spec : Scorer.WorkloadSpec) (c : Coordinator)
    : result handler_error (list ScheduleDecision) :=
  if negb (IsLeader c) then Err (not_leader c)
  else match Schedule clock (the_scheduler c) spec with
  | Err err => Err (Failed ("failed to schedule workload: " +:+ err))
  | Ok result => Ok (res_Decisions result)
  end.

(** The specification the handlers pass on, with the fields they set. *)
Definition scheduler_spec (id name namespace : string) (replicas : Z)
    (resources : ResourceRequirements) (placement : PlacementPolicy) : Scorer.WorkloadSpec := {|
  w_ID := id; w_Name := name; w_Namespace := namespace; w_Replicas := replicas;
  w_Resources := resources; w_PlacementPolicy := placement;
  w_RestartPolicy := wl_Restart zero_workload; w_RolloutStrategy := wl_Rollout zero_workload;
  w_Priority := 0; w_Labels := ∅; w_Annotations := None |}.

Record DecisionReply := {
  dr_ReplicaId : string; dr_NodeId : string; dr_FragmentId : string; dr_Score : float64
}.

(** A workload that is nil is read for the log before it is tested. *)
Definition HandleSchedule (clock : Z → Z * Z) (req : option api.Workload) (c : Coordinator)
    : option (result handler_error (list DecisionReply)) :=
  if negb (IsLeader c) then Some (Err (not_leader c))
  else match req with
  | None => None
  | Some workload =>
      match api.spec workload with
      | None => Some (Err (Failed "workload and spec are required"))
      | Some spec =>
          match api.resources spec ≫= api.Requests with
          | None => None
          | Some requests =>
              let s := scheduler_spec (api.id workload) (api.name workload)
                (api.namespace workload) (api.replicas spec)
                {| rr_Requests := convert_spec requests; rr_Limits := zero_spec |}
                no_placement_policy in
              if len (Manager_ListNodes (c_members c) {["state" := "ready"]}) =? 0
              then Some (Err (Failed "no ready nodes available"))
              else match Schedule clock (the_scheduler c) s with
              | Err err => Some (Err (Failed ("scheduling failed: " +:+ err)))
              | Ok result =>
                  Some (Ok ((fun d => {| dr_ReplicaId := dec_ReplicaID d;
                                         dr_NodeId := dec_NodeID d;
                                         dr_FragmentId := dec_FragmentID d;
                                         dr_Score := dec_Score d |}) <$> res_Decisions result))
              end
          end
      end
  end.

(** ** Workloads *)

(** The clock of the two timestamps and of the placement, the environment of
    the policy evaluation, and the clock and answer of each of the saves. *)
Record CreateInputs := {
  cr_created : Z;
  cr_updated : Z;
  cr_env : EvalEnv;
  cr_save : nat → Z * raft_answer;
  cr_clock : Z → Z * Z
}.

Definition save (i : Z * raft_answer) (p : ptr) (c : Coordinator) : Coordinator * option string :=
  let '(w, err) := SaveWorkload i.1 i.2 p (c_workloads c) in (set_workloads w c, err).

(** Changing an object and nothing else. *)
Definition touch (p : ptr) (f : WorkloadState → WorkloadState) (c : Coordinator) : Coordinator :=
  c <| c_workloads := assign p (f (deref (c_workloads c) p)) (c_workloads c) |>.

Definition with_status (s : string) (w : WorkloadState) : WorkloadState := w <| wl_Status := s |>.

Definition initial_state (i : CreateInputs) (workloadID : string) (workload : api.Workload)
    (spec : api.WorkloadSpec) (resources : ResourceRequirements) : WorkloadState := {|
  wl_ID := workloadID; wl_Name := api.name workload; wl_Namespace := api.namespace workload;
  wl_Image := api.image spec; wl_Command := api.command spec; wl_Args := api.args spec;
  wl_Env := api.env spec; wl_Volumes := convert_mount <$> api.volumes spec;
  wl_Ports := convert_mapping <$> api.ports spec; wl_Resources := resources;
  wl_Placement := convert_placement (api.placement spec);
  wl_Restart := convert_restart (api.restart spec);
  wl_Rollout := convert_rollout (api.rollout spec); wl_Priority := 0;
  wl_Labels := api.labels workload; wl_Annotations := api.annotations workload;
  wl_DesiredReplicas := api.replicas spec; wl_Status := WorkloadStatusPending;
  wl_Replicas := []; wl_CurrentReplicas := 0; wl_ReadyReplicas := 0; wl_AvailableReplicas := 0;
  wl_CreatedAt := cr_created i; wl_UpdatedAt := cr_updated i; wl_DeletedAt := None |}.

Definition workload_id (workload : api.Workload) : string :=
  if api.id workload =?s "" then api.namespace workload +:+ "-" +:+ api.name workload
  else api.id workload.

(** What follows a save of the new workload, at [p]. *)
Definition place_workload (i : CreateInputs) (workload : api.Workload) (spec : api.WorkloadSpec)
    (resources : ResourceRequirements) (p : ptr) (c : Coordinator)
    : Coordinator * result handler_error api.Workload :=
  let workloadID := api.id workload in
  let c := (save (cr_save i 1%nat) p (touch p (with_status WorkloadStatusScheduling) c)).1 in
  let s := scheduler_spec workloadID (api.name workload) (api.namespace workload)
    (api.replicas spec) resources (convert_placement (api.placement spec)) in
  match ScheduleWorkload (cr_clock i) s c with
  | Err err =>
      ((save (cr_save i 2%nat) p (touch p (with_status WorkloadStatusFailed) c)).1,
       match err with
       | Failed e => Err (Failed ("failed to schedule workload: " +:+ e))
       | err => Err err
       end)
  | Ok decisions =>
      let c := set_members (queue_all (run_on workload <$> decisions) (c_members c)) c in
      ((save (cr_save i 2%nat) p (touch p (with_status WorkloadStatusRunning) c)).1,
       Ok (workload_message workloadID (api.name workload) (api.namespace workload) (Some spec)
             (api.labels workload) (api.annotations workload)))
  end.

Definition CreateWorkload (i : CreateInputs) (req : option api.Workload) (c : Coordinator)
    : option (Coordinator * result handler_error api.Workload) :=
  if negb (IsLeader c) then Some (c, Err (not_leader c))
  else match req with
  | None => Some (c, Err (Failed "workload spec is required"))
  | Some workload =>
      match api.spec workload with
      | None => Some (c, Err (Failed "workload spec is required"))
      | Some spec =>
          let workloadID := workload_id workload in
          let workload := workload <| api.id := workloadID |> in
          match convert_resources (api.resources spec) with
          | None => None
          | Some resources =>
              let state := initial_state i workloadID workload spec resources in
              let '(e, admitted) := AdmitWorkload (cr_env i) workload (c_engine c) in
              let c := c <| c_engine := e |> in
              match admitted with
              | Err st => Some (c, Err (Denied st))
              | Ok _ =>
                  let '(w, p) := alloc state (c_workloads c) in
                  let '(c, err) := save (cr_save i 0%nat) p (c <| c_workloads := w |>) in
                  match err with
                  | Some e => Some (c, Err (Failed ("failed to save workload state: " +:+ e)))
                  | None => Some (place_workload i workload spec resources p c)
                  end
              end
          end
      end
  end.

Definition when {A} (b : bool) (f : A → A) (a : A) : A := if b then f a else a.

(** The changes [UpdateWorkload] makes to the object it has got; [None] is the
    panic on resources without requests or limits. *)
Definition updated_spec (spec : api.WorkloadSpec) (w : WorkloadState) : option WorkloadState :=
  let w := w <| wl_Status := WorkloadStatusUpdating |> in
  let w := when (negb (api.image spec =?s "")) (fun w => w <| wl_Image := api.image spec |>) w in
  let w := when (0 <? len (api.command spec)) (fun w => w <| wl_Command := api.command spec |>) w in
  let w := when (0 <? len (api.args spec)) (fun w => w <| wl_Args := api.args spec |>) w in
  let w := when (0 <? Z.of_nat (size (api.env spec))) (fun w => w <| wl_Env := api.env spec |>) w in
  let w := when (0 <? len (api.volumes spec))
             (fun w => w <| wl_Volumes := convert_mount <$> api.volumes spec |>) w in
  let w := when (0 <? len (api.ports spec))
             (fun w => w <| wl_Ports := convert_mapping <$> api.ports spec |>) w in
  match api.resources spec with
  | None => Some w
  | Some r =>
      (fun resources => w <| wl_Resources := resources |>) <$> convert_resources (Some r)
  end ≫= fun w =>
  Some (when (0 <? api.replicas spec) (fun w => w <| wl_DesiredReplicas := api.replicas spec |>) w).

Definition updated_state (workload : api.Workload) (w : WorkloadState) : option WorkloadState :=
  match api.spec workload with
  | None => Some w
  | Some spec => updated_spec spec w
  end ≫= fun w =>
  let w := when (0 <? Z.of_nat (size (api.labels workload)))
             (fun w => w <| wl_Labels := api.labels workload |>) w in
  Some (when (0 <? Z.of_nat (size (default ∅ (api.annotations workload))))
          (fun w => w <| wl_Annotations := api.annotations workload |>) w).

Record UpdateInputs := { up_read : Z; up_env : EvalEnv; up_save : Z * raft_answer }.

Definition get (read : Z) (id : string) (c : Coordinator) : Coordinator * result string ptr :=
  let '(w, r) := GetWorkload read id (c_workloads c) in (c <| c_workloads := w |>, r).

Definition obj (c : Coordinator) (p : ptr) : WorkloadState := deref (c_workloads c) p.

Definition UpdateWorkload (i : UpdateInputs) (req : option api.Workload) (c : Coordinator)
    : option (Coordinator * result handler_error api.Workload) :=
  if negb (IsLeader c) then Some (c, Err (not_leader c))
  else match req with
  | None => Some (c, Err (Failed "workload is required"))
  | Some workload =>
      let workloadID := api.id workload in
      if workloadID =?s "" then Some (c, Err (Failed "workload ID is required"))
      else
        let '(c, r) := get (up_read i) workloadID c in
        match r with
        | Err err => Some (c, Err (Failed ("failed to get existing workload: " +:+ err)))
        | Ok p =>
            match updated_state workload (obj c p) with
            | None => None
            | Some state =>
                let c := touch p (fun _ => state) c in
                let '(e, admitted) := AdmitWorkload (up_env i) workload (c_engine c) in
                let c := c <| c_engine := e |> in
                match admitted with
                | Err st => Some (c, Err (UpdateDenied st))
                | Ok _ =>
                    let '(c, err) := save (up_save i) p c in
                    match err with
                    | Some e => Some (c, Err (Failed ("failed to save updated workload: " +:+ e)))
                    | None =>
                        let state := obj c p in
                        let running := List.filter is_running (wl_Replicas state) in
                        let c := set_members (queue_all (on_replica "update" workload <$> running)
                          (c_members c)) c in
                        Some (c, Ok (workload_message workloadID (wl_Name state)
                          (wl_Namespace state) (api.spec workload) (wl_Labels state)
                          (wl_Annotations state)))
                    end
                end
            end
        end
  end.

(** [gets] are the clock of the two reads, [at_] of the deletion. *)
Record DeleteInputs := {
  de_gets : Z * Z; de_at : Z; de_save : Z * raft_answer; de_purge : raft_answer
}.

Definition is_stopped (r : ReplicaState) : bool :=
  (re_Status r =?s ReplicaStatusStopped) || (re_Status r =?s ReplicaStatusFailed).

Definition HandleDeleteWorkload (i : DeleteInputs) (workloadID : string) (graceful : bool)
    (c : Coordinator) : Coordinator * option handler_error :=
  if negb (IsLeader c) then (c, Some (not_leader c))
  else
    let '(c, r) := get (de_gets i).1 workloadID c in
    match r with
    | Err err => (c, Some (Failed ("failed to get workload: " +:+ err)))
    | Ok p =>
        let '(w, err) := DeleteWorkload (de_gets i).2 (de_at i) (de_save i).1 (de_save i).2
                           workloadID (c_workloads c) in
        let c := set_workloads w c in
        match err with
        | Some e => (c, Some (Failed ("failed to mark workload as deleted: " +:+ e)))
        | None =>
            let live := List.filter (fun r => negb (is_stopped r)) (wl_Replicas (obj c p)) in
            let c := set_members (queue_all (on_replica "stop" (only_id workloadID) <$> live)
                                    (c_members c)) c in
            (if graceful then c
             else set_workloads (PurgeWorkload (de_purge i) workloadID (c_workloads c)).1 c, None)
        end
    end.

Definition capacity_message (r : ResourceSpec) : api.ResourceCapacity := {|
  api.CpuMillicores := rs_CPUMillicores r; api.MemoryBytes := rs_MemoryBytes r;
  api.StorageBytes := rs_StorageBytes r; api.BandwidthBps := 0; api.GpuCount := 0 |}.

(** The message for a stored workload; a list leaves the environment out. *)
Definition state_message (with_env : bool) (w : WorkloadState) : api.Workload := {|
  api.id := wl_ID w; api.name := wl_Name w; api.namespace := wl_Namespace w;
  api.spec := Some (bare_spec
    <| api.image := wl_Image w |> <| api.command := wl_Command w |> <| api.args := wl_Args w |>
    <| api.env := if with_env then wl_Env w else ∅ |> <| api.replicas := wl_DesiredReplicas w |>
    <| api.resources := Some {|
         api.Requests := Some (capacity_message (rr_Requests (wl_Resources w)));
         api.Limits := Some (capacity_message (rr_Limits (wl_Resources w))) |} |>);
  api.wstatus := Some {|
    api.phase := convertWorkloadStatusToPhase (wl_Status w);
    api.ready_replicas := wl_ReadyReplicas w; api.current_replicas := wl_CurrentReplicas w;
    api.desired_replicas := wl_DesiredReplicas w |};
  api.created_at := Some (wl_CreatedAt w); api.updated_at := Some (wl_UpdatedAt w);
  api.labels := wl_Labels w; api.annotations := None |}.

Definition HandleGetWorkload (read : Z) (workloadID : string) (c : Coordinator)
    : Coordinator * result handler_error api.Workload :=
  let '(c, r) := get read workloadID c in
  match r with
  | Err err => (c, Err (Failed ("failed to get workload: " +:+ err)))
  | Ok p => (c, Ok (state_message true (obj c p)))
  end.

Definition HandleListWorkloads (namespace : string) (selector : gmap string string)
    (c : Coordinator) : list api.Workload :=
  (fun p => state_message false (obj c p)) <$> ListWorkloads namespace selector (c_workloads c).

(** *** Scaling *)

Record ScaleInputs := { sc_read : Z; sc_save : Z * raft_answer; sc_clock : Z → Z * Z }.

(** The message that is queued for a stored workload, here and in
    [Reschedule]. *)
Definition run_message (w : WorkloadState) (replicas : Z) : api.Workload :=
  workload_message (wl_ID w) (wl_Name w) (wl_Namespace w)
    (Some (bare_spec <| api.image := wl_Image w |> <| api.command := wl_Command w |>
             <| api.args := wl_Args w |> <| api.env := wl_Env w |> <| api.replicas := replicas |>))
    ∅ None.

(** The loop from the last replica to the first; [n] is what is left to
    remove, and a replica whose node is unknown does not count. *)
Fixpoint stop_replicas (workloadID : string) (n : Z) (rs : list ReplicaState)
    (m : MembershipManager) : MembershipManager :=
  match rs with
  | [] => m
  | r :: rs =>
      if n <=? 0 then m
      else
        let na := on_replica "stop" (only_id workloadID) r in
        match QueueAssignment m na.1 na.2 with
        | (m, Some _) => stop_replicas workloadID n rs m
        | (m, None) => stop_replicas workloadID (n - 1) rs m
        end
  end.

Definition scaling_state (replicas : Z) (w : WorkloadState) : WorkloadState :=
  w <| wl_DesiredReplicas := replicas |> <| wl_Status := WorkloadStatusScaling |>.

Definition ScaleWorkload (i : ScaleInputs) (workloadID : string) (replicas : Z) (c : Coordinator)
    : Coordinator * result handler_error api.Workload :=
  if negb (IsLeader c) then (c, Err (not_leader c))
  else
    let '(c, r) := get (sc_read i) workloadID c in
    match r with
    | Err err => (c, Err (Failed ("failed to get workload: " +:+ err)))
    | Ok p =>
        let currentReplicas := wl_CurrentReplicas (obj c p) in
        let '(c, err) := save (sc_save i) p (touch p (scaling_state replicas) c) in
        match err with
        | Some e => (c, Err (Failed ("failed to save workload state: " +:+ e)))
        | None =>
            let w := obj c p in
            let reply := workload_message (wl_ID w) (wl_Name w) (wl_Namespace w)
              (Some (bare_spec <| api.image := wl_Image w |> <| api.replicas := replicas |>))
              (wl_Labels w) (wl_Annotations w) in
            if currentReplicas <? replicas then
              let s := scheduler_spec (wl_ID w) (wl_Name w) (wl_Namespace w)
                (int32 (replicas - currentReplicas)) (wl_Resources w) (wl_Placement w) in
              match ScheduleWorkload (sc_clock i) s c with
              | Err (Failed e) => (c, Err (Failed ("failed to schedule new replicas: " +:+ e)))
              | Err err => (c, Err err)
              | Ok decisions =>
                  (set_members (queue_all (run_on (run_message w replicas) <$> decisions)
                     (c_members c)) c, Ok reply)
              end
            else if replicas <? currentReplicas then
              (set_members (stop_replicas workloadID (int32 (currentReplicas - replicas))
                 (rev (wl_Replicas w)) (c_members c)) c, Ok reply)
            else (c, Ok reply)
        end
    end.

(** *** Rescheduling *)

Record RescheduleReply := {
  rr_OldDecisions : list DecisionReply; rr_NewDecisions : list DecisionReply
}.

Definition is_failed (r : ReplicaState) : bool := re_Status r =?s ReplicaStatusFailed.

(** The keys of the map of nodes with a failed replica. *)
Definition failed_nodes (w : WorkloadState) : list string :=
  (range_map (foldl (fun (acc : gmap string bool) r =>
     if is_failed r then <[re_NodeID r := true]> acc else acc) ∅ (wl_Replicas w))).*1.

Definition reschedule_spec (w : WorkloadState) : Scorer.WorkloadSpec := {|
  w_ID := wl_ID w; w_Name := wl_Name w; w_Namespace := wl_Namespace w;
  w_Replicas := wl_DesiredReplicas w; w_Resources := wl_Resources w;
  w_PlacementPolicy := wl_Placement w; w_RestartPolicy := wl_Restart w;
  w_RolloutStrategy := wl_Rollout w; w_Priority := wl_Priority w; w_Labels := wl_Labels w;
  w_Annotations := wl_Annotations w |}.

Definition HandleReschedule (read : Z) (clock : Z → Z * Z) (workloadID : string) (c : Coordinator)
    : Coordinator * result handler_error RescheduleReply :=
  if negb (IsLeader c) then (c, Err (not_leader c))
  else
    let '(c, r) := get read workloadID c in
    match r with
    | Err err => (c, Err (Failed ("failed to get workload: " +:+ err)))
    | Ok p =>
        let w := obj c p in
        let minAvailable := ro_MinAvailable (wl_Rollout w) in
        if (0 <? minAvailable) && (wl_ReadyReplicas w <? int32 minAvailable) then
          (c, Err (Failed ("cannot reschedule: current ready replicas ("
             +:+ show_Z (wl_ReadyReplicas w) +:+ ") below minAvailable (" +:+ show_Z minAvailable
             +:+ ") - device failure would violate availability constraint")))
        else match Reschedule clock (the_scheduler c) (reschedule_spec w) (failed_nodes w)
                     (wl_ReadyReplicas w) with
        | Err err => (c, Err (Failed ("failed to reschedule workload: " +:+ err)))
        | Ok result =>
            let running := List.filter is_running (wl_Replicas w) in
            let m := queue_all (on_replica "stop" (only_id workloadID) <$> running)
                       (c_members c) in
            let m := queue_all (run_on (run_message w (wl_DesiredReplicas w)) <$>
                                  res_Decisions result) m in
            (set_members m c,
             Ok {| rr_OldDecisions := (fun r =>
                     {| dr_ReplicaId := re_ID r; dr_NodeId := re_NodeID r;
                        dr_FragmentId := re_FragmentID r; dr_Score := f0 |}) <$> running;
                   rr_NewDecisions := (fun d =>
                     {| dr_ReplicaId := ""; dr_NodeId := dec_NodeID d;
                        dr_FragmentId := dec_FragmentID d; dr_Score := dec_Score d |}) <$>
                     res_Decisions result |})
        end
    end.

End handlers.

(** ** The replica monitor (pkg/coordinator/replica_monitor.go)

    Every turn of the monitor lists the workloads, remembers when it first saw
    a replica fail, and calls the coordinator's [Reschedule] for every workload
    with a failed replica.  Metrics of the latency are dropped. *)

Local Open Scope string_scope.
Local Open Scope Z_scope.

Definition DefaultReconcileInterval : Z := 5 * second.

(** [rmon_attached] tells whether the monitor has a coordinator. *)
Record ReplicaMonitor := {
  rmon_interval : Z;
  rmon_attached : bool;
  rmon_failures : gmap string Z
}.

#[export] Instance eta_ReplicaMonitor : Eta ReplicaMonitor := fun r =>
  Build_ReplicaMonitor (rmon_interval r) (rmon_attached r) (rmon_failures r).

Definition NewReplicaMonitor (interval : Z) (attached : bool) : ReplicaMonitor :=
  {| rmon_interval := if interval =? 0 then DefaultReconcileInterval else interval;
     rmon_attached := attached; rmon_failures := ∅ |}.

Definition GetFailureCount (rm : ReplicaMonitor) : Z := Z.of_nat (size (rmon_failures rm)).

Definition ClearFailureTimestamp (replicaID : string) (rm : ReplicaMonitor) : ReplicaMonitor :=
  rm <| rmon_failures := delete replicaID (rmon_failures rm) |>.

(** What a turn reads for a workload: the clock at each failure it records, and
    the inputs of [Reschedule]. *)
Record TurnInputs := {
  ti_seen : string → Z;
  ti_read : Z;
  ti_clock : Z → Z * Z
}.

(** A failure is recorded once. *)
Definition record_failure (i : TurnInputs) (failures : gmap string Z) (r : ReplicaState)
    : gmap string Z :=
  match failures !! re_ID r with
  | Some _ => failures
  | None => <[re_ID r := ti_seen i (re_ID r)]> failures
  end.

Section monitor.
Context `{GoRange, GoSort, NodeCodec, BootstrapJWT, WorkloadCodec}.

Definition reconcileWorkload (i : TurnInputs) (p : ptr) (rc : ReplicaMonitor * Coordinator)
    : ReplicaMonitor * Coordinator :=
  let '(rm, c) := rc in
  let w := obj c p in
  let failed := List.filter is_failed (wl_Replicas w) in
  let rm := rm <| rmon_failures := foldl (record_failure i) (rmon_failures rm) failed |> in
  if len failed =? 0 then (rm, c)
  else if negb (rmon_attached rm) then (rm, c)
  else
    let '(c, r) := HandleReschedule (ti_read i) (ti_clock i) (wl_ID w) c in
    match r with
    | Err _ => (rm, c)
    | Ok _ =>
        (rm <| rmon_failures := foldl (fun f r => delete (re_ID r) f) (rmon_failures rm) failed |>, c)
    end.

(** One turn of the loop. *)
Definition reconcile (i : ptr → TurnInputs) (rc : ReplicaMonitor * Coordinator)
    : ReplicaMonitor * Coordinator :=
  foldl (fun rc p =>
    if bool_decide (wl_DeletedAt (obj rc.2 p) = None) then reconcileWorkload (i p) p rc else rc)
    rc (ListWorkloads "" ∅ (c_workloads rc.2)).

End monitor.
