(* ===== verification/CoordinatorSpec.v ===== *)
(** * What the coordinator's handlers do together

    The managers stay coherent over the store they share; what the handlers
    for workloads change, on every branch; what a coordinator that is not the
    leader changes; and that no handler ever records a replica. *)

From S2P Require Import Prelude GoText GoFloat PolicyTypes PolicyEngine PolicyAdmission BootstrapTokens Node NodeHealth Scorer BinPack Scheduler RaftFSM Membership MembershipSpec ClusterScheduling Workloads WorkloadsSpec Coordinator.

(** ** Keys of the shared store *)

Definition same_under (p : string) (st st' : Store) : Prop :=
  ∀ k, HasPrefix k p = true → abs (fsm st') !! k = abs (fsm st) !! k.

Lemma same_under_refl p st : same_under p st st.
Proof. by intros k. Qed.

Lemma same_under_trans p st st' st'' :
  same_under p st st' → same_under p st' st'' → same_under p st st''.
Proof. intros H1 H2 k Hk. by rewrite H2, H1. Qed.

Lemma keys_apart k : HasPrefix k "node:" = true → HasPrefix k "workload:" = true → False.
Proof. rewrite !HasPrefix_spec. intros [a ->] [b Hb]. by apply (f_equal (String.get 0)) in Hb. Qed.

#[export] Hint Resolve same_under_refl : go.

Lemma same_under_insert p st st' k v :
  abs (fsm st') = <[k := v]> (abs (fsm st)) → (HasPrefix k p = true → False) → same_under p st st'.
Proof. intros Heq Hk j Hj. rewrite Heq, lookup_insert_ne; [done|]. intros ->. auto. Qed.

Lemma same_under_delete p st st' k :
  abs (fsm st') = delete k (abs (fsm st)) → (HasPrefix k p = true → False) → same_under p st st'.
Proof. intros Heq Hk j Hj. rewrite Heq, lookup_delete_ne; [done|]. intros ->. auto. Qed.

Lemma node_key_apart id : HasPrefix (node_key id) "workload:" = true → False.
Proof. apply keys_apart, HasPrefix_app. Qed.

Lemma workload_key_apart id : HasPrefix (workload_key id) "node:" = true → False.
Proof. intros Hn. by eapply keys_apart, HasPrefix_app. Qed.

#[export] Hint Resolve node_key_apart workload_key_apart : go.

Section membership.
Context `{GoRange, NodeCodec, BootstrapJWT, !NodeCodecLaws}.

Lemma saveNode_apart ans m n : same_under "workload:" (mm_store m) (mm_store (saveNode ans m n).1).
Proof.
  destruct (saveNode_store ans m n) as [Heq|(v & _ & Heq)]; [by intros k _; rewrite Heq|].
  eapply same_under_insert; [exact Heq|apply node_key_apart].
Qed.

Ltac by_save :=
  match goal with |- context [saveNode ?a ?b ?c] => exact (saveNode_apart a b c) end.

Lemma enroll_apart i m req : same_under "workload:" (mm_store m) (mm_store (EnrollNode i m req).1).
Proof.
  unfold EnrollNode. repeat case_match; cbn [fst]; auto with go; by_save.
Qed.

Lemma heartbeat_apart i m req :
  same_under "workload:" (mm_store m) (mm_store (ProcessHeartbeat i m req).1).
Proof.
  unfold ProcessHeartbeat. case_match; cbn [fst]; auto with go.
  by_save.
Qed.

Lemma uncordon_apart ans m id :
  same_under "workload:" (mm_store m) (mm_store (UncordonNode ans m id).1).
Proof.
  unfold UncordonNode. case_match; cbn [fst]; auto with go.
  destruct (saveNode _ _ _) as [m' e] eqn:Hs. cbn [fst]. apply (f_equal fst) in Hs. cbn [fst] in Hs.
  subst m'. by_save.
Qed.

Lemma drain_apart ans m id : same_under "workload:" (mm_store m) (mm_store (drained ans m id)).
Proof.
  unfold drained, DrainNode. repeat case_match; simplify_eq; auto with go;
    match goal with Hs : saveNode ?a ?b ?c = _ |- _ => pose proof (saveNode_apart a b c) as Ha;
      rewrite Hs in Ha; exact Ha end.
Qed.

Lemma saveNodes_apart ans m : same_under "workload:" (mm_store m) (mm_store (saveNodes ans m)).
Proof.
  apply saveNodes_ind; [|apply same_under_refl]. intros m' id n _ Hm'.
  eapply same_under_trans; [exact Hm'|apply saveNode_apart].
Qed.

Lemma remove_apart now ans m :
  same_under "workload:" (mm_store m) (mm_store (removeExpiredNodes now ans m)).
Proof.
  unfold removeExpiredNodes. set (l := (List.filter _ _).*1). clearbody l.
  enough (∀ m', same_under "workload:" (mm_store m) (mm_store m') →
    same_under "workload:" (mm_store m) (mm_store (foldl (remove_node ans) m' l))) as Hl
    by apply Hl, same_under_refl.
  induction l as [|id l IH]; intros m' Hm'; [done|]. cbn [foldl]. apply IH.
  eapply same_under_trans; [exact Hm'|]. unfold remove_node. simpl.
  destruct (Store_Delete_cases (node_key id) (ans id) (mm_store m')) as [(r & -> & Hr)|[e ->]]; simpl.
  - eapply same_under_delete; [exact Hr|apply node_key_apart].
  - apply same_under_refl.
Qed.

(** Work is queued for the nodes that are known, in order. *)
Lemma queue_all_spec l : ∀ m,
  mm_nodes (queue_all l m) = mm_nodes m ∧ mm_store (queue_all l m) = mm_store m ∧
  mm_tokens (queue_all l m) = mm_tokens m ∧ mm_scoring (queue_all l m) = mm_scoring m ∧
  mm_commands (queue_all l m) = mm_commands m ∧
  ∀ id, default [] (mm_assignments (queue_all l m) !! id) =
    default [] (mm_assignments m !! id) ++
    match mm_nodes m !! id with
    | Some _ => (List.filter (fun na => na.1 =?s id) l).*2
    | None => []
    end.
Proof.
  induction l as [|[n a] l IH]; intros m.
  - split_and!; try done. intros id. case_match; by rewrite app_nil_r.
  - change (queue_all ((n, a) :: l) m) with (queue_all l (QueueAssignment m n a).1).
    destruct (IH (QueueAssignment m n a).1) as (-> & -> & -> & -> & -> & Hq). unfold QueueAssignment in *.
    cbn [fst snd]. destruct (mm_nodes m !! n) as [node|] eqn:Hn; cbn [fst] in *; split_and!; try done.
    + intros id. rewrite Hq. simpl. destruct (decide (id = n)) as [->|Hne].
      * unfold push. rewrite lookup_insert_eq, Hn. simpl. rewrite <-app_assoc. f_equal.
        by rewrite bool_decide_eq_true_2.
      * unfold push. rewrite lookup_insert_ne by done. f_equal. case_match; [|done].
        destruct (n =?s id) eqn:Hs; [|done]. bool_to_prop. congruence.
    + intros id. rewrite Hq. f_equal. destruct (mm_nodes m !! id) eqn:Hid; [|done]. simpl.
      destruct (n =?s id) eqn:Hs; [|done]. bool_to_prop. congruence.
Qed.
End membership.

(** ** Coherence *)

Section coordinator.
Context `{GoRange, GoSort, NodeCodec, BootstrapJWT, WorkloadCodec, !NodeCodecLaws, !WorkloadCodecLaws}.

(** Both managers hold the same store and are in order, and the workloads are
    those of [s]. *)
Record coherent (c : Coordinator) (s : WorkloadMaps) : Prop := {
  co_sync : wsm_store (c_workloads c) = mm_store (c_members c);
  co_members : members_ok (c_members c);
  co_maps : represents (c_workloads c) s
}.

Lemma coherent_members c s m :
  coherent c s → members_ok m → same_under "workload:" (mm_store (c_members c)) (mm_store m) →
  coherent (set_members m c) s.
Proof.
  intros [Hs Hm [Hd Hsh Hdom]] Hm' Hsame. split; [done|done|]. split; [|by apply shows_store|done].
  eapply stores_ext; [|exact Hd]. rewrite Hs. exact Hsame.
Qed.

Lemma coherent_workloads c s w s' :
  coherent c s → represents w s' → same_under "node:" (wsm_store (c_workloads c)) (wsm_store w) →
  coherent (set_workloads w c) s'.
Proof.
  intros [Hs Hm Hr] Hr' Hsame. split; [done| |done].
  eapply mstep_ok; [exact Hm|]. apply s_store. rewrite <-Hs. exact Hsame.
Qed.

Lemma coherent_engine c s e : coherent c s → coherent (c <| c_engine := e |>) s.
Proof. intros []. by split. Qed.

(** *** The workload manager writes under its own keys *)

Lemma write_apart ans w m : same_under "node:" (wsm_store m) (wsm_store (write_workload ans w m).1).
Proof.
  unfold write_workload. destruct (workload_marshal w) as [v|]; [|apply same_under_refl].
  destruct (Store_Set_cases (workload_key (wl_ID w)) v ans (wsm_store m)) as [(r & -> & Hr)|[e ->]].
  - eapply same_under_insert; [exact Hr|apply workload_key_apart].
  - apply same_under_refl.
Qed.

Lemma save_apart now ans p m :
  same_under "node:" (wsm_store m) (wsm_store (SaveWorkload now ans p m).1).
Proof.
  unfold SaveWorkload. set (w := _ <| wl_UpdatedAt := now |>).
  pose proof (write_apart ans w (assign p w m)) as Hw.
  by destruct (write_workload ans w (assign p w m)) as [m' [e|]].
Qed.

Lemma health_apart live ready now ans h m :
  same_under "node:" (wsm_store m) (wsm_store (UpdateReplicaHealth live ready now ans h m).1).
Proof.
  unfold UpdateReplicaHealth. destruct (find_container _ _ _ _) as [[p l]|]; [|apply same_under_refl].
  match goal with |- context [write_workload ?a ?b ?m] => exact (write_apart a b m) end.
Qed.

Lemma purge_apart ans id m : same_under "node:" (wsm_store m) (wsm_store (PurgeWorkload ans id m).1).
Proof.
  unfold PurgeWorkload.
  destruct (Store_Delete_cases (workload_key id) ans (wsm_store m)) as [(r & -> & Hr)|[e ->]].
  - eapply same_under_delete; [exact Hr|apply workload_key_apart].
  - apply same_under_refl.
Qed.

(** *** Reading, changing and saving one workload *)

(** [p] is where the coordinator holds the workload [id]. *)
Record held (c : Coordinator) (s : WorkloadMaps) (id : string) (p : ptr) : Prop := {
  he_coherent : coherent c s;
  he_cached : wsm_cache (c_workloads c) !! id = Some p
}.

Lemma held_mem c s id p : held c s id p → mem s !! id = Some (obj c p) ∧ wl_ID (obj c p) = id.
Proof.
  intros [[_ _ Hr] Hc]. destruct (sh_cached _ _ _ _ (rp_shows _ _ Hr) Hc) as [Hm _].
  split; [done|]. by apply (sh_ids _ _ (rp_shows _ _ Hr)).
Qed.

Lemma get_spec read id c s :
  coherent c s →
  (∃ p, get read id c = (c, Ok p) ∧ held c s id p) ∨
  (∃ e, get read id c = (c, Err e) ∧ mem s !! id = None).
Proof.
  intros Hc. unfold get. rewrite (GetWorkload_spec _ _ _ _ (co_maps _ _ Hc)).
  assert (c <| c_workloads := c_workloads c |> = c) as -> by by destruct c.
  destruct (wsm_cache (c_workloads c) !! id) as [p|] eqn:Hp; [left|right]; eexists; (split; [done|]).
  - by split.
  - by apply (sh_miss _ _ _ (rp_shows _ _ (co_maps _ _ Hc))).
Qed.

Lemma touch_held c s id p f :
  held c s id p → wl_ID (f (obj c p)) = id →
  held (touch p f c) (s <| mem := <[id := f (obj c p)]> (mem s) |>) id p ∧
  obj (touch p f c) p = f (obj c p).
Proof.
  intros [[Hs Hm Hr] Hc] Hf.
  assert (shows (c_workloads (touch p f c)) (<[id := f (obj c p)]> (mem s))) as Hsh.
  { by apply shows_assign; [apply Hr|..]. }
  split; [|apply deref_assign]. split; [|done]. split; [done|done|]. split; simpl.
  - apply Hr.
  - done.
  - intros i. destruct (decide (i = id)) as [->|Hn]; [|rewrite lookup_insert_ne by done; apply Hr].
    rewrite lookup_insert_eq, <-(rp_dom _ _ Hr).
    destruct (held_mem c s id p) as [-> _]; [by split|]. done.
Qed.

Lemma assign_id p m w : wsm_objects m !! p = Some w → assign p w m = m.
Proof. intros Hp. unfold assign. destruct m. unfold with_field. simpl in *. by rewrite insert_id. Qed.

(** What a save leaves alone. *)
Lemma save_fields i p c c' err :
  save i p c = (c', err) →
  mm_nodes (c_members c') = mm_nodes (c_members c) ∧
  mm_assignments (c_members c') = mm_assignments (c_members c) ∧
  mm_tokens (c_members c') = mm_tokens (c_members c) ∧
  c_engine c' = c_engine c ∧ c_scorer c' = c_scorer c ∧ c_scheduling c' = c_scheduling c ∧
  c_leader c' = c_leader c.
Proof. unfold save. destruct (SaveWorkload _ _ _ _) as [w e]. by intros [= <- <-]. Qed.

Lemma save_held i p c s id c' err :
  held c s id p → save i p c = (c', err) →
  held c' (put id ((obj c p) <| wl_UpdatedAt := i.1 |>) err s) id p ∧
  obj c' p = (obj c p) <| wl_UpdatedAt := i.1 |>.
Proof.
  intros [Hco Hc]. destruct (held_mem c s id p) as [Hmem Hid]; [by split|]. unfold save.
  destruct (sh_cached _ _ _ _ (rp_shows _ _ (co_maps _ _ Hco)) Hc) as [_ Hobj].
  destruct (SaveWorkload i.1 i.2 p (c_workloads c)) as [w e] eqn:Hs. intros [= <- <-].
  assert (represents w (put id ((obj c p) <| wl_UpdatedAt := i.1 |>) e s)) as Hr.
  { eapply save_cached; [apply Hco|exact Hc|exact Hid|]. rewrite assign_id by exact Hobj. exact Hs. }
  assert (wsm_cache w !! id = Some p ∧ wsm_objects w !! p = Some ((obj c p) <| wl_UpdatedAt := i.1 |>))
    as [Hcw How].
  { revert Hs. unfold SaveWorkload. fold (obj c p). set (o := (obj c p) <| wl_UpdatedAt := i.1 |>).
    destruct (write_workload i.2 o (assign p o (c_workloads c))) as [m1 e1] eqn:Hw.
    destruct (write_workload_spec _ _ _ _ _ s (rp_dur _ _ (co_maps _ _ Hco) :
      stores (wsm_store (assign p o (c_workloads c))) _) Hw) as (st & -> & _).
    destruct e1; intros [<- _]%pair_eq; simpl; rewrite ?lookup_insert_eq; [done|].
    split; [|done]. change (wl_ID o) with (wl_ID (obj c p)). rewrite Hid. by rewrite lookup_insert_eq. }
  split.
  - split; [|done]. apply (coherent_workloads c s); [done|done|].
    pose proof (save_apart i.1 i.2 p (c_workloads c)) as Ha. by rewrite Hs in Ha.
  - unfold obj, deref. simpl. by rewrite How.
Qed.

Definition queue_of (c : Coordinator) (id : string) : list msg.WorkloadAssignment :=
  default [] (mm_assignments (c_members c) !! id).

(** What is queued for the node [id] by a list of assignments. *)
Definition sent (l : list (string * msg.WorkloadAssignment)) (id : string)
    : list msg.WorkloadAssignment := (List.filter (fun na => na.1 =?s id) l).*2.

(** The work that reaches the known nodes. *)
Definition sent_known (c : Coordinator) (l : list (string * msg.WorkloadAssignment)) (id : string)
    : list msg.WorkloadAssignment :=
  match mm_nodes (c_members c) !! id with Some _ => sent l id | None => [] end.

Definition enqueue (l : list (string * msg.WorkloadAssignment)) (c : Coordinator) : Coordinator :=
  set_members (queue_all l (c_members c)) c.

Lemma enqueue_spec l c :
  (∀ id, queue_of (enqueue l c) id = queue_of c id ++ sent_known c l id) ∧
  mm_nodes (c_members (enqueue l c)) = mm_nodes (c_members c) ∧
  (∀ p, obj (enqueue l c) p = obj c p).
Proof.
  destruct (queue_all_spec l (c_members c)) as (Hn & _ & _ & _ & _ & Hq). split_and!; [|done|done].
  intros id. apply Hq.
Qed.

Lemma enqueue_coherent l c s : coherent c s → coherent (enqueue l c) s.
Proof.
  intros Hc. destruct (queue_all_spec l (c_members c)) as (Hn & Hs & _).
  apply coherent_members; [done| |by rewrite Hs; apply same_under_refl].
  eapply members_ok_ext; [exact Hn|exact Hs|apply Hc].
Qed.

Lemma enqueue_held l c s id p : held c s id p → held (enqueue l c) s id p.
Proof. intros [Hc Hp]. split; [by apply enqueue_coherent|done]. Qed.

Lemma enqueue_nil c s : coherent c s → enqueue [] c = c.
Proof.
  intros [Hs _ _]. unfold enqueue, set_members. destruct c as [m [st o n ca] ? ? ? ?]. simpl in *.
  by subst st.
Qed.

(** *** Updating a workload *)

Lemma when_field {A B} (g : A → B) b f a : (∀ a, g (f a) = g a) → g (when b f a) = g a.
Proof. unfold when. by case_match. Qed.

(** An update keeps the fields that are not part of a specification. *)
Lemma updated_spec_field {B} (g : WorkloadState → B) spec w w' :
  (∀ w x, g (w <| wl_Status := x |>) = g w) → (∀ w x, g (w <| wl_Image := x |>) = g w) →
  (∀ w x, g (w <| wl_Command := x |>) = g w) → (∀ w x, g (w <| wl_Args := x |>) = g w) →
  (∀ w x, g (w <| wl_Env := x |>) = g w) → (∀ w x, g (w <| wl_Volumes := x |>) = g w) →
  (∀ w x, g (w <| wl_Ports := x |>) = g w) → (∀ w x, g (w <| wl_Resources := x |>) = g w) →
  (∀ w x, g (w <| wl_DesiredReplicas := x |>) = g w) →
  updated_spec spec w = Some w' → g w' = g w.
Proof.
  intros H1' H2' H3' H4' H5' H6' H7' H8' H9'. unfold updated_spec. cbv zeta.
  intros Hu. apply bind_Some in Hu as (w1 & Hw1 & <-%(inj Some)). rewrite (when_field g) by auto. revert Hw1.
  destruct (api.resources spec) as [r|];
    [rewrite fmap_Some; intros (rr & _ & ->); rewrite H8'|intros <-%(inj Some)];
    rewrite !(when_field g) by auto; auto.
Qed.

Lemma updated_state_field {B} (g : WorkloadState → B) msg w w' :
  (∀ spec w w', updated_spec spec w = Some w' → g w' = g w) →
  (∀ w x, g (w <| wl_Labels := x |>) = g w) → (∀ w x, g (w <| wl_Annotations := x |>) = g w) →
  updated_state msg w = Some w' → g w' = g w.
Proof.
  intros Hs Hl Ha. unfold updated_state. cbv zeta. intros Hu.
  apply bind_Some in Hu as (w1 & Hw1 & <-%(inj Some)). rewrite !(when_field g) by auto.
  destruct (api.spec msg); [by eapply Hs|by injection Hw1 as <-].
Qed.

Lemma updated_state_id msg w w' : updated_state msg w = Some w' → wl_ID w' = wl_ID w.
Proof. apply updated_state_field; [|done|done]. intros spec w1 w1'. by apply (updated_spec_field wl_ID). Qed.

(** The outcome of an update of the workload [w0] to [w1]. *)
Definition update_outcome (i : UpdateInputs) (w : api.Workload) (w1 : WorkloadState)
    (c c' : Coordinator) (s s' : WorkloadMaps) (r : result handler_error api.Workload) : Prop :=
  match (AdmitWorkload (up_env i) w (c_engine c)).2 with
  | Err st =>
      r = Err (UpdateDenied st) ∧ s' = s <| mem := <[api.id w := w1]> (mem s) |> ∧
      ∀ n, queue_of c' n = queue_of c n
  | Ok _ =>
      ∃ err, s' = put (api.id w) (w1 <| wl_UpdatedAt := (up_save i).1 |>) err s ∧
        match err with
        | Some e => r = Err (Failed ("failed to save updated workload: " +:+ e)) ∧
            ∀ n, queue_of c' n = queue_of c n
        | None => (∃ reply, r = Ok reply) ∧
            ∀ n, queue_of c' n = queue_of c n ++ sent_known c
              (on_replica "update" w <$> List.filter is_running (wl_Replicas w1)) n
        end
  end.

(** Held through the changes of the engine. *)
Lemma engine_held c s id p e : held c s id p → held (c <| c_engine := e |>) s id p.
Proof. intros [Hc Hp]. split; [by apply coherent_engine|done]. Qed.

Lemma UpdateWorkload_outcome i w c s w0 w1 c' r :
  coherent c s → IsLeader c = true → api.id w ≠ EmptyString → mem s !! api.id w = Some w0 →
  updated_state w w0 = Some w1 → UpdateWorkload i (Some w) c = Some (c', r) →
  ∃ s', coherent c' s' ∧ update_outcome i w w1 c c' s s' r.
Proof.
  intros Hc Hl Hid Hm Hu. unfold UpdateWorkload. rewrite Hl, bool_decide_eq_false_2 by done. cbn [negb].
  destruct (get_spec (up_read i) (api.id w) c s Hc) as [(p & -> & Hh)|(e & _ & Hn)]; [|congruence].
  destruct (held_mem _ _ _ _ Hh) as [Hmem Hoid]. assert (obj c p = w0) as Hw0 by congruence.
  rewrite Hw0, Hu. unfold update_outcome. rewrite <-Hw0 in *.
  destruct (touch_held c s (api.id w) p (fun _ => w1) Hh) as [Hh1 Ho1];
    [by rewrite (updated_state_id _ _ _ Hu)|]. cbv beta in Hh1.
  set (c1 := touch p (fun _ => w1) c) in *. set (s1 := s <| mem := _ |>) in *.
  change (c_engine c1) with (c_engine c).
  destruct (AdmitWorkload (up_env i) w (c_engine c)) as [e [[]|st]]; cbn [snd].
  - apply (engine_held _ _ _ _ e) in Hh1. set (c2 := c1 <| c_engine := e |>) in *.
    assert (obj c2 p = w1) as Ho2 by exact Ho1.
    destruct (save (up_save i) p c2) as [c3 err] eqn:Hs.
    destruct (save_held _ _ _ _ _ _ _ Hh1 Hs) as [Hh3 Ho3]. destruct (save_fields _ _ _ _ _ Hs) as (Hn3 & Ha3 & _).
    rewrite Ho2 in *.
    assert (put (api.id w) (w1 <| wl_UpdatedAt := (up_save i).1 |>) err s1 =
      put (api.id w) (w1 <| wl_UpdatedAt := (up_save i).1 |>) err s) as Hput.
    { unfold put, s1. simpl. by rewrite insert_insert_eq. }
    rewrite Hput in Hh3. destruct err as [err|]; intros [<- <-]%(inj Some)%pair_eq.
    + eexists. split; [apply Hh3|]. exists (Some err). split_and!; [done|done|].
      intros n. unfold queue_of. by rewrite Ha3.
    + eexists. split; [by apply enqueue_coherent, Hh3|]. exists None. split_and!; [done|eauto|].
      intros n. destruct (enqueue_spec (on_replica "update" w <$> List.filter is_running
        (wl_Replicas (obj c3 p))) c3) as [Hq _]. rewrite Hq.
      unfold sent_known, queue_of. by rewrite Ha3, Hn3, Ho3.
  - intros [<- <-]%(inj Some)%pair_eq. exists s1. split; [by apply coherent_engine, Hh1|].
    split_and!; done.
Qed.

(** *** Creating a workload *)

(** Scheduling depends on the nodes alone. *)
Lemma Schedule_nodes clock m m' sc cfg w :
  mm_nodes m = mm_nodes m' →
  Schedule clock {| membershipManager := m; scorer := sc; config := cfg |} w =
  Schedule clock {| membershipManager := m'; scorer := sc; config := cfg |} w.
Proof. intros Hn. unfold Schedule, Manager_ListNodes. simpl. unfold Manager_ListNodes. by rewrite Hn. Qed.

Lemma ScheduleWorkload_ok clock w c :
  IsLeader c = true →
  ∃ r, Schedule clock (the_scheduler c) w = Ok r ∧
    ScheduleWorkload clock w c = Ok (res_Decisions r).
Proof.
  intros Hl. unfold ScheduleWorkload. rewrite Hl. simpl.
  destruct (Schedule clock (the_scheduler c) w) as [r|e] eqn:Hr; [eauto|].
  unfold Schedule in Hr. simpl in Hr. by case_match.
Qed.

(** Leadership is part of the store. *)
Lemma Store_Set_leader k v ans st st' r : Store_Set k v ans st = Some (st', r) → is_leader st' = is_leader st.
Proof. unfold Store_Set, submit. repeat case_match; intros; by simplify_eq. Qed.

Lemma save_leader i p c c' err : save i p c = (c', err) → wsm_store (c_workloads c) = mm_store (c_members c) → IsLeader c' = IsLeader c.
Proof.
  unfold save, SaveWorkload, write_workload, IsLeader. intros Hs Hsync. revert Hs.
  destruct (workload_marshal _) as [v|]; [|by intros [= <- _]; simpl; rewrite Hsync].
  destruct (Store_Set _ _ _ _) as [[st r]|] eqn:Hst; [|by intros [= <- _]; simpl; rewrite Hsync].
  apply Store_Set_leader in Hst. simpl in Hst. rewrite <-Hsync, <-Hst.
  destruct r; by intros [= <- _].
Qed.

(** The state apart from the workloads and the store. *)
Definition same_rest (c c' : Coordinator) : Prop :=
  mm_nodes (c_members c') = mm_nodes (c_members c) ∧
  mm_assignments (c_members c') = mm_assignments (c_members c) ∧
  c_engine c' = c_engine c ∧ c_scorer c' = c_scorer c ∧ c_scheduling c' = c_scheduling c ∧
  IsLeader c' = IsLeader c.

(** A workload that is held is changed and saved. *)
Lemma change_held i p f c s id c' err :
  held c s id p → wl_ID (f (obj c p)) = id → save i p (touch p f c) = (c', err) →
  let w := (f (obj c p)) <| wl_UpdatedAt := i.1 |> in
  held c' (put id w err s) id p ∧ obj c' p = w ∧ same_rest c c'.
Proof.
  intros Hh Hid Hs w. destruct (touch_held c s id p f Hh Hid) as [Hh1 Ho1].
  destruct (save_held _ _ _ _ _ _ _ Hh1 Hs) as [Hh2 Ho2]. rewrite Ho1 in Hh2, Ho2. fold w in Hh2, Ho2.
  destruct (save_fields _ _ _ _ _ Hs) as (Hn & Ha & _ & He & Hsc & Hcf & _).
  apply save_leader in Hs; [|apply Hh1].
  split; [|by split_and!]. unfold put in Hh2 |- *. simpl in Hh2. by rewrite insert_insert_eq in Hh2.
Qed.

(** The last part of a creation: the workload is scheduled and queued, and
    ends as running. *)
Lemma place_outcome i w spec resources p c s c' r :
  held c s (api.id w) p → IsLeader c = true → place_workload i w spec resources p c = (c', r) →
  ∃ result e1 e2,
    Schedule (cr_clock i) (the_scheduler c) (scheduler_spec (api.id w) (api.name w) (api.namespace w)
      (api.replicas spec) resources (convert_placement (api.placement spec))) = Ok result ∧
    r = Ok (workload_message (api.id w) (api.name w) (api.namespace w) (Some spec) (api.labels w)
              (api.annotations w)) ∧
    (let w1 := (with_status WorkloadStatusScheduling (obj c p)) <| wl_UpdatedAt := (cr_save i 1%nat).1 |> in
     let w2 := (with_status WorkloadStatusRunning w1) <| wl_UpdatedAt := (cr_save i 2%nat).1 |> in
     coherent c' (put (api.id w) w2 e2 (put (api.id w) w1 e1 s))) ∧
    (∀ n, queue_of c' n = queue_of c n ++ sent_known c (run_on w <$> res_Decisions result) n) ∧
    mm_nodes (c_members c') = mm_nodes (c_members c).
Proof.
  intros Hh Hl. unfold place_workload. destruct (held_mem _ _ _ _ Hh) as [_ Hid].
  destruct (save (cr_save i 1%nat) p _) as [c1 e1] eqn:Hs1. cbn [fst].
  destruct (change_held _ _ (with_status WorkloadStatusScheduling) _ _ _ _ _ Hh Hid Hs1) as (Hh1 & Ho1 & Hn1 & Ha1 & _ & Hsc & Hcf & Hl1).
  set (sp := scheduler_spec _ _ _ _ _ _).
  destruct (ScheduleWorkload_ok (cr_clock i) sp c1) as (result & Hr & ->); [by rewrite Hl1|].
  unfold the_scheduler in *. rewrite Hsc, Hcf, (Schedule_nodes _ _ _ _ _ _ Hn1) in Hr.
  pose proof (enqueue_held (run_on w <$> res_Decisions result) _ _ _ _ Hh1) as Hh2.
  destruct (enqueue_spec (run_on w <$> res_Decisions result) c1) as (Hq & Hn2 & Ho2).
  fold (enqueue (run_on w <$> res_Decisions result) c1). set (c2 := enqueue _ c1) in *.
  destruct (save (cr_save i 2%nat) p _) as [c3 e2] eqn:Hs2. cbn [fst].
  assert (wl_ID (with_status WorkloadStatusRunning (obj c2 p)) = api.id w) as Hid2
    by (destruct (held_mem _ _ _ _ Hh2); done).
  destruct (change_held _ _ (with_status WorkloadStatusRunning) _ _ _ _ _ Hh2 Hid2 Hs2) as (Hh3 & _ & Hn3 & Ha3 & _).
  rewrite Ho2, Ho1 in Hh3. intros [<- <-]%pair_eq. exists result, e1, e2. split_and!; [done|done|apply Hh3| |].
  - intros n. transitivity (queue_of c2 n); [unfold queue_of; by rewrite Ha3|]. rewrite Hq.
    unfold queue_of, sent_known. by rewrite Ha1, Hn1.
  - by rewrite Hn3, Hn2.
Qed.

(** A new object is saved. *)
Lemma create_held i w c s c' err :
  coherent c s → save i (alloc w (c_workloads c)).2 (c <| c_workloads := (alloc w (c_workloads c)).1 |>) = (c', err) →
  same_rest c c' ∧
  match err with
  | Some _ => coherent c' s
  | None =>
      held c' (put (wl_ID w) (w <| wl_UpdatedAt := i.1 |>) None s) (wl_ID w) (alloc w (c_workloads c)).2 ∧
      obj c' (alloc w (c_workloads c)).2 = w <| wl_UpdatedAt := i.1 |>
  end.
Proof.
  intros Hc Hs. set (m := c_workloads c) in *. set (c0 := c <| c_workloads := (alloc w m).1 |>) in *.
  assert (same_rest c c') as Hsame.
  { destruct (save_fields _ _ _ _ _ Hs) as (Hn & Ha & _ & He & Hsc & Hcf & _).
    apply save_leader in Hs; [by split_and!|]. apply Hc. }
  split; [done|]. unfold save in Hs. change (c_workloads c0) with (alloc w m).1 in Hs.
  destruct (SaveWorkload i.1 i.2 (alloc w m).2 (alloc w m).1) as [m' e] eqn:Hsave.
  apply pair_eq in Hs as [<- <-]. pose proof (save_new _ _ _ _ _ _ _ (co_maps _ _ Hc) Hsave) as Hr.
  pose proof (save_apart i.1 i.2 (alloc w m).2 (alloc w m).1) as Hap. rewrite Hsave in Hap.
  assert (coherent (set_workloads m' c) (match e with
      | None => put (wl_ID w) (w <| wl_UpdatedAt := i.1 |>) None s | Some _ => s end)) as Hco
    by (by apply (coherent_workloads c s)).
  destruct e as [e|]; [exact Hco|].
  assert (wsm_cache m' !! wl_ID w = Some (alloc w m).2) as Hcache.
  { revert Hsave. unfold SaveWorkload, alloc. cbn [fst snd]. rewrite deref_assign.
    destruct (write_workload _ _ _) as [m1 [e1|]]; [done|]. intros [<- _]%pair_eq. simpl.
    by rewrite lookup_insert_eq. }
  assert (held (set_workloads m' c) (put (wl_ID w) (w <| wl_UpdatedAt := i.1 |>) None s) (wl_ID w)
    (alloc w m).2) as Hh by by split.
  split; [exact Hh|]. destruct (held_mem _ _ _ _ Hh) as [Hmem _]. cbn [put mem] in Hmem.
  rewrite lookup_insert_eq in Hmem. by apply (inj Some) in Hmem.
Qed.

(** The outcome of a creation.  [w] is the message with its identifier. *)
Definition create_outcome (i : CreateInputs) (w : api.Workload) (spec : api.WorkloadSpec)
    (resources : ResourceRequirements) (c c' : Coordinator) (s s' : WorkloadMaps)
    (r : result handler_error api.Workload) : Prop :=
  let id := api.id w in
  let sched := scheduler_spec id (api.name w) (api.namespace w) (api.replicas spec) resources
    (convert_placement (api.placement spec)) in
  let pending := (initial_state i id w spec resources) <| wl_UpdatedAt := (cr_save i 0%nat).1 |> in
  let running := (with_status WorkloadStatusRunning pending) <| wl_UpdatedAt := (cr_save i 2%nat).1 |> in
  mm_nodes (c_members c') = mm_nodes (c_members c) ∧
  match (AdmitWorkload (cr_env i) w (c_engine c)).2 with
  | Err st => r = Err (Denied st) ∧ s' = s ∧ ∀ n, queue_of c' n = queue_of c n
  | Ok _ =>
      (∃ e, r = Err (Failed e) ∧ s' = s ∧ ∀ n, queue_of c' n = queue_of c n) ∨
      (∃ result, r = Ok (workload_message id (api.name w) (api.namespace w) (Some spec) (api.labels w)
                           (api.annotations w)) ∧
         Schedule (cr_clock i) (the_scheduler c) sched = Ok result ∧
         (nonneg_spec (rr_Requests resources) →
          result_ok (filterNodes (Manager_ListNodes (c_members c) ∅) sched) sched result ∧
          ∀ d, d ∈ res_Decisions result → ∃ n, mm_nodes (c_members c) !! dec_NodeID d = Some n ∧
            node_State n = StateReady ∧ eligible sched n) ∧
         (∀ n, queue_of c' n = queue_of c n ++ sent_known c (run_on w <$> res_Decisions result) n) ∧
         mem s' = <[id := running]> (mem s) ∧
         (∀ other, other ≠ id → dur s' !! other = dur s !! other) ∧
         (∃ u st, dur s' !! id = Some (json_workload ((with_status st pending) <| wl_UpdatedAt := u |>))))
  end.

Lemma CreateWorkload_outcome i w0 spec resources c s c' r :
  coherent c s → IsLeader c = true → api.spec w0 = Some spec →
  convert_resources (api.resources spec) = Some resources →
  CreateWorkload i (Some w0) c = Some (c', r) →
  ∃ s', coherent c' s' ∧ create_outcome i (w0 <| api.id := workload_id w0 |>) spec resources c c' s s' r.
Proof.
  intros Hc Hl Hspec Hres. unfold CreateWorkload. rewrite Hl, Hspec, Hres. cbn [negb].
  set (w := w0 <| api.id := workload_id w0 |>). change (workload_id w0) with (api.id w).
  set (st := initial_state i (api.id w) w spec resources). unfold create_outcome. fold st.
  destruct (AdmitWorkload (cr_env i) w (c_engine c)) as [e [[]|den]]; cbn [snd].
  2: { intros [<- <-]%(inj Some)%pair_eq. exists s. split; [by apply coherent_engine|by split_and!]. }
  set (c0 := c <| c_engine := e |>). assert (coherent c0 s) as Hc0 by by apply coherent_engine.
  change (c_workloads c0) with (c_workloads c).
  rewrite (surjective_pairing (alloc st (c_workloads c))).
  destruct (save (cr_save i 0%nat) _ _) as [c1 err] eqn:Hs.
  destruct (create_held (cr_save i 0%nat) st c0 s c1 err Hc0 Hs) as [(Hn1 & Ha1 & He1 & Hsc & Hcf & Hl1) Hpost].
  destruct err as [err|].
  { intros [<- <-]%(inj Some)%pair_eq. exists s. split; [done|]. split; [done|]. left.
    eexists. split_and!; [done|done|]. intros n. unfold queue_of. by rewrite Ha1. }
  destruct Hpost as [Hh Ho]. intros Hp%(inj Some).
  destruct (place_outcome i w spec resources _ c1 _ c' r Hh) as (result & e1 & e2 & Hr & -> & Hco & Hq & Hn2);
    [by rewrite Hl1|done|].
  unfold the_scheduler in Hr. rewrite Hsc, Hcf, (Schedule_nodes _ _ _ _ _ _ Hn1) in Hr.
  eexists. split; [exact Hco|]. split; [by rewrite Hn2|]. right. exists result.
  split; [done|]. split; [done|]. split; [|split_and!].
  - intros Hnn. eapply schedule_members; [apply (co_members _ _ Hc)|exact Hnn|exact Hr].
  - intros n. rewrite Hq. unfold queue_of, sent_known. by rewrite Ha1, Hn1.
  - rewrite Ho. cbn [put mem]. by rewrite !insert_insert_eq.
  - intros other Hne. rewrite Ho. cbn [put dur]. destruct e1, e2; by rewrite ?lookup_insert_ne.
  - rewrite Ho. cbn [put dur]. destruct e2 as [e2|]; [destruct e1 as [e1|]|].
    + exists (cr_save i 0%nat).1, WorkloadStatusPending. by rewrite lookup_insert_eq.
    + exists (cr_save i 1%nat).1, WorkloadStatusScheduling. by rewrite lookup_insert_eq.
    + exists (cr_save i 2%nat).1, WorkloadStatusRunning. by rewrite lookup_insert_eq.
Qed.

(** *** Deleting a workload *)

(** The deletion of the state manager is a change and a save of the object the
    handler holds. *)
Lemma DeleteWorkload_save read at_ now ans id p c s w err :
  held c s id p → DeleteWorkload read at_ now ans id (c_workloads c) = (w, err) →
  save (now, ans) p (touch p (deleted_state at_) c) = (set_workloads w c, err).
Proof.
  intros [Hc Hp]. unfold DeleteWorkload, with_workload. rewrite (GetWorkload_spec _ _ _ _ (co_maps _ _ Hc)), Hp.
  intros Hs. unfold save. cbn [fst snd]. change (c_workloads (touch p (deleted_state at_) c)) with
    (assign p (deleted_state at_ (deref (c_workloads c) p)) (c_workloads c)). by rewrite Hs.
Qed.

(** What a deletion does to the maps and to the queues. *)
Definition delete_outcome (i : DeleteInputs) (id : string) (graceful : bool) (w : WorkloadState)
    (c c' : Coordinator) (s s' : WorkloadMaps) (r : option handler_error) : Prop :=
  let w' := (deleted_state (de_at i) w) <| wl_UpdatedAt := (de_save i).1 |> in
  ∃ err, let s1 := put id w' err s in
  match err with
  | Some e => r = Some (Failed ("failed to mark workload as deleted: " +:+ e)) ∧ s' = s1 ∧
      ∀ n, queue_of c' n = queue_of c n
  | None => r = None ∧
      (s' = s1 ∨ graceful = false ∧ s' = {| mem := delete id (mem s1); dur := delete id (dur s1) |}) ∧
      ∀ n, queue_of c' n = queue_of c n ++ sent_known c (on_replica "stop" (only_id id) <$>
        List.filter (fun r => negb (is_stopped r)) (wl_Replicas w)) n
  end.

Lemma purge_coherent ans id c s : coherent c s →
  ∃ s', coherent (set_workloads (PurgeWorkload ans id (c_workloads c)).1 c) s' ∧
    (s' = s ∨ s' = {| mem := delete id (mem s); dur := delete id (dur s) |}).
Proof.
  intros Hc. destruct (PurgeWorkload ans id (c_workloads c)) as [w err] eqn:Hp.
  destruct (purge_spec _ _ _ _ _ _ (co_maps _ _ Hc) Hp) as (s' & Hr & Hs). exists s'. split.
  - apply (coherent_workloads c s); [done|done|]. pose proof (purge_apart ans id (c_workloads c)) as Ha.
    by rewrite Hp in Ha.
  - cbn [wspec] in Hs. destruct err; auto.
Qed.

Lemma Delete_outcome i id graceful c s w c' r :
  coherent c s → IsLeader c = true → mem s !! id = Some w →
  HandleDeleteWorkload i id graceful c = (c', r) →
  ∃ s', coherent c' s' ∧ delete_outcome i id graceful w c c' s s' r.
Proof.
  intros Hc Hl Hm. unfold HandleDeleteWorkload. rewrite Hl. cbn [negb].
  destruct (get_spec (de_gets i).1 id c s Hc) as [(p & -> & Hh)|(e & _ & Hn)]; [|congruence].
  destruct (held_mem _ _ _ _ Hh) as [Hmem Hoid]. assert (obj c p = w) as Hw by congruence.
  destruct (DeleteWorkload _ _ _ _ _ _) as [m err] eqn:Hd.
  apply (DeleteWorkload_save _ _ _ _ _ p c s _ _ Hh) in Hd.
  destruct (change_held _ p (deleted_state (de_at i)) c s id _ err Hh Hoid Hd) as (Hh1 & Ho1 & Hn1 & Ha1 & _).
  rewrite Hw in Hh1, Ho1. cbn [fst] in Hh1, Ho1. unfold delete_outcome. destruct err as [err|].
  - intros [<- <-]%pair_eq. eexists. split; [apply Hh1|]. exists (Some err). split_and!; [done|done|].
    intros n. unfold queue_of. by rewrite Ha1.
  - rewrite Ho1. cbn [wl_Replicas]. set (c1 := set_workloads m c) in *.
    change (set_members (queue_all ?l (c_members c1)) c1) with (enqueue l c1).
    set (l := on_replica "stop" (only_id id) <$> _).
    assert (∀ n, queue_of (enqueue l c1) n = queue_of c n ++ sent_known c l n) as Hq.
    { intros n. destruct (enqueue_spec l c1) as [-> _]. unfold queue_of, sent_known. by rewrite Ha1, Hn1. }
    pose proof (enqueue_coherent l c1 _ (he_coherent _ _ _ _ Hh1)) as Hc2.
    destruct graceful; intros [<- <-]%pair_eq.
    + eexists. split; [exact Hc2|]. exists None. split_and!; [done|by left|done].
    + destruct (purge_coherent (de_purge i) id _ _ Hc2) as (s' & Hc3 & Hs'). exists s'. split; [done|].
      exists None. split_and!; [done| |done]. destruct Hs' as [->| ->]; [by left|by right].
Qed.

(** *** Scaling a workload *)

(** The workload with its new number of replicas. *)
Definition scaled (i : ScaleInputs) (n : Z) (w : WorkloadState) : WorkloadState :=
  (scaling_state n w) <| wl_UpdatedAt := (sc_save i).1 |>.

Lemma stop_replicas_fields id n rs : ∀ m,
  mm_nodes (stop_replicas id n rs m) = mm_nodes m ∧ mm_store (stop_replicas id n rs m) = mm_store m.
Proof.
  revert n. induction rs as [|r rs IH]; intros n m; simpl; [done|]. case_match; [done|].
  unfold QueueAssignment. destruct (mm_nodes m !! re_NodeID r); [|apply IH].
  match goal with |- context [stop_replicas _ _ _ ?m'] => destruct (IH (n - 1) m') as [-> ->] end. done.
Qed.

Lemma Scale_outcome i id n c s w c' r :
  coherent c s → IsLeader c = true → mem s !! id = Some w → ScaleWorkload i id n c = (c', r) →
  ∃ err, coherent c' (put id (scaled i n w) err s) ∧
    match err with
    | Some e => r = Err (Failed ("failed to save workload state: " +:+ e)) ∧
        ∀ nd, queue_of c' nd = queue_of c nd
    | None => (∃ reply, r = Ok reply) ∧
        (wl_CurrentReplicas w < n → ∃ result,
           Schedule (sc_clock i) (the_scheduler c) (scheduler_spec id (wl_Name w) (wl_Namespace w)
             (int32 (n - wl_CurrentReplicas w)) (wl_Resources w) (wl_Placement w)) = Ok result ∧
           ∀ nd, queue_of c' nd = queue_of c nd ++ sent_known c
             (run_on (run_message w n) <$> res_Decisions result) nd) ∧
        (wl_CurrentReplicas w = n → ∀ nd, queue_of c' nd = queue_of c nd)
    end.
Proof.
  intros Hc Hl Hm. unfold ScaleWorkload. rewrite Hl. cbn [negb].
  destruct (get_spec (sc_read i) id c s Hc) as [(p & -> & Hh)|(e & _ & Hn)]; [|congruence].
  destruct (held_mem _ _ _ _ Hh) as [Hmem Hoid]. assert (obj c p = w) as Hw by congruence.
  destruct (save (sc_save i) p _) as [c1 err] eqn:Hs.
  destruct (change_held _ p (scaling_state n) c s id _ err Hh Hoid Hs) as (Hh1 & Ho1 & Hn1 & Ha1 & _ & Hsc & Hcf & Hl1).
  rewrite Hw in Hh1, Ho1, Hoid |- *. change (_ <| wl_UpdatedAt := (sc_save i).1 |>) with (scaled i n w) in Hh1, Ho1.
  intros Hrun. exists err. revert Hrun. destruct err as [err|].
  { intros [<- <-]%pair_eq. split; [apply Hh1|]. split; [done|]. intros nd. unfold queue_of. by rewrite Ha1. }
  rewrite Ho1. change (wl_ID (scaled i n w)) with (wl_ID w). change (wl_Name (scaled i n w)) with (wl_Name w).
  change (wl_Namespace (scaled i n w)) with (wl_Namespace w).
  change (wl_Resources (scaled i n w)) with (wl_Resources w).
  change (wl_Placement (scaled i n w)) with (wl_Placement w).
  change (wl_Replicas (scaled i n w)) with (wl_Replicas w).
  change (run_message (scaled i n w) n) with (run_message w n). rewrite Hoid.
  destruct (Z.ltb_spec (wl_CurrentReplicas w) n) as [Hup|Hup].
  - set (sp := scheduler_spec _ _ _ _ _ _).
    destruct (ScheduleWorkload_ok (sc_clock i) sp c1) as (result & Hr & ->); [by rewrite Hl1|].
    unfold the_scheduler in *. rewrite Hsc, Hcf, (Schedule_nodes _ _ _ _ _ _ Hn1) in Hr.
    set (l := run_on (run_message w n) <$> res_Decisions result).
    change (set_members (queue_all l (c_members c1)) c1) with (enqueue l c1).
    intros [<- <-]%pair_eq. split; [apply enqueue_coherent, Hh1|]. split; [eauto|]. split; [|lia].
    intros _. exists result. split; [done|]. intros nd. destruct (enqueue_spec l c1) as [-> _].
    unfold queue_of, sent_known. by rewrite Ha1, Hn1.
  - destruct (Z.ltb_spec n (wl_CurrentReplicas w)) as [Hdown|Hdown]; intros [<- <-]%pair_eq.
    + split; [|split; [eauto|split; lia]].
      destruct (stop_replicas_fields id (int32 (wl_CurrentReplicas w - n)) (rev (wl_Replicas w)) (c_members c1))
        as [Hnodes Hstore].
      apply coherent_members; [apply Hh1| |by rewrite Hstore; apply same_under_refl].
      eapply members_ok_ext; [exact Hnodes|exact Hstore|apply Hh1].
    + split; [apply Hh1|]. split; [eauto|]. split; [lia|]. intros _ nd. unfold queue_of. by rewrite Ha1.
Qed.
End coordinator.
