(* ===== verification/CoordinatorSystem.v ===== *)
(** * The coordinator as a system

    The handlers, the turns of the replica monitor, the periodic work of the
    membership manager and restarts as one step relation, the invariant of the
    reachable coordinators, and the theorems on the handlers for workloads. *)

From S2P Require Import Prelude GoText GoFloat PolicyTypes PolicyEngine PolicyRules PolicyAdmission BootstrapTokens Node NodeHealth Scorer BinPack Scheduler RaftFSM Membership MembershipSpec MembershipTiming ClusterScheduling Workloads WorkloadsSpec Coordinator CoordinatorSpec.

(** No replica is recorded for a workload. *)
Definition no_replicas (w : WorkloadState) : Prop :=
  wl_Replicas w = [] ∧ wl_CurrentReplicas w = 0 ∧ wl_ReadyReplicas w = 0 ∧ wl_AvailableReplicas w = 0.

(** Decoding restores an empty list and counters that are zero. *)
Class WorkloadCodecCounts `{WorkloadCodec} : Prop := {
  codec_counts : ∀ w v w', workload_marshal w = Ok v → workload_unmarshal v = Ok w' →
    no_replicas w → no_replicas w'
}.

Section system.
Context `{GoRange, GoSort, NodeCodec, BootstrapJWT, WorkloadCodec, !NodeCodecLaws, !WorkloadCodecLaws, !WorkloadCodecCounts}.

(** A coordinator that starts on a store. *)
Definition start (now : Z) (read : string → Z) (tm : BootstrapTokenManager) (sc : ScorerConfig)
    (cfg : SchedulerConfig) (e : option Engine) (leader : string) (st : Store) : Coordinator := {|
  c_members := NewMembershipManager now st tm;
  c_workloads := loadWorkloads now read (empty_manager st);
  c_scorer := sc; c_scheduling := cfg; c_engine := e; c_leader := leader |}.

Inductive cstep (c : Coordinator) : Coordinator → Prop :=
| cs_enroll parsed checked i req : cstep c (HandleEnrollNode parsed checked i req c).1
| cs_heartbeat i hi req : cstep c (Heartbeat i hi req c).1
| cs_drain ans id : cstep c (HandleDrainNode ans id c).1
| cs_uncordon ans id : cstep c (HandleUncordonNode ans id c).1
| cs_create i req c' r : CreateWorkload i req c = Some (c', r) → cstep c c'
| cs_update i req c' r : UpdateWorkload i req c = Some (c', r) → cstep c c'
| cs_delete i id g : cstep c (HandleDeleteWorkload i id g c).1
| cs_get read id : cstep c (HandleGetWorkload read id c).1
| cs_scale i id n : cstep c (ScaleWorkload i id n c).1
| cs_reschedule read clock id : cstep c (HandleReschedule read clock id c).1
| cs_turn i rm : cstep c (reconcile i (rm, c)).2
| cs_check now clock : cstep c (set_members (checkNodeHealth now clock (c_members c)) c)
| cs_score clock : cstep c (set_members (update_scores clock (c_members c)) c)
| cs_remove now ans : cstep c (set_members (removeExpiredNodes now ans (c_members c)) c)
| cs_save ans : cstep c (set_members (saveNodes ans (c_members c)) c)
| cs_restart now read tm sc cfg e leader :
    cstep c (start now read tm sc cfg e leader (mm_store (c_members c))).

(** From a store without nodes and workloads. *)
Inductive creachable : Coordinator → Prop :=
| cr_start now read tm sc cfg e leader st :
    (∀ k, HasPrefix k "node:" = true → abs (fsm st) !! k = None) →
    (∀ k, HasPrefix k "workload:" = true → abs (fsm st) !! k = None) →
    creachable (start now read tm sc cfg e leader st)
| cr_step c c' : creachable c → cstep c c' → creachable c'.

(** ** The invariant *)

Definition bare (s : WorkloadMaps) : Prop :=
  (∀ id w, mem s !! id = Some w → no_replicas w) ∧ (∀ id w, dur s !! id = Some w → no_replicas w).

Lemma json_bare w : no_replicas w → no_replicas (json_workload w).
Proof.
  intros Hw. unfold json_workload. destruct (workload_marshal w) as [v|] eqn:Hv; [|done].
  destruct (workload_unmarshal v) as [w'|] eqn:Hu; [|done]. by eapply codec_counts.
Qed.

Lemma bare_put id w err s : bare s → no_replicas w → bare (put id w err s).
Proof.
  intros [Hm Hd] Hw. split; intros i w'; cbn [put mem dur].
  - intros [[<- <-]|[_ Hi]]%lookup_insert_Some; [done|by eapply Hm].
  - destruct err; [apply Hd|].
    intros [[<- <-]|[_ Hi]]%lookup_insert_Some; [by apply json_bare|by eapply Hd].
Qed.

Lemma bare_mem id w s : bare s → no_replicas w → bare (s <| mem := <[id := w]> (mem s) |>).
Proof.
  intros [Hm Hd] Hw. split; simpl; [|done]. intros i w'.
  intros [[<- <-]|[_ Hi]]%lookup_insert_Some; [done|by eapply Hm].
Qed.

Lemma bare_delete id s : bare s → bare {| mem := delete id (mem s); dur := delete id (dur s) |}.
Proof. intros [Hm Hd]. split; simpl; intros i w [_ Hi]%lookup_delete_Some; eauto. Qed.

(** Coherent, and no replica is recorded. *)
Definition vacant (c : Coordinator) : Prop := ∃ s, coherent c s ∧ bare s.

Lemma vacant_members c m :
  vacant c → mstep (c_members c) m → same_under "workload:" (mm_store (c_members c)) (mm_store m) →
  vacant (set_members m c).
Proof.
  intros (s & Hc & Hb) Hm Hs. exists s. split; [|done]. apply coherent_members; [done| |done].
  eapply mstep_ok; [apply Hc|done].
Qed.

(** Health reports find no replica. *)
Lemma health_vacant live ready now ans h m s :
  represents m s → bare s → UpdateReplicaHealth live ready now ans h m = (m, None).
Proof.
  intros Hr [Hm _]. unfold UpdateReplicaHealth.
  pose proof (find_container_spec (ch_ContainerId h) (replica_health live ready h) m
    (range_map (wsm_cache m)).*2) as Hf.
  destruct (find_container _ _ _ _) as [[p l]|]; [|done].
  destruct Hf as [[id Hc]%elem_of_pointers Hl]. destruct (sh_cached _ _ _ _ (rp_shows _ _ Hr) Hc) as [Hw _].
  destruct (Hm _ _ Hw) as [Hnil _]. by rewrite Hnil in Hl.
Qed.

Lemma report_vacant hi hs : ∀ k m s, represents m s → bare s → report_all k hi hs m = m.
Proof.
  induction hs as [|h hs IH]; intros k m s Hr Hb; simpl; [done|]. destruct (hi k) as [[[l r] n] a].
  rewrite (health_vacant _ _ _ _ _ _ _ Hr Hb). by eapply IH.
Qed.

Lemma set_workloads_id c s : coherent c s → set_workloads (c_workloads c) c = c.
Proof.
  intros [Hs _ _]. unfold set_workloads. destruct c as [[st ? ? ? ? ?] w ? ? ? ?]. simpl in *. by subst st.
Qed.

(** The objects the coordinator reads have no replica, whatever the pointer. *)
Lemma held_vacant c s id p : held c s id p → bare s → no_replicas (obj c p).
Proof. intros Hh [Hm _]. destruct (held_mem _ _ _ _ Hh) as [Hw _]. by eapply Hm. Qed.

Lemma listed_vacant c s p ns l :
  coherent c s → bare s → p ∈ ListWorkloads ns l (c_workloads c) → no_replicas (obj c p).
Proof.
  intros Hc [Hm _] Hp. unfold ListWorkloads in Hp. apply list_elem_of_In, filter_In in Hp as [Hp _].
  apply list_elem_of_In, elem_of_pointers in Hp as [id Hid].
  destruct (sh_cached _ _ _ _ (rp_shows _ _ (co_maps _ _ Hc)) Hid) as [Hw _]. by eapply Hm.
Qed.

(** A turn of the monitor finds nothing to do. *)
Lemma turn_vacant i rm c s : coherent c s → bare s → reconcile i (rm, c) = (rm, c).
Proof.
  intros Hc Hb. unfold reconcile. cbn [snd].
  assert (∀ p, p ∈ ListWorkloads "" ∅ (c_workloads c) → no_replicas (obj c p)) as Hl
    by (intros p; by apply (listed_vacant c s)).
  revert Hl. generalize (ListWorkloads "" ∅ (c_workloads c)). intros l. induction l as [|p l IH]; [done|].
  intros Hl. cbn [foldl snd]. destruct (Hl p) as [Hnil _]; [by left|].
  assert (reconcileWorkload (i p) p (rm, c) = (rm, c)) as ->.
  { unfold reconcileWorkload. rewrite Hnil. simpl. by destruct rm. }
  destruct (bool_decide _); apply IH; intros q Hq; apply Hl; by right.
Qed.

(** *** Every step *)

Lemma enroll_vacant parsed checked i req c :
  vacant c → vacant (HandleEnrollNode parsed checked i req c).1.
Proof.
  intros Hv. unfold HandleEnrollNode. destruct (negb _); [done|].
  destruct (ValidateBootstrapToken _ _ _ _); [|done].
  pose proof (enroll_apart i (c_members c) req) as Ha. pose proof (s_enroll (c_members c) i req) as Hs.
  destruct (EnrollNode i (c_members c) req) as [m r]. by apply vacant_members.
Qed.

Lemma heartbeat_vacant i hi req c : vacant c → vacant (Heartbeat i hi req c).1.
Proof.
  intros Hv. unfold Heartbeat. pose proof (heartbeat_apart i (c_members c) req) as Ha.
  pose proof (s_heartbeat (c_members c) i req) as Hs.
  destruct (ProcessHeartbeat i (c_members c) req) as [m [resp|e]]; [|by apply vacant_members].
  destruct (vacant_members c m Hv Hs Ha) as (s & Hc & Hb).
  rewrite (report_vacant hi _ 0 _ s (co_maps _ _ Hc) Hb). cbn [fst].
  rewrite (set_workloads_id _ s Hc). by exists s.
Qed.

Lemma drain_vacant ans id c : vacant c → vacant (HandleDrainNode ans id c).1.
Proof.
  intros Hv. unfold HandleDrainNode. destruct (negb _); [done|].
  pose proof (drain_apart ans (c_members c) id) as Ha. unfold drained in Ha.
  destruct (DrainNode ans (c_members c) id) as [m e|m] eqn:Hd; (apply vacant_members; [done| |done]);
    eapply s_drain; eauto.
Qed.

Lemma uncordon_vacant ans id c : vacant c → vacant (HandleUncordonNode ans id c).1.
Proof.
  intros Hv. unfold HandleUncordonNode. destruct (negb _); [done|].
  pose proof (uncordon_apart ans (c_members c) id) as Ha. pose proof (s_uncordon (c_members c) ans id) as Hs.
  destruct (UncordonNode ans (c_members c) id) as [m e]. by apply vacant_members.
Qed.

Lemma create_vacant i req c c' r : vacant c → CreateWorkload i req c = Some (c', r) → vacant c'.
Proof.
  intros (s & Hc & Hb) Hx. destruct (IsLeader c) eqn:Hl.
  2: { unfold CreateWorkload in Hx. rewrite Hl in Hx. simplify_eq/=. by exists s. }
  destruct req as [w|]; [|unfold CreateWorkload in Hx; rewrite Hl in Hx; simplify_eq/=; by exists s].
  destruct (api.spec w) as [sp|] eqn:Hsp;
    [|unfold CreateWorkload in Hx; rewrite Hl, Hsp in Hx; simplify_eq/=; by exists s].
  destruct (convert_resources (api.resources sp)) as [rr|] eqn:Hrr;
    [|unfold CreateWorkload in Hx; rewrite Hl, Hsp, Hrr in Hx; simplify_eq/=].
  destruct (CreateWorkload_outcome i w sp rr c s c' r Hc Hl Hsp Hrr Hx) as (s' & Hc' & _ & Ho).
  exists s'. split; [done|]. destruct (AdmitWorkload _ _ _).2; [|destruct Ho as (_ & -> & _); done].
  destruct Ho as [(e & _ & -> & _)|(result & _ & _ & _ & _ & Hm & Hd & u & st & Hdi)]; [done|].
  destruct Hb as [Hbm Hbd]. split.
  - intros id x. rewrite Hm. intros [[_ <-]|[_ Hi]]%lookup_insert_Some; [done|by eapply Hbm].
  - intros id x Hx'. destruct (decide (id = workload_id w)) as [->|Hne].
    + change (api.id _) with (workload_id w) in Hdi. rewrite Hdi in Hx'. apply (inj Some) in Hx' as <-. by apply json_bare.
    + rewrite Hd in Hx' by done. by eapply Hbd.
Qed.

Lemma updated_vacant msg w w' : updated_state msg w = Some w' → no_replicas w → no_replicas w'.
Proof.
  set (g w := (wl_Replicas w, wl_CurrentReplicas w, wl_ReadyReplicas w, wl_AvailableReplicas w)).
  intros Hu (H1' & H2' & H3' & H4'). assert (g w' = g w) as Hg.
  { revert Hu. apply updated_state_field; [|done|done]. intros spec a b. by apply (updated_spec_field g). }
  injection Hg as Hr Hc Ha Hv. unfold no_replicas. rewrite Hr, Hc, Ha, Hv. done.
Qed.

(** A workload that is not known. *)
Lemma get_missing read id c s : coherent c s → mem s !! id = None → ∃ e, get read id c = (c, Err e).
Proof.
  intros Hc Hm. destruct (get_spec read id c s Hc) as [(p & _ & Hh)|(e & -> & _)]; [|eauto].
  destruct (held_mem _ _ _ _ Hh). congruence.
Qed.

(** An update that does not change the state, or one of a known workload. *)
Lemma UpdateWorkload_cases i req c s c' r :
  coherent c s → UpdateWorkload i req c = Some (c', r) →
  c' = c ∨ ∃ w w0 w1 s', IsLeader c = true ∧ mem s !! api.id w = Some w0 ∧
    updated_state w w0 = Some w1 ∧ coherent c' s' ∧ update_outcome i w w1 c c' s s' r.
Proof.
  intros Hc Hx. destruct (IsLeader c) eqn:Hl.
  2: { left. unfold UpdateWorkload in Hx. rewrite Hl in Hx. by simplify_eq/=. }
  destruct req as [w|]; [|left; unfold UpdateWorkload in Hx; rewrite Hl in Hx; by simplify_eq/=].
  destruct (decide (api.id w = EmptyString)) as [He|He].
  { left. unfold UpdateWorkload in Hx. rewrite Hl, bool_decide_eq_true_2 in Hx by done. by simplify_eq/=. }
  pose proof Hx as Hx'. unfold UpdateWorkload in Hx'.
  rewrite Hl, bool_decide_eq_false_2 in Hx' by done. cbn [negb] in Hx'.
  destruct (get_spec (up_read i) (api.id w) c s Hc) as [(p & Hg & Hh)|(e & Hg & Hn)]; rewrite Hg in Hx'.
  - destruct (held_mem _ _ _ _ Hh) as [Hm _]. right.
    destruct (updated_state w (obj c p)) as [w1|] eqn:Hu; [|done].
    destruct (UpdateWorkload_outcome i w c s _ w1 c' r Hc Hl He Hm Hu Hx) as (s' & Hc' & Ho).
    by exists w, (obj c p), w1, s'.
  - left. by simplify_eq/=.
Qed.

Lemma update_vacant i req c c' r : vacant c → UpdateWorkload i req c = Some (c', r) → vacant c'.
Proof.
  intros (s & Hc & Hb) Hx. destruct (UpdateWorkload_cases _ _ _ _ _ _ Hc Hx)
    as [->|(w & w0 & w1 & s' & _ & Hm & Hu & Hc' & Ho)]; [by exists s|].
  pose proof (updated_vacant _ _ _ Hu (proj1 Hb _ _ Hm)) as Hw1. exists s'. split; [done|].
  unfold update_outcome in Ho. destruct (AdmitWorkload _ _ _).2.
  - destruct Ho as (err & -> & _). by apply bare_put.
  - destruct Ho as (_ & -> & _). by apply bare_mem.
Qed.

Lemma Delete_cases i id g c s :
  coherent c s → (HandleDeleteWorkload i id g c).1 = c ∨
  ∃ w s', mem s !! id = Some w ∧ coherent (HandleDeleteWorkload i id g c).1 s' ∧
    delete_outcome i id g w c (HandleDeleteWorkload i id g c).1 s s' (HandleDeleteWorkload i id g c).2.
Proof.
  intros Hc. destruct (IsLeader c) eqn:Hl; [|left; unfold HandleDeleteWorkload; by rewrite Hl].
  destruct (mem s !! id) as [w|] eqn:Hm.
  - right. destruct (HandleDeleteWorkload i id g c) as [c' r] eqn:Hx.
    destruct (Delete_outcome i id g c s w c' r Hc Hl Hm Hx) as (s' & Hc' & Ho). by exists w, s'.
  - left. unfold HandleDeleteWorkload. rewrite Hl. cbn [negb].
    by destruct (get_missing (de_gets i).1 id c s Hc Hm) as [e ->].
Qed.

Lemma delete_vacant i id g c : vacant c → vacant (HandleDeleteWorkload i id g c).1.
Proof.
  intros (s & Hc & Hb). destruct (Delete_cases i id g c s Hc) as [->|(w & s' & Hm & Hc' & err & Ho)];
    [by exists s|]. exists s'. split; [done|]. pose proof (proj1 Hb _ _ Hm) as Hw.
  destruct err; [destruct Ho as (_ & -> & _); by apply bare_put|].
  destruct Ho as (_ & [->|[_ ->]] & _); [by apply bare_put|by apply bare_delete, bare_put].
Qed.

Lemma scale_vacant i id n c : vacant c → vacant (ScaleWorkload i id n c).1.
Proof.
  intros (s & Hc & Hb). destruct (IsLeader c) eqn:Hl.
  2: { unfold ScaleWorkload. rewrite Hl. by exists s. }
  destruct (mem s !! id) as [w|] eqn:Hm.
  - destruct (ScaleWorkload i id n c) as [c' r] eqn:Hx.
    destruct (Scale_outcome i id n c s w c' r Hc Hl Hm Hx) as (err & Hc' & _). eexists.
    split; [exact Hc'|]. apply bare_put; [done|]. by apply (proj1 Hb id w).
  - unfold ScaleWorkload. rewrite Hl. cbn [negb].
    destruct (get_spec (sc_read i) id c s Hc) as [(p & Hg & Hh)|(e & -> & Hn)].
    + destruct (held_mem _ _ _ _ Hh). congruence.
    + by exists s.
Qed.

(** Rescheduling changes the queues only. *)
Lemma reschedule_coherent read clock id c s :
  coherent c s → coherent (HandleReschedule read clock id c).1 s.
Proof.
  intros Hc. unfold HandleReschedule. destruct (negb _); [done|].
  destruct (get_spec read id c s Hc) as [(p & -> & Hh)|(e & -> & Hn)]; [|done].
  destruct (_ && _); [done|]. destruct (Reschedule _ _ _ _ _) as [result|]; [|done]. cbn [fst].
  set (l1 := on_replica _ _ <$> _). set (l2 := run_on _ <$> _).
  destruct (queue_all_spec l1 (c_members c)) as (Hn1 & Hs1 & _).
  destruct (queue_all_spec l2 (queue_all l1 (c_members c))) as (Hn2 & Hs2 & _).
  apply coherent_members; [done| |rewrite Hs2, Hs1; apply same_under_refl].
  apply (members_ok_ext (c_members c)); [by rewrite Hn2, Hn1|by rewrite Hs2, Hs1|apply Hc].
Qed.

Lemma start_vacant now read tm sc cfg e leader st d :
  stores st d → (∀ id w, d !! id = Some w → no_replicas w) →
  members_ok (NewMembershipManager now st tm) → vacant (start now read tm sc cfg e leader st).
Proof.
  intros Hst Hd Hm. exists {| mem := d; dur := d |}. split; [|by split].
  pose proof (restart_spec now read st d Hst) as Hr. split; [|done|done]. cbn [start c_members c_workloads].
  assert (∀ l m, wsm_store (foldl (load_workload read) m l) = wsm_store m) as Hl.
  { intros l. induction l as [|k l IH]; intros m; cbn [foldl]; [done|]. rewrite IH. unfold load_workload.
    repeat case_match; try done. unfold alloc in *. by simplify_eq/=. }
  unfold loadWorkloads. rewrite Hl. done.
Qed.

Lemma cstep_vacant c c' : vacant c → cstep c c' → vacant c'.
Proof.
  intros Hv Hs. destruct Hs as [parsed checked i req|i hi req|ans id|ans id|i req c' r Hx|i req c' r Hx|
    i id g|read id|i id n|read clock id|i rm|now clock|clock|now ans|ans|now read tm sc cfg e leader].
  - by apply enroll_vacant.
  - by apply heartbeat_vacant.
  - by apply drain_vacant.
  - by apply uncordon_vacant.
  - by eapply create_vacant.
  - by eapply update_vacant.
  - by apply delete_vacant.
  - destruct Hv as (s & Hc & Hb). unfold HandleGetWorkload.
    destruct (get_spec read id c s Hc) as [(p & -> & _)|(e & -> & _)]; by exists s.
  - by apply scale_vacant.
  - destruct Hv as (s & Hc & Hb). exists s. split; [by apply reschedule_coherent|done].
  - destruct Hv as (s & Hc & Hb). rewrite (turn_vacant i rm c s Hc Hb). by exists s.
  - apply vacant_members; [done|apply s_check|apply same_under_refl].
  - apply vacant_members; [done|apply s_score|apply same_under_refl].
  - apply vacant_members; [done|apply s_remove|apply remove_apart].
  - apply vacant_members; [done|apply s_save|apply saveNodes_apart].
  - destruct Hv as (s & Hc & Hb). apply (start_vacant _ _ _ _ _ _ _ _ (dur s)).
    + rewrite <-(co_sync _ _ Hc). apply (co_maps _ _ Hc).
    + apply Hb.
    + apply load_nodes_ok; [|done]. apply (co_members _ _ Hc).
Qed.

Lemma creachable_vacant c : creachable c → vacant c.
Proof.
  induction 1 as [now read tm sc cfg e leader st Hn Hw|c c' _ IH Hs]; [|by eapply cstep_vacant].
  apply (start_vacant _ _ _ _ _ _ _ _ ∅).
  - intros id. by rewrite Hw by apply HasPrefix_app.
  - intros id w. by rewrite lookup_empty.
  - apply load_nodes_ok; [|done]. simpl. intros k v e' n Hk Hv. by rewrite Hn in Hv.
Qed.

(** ** Theorems *)

Lemma sent_nil c n : sent_known c [] n = [].
Proof. unfold sent_known, sent. by case_match. Qed.

Lemma delete_queues i id g c s n : coherent c s → bare s →
  queue_of (HandleDeleteWorkload i id g c).1 n = queue_of c n.
Proof.
  intros Hc Hb. destruct (Delete_cases i id g c s Hc) as [->|(w & s' & Hm & _ & [e|] & Ho)]; [done|apply Ho|].
  destruct Ho as (_ & _ & Hq). rewrite Hq. destruct (proj1 Hb id w Hm) as [-> _].
  by rewrite sent_nil, app_nil_r.
Qed.

Lemma update_queues i req c s c' r n : coherent c s → bare s →
  UpdateWorkload i req c = Some (c', r) → queue_of c' n = queue_of c n.
Proof.
  intros Hc Hb Hx. destruct (UpdateWorkload_cases _ _ _ _ _ _ Hc Hx)
    as [->|(w & w0 & w1 & s' & _ & Hm & Hu & _ & Ho)]; [done|].
  unfold update_outcome in Ho. destruct (AdmitWorkload _ _ _).2; [|apply Ho].
  destruct Ho as ([e|] & _ & _ & Hq); [apply Hq|]. rewrite Hq.
  destruct (updated_vacant _ _ _ Hu (proj1 Hb _ _ Hm)) as [-> _]. by rewrite sent_nil, app_nil_r.
Qed.

Lemma scale_missing i id k c s : coherent c s → mem s !! id = None →
  ∃ e, (ScaleWorkload i id k c).2 = Err e.
Proof.
  intros Hc Hm. unfold ScaleWorkload. destruct (negb _); [eauto|].
  destruct (get_missing (sc_read i) id c s Hc Hm) as [e ->]. eauto.
Qed.

(** In no reachable state of the coordinator is a replica recorded for a
    workload, since no handler calls the operations that record one.  So every
    workload is shown with no current and no ready replica; deleting or updating
    a workload sends nothing to the nodes that run it; the replica monitor finds
    nothing to do; and scaling to [k] replicas starts [k] more, however many
    are running. *)
Theorem replicas_never_recorded c :
  creachable c →
  (∀ read id c' reply, HandleGetWorkload read id c = (c', Ok reply) →
     ∃ st, api.wstatus reply = Some st ∧ api.current_replicas st = 0 ∧ api.ready_replicas st = 0) ∧
  (∀ i id g n, queue_of (HandleDeleteWorkload i id g c).1 n = queue_of c n) ∧
  (∀ i req c' r n, UpdateWorkload i req c = Some (c', r) → queue_of c' n = queue_of c n) ∧
  (∀ i rm, reconcile i (rm, c) = (rm, c)) ∧
  (∀ i id k c' reply, 0 < k < 2 ^ 31 → ScaleWorkload i id k c = (c', Ok reply) →
     ∃ w sched result, Schedule (sc_clock i) (the_scheduler c) sched = Ok result ∧
       w_ID sched = id ∧ w_Replicas sched = k ∧
       ∀ n, queue_of c' n = queue_of c n ++
         sent_known c (run_on (run_message w k) <$> res_Decisions result) n).
Proof.
  intros (s & Hc & Hb)%creachable_vacant. split_and!.
  - intros read id c' reply. unfold HandleGetWorkload.
    destruct (get_spec read id c s Hc) as [(p & -> & Hh)|(e & -> & _)]; [|done]. intros [= _ <-].
    destruct (held_vacant _ _ _ _ Hh Hb) as (_ & Hcur & Hrdy & _). eexists. split; [done|]. done.
  - intros i id g n. apply (delete_queues i id g c s n Hc Hb).
  - intros i req c' r n. apply (update_queues i req c s c' r n Hc Hb).
  - intros i rm. by apply (turn_vacant i rm c s).
  - intros i id k c' reply Hk Hx. destruct (IsLeader c) eqn:Hl; [|unfold ScaleWorkload in Hx; by rewrite Hl in Hx].
    destruct (mem s !! id) as [w|] eqn:Hm; [|destruct (scale_missing i id k c s Hc Hm) as [e He]; by rewrite Hx in He].
    destruct (Scale_outcome i id k c s w c' _ Hc Hl Hm Hx) as ([e|] & _ & Ho); [by destruct Ho|].
    destruct Ho as (_ & Hup & _). destruct (proj1 Hb id w Hm) as (_ & Hcur & _). rewrite Hcur in Hup.
    destruct Hup as (result & Hr & Hq); [lia|]. exists w. eexists. exists result. split; [exact Hr|].
    split; [done|]. split; [|exact Hq]. cbn [scheduler_spec w_Replicas].
    rewrite Z.sub_0_r. apply int32_id. unfold in_int32. lia.
Qed.

(** C17: a leader that is asked to create a workload whose message has requests and
    limits answers as [create_outcome] says: refused by policy, it changes
    nothing but the policy engine's cache; otherwise the workload is saved, placed
    on ready and eligible nodes by [Schedule], the assignments are queued for
    exactly those nodes, and it is shown as running whatever was placed.  A
    message without requests or limits ends the process. *)
Theorem create_workload_spec i w spec c s :
  coherent c s → IsLeader c = true → api.spec w = Some spec →
  match convert_resources (api.resources spec) with
  | None => CreateWorkload i (Some w) c = None
  | Some resources => ∃ c' r s', CreateWorkload i (Some w) c = Some (c', r) ∧ coherent c' s' ∧
      create_outcome i (w <| api.id := workload_id w |>) spec resources c c' s s' r
  end.
Proof.
  intros Hc Hl Hs. destruct (convert_resources (api.resources spec)) as [rr|] eqn:Hrr.
  - destruct (CreateWorkload i (Some w) c) as [[c' r]|] eqn:Hx.
    + destruct (CreateWorkload_outcome i w spec rr c s c' r Hc Hl Hs Hrr Hx) as (s' & Hc' & Ho). eauto 10.
    + unfold CreateWorkload in Hx. rewrite Hl, Hs, Hrr in Hx. cbn [negb] in Hx.
      by repeat case_match.
  - unfold CreateWorkload. by rewrite Hl, Hs, Hrr.
Qed.


(** A change of a workload that the policies refuse is deployed all the same by
    the next scaling: the new replicas are started with the refused
    specification, which the scaling also stores. *)
Theorem denied_update_deployed i j w c s w0 w1 e st c1 r1 n c2 reply :
  coherent c s → IsLeader c = true → api.id w ≠ EmptyString → mem s !! api.id w = Some w0 →
  updated_state w w0 = Some w1 → AdmitWorkload (up_env i) w (c_engine c) = (e, Err st) →
  UpdateWorkload i (Some w) c = Some (c1, r1) →
  wl_CurrentReplicas w1 < n → ScaleWorkload j (api.id w) n c1 = (c2, Ok reply) →
  r1 = Err (UpdateDenied st) ∧
  ∃ result s', Schedule (sc_clock j) (the_scheduler c1) (scheduler_spec (api.id w) (wl_Name w1)
      (wl_Namespace w1) (int32 (n - wl_CurrentReplicas w1)) (wl_Resources w1) (wl_Placement w1)) = Ok result ∧
    (∀ nd, queue_of c2 nd = queue_of c nd ++
       sent_known c1 (run_on (run_message w1 n) <$> res_Decisions result) nd) ∧
    coherent c2 s' ∧ dur s' !! api.id w = Some (json_workload (scaled j n w1)).
Proof.
  intros Hc Hl Hid Hm Hu Hadm Hx Hn Hsc.
  destruct (UpdateWorkload_outcome i w c s w0 w1 c1 r1 Hc Hl Hid Hm Hu Hx) as (s1 & Hc1 & Ho).
  unfold update_outcome in Ho. rewrite Hadm in Ho. destruct Ho as (-> & -> & Hq1). split; [done|].
  destruct (IsLeader c1) eqn:Hl1; [|unfold ScaleWorkload in Hsc; by rewrite Hl1 in Hsc].
  destruct (Scale_outcome j (api.id w) n c1 _ w1 c2 _ Hc1 Hl1 (lookup_insert_eq _ _ _) Hsc) as ([err|] & Hc2 & Ho);
    [by destruct Ho|].
  destruct Ho as (_ & Hup & _). destruct (Hup Hn) as (result & Hr & Hq).
  exists result. eexists. split; [done|]. split; [intros nd; by rewrite Hq, Hq1|]. split; [exact Hc2|].
  cbn [put dur]. by rewrite lookup_insert_eq.
Qed.

(** *** The monitor and a failed replica *)

Lemma range_map_singleton {A} (k : string) (a : A) : range_map ({[k := a]} : gmap string A) = [(k, a)].
Proof.
  apply Permutation_singleton_r. rewrite range_map_perm, map_to_list_singleton. done.
Qed.

Lemma Reschedule_nodes clock m m' sc cfg w l r :
  mm_nodes m = mm_nodes m' →
  Reschedule clock {| membershipManager := m; scorer := sc; config := cfg |} w l r =
  Reschedule clock {| membershipManager := m'; scorer := sc; config := cfg |} w l r.
Proof. intros Hn. unfold Reschedule, Manager_ListNodes. simpl. unfold Manager_ListNodes. by rewrite Hn. Qed.

Lemma Reschedule_ok clock c w l r :
  ro_MinAvailable (w_RolloutStrategy w) ≤ 0 →
  ∃ result, Reschedule clock (the_scheduler c) w l r = Ok result.
Proof.
  intros Hm. unfold Reschedule. rewrite (proj2 (Z.ltb_ge 0 _)) by done. simpl.
  repeat case_match; eauto.
Qed.

(** What a rescheduling of [w] that decides [ds] sends to a node. *)
Definition resent (c : Coordinator) (w : WorkloadState) (ds : list ScheduleDecision) (n : string)
    : list msg.WorkloadAssignment :=
  sent_known c (on_replica "stop" (only_id (wl_ID w)) <$> List.filter is_running (wl_Replicas w)) n ++
  sent_known c (run_on (run_message w (wl_DesiredReplicas w)) <$> ds) n.

Definition rescheduling (c : Coordinator) (w : WorkloadState) (ds : list ScheduleDecision) : Prop :=
  ∃ clock result, Reschedule clock (the_scheduler c) (reschedule_spec w) (failed_nodes w)
    (wl_ReadyReplicas w) = Ok result ∧ ds = res_Decisions result.

Lemma reschedule_resends read clock c s w :
  coherent c s → IsLeader c = true → mem s !! wl_ID w = Some w → ro_MinAvailable (wl_Rollout w) ≤ 0 →
  ∃ c' reply ds, HandleReschedule read clock (wl_ID w) c = (c', Ok reply) ∧ rescheduling c w ds ∧
    coherent c' s ∧ (∀ n, queue_of c' n = queue_of c n ++ resent c w ds n) ∧
    c_workloads c' = c_workloads c ∧ mm_nodes (c_members c') = mm_nodes (c_members c) ∧
    c_scorer c' = c_scorer c ∧ c_scheduling c' = c_scheduling c ∧ IsLeader c' = IsLeader c.
Proof.
  intros Hc Hl Hm Hmin. pose proof (reschedule_coherent read clock (wl_ID w) c s Hc) as Hc'. revert Hc'.
  unfold HandleReschedule. rewrite Hl. cbn [negb].
  destruct (get_spec read (wl_ID w) c s Hc) as [(p & -> & Hh)|(e & _ & Hn)]; [|congruence].
  destruct (held_mem _ _ _ _ Hh) as [Hmem _]. assert (obj c p = w) as -> by congruence.
  rewrite (proj2 (Z.ltb_ge 0 _)) by done. cbn [andb].
  destruct (Reschedule_ok clock c (reschedule_spec w) (failed_nodes w) (wl_ReadyReplicas w)) as [result Hr];
    [done|]. rewrite Hr. cbn [fst]. set (l1 := on_replica _ _ <$> _). set (l2 := run_on _ <$> _). intros Hc'.
  destruct (queue_all_spec l1 (c_members c)) as (Hn1 & Hs1 & _ & _ & _ & Hq1).
  destruct (queue_all_spec l2 (queue_all l1 (c_members c))) as (Hn2 & Hs2 & _ & _ & _ & Hq2).
  do 3 eexists. split; [reflexivity|]. split; [by exists clock, result|]. split; [exact Hc'|]. split_and!.
  - intros n. unfold queue_of, resent, sent_known. simpl. rewrite Hq2, Hq1, Hn1, <-app_assoc. done.
  - simpl. rewrite Hs2, Hs1, <-(co_sync _ _ Hc). by destruct (c_workloads c).
  - simpl. by rewrite Hn2, Hn1.
  - done.
  - done.
  - unfold IsLeader. simpl. by rewrite Hs2, Hs1.
Qed.

(** The turns of the monitor, one after the other. *)
Fixpoint turns (i : nat → ptr → TurnInputs) (k : nat) (rc : ReplicaMonitor * Coordinator)
    : ReplicaMonitor * Coordinator :=
  match k with
  | O => rc
  | S k => reconcile (i k) (turns i k rc)
  end.

(** A turn with one workload, which has a failed replica. *)
Lemma turn_failed i rm c s w :
  coherent c s → mem s = {[wl_ID w := w]} → IsLeader c = true → wl_DeletedAt w = None →
  (∃ r, r ∈ wl_Replicas w ∧ is_failed r = true) → ro_MinAvailable (wl_Rollout w) ≤ 0 →
  rmon_attached rm = true →
  ∃ rm' c' ds, reconcile i (rm, c) = (rm', c') ∧ rmon_attached rm' = true ∧ rescheduling c w ds ∧
    coherent c' s ∧ (∀ n, queue_of c' n = queue_of c n ++ resent c w ds n) ∧
    mm_nodes (c_members c') = mm_nodes (c_members c) ∧
    c_scorer c' = c_scorer c ∧ c_scheduling c' = c_scheduling c ∧ IsLeader c' = IsLeader c.
Proof.
  intros Hc Hm Hl Hdel (r & Hr & Hf) Hmin Hatt.
  assert (mem s !! wl_ID w = Some w) as Hw by (rewrite Hm; apply lookup_singleton_eq).
  pose proof (rp_shows _ _ (co_maps _ _ Hc)) as Hsh.
  assert (∃ p, wsm_cache (c_workloads c) = {[wl_ID w := p]} ∧ obj c p = w) as (p & Hp & Hobj).
  { destruct (wsm_cache (c_workloads c) !! wl_ID w) as [p|] eqn:Hp.
    2: { apply (sh_miss _ _ _ Hsh) in Hp. congruence. }
    exists p. split.
    - apply map_eq. intros k. destruct (decide (k = wl_ID w)) as [->|Hk]; [by rewrite lookup_singleton_eq|].
      rewrite lookup_singleton_ne by done. apply (sh_miss _ _ _ Hsh). by rewrite Hm, lookup_singleton_ne.
    - destruct (sh_cached _ _ _ _ Hsh Hp) as [Ho _]. unfold obj. congruence. }
  unfold reconcile, ListWorkloads. cbn [snd]. rewrite Hp, range_map_singleton. cbn [fmap list_fmap snd List.filter].
  fold (obj c p). rewrite Hobj. unfold listed. rewrite Hdel, bool_decide_eq_true_2 by done.
  rewrite map_size_empty, (bool_decide_eq_true_2 (""%string = ""%string)) by done.
  change (0 <? Z.of_nat 0) with false. cbn [negb andb foldl snd]. rewrite Hobj, Hdel, bool_decide_eq_true_2 by done.
  unfold reconcileWorkload. rewrite Hobj.
  assert ((len (List.filter is_failed (wl_Replicas w)) =? 0) = false) as ->.
  { apply Z.eqb_neq. unfold len. destruct (List.filter is_failed (wl_Replicas w)) eqn:He; [|done].
    rewrite filter_nil_iff in He. rewrite He in Hf; done. }
  set (rm1 := rm <| rmon_failures := _ |>). assert (rmon_attached rm1 = true) as Hatt1 by exact Hatt.
  rewrite Hatt1. cbn [negb].
  destruct (reschedule_resends (ti_read (i p)) (ti_clock (i p)) c s w Hc Hl Hw Hmin)
    as (c' & reply & ds & -> & Hds & Hc' & Hq & _ & Hn & Hsc & Hcf & Hl').
  do 3 eexists. split; [reflexivity|]. by split_and!.
Qed.

(** A replica that has failed stays recorded as failed, so the monitor stops the
    running replicas and starts the whole workload again in every turn, for as
    long as it runs: after [k] turns the queues hold [k] reschedulings. *)
Theorem monitor_never_settles i k rm c s w :
  coherent c s → mem s = {[wl_ID w := w]} → IsLeader c = true → wl_DeletedAt w = None →
  (∃ r, r ∈ wl_Replicas w ∧ is_failed r = true) → ro_MinAvailable (wl_Rollout w) ≤ 0 →
  rmon_attached rm = true →
  ∃ rounds, length rounds = k ∧ Forall (rescheduling c w) rounds ∧
    coherent (turns i k (rm, c)).2 s ∧
    ∀ n, queue_of (turns i k (rm, c)).2 n = queue_of c n ++ concat ((fun ds => resent c w ds n) <$> rounds).
Proof.
  intros Hc Hm Hl Hdel Hf Hmin Hatt.
  enough (∃ rounds rm' c', turns i k (rm, c) = (rm', c') ∧ length rounds = k ∧ Forall (rescheduling c w) rounds ∧
    coherent c' s ∧ (∀ n, queue_of c' n = queue_of c n ++ concat ((fun ds => resent c w ds n) <$> rounds)) ∧
    rmon_attached rm' = true ∧ mm_nodes (c_members c') = mm_nodes (c_members c) ∧
    c_scorer c' = c_scorer c ∧ c_scheduling c' = c_scheduling c ∧ IsLeader c' = IsLeader c)
    as (rounds & rm' & c' & -> & Hk & Hall & Hc' & Hq & _) by (exists rounds; by split_and!).
  induction k as [|k (rounds & rm1 & c1 & Ht & Hk & Hall & Hc1 & Hq1 & Hatt1 & Hn1 & Hsc1 & Hcf1 & Hl1)].
  - exists [], rm, c. split_and!; try done. intros n. simpl. by rewrite app_nil_r.
  - cbn [turns]. rewrite Ht.
    destruct (turn_failed (i k) rm1 c1 s w Hc1 Hm) as (rm2 & c2 & ds & -> & Hatt2 & Hds & Hc2 & Hq2 & Hn2 & Hsc2 & Hcf2 & Hl2);
      [by rewrite Hl1|done|done|done|done|].
    exists (rounds ++ [ds]), rm2, c2. split_and!; try done; try congruence.
    + rewrite length_app. simpl. lia.
    + apply Forall_app. split; [done|]. apply Forall_singleton. destruct Hds as (clock & result & Hr & ->).
      exists clock, result. split; [|done]. unfold the_scheduler in *.
      by rewrite <-(Reschedule_nodes _ _ _ _ _ _ _ _ Hn1), <-Hsc1, <-Hcf1.
    + intros n. rewrite Hq2, Hq1, fmap_app, concat_app. simpl. rewrite app_nil_r, <-app_assoc. do 2 f_equal.
      unfold resent, sent_known. by rewrite Hn1.
Qed.
End system.

(** ** Runs of the coordinator

    A coordinator with three ready nodes and the default policies, on which the
    theorems on the coordinator are applied. *)

Module CoordinatorRuns.

#[local] Existing Instances range_canonical sort_insertion plain_jwt sample_codec sample_codec_laws WorkloadRuns.mini_codec WorkloadRuns.mini_laws.

#[local] Instance mini_counts : WorkloadCodecCounts.
Proof. split. by intros w v w' [= <-] [= <-]. Qed.

Definition scoring : ScorerConfig := NewScorer (scorer_weights DefaultSchedulerConfig).

Definition base : Coordinator := {|
  c_members := two_members;
  c_workloads := loadWorkloads 0 (fun _ => 0) (empty_manager sample_store);
  c_scorer := scoring; c_scheduling := DefaultSchedulerConfig; c_engine := Some e0;
  c_leader := "c1" |}.

Definition no_workloads : WorkloadMaps := {| mem := ∅; dur := ∅ |}.

Lemma base_coherent : coherent base no_workloads.
Proof.
  split; [done|apply two_members_ok|]. apply (restart_spec 0 (fun _ => 0) sample_store ∅). done.
Qed.

Definition committed (t : Z) : Z * raft_answer := (t, Committed (fun _ => t)).

(** The coordinator that has saved one workload. *)
Definition seed (w : WorkloadState) : Coordinator :=
  let '(m, p) := alloc w (c_workloads base) in
  (save (committed 5) p (base <| c_workloads := m |>)).1.

Definition seeded (w : WorkloadState) : WorkloadState := w <| wl_UpdatedAt := 5 |>.

Lemma seed_coherent w :
  (save (committed 5) (alloc w (c_workloads base)).2 (base <| c_workloads := (alloc w (c_workloads base)).1 |>)).2 = None →
  coherent (seed w) (put (wl_ID w) (seeded w) None no_workloads).
Proof.
  intros Herr. unfold seed. rewrite (surjective_pairing (alloc w (c_workloads base))).
  destruct (save _ _ _) as [c1 err] eqn:Hs. simpl in Herr. subst err.
  apply (create_held (committed 5) w base no_workloads c1 None base_coherent) in Hs as [_ [Hh _]]. apply Hh.
Qed.

(** A workload of two small replicas. *)
Definition web : WorkloadState :=
  zero_workload <| wl_ID := "web"%string |> <| wl_Name := "web"%string |> <| wl_Image := "nginx:1"%string |>
    <| wl_Resources := {| rr_Requests := sample_req; rr_Limits := sample_req |} |>
    <| wl_DesiredReplicas := 2 |>.

Definition capacity : api.ResourceCapacity :=
  {| api.CpuMillicores := 500; api.MemoryBytes := 1000; api.StorageBytes := 0; api.BandwidthBps := 0;
     api.GpuCount := 0 |}.

Definition web_spec (r : option api.ResourceRequirements) (image : string) : api.WorkloadSpec :=
  bare_spec <| api.image := image |> <| api.replicas := 2 |> <| api.resources := r |>.

Definition both : option api.ResourceRequirements :=
  Some {| api.Requests := Some capacity; api.Limits := Some capacity |}.

Definition web_message (r : option api.ResourceRequirements) (image : string) : api.Workload :=
  workload_message "web" "web" "" (Some (web_spec r image)) ∅ None.

(** ** Creating *)

Definition creating : CreateInputs :=
  {| cr_created := 1; cr_updated := 1; cr_env := calm 2; cr_save := fun k => committed (3 + Z.of_nat k);
     cr_clock := still_clock |}.

Definition images_at (c : Coordinator) (n : string) : list string :=
  (fun a => from_option api.image ""%string (api.spec (msg.wa_Workload a))) <$> queue_of c n.

(** Whether a handler returns, and with an answer. *)
Definition answers {A E B} (x : option (A * result E B)) : option bool :=
  (fun ar => match ar.2 with Ok _ => true | Err _ => false end) <$> x.

Definition after {A B} (d : A) (r : option (A * B)) : A := from_option fst d r.

Definition created : Coordinator := after base (CreateWorkload creating (Some (web_message both "nginx:1")) base).

(** Two replicas asked for, both placed on [a] and queued for it. *)
Example created_on_a :
  images_at created "a" = ["nginx:1"; "nginx:1"]%string ∧ images_at created "b" = [] ∧
  images_at created "c" = [].
Proof. vm_compute. done. Qed.

(** A message without limits makes the handler follow a nil pointer. *)
Example create_without_limits_panics :
  CreateWorkload creating (Some (web_message None "nginx:1")) base = None.
Proof. reflexivity. Qed.

Lemma create_workload_spec_witness :
  ∃ r s', coherent created s' ∧
    create_outcome creating (web_message both "nginx:1") (web_spec both "nginx:1")
      {| rr_Requests := sample_req; rr_Limits := sample_req |} base created no_workloads s' r.
Proof.
  destruct (create_workload_spec creating (web_message both "nginx:1") (web_spec both "nginx:1") base
    no_workloads base_coherent eq_refl eq_refl) as (c' & r & s' & Hx & Hc & Ho).
  exists r, s'. unfold created. rewrite Hx. by split.
Defined.

(** ** Updating and scaling *)

Definition updating : UpdateInputs := {| up_read := 6; up_env := calm 6; up_save := committed 7 |}.

Definition scaling : ScaleInputs := {| sc_read := 8; sc_save := committed 8; sc_clock := still_clock |}.

(** Refused, since there are no limits. *)
Definition unlimited : api.Workload := web_message None "other:2".

Definition refused : Coordinator := after base (UpdateWorkload updating (Some unlimited) (seed web)).

Definition rescaled : Coordinator := (ScaleWorkload scaling "web" 2 refused).1.

Definition one_workload : WorkloadMaps := put "web" (seeded web) None no_workloads.

Definition changed : WorkloadState :=
  seeded web <| wl_Status := WorkloadStatusUpdating |> <| wl_Image := "other:2"%string |>.

Lemma web_coherent : coherent (seed web) one_workload.
Proof. apply (seed_coherent web). reflexivity. Qed.

Lemma web_held : mem one_workload !! "web"%string = Some (seeded web).
Proof. reflexivity. Qed.


(** The refused image is on its way to the node. *)
Lemma denied_update_deployed_witness :
  images_at rescaled "a" = ["other:2"; "other:2"]%string ∧
  ∃ s', coherent rescaled s' ∧ dur s' !! "web"%string = Some (json_workload (scaled scaling 2 changed)).
Proof.
  split; [vm_compute; reflexivity|].
  destruct (UpdateWorkload updating (Some unlimited) (seed web)) as [[c1 r1]|] eqn:Hu;
    [|apply (f_equal answers) in Hu; vm_compute in Hu; discriminate Hu].
  assert (refused = c1) as Hr by (unfold refused; by rewrite Hu).
  destruct (ScaleWorkload scaling "web" 2 c1) as [c2 [reply|err]] eqn:Hs.
  2: { rewrite <-Hr in Hs. apply (f_equal (fun x => answers (Some x))) in Hs. vm_compute in Hs. discriminate Hs. }
  destruct (AdmitWorkload (up_env updating) unlimited (c_engine (seed web))) as [e [[]|st]] eqn:Ha.
  { apply (f_equal (fun x => answers (Some x))) in Ha. vm_compute in Ha. discriminate Ha. }
  destruct (denied_update_deployed updating scaling unlimited (seed web) one_workload (seeded web) changed
    e st c1 r1 2 c2 reply web_coherent eq_refl ltac:(discriminate) web_held eq_refl Ha Hu eq_refl Hs)
    as (_ & result & s' & _ & _ & Hc & Hd).
  exists s'. split; [|exact Hd]. unfold rescaled. by rewrite Hr, Hs.
Defined.

(** ** A failed replica *)

Definition failed_replica : ReplicaState := {|
  re_ID := "web-0"; re_NodeID := "c"; re_NodeName := ""; re_FragmentID := "f"; re_Status := ReplicaStatusFailed;
  re_Ready := false; re_Message := ""; re_CreatedAt := 0; re_StartedAt := None; re_StoppedAt := None;
  re_LivenessHealthy := false; re_LivenessConsecutiveFailures := 0; re_LivenessLastCheckTime := 0;
  re_ReadinessHealthy := false; re_ReadinessConsecutiveFailures := 0; re_ReadinessLastCheckTime := 0;
  re_ContainerID := "" |}.

Definition broken : WorkloadState :=
  web <| wl_DesiredReplicas := 1 |> <| wl_Replicas := [failed_replica] |> <| wl_CurrentReplicas := 1 |>.

Definition monitor : ReplicaMonitor := NewReplicaMonitor 0 true.

Definition each_turn (k : nat) (p : ptr) : TurnInputs :=
  {| ti_seen := fun _ => Z.of_nat k; ti_read := Z.of_nat k; ti_clock := still_clock |}.

Lemma monitor_never_settles_witness :
  images_at (turns each_turn 3 (monitor, seed broken)).2 "a" = ["nginx:1"; "nginx:1"; "nginx:1"]%string ∧
  ∃ rounds, length rounds = 3%nat ∧ Forall (rescheduling (seed broken) (seeded broken)) rounds.
Proof.
  split; [vm_compute; reflexivity|].
  destruct (monitor_never_settles each_turn 3 monitor (seed broken)
    (put "web" (seeded broken) None no_workloads) (seeded broken)) as (rounds & Hk & Hall & _).
  - apply (seed_coherent broken). reflexivity.
  - reflexivity.
  - reflexivity.
  - reflexivity.
  - exists failed_replica. split; [left|reflexivity].
  - simpl. lia.
  - reflexivity.
  - by exists rounds.
Defined.

(** ** From an empty store *)

Definition fresh : Coordinator :=
  start 0 (fun _ => 0) sample_tokens scoring DefaultSchedulerConfig (Some e0) "c1" sample_store.

Definition enrolled : Coordinator := (HandleEnrollNode 1 1 sample_inputs sample_request fresh).1.

Definition no_reports : health_inputs := fun _ => (0, 0, 0, Rejected "").

Definition joined : Coordinator := (Heartbeat (sample_beat 9) no_reports sample_ping enrolled).1.

Definition serving : Coordinator := after joined (CreateWorkload creating (Some (web_message both "nginx:1")) joined).

Lemma serving_reachable : creachable serving.
Proof.
  assert (creachable joined) as Hj.
  { eapply cr_step; [|apply cs_heartbeat]. eapply cr_step; [|apply cs_enroll]. by apply cr_start. }
  unfold serving. destruct (CreateWorkload _ _ joined) as [[c r]|] eqn:Hx; [|done].
  eapply cr_step; [exact Hj|]. by eapply cs_create.
Qed.

(** Two replicas have been sent to the node, the workload is shown as running,
    and none of them is counted; asked for two again, the coordinator sends two
    more. *)
Lemma replicas_never_recorded_witness :
  images_at serving "n1" = ["nginx:1"; "nginx:1"]%string ∧
  (∃ c' reply st, HandleGetWorkload 20 "web" serving = (c', Ok reply) ∧ api.wstatus reply = Some st ∧
     api.phase st = 3 ∧ api.current_replicas st = 0) ∧
  images_at (ScaleWorkload scaling "web" 2 serving).1 "n1" = ["nginx:1"; "nginx:1"; "nginx:1"; "nginx:1"]%string.
Proof.
  split; [vm_compute; reflexivity|]. split; [|vm_compute; reflexivity].
  destruct (HandleGetWorkload 20 "web" serving) as [c' [reply|e]] eqn:Hg.
  2: { apply (f_equal (fun x => answers (Some x))) in Hg. vm_compute in Hg. discriminate Hg. }
  destruct (replicas_never_recorded serving serving_reachable) as [Hshown _].
  destruct (Hshown 20 "web"%string c' reply Hg) as (st & Hst & Hcur & _).
  exists c', reply, st. split_and!; [done|done| |done].
  assert (Some (api.phase st) = Some 3) as [= Hp]; [|done].
  change (Some (api.phase st)) with (api.phase <$> Some st). rewrite <-Hst.
  apply (f_equal snd) in Hg. simpl in Hg.
  transitivity (match (HandleGetWorkload 20 "web" serving).2 with
    | Ok r => api.phase <$> api.wstatus r | Err _ => None end); [by rewrite Hg|vm_compute; reflexivity].
Defined.

End CoordinatorRuns.
