(* ===== verification/Events.v ===== *)
(** * The stream of audit events (pkg/observability/events.go)

    The coordinator records what happens in a stream that keeps the latest
    events and passes each one on to watchers, which read from channels of 100
    events.  Channels are objects that the stream and the watchers share; they
    are kept in a list and named by their index.  [None] is a panic. *)

From S2P Require Import Prelude GoText GoFloat.

Local Open Scope Z_scope.

(** ** Events *)

Definition EventNodeEnrolled : string := "node.enrolled".
Definition EventSchedulingDecision : string := "scheduling.decision".
Definition EventAuthenticationFailed : string := "security.auth_failed".
Definition EventPolicyViolation : string := "security.policy_violation".
Definition EventWorkloadCreated : string := "workload.created".

Definition SeverityInfo : string := "info".
Definition SeverityWarning : string := "warning".
Definition SeverityCritical : string := "critical".

(** The values that the sources put under [interface{}]. *)
Inductive Value : Type := Text (s : string) | Float (x : float64) | Int (n : Z).

Record Event := {
  ev_ID : string;
  ev_Type : string;
  ev_Severity : string;
  ev_Timestamp : Z;
  ev_RequestID : string;
  ev_CorrelationID : string;
  ev_ActorType : string;
  ev_ActorID : string;
  ev_ResourceType : string;
  ev_ResourceID : string;
  ev_Action : string;
  ev_Description : string;
  ev_Metadata : gmap string Value;
  ev_Success : bool;
  ev_Error : string
}.

#[export] Instance eta_Event : Eta Event := fun e =>
  Build_Event (ev_ID e) (ev_Type e) (ev_Severity e) (ev_Timestamp e) (ev_RequestID e) (ev_CorrelationID e)
    (ev_ActorType e) (ev_ActorID e) (ev_ResourceType e) (ev_ResourceID e) (ev_Action e) (ev_Description e)
    (ev_Metadata e) (ev_Success e) (ev_Error e).

Definition no_event : Event := {|
  ev_ID := ""; ev_Type := ""; ev_Severity := ""; ev_Timestamp := zero_time; ev_RequestID := "";
  ev_CorrelationID := ""; ev_ActorType := ""; ev_ActorID := ""; ev_ResourceType := ""; ev_ResourceID := "";
  ev_Action := ""; ev_Description := ""; ev_Metadata := ∅; ev_Success := false; ev_Error := "" |}.

Definition NewNodeEnrolledEvent (nodeID region zone : string) : Event :=
  no_event <| ev_Type := EventNodeEnrolled |> <| ev_Severity := SeverityInfo |> <| ev_ActorType := "system"%string |>
    <| ev_ResourceType := "node"%string |> <| ev_ResourceID := nodeID |> <| ev_Action := "enroll"%string |>
    <| ev_Description := "Node " +:+ nodeID +:+ " enrolled in region " +:+ region +:+ ", zone " +:+ zone |>
    <| ev_Metadata := {["region"%string := Text region; "zone"%string := Text zone]} |> <| ev_Success := true |>.

Definition NewSchedulingDecisionEvent (workloadID nodeID : string) (score : float64) (success : bool) : Event :=
  let severity := if negb success then SeverityWarning else SeverityInfo in
  no_event <| ev_Type := EventSchedulingDecision |> <| ev_Severity := severity |> <| ev_ActorType := "system"%string |>
    <| ev_ResourceType := "workload"%string |> <| ev_ResourceID := workloadID |> <| ev_Action := "schedule"%string |>
    <| ev_Description := "Workload " +:+ workloadID +:+ " scheduled to node " +:+ nodeID +:+ " (score: "
                         +:+ fmt_2f score +:+ ")" |>
    <| ev_Metadata := {["node_id"%string := Text nodeID; "score"%string := Float score]} |>
    <| ev_Success := success |>.

Definition NewAuthenticationFailedEvent (actorID reason : string) : Event :=
  no_event <| ev_Type := EventAuthenticationFailed |> <| ev_Severity := SeverityWarning |>
    <| ev_ActorType := "user"%string |> <| ev_ActorID := actorID |> <| ev_Action := "authenticate"%string |>
    <| ev_Description := "Authentication failed for " +:+ actorID +:+ ": " +:+ reason |>
    <| ev_Metadata := {["reason"%string := Text reason]} |> <| ev_Error := reason |>.

Definition NewPolicyViolationEvent (actorID resourceType resourceID policy reason : string) : Event :=
  no_event <| ev_Type := EventPolicyViolation |> <| ev_Severity := SeverityCritical |>
    <| ev_ActorType := "user"%string |> <| ev_ActorID := actorID |> <| ev_ResourceType := resourceType |>
    <| ev_ResourceID := resourceID |> <| ev_Action := "policy_check"%string |>
    <| ev_Description := "Policy violation: " +:+ actorID +:+ " attempted to access " +:+ resourceType +:+ "/"
                         +:+ resourceID +:+ ", denied by policy " +:+ policy |>
    <| ev_Metadata := {["policy"%string := Text policy; "reason"%string := Text reason]} |> <| ev_Error := reason |>.

Definition NewWorkloadCreatedEvent (workloadID namespace image : string) (replicas : Z) : Event :=
  no_event <| ev_Type := EventWorkloadCreated |> <| ev_Severity := SeverityInfo |> <| ev_ActorType := "user"%string |>
    <| ev_ResourceType := "workload"%string |> <| ev_ResourceID := workloadID |> <| ev_Action := "create"%string |>
    <| ev_Description := "Workload " +:+ workloadID +:+ " created in namespace " +:+ namespace |>
    <| ev_Metadata := {["namespace"%string := Text namespace; "image"%string := Text image;
                        "replicas"%string := Int replicas]} |> <| ev_Success := true |>.

(** ** Filters *)

Record EventFilter := {
  fl_Types : list string;
  fl_Severities : list string;
  fl_ActorID : string;
  fl_ResourceType : string;
  fl_ResourceID : string;
  fl_CorrelationID : string;
  fl_StartTime : Z;
  fl_EndTime : Z;
  fl_Limit : Z
}.

(** A test that an empty field of the filter leaves out. *)
Definition one_of (wanted : list string) (x : string) : bool :=
  (len wanted =? 0) || existsb (fun w => x =?s w) wanted.

Definition wanted (w x : string) : bool := (w =?s "") || (x =?s w).

Definition Matches (f : EventFilter) (event : Event) : bool :=
  one_of (fl_Types f) (ev_Type event) && one_of (fl_Severities f) (ev_Severity event) &&
  wanted (fl_ActorID f) (ev_ActorID event) && wanted (fl_ResourceType f) (ev_ResourceType event) &&
  wanted (fl_ResourceID f) (ev_ResourceID event) && wanted (fl_CorrelationID f) (ev_CorrelationID event) &&
  negb (negb (IsZero (fl_StartTime f)) && (ev_Timestamp event <? fl_StartTime f)) &&
  negb (negb (IsZero (fl_EndTime f)) && (fl_EndTime f <? ev_Timestamp event)).

(** ** The stream *)

Record Channel := { ch_buffer : list Event; ch_closed : bool }.

Record EventStream := {
  es_events : list Event;
  es_maxSize : Z;
  es_watchers : list nat;
  es_channels : list Channel
}.

#[export] Instance eta_EventStream : Eta EventStream := fun es =>
  Build_EventStream (es_events es) (es_maxSize es) (es_watchers es) (es_channels es).

Definition buffered : Z := 100.

(** A negative size makes [make] panic. *)
Definition NewEventStream (MaxSize : Z) : option EventStream :=
  let MaxSize := if MaxSize =? 0 then 10000 else MaxSize in
  if MaxSize <? 0 then None
  else Some {| es_events := []; es_maxSize := MaxSize; es_watchers := []; es_channels := [] |}.

(** What the context of a call and the system provide. *)
Record Caller := { ca_now : Z; ca_uuid : string; ca_RequestID : string; ca_CorrelationID : string }.

Definition completed (c : Caller) (event : Event) : Event :=
  let event := if IsZero (ev_Timestamp event) then event <| ev_Timestamp := ca_now c |> else event in
  let event := if ev_ID event =?s "" then event <| ev_ID := ca_uuid c |> else event in
  let event := if ev_RequestID event =?s "" then event <| ev_RequestID := ca_RequestID c |> else event in
  if ev_CorrelationID event =?s "" then event <| ev_CorrelationID := ca_CorrelationID c |> else event.

(** The send with a default case; sending on a closed channel panics. *)
Definition offer (event : Event) (channels : list Channel) (ch : nat) : option (list Channel) :=
  match channels !! ch with
  | None => Some channels
  | Some c =>
      if ch_closed c : bool then None
      else if len (ch_buffer c) <? buffered
      then Some (<[ch := {| ch_buffer := ch_buffer c ++ [event]; ch_closed := false |}]> channels)
      else Some channels
  end.

Fixpoint offer_all (event : Event) (watchers : list nat) (channels : list Channel) : option (list Channel) :=
  match watchers with
  | [] => Some channels
  | ch :: watchers => offer event channels ch ≫= offer_all event watchers
  end.

Definition trimmed (maxSize : Z) (events : list Event) : list Event :=
  if maxSize <? len events then drop (Z.to_nat (len events - maxSize)) events else events.

Definition RecordEvent (c : Caller) (event : Event) (es : EventStream) : option EventStream :=
  let event := completed c event in
  let es := es <| es_events := trimmed (es_maxSize es) (es_events es ++ [event]) |> in
  channels ← offer_all event (es_watchers es) (es_channels es);
  Some (es <| es_channels := channels |>).

(** A filter's [Limit] is not looked at. *)
Definition GetEvents (filter : EventFilter) (es : EventStream) : list Event :=
  List.filter (Matches filter) (es_events es).

Definition Watch (es : EventStream) : EventStream * nat :=
  let ch := length (es_channels es) in
  (es <| es_watchers := es_watchers es ++ [ch] |>
      <| es_channels := es_channels es ++ [{| ch_buffer := []; ch_closed := false |}] |>, ch).

(** The first occurrence is removed and the channel closed; closing a closed
    channel panics. *)
Fixpoint remove_first (ch : nat) (watchers : list nat) : option (list nat) :=
  match watchers with
  | [] => None
  | w :: watchers => if Nat.eqb w ch then Some watchers else cons w <$> remove_first ch watchers
  end.

Definition Unwatch (ch : nat) (es : EventStream) : option EventStream :=
  match remove_first ch (es_watchers es) with
  | None => Some es
  | Some watchers =>
      match es_channels es !! ch with
      | None => Some (es <| es_watchers := watchers |>)
      | Some c =>
          if ch_closed c : bool then None
          else Some (es <| es_watchers := watchers |>
                        <| es_channels := <[ch := {| ch_buffer := ch_buffer c; ch_closed := true |}]> (es_channels es) |>)
      end
  end.

(** A watcher receives from its channel; [None] when it has to wait or the
    channel is closed and drained. *)
Definition receive (ch : nat) (es : EventStream) : EventStream * option Event :=
  match es_channels es !! ch with
  | Some {| ch_buffer := event :: rest; ch_closed := closed |} =>
      (es <| es_channels := <[ch := {| ch_buffer := rest; ch_closed := closed |}]> (es_channels es) |>, Some event)
  | _ => (es, None)
  end.

(** ** The specification: a log

    All events that have been recorded, and for each channel those recorded
    while it was watched and those its watcher has received. *)

Record Sub := { sb_events : list Event; sb_got : list Event; sb_open : bool }.

Record Log := { lg_all : list Event; lg_subs : list Sub }.

Inductive eop : Type :=
| ERecord (c : Caller) (event : Event)
| EWatch
| EUnwatch (ch : nat)
| EReceive (ch : nat).

(** Each operation, with what a watcher receives. *)
Definition eexec (o : eop) (es : EventStream) : option (EventStream * option Event) :=
  match o with
  | ERecord c event => (fun es => (es, None)) <$> RecordEvent c event es
  | EWatch => Some ((Watch es).1, None)
  | EUnwatch ch => (fun es => (es, None)) <$> Unwatch ch es
  | EReceive ch => Some (receive ch es)
  end.

Definition heard (event : Event) (s : Sub) : Sub :=
  if sb_open s then {| sb_events := sb_events s ++ [event]; sb_got := sb_got s; sb_open := true |} else s.

Definition log_step (o : eop) (a : option Event) (l : Log) : Log :=
  match o with
  | ERecord c event =>
      {| lg_all := lg_all l ++ [completed c event]; lg_subs := heard (completed c event) <$> lg_subs l |}
  | EWatch => {| lg_all := lg_all l; lg_subs := lg_subs l ++ [{| sb_events := []; sb_got := []; sb_open := true |}] |}
  | EUnwatch ch =>
      {| lg_all := lg_all l;
         lg_subs := alter (fun s => {| sb_events := sb_events s; sb_got := sb_got s; sb_open := false |}) ch (lg_subs l) |}
  | EReceive ch =>
      {| lg_all := lg_all l;
         lg_subs := alter (fun s => {| sb_events := sb_events s; sb_got := sb_got s ++ option_list a; sb_open := sb_open s |})
                      ch (lg_subs l) |}
  end.

Fixpoint erun (ops : list eop) (es : EventStream) : option (EventStream * list (option Event)) :=
  match ops with
  | [] => Some (es, [])
  | o :: ops => '(es, a) ← eexec o es; '(es, l) ← erun ops es; Some (es, a :: l)
  end.

Fixpoint replay (ops : list eop) (answers : list (option Event)) (l : Log) : Log :=
  match ops, answers with
  | o :: ops, a :: answers => replay ops answers (log_step o a l)
  | _, _ => l
  end.

Definition empty_log : Log := {| lg_all := []; lg_subs := [] |}.

(** The last [n] of a list. *)
Definition latest (n : Z) (l : list Event) : list Event := drop (length l - Z.to_nat n) l.

(** What a channel has passed on or holds. *)
Record channel_ok (s : Sub) (c : Channel) : Prop := {
  co_order : sublist (sb_got s ++ ch_buffer c) (sb_events s);
  co_first : len (sb_events s) ≤ buffered → sb_got s ++ ch_buffer c = sb_events s;
  co_room : len (ch_buffer c) ≤ buffered;
  co_open : ch_closed c = negb (sb_open s)
}.

Record stream_ok (es : EventStream) (l : Log) : Prop := {
  so_size : 0 < es_maxSize es;
  so_events : es_events es = latest (es_maxSize es) (lg_all l);
  so_distinct : NoDup (es_watchers es);
  so_watchers : ∀ ch, ch ∈ es_watchers es ↔ ∃ s, lg_subs l !! ch = Some s ∧ sb_open s = true;
  so_channels : Forall2 channel_ok (lg_subs l) (es_channels es)
}.

(** *** Offering an event *)

Definition offered (event : Event) (c : Channel) : Channel :=
  if len (ch_buffer c) <? buffered then {| ch_buffer := ch_buffer c ++ [event]; ch_closed := false |} else c.

Lemma offer_all_spec event ws : ∀ channels,
  NoDup ws → (∀ ch, ch ∈ ws → ∃ c, channels !! ch = Some c ∧ ch_closed c = false) →
  ∃ channels', offer_all event ws channels = Some channels' ∧
    ∀ ch, channels' !! ch = if decide (ch ∈ ws) then offered event <$> channels !! ch else channels !! ch.
Proof.
  induction ws as [|w ws IH]; intros channels Hnd Hopen; cbn [offer_all].
  { exists channels. split; [done|]. intros ch. by rewrite decide_False by apply not_elem_of_nil. }
  apply NoDup_cons in Hnd as [Hw Hnd]. destruct (Hopen w) as (c & Hc & Ho); [by left|].
  assert (∃ cs, offer event channels w = Some cs ∧ ∀ ch, cs !! ch = if decide (ch = w) then offered event <$> channels !! ch else channels !! ch) as (cs & Hcs & Hl).
  { unfold offer, offered. rewrite Hc, Ho. case_match eqn:Hroom; (eexists; split; [done|]); intros ch; case_decide as Hch; try done.
    - subst ch. rewrite Hc, list_lookup_insert_eq by (by eapply lookup_lt_Some). cbn. by rewrite Hroom.
    - by rewrite list_lookup_insert_ne.
    - subst ch. rewrite Hc. cbn. by rewrite Hroom. }
  rewrite Hcs. cbn [mbind option_bind]. destruct (IH cs Hnd) as (channels' & Hr & Hl').
  { intros ch Hch. rewrite Hl, decide_False by (by intros ->). apply Hopen. by right. }
  exists channels'. split; [done|]. intros ch. rewrite Hl', Hl. destruct (decide (ch = w)) as [->|Hne].
  - by rewrite (decide_False _ _ Hw), decide_True by (by left).
  - destruct (decide (ch ∈ ws)).
    + by rewrite decide_True by (by right).
    + rewrite decide_False; [done|]. intros Hin. apply elem_of_cons in Hin. naive_solver.
Qed.

Lemma offered_ok event s c : channel_ok s c → sb_open s = true → channel_ok (heard event s) (offered event c).
Proof.
  intros [Ho Hf Hr Hc] Hs. unfold heard, offered. rewrite Hs. rewrite Hs in Hc.
  destruct (Z.ltb_spec (len (ch_buffer c)) buffered) as [Hlt|Hge].
  - split; cbn.
    + rewrite app_assoc. by apply sublist_app.
    + intros Hl. rewrite app_assoc, Hf; [done|]. unfold len in *. rewrite length_app in Hl. cbn in Hl. lia.
    + unfold len in *. rewrite length_app. cbn. lia.
    + done.
  - split; cbn; [|intros Hl; exfalso|done|done].
    + etransitivity; [done|]. by apply sublist_inserts_r.
    + pose proof (sublist_length _ _ Ho) as Hlen. unfold len in *. rewrite !length_app in *. cbn in Hl. lia.
Qed.

Lemma latest_app n l e : 0 < n → trimmed n (latest n l ++ [e]) = latest n (l ++ [e]).
Proof.
  intros Hn. unfold trimmed, latest, len. rewrite !length_app, length_drop. cbn [length].
  destruct (Z.ltb_spec n (Z.of_nat (length l - (length l - Z.to_nat n) + 1))) as [Hlt|Hge].
  - rewrite <-(drop_app_le l [e]), drop_drop by lia. f_equal. lia.
  - rewrite <-(drop_app_le l [e]) by lia. f_equal. lia.
Qed.

(** *** Every operation *)

(** The state of a channel does not depend on what is heard of it. *)
Lemma heard_open event s : sb_open (heard event s) = sb_open s.
Proof. unfold heard. by destruct (sb_open s) eqn:Ho. Qed.

Lemma record_ok c event es l :
  stream_ok es l → ∃ es', RecordEvent c event es = Some es' ∧ stream_ok es' (log_step (ERecord c event) None l).
Proof.
  intros [Hsz Hev Hnd Hw Hch].
  destruct (offer_all_spec (completed c event) (es_watchers es) (es_channels es) Hnd) as (channels' & Ho & Hl).
  { intros ch (s & Hs & Hopen)%Hw. destruct (Forall2_lookup_l _ _ _ _ _ Hch Hs) as (x & Hx & [_ _ _ Hc]).
    exists x. by rewrite Hc, Hopen. }
  unfold RecordEvent. cbn [es_watchers es_channels]. cbn -[completed]. rewrite Ho. eexists. split; [done|].
  split; cbn -[completed]; [done|by rewrite Hev, latest_app|done| |].
  - intros ch. rewrite Hw. setoid_rewrite list_lookup_fmap. split.
    + intros (s & Hs & Hopen). exists (heard (completed c event) s). by rewrite Hs, heard_open.
    + intros (s' & (s & Hs & ->)%fmap_Some & Hopen). exists s. by rewrite heard_open in Hopen.
  - apply Forall2_lookup. intros ch. rewrite Hl, list_lookup_fmap. pose proof (proj1 (Forall2_lookup _ _ _) Hch ch) as Hc.
    specialize (Hw ch). destruct (lg_subs l !! ch) as [s|]; inversion Hc as [? x Hok|]; subst; [|by case_decide; constructor].
    case_decide as Hin; cbn -[completed]; constructor.
    + apply offered_ok; [done|]. destruct (proj1 Hw Hin) as (s' & [= <-] & Hopen). done.
    + unfold heard. destruct (sb_open s) eqn:Hopen; [|done]. destruct Hin. apply Hw. by exists s.
Qed.

Lemma watch_ok es l : stream_ok es l → stream_ok (Watch es).1 (log_step EWatch None l).
Proof.
  intros [Hsz Hev Hnd Hw Hch]. pose proof (Forall2_length _ _ _ Hch) as Hlen. split; cbn; [done..| | |].
  - apply NoDup_app. split_and!; [done| |apply NoDup_singleton]. intros ch (s & Hs & _)%Hw.
    rewrite list_elem_of_singleton. intros ->. apply lookup_lt_Some in Hs. lia.
  - intros ch. rewrite elem_of_app, list_elem_of_singleton, Hw, <-Hlen. split.
    + intros [(s & Hs & Hopen)| ->]; [exists s; by rewrite lookup_app_l by (by eapply lookup_lt_Some)|].
      eexists. by rewrite lookup_app_r, Nat.sub_diag by lia.
    + intros (s & Hs & Hopen). apply lookup_app_Some in Hs as [Hs|[Hge Hs]]; [left; by exists s|right].
      apply lookup_lt_Some in Hs. cbn in Hs. lia.
  - apply Forall2_app; [done|]. constructor; [|constructor]. by split.
Qed.

Lemma remove_first_spec ch ws : NoDup ws →
  match remove_first ch ws with
  | None => ch ∉ ws
  | Some ws' => ch ∈ ws ∧ NoDup ws' ∧ ∀ x, x ∈ ws' ↔ x ∈ ws ∧ x ≠ ch
  end.
Proof.
  induction ws as [|w ws IH]; intros Hnd; cbn; [apply not_elem_of_nil|]. apply NoDup_cons in Hnd as [Hw Hnd].
  destruct (Nat.eqb_spec w ch) as [->|Hne].
  - split_and!; [by left|done|]. intros x. rewrite elem_of_cons. naive_solver.
  - specialize (IH Hnd). destruct (remove_first ch ws) as [ws'|]; cbn.
    + destruct IH as (Hin & Hnd' & Hx). split_and!; [by right| |].
      * apply NoDup_cons. split; [|done]. by intros [? _]%Hx.
      * intros x. rewrite !elem_of_cons, Hx. naive_solver.
    + rewrite elem_of_cons. naive_solver.
Qed.

Lemma unwatch_ok ch es l :
  stream_ok es l → ∃ es', Unwatch ch es = Some es' ∧ stream_ok es' (log_step (EUnwatch ch) None l).
Proof.
  intros [Hsz Hev Hnd Hw Hch]. unfold Unwatch. pose proof (remove_first_spec ch _ Hnd) as Hr.
  destruct (remove_first ch (es_watchers es)) as [ws|].
  - destruct Hr as (Hin & Hnd' & Hx). destruct (proj1 (Hw ch) Hin) as (s & Hs & Hopen).
    destruct (Forall2_lookup_l _ _ _ _ _ Hch Hs) as (x & Hc & [H1 H2 H3 Hcl]). rewrite Hc, Hcl, Hopen. cbn.
    eexists. split; [done|]. split; cbn; [done..| |].
    + intros y. rewrite Hx, Hw. destruct (decide (y = ch)) as [->|Hne].
      * rewrite list_lookup_alter_eq, Hs. split; [by intros [_ []]|]. intros (s' & Hs' & Ho). cbn in Hs'. by simplify_eq/=.
      * rewrite list_lookup_alter_ne by done. by split; [intros [? _]|].
    + apply Forall2_lookup. intros y. pose proof (proj1 (Forall2_lookup _ _ _) Hch y) as Hy. destruct (decide (y = ch)) as [->|Hne].
      * rewrite list_lookup_alter_eq, Hs, list_lookup_insert_eq by (by eapply lookup_lt_Some). by constructor.
      * by rewrite list_lookup_alter_ne, list_lookup_insert_ne by done.
  - exists es. split; [done|]. split; cbn; [done..| |].
    + intros y. rewrite Hw. destruct (decide (y = ch)) as [->|Hne]; [|by rewrite list_lookup_alter_ne].
      rewrite list_lookup_alter_eq. split; [by intros ?%Hw|]. intros (s' & (s & _ & ->)%fmap_Some & Ho). by cbn in Ho.
    + apply Forall2_lookup. intros y. pose proof (proj1 (Forall2_lookup _ _ _) Hch y) as Hy. destruct (decide (y = ch)) as [->|Hne]; [|by rewrite list_lookup_alter_ne].
      rewrite list_lookup_alter_eq. inversion Hy as [s x [H1 H2 H3 Hcl] E1 E2|E1 E2]; cbn; constructor. split; cbn; try done.
      destruct (sb_open s) eqn:Hopen; [|done]. destruct Hr. apply Hw. by exists s.
Qed.

Lemma receive_ok ch es l :
  stream_ok es l → stream_ok (receive ch es).1 (log_step (EReceive ch) (receive ch es).2 l).
Proof.
  intros [Hsz Hev Hnd Hw Hch].
  assert (∀ a y, (∃ s, alter (fun s => {| sb_events := sb_events s; sb_got := sb_got s ++ option_list a; sb_open := sb_open s |}) ch
    (lg_subs l) !! y = Some s ∧ sb_open s = true) ↔ ∃ s, lg_subs l !! y = Some s ∧ sb_open s = true) as Hopen.
  { intros a y. destruct (decide (y = ch)) as [->|Hne]; [|by rewrite list_lookup_alter_ne].
    rewrite list_lookup_alter_eq. destruct (lg_subs l !! ch); cbn; naive_solver. }
  unfold receive. pose proof (proj1 (Forall2_lookup _ _ _) Hch) as Hl.
  assert (∀ c, es_channels es !! ch = Some c → ch_buffer c = [] → stream_ok es (log_step (EReceive ch) None l)) as Hidle.
  { intros c Hc Hb. split; cbn; [done..| |]; [exact (fun y => iff_trans (Hw y) (iff_sym (Hopen None y)))|]. apply Forall2_lookup. intros y. specialize (Hl y).
    destruct (decide (y = ch)) as [->|Hne]; [|by rewrite list_lookup_alter_ne]. rewrite list_lookup_alter_eq, Hc in *.
    inversion Hl as [s x Hok E1 E2|]; subst. cbn. constructor. destruct Hok. split; cbn; by rewrite ?app_nil_r. }
  destruct (es_channels es !! ch) as [[[|e rest] closed]|] eqn:Hc; cbn [fst snd]; [by eapply Hidle| |].
  - split; cbn; [done..| |]; [exact (fun y => iff_trans (Hw y) (iff_sym (Hopen (Some e) y)))|]. apply Forall2_lookup. intros y. specialize (Hl y).
    destruct (decide (y = ch)) as [->|Hne]; [|by rewrite list_lookup_alter_ne, list_lookup_insert_ne].
    rewrite list_lookup_alter_eq, list_lookup_insert_eq by (by eapply lookup_lt_Some). rewrite Hc in Hl.
    inversion Hl as [s x [Ho Hf Hr Hcl] E1 E2|]; subst. cbn. constructor. cbn in *. split; cbn; [by rewrite <-app_assoc|by rewrite <-app_assoc| |done].
    unfold len in *. cbn in *. lia.
  - split; cbn; [done..| |]; [exact (fun y => iff_trans (Hw y) (iff_sym (Hopen None y)))|]. apply Forall2_lookup. intros y. specialize (Hl y).
    destruct (decide (y = ch)) as [->|Hne]; [|by rewrite list_lookup_alter_ne]. rewrite list_lookup_alter_eq, Hc in *.
    inversion Hl; constructor.
Qed.

Lemma eexec_ok o es l :
  stream_ok es l → ∃ es' a, eexec o es = Some (es', a) ∧ stream_ok es' (log_step o a l).
Proof.
  intros Hs. destruct o as [c event| |ch|ch]; cbn [eexec].
  - destruct (record_ok c event es l Hs) as (es' & -> & Hs'). by exists es', None.
  - exists (Watch es).1, None. split; [done|]. by apply watch_ok.
  - destruct (unwatch_ok ch es l Hs) as (es' & -> & Hs'). by exists es', None.
  - pose proof (receive_ok ch es l Hs) as Hr. destruct (receive ch es) as [es' a]. by exists es', a.
Qed.

(** C32: the stream refines the log: no history of records, watchers, receptions and
    [GetEvents] panics; [GetEvents] answers with the matching ones of the latest
    events, as many as the stream keeps; and each watcher gets, in the order
    they were recorded, events from the time it watches and no others, the
    first hundred of them without fail.  Other events are lost when a hundred
    are waiting.  A limit in the filter has no effect. *)
Theorem event_stream_refines MaxSize es0 ops :
  NewEventStream MaxSize = Some es0 →
  ∃ es answers, erun ops es0 = Some (es, answers) ∧
    let log := replay ops answers empty_log in
    (∀ filter, GetEvents filter es =
       List.filter (Matches filter) (latest (if MaxSize =? 0 then 10000 else MaxSize) (lg_all log))) ∧
    ∀ ch s, lg_subs log !! ch = Some s →
      ∃ waiting, ch_buffer <$> es_channels es !! ch = Some waiting ∧
        sublist (sb_got s ++ waiting) (sb_events s) ∧
        (len (sb_events s) ≤ buffered → sb_got s ++ waiting = sb_events s) ∧ len waiting ≤ buffered.
Proof.
  intros Hn. set (size := if MaxSize =? 0 then 10000 else MaxSize).
  assert (stream_ok es0 empty_log ∧ es_maxSize es0 = size) as [Hs Hsize].
  { unfold NewEventStream in Hn. fold size in Hn. destruct (Z.ltb_spec size 0); [done|]. injection Hn as <-. split; [|done].
    split; cbn; [unfold size in *; destruct (Z.eqb_spec MaxSize 0); lia|done|by constructor| |by constructor].
    intros ch. rewrite lookup_nil. split; [by intros ?%elem_of_nil|naive_solver]. }
  clear Hn. assert (∀ ops es l, stream_ok es l → ∃ es' answers, erun ops es = Some (es', answers) ∧
    stream_ok es' (replay ops answers l) ∧ es_maxSize es' = es_maxSize es) as Hrun.
  { clear. induction ops as [|o ops IH]; intros es l Hs; cbn; [by exists es, []|].
    destruct (eexec_ok o es l Hs) as (es1 & a & He & Hs1). destruct (IH es1 _ Hs1) as (es2 & answers & Hr & Hs2 & Hm).
    rewrite He. cbn. rewrite Hr. cbn. exists es2, (a :: answers). split_and!; [done|done|]. rewrite Hm.
    destruct o; cbn in He; [|by injection He as <- _| |].
    - apply fmap_Some in He as (es' & He & [= <- _]). unfold RecordEvent in He. by apply bind_Some in He as (cs & _ & [= <-]).
    - apply fmap_Some in He as (es' & He & [= <- _]). unfold Unwatch in He. by repeat case_match; simplify_eq.
    - injection He as He. unfold receive in He. by repeat case_match; simplify_eq. }
  destruct (Hrun ops es0 empty_log Hs) as (es & answers & Hr & [_ Hev _ _ Hch] & Hm). exists es, answers. split; [done|]. split.
  - intros filter. unfold GetEvents. by rewrite Hev, Hm, Hsize.
  - intros ch s Hsub. destruct (Forall2_lookup_l _ _ _ _ _ Hch Hsub) as (c & Hc & [H1 H2 H3 _]).
    exists (ch_buffer c). by rewrite Hc.
Qed.

(** ** A stream of two events *)

Module EventRuns.

Definition caller (t : Z) : Caller := {|
  ca_now := t; ca_uuid := "id-" +:+ show_Z t; ca_RequestID := "req"; ca_CorrelationID := "" |}.

Definition created (t : Z) : eop := ERecord (caller t) (NewWorkloadCreatedEvent ("w-" +:+ show_Z t) "default" "nginx" 1).

Definition everything : EventFilter := {|
  fl_Types := []; fl_Severities := []; fl_ActorID := ""; fl_ResourceType := ""; fl_ResourceID := "";
  fl_CorrelationID := ""; fl_StartTime := zero_time; fl_EndTime := zero_time; fl_Limit := 1 |}.

Definition history : list eop := [created 1; EWatch; created 2; created 3; EReceive 0; EUnwatch 0; created 4; EReceive 0].

Definition stream : EventStream := {| es_events := []; es_maxSize := 2; es_watchers := []; es_channels := [] |}.

(** The workloads that [GetEvents] names, with a limit of one, and those that the
    watcher hears of. *)
Example two_latest :
  match erun history stream with
  | Some (es, answers) => (ev_ResourceID <$> GetEvents everything es, ev_ResourceID <$> concat (option_list <$> answers))
  | None => ([], [])
  end = (["w-3"; "w-4"], ["w-2"; "w-3"])%string.
Proof. vm_compute. reflexivity. Qed.

Lemma event_stream_refines_witness :
  ∃ es answers, erun history stream = Some (es, answers) ∧
    GetEvents everything es = List.filter (Matches everything) (latest 2 (lg_all (replay history answers empty_log))).
Proof.
  destruct (event_stream_refines 2 stream history) as (es & answers & Hr & Hg & _); [reflexivity|].
  exists es, answers. split; [exact Hr|exact (Hg everything)].
Defined.

(** The hundred and first event that waits is lost. *)
Example one_lost :
  match erun (EWatch :: map (fun n => created (Z.of_nat n)) (seq 0 101)) stream with
  | Some (es, _) => length <$> (ch_buffer <$> es_channels es)
  | None => []
  end = [100%nat].
Proof. vm_compute. reflexivity. Qed.

End EventRuns.
