(* ===== verification/Goroutines.v ===== *)
(** * Programs that call a stateful service, and their interleavings

    A goroutine is a tree of calls: each call is answered by the service it goes
    to, one call at a time, and other goroutines may run between two calls.  The
    predicate [rg] says what a program guarantees at each of its calls and what
    holds when it ends, whatever the others do within a rely relation; programs
    whose guarantees fit each other's relies keep their results in every
    interleaving, and every interleaving ends. *)

From S2P Require Import Prelude.

(** ** Programs *)

Section prog.
Context {C : Type → Type}.

Inductive Prog (A : Type) : Type :=
| Ret (a : A)
| Vis {X : Type} (c : C X) (k : X → Prog A).
Arguments Ret {A} _.
Arguments Vis {A X} _ _.

Fixpoint bind {A B} (p : Prog A) (f : A → Prog B) : Prog B :=
  match p with
  | Ret a => f a
  | Vis c k => Vis c (fun x => bind (k x) f)
  end.

Definition call {X} (c : C X) : Prog X := Vis c Ret.

(** A call whose error ends the program, with [msg] before it. *)
Definition attempt {A B} (msg : string) (p : Prog (result string A)) (f : A → Prog (result string B))
    : Prog (result string B) :=
  bind p (fun r => match r with Ok a => f a | Err err => Ret (Err (msg +:+ err)) end).

(** [for _, x := range l]. *)
Fixpoint each {A} (f : A → Prog unit) (l : list A) : Prog unit :=
  match l with
  | [] => Ret tt
  | x :: l => bind (f x) (fun _ => each f l)
  end.

End prog.

Arguments Prog C A : clear implicits.
Arguments Ret {C A} _.
Arguments Vis {C A X} _ _.

Declare Scope prog_scope.
Delimit Scope prog_scope with prog.
Notation "'let!' x ':=' p 'in' k" := (bind p (fun x => k))
  (at level 10, x pattern, p at level 100, k at level 200) : prog_scope.
Notation "'let!' x ':=' p 'else' msg 'in' k" := (attempt msg p (fun x => k))
  (at level 10, x pattern, p at level 100, msg at level 100, k at level 200) : prog_scope.

(** Programs of one service within those of another. *)
Fixpoint lift {C D : Type → Type} (f : ∀ X, C X → D X) {A} (p : Prog C A) : Prog D A :=
  match p with
  | Ret a => Ret a
  | Vis c k => Vis (f _ c) (fun x => lift f (k x))
  end.

(** ** Running *)

Section run.
Context {C : Type → Type} {S : Type} (h : ∀ X, C X → S → X * S).

(** Alone. *)
Fixpoint run {A} (p : Prog C A) (s : S) : A * S :=
  match p with
  | Ret a => (a, s)
  | Vis c k => let '(x, s) := h _ c s in run (k x) s
  end.

Lemma run_bind {A B} (p : Prog C A) (f : A → Prog C B) s :
  run (bind p f) s = run (f (run p s).1) (run p s).2.
Proof.
  revert s. induction p as [a|X c k IH]; intros s; simpl; [done|]. destruct (h X c s). apply IH.
Qed.

(** One call of one of the goroutines. *)
Inductive pstep : list (Prog C unit) * S → list (Prog C unit) * S → Prop :=
| pstep_call l i X (c : C X) k s :
    l !! i = Some (Vis c k) → pstep (l, s) (<[i := k (h X c s).1]> l, (h X c s).2).

(** Any number of them. *)
Definition interleave : list (Prog C unit) * S → list (Prog C unit) * S → Prop := rtc pstep.

Definition finished (l : list (Prog C unit)) : Prop := Forall (fun p => p = Ret tt) l.

(** ** Rely and guarantee *)

(** Whatever happens within [R] between the calls of [p], each call stays within
    [G], and [Q] holds of the result at the end. *)
Fixpoint rg {A} (R G : S → S → Prop) (p : Prog C A) (Q : A → S → Prop) (s : S) : Prop :=
  match p with
  | Ret a => ∀ s', R s s' → Q a s'
  | Vis c k => ∀ s', R s s' → G s' (h _ c s').2 ∧ rg R G (k (h _ c s').1) Q (h _ c s').2
  end.

Section rely.
Context (R G : S → S → Prop) `{!PreOrder R}.

Lemma rg_rely {A} (p : Prog C A) Q s s' : R s s' → rg R G p Q s → rg R G p Q s'.
Proof. intros Hs. destruct p; simpl; intros H s'' Hs'; apply H; by transitivity s'. Qed.

Lemma rg_ret {A} (a : A) (Q : A → S → Prop) s : (∀ s', R s s' → Q a s') → rg R G (Ret a) Q s.
Proof. done. Qed.

Lemma rg_mono {A} (p : Prog C A) (Q Q' : A → S → Prop) s :
  (∀ a s', Q a s' → Q' a s') → rg R G p Q s → rg R G p Q' s.
Proof.
  intros HQ. revert s. induction p as [a|X c k IH]; intros s; simpl; intros H s' Hs.
  - apply HQ, H, Hs.
  - destruct (H s' Hs). auto.
Qed.

Lemma rg_bind {A B} (p : Prog C A) (f : A → Prog C B) Q s :
  rg R G p (fun a s' => rg R G (f a) Q s') s → rg R G (bind p f) Q s.
Proof.
  revert s. induction p as [a|X c k IH]; intros s; simpl; intros H.
  - apply H. reflexivity.
  - intros s' Hs. destruct (H s' Hs). auto.
Qed.

Lemma rg_call {X} (c : C X) (Q : X → S → Prop) s :
  (∀ s', R s s' → G s' (h _ c s').2 ∧ ∀ s'', R (h _ c s').2 s'' → Q (h _ c s').1 s'') →
  rg R G (call c) Q s.
Proof. done. Qed.

Lemma rg_attempt {A B} msg (p : Prog C (result string A)) (f : A → Prog C (result string B)) Q s :
  rg R G p (fun r s' => match r with
                        | Ok a => rg R G (f a) Q s'
                        | Err err => ∀ s'', R s' s'' → Q (Err (msg +:+ err)) s''
                        end) s →
  rg R G (attempt msg p f) Q s.
Proof. intros H. apply rg_bind. eapply rg_mono; [|exact H]. intros [a|e] s'; auto. Qed.

Lemma rg_each {A} (f : A → Prog C unit) l (I : S → Prop) s :
  (∀ s s', R s s' → I s → I s') → I s →
  (∀ x s, x ∈ l → I s → rg R G (f x) (fun _ s' => I s') s) →
  rg R G (each f l) (fun _ s' => I s') s.
Proof.
  intros HI Hs Hf. revert s Hs. induction l as [|x l IH]; intros s Hs; simpl.
  - intros s' ?. by eapply HI.
  - apply rg_bind. eapply rg_mono; [|apply Hf; [by left|done]]. intros u s' Hs'. apply IH; [|exact Hs'].
    intros y s'' Hy. apply Hf. by right.
Qed.

(** Run alone, a program stays within its guarantee. *)
Lemma rg_run {A} (p : Prog C A) Q s : rg R G p Q s → Q (run p s).1 (run p s).2.
Proof.
  revert s. induction p as [a|X c k IH]; intros s H; simpl in *.
  - apply H. reflexivity.
  - destruct (H s) as [_ H']; [reflexivity|]. by destruct (h X c s); apply IH.
Qed.

End rely.

(** ** Interleavings *)

(** Goroutines whose guarantees are within the relies of the others. *)
Theorem interleave_rg (R G : nat → S → S → Prop) (Q : nat → S → Prop) l s l' s' :
  (∀ i, PreOrder (R i)) → (∀ i j x y, i ≠ j → G i x y → R j x y) →
  (∀ i p, l !! i = Some p → rg (R i) (G i) p (fun _ => Q i) s) →
  interleave (l, s) (l', s') →
  length l' = length l ∧ (∀ i p, l' !! i = Some p → rg (R i) (G i) p (fun _ => Q i) s').
Proof.
  intros HR Hc Hl Hx. remember (l, s) as x eqn:Ex. remember (l', s') as y eqn:Ey.
  revert l s Ex Hl. induction Hx as [x|x y z Hs Hx IH]; intros l s -> Hl.
  - by injection Ey as -> ->.
  - inversion Hs as [l0 i X c k s0 Hi E1 E2]. subst.
    edestruct IH as [Hlen Hok]; [done|reflexivity| |].
    2: { split; [by rewrite Hlen, length_insert|exact Hok]. }
    assert (G i s (h X c s).2 ∧ rg (R i) (G i) (k (h X c s).1) (fun _ => Q i) (h X c s).2) as [Hg Hk].
    { apply (Hl i _ Hi). reflexivity. }
    intros j p. destruct (decide (i = j)) as [<-|Hij].
    + rewrite list_lookup_insert_eq by (by eapply lookup_lt_Some). by intros [= <-].
    + rewrite list_lookup_insert_ne by done. intros Hp. pose proof (HR j). exact (rg_rely (R j) (G j) p _ s _ (Hc i j _ _ Hij Hg) (Hl j p Hp)).
Qed.

Corollary interleave_finished (R G : nat → S → S → Prop) (Q : nat → S → Prop) l s l' s' :
  (∀ i, PreOrder (R i)) → (∀ i j x y, i ≠ j → G i x y → R j x y) →
  (∀ i p, l !! i = Some p → rg (R i) (G i) p (fun _ => Q i) s) →
  interleave (l, s) (l', s') → finished l' → ∀ i, (i < length l)%nat → Q i s'.
Proof.
  intros HR Hc Hl Hx Hf i Hi. destruct (interleave_rg R G Q l s l' s' HR Hc Hl Hx) as [Hlen Hok].
  destruct (lookup_lt_is_Some_2 l' i) as [p Hp]; [by rewrite Hlen|].
  pose proof (Hok i p Hp) as H. unfold finished in Hf. rewrite Forall_lookup in Hf.
  rewrite (Hf _ _ Hp) in H. apply H. reflexivity.
Qed.

(** Goroutines that all stay within one relation. *)
Lemma pstep_within (R : S → S → Prop) `{!PreOrder R} x y :
  pstep x y → Forall (fun p => rg R R p (fun _ _ => True) x.2) x.1 →
  R x.2 y.2 ∧ Forall (fun p => rg R R p (fun _ _ => True) y.2) y.1.
Proof.
  intros [l i X c k s Hi] Hl. cbn in *. rewrite Forall_lookup in Hl.
  destruct (Hl i _ Hi s) as [Hg Hk]; [reflexivity|]. split; [done|].
  apply Forall_insert; [|done]. apply Forall_lookup. intros j p Hp.
  exact (rg_rely R R p _ s _ Hg (Hl j p Hp)).
Qed.

Theorem interleave_within (R : S → S → Prop) `{!PreOrder R} l s l' s' :
  Forall (fun p => rg R R p (fun _ _ => True) s) l → interleave (l, s) (l', s') → R s s'.
Proof.
  intros Hl Hx. enough (∀ x y, interleave x y → Forall (fun p => rg R R p (fun _ _ => True) x.2) x.1 → R x.2 y.2) as Hgen
    by exact (Hgen (l, s) (l', s') Hx Hl).
  clear l s l' s' Hl Hx. intros x y Hx. induction Hx as [x|x y z Hst Hx IH]; intros Hl; [reflexivity|].
  destruct (pstep_within R x y Hst Hl) as [Hr Hl']. transitivity y.2; [done|auto].
Qed.

(** An invariant that every call of every goroutine keeps. *)
Definition keeps (I : S → Prop) (s s' : S) : Prop := I s → I s'.

#[global] Instance keeps_preorder I : PreOrder (keeps I).
Proof. split; [by intros s ?|intros s1 s2 s3 ? ? ?; unfold keeps in *; auto]. Qed.

Theorem interleave_invariant (I : S → Prop) l s l' s' :
  Forall (fun p => rg (keeps I) (keeps I) p (fun _ _ => True) s) l →
  interleave (l, s) (l', s') → I s → I s'.
Proof. exact (interleave_within (keeps I) l s l' s'). Qed.

(** ** An invariant and what only grows

    The most common shape: everyone keeps [I], and the state only moves along
    [E], so that a fact that [E] preserves, once known, stays known. *)

Section upholds.
Context (I : S → Prop) (E : S → S → Prop) `{!PreOrder E}.

Definition advances (s s' : S) : Prop := (I s → I s') ∧ E s s'.

#[global] Instance advances_preorder : PreOrder advances.
Proof.
  split; [by intros s; split; [|reflexivity]|].
  intros s1 s2 s3 [Hi1 He1] [Hi2 He2]. split; [auto|by transitivity s2].
Qed.

Definition upholds {A} (p : Prog C A) (Q : A → S → Prop) (s : S) : Prop :=
  rg advances advances p (fun x s' => I s' ∧ E s s' ∧ Q x s') s.

Lemma upholds_mono {A} (p : Prog C A) (Q Q' : A → S → Prop) s :
  upholds p Q s → (∀ a s', E s s' → Q a s' → Q' a s') → upholds p Q' s.
Proof. intros Hp HQ. eapply rg_mono; [|exact Hp]. naive_solver. Qed.

Lemma upholds_ret {A} (a : A) (Q : A → S → Prop) s :
  I s → (∀ s', E s s' → Q a s') → upholds (Ret a) Q s.
Proof. intros Hs HQ s' [Hi He]. auto. Qed.

Lemma upholds_bind {A B} (p : Prog C A) (f : A → Prog C B) (Q : A → S → Prop) (Q' : B → S → Prop) s :
  upholds p Q s → (∀ a s', I s' → E s s' → Q a s' → upholds (f a) Q' s') → upholds (bind p f) Q' s.
Proof.
  intros Hp Hf. apply rg_bind; [apply _|]. eapply rg_mono; [|exact Hp]. intros a s' (Hi & He & HQ).
  eapply rg_mono; [|exact (Hf a s' Hi He HQ)]. intros b s'' (Hi' & He' & HQ').
  split_and!; [done| |done]. by transitivity s'.
Qed.

Lemma upholds_attempt {A B} msg (p : Prog C (result string A)) (f : A → Prog C (result string B))
    (Q : result string A → S → Prop) (Q' : result string B → S → Prop) s :
  upholds p Q s → (∀ a s', I s' → E s s' → Q (Ok a) s' → upholds (f a) Q' s') →
  (∀ err s', E s s' → Q' (Err err) s') → upholds (attempt msg p f) Q' s.
Proof.
  intros Hp Hf He. apply (upholds_bind _ _ Q); [exact Hp|]. intros [a|err] s' Hi Hs HQ; [by apply Hf|].
  apply upholds_ret; [done|]. intros s'' Hs'. apply He. by transitivity s'.
Qed.

Lemma upholds_call {X} (c : C X) (Q : X → S → Prop) s :
  I s →
  (∀ s1, I s1 → E s s1 → I (h _ c s1).2 ∧ E s1 (h _ c s1).2 ∧ ∀ s2, E (h _ c s1).2 s2 → Q (h _ c s1).1 s2) →
  upholds (call c) Q s.
Proof.
  intros Hs Hc. apply rg_call. intros s1 [Hi He]. destruct (Hc s1 (Hi Hs) He) as (Hi1 & He1 & HQ).
  split; [by split|]. intros s2 [Hi2 He2]. split_and!; [auto| |auto].
  transitivity s1; [done|]. by transitivity (h X c s1).2.
Qed.

Lemma upholds_each {A} (f : A → Prog C unit) l (P : A → S → Prop) s :
  I s → (∀ x s s', E s s' → P x s → P x s') → (∀ x, x ∈ l → P x s) →
  (∀ x s, I s → P x s → upholds (f x) (fun _ _ => True) s) → upholds (each f l) (fun _ _ => True) s.
Proof.
  intros Hs HP Hl Hf. revert s Hs Hl. induction l as [|x l IH]; intros s Hs Hl; simpl; [by apply upholds_ret|].
  apply (upholds_bind _ _ (fun _ _ => True)); [apply Hf; [done|apply Hl; by left]|].
  intros _ s' Hs' He _. apply IH; [done|]. intros y Hy. apply (HP y s); [done|]. apply Hl. by right.
Qed.

(** The goroutines of a pool. *)
Lemma upholds_goroutine (p : Prog C unit) s :
  upholds p (fun _ _ => True) s → rg advances advances p (fun _ _ => True) s.
Proof. intros Hp. eapply rg_mono; [|exact Hp]. done. Qed.

End upholds.

(** ** Every interleaving ends *)

(** A call that gets any answer. *)
Definition answered (p q : Prog C unit) : Prop :=
  match p with Ret _ => False | Vis _ k => ∃ x, q = k x end.

Inductive lstep : list (Prog C unit) → list (Prog C unit) → Prop :=
| lstep_here p q l : answered p q → lstep (p :: l) (q :: l)
| lstep_there p l l' : lstep l l' → lstep (p :: l) (p :: l').

Lemma pstep_lstep x y : pstep x y → lstep x.1 y.1.
Proof.
  destruct 1 as [l i X c k s Hi]. cbn [fst]. revert i Hi.
  induction l as [|p l IH]; intros [|i] Hi; simplify_eq/=; constructor; [by eexists|by apply IH].
Qed.

Lemma lstep_cons_inv p l y :
  lstep (p :: l) y → (∃ q, answered p q ∧ y = q :: l) ∨ (∃ l', lstep l l' ∧ y = p :: l').
Proof. inversion 1; subst; eauto. Qed.

Lemma lstep_terminates l : Acc (flip lstep) l.
Proof.
  induction l as [|p l IHl].
  - constructor. intros y Hy. inversion Hy.
  - revert l IHl. induction p as [a|X c k IH]; intros l Hl; pose proof Hl as Hl';
      induction Hl' as [l Hacc IHl]; constructor; intros y Hy;
      destruct (lstep_cons_inv _ _ _ Hy) as [(q & Hq & ->)|(l' & Hl' & ->)].
    + done.
    + apply IHl; [done|]. by apply Hacc.
    + destruct Hq as [x ->]. by apply IH.
    + apply IHl; [done|]. by apply Hacc.
Qed.

(** Whatever the order of the calls, the goroutines all end. *)
Theorem interleave_terminates l s : Acc (flip pstep) (l, s).
Proof.
  pose proof (lstep_terminates l) as H. revert s. induction H as [l _ IH]. intros s.
  constructor. intros [l' s'] Hs. apply IH. exact (pstep_lstep _ _ Hs).
Qed.

(** Goroutines that cannot go on have ended. *)
Lemma stuck_finished l s : (∀ y, ¬ pstep (l, s) y) → finished l.
Proof.
  intros Hn. apply Forall_lookup. intros i [[]|X c k] Hi; [done|].
  destruct (Hn _ (pstep_call l i X c k s Hi)).
Qed.

Lemma finished_stuck l s y : finished l → ¬ pstep (l, s) y.
Proof.
  intros Hf Hs. inversion Hs as [l0 i X c k s0 Hi E1 E2]. subst. unfold finished in Hf.
  rewrite Forall_lookup in Hf. by specialize (Hf i _ Hi).
Qed.

Lemma finished_or_stuck (l : list (Prog C unit)) :
  finished l ∨ ∃ i X (c : C X) k, l !! i = Some (Vis c k).
Proof.
  induction l as [|[[]|X c k] l IH]; [by left; constructor| |by right; exists 0%nat, X, c, k].
  destruct IH as [IH|(i & X & c & k & Hi)]; [left; by constructor|right; by exists (Datatypes.S i), X, c, k].
Qed.

Lemma interleave_complete l s : ∃ l' s', interleave (l, s) (l', s') ∧ finished l'.
Proof.
  pose proof (lstep_terminates l) as H. revert s. induction H as [l _ IH]. intros s.
  destruct (finished_or_stuck l) as [Hf|(i & X & c & k & Hi)]; [by exists l, s; split; [apply rtc_refl|]|].
  pose proof (pstep_call l i X c k s Hi) as Hst.
  destruct (IH _ (pstep_lstep _ _ Hst) (h X c s).2) as (l' & s' & Hx & Hf).
  exists l', s'. split; [|done]. eapply rtc_l; [exact Hst|exact Hx].
Qed.

(** ** One after the other *)

Fixpoint in_turn (l : list (Prog C unit)) (s : S) : S :=
  match l with
  | [] => s
  | p :: l => in_turn l (run p s).2
  end.

Lemma one_runs before p after s :
  interleave (before ++ p :: after, s) (before ++ Ret tt :: after, (run p s).2).
Proof.
  revert s. induction p as [[]|X c k IH]; intros s; simpl; [apply rtc_refl|].
  pose proof (pstep_call (before ++ Vis c k :: after) (length before + 0) X c k s) as Hst.
  rewrite insert_app_r, list_lookup_middle in Hst by lia.
  eapply rtc_l; [by apply Hst|]. destruct (h X c s). apply IH.
Qed.

Lemma in_turn_interleave l s : interleave (l, s) ((fun _ => Ret tt) <$> l, in_turn l s).
Proof.
  assert (∀ before, interleave (before ++ l, s) (before ++ ((fun _ => Ret tt) <$> l), in_turn l s)) as Hgen; [|apply (Hgen [])].
  revert s. induction l as [|p l IH]; intros s before; [apply rtc_refl|]. simpl.
  etransitivity; [apply one_runs|].
  rewrite !(cons_middle (Ret tt)), !app_assoc. apply IH.
Qed.

End run.

(** A program of one service within those of another. *)
Lemma rg_lift {C D : Type → Type} {S} (h : ∀ X, D X → S → X * S) (f : ∀ X, C X → D X) {A} (R G : S → S → Prop)
    (p : Prog C A) Q s :
  rg (fun X c => h X (f X c)) R G p Q s → rg h R G (lift f p) Q s.
Proof.
  revert s. induction p as [a|X c k IH]; intros s; simpl; [done|]. intros Hp s' Hs.
  destruct (Hp s' Hs). auto.
Qed.

Lemma upholds_lift {C D : Type → Type} {S} (h : ∀ X, D X → S → X * S) (f : ∀ X, C X → D X) {A}
    (I : S → Prop) (E : S → S → Prop) (p : Prog C A) Q s :
  upholds (fun X c => h X (f X c)) I E p Q s → upholds h I E (lift f p) Q s.
Proof. apply rg_lift. Qed.
