(* ===== verification/ContainerSecurity.v ===== *)
(** * Security of containers (pkg/runtime: container.go, seccomp.go, apparmor.go, selinux.go, runtimeclass.go)

    What a container's security context does to the OCI specification that
    containerd builds for it.  Files of the host and the parsing of JSON are
    the record [Host]; logging is dropped.  The slices of capabilities that
    the code shares have no spare capacity, so that an append never writes to a
    shared array. *)

From S2P Require Import Prelude GoText GoFiles.

Local Open Scope string_scope.
Local Open Scope Z_scope.

(** ** The security context (types.go) *)

Definition SeccompProfileTypeUnconfined : string := "Unconfined".
Definition SeccompProfileTypeRuntimeDefault : string := "RuntimeDefault".
Definition SeccompProfileTypeLocalhost : string := "Localhost".
Definition AppArmorProfileTypeUnconfined : string := "Unconfined".
Definition AppArmorProfileTypeRuntimeDefault : string := "RuntimeDefault".
Definition AppArmorProfileTypeLocalhost : string := "Localhost".

Record SeccompProfile := { sp_Type : string; sp_LocalhostProfile : string }.

Record AppArmorProfile := { ap_Type : string; ap_LocalhostProfile : string }.

Record SELinuxOptions := { se_User : string; se_Role : string; se_Type : string; se_Level : string }.

Record LinuxSecurityOptions := {
  lo_SeccompProfile : option SeccompProfile;
  lo_AppArmorProfile : option AppArmorProfile;
  lo_SELinuxOptions : option SELinuxOptions;
  lo_SupplementalGroups : list Z;
  lo_FSGroup : option Z;
  lo_Sysctls : gmap string string
}.

Record SecurityContext := {
  sc_Linux : option LinuxSecurityOptions;
  sc_Privileged : bool;
  sc_HostNetwork : bool;
  sc_HostPID : bool;
  sc_HostIPC : bool;
  sc_RunAsUser : option Z;
  sc_RunAsGroup : option Z;
  sc_RunAsNonRoot : option bool;
  sc_ReadOnlyRootFilesystem : bool;
  sc_CapabilitiesAdd : list string;
  sc_CapabilitiesDrop : list string;
  sc_RuntimeClassName : string
}.

(** ** The OCI specification

    The fields of runtime-spec that the code reads or writes; a parsed seccomp
    profile is its text. *)

Record LinuxCapabilities := {
  Bounding : list string;
  Effective : list string;
  Inheritable : list string;
  Permitted : list string;
  Ambient : list string
}.

Record Process := {
  pr_UID : Z;
  pr_GID : Z;
  pr_Args : list string;
  pr_Env : list string;
  pr_Terminal : bool;
  pr_Capabilities : option LinuxCapabilities;
  pr_ApparmorProfile : string;
  pr_SelinuxLabel : string
}.

Record LinuxDeviceCgroup := {
  dc_Allow : bool; dc_Type : string; dc_Major : Z; dc_Minor : Z; dc_Access : string
}.

Record Linux := {
  li_Seccomp : option string;
  li_MountLabel : string;
  li_BlockIOWeight : option Z;
  li_Devices : list LinuxDeviceCgroup
}.

Record OciSpec := {
  oci_Process : option Process;
  oci_Readonly : option bool;
  oci_Linux : option Linux
}.

#[export] Instance eta_LinuxCapabilities : Eta LinuxCapabilities := fun c =>
  Build_LinuxCapabilities (Bounding c) (Effective c) (Inheritable c) (Permitted c) (Ambient c).

#[export] Instance eta_Process : Eta Process := fun p =>
  Build_Process (pr_UID p) (pr_GID p) (pr_Args p) (pr_Env p) (pr_Terminal p) (pr_Capabilities p)
    (pr_ApparmorProfile p) (pr_SelinuxLabel p).

#[export] Instance eta_Linux : Eta Linux := fun l =>
  Build_Linux (li_Seccomp l) (li_MountLabel l) (li_BlockIOWeight l) (li_Devices l).

#[export] Instance eta_OciSpec : Eta OciSpec := fun s =>
  Build_OciSpec (oci_Process s) (oci_Readonly s) (oci_Linux s).

Definition empty_process : Process := {|
  pr_UID := 0; pr_GID := 0; pr_Args := []; pr_Env := []; pr_Terminal := false; pr_Capabilities := None;
  pr_ApparmorProfile := ""; pr_SelinuxLabel := "" |}.

Definition empty_linux : Linux := {|
  li_Seccomp := None; li_MountLabel := ""; li_BlockIOWeight := None; li_Devices := [] |}.

(** [if s.Process == nil { s.Process = &specs.Process{} }], and likewise. *)
Definition the_process (s : OciSpec) : Process := default empty_process (oci_Process s).
Definition the_linux (s : OciSpec) : Linux := default empty_linux (oci_Linux s).

Definition on_process (f : Process → Process) (s : OciSpec) : OciSpec :=
  s <| oci_Process := Some (f (the_process s)) |>.

Definition on_linux (f : Linux → Linux) (s : OciSpec) : OciSpec :=
  s <| oci_Linux := Some (f (the_linux s)) |>.

(** ** The host *)

(** [os.Stat] gives an error or none, [os.ReadFile] contents; [h_seccomp]
    parses a profile and [h_default] is the embedded one. *)
Record Host := {
  h_stat : string → option string;
  h_read : string → result string string;
  h_seccomp : string → result string string;
  h_default : string
}.

Definition is_space (c : ascii) : bool :=
  let n := Ascii.nat_of_ascii c in
  bool_decide (n = 32 ∨ (9 ≤ n ∧ n ≤ 13))%nat.

Fixpoint trim_left (s : string) : string :=
  match s with
  | EmptyString => EmptyString
  | String c s' => if is_space c then trim_left s' else s
  end.

Fixpoint trim_right (s : string) : string :=
  match s with
  | EmptyString => EmptyString
  | String c s' =>
      match trim_right s' with
      | EmptyString => if is_space c then EmptyString else String c EmptyString
      | t => String c t
      end
  end.

(** [strings.TrimSpace] of ASCII text. *)
Definition TrimSpace (s : string) : string := trim_right (trim_left s).

(** ** Seccomp (seccomp.go) *)

Definition GetDefaultSeccompProfile : SeccompProfile :=
  {| sp_Type := SeccompProfileTypeRuntimeDefault; sp_LocalhostProfile := "" |}.

Definition GetStrictSeccompProfile : SeccompProfile :=
  {| sp_Type := SeccompProfileTypeLocalhost;
     sp_LocalhostProfile := "/etc/cloudless/seccomp/strict.json" |}.

Section host.
Variable h : Host.

Definition loadDefaultProfile : result string (option string) :=
  match h_seccomp h (h_default h) with
  | Err err => Err ("failed to parse default seccomp profile: " +:+ err)
  | Ok p => Ok (Some p)
  end.

Definition loadProfileFromFile (path : string) : result string (option string) :=
  let cleanPath := path_text (Clean path) in
  match h_stat h cleanPath with
  | Some err => Err ("seccomp profile file not found: " +:+ err)
  | None =>
      match h_read h cleanPath with
      | Err err => Err ("failed to read seccomp profile: " +:+ err)
      | Ok data =>
          match h_seccomp h data with
          | Err err => Err ("failed to parse seccomp profile from " +:+ path +:+ ": " +:+ err)
          | Ok p => Ok (Some p)
          end
      end
  end.

Definition LoadProfile (profile : SeccompProfile) : result string (option string) :=
  if sp_Type profile =?s SeccompProfileTypeUnconfined then Ok None
  else if sp_Type profile =?s SeccompProfileTypeRuntimeDefault then loadDefaultProfile
  else if sp_Type profile =?s SeccompProfileTypeLocalhost then
    if sp_LocalhostProfile profile =?s "" then
      Err "localhost profile path is required for SeccompProfileTypeLocalhost"
    else loadProfileFromFile (sp_LocalhostProfile profile)
  else Err ("unknown seccomp profile type: " +:+ sp_Type profile).

Definition ApplySeccompProfile (s : OciSpec) (profile : option SeccompProfile)
    : result string OciSpec :=
  match profile with
  | None => Ok s
  | Some profile =>
      match LoadProfile profile with
      | Err err => Err ("failed to load seccomp profile: " +:+ err)
      | Ok None => Ok s
      | Ok (Some p) => Ok (on_linux (fun l => l <| li_Seccomp := Some p |>) s)
      end
  end.

(** ** AppArmor (apparmor.go) *)

Definition CloudlessDefaultProfile : string := "cloudless-default".
Definition AppArmorProfileDir : string := "/etc/apparmor.d".
Definition AppArmorProfilesPath : string := "/sys/kernel/security/apparmor/profiles".

Definition GetProfileName (profile : AppArmorProfile) : result string string :=
  if ap_Type profile =?s AppArmorProfileTypeUnconfined then Ok "unconfined"
  else if ap_Type profile =?s AppArmorProfileTypeRuntimeDefault then Ok CloudlessDefaultProfile
  else if ap_Type profile =?s AppArmorProfileTypeLocalhost then
    if ap_LocalhostProfile profile =?s "" then
      Err "localhost profile name is required for AppArmorProfileTypeLocalhost"
    else Ok (ap_LocalhostProfile profile)
  else Err ("unknown AppArmor profile type: " +:+ ap_Type profile).

Definition IsAppArmorAvailable : bool :=
  match h_stat h "/sys/kernel/security/apparmor" with
  | Some _ => false
  | None =>
      match h_read h "/sys/module/apparmor/parameters/enabled" with
      | Err _ => false
      | Ok data => TrimSpace data =?s "Y"
      end
  end.

Definition IsProfileLoaded (profileName : string) : bool :=
  if negb IsAppArmorAvailable then false
  else match h_read h AppArmorProfilesPath with
  | Err _ => false
  | Ok data =>
      existsb (fun line => HasPrefix line (profileName +:+ " ") ||
                           HasPrefix line (profileName +:+ String (Ascii.ascii_of_nat 9) ""))
        (fields (Ascii.ascii_of_nat 10) data)
  end.

(** [AppArmorLoader.LoadProfile] *)
Definition AppArmor_LoadProfile (profileName : string) : option string :=
  if (profileName =?s "") || (profileName =?s "unconfined") then None
  else if negb IsAppArmorAvailable then Some "AppArmor is not available on this system"
  else if IsProfileLoaded profileName then None
  else
    let profilePath := path_text (Join (Clean AppArmorProfileDir) profileName) in
    match h_stat h profilePath with
    | Some err => Some ("AppArmor profile not found: " +:+ profilePath +:+ ": " +:+ err)
    | None => Some ("AppArmor profile " +:+ profileName
                    +:+ " is not loaded - load it with: apparmor_parser -r " +:+ profilePath)
    end.

(** Whether the profile is loaded is only logged. *)
Definition ApplyAppArmorProfile (s : OciSpec) (profile : option AppArmorProfile)
    : result string OciSpec :=
  match profile with
  | None => Ok s
  | Some profile =>
      if negb IsAppArmorAvailable then Ok s
      else match GetProfileName profile with
      | Err err => Err ("failed to get AppArmor profile name: " +:+ err)
      | Ok profileName =>
          if profileName =?s "" then Ok s
          else Ok (on_process (fun p => p <| pr_ApparmorProfile := profileName |>) s)
      end
  end.

(** ** SELinux (selinux.go) *)

Definition SELinuxMountPath : string := "/sys/fs/selinux".
Definition DefaultSELinuxUser : string := "system_u".
Definition DefaultSELinuxRole : string := "system_r".
Definition DefaultSELinuxType : string := "cloudless_container_t".
Definition DefaultSELinuxLevel : string := "s0".

Definition GetDefaultSELinuxOptions : SELinuxOptions := {|
  se_User := DefaultSELinuxUser; se_Role := DefaultSELinuxRole; se_Type := DefaultSELinuxType;
  se_Level := DefaultSELinuxLevel |}.

Definition GetSELinuxOptionsWithLevel (level : string) : SELinuxOptions := {|
  se_User := DefaultSELinuxUser; se_Role := DefaultSELinuxRole; se_Type := DefaultSELinuxType;
  se_Level := level |}.

Definition GenerateUniqueMCSLevel (containerID : string) : string := "s0:c0,c1".

Definition BuildSELinuxLabel (options : SELinuxOptions) : string :=
  let user := if negb (se_User options =?s "") then se_User options else DefaultSELinuxUser in
  let role := if negb (se_Role options =?s "") then se_Role options else DefaultSELinuxRole in
  let seType := if negb (se_Type options =?s "") then se_Type options else DefaultSELinuxType in
  let level := if negb (se_Level options =?s "") then se_Level options else DefaultSELinuxLevel in
  user +:+ ":" +:+ role +:+ ":" +:+ seType +:+ ":" +:+ level.

Definition IsSELinuxAvailable : bool :=
  match h_stat h SELinuxMountPath with
  | Some _ => false
  | None => match h_stat h "/proc/self/attr/current" with Some _ => false | None => true end
  end.

Definition IsSELinuxEnforcing : bool :=
  if negb IsSELinuxAvailable then false
  else match h_read h (SELinuxMountPath +:+ "/enforce") with
  | Err _ => false
  | Ok data => TrimSpace data =?s "1"
  end.

Definition GetSELinuxMode : string :=
  if negb IsSELinuxAvailable then "disabled"
  else if IsSELinuxEnforcing then "enforcing" else "permissive".

Definition ApplySELinuxOptions (s : OciSpec) (options : option SELinuxOptions) : OciSpec :=
  match options with
  | None => s
  | Some options =>
      if negb IsSELinuxAvailable then s
      else
        let label := BuildSELinuxLabel options in
        if label =?s "" then s
        else on_linux (fun l => l <| li_MountLabel := label |>)
               (on_process (fun p => p <| pr_SelinuxLabel := label |>) s)
  end.

(** ** Runtime classes (runtimeclass.go) *)

Definition RuntimeClassRunc : string := "runc".
Definition RuntimeClassGVisor : string := "gvisor".
Definition RuntimeClassKata : string := "kata".
Definition RuntimeClassFirecracker : string := "firecracker".

Record RuntimeClass := { rc_Name : string; rc_Handler : string }.

Definition supportedClasses : gmap string RuntimeClass :=
  <[RuntimeClassRunc := {| rc_Name := RuntimeClassRunc; rc_Handler := "io.containerd.runc.v2" |}]>
  (<[RuntimeClassGVisor := {| rc_Name := RuntimeClassGVisor; rc_Handler := "io.containerd.runsc.v1" |}]>
  (<[RuntimeClassKata := {| rc_Name := RuntimeClassKata; rc_Handler := "io.containerd.kata.v2" |}]>
  {[RuntimeClassFirecracker := {| rc_Name := RuntimeClassFirecracker; rc_Handler := "aws.firecracker" |}]})).

Definition GetRuntimeClass (name : string) : result string RuntimeClass :=
  let name := if name =?s "" then RuntimeClassRunc else name in
  match supportedClasses !! name with
  | None => Err ("runtime class not found: " +:+ name)
  | Some class => Ok class
  end.

Definition GetDefaultRuntimeClass : string := RuntimeClassRunc.

(** The handler of [containerd.WithRuntime]. *)
Definition GetContainerdRuntimeOpt (runtimeClassName : string) : result string string :=
  match GetRuntimeClass runtimeClassName with
  | Err err => Err err
  | Ok class => Ok (rc_Handler class)
  end.

(** [applyGVisorConfig] and the two others only make sure of a process. *)
Definition ApplyRuntimeClassSpec (s : OciSpec) (runtimeClassName : string) : result string OciSpec :=
  if (runtimeClassName =?s "") || (runtimeClassName =?s RuntimeClassRunc) then Ok s
  else if (runtimeClassName =?s RuntimeClassGVisor) || (runtimeClassName =?s RuntimeClassKata) ||
          (runtimeClassName =?s RuntimeClassFirecracker) then Ok (on_process id s)
  else Err ("unknown runtime class: " +:+ runtimeClassName).

(** ** The security context (container.go) *)

Definition removeCapability (caps : list string) (cap : string) : list string :=
  List.filter (fun c => negb (c =?s cap)) caps.

Definition containsCap (caps : list string) (cap : string) : bool :=
  existsb (fun c => c =?s cap) caps.

Definition default_capabilities : list string :=
  ["CAP_CHOWN"; "CAP_DAC_OVERRIDE"; "CAP_FSETID"; "CAP_FOWNER"; "CAP_MKNOD"; "CAP_NET_RAW";
   "CAP_SETGID"; "CAP_SETUID"; "CAP_SETFCAP"; "CAP_SETPCAP"; "CAP_NET_BIND_SERVICE";
   "CAP_SYS_CHROOT"; "CAP_KILL"; "CAP_AUDIT_WRITE"].

Definition same_capabilities (l : list string) : LinuxCapabilities := {|
  Bounding := l; Effective := l; Inheritable := l; Permitted := l; Ambient := l |}.

Definition drop_capability (c : LinuxCapabilities) (cap : string) : LinuxCapabilities := {|
  Bounding := removeCapability (Bounding c) cap; Effective := removeCapability (Effective c) cap;
  Inheritable := removeCapability (Inheritable c) cap; Permitted := removeCapability (Permitted c) cap;
  Ambient := removeCapability (Ambient c) cap |}.

(** Only the bounding set is searched. *)
Definition add_capability (c : LinuxCapabilities) (cap : string) : LinuxCapabilities :=
  if containsCap (Bounding c) cap then c
  else {|
    Bounding := Bounding c ++ [cap]; Effective := Effective c ++ [cap];
    Inheritable := Inheritable c ++ [cap]; Permitted := Permitted c ++ [cap];
    Ambient := Ambient c ++ [cap] |}.

Definition apply_capabilities (sc : SecurityContext) (s : OciSpec) : OciSpec :=
  if (0 <? len (sc_CapabilitiesAdd sc)) || (0 <? len (sc_CapabilitiesDrop sc)) then
    on_process (fun p =>
      let c := default (same_capabilities default_capabilities) (pr_Capabilities p) in
      let c := fold_left drop_capability (sc_CapabilitiesDrop sc) c in
      p <| pr_Capabilities := Some (fold_left add_capability (sc_CapabilitiesAdd sc) c) |>) s
  else s.

(** The three profiles of the Linux options. *)
Definition apply_profiles (sc : SecurityContext) (s : OciSpec) : result string OciSpec :=
  match sc_Linux sc with
  | None => Ok s
  | Some linux =>
      match ApplySeccompProfile s (lo_SeccompProfile linux) with
      | Err err => Err ("failed to apply seccomp profile: " +:+ err)
      | Ok s =>
          match ApplyAppArmorProfile s (lo_AppArmorProfile linux) with
          | Err err => Err ("failed to apply AppArmor profile: " +:+ err)
          | Ok s => Ok (ApplySELinuxOptions s (lo_SELinuxOptions linux))
          end
      end
  end.

Definition apply_privileged (sc : SecurityContext) (s : OciSpec) : OciSpec :=
  if sc_Privileged sc then
    match oci_Linux s with
    | Some l => s <| oci_Linux := Some (l <| li_Seccomp := None |>) |>
    | None => s
    end
  else s.

Definition apply_readonly (sc : SecurityContext) (s : OciSpec) : OciSpec :=
  if sc_ReadOnlyRootFilesystem sc then s <| oci_Readonly := Some true |> else s.

(** The user is only set over the user 0. *)
Definition apply_user (sc : SecurityContext) (s : OciSpec) : OciSpec :=
  match sc_RunAsUser sc with
  | None => s
  | Some u =>
      on_process (fun p =>
        if (pr_UID p =? 0) && negb (u =? 0) then p <| pr_UID := uint32 u |> else p) s
  end.

Definition apply_group (sc : SecurityContext) (s : OciSpec) : OciSpec :=
  match sc_RunAsGroup sc with
  | None => s
  | Some g => on_process (fun p => p <| pr_GID := uint32 g |>) s
  end.

Definition enforce_nonroot (sc : SecurityContext) (s : OciSpec) : result string OciSpec :=
  match sc_RunAsNonRoot sc with
  | Some true =>
      let s := on_process id s in
      if pr_UID (the_process s) =? 0 then
        Err "container must not run as root (RunAsNonRoot=true)"
      else Ok s
  | _ => Ok s
  end.

(** The specification option of [CreateContainer]. *)
Definition apply_security_context (sc : SecurityContext) (s : OciSpec) : result string OciSpec :=
  match apply_profiles sc s with
  | Err err => Err err
  | Ok s =>
      let s := apply_group sc (apply_user sc (apply_readonly sc (apply_privileged sc s))) in
      match enforce_nonroot sc s with
      | Err err => Err err
      | Ok s =>
          let s := apply_capabilities sc s in
          if negb (sc_RuntimeClassName sc =?s "") then
            match ApplyRuntimeClassSpec s (sc_RuntimeClassName sc) with
            | Err err => Err ("failed to apply runtime class spec: " +:+ err)
            | Ok s => Ok s
            end
          else Ok s
      end
  end.

End host.

(** ** What a security context guarantees

    The specification a container runs with once its security context has been
    applied: its user, its capabilities, its file system and its seccomp filter. *)

(** ** The stages leave what they do not set *)

(** The same user, group and capabilities, and the same root file system. *)
Definition same_user (s s' : OciSpec) : Prop :=
  pr_UID (the_process s') = pr_UID (the_process s) ∧
  pr_GID (the_process s') = pr_GID (the_process s) ∧
  pr_Capabilities (the_process s') = pr_Capabilities (the_process s) ∧
  oci_Readonly s' = oci_Readonly s.

Lemma same_user_refl s : same_user s s.
Proof. done. Qed.

Lemma same_user_trans s1 s2 s3 : same_user s1 s2 → same_user s2 s3 → same_user s1 s3.
Proof. unfold same_user. intuition congruence. Qed.

Lemma apply_profiles_user h sc s s' : apply_profiles h sc s = Ok s' → same_user s s'.
Proof.
  unfold apply_profiles. destruct (sc_Linux sc) as [l|]; [|by intros [= <-]].
  destruct (ApplySeccompProfile h s _) as [s1|] eqn:E1; [|done].
  destruct (ApplyAppArmorProfile h s1 _) as [s2|] eqn:E2; [|done]. intros [= <-].
  assert (same_user s s1) as H1.
  { unfold ApplySeccompProfile in E1. by case_all. }
  assert (same_user s1 s2) as H2.
  { unfold ApplyAppArmorProfile in E2. by case_all. }
  eapply same_user_trans; [exact H1|]. eapply same_user_trans; [exact H2|].
  unfold ApplySELinuxOptions. by case_all.
Qed.

Lemma apply_privileged_user sc s : same_user s (apply_privileged sc s).
Proof. unfold apply_privileged. by case_all. Qed.

Lemma runtime_class_same s name s' :
  ApplyRuntimeClassSpec s name = Ok s' → same_user s s' ∧ oci_Linux s' = oci_Linux s.
Proof. unfold ApplyRuntimeClassSpec. intros H. by case_all. Qed.

(** ** Capabilities *)

(** The five sets of a process. *)
Definition all_sets (c : LinuxCapabilities) : list (list string) :=
  [Bounding c; Effective c; Inheritable c; Permitted c; Ambient c].

(** Whether a capability is in some set. *)
Definition granted (cap : string) (c : LinuxCapabilities) : Prop :=
  Exists (fun l => cap ∈ l) (all_sets c).

Lemma elem_removeCapability l cap x : x ∈ removeCapability l cap ↔ x ∈ l ∧ x ≠ cap.
Proof.
  unfold removeCapability. rewrite !list_elem_of_In, filter_In.
  split; intros [? Hx]; split; try done.
  - intros ->. by rewrite bool_decide_eq_true_2 in Hx.
  - by rewrite bool_decide_eq_false_2.
Qed.

Lemma granted_drop cap c x : granted x (drop_capability c cap) ↔ granted x c ∧ x ≠ cap.
Proof.
  unfold granted, all_sets, drop_capability. cbn [Bounding Effective Inheritable Permitted Ambient].
  rewrite !Exists_cons, !elem_removeCapability, Exists_nil. naive_solver.
Qed.

Lemma granted_drops drops c x :
  granted x (fold_left drop_capability drops c) ↔ granted x c ∧ x ∉ drops.
Proof.
  revert c. induction drops as [|d l IH]; intros c; cbn [fold_left].
  - split; [|by intros []]. split; [done|]. apply not_elem_of_nil.
  - rewrite IH, granted_drop, not_elem_of_cons. naive_solver.
Qed.

Lemma granted_add cap c x : granted x (add_capability c cap) → granted x c ∨ x = cap.
Proof.
  unfold add_capability. destruct (containsCap _ _); [by left|].
  unfold granted, all_sets. cbn [Bounding Effective Inheritable Permitted Ambient].
  rewrite !Exists_cons, !elem_of_app, !list_elem_of_singleton, !Exists_nil. naive_solver.
Qed.

Lemma granted_adds adds c x :
  granted x (fold_left add_capability adds c) → granted x c ∨ x ∈ adds.
Proof.
  revert c. induction adds as [|d l IH]; intros c; cbn [fold_left]; [by left|].
  intros [[H| ->]%granted_add|H]%IH; [by left|right; by left|right; by right].
Qed.

Lemma containsCap_spec l cap : containsCap l cap = true ↔ cap ∈ l.
Proof.
  unfold containsCap. rewrite existsb_exists'. split.
  - intros (x & Hx & ->%bool_decide_eq_true_1). done.
  - intros Hx. exists cap. by rewrite bool_decide_eq_true_2.
Qed.

Lemma bounding_adds adds c x :
  x ∈ Bounding c ∨ x ∈ adds → x ∈ Bounding (fold_left add_capability adds c).
Proof.
  revert c. induction adds as [|d l IH]; intros c; cbn [fold_left].
  - intros [H|[]%elem_of_nil]; done.
  - intros H. apply IH. unfold add_capability. destruct (containsCap (Bounding c) d) eqn:E.
    + apply containsCap_spec in E. rewrite elem_of_cons in H. naive_solver.
    + cbn [Bounding]. rewrite elem_of_app, list_elem_of_singleton. rewrite elem_of_cons in H. naive_solver.
Qed.

(** ** The whole context *)

(** The user that the image sets, unless it is root and another is asked for. *)
Definition user_of (sc : SecurityContext) (image_user : Z) : Z :=
  match sc_RunAsUser sc with
  | Some u => if (image_user =? 0) && negb (u =? 0) then uint32 u else image_user
  | None => image_user
  end.

Definition group_of (sc : SecurityContext) (image_group : Z) : Z :=
  from_option uint32 image_group (sc_RunAsGroup sc).

(** The capabilities before the context changes them. *)
Definition capabilities_before (s : OciSpec) : LinuxCapabilities :=
  default (same_capabilities default_capabilities) (pr_Capabilities (the_process s)).

(** The stages between the profiles and the check of the user. *)
Definition set_user (sc : SecurityContext) (s : OciSpec) : OciSpec :=
  apply_group sc (apply_user sc (apply_readonly sc (apply_privileged sc s))).

Lemma set_user_spec sc s :
  pr_UID (the_process (set_user sc s)) = user_of sc (pr_UID (the_process s)) ∧
  pr_GID (the_process (set_user sc s)) = group_of sc (pr_GID (the_process s)) ∧
  pr_Capabilities (the_process (set_user sc s)) = pr_Capabilities (the_process s) ∧
  oci_Readonly (set_user sc s) =
    (if sc_ReadOnlyRootFilesystem sc then Some true else oci_Readonly s) ∧
  oci_Linux (set_user sc s) = oci_Linux (apply_privileged sc s).
Proof.
  destruct (apply_privileged_user sc s) as (Hu & Hg & Hc & Hr). unfold set_user.
  set (s1 := apply_privileged sc s) in *. clearbody s1.
  unfold apply_group, apply_user, apply_readonly, user_of, group_of.
  destruct (sc_RunAsUser sc) as [u|]; destruct (sc_RunAsGroup sc) as [g|];
    destruct (sc_ReadOnlyRootFilesystem sc); cbn; rewrite <-?Hu, <-?Hg, <-?Hc, <-?Hr;
    split_and!; try done; fold (the_process s1); by case_match.
Qed.

Lemma enforce_nonroot_spec sc s s' :
  enforce_nonroot sc s = Ok s' →
  same_user s s' ∧ oci_Linux s' = oci_Linux s ∧
  (sc_RunAsNonRoot sc = Some true → pr_UID (the_process s') ≠ 0).
Proof.
  unfold enforce_nonroot. destruct (sc_RunAsNonRoot sc) as [[]|].
  - case_match eqn:E; [done|]. intros [= <-]. bool_to_prop. done.
  - by intros [= <-].
  - by intros [= <-].
Qed.

Lemma apply_capabilities_spec sc s :
  let s' := apply_capabilities sc s in
  pr_UID (the_process s') = pr_UID (the_process s) ∧
  pr_GID (the_process s') = pr_GID (the_process s) ∧
  oci_Readonly s' = oci_Readonly s ∧ oci_Linux s' = oci_Linux s ∧
  pr_Capabilities (the_process s') =
    (if bool_decide (sc_CapabilitiesAdd sc = [] ∧ sc_CapabilitiesDrop sc = [])
     then pr_Capabilities (the_process s)
     else Some (fold_left add_capability (sc_CapabilitiesAdd sc)
            (fold_left drop_capability (sc_CapabilitiesDrop sc) (capabilities_before s)))).
Proof.
  unfold apply_capabilities, capabilities_before.
  destruct (sc_CapabilitiesAdd sc) as [|a l]; destruct (sc_CapabilitiesDrop sc) as [|d l']; done.
Qed.

(** The seccomp filter that the profile of the context asks for, if any. *)
Definition seccomp_of (h : Host) (sc : SecurityContext) : option string :=
  match sc_Linux sc ≫= lo_SeccompProfile with
  | Some profile => match LoadProfile h profile with Ok p => p | Err _ => None end
  | None => None
  end.

Definition seccomp (s : OciSpec) : option string := li_Seccomp (the_linux s).

Lemma apply_profiles_seccomp h sc s s' p :
  apply_profiles h sc s = Ok s' → seccomp_of h sc = Some p → seccomp s' = Some p.
Proof.
  unfold apply_profiles, seccomp_of. destruct (sc_Linux sc) as [l|]; [|done]. cbn.
  destruct (lo_SeccompProfile l) as [profile|]; [|done]. cbn [ApplySeccompProfile].
  destruct (LoadProfile h profile) as [q|]; [|done]. intros H ->. revert H.
  set (s1 := on_linux _ s). destruct (ApplyAppArmorProfile h s1 _) as [s2|] eqn:E; [|done].
  intros [= <-]. assert (seccomp s2 = Some p) as H2.
  { unfold ApplyAppArmorProfile in E. by case_all. }
  rewrite <-H2. unfold ApplySELinuxOptions. by case_all.
Qed.

Lemma apply_security_context_inv h sc s s' :
  apply_security_context h sc s = Ok s' → ∃ s1 s2,
    apply_profiles h sc s = Ok s1 ∧ enforce_nonroot sc (set_user sc s1) = Ok s2 ∧
    same_user (apply_capabilities sc s2) s' ∧ oci_Linux s' = oci_Linux s2.
Proof.
  unfold apply_security_context. destruct (apply_profiles h sc s) as [s1|]; [|done].
  fold (set_user sc s1). destruct (enforce_nonroot sc (set_user sc s1)) as [s2|] eqn:E; [|done].
  intros H. exists s1, s2. split; [done|]. split; [done|].
  destruct (apply_capabilities_spec sc s2) as (_ & _ & _ & <- & _). revert H. case_match eqn:En.
  - destruct (ApplyRuntimeClassSpec _ _) as [s3|] eqn:Er; [|done]. intros [= <-].
    by destruct (runtime_class_same _ _ _ Er).
  - by intros [= <-].
Qed.


(** ** Concrete containers *)

Module SecurityRuns.

Local Open Scope string_scope.

(** A host without AppArmor and SELinux, whose seccomp profiles parse. *)
Definition plain_host : Host := {|
  h_stat := fun _ => Some "no such file"; h_read := fun _ => Err "no such file";
  h_seccomp := Ok; h_default := "default" |}.

Definition image_spec (uid : Z) : OciSpec := {|
  oci_Process := Some (empty_process <| pr_UID := uid |>); oci_Readonly := None; oci_Linux := None |}.

Definition context : SecurityContext := {|
  sc_Linux := Some {| lo_SeccompProfile := Some GetDefaultSeccompProfile; lo_AppArmorProfile := None;
                      lo_SELinuxOptions := None; lo_SupplementalGroups := []; lo_FSGroup := None;
                      lo_Sysctls := ∅ |};
  sc_Privileged := false; sc_HostNetwork := false; sc_HostPID := false; sc_HostIPC := false;
  sc_RunAsUser := Some 1000; sc_RunAsGroup := Some 1000; sc_RunAsNonRoot := Some true;
  sc_ReadOnlyRootFilesystem := true; sc_CapabilitiesAdd := ["CAP_SYS_TIME"];
  sc_CapabilitiesDrop := ["CAP_NET_RAW"]; sc_RuntimeClassName := "gvisor" |}.

#[export] Instance eta_SecurityContext : Eta SecurityContext := fun x =>
  Build_SecurityContext (sc_Linux x) (sc_Privileged x) (sc_HostNetwork x) (sc_HostPID x)
    (sc_HostIPC x) (sc_RunAsUser x) (sc_RunAsGroup x) (sc_RunAsNonRoot x)
    (sc_ReadOnlyRootFilesystem x) (sc_CapabilitiesAdd x) (sc_CapabilitiesDrop x)
    (sc_RuntimeClassName x).


(** The user of the context is not used when the image names another. *)
Example image_user_wins :
  (fun s => pr_UID (the_process s)) <$>
    (match apply_security_context plain_host context (image_spec 33) with
     | Ok s => Some s | Err _ => None end) = Some 33.
Proof. vm_compute. reflexivity. Qed.

(** A user that is a multiple of 2^32 is root, and the default capabilities
    survive the drop of all. *)
Example wrapped_user_is_root :
  match apply_security_context plain_host
    (context <| sc_RunAsUser := Some (2 ^ 32) |> <| sc_RunAsNonRoot := None |>
             <| sc_CapabilitiesDrop := ["ALL"] |>) (image_spec 0) with
  | Ok s => pr_UID (the_process s) = 0 ∧ Bounding (capabilities_before s) = app default_capabilities ["CAP_SYS_TIME"]
  | Err _ => False
  end.
Proof. vm_compute. done. Qed.

End SecurityRuns.
