(* ===== verification/ContainerRuntime.v ===== *)
(** * The container runtime (pkg/runtime: types.go, runtime.go, container.go, image.go)

    [ContainerdRuntime] on top of the client of containerd, which is not part of
    the program: the calls it makes of the client are [Cd], and every method is a
    program of such calls, between which others may run.  A handle of a container
    or a task is its identifier.  Contexts, logging and timeouts of connections
    are dropped. *)

From S2P Require Import Prelude GoText GoFiles ContainerSecurity Goroutines.

Local Open Scope string_scope.
Local Open Scope Z_scope.
Local Open Scope prog_scope.

(** ** Data (types.go) *)

Record ResourceList := {
  rl_CPUMillicores : Z; rl_MemoryBytes : Z; rl_StorageBytes : Z; rl_GPUCount : Z
}.

Record ResourceRequirements := { rr_Requests : ResourceList; rr_Limits : ResourceList }.

Record PortMapping := {
  pm_HostPort : Z; pm_ContainerPort : Z; pm_Protocol : string; pm_HostIP : string
}.

Record NetworkConfig := {
  nc_NetworkMode : string; nc_Hostname : string; nc_DNS : list string; nc_DNSSearch : list string;
  nc_Ports : list PortMapping; nc_BandwidthBPS : Z
}.

Record Mount := {
  mt_Source : string; mt_Destination : string; mt_Type : string; mt_ReadOnly : bool;
  mt_Options : list string
}.

Record RestartPolicy := { rp_Name : string; rp_MaximumRetryCount : Z }.

Record ContainerSpec := {
  cs_ID : string;
  cs_Image : string;
  cs_Name : string;
  cs_Command : list string;
  cs_Args : list string;
  cs_Env : gmap string string;
  cs_WorkingDir : string;
  cs_Labels : gmap string string;
  cs_Annotations : gmap string string;
  cs_Resources : ResourceRequirements;
  cs_Network : NetworkConfig;
  cs_Mounts : list Mount;
  cs_RestartPolicy : RestartPolicy;
  cs_SecurityContext : option SecurityContext
}.

(** The fields of [Container] that are ever set. *)
Record Container := {
  ct_ID : string;
  ct_Name : string;
  ct_Image : string;
  ct_State : string;
  ct_Status : string;
  ct_CreatedAt : Z;
  ct_ExitCode : Z;
  ct_Labels : gmap string string
}.

Definition ContainerStateCreated : string := "created".
Definition ContainerStateRunning : string := "running".
Definition ContainerStateStopped : string := "stopped".
Definition ContainerStatePaused : string := "paused".
Definition ContainerStateFailed : string := "failed".
Definition ContainerStateUnknown : string := "unknown".

Record ExecConfig := {
  ec_Command : list string; ec_Env : list string; ec_Tty : bool; ec_Stdin : bool; ec_Stdout : bool;
  ec_Stderr : bool
}.

Record ExecResult := { er_ExitCode : Z; er_Stdout : string; er_Stderr : string }.

(** ** The client of containerd

    What a new container is made of: the options that change its specification,
    in their order, and those of the container. *)

Record OciMount := {
  om_Source : string; om_Destination : string; om_Type : string; om_Options : list string
}.

(** A function among the options changes the labels of the container that is
    being made and its specification. *)
Inductive SpecOpt :=
| WithImageConfig (ref : string)
| WithProcessArgs (args : list string)
| WithEnv (env : list string)
| WithProcessCwd (cwd : string)
| WithCPUCFS (quota period : Z)
| WithMemoryLimit (limit : Z)
| WithMounts (mounts : list OciMount)
| SpecFunc (f : gmap string string * OciSpec → result string (gmap string string * OciSpec)).

Record NewContainerRequest := {
  nw_ID : string;
  nw_Image : string;
  nw_Snapshot : string;
  nw_Spec : list SpecOpt;
  nw_Labels : gmap string string;
  nw_Runtime : option string
}.

Record TaskStatus := { ts_Status : string; ts_ExitStatus : Z }.

Record ContainerInfo := {
  in_ID : string; in_Image : string; in_CreatedAt : Z; in_Labels : gmap string string
}.

Definition SIGKILL : Z := 9.
Definition SIGTERM : Z := 15.

(** [TaskExits] is whether the task exits before the time is over, and
    [TaskExit] waits for it. *)
Inductive Cd : Type → Type :=
| GetImage (ref : string) : Cd (result string unit)
| Pull (ref : string) : Cd (result string unit)
| NewContainer (req : NewContainerRequest) : Cd (result string unit)
| LoadContainer (id : string) : Cd (result string unit)
| Labels (id : string) : Cd (result string (gmap string string))
| Update (id : string) (labels : gmap string string) : Cd (result string unit)
| Info (id : string) : Cd (result string ContainerInfo)
| Spec (id : string) : Cd (result string OciSpec)
| Delete (id : string) : Cd (result string unit)
| Containers : Cd (result string (list string))
| NewTask (id log : string) : Cd (result string unit)
| Task (id : string) : Cd (result string unit)
| TaskStart (id : string) : Cd (result string unit)
| Status (id : string) : Cd (result string TaskStatus)
| TaskKill (id : string) (signal : Z) : Cd (result string unit)
| TaskWait (id : string) : Cd (result string unit)
| TaskExits (id : string) (timeout : Z) : Cd bool
| TaskExit (id : string) : Cd unit
| TaskDelete (id : string) : Cd (result string unit)
| Exec (id exec : string) (process : Process) : Cd (result string unit)
| ProcessStart (exec : string) : Cd (result string unit)
| ProcessWait (exec : string) : Cd (result string unit)
| ProcessExit (exec : string) : Cd Z
| ProcessDelete (exec : string) : Cd (result string unit)
| ProcessOutput (exec : string) : Cd (string * string)
| Clock : Cd Z.

(** ** Images (image.go) *)

Definition normalizeImageRef (imageRef : string) : string :=
  match split_first "/" imageRef with
  | (first, Some _) =>
      if contains_char "." first || contains_char ":" first then imageRef
      else "docker.io/" +:+ imageRef
  | (_, None) => "docker.io/library/" +:+ imageRef
  end.

Definition PullImage (imageRef : string) : Prog Cd (result string unit) :=
  let! _ := call (Pull (normalizeImageRef imageRef)) else "failed to pull image: " in Ret (Ok tt).

(** ** Creating a container (container.go) *)

Section runtime.
Context `{GoRange} (h : Host).

(** The weight of block I/O; the label is lost, since [WithContainerLabels]
    replaces the labels afterwards, as it does those of the next two. *)
Definition storage_limit (bytes : Z) (ls : gmap string string * OciSpec)
    : result string (gmap string string * OciSpec) :=
  Ok (<["cloudless.storage.limit" := show_Z bytes]> ls.1,
      on_linux (fun l => l <| li_BlockIOWeight := Some 500 |>) ls.2).

Definition bandwidth_limit (bps : Z) (ls : gmap string string * OciSpec)
    : result string (gmap string string * OciSpec) :=
  Ok (<["cloudless.network.bandwidth.limit" := show_Z bps]> ls.1, ls.2).

Definition gpu_device (major : Z) : LinuxDeviceCgroup := {|
  dc_Allow := true; dc_Type := "c"; dc_Major := major; dc_Minor := -1; dc_Access := "rwm" |}.

Definition gpu_access (count : Z) (ls : gmap string string * OciSpec)
    : result string (gmap string string * OciSpec) :=
  Ok (<["cloudless.gpu.count" := show_Z count]> ls.1,
      on_linux (fun l => l <| li_Devices := app (li_Devices l) [gpu_device 195; gpu_device 226] |>) ls.2).

(** The quota of a period of 100 ms. *)
Definition cpu_quota (millicores : Z) : Z := Z.quot (int64 (millicores * 100000)) 1000.

Definition env_var (kv : string * string) : string := kv.1 +:+ "=" +:+ kv.2.

Definition oci_mount (m : Mount) : OciMount := {|
  om_Source := mt_Source m; om_Destination := mt_Destination m; om_Type := mt_Type m;
  om_Options := mt_Options m |}.

Definition opt_if (b : bool) (o : SpecOpt) : list SpecOpt := if b then [o] else [].

Definition spec_options (spec : ContainerSpec) : list SpecOpt :=
  let limits := rr_Limits (cs_Resources spec) in
  [WithImageConfig (normalizeImageRef (cs_Image spec))]
  ++ opt_if (0 <? len (cs_Command spec)) (WithProcessArgs (cs_Command spec))
  ++ opt_if (0 <? Z.of_nat (size (cs_Env spec))) (WithEnv (env_var <$> range_map (cs_Env spec)))
  ++ opt_if (negb (cs_WorkingDir spec =?s "")) (WithProcessCwd (cs_WorkingDir spec))
  ++ opt_if (0 <? rl_CPUMillicores limits) (WithCPUCFS (cpu_quota (rl_CPUMillicores limits)) 100000)
  ++ opt_if (0 <? rl_MemoryBytes limits) (WithMemoryLimit (rl_MemoryBytes limits))
  ++ opt_if (0 <? rl_StorageBytes limits) (SpecFunc (storage_limit (rl_StorageBytes limits)))
  ++ opt_if (0 <? nc_BandwidthBPS (cs_Network spec)) (SpecFunc (bandwidth_limit (nc_BandwidthBPS (cs_Network spec))))
  ++ opt_if (0 <? rl_GPUCount limits) (SpecFunc (gpu_access (rl_GPUCount limits)))
  ++ ((fun m => WithMounts [oci_mount m]) <$> cs_Mounts spec)
  ++ match cs_SecurityContext spec with
     | None => []
     | Some sc => [SpecFunc (fun ls => match apply_security_context h sc ls.2 with
                                       | Err err => Err err
                                       | Ok s => Ok (ls.1, s)
                                       end)]
     end.

Definition runtime_class (spec : ContainerSpec) : string :=
  match cs_SecurityContext spec with
  | Some sc => if negb (sc_RuntimeClassName sc =?s "") then sc_RuntimeClassName sc
               else GetDefaultRuntimeClass
  | None => GetDefaultRuntimeClass
  end.

Definition new_container (spec : ContainerSpec) (handler : option string) : NewContainerRequest := {|
  nw_ID := cs_ID spec; nw_Image := normalizeImageRef (cs_Image spec);
  nw_Snapshot := cs_ID spec +:+ "-snapshot"; nw_Spec := spec_options spec;
  nw_Labels := cs_Labels spec; nw_Runtime := handler |}.

(** *** Describing a container *)

Definition task_state (status : TaskStatus) : string :=
  if negb (ts_ExitStatus status =? 0) then ContainerStateFailed
  else if ts_Status status =?s "running" then ContainerStateRunning
  else if ts_Status status =?s "created" then ContainerStateCreated
  else if ts_Status status =?s "stopped" then ContainerStateStopped
  else if ts_Status status =?s "paused" then ContainerStatePaused
  else ContainerStateUnknown.

Definition describe (info : ContainerInfo) (state status : string) (code : Z) : Container := {|
  ct_ID := in_ID info; ct_Name := default "" (in_Labels info !! "name"); ct_Image := in_Image info;
  ct_State := state; ct_Status := status; ct_CreatedAt := in_CreatedAt info; ct_ExitCode := code;
  ct_Labels := in_Labels info |}.

Definition containerToInfo (id : string) : Prog Cd (result string Container) :=
  let! info := call (Info id) else "" in
  let! task := call (Task id) in
  match task with
  | Err _ => Ret (Ok (describe info ContainerStateCreated "created" 0))
  | Ok _ =>
      let! status := call (Status id) in
      Ret (Ok (match status with
               | Err _ => describe info ContainerStateUnknown "unknown" 0
               | Ok status => describe info (task_state status) (ts_Status status) (ts_ExitStatus status)
               end))
  end.

Definition ensure_image (imageRef : string) : Prog Cd (result string unit) :=
  let ref := normalizeImageRef imageRef in
  let! image := call (GetImage ref) in
  match image with
  | Ok _ => Ret (Ok tt)
  | Err _ =>
      let! _ := PullImage imageRef else "failed to pull image: " in
      let! _ := call (GetImage ref) else "failed to get image after pull: " in
      Ret (Ok tt)
  end.

(** The option for a runtime that is not the default one. *)
Definition runtime_handler (class : string) : result string (option string) :=
  if class =?s GetDefaultRuntimeClass then Ok None
  else match GetContainerdRuntimeOpt class with
  | Err err => Err ("failed to get runtime option: " +:+ err)
  | Ok handler => Ok (Some handler)
  end.

Definition CreateContainer (spec : ContainerSpec) : Prog Cd (result string Container) :=
  let! _ := ensure_image (cs_Image spec) else "" in
  match runtime_handler (runtime_class spec) with
  | Err err => Ret (Err err)
  | Ok handler =>
      let! _ := call (NewContainer (new_container spec handler)) else "failed to create container: " in
      containerToInfo (cs_ID spec)
  end.

(** ** The life of a container *)

Definition log_path_label : string := "cloudless.log_path".

Definition log_path (id : string) : string := "/var/log/cloudless/containers/" +:+ id +:+ ".log".

(** A failure to keep the path of the log is only logged. *)
Definition StartContainer (id : string) : Prog Cd (result string unit) :=
  let! _ := call (LoadContainer id) else "failed to load container: " in
  let! labels := call (Labels id) else "failed to get container labels: " in
  let! _ := call (Update id (<[log_path_label := log_path id]> labels)) in
  let! _ := call (NewTask id (log_path id)) else "failed to create task: " in
  let! started := call (TaskStart id) in
  match started with
  | Err err => let! _ := call (TaskDelete id) in Ret (Err ("failed to start task: " +:+ err))
  | Ok _ => Ret (Ok tt)
  end.

Definition force_kill (id : string) (exited : bool) : Prog Cd (result string unit) :=
  if exited then Ret (Ok tt)
  else
    let! _ := call (TaskKill id SIGKILL) else "failed to force kill: " in
    let! _ := call (TaskExit id) in
    Ret (Ok tt).

(** Any error of looking up the task is taken for there being none. *)
Definition StopContainer (id : string) (timeout : Z) : Prog Cd (result string unit) :=
  let! _ := call (LoadContainer id) else "failed to load container: " in
  let! task := call (Task id) in
  match task with
  | Err _ => Ret (Ok tt)
  | Ok _ =>
      let! _ := call (TaskKill id SIGTERM) else "failed to send SIGTERM: " in
      let! _ := call (TaskWait id) else "failed to wait for task: " in
      let! exited := call (TaskExits id timeout) in
      let! _ := force_kill id exited else "" in
      let! _ := call (TaskDelete id) else "failed to delete task: " in
      Ret (Ok tt)
  end.

Definition DeleteContainer (id : string) : Prog Cd (result string unit) :=
  let! _ := call (LoadContainer id) else "failed to load container: " in
  let! task := call (Task id) in
  let! _ := (match task with
             | Err _ => Ret tt
             | Ok _ =>
                 let! _ := call (TaskKill id SIGKILL) in
                 let! _ := call (TaskWait id) in
                 let! _ := call (TaskDelete id) in Ret tt
             end) in
  let! _ := call (Delete id) else "failed to delete container: " in
  Ret (Ok tt).

Definition GetContainer (id : string) : Prog Cd (result string Container) :=
  let! _ := call (LoadContainer id) else "failed to load container: " in containerToInfo id.

(** The containers whose description fails are left out. *)
Fixpoint describe_all (ids : list string) (acc : list Container) : Prog Cd (list Container) :=
  match ids with
  | [] => Ret acc
  | id :: ids =>
      let! info := containerToInfo id in
      describe_all ids (match info with Ok c => app acc [c] | Err _ => acc end)
  end.

Definition ListContainers : Prog Cd (result string (list Container)) :=
  let! ids := call Containers else "failed to list containers: " in
  let! l := describe_all ids [] in Ret (Ok l).

(** ** Commands in a container *)

(** The process of the container's specification is not tested for nil, which
    containerd never leaves out. *)
Definition exec_process (s : OciSpec) (config : ExecConfig) : Process :=
  let p := the_process s in
  (p <| pr_Args := ec_Command config |>)
    <| pr_Env := app (pr_Env p) (ec_Env config) |> <| pr_Terminal := ec_Tty config |>.

Definition ExecContainer (id : string) (config : ExecConfig) : Prog Cd (result string ExecResult) :=
  let! _ := call (LoadContainer id) else "failed to load container: " in
  let! _ := call (Task id) else "failed to get container task: " in
  let! status := call (Status id) else "failed to get task status: " in
  if negb (ts_Status status =?s "running") then
    Ret (Err ("container is not running: " +:+ ts_Status status))
  else
    let! spec := call (Spec id) else "failed to get container spec: " in
    let! now := call Clock in
    let execID := id +:+ "-exec-" +:+ show_Z now in
    let! _ := call (Exec id execID (exec_process spec config)) else "failed to create exec process: " in
    let! _ := call (ProcessStart execID) else "failed to start exec process: " in
    let! _ := call (ProcessWait execID) else "failed to wait for exec process: " in
    let! exitCode := call (ProcessExit execID) in
    let! _ := call (ProcessDelete execID) in
    let! out := call (ProcessOutput execID) in
    Ret (Ok {| er_ExitCode := exitCode; er_Stdout := out.1; er_Stderr := out.2 |}).

Definition GetContainerIP (id : string) : Prog Cd (result string string) :=
  let! _ := call (LoadContainer id) else "failed to load container: " in
  let! _ := call (Task id) else "container not running: " in
  let! status := call (Status id) else "failed to get task status: " in
  if negb (ts_Status status =?s "running") then
    Ret (Err ("container not in running state: " +:+ ts_Status status))
  else
    let! r := ExecContainer id {| ec_Command := ["sh"; "-c"; "hostname -i"]; ec_Env := []; ec_Tty := false;
                                  ec_Stdin := false; ec_Stdout := false; ec_Stderr := false |}
      else "failed to execute hostname command: " in
    if negb (er_ExitCode r =? 0) then
      Ret (Err ("hostname command failed with exit code " +:+ show_Z (er_ExitCode r) +:+ ": " +:+ er_Stderr r))
    else
      let ip := TrimSpace (er_Stdout r) in
      if ip =?s "" then Ret (Err "no IP address found in container")
      else if negb (contains_char "." ip) && negb (contains_char ":" ip) then
        Ret (Err ("invalid IP address format: " +:+ ip))
      else Ret (Ok ip).

End runtime.
