(* ===== verification/ContainerRuntimeSpec.v ===== *)
(** * What the container runtime relies on and what it does to containers

    [ContainerdLaws] is what containerd documents of its client, in terms of the
    containers it has: the request each was made with, its labels and whether it
    has a task; [ContainerdUp] is what it does as long as it works.  The lemmas
    say which containers a method of [ContainerdRuntime] can change, and what
    creating and starting a container gives, whatever goroutines run between
    their calls. *)

From S2P Require Import Prelude GoText GoFiles ContainerSecurity Goroutines ContainerRuntime.

(** ** Containerd *)

Record ContainerView := {
  cv_request : NewContainerRequest;
  cv_labels : gmap string string;
  cv_task : bool
}.

Class Containerd (W : Type) : Type := cd : ∀ X, Cd X → W → X * W.
Arguments cd {W _ X} c w.

(** The container that a call can change. *)
Definition changes {X} (c : Cd X) : option string :=
  match c with
  | NewContainer req => Some (nw_ID req)
  | Update id _ | Delete id | NewTask id _ | TaskDelete id => Some id
  | _ => None
  end.

(** A call either succeeds, changing its container by [P], or changes nothing
    of it. *)
Definition effect {A} (r : result string A) (P : option ContainerView → option ContainerView → Prop)
    (v v' : option ContainerView) : Prop :=
  match r with Ok _ => P v v' | Err _ => v' = v end.

Definition fresh (req : NewContainerRequest) : ContainerView :=
  {| cv_request := req; cv_labels := nw_Labels req; cv_task := false |}.

Definition relabel (labels : gmap string string) (v : ContainerView) : ContainerView :=
  {| cv_request := cv_request v; cv_labels := labels; cv_task := cv_task v |}.

Definition with_task (b : bool) (v : ContainerView) : ContainerView :=
  {| cv_request := cv_request v; cv_labels := cv_labels v; cv_task := b |}.

Class ContainerdLaws (W : Type) `{Containerd W} : Type := {
  cd_view : W → gmap string ContainerView;
  cd_frame : ∀ X (c : Cd X) w id, changes c ≠ Some id → cd_view (cd c w).2 !! id = cd_view w !! id;
  cd_new : ∀ req w, effect (cd (NewContainer req) w).1 (fun v v' => v = None ∧ v' = Some (fresh req))
    (cd_view w !! nw_ID req) (cd_view (cd (NewContainer req) w).2 !! nw_ID req);
  cd_update : ∀ id labels w, effect (cd (Update id labels) w).1 (fun v v' => v' = relabel labels <$> v)
    (cd_view w !! id) (cd_view (cd (Update id labels) w).2 !! id);
  cd_new_task : ∀ id log w, effect (cd (NewTask id log) w).1
    (fun v v' => ∃ c, v = Some c ∧ cv_task c = false ∧ v' = Some (with_task true c))
    (cd_view w !! id) (cd_view (cd (NewTask id log) w).2 !! id);
  cd_task_delete : ∀ id w, effect (cd (TaskDelete id) w).1 (fun v v' => v' = with_task false <$> v)
    (cd_view w !! id) (cd_view (cd (TaskDelete id) w).2 !! id);
  cd_delete : ∀ id w, effect (cd (Delete id) w).1 (fun v v' => v' = None)
    (cd_view w !! id) (cd_view (cd (Delete id) w).2 !! id);
  cd_info : ∀ id w i, (cd (Info id) w).1 = Ok i → in_ID i = id ∧
    ∃ v, cd_view w !! id = Some v ∧ in_Image i = nw_Image (cv_request v) ∧ in_Labels i = cv_labels v;
  cd_labels : ∀ id w l, (cd (Labels id) w).1 = Ok l → cv_labels <$> cd_view w !! id = Some l
}.

(** While it works: images stay once they are pulled, requests that are
    [runnable] are accepted under a free identifier, and their containers can be
    started. *)
Class ContainerdUp (W : Type) `{ContainerdLaws W} : Type := {
  cd_up : W → Prop;
  has_image : string → W → Prop;
  available : string → Prop;
  runnable : NewContainerRequest → Prop;
  up_stays : ∀ X (c : Cd X) w, cd_up w → cd_up (cd c w).2;
  image_stays : ∀ X (c : Cd X) ref w, has_image ref w → has_image ref (cd c w).2;
  up_pull : ∀ ref w, cd_up w → available ref →
    (cd (Pull ref) w).1 = Ok tt ∧ has_image ref (cd (Pull ref) w).2;
  up_image : ∀ ref w, cd_up w → has_image ref w → (cd (GetImage ref) w).1 = Ok tt;
  up_new : ∀ req w, cd_up w → runnable req → has_image (nw_Image req) w → cd_view w !! nw_ID req = None →
    (cd (NewContainer req) w).1 = Ok tt;
  up_load : ∀ id w, cd_up w → is_Some (cd_view w !! id) → (cd (LoadContainer id) w).1 = Ok tt;
  up_info : ∀ id w, cd_up w → is_Some (cd_view w !! id) → is_ok (cd (Info id) w).1 = true;
  up_labels : ∀ id w, cd_up w → is_Some (cd_view w !! id) → is_ok (cd (Labels id) w).1 = true;
  up_new_task : ∀ id log w v, cd_up w → cd_view w !! id = Some v → cv_task v = false →
    runnable (cv_request v) → (cd (NewTask id log) w).1 = Ok tt;
  up_start : ∀ id w v, cd_up w → cd_view w !! id = Some v → cv_task v = true →
    runnable (cv_request v) → (cd (TaskStart id) w).1 = Ok tt
}.

(** ** Programs that leave a container alone *)

(** No call of the program, whatever it is answered, changes the container. *)
Fixpoint spares {A} (id : string) (p : Prog Cd A) : Prop :=
  match p with
  | Ret _ => True
  | Vis c k => changes c ≠ Some id ∧ ∀ x, spares id (k x)
  end.

Lemma spares_bind {A B} id (p : Prog Cd A) (f : A → Prog Cd B) :
  spares id p → (∀ a, spares id (f a)) → spares id (bind p f).
Proof.
  intros Hp Hf. induction p as [a|X c k IH]; simpl in *; [done|].
  destruct Hp as [Hc Hk]. split; auto.
Qed.

Lemma spares_attempt {A B} id msg (p : Prog Cd (result string A)) (f : A → Prog Cd (result string B)) :
  spares id p → (∀ a, spares id (f a)) → spares id (attempt msg p f).
Proof. intros Hp Hf. apply spares_bind; [done|]. by intros []. Qed.

Lemma spares_call {X} id (c : Cd X) : changes c ≠ Some id → spares id (call c).
Proof. done. Qed.

(** Proves that a program spares a container, call by call. *)
Ltac spare :=
  repeat first
    [ exact I
    | apply spares_attempt | apply spares_bind
    | progress intros
    | apply spares_call; cbn; solve [done | congruence]
    | match goal with |- context [match ?x with _ => _ end] => destruct x end ].

Lemma containerToInfo_spares id j : spares j (containerToInfo id).
Proof. unfold containerToInfo. spare. Qed.

#[export] Hint Resolve containerToInfo_spares : go.

Lemma describe_all_spares j ids acc : spares j (describe_all ids acc).
Proof.
  revert acc. induction ids as [|id ids IH]; intros acc; cbn [describe_all]; [done|].
  apply spares_bind; [apply containerToInfo_spares|]. intros []; apply IH.
Qed.

Lemma ListContainers_spares j : spares j ListContainers.
Proof. apply spares_attempt; [done|]. intros ids. apply spares_bind; [apply describe_all_spares|done]. Qed.

Lemma PullImage_spares ref j : spares j (PullImage ref).
Proof. unfold PullImage. spare. Qed.

Lemma ensure_image_spares ref j : spares j (ensure_image ref).
Proof. unfold ensure_image, PullImage. spare. Qed.

Lemma StartContainer_spares id j : id ≠ j → spares j (StartContainer id).
Proof. intros Hj. unfold StartContainer. spare. Qed.

Lemma StopContainer_spares id t j : id ≠ j → spares j (StopContainer id t).
Proof. intros Hj. unfold StopContainer, force_kill. spare. Qed.

Lemma DeleteContainer_spares id j : id ≠ j → spares j (DeleteContainer id).
Proof. intros Hj. unfold DeleteContainer. spare. Qed.

Lemma ExecContainer_spares id cfg j : spares j (ExecContainer id cfg).
Proof. unfold ExecContainer. spare. Qed.

Lemma GetContainerIP_spares id j : spares j (GetContainerIP id).
Proof.
  unfold GetContainerIP. repeat first [apply ExecContainer_spares | progress spare].
Qed.

(** ** Creating and starting a container among other goroutines *)

Section own.
Context {W : Type} `{ContainerdUp W}.

(** What others do: nothing to the container [id]. *)
Definition others (id : string) (w w' : W) : Prop :=
  cd_view w' !! id = cd_view w !! id ∧ (∀ ref, has_image ref w → has_image ref w') ∧
  (cd_up w → cd_up w').

(** What is done to [id] alone. *)
Definition only (id : string) (w w' : W) : Prop :=
  (∀ j, j ≠ id → cd_view w' !! j = cd_view w !! j) ∧ (∀ ref, has_image ref w → has_image ref w') ∧
  (cd_up w → cd_up w').

#[export] Instance others_preorder id : PreOrder (others id).
Proof.
  split; [done|]. intros w1 w2 w3 (? & ? & ?) (? & ? & ?). split; [congruence|]. split; auto.
Qed.

Lemma only_others i j w w' : i ≠ j → only i w w' → others j w w'.
Proof. intros Hij (Hv & Hi & Hu). split; [by apply Hv|done]. Qed.

Lemma only_call {X} id (c : Cd X) w : (∀ j, changes c = Some j → j = id) → only id w (cd c w).2.
Proof.
  intros Hc. split; [|split].
  - intros j Hj. apply cd_frame. intros E. by apply Hj, Hc.
  - intros ref. apply image_stays.
  - apply up_stays.
Qed.

Lemma own_bind {A B} id (p : Prog Cd A) (f : A → Prog Cd B) Q w :
  rg (@cd W _) (others id) (only id) p (fun a w' => rg (@cd W _) (others id) (only id) (f a) Q w') w →
  rg (@cd W _) (others id) (only id) (bind p f) Q w.
Proof. exact (rg_bind _ (others id) (only id) p f Q w). Qed.

Lemma own_attempt {A B} id msg (p : Prog Cd (result string A)) (f : A → Prog Cd (result string B)) Q w :
  rg (@cd W _) (others id) (only id) p (fun r w' =>
    match r with
    | Ok a => rg (@cd W _) (others id) (only id) (f a) Q w'
    | Err err => ∀ w'', others id w' w'' → Q (Err (msg +:+ err)) w''
    end) w →
  rg (@cd W _) (others id) (only id) (attempt msg p f) Q w.
Proof. exact (rg_attempt _ (others id) (only id) msg p f Q w). Qed.

Lemma own_call {X} id (c : Cd X) (Q : X → W → Prop) w :
  (∀ j, changes c = Some j → j = id) →
  (∀ w' w'', others id w w' → others id (cd c w').2 w'' → Q (cd c w').1 w'') →
  rg (@cd W _) (others id) (only id) (call c) Q w.
Proof. intros Hc HQ. apply rg_call. intros w' Hw. split; [by apply only_call|]. eauto. Qed.

(** A call that does not change its container and answers [r] in every state that
    others can lead to. *)
Lemma own_read {X} id (c : Cd X) (Q : X → W → Prop) w :
  changes c = None → (∀ w' w'', others id w w' → others id w w'' → Q (cd c w').1 w'') →
  rg (@cd W _) (others id) (only id) (call c) Q w.
Proof.
  intros Hc HQ. apply own_call; [by rewrite Hc|]. intros w' w'' O1 O2. apply HQ; [done|].
  transitivity w'; [done|]. etransitivity; [|exact O2]. split; [apply cd_frame; by rewrite Hc|].
  split; [intros ref; apply image_stays|apply up_stays].
Qed.

(** A container as it is between calls: with its image, while containerd works. *)
Definition holds_at (id : string) (v : option ContainerView) (ref : string) (w : W) : Prop :=
  cd_up w ∧ cd_view w !! id = v ∧ has_image ref w.

Lemma holds_others id v ref w w' : others id w w' → holds_at id v ref w → holds_at id v ref w'.
Proof. intros (Hv & Hi & Hu) (? & ? & ?). split_and!; [auto|congruence|auto]. Qed.

Lemma PullImage_runs id v imageRef w :
  cd_up w → cd_view w !! id = v → available (normalizeImageRef imageRef) →
  rg (@cd W _) (others id) (only id) (PullImage imageRef)
    (fun r w' => r = Ok tt ∧ holds_at id v (normalizeImageRef imageRef) w') w.
Proof.
  intros Hu Hv Ha. apply own_attempt, own_call; [by intros j [=]|]. intros w' w'' (Hv1 & _ & Hu1) O2.
  destruct (up_pull _ w' (Hu1 Hu) Ha) as [-> Hi]. apply rg_ret. intros w3 O3. split; [done|].
  apply (holds_others _ _ _ _ _ O3), (holds_others _ _ _ _ _ O2). split_and!; [by apply up_stays, Hu1| |done].
  rewrite cd_frame by done. congruence.
Qed.

Lemma containerToInfo_runs id v ref w :
  holds_at id (Some v) ref w →
  rg (@cd W _) (others id) (only id) (containerToInfo id)
    (fun r w' => ∃ c, r = Ok c ∧ ct_ID c = id ∧ holds_at id (Some v) ref w') w.
Proof.
  intros Hw. apply own_attempt, own_read; [done|]. intros w1 w2 O1 O2.
  pose proof (holds_others _ _ _ _ _ O1 Hw) as (Hu & Hv & _).
  pose proof (up_info id w1 Hu (mk_is_Some _ _ Hv)) as Hi.
  destruct (cd (Info id) w1).1 as [i|] eqn:Ei; [|done]. apply cd_info in Ei as [<- _].
  pose proof (holds_others _ _ _ _ _ O2 Hw) as Hw2. clear - Hw2. apply own_bind, own_read; [done|].
  intros w3 w4 _ O4. pose proof (holds_others _ _ _ _ _ O4 Hw2) as Hw4. clear - Hw4.
  destruct (cd (Task _) w3).1.
  - apply own_bind, own_read; [done|]. intros w5 w6 _ O6.
    pose proof (holds_others _ _ _ _ _ O6 Hw4) as Hw6. apply rg_ret. intros w7 O7.
    pose proof (holds_others _ _ _ _ _ O7 Hw6). by case_match; eauto.
  - apply rg_ret. intros w7 O7. pose proof (holds_others _ _ _ _ _ O7 Hw4). eauto.
Qed.

Context `{GoRange} (h : Host).

Lemma CreateContainer_runs spec w :
  let req := new_container h spec None in
  runtime_class spec = GetDefaultRuntimeClass → runnable req →
  holds_at (cs_ID spec) None (nw_Image req) w →
  rg (@cd W _) (others (cs_ID spec)) (only (cs_ID spec)) (CreateContainer h spec)
    (fun r w' => ∃ c, r = Ok c ∧ ct_ID c = cs_ID spec ∧
       holds_at (cs_ID spec) (Some (fresh req)) (nw_Image req) w') w.
Proof.
  intros req Hclass Hrun Hw. apply own_attempt, own_bind, own_read; [done|].
  intros w1 w2 O1 O2. pose proof (holds_others _ _ _ _ _ O1 Hw) as (Hu & _ & Hi).
  pose proof (up_image _ w1 Hu Hi) as Himg. cbn [nw_Image req new_container] in Himg. rewrite Himg.
  pose proof (holds_others _ _ _ _ _ O2 Hw) as Hw2. clear - Hw2 Hclass Hrun.
  apply rg_ret. intros w4 O4. pose proof (holds_others _ _ _ _ _ O4 Hw2) as Hw4. clear - Hw4 Hclass Hrun.
  unfold runtime_handler. rewrite Hclass, bool_decide_eq_true_2 by done.
  apply own_attempt, own_call; [by intros j [= <-]|]. intros w5 w6 O5 O6.
  pose proof (holds_others _ _ _ _ _ O5 Hw4) as (Hu & Hv & Hi).
  fold req. fold req in O6. pose proof (cd_new req w5) as He. rewrite (up_new req w5 Hu Hrun Hi Hv) in He |- *.
  destruct He as [_ He]. apply (containerToInfo_runs _ (fresh req) (nw_Image req)).
  apply (holds_others _ _ _ _ _ O6). split_and!; [by apply up_stays|done|by apply image_stays].
Qed.

(** The same labels, but for the path of the log. *)
Definition same_labels (l l' : gmap string string) : Prop :=
  delete log_path_label l' = delete log_path_label l.

Lemma StartContainer_runs id v ref w :
  cv_task v = false → runnable (cv_request v) → holds_at id (Some v) ref w →
  rg (@cd W _) (others id) (only id) (StartContainer id)
    (fun r w' => r = Ok tt ∧ ∃ l, same_labels (cv_labels v) l ∧
       holds_at id (Some (with_task true (relabel l v))) ref w') w.
Proof.
  intros Ht Hrun Hw. unfold StartContainer. apply own_attempt, own_read; [done|]. intros w1 w2 O1 O2.
  pose proof (holds_others _ _ _ _ _ O1 Hw) as (Hu & Hv & _). rewrite up_load by (rewrite ?Hv; eauto).
  pose proof (holds_others _ _ _ _ _ O2 Hw) as Hw2. clear - Hw2 Ht Hrun.
  apply own_attempt, own_read; [done|]. intros w3 w4 O3 O4.
  pose proof (holds_others _ _ _ _ _ O3 Hw2) as (Hu & Hv & _). pose proof (up_labels id w3 Hu (mk_is_Some _ _ Hv)) as Hl.
  destruct (cd (Labels id) w3).1 as [l|] eqn:El; [|done].
  apply cd_labels in El. rewrite Hv in El. injection El as <-.
  pose proof (holds_others _ _ _ _ _ O4 Hw2) as Hw4. clear - Hw4 Ht Hrun.
  apply own_bind, own_call; [by intros j [= <-]|]. intros w5 w6 O5 O6.
  assert (∃ l, same_labels (cv_labels v) l ∧ holds_at id (Some (relabel l v)) ref w6) as (l & Hl & Hw6).
  { pose proof (holds_others _ _ _ _ _ O5 Hw4) as (Hu & Hv & Hi).
    set (l := <[_ := _]> _) in *. pose proof (cd_update id l w5) as He. unfold effect in He.
    destruct (cd (Update id l) w5).1.
    - exists l. split; [apply delete_insert_eq|]. apply (holds_others _ _ _ _ _ O6).
      split_and!; [by apply up_stays|by rewrite He, Hv|by apply image_stays].
    - exists (cv_labels v). split; [done|]. apply (holds_others _ _ _ _ _ O6).
      split_and!; [by apply up_stays|by rewrite He, Hv; destruct v|by apply image_stays]. }
  clear - Hw6 Hl Ht Hrun. apply own_attempt, own_call; [by intros j [= <-]|]. intros w7 w8 O7 O8.
  pose proof (holds_others _ _ _ _ _ O7 Hw6) as (Hu & Hv & Hi).
  pose proof (cd_new_task id (log_path id) w7) as He.
  rewrite (up_new_task id (log_path id) w7 _ Hu Hv Ht Hrun) in He |- *. destruct He as (v' & E & _ & He).
  rewrite Hv in E. injection E as <-.
  assert (holds_at id (Some (with_task true (relabel l v))) ref w8) as Hw8.
  { apply (holds_others _ _ _ _ _ O8). split_and!; [by apply up_stays|done|by apply image_stays]. }
  clear - Hw8 Hl Hrun. apply own_bind, own_read; [done|]. intros w9 w10 O9 O10.
  pose proof (holds_others _ _ _ _ _ O9 Hw8) as (Hu & Hv & _).
  rewrite (up_start id w9 _ Hu Hv) by done. apply rg_ret. intros w11 O11. split; [done|].
  exists l. split; [done|]. by apply (holds_others _ _ _ _ _ O11), (holds_others _ _ _ _ _ O10).
Qed.

End own.
