(* ===== verification/ResourceMonitor.v ===== *)
(** * The resource monitor of the agent (pkg/agent/monitor.go)

    Snapshots of the host's resources, what the agent reports from them, and the
    alerts of thresholds.  What the operating system answers is [Readings]. *)

From S2P Require Import Prelude GoText GoFloat.

Local Open Scope string_scope.
Local Open Scope Z_scope.

Record ResourceSnapshot := {
  ss_Timestamp : Z;
  ss_CPUUsagePercent : float64;
  ss_CPUCores : Z;
  ss_CPUMillicores : Z;
  ss_UsedCPU : Z;
  ss_MemoryTotal : Z;
  ss_MemoryUsed : Z;
  ss_MemoryAvailable : Z;
  ss_MemoryUsedPercent : float64;
  ss_DiskTotal : Z;
  ss_DiskUsed : Z;
  ss_DiskAvailable : Z;
  ss_DiskUsedPercent : float64;
  ss_DiskIOPS : Z;
  ss_DiskIOPSClass : string;
  ss_NetworkBandwidth : Z;
  ss_NetworkEgressBandwidth : Z;
  ss_NetworkRxBytes : Z;
  ss_NetworkTxBytes : Z
}.

#[export] Instance eta_ResourceSnapshot : Eta ResourceSnapshot := fun s =>
  Build_ResourceSnapshot (ss_Timestamp s) (ss_CPUUsagePercent s) (ss_CPUCores s)
    (ss_CPUMillicores s) (ss_UsedCPU s) (ss_MemoryTotal s) (ss_MemoryUsed s)
    (ss_MemoryAvailable s) (ss_MemoryUsedPercent s) (ss_DiskTotal s) (ss_DiskUsed s)
    (ss_DiskAvailable s) (ss_DiskUsedPercent s) (ss_DiskIOPS s) (ss_DiskIOPSClass s)
    (ss_NetworkBandwidth s) (ss_NetworkEgressBandwidth s) (ss_NetworkRxBytes s) (ss_NetworkTxBytes s).

Definition empty_snapshot (now : Z) : ResourceSnapshot := {|
  ss_Timestamp := now; ss_CPUUsagePercent := f0; ss_CPUCores := 0; ss_CPUMillicores := 0;
  ss_UsedCPU := 0; ss_MemoryTotal := 0; ss_MemoryUsed := 0; ss_MemoryAvailable := 0;
  ss_MemoryUsedPercent := f0; ss_DiskTotal := 0; ss_DiskUsed := 0; ss_DiskAvailable := 0;
  ss_DiskUsedPercent := f0; ss_DiskIOPS := 0; ss_DiskIOPSClass := ""; ss_NetworkBandwidth := 0;
  ss_NetworkEgressBandwidth := 0; ss_NetworkRxBytes := 0; ss_NetworkTxBytes := 0 |}.

Record DiskCounters := {
  io_ReadCount : Z; io_WriteCount : Z; io_MergedReadCount : Z; io_MergedWriteCount : Z;
  io_ReadTime : Z; io_WriteTime : Z
}.

Record NetCounters := { net_BytesRecv : Z; net_BytesSent : Z }.

(** Totals, used and free bytes, and the used percentage. *)
Record SpaceInfo := {
  sp_Total : Z; sp_Used : Z; sp_Free : Z; sp_UsedPercent : float64
}.

(** [None] is an error. *)
Record Readings := {
  rd_now : Z;
  rd_cpu_percent : option (list float64);
  rd_cpu_counts : option Z;
  rd_memory : option SpaceInfo;
  rd_disk : option SpaceInfo;
  rd_io : option (gmap string DiskCounters);
  rd_net : option (list NetCounters)
}.

Record ResourceMonitor := {
  rm_snapshot : ResourceSnapshot;
  rm_lastNetStats : list NetCounters
}.

(** ** I/O operations *)

(** The summands of one disk; the counters are totals since the start of the
    host. *)
Definition disk_iops (c : DiskCounters) : Z :=
  if (0 <? io_ReadTime c) || (0 <? io_WriteTime c) then
    if (0 <? io_MergedReadCount c) || (0 <? io_MergedWriteCount c)
    then uint64 (io_MergedReadCount c + io_MergedWriteCount c) / 100
    else uint64 (io_ReadCount c + io_WriteCount c) / 1000
  else 0.

Definition calculateIOPS `{GoRange} (counters : gmap string DiskCounters) : Z :=
  foldl (fun total c => uint64 (total + disk_iops c)) 0 (range_map counters).*2.

Definition classifyIOPS (iops : Z) : string :=
  if iops =? 0 then "unknown" else if iops <? 100 then "low" else if iops <? 500 then "medium"
  else if iops <? 3000 then "high" else "premium".

(** ** Snapshots *)

Definition cpu_step (r : Readings) (s : ResourceSnapshot) : ResourceSnapshot :=
  let s := match rd_cpu_percent r with
           | Some (p :: _) => s <| ss_CPUUsagePercent := p |>
           | _ => s
           end in
  match rd_cpu_counts r with
  | None => s
  | Some n =>
      s <| ss_CPUCores := n |> <| ss_CPUMillicores := int64 (n * 1000) |>
        <| ss_UsedCPU := int64_of_f (fmul (fmul (ss_CPUUsagePercent s) (f_of_Z n)) (f_of_Z 10)) |>
  end.

Definition memory_step (r : Readings) (s : ResourceSnapshot) : ResourceSnapshot :=
  match rd_memory r with
  | None => s
  | Some m => s <| ss_MemoryTotal := sp_Total m |> <| ss_MemoryUsed := sp_Used m |>
                <| ss_MemoryAvailable := sp_Free m |> <| ss_MemoryUsedPercent := sp_UsedPercent m |>
  end.

(** The space of the root file system; the configured path is not used. *)
Definition disk_step `{GoRange} (r : Readings) (s : ResourceSnapshot) : ResourceSnapshot :=
  let s := match rd_disk r with
           | None => s
           | Some d => s <| ss_DiskTotal := sp_Total d |> <| ss_DiskUsed := sp_Used d |>
                         <| ss_DiskAvailable := sp_Free d |> <| ss_DiskUsedPercent := sp_UsedPercent d |>
           end in
  match rd_io r with
  | Some counters =>
      if 0 <? Z.of_nat (size counters) then
        let iops := calculateIOPS counters in
        s <| ss_DiskIOPS := iops |> <| ss_DiskIOPSClass := classifyIOPS iops |>
      else s <| ss_DiskIOPSClass := "unknown" |>
  | None => s <| ss_DiskIOPSClass := "unknown" |>
  end.

(** [d.Seconds()]. *)
Definition Seconds (d : Z) : float64 :=
  fadd (f_of_Z (Z.quot d second)) (fdiv (f_of_Z (Z.rem d second)) (f_of_Z 1000000000)).

(** [uint64(x)] as amd64 converts it. *)
Definition uint64_of_f (x : float64) : Z :=
  if flt x (f_of_Z (2 ^ 63)) then uint64 (int64_of_f x)
  else uint64 (Z.lxor (int64_of_f (fsub x (f_of_Z (2 ^ 63)))) (- 2 ^ 63)).

Definition net_step (r : Readings) (m : ResourceMonitor) (s : ResourceSnapshot)
    : ResourceSnapshot * list NetCounters :=
  match rd_net r with
  | Some (current :: rest) =>
      let s := s <| ss_NetworkRxBytes := net_BytesRecv current |>
                 <| ss_NetworkTxBytes := net_BytesSent current |> in
      let timeDiff := Seconds (time_Sub (ss_Timestamp s) (ss_Timestamp (rm_snapshot m))) in
      (match rm_lastNetStats m with
       | last :: _ =>
           if flt f0 timeDiff then
             let rxDiff := f_of_Z (uint64 (net_BytesRecv current - net_BytesRecv last)) in
             let txDiff := f_of_Z (uint64 (net_BytesSent current - net_BytesSent last)) in
             s <| ss_NetworkBandwidth := uint64_of_f (fdiv (fadd rxDiff txDiff) timeDiff) |>
               <| ss_NetworkEgressBandwidth := uint64_of_f (fdiv txDiff timeDiff) |>
           else s
       | [] => s
       end, current :: rest)
  | _ => (s, rm_lastNetStats m)
  end.

Definition updateSnapshot `{GoRange} (r : Readings) (m : ResourceMonitor) : ResourceMonitor :=
  let s := disk_step r (memory_step r (cpu_step r (empty_snapshot (rd_now r)))) in
  let '(s, stats) := net_step r m s in
  {| rm_snapshot := s; rm_lastNetStats := stats |}.

(** ** Reports *)

Record ResourceCapacity := {
  cap_CPUMillicores : Z; cap_MemoryBytes : Z; cap_StorageBytes : Z; cap_BandwidthBPS : Z;
  cap_GPUCount : Z; cap_IOPSClass : string
}.

Record ResourceUsage := {
  use_CPUMillicores : Z; use_MemoryBytes : Z; use_StorageBytes : Z; use_BandwidthBPS : Z;
  use_GPU : Z
}.

(** The number of GPUs is never set, and the bandwidth is the current one. *)
Definition GetCapacity (m : ResourceMonitor) : ResourceCapacity :=
  let s := rm_snapshot m in {|
  cap_CPUMillicores := ss_CPUMillicores s; cap_MemoryBytes := int64 (ss_MemoryTotal s);
  cap_StorageBytes := int64 (ss_DiskTotal s);
  cap_BandwidthBPS := int64 (ss_NetworkEgressBandwidth s); cap_GPUCount := 0;
  cap_IOPSClass := ss_DiskIOPSClass s |}.

Definition GetUsage (m : ResourceMonitor) : ResourceUsage :=
  let s := rm_snapshot m in {|
  use_CPUMillicores := ss_UsedCPU s; use_MemoryBytes := int64 (ss_MemoryUsed s);
  use_StorageBytes := int64 (ss_DiskUsed s); use_BandwidthBPS := int64 (ss_NetworkBandwidth s);
  use_GPU := 0 |}.

(** ** Thresholds *)

Record ResourceThresholds := {
  th_CPUPercent : float64; th_MemoryPercent : float64; th_DiskPercent : float64
}.

(** The message, which only repeats the percentage, is left out. *)
Record ResourceAlert := { al_Type : string; al_Severity : string; al_Timestamp : Z }.

Definition getSeverity (current threshold : float64) : string :=
  let ratio := fdiv current threshold in
  if fle (flit 12 10) ratio then "critical" else if fle (flit 11 10) ratio then "high"
  else if fle f1 ratio then "medium" else "low".

Definition alert_of (type : string) (now : Z) (current threshold : float64) : list ResourceAlert :=
  if fle threshold current then
    [{| al_Type := type; al_Severity := getSeverity current threshold; al_Timestamp := now |}]
  else [].

Definition CheckThresholds (t : ResourceThresholds) (m : ResourceMonitor) : list ResourceAlert :=
  let s := rm_snapshot m in
  alert_of "CPUPressure" (ss_Timestamp s) (ss_CPUUsagePercent s) (th_CPUPercent t)
  ++ alert_of "MemoryPressure" (ss_Timestamp s) (ss_MemoryUsedPercent s) (th_MemoryPercent t)
  ++ alert_of "DiskPressure" (ss_Timestamp s) (ss_DiskUsedPercent s) (th_DiskPercent t).

(** ** Units *)

Definition MemoryMiB (bytes : Z) : Z := bytes / (1024 * 1024).
Definition StorageGiB (bytes : Z) : Z := bytes / (1024 * 1024 * 1024).
Definition BandwidthMbps (bytesPerSecond : Z) : Z := uint64 (bytesPerSecond * 8) / 1000000.
