(* ===== verification/Agent.v ===== *)
(** * The agent of a node (pkg/agent/agent.go, pkg/agent/grpc_handlers.go)

    The agent runs what the coordinator assigns to its node.  Its handlers are
    programs: they call the container runtime, whose own programs are lifted
    into them, and touch the agent's state under its locks.  The assignments and
    stop commands of one heartbeat are goroutines.  The agent has a service of
    its own, which runs, stops and enters containers.  Logging is dropped, and so
    are sleeps; the connection to the coordinator and the overlay network are
    not modelled. *)

From S2P Require Import Prelude GoText GoFloat PolicyAdmission Membership Probes HealthMonitor Goroutines ContainerSecurity ContainerRuntime ResourceMonitor.

Local Open Scope string_scope.
Local Open Scope Z_scope.
Local Open Scope prog_scope.

(** ** State *)

Record AgentResources := {
  ar_CPUMillicores : Z; ar_MemoryBytes : Z; ar_StorageBytes : Z; ar_BandwidthBps : Z; ar_GPU : Z
}.

Record Config := {
  cfg_DataDir : string;
  cfg_CoordinatorAddr : string;
  cfg_AgentAddr : string;
  cfg_MetricsAddr : string;
  cfg_NodeID : string;
  cfg_NodeName : string;
  cfg_Region : string;
  cfg_Zone : string;
  cfg_JoinToken : string;
  cfg_HeartbeatInterval : Z;
  cfg_ContainerRuntime : string;
  cfg_Resources : AgentResources;
  cfg_EnableHealthProbes : bool
}.

#[export] Instance eta_Config : Eta Config := fun c =>
  Build_Config (cfg_DataDir c) (cfg_CoordinatorAddr c) (cfg_AgentAddr c) (cfg_MetricsAddr c)
    (cfg_NodeID c) (cfg_NodeName c) (cfg_Region c) (cfg_Zone c) (cfg_JoinToken c)
    (cfg_HeartbeatInterval c) (cfg_ContainerRuntime c) (cfg_Resources c) (cfg_EnableHealthProbes c).

(** What [StartProbing] is given. *)
Record Probing := {
  pb_ContainerID : string;
  pb_ContainerIP : string;
  pb_Liveness : option ProbeConfig;
  pb_Readiness : option ProbeConfig
}.

Record Agent := {
  ag_config : Config;
  ag_monitor : ResourceMonitor;
  ag_probes : ProbeExecutor;
  ag_probing : list Probing;
  ag_health : option HealthMonitor;
  ag_containerHealth : Reports;
  ag_draining : bool
}.

#[export] Instance eta_Agent : Eta Agent := fun a =>
  Build_Agent (ag_config a) (ag_monitor a) (ag_probes a) (ag_probing a) (ag_health a)
    (ag_containerHealth a) (ag_draining a).

(** A call of the container runtime, or a step on the agent's own state. *)
Inductive Act : Type → Type :=
| OnRuntime {X} (c : Cd X) : Act X
| Local {X} (f : Agent → X * Agent) : Act X.

Definition on_runtime {A} (p : Prog Cd A) : Prog Act A := lift (@OnRuntime) p.

Definition change (f : Agent → Agent) : Prog Act unit := call (Local (fun a => (tt, f a))).
Definition read {X} (f : Agent → X) : Prog Act X := call (Local (fun a => (f a, a))).

(** ** Configuration *)

Definition empty_text (s : string) : bool := s =?s "".

(** [now] is the clock, in seconds; the test of the logger is left out. *)
Definition Validate (now : Z) (c : Config) : result string Config :=
  if empty_text (cfg_DataDir c) then Err "data directory is required"
  else if empty_text (cfg_CoordinatorAddr c) then Err "coordinator address is required"
  else if empty_text (cfg_AgentAddr c) then Err "agent address is required"
  else if empty_text (cfg_MetricsAddr c) then Err "metrics address is required"
  else
    let c := if empty_text (cfg_NodeID c) then c <| cfg_NodeID := "node-" +:+ show_Z now |> else c in
    let c := if empty_text (cfg_NodeName c) then c <| cfg_NodeName := cfg_NodeID c |> else c in
    let c := if cfg_HeartbeatInterval c <=? 0 then c <| cfg_HeartbeatInterval := 10 * second |> else c in
    Ok (if empty_text (cfg_ContainerRuntime c) then c <| cfg_ContainerRuntime := "containerd" |> else c).

(** ** Health probes *)

(** [int32(d.Seconds())], of a duration that may be nil. *)
Definition whole_seconds (d : option Z) : Z :=
  let x := int64_of_f (Seconds (default 0 d)) in
  if (- 2 ^ 31 <=? x) && (x <? 2 ^ 31) then x else - 2 ^ 31.

Definition or_default (d x : Z) : Z := if x =? 0 then d else x.

Fixpoint ReplaceAll_from (fuel : nat) (s old new : string) : string :=
  match fuel with
  | O => s
  | S fuel =>
      match s with
      | EmptyString => EmptyString
      | String c s' =>
          if HasPrefix s old
          then new +:+ ReplaceAll_from fuel (drop_bytes (String.length old) s) old new
          else String c (ReplaceAll_from fuel s' old new)
      end
  end.

(** [strings.ReplaceAll] of a text that is not empty. *)
Definition ReplaceAll (s old new : string) : string := ReplaceAll_from (S (String.length s)) s old new.

Definition convertHealthCheck (hc : api.HealthCheck) (containerIP probeType : string)
    : result string ProbeConfig :=
  let config (type : string) (http : option HTTPProbe) (tcp : option TCPProbe) (exec : option ExecProbe) := {|
    pc_Type := type; pc_HTTPGet := http; pc_TCPSocket := tcp; pc_Exec := exec;
    pc_InitialDelaySeconds := whole_seconds (api.initial_delay hc);
    pc_PeriodSeconds := or_default 10 (whole_seconds (api.period hc));
    pc_TimeoutSeconds := or_default 3 (whole_seconds (api.timeout hc));
    pc_SuccessThreshold := or_default 1 (api.success_threshold hc);
    pc_FailureThreshold := or_default 3 (api.failure_threshold hc) |} in
  match api.check hc with
  | Some (api.CheckHttp path port scheme headers) =>
      Ok (config ProbeTypeHTTP (Some {|
        hp_Path := ReplaceAll path "$CONTAINER_IP" containerIP; hp_Port := port; hp_Scheme := scheme;
        hp_Headers := foldl (fun m h => <[api.header_name h := api.header_value h]> m) ∅ headers |})
        None None)
  | Some (api.CheckTcp port) => Ok (config ProbeTypeTCP None (Some {| tp_Port := port |}) None)
  | Some (api.CheckExec command) =>
      Ok (config ProbeTypeExec None None (Some {| ep_Command := command |}))
  | None => Err ("unknown health check type for " +:+ probeType +:+ " probe")
  end.

Definition convert_probe (hc : option api.HealthCheck) (containerIP probeType : string)
    : result string (option ProbeConfig) :=
  match hc with
  | None => Ok None
  | Some hc =>
      match convertHealthCheck hc containerIP probeType with
      | Err err => Err ("failed to convert " +:+ probeType +:+ " probe: " +:+ err)
      | Ok config => Ok (Some config)
      end
  end.

Definition extractProbeConfigs (spec : api.WorkloadSpec) (containerIP : string)
    : result string (option ProbeConfig * option ProbeConfig) :=
  match convert_probe (api.liveness_probe spec) containerIP "liveness" with
  | Err err => Err err
  | Ok live =>
      match convert_probe (api.readiness_probe spec) containerIP "readiness" with
      | Err err => Err err
      | Ok ready => Ok (live, ready)
      end
  end.

(** ** From a workload to a container *)

Definition mount_of (v : api.Volume) : Mount := {|
  mt_Source := api.vol_source v; mt_Destination := api.vol_mount_path v; mt_Type := "bind";
  mt_ReadOnly := api.vol_read_only v; mt_Options := [] |}.

Definition port_of (p : api.Port) : PortMapping := {|
  pm_HostPort := api.host_port p; pm_ContainerPort := api.container_port p;
  pm_Protocol := api.protocol p; pm_HostIP := "" |}.

Definition no_resources : ResourceList :=
  {| rl_CPUMillicores := 0; rl_MemoryBytes := 0; rl_StorageBytes := 0; rl_GPUCount := 0 |}.

Definition resource_list (r : api.ResourceCapacity) : ResourceList := {|
  rl_CPUMillicores := api.CpuMillicores r; rl_MemoryBytes := api.MemoryBytes r;
  rl_StorageBytes := api.StorageBytes r; rl_GPUCount := 0 |}.

Definition resources_of (r : option api.ResourceRequirements) : ResourceRequirements := {|
  rr_Requests := from_option resource_list no_resources (r ≫= api.Requests);
  rr_Limits := from_option resource_list no_resources (r ≫= api.Limits) |}.

Definition restart_name (policy : Z) : string :=
  if policy =? 0 then "always" else if policy =? 2 then "no" else "on-failure".

Definition restart_of (p : option api.RestartPolicy) : RestartPolicy :=
  match p with
  | None => {| rp_Name := "on-failure"; rp_MaximumRetryCount := 3 |}
  | Some p => {| rp_Name := restart_name (api.restart_policy p);
                 rp_MaximumRetryCount := api.max_retries p |}
  end.

Definition container_id (workloadID fragmentID : string) : string :=
  if negb (workloadID =?s "") then workloadID +:+ "-" +:+ fragmentID else fragmentID.

Definition container_name (workload : api.Workload) (fragmentID : string) : string :=
  api.namespace workload +:+ "-" +:+ api.name workload +:+ "-" +:+ fragmentID.

Definition workload_labels (workload : api.Workload) (fragmentID : string) : gmap string string :=
  <["workload.id" := api.id workload]> (<["workload.name" := api.name workload]>
  (<["workload.namespace" := api.namespace workload]> {["fragment.id" := fragmentID]})).

(** The security context and the secrets of the specification are not passed
    on. *)
Definition container_spec (workload : api.Workload) (spec : api.WorkloadSpec) (fragmentID : string)
    : ContainerSpec := {|
  cs_ID := container_id (api.id workload) fragmentID; cs_Image := api.image spec;
  cs_Name := container_name workload fragmentID; cs_Command := api.command spec;
  cs_Args := api.args spec; cs_Env := api.env spec; cs_WorkingDir := "";
  cs_Labels := workload_labels workload fragmentID;
  cs_Annotations := default ∅ (api.annotations workload);
  cs_Resources := resources_of (api.resources spec);
  cs_Network := {| nc_NetworkMode := "bridge"; nc_Hostname := ""; nc_DNS := []; nc_DNSSearch := [];
                   nc_Ports := port_of <$> api.ports spec; nc_BandwidthBPS := 0 |};
  cs_Mounts := mount_of <$> api.volumes spec; cs_RestartPolicy := restart_of (api.restart spec);
  cs_SecurityContext := None |}.

(** *** Requests of the agent's own service *)

Record RunContainerRequest := {
  run_FragmentId : string; run_Workload : option api.Workload; run_ReplicaId : string
}.

Record RunContainerResponse := { rsp_ContainerId : string; rsp_Status : string }.

Record StopContainerRequest := { stop_ContainerId : string; stop_GracePeriod : option Z }.

Record ExecCommandRequest := {
  exec_ContainerId : string; exec_Command : list string; exec_Env : gmap string string; exec_Tty : bool
}.

Record ExecCommandResponse := { xr_ExitCode : Z; xr_Stdout : string; xr_Stderr : string }.

(** The container of a [RunContainer] request, without the security context
    again; [None] is the panic when the resources, the requests, the limits or
    the restart policy are not given. *)
Definition requested_container (workload : api.Workload) (spec : api.WorkloadSpec) (req : RunContainerRequest)
    : option ContainerSpec :=
  resources ← api.resources spec;
  requests ← api.Requests resources;
  limits ← api.Limits resources;
  restart ← api.restart spec;
  Some {|
    cs_ID := api.id workload +:+ "-" +:+ run_FragmentId req; cs_Image := api.image spec;
    cs_Name := container_name workload (run_FragmentId req); cs_Command := api.command spec;
    cs_Args := api.args spec; cs_Env := api.env spec; cs_WorkingDir := "";
    cs_Labels := <["replica.id" := run_ReplicaId req]> (workload_labels workload (run_FragmentId req));
    cs_Annotations := default ∅ (api.annotations workload);
    cs_Resources := {| rr_Requests := resource_list requests; rr_Limits := resource_list limits |};
    cs_Network := {| nc_NetworkMode := "bridge"; nc_Hostname := ""; nc_DNS := []; nc_DNSSearch := [];
                     nc_Ports := port_of <$> api.ports spec; nc_BandwidthBPS := 0 |};
    cs_Mounts := mount_of <$> api.volumes spec;
    cs_RestartPolicy := {| rp_Name := restart_name (api.restart_policy restart);
                           rp_MaximumRetryCount := api.max_retries restart |};
    cs_SecurityContext := None |}.

Section agent.
Context `{GoRange} (h : Host).

(** ** Assignments *)

(** What [runWorkload] does for the probes of a started container; errors are
    only logged. *)
Definition start_probes (spec : api.WorkloadSpec) (id : string) : Prog Act unit :=
  let! enabled := read (fun a => cfg_EnableHealthProbes (ag_config a)) in
  if enabled && (bool_decide (is_Some (api.liveness_probe spec)) ||
                 bool_decide (is_Some (api.readiness_probe spec))) then
    let! ip := on_runtime (GetContainerIP id) in
    match ip with
    | Err _ => Ret tt
    | Ok ip =>
        match extractProbeConfigs spec ip with
        | Err _ => Ret tt
        | Ok (live, ready) =>
            let! _ := change (fun a => a <| ag_probing := app (ag_probing a) [{|
              pb_ContainerID := id; pb_ContainerIP := ip; pb_Liveness := live; pb_Readiness := ready |}] |>) in
            change (fun a => a <| ag_health := RegisterContainer id live ready <$> ag_health a |>)
        end
    end
  else Ret tt.

Definition runWorkload (workload : api.Workload) (fragmentID : string) : Prog Act (result string unit) :=
  match api.spec workload with
  | None => Ret (Err "workload spec is required")
  | Some spec =>
      let! _ := on_runtime (PullImage (api.image spec)) else "failed to pull image: " in
      let! container := on_runtime (CreateContainer h (container_spec workload spec fragmentID))
        else "failed to create container: " in
      let! _ := on_runtime (StartContainer (ct_ID container)) else "failed to start container: " in
      let! _ := start_probes spec (ct_ID container) in
      Ret (Ok tt)
  end.

Definition of_fragment (workloadID fragmentID : string) (c : Container) : bool :=
  (default "" (ct_Labels c !! "workload.id") =?s workloadID) &&
  (default "" (ct_Labels c !! "fragment.id") =?s fragmentID).

(** The containers are searched for the labels; an empty identifier is taken
    for none being found. *)
Definition stopWorkload (workload : api.Workload) (fragmentID : string) : Prog Act (result string unit) :=
  let! containers := on_runtime ListContainers else "failed to list containers: " in
  let id := from_option ct_ID "" (List.find (of_fragment (api.id workload) fragmentID) containers) in
  if id =?s "" then Ret (Ok tt)
  else
    let! _ := change (fun a => a <| ag_health := UnregisterContainer id <$> ag_health a |>) in
    let! _ := change (fun a => a <| ag_probes := ClearProbeResults id (ag_probes a) |>) in
    let! _ := on_runtime (StopContainer id (30 * second)) else "failed to stop container: " in
    let! _ := on_runtime (DeleteContainer id) in
    Ret (Ok tt).

Definition updateWorkload (workload : api.Workload) (fragmentID : string) : Prog Act (result string unit) :=
  let! _ := stopWorkload workload fragmentID in runWorkload workload fragmentID.

Definition ignore {A} (p : Prog Act A) : Prog Act unit := let! _ := p in Ret tt.

Definition handleWorkloadAssignment (a : msg.WorkloadAssignment) : Prog Act unit :=
  let workload := msg.wa_Workload a in
  match api.spec workload with
  | None => Ret tt
  | Some _ =>
      if msg.wa_Action a =?s "run" then ignore (runWorkload workload (msg.wa_FragmentId a))
      else if msg.wa_Action a =?s "update" then ignore (updateWorkload workload (msg.wa_FragmentId a))
      else if msg.wa_Action a =?s "stop" then ignore (stopWorkload workload (msg.wa_FragmentId a))
      else Ret tt
  end.

(** ** Heartbeats *)

(** A stop command and then a deletion, which only happens after it. *)
Definition stop_and_delete (id : string) : Prog Act unit :=
  let! stopped := on_runtime (StopContainer id (30 * second)) in
  match stopped with
  | Err _ => Ret tt
  | Ok _ => ignore (on_runtime (DeleteContainer id))
  end.

(** The goroutines of one response: every entry of [ContainersToStop] is taken
    for the identifier of a container. *)
Definition processHeartbeatResponse (resp : msg.HeartbeatResponse) : list (Prog Act unit) :=
  (handleWorkloadAssignment <$> msg.hr_Assignments resp) ++ (stop_and_delete <$> msg.hr_ContainersToStop resp).

Definition capacity_report (c : ResourceMonitor.ResourceCapacity) : msg.ResourceCapacity := {|
  msg.CpuMillicores := cap_CPUMillicores c; msg.MemoryBytes := cap_MemoryBytes c;
  msg.StorageBytes := cap_StorageBytes c; msg.BandwidthBps := cap_BandwidthBPS c;
  msg.GpuCount := int32 (cap_GPUCount c) |}.

Definition usage_report (u : ResourceMonitor.ResourceUsage) : msg.ResourceUsage := {|
  msg.u_CpuMillicores := use_CPUMillicores u; msg.u_MemoryBytes := use_MemoryBytes u;
  msg.u_StorageBytes := use_StorageBytes u; msg.u_BandwidthBps := use_BandwidthBPS u;
  msg.u_GpuCount := use_GPU u |}.

Definition container_report (c : Container) : msg.ContainerStatus :=
  {| msg.cs_ContainerId := ct_ID c; msg.cs_State := ct_State c |}.

(** A list as the coordinator receives it: the encoding does not tell an empty
    list from none. *)
Definition received {A} (l : list A) : option (list A) := match l with [] => None | _ => Some l end.

(** The request of [sendHeartbeat]; the IOPS class and the images are not read
    by the coordinator. *)
Definition heartbeat_request : Prog Act msg.HeartbeatRequest :=
  let! m := read ag_monitor in
  let! containers := on_runtime ListContainers in
  let statuses := match containers with Err _ => [] | Ok l => container_report <$> l end in
  let! health := read (fun a => collectContainerHealth (ag_containerHealth a)) in
  let! nodeID := read (fun a => cfg_NodeID (ag_config a)) in
  Ret {| msg.hb_NodeId := nodeID;
         msg.hb_Capacity := Some (capacity_report (GetCapacity m));
         msg.hb_Usage := Some (usage_report (GetUsage m));
         msg.hb_Fragments := None; msg.hb_Containers := received statuses;
         msg.hb_ContainerHealth := health |}.

(** What it does with the answer. *)
Definition heartbeat_reply (r : result string msg.HeartbeatResponse)
    : list (Prog Act unit) * option string :=
  match r with
  | Err err => ([], Some ("heartbeat RPC failed: " +:+ err))
  | Ok resp => (processHeartbeatResponse resp, None)
  end.

(** ** Commands *)

(** No code calls it. *)
Definition handleCommand (command : string) : Prog Act unit :=
  match split_first ":" command with
  | (_, None) => Ret tt
  | (action, Some parameter) =>
      if action =?s "stop" then stop_and_delete parameter
      else if action =?s "drain" then
        let! _ := change (fun a => a <| ag_draining := true |>) in
        if parameter =?s "graceful" then Ret tt
        else
          let! l := on_runtime ListContainers in
          match l with
          | Err _ => Ret tt
          | Ok l => each (fun c => ignore (on_runtime (StopContainer (ct_ID c) (30 * second)))) l
          end
      else Ret tt
  end.

(** ** The service of the agent (pkg/agent/grpc_handlers.go) *)

Definition running_response (id : string) : RunContainerResponse := {| rsp_ContainerId := id; rsp_Status := "running" |}.

(** An image that cannot be pulled is left to [CreateContainer]; a container that
    does not start is deleted again. *)
Definition HandleRunContainer (req : RunContainerRequest) : Prog Act (option (result string RunContainerResponse)) :=
  match run_Workload req with
  | None => Ret (Some (Err "workload is required"))
  | Some workload =>
      match api.spec workload with
      | None => Ret (Some (Err "workload spec is required"))
      | Some spec =>
          let! _ := on_runtime (PullImage (api.image spec)) in
          match requested_container workload spec req with
          | None => Ret None
          | Some container =>
              let! container := on_runtime (CreateContainer h container) in
              match container with
              | Err err => Ret (Some (Err ("failed to create container: " +:+ err)))
              | Ok container =>
                  let! started := on_runtime (StartContainer (ct_ID container)) in
                  match started with
                  | Err err =>
                      let! _ := on_runtime (DeleteContainer (ct_ID container)) in
                      Ret (Some (Err ("failed to start container: " +:+ err)))
                  | Ok _ => Ret (Some (Ok (running_response (ct_ID container))))
                  end
              end
          end
      end
  end.

Definition HandleStopContainer (req : StopContainerRequest) : Prog Act (result string unit) :=
  let! _ := on_runtime (StopContainer (stop_ContainerId req) (default (30 * second) (stop_GracePeriod req)))
    else "failed to stop container: " in
  Ret (Ok tt).

Definition HandleExecCommand (req : ExecCommandRequest) : Prog Act (result string ExecCommandResponse) :=
  let config := {| ec_Command := exec_Command req; ec_Env := env_var <$> range_map (exec_Env req);
                   ec_Tty := exec_Tty req; ec_Stdin := false; ec_Stdout := true; ec_Stderr := true |} in
  let! result := on_runtime (ExecContainer (exec_ContainerId req) config) else "failed to execute command: " in
  Ret (Ok {| xr_ExitCode := int32 (er_ExitCode result); xr_Stdout := er_Stdout result;
             xr_Stderr := er_Stderr result |}).

(** ** Enrollment *)

(** The request, and what the answer changes of the configuration; the storing
    of the certificates is left out. *)
Definition enroll_request (c : Config) : msg.EnrollNodeRequest := {|
  msg.en_Token := cfg_JoinToken c; msg.en_NodeName := cfg_NodeName c; msg.en_Region := cfg_Region c;
  msg.en_Zone := cfg_Zone c;
  msg.en_Capabilities := Some {|
    Node.ncap_ContainerRuntimes := ["containerd"]; Node.ncap_SupportsGPU := 0 <? ar_GPU (cfg_Resources c);
    Node.ncap_SupportsARM := false; Node.ncap_SupportsX86 := true;
    Node.ncap_NetworkFeatures := ["quic"; "udp"; "tcp"]; Node.ncap_StorageClasses := ["local"; "ephemeral"] |};
  msg.en_Capacity := Some {|
    msg.CpuMillicores := ar_CPUMillicores (cfg_Resources c); msg.MemoryBytes := ar_MemoryBytes (cfg_Resources c);
    msg.StorageBytes := ar_StorageBytes (cfg_Resources c); msg.BandwidthBps := ar_BandwidthBps (cfg_Resources c);
    msg.GpuCount := ar_GPU (cfg_Resources c) |};
  msg.en_Labels := ∅ |}.

Definition enrolled (resp : msg.EnrollNodeResponse) (c : Config) : Config :=
  (c <| cfg_NodeID := msg.er_NodeId resp |>)
    <| cfg_HeartbeatInterval := msg.er_HeartbeatInterval resp |>.

End agent.
