(* ===== verification/AgentSpec.v ===== *)
(** * What the agent does to the containers of its node

    A container that an assignment does not name is never changed by its
    handling, whatever fails and whatever runs at the same time; and the
    workloads that a node is told to run are running when their goroutines have
    ended, if containerd works. *)

From S2P Require Import Prelude GoText GoFloat GoFiles PolicyAdmission Membership Probes HealthMonitor Goroutines ContainerSecurity ContainerRuntime ContainerRuntimeSpec ResourceMonitor Agent.

(** The node's containerd and its agent answer a call. *)
Definition agent_call {W} `{Containerd W} (X : Type) (c : Act X) (s : W * Agent) : X * (W * Agent) :=
  match c in Act Y return Y * (W * Agent) with
  | OnRuntime c => let '(x, w) := cd c s.1 in (x, (w, s.2))
  | Local f => let '(x, a) := f s.2 in (x, (s.1, a))
  end.

Section agent.
Context {W : Type} `{ContainerdLaws W} `{GoRange} (h : Host).

Abbreviation State := (W * Agent)%type.

(** The relations of the theorems are about containerd only. *)
Definition of_runtime (R : W → W → Prop) (s s' : State) : Prop := R s.1 s'.1.

#[local] Instance of_runtime_preorder R : PreOrder R → PreOrder (of_runtime R).
Proof.
  intros [Hr Ht]. split; [by intros [? ?]; apply Hr|]. intros s1 s2 s3. apply Ht.
Qed.

Lemma rg_runtime {A} (R G : W → W → Prop) (p : Prog Cd A) (Q : A → W → Prop) s :
  rg (@cd W _) R G p Q s.1 →
  rg agent_call (of_runtime R) (of_runtime G) (on_runtime p) (fun x s' => Q x s'.1) s.
Proof.
  revert s. induction p as [a|X c k IH]; intros s; simpl; intros Hp s' Hs; [by apply Hp|].
  destruct (Hp _ Hs) as [Hg Hk]. destruct (cd c s'.1) as [x w] eqn:E. simpl in *. split; [done|].
  by apply (IH x (w, s'.2)).
Qed.

Section with_relations.
Context (R G : W → W → Prop) `{!PreOrder R, !PreOrder G}.

Lemma a_bind {A B} (p : Prog Act A) (f : A → Prog Act B) Q s :
  rg (@agent_call W _) (of_runtime R) (of_runtime G) p
    (fun a s' => rg agent_call (of_runtime R) (of_runtime G) (f a) Q s') s →
  rg agent_call (of_runtime R) (of_runtime G) (bind p f) Q s.
Proof. exact (rg_bind _ (of_runtime R) (of_runtime G) p f Q s). Qed.

Lemma a_attempt {A B} msg (p : Prog Act (result string A)) (f : A → Prog Act (result string B)) Q s :
  rg (@agent_call W _) (of_runtime R) (of_runtime G) p
    (fun r s' => match r with
                 | Ok a => rg agent_call (of_runtime R) (of_runtime G) (f a) Q s'
                 | Err err => ∀ s'', of_runtime R s' s'' → Q (Err (msg +:+ err)) s''
                 end) s →
  rg agent_call (of_runtime R) (of_runtime G) (attempt msg p f) Q s.
Proof. exact (rg_attempt _ (of_runtime R) (of_runtime G) msg p f Q s). Qed.

Lemma a_mono {A} (p : Prog Act A) (Q Q' : A → State → Prop) s :
  rg (@agent_call W _) (of_runtime R) (of_runtime G) p Q s → (∀ a s', Q a s' → Q' a s') →
  rg agent_call (of_runtime R) (of_runtime G) p Q' s.
Proof. intros Hp HQ. exact (rg_mono _ (of_runtime R) (of_runtime G) p Q Q' s HQ Hp). Qed.

Lemma a_local {X} (f : Agent → X * Agent) (Q : X → State → Prop) s :
  (∀ x s', R s.1 s'.1 → Q x s') →
  rg (@agent_call W _) (of_runtime R) (of_runtime G) (call (Local f)) Q s.
Proof.
  intros HQ. apply rg_call. intros s' Hs. cbn. destruct (f s'.2) as [x a]. split; [unfold of_runtime; reflexivity|].
  intros s'' Hs'. apply HQ. unfold of_runtime in *. cbn in *. by transitivity s'.1.
Qed.

Lemma a_ignore {A} (p : Prog Act A) (Q : unit → State → Prop) s :
  rg (@agent_call W _) (of_runtime R) (of_runtime G) p (fun _ s' => ∀ s'', R s'.1 s''.1 → Q tt s'') s →
  rg agent_call (of_runtime R) (of_runtime G) (ignore p) Q s.
Proof. intros Hp. apply a_bind. exact Hp. Qed.

End with_relations.

(** ** A container that is left alone *)

Section spared.
Context (id : string) (v : ContainerView).

Definition kept (w : W) : Prop := cd_view w !! id = Some v.

Abbreviation stays := (keeps kept).
Abbreviation spared p Q s := (rg (@agent_call W _) (of_runtime stays) (of_runtime stays) p Q s).
Abbreviation unchanged p Q w := (rg (@cd W _) stays stays p Q w).

Lemma kept_bind {A B} (p : Prog Cd A) (f : A → Prog Cd B) Q w :
  unchanged p (fun a w' => unchanged (f a) Q w') w → unchanged (bind p f) Q w.
Proof. exact (rg_bind _ stays stays p f Q w). Qed.

Lemma kept_attempt {A B} msg (p : Prog Cd (result string A)) (f : A → Prog Cd (result string B)) Q w :
  unchanged p (fun r w' => match r with
                           | Ok a => unchanged (f a) Q w'
                           | Err err => ∀ w'', stays w' w'' → Q (Err (msg +:+ err)) w''
                           end) w →
  unchanged (attempt msg p f) Q w.
Proof. exact (rg_attempt _ stays stays msg p f Q w). Qed.

Lemma kept_call {X} (c : Cd X) (Q : X → W → Prop) w :
  kept w → changes c ≠ Some id →
  (∀ w' w'', kept w' → kept w'' → Q (cd c w').1 w'') → unchanged (call c) Q w.
Proof.
  intros Hw Hc HQ. apply rg_call. intros w' Hs. pose proof (Hs Hw) as Hw'.
  assert (kept (cd c w').2) as Hc' by (unfold kept in *; by rewrite cd_frame). split; [by intros _|].
  intros w'' Hs'. apply HQ; auto.
Qed.

Lemma kept_spares {A} (p : Prog Cd A) w : kept w → spares id p → unchanged p (fun _ => kept) w.
Proof.
  revert w. induction p as [a|X c k IH]; intros w Hw; simpl; [by intros _ w' Hs; apply Hs|].
  intros [Hc Hk] w' Hs. assert (kept (cd c w').2) as Hc'.
  { unfold kept in *. rewrite cd_frame by done. by apply Hs. }
  split; [by intros _|auto].
Qed.

Lemma containerToInfo_kept j w :
  kept w → unchanged (containerToInfo j)
    (fun r w' => kept w' ∧ ∀ c, r = Ok c → ct_ID c = j ∧ (j = id → ct_Labels c = cv_labels v)) w.
Proof.
  intros Hw. apply kept_attempt, kept_call; [done..|]. intros w1 w2 H1w H2w.
  destruct (cd (Info j) w1).1 as [i|e] eqn:Ei; [|by intros w3 Hs; split; [by apply Hs|]].
  apply cd_info in Ei as (Hi & v' & Hv & _ & Hl).
  assert (j = id → in_Labels i = cv_labels v) as Hlab.
  { intros ->. unfold kept in H1w. rewrite H1w in Hv. by injection Hv as <-. }
  apply kept_bind, kept_call; [done..|]. intros w3 w4 _ H4w. destruct (cd (Task j) w3).1.
  - apply kept_bind, kept_call; [done..|]. intros w5 w6 _ H6w w7 Hs. split; [by apply Hs|]. intros c.
    by destruct (cd (Status j) w5).1; intros [= <-].
  - intros w5 Hs. split; [by apply Hs|]. by intros c [= <-].
Qed.

(** A listed container with the identifier has its labels. *)
Definition known (l : list Container) : Prop :=
  ∀ c, c ∈ l → ct_ID c = id → ct_Labels c = cv_labels v.

Lemma describe_all_kept ids acc w :
  known acc → kept w → unchanged (describe_all ids acc) (fun l w' => kept w' ∧ known l) w.
Proof.
  revert acc w. induction ids as [|j ids IH]; intros acc w Hacc Hw; cbn [describe_all].
  - intros w1 Hs. split; [by apply Hs|done].
  - apply kept_bind. eapply rg_mono; [|by apply containerToInfo_kept]. intros r w' [Hw' Hr].
    apply IH; [|done]. destruct r as [c|]; [|done]. destruct (Hr c eq_refl) as [Hj Hl].
    intros c' [Hc'|Hc'%list_elem_of_singleton]%elem_of_app Hid; [by apply Hacc|]. subst c'.
    apply Hl. congruence.
Qed.

Lemma ListContainers_kept w :
  kept w → unchanged ListContainers
    (fun r w' => kept w' ∧ match r with Ok l => known l | Err _ => True end) w.
Proof.
  intros Hw. apply kept_attempt, kept_call; [done..|]. intros w1 w2 _ H2w.
  destruct (cd Containers w1).1 as [ids|e]; [|by intros w3 Hs; split; [by apply Hs|]]. apply kept_bind.
  eapply rg_mono; [|apply describe_all_kept; [by intros c ?%elem_of_nil|done]].
  intros l w3 [H3w Hl] w4 Hs. split; [by apply Hs|done].
Qed.

(** Creating a container cannot give one that exists. *)
Lemma CreateContainer_kept spec w :
  kept w → unchanged (CreateContainer h spec) (fun r w' => kept w' ∧ ∀ c, r = Ok c → ct_ID c ≠ id) w.
Proof.
  intros Hw. apply kept_attempt. eapply rg_mono; [|apply kept_spares; [done|apply ensure_image_spares]].
  intros [[]|e] w1 H1w; [|by intros w2 Hs; split; [by apply Hs|]].
  destruct (runtime_handler (runtime_class spec)) as [handler|e]; [|by intros w2 Hs; split; [by apply Hs|]].
  apply kept_attempt. set (req := new_container h spec handler).
  destruct (decide (cs_ID spec = id)) as [Hid|Hid].
  - apply rg_call. intros w2 Hs. pose proof (Hs H1w) as H2w. pose proof (cd_new req w2) as He.
    cbn [nw_ID req new_container] in He. rewrite Hid in He. unfold kept in H2w. rewrite H2w in He.
    destruct (cd (NewContainer req) w2).1; [by destruct He|]. cbn in He.
    split; [by intros _|]. intros w3 Hs3 w4 Hs4. split; [by apply Hs4, Hs3|done].
  - apply kept_call; [done|by intros [=]|]. intros w2 w3 _ H3w.
    destruct (cd (NewContainer req) w2).1; [|by intros w4 Hs; split; [by apply Hs|]].
    eapply rg_mono; [|by apply containerToInfo_kept]. intros r w4 [H4w Hr]. split; [done|].
    intros c ->. by destruct (Hr c eq_refl) as [-> _].
Qed.

(** *** The agent's handlers *)

Definition kept_by (s : State) : Prop := kept s.1.

Lemma on_spared {A} (p : Prog Cd A) (Q : A → W → Prop) (Q' : A → State → Prop) s :
  unchanged p Q s.1 → (∀ x s', Q x s'.1 → Q' x s') → spared (on_runtime p) Q' s.
Proof. intros Hp HQ. apply (a_mono stays stays _ (fun x s' => Q x s'.1)); [by apply rg_runtime|done]. Qed.

Lemma on_spares {A} (p : Prog Cd A) s :
  kept_by s → spares id p → spared (on_runtime p) (fun _ => kept_by) s.
Proof. intros Hs Hp. by apply (on_spared _ (fun _ => kept)); [apply kept_spares|]. Qed.

Lemma start_probes_kept spec j s : kept_by s → spared (start_probes spec j) (fun _ => kept_by) s.
Proof.
  intros Hs. apply (a_bind stays stays), (a_local stays stays). intros enabled s1 H1s.
  assert (kept_by s1) as Hs1 by by apply H1s. clear - Hs1. destruct (_ && _); [|intros s2 Hs; by apply Hs].
  apply (a_bind stays stays). eapply (a_mono stays stays); [apply on_spares; [done|apply GetContainerIP_spares]|].
  intros [ip|e] s2 Hs2; [|intros s3 Hs; by apply Hs].
  destruct (extractProbeConfigs spec ip) as [[live ready]|e]; [|intros s3 Hs; by apply Hs].
  apply (a_bind stays stays), (a_local stays stays). intros ? s3 H3s.
  apply (a_local stays stays). intros ? s4 H4s. by apply H4s, H3s.
Qed.

Lemma runWorkload_kept w f s : kept_by s → spared (runWorkload h w f) (fun _ => kept_by) s.
Proof.
  intros Hs. unfold runWorkload. destruct (api.spec w) as [spec|]; [|intros s1 Hs1; by apply Hs1].
  apply (a_attempt stays stays). eapply (a_mono stays stays); [apply on_spares; [done|apply PullImage_spares]|].
  intros [[]|e] s1 Hs1; [|intros s2 Hs2; by apply Hs2].
  apply (a_attempt stays stays). eapply (on_spared _ (fun r w' => kept w' ∧ ∀ c, r = Ok c → ct_ID c ≠ id));
    [by apply CreateContainer_kept|].
  intros [c|e] s2 [Hs2 Hc]; [|intros s3 Hs3; by apply Hs3].
  apply (a_attempt stays stays). eapply (a_mono stays stays);
    [apply on_spares; [done|apply StartContainer_spares, Hc, eq_refl]|].
  intros [[]|e] s3 Hs3; [|intros s4 Hs4; by apply Hs4].
  apply (a_bind stays stays). eapply (a_mono stays stays); [by apply start_probes_kept|].
  intros ? s4 Hs4 s5 Hs5. by apply Hs5.
Qed.

(** The labels by which the agent finds the container of a replica. *)
Definition belongs (w f : string) (labels : gmap string string) : bool :=
  (default EmptyString (labels !! "workload.id"%string) =?s w) &&
  (default EmptyString (labels !! "fragment.id"%string) =?s f).

Lemma stopWorkload_kept w f s :
  belongs (api.id w) f (cv_labels v) = false → kept_by s →
  spared (stopWorkload w f) (fun _ => kept_by) s.
Proof.
  intros Hb Hs. apply (a_attempt stays stays). eapply on_spared; [by apply ListContainers_kept|].
  intros [l|e] s1 [Hs1 Hl]; [|intros s2 Hs2; by apply Hs2].
  destruct (List.find (of_fragment (api.id w) f) l) as [c|] eqn:Ef; cbn [from_option];
    [|rewrite bool_decide_eq_true_2 by done; intros s2 Hs2; by apply Hs2].
  destruct (bool_decide _); [intros s2 Hs2; by apply Hs2|].
  assert (ct_ID c ≠ id) as Hc.
  { intros Hid. apply List.find_some in Ef as [Hin Hf]. apply list_elem_of_In in Hin.
    unfold of_fragment in Hf. rewrite (Hl c Hin Hid) in Hf. unfold belongs in Hb. congruence. }
  apply (a_bind stays stays), (a_local stays stays). intros ? s2 H2s.
  apply (a_bind stays stays), (a_local stays stays). intros ? s3 H3s.
  assert (kept_by s3) as Hs3 by by apply H3s, H2s. apply (a_attempt stays stays).
  eapply (a_mono stays stays); [apply on_spares; [done|by apply StopContainer_spares]|].
  intros [[]|e] s4 Hs4; [|intros s5 Hs5; by apply Hs5]. apply (a_bind stays stays).
  eapply (a_mono stays stays); [apply on_spares; [done|by apply DeleteContainer_spares]|].
  intros ? s5 Hs5 s6 Hs6. by apply Hs6.
Qed.

Lemma stop_and_delete_kept j s : j ≠ id → kept_by s → spared (stop_and_delete j) (fun _ => kept_by) s.
Proof.
  intros Hj Hs. apply (a_bind stays stays).
  eapply (a_mono stays stays); [apply on_spares; [done|by apply StopContainer_spares]|].
  intros [[]|e] s1 Hs1; [|intros s2 Hs2; by apply Hs2]. apply (a_ignore stays stays).
  eapply (a_mono stays stays); [apply on_spares; [done|by apply DeleteContainer_spares]|].
  intros ? s2 Hs2 s3 Hs3. by apply Hs3.
Qed.

(** *** The service of the agent *)

Lemma run_container_kept req s : kept_by s → spared (HandleRunContainer h req) (fun _ => kept_by) s.
Proof.
  intros Hs. unfold HandleRunContainer.
  destruct (run_Workload req) as [w|]; [|intros s1 Hs1; by apply Hs1].
  destruct (api.spec w) as [spec|]; [|intros s1 Hs1; by apply Hs1]. apply (a_bind stays stays).
  eapply (a_mono stays stays); [apply on_spares; [done|apply PullImage_spares]|]. intros ? s1 Hs1.
  destruct (requested_container w spec req) as [cs|]; [|intros s2 Hs2; by apply Hs2]. apply (a_bind stays stays).
  eapply (on_spared _ (fun r w' => kept w' ∧ ∀ c, r = Ok c → ct_ID c ≠ id)); [by apply CreateContainer_kept|].
  intros [c|e] s2 [Hs2 Hc]; [|intros s3 Hs3; by apply Hs3]. apply (a_bind stays stays).
  eapply (a_mono stays stays); [apply on_spares; [done|apply StartContainer_spares, Hc, eq_refl]|].
  intros [[]|e] s3 Hs3; [intros s4 Hs4; by apply Hs4|]. apply (a_bind stays stays).
  eapply (a_mono stays stays); [apply on_spares; [done|apply DeleteContainer_spares, Hc, eq_refl]|].
  intros ? s4 Hs4 s5 Hs5. by apply Hs5.
Qed.

Lemma stop_container_kept req s :
  stop_ContainerId req ≠ id → kept_by s → spared (HandleStopContainer req) (fun _ => kept_by) s.
Proof.
  intros Hi Hs. apply (a_attempt stays stays).
  eapply (a_mono stays stays); [apply on_spares; [done|by apply StopContainer_spares]|].
  by intros [[]|e] s1 Hs1 s2 Hs2; apply Hs2.
Qed.

Lemma exec_command_kept req s : kept_by s → spared (HandleExecCommand req) (fun _ => kept_by) s.
Proof.
  intros Hs. apply (a_attempt stays stays).
  eapply (a_mono stays stays); [apply on_spares; [done|apply ExecContainer_spares]|].
  by intros [r|e] s1 Hs1 s2 Hs2; apply Hs2.
Qed.

(** The assignments that can change a container with labels [labels]. *)
Definition concerns (a : msg.WorkloadAssignment) (labels : gmap string string) : bool :=
  bool_decide (is_Some (api.spec (msg.wa_Workload a))) &&
  ((msg.wa_Action a =?s "update") || (msg.wa_Action a =?s "stop")) &&
  belongs (api.id (msg.wa_Workload a)) (msg.wa_FragmentId a) labels.

Lemma assignment_kept a s :
  concerns a (cv_labels v) = false → kept_by s →
  spared (handleWorkloadAssignment h a) (fun _ => kept_by) s.
Proof.
  intros Hc Hs. unfold handleWorkloadAssignment, concerns in *.
  destruct (api.spec (msg.wa_Workload a)) as [spec|] eqn:Es; [|intros s1 Hs1; by apply Hs1].
  rewrite bool_decide_eq_true_2 in Hc by eauto.
  destruct (bool_decide (msg.wa_Action a = "run"%string)).
  { apply (a_ignore stays stays). eapply (a_mono stays stays); [by apply runWorkload_kept|].
    intros ? s1 Hs1 s2 Hs2. by apply Hs2. }
  destruct (bool_decide (msg.wa_Action a = "update"%string)).
  { apply (a_ignore stays stays), (a_bind stays stays).
    eapply (a_mono stays stays); [by apply stopWorkload_kept|]. intros ? s1 Hs1.
    eapply (a_mono stays stays); [by apply runWorkload_kept|]. intros ? s2 Hs2 s3 Hs3. by apply Hs3. }
  destruct (bool_decide (msg.wa_Action a = "stop"%string)).
  { apply (a_ignore stays stays). eapply (a_mono stays stays); [by apply stopWorkload_kept|].
    intros ? s1 Hs1 s2 Hs2. by apply Hs2. }
  intros s1 Hs1. by apply Hs1.
Qed.

End spared.

(** Requests of the agent's service, as goroutines. *)
Inductive Rpc : Type :=
| RunRpc (req : RunContainerRequest)
| StopRpc (req : StopContainerRequest)
| ExecRpc (req : ExecCommandRequest).

Definition serve (r : Rpc) : Prog Act unit :=
  match r with
  | RunRpc req => ignore (HandleRunContainer h req)
  | StopRpc req => ignore (HandleStopContainer req)
  | ExecRpc req => ignore (HandleExecCommand req)
  end.

Definition stopped_by (r : Rpc) : option string :=
  match r with StopRpc req => Some (stop_ContainerId req) | _ => None end.

Lemma serve_kept id v r s :
  stopped_by r ≠ Some id → cd_view s.1 !! id = Some v →
  rg agent_call (of_runtime (keeps (kept id v))) (of_runtime (keeps (kept id v))) (serve r) (fun _ => kept_by id v) s.
Proof.
  intros Hr Hs. pose (stays := keeps (kept id v)). destruct r as [req|req|req]; apply (a_ignore stays stays).
  - eapply (a_mono stays stays); [by apply run_container_kept|]. intros ? s1 Hs1 s2 Hs2. by apply Hs2.
  - eapply (a_mono stays stays); [apply stop_container_kept; [by intros Hi; apply Hr; cbn; rewrite Hi|done]|].
    intros ? s1 Hs1 s2 Hs2. by apply Hs2.
  - eapply (a_mono stays stays); [by apply exec_command_kept|]. intros ? s1 Hs1 s2 Hs2. by apply Hs2.
Qed.

Lemma node_keeps resp rpcs id v s l' s' :
  cd_view s.1 !! id = Some v →
  Forall (fun a => concerns a (cv_labels v) = false) (msg.hr_Assignments resp) →
  id ∉ msg.hr_ContainersToStop resp → Forall (fun r => stopped_by r ≠ Some id) rpcs →
  interleave agent_call (processHeartbeatResponse h resp ++ (serve <$> rpcs), s) (l', s') →
  cd_view s'.1 !! id = Some v.
Proof.
  intros Hv Ha Hc Hr Hx. apply (interleave_invariant _ (kept_by id v) _ _ _ _) in Hx; [exact Hx| |exact Hv].
  pose (stays := keeps (kept id v)).
  unfold processHeartbeatResponse. rewrite !Forall_app, !Forall_fmap. split_and!.
  - eapply Forall_impl; [exact Ha|]. intros a Haa. eapply (a_mono stays stays); [by apply assignment_kept|done].
  - apply Forall_forall. intros j Hj. eapply (a_mono stays stays); [apply stop_and_delete_kept; [congruence|done]|done].
  - eapply Forall_impl; [exact Hr|]. intros r Hrr. eapply (a_mono stays stays); [by apply serve_kept|done].
Qed.

Lemma interleaving_keeps resp id v s l' s' :
  cd_view s.1 !! id = Some v →
  Forall (fun a => concerns a (cv_labels v) = false) (msg.hr_Assignments resp) →
  id ∉ msg.hr_ContainersToStop resp →
  interleave agent_call (processHeartbeatResponse h resp, s) (l', s') →
  cd_view s'.1 !! id = Some v.
Proof.
  intros Hv Ha Hc Hx. refine (node_keeps resp [] id v s l' s' Hv Ha Hc (List.Forall_nil _) _). by rewrite app_nil_r.
Qed.

(** C36: a container of the node that a heartbeat's response does not concern is as it
    was, the request it was made with, its labels and whether it was started,
    after any number of steps of the goroutines that handle the response and of
    the requests that the agent's own service handles at the same time, in any
    interleaving, whatever of them fails: a container is only ever stopped or
    replaced by a stop or an update of its own workload and fragment, or by a
    command or a request to stop that names it, and never by running a workload,
    even one whose container would have its identifier, nor by the removal of
    what could not be started. *)
Theorem response_isolated resp rpcs id v s l' s' :
  cd_view s.1 !! id = Some v →
  Forall (fun a => concerns a (cv_labels v) = false) (msg.hr_Assignments resp) →
  id ∉ msg.hr_ContainersToStop resp → Forall (fun r => stopped_by r ≠ Some id) rpcs →
  interleave agent_call (processHeartbeatResponse h resp ++ (serve <$> rpcs), s) (l', s') →
  cd_view s'.1 !! id = Some v.
Proof. apply node_keeps. Qed.

End agent.

(** ** Running the assigned workloads *)

Section started.
Context {W : Type} `{ContainerdUp W, GoRange} (h : Host).

Abbreviation State := (W * Agent)%type.
Abbreviation owned id p Q s := (rg (@agent_call W _) (of_runtime (others id)) (of_runtime (only id)) p Q s).

#[local] Instance only_preorder id : PreOrder (only (W:=W) id).
Proof.
  split; [done|]. intros w1 w2 w3 (Hv & ? & ?) (Hv' & ? & ?). split; [|split; auto].
  intros j Hj. by rewrite Hv', Hv.
Qed.

Lemma only_spares {A} id (p : Prog Cd A) R w :
  (∀ j, j ≠ id → spares j p) → rg (@cd W _) R (only id) p (fun _ _ => True) w.
Proof.
  revert w. induction p as [a|X c k IH]; intros w Hp; simpl; [done|]. intros w' _. split.
  - apply only_call. intros j Hj. destruct (decide (j = id)) as [|Hn]; [done|].
    destruct (Hp j Hn) as [Hc _]. by destruct Hc.
  - apply IH. intros j Hj. apply (Hp j Hj).
Qed.

(** What is not about containers that a program changes. *)
Lemma rg_spares {A} id (p : Prog Cd A) (P : W → Prop) w :
  (∀ w w', others id w w' → P w → P w') → P w → (∀ j, spares j p) →
  rg (@cd W _) (others id) (only id) p (fun _ => P) w.
Proof.
  intros HP. revert w. induction p as [a|X c k IH]; intros w Hw Hp; simpl; [intros w' Hs; by eapply HP|].
  intros w' Hs. assert (others id w' (cd c w').2) as Hc.
  { split; [apply cd_frame, (Hp id)|split; [intros ref; apply image_stays|apply up_stays]]. }
  split.
  - apply only_call. intros j Hj. by destruct (Hp j) as [Hn _].
  - apply IH; [by eapply HP, HP|]. intros j. apply (Hp j).
Qed.

(** The container that running a fragment of a workload gives. *)
Definition ran (a : msg.WorkloadAssignment) (spec : api.WorkloadSpec) (w : W) : Prop :=
  let w0 := msg.wa_Workload a in let f := msg.wa_FragmentId a in
  ∃ v, cd_view w !! container_id (api.id w0) f = Some v ∧ cv_task v = true ∧
    cv_request v = new_container h (container_spec w0 spec f) None ∧
    same_labels (workload_labels w0 f) (cv_labels v).

(** Nothing stands in the way of running it. *)
Definition can_run (a : msg.WorkloadAssignment) (spec : api.WorkloadSpec) (w : W) : Prop :=
  let w0 := msg.wa_Workload a in let f := msg.wa_FragmentId a in
  msg.wa_Action a = "run"%string ∧ api.spec w0 = Some spec ∧
  available (normalizeImageRef (api.image spec)) ∧
  runnable (new_container h (container_spec w0 spec f) None) ∧
  cd_view w !! container_id (api.id w0) f = None.

Lemma ran_others a spec w w' :
  others (container_id (api.id (msg.wa_Workload a)) (msg.wa_FragmentId a)) w w' → ran a spec w → ran a spec w'.
Proof. intros (Hv & _) (v & Hw & ?). exists v. split; [congruence|done]. Qed.

Lemma start_probes_owned id j spec (P : W → Prop) s :
  (∀ w w', others id w w' → P w → P w') → P s.1 →
  owned id (start_probes spec j) (fun _ s' => P s'.1) s.
Proof.
  intros HP Hs. apply (a_bind (others id) (only id)), (a_local (others id) (only id)).
  intros enabled s1 H1s. pose proof (HP _ _ H1s Hs) as Hs1. clear - HP Hs1.
  destruct (_ && _); [|intros s2 Hs; by eapply HP].
  apply (a_bind (others id) (only id)). eapply (a_mono (others id) (only id)).
  { apply rg_runtime, (rg_spares id _ P); [done|done|]. intros k. apply GetContainerIP_spares. }
  intros [ip|e] s2 Hs2; [|intros s3 Hs; by eapply HP].
  destruct (extractProbeConfigs spec ip) as [[live ready]|e]; [|intros s3 Hs; by eapply HP].
  apply (a_bind (others id) (only id)), (a_local (others id) (only id)). intros _ s3 H3s.
  apply (a_local (others id) (only id)). intros _ s4 H4s. eauto.
Qed.

Lemma run_owned a spec s :
  let id := container_id (api.id (msg.wa_Workload a)) (msg.wa_FragmentId a) in
  can_run a spec s.1 → cd_up s.1 →
  owned id (handleWorkloadAssignment h a) (fun _ s' => ran a spec s'.1) s.
Proof.
  intros id (Hact & Hspec & Hav & Hrun & Hfree) Hu. unfold handleWorkloadAssignment.
  rewrite Hspec, Hact, bool_decide_eq_true_2 by done. apply (a_ignore (others id) (only id)).
  unfold runWorkload. rewrite Hspec. apply (a_attempt (others id) (only id)).
  eapply (a_mono (others id) (only id)); [apply rg_runtime, (PullImage_runs id None); [done..]|].
  intros r s1 [-> Hs1]. cbn beta iota. apply (a_attempt (others id) (only id)).
  eapply (a_mono (others id) (only id));
    [apply rg_runtime, (CreateContainer_runs h (container_spec _ spec _)); [done..|exact Hs1]|].
  intros r s2 (c & -> & Hid & Hs2). cbn beta iota. apply (a_attempt (others id) (only id)).
  cbn [cs_ID container_spec] in Hid, Hs2. rewrite Hid.
  eapply (a_mono (others id) (only id));
    [apply rg_runtime, (StartContainer_runs id (fresh (new_container h (container_spec _ spec _) None))
       _ _ eq_refl Hrun Hs2)|].
  intros r s3 (-> & l & Hl & Hs3). cbn beta iota. apply (a_bind (others id) (only id)).
  eapply (a_mono (others id) (only id)); [apply (start_probes_owned id _ _ (ran a spec)); [intros; by eapply ran_others|]|].
  - destruct Hs3 as (_ & Hv & _). eexists. split; [exact Hv|]. done.
  - intros ? s4 Hs4 s5 Hs5 s6 Hs6. eapply ran_others; [exact Hs6|]. by eapply ran_others.
Qed.

Definition anything (w w' : W) : Prop := True.

#[local] Instance anything_preorder : PreOrder anything.
Proof. done. Qed.

Lemma stop_and_delete_only id s :
  rg (@agent_call W _) (of_runtime anything) (of_runtime (only id)) (stop_and_delete id) (fun _ _ => True) s.
Proof.
  apply (a_bind anything (only id)). eapply (a_mono anything (only id)).
  { apply rg_runtime, only_spares. intros j Hj. by apply StopContainer_spares. }
  intros [[]|e] s1 _; [|done]. apply (a_ignore anything (only id)). eapply (a_mono anything (only id)).
  { apply rg_runtime, only_spares. intros j Hj. by apply DeleteContainer_spares. }
  done.
Qed.

Definition target (a : msg.WorkloadAssignment) : string :=
  container_id (api.id (msg.wa_Workload a)) (msg.wa_FragmentId a).

(** The relations of the goroutines of a response. *)
Definition rely_of (resp : msg.HeartbeatResponse) (i : nat) : W → W → Prop :=
  match msg.hr_Assignments resp !! i with Some a => others (target a) | None => anything end.

Definition guarantee_of (resp : msg.HeartbeatResponse) (i : nat) : W → W → Prop :=
  match ((target <$> msg.hr_Assignments resp) ++ msg.hr_ContainersToStop resp) !! i with
  | Some id => only id
  | None => fun _ _ => False
  end.

Lemma guarantees_within resp i j w w' :
  NoDup (target <$> msg.hr_Assignments resp) →
  (∀ a, a ∈ msg.hr_Assignments resp → target a ∉ msg.hr_ContainersToStop resp) →
  i ≠ j → guarantee_of resp i w w' → rely_of resp j w w'.
Proof.
  intros Hnd Hst Hij. unfold guarantee_of, rely_of.
  destruct (_ !! i) as [id|] eqn:Hi; [|done]. destruct (msg.hr_Assignments resp !! j) as [b|] eqn:Hj; [|done].
  apply only_others. intros ->. apply lookup_app_Some in Hi as [Hi|[_ Hi]].
  - apply Hij. eapply NoDup_lookup; [exact Hnd|exact Hi|]. by rewrite list_lookup_fmap, Hj.
  - apply (Hst b); by eapply list_elem_of_lookup_2.
Qed.

Lemma interleaving_runs resp specs s :
  cd_up s.1 →
  Forall2 (fun a spec => can_run a spec s.1) (msg.hr_Assignments resp) specs →
  NoDup (target <$> msg.hr_Assignments resp) →
  (∀ a, a ∈ msg.hr_Assignments resp → target a ∉ msg.hr_ContainersToStop resp) →
  Acc (flip (pstep agent_call)) (processHeartbeatResponse h resp, s) ∧
  ∀ l' s', interleave agent_call (processHeartbeatResponse h resp, s) (l', s') →
    (∀ y, ¬ pstep agent_call (l', s') y) →
    Forall2 (fun a spec => ran a spec s'.1) (msg.hr_Assignments resp) specs.
Proof.
  intros Hu Hrun Hnd Hst. split; [apply interleave_terminates|]. intros l' s' Hx Hend.
  apply stuck_finished in Hend. set (Q := fun i (s : State) =>
    match msg.hr_Assignments resp !! i, specs !! i with Some a, Some spec => ran a spec s.1 | _, _ => True end).
  pose proof (interleave_finished agent_call (fun i => of_runtime (rely_of resp i))
    (fun i => of_runtime (guarantee_of resp i)) Q (processHeartbeatResponse h resp) s l' s') as Hf.
  assert (∀ i, (i < length (processHeartbeatResponse h resp))%nat → Q i s') as HQ.
  { apply Hf; [| | |exact Hx|exact Hend].
    - intros i. apply of_runtime_preorder. unfold rely_of. case_match; apply _.
    - intros i j x y Hij. by apply guarantees_within.
    - intros i p Hp. unfold processHeartbeatResponse in Hp. unfold rely_of, guarantee_of, Q.
      apply lookup_app_Some in Hp as [Hp|[Hlen Hp]].
      + rewrite list_lookup_fmap in Hp. destruct (msg.hr_Assignments resp !! i) as [a|] eqn:Ha; [|done].
        injection Hp as <-. destruct (Forall2_lookup_l _ _ _ _ _ Hrun Ha) as (spec & -> & Hc).
        rewrite (lookup_app_l_Some _ _ _ (target a)) by by rewrite list_lookup_fmap, Ha. by apply run_owned.
      + rewrite length_fmap in Hlen, Hp. rewrite list_lookup_fmap in Hp.
        rewrite (lookup_ge_None_2 (msg.hr_Assignments resp)) by done.
        rewrite lookup_app_r, length_fmap by (by rewrite length_fmap).
        destruct (msg.hr_ContainersToStop resp !! _) as [id|]; [|done]. injection Hp as <-.
        apply stop_and_delete_only. }
  apply Forall2_same_length_lookup_2; [by eapply Forall2_length|]. intros i a spec Ha Hs.
  specialize (HQ i). unfold Q in HQ. rewrite Ha, Hs in HQ. apply HQ.
  unfold processHeartbeatResponse. rewrite length_app, length_fmap. apply lookup_lt_Some in Ha. lia.
Qed.


End started.

(** ** Concrete nodes

    A containerd that keeps images and containers in memory and satisfies the
    laws the theorems rely on, and a node that runs two replicas on it. *)

Local Open Scope string_scope.
Local Open Scope Z_scope.

Record Memory := { me_images : list string; me_containers : gmap string ContainerView }.

Definition not_found {A} : result string A := Err "not found".

Definition put_view (id : string) (v : ContainerView) (m : Memory) : Memory :=
  {| me_images := me_images m; me_containers := <[id := v]> (me_containers m) |}.

(** An existing container, or an error. *)
Definition of_container {A} (id : string) (m : Memory) (f : ContainerView → result string A * Memory)
    : result string A * Memory :=
  match me_containers m !! id with None => (not_found, m) | Some v => f v end.

Definition memory_call (X : Type) (c : Cd X) (m : Memory) : X * Memory :=
  match c in Cd Y return Y * Memory with
  | GetImage ref => (if decide (ref ∈ me_images m) then Ok tt else not_found, m)
  | Pull ref => (Ok tt, {| me_images := ref :: me_images m; me_containers := me_containers m |})
  | NewContainer req =>
      match me_containers m !! nw_ID req with
      | Some _ => (Err "already exists", m)
      | None => (Ok tt, put_view (nw_ID req) (fresh req) m)
      end
  | LoadContainer id => of_container id m (fun _ => (Ok tt, m))
  | Labels id => of_container id m (fun v => (Ok (cv_labels v), m))
  | Update id labels => of_container id m (fun v => (Ok tt, put_view id (relabel labels v) m))
  | Info id => of_container id m (fun v =>
      (Ok {| in_ID := id; in_Image := nw_Image (cv_request v); in_CreatedAt := 0; in_Labels := cv_labels v |}, m))
  | Spec id => of_container id m (fun _ =>
      (Ok {| oci_Process := None; oci_Readonly := None; oci_Linux := None |}, m))
  | Delete id => of_container id m (fun _ =>
      (Ok tt, {| me_images := me_images m; me_containers := delete id (me_containers m) |}))
  | Containers => (Ok (map_to_list (me_containers m)).*1, m)
  | NewTask id _ => of_container id m (fun v =>
      if cv_task v then (Err "already exists", m) else (Ok tt, put_view id (with_task true v) m))
  | Task id | TaskStart id | TaskKill id _ | TaskWait id => of_container id m (fun v =>
      (if cv_task v then Ok tt else not_found, m))
  | Status id => (Ok {| ts_Status := "running"; ts_ExitStatus := 0 |}, m)
  | TaskExits _ _ => (true, m)
  | TaskExit _ => (tt, m)
  | TaskDelete id => of_container id m (fun v => (Ok tt, put_view id (with_task false v) m))
  | Exec _ _ _ | ProcessStart _ | ProcessWait _ | ProcessDelete _ => (Ok tt, m)
  | ProcessExit _ => (0, m)
  | ProcessOutput _ => (("10.88.0.7" +:+ String (Ascii.ascii_of_nat 10) "", ""), m)
  | Clock => (0, m)
  end.

#[export] Instance memory_containerd : Containerd Memory := memory_call.

#[export] Program Instance memory_laws : ContainerdLaws Memory := {| cd_view := me_containers |}.
Next Obligation.
  intros X c m id Hc. destruct c; cbn in *; try done; unfold of_container; repeat case_match; try done;
    cbn; apply lookup_insert_ne || apply lookup_delete_ne; congruence.
Qed.
Next Obligation.
  intros req m. cbn. destruct (me_containers m !! nw_ID req) eqn:E; cbn; [done|]. by rewrite lookup_insert_eq.
Qed.
Next Obligation.
  intros id labels m. cbn. unfold of_container. destruct (me_containers m !! id) eqn:E; cbn; [|done].
  by rewrite lookup_insert_eq.
Qed.
Next Obligation.
  intros id log m. cbn. unfold of_container. destruct (me_containers m !! id) as [v|] eqn:E; cbn; [|done].
  destruct (cv_task v) eqn:Et; cbn; [done|]. rewrite lookup_insert_eq. by exists v.
Qed.
Next Obligation.
  intros id m. cbn. unfold of_container. destruct (me_containers m !! id) eqn:E; cbn; [|done].
  by rewrite lookup_insert_eq.
Qed.
Next Obligation.
  intros id m. cbn. unfold of_container. destruct (me_containers m !! id) eqn:E; cbn; [|done].
  by rewrite lookup_delete_eq.
Qed.
Next Obligation.
  intros id m i. cbn. unfold of_container. destruct (me_containers m !! id) as [v|] eqn:E; [|done].
  intros [= <-]. split; [done|]. by exists v.
Qed.
Next Obligation.
  intros id m l. cbn. unfold of_container. destruct (me_containers m !! id) as [v|] eqn:E; [|done].
  by intros [= <-].
Qed.

#[export] Program Instance memory_up : ContainerdUp Memory := {|
  cd_up := fun _ => True; has_image := fun ref m => ref ∈ me_images m;
  available := fun _ => True; runnable := fun _ => True |}.
Next Obligation. done. Qed.
Next Obligation.
  intros X c ref m Hi. destruct c; cbn; unfold of_container; repeat case_match; try done; by right.
Qed.
Next Obligation. intros ref m _ _. cbn. split; [done|by left]. Qed.
Next Obligation. intros ref m _ Hi. cbn. by rewrite decide_True. Qed.
Next Obligation. intros req m _ _ _ Hn. cbn in *. by rewrite Hn. Qed.
Next Obligation. intros id m _ [v Hv]. cbn in *. unfold of_container. by rewrite Hv. Qed.
Next Obligation. intros id m _ [v Hv]. cbn in *. unfold of_container. by rewrite Hv. Qed.
Next Obligation. intros id m _ [v Hv]. cbn in *. unfold of_container. by rewrite Hv. Qed.
Next Obligation. intros id log m v _ Hv Ht _. cbn in *. unfold of_container. by rewrite Hv, Ht. Qed.
Next Obligation. intros id m v _ Hv Ht _. cbn in *. unfold of_container. by rewrite Hv, Ht. Qed.

(** ** A node with two new replicas *)

Module NodeRuns.

Definition probe : api.HealthCheck := {|
  api.check := Some (api.CheckHttp "/ready?ip=$CONTAINER_IP" 8080 "" []);
  api.initial_delay := None; api.period := Some (5 * second); api.timeout := None;
  api.success_threshold := 0; api.failure_threshold := 0 |}.

Definition spec : api.WorkloadSpec := {|
  api.image := "nginx:1.25"; api.command := []; api.args := []; api.env := {["MODE" := "prod"]};
  api.resources := Some {|
    api.Requests := None;
    api.Limits := Some {| api.CpuMillicores := 500; api.MemoryBytes := 1073741824; api.StorageBytes := 0;
      api.BandwidthBps := 0; api.GpuCount := 1 |} |};
  api.replicas := 2; api.placement := None; api.restart := None; api.rollout := None;
  api.volumes := []; api.ports := []; api.liveness_probe := None; api.readiness_probe := Some probe;
  api.security_context := Some privileged_context |}.

Definition named (id : string) : api.Workload := {|
  api.id := id; api.name := id; api.namespace := "prod"; api.spec := Some spec;
  api.wstatus := None; api.created_at := None; api.updated_at := None; api.labels := ∅;
  api.annotations := None |}.

Definition web : api.Workload := named "web".

Definition order (action fragment : string) (w : api.Workload) : msg.WorkloadAssignment :=
  {| msg.wa_FragmentId := fragment; msg.wa_Workload := w; msg.wa_Action := action |}.

(** Two replicas to run, and the drain command of the coordinator. *)
Definition response : msg.HeartbeatResponse := {|
  msg.hr_Assignments := [order "run" "f1" web; order "run" "f2" web];
  msg.hr_ContainersToStop := [drain_command]; msg.hr_NextHeartbeat := 0 |}.

Definition a_host : Host := SecurityRuns.plain_host.

Definition configuration : Config := {|
  cfg_DataDir := "/data"; cfg_CoordinatorAddr := "c:8080"; cfg_AgentAddr := ":1"; cfg_MetricsAddr := ":2";
  cfg_NodeID := "n1"; cfg_NodeName := "n1"; cfg_Region := ""; cfg_Zone := ""; cfg_JoinToken := "";
  cfg_HeartbeatInterval := 0; cfg_ContainerRuntime := "";
  cfg_Resources := {| ar_CPUMillicores := 0; ar_MemoryBytes := 0; ar_StorageBytes := 0;
                      ar_BandwidthBps := 0; ar_GPU := 0 |};
  cfg_EnableHealthProbes := true |}.

Definition idle_agent : Agent := {|
  ag_config := configuration; ag_monitor := {| rm_snapshot := empty_snapshot 0; rm_lastNetStats := [] |};
  ag_probes := NewProbeExecutor; ag_probing := []; ag_health := Some NewHealthMonitor;
  ag_containerHealth := ∅; ag_draining := false |}.

(** A database already runs. *)
Definition database : ContainerView := {|
  cv_request := @new_container range_canonical a_host
    (container_spec (named "db") spec "f0") None;
  cv_labels := workload_labels (named "db") "f0"; cv_task := true |}.

Definition busy : Memory * Agent :=
  ({| me_images := []; me_containers := {["db-f0" := database]} |}, idle_agent).

(** Meanwhile the service is asked to run a container with the identifier of the
    database and to stop another one. *)
Definition requests : list Rpc := [
  RunRpc {| run_FragmentId := "f0"; run_Workload := Some (named "db"); run_ReplicaId := "r0" |};
  StopRpc {| stop_ContainerId := "web-f1"; stop_GracePeriod := None |}].

Definition node_pool : list (Prog Act unit) :=
  app (@processHeartbeatResponse range_canonical a_host response) (@serve range_canonical a_host <$> requests).

Lemma response_isolated_witness :
  ∃ l s, interleave agent_call (node_pool, busy) (l, s) ∧ finished l ∧ cd_view s.1 !! "db-f0" = Some database.
Proof.
  destruct (interleave_complete agent_call node_pool busy) as (l & s & Hx & Hf).
  exists l, s. split; [exact Hx|]. split; [exact Hf|].
  apply (@response_isolated Memory _ _ range_canonical a_host response requests "db-f0" database busy l s);
    [reflexivity| | | |exact Hx].
  - repeat constructor.
  - cbn. rewrite list_elem_of_singleton. discriminate.
  - repeat constructor; discriminate.
Defined.

(** A request without resources or restart policy makes the handler panic, after
    the image has been pulled. *)
Example run_panics :
  (run agent_call (@HandleRunContainer range_canonical a_host
     {| run_FragmentId := "f1"; run_Workload := Some web; run_ReplicaId := "r1" |}) busy).1 = None.
Proof. vm_compute. reflexivity. Qed.


End NodeRuns.
