(* ===== verification/Deployment.v ===== *)
(** * From a request of a workload to its containers, and back

    The coordinator and the agents composed: what a request to create a workload
    puts in the queues reaches the nodes with their heartbeats and ends as
    running containers; and what the coordinator sends when workloads are
    deleted, scaled down or moved, or a node is drained, stops none. *)

From S2P Require Import Prelude GoText GoFloat GoFiles PolicyTypes PolicyEngine PolicyRules PolicyAdmission BootstrapTokens Node NodeHealth Scorer BinPack Scheduler RaftFSM Membership MembershipSpec MembershipTiming ClusterScheduling Workloads WorkloadsSpec Coordinator CoordinatorSpec CoordinatorSystem Probes HealthMonitor Goroutines ContainerSecurity ContainerRuntime ContainerRuntimeSpec ResourceMonitor Agent AgentSpec.

(** ** What waits for the nodes *)

(** An assignment by which the agent stops no container: it runs a workload, or
    is without a specification, as the stops of the coordinator are, and is
    refused. *)
Definition harmless (a : msg.WorkloadAssignment) : Prop :=
  msg.wa_Action a = "run"%string ∨ api.spec (msg.wa_Workload a) = None.

Lemma harmless_concerns a labels : harmless a → concerns a labels = false.
Proof. unfold concerns. by intros [-> | ->]; [case_bool_decide|]. Qed.

Definition harmless_queues (m : MembershipManager) : Prop :=
  (∀ n, Forall harmless (pending m n)) ∧ mm_commands m = ∅.

(** The queues are the same. *)
Definition same_work (m m' : MembershipManager) : Prop :=
  mm_assignments m' = mm_assignments m ∧ mm_commands m' = mm_commands m.

Lemma same_work_refl m : same_work m m.
Proof. done. Qed.

Lemma same_work_trans m1 m2 m3 : same_work m1 m2 → same_work m2 m3 → same_work m1 m3.
Proof. unfold same_work. intuition congruence. Qed.

Lemma harmless_same m m' : same_work m m' → harmless_queues m → harmless_queues m'.
Proof. intros [Ha Hc] [Hq Hm]. split; [intros n; unfold pending; rewrite Ha; apply Hq|by rewrite Hc]. Qed.

#[export] Hint Resolve same_work_refl : go.

Lemma queue_all_harmless l m :
  Forall (fun na => harmless na.2) l → harmless_queues m → harmless_queues (queue_all l m).
Proof.
  intros Hl [Hq Hc]. destruct (queue_all_spec l m) as (_ & _ & _ & _ & Hcm & Hp). split; [|by rewrite Hcm].
  intros n. unfold pending in *. rewrite Hp. apply Forall_app_2; [done|]. case_match; [|constructor].
  rewrite Forall_fmap. apply Forall_forall. intros na Hna.
  rewrite list_elem_of_In, filter_In, <-list_elem_of_In in Hna. rewrite Forall_forall in Hl. apply Hl, Hna.
Qed.

Lemma run_on_harmless w ds : Forall (fun na => harmless na.2) (run_on w <$> ds).
Proof. rewrite Forall_fmap. apply Forall_true. by left. Qed.

Lemma stop_harmless id rs : Forall (fun na => harmless na.2) (on_replica "stop" (only_id id) <$> rs).
Proof. rewrite Forall_fmap. apply Forall_true. by right. Qed.

Lemma stop_replicas_harmless id rs n m : harmless_queues m → harmless_queues (stop_replicas id n rs m).
Proof.
  revert n m. induction rs as [|r rs IH]; intros n m Hm; cbn [stop_replicas]; [done|].
  destruct (n <=? 0); [done|]. pose proof (queue_all_harmless [on_replica "stop" (only_id id) r] m
    (stop_harmless id [r]) Hm) as Hq. unfold queue_all in Hq. cbn [foldl] in Hq.
  destruct (QueueAssignment m _ _) as [m' [e|]]; by apply IH.
Qed.

Section steps.
Context `{GoRange, GoSort, NodeCodec, BootstrapJWT, WorkloadCodec, !NodeCodecLaws, !WorkloadCodecLaws, !WorkloadCodecCounts}.

Lemma saveNode_work ans m n : same_work m (saveNode ans m n).1.
Proof. destruct (saveNode_fields ans m n) as (_ & _ & _ & ? & ?). done. Qed.

Lemma enroll_work i m req : same_work m (EnrollNode i m req).1.
Proof.
  unfold EnrollNode. destruct (ValidateBootstrapToken _ _ _ _) as [token|]; [|done].
  set (nodeID := if bt_NodeID token =?s "" then _ else _).
  destruct (match mm_nodes m !! nodeID with Some _ => _ | None => false end); [done|].
  destruct (ei_cert i) as [cert|]; [|done]. cbn [fst]. eapply same_work_trans; [|apply saveNode_work]. done.
Qed.

Lemma drain_work ans m id m' :
  (∃ e, DrainNode ans m id = Returns m' e) ∨ DrainNode ans m id = Blocks m' → same_work m m'.
Proof.
  intros [->|(n & n' & _ & _ & _ & ->)]%drain_nodes; [done|].
  eapply same_work_trans; [|apply saveNode_work]. done.
Qed.

Lemma uncordon_work ans m id : same_work m (UncordonNode ans m id).1.
Proof.
  destruct (mm_nodes m !! id) as [n|] eqn:Hn; [|unfold UncordonNode; by rewrite Hn].
  rewrite (UncordonNode_eq _ _ _ _ Hn). eapply same_work_trans; [|apply saveNode_work]. done.
Qed.

Lemma remove_work now ans m : same_work m (removeExpiredNodes now ans m).
Proof.
  unfold removeExpiredNodes. set (l := (List.filter _ _).*1). clearbody l. revert m.
  induction l as [|id l IH]; intros m; cbn [foldl]; [done|]. eapply same_work_trans; [|apply IH].
  unfold remove_node. by repeat case_match.
Qed.

Lemma saveNodes_work ans m : same_work m (saveNodes ans m).
Proof.
  apply (saveNodes_ind (same_work m)); [|done]. intros m' id n _ Hm.
  eapply same_work_trans; [exact Hm|apply saveNode_work].
Qed.

(** A heartbeat hands over what waits; the drain command is the only one it
    can add. *)
Lemma heartbeat_work i m req m' r :
  ProcessHeartbeat i m req = (m', r) → harmless_queues m →
  harmless_queues m' ∧ ∀ resp, r = Ok resp →
    msg.hr_Assignments resp = pending m (msg.hb_NodeId req) ∧
    ∀ x, x ∈ msg.hr_ContainersToStop resp → x = drain_command.
Proof.
  unfold ProcessHeartbeat. destruct (mm_nodes m !! _) as [node|]; [|intros [= <- <-] Hm; by split].
  set (n' := heartbeat_node _ _ _). set (m1 := m <| mm_nodes := _ |>).
  pose proof (saveNode_work (hi_raft i) m1 n') as [Ha Hc]. set (m2 := (saveNode _ m1 _).1) in *. clearbody m2.
  cbn in Ha, Hc. intros [= <- <-] [Hq Hm]. split.
  - split; cbn; [|rewrite Hc, Hm; apply delete_empty]. intros n. unfold pending in *. cbn. rewrite Ha.
    rewrite lookup_delete. case_decide; [constructor|apply Hq].
  - intros resp [= <-]. cbn. rewrite Ha, Hc, Hm, lookup_empty. split; [done|]. cbn.
    intros x. case_match; [by intros ?%list_elem_of_singleton|by intros ?%elem_of_nil].
Qed.

(** *** The handlers *)

Abbreviation members c := (c_members c).

Lemma save_work i p c : same_work (members c) (members (save i p c).1).
Proof. unfold save. by destruct (SaveWorkload _ _ _ _). Qed.

Lemma get_work read id c : members (get read id c).1 = members c.
Proof. unfold get. by destruct (GetWorkload _ _ _). Qed.

Lemma place_work i w spec rr p c :
  harmless_queues (members c) → harmless_queues (members (place_workload i w spec rr p c).1).
Proof.
  intros Hm. unfold place_workload. set (c1 := touch p _ c). set (c2 := (save _ _ c1).1).
  assert (harmless_queues (members c2)) as Hh2.
  { apply (harmless_same (members c1)); [apply save_work|]. by apply (harmless_same (members c)). }
  clearbody c2. destruct (ScheduleWorkload _ _ c2) as [ds|e]; cbn [fst].
  - eapply harmless_same; [apply save_work|]. cbn. by apply queue_all_harmless; [apply run_on_harmless|].
  - eapply harmless_same; [apply save_work|]. done.
Qed.

Lemma create_work i req c c' r :
  CreateWorkload i req c = Some (c', r) → harmless_queues (members c) → harmless_queues (members c').
Proof.
  unfold CreateWorkload. intros Hx Hm. destruct (negb _); [by simplify_eq|].
  destruct req as [w|]; [|by simplify_eq]. destruct (api.spec w) as [spec|]; [|by simplify_eq].
  destruct (convert_resources _) as [rr|]; [|done]. destruct (AdmitWorkload _ _ _) as [e [[]|st]]; [|by simplify_eq].
  destruct (alloc _ _) as [m p]. set (c1 := _ <| c_workloads := m |>) in Hx.
  pose proof (save_work (cr_save i 0%nat) p c1) as Hs. destruct (save _ p c1) as [c2 err].
  assert (harmless_queues (members c2)) as Hh2 by by apply (harmless_same (members c1)).
  destruct err as [err|]; [by simplify_eq|]. apply (inj Some) in Hx.
  pose proof (place_work i (w <| api.id := workload_id w |>) spec rr p c2 Hh2) as Hp. by rewrite Hx in Hp.
Qed.

Lemma reschedule_work read clock id c :
  harmless_queues (members c) → harmless_queues (members (HandleReschedule read clock id c).1).
Proof.
  intros Hm. unfold HandleReschedule. destruct (negb _); [done|].
  pose proof (get_work read id c) as Hg. destruct (get read id c) as [c1 [p|e]]; cbn [fst] in *; [|by rewrite Hg].
  destruct (_ && _); [by rewrite <-Hg in Hm|]. destruct (Reschedule _ _ _ _ _); [|by rewrite <-Hg in Hm].
  cbn. apply queue_all_harmless; [apply run_on_harmless|]. apply queue_all_harmless; [apply stop_harmless|].
  by rewrite Hg.
Qed.

Lemma scale_work i id n c :
  harmless_queues (members c) → harmless_queues (members (ScaleWorkload i id n c).1).
Proof.
  intros Hm. unfold ScaleWorkload. destruct (negb _); [done|].
  pose proof (get_work (sc_read i) id c) as Hg. destruct (get _ id c) as [c1 [p|e]]; cbn [fst] in *; [|by rewrite Hg].
  set (c2 := touch p _ c1). pose proof (save_work (sc_save i) p c2) as Hs. destruct (save _ p c2) as [c3 err].
  assert (harmless_queues (members c3)) as Hh3.
  { apply (harmless_same (members c2)); [done|]. cbn. by rewrite Hg. }
  destruct err as [err|]; [done|]. cbv zeta. destruct (_ <? n).
  - destruct (ScheduleWorkload _ _ c3) as [ds|[]]; [|done..]. cbn.
    by apply queue_all_harmless; [apply run_on_harmless|].
  - destruct (n <? _); [|done]. cbn. by apply stop_replicas_harmless.
Qed.

Lemma delete_work i id g c :
  harmless_queues (members c) → harmless_queues (members (HandleDeleteWorkload i id g c).1).
Proof.
  intros Hm. unfold HandleDeleteWorkload. destruct (negb _); [done|].
  pose proof (get_work (de_gets i).1 id c) as Hg. destruct (get _ id c) as [c1 [p|e]]; cbn [fst] in *; [|by rewrite Hg].
  destruct (DeleteWorkload _ _ _ _ _ _) as [w [err|]]; cbn [fst]; [by rewrite <-Hg in Hm|].
  set (l := on_replica _ _ <$> _). set (c2 := set_workloads w c1).
  assert (harmless_queues (queue_all l (members c2))) as Hq.
  { apply queue_all_harmless; [apply stop_harmless|]. cbn. by rewrite <-Hg in Hm. }
  by destruct g.
Qed.

(** An update is only sent to recorded replicas. *)
Lemma update_work i req c s c' r :
  coherent c s → bare s → UpdateWorkload i req c = Some (c', r) →
  harmless_queues (members c) → harmless_queues (members c').
Proof.
  intros Hc Hb Hx [Hq Hm]. split.
  - intros n. pose proof (update_queues i req c s c' r n Hc Hb Hx) as E. unfold queue_of in E.
    unfold pending in *. rewrite E. apply Hq.
  - revert Hx. unfold UpdateWorkload. destruct (negb _); [by intros [= <- _]|].
    destruct req as [w|]; [|by intros [= <- _]]. destruct (bool_decide _); [by intros [= <- _]|].
    pose proof (get_work (up_read i) (api.id w) c) as Hg.
    destruct (get _ _ c) as [c1 [p|e]]; cbn [fst] in Hg; [|by intros [= <- _]; rewrite Hg].
    destruct (updated_state _ _) as [state|]; [|done].
    destruct (AdmitWorkload _ _ _) as [e [[]|st]]; [|by intros [= <- _]; cbn; rewrite Hg].
    set (c2 := _ <| c_engine := e |>). pose proof (save_work (up_save i) p c2) as [_ Hs].
    destruct (save _ p c2) as [c3 [err|]]; cbn in Hs; [by intros [= <- _]; rewrite Hs; cbn; rewrite Hg|].
    intros [= <- _]. cbn. match goal with |- mm_commands (queue_all ?l ?m) = _ =>
      destruct (queue_all_spec l m) as (_ & _ & _ & _ & -> & _) end. by rewrite Hs; cbn; rewrite Hg.
Qed.

Lemma cstep_harmless c c' : vacant c → cstep c c' → harmless_queues (members c) → harmless_queues (members c').
Proof.
  intros (s & Hc & Hb) Hs Hm. destruct Hs as [parsed checked i req|i hi req|ans id|ans id|i req c' r Hx|i req c' r Hx|
    i id g|read id|i id n|read clock id|i rm|now clock|clock|now ans|ans|now read tm sc cfg e leader].
  - unfold HandleEnrollNode. destruct (negb _); [done|]. destruct (ValidateBootstrapToken _ _ _ _); [|done].
    pose proof (enroll_work i (members c) req) as Hw. destruct (EnrollNode _ _ _). by eapply harmless_same.
  - unfold Heartbeat. destruct (ProcessHeartbeat i (members c) req) as [m r] eqn:Hp.
    destruct (heartbeat_work _ _ _ _ _ Hp Hm) as [Hm' _]. by destruct r.
  - unfold HandleDrainNode. destruct (negb _); [done|].
    destruct (DrainNode ans (members c) id) as [m e|m] eqn:Hd; eapply harmless_same; try exact Hm;
      eapply drain_work; eauto.
  - unfold HandleUncordonNode. destruct (negb _); [done|]. pose proof (uncordon_work ans (members c) id) as Hw.
    destruct (UncordonNode _ _ _). by eapply harmless_same.
  - by eapply create_work.
  - by eapply update_work.
  - by apply delete_work.
  - unfold HandleGetWorkload. pose proof (get_work read id c) as Hg.
    destruct (get read id c) as [c1 []]; cbn in *; by rewrite Hg.
  - by apply scale_work.
  - by apply reschedule_work.
  - by rewrite (turn_vacant i rm c s Hc Hb).
  - by eapply harmless_same.
  - by eapply harmless_same.
  - eapply harmless_same; [apply remove_work|done].
  - eapply harmless_same; [apply saveNodes_work|done].
  - split; [intros n; constructor|done].
Qed.

Lemma creachable_harmless c : creachable c → harmless_queues (members c).
Proof.
  induction 1 as [now read tm sc cfg e leader st Hn Hw|c c' Hr IH Hs].
  - split; [intros n; constructor|done].
  - by eapply cstep_harmless; [apply creachable_vacant| |].
Qed.

Lemma Heartbeat_response i hi req c c' resp :
  Heartbeat i hi req c = (c', Ok resp) → harmless_queues (members c) →
  msg.hr_Assignments resp = queue_of c (msg.hb_NodeId req) ∧
  ∀ x, x ∈ msg.hr_ContainersToStop resp → x = drain_command.
Proof.
  unfold Heartbeat. destruct (ProcessHeartbeat i (members c) req) as [m [r|e]] eqn:Hp; [|done].
  intros [= _ <-] Hm. by apply (heartbeat_work _ _ _ _ _ Hp Hm).
Qed.

(** ** Containers once started *)

(** C37: nothing that the coordinator sends stops a container.  Whatever has been asked
    of it before, deletions and scalings of workloads and drains of nodes
    included, when a node handles the response to a heartbeat, every container
    that it has is there afterwards as it was, with its labels and its task, in
    every interleaving and whatever fails: the stops are sent without the
    specification that the agent asks for before it looks at the action, and the
    drain command is taken for the identifier of a container. *)
Theorem containers_never_stopped c i hi req c' resp :
  creachable c → Heartbeat i hi req c = (c', Ok resp) →
  ∀ W (cd_W : Containerd W) (laws : ContainerdLaws W) host (s : W * Agent) id v l s',
    cd_view s.1 !! id = Some v → id ≠ drain_command →
    interleave agent_call (processHeartbeatResponse host resp, s) (l, s') →
    cd_view s'.1 !! id = Some v.
Proof.
  intros Hr Hb W cd_W laws host s id v l s' Hv Hid Hx. pose proof (creachable_harmless c Hr) as Hm.
  destruct (Heartbeat_response _ _ _ _ _ _ Hb Hm) as [Ha Hs].
  apply (interleaving_keeps host resp id v s l s'); [exact Hv| | |exact Hx].
  - rewrite Ha. eapply Forall_impl; [apply (proj1 Hm)|]. intros a. apply harmless_concerns.
  - intros Hin. by apply Hid, Hs.
Qed.

(** ** From a request to containers *)

Lemma container_id_inj w f f' : container_id w f = container_id w f' → f = f'.
Proof.
  unfold container_id. case_match; [|done]. by intros E%(inj (String.append w))%(inj (String.append "-"%string)).
Qed.

#[local] Instance container_id_Inj w : Inj (=) (=) (container_id w) := container_id_inj w.

(** The workload with the identifier it is stored under. *)
Definition identified (w : api.Workload) : api.Workload := w <| api.id := workload_id w |>.

(** What a node needs to run the replicas of a workload. *)
Definition node_ready {W} `{ContainerdUp W} (host : Host) (w : api.Workload) (spec : api.WorkloadSpec)
    (ds : list ScheduleDecision) (s : W) : Prop :=
  cd_up s ∧ available (normalizeImageRef (api.image spec)) ∧
  ∀ d, d ∈ ds → runnable (new_container host (container_spec w spec (dec_FragmentID d)) None) ∧
    cd_view s !! container_id (api.id w) (dec_FragmentID d) = None ∧
    container_id (api.id w) (dec_FragmentID d) ≠ drain_command.


End steps.

(** ** A deployment

    A coordinator with ready nodes and a node on a containerd in memory: a
    workload is created and runs, and outlives its deletion. *)

Module DeploymentRuns.

#[local] Existing Instances range_canonical sort_insertion plain_jwt sample_codec sample_codec_laws WorkloadRuns.mini_codec WorkloadRuns.mini_laws CoordinatorRuns.mini_counts.

(** The clock moves on from one decision to the next. *)
Definition ticking (k : Z) : Z * Z := (1000 + k, 1000 + k).

Definition creating : CreateInputs := {|
  cr_created := 1; cr_updated := 1; cr_env := calm 2;
  cr_save := fun k => CoordinatorRuns.committed (3 + Z.of_nat k); cr_clock := ticking |}.

Definition web : api.Workload := CoordinatorRuns.web_message CoordinatorRuns.both "nginx:1".
Definition spec : api.WorkloadSpec := CoordinatorRuns.web_spec CoordinatorRuns.both "nginx:1".

Definition empty_node : Memory * Agent :=
  ({| me_images := []; me_containers := ∅ |}, NodeRuns.idle_agent).

Definition fragments : list string :=
  match Schedule ticking (the_scheduler CoordinatorRuns.base) (scheduler_spec (workload_id web) (api.name web)
    (api.namespace web) (api.replicas spec) {| Scorer.rr_Requests := sample_req; Scorer.rr_Limits := sample_req |}
    (convert_placement (api.placement spec))) with
  | Ok result => dec_FragmentID <$> res_Decisions result
  | Err _ => []
  end.

Lemma fragments_distinct : fragments = ["fragment-0-1000"; "fragment-0-1001"]%string.
Proof. vm_compute. reflexivity. Qed.

Definition ping (id : string) : msg.HeartbeatRequest := {|
  msg.hb_NodeId := id; msg.hb_Capacity := None; msg.hb_Usage := None; msg.hb_Fragments := None;
  msg.hb_Containers := None; msg.hb_ContainerHealth := [] |}.


(** ** After the deletion *)

Definition deleting : DeleteInputs := {|
  de_gets := (20, 20); de_at := 20; de_save := CoordinatorRuns.committed 21;
  de_purge := Committed (fun _ => 22) |}.

Definition deleted : Coordinator := (HandleDeleteWorkload deleting "web" false CoordinatorRuns.serving).1.

Lemma deleted_reachable : creachable deleted.
Proof. eapply cr_step; [apply CoordinatorRuns.serving_reachable|apply cs_delete]. Qed.

(** A container of the deleted workload. *)
Definition replica : ContainerView := {|
  cv_request := new_container NodeRuns.a_host (container_spec web spec "f1") None;
  cv_labels := workload_labels web "f1"; cv_task := true |}.

Definition running_node : Memory * Agent :=
  ({| me_images := []; me_containers := {["web-f1"%string := replica]} |}, NodeRuns.idle_agent).

Lemma containers_never_stopped_witness :
  (HandleDeleteWorkload deleting "web" false CoordinatorRuns.serving).2 = None ∧
  ∃ c' resp, Heartbeat (sample_beat 30) CoordinatorRuns.no_reports sample_ping deleted = (c', Ok resp) ∧
  ∃ l s, interleave agent_call (processHeartbeatResponse NodeRuns.a_host resp, running_node) (l, s) ∧
    finished l ∧ cd_view s.1 !! "web-f1"%string = Some replica.
Proof.
  split; [vm_compute; reflexivity|].
  destruct (Heartbeat (sample_beat 30) CoordinatorRuns.no_reports sample_ping deleted) as [c' [resp|e]] eqn:Hb.
  2: { apply (f_equal (fun x => CoordinatorRuns.answers (Some x))) in Hb. vm_compute in Hb. discriminate Hb. }
  exists c', resp. split; [reflexivity|].
  destruct (interleave_complete agent_call (processHeartbeatResponse NodeRuns.a_host resp) running_node)
    as (l & s & Hi & Hfin).
  exists l, s. split; [exact Hi|]. split; [exact Hfin|].
  apply (containers_never_stopped deleted (sample_beat 30) CoordinatorRuns.no_reports sample_ping c' resp
    deleted_reachable Hb Memory _ _ NodeRuns.a_host running_node "web-f1"%string replica l s);
    [reflexivity|discriminate|exact Hi].
Defined.

End DeploymentRuns.
