(* ===== verification/Peers.v ===== *)
(** * Peers of the overlay network (pkg/overlay/peer.go, nat.go, types.go)

    The peer manager keeps a map of peers, which are objects shared by pointers,
    and a map of connections; goroutines connect to peers, watch connections and
    ping.  Its operations are programs: a call is a reading of the clock, one
    operation of a [sync.Map] or on the fields of an object, a request to the
    network, or the start of a goroutine.  A [Range] over a map is a snapshot of
    it.  The STUN and TURN clients and the QUIC transport are calls; the closing
    of streams, logging and tickers are left out. *)

From S2P Require Import Prelude GoText GoFloat Goroutines.

Local Open Scope string_scope.
Local Open Scope Z_scope.
Local Open Scope prog_scope.

(** ** Types *)

Definition PeerStatusConnected : string := "connected".
Definition PeerStatusConnecting : string := "connecting".
Definition PeerStatusDisconnected : string := "disconnected".
Definition PeerStatusUnreachable : string := "unreachable".

Definition NATTypeNone : string := "none".
Definition NATTypeFullCone : string := "full-cone".
Definition NATTypeRestrictedCone : string := "restricted-cone".
Definition NATTypePortRestrictedCone : string := "port-restricted-cone".
Definition NATTypeSymmetric : string := "symmetric".
Definition NATTypeUnknown : string := "unknown".

Record Peer := {
  peer_ID : string;
  peer_Address : string;
  peer_PublicIP : string;
  peer_Port : Z;
  peer_Region : string;
  peer_Zone : string;
  peer_Status : string;
  peer_Latency : Z;
  peer_Bandwidth : Z;
  peer_LastSeen : Z;
  peer_Metadata : gmap string string;
  peer_NATType : string
}.

#[export] Instance eta_Peer : Eta Peer := fun p =>
  Build_Peer (peer_ID p) (peer_Address p) (peer_PublicIP p) (peer_Port p) (peer_Region p) (peer_Zone p)
    (peer_Status p) (peer_Latency p) (peer_Bandwidth p) (peer_LastSeen p) (peer_Metadata p) (peer_NATType p).

Record NATInfo := {
  ni_Type : string; ni_PublicIP : string; ni_PublicPort : Z; ni_LocalIP : string; ni_LocalPort : Z;
  ni_Mapped : bool
}.

Record Route := { rt_Destination : string; rt_NextHop : string; rt_Metric : Z; rt_Interface : string }.

Definition MeshTypeFull : string := "full".
Definition MeshTypePartial : string := "partial".

Record MeshConfig := {
  mc_MeshType : string; mc_MaxPeers : Z; mc_HealthCheckInterval : Z; mc_ReconnectInterval : Z;
  mc_ConnectionTimeout : Z
}.

(** The intervals of [NewPeerManager]. *)
Definition interval (configured preset : Z) : Z := if configured =? 0 then preset else configured.

Definition intervals (c : MeshConfig) : Z * Z * Z :=
  (interval (mc_HealthCheckInterval c) (30 * second), interval (mc_ReconnectInterval c) (60 * second),
   interval (mc_ConnectionTimeout c) (10 * second)).

(** Pointers to peers and connections are numbers. *)
Abbreviation Pointer := nat.
Abbreviation Connection := nat.

(** The state of NAT traversal: what was discovered, and the relay address of
    the TURN allocation. *)
Record NATTraversal := { nt_natInfo : option NATInfo; nt_allocation : option string }.

#[export] Instance eta_NATTraversal : Eta NATTraversal := fun n =>
  Build_NATTraversal (nt_natInfo n) (nt_allocation n).

(** The peer manager, and the maps of the mesh manager over it. *)
Record Overlay := {
  ov_nodeID : string;
  ov_config : MeshConfig;
  ov_localAddr : string;
  ov_nat : option NATTraversal;
  ov_objects : list Peer;
  ov_peers : gmap string Pointer;
  ov_connections : gmap string Connection;
  ov_routes : gmap string Route;
  ov_topology : gmap string (list string);
  ov_routeCache : gmap string (list Route)
}.

#[export] Instance eta_Overlay : Eta Overlay := fun o =>
  Build_Overlay (ov_nodeID o) (ov_config o) (ov_localAddr o) (ov_nat o) (ov_objects o) (ov_peers o)
    (ov_connections o) (ov_routes o) (ov_topology o) (ov_routeCache o).

(** ** Calls *)

(** What runs in the background. *)
Inductive Task :=
| Connecting (p : Pointer)
| Monitoring (id : string) (c : Connection)
| Pinging (id : string) (c : Connection)
| Discovering.

Inductive Net : Type → Type :=
| Clock : Net Z
| State {X} (f : Overlay → X * Overlay) : Net X
| Go (t : Task) : Net unit
| Dial (peerID addr : string) : Net (result string Connection)
| IsClosed (c : Connection) : Net bool
| Close (c : Connection) : Net unit
| OpenStream (c : Connection) : Net (option string)
| WritePing (c : Connection) : Net (option string)
| ReadPong (c : Connection) : Net (option string)
| TestConnectivity (localAddr peerAddr : string) : Net (option string)
| PerformHolePunch (localAddr peerAddr : string) : Net (option string)
| AllocateRelay (localAddr : string) : Net (result string string)
| CreatePermission (relayAddr peerAddr : string) : Net (option string)
| DiscoverNATInfo (localAddr : string) : Net (result string NATInfo).

Definition look {X} (f : Overlay → X) : Prog Net X := call (State (fun o => (f o, o))).
Definition put (f : Overlay → Overlay) : Prog Net unit := call (State (fun o => (tt, f o))).

(** An object of the peer manager; no pointer dangles. *)
Definition no_peer : Peer := {|
  peer_ID := ""; peer_Address := ""; peer_PublicIP := ""; peer_Port := 0; peer_Region := ""; peer_Zone := "";
  peer_Status := ""; peer_Latency := 0; peer_Bandwidth := 0; peer_LastSeen := 0; peer_Metadata := ∅;
  peer_NATType := "" |}.

Definition object (p : Pointer) (o : Overlay) : Peer := default no_peer (ov_objects o !! p).

Definition change_peer (p : Pointer) (f : Peer → Peer) (o : Overlay) : Overlay :=
  o <| ov_objects := alter f p (ov_objects o) |>.

Definition store_peer (id : string) (p : Pointer) (o : Overlay) : Overlay :=
  o <| ov_peers := <[id := p]> (ov_peers o) |>.

Definition drop_connection (id : string) (o : Overlay) : Overlay :=
  o <| ov_connections := delete id (ov_connections o) |>.

(** ** NAT traversal (nat.go) *)

Definition StrategyDirect : string := "direct".
Definition StrategyHolePunch : string := "hole-punch".
Definition StrategyRelay : string := "relay".

Record ConnectionInfo := {
  ci_Strategy : string; ci_LocalAddr : string; ci_RemoteAddr : string; ci_RelayAddr : string
}.

Definition IsRelayed (ci : ConnectionInfo) : bool := ci_Strategy ci =?s StrategyRelay.

Definition GetEffectiveAddr (ci : ConnectionInfo) : string :=
  if IsRelayed ci && negb (ci_RelayAddr ci =?s "") then ci_RelayAddr ci else ci_RemoteAddr ci.

Definition determineStrategy (localNAT peerNAT : string) : string :=
  if (localNAT =?s NATTypeNone) && (peerNAT =?s NATTypeNone) then StrategyDirect
  else if (localNAT =?s NATTypeSymmetric) || (peerNAT =?s NATTypeSymmetric) then StrategyRelay
  else if (localNAT =?s NATTypeFullCone) || (peerNAT =?s NATTypeFullCone) then StrategyHolePunch
  else if (localNAT =?s NATTypePortRestrictedCone) || (peerNAT =?s NATTypePortRestrictedCone)
  then StrategyHolePunch
  else StrategyRelay.

Definition set_nat (f : NATTraversal → NATTraversal) (o : Overlay) : Overlay :=
  o <| ov_nat := f <$> ov_nat o |>.

Definition GetNATInfo : Prog Net (option NATInfo) := look (fun o => match ov_nat o with Some n => nt_natInfo n | None => None end).

Definition GetPublicEndpoint : Prog Net (result string string) :=
  let! info := GetNATInfo in
  Ret (match info with
       | None => Err "NAT info not available"
       | Some info => Ok (ni_PublicIP info +:+ ":" +:+ show_Z (ni_PublicPort info))
       end).

Definition discoverNAT (localAddr : string) : Prog Net (result string unit) :=
  let! info := call (DiscoverNATInfo localAddr) else "failed to discover NAT: " in
  let! _ := put (set_nat (fun n => n <| nt_natInfo := Some info |>)) in Ret (Ok tt).

Definition establishDirectConnection (localAddr peerAddr : string)
    : Prog Net (result string ConnectionInfo) :=
  let! err := call (TestConnectivity localAddr peerAddr) in
  Ret (match err with
       | Some err => Err ("direct connection failed: " +:+ err)
       | None => Ok {| ci_Strategy := StrategyDirect; ci_LocalAddr := localAddr;
                       ci_RemoteAddr := peerAddr; ci_RelayAddr := "" |}
       end).

(** The lock is held throughout, but two allocations are told apart by nothing
    else. *)
Definition getOrCreateAllocation (localAddr : string) : Prog Net (result string string) :=
  let! allocation := look (fun o => match ov_nat o with Some n => nt_allocation n | None => None end) in
  match allocation with
  | Some a => Ret (Ok a)
  | None =>
      let! a := call (AllocateRelay localAddr) else "" in
      let! _ := put (set_nat (fun n => n <| nt_allocation := Some a |>)) in Ret (Ok a)
  end.

Definition establishRelayConnection (localAddr peerAddr : string)
    : Prog Net (result string ConnectionInfo) :=
  let! allocation := getOrCreateAllocation localAddr else "failed to get TURN allocation: " in
  let! err := call (CreatePermission allocation peerAddr) in
  Ret (match err with
       | Some err => Err ("failed to create TURN permission: " +:+ err)
       | None => Ok {| ci_Strategy := StrategyRelay; ci_LocalAddr := localAddr;
                       ci_RemoteAddr := peerAddr; ci_RelayAddr := allocation |}
       end).

Definition establishHolePunchConnection (localAddr peerAddr : string)
    : Prog Net (result string ConnectionInfo) :=
  let! err := call (PerformHolePunch localAddr peerAddr) in
  match err with
  | Some _ => establishRelayConnection localAddr peerAddr
  | None => Ret (Ok {| ci_Strategy := StrategyHolePunch; ci_LocalAddr := localAddr;
                       ci_RemoteAddr := peerAddr; ci_RelayAddr := "" |})
  end.

Definition EstablishConnection (localAddr peerPublicAddr peerNATType : string)
    : Prog Net (result string ConnectionInfo) :=
  let! info := GetNATInfo in
  match info with
  | None => Ret (Err "NAT info not available")
  | Some info =>
      let strategy := determineStrategy (ni_Type info) peerNATType in
      if strategy =?s StrategyDirect then establishDirectConnection localAddr peerPublicAddr
      else if strategy =?s StrategyHolePunch then establishHolePunchConnection localAddr peerPublicAddr
      else establishRelayConnection localAddr peerPublicAddr
  end.

(** ** The peer manager (peer.go) *)

Definition direct_address (p : Peer) : string := peer_Address p +:+ ":" +:+ show_Z (peer_Port p).

(** The status and the time are fields of the shared object; the pointer that
    was loaded is stored again. *)
Definition updatePeerStatus (id status : string) : Prog Net unit :=
  let! p := look (fun o => ov_peers o !! id) in
  match p with
  | None => Ret tt
  | Some p =>
      let! _ := put (change_peer p (fun x => x <| peer_Status := status |>)) in
      let! now := call Clock in
      let! _ := put (change_peer p (fun x => x <| peer_LastSeen := now |>)) in
      put (store_peer id p)
  end.

Definition determineConnectionAddress (p : Pointer) : Prog Net (result string (string * string)) :=
  let! peer := look (object p) in
  let! nat := look ov_nat in
  match nat with
  | None => Ret (Ok (direct_address peer, "direct"))
  | Some _ =>
      let! info := GetNATInfo in
      match info with
      | None => Ret (Ok (direct_address peer, "direct"))
      | Some _ =>
          let host := if peer_PublicIP peer =?s "" then peer_Address peer else peer_PublicIP peer in
          let natType := if peer_NATType peer =?s "" then NATTypePortRestrictedCone
                         else peer_NATType peer in
          let! localAddr := look ov_localAddr in
          let! ci := EstablishConnection localAddr (host +:+ ":" +:+ show_Z (peer_Port peer)) natType
            else "NAT traversal failed: " in
          Ret (Ok (GetEffectiveAddr ci, ci_Strategy ci))
      end
  end.

(** A connection that is open, after dropping one that is closed. *)
Definition open_connection (id : string) : Prog Net (option Connection) :=
  let! c := look (fun o => ov_connections o !! id) in
  match c with
  | None => Ret None
  | Some c =>
      let! closed := call (IsClosed c) in
      if (closed : bool) then (let! _ := put (drop_connection id) in Ret None) else Ret (Some c)
  end.

Definition dial_peer (p : Pointer) (id : string) : Prog Net (result string Connection) :=
  let! _ := updatePeerStatus id PeerStatusConnecting in
  let! place := determineConnectionAddress p in
  let! peer := look (object p) in
  let addr := match place with Ok a => a.1 | Err _ => direct_address peer end in
  let! dialled := call (Dial id addr) in
  match dialled with
  | Err err =>
      let! _ := updatePeerStatus id PeerStatusUnreachable in
      Ret (Err ("failed to connect to peer " +:+ id +:+ ": " +:+ err))
  | Ok c =>
      let! _ := put (fun o => o <| ov_connections := <[id := c]> (ov_connections o) |>) in
      let! _ := updatePeerStatus id PeerStatusConnected in
      let! _ := call (Go (Monitoring id c)) in
      Ret (Ok c)
  end.

Definition connectToPeerSync (p : Pointer) : Prog Net (result string Connection) :=
  let! peer := look (object p) in
  let! c := open_connection (peer_ID peer) in
  match c with
  | Some c => Ret (Ok c)
  | None => dial_peer p (peer_ID peer)
  end.

Definition connectToPeer (p : Pointer) : Prog Net unit :=
  let! r := connectToPeerSync p in
  match r with
  | Ok _ => Ret tt
  | Err _ =>
      let! peer := look (object p) in updatePeerStatus (peer_ID peer) PeerStatusUnreachable
  end.

Definition AddPeer (p : Pointer) : Prog Net unit :=
  let! now := call Clock in
  let! _ := put (change_peer p (fun x => x <| peer_LastSeen := now |>)) in
  let! peer := look (object p) in
  let! _ := put (store_peer (peer_ID peer) p) in
  call (Go (Connecting p)).

(** The caller's object, and its pointer. *)
Definition new_peer (x : Peer) : Prog Net Pointer :=
  call (State (fun o => (length (ov_objects o), o <| ov_objects := app (ov_objects o) [x] |>))).

Definition RemovePeer (id : string) : Prog Net unit :=
  let! c := look (fun o => ov_connections o !! id) in
  let! _ := (match c with
             | None => Ret tt
             | Some c => let! _ := call (Close c) in put (drop_connection id)
             end) in
  put (fun o => o <| ov_peers := delete id (ov_peers o) |>).

Definition GetPeer (id : string) : Prog Net (result string Pointer) :=
  let! p := look (fun o => ov_peers o !! id) in
  Ret (match p with Some p => Ok p | None => Err ("peer not found: " +:+ id) end).

Definition GetConnection (id : string) : Prog Net (result string Connection) :=
  let! c := open_connection id in
  match c with
  | Some c => Ret (Ok c)
  | None => let! p := GetPeer id else "" in connectToPeerSync p
  end.

Section loops.
Context `{GoRange}.

Definition ListPeers : Prog Net (list Pointer) := look (fun o => (range_map (ov_peers o)).*2).

(** One turn of the loop, which is woken every five seconds. *)
Definition monitorConnection (id : string) (c : Connection) : Prog Net unit :=
  let! closed := call (IsClosed c) in
  if (closed : bool) then
    let! _ := put (drop_connection id) in updatePeerStatus id PeerStatusDisconnected
  else call (Go (Monitoring id c)).

Definition check_connection (idc : string * Connection) : Prog Net unit :=
  let! closed := call (IsClosed idc.2) in
  if (closed : bool) then
    let! _ := put (drop_connection idc.1) in updatePeerStatus idc.1 PeerStatusDisconnected
  else call (Go (Pinging idc.1 idc.2)).

Definition performHealthChecks : Prog Net unit :=
  let! l := look (fun o => range_map (ov_connections o)) in each check_connection l.

(** The answer is read, but not looked at. *)
Definition pingPeer (id : string) (c : Connection) : Prog Net unit :=
  let! started := call Clock in
  let! opened := call (OpenStream c) in
  match opened with
  | Some _ => updatePeerStatus id PeerStatusUnreachable
  | None =>
      let! written := call (WritePing c) in
      match written with
      | Some _ => updatePeerStatus id PeerStatusUnreachable
      | None =>
          let! answered := call (ReadPong c) in
          match answered with
          | Some _ => updatePeerStatus id PeerStatusUnreachable
          | None =>
              let! finished := call Clock in
              let! p := look (fun o => ov_peers o !! id) in
              match p with
              | None => Ret tt
              | Some p =>
                  let! _ := put (change_peer p (fun x => x <| peer_Latency := time_Sub finished started |>)) in
                  let! now := call Clock in
                  let! _ := put (change_peer p (fun x => x <| peer_LastSeen := now |>)) in
                  put (store_peer id p)
              end
          end
      end
  end.

(** Connected, or about to be. *)
Definition engaged (status : string) : bool :=
  (status =?s PeerStatusConnected) || (status =?s PeerStatusConnecting).

Definition attempt_reconnection (p : Pointer) : Prog Net unit :=
  let! peer := look (object p) in
  if engaged (peer_Status peer) then Ret tt else call (Go (Connecting p)).

Definition attemptReconnections : Prog Net unit :=
  let! l := ListPeers in each attempt_reconnection l.

(** The peers whose status is connected when it is read. *)
Fixpoint connected_among (l : list Pointer) : Prog Net (list string) :=
  match l with
  | [] => Ret []
  | p :: l =>
      let! peer := look (object p) in
      let! rest := connected_among l in
      Ret (if peer_Status peer =?s PeerStatusConnected then peer_ID peer :: rest else rest)
  end.

Definition GetPeerCount : Prog Net Z := let! l := ListPeers in Ret (len l).

Definition GetConnectedPeerCount : Prog Net Z :=
  let! l := ListPeers in let! c := connected_among l in Ret (len c).

Definition UpdatePeerMetadata (id : string) (metadata : gmap string string) : Prog Net (result string unit) :=
  let! p := GetPeer id else "" in
  let! _ := put (change_peer p (fun x => x <| peer_Metadata := metadata ∪ peer_Metadata x |>)) in
  let! _ := put (store_peer id p) in
  Ret (Ok tt).

(** [Stop]: the connections are closed. *)
Definition StopPeers : Prog Net unit :=
  let! l := look (fun o => (range_map (ov_connections o)).*2) in each (fun c => call (Close c)) l.

End loops.
