(* ===== verification/Mesh.v ===== *)
(** * The mesh manager (pkg/overlay/mesh.go)

    The manager keeps the topology of the mesh and its routes over the peer
    manager, whose programs and state are those of [Peers].  The fields that a
    score is made of are read at once. *)

From S2P Require Import Prelude GoText GoFloat Goroutines Peers.

Local Open Scope string_scope.
Local Open Scope Z_scope.
Local Open Scope prog_scope.

(** ** Scores *)

(** [d.Milliseconds()]. *)
Definition Milliseconds (d : Z) : Z := Z.quot d 1000000.

Definition scorePeer (now : Z) (p : Peer) : float64 :=
  let score := f_of_Z 100 in
  let score := if 0 <? peer_Latency p
               then fsub score (fmul (f_of_Z (Milliseconds (peer_Latency p))) (flit 1 10)) else score in
  let score := if 5 * minute <? time_Sub now (peer_LastSeen p) then fsub score (f_of_Z 10) else score in
  if 0 <? peer_Bandwidth p
  then fadd score (fmul (fdiv (f_of_Z (peer_Bandwidth p)) (f_of_Z (1024 * 1024))) (flit 1 100))
  else score.

(** ** Sorting by exchange *)

Section sort.
Context {A : Type} (before : A → A → bool).

(** One turn of the outer loop: what ends up at the front, and the others. *)
Fixpoint exchange (x : A) (l : list A) : A * list A :=
  match l with
  | [] => (x, [])
  | y :: l =>
      if before y x then let '(z, l) := exchange y l in (z, x :: l)
      else let '(z, l) := exchange x l in (z, y :: l)
  end.

(** [n] turns, as many as there are elements. *)
Fixpoint exchange_turns (n : nat) (l : list A) : list A :=
  match n, l with
  | S n, x :: l => let '(z, l) := exchange x l in z :: exchange_turns n l
  | _, _ => l
  end.

Definition exchange_sort (l : list A) : list A := exchange_turns (length l) l.

End sort.

(** ** Topology *)

Section mesh.
Context `{GoRange}.

(** The peers that [wanted] says are of interest, with their scores. *)
Fixpoint scored (wanted : string → bool) (l : list Pointer) : Prog Net (list (Pointer * float64)) :=
  match l with
  | [] => Ret []
  | p :: l =>
      let! peer := look (object p) in
      if wanted (peer_Status peer) then
        let! now := call Clock in
        let! rest := scored wanted l in
        Ret ((p, scorePeer now peer) :: rest)
      else scored wanted l
  end.

Definition higher (x y : Pointer * float64) : bool := flt y.2 x.2.
Definition lower (x y : Pointer * float64) : bool := flt x.2 y.2.

Definition findBestPeerCandidates (peers : list Pointer) (count : Z) : Prog Net (list Pointer) :=
  let! l := scored (fun status => negb (engaged status)) peers in
  Ret (take (Z.to_nat count) (exchange_sort higher l)).*1.

(** The identifier is read when the peer is removed. *)
Definition remove_peer (p : Pointer) : Prog Net unit :=
  let! peer := look (object p) in RemovePeer (peer_ID peer).

Definition pruneExcessPeers (peers : list Pointer) (count : Z) : Prog Net unit :=
  let! l := scored (fun status => status =?s PeerStatusConnected) peers in
  each remove_peer (take (Z.to_nat count) (exchange_sort lower l)).*1.

Definition add_candidate (p : Pointer) : Prog Net unit :=
  let! peer := look (object p) in
  if engaged (peer_Status peer) then Ret tt else AddPeer p.

Definition maintainPartialMesh (peers : list Pointer) : Prog Net unit :=
  let! connected := GetConnectedPeerCount in
  let! max := look (fun o => mc_MaxPeers (ov_config o)) in
  let! _ := (if (connected <? max) && (connected <? len peers) then
               let! candidates := findBestPeerCandidates peers (max - connected) in
               each add_candidate candidates
             else Ret tt) in
  if max <? connected then pruneExcessPeers peers (connected - max) else Ret tt.

(** ** Routes *)

Definition getCurrentTopology : Prog Net (list string) :=
  let! peers := ListPeers in connected_among peers.

(** The first route of the cache by one of the connected peers, in their
    order. *)
Fixpoint through (dest : string) (connected : list string) : Prog Net (option Route) :=
  match connected with
  | [] => Ret None
  | id :: connected =>
      let! routes := look (fun o => default [] (ov_routeCache o !! dest)) in
      match List.find (fun r => rt_NextHop r =?s id) routes with
      | Some r => Ret (Some {| rt_Destination := dest; rt_NextHop := id;
                               rt_Metric := int64 (rt_Metric r + 1); rt_Interface := "indirect" |})
      | None => through dest connected
      end
  end.

Definition findAlternateRoute (dest : string) : Prog Net (option Route) :=
  let! connected := getCurrentTopology in through dest connected.

Definition store_route (dest : string) (r : Route) : Prog Net unit :=
  put (fun o => o <| ov_routes := <[dest := r]> (ov_routes o) |>).

Definition store_alternate (dest : string) : Prog Net unit :=
  let! r := findAlternateRoute dest in
  match r with Some r => store_route dest r | None => Ret tt end.

Definition heal_route (dr : string * Route) : Prog Net unit :=
  let! p := GetPeer (rt_NextHop dr.2) in
  match p with
  | Err _ => store_alternate dr.1
  | Ok p =>
      let! peer := look (object p) in
      if peer_Status peer =?s PeerStatusConnected then Ret tt else store_alternate dr.1
  end.

Definition healMesh : Prog Net unit :=
  let! l := look (fun o => range_map (ov_routes o)) in each heal_route l.

(** A full mesh is left to the peer manager. *)
Definition maintainTopology : Prog Net unit :=
  let! peers := ListPeers in
  let! type := look (fun o => mc_MeshType (ov_config o)) in
  let! _ := (if type =?s MeshTypePartial then maintainPartialMesh peers else Ret tt) in
  healMesh.

Definition same_route (r r' : Route) : bool :=
  (rt_NextHop r =?s rt_NextHop r') && (rt_Metric r =? rt_Metric r').

Definition cacheRoute (dest : string) (route : Route) : Prog Net unit :=
  let! routes := look (fun o => default [] (ov_routeCache o !! dest)) in
  if existsb (fun r => same_route r route) routes then Ret tt
  else put (fun o => o <| ov_routeCache := <[dest := app routes [route]]> (ov_routeCache o) |>).

Definition direct_route (id : string) : Route :=
  {| rt_Destination := id; rt_NextHop := id; rt_Metric := 1; rt_Interface := "direct" |}.

Definition discover_route (p : Pointer) : Prog Net unit :=
  let! peer := look (object p) in
  let id := peer_ID peer in
  if peer_Status peer =?s PeerStatusConnected then
    let! _ := store_route id (direct_route id) in cacheRoute id (direct_route id)
  else store_alternate id.

Definition discoverRoutes : Prog Net unit :=
  let! peers := ListPeers in each discover_route peers.

Definition syncTopology : Prog Net unit :=
  let! topology := getCurrentTopology in
  put (fun o => o <| ov_topology := <[ov_nodeID o := topology]> (ov_topology o) |>).

Definition UpdatePeerTopology (peerID : string) (connectedPeers : list string) : Prog Net unit :=
  let! _ := put (fun o => o <| ov_topology := <[peerID := connectedPeers]> (ov_topology o) |>) in
  call (Go Discovering).

Definition GetRoute (dest : string) : Prog Net (result string Route) :=
  let! r := look (fun o => ov_routes o !! dest) in
  Ret (match r with Some r => Ok r | None => Err ("no route to destination: " +:+ dest) end).

Definition GetRoutes : Prog Net (list Route) := look (fun o => (range_map (ov_routes o)).*2).

Definition GetTopology : Prog Net (gmap string (list string)) := look ov_topology.

Definition countRoutes : Prog Net Z := let! l := GetRoutes in Ret (len l).

Record MeshStats := {
  ms_TotalPeers : Z; ms_ConnectedPeers : Z; ms_TotalRoutes : Z; ms_MeshType : string; ms_MaxPeers : Z
}.

Definition GetMeshStats : Prog Net MeshStats :=
  let! peers := ListPeers in
  let! connected := GetConnectedPeerCount in
  let! routes := countRoutes in
  let! c := look ov_config in
  Ret {| ms_TotalPeers := len peers; ms_ConnectedPeers := connected; ms_TotalRoutes := routes;
         ms_MeshType := mc_MeshType c; ms_MaxPeers := mc_MaxPeers c |}.

(** What a goroutine of the two managers does. *)
Definition task (t : Task) : Prog Net unit :=
  match t with
  | Connecting p => connectToPeer p
  | Monitoring id c => monitorConnection id c
  | Pinging id c => pingPeer id c
  | Discovering => discoverRoutes
  end.

End mesh.
