(* ===== verification/MeshSpec.v ===== *)
(** * What the mesh does

    The managers of the overlay run as goroutines that start others.  In every
    interleaving, whatever the network answers, a route leads to its destination
    by that destination itself; and a peer that has lost its status while its
    connection stays open never gets it back. *)

From S2P Require Import Prelude GoText GoFloat Goroutines Peers Mesh.

Local Open Scope Z_scope.

(** ** The world of the goroutines *)

(** What the outside answers at one moment. *)
Record Outside := {
  ou_clock : Z;
  ou_dial : string → string → result string Connection;
  ou_closed : Connection → bool;
  ou_stream : Connection → option string;
  ou_write : Connection → option string;
  ou_read : Connection → option string;
  ou_test : string → string → option string;
  ou_punch : string → string → option string;
  ou_allocate : string → result string string;
  ou_permit : string → string → option string;
  ou_discover : string → result string NATInfo
}.

Record Network := { nw_tick : nat; nw_overlay : Overlay; nw_spawned : list Task }.

(** ** Sorting by exchange *)

Section sort.
Context {A : Type} (before : A → A → bool).

Lemma exchange_perm x l : (exchange before x l).1 :: (exchange before x l).2 ≡ₚ x :: l.
Proof.
  revert x. induction l as [|y l IH]; intros x; simpl; [done|]. destruct (before y x).
  - specialize (IH y). destruct (exchange before y l) as [z l']. simpl in *. by rewrite Permutation_swap, IH.
  - specialize (IH x). destruct (exchange before x l) as [z l']. simpl in *.
    by rewrite Permutation_swap, IH, Permutation_swap.
Qed.

Lemma exchange_turns_perm n l : exchange_turns before n l ≡ₚ l.
Proof.
  revert l. induction n as [|n IH]; intros [|x l]; simpl; [done..|].
  pose proof (exchange_perm x l) as Hp. destruct (exchange before x l) as [z l']. by rewrite IH.
Qed.

Context (Hsw : strict_weak before).

(** What ends up at the front comes before no other. *)
Lemma exchange_first x l y : y ∈ x :: l → before y (exchange before x l).1 = false.
Proof.
  revert x y. induction l as [|z l IH]; intros x y; simpl.
  { rewrite list_elem_of_singleton. intros ->. apply (sw_irrefl _ Hsw). }
  destruct (before z x) eqn:Ez.
  - pose proof (IH z) as IHz. destruct (exchange before z l) as [m l']. simpl in *.
    rewrite elem_of_cons. intros [->|Hy]; [|by apply IHz].
    specialize (IHz z ltac:(by left)). destruct (before x m) eqn:Exm; [|done].
    by rewrite (sw_trans _ Hsw z x m Ez Exm) in IHz.
  - pose proof (IH x) as IHx. destruct (exchange before x l) as [m l']. simpl in *.
    rewrite !elem_of_cons. intros [->|[->|Hy]]; [apply IHx; by left| |apply IHx; by right].
    apply (sw_incomp _ Hsw z x m); [done|]. apply IHx. by left.
Qed.

Lemma exchange_turns_sorted n l : (length l ≤ n)%nat → sorted_by before (exchange_turns before n l).
Proof.
  revert l. induction n as [|n IH]; intros [|x l] Hn; simpl in *; [constructor|lia|constructor|].
  pose proof (exchange_perm x l) as Hp. pose proof (exchange_first x l) as Hf.
  destruct (exchange before x l) as [z l'] eqn:E. simpl in *. constructor.
  - apply IH. apply Permutation_length in Hp. simpl in Hp. lia.
  - apply Forall_forall. intros y Hy. rewrite exchange_turns_perm in Hy. apply Hf. rewrite <-Hp. by right.
Qed.

(** The loops sort. *)
Lemma exchange_sort_correct l : exchange_sort before l ≡ₚ l ∧ sorted_by before (exchange_sort before l).
Proof. split; [apply exchange_turns_perm|by apply exchange_turns_sorted]. Qed.

End sort.

Section network.
Context `{GoRange} (outside : nat → Outside).

Definition with_overlay (o : Overlay) (w : Network) : Network :=
  {| nw_tick := S (nw_tick w); nw_overlay := o; nw_spawned := nw_spawned w |}.

Definition net_call (X : Type) (c : Net X) (w : Network) : X * Network :=
  let out := outside (nw_tick w) in
  let on := with_overlay (nw_overlay w) w in
  match c in Net X return X * Network with
  | Clock => (ou_clock out, on)
  | State f => ((f (nw_overlay w)).1, with_overlay (f (nw_overlay w)).2 w)
  | Go t => (tt, {| nw_tick := S (nw_tick w); nw_overlay := nw_overlay w; nw_spawned := t :: nw_spawned w |})
  | Dial id addr => (ou_dial out id addr, on)
  | IsClosed c => (ou_closed out c, on)
  | Close c => (tt, on)
  | OpenStream c => (ou_stream out c, on)
  | WritePing c => (ou_write out c, on)
  | ReadPong c => (ou_read out c, on)
  | TestConnectivity l p => (ou_test out l p, on)
  | PerformHolePunch l p => (ou_punch out l p, on)
  | AllocateRelay l => (ou_allocate out l, on)
  | CreatePermission r p => (ou_permit out r p, on)
  | DiscoverNATInfo l => (ou_discover out l, on)
  end.

(** A call of a goroutine, the start of one that was spawned, or an operation
    that begins. *)
Inductive mesh_step (allowed : Prog Net unit → Prop)
    : list (Prog Net unit) * Network → list (Prog Net unit) * Network → Prop :=
| ms_call x y : pstep net_call x y → mesh_step allowed x y
| ms_spawn l tick o before t after :
    mesh_step allowed (l, {| nw_tick := tick; nw_overlay := o; nw_spawned := before ++ t :: after |})
      (l ++ [task t], {| nw_tick := tick; nw_overlay := o; nw_spawned := before ++ after |})
| ms_begin l w p : allowed p → mesh_step allowed (l, w) (l ++ [p], w).

Definition mesh_run allowed := rtc (mesh_step allowed).

(** ** The invariant *)

(** A pointer to an object with an identifier. *)
Definition names (o : Overlay) (p : Pointer) (id : string) : Prop :=
  ∃ x, ov_objects o !! p = Some x ∧ peer_ID x = id.

Definition to_itself (dest : string) (r : Route) : Prop :=
  rt_Destination r = dest ∧ rt_NextHop r = dest ∧ (rt_Metric r = 1 ∨ rt_Metric r = 2).

Record wellformed (o : Overlay) : Prop := {
  wf_peers : ∀ id p, ov_peers o !! id = Some p → names o p id;
  wf_routes : ∀ dest r, ov_routes o !! dest = Some r → to_itself dest r;
  wf_cache : ∀ dest l r, ov_routeCache o !! dest = Some l → r ∈ l → rt_NextHop r = dest ∧ rt_Metric r = 1
}.

(** A peer whose connection is open, but which does not count as connected. *)
Context (lost : option (string * Connection)).

Definition given_up (o : Overlay) : Prop :=
  ∀ id c, lost = Some (id, c) →
    ov_connections o !! id = Some c ∧ ov_routes o !! id = None ∧
    ∀ p x, ov_objects o !! p = Some x → peer_ID x = id → peer_Status x ≠ PeerStatusConnected.

Hypothesis stays_open : ∀ id c n, lost = Some (id, c) → ou_closed (outside n) c = false.

Definition task_ok (o : Overlay) (t : Task) : Prop :=
  match t with
  | Connecting p => ∃ id, names o p id
  | Monitoring id c => ∀ c', lost = Some (id, c') → c' = c
  | Pinging _ _ | Discovering => True
  end.

Record sound (w : Network) : Prop := {
  so_wf : wellformed (nw_overlay w);
  so_lost : given_up (nw_overlay w);
  so_tasks : Forall (task_ok (nw_overlay w)) (nw_spawned w)
}.

(** Objects keep their identifiers. *)
Definition grows (w w' : Network) : Prop :=
  ∀ p id, names (nw_overlay w) p id → names (nw_overlay w') p id.

#[local] Instance grows_preorder : PreOrder grows.
Proof. split; [by intros w p id|]. intros w1 w2 w3 Hg1 Hg2 p id Hn. by apply Hg2, Hg1. Qed.

Abbreviation runs p Q w := (upholds net_call sound grows p Q w).
Abbreviation fine p w := (runs p (fun _ _ => True) w).

Lemma task_ok_names o o' t : (∀ p id, names o p id → names o' p id) → task_ok o t → task_ok o' t.
Proof. destruct t; [|done..]. cbn. intros Hn [id Hp]. exists id. auto. Qed.

Lemma sound_overlay w o :
  sound w → wellformed o → given_up o → (∀ p id, names (nw_overlay w) p id → names o p id) →
  sound (with_overlay o w) ∧ grows w (with_overlay o w).
Proof.
  intros [_ _ Ht] Hw Hl Hn. split; [|exact Hn]. split; [done|done|]. cbn.
  eapply Forall_impl; [exact Ht|]. intros t. by apply task_ok_names.
Qed.

(** ** Calls *)

Lemma state_spec {X} (f : Overlay → X * Overlay) (Q : X → Network → Prop) w :
  sound w →
  (∀ w1, sound w1 → grows w w1 → let o := nw_overlay w1 in
     wellformed (f o).2 ∧ given_up (f o).2 ∧ (∀ p id, names o p id → names (f o).2 p id) ∧
     ∀ w2, (∀ p id, names (f o).2 p id → names (nw_overlay w2) p id) → Q (f o).1 w2) →
  runs (call (State f)) Q w.
Proof.
  intros Hw Hf. apply upholds_call; [apply _|done|]. intros w1 Hw1 Hg.
  destruct (Hf w1 Hw1 Hg) as (Hwf & Hl & Hn & HQ). cbn.
  destruct (sound_overlay w1 _ Hw1 Hwf Hl Hn) as [Hs Hg']. split_and!; [done|done|].
  intros w2 Hg2. apply HQ. exact Hg2.
Qed.

(** A call that leaves the overlay as it is. *)
Lemma outside_spec {X} (c : Net X) (Q : X → Network → Prop) w :
  sound w → (∀ w1, (net_call X c w1).2 = with_overlay (nw_overlay w1) w1) →
  (∀ w1 w2, sound w1 → Q (net_call X c w1).1 w2) → runs (call c) Q w.
Proof.
  intros Hw Hc HQ. apply upholds_call; [apply _|done|]. intros w1 Hw1 Hg. rewrite Hc.
  destruct (sound_overlay w1 (nw_overlay w1) Hw1 (so_wf w1 Hw1) (so_lost w1 Hw1)) as [Hs Hg']; [done|].
  split_and!; [done|done|]. intros w2 _. by apply HQ.
Qed.

Lemma go_spec t w : sound w → task_ok (nw_overlay w) t → fine (call (Go t)) w.
Proof.
  intros Hw Ht. apply upholds_call; [apply _|done|]. intros w1 Hw1 Hg. split_and!; [|by intros p id|done].
  split; [apply (so_wf w1 Hw1)|apply (so_lost w1 Hw1)|]. cbn. constructor; [|apply (so_tasks w1 Hw1)].
  by apply (task_ok_names (nw_overlay w)).
Qed.

Lemma look_spec {X} (f : Overlay → X) (Q : X → Network → Prop) w :
  sound w →
  (∀ w1 w2, sound w1 → grows w w1 → grows w1 w2 → Q (f (nw_overlay w1)) w2) → runs (look f) Q w.
Proof.
  intros Hw HQ. apply state_spec; [done|]. intros w1 Hw1 Hg.
  split_and!; [apply (so_wf w1 Hw1)|apply (so_lost w1 Hw1)|done|]. intros w2 Hn. by apply HQ.
Qed.

Lemma put_spec (f : Overlay → Overlay) w :
  sound w →
  (∀ w1, sound w1 → grows w w1 → let o := nw_overlay w1 in
     wellformed (f o) ∧ given_up (f o) ∧ ∀ p id, names o p id → names (f o) p id) →
  fine (put f) w.
Proof.
  intros Hw Hf. apply state_spec; [done|]. intros w1 Hw1 Hg. destruct (Hf w1 Hw1 Hg) as (? & ? & ?).
  by split_and!.
Qed.

(** ** Changes of the overlay *)

Definition spared (id : string) : Prop := ∀ c, lost ≠ Some (id, c).

Definition harmless (f : Overlay → Overlay) (o : Overlay) : Prop :=
  wellformed (f o) ∧ given_up (f o) ∧ ∀ p id, names o p id → names (f o) p id.

Lemma change_peer_ok p f o :
  wellformed o → given_up o → (∀ x, peer_ID (f x) = peer_ID x) →
  (∀ x, ov_objects o !! p = Some x → ¬ spared (peer_ID x) → peer_Status x ≠ PeerStatusConnected →
     peer_Status (f x) ≠ PeerStatusConnected) →
  harmless (change_peer p f) o.
Proof.
  intros [Hp Hr Hc] Hl Hid Hst.
  assert (∀ q id, names o q id → names (change_peer p f o) q id) as Hn.
  { intros q id (x & Hx & <-). unfold names. cbn. destruct (decide (q = p)) as [->|Hq].
    - exists (f x). by rewrite list_lookup_alter_eq, Hx.
    - exists x. by rewrite list_lookup_alter_ne by done. }
  split; [|split; [|exact Hn]].
  - split; [|exact Hr|exact Hc]. intros id q Hq. by apply Hn, Hp.
  - intros id c E. destruct (Hl id c E) as (Hcon & Hro & Hall). split_and!; [done|done|].
    intros q x. cbn. destruct (decide (q = p)) as [->|Hq].
    + rewrite list_lookup_alter_eq. destruct (ov_objects o !! p) as [y|] eqn:Ey; [|done].
      intros [= <-]. rewrite Hid. intros Hy. apply Hst; [done| |by eapply Hall].
      intros Hs. rewrite Hy in Hs. exact (Hs c E).
    + rewrite list_lookup_alter_ne by done. apply Hall.
Qed.

Lemma store_peer_ok id p o : wellformed o → given_up o → names o p id → harmless (store_peer id p) o.
Proof.
  intros [Hp Hr Hc] Hl Hn. split; [|by split]. split; [|exact Hr|exact Hc].
  intros id' p'. cbn. rewrite lookup_insert_Some. intros [[<- <-]|[_ Hp']]; [done|by apply Hp].
Qed.

Lemma drop_connection_ok id o : wellformed o → given_up o → spared id → harmless (drop_connection id) o.
Proof.
  intros [Hp Hr Hc] Hl Hs. split; [by split|]. split; [|done].
  intros id' c E. destruct (Hl id' c E) as (Hcon & Hro & Hall). split_and!; [|done|done]. cbn.
  rewrite lookup_delete_ne; [done|]. intros ->. by apply (Hs c).
Qed.

Lemma add_connection_ok id c o :
  wellformed o → given_up o → spared id →
  harmless (fun o => o <| ov_connections := <[id := c]> (ov_connections o) |>) o.
Proof.
  intros [Hp Hr Hc] Hl Hs. split; [by split|]. split; [|done].
  intros id' c' E. destruct (Hl id' c' E) as (Hcon & Hro & Hall). split_and!; [|done|done]. cbn.
  rewrite lookup_insert_ne; [done|]. intros ->. by apply (Hs c').
Qed.

Lemma store_route_ok dest r o :
  wellformed o → given_up o → to_itself dest r → spared dest →
  harmless (fun o => o <| ov_routes := <[dest := r]> (ov_routes o) |>) o.
Proof.
  intros [Hp Hr Hc] Hl Ht Hs. split; [|split; [|done]].
  - split; [exact Hp| |exact Hc]. intros dest' r'. cbn. rewrite lookup_insert_Some.
    intros [[<- <-]|[_ Hr']]; [done|by apply Hr].
  - intros id c E. destruct (Hl id c E) as (Hcon & Hro & Hall). split_and!; [done| |done]. cbn.
    rewrite lookup_insert_ne; [done|]. intros ->. by apply (Hs c).
Qed.

Lemma cache_ok dest l o :
  wellformed o → given_up o → (∀ r, r ∈ l → rt_NextHop r = dest ∧ rt_Metric r = 1) →
  harmless (fun o => o <| ov_routeCache := <[dest := l]> (ov_routeCache o) |>) o.
Proof.
  intros [Hp Hr Hc] Hl Hin. split; [|by split]. split; [exact Hp|exact Hr|].
  intros dest' l' r. cbn. rewrite lookup_insert_Some. intros [[<- <-]|[_ Hl']]; [apply Hin|by apply Hc].
Qed.

Lemma delete_peer_ok id o :
  wellformed o → given_up o → harmless (fun o => o <| ov_peers := delete id (ov_peers o) |>) o.
Proof.
  intros [Hp Hr Hc] Hl. split; [|by split]. split; [|exact Hr|exact Hc].
  intros id' p. cbn. rewrite lookup_delete_Some. intros [_ Hp']. by apply Hp.
Qed.

Lemma put_harmless f w :
  sound w → (∀ w1, sound w1 → grows w w1 → harmless f (nw_overlay w1)) → fine (put f) w.
Proof. intros Hw Hf. by apply put_spec. Qed.

(** What does not touch the peers, the connections and the routes. *)
Lemma put_other f w :
  sound w → (∀ o, wellformed o → given_up o → harmless f o) → fine (put f) w.
Proof. intros Hw Hf. apply put_harmless; [done|]. intros w1 [Hwf Hl _] _. auto. Qed.

Lemma clock_spec w : sound w → fine (call Clock) w.
Proof. intros Hw. by apply outside_spec. Qed.

Lemma closed_spec c w :
  sound w → runs (call (IsClosed c)) (fun b _ => b = true → ∀ id, lost ≠ Some (id, c)) w.
Proof.
  intros Hw. apply outside_spec; [done..|]. intros w1 w2 Hw1. cbn. intros Hb id E.
  by rewrite (stays_open id c _ E) in Hb.
Qed.

(** ** The peer manager *)

(** The next call of a program, with what is known of its answer. *)
Ltac step H := eapply upholds_bind; [apply _|H|].
Ltac step_or_fail H := eapply (upholds_attempt _ _ _ _ _ _ (fun _ _ => True)); [H| |done].

Lemma lookup_peer_spec id w :
  sound w →
  runs (look (fun o => ov_peers o !! id)) (fun r w' => ∀ p, r = Some p → names (nw_overlay w') p id) w.
Proof.
  intros Hw. apply look_spec; [done|]. intros w1 w2 Hw1 _ Hg p Hp. by apply Hg, (wf_peers _ (so_wf w1 Hw1)).
Qed.

Lemma names_fun o p id id' : names o p id → names o p id' → id = id'.
Proof. intros (x & Hx & <-) (y & Hy & <-). congruence. Qed.

Lemma change_spec p id f w :
  sound w → names (nw_overlay w) p id → (∀ x, peer_ID (f x) = peer_ID x) →
  (¬ spared id → ∀ x, peer_Status x ≠ PeerStatusConnected → peer_Status (f x) ≠ PeerStatusConnected) →
  fine (put (change_peer p f)) w.
Proof.
  intros Hw Hn Hid Hst. apply put_harmless; [done|]. intros w1 [Hwf Hl _] Hg. apply change_peer_ok; [done..|].
  intros x Hx. assert (peer_ID x = id) as ->; [|auto].
  apply (names_fun (nw_overlay w1) p); [by exists x|by apply Hg].
Qed.

Lemma store_spec p id w :
  sound w → names (nw_overlay w) p id → fine (put (store_peer id p)) w.
Proof.
  intros Hw Hn. apply put_harmless; [done|]. intros w1 [Hwf Hl _] Hg. apply store_peer_ok; [done..|]. by apply Hg.
Qed.

(** The time of a peer, after which its pointer is stored. *)
Lemma seen_spec p id w :
  sound w → names (nw_overlay w) p id →
  fine (bind (call Clock) (fun now =>
    bind (put (change_peer p (fun x => x <| peer_LastSeen := now |>))) (fun _ => put (store_peer id p)))) w.
Proof.
  intros Hw Hn. step ltac:(by apply clock_spec). intros now w1 Hw1 Hg1 _.
  step ltac:(apply (change_spec p id); [done|by apply Hg1|done..]). intros _ w2 Hw2 Hg2 _.
  apply store_spec; [done|]. by apply Hg2, Hg1.
Qed.

Lemma update_spec id status w :
  sound w → (status = PeerStatusConnected → spared id) → fine (updatePeerStatus id status) w.
Proof.
  intros Hw Hs. step ltac:(by apply lookup_peer_spec). intros [p|] w1 Hw1 Hg1 Hp; [|by apply upholds_ret].
  specialize (Hp p eq_refl).
  step ltac:(apply (change_spec p id); [done|done|done|]). { intros Hl x _ Hx. cbn in Hx. auto. }
  intros _ w2 Hw2 Hg2 _. apply seen_spec; [done|]. by apply Hg2.
Qed.

(** Programs that only ask the outside and NAT traversal. *)
Lemma nat_spec f w : sound w → fine (put (set_nat f)) w.
Proof. intros Hw. apply put_other; [done|]. intros o [] Hl. by split. Qed.

Lemma silent_spec {X} (c : Net X) w :
  sound w → (∀ w1, (net_call X c w1).2 = with_overlay (nw_overlay w1) w1) → fine (call c) w.
Proof. intros Hw Hc. by apply outside_spec. Qed.

Lemma observe_spec {X} (f : Overlay → X) w : sound w → fine (look f) w.
Proof. intros Hw. by apply look_spec. Qed.

Ltac quiet :=
  repeat (let w := fresh "w" in let Hw := fresh "Hw" in
    first
    [ step ltac:(first [by apply observe_spec|by apply silent_spec|by apply clock_spec|by apply nat_spec]);
      intros ? w Hw _ _
    | by apply upholds_ret | by apply observe_spec | by apply nat_spec | by apply silent_spec ]).

Lemma relay_spec l p w : sound w → fine (establishRelayConnection l p) w.
Proof.
  intros Hw. step_or_fail idtac.
  - step ltac:(by apply observe_spec). intros [a|] w1 Hw1 _ _; [by apply upholds_ret|].
    step_or_fail ltac:(by apply silent_spec). intros a w2 Hw2 _ _. quiet.
  - intros a w1 Hw1 _ _. quiet.
Qed.

Lemma establish_spec l p t w : sound w → fine (EstablishConnection l p t) w.
Proof.
  intros Hw. step ltac:(by apply observe_spec). intros [info|] w1 Hw1 _ _; [|by apply upholds_ret]. cbv zeta.
  destruct (_ =?s _)%string; [unfold establishDirectConnection; quiet|].
  destruct (_ =?s _)%string; [|by apply relay_spec].
  step ltac:(by apply silent_spec). intros [e|] w2 Hw2 _ _; [by apply relay_spec|by apply upholds_ret].
Qed.

Lemma address_spec p w : sound w → fine (determineConnectionAddress p) w.
Proof.
  intros Hw. step ltac:(by apply observe_spec). intros peer w1 Hw1 _ _.
  step ltac:(by apply observe_spec). intros [n|] w2 Hw2 _ _; [|by apply upholds_ret].
  step ltac:(by apply observe_spec). intros [i|] w3 Hw3 _ _; [|by apply upholds_ret]. cbv zeta.
  step ltac:(by apply observe_spec). intros l w4 Hw4 _ _.
  step_or_fail ltac:(by apply establish_spec). intros ci w5 Hw5 _ _. by apply upholds_ret.
Qed.

Lemma connection_spec id w :
  sound w →
  runs (look (fun o => ov_connections o !! id)) (fun r _ => ∀ c c', r = Some c → lost = Some (id, c') → c' = c) w.
Proof.
  intros Hw. apply look_spec; [done|]. intros w1 w2 Hw1 _ _ c c' Hc E.
  destruct (so_lost w1 Hw1 id c' E) as [Hc' _]. congruence.
Qed.

Lemma drop_spec id w : sound w → spared id → fine (put (drop_connection id)) w.
Proof. intros Hw Hs. apply put_other; [done|]. intros o Hwf Hl. by apply drop_connection_ok. Qed.

(** Without an open connection, the peer is not the lost one. *)
Lemma open_spec id w : sound w → runs (open_connection id) (fun r _ => r = None → spared id) w.
Proof.
  intros Hw. step ltac:(apply (look_spec _ (fun r _ => ∀ c', lost = Some (id, c') → r = Some c')); [done|]).
  { intros w1 w2 Hw1 _ _ c' E. by destruct (so_lost w1 Hw1 id c' E) as [-> _]. }
  intros [c|] w1 Hw1 _ Hc; cbn beta in Hc.
  2: { apply upholds_ret; [done|]. intros w2 _ _ c E. by specialize (Hc c E). }
  step ltac:(by apply closed_spec). intros [|] w2 Hw2 _ Hb; [|by apply upholds_ret].
  assert (spared id) as Hs. { intros c' E. specialize (Hc c' E) as [= ->]. by apply (Hb eq_refl id). }
  step ltac:(by apply drop_spec). intros _ w3 Hw3 _ _. by apply upholds_ret.
Qed.

Lemma dial_spec p id w :
  sound w → names (nw_overlay w) p id → spared id → fine (dial_peer p id) w.
Proof.
  intros Hw Hn Hs. step ltac:(by apply update_spec). intros _ w1 Hw1 _ _.
  step ltac:(by apply address_spec). intros place w2 Hw2 _ _.
  step ltac:(by apply observe_spec). intros peer w3 Hw3 _ _. cbv zeta.
  step ltac:(by apply silent_spec). intros [c|e] w4 Hw4 _ _.
  - step ltac:(apply put_other; [done|]; intros o Hwf Hl; by apply add_connection_ok). intros _ w5 Hw5 _ _.
    step ltac:(by apply update_spec). intros _ w6 Hw6 _ _.
    step ltac:(apply go_spec; [done|]; intros c' E; by destruct (Hs c')). intros _ w7 Hw7 _ _. by apply upholds_ret.
  - step ltac:(by apply update_spec). intros _ w5 Hw5 _ _. by apply upholds_ret.
Qed.

Lemma object_spec p id w :
  sound w → names (nw_overlay w) p id → runs (look (object p)) (fun x _ => peer_ID x = id) w.
Proof.
  intros Hw Hn. apply look_spec; [done|]. intros w1 w2 Hw1 Hg _. destruct (Hg p id Hn) as (x & Hx & <-).
  unfold object. by rewrite Hx.
Qed.

Lemma connect_sync_spec p id w : sound w → names (nw_overlay w) p id → fine (connectToPeerSync p) w.
Proof.
  intros Hw Hn. step ltac:(by apply (object_spec p id)). intros peer w1 Hw1 Hg1 ->.
  step ltac:(by apply open_spec). intros [c|] w2 Hw2 Hg2 Hs; [by apply upholds_ret|].
  apply dial_spec; [done|by apply Hg2, Hg1|by apply Hs].
Qed.

Lemma connect_spec p id w : sound w → names (nw_overlay w) p id → fine (connectToPeer p) w.
Proof.
  intros Hw Hn. step ltac:(by apply (connect_sync_spec p id)). intros [c|e] w1 Hw1 Hg1 _; [by apply upholds_ret|].
  step ltac:(apply (object_spec p id); [done|by apply Hg1]). intros peer w2 Hw2 _ _. by apply update_spec.
Qed.

(** A look at a connection that is closed, or goes on. *)
Lemma monitor_spec id c w :
  sound w → (∀ c', lost = Some (id, c') → c' = c) → ∀ t, task_ok (nw_overlay w) t →
  fine (bind (call (IsClosed c)) (fun closed : bool =>
    if closed then bind (put (drop_connection id)) (fun _ => updatePeerStatus id PeerStatusDisconnected)
    else call (Go t))) w.
Proof.
  intros Hw Hc t Ht. step ltac:(by apply closed_spec). intros [|] w1 Hw1 Hg1 Hb.
  - assert (spared id) as Hs. { intros c' E. pose proof (Hc c' E) as ->. by apply (Hb eq_refl id). }
    step ltac:(by apply drop_spec). intros _ w2 Hw2 _ _. by apply update_spec.
  - apply go_spec; [done|]. by apply (task_ok_names (nw_overlay w)).
Qed.

Lemma ping_spec id c w : sound w → fine (pingPeer id c) w.
Proof.
  intros Hw. unfold pingPeer. step ltac:(by apply clock_spec). intros t w1 Hw1 _ _.
  step ltac:(by apply silent_spec). intros [e|] w2 Hw2 _ _; [by apply update_spec|].
  step ltac:(by apply silent_spec). intros [e|] w3 Hw3 _ _; [by apply update_spec|].
  step ltac:(by apply silent_spec). intros [e|] w4 Hw4 _ _; [by apply update_spec|].
  step ltac:(by apply clock_spec). intros t' w5 Hw5 _ _.
  step ltac:(by apply lookup_peer_spec). intros [p|] w6 Hw6 _ Hp; [|by apply upholds_ret]. specialize (Hp p eq_refl).
  step ltac:(by apply (change_spec p id)). intros _ w7 Hw7 Hg7 _. apply seen_spec; [done|]. by apply Hg7.
Qed.

Lemma range_map_lookup {A} (m : gmap string A) k v : (k, v) ∈ range_map m → m !! k = Some v.
Proof. rewrite range_map_perm. by rewrite elem_of_map_to_list. Qed.

Lemma list_peers_spec w :
  sound w → runs ListPeers (fun l w' => ∀ p, p ∈ l → ∃ id, names (nw_overlay w') p id) w.
Proof.
  intros Hw. apply look_spec; [done|]. intros w1 w2 Hw1 _ Hg p ((id & p') & -> & Hin)%list_elem_of_fmap.
  exists id. apply Hg, (wf_peers _ (so_wf w1 Hw1)). by apply range_map_lookup.
Qed.

Lemma each_peer_spec f w :
  sound w → (∀ p id w, sound w → names (nw_overlay w) p id → fine (f p) w) →
  ∀ l, (∀ p, p ∈ l → ∃ id, names (nw_overlay w) p id) → fine (each f l) w.
Proof.
  intros Hw Hf l Hl. apply (upholds_each _ _ _ _ _ (fun p w => ∃ id, names (nw_overlay w) p id)); [done| |done|].
  - intros p w1 w2 Hg [id Hn]. exists id. by apply Hg.
  - intros p w1 Hw1 [id Hn]. by apply (Hf p id).
Qed.

Lemma health_checks_spec w : sound w → fine performHealthChecks w.
Proof.
  intros Hw. step ltac:(apply (look_spec _ (fun l _ => ∀ ic, ic ∈ l → ∀ c', lost = Some (ic.1, c') → c' = ic.2)); [done|]).
  { intros w1 w2 Hw1 _ _ [id c] Hin c' E. apply range_map_lookup in Hin.
    destruct (so_lost w1 Hw1 id c' E) as [Hc' _]. cbn. congruence. }
  intros l w1 Hw1 _ Hl. apply (upholds_each _ _ _ _ _ (fun ic _ => ∀ c', lost = Some (ic.1, c') → c' = ic.2));
    [done|done|exact Hl|]. intros [id c] w2 Hw2 Hc. by apply (monitor_spec id c).
Qed.

Lemma reconnections_spec w : sound w → fine attemptReconnections w.
Proof.
  intros Hw. step ltac:(by apply list_peers_spec). intros l w1 Hw1 _ Hl. apply each_peer_spec; [done| |exact Hl].
  intros p id w2 Hw2 Hn. step ltac:(by apply observe_spec). intros peer w3 Hw3 Hg3 _.
  destruct (engaged _); [by apply upholds_ret|]. apply go_spec; [done|]. exists id. by apply Hg3.
Qed.

Lemma add_spec p id w : sound w → names (nw_overlay w) p id → fine (AddPeer p) w.
Proof.
  intros Hw Hn. step ltac:(by apply clock_spec). intros now w1 Hw1 Hg1 _.
  step ltac:(apply (change_spec p id); [done|by apply Hg1|done..]). intros _ w2 Hw2 Hg2 _.
  step ltac:(apply (object_spec p id); [done|by apply Hg2, Hg1]). intros peer w3 Hw3 Hg3 ->.
  step ltac:(apply store_spec; [done|by apply Hg3, Hg2, Hg1]). intros _ w4 Hw4 Hg4 _.
  apply go_spec; [done|]. exists id. by apply Hg4, Hg3, Hg2, Hg1.
Qed.

Lemma remove_spec id w : sound w → spared id → fine (RemovePeer id) w.
Proof.
  intros Hw Hs. step ltac:(by apply observe_spec). intros c w1 Hw1 _ _.
  eapply (upholds_bind _ _ _ _ _ (fun _ _ => True)).
  - destruct c as [c|]; [|by apply upholds_ret]. step ltac:(by apply silent_spec). intros _ w2 Hw2 _ _. by apply drop_spec.
  - intros _ w2 Hw2 _ _. apply put_other; [done|]. intros o Hwf Hl. by apply delete_peer_ok.
Qed.

Lemma get_connection_spec id w : sound w → fine (GetConnection id) w.
Proof.
  intros Hw. step ltac:(by apply open_spec). intros [c|] w1 Hw1 _ _; [by apply upholds_ret|].
  eapply (upholds_attempt _ _ _ _ _ _ (fun r w' => ∀ p, r = Ok p → names (nw_overlay w') p id)).
  - step ltac:(by apply lookup_peer_spec). intros r w2 Hw2 _ Hp. apply upholds_ret; [done|]. intros w3 Hg p E.
    apply Hg, Hp. by destruct r; simplify_eq.
  - intros p w2 Hw2 _ Hp. apply (connect_sync_spec p id); auto.
  - done.
Qed.

Lemma metadata_spec id metadata w : sound w → fine (UpdatePeerMetadata id metadata) w.
Proof.
  intros Hw. eapply (upholds_attempt _ _ _ _ _ _ (fun r w' => ∀ p, r = Ok p → names (nw_overlay w') p id)).
  - step ltac:(by apply lookup_peer_spec). intros r w2 Hw2 _ Hp. apply upholds_ret; [done|]. intros w3 Hg p E.
    apply Hg, Hp. by destruct r; simplify_eq.
  - intros p w1 Hw1 _ Hp. specialize (Hp p eq_refl). step ltac:(by apply (change_spec p id)).
    intros _ w2 Hw2 Hg2 _. step ltac:(apply store_spec; [done|by apply Hg2]). intros _ w3 Hw3 _ _. by apply upholds_ret.
  - done.
Qed.

(** ** The mesh manager *)

(** A peer that is read as connected is not the lost one. *)
Lemma connected_spared w p :
  sound w → peer_Status (object p (nw_overlay w)) = PeerStatusConnected →
  spared (peer_ID (object p (nw_overlay w))).
Proof.
  intros Hw Hst c E. unfold object in *. destruct (ov_objects (nw_overlay w) !! p) as [x|] eqn:Ex; [|done].
  cbn in *. destruct (so_lost w Hw _ c E) as (_ & _ & Hall). by apply (Hall p x).
Qed.

Lemma among_spec l w :
  sound w → runs (connected_among l) (fun ids _ => ∀ id, id ∈ ids → spared id) w.
Proof.
  revert w. induction l as [|p l IH]; intros w Hw; cbn [connected_among].
  { apply upholds_ret; [done|]. intros w' _ id Hin. by apply elem_of_nil in Hin. }
  step ltac:(apply (look_spec _ (fun x _ => peer_Status x = PeerStatusConnected → spared (peer_ID x))); [done|]).
  { intros w1 w2 Hw1 _ _. by apply connected_spared. }
  intros x w1 Hw1 _ Hx. step ltac:(by apply IH). intros ids w2 Hw2 _ Hids. apply upholds_ret; [done|].
  intros w3 _ id. case_bool_decide; [|apply Hids]. intros [->|Hin]%elem_of_cons; auto.
Qed.

Lemma topology_spec w : sound w → runs getCurrentTopology (fun ids _ => ∀ id, id ∈ ids → spared id) w.
Proof. intros Hw. step ltac:(by apply list_peers_spec). intros l w1 Hw1 _ _. by apply among_spec. Qed.

Lemma cached_spec dest w :
  sound w → runs (look (fun o => default [] (ov_routeCache o !! dest)))
    (fun l _ => ∀ r, r ∈ l → rt_NextHop r = dest ∧ rt_Metric r = 1) w.
Proof.
  intros Hw. apply look_spec; [done|]. intros w1 w2 Hw1 _ _ r.
  destruct (ov_routeCache (nw_overlay w1) !! dest) as [l|] eqn:E; cbn; [by apply (wf_cache _ (so_wf w1 Hw1))|].
  by intros ?%elem_of_nil.
Qed.

Lemma through_spec dest ids w :
  sound w → (∀ id, id ∈ ids → spared id) →
  runs (through dest ids) (fun r _ => ∀ r', r = Some r' → to_itself dest r' ∧ spared dest) w.
Proof.
  revert w. induction ids as [|id ids IH]; intros w Hw Hids; cbn [through]; [by apply upholds_ret|].
  step ltac:(by apply cached_spec). intros l w1 Hw1 _ Hl. destruct (List.find _ l) as [r|] eqn:Ef.
  - apply upholds_ret; [done|]. intros w2 _ r' [= <-].
    apply find_some in Ef as [Hin Hid]. apply bool_decide_eq_true in Hid. destruct (Hl r) as [Hnext Hm]; [by apply list_elem_of_In|].
    assert (id = dest) as -> by congruence. split; [|apply Hids; left].
    split_and!; [done|done|]. right. cbn. by rewrite Hm.
  - apply IH; [done|]. intros id' Hin. apply Hids. by right.
Qed.

Lemma route_spec dest r w : sound w → to_itself dest r → spared dest → fine (store_route dest r) w.
Proof. intros Hw Ht Hs. apply put_other; [done|]. intros o Hwf Hl. by apply store_route_ok. Qed.

Lemma alternate_spec dest w : sound w → fine (store_alternate dest) w.
Proof.
  intros Hw. eapply (upholds_bind _ _ _ _ _ (fun r _ => ∀ r', r = Some r' → to_itself dest r' ∧ spared dest)).
  - step ltac:(by apply topology_spec). intros ids w1 Hw1 _ Hids. by apply through_spec.
  - intros [r|] w1 Hw1 _ Hr; [|by apply upholds_ret]. destruct (Hr r eq_refl). by apply route_spec.
Qed.

Lemma heal_spec w : sound w → fine healMesh w.
Proof.
  intros Hw. step ltac:(by apply observe_spec). intros l w1 Hw1 _ _.
  apply (upholds_each _ _ _ _ _ (fun _ _ => True)); [done..|]. intros [dest r] w2 Hw2 _.
  eapply (upholds_bind _ _ _ _ _ (fun _ _ => True)).
  - step ltac:(by apply observe_spec). intros p w3 Hw3 _ _. by apply upholds_ret.
  - intros [p|e] w3 Hw3 _ _; [|by apply alternate_spec]. step ltac:(by apply observe_spec). intros x w4 Hw4 _ _.
    destruct (_ =?s _)%string; [by apply upholds_ret|by apply alternate_spec].
Qed.

Lemma cache_route_spec id w : sound w → fine (cacheRoute id (direct_route id)) w.
Proof.
  intros Hw. step ltac:(by apply cached_spec). intros l w1 Hw1 _ Hl. destruct (existsb _ _); [by apply upholds_ret|].
  apply put_other; [done|]. intros o Hwf Hlo. apply cache_ok; [done..|].
  intros r. rewrite elem_of_app, list_elem_of_singleton. intros [Hin| ->]; [by apply Hl|done].
Qed.

Lemma discover_spec w : sound w → fine discoverRoutes w.
Proof.
  intros Hw. step ltac:(by apply list_peers_spec). intros l w1 Hw1 _ _.
  apply (upholds_each _ _ _ _ _ (fun _ _ => True)); [done..|]. intros p w2 Hw2 _.
  step ltac:(apply (look_spec _ (fun x _ => peer_Status x = PeerStatusConnected → spared (peer_ID x))); [done|]).
  { intros w3 w4 Hw3 _ _. by apply connected_spared. }
  intros x w3 Hw3 _ Hx. cbv zeta. case_bool_decide as Hst; [|by apply alternate_spec].
  step ltac:(apply route_spec; [done| |by apply Hx]). { by split_and!; [|..|left]. }
  intros _ w4 Hw4 _ _. by apply cache_route_spec.
Qed.

(** What is true of a peer whose status is wanted stays with it. *)
Lemma scored_spec wanted (P : Pointer → Network → Prop) l w :
  sound w → (∀ p w1 w2, grows w1 w2 → P p w1 → P p w2) →
  (∀ p w1, p ∈ l → sound w1 → grows w w1 → wanted (peer_Status (object p (nw_overlay w1))) = true → P p w1) →
  runs (scored wanted l) (fun res w' => ∀ p s, (p, s) ∈ res → P p w') w.
Proof.
  intros Hw HP. revert w Hw. induction l as [|p l IH]; intros w Hw Hl; cbn [scored].
  { apply upholds_ret; [done|]. intros w' _ p s Hin. by apply elem_of_nil in Hin. }
  step ltac:(apply (look_spec _ (fun x w' => wanted (peer_Status x) = true → P p w')); [done|]).
  { intros w1 w2 Hw1 Hg1 Hg2 Hx. apply (HP p w1); [done|]. apply Hl; [by left|done..]. }
  intros x w1 Hw1 Hg1 Hx. destruct (wanted _) eqn:Ew.
  - step ltac:(by apply clock_spec). intros now w2 Hw2 Hg2 _.
    step ltac:(apply IH; [done|]). { intros q w3 Hq Hw3 Hg3. apply Hl; [by right|done|]. transitivity w1; [done|]. by transitivity w2. }
    intros rest w3 Hw3 Hg3 Hrest. apply upholds_ret; [done|]. intros w4 Hg4 q s.
    rewrite elem_of_cons. intros [[= -> ->]|Hin].
    + apply (HP p w1); [|by apply Hx]. transitivity w2; [done|]. by transitivity w3.
    + apply (HP q w3); [done|]. by apply (Hrest q s).
  - apply IH; [done|]. intros q w2 Hq Hw2 Hg2. apply Hl; [by right|done|]. by transitivity w1.
Qed.

Lemma chosen {X} (before : X * float64 → X * float64 → bool) n l p :
  p ∈ (take n (exchange_sort before l)).*1 → ∃ s, (p, s) ∈ l.
Proof.
  intros ((q & s) & -> & Hin)%list_elem_of_fmap. exists s.
  apply elem_of_take in Hin as (i & Hi & _). apply list_elem_of_lookup_2 in Hi.
  unfold exchange_sort in Hi. by rewrite exchange_turns_perm in Hi.
Qed.

Lemma prune_spec l n w : sound w → fine (pruneExcessPeers l n) w.
Proof.
  intros Hw. step ltac:(apply (scored_spec _ (fun p w' => ∃ id, names (nw_overlay w') p id ∧ spared id)); [done|..]).
  - intros p w1 w2 Hg (id & Hn & Hs). exists id. split; [by apply Hg|done].
  - intros p w1 _ Hw1 _ Hst. apply bool_decide_eq_true in Hst. pose proof (connected_spared w1 p Hw1 Hst) as Hs.
    unfold object in *. destruct (ov_objects _ !! p) as [x|] eqn:Ex; [|done]. exists (peer_ID x). split; [by exists x|done].
  - intros res w1 Hw1 _ Hres. apply (upholds_each _ _ _ _ _ (fun p w' => ∃ id, names (nw_overlay w') p id ∧ spared id)); [done|..].
    + intros p w2 w3 Hg (id & Hn & Hs). exists id. split; [by apply Hg|done].
    + intros p (s & Hin)%chosen. by apply (Hres p s).
    + intros p w2 Hw2 (id & Hn & Hs). step ltac:(by apply (object_spec p id)). intros x w3 Hw3 _ ->. by apply remove_spec.
Qed.

Lemma candidates_spec l n w :
  sound w → (∀ p, p ∈ l → ∃ id, names (nw_overlay w) p id) →
  runs (findBestPeerCandidates l n) (fun res w' => ∀ p, p ∈ res → ∃ id, names (nw_overlay w') p id) w.
Proof.
  intros Hw Hl. step ltac:(apply (scored_spec _ (fun p w' => ∃ id, names (nw_overlay w') p id)); [done|..]).
  - intros p w1 w2 Hg (id & Hn). exists id. by apply Hg.
  - intros p w1 Hp _ Hg _. destruct (Hl p Hp) as [id Hn]. exists id. by apply Hg.
  - intros res w1 Hw1 _ Hres. apply upholds_ret; [done|]. intros w2 Hg p (s & Hin)%chosen.
    destruct (Hres p s Hin) as [id Hn]. exists id. by apply Hg.
Qed.

Lemma partial_spec l w :
  sound w → (∀ p, p ∈ l → ∃ id, names (nw_overlay w) p id) → fine (maintainPartialMesh l) w.
Proof.
  intros Hw Hl. eapply (upholds_bind _ _ _ _ _ (fun _ _ => True)).
  { step ltac:(by apply list_peers_spec). intros l' w1 Hw1 _ _. step ltac:(by apply among_spec).
    intros ids w2 Hw2 _ _. by apply upholds_ret. }
  intros connected w1 Hw1 Hg1 _. step ltac:(by apply observe_spec). intros max w2 Hw2 Hg2 _.
  eapply (upholds_bind _ _ _ _ _ (fun _ _ => True)).
  - destruct (_ && _); [|by apply upholds_ret]. step ltac:(apply candidates_spec; [done|]).
    { intros p Hp. destruct (Hl p Hp) as [id Hn]. exists id. by apply Hg2, Hg1. }
    intros res w3 Hw3 _ Hres. apply each_peer_spec; [done| |exact Hres]. intros p id w4 Hw4 Hn.
    step ltac:(by apply observe_spec). intros x w5 Hw5 Hg5 _. destruct (engaged _); [by apply upholds_ret|].
    apply (add_spec p id); [done|]. by apply Hg5.
  - intros _ w3 Hw3 _ _. destruct (_ <? _); [by apply prune_spec|by apply upholds_ret].
Qed.

Lemma maintain_spec w : sound w → fine maintainTopology w.
Proof.
  intros Hw. step ltac:(by apply list_peers_spec). intros l w1 Hw1 _ Hl.
  step ltac:(by apply observe_spec). intros type w2 Hw2 Hg2 _.
  eapply (upholds_bind _ _ _ _ _ (fun _ _ => True)).
  - destruct (_ =?s _)%string; [|by apply upholds_ret]. apply partial_spec; [done|].
    intros p Hp. destruct (Hl p Hp) as [id Hn]. exists id. by apply Hg2.
  - intros _ w3 Hw3 _ _. by apply heal_spec.
Qed.

Lemma topology_put f w : sound w → (∀ o, ∃ g, f o = o <| ov_topology := g |>) → fine (put f) w.
Proof.
  intros Hw Hf. apply put_other; [done|]. intros o [] Hl. unfold harmless. destruct (Hf o) as [g ->]. by split.
Qed.

(** ** Operations and goroutines *)

Local Open Scope prog_scope.

Definition done_with {A} (p : Prog Net A) : Prog Net unit := let! _ := p in Ret tt.

(** A caller's peer is added as an object of its own. *)
Definition add_new (x : Peer) : Prog Net unit := let! p := new_peer x in AddPeer p.

(** The operations of the two managers and their timers; the lost peer is not
    removed, nor added again as connected. *)
Inductive operation : Prog Net unit → Prop :=
| op_add x : (peer_Status x = PeerStatusConnected → spared (peer_ID x)) → operation (add_new x)
| op_remove id : spared id → operation (RemovePeer id)
| op_connection id : operation (done_with (GetConnection id))
| op_metadata id metadata : operation (done_with (UpdatePeerMetadata id metadata))
| op_health : operation performHealthChecks
| op_reconnect : operation attemptReconnections
| op_maintain : operation maintainTopology
| op_discover : operation discoverRoutes
| op_sync : operation syncTopology
| op_report id l : operation (UpdatePeerTopology id l)
| op_nat addr : operation (done_with (discoverNAT addr)).

Lemma new_peer_spec x w :
  sound w → (peer_Status x = PeerStatusConnected → spared (peer_ID x)) →
  runs (new_peer x) (fun p w' => names (nw_overlay w') p (peer_ID x)) w.
Proof.
  intros Hw Hx. apply state_spec; [done|]. intros w1 Hw1 _. cbn zeta. set (o := nw_overlay w1). cbn [fst snd].
  assert (∀ p id, names o p id → names (o <| ov_objects := app (ov_objects o) [x] |>) p id) as Hn.
  { intros p id (y & Hy & <-). exists y. split; [|done]. cbn. rewrite lookup_app_l; [done|]. by eapply lookup_lt_Some. }
  pose proof (so_wf w1 Hw1) as [Hp Hr Hc]. split_and!; [| |exact Hn|].
  - split; [|exact Hr|exact Hc]. intros id p Hid. by apply Hn, Hp.
  - intros id c E. destruct (so_lost w1 Hw1 id c E) as (Hcon & Hro & Hall). split_and!; [done|done|].
    intros p y. cbn. rewrite lookup_app_Some. intros [Hy|[_ Hy]]; [by apply (Hall p)|].
    apply list_lookup_singleton_Some in Hy as [_ <-]. intros <- Hst. by apply (Hx Hst c).
  - intros w2 Hg. apply Hg. exists x. split; [|done]. cbn. rewrite lookup_app_r, Nat.sub_diag by done. done.
Qed.

Lemma done_with_spec {A} (p : Prog Net A) w : fine p w → fine (done_with p) w.
Proof. intros Hp. step ltac:(exact Hp). intros _ w1 Hw1 _ _. by apply upholds_ret. Qed.

Lemma operation_fine p w : sound w → operation p → fine p w.
Proof.
  intros Hw [x Hx|id Hs|id|id md| | | | | |id l|addr].
  - step ltac:(by apply new_peer_spec). intros q w1 Hw1 _ Hq. by apply (add_spec q (peer_ID x)).
  - by apply remove_spec.
  - by apply done_with_spec, get_connection_spec.
  - by apply done_with_spec, metadata_spec.
  - by apply health_checks_spec.
  - by apply reconnections_spec.
  - by apply maintain_spec.
  - by apply discover_spec.
  - step ltac:(by apply topology_spec). intros ids w1 Hw1 _ _. apply topology_put; [done|]. by eexists.
  - step ltac:(apply topology_put; [done|]; by eexists). intros _ w1 Hw1 _ _. by apply go_spec.
  - apply done_with_spec. step_or_fail ltac:(by apply silent_spec). intros info w1 Hw1 _ _.
    step ltac:(by apply nat_spec). intros _ w2 Hw2 _ _. by apply upholds_ret.
Qed.

Lemma task_fine t w : sound w → task_ok (nw_overlay w) t → fine (task t) w.
Proof.
  intros Hw Ht. destruct t as [p|id c|id c|]; cbn in Ht |- *.
  - destruct Ht as [id Hn]. by apply (connect_spec p id).
  - by apply (monitor_spec id c).
  - by apply ping_spec.
  - by apply discover_spec.
Qed.

(** ** Runs *)

Definition pool_ok (x : list (Prog Net unit) * Network) : Prop :=
  sound x.2 ∧ Forall (fun p => rg net_call (advances sound grows) (advances sound grows) p (fun _ _ => True) x.2) x.1.

Lemma pool_step x y : mesh_step operation x y → pool_ok x → pool_ok y.
Proof.
  intros [x' y' Hst|l tick o before t after|l w p Hp] [Hw Hl]; cbn in *.
  - destruct (pstep_within net_call (advances sound grows) x' y' Hst Hl) as [[Hi _] Hl']. split; [auto|done].
  - pose proof Hw as [Hwf Hlo Ht]. cbn in Ht. rewrite Forall_app, Forall_cons in Ht. destruct Ht as (Hb & Ht & Ha).
    set (w' := {| nw_spawned := before ++ after |}).
    assert (sound w') as Hw' by (split; [done|done|cbn; by rewrite Forall_app]). split; [done|].
    apply Forall_app. split; [|constructor; [|constructor]].
    + eapply Forall_impl; [exact Hl|]. intros p. apply rg_rely; [apply _|]. by split; [|intros q id].
    + apply upholds_goroutine, task_fine; [done|exact Ht].
  - split; [done|]. apply Forall_app. split; [done|]. constructor; [|constructor].
    by apply upholds_goroutine, operation_fine.
Qed.

Lemma run_sound l w l' w' :
  sound w → Forall operation l → mesh_run operation (l, w) (l', w') → sound w'.
Proof.
  intros Hw Hl Hx. assert (pool_ok (l, w)) as Hp.
  { split; [done|]. eapply Forall_impl; [exact Hl|]. intros p Hp. by apply upholds_goroutine, operation_fine. }
  enough (pool_ok (l', w')) as [Hw' _] by exact Hw'. revert Hp. generalize (l, w), (l', w'), Hx. clear -stays_open.
  intros x y Hx. induction Hx as [x|x y z Hst Hx IH]; [done|]. intros Hp. eapply IH, pool_step; [exact Hst|done].
Qed.

End network.

(** ** What the theorems say of the network *)

Section theorems.
Context `{GoRange} (outside : nat → Outside).

Definition beginning (o : Overlay) (tasks : list Task) : list (Prog Net unit) * Network :=
  ([], {| nw_tick := 0; nw_overlay := o; nw_spawned := tasks |}).

(** C33: every route that a node ever has leads to its destination by the destination
    itself, with the metric 1 or 2: in every interleaving of the operations and
    goroutines of the two managers, whatever the network answers, and whatever
    topology the peers report, no route goes by another peer. *)
Theorem routes_lead_nowhere_else o l w dest r :
  ov_peers o = ∅ → ov_routes o = ∅ → ov_routeCache o = ∅ →
  mesh_run outside (operation None) (beginning o []) (l, w) →
  ov_routes (nw_overlay w) !! dest = Some r →
  rt_Destination r = dest ∧ rt_NextHop r = dest ∧ (rt_Metric r = 1 ∨ rt_Metric r = 2).
Proof.
  intros Hp Hr Hc Hx. refine (wf_routes _ (so_wf None w (run_sound outside None _ [] _ l w _ _ Hx)) dest r).
  - done.
  - split; [|done|constructor]. split; cbn; [rewrite Hp|rewrite Hr|rewrite Hc]; intros ??; by rewrite lookup_empty.
  - constructor.
Qed.


(** ** Running in turn *)

Lemma interleave_mesh allowed x y : interleave (net_call outside) x y → mesh_run outside allowed x y.
Proof. intros Hx. induction Hx as [|x y z Hst Hx IH]; [done|]. eapply rtc_l; [by apply ms_call|done]. Qed.

(** An operation, to its end. *)
Lemma operate (allowed : Prog Net unit → Prop) p l w :
  allowed p → mesh_run outside allowed (l, w) (l ++ [Ret tt], (run (net_call outside) p w).2).
Proof.
  intros Hp. eapply rtc_l; [by apply ms_begin|]. apply interleave_mesh, (one_runs _ l p []).
Qed.

(** The goroutine that was started last. *)
Definition work (w : Network) : Network :=
  match nw_spawned w with
  | [] => w
  | t :: rest => (run (net_call outside) (task t)
      {| nw_tick := nw_tick w; nw_overlay := nw_overlay w; nw_spawned := rest |}).2
  end.

Lemma work_run allowed l w : ∃ l', mesh_run outside allowed (l, w) (l', work w).
Proof.
  unfold work. destruct w as [tick o [|t rest]]; cbn; [by exists l|]. exists (l ++ [Ret tt]).
  eapply rtc_l; [apply (ms_spawn outside allowed l tick o [] t rest)|]. apply interleave_mesh, (one_runs _ l (task t) []).
Qed.

End theorems.

(** ** Runs of the mesh

    Two nodes connect and find a route; a ping that fails gives the peer up,
    although its connection stays open. *)

Local Open Scope Z_scope.

Module MeshRuns.
#[local] Existing Instance range_canonical.

(** Connections are made and stay open; streams cannot be opened. *)
Definition no_streams (n : nat) : Outside := {|
  ou_clock := Z.of_nat n * second; ou_dial := fun _ _ => Ok 7%nat; ou_closed := fun _ => false;
  ou_stream := fun _ => Some "too many open streams"%string; ou_write := fun _ => None; ou_read := fun _ => None;
  ou_test := fun _ _ => None; ou_punch := fun _ _ => None; ou_allocate := fun _ => Err "no TURN servers"%string;
  ou_permit := fun _ _ => None; ou_discover := fun _ => Err "all STUN servers failed"%string |}.

Definition peer_b : Peer := no_peer <| peer_ID := "b"%string |> <| peer_Address := "10.0.0.2"%string |>
  <| peer_Port := 7946 |>.

Definition alone : Overlay := {|
  ov_nodeID := "a"; ov_config := {| mc_MeshType := MeshTypeFull; mc_MaxPeers := 10; mc_HealthCheckInterval := 0;
                                    mc_ReconnectInterval := 0; mc_ConnectionTimeout := 0 |};
  ov_localAddr := "10.0.0.1:7946"; ov_nat := None; ov_objects := []; ov_peers := ∅; ov_connections := ∅;
  ov_routes := ∅; ov_topology := ∅; ov_routeCache := ∅ |}.

Abbreviation operates p w := ((run (net_call no_streams) p w).2).

Definition joined : Network := work no_streams (operates (add_new peer_b) (beginning alone []).2).
Definition routed : Network := operates discoverRoutes joined.

Lemma routed_run : ∃ l, mesh_run no_streams (operation None) (beginning alone []) (l, routed).
Proof.
  destruct (work_run no_streams (operation None) [Ret tt] (operates (add_new peer_b) (beginning alone []).2)) as [l Hl].
  exists (l ++ [Ret tt]).
  etransitivity; [exact (operate no_streams (operation None) (add_new peer_b) [] _ (op_add None peer_b ltac:(done)))|].
  etransitivity; [exact Hl|]. exact (operate no_streams (operation None) discoverRoutes l joined (op_discover None)).
Qed.

Lemma routes_lead_nowhere_else_witness :
  ∃ r, ov_routes (nw_overlay routed) !! "b"%string = Some r ∧ rt_NextHop r = "b"%string.
Proof.
  exists (direct_route "b"). split; [by vm_compute|]. destruct routed_run as [l Hl].
  exact (proj1 (proj2 (routes_lead_nowhere_else no_streams alone l routed "b" (direct_route "b")
    eq_refl eq_refl eq_refl Hl ltac:(by vm_compute)))).
Defined.

Definition pinged : Network := work no_streams (operates performHealthChecks joined).

Example ping_lost :
  (fun x => (peer_ID x, peer_Status x)) <$> ov_objects (nw_overlay joined) = [("b", "connected")]%string ∧
  (fun x => (peer_ID x, peer_Status x)) <$> ov_objects (nw_overlay pinged) = [("b", "unreachable")]%string ∧
  ov_connections (nw_overlay pinged) !! "b"%string = Some 7%nat ∧ nw_spawned pinged = [Monitoring "b" 7].
Proof. vm_compute. done. Qed.

Definition start_again : Network := (beginning (nw_overlay pinged) [Monitoring "b" 7]).2.
Definition reconnected : Network := work no_streams (operates attemptReconnections start_again).

Lemma reconnected_run :
  ∃ l, mesh_run no_streams (operation (Some ("b"%string, 7%nat))) (beginning (nw_overlay pinged) [Monitoring "b" 7])
    (l, reconnected).
Proof.
  destruct (work_run no_streams (operation (Some ("b"%string, 7%nat))) [Ret tt] (operates attemptReconnections start_again)) as [l Hl].
  exists l. transitivity ([@Ret Net unit tt], operates attemptReconnections start_again); [|exact Hl].
  exact (operate no_streams (operation (Some ("b"%string, 7%nat))) attemptReconnections [] start_again (op_reconnect _)).
Qed.

Lemma pinged_wellformed : wellformed (nw_overlay pinged).
Proof.
  assert (ov_objects (nw_overlay pinged) !! 0%nat = Some (object 0 (nw_overlay pinged))) as Hx by (vm_compute; reflexivity).
  split.
  - intros id p. assert (ov_peers (nw_overlay pinged) = {["b"%string := 0%nat]}) as -> by (vm_compute; reflexivity).
    rewrite lookup_singleton_Some. intros [<- <-]. eexists. split; [exact Hx|]. vm_compute. reflexivity.
  - intros dest r. assert (ov_routes (nw_overlay pinged) = ∅) as -> by (vm_compute; reflexivity). by rewrite lookup_empty.
  - intros dest l r. assert (ov_routeCache (nw_overlay pinged) = ∅) as -> by (vm_compute; reflexivity). by rewrite lookup_empty.
Qed.


(** ** Relays *)

(** A node behind a symmetric NAT dials the address of its own allocation on the
    relay, whatever the address of the peer. *)
Definition behind_nat : Network := (beginning (alone <| ov_objects := [peer_b] |> <| ov_nat := Some {|
  nt_natInfo := Some {| ni_Type := NATTypeSymmetric; ni_PublicIP := "203.0.113.9"; ni_PublicPort := 4000;
                        ni_LocalIP := "10.0.0.1"; ni_LocalPort := 7946; ni_Mapped := true |};
  nt_allocation := Some "198.51.100.1:5000"%string |} |>) []).2.

Example dials_its_own_relay :
  (run (net_call no_streams) (determineConnectionAddress 0) behind_nat).1 = Ok ("198.51.100.1:5000", "relay")%string.
Proof. vm_compute. reflexivity. Qed.

End MeshRuns.
