(* ===== verification/StorageTypes.v ===== *)
(** * Data of the storage layer (pkg/storage/types.go)

    Named string types are strings with their constants. *)

From S2P Require Import Prelude.

Local Open Scope string_scope.

Definition StorageClassHot : string := "hot".
Definition StorageClassCold : string := "cold".
Definition StorageClassEphemeral : string := "ephemeral".

Definition IOPSClassHigh : string := "high".
Definition IOPSClassMedium : string := "medium".
Definition IOPSClassLow : string := "low".

Definition ReplicaStatusHealthy : string := "healthy".
Definition ReplicaStatusStale : string := "stale".
Definition ReplicaStatusCorrupted : string := "corrupted".
Definition ReplicaStatusMissing : string := "missing".

Local Close Scope string_scope.

(** A chunk.  A Go [int] is 64 bits wide. *)
Record Chunk := {
  ck_ID : string;
  ck_Size : Z;
  ck_Checksum : string;
  ck_Offset : Z;
  ck_Replicas : list string;
  ck_CreatedAt : Z;
  ck_RefCount : Z;
  ck_Compressed : bool;
  ck_ContentHash : string
}.

#[export] Instance eta_Chunk : Eta Chunk := fun x =>
  Build_Chunk (ck_ID x) (ck_Size x) (ck_Checksum x) (ck_Offset x) (ck_Replicas x)
    (ck_CreatedAt x) (ck_RefCount x) (ck_Compressed x) (ck_ContentHash x).

Record Replica := {
  rp_ChunkID : string;
  rp_NodeID : string;
  rp_Status : string;
  rp_LastVerified : Z;
  rp_CreatedAt : Z;
  rp_UpdatedAt : Z;
  rp_Size : Z;
  rp_Checksum : string
}.

#[export] Instance eta_Replica : Eta Replica := fun x =>
  Build_Replica (rp_ChunkID x) (rp_NodeID x) (rp_Status x) (rp_LastVerified x) (rp_CreatedAt x)
    (rp_UpdatedAt x) (rp_Size x) (rp_Checksum x).

#[export] Instance replica_eq_dec : EqDecision Replica.
Proof. solve_decision. Defined.

Record Bucket := {
  bk_Name : string;
  bk_StorageClass : string;
  bk_QuotaBytes : Z;
  bk_UsedBytes : Z;
  bk_CreatedAt : Z;
  bk_UpdatedAt : Z;
  bk_Labels : gmap string string;
  bk_Owner : string
}.

#[export] Instance eta_Bucket : Eta Bucket := fun x =>
  Build_Bucket (bk_Name x) (bk_StorageClass x) (bk_QuotaBytes x) (bk_UsedBytes x) (bk_CreatedAt x)
    (bk_UpdatedAt x) (bk_Labels x) (bk_Owner x).

Record Object := {
  ob_Bucket : string;
  ob_Key : string;
  ob_Size : Z;
  ob_Checksum : string;
  ob_ChunkIDs : list string;
  ob_Chunks : list Chunk;
  ob_Replicas : list Replica;
  ob_Version : Z;
  ob_StorageClass : string;
  ob_ContentType : string;
  ob_Metadata : gmap string string;
  ob_CreatedAt : Z;
  ob_UpdatedAt : Z;
  ob_AccessedAt : Z;
  ob_ECEnabled : bool;
  ob_DataShards : Z;
  ob_ParityShards : Z;
  ob_ShardIndices : list Z
}.

#[export] Instance eta_Object : Eta Object := fun x =>
  Build_Object (ob_Bucket x) (ob_Key x) (ob_Size x) (ob_Checksum x) (ob_ChunkIDs x) (ob_Chunks x)
    (ob_Replicas x) (ob_Version x) (ob_StorageClass x) (ob_ContentType x) (ob_Metadata x)
    (ob_CreatedAt x) (ob_UpdatedAt x) (ob_AccessedAt x) (ob_ECEnabled x) (ob_DataShards x)
    (ob_ParityShards x) (ob_ShardIndices x).

Definition ReplicationFactorOne : Z := 1.
Definition ReplicationFactorTwo : Z := 2.
Definition ReplicationFactorThree : Z := 3.

Record ErasureConfig := {
  ec_Enabled : bool;
  ec_DataShards : Z;
  ec_ParityShards : Z;
  ec_MinNodeCount : Z;
  ec_ColdThreshold : Z
}.

Definition DefaultErasureConfig : ErasureConfig := {|
  ec_Enabled := false;
  ec_DataShards := 4;
  ec_ParityShards := 2;
  ec_MinNodeCount := 6;
  ec_ColdThreshold := 7 * 24 * hour
|}.

Record StorageConfig := {
  DataDir : string;
  ChunkSize : Z;
  ReplicationFactor : Z;
  EnableCompression : bool;
  RepairInterval : Z;
  GCInterval : Z;
  MaxDiskUsagePercent : Z;
  EnableReadRepair : bool;
  QuorumWrites : bool;
  Erasure : ErasureConfig
}.

Definition DefaultStorageConfig : StorageConfig := {|
  DataDir := "/var/lib/cloudless/storage";
  ChunkSize := 4 * 1024 * 1024;
  ReplicationFactor := ReplicationFactorThree;
  EnableCompression := false;
  RepairInterval := 1 * hour;
  GCInterval := 24 * hour;
  MaxDiskUsagePercent := 90;
  EnableReadRepair := true;
  QuorumWrites := true;
  Erasure := DefaultErasureConfig
|}.

#[export] Instance eta_StorageConfig : Eta StorageConfig := fun x =>
  Build_StorageConfig (DataDir x) (ChunkSize x) (ReplicationFactor x) (EnableCompression x)
    (RepairInterval x) (GCInterval x) (MaxDiskUsagePercent x) (EnableReadRepair x)
    (QuorumWrites x) (Erasure x).

Record NodeStorageInfo := {
  ns_NodeID : string;
  ns_TotalBytes : Z;
  ns_AvailableBytes : Z;
  ns_UsedBytes : Z;
  ns_ReservedBytes : Z;
  ns_ChunkCount : Z;
  ns_IOPSClass : string;
  ns_LastUpdated : Z;
  ns_HealthStatus : string;
  ns_StorageClasses : list string;
  ns_SupportedFeatures : list string
}.

#[export] Instance eta_NodeStorageInfo : Eta NodeStorageInfo := fun x =>
  Build_NodeStorageInfo (ns_NodeID x) (ns_TotalBytes x) (ns_AvailableBytes x) (ns_UsedBytes x)
    (ns_ReservedBytes x) (ns_ChunkCount x) (ns_IOPSClass x) (ns_LastUpdated x) (ns_HealthStatus x)
    (ns_StorageClasses x) (ns_SupportedFeatures x).
