(* ===== verification/ChunkStore.v ===== *)
(** * The chunk store (pkg/storage/chunk.go)

    Chunks are stored in files named by the SHA-256 of their content, with a
    count of references in memory.  [ChunkStore] holds the map of chunks and
    the files below the store's directory; a chunk is a shared object in the
    source, and every change to it goes through the map here.  Failures of the
    operating system, the names of temporary files and the clock are arguments;
    gzip is the class [Gzip]. *)

From S2P Require Import Prelude GoText GoCrypto GoFiles StorageTypes.

Local Open Scope string_scope.
Local Open Scope Z_scope.

(** What [gzip.NewReader] and [io.ReadAll] answer. *)
Inductive Gunzip := BadHeader (err : string) | BadBody (err : string) | Plain (data : string).

(** [compress d] is [None] when [gzipWriter.Write] fails. *)
Class Gzip : Type := {
  compress : string → option string;
  gunzip : string → Gunzip;
  gunzip_compress : ∀ d c, compress d = Some c → gunzip c = Plain d
}.

Record ChunkStore := {
  cs_config : StorageConfig;
  cs_baseDir : Path;
  cs_chunks : gmap string Chunk;
  cs_files : Files
}.

#[export] Instance eta_ChunkStore : Eta ChunkStore := fun x =>
  Build_ChunkStore (cs_config x) (cs_baseDir x) (cs_chunks x) (cs_files x).

(** [cs.chunks.Store(id, c)] *)
Definition store_chunk (cs : ChunkStore) (id : string) (c : Chunk) : ChunkStore :=
  cs <| cs_chunks := <[id := c]> (cs_chunks cs) |>.

Definition GetChunk (cs : ChunkStore) (chunkID : string) : option Chunk := cs_chunks cs !! chunkID.

Definition calculateChecksum (data : string) : string := sha256_hex data.

Definition getChunkPath (cs : ChunkStore) (chunkID : string) : Path :=
  if slen chunkID <? 2 then Join (cs_baseDir cs) chunkID
  else Join (Join (cs_baseDir cs) (take_bytes 2 chunkID)) chunkID.

(** The first failure of [os.MkdirAll], how [os.WriteFile] ends, and
    [time.Now()]. *)
Record WriteIO := { io_mkdir : option string; io_write : Writing; io_now : Z }.

Definition write_ok (now : Z) : WriteIO :=
  {| io_mkdir := None; io_write := Written; io_now := now |}.

(** The bytes to write and whether they are compressed. *)
Definition encode_chunk `{Gzip} (config : StorageConfig) (data : string) : string * bool :=
  if EnableCompression config then
    match compress data with
    | Some c => if slen c <? slen data then (c, true) else (data, false)
    | None => (data, false)
    end
  else (data, false).

Definition WriteChunk `{Gzip} (io : WriteIO) (cs : ChunkStore) (data : string)
  : ChunkStore * result string Chunk :=
  let checksum := calculateChecksum data in
  match GetChunk cs checksum with
  | Some chunk =>
      let chunk := chunk <| ck_RefCount := int64 (ck_RefCount chunk + 1) |> in
      (store_chunk cs checksum chunk, Ok chunk)
  | None =>
      let '(dataToWrite, compressed) := encode_chunk (cs_config cs) data in
      match io_mkdir io with
      | Some err => (cs, Err ("failed to create chunk directory: " +:+ err))
      | None =>
          let '(files, err) := WriteFile (io_write io) (cs_files cs) (getChunkPath cs checksum)
                                 dataToWrite in
          let cs := cs <| cs_files := files |> in
          match err with
          | Some err => (cs, Err ("failed to write chunk: " +:+ err))
          | None =>
              let chunk := {|
                ck_ID := checksum;
                ck_Size := slen data;
                ck_Checksum := checksum;
                ck_Offset := 0;
                ck_Replicas := [];
                ck_CreatedAt := io_now io;
                ck_RefCount := 1;
                ck_Compressed := compressed;
                ck_ContentHash := checksum |} in
              (store_chunk cs checksum chunk, Ok chunk)
          end
      end
  end.

(** The part of [ReadChunk] after the file has been read. *)
Definition decode_chunk `{Gzip} (chunk : Chunk) (data : string) : result string string :=
  if ck_Compressed chunk then
    match gunzip data with
    | BadHeader err => Err ("failed to create gzip reader: " +:+ err)
    | BadBody err => Err ("failed to decompress chunk: " +:+ err)
    | Plain d => Ok d
    end
  else Ok data.

Definition ReadChunk `{Gzip} (io : option string) (cs : ChunkStore) (chunkID : string)
  : result string string :=
  match GetChunk cs chunkID with
  | None => Err ("chunk not found: " +:+ chunkID)
  | Some chunk =>
      match ReadFile io (cs_files cs) (getChunkPath cs chunkID) with
      | Err err => Err ("failed to read chunk: " +:+ err)
      | Ok data =>
          let? data := decode_chunk chunk data in
          let actualChecksum := calculateChecksum data in
          if actualChecksum =?s ck_Checksum chunk then Ok data
          else Err ("checksum mismatch for chunk " +:+ chunkID +:+ ": expected "
                    +:+ ck_Checksum chunk +:+ ", got " +:+ actualChecksum)
      end
  end.

(** [rm] is an error of [os.Remove] other than a missing file. *)
Definition DeleteChunk (rm : option string) (cs : ChunkStore) (chunkID : string)
  : ChunkStore * option string :=
  match GetChunk cs chunkID with
  | None => (cs, Some ("chunk not found: " +:+ chunkID))
  | Some chunk =>
      let chunk := chunk <| ck_RefCount := int64 (ck_RefCount chunk - 1) |> in
      let cs := store_chunk cs chunkID chunk in
      if ck_RefCount chunk <=? 0 then
        match rm with
        | Some err => (cs, Some ("failed to delete chunk file: " +:+ err))
        | None =>
            ((cs <| cs_files := delete (getChunkPath cs chunkID) (cs_files cs) |>)
                 <| cs_chunks := delete chunkID (cs_chunks cs) |>, None)
        end
      else (cs, None)
  end.

Definition ListChunks `{GoRange} (cs : ChunkStore) : list Chunk := (range_map (cs_chunks cs)).*2.

Definition VerifyChunk `{Gzip} (io : option string) (cs : ChunkStore) (chunkID : string)
  : option string :=
  match ReadChunk io cs chunkID with
  | Err err => Some err
  | Ok data =>
      if calculateChecksum data =?s chunkID then None
      else Some ("checksum verification failed for chunk " +:+ chunkID)
  end.

Definition GetChunkSize (cs : ChunkStore) (chunkID : string) : result string Z :=
  match GetChunk cs chunkID with
  | None => Err ("chunk not found: " +:+ chunkID)
  | Some chunk => Ok (ck_Size chunk)
  end.

Definition GetStorageUsage `{GoRange} (cs : ChunkStore) : Z :=
  fold_left (fun totalSize c => int64 (totalSize + ck_Size c)) (ListChunks cs) 0.

(** The loop of [GarbageCollect] that deletes; errors are logged.  [rm] gives
    the answer of each [os.Remove]. *)
Definition delete_orphans (rm : string → option string) (cs : ChunkStore) (ids : list string)
  : ChunkStore :=
  fold_left (fun cs id => (DeleteChunk (rm id) cs id).1) ids cs.

Definition GarbageCollect `{GoRange} (rm : string → option string) (cs : ChunkStore)
  : ChunkStore * Z :=
  let orphanedChunks :=
    map ck_ID (List.filter (fun c => ck_RefCount c <=? 0) (ListChunks cs)) in
  (delete_orphans rm cs orphanedChunks, len orphanedChunks).

(** The metadata [loadChunks] gives to a file it visits. *)
Definition loaded_chunk (mtime : Path → Z) (x : Path * string) : Chunk := {|
  ck_ID := Base x.1;
  ck_Size := slen x.2;
  ck_Checksum := Base x.1;
  ck_Offset := 0;
  ck_Replicas := [];
  ck_CreatedAt := mtime x.1;
  ck_RefCount := 1;
  ck_Compressed := false;
  ck_ContentHash := "" |}.

(** [stop] is the number of files visited before the walk fails, if it does. *)
Definition loadChunks (mtime : Path → Z) (stop : option (nat * string)) (cs : ChunkStore)
  : ChunkStore * option string :=
  let visited := match stop with
                 | Some (n, _) => take n (walk (cs_files cs) (cs_baseDir cs))
                 | None => walk (cs_files cs) (cs_baseDir cs)
                 end in
  (fold_left (fun cs x => store_chunk cs (Base x.1) (loaded_chunk mtime x)) visited cs,
   match stop with
   | Some (_, err) => Some ("failed to walk chunks directory: " +:+ err)
   | None => None
   end).

Definition NewChunkStore (mkdir : option string) (mtime : Path → Z) (stop : option (nat * string))
  (files : Files) (config : StorageConfig) : result string ChunkStore :=
  let baseDir := Join (Clean (DataDir config)) "chunks" in
  match mkdir with
  | Some err => Err ("failed to create chunks directory: " +:+ err)
  | None =>
      Ok (loadChunks mtime stop {|
            cs_config := config; cs_baseDir := baseDir; cs_chunks := ∅; cs_files := files |}).1
  end.

(** What happens around the temporary file of [WriteChunkStream]: the error
    of [os.CreateTemp], the random part of the name, after how many bytes the
    copy fails, the errors of [os.MkdirAll] and [os.Rename], and whether the
    deferred [os.Remove] fails. *)
Record StreamIO := {
  sio_create : option string;
  sio_suffix : string;
  sio_copy : option (nat * string);
  sio_mkdir : option string;
  sio_rename : option string;
  sio_unremoved : bool;
  sio_now : Z
}.

Definition tmp_path (io : StreamIO) (cs : ChunkStore) : Path :=
  Join (cs_baseDir cs) ("chunk-tmp-" +:+ sio_suffix io).

(** [defer os.Remove(tmpFile.Name())] *)
Definition remove_tmp (io : StreamIO) (cs : ChunkStore) : ChunkStore :=
  if sio_unremoved io then cs
  else cs <| cs_files := delete (tmp_path io cs) (cs_files cs) |>.

Definition WriteChunkStream (io : StreamIO) (cs : ChunkStore) (data : string)
  : ChunkStore * result string Chunk :=
  let with_tmp d := cs <| cs_files := <[tmp_path io cs := d]> (cs_files cs) |> in
  match sio_create io, sio_copy io with
  | Some err, _ => (cs, Err ("failed to create temp file: " +:+ err))
  | None, Some (n, err) =>
      (remove_tmp io (with_tmp (take_bytes n data)), Err ("failed to write chunk: " +:+ err))
  | None, None =>
      let cs := with_tmp data in
      let checksum := sha256_hex data in
      match GetChunk cs checksum with
      | Some chunk =>
          let chunk := chunk <| ck_RefCount := int64 (ck_RefCount chunk + 1) |> in
          (remove_tmp io (store_chunk cs checksum chunk), Ok chunk)
      | None =>
          match sio_mkdir io, sio_rename io with
          | Some err, _ => (remove_tmp io cs, Err ("failed to create chunk directory: " +:+ err))
          | None, Some err => (remove_tmp io cs, Err ("failed to move chunk: " +:+ err))
          | None, None =>
              let moved := <[getChunkPath cs checksum := data]>
                             (delete (tmp_path io cs) (cs_files cs)) in
              let chunk := {|
                ck_ID := checksum;
                ck_Size := slen data;
                ck_Checksum := checksum;
                ck_Offset := 0;
                ck_Replicas := [];
                ck_CreatedAt := sio_now io;
                ck_RefCount := 1;
                ck_Compressed := false;
                ck_ContentHash := "" |} in
              (remove_tmp io (store_chunk (cs <| cs_files := moved |>) checksum chunk), Ok chunk)
          end
      end
  end.
