(* ===== verification/ChunkStoreSpec.v ===== *)
(** * The chunk store refines a reference-counted map

    The specification [Refs] maps the SHA-256 of a chunk to its content and
    the number of references to it.  The theorems hold for chunks without
    colliding digests, and for every failure of the operating system. *)

From S2P Require Import Prelude GoText GoCrypto GoFiles StorageTypes ChunkStore.


#[local] Opaque sha256_hex.

Lemma NoDup_keys_filter {A B} (f : A * B → bool) l : NoDup l.*1 → NoDup (List.filter f l).*1.
Proof.
  induction l as [|x l IH]; csimpl; [done|]. rewrite NoDup_cons. intros [Hx Hl].
  destruct (f x); [|auto]. csimpl. apply NoDup_cons. split; [|auto].
  rewrite list_elem_of_fmap. intros (y & Hxy & Hy). apply list_elem_of_In, filter_In in Hy as [Hy _].
  apply Hx, list_elem_of_fmap. exists y. by rewrite list_elem_of_In.
Qed.

(** ** Paths of chunks *)

Definition is_hash (id : string) : Prop := ∃ d, id = sha256_hex d.

Lemma contains_char_take c n s : contains_char c s = false → contains_char c (take_bytes n s) = false.
Proof.
  revert s. induction n as [|n IH]; intros [|d s]; simpl; try done.
  case_decide; [done|]. apply IH.
Qed.

Lemma length_take_bytes n s : (n ≤ String.length s)%nat → String.length (take_bytes n s) = n.
Proof.
  revert s. induction n as [|n IH]; intros [|c s]; simpl; intros; try lia. rewrite IH; lia.
Qed.

Lemma hash_no_char c id : is_hex c = false → is_hash id → contains_char c id = false.
Proof. intros Hc [d ->]. by apply sha256_hex_no_char. Qed.

Lemma hash_length id : is_hash id → String.length id = 64%nat.
Proof. intros [d ->]. apply sha256_hex_length. Qed.

(** A text without points and not empty is an ordinary path element. *)
Lemma no_point_plain e : (0 < String.length e)%nat → contains_char "." e = false → plain e.
Proof. intros Hl Hc. split_and!; intros ->; simpl in *; (lia || done). Qed.

Lemma hash_plain id : is_hash id → plain id.
Proof. intros H. apply no_point_plain; [rewrite hash_length by done; lia|by apply hash_no_char]. Qed.

Lemma hash_path cs id :
  is_hash id →
  getChunkPath cs id =
    {| rooted := rooted (cs_baseDir cs); elems := elems (cs_baseDir cs) ++ [take_bytes 2 id; id] |}.
Proof.
  intros H. unfold getChunkPath, slen. rewrite hash_length by done.
  change (Z.of_nat 64 <? 2) with false. cbv iota.
  assert (plain (take_bytes 2 id)).
  { apply no_point_plain; [|by apply contains_char_take, hash_no_char].
    rewrite length_take_bytes; rewrite ?hash_length by done; lia. }
  rewrite (Join_plain (cs_baseDir cs)) by (try done; by apply contains_char_take, hash_no_char).
  rewrite Join_plain by (apply hash_plain || apply hash_no_char; done).
  cbn [rooted elems]. by rewrite <-app_assoc.
Qed.

Lemma hash_path_inj cs id id' :
  is_hash id → is_hash id' → getChunkPath cs id = getChunkPath cs id' → id = id'.
Proof. intros H H'. rewrite !hash_path by done. intros [= Heq%app_inv_head]. by simplify_eq. Qed.

(** The temporary name of a stream is not the path of a chunk. *)
Lemma tmp_path_ne io cs id :
  contains_char "/" (sio_suffix io) = false → is_hash id → tmp_path io cs ≠ getChunkPath cs id.
Proof.
  intros Hs H. unfold tmp_path. rewrite hash_path by done.
  rewrite Join_plain; [|done|by rewrite contains_char_app].
  intros [= Heq%(f_equal length)]. rewrite !length_app in Heq. simpl in Heq. lia.
Qed.

(** ** The specification *)

Abbreviation Refs := (gmap string (string * Z)).

(** One more reference to [d]. *)
Definition take_ref (A : Refs) (d : string) : Refs :=
  match A !! sha256_hex d with
  | Some (d', n) => <[sha256_hex d := (d', n + 1)]> A
  | None => <[sha256_hex d := (d, 1)]> A
  end.

(** One reference less; the content goes with the last one, unless the file
    stays on the disk. *)
Definition drop_ref (removed : bool) (A : Refs) (id : string) : Refs :=
  match A !! id with
  | Some (d, n) => if (n - 1 <=? 0) && removed then delete id A else <[id := (d, n - 1)]> A
  | None => A
  end.

(** The collection drops one more reference from the chunks without any. *)
Definition collect (removed : string → bool) (A : Refs) : Refs :=
  map_imap (fun id x => if x.2 <=? 0
                        then if removed id then None else Some (x.1, x.2 - 1)
                        else Some x) A.

Inductive ChunkOp :=
| OpWrite (io : WriteIO) (d : string)
| OpStream (io : StreamIO) (d : string)
| OpDelete (rm : option string) (id : string)
| OpCollect (rm : string → option string).

Definition none {A} (o : option A) : bool := match o with None => true | Some _ => false end.

(** The calls of the operating system for a new chunk succeed. *)
Definition write_io_ok (io : WriteIO) : bool :=
  none (io_mkdir io) && match io_write io with Written => true | _ => false end.

Definition stream_io_ok (io : StreamIO) : bool := none (sio_mkdir io) && none (sio_rename io).

(** The new references and whether the operation succeeds. *)
Definition spec_step (A : Refs) (op : ChunkOp) : Refs * bool :=
  match op with
  | OpWrite io d =>
      if negb (none (A !! sha256_hex d)) || write_io_ok io then (take_ref A d, true) else (A, false)
  | OpStream io d =>
      if none (sio_create io) && none (sio_copy io) &&
         (negb (none (A !! sha256_hex d)) || stream_io_ok io)
      then (take_ref A d, true) else (A, false)
  | OpDelete rm id =>
      (drop_ref (none rm) A id,
       match A !! id with Some (_, n) => (0 <? n - 1) || none rm | None => false end)
  | OpCollect rm => (collect (fun id => none (rm id)) A, true)
  end.

(** The implementation, with the same answers. *)
Definition impl_step `{Gzip, GoRange} (cs : ChunkStore) (op : ChunkOp) : ChunkStore * bool :=
  match op with
  | OpWrite io d => let '(cs, r) := WriteChunk io cs d in (cs, is_ok r)
  | OpStream io d => let '(cs, r) := WriteChunkStream io cs d in (cs, is_ok r)
  | OpDelete rm id => let '(cs, e) := DeleteChunk rm cs id in (cs, none e)
  | OpCollect rm => ((GarbageCollect rm cs).1, true)
  end.

(** A history, with the answers to its operations. *)
Fixpoint run {S} (step : S → ChunkOp → S * bool) (s : S) (ops : list ChunkOp) : S * list bool :=
  match ops with
  | [] => (s, [])
  | op :: ops =>
      let '(s, b) := step s op in
      let '(s, bs) := run step s ops in (s, b :: bs)
  end.

(** ** Representation *)

Section Represents.
Context `{Gzip, GoRange}.

(** The file of chunk [id] holds [d], and its metadata says so. *)
Definition holds (cs : ChunkStore) (id : string) (c : Chunk) (d : string) : Prop :=
  (∃ content, cs_files cs !! getChunkPath cs id = Some content ∧ decode_chunk c content = Ok d) ∧
  sha256_hex d = id ∧ ck_ID c = id ∧ ck_Checksum c = id ∧ ck_Size c = slen d.

Record represents (cs : ChunkStore) (A : Refs) : Prop := {
  rep_some : ∀ id d n, A !! id = Some (d, n) →
    ∃ c, cs_chunks cs !! id = Some c ∧ holds cs id c d ∧ ck_RefCount c = n;
  rep_none : ∀ id, A !! id = None → cs_chunks cs !! id = None
}.

Lemma holds_hash cs id c d : holds cs id c d → is_hash id.
Proof. intros (_ & <- & _). by eexists. Qed.

(** Only the file and the encoding of a chunk matter. *)
Lemma holds_ext cs cs' id c c' d :
  holds cs id c d →
  cs_files cs' !! getChunkPath cs' id = cs_files cs !! getChunkPath cs id →
  ck_ID c' = ck_ID c → ck_Checksum c' = ck_Checksum c → ck_Size c' = ck_Size c →
  ck_Compressed c' = ck_Compressed c →
  holds cs' id c' d.
Proof.
  intros ((content & Hf & Hd) & Hh & Hi & Hc & Hs) Hf' Hi' Hc' Hs' Hcomp.
  split; [|by rewrite Hi', Hc', Hs']. exists content. rewrite Hf'. split; [done|].
  unfold decode_chunk in *. by rewrite Hcomp.
Qed.

Lemma rep_lookup cs A id c :
  represents cs A → cs_chunks cs !! id = Some c →
  ∃ d, A !! id = Some (d, ck_RefCount c) ∧ holds cs id c d.
Proof.
  intros [Hs Hn] Hc. destruct (A !! id) as [[d n]|] eqn:Ha.
  - destruct (Hs id d n Ha) as (c' & Hc' & Hh & <-). simplify_eq. eauto.
  - by rewrite (Hn id Ha) in Hc.
Qed.

Lemma rep_absent cs A id : represents cs A → cs_chunks cs !! id = None → A !! id = None.
Proof.
  intros [Hs _] Hc. destruct (A !! id) as [[d n]|] eqn:Ha; [|done].
  destruct (Hs id d n Ha) as (c & Hc' & _). congruence.
Qed.

(** A represented chunk can be read. *)
Lemma rep_read cs A id d n :
  represents cs A → A !! id = Some (d, n) → ReadChunk None cs id = Ok d.
Proof.
  intros [Hs _] Ha. destruct (Hs id d n Ha) as (c & Hc & ((content & Hf & Hd) & Hh & _ & Hck & _) & _).
  unfold ReadChunk, GetChunk, ReadFile. rewrite Hc, Hf. simpl. rewrite Hd. simpl.
  unfold calculateChecksum. by rewrite bool_decide_eq_true_2 by congruence.
Qed.

(** ** Changes of the store *)

(** Files change only away from the chunks. *)
Lemma rep_files cs A files :
  represents cs A →
  (∀ id d n, A !! id = Some (d, n) → is_hash id →
     files !! getChunkPath cs id = cs_files cs !! getChunkPath cs id) →
  represents (cs <| cs_files := files |>) A.
Proof.
  intros [Hs Hn] Hf. split; [|done]. intros id d n Ha.
  destruct (Hs id d n Ha) as (c & Hc & Hh & Hr). exists c. split_and!; try done.
  eapply holds_ext; [done| |done..]. eapply Hf; [done|]. by eapply holds_hash.
Qed.

(** The entry of one chunk is replaced or added. *)
Lemma rep_insert cs A id c d n0 :
  represents cs A → holds cs id c d → ck_RefCount c = n0 →
  represents (store_chunk cs id c) (<[id := (d, n0)]> A).
Proof.
  intros [Hs Hn] Hh Hn0. unfold store_chunk. split; simpl.
  - intros id' d' n. rewrite lookup_insert_Some. intros [[<- [= <- <-]]|[Hne Ha]].
    + exists c. by rewrite lookup_insert_eq.
    + destruct (Hs id' d' n Ha) as (c' & Hc & Hh' & Hr). exists c'. by rewrite lookup_insert_ne.
  - intros id'. rewrite !lookup_insert_None. intros [? ?]. auto.
Qed.

(** The entry and the file of a chunk are removed. *)
Lemma rep_delete cs A id :
  represents cs A → is_hash id →
  represents ((cs <| cs_files := delete (getChunkPath cs id) (cs_files cs) |>)
                  <| cs_chunks := delete id (cs_chunks cs) |>) (delete id A).
Proof.
  intros [Hs Hn] Hid. split; simpl.
  - intros id' d n. rewrite lookup_delete_Some. intros [Hne Ha].
    destruct (Hs id' d n Ha) as (c & Hc & Hh & Hr). exists c. rewrite lookup_delete_ne by done.
    split_and!; try done. eapply holds_ext; [done| |done..].
    change (delete (getChunkPath cs id) (cs_files cs) !! getChunkPath cs id' =
            cs_files cs !! getChunkPath cs id').
    apply lookup_delete_ne. intros Heq%hash_path_inj; [done..|by eapply holds_hash].
  - intros id'. rewrite lookup_delete_None, lookup_delete_None. intros [->|?]; eauto.
Qed.

Lemma int64_near B n : - B ≤ n ≤ B → B < 2 ^ 63 - 1 → int64 (n + 1) = n + 1 ∧ int64 (n - 1) = n - 1.
Proof. intros. split; apply int64_id; unfold in_int64; lia. Qed.

(** No content of the specification collides with [d]. *)
Definition no_collision (A : Refs) (d : string) : Prop :=
  ∀ d' n, A !! sha256_hex d = Some (d', n) → d' = d.

Definition bounded (B : Z) (A : Refs) : Prop :=
  0 ≤ B < 2 ^ 63 - 1 ∧ ∀ id d n, A !! id = Some (d, n) → - B ≤ n ≤ B.

(** Another reference to a chunk that is there. *)
Lemma rep_bump B cs A d c :
  represents cs A → bounded B A → no_collision A d → cs_chunks cs !! sha256_hex d = Some c →
  represents (store_chunk cs (sha256_hex d) (c <| ck_RefCount := int64 (ck_RefCount c + 1) |>))
    (take_ref A d) ∧ ck_ID c = sha256_hex d ∧ none (A !! sha256_hex d) = false.
Proof.
  intros Hr [HB Hb] Hnc Hc. destruct (rep_lookup _ _ _ _ Hr Hc) as (d' & Ha & Hh).
  pose proof (Hnc _ _ Ha) as ->. destruct (int64_near B (ck_RefCount c)) as [Hi _]; [by eapply Hb|lia|].
  split; [|split; [by destruct Hh as (_ & _ & ? & _)|by rewrite Ha]].
  unfold take_ref. rewrite Ha, Hi.
  apply rep_insert; [done| |done]. by eapply holds_ext.
Qed.

(** The file of a new chunk, complete or not, disturbs no other chunk. *)
Lemma rep_write_file cs A id content :
  represents cs A → cs_chunks cs !! id = None → is_hash id →
  represents (cs <| cs_files := <[getChunkPath cs id := content]> (cs_files cs) |>) A.
Proof.
  intros Hr Hc Hid. apply rep_files; [done|]. intros id' d n Ha Hid'.
  apply lookup_insert_ne. intros Heq%hash_path_inj; [subst|done..].
  by rewrite (rep_absent _ _ _ Hr Hc) in Ha.
Qed.

(** A new chunk over its file. *)
Lemma rep_new cs files A d content c :
  represents cs A → cs_chunks cs !! sha256_hex d = None →
  decode_chunk c content = Ok d → ck_ID c = sha256_hex d → ck_Checksum c = sha256_hex d →
  ck_Size c = slen d → ck_RefCount c = 1 →
  files !! getChunkPath cs (sha256_hex d) = Some content →
  (∀ id, is_hash id → id ≠ sha256_hex d →
     files !! getChunkPath cs id = cs_files cs !! getChunkPath cs id) →
  represents (store_chunk (cs <| cs_files := files |>) (sha256_hex d) c) (take_ref A d).
Proof.
  intros Hr Hc Hd Hi Hk Hs Hn Hf Ho. unfold take_ref. rewrite (rep_absent _ _ _ Hr Hc).
  apply rep_insert; [| |done].
  - apply rep_files; [done|]. intros id d' n Ha Hid. apply Ho; [done|].
    intros ->. by rewrite (rep_absent _ _ _ Hr Hc) in Ha.
  - split; [|done]. by exists content.
Qed.

Lemma encode_decode config d content comp c :
  encode_chunk config d = (content, comp) → ck_Compressed c = comp → decode_chunk c content = Ok d.
Proof.
  unfold encode_chunk, decode_chunk. intros He ->. destruct (EnableCompression config); [|by simplify_eq].
  destruct (compress d) as [z|] eqn:Hz; [|by simplify_eq].
  destruct (slen z <? slen d); simplify_eq; [|done]. by rewrite (gunzip_compress _ _ Hz).
Qed.

Lemma WriteChunk_rep B io cs A d :
  represents cs A → bounded B A → no_collision A d →
  represents (WriteChunk io cs d).1 (spec_step A (OpWrite io d)).1 ∧
  is_ok (WriteChunk io cs d).2 = (spec_step A (OpWrite io d)).2 ∧
  (∀ c, (WriteChunk io cs d).2 = Ok c → ck_ID c = sha256_hex d).
Proof.
  intros Hr Hb Hnc. unfold WriteChunk, GetChunk, calculateChecksum, spec_step.
  destruct (cs_chunks cs !! sha256_hex d) as [c|] eqn:Hc.
  { destruct (rep_bump B cs A d c Hr Hb Hnc Hc) as (Hr' & Hi & ->). simpl.
    split_and!; [done..|]. by intros ? [= <-]. }
  rewrite (rep_absent _ _ _ Hr Hc). destruct (encode_chunk _ d) as [content comp] eqn:He.
  unfold write_io_ok. destruct (io_mkdir io); [done|]. destruct (io_write io); [|by destruct cs|]; cbn.
  - split_and!; [|done|by intros ? [= <-]]. 
    eapply rep_new; try done; [by eapply encode_decode|apply lookup_insert_eq|].
    intros id Hid Hne. apply lookup_insert_ne. intros ?%hash_path_inj; [done|by eexists|done].
  - split; [|done]. apply (rep_write_file cs); [done..|by eexists].
Qed.

(** The temporary file of a stream touches no chunk. *)
Lemma rep_tmp io cs A :
  contains_char "/" (sio_suffix io) = false → represents cs A →
  (∀ data, represents (cs <| cs_files := <[tmp_path io cs := data]> (cs_files cs) |>) A) ∧
  represents (remove_tmp io cs) A.
Proof.
  intros Hs Hr. assert (∀ id, is_hash id → tmp_path io cs ≠ getChunkPath cs id).
  { intros. by apply tmp_path_ne. }
  split; [intros data|unfold remove_tmp; destruct (sio_unremoved io); [done|]];
    apply rep_files; try done; intros id d n _ Hid; rewrite ?lookup_insert_ne, ?lookup_delete_ne; auto.
Qed.

Lemma WriteChunkStream_rep B io cs A d :
  contains_char "/" (sio_suffix io) = false →
  represents cs A → bounded B A → no_collision A d →
  represents (WriteChunkStream io cs d).1 (spec_step A (OpStream io d)).1 ∧
  is_ok (WriteChunkStream io cs d).2 = (spec_step A (OpStream io d)).2.
Proof.
  intros Hs Hr Hb Hnc. unfold WriteChunkStream, GetChunk, spec_step, stream_io_ok.
  destruct (sio_create io); [done|]. destruct (sio_copy io) as [[n e]|]; simpl.
  { split; [|done]. by apply rep_tmp, rep_tmp. }
  pose proof (proj1 (rep_tmp io cs A Hs Hr) d) as Ht.
  destruct (cs_chunks cs !! sha256_hex d) as [c|] eqn:Hc.
  { destruct (rep_bump B _ A d c Ht Hb Hnc Hc) as (Hr' & Hi & ->). simpl.
    split; [|done]. by apply rep_tmp. }
  rewrite (rep_absent _ _ _ Hr Hc). simpl.
  destruct (sio_mkdir io); simpl; [split; [by apply rep_tmp|done]|].
  destruct (sio_rename io); simpl; [split; [by apply rep_tmp|done]|].
  split; [|done]. apply rep_tmp; [done|].
  eapply (rep_new cs); try done; [apply lookup_insert_eq|].
  intros id Hid Hne. rewrite lookup_insert_ne, delete_insert_eq, lookup_delete_ne;
    [done|by apply tmp_path_ne|]. intros ?%(hash_path_inj cs); [done|by eexists|done].
Qed.

Lemma DeleteChunk_rep rm cs A id :
  represents cs A → (∀ d n, A !! id = Some (d, n) → int64 (n - 1) = n - 1) →
  represents (DeleteChunk rm cs id).1 (drop_ref (none rm) A id) ∧
  none (DeleteChunk rm cs id).2 = (spec_step A (OpDelete rm id)).2.
Proof.
  intros Hr Hi. unfold DeleteChunk, GetChunk, drop_ref, spec_step.
  destruct (cs_chunks cs !! id) as [c|] eqn:Hc; [|by rewrite (rep_absent _ _ _ Hr Hc)].
  destruct (rep_lookup _ _ _ _ Hr Hc) as (d & Ha & Hh). rewrite Ha. simpl. rewrite (Hi _ _ Ha).
  set (c' := {| ck_ID := ck_ID c |}).
  assert (represents (store_chunk cs id c') (<[id := (d, ck_RefCount c - 1)]> A)) as Hr'.
  { apply rep_insert; [done| |done]. by eapply holds_ext. }
  destruct (Z.leb_spec (ck_RefCount c - 1) 0); simpl.
  - rewrite (proj2 (Z.ltb_ge _ _)) by lia. destruct rm; [done|]. split; [|done].
    rewrite <-(delete_insert_eq A id (d, ck_RefCount c - 1)).
    apply (rep_delete _ _ id Hr'). by eapply holds_hash.
  - rewrite (proj2 (Z.ltb_lt _ _)) by lia. done.
Qed.

(** ** Collection *)

Lemma drop_ref_lookup_ne b A id id' : id ≠ id' → drop_ref b A id !! id' = A !! id'.
Proof.
  intros Hne. unfold drop_ref. destruct (A !! id) as [[d n]|]; [|done].
  case_match; by rewrite ?lookup_delete_ne, ?lookup_insert_ne.
Qed.

Lemma drop_ref_lookup b A k :
  drop_ref b A k !! k =
    A !! k ≫= fun x => if (x.2 - 1 <=? 0) && b then None else Some (x.1, x.2 - 1).
Proof.
  unfold drop_ref. destruct (A !! k) as [[d n]|] eqn:Ha; [|done]. simpl.
  case_match; by rewrite ?lookup_delete_eq, ?lookup_insert_eq.
Qed.

Lemma drop_refs_lookup (b : string → bool) ids A k :
  NoDup ids →
  fold_left (fun A id => drop_ref (b id) A id) ids A !! k =
    if decide (k ∈ ids) then drop_ref (b k) A k !! k else A !! k.
Proof.
  revert A. induction ids as [|id ids IH]; intros A Hnd; simpl; [done|].
  apply NoDup_cons in Hnd as [Hid Hnd]. rewrite IH by done.
  destruct (decide (id = k)) as [->|Hne].
  - rewrite (decide_False (P := k ∈ ids)), decide_True by (done || left). done.
  - assert ((k ∈ id :: ids) ↔ k ∈ ids) as Hin by set_solver.
    rewrite (decide_ext (k ∈ id :: ids) (k ∈ ids)) by done.
    case_decide; [|by apply drop_ref_lookup_ne].
    by rewrite !drop_ref_lookup, drop_ref_lookup_ne.
Qed.

Lemma delete_orphans_rep rm ids cs A :
  represents cs A → NoDup ids →
  (∀ id d n, id ∈ ids → A !! id = Some (d, n) → int64 (n - 1) = n - 1) →
  represents (delete_orphans rm cs ids) (fold_left (fun A id => drop_ref (none (rm id)) A id) ids A).
Proof.
  unfold delete_orphans. revert cs A. induction ids as [|id ids IH]; intros cs A Hr Hnd Hi; [done|].
  apply NoDup_cons in Hnd as [Hid Hnd]. simpl. apply IH; [|done|].
  - apply DeleteChunk_rep; [done|]. intros. eapply Hi; [left|done].
  - intros id' d n Hin Ha. rewrite drop_ref_lookup_ne in Ha by set_solver.
    eapply Hi; [by right|done].
Qed.

(** The chunks without references, by their keys. *)
Lemma orphans_keys cs A :
  represents cs A →
  map ck_ID (List.filter (fun c => ck_RefCount c <=? 0) (ListChunks cs)) =
  (List.filter (fun x => ck_RefCount x.2 <=? 0) (range_map (cs_chunks cs))).*1.
Proof.
  intros Hr. unfold ListChunks.
  assert (∀ id c, (id, c) ∈ range_map (cs_chunks cs) → ck_ID c = id) as Hkey.
  { intros id c Hc. apply elem_of_range_map in Hc.
    destruct (rep_lookup _ _ _ _ Hr Hc) as (d & _ & _ & _ & ? & _). done. }
  induction (range_map (cs_chunks cs)) as [|[id c] l IH]; csimpl; [done|].
  destruct (ck_RefCount c <=? 0); csimpl; rewrite IH by (intros; apply Hkey; by right); [|done].
  f_equal. apply Hkey. left.
Qed.

Lemma GarbageCollect_rep rm cs A :
  represents cs A → (∀ id d n, A !! id = Some (d, n) → int64 (n - 1) = n - 1) →
  represents (GarbageCollect rm cs).1 (collect (fun id => none (rm id)) A).
Proof.
  intros Hr Hi. unfold GarbageCollect. simpl. erewrite orphans_keys by done.
  set (ids := (List.filter _ _).*1).
  assert (NoDup ids) as Hnd.
  { apply NoDup_keys_filter, range_map_keys. }
  replace (collect _ A) with (fold_left (fun A id => drop_ref (none (rm id)) A id) ids A).
  { apply delete_orphans_rep; [done..|]. eauto. }
  apply map_eq. intros k. rewrite drop_refs_lookup by done. unfold collect. rewrite map_lookup_imap.
  assert (k ∈ ids ↔ ∃ d n, A !! k = Some (d, n) ∧ n ≤ 0) as Hin.
  { subst ids. rewrite list_elem_of_fmap. setoid_rewrite list_elem_of_In. setoid_rewrite filter_In.
    setoid_rewrite <-list_elem_of_In. split.
    - intros ([id c] & -> & Hc%elem_of_range_map & Hn%Z.leb_le).
      destruct (rep_lookup _ _ _ _ Hr Hc) as (d & Ha & _). eauto.
    - intros (d & n & Ha & Hn). destruct (rep_some _ _ Hr _ _ _ Ha) as (c & Hc & _ & <-).
      exists (k, c). rewrite elem_of_range_map. split_and!; [done..|]. by apply Z.leb_le. }
  case_decide as Hk; rewrite Hin in Hk.
  - destruct Hk as (d & n & Ha & Hn). rewrite drop_ref_lookup, Ha. simpl.
    rewrite (proj2 (Z.leb_le n 0)), (proj2 (Z.leb_le (n - 1) 0)) by lia. done.
  - destruct (A !! k) as [[d n]|] eqn:Ha; [|done]. simpl.
    destruct (Z.leb_spec n 0); [|done]. destruct Hk; eauto.
Qed.

(** ** Histories *)

(** The contents an operation brings in. *)
Definition op_data (op : ChunkOp) : list string :=
  match op with OpWrite _ d | OpStream _ d => [d] | _ => [] end.

(** The random part of a temporary name is a number. *)
Definition op_wf (op : ChunkOp) : bool :=
  match op with OpStream io _ => negb (contains_char "/" (sio_suffix io)) | _ => true end.

Definition collision_free (U : list string) : Prop :=
  ∀ d d', d ∈ U → d' ∈ U → sha256_hex d = sha256_hex d' → d = d'.

(** The same as a computation. *)
Lemma collision_free_check U :
  forallb (fun d => forallb (fun d' => (d =?s d') || negb (sha256_hex d =?s sha256_hex d')) U) U = true →
  collision_free U.
Proof.
  intros Hc d d' Hd Hd' Heq. rewrite forallb_forall' in Hc. specialize (Hc d Hd). simpl in Hc.
  rewrite forallb_forall' in Hc. specialize (Hc d' Hd'). simpl in Hc.
  rewrite (bool_decide_eq_true_2 (sha256_hex d = _) Heq), orb_false_r in Hc. by apply bool_decide_eq_true_1 in Hc.
Qed.

Definition contents (U : list string) (A : Refs) : Prop :=
  ∀ id d n, A !! id = Some (d, n) → d ∈ U.

(** Where an entry comes from. *)
Lemma spec_step_entry A op id d n :
  (spec_step A op).1 !! id = Some (d, n) →
  (∃ n0, A !! id = Some (d, n0) ∧ n0 - 1 ≤ n ≤ n0 + 1) ∨ (d ∈ op_data op ∧ n = 1).
Proof.
  assert (∀ d', take_ref A d' !! id = Some (d, n) →
    (∃ n0, A !! id = Some (d, n0) ∧ n0 - 1 ≤ n ≤ n0 + 1) ∨ (d ∈ [d'] ∧ n = 1)) as Htake.
  { intros d'. unfold take_ref. destruct (A !! sha256_hex d') as [[d0 n0]|] eqn:Ha;
      rewrite lookup_insert_Some; intros [[<- [= <- <-]]|[_ Hl]]; try (left; eexists; split; [done|lia]).
    right. split; [left|done]. }
  destruct op as [io d'|io d'|rm id'|rm]; simpl.
  1, 2: case_match; [apply Htake|simpl; left; eexists; split; [done|lia]].
  - destruct (decide (id' = id)) as [->|Hne].
    + rewrite drop_ref_lookup. destruct (A !! id) as [[d0 n0]|] eqn:Ha; simpl; [|done].
      case_match; intros; simplify_eq. left. eexists. split; [done|lia].
    + rewrite drop_ref_lookup_ne by done. left. eexists. split; [done|lia].
  - unfold collect. rewrite map_lookup_imap. destruct (A !! id) as [[d0 n0]|] eqn:Ha; simpl; [|done].
    repeat case_match; intros; simplify_eq; left; eexists; (split; [done|lia]).
Qed.

Lemma step_rep B U cs A op :
  represents cs A → bounded B A → B + 1 < 2 ^ 63 - 1 → contents U A → collision_free U →
  op_data op ⊆ U → op_wf op = true →
  represents (impl_step cs op).1 (spec_step A op).1 ∧
  (impl_step cs op).2 = (spec_step A op).2 ∧
  bounded (B + 1) (spec_step A op).1 ∧ contents U (spec_step A op).1.
Proof.
  intros Hr Hb HB Hct Hcf Hop Hwf.
  assert (∀ d, op_data op = [d] → no_collision A d) as Hnc.
  { intros d Hd d' n Ha. apply Hcf; [by eapply Hct|apply Hop; rewrite Hd; left|].
    by destruct (rep_some _ _ Hr _ _ _ Ha) as (c & _ & (_ & ? & _) & _). }
  assert (∀ id d n, A !! id = Some (d, n) → int64 (n - 1) = n - 1) as Hi.
  { destruct Hb as [? Hb]. intros id d n Ha. apply (int64_near B n); [by eapply Hb|lia]. }
  assert (∀ P Q R S : Prop, (P ∧ Q) ∧ R ∧ S → P ∧ Q ∧ R ∧ S) as Hand by tauto.
  apply Hand. clear Hand. split_and; [|split].
  - destruct op; simpl in *.
    + destruct (WriteChunk_rep B io cs A d Hr Hb (Hnc d eq_refl)) as (H1 & H2 & _).
      by destruct (WriteChunk io cs d).
    + destruct (WriteChunkStream_rep B io cs A d) as (H1 & H2); auto.
      { by destruct (contains_char _ _). }
      by destruct (WriteChunkStream io cs d).
    + destruct (DeleteChunk_rep rm cs A id Hr (Hi id)) as (H1 & H2).
      by destruct (DeleteChunk rm cs id).
    + split; [|done]. by apply GarbageCollect_rep.
  - destruct Hb as [Hb0 Hb]. split; [lia|].
    intros id d n [(n0 & Ha & ?)|[_ ->]]%spec_step_entry; [specialize (Hb _ _ _ Ha)|]; lia.
  - intros id d n [(n0 & Ha & ?)|[Hd _]]%spec_step_entry; [by eapply Hct|by apply Hop].
Qed.

Lemma run_rep U ops B cs A :
  represents cs A → bounded B A → B + len ops < 2 ^ 63 - 1 → contents U A → collision_free U →
  flat_map op_data ops ⊆ U → forallb op_wf ops = true →
  represents (run impl_step cs ops).1 (run spec_step A ops).1 ∧
  (run impl_step cs ops).2 = (run spec_step A ops).2.
Proof.
  revert B cs A. induction ops as [|op ops IH]; intros B cs A Hr Hb HB Hct Hcf HU Hwf; [done|].
  simpl in HU, Hwf. apply andb_true_iff in Hwf as [Hwf Hwfs]. unfold len in *. simpl in HB.
  destruct (step_rep B U cs A op) as (Hr' & Ha & Hb' & Hct'); try done; [lia|set_solver|].
  simpl. destruct (impl_step cs op) as [cs' b], (spec_step A op) as [A' b'].
  destruct (IH (B + 1) cs' A') as [IH1 IH2]; try done; [lia|set_solver|].
  destruct (run impl_step cs' ops), (run spec_step A' ops). simpl in *. by subst.
Qed.

(** ** What is reported *)

Definition total_size (A : Refs) : Z := foldr Z.add 0 ((fun x => slen x.2.1) <$> map_to_list A).

Lemma rep_sizes cs A : represents cs A → ck_Size <$> cs_chunks cs = (fun x => slen x.1) <$> A.
Proof.
  intros Hr. apply map_eq. intros id. rewrite !lookup_fmap.
  destruct (cs_chunks cs !! id) as [c|] eqn:Hc.
  - destruct (rep_lookup _ _ _ _ Hr Hc) as (d & -> & _ & _ & _ & _ & Hs). simpl. by rewrite Hs.
  - by rewrite (rep_absent _ _ _ Hr Hc).
Qed.

Lemma int64_sum {X} (f : X → Z) l s :
  fold_left (fun t x => int64 (t + f x)) l (int64 s) = int64 (s + foldr Z.add 0 (f <$> l)).
Proof.
  revert s. induction l as [|x l IH]; intros s; csimpl; [f_equal; lia|].
  rewrite int64_add_l, IH. f_equal. lia.
Qed.

Lemma GetStorageUsage_rep cs A : represents cs A → GetStorageUsage cs = int64 (total_size A).
Proof.
  intros Hr. unfold GetStorageUsage, ListChunks, total_size.
  change 0 with (int64 0) at 1. rewrite int64_sum, <-list_fmap_compose. f_equal. cbn.
  assert (∀ {X} (f : X → Z) (m : gmap string X),
    (fun x => f x.2) <$> map_to_list m = (map_to_list (f <$> m)).*2) as Hmap.
  { intros X f m. by rewrite map_to_list_fmap, <-list_fmap_compose. }
  rewrite (Hmap _ (fun x => slen x.1)), <-(rep_sizes _ _ Hr), <-Hmap.
  apply (foldr_permutation_proper (=) Z.add); [apply _|intros; lia|].
  apply fmap_Permutation, range_map_perm.
Qed.

(** ** Restarts *)

(** Directory and configuration stay, and without compression no chunk is
    compressed. *)
Record kept (cs cs' : ChunkStore) : Prop := {
  kept_base : cs_baseDir cs' = cs_baseDir cs;
  kept_config : cs_config cs' = cs_config cs;
  kept_plain : EnableCompression (cs_config cs) = false →
    map_Forall (fun _ c => ck_Compressed c = false) (cs_chunks cs) →
    map_Forall (fun _ c => ck_Compressed c = false) (cs_chunks cs')
}.

#[local] Instance kept_refl : Reflexive kept.
Proof. by split. Qed.

#[local] Instance kept_trans : Transitive kept.
Proof. intros a b c [H1 H2 H3] [H4 H5 H6]. split; [congruence|congruence|]. intros. apply H6; [congruence|auto]. Qed.

Lemma kept_files cs f : kept cs (cs <| cs_files := f |>).
Proof. by split. Qed.

Lemma kept_store cs id c :
  (EnableCompression (cs_config cs) = false →
   map_Forall (fun _ c => ck_Compressed c = false) (cs_chunks cs) → ck_Compressed c = false) →
  kept cs (store_chunk cs id c).
Proof. intros Hc. split; [done..|]. intros He Hf. simpl. apply map_Forall_insert_2; auto. Qed.

Lemma DeleteChunk_kept rm cs id : kept cs (DeleteChunk rm cs id).1.
Proof.
  unfold DeleteChunk, GetChunk. destruct (cs_chunks cs !! id) as [c|] eqn:Hc; [|reflexivity].
  assert (∀ n, kept cs (store_chunk cs id (c <| ck_RefCount := n |>))) as Hk.
  { intros n. apply kept_store. intros _ Hf. exact (Hf id c Hc). }
  case_match; [destruct rm|]; [apply Hk| |apply Hk]. split; [done..|]. simpl.
  intros He Hf. rewrite delete_insert_eq. by apply map_Forall_delete.
Qed.

Lemma remove_tmp_kept io cs : kept cs (remove_tmp io cs).
Proof. unfold remove_tmp. destruct (sio_unremoved io); [reflexivity|apply kept_files]. Qed.

Lemma impl_step_kept cs op : kept cs (impl_step cs op).1.
Proof.
  assert (∀ cs id c n, cs_chunks cs !! id = Some c →
    kept cs (store_chunk cs id (c <| ck_RefCount := n |>))) as Hbump.
  { intros cs0 id c n Hc. apply kept_store. intros _ Hf. exact (Hf id c Hc). }
  destruct op as [io d|io d|rm id|rm]; simpl.
  - unfold WriteChunk, GetChunk. destruct (cs_chunks cs !! _) eqn:Hc; [by apply Hbump|].
    unfold encode_chunk. destruct (EnableCompression (cs_config cs)) eqn:He;
      repeat case_match; simplify_eq; try apply kept_files; try reflexivity;
      (etrans; [apply kept_files|apply kept_store]; simpl; congruence).
  - unfold WriteChunkStream, GetChunk. simpl.
    repeat case_match; simplify_eq; simpl; try reflexivity;
      try (etrans; [apply kept_files|apply remove_tmp_kept]).
    + etrans; [apply kept_files|]. etrans; [by apply Hbump|apply remove_tmp_kept].
    + etrans; [apply kept_files|]. etrans; [apply kept_store|apply remove_tmp_kept]. done.
  - pose proof (DeleteChunk_kept rm cs id). by destruct (DeleteChunk rm cs id).
  - unfold delete_orphans. generalize (map ck_ID (List.filter (λ c, ck_RefCount c <=? 0) (ListChunks cs))).
    intros ids. revert cs. induction ids as [|id ids IH]; intros cs; simpl; [reflexivity|].
    etrans; [apply DeleteChunk_kept|apply IH].
Qed.

Lemma run_kept cs ops : kept cs (run impl_step cs ops).1.
Proof.
  revert cs. induction ops as [|op ops IH]; intros cs; simpl; [reflexivity|].
  pose proof (impl_step_kept cs op) as Hk. destruct (impl_step cs op) as [cs' b].
  specialize (IH cs'). destruct (run impl_step cs' ops). simpl in *. by etrans.
Qed.

(** What a load puts into the map: the metadata of a file with that name. *)
Lemma load_lookup mtime l cs id :
  let cs' := fold_left (fun cs x => store_chunk cs (Base x.1) (loaded_chunk mtime x)) l cs in
  cs_files cs' = cs_files cs ∧ cs_baseDir cs' = cs_baseDir cs ∧ cs_config cs' = cs_config cs ∧
  (cs_chunks cs' !! id = cs_chunks cs !! id ∧ id ∉ map (fun x => Base x.1) l ∨
   ∃ x, x ∈ l ∧ Base x.1 = id ∧ cs_chunks cs' !! id = Some (loaded_chunk mtime x)).
Proof.
  revert cs. induction l as [|x l IH]; intros cs; simpl.
  { split_and!; [done..|]. left. split; [done|]. apply not_elem_of_nil. }
  destruct (IH (store_chunk cs (Base x.1) (loaded_chunk mtime x))) as (Hf & Hb & Hconf & Hl).
  split_and!; [done..|]. destruct Hl as [[Hl Hni]|(y & Hy & Hby & Hl)].
  - rewrite Hl. simpl. destruct (decide (Base x.1 = id)) as [He|Hne].
    + right. exists x. rewrite He, lookup_insert_eq. split_and!; [left|done..].
    + left. rewrite lookup_insert_ne by done. split; [done|]. by apply not_elem_of_cons.
  - right. exists y. split_and!; [by right|done..].
Qed.

Lemma loaded_files mtime files config cs :
  NewChunkStore None mtime None files config = Ok cs →
  cs_baseDir cs = Join (Clean (DataDir config)) "chunks" ∧ cs_files cs = files ∧ cs_config cs = config ∧
  ∀ id, (cs_chunks cs !! id = None ∧
         ∀ p d, files !! p = Some d → below (cs_baseDir cs) p = true → Base p ≠ id) ∨
    ∃ p d, files !! p = Some d ∧ below (cs_baseDir cs) p = true ∧
      cs_chunks cs !! id = Some (loaded_chunk mtime (p, d)) ∧ Base p = id.
Proof.
  unfold NewChunkStore, loadChunks. intros [= <-]. simpl.
  set (cs0 := {| cs_config := config |}). set (l := walk _ _).
  destruct (load_lookup mtime l cs0 "") as (Hf & Hb & Hconf & _).
  split_and!; [done..|].
  intros id. destruct (load_lookup mtime l cs0 id) as (_ & _ & _ & [[Hl Hni]|((p & d) & Hx & Hbase & Hl)]).
  - left. split; [done|]. intros p d Hp Hbelow <-. apply Hni. apply list_elem_of_fmap. exists (p, d).
    split; [done|]. apply walk_elem. by rewrite Hb in Hbelow.
  - right. exists p, d. apply walk_elem in Hx as [Hp Hbelow]. by rewrite Hb.
Qed.

(** A store over an empty directory. *)
Lemma fresh_rep mtime files config cs :
  NewChunkStore None mtime None files config = Ok cs →
  (∀ p, is_Some (files !! p) → below (cs_baseDir cs) p = false) →
  represents cs ∅ ∧ cs_chunks cs = ∅.
Proof.
  intros Hnew Hfresh. destruct (loaded_files _ _ _ _ Hnew) as (_ & _ & _ & Hl).
  assert (cs_chunks cs = ∅) as He.
  { apply map_eq. intros id. rewrite lookup_empty. destruct (Hl id) as [[? _]|(p & d & Hp & Hb & _)]; [done|].
    by rewrite (Hfresh p) in Hb by eauto. }
  split; [|done]. split; [done|]. intros id _. by rewrite He.
Qed.

Lemma below_chunk cs id : is_hash id → below (cs_baseDir cs) (getChunkPath cs id) = true.
Proof.
  intros Hid. rewrite hash_path by done. unfold below. simpl.
  rewrite !bool_decide_eq_true_2; [done| | |done].
  - intros Heq%(f_equal length). rewrite length_app in Heq. simpl in Heq. lia.
  - by apply prefix_app_r.
Qed.

(** Whatever the files hold, what is read has the checksum of the metadata. *)
Lemma ReadChunk_checksum io cs id d c :
  ReadChunk io cs id = Ok d → cs_chunks cs !! id = Some c → sha256_hex d = ck_Checksum c.
Proof.
  unfold ReadChunk, GetChunk. intros Hread Hc. rewrite Hc in Hread.
  destruct (ReadFile _ _ _); [|done]. apply rbind_ok in Hread as (d' & _ & Hread).
  case_bool_decide; simplify_eq. done.
Qed.

Lemma reload_read mtime config cs cs2 A id d n :
  represents cs A → map_Forall (fun _ c => ck_Compressed c = false) (cs_chunks cs) →
  NewChunkStore None mtime None (cs_files cs) config = Ok cs2 → cs_baseDir cs2 = cs_baseDir cs →
  A !! id = Some (d, n) → ReadChunk None cs2 id = Ok d.
Proof.
  intros Hr Hplain Hnew Hbase Ha. destruct (loaded_files _ _ _ _ Hnew) as (_ & Hf & _ & Hl).
  destruct (rep_some _ _ Hr _ _ _ Ha) as (c & Hc & Hh & _). pose proof (holds_hash _ _ _ _ Hh) as Hid.
  assert (getChunkPath cs2 id = getChunkPath cs id) as Hpath by (unfold getChunkPath; by rewrite Hbase).
  destruct Hh as ((content & Hfile & Hdec) & Hsum & _).
  unfold decode_chunk in Hdec. rewrite (Hplain _ _ Hc) in Hdec. injection Hdec as ->.
  destruct (Hl id) as [[_ Hno]|(p & d' & Hp & _ & Hl' & Hb)].
  - destruct (Hno _ _ Hfile); [rewrite <-Hpath; by apply below_chunk|].
    rewrite hash_path by done. unfold Base. simpl. by rewrite last_app.
  - unfold ReadChunk, GetChunk, ReadFile. rewrite Hl', Hf, Hpath, Hfile. simpl.
    unfold calculateChecksum. rewrite bool_decide_eq_true_2; [done|]. congruence.
Qed.

End Represents.

(** ** The theorems *)

(** C19: on a fresh directory, for any history of writes, streams, deletions and
    collections, whatever calls of the operating system fail, the store answers
    as the reference-counted map does; afterwards every chunk of the map and no
    other can be read, sized and verified, and the usage is the total size of
    the distinct contents (as a 64-bit number).  The contents must not collide
    under SHA-256. *)
Theorem chunk_store_refines `{Gzip, GoRange} mtime files config cs ops :
  NewChunkStore None mtime None files config = Ok cs →
  (∀ p, is_Some (files !! p) → below (cs_baseDir cs) p = false) →
  collision_free (flat_map op_data ops) → forallb op_wf ops = true → len ops < 2 ^ 63 - 1 →
  ∃ cs' A answers,
    run impl_step cs ops = (cs', answers) ∧ run spec_step ∅ ops = (A, answers) ∧
    (∀ id, ReadChunk None cs' id = match A !! id with
                                   | Some (d, _) => Ok d
                                   | None => Err ("chunk not found: " +:+ id)
                                   end) ∧
    (∀ id, GetChunkSize cs' id = match A !! id with
                                 | Some (d, _) => Ok (slen d)
                                 | None => Err ("chunk not found: " +:+ id)
                                 end) ∧
    (∀ id, VerifyChunk None cs' id = None ↔ is_Some (A !! id)) ∧
    GetStorageUsage cs' = int64 (total_size A).
Proof.
  intros Hnew Hfresh Hcf Hwf Hlen. destruct (fresh_rep _ _ _ _ Hnew Hfresh) as [Hr _].
  destruct (run_rep (flat_map op_data ops) ops 0 cs ∅) as [Hr' Ha]; try done.
  destruct (run impl_step cs ops) as [cs' answers], (run spec_step ∅ ops) as [A answers'].
  simpl in *. subst answers'. exists cs', A, answers.
  assert (∀ id, ReadChunk None cs' id = match A !! id with
    | Some (d, _) => Ok d | None => Err ("chunk not found: " +:+ id) end) as Hread.
  { intros id. destruct (A !! id) as [[d n]|] eqn:Hid; [by eapply rep_read|].
    unfold ReadChunk, GetChunk. by rewrite (rep_none _ _ Hr' _ Hid). }
  split_and!; try done.
  - intros id. unfold GetChunkSize, GetChunk. destruct (A !! id) as [[d n]|] eqn:Hid.
    + by destruct (rep_some _ _ Hr' _ _ _ Hid) as (c & -> & (_ & _ & _ & _ & ->) & _).
    + by rewrite (rep_none _ _ Hr' _ Hid).
  - intros id. unfold VerifyChunk. rewrite Hread. destruct (A !! id) as [[d n]|] eqn:Hid.
    + destruct (rep_some _ _ Hr' _ _ _ Hid) as (c & _ & (_ & Hs & _) & _).
      unfold calculateChecksum. rewrite bool_decide_eq_true_2 by done. by split.
    + split; [done|]. by intros [? ?].
  - by apply GetStorageUsage_rep.
Qed.

(** Without compression, a store started over the files that any such history
    leaves reads every chunk of the map; and whatever is read from it has the
    digest it was asked for, partial files of failed writes included. *)
Theorem restart_keeps_chunks `{Gzip, GoRange} mtime mtime' files config cs ops cs2 :
  EnableCompression config = false →
  NewChunkStore None mtime None files config = Ok cs →
  (∀ p, is_Some (files !! p) → below (cs_baseDir cs) p = false) →
  collision_free (flat_map op_data ops) → forallb op_wf ops = true → len ops < 2 ^ 63 - 1 →
  NewChunkStore None mtime' None (cs_files (run impl_step cs ops).1) config = Ok cs2 →
  ∀ id, (∀ d n, (run spec_step ∅ ops).1 !! id = Some (d, n) → ReadChunk None cs2 id = Ok d) ∧
        (∀ d, ReadChunk None cs2 id = Ok d → sha256_hex d = id).
Proof.
  intros Hcomp Hnew Hfresh Hcf Hwf Hlen Hnew2 id.
  destruct (fresh_rep _ _ _ _ Hnew Hfresh) as [Hr Hempty].
  destruct (run_rep (flat_map op_data ops) ops 0 cs ∅) as [Hr' _]; try done.
  destruct (run_kept cs ops) as [Hbase Hconf Hplain].
  destruct (loaded_files _ _ _ _ Hnew) as (Hb1 & _ & Hc1 & _).
  destruct (loaded_files _ _ _ _ Hnew2) as (Hb2 & _ & _ & Hl).
  split.
  - intros d n Ha. eapply reload_read; [done| |done|congruence|done].
    apply Hplain; [congruence|rewrite Hempty; apply map_Forall_empty].
  - intros d Hread. destruct (Hl id) as [[Hno _]|(p & d' & _ & _ & Hl' & Hbase')].
    + unfold ReadChunk, GetChunk in Hread. by rewrite Hno in Hread.
    + by rewrite (ReadChunk_checksum _ _ _ _ _ Hread Hl').
Qed.

(** ** Concrete runs *)

Module ChunkRuns.

(** A codec that shortens a run of eight letters. *)
Definition toy_compress (d : string) : string :=
  match strip_prefix "aaaaaaaa" d with Some r => String "z" r | None => String "n" d end.

Definition toy_gunzip (c : string) : Gunzip :=
  match c with
  | String "z" r => Plain ("aaaaaaaa" +:+ r)
  | String "n" r => Plain r
  | _ => BadHeader "gzip: invalid header"
  end.

Definition toy_gzip : Gzip.
Proof.
  refine {| compress d := Some (toy_compress d); gunzip := toy_gunzip |}.
  intros d c [= <-]. unfold toy_compress. destruct (strip_prefix _ d) as [r|] eqn:Hd; [|done].
  apply strip_prefix_spec in Hd as ->. done.
Defined.

#[local] Existing Instance toy_gzip.
#[local] Existing Instance range_canonical.

Definition config (compressed : bool) : StorageConfig :=
  (DefaultStorageConfig <| DataDir := "/data" |>) <| EnableCompression := compressed |>.

Definition base : Path := Join (Clean "/data") "chunks".

Definition start (compressed : bool) : ChunkStore :=
  {| cs_config := config compressed; cs_baseDir := base; cs_chunks := ∅; cs_files := ∅ |}.

Definition stream_ok (suffix : string) : StreamIO := {|
  sio_create := None; sio_suffix := suffix; sio_copy := None; sio_mkdir := None;
  sio_rename := None; sio_unremoved := false; sio_now := 5 |}.

Definition ops : list ChunkOp := [
  OpWrite (write_ok 1) "aaaaaaaaaaaa";
  OpWrite {| io_mkdir := None; io_write := Interrupted 2 "no space left on device"; io_now := 2 |} "bcd";
  OpStream (stream_ok "17") "bcd";
  OpWrite (write_ok 3) "aaaaaaaaaaaa";
  OpDelete None (sha256_hex "bcd");
  OpCollect (fun _ => None)].

Lemma ops_collision_free : collision_free (flat_map op_data ops).
Proof. apply collision_free_check. vm_compute. reflexivity. Qed.

Lemma spec_answers : (run spec_step ∅ ops).2 = [true; false; true; true; true; true].
Proof. vm_compute. reflexivity. Qed.

Lemma spec_entry : (run spec_step ∅ ops).1 !! sha256_hex "aaaaaaaaaaaa" = Some ("aaaaaaaaaaaa"%string, 2).
Proof. vm_compute. reflexivity. Qed.

Lemma chunk_store_refines_witness :
  (run impl_step (start true) ops).2 = [true; false; true; true; true; true] ∧
  ReadChunk None (run impl_step (start true) ops).1 (sha256_hex "aaaaaaaaaaaa") = Ok "aaaaaaaaaaaa"%string.
Proof.
  pose proof spec_answers as Hb. pose proof spec_entry as He.
  destruct (chunk_store_refines (fun _ => 0) ∅ (config true) (start true) ops)
    as (cs' & A & answers & H1 & H2 & H3 & _).
  - vm_compute. reflexivity.
  - intros p [x Hx]. rewrite lookup_empty in Hx. discriminate.
  - apply ops_collision_free.
  - reflexivity.
  - vm_compute. reflexivity.
  - rewrite H2 in Hb, He. rewrite H1. cbn [fst snd] in *. split; [exact Hb|]. rewrite H3, He. reflexivity.
Defined.

Lemma restart_keeps_chunks_witness :
  ∃ cs2, NewChunkStore None (fun _ => 9) None (cs_files (run impl_step (start false) ops).1) (config false)
           = Ok cs2 ∧
         ReadChunk None cs2 (sha256_hex "aaaaaaaaaaaa") = Ok "aaaaaaaaaaaa"%string.
Proof.
  destruct (NewChunkStore None (fun _ => 9) None (cs_files (run impl_step (start false) ops).1)
              (config false)) as [cs2|e] eqn:Hnew; [|discriminate Hnew].
  exists cs2. split; [reflexivity|].
  refine (proj1 (restart_keeps_chunks (fun _ => 0) (fun _ => 9) ∅ (config false) (start false) ops cs2
            _ _ _ _ _ _ Hnew (sha256_hex "aaaaaaaaaaaa")) _ 2 spec_entry).
  - reflexivity.
  - vm_compute. reflexivity.
  - intros p [x Hx]. rewrite lookup_empty in Hx. discriminate.
  - apply ops_collision_free.
  - reflexivity.
  - vm_compute. reflexivity.
Defined.

(** The store after a restart over the files of another. *)
Definition restarted (compressed : bool) (cs : ChunkStore) : ChunkStore :=
  match NewChunkStore None (fun _ => 9) None (cs_files cs) (config compressed) with
  | Ok cs => cs
  | Err _ => cs
  end.

(** The restart does not know that a file is compressed: its chunk can be read
    before the restart and not after it. *)
Example restart_loses_compressed :
  let cs := (WriteChunk (write_ok 1) (start true) "aaaaaaaaaaaa").1 in
  let id := sha256_hex "aaaaaaaaaaaa" in
  ReadChunk None cs id = Ok "aaaaaaaaaaaa" ∧ is_ok (ReadChunk None (restarted true cs) id) = false.
Proof. vm_compute. done. Qed.

(** After a restart every chunk has one reference: deleting one of two
    removes the content for the other. *)
Example restart_forgets_references :
  let cs := (run impl_step (start false) [OpWrite (write_ok 1) "abc"; OpWrite (write_ok 2) "abc"]).1 in
  let id := sha256_hex "abc" in
  ReadChunk None (DeleteChunk None cs id).1 id = Ok "abc" ∧
  is_ok (ReadChunk None (DeleteChunk None (restarted false cs) id).1 id) = false.
Proof. vm_compute. done. Qed.

(** A collection that cannot remove a file leaves a count below zero, so a
    later write of that content counts as unreferenced: the next collection
    removes it. *)
Example collected_while_referenced :
  let failing := Some "permission denied" in
  let id := sha256_hex "abc" in
  let cs := (run impl_step (start false) [
    OpWrite (write_ok 1) "abc"; OpDelete failing id; OpCollect (fun _ => failing);
    OpWrite (write_ok 2) "abc"]).1 in
  ReadChunk None cs id = Ok "abc" ∧
  is_ok (ReadChunk None (GarbageCollect (fun _ => None) cs).1 id) = false.
Proof. vm_compute. done. Qed.

End ChunkRuns.
