(* ===== verification/ContentEngine.v ===== *)
(** * Objects as lists of chunks (pkg/storage/content.go)

    The content engine splits an object into chunks of [ChunkSize] bytes,
    stores them in the chunk store and gives the list of their identifiers to
    the caller.  Answers of the operating system are indexed by the position of
    the chunk in the object. *)

From S2P Require Import Prelude GoText GoCrypto GoFiles StorageTypes ChunkStore.

Local Open Scope string_scope.
Local Open Scope Z_scope.

(** The engine's configuration; the chunk store is passed along. *)
Record ContentEngine := { ce_config : StorageConfig }.

(** The pieces of [size] bytes; the last may be shorter.  A turn takes at least
    one byte, so there are at most as many turns as bytes. *)
Fixpoint pieces (turns size : nat) (data : string) : list string :=
  match turns, data with
  | S turns, String _ _ => take_bytes size data :: pieces turns size (drop_bytes size data)
  | _, _ => []
  end.

(** [None]: for a negative size [make] panics and for zero the loop does not
    end (an empty object is one empty chunk either way). *)
Definition splitIntoChunks (ce : ContentEngine) (data : string) : option (list string) :=
  let chunkSize := ChunkSize (ce_config ce) in
  if slen data =? 0 then Some [data]
  else if chunkSize <=? 0 then None
  else Some (pieces (String.length data) (Z.to_nat chunkSize) data).

(** The loops of [cleanupChunks] and [DeleteContent]: errors are logged. *)
Fixpoint delete_chunks (rm : nat → option string) (i : nat) (cs : ChunkStore) (chunkIDs : list string)
  : ChunkStore :=
  match chunkIDs with
  | [] => cs
  | chunkID :: chunkIDs => delete_chunks rm (S i) (DeleteChunk (rm i) cs chunkID).1 chunkIDs
  end.

Definition cleanupChunks (rm : nat → option string) (cs : ChunkStore) (chunkIDs : list string)
  : ChunkStore := delete_chunks rm 0 cs chunkIDs.

Definition DeleteContent (rm : nat → option string) (cs : ChunkStore) (chunkIDs : list string)
  : ChunkStore * option string := (delete_chunks rm 0 cs chunkIDs, None).

(** The loop of [StoreContent] from chunk [i] on; [chunkIDs] are those written
    so far.  The same loop stores shards, so [what] is written is named. *)
Fixpoint store_chunks `{Gzip} (what : string) (io : nat → WriteIO) (rm : nat → option string) (i : nat)
  (cs : ChunkStore) (chunkIDs : list string) (chunks : list string)
  : ChunkStore * result string (list string) :=
  match chunks with
  | [] => (cs, Ok chunkIDs)
  | chunkData :: chunks =>
      match WriteChunk (io i) cs chunkData with
      | (cs, Err err) =>
          (cleanupChunks rm cs chunkIDs,
           Err ("failed to write " +:+ what +:+ " " +:+ show_Z (Z.of_nat i) +:+ ": " +:+ err))
      | (cs, Ok chunk) => store_chunks what io rm (S i) cs (app chunkIDs [ck_ID chunk]) chunks
      end
  end.

(** The answer is the identifiers and the checksum of the whole object. *)
Definition StoreContent `{Gzip} (ce : ContentEngine) (io : nat → WriteIO) (rm : nat → option string)
  (cs : ChunkStore) (data : string) : option (ChunkStore * result string (list string * string)) :=
  if slen data =? 0 then Some (cs, Err "cannot store empty content")
  else
    match splitIntoChunks ce data with
    | None => None
    | Some chunks =>
        Some (match store_chunks "chunk" io rm 0 cs [] chunks with
              | (cs, Ok chunkIDs) => (cs, Ok (chunkIDs, calculateChecksum data))
              | (cs, Err err) => (cs, Err err)
              end)
    end.

Fixpoint read_chunks `{Gzip} (io : nat → option string) (i : nat) (cs : ChunkStore) (buffer : string)
  (chunkIDs : list string) : result string string :=
  match chunkIDs with
  | [] => Ok buffer
  | chunkID :: chunkIDs =>
      match ReadChunk (io i) cs chunkID with
      | Err err => Err ("failed to read chunk " +:+ show_Z (Z.of_nat i) +:+ " (" +:+ chunkID +:+ "): " +:+ err)
      | Ok data => read_chunks io (S i) cs (buffer +:+ data) chunkIDs
      end
  end.

Definition RetrieveContent `{Gzip} (io : nat → option string) (cs : ChunkStore) (chunkIDs : list string)
  : result string string :=
  match chunkIDs with
  | [] => Ok ""
  | _ => read_chunks io 0 cs "" chunkIDs
  end.

(** The loop of [StoreContentStream].  [rest] is what the reader still
    delivers before it ends, or before it fails with [fail]; [io.ReadFull]
    reports the failure when it cannot fill the buffer.  After a short read the
    error is overwritten by that of [WriteChunk], so the loop ends with the
    next read, which is empty. *)
Fixpoint stream_chunks `{Gzip} (turns size : nat) (io : nat → WriteIO) (rm : nat → option string)
  (fail : option string) (i : nat) (cs : ChunkStore) (chunkIDs : list string) (hashed rest : string)
  : ChunkStore * result string (list string * string) :=
  let buffer := take_bytes size rest in
  match fail, (String.length buffer <? size)%nat with
  | Some err, true => (cleanupChunks rm cs chunkIDs, Err ("failed to read stream: " +:+ err))
  | _, _ =>
      match turns, buffer with
      | S turns, String _ _ =>
          match WriteChunk (io i) cs buffer with
          | (cs, Err err) => (cleanupChunks rm cs chunkIDs, Err ("failed to write chunk: " +:+ err))
          | (cs, Ok chunk) =>
              stream_chunks turns size io rm fail (S i) cs (app chunkIDs [ck_ID chunk])
                (hashed +:+ buffer) (drop_bytes size rest)
          end
      | _, _ => (cs, Ok (chunkIDs, sha256_hex hashed))
      end
  end.

(** [None] is the panic of [make] for a negative size. *)
Definition StoreContentStream `{Gzip} (ce : ContentEngine) (io : nat → WriteIO)
  (rm : nat → option string) (fail : option string) (cs : ChunkStore) (data : string)
  : option (ChunkStore * result string (list string * string)) :=
  let chunkSize := ChunkSize (ce_config ce) in
  if chunkSize <? 0 then None
  else Some (stream_chunks (String.length data) (Z.to_nat chunkSize) io rm fail 0 cs [] "" data).

(** What reaches the writer, and the error; [w] gives the errors of
    [writer.Write], which then has taken some of the bytes. *)
Fixpoint write_chunks `{Gzip} (io : nat → option string) (w : nat → option (nat * string)) (i : nat)
  (cs : ChunkStore) (out : string) (chunkIDs : list string) : string * option string :=
  match chunkIDs with
  | [] => (out, None)
  | chunkID :: chunkIDs =>
      match ReadChunk (io i) cs chunkID with
      | Err err =>
          (out, Some ("failed to read chunk " +:+ show_Z (Z.of_nat i) +:+ " (" +:+ chunkID +:+ "): " +:+ err))
      | Ok data =>
          match w i with
          | Some (n, err) =>
              (out +:+ take_bytes n data, Some ("failed to write chunk " +:+ show_Z (Z.of_nat i) +:+ ": " +:+ err))
          | None => write_chunks io w (S i) cs (out +:+ data) chunkIDs
          end
      end
  end.

Definition RetrieveContentStream `{Gzip} (io : nat → option string) (w : nat → option (nat * string))
  (cs : ChunkStore) (chunkIDs : list string) : string * option string :=
  write_chunks io w 0 cs "" chunkIDs.

Definition VerifyContent `{Gzip} (io : nat → option string) (cs : ChunkStore) (chunkIDs : list string)
  (expectedChecksum : string) : option string :=
  match RetrieveContent io cs chunkIDs with
  | Err err => Some ("failed to retrieve content: " +:+ err)
  | Ok data =>
      let actualChecksum := calculateChecksum data in
      if actualChecksum =?s expectedChecksum then None
      else Some ("checksum mismatch: expected " +:+ expectedChecksum +:+ ", got " +:+ actualChecksum)
  end.

Fixpoint sum_sizes (cs : ChunkStore) (totalSize : Z) (chunkIDs : list string) : result string Z :=
  match chunkIDs with
  | [] => Ok totalSize
  | chunkID :: chunkIDs =>
      match GetChunkSize cs chunkID with
      | Err err => Err ("failed to get size of chunk " +:+ chunkID +:+ ": " +:+ err)
      | Ok size => sum_sizes cs (int64 (totalSize + size)) chunkIDs
      end
  end.

Definition GetContentSize (cs : ChunkStore) (chunkIDs : list string) : result string Z :=
  sum_sizes cs 0 chunkIDs.

Definition DeduplicateContent (checksum : string) : option (list string) := None.

(** [None] is the panic of a division by zero. *)
Definition GetChunkCount (ce : ContentEngine) (size : Z) : option Z :=
  let chunkSize := ChunkSize (ce_config ce) in
  if chunkSize =? 0 then None
  else
    let count := int64 (Z.quot size chunkSize) in
    let count := if negb (Z.rem size chunkSize =? 0) then int64 (count + 1) else count in
    Some (if count =? 0 then 1 else count).
