(* ===== verification/ContentSpec.v ===== *)
(** * Stored objects are safe

    The clients of the content engine hold the objects they stored and did not
    delete.  For every history of stores, streams, deletions and collections
    the count of each chunk is the number of its occurrences in the objects
    held, so every object held can be read back whole and nothing else is
    kept. *)

From S2P Require Import Prelude GoText GoCrypto GoFiles StorageTypes ChunkStore ChunkStoreSpec ContentEngine.

#[local] Opaque sha256_hex.

(** ** Splitting *)

Lemma take_drop n s : take_bytes n s +:+ drop_bytes n s = s.
Proof.
  revert s. induction n as [|n IH]; intros [|c s]; simpl; simpl_append; try done. by rewrite IH.
Qed.

Lemma length_drop_bytes n s : String.length (drop_bytes n s) = (String.length s - n)%nat.
Proof. revert s. induction n as [|n IH]; intros [|c s]; simpl; auto. Qed.

Lemma length_take_bytes_min n s : String.length (take_bytes n s) = (n `min` String.length s)%nat.
Proof. revert s. induction n as [|n IH]; intros [|c s]; simpl; auto. Qed.

Definition concat_bytes (l : list string) : string := foldr (fun a b => a +:+ b) "" l.

Lemma concat_bytes_app l k : concat_bytes (l ++ k) = concat_bytes l +:+ concat_bytes k.
Proof. induction l as [|a l IH]; simpl; [done|]. by rewrite IH, string_app_assoc. Qed.

Lemma drop_all n s : (String.length s ≤ n)%nat → drop_bytes n s = "".
Proof. revert s. induction n as [|n IH]; intros [|c s]; simpl; intros; try (done || lia). apply IH. lia. Qed.

Lemma pieces_concat turns size data :
  (0 < size)%nat → (String.length data ≤ turns)%nat → concat_bytes (pieces turns size data) = data.
Proof.
  intros Hs. revert data. induction turns as [|turns IH]; intros [|c data] Hl; try done; [simpl in Hl; lia|].
  change (take_bytes size (String c data) +:+ concat_bytes (pieces turns size (drop_bytes size (String c data)))
          = String c data).
  rewrite IH; [apply take_drop|]. rewrite length_drop_bytes. simpl in *. lia.
Qed.

(** The pieces of an object under a configuration. *)
Definition object_pieces (ce : ContentEngine) (data : string) : list string :=
  pieces (String.length data) (Z.to_nat (ChunkSize (ce_config ce))) data.

Lemma split_pieces ce data :
  0 < ChunkSize (ce_config ce) → data ≠ "" → splitIntoChunks ce data = Some (object_pieces ce data).
Proof.
  intros Hs Hd. unfold splitIntoChunks, slen. destruct data as [|c data]; [done|].
  rewrite (proj2 (Z.eqb_neq _ _)) by (simpl; lia). rewrite (proj2 (Z.leb_gt _ _)) by done. done.
Qed.

Lemma object_pieces_concat ce data :
  0 < ChunkSize (ce_config ce) → concat_bytes (object_pieces ce data) = data.
Proof. intros. apply pieces_concat; lia. Qed.

(** ** References *)

(** The number of occurrences of an identifier. *)
Definition occ (id : string) (l : list string) : Z := len (List.filter (fun x => x =?s id) l).

Lemma occ_cons id x l : occ id (x :: l) = (if decide (x = id) then 1 else 0) + occ id l.
Proof.
  unfold occ, len. simpl. destruct (decide (x = id)).
  - rewrite bool_decide_eq_true_2 by done. simpl. lia.
  - by rewrite bool_decide_eq_false_2.
Qed.

Lemma occ_bounds id l : 0 ≤ occ id l ≤ len l.
Proof. unfold len. induction l as [|x l IH]; [done|]. rewrite occ_cons. case_decide; simpl in *; lia. Qed.

Lemma occ_pos id l : id ∈ l → 0 < occ id l.
Proof.
  induction l as [|x l IH]; [by intros ?%elem_of_nil|]. rewrite elem_of_cons, occ_cons.
  pose proof (occ_bounds id l). intros [->|?]; case_decide; try (done || lia). specialize (IH H0). lia.
Qed.

Lemma occ_pos_inv id l : 0 < occ id l → id ∈ l.
Proof.
  induction l as [|x l IH]; [done|]. rewrite occ_cons, elem_of_cons. case_decide; [by left|right; apply IH; lia].
Qed.

Lemma occ_perm id l k : l ≡ₚ k → occ id l = occ id k.
Proof. induction 1; rewrite ?occ_cons; lia. Qed.

(** The counts are the occurrences in [l]. *)
Definition tracks (A : Refs) (l : list string) : Prop :=
  ∀ id, match A !! id with Some (_, n) => n = occ id l | None => occ id l = 0 end.

Lemma tracks_perm A l k : l ≡ₚ k → tracks A l → tracks A k.
Proof. intros Hp Ht id. specialize (Ht id). by rewrite (occ_perm _ _ _ Hp) in Ht. Qed.

Lemma tracks_take A l d : tracks A l → tracks (take_ref A d) (sha256_hex d :: l).
Proof.
  intros Ht id. rewrite occ_cons. pose proof (Ht id) as Hid. unfold take_ref.
  destruct (decide (sha256_hex d = id)) as [<-|Hne].
  - destruct (A !! sha256_hex d) as [[d' n]|]; rewrite lookup_insert_eq; lia.
  - destruct (A !! sha256_hex d) as [[d' n]|]; by rewrite lookup_insert_ne.
Qed.

Lemma tracks_drop b A id l : tracks A (id :: l) → tracks (drop_ref b A id) l.
Proof.
  intros Ht id'. pose proof (Ht id') as Hid. rewrite occ_cons in Hid. pose proof (occ_bounds id' l).
  destruct (decide (id = id')) as [->|Hne]; [|by rewrite drop_ref_lookup_ne].
  rewrite drop_ref_lookup. destruct (A !! id') as [[d n]|]; simpl; [|lia].
  destruct (_ && b) eqn:Hb; [|lia]. apply andb_true_iff in Hb as [Hb%Z.leb_le _]. lia.
Qed.

Lemma tracks_collect A l : tracks A l → tracks (collect (fun _ => true) A) l.
Proof.
  intros Ht id. pose proof (Ht id) as Hid. pose proof (occ_bounds id l). unfold collect.
  rewrite map_lookup_imap. destruct (A !! id) as [[d n]|]; simpl; [|done].
  destruct (Z.leb_spec n 0); [lia|done].
Qed.

(** ** The store of a set of references *)

Section Content.
Context `{Gzip, GoRange} (U : list string) (Hcf : collision_free U).

Definition max_refs : Z := 2 ^ 63 - 2.

(** The store holds the chunks that [l] refers to, and counts them. *)
Definition good (cs : ChunkStore) (l : list string) : Prop :=
  ∃ A, represents cs A ∧ tracks A l ∧ contents U A.

Lemma good_perm cs l k : l ≡ₚ k → good cs l → good cs k.
Proof. intros Hp (A & Hr & Ht & Hc). exists A. split_and!; [done| |done]. by eapply tracks_perm. Qed.

Lemma tracks_bounded A l : tracks A l → len l ≤ max_refs → bounded (len l) A.
Proof.
  unfold max_refs. intros Ht Hl. split; [unfold len in *; lia|]. intros id d n Ha. specialize (Ht id).
  rewrite Ha in Ht. pose proof (occ_bounds id l). lia.
Qed.

Lemma good_write io cs l d :
  good cs l → d ∈ U → len l < max_refs →
  match (WriteChunk io cs d).2 with
  | Ok c => ck_ID c = sha256_hex d ∧ good (WriteChunk io cs d).1 (sha256_hex d :: l)
  | Err _ => good (WriteChunk io cs d).1 l
  end.
Proof.
  intros (A & Hr & Ht & Hc) Hd Hl.
  assert (no_collision A d) as Hnc.
  { intros d' n Ha. apply Hcf; [by eapply Hc|done|].
    by destruct (rep_some _ _ Hr _ _ _ Ha) as (c & _ & (_ & ? & _) & _). }
  destruct (WriteChunk_rep (len l) io cs A d) as (Hr' & Hok & Hid); [done|apply tracks_bounded; [done|lia]|done|].
  assert (contents U (spec_step A (OpWrite io d)).1) as Hc'.
  { intros id d' n [(n0 & Ha & _)|[Hd' _]]%spec_step_entry; [by eapply Hc|]. simpl in Hd'. set_solver. }
  unfold spec_step in *. destruct (WriteChunk io cs d) as [cs' [c|e]]; simpl in *;
    destruct (negb _ || _); simpl in *; try done.
  - split; [by apply Hid|]. exists (take_ref A d). split_and!; [done|by apply tracks_take|done].
  - exists A. done.
Qed.

Lemma good_delete rm cs id l :
  good cs (id :: l) → len l < max_refs → good (DeleteChunk rm cs id).1 l.
Proof.
  intros (A & Hr & Ht & Hc) Hl. exists (drop_ref (none rm) A id). split_and!.
  - apply DeleteChunk_rep; [done|]. intros d n Ha.
    destruct (tracks_bounded A (id :: l) Ht) as [? Hb]; [unfold len in *; simpl in *; lia|].
    eapply (int64_near (len (id :: l))); [by eapply Hb|unfold max_refs, len in *; simpl in *; lia].
  - by apply tracks_drop.
  - intros id' d n Ha.
    destruct (spec_step_entry A (OpDelete rm id) id' d n Ha) as [(n0 & ? & _)|[Hin _]]; [by eapply Hc|].
    by apply elem_of_nil in Hin.
Qed.

Lemma good_deletes rm i cs ids l :
  good cs (ids ++ l) → len (ids ++ l) ≤ max_refs → good (delete_chunks rm i cs ids) l.
Proof.
  revert i cs. induction ids as [|id ids IH]; intros i cs Hg Hl; [done|]. simpl in *.
  unfold len in *. simpl in Hl. apply IH; [|lia]. apply good_delete; [done|]. unfold len. lia.
Qed.

Lemma good_collect cs l :
  good cs l → len l ≤ max_refs → good (GarbageCollect (fun _ => None) cs).1 l.
Proof.
  intros (A & Hr & Ht & Hc) Hl. exists (collect (fun _ => true) A). split_and!.
  - apply (GarbageCollect_rep (fun _ => None) cs A); [done|]. intros id d n Ha.
    destruct (tracks_bounded A l Ht Hl) as [? Hb].
    eapply (int64_near (len l)); [by eapply Hb|unfold max_refs in *; lia].
  - by apply tracks_collect.
  - intros id d n Ha.
    destruct (spec_step_entry A (OpCollect (fun _ => None)) id d n Ha) as [(n0 & ? & _)|[Hin _]];
      [by eapply Hc|]. by apply elem_of_nil in Hin.
Qed.

Lemma good_lookup cs l d :
  good cs l → sha256_hex d ∈ l → d ∈ U →
  ReadChunk None cs (sha256_hex d) = Ok d ∧ GetChunkSize cs (sha256_hex d) = Ok (slen d).
Proof.
  intros (A & Hr & Ht & Hc) Hin Hd. specialize (Ht (sha256_hex d)). apply occ_pos in Hin.
  destruct (A !! sha256_hex d) as [[d' n]|] eqn:Ha; [|lia].
  destruct (rep_some _ _ Hr _ _ _ Ha) as (c & Hck & (_ & Hs & _ & _ & Hsz) & _).
  assert (d' = d) as -> by (apply Hcf; [by eapply Hc|done..]).
  split; [by eapply rep_read|]. unfold GetChunkSize, GetChunk. by rewrite Hck, Hsz.
Qed.

(** ** Objects *)

Lemma store_chunks_good what io rm i cs ids chunks l :
  good cs (ids ++ l) → chunks ⊆ U → len (ids ++ l) + len chunks ≤ max_refs →
  match (store_chunks what io rm i cs ids chunks).2 with
  | Ok ids' => ids' = ids ++ map sha256_hex chunks ∧ good (store_chunks what io rm i cs ids chunks).1 (ids' ++ l)
  | Err _ => good (store_chunks what io rm i cs ids chunks).1 l
  end.
Proof.
  unfold len. revert i cs ids. induction chunks as [|d chunks IH]; intros i cs ids Hg HU Hl; simpl.
  { by rewrite app_nil_r. }
  simpl in Hl. pose proof (good_write (io i) cs (ids ++ l) d Hg ltac:(set_solver)) as Hw.
  destruct (WriteChunk (io i) cs d) as [cs' [c|e]]; simpl in *.
  - destruct Hw as [-> Hw]; [unfold len; lia|].
    specialize (IH (S i) cs' (ids ++ [sha256_hex d])). rewrite <-!app_assoc in IH. simpl in IH.
    apply IH; [|set_solver|rewrite length_app in *; simpl; lia].
    eapply good_perm; [|exact Hw]. by rewrite Permutation_middle.
  - unfold cleanupChunks. apply good_deletes; [apply Hw|]; unfold len; lia.
Qed.

(** The last read of a stream is empty. *)
Lemma stream_end turns size io rm fail i cs ids hashed l :
  good cs (ids ++ l) → (0 < size)%nat → len (ids ++ l) + len (pieces turns size "") ≤ max_refs →
  let r := stream_chunks turns size io rm fail i cs ids hashed "" in
  match r.2 with
  | Ok (ids', sum) =>
      ids' = ids ++ map sha256_hex (pieces turns size "") ∧ sum = sha256_hex (hashed +:+ "") ∧
      good r.1 (ids' ++ l)
  | Err _ => good r.1 l
  end.
Proof.
  intros Hg Hs Hl. destruct size; [lia|]. unfold len in Hl. simpl. destruct turns; simpl;
    (destruct fail; simpl; [apply good_deletes; [done|unfold len; simpl in *; lia]|]);
    by rewrite app_nil_r, string_app_nil_r.
Qed.

Lemma stream_chunks_good turns size io rm fail i cs ids hashed rest l :
  good cs (ids ++ l) → (0 < size)%nat → (String.length rest ≤ turns)%nat →
  pieces turns size rest ⊆ U → len (ids ++ l) + len (pieces turns size rest) ≤ max_refs →
  let r := stream_chunks turns size io rm fail i cs ids hashed rest in
  match r.2 with
  | Ok (ids', sum) =>
      ids' = ids ++ map sha256_hex (pieces turns size rest) ∧ sum = sha256_hex (hashed +:+ rest) ∧
      good r.1 (ids' ++ l)
  | Err _ => good r.1 l
  end.
Proof.
  unfold len. intros Hg Hs. revert i cs ids hashed rest Hg.
  induction turns as [|turns IH]; intros i cs ids hashed rest Hg Ht HU Hl.
  - destruct rest; [|simpl in Ht; lia]. by apply stream_end.
  - destruct rest as [|c rest]; [by apply stream_end|]. set (r := String c rest) in *.
    change (pieces (S turns) size r) with (take_bytes size r :: pieces turns size (drop_bytes size r)) in *.
    assert (∃ c' b, take_bytes size r = String c' b) as (c' & b & Hb).
    { destruct size; [lia|]. by eexists _, _. }
    assert (String.length (drop_bytes size r) ≤ turns)%nat as Ht'.
    { rewrite length_drop_bytes. simpl in *. lia. }
    replace (hashed +:+ r) with (hashed +:+ (take_bytes size r +:+ drop_bytes size r))
      by (by rewrite take_drop).
    cbn [length map stream_chunks] in *.
    pose proof (good_write (io i) cs (ids ++ l) (take_bytes size r) Hg ltac:(set_solver)) as Hw.
    destruct (match fail with Some _ => (String.length (take_bytes size r) <? size)%nat | None => false end) eqn:Hf.
    { destruct fail; [|done]. rewrite Hf. apply good_deletes; [done|unfold len; lia]. }
    replace (match fail with
      | Some err => if (String.length (take_bytes size r) <? size)%nat then _ else _ | None => _ end)
      with (match take_bytes size r with
            | String _ _ => match WriteChunk (io i) cs (take_bytes size r) with
                            | (cs, Ok chunk) => stream_chunks turns size io rm fail (S i) cs
                                (ids ++ [ck_ID chunk]) (hashed +:+ take_bytes size r) (drop_bytes size r)
                            | (cs, Err err) => (cleanupChunks rm cs ids, Err ("failed to write chunk: " +:+ err))
                            end
            | "" => (cs, Ok (ids, sha256_hex hashed)) end)%string by (destruct fail; [by rewrite Hf|done]).
    rewrite Hb. rewrite <-Hb. clear Hb Hf. destruct (WriteChunk (io i) cs (take_bytes size r)) as [cs' [k|e]]; simpl in *.
    + destruct Hw as [-> Hw]; [unfold len; lia|].
      specialize (IH (S i) cs' (ids ++ [sha256_hex (take_bytes size r)]) (hashed +:+ take_bytes size r)
        (drop_bytes size r)).
      rewrite <-!app_assoc, !string_app_assoc in IH. simpl in IH.
      apply IH; [|done|set_solver|rewrite length_app in *; simpl; lia].
      eapply good_perm; [|exact Hw]. by rewrite Permutation_middle.
    + apply good_deletes; [apply Hw|]; unfold len; lia.
Qed.

Lemma read_chunks_good cs l ds i buffer :
  good cs l → ds ⊆ U → map sha256_hex ds ⊆ l →
  read_chunks (fun _ => None) i cs buffer (map sha256_hex ds) = Ok (buffer +:+ concat_bytes ds).
Proof.
  intros Hg. revert i buffer. induction ds as [|d ds IH]; intros i buffer HU Hl; simpl.
  { by rewrite string_app_nil_r. }
  simpl in Hl. rewrite (proj1 (good_lookup cs l d Hg ltac:(set_solver) ltac:(set_solver))).
  rewrite IH by set_solver. by rewrite string_app_assoc.
Qed.

Lemma retrieve_good cs l ds :
  good cs l → ds ⊆ U → map sha256_hex ds ⊆ l →
  RetrieveContent (fun _ => None) cs (map sha256_hex ds) = Ok (concat_bytes ds).
Proof. intros Hg HU Hl. destruct ds as [|d ds]; [done|]. by apply (read_chunks_good cs l (d :: ds) 0 ""). Qed.

Lemma sum_sizes_good cs l ds t :
  good cs l → ds ⊆ U → map sha256_hex ds ⊆ l →
  sum_sizes cs (int64 t) (map sha256_hex ds) = Ok (int64 (t + slen (concat_bytes ds))).
Proof.
  intros Hg. revert t. induction ds as [|d ds IH]; intros t HU Hl; simpl.
  { do 2 f_equal. unfold slen. simpl. lia. }
  simpl in Hl. rewrite (proj2 (good_lookup cs l d Hg ltac:(set_solver) ltac:(set_solver))).
  rewrite int64_add_l, IH, slen_app by set_solver. do 2 f_equal. lia.
Qed.

(** A collection keeps exactly the chunks referred to. *)
Lemma collect_exact cs l id :
  good cs l → len l ≤ max_refs →
  is_Some (cs_chunks (GarbageCollect (fun _ => None) cs).1 !! id) ↔ id ∈ l.
Proof.
  intros (A & Hr & Ht & Hc) Hl.
  assert (represents (GarbageCollect (fun _ => None) cs).1 (collect (fun _ => true) A)) as Hr'.
  { apply (GarbageCollect_rep (fun _ => None) cs A); [done|]. intros id' d n Ha.
    destruct (tracks_bounded A l Ht Hl) as [? Hb].
    eapply (int64_near (len l)); [by eapply Hb|unfold max_refs in *; lia]. }
  specialize (Ht id). split.
  - intros [c Hck]. destruct (rep_lookup _ _ _ _ Hr' Hck) as (d & Ha & _).
    unfold collect in Ha. rewrite map_lookup_imap in Ha. destruct (A !! id) as [[d' n]|]; [|done].
    simpl in Ha. destruct (Z.leb_spec n 0); [done|]. apply occ_pos_inv. lia.
  - intros Hin%occ_pos. destruct (A !! id) as [[d n]|] eqn:Ha; [|lia].
    destruct (rep_some _ _ Hr' id d n) as (c & Hck & _); [|by eexists].
    unfold collect. rewrite map_lookup_imap, Ha. simpl. by rewrite (proj2 (Z.leb_gt _ _)) by lia.
Qed.

End Content.

(** ** Histories *)

(** An object a client holds: what the engine answered, and what was stored. *)
Record Held := { held_ids : list string; held_checksum : string; held_data : string }.

(** [Delete rm k] deletes the [k]-th object held. *)
Inductive Action :=
| Store (io : nat → WriteIO) (rm : nat → option string) (data : string)
| Stream (io : nat → WriteIO) (rm : nat → option string) (fail : option string) (data : string)
| Delete (rm : nat → option string) (k : nat)
| Collect.

Definition hold (live : list Held) (data : string)
  (r : option (ChunkStore * result string (list string * string))) : option (ChunkStore * list Held) :=
  match r with
  | None => None
  | Some (cs, Err _) => Some (cs, live)
  | Some (cs, Ok (ids, sum)) =>
      Some (cs, live ++ [{| held_ids := ids; held_checksum := sum; held_data := data |}])
  end.

Definition act `{Gzip, GoRange} (ce : ContentEngine) (s : ChunkStore * list Held) (a : Action)
  : option (ChunkStore * list Held) :=
  let '(cs, live) := s in
  match a with
  | Store io rm data => hold live data (StoreContent ce io rm cs data)
  | Stream io rm fail data => hold live data (StoreContentStream ce io rm fail cs data)
  | Delete rm k =>
      match live !! k with
      | Some o => Some ((DeleteContent rm cs (held_ids o)).1, delete k live)
      | None => Some s
      end
  | Collect => Some ((GarbageCollect (fun _ => None) cs).1, live)
  end.

Fixpoint acts `{Gzip, GoRange} (ce : ContentEngine) (s : ChunkStore * list Held) (l : list Action)
  : option (ChunkStore * list Held) :=
  match l with
  | [] => Some s
  | a :: l => act ce s a ≫= fun s => acts ce s l
  end.

Definition action_pieces (ce : ContentEngine) (a : Action) : list string :=
  match a with Store _ _ data | Stream _ _ _ data => object_pieces ce data | _ => [] end.

Section Histories.
Context `{Gzip, GoRange} (ce : ContentEngine) (U : list string).
Context (Hsize : 0 < ChunkSize (ce_config ce)) (Hcf : collision_free U).

(** The answer names the pieces of the object. *)
Definition sound (o : Held) : Prop :=
  held_ids o = map sha256_hex (object_pieces ce (held_data o)) ∧
  held_checksum o = sha256_hex (held_data o) ∧ object_pieces ce (held_data o) ⊆ U.

Definition refs (live : list Held) : list string := flat_map held_ids live.

Lemma refs_app a b : refs (a ++ b) = refs a ++ refs b.
Proof. apply flat_map_app. Qed.

(** What [StoreContent] and [StoreContentStream] leave. *)
Definition outcome (l : list string) (data : string)
  (r : option (ChunkStore * result string (list string * string))) : Prop :=
  match r with
  | None => False
  | Some (cs, Err _) => good U cs l
  | Some (cs, Ok (ids, sum)) =>
      ids = map sha256_hex (object_pieces ce data) ∧ sum = sha256_hex data ∧ good U cs (ids ++ l)
  end.

Lemma store_outcome io rm cs l data :
  good U cs l → object_pieces ce data ⊆ U →
  len l + len (object_pieces ce data) ≤ max_refs →
  outcome l data (StoreContent ce io rm cs data).
Proof.
  intros Hg HU Hl. unfold StoreContent. destruct (Z.eqb_spec (slen data) 0); [done|].
  rewrite split_pieces by (done || by intros ->).
  pose proof (store_chunks_good U Hcf "chunk" io rm 0 cs [] (object_pieces ce data) l Hg HU Hl) as Hs.
  by destruct (store_chunks "chunk" io rm 0 cs [] (object_pieces ce data)) as [cs' [ids|e]]; simpl in *; [destruct Hs|].
Qed.

Lemma stream_outcome io rm fail cs l data :
  good U cs l → object_pieces ce data ⊆ U →
  len l + len (object_pieces ce data) ≤ max_refs →
  outcome l data (StoreContentStream ce io rm fail cs data).
Proof.
  intros Hg HU Hl. unfold StoreContentStream. rewrite (proj2 (Z.ltb_ge _ _)) by lia.
  pose proof (stream_chunks_good U Hcf (String.length data) (Z.to_nat (ChunkSize (ce_config ce))) io rm fail
    0 cs [] "" data l Hg ltac:(lia) ltac:(lia) HU Hl) as Hs.
  by destruct (stream_chunks _ _ io rm fail 0 cs [] "" data) as [cs' [[ids sum]|e]].
Qed.

Lemma hold_good live data r :
  outcome (refs live) data r → Forall sound live → object_pieces ce data ⊆ U →
  ∃ cs' live', hold live data r = Some (cs', live') ∧ good U cs' (refs live') ∧ Forall sound live' ∧
    len (refs live') ≤ len (refs live) + len (object_pieces ce data).
Proof.
  intros Ho Hs HU. unfold hold, len. destruct r as [[cs [[ids sum]|e]]|]; simpl in Ho; [| |done].
  - destruct Ho as (-> & -> & Hg). eexists _, _. split; [done|]. rewrite refs_app. simpl. rewrite app_nil_r.
    split_and!.
    + eapply good_perm; [|done]. by rewrite Permutation_app_comm.
    + apply Forall_app. split; [done|]. by apply Forall_singleton.
    + rewrite length_app, length_map. lia.
  - eexists _, _. split_and!; [done..|]. lia.
Qed.

(** One action keeps the store good for the references held. *)
Lemma act_good cs live a :
  good U cs (refs live) → Forall sound live → action_pieces ce a ⊆ U →
  len (refs live) + len (action_pieces ce a) ≤ max_refs →
  ∃ cs' live', act ce (cs, live) a = Some (cs', live') ∧ good U cs' (refs live') ∧ Forall sound live' ∧
    len (refs live') ≤ len (refs live) + len (action_pieces ce a).
Proof.
  intros Hg Hs HU Hl. destruct a as [io rm data|io rm fail data|rm k|]; simpl in *.
  - apply hold_good; [by apply store_outcome|done..].
  - apply hold_good; [by apply stream_outcome|done..].
  - unfold len in *. destruct (live !! k) as [o|] eqn:Hk; [|eexists _, _; split_and!; [done..|lia]].
    eexists _, _. split; [done|]. pose proof (delete_Permutation _ _ _ Hk) as Hp.
    assert (refs live ≡ₚ held_ids o ++ refs (delete k live)) as Hr.
    { unfold refs. by rewrite Hp at 1. }
    pose proof (Permutation_length Hr) as Hlen. split_and!.
    + apply (good_deletes U); [by eapply good_perm|]. unfold len. lia.
    + by apply Forall_delete.
    + rewrite length_app in Hlen. lia.
  - eexists _, _. split; [done|]. unfold len in *. split_and!; [|done|lia]. apply good_collect; [done|].
    unfold len. lia.
Qed.

Lemma acts_good cs live l :
  good U cs (refs live) → Forall sound live → flat_map (action_pieces ce) l ⊆ U →
  len (refs live) + len (flat_map (action_pieces ce) l) ≤ max_refs →
  ∃ cs' live', acts ce (cs, live) l = Some (cs', live') ∧ good U cs' (refs live') ∧ Forall sound live' ∧
    len (refs live') ≤ max_refs.
Proof.
  unfold len. revert cs live. induction l as [|a l IH]; intros cs live Hg Hs HU Hl; cbn [acts flat_map] in *.
  { eexists _, _. split_and!; [done..|lia]. }
  rewrite length_app in Hl.
  destruct (act_good cs live a) as (cs' & live' & -> & Hg' & Hs' & Hl'); [done..|set_solver|unfold len; lia|].
  cbn [mbind option_bind]. unfold len in Hl'. apply IH; [done..|set_solver|lia].
Qed.

(** An object held can be read back. *)
Lemma held_retrieved cs live o :
  good U cs (refs live) → Forall sound live → o ∈ live →
  RetrieveContent (fun _ => None) cs (held_ids o) = Ok (held_data o) ∧
  VerifyContent (fun _ => None) cs (held_ids o) (held_checksum o) = None ∧
  GetContentSize cs (held_ids o) = Ok (int64 (slen (held_data o))).
Proof.
  intros Hg Hs Ho. pose proof (proj1 (Forall_forall _ _) Hs o Ho) as (Hi & Hsum & HU).
  assert (map sha256_hex (object_pieces ce (held_data o)) ⊆ refs live) as Hin.
  { rewrite <-Hi. intros id Hid. apply list_elem_of_In, in_flat_map. exists o.
    by rewrite <-!list_elem_of_In. }
  pose proof (object_pieces_concat ce (held_data o) Hsize) as Hcat.
  assert (RetrieveContent (fun _ => None) cs (held_ids o) = Ok (held_data o)) as Hr.
  { by rewrite Hi, (retrieve_good U Hcf cs (refs live)), Hcat. }
  split_and!; [done| |].
  - unfold VerifyContent, calculateChecksum. by rewrite Hr, bool_decide_eq_true_2.
  - unfold GetContentSize. change 0 with (int64 0).
    by rewrite Hi, (sum_sizes_good U Hcf cs (refs live)), Hcat.
Qed.

End Histories.

(** On a fresh directory and with a positive chunk size, every history of
    stores, streams, deletions of held objects and collections returns, whatever
    writes, reads of streams and removals fail; every object held afterwards is
    read back whole, passes its checksum and has its size; and a collection
    then keeps exactly the chunks of the objects held.  The pieces of the
    objects must not collide under SHA-256, and the collections' own removals
    succeed. *)
Theorem objects_safe `{Gzip, GoRange} (ce : ContentEngine) mtime files config cs l :
  0 < ChunkSize (ce_config ce) →
  NewChunkStore None mtime None files config = Ok cs →
  (∀ p, is_Some (files !! p) → below (cs_baseDir cs) p = false) →
  collision_free (flat_map (action_pieces ce) l) →
  len (flat_map (action_pieces ce) l) ≤ max_refs →
  ∃ cs' live,
    acts ce (cs, []) l = Some (cs', live) ∧
    (∀ o, o ∈ live →
       RetrieveContent (fun _ => None) cs' (held_ids o) = Ok (held_data o) ∧
       VerifyContent (fun _ => None) cs' (held_ids o) (held_checksum o) = None ∧
       GetContentSize cs' (held_ids o) = Ok (int64 (slen (held_data o)))) ∧
    (∀ id, is_Some (cs_chunks (GarbageCollect (fun _ => None) cs').1 !! id) ↔
           ∃ o, o ∈ live ∧ id ∈ held_ids o).
Proof.
  intros Hsize Hnew Hfresh Hcf Hl. destruct (fresh_rep _ _ _ _ Hnew Hfresh) as [Hr _].
  destruct (acts_good ce (flat_map (action_pieces ce) l) Hsize Hcf cs [] l)
    as (cs' & live & Ha & Hg & Hs & Hlen); try done.
  { exists ∅. split_and!; [done| |done]. intros id. by rewrite lookup_empty. }
  exists cs', live. split_and!; [done| |].
  - intros o Ho. by eapply held_retrieved.
  - intros id. rewrite (collect_exact _ cs' (refs live)) by done. unfold refs.
    rewrite list_elem_of_In, in_flat_map. by setoid_rewrite <-list_elem_of_In.
Qed.

(** ** Concrete runs *)

Module ContentRuns.

#[local] Existing Instance ChunkRuns.toy_gzip.
#[local] Existing Instance range_canonical.

Definition engine (size : Z) : ContentEngine :=
  {| ce_config := DefaultStorageConfig <| ChunkSize := size |> |}.

Definition ok_io : nat → WriteIO := fun i => write_ok (Z.of_nat i).

(** The third chunk does not fit on the disk. *)
Definition full_io : nat → WriteIO := fun i =>
  if decide (i = 2%nat) then {| io_mkdir := None; io_write := Interrupted 1 "no space left on device"; io_now := 0 |}
  else write_ok (Z.of_nat i).

Definition no_fault : nat → option string := fun _ => None.

Definition history : list Action := [
  Store ok_io no_fault "aaaabbbbaaaa";
  Store full_io no_fault "aaaabbbbcccc";
  Stream ok_io no_fault None "bbbbd";
  Stream ok_io no_fault (Some "connection reset") "aaaaee";
  Delete (fun i => if decide (i = 1%nat) then Some "permission denied" else None) 0;
  Collect].

Lemma history_held :
  option_map (fun s => map held_data s.2) (acts (engine 4) (ChunkRuns.start false, []) history)
  = Some ["bbbbd"%string].
Proof. vm_compute. reflexivity. Qed.

Lemma objects_safe_witness :
  ∃ cs live, acts (engine 4) (ChunkRuns.start false, []) history = Some (cs, live) ∧
    map held_data live = ["bbbbd"%string] ∧
    ∀ o, o ∈ live → RetrieveContent no_fault cs (held_ids o) = Ok (held_data o).
Proof.
  pose proof history_held as Hheld.
  destruct (objects_safe (engine 4) (fun _ => 0) ∅ (ChunkRuns.config false) (ChunkRuns.start false) history)
    as (cs & live & Ha & Hr & _).
  - reflexivity.
  - vm_compute. reflexivity.
  - intros p [x Hx]. rewrite lookup_empty in Hx. discriminate.
  - apply collision_free_check. vm_compute. reflexivity.
  - vm_compute. discriminate.
  - rewrite Ha in Hheld. injection Hheld as Hheld. exists cs, live.
    split; [exact Ha|]. split; [exact Hheld|]. intros o Ho. apply (Hr o Ho).
Defined.

(** A stream into an engine whose chunk size is zero is accepted and stores
    nothing. *)
Example stream_zero_size :
  option_map snd (StoreContentStream (engine 0) ok_io no_fault None (ChunkRuns.start false) "data")
  = Some (Ok ([], sha256_hex "")).
Proof. vm_compute. reflexivity. Qed.

End ContentRuns.
