(* ===== verification/Erasure.v ===== *)
(** * Erasure coding (pkg/storage/erasure.go, pkg/storage/content.go)

    Cold objects are split into data shards and parity shards, each stored as
    a chunk.  The Reed-Solomon code is a third-party package: the class
    [ReedSolomon] gives its functions, [ReedSolomonLaws] what its documentation
    promises.  A missing shard, [nil] in the source, is [None]. *)

From S2P Require Import Prelude GoText GoFloat GoCrypto GoFiles StorageTypes ChunkStore ContentEngine.

Local Open Scope string_scope.
Local Open Scope Z_scope.

(** [New], [Encode], [Reconstruct] and [Verify] for given numbers of data and
    parity shards; [Encode] and [Reconstruct] write into the shards. *)
Class ReedSolomon : Type := {
  rs_New : Z → Z → option string;
  rs_Encode : Z → Z → list string → result string (list string);
  rs_Reconstruct : Z → Z → list (option string) → result string (list (option string));
  rs_Verify : Z → Z → list string → result string bool
}.

Record ErasureEncoder := { ee_config : ErasureConfig }.

Definition NewErasureEncoder `{ReedSolomon} (config : ErasureConfig) : result string ErasureEncoder :=
  let totalShards := int64 (ec_DataShards config + ec_ParityShards config) in
  if ec_DataShards config <? 2 then
    Err ("data shards must be >= 2, got " +:+ show_Z (ec_DataShards config))
  else if ec_ParityShards config <? 1 then
    Err ("parity shards must be >= 1, got " +:+ show_Z (ec_ParityShards config))
  else if totalShards <? ec_MinNodeCount config then
    Err ("total shards (" +:+ show_Z totalShards +:+ ") must be >= min node count ("
         +:+ show_Z (ec_MinNodeCount config) +:+ ")")
  else match rs_New (ec_DataShards config) (ec_ParityShards config) with
  | Some err => Err ("failed to create Reed-Solomon encoder: " +:+ err)
  | None => Ok {| ee_config := config |}
  end.

Definition GetTotalShardCount (ee : ErasureEncoder) : Z :=
  int64 (ec_DataShards (ee_config ee) + ec_ParityShards (ee_config ee)).
Definition GetDataShardCount (ee : ErasureEncoder) : Z := ec_DataShards (ee_config ee).
Definition GetParityShardCount (ee : ErasureEncoder) : Z := ec_ParityShards (ee_config ee).
Definition MaxToleratedFailures (ee : ErasureEncoder) : Z := ec_ParityShards (ee_config ee).

Definition CanReconstruct (ee : ErasureEncoder) (availableShards : Z) : bool :=
  ec_DataShards (ee_config ee) <=? availableShards.

Definition GetShardSize (ee : ErasureEncoder) (dataSize : Z) : Z :=
  Z.quot (int64 (dataSize + ec_DataShards (ee_config ee) - 1)) (ec_DataShards (ee_config ee)).

(** ** Encoding *)

Definition zero_byte : ascii := ascii_of_N 0.

(** [make([]byte, n)] *)
Fixpoint zeros (n : nat) : string :=
  match n with O => EmptyString | S n => String zero_byte (zeros n) end.

(** [s[i] = c] for an index in range. *)
Fixpoint set_byte (i : nat) (c : ascii) (s : string) : string :=
  match s, i with
  | EmptyString, _ => EmptyString
  | String _ s, O => String c s
  | String d s, S i => String d (set_byte i c s)
  end.

(** The loop that copies the data: byte [i] goes to
    [shards[i / shardSize][i % shardSize]]. *)
Fixpoint copy_bytes (shardSize i : nat) (shards : list string) (data : string) : list string :=
  match data with
  | EmptyString => shards
  | String c data =>
      copy_bytes shardSize (S i) (alter (set_byte (i mod shardSize) c) (i / shardSize)%nat shards) data
  end.

Definition Encode `{ReedSolomon} (ee : ErasureEncoder) (data : string) : result string (list string) :=
  if slen data =? 0 then Err "cannot encode empty data"
  else
    let k := ec_DataShards (ee_config ee) in
    let m := ec_ParityShards (ee_config ee) in
    let shardSize := Z.to_nat (GetShardSize ee (slen data)) in
    let dataShards := copy_bytes shardSize 0 (repeat (zeros shardSize) (Z.to_nat k)) data in
    let parityShards := repeat (zeros shardSize) (Z.to_nat m) in
    match rs_Encode k m (app dataShards parityShards) with
    | Err err => Err ("failed to encode shards: " +:+ err)
    | Ok shards => Ok shards
    end.

(** ** Decoding *)

Definition available (shards : list (option string)) : Z :=
  len (List.filter (fun s => match s with Some _ => true | None => false end) shards).

(** The loop that assembles the data shards. *)
Fixpoint assemble (i : Z) (result : string) (shards : list (option string)) : Prelude.result string string :=
  match shards with
  | [] => Ok result
  | None :: _ => Err ("data shard " +:+ show_Z i +:+ " is still nil after reconstruction")
  | Some s :: shards => assemble (i + 1) (result +:+ s) shards
  end.

Definition insufficient (have need : Z) : string :=
  "insufficient shards for reconstruction: have " +:+ show_Z have +:+ ", need " +:+ show_Z need.

Definition Decode `{ReedSolomon} (ee : ErasureEncoder) (shards : list (option string)) (originalSize : Z)
  : result string string :=
  let k := ec_DataShards (ee_config ee) in
  let m := ec_ParityShards (ee_config ee) in
  if negb (len shards =? int64 (k + m)) then
    Err ("expected " +:+ show_Z (int64 (k + m)) +:+ " shards, got " +:+ show_Z (len shards))
  else if available shards <? k then Err (insufficient (available shards) k)
  else
    match rs_Reconstruct k m shards with
    | Err err => Err ("failed to reconstruct shards: " +:+ err)
    | Ok shards =>
        let? result := assemble 0 "" (take (Z.to_nat k) shards) in
        Ok (if (0 <? originalSize) && (originalSize <=? slen result)
            then take_bytes (Z.to_nat originalSize) result else result)
    end.

(** The shards when all are there. *)
Fixpoint all_present (shards : list (option string)) : option (list string) :=
  match shards with
  | [] => Some []
  | None :: _ => None
  | Some s :: shards => match all_present shards with Some l => Some (s :: l) | None => None end
  end.

Definition Verify `{ReedSolomon} (ee : ErasureEncoder) (shards : list (option string)) : result string bool :=
  let k := ec_DataShards (ee_config ee) in
  let m := ec_ParityShards (ee_config ee) in
  if negb (len shards =? int64 (k + m)) then
    Err ("expected " +:+ show_Z (int64 (k + m)) +:+ " shards, got " +:+ show_Z (len shards))
  else
    match all_present shards with
    | None => Err ("all shards must be present for verification, have " +:+ show_Z (available shards)
                   +:+ "/" +:+ show_Z (len shards))
    | Some l => match rs_Verify k m l with
                | Err err => Err ("verification failed: " +:+ err)
                | Ok valid => Ok valid
                end
    end.

(** The shards after the call, and the error. *)
Definition ReconstructShard `{ReedSolomon} (ee : ErasureEncoder) (shards : list (option string))
  (shardIndex : Z) : list (option string) * option string :=
  let k := ec_DataShards (ee_config ee) in
  if (shardIndex <? 0) || (len shards <=? shardIndex) then
    (shards, Some ("shard index " +:+ show_Z shardIndex +:+ " out of range [0, " +:+ show_Z (len shards) +:+ ")"))
  else if available shards <? k then (shards, Some (insufficient (available shards) k))
  else
    match rs_Reconstruct k (ec_ParityShards (ee_config ee)) shards with
    | Err err => (shards, Some ("failed to reconstruct shard " +:+ show_Z shardIndex +:+ ": " +:+ err))
    | Ok shards => (shards, None)
    end.

Definition IsErasureCodingEligible (config : ErasureConfig) (activeNodeCount : Z) : bool :=
  ec_Enabled config && negb (activeNodeCount <? ec_MinNodeCount config) &&
  negb (activeNodeCount <? int64 (ec_DataShards config + ec_ParityShards config)).

(** [now] is the reading of [time.Since]. *)
Definition IsObjectCold (now : Z) (object : option Object) (coldThreshold : Z) : bool :=
  match object with
  | None => false
  | Some object =>
      if ob_ECEnabled object then true
      else if ob_StorageClass object =?s StorageClassCold then true
      else if IsZero (ob_AccessedAt object) then coldThreshold <? time_Sub now (ob_CreatedAt object)
      else coldThreshold <? time_Sub now (ob_AccessedAt object)
  end.

(** ** Objects as shards *)

(** Identifiers, indices of the shards and checksum; without an encoder the
    object is stored as chunks. *)
Definition StoreContentWithEC `{Gzip, ReedSolomon} (ce : ContentEngine) (io : nat → WriteIO)
  (rm : nat → option string) (cs : ChunkStore) (data : string) (erasureEncoder : option ErasureEncoder)
  : option (ChunkStore * result string (list string * option (list Z) * string)) :=
  if slen data =? 0 then Some (cs, Err "cannot store empty content")
  else
    match erasureEncoder with
    | None =>
        match StoreContent ce io rm cs data with
        | None => None
        | Some (cs, Ok (chunkIDs, checksum)) => Some (cs, Ok (chunkIDs, None, checksum))
        | Some (cs, Err err) => Some (cs, Err err)
        end
    | Some ee =>
        match Encode ee data with
        | Err err => Some (cs, Err ("failed to encode shards: " +:+ err))
        | Ok shards =>
            match store_chunks "shard" io rm 0 cs [] shards with
            | (cs, Ok chunkIDs) =>
                Some (cs, Ok (chunkIDs, Some (map Z.of_nat (seq 0 (length shards))), calculateChecksum data))
            | (cs, Err err) => Some (cs, Err err)
            end
        end
    end.

(** The index of the shard of chunk [i]. *)
Definition shard_index (shardIndices : list Z) (i : nat) : Z :=
  match shardIndices !! i with Some j => j | None => Z.of_nat i end.

(** The loop that reads the shards; [None] is the panic of an index out of
    range. *)
Fixpoint read_shards `{Gzip} (io : nat → option string) (cs : ChunkStore) (shardIndices : list Z) (i : nat)
  (shards : list (option string)) (availableCount : Z) (chunkIDs : list string)
  : option (list (option string) * Z) :=
  match chunkIDs with
  | [] => Some (shards, availableCount)
  | chunkID :: chunkIDs =>
      let shardIdx := shard_index shardIndices i in
      if (shardIdx <? 0) || (len shards <=? shardIdx) then None
      else
        match ReadChunk (io i) cs chunkID with
        | Err _ =>
            read_shards io cs shardIndices (S i) (<[Z.to_nat shardIdx := None]> shards) availableCount chunkIDs
        | Ok data =>
            read_shards io cs shardIndices (S i) (<[Z.to_nat shardIdx := Some data]> shards)
              (availableCount + 1) chunkIDs
        end
  end.

Definition RetrieveContentWithEC `{Gzip, ReedSolomon} (io : nat → option string) (cs : ChunkStore)
  (chunkIDs : list string) (shardIndices : list Z) (originalSize : Z)
  (erasureEncoder : option ErasureEncoder) : option (result string string) :=
  match erasureEncoder with
  | None => Some (Err "erasure encoder is required")
  | Some ee =>
      match chunkIDs with
      | [] => Some (Ok "")
      | _ =>
          match read_shards io cs shardIndices 0 (repeat None (Z.to_nat (GetTotalShardCount ee))) 0 chunkIDs with
          | None => None
          | Some (shards, availableCount) =>
              Some (if negb (CanReconstruct ee availableCount)
                    then Err (insufficient availableCount (GetDataShardCount ee))
                    else match Decode ee shards originalSize with
                         | Err err => Err ("failed to decode shards: " +:+ err)
                         | Ok data => Ok data
                         end)
          end
      end
  end.
