(* ===== verification/ErasureSpec.v ===== *)
(** * Erasure-coded objects survive the loss of parity-many shards *)

From S2P Require Import Prelude GoText GoCrypto GoFiles StorageTypes ChunkStore ChunkStoreSpec ContentEngine ContentSpec Erasure.

#[local] Opaque sha256_hex.

(** ** What the code promises *)

(** [damaged] is [encoded] with some shards missing. *)
Definition damages (encoded : list string) (damaged : list (option string)) : Prop :=
  Forall2 (fun s d => d = None ∨ d = Some s) encoded damaged.

(** Shards of one size, as many as the code was made for. *)
Definition code_input (k m : Z) (size : nat) (shards : list string) : Prop :=
  0 < k ∧ 0 < m ∧ len shards = k + m ∧ Forall (fun s => String.length s = size) shards.

(** For a code that [New] accepts: [Encode] keeps the data shards and fills the
    parity shards, and [Reconstruct] restores every shard from any [k]. *)
Class ReedSolomonLaws `{ReedSolomon} : Prop := {
  rs_Encode_spec : ∀ k m size shards,
    rs_New k m = None → (0 < size)%nat → code_input k m size shards →
    ∃ parity, rs_Encode k m shards = Ok (take (Z.to_nat k) shards ++ parity) ∧
      len parity = m ∧ Forall (fun s => String.length s = size) parity;
  rs_Reconstruct_spec : ∀ k m size shards encoded damaged,
    rs_New k m = None → (0 < size)%nat → code_input k m size shards →
    rs_Encode k m shards = Ok encoded → damages encoded damaged → k ≤ available damaged →
    rs_Reconstruct k m damaged = Ok (map Some encoded)
}.

(** ** Copying the data into shards *)

Lemma set_byte_length i c s : String.length (set_byte i c s) = String.length s.
Proof. revert i. induction s as [|d s IH]; intros [|i]; simpl; auto. Qed.

Lemma set_byte_app_l i c a b :
  (i < String.length a)%nat → set_byte i c (a +:+ b) = set_byte i c a +:+ b.
Proof.
  revert i. induction a as [|d a IH]; intros i Hi; simpl in Hi; [lia|]. simpl_append.
  destruct i; simpl; simpl_append; [done|]. by rewrite IH by lia.
Qed.

Lemma set_byte_app_r i c a b :
  set_byte (String.length a + i) c (a +:+ b) = a +:+ set_byte i c b.
Proof. induction a as [|d a IH]; simpl_append; simpl; [done|]. by rewrite IH. Qed.

Lemma zeros_length n : String.length (zeros n) = n.
Proof. induction n; simpl; auto. Qed.

Lemma alter_concat size q r c shards :
  Forall (fun s => String.length s = size) shards → (q < length shards)%nat → (r < size)%nat →
  concat_bytes (alter (set_byte r c) q shards) = set_byte (q * size + r) c (concat_bytes shards).
Proof.
  intros Hs. revert q. induction Hs as [|s shards Hlen Hs IH]; intros q Hq Hr; simpl in Hq; [lia|].
  destruct q; simpl.
  - by rewrite set_byte_app_l by lia.
  - rewrite <-Hlen at 1. replace (String.length s + q * size + r)%nat with (String.length s + (q * size + r))%nat by lia.
    rewrite set_byte_app_r. f_equal. apply IH; lia.
Qed.

Lemma alter_sizes size q r c shards :
  Forall (fun s => String.length s = size) shards →
  Forall (fun s => String.length s = size) (alter (set_byte r c) q shards).
Proof. intros Hs. apply Forall_alter; [done|]. intros s _ <-. apply set_byte_length. Qed.

Lemma copy_bytes_spec size data i shards done_ n :
  (0 < size)%nat → Forall (fun s => String.length s = size) shards →
  concat_bytes shards = done_ +:+ zeros n → String.length done_ = i →
  (i + n = length shards * size)%nat → (String.length data ≤ n)%nat →
  let copied := copy_bytes size i shards data in
  concat_bytes copied = done_ +:+ data +:+ zeros (n - String.length data) ∧
  length copied = length shards ∧ Forall (fun s => String.length s = size) copied.
Proof.
  intros Hsize. revert i shards done_ n. induction data as [|c data IH]; intros i shards done_ n Hs Hc Hd Hn Hl; simpl.
  { rewrite Nat.sub_0_r. simpl_append. done. }
  simpl in Hl. destruct n as [|n]; [lia|].
  assert (i mod size < size)%nat by (apply Nat.mod_upper_bound; lia).
  assert (i / size < length shards)%nat by (apply Nat.Div0.div_lt_upper_bound; lia).
  destruct (IH (S i) (alter (set_byte (i mod size) c) (i / size)%nat shards) (done_ +:+ String c "") n)
    as (H1 & H2 & H3).
  - by apply alter_sizes.
  - rewrite alter_concat with (size := size) by done.
    replace (i / size * size + i mod size)%nat with i by (rewrite (Nat.div_mod_eq i size) at 1; lia).
    rewrite Hc, <-Hd, <-(Nat.add_0_r (String.length done_)), set_byte_app_r, string_app_assoc. done.
  - rewrite <-Hd. clear. induction done_; simpl_append; simpl; auto.
  - rewrite length_alter. lia.
  - lia.
  - rewrite H1, H2, length_alter, string_app_assoc. by simpl_append.
Qed.

Lemma concat_repeat_zeros size k : concat_bytes (repeat (zeros size) k) = zeros (k * size).
Proof.
  induction k as [|k IH]; simpl; [done|]. rewrite IH. generalize (k * size)%nat. intros n.
  clear. induction size as [|size IH]; simpl; simpl_append; [done|]. by rewrite IH.
Qed.

Lemma data_shards_spec size k data :
  (0 < size)%nat → (String.length data ≤ k * size)%nat →
  let shards := copy_bytes size 0 (repeat (zeros size) k) data in
  concat_bytes shards = data +:+ zeros (k * size - String.length data) ∧ length shards = k ∧
  Forall (fun s => String.length s = size) shards.
Proof.
  intros Hs Hl. destruct (copy_bytes_spec size data 0 (repeat (zeros size) k) "" (k * size)) as (H1 & H2 & H3).
  - done.
  - apply Forall_forall. intros s Hin%list_elem_of_In%repeat_spec. subst. apply zeros_length.
  - apply concat_repeat_zeros.
  - done.
  - by rewrite repeat_length.
  - done.
  - rewrite repeat_length in H2. done.
Qed.

(** ** Encoding and decoding *)

Section Code.
Context `{ReedSolomon, !ReedSolomonLaws}.

(** An encoder made by [NewErasureEncoder], with numbers that do not wrap. *)
Record usable (ee : ErasureEncoder) (data : string) : Prop := {
  us_data : 2 ≤ ec_DataShards (ee_config ee);
  us_parity : 1 ≤ ec_ParityShards (ee_config ee);
  us_new : rs_New (ec_DataShards (ee_config ee)) (ec_ParityShards (ee_config ee)) = None;
  us_total : ec_DataShards (ee_config ee) + ec_ParityShards (ee_config ee) < 2 ^ 63;
  us_size : slen data + ec_DataShards (ee_config ee) < 2 ^ 63;
  us_nonempty : data ≠ ""
}.

Lemma NewErasureEncoder_usable config ee data :
  NewErasureEncoder config = Ok ee →
  ec_DataShards config + ec_ParityShards config < 2 ^ 63 → slen data + ec_DataShards config < 2 ^ 63 →
  data ≠ "" → usable ee data ∧ ee_config ee = config.
Proof.
  unfold NewErasureEncoder. intros Hn H1 H2 H3.
  destruct (Z.ltb_spec (ec_DataShards config) 2); [done|].
  destruct (Z.ltb_spec (ec_ParityShards config) 1); [done|].
  destruct (_ <? _); [done|]. destruct (rs_New _ _) eqn:Hr; [done|]. simplify_eq. by split; [split|].
Qed.

Lemma shard_size_spec ee data :
  usable ee data →
  let size := Z.to_nat (GetShardSize ee (slen data)) in
  (0 < size)%nat ∧ (String.length data ≤ Z.to_nat (ec_DataShards (ee_config ee)) * size)%nat.
Proof.
  intros [Hk Hm _ _ Hs Hd]. unfold GetShardSize. set (k := ec_DataShards _) in *.
  assert (1 ≤ slen data). { unfold slen. destruct data; [done|]. simpl. lia. }
  rewrite int64_id by (unfold in_int64; lia). rewrite Z.quot_div_nonneg by lia.
  pose proof (Z.div_mod (slen data + k - 1) k). pose proof (Z.mod_pos_bound (slen data + k - 1) k).
  unfold slen in *. split; nia.
Qed.

(** The encoding starts with the data, padded, in [k] shards. *)
Lemma Encode_spec ee data :
  usable ee data →
  ∃ input size encoded,
    let k := ec_DataShards (ee_config ee) in let m := ec_ParityShards (ee_config ee) in
    code_input k m size input ∧ (0 < size)%nat ∧ rs_Encode k m input = Ok encoded ∧
    Encode ee data = Ok encoded ∧ len encoded = k + m ∧
    ∃ n, concat_bytes (take (Z.to_nat k) encoded) = data +:+ zeros n.
Proof.
  intros Hu. destruct (shard_size_spec ee data Hu) as [Hsize Hlen]. destruct Hu as [Hk Hm Hnew _ _ Hd].
  unfold Encode. set (size := Z.to_nat (GetShardSize ee (slen data))) in *.
  set (k := ec_DataShards _) in *. set (m := ec_ParityShards _) in *.
  destruct (data_shards_spec size (Z.to_nat k) data Hsize Hlen) as (Hc & Hn & Hs).
  set (shards := copy_bytes _ _ _ _) in *. set (input := shards ++ repeat (zeros size) (Z.to_nat m)).
  assert (code_input k m size input) as Hin.
  { split_and!; [lia..| |].
    - unfold len, input. rewrite length_app, Hn, repeat_length. lia.
    - apply Forall_app. split; [done|]. apply Forall_forall.
      intros s Hin%list_elem_of_In%repeat_spec. subst. apply zeros_length. }
  destruct (rs_Encode_spec k m size input Hnew Hsize Hin) as (parity & He & Hp & _).
  assert (take (Z.to_nat k) input = shards) as Htake by (unfold input; rewrite <-Hn; apply take_app_length).
  rewrite Htake in He. exists input, size, (shards ++ parity). unfold len in *. split_and!; try done.
  - rewrite (proj2 (Z.eqb_neq _ _)) by (unfold slen; destruct data; [done|simpl; lia]).
    subst input. by rewrite He.
  - rewrite length_app. lia.
  - exists (Z.to_nat k * size - String.length data)%nat. by rewrite <-Hn, take_app_length, Hn.
Qed.

Lemma assemble_some i acc l : assemble i acc (map Some l) = Ok (acc +:+ concat_bytes l).
Proof.
  revert i acc. induction l as [|s l IH]; intros i acc; simpl; [by rewrite string_app_nil_r|].
  by rewrite IH, string_app_assoc.
Qed.

Lemma damages_length e d : damages e d → len d = len e.
Proof. intros Hd%Forall2_length. unfold len. by rewrite Hd. Qed.

Lemma Decode_damaged ee data encoded damaged :
  usable ee data → Encode ee data = Ok encoded → damages encoded damaged →
  Decode ee damaged (slen data) =
    if available damaged <? ec_DataShards (ee_config ee)
    then Err (insufficient (available damaged) (ec_DataShards (ee_config ee))) else Ok data.
Proof.
  intros Hu He Hd. destruct (Encode_spec ee data Hu) as (input & size & e & Hin & Hs & Hre & He' & Hlen & n & Hc).
  rewrite He in He'. injection He' as <-. destruct Hu as [Hk Hm Hnew Ht _ Hne]. unfold Decode.
  rewrite (damages_length _ _ Hd), Hlen, int64_id by (unfold in_int64; lia). rewrite Z.eqb_refl. simpl.
  destruct (Z.ltb_spec (available damaged) (ec_DataShards (ee_config ee))); [done|].
  rewrite (rs_Reconstruct_spec _ _ size input encoded damaged) by done.
  rewrite firstn_map, assemble_some, Hc. simpl. rewrite append_nil_l.
  rewrite (proj2 (Z.ltb_lt _ _)) by (unfold slen; destruct data; [done|simpl; lia]).
  rewrite (proj2 (Z.leb_le _ _)) by (rewrite slen_app; unfold slen; lia). simpl. f_equal.
  unfold slen. rewrite Nat2Z.id. apply take_drop_app.
Qed.

End Code.

(** ** Objects stored as shards *)

Section Objects.
Context `{Gzip, GoRange, ReedSolomon, !ReedSolomonLaws}.

(** The number of shards that can be read, from the [i]-th on. *)
Definition alive (io : nat → option string) (i n : nat) : Z :=
  len (List.filter (fun j => none (io j)) (seq i n)).

(** What is read of the shards [ds]. *)
Fixpoint view (io : nat → option string) (i : nat) (ds : list string) : list (option string) :=
  match ds with
  | [] => []
  | d :: ds => (if none (io i) then Some d else None) :: view io (S i) ds
  end.

Lemma view_damages io i ds : damages ds (view io i ds).
Proof.
  revert i. induction ds as [|d ds IH]; intros i; simpl; constructor; [|apply IH].
  destruct (io i); auto.
Qed.

Lemma view_available io i ds : available (view io i ds) = alive io i (length ds).
Proof.
  unfold available, alive, len. revert i. induction ds as [|d ds IH]; intros i; simpl; [done|].
  specialize (IH (S i)). destruct (io i); simpl; lia.
Qed.

Lemma shard_index_seq n i : shard_index (map Z.of_nat (seq 0 n)) i = Z.of_nat i.
Proof.
  unfold shard_index. rewrite (list_lookup_fmap Z.of_nat (seq 0 n)).
  destruct (decide (i < n)%nat); [by rewrite lookup_seq_lt|by rewrite lookup_seq_ge by lia].
Qed.

(** The shards read so far, then missing ones. *)
Lemma read_shards_spec io cs ds i shards n avail :
  Forall (fun d => ReadChunk None cs (sha256_hex d) = Ok d) ds → length shards = i →
  read_shards io cs (map Z.of_nat (seq 0 n)) i (shards ++ repeat None (length ds)) avail
    (map sha256_hex ds) = Some (shards ++ view io i ds, avail + alive io i (length ds)).
Proof.
  unfold alive, len. intros Hr. revert i shards avail. induction Hr as [|d ds Hd Hr IH]; intros i shards avail Hl; simpl.
  { do 2 f_equal. lia. }
  rewrite shard_index_seq. unfold len. rewrite length_app. simpl. rewrite repeat_length.
  rewrite (proj2 (Z.ltb_ge _ _)), (proj2 (Z.leb_gt _ _)) by lia. simpl. rewrite Nat2Z.id.
  assert (∀ x : option string, <[i := x]> (shards ++ None :: repeat None (length ds)) =
    (shards ++ [x]) ++ repeat None (length ds)) as Hins.
  { intros x. by rewrite insert_app_r_alt, Hl, Nat.sub_diag, <-app_assoc by lia. }
  destruct (io i) as [e|] eqn:Hio; simpl.
  - replace (ReadChunk (Some e) cs (sha256_hex d)) with (@Err string string ("failed to read chunk: " +:+ e))
      by (unfold ReadChunk in *; by destruct (GetChunk cs (sha256_hex d))).
    rewrite Hins, IH by (rewrite length_app; simpl; lia). by rewrite <-app_assoc.
  - rewrite Hd, Hins, IH by (rewrite length_app; simpl; lia). rewrite <-app_assoc. simpl. do 2 f_equal. lia.
Qed.

(** An object stored as shards keeps the store good, and is read back from any
    set of shards that can be read and is large enough; a smaller set is
    refused. *)
Theorem degraded_read (U : list string) ce io rm cs l data config ee shards cs' ids indices sum :
  NewErasureEncoder config = Ok ee → data ≠ "" →
  ec_DataShards config + ec_ParityShards config < 2 ^ 63 → slen data + ec_DataShards config < 2 ^ 63 →
  collision_free U → good U cs l →
  Encode ee data = Ok shards → shards ⊆ U → len l + len shards ≤ max_refs →
  StoreContentWithEC ce io rm cs data (Some ee) = Some (cs', Ok (ids, Some indices, sum)) →
  good U cs' (ids ++ l) ∧ sum = sha256_hex data ∧
  ∀ io', RetrieveContentWithEC io' cs' ids indices (slen data) (Some ee) =
    Some (if alive io' 0 (length shards) <? ec_DataShards (ee_config ee)
          then Err (insufficient (alive io' 0 (length shards)) (ec_DataShards (ee_config ee)))
          else Ok data).
Proof.
  intros Hnew Hne Hk0 Hs0 Hcf Hg He HU Hl Hst.
  destruct (NewErasureEncoder_usable config ee data) as [Hu _]; [done..|]. pose proof (store_chunks_good U Hcf "shard" io rm 0 cs [] shards l Hg HU Hl) as Hs.
  unfold StoreContentWithEC in Hst. destruct (slen data =? 0); [done|]. rewrite He in Hst.
  destruct (store_chunks "shard" io rm 0 cs [] shards) as [cs1 [ids1|e]]; [|done]. simpl in Hs.
  destruct Hs as [-> Hg']. injection Hst as <- <- <- <-. split_and!; [done..|]. intros io'.
  destruct (Encode_spec ee data Hu) as (_ & _ & e & _ & _ & _ & He' & Hlen & _).
  rewrite He in He'. injection He' as <-. pose proof Hu as [Hk Hm _ Ht _ _].
  unfold RetrieveContentWithEC. destruct (map sha256_hex shards) as [|id0 ids0] eqn:Hids.
  { destruct shards; [unfold len in Hlen; simpl in Hlen; lia|done]. }
  rewrite <-Hids. unfold GetTotalShardCount. rewrite <-Hlen, int64_id by (unfold in_int64; unfold len in *; lia).
  replace (Z.to_nat (len shards)) with (length shards) by (unfold len; lia).
  pose proof (read_shards_spec io' cs1 shards 0 [] (length shards) 0) as Hread. cbn [app] in Hread.
  rewrite Hread; [|apply Forall_forall|done].
  - cbn [negb]. unfold CanReconstruct, GetDataShardCount.
    rewrite (Decode_damaged ee data shards (view io' 0 shards) Hu He (view_damages _ _ _)), view_available, Z.add_0_l.
    destruct (Z.ltb_spec (alive io' 0 (length shards)) (ec_DataShards (ee_config ee))).
    + by rewrite (proj2 (Z.leb_gt _ _)) by lia.
    + by rewrite (proj2 (Z.leb_le _ _)) by lia.
  - intros d Hd. eapply (good_lookup U Hcf); [done| |by apply HU].
    apply elem_of_app. left. rewrite <-Hids. apply list_elem_of_fmap. eauto.
Qed.

End Objects.

(** ** A run with a parity code *)

Module ErasureRuns.

#[local] Existing Instance ChunkRuns.toy_gzip.
#[local] Existing Instance range_canonical.

Definition xor_ascii (x y : ascii) : ascii :=
  match x, y with
  | Ascii a b c d e f g h, Ascii a' b' c' d' e' f' g' h' =>
      Ascii (xorb a a') (xorb b b') (xorb c c') (xorb d d') (xorb e e') (xorb f f') (xorb g g') (xorb h h')
  end.

Fixpoint xor_bytes (s t : string) : string :=
  match s, t with
  | String c s, String d t => String (xor_ascii c d) (xor_bytes s t)
  | _, _ => EmptyString
  end.

Lemma xor_ascii_cancel x y : xor_ascii x (xor_ascii x y) = y.
Proof.
  destruct x, y. simpl. f_equal; by rewrite <-xorb_assoc, xorb_nilpotent, xorb_false_l.
Qed.

Lemma xor_ascii_comm x y : xor_ascii x y = xor_ascii y x.
Proof. destruct x, y. simpl. f_equal; apply xorb_comm. Qed.

Lemma xor_bytes_comm s t : xor_bytes s t = xor_bytes t s.
Proof. revert t. induction s as [|c s IH]; intros [|d t]; simpl; [done..|]. by rewrite xor_ascii_comm, IH. Qed.

Lemma xor_bytes_cancel s t : String.length s = String.length t → xor_bytes s (xor_bytes s t) = t.
Proof.
  revert t. induction s as [|c s IH]; intros [|d t] Hl; simpl in *; try done.
  by rewrite xor_ascii_cancel, IH by lia.
Qed.

Lemma xor_bytes_length s t : String.length s = String.length t → String.length (xor_bytes s t) = String.length t.
Proof. revert t. induction s as [|c s IH]; intros [|d t] Hl; simpl in *; try done. by rewrite IH by lia. Qed.

(** Two data shards and their exclusive or. *)
#[local] Instance xor_code : ReedSolomon := {|
  rs_New k m := if (k =? 2) && (m =? 1) then None else Some "invalid number of shards"%string;
  rs_Encode k m shards :=
    match shards with [a; b; _] => Ok [a; b; xor_bytes a b] | _ => Err "too few shards given"%string end;
  rs_Reconstruct k m shards :=
    match shards with
    | [Some a; Some b; _] => Ok [Some a; Some b; Some (xor_bytes a b)]
    | [None; Some b; Some p] => Ok [Some (xor_bytes b p); Some b; Some p]
    | [Some a; None; Some p] => Ok [Some a; Some (xor_bytes a p); Some p]
    | _ => Err "too few shards given"%string
    end;
  rs_Verify k m shards :=
    match shards with [a; b; p] => Ok (bool_decide (p = xor_bytes a b)) | _ => Err "too few shards given"%string end
|}.

Lemma xor_new k m : rs_New k m = None → k = 2 ∧ m = 1.
Proof. simpl. destruct (Z.eqb_spec k 2), (Z.eqb_spec m 1); simpl; auto; done. Qed.

Lemma xor_input k m size shards :
  k = 2 → m = 1 → code_input k m size shards →
  ∃ a b c, shards = [a; b; c] ∧ String.length a = size ∧ String.length b = size.
Proof.
  intros -> -> (_ & _ & Hl & Hs). unfold len in Hl.
  destruct shards as [|a [|b [|c [|]]]]; simpl in Hl; try lia.
  rewrite !Forall_cons in Hs. destruct Hs as (? & ? & _). by eexists _, _, _.
Qed.

#[local] Instance xor_laws : ReedSolomonLaws.
Proof.
  split.
  - intros k m size shards [-> ->]%xor_new Hs (a & b & c & -> & Ha & Hb)%xor_input; [|done..].
    exists [xor_bytes a b]. split_and!; [done..|]. apply Forall_singleton. rewrite xor_bytes_length; congruence.
  - intros k m size shards encoded damaged [-> ->]%xor_new Hs (a & b & c & -> & Ha & Hb)%xor_input He Hd Hav;
      [|done..].
    simpl in He. injection He as <-.
    assert (∃ x y z, damaged = [x; y; z] ∧ (x = None ∨ x = Some a) ∧ (y = None ∨ y = Some b) ∧
      (z = None ∨ z = Some (xor_bytes a b))) as (x & y & z & -> & Hx & Hy & Hz).
    { unfold damages in Hd. repeat (apply Forall2_cons_inv_l in Hd as (? & ? & ? & Hd & ->)).
      apply Forall2_nil_inv_l in Hd as ->. by eexists _, _, _. }
    assert (xor_bytes b (xor_bytes a b) = a) as H1.
    { rewrite (xor_bytes_comm a b). apply xor_bytes_cancel. congruence. }
    assert (xor_bytes a (xor_bytes a b) = b) as H2 by (apply xor_bytes_cancel; congruence).
    destruct Hx as [->| ->], Hy as [->| ->], Hz as [->| ->]; vm_compute in Hav; try (by destruct Hav);
      simpl; rewrite ?H1, ?H2; reflexivity.
Qed.

Definition config : ErasureConfig := {|
  ec_Enabled := true; ec_DataShards := 2; ec_ParityShards := 1; ec_MinNodeCount := 3;
  ec_ColdThreshold := 0 |}.

Definition ee : ErasureEncoder := {| ee_config := config |}.

Definition shards : list string :=
  match Encode ee "abcde" with Ok s => s | Err _ => [] end.

Definition stored : ChunkStore :=
  match StoreContentWithEC (ContentRuns.engine 4) ContentRuns.ok_io ContentRuns.no_fault (ChunkRuns.start false)
          "abcde" (Some ee) with
  | Some (cs, _) => cs
  | None => ChunkRuns.start false
  end.

Lemma shards_encoded : Encode ee "abcde" = Ok shards.
Proof. vm_compute. reflexivity. Qed.

Lemma stored_answer :
  option_map snd (StoreContentWithEC (ContentRuns.engine 4) ContentRuns.ok_io ContentRuns.no_fault
    (ChunkRuns.start false) "abcde" (Some ee)) =
  Some (Ok (map sha256_hex shards, Some [0; 1; 2], sha256_hex "abcde")).
Proof. vm_compute. reflexivity. Qed.

Lemma stored_ok :
  StoreContentWithEC (ContentRuns.engine 4) ContentRuns.ok_io ContentRuns.no_fault (ChunkRuns.start false)
    "abcde" (Some ee) = Some (stored, Ok (map sha256_hex shards, Some [0; 1; 2], sha256_hex "abcde")).
Proof.
  pose proof stored_answer as Ha. unfold stored.
  destruct (StoreContentWithEC _ _ _ _ _ _) as [[cs r]|]; simpl in Ha; [by injection Ha as ->|discriminate].
Qed.

Lemma shards_collision_free : collision_free shards.
Proof. apply collision_free_check. vm_compute. reflexivity. Qed.

(** The first shard cannot be read. *)
Definition lost (i : nat) : option string :=
  if decide (i = 0%nat) then Some "input/output error"%string else None.

Lemma enough_alive : (alive lost 0 (length shards) <? ec_DataShards (ee_config ee)) = false.
Proof. vm_compute. reflexivity. Qed.

Lemma degraded_read_witness :
  RetrieveContentWithEC lost stored (map sha256_hex shards) [0; 1; 2] 5 (Some ee) = Some (Ok "abcde"%string).
Proof.
  destruct (degraded_read shards (ContentRuns.engine 4) ContentRuns.ok_io ContentRuns.no_fault
    (ChunkRuns.start false) [] "abcde" config ee shards stored (map sha256_hex shards) [0; 1; 2]
    (sha256_hex "abcde")) as (_ & _ & Hread).
  - reflexivity.
  - discriminate.
  - reflexivity.
  - reflexivity.
  - exact shards_collision_free.
  - exists ∅. split; [|split].
    + split; [intros id d n Ha; rewrite lookup_empty in Ha; discriminate|reflexivity].
    + intros id. rewrite lookup_empty. reflexivity.
    + intros id d n Ha. rewrite lookup_empty in Ha. discriminate.
  - exact shards_encoded.
  - reflexivity.
  - vm_compute. discriminate.
  - exact stored_ok.
  - specialize (Hread lost). rewrite enough_alive in Hread. exact Hread.
Defined.

End ErasureRuns.
