(* ===== verification/StoragePlacement.v ===== *)
(** * Placement of chunk replicas (pkg/storage/placement.go)

    The strategy keeps the registered storage nodes and picks, for a request,
    nodes that are healthy, large enough and fast enough, in as many zones as
    it can.  Scores are floating-point numbers and may be NaN (a node without
    capacity); nothing is assumed of the order they give. *)

From S2P Require Import Prelude GoText GoFloat StorageTypes.
From Stdlib Require Import SpecFloat.

Definition NodeStateHealthy : string := "healthy".
Definition NodeStateDegraded : string := "degraded".
Definition NodeStateUnavailable : string := "unavailable".
Definition NodeStateDraining : string := "draining".

Record StorageNode := {
  sn_ID : string;
  sn_Zone : string;
  sn_Region : string;
  sn_Capacity : Z;
  sn_Used : Z;
  sn_Available : Z;
  sn_IOPSClass : string;
  sn_State : string;
  sn_ReadLatencyMs : float64;
  sn_WriteLatencyMs : float64;
  sn_ReadIOPS : Z;
  sn_WriteIOPS : Z;
  sn_Labels : gmap string string;
  sn_LastUpdated : Z
}.

#[export] Instance eta_StorageNode : Eta StorageNode := fun x =>
  Build_StorageNode (sn_ID x) (sn_Zone x) (sn_Region x) (sn_Capacity x) (sn_Used x) (sn_Available x)
    (sn_IOPSClass x) (sn_State x) (sn_ReadLatencyMs x) (sn_WriteLatencyMs x) (sn_ReadIOPS x)
    (sn_WriteIOPS x) (sn_Labels x) (sn_LastUpdated x).

Record PlacementRequest := {
  pr_StorageClass : string;
  pr_IOPSClass : string;
  pr_ReplicaCount : Z;
  pr_Size : Z;
  pr_PreferredZone : string;
  pr_ExcludeNodes : list string
}.

Definition RebalanceTypeMove : string := "move".

Record RebalanceOperation := {
  ro_Type : string;
  ro_SourceNodeID : string;
  ro_TargetNodeID : string;
  ro_ChunkID : string;
  ro_Reason : string;
  ro_Priority : Z
}.

Record ClusterCapacity := {
  cc_TotalNodes : Z;
  cc_HealthyNodes : Z;
  cc_TotalCapacity : Z;
  cc_TotalUsed : Z;
  cc_TotalAvailable : Z;
  cc_UsagePercent : float64;
  cc_LastUpdated : Z;
  cc_HighIOPSNodes : Z;
  cc_MediumIOPSNodes : Z;
  cc_LowIOPSNodes : Z;
  cc_HighIOPSCapacity : Z;
  cc_MediumIOPSCapacity : Z;
  cc_LowIOPSCapacity : Z;
  cc_ZoneCapacity : gmap string Z
}.

#[export] Instance eta_ClusterCapacity : Eta ClusterCapacity := fun x =>
  Build_ClusterCapacity (cc_TotalNodes x) (cc_HealthyNodes x) (cc_TotalCapacity x) (cc_TotalUsed x)
    (cc_TotalAvailable x) (cc_UsagePercent x) (cc_LastUpdated x) (cc_HighIOPSNodes x)
    (cc_MediumIOPSNodes x) (cc_LowIOPSNodes x) (cc_HighIOPSCapacity x) (cc_MediumIOPSCapacity x)
    (cc_LowIOPSCapacity x) (cc_ZoneCapacity x).

(** ** State and registration *)

Record PlacementStrategy := { ps_config : StorageConfig; ps_nodes : gmap string StorageNode }.

#[export] Instance eta_PlacementStrategy : Eta PlacementStrategy := fun x =>
  Build_PlacementStrategy (ps_config x) (ps_nodes x).

Definition NewPlacementStrategy (config : StorageConfig) : PlacementStrategy :=
  {| ps_config := config; ps_nodes := ∅ |}.

Definition RegisterNode (ps : PlacementStrategy) (node : StorageNode) : PlacementStrategy :=
  ps <| ps_nodes := <[sn_ID node := node]> (ps_nodes ps) |>.

Definition UnregisterNode (ps : PlacementStrategy) (nodeID : string) : PlacementStrategy :=
  ps <| ps_nodes := delete nodeID (ps_nodes ps) |>.

(** The writes to the node that was loaded. *)
Definition set_capacity (now used capacity : Z) (node : StorageNode) : StorageNode :=
  (((node <| sn_Used := used |>) <| sn_Capacity := capacity |>)
     <| sn_Available := int64 (capacity - used) |>) <| sn_LastUpdated := now |>.

Definition UpdateNodeCapacity (now : Z) (ps : PlacementStrategy) (nodeID : string) (used capacity : Z)
  : PlacementStrategy * option string :=
  match ps_nodes ps !! nodeID with
  | None => (ps, Some ("node not found: " +:+ nodeID))
  | Some node => (ps <| ps_nodes := <[nodeID := set_capacity now used capacity node]> (ps_nodes ps) |>, None)
  end.

(** ** Selection *)

Definition isNodeCompatible (node : StorageNode) (class : string) : bool :=
  if class =?s StorageClassHot
  then (sn_IOPSClass node =?s IOPSClassHigh) || (sn_IOPSClass node =?s IOPSClassMedium)
  else true.

Definition isExcluded (nodeID : string) (excludeList : list string) : bool :=
  existsb (fun excluded => nodeID =?s excluded) excludeList.

(** The tests of [getEligibleNodes] on one node. *)
Definition eligible (req : PlacementRequest) (node : StorageNode) : bool :=
  (sn_State node =?s NodeStateHealthy) &&
  negb (sn_Available node <? pr_Size req) &&
  negb (negb (pr_StorageClass req =?s StorageClassEphemeral) &&
        (negb (pr_IOPSClass req =?s "") && negb (sn_IOPSClass node =?s pr_IOPSClass req))) &&
  isNodeCompatible node (pr_StorageClass req) &&
  negb (isExcluded (sn_ID node) (pr_ExcludeNodes req)).

Definition getEligibleNodes `{GoRange} (ps : PlacementStrategy) (req : PlacementRequest)
  : list StorageNode :=
  List.filter (eligible req) (range_map (ps_nodes ps)).*2.

Definition calculateNodeLoad (node : StorageNode) : float64 :=
  if sn_Capacity node =? 0 then f1 else fdiv (f_of_Z (sn_Used node)) (f_of_Z (sn_Capacity node)).

Definition calculateNodeScore (node : StorageNode) (req : PlacementRequest) : float64 :=
  let capacityRatio := fdiv (f_of_Z (sn_Available node)) (f_of_Z (sn_Capacity node)) in
  let score := fadd f0 (fmul capacityRatio (f_of_Z 40)) in
  let score := fadd score (fmul (fsub f1 (calculateNodeLoad node)) (f_of_Z 30)) in
  let score := if negb (pr_IOPSClass req =?s "") && (sn_IOPSClass node =?s pr_IOPSClass req)
               then fadd score (f_of_Z 20) else score in
  if negb (pr_PreferredZone req =?s "") && (sn_Zone node =?s pr_PreferredZone req)
  then fadd score (f_of_Z 10) else score.

(** The first pass takes a node of a zone not used yet; when enough nodes are
    selected the loop ends, which is the same as changing nothing more. *)
Definition first_pass (replicaCount : Z) (acc : list string * gset string) (node : StorageNode)
  : list string * gset string :=
  let '(selected, usedZones) := acc in
  if replicaCount <=? len selected then acc
  else if negb (bool_decide (sn_Zone node ∈ usedZones)) || (replicaCount <=? Z.of_nat (size usedZones))
  then (selected ++ [sn_ID node], usedZones ∪ {[sn_Zone node]})
  else acc.

(** The second pass fills up with nodes not selected yet. *)
Definition second_pass (replicaCount : Z) (selected : list string) (node : StorageNode) : list string :=
  if replicaCount <=? len selected then selected
  else if existsb (fun id => id =?s sn_ID node) selected then selected
  else selected ++ [sn_ID node].

(** [None] is the panic of [make] with a negative capacity. *)
Definition selectBestNodes `{GoSort} (eligible : list StorageNode) (req : PlacementRequest)
  : option (result string (list string)) :=
  let scored := map (fun node => (node, calculateNodeScore node req)) eligible in
  let scored := map fst (sort_slice (fun x y => flt y.2 x.2) scored) in
  if pr_ReplicaCount req <? 0 then None
  else
    let '(selected, _) := fold_left (first_pass (pr_ReplicaCount req)) scored ([], ∅) in
    let selected := fold_left (second_pass (pr_ReplicaCount req)) scored selected in
    Some (if len selected <? pr_ReplicaCount req
          then Err ("could not select enough nodes: got " +:+ show_Z (len selected) +:+ ", need "
                    +:+ show_Z (pr_ReplicaCount req))
          else Ok selected).

Definition SelectNodes `{GoRange, GoSort} (ps : PlacementStrategy) (req : PlacementRequest)
  : option (result string (list string)) :=
  let eligibleNodes := getEligibleNodes ps req in
  if len eligibleNodes =? 0 then Some (Err "no eligible nodes available"%string)
  else if len eligibleNodes <? pr_ReplicaCount req then
    Some (Err ("insufficient nodes: need " +:+ show_Z (pr_ReplicaCount req) +:+ ", got "
               +:+ show_Z (len eligibleNodes)))
  else selectBestNodes eligibleNodes req.

(** The first node of the list in the preferred zone. *)
Definition in_zone (ps : PlacementStrategy) (preferredZone nodeID : string) : bool :=
  match ps_nodes ps !! nodeID with
  | Some node => (sn_Zone node =?s preferredZone) && (sn_State node =?s NodeStateHealthy)
  | None => false
  end.

(** The loop over the healthy nodes: the best node and its load so far. *)
Definition least_loaded (ps : PlacementStrategy) (acc : string * float64) (nodeID : string)
  : string * float64 :=
  let '(bestNode, lowestLoad) := acc in
  match ps_nodes ps !! nodeID with
  | Some node =>
      if negb (sn_State node =?s NodeStateHealthy) then acc
      else
        let load := calculateNodeLoad node in
        if (bestNode =?s "") || flt load lowestLoad then (nodeID, load) else acc
  | None => acc
  end.

(** [rnd] is the answer of [ps.rand.Intn]. *)
Definition SelectPrimaryNode (rnd : nat) (ps : PlacementStrategy) (nodeIDs : list string)
  (preferredZone : string) : result string string :=
  match nodeIDs with
  | [] => Err "no nodes provided"%string
  | _ =>
      match (if negb (preferredZone =?s "") then List.find (in_zone ps preferredZone) nodeIDs else None) with
      | Some nodeID => Ok nodeID
      | None =>
          let '(bestNode, _) := fold_left (least_loaded ps) nodeIDs (""%string, f1) in
          if bestNode =?s "" then Ok (nth rnd nodeIDs ""%string) else Ok bestNode
      end
  end.

Definition GetNodesByIOPS `{GoRange} (ps : PlacementStrategy) (iopsClass : string) : list StorageNode :=
  List.filter (fun node => (sn_IOPSClass node =?s iopsClass) && (sn_State node =?s NodeStateHealthy))
    (range_map (ps_nodes ps)).*2.

Definition GetNodesByZone `{GoRange} (ps : PlacementStrategy) (zone : string) : list StorageNode :=
  List.filter (fun node => (sn_Zone node =?s zone) && (sn_State node =?s NodeStateHealthy))
    (range_map (ps_nodes ps)).*2.

(** ** Rebalancing *)

Definition threshold : float64 := flit 15 100.

Definition calculateRebalancePriority (deviation : float64) : Z :=
  if flt (flit 5 10) deviation then 1 else if flt (flit 3 10) deviation then 2 else 3.

Definition load_deviation (avgLoad : float64) (node : StorageNode) : float64 :=
  fdiv (fsub (calculateNodeLoad node) avgLoad) avgLoad.

(** The inner loop: the first other node that is underloaded. *)
Definition underloaded (avgLoad : float64) (node other : StorageNode) : bool :=
  negb (sn_ID other =?s sn_ID node) && flt (load_deviation avgLoad other) (SFopp threshold).

Definition rebalance_node (avgLoad : float64) (nodes : list StorageNode) (node : StorageNode)
  : list RebalanceOperation :=
  let deviation := load_deviation avgLoad node in
  if flt threshold deviation then
    match List.find (underloaded avgLoad node) nodes with
    | Some other => [{|
        ro_Type := RebalanceTypeMove;
        ro_SourceNodeID := sn_ID node;
        ro_TargetNodeID := sn_ID other;
        ro_ChunkID := "";
        ro_Reason := "Load balancing";
        ro_Priority := calculateRebalancePriority deviation |}]
    | None => []
    end
  else [].

Definition RebalanceRecommendations `{GoRange} (ps : PlacementStrategy) : list RebalanceOperation :=
  let nodes := List.filter (fun node => sn_State node =?s NodeStateHealthy) (range_map (ps_nodes ps)).*2 in
  if len nodes <? 2 then []
  else
    let totalLoad := fold_left (fun t node => fadd t (calculateNodeLoad node)) nodes f0 in
    let avgLoad := fdiv totalLoad (f_of_Z (len nodes)) in
    flat_map (rebalance_node avgLoad nodes) nodes.

(** ** Capacity *)

Definition add_capacity (c : ClusterCapacity) (node : StorageNode) : ClusterCapacity :=
  let c := c <| cc_TotalNodes := int64 (cc_TotalNodes c + 1) |> in
  let c := if sn_State node =?s NodeStateHealthy
           then c <| cc_HealthyNodes := int64 (cc_HealthyNodes c + 1) |> else c in
  let c := c <| cc_TotalCapacity := int64 (cc_TotalCapacity c + sn_Capacity node) |> in
  let c := c <| cc_TotalUsed := int64 (cc_TotalUsed c + sn_Used node) |> in
  let c := c <| cc_TotalAvailable := int64 (cc_TotalAvailable c + sn_Available node) |> in
  let c :=
    if sn_IOPSClass node =?s IOPSClassHigh then
      (c <| cc_HighIOPSNodes := int64 (cc_HighIOPSNodes c + 1) |>)
        <| cc_HighIOPSCapacity := int64 (cc_HighIOPSCapacity c + sn_Capacity node) |>
    else if sn_IOPSClass node =?s IOPSClassMedium then
      (c <| cc_MediumIOPSNodes := int64 (cc_MediumIOPSNodes c + 1) |>)
        <| cc_MediumIOPSCapacity := int64 (cc_MediumIOPSCapacity c + sn_Capacity node) |>
    else if sn_IOPSClass node =?s IOPSClassLow then
      (c <| cc_LowIOPSNodes := int64 (cc_LowIOPSNodes c + 1) |>)
        <| cc_LowIOPSCapacity := int64 (cc_LowIOPSCapacity c + sn_Capacity node) |>
    else c in
  (* The map is made anew whenever the zone is not in it. *)
  let zones := match cc_ZoneCapacity c !! sn_Zone node with
               | Some _ => cc_ZoneCapacity c
               | None => ∅
               end in
  c <| cc_ZoneCapacity :=
         <[sn_Zone node := int64 (default 0 (zones !! sn_Zone node) + sn_Capacity node)]> zones |>.

Definition no_capacity (now : Z) : ClusterCapacity := {|
  cc_TotalNodes := 0; cc_HealthyNodes := 0; cc_TotalCapacity := 0; cc_TotalUsed := 0;
  cc_TotalAvailable := 0; cc_UsagePercent := f0; cc_LastUpdated := now; cc_HighIOPSNodes := 0;
  cc_MediumIOPSNodes := 0; cc_LowIOPSNodes := 0; cc_HighIOPSCapacity := 0;
  cc_MediumIOPSCapacity := 0; cc_LowIOPSCapacity := 0; cc_ZoneCapacity := ∅ |}.

Definition GetClusterCapacity `{GoRange} (now : Z) (ps : PlacementStrategy) : ClusterCapacity :=
  let capacity := fold_left add_capacity (range_map (ps_nodes ps)).*2 (no_capacity now) in
  if 0 <? cc_TotalCapacity capacity
  then capacity <| cc_UsagePercent :=
         fmul (fdiv (f_of_Z (cc_TotalUsed capacity)) (f_of_Z (cc_TotalCapacity capacity))) (f_of_Z 100) |>
  else capacity.

(** ** The passes *)

Definition zones (nodes : list StorageNode) : gset string := list_to_set (sn_Zone <$> nodes).

(** After the first pass over [l]: [ns] are the nodes selected. *)
Record passed (replicaCount : Z) (l ns : list StorageNode) (acc : list string * gset string) : Prop := {
  pa_ids : acc.1 = map sn_ID ns;
  pa_zones : acc.2 = zones ns;
  pa_from : ns ⊆ l;
  pa_distinct : NoDup (sn_Zone <$> ns);
  pa_len : len ns ≤ replicaCount;
  pa_cover : len ns = replicaCount ∨ zones l ⊆ zones ns
}.

Lemma zones_app a b : zones (a ++ b) = zones a ∪ zones b.
Proof. unfold zones. by rewrite fmap_app, list_to_set_app_L. Qed.

Lemma size_zones ns : NoDup (sn_Zone <$> ns) → Z.of_nat (size (zones ns)) = len ns.
Proof. intros Hnd. unfold zones, len. by rewrite size_list_to_set, length_fmap. Qed.

Lemma first_pass_step R l ns acc node :
  0 ≤ R → passed R l ns acc → ∃ ns', passed R (l ++ [node]) ns' (first_pass R acc node).
Proof.
  intros HR [Hid Hz Hfrom Hnd Hlen Hcov]. destruct acc as [selected usedZones]. simpl in *. subst.
  unfold first_pass, len at 1. rewrite length_map. fold (len ns).
  destruct (Z.leb_spec R (len ns)).
  { exists ns. split; simpl; try done; [set_solver|left; lia]. }
  rewrite size_zones, (proj2 (Z.leb_gt R (len ns))), orb_false_r by done. case_bool_decide as Hin; simpl.
  - exists ns. split; simpl; try done; [set_solver|]. right. rewrite zones_app.
    destruct Hcov as [?|?]; [lia|]. unfold zones in *. simpl. set_solver.
  - exists (ns ++ [node]). unfold len in *. split; simpl.
    + by rewrite map_app.
    + rewrite zones_app. unfold zones at 3. simpl. set_solver.
    + set_solver.
    + rewrite fmap_app. apply NoDup_app. split_and!; [done| |apply NoDup_singleton].
      intros z Hz. unfold zones in Hin. rewrite elem_of_list_to_set in Hin. simpl. set_solver.
    + unfold len. rewrite length_app. simpl. lia.
    + right. rewrite !zones_app. destruct Hcov as [?|?]; [lia|set_solver].
Qed.

Lemma first_pass_spec R l :
  0 ≤ R → ∃ ns, passed R l ns (fold_left (first_pass R) l ([], ∅)).
Proof.
  intros HR. induction l as [|node l IH] using rev_ind.
  - exists []. split; try done; [apply NoDup_nil_2|]. right. set_solver.
  - rewrite fold_left_app. simpl. destruct IH as [ns IH]. by eapply first_pass_step.
Qed.

(** After the second pass over [l], starting from the nodes [ns]. *)
Record filled (replicaCount : Z) (ns l rest : list StorageNode) (selected : list string) : Prop := {
  fi_ids : selected = map sn_ID (ns ++ rest);
  fi_from : rest ⊆ l;
  fi_distinct : NoDup (sn_ID <$> (ns ++ rest));
  fi_len : len (ns ++ rest) ≤ replicaCount;
  fi_none : len ns = replicaCount → rest = [];
  fi_cover : len (ns ++ rest) = replicaCount ∨ (sn_ID <$> l) ⊆ (sn_ID <$> (ns ++ rest))
}.

Lemma second_pass_step R ns l rest selected node :
  filled R ns l rest selected → ∃ rest', filled R ns (l ++ [node]) rest' (second_pass R selected node).
Proof.
  intros [Hid Hfrom Hnd Hlen Hnone Hcov]. subst. unfold second_pass, len at 1. rewrite length_map.
  fold (len (ns ++ rest)). destruct (Z.leb_spec R (len (ns ++ rest))).
  { exists rest. split; try done; [set_solver|left; lia]. }
  destruct Hcov as [?|Hcov]; [lia|].
  destruct (existsb _ _) eqn:Hex.
  - exists rest. split; try done; [set_solver|]. right. apply existsb_exists' in Hex as (id & Hid & He).
    apply bool_decide_eq_true_1 in He as ->. rewrite fmap_app. intros x [Hx|Hx]%elem_of_app; [by apply Hcov|].
    apply list_elem_of_singleton in Hx as ->. done.
  - exists (rest ++ [node]). unfold len in *. split; rewrite ?app_assoc.
    + by rewrite (map_app sn_ID (ns ++ rest)).
    + set_solver.
    + rewrite fmap_app. apply NoDup_app. split_and!; [done| |apply NoDup_singleton].
      intros id Hid Hin. apply list_elem_of_singleton in Hin as ->.
      apply not_true_iff_false in Hex. apply Hex, existsb_exists'. exists (sn_ID node).
      by rewrite bool_decide_eq_true_2.
    + unfold len. rewrite length_app. simpl. lia.
    + unfold len. intros Heq. rewrite length_app in *. lia.
    + right. rewrite !fmap_app. rewrite fmap_app in Hcov. set_solver.
Qed.

Lemma second_pass_spec R ns l :
  NoDup (sn_ID <$> ns) → len ns ≤ R →
  ∃ rest, filled R ns l rest (fold_left (second_pass R) l (map sn_ID ns)).
Proof.
  intros Hnd Hlen. induction l as [|node l IH] using rev_ind.
  - exists []. split; rewrite ?app_nil_r; try done. right. set_solver.
  - rewrite fold_left_app. simpl. destruct IH as [rest IH]. by eapply second_pass_step.
Qed.

(** What a selection promises. *)
Record selection (replicaCount : Z) (candidates chosen : list StorageNode) : Prop := {
  se_from : chosen ⊆ candidates;
  se_distinct : NoDup (sn_ID <$> chosen);
  se_len : len chosen = replicaCount;
  se_zones : Z.of_nat (size (zones chosen)) = Z.min replicaCount (Z.of_nat (size (zones candidates)))
}.

Lemma NoDup_key_inj {A B} (f : A → B) l x y :
  NoDup (f <$> l) → x ∈ l → y ∈ l → f x = f y → x = y.
Proof.
  intros Hnd [i Hi]%list_elem_of_lookup [j Hj]%list_elem_of_lookup Heq.
  assert (i = j) as ->; [|congruence].
  eapply (NoDup_lookup _ i j (f x) Hnd); rewrite list_lookup_fmap; [by rewrite Hi|by rewrite Hj, Heq].
Qed.

Lemma sublist_distinct_ids (ns l : list StorageNode) :
  NoDup (sn_ID <$> l) → ns ⊆ l → NoDup (sn_Zone <$> ns) → NoDup (sn_ID <$> ns).
Proof.
  intros Hl Hsub Hz. apply NoDup_fmap_2_strong; [|by eapply NoDup_fmap_1].
  intros x y Hx Hy Heq. by apply (NoDup_key_inj sn_ID l); auto.
Qed.

Lemma passes_selection R l selected :
  0 ≤ R ≤ len l → NoDup (sn_ID <$> l) →
  selected = fold_left (second_pass R) l (fold_left (first_pass R) l ([], ∅)).1 →
  ∃ chosen, selected = map sn_ID chosen ∧ selection R l chosen.
Proof.
  intros [HR Hl] Hnd ->. destruct (first_pass_spec R l HR) as [ns [Hid Hz Hfrom Hdist Hlen Hcov]].
  rewrite Hid. assert (NoDup (sn_ID <$> ns)) as Hns by by eapply sublist_distinct_ids.
  destruct (second_pass_spec R ns l Hns Hlen) as [rest [Hid2 Hfrom2 Hdist2 Hlen2 Hnone Hcov2]].
  exists (ns ++ rest). split; [done|].
  assert (len (ns ++ rest) = R) as HlenR.
  { destruct Hcov2 as [?|Hcov2]; [done|].
    pose proof (submseteq_length _ _ (NoDup_submseteq _ _ Hnd Hcov2)) as Hle.
    rewrite !length_fmap in Hle. unfold len in *. lia. }
  assert (ns ++ rest ⊆ l) as Hsub by set_solver.
  split; [done..|].
  assert (zones (ns ++ rest) ⊆ zones l) as Hzsub.
  { intros z. unfold zones. rewrite !elem_of_list_to_set, !list_elem_of_fmap.
    intros (n & -> & Hn). exists n. auto. }
  destruct Hcov as [Heq|Hcov].
  - rewrite (Hnone Heq), app_nil_r in *. rewrite size_zones by done.
    pose proof (subseteq_size _ _ Hzsub). pose proof (size_zones ns Hdist). lia.
  - assert (zones (ns ++ rest) = zones l) as Hzeq by (rewrite zones_app in *; set_solver).
    rewrite Hzeq. assert (zones l = zones ns) as -> by (rewrite zones_app in Hzsub; set_solver).
    rewrite size_zones by done. lia.
Qed.

(** ** The theorem *)

(** Nodes are registered under their names. *)
Definition keyed (ps : PlacementStrategy) : Prop :=
  ∀ id node, ps_nodes ps !! id = Some node → sn_ID node = id.

Lemma keyed_operations ps :
  keyed ps →
  (∀ node, keyed (RegisterNode ps node)) ∧ (∀ id, keyed (UnregisterNode ps id)) ∧
  (∀ now id used capacity, keyed (UpdateNodeCapacity now ps id used capacity).1).
Proof.
  intros Hk. split_and!.
  - intros node id n. simpl. rewrite lookup_insert_Some. intros [[<- <-]|[_ Hn]]; [done|by apply Hk].
  - intros id id' n. simpl. rewrite lookup_delete_Some. intros [_ Hn]. by apply Hk.
  - intros now id used capacity. unfold UpdateNodeCapacity. destruct (ps_nodes ps !! id) as [node|] eqn:Hn; [|done].
    intros id' n. simpl. rewrite lookup_insert_Some. intros [[<- <-]|[_ Hn']]; [by apply (Hk id node)|by apply Hk].
Qed.

Section Selection.
Context `{GoRange, GoSort}.

Lemma eligible_ids ps req : keyed ps → NoDup (sn_ID <$> getEligibleNodes ps req).
Proof.
  intros Hk. unfold getEligibleNodes.
  assert (∀ l : list (string * StorageNode), NoDup l.*1 → (∀ x, x ∈ l → sn_ID x.2 = x.1) →
    NoDup (sn_ID <$> List.filter (eligible req) l.*2)) as Hgen.
  { induction l as [|x l IH]; csimpl; [intros; apply NoDup_nil_2|]. rewrite NoDup_cons. intros [Hx Hl] Hid.
    assert (NoDup (sn_ID <$> List.filter (eligible req) l.*2)) as Hnd.
    { apply IH; [done|]. intros y Hy. apply Hid. by right. }
    destruct (eligible req x.2); [|done]. csimpl. apply NoDup_cons. split; [|done].
    rewrite (Hid x) by left. intros (n & Heq & Hn)%list_elem_of_fmap.
    apply list_elem_of_In, filter_In in Hn as [Hn _]. apply list_elem_of_In, list_elem_of_fmap in Hn as (y & -> & Hy).
    apply Hx. rewrite Heq, (Hid y) by (by right). apply list_elem_of_fmap. eauto. }
  apply Hgen; [apply range_map_keys|]. intros [id node] Hin%elem_of_range_map. by apply Hk.
Qed.

Lemma eligible_elem ps req node :
  keyed ps → node ∈ getEligibleNodes ps req ↔ ps_nodes ps !! sn_ID node = Some node ∧ eligible req node = true.
Proof.
  intros Hk. unfold getEligibleNodes. rewrite list_elem_of_In, filter_In, <-list_elem_of_In, list_elem_of_fmap.
  split.
  - intros [([id n] & -> & Hin%elem_of_range_map) He]. simpl in *. by rewrite (Hk id n Hin).
  - intros [Hn He]. split; [|done]. exists (sn_ID node, node). by rewrite elem_of_range_map.
Qed.

(** [SelectNodes] answers with as many distinct eligible nodes as asked, in as
    many zones as possible, and fails only when there are no eligible nodes or
    fewer than asked; asked for a negative number of replicas it panics unless
    no node is eligible.  This holds whatever order the scores give. *)
Theorem SelectNodes_correct ps req :
  keyed ps →
  let candidates := getEligibleNodes ps req in
  match SelectNodes ps req with
  | None => candidates ≠ [] ∧ pr_ReplicaCount req < 0
  | Some (Err _) => candidates = [] ∨ len candidates < pr_ReplicaCount req
  | Some (Ok selected) =>
      ∃ chosen, selected = map sn_ID chosen ∧
        selection (pr_ReplicaCount req) candidates chosen ∧
        ∀ node, node ∈ chosen → ps_nodes ps !! sn_ID node = Some node ∧ eligible req node = true
  end.
Proof.
  intros Hk candidates. subst candidates. unfold SelectNodes.
  pose proof (eligible_ids ps req Hk) as Hnd. pose proof (λ node, eligible_elem ps req node Hk) as Helem.
  set (l := getEligibleNodes ps req) in *. unfold len at 1.
  destruct (Z.eqb_spec (Z.of_nat (length l)) 0) as [Hz|Hz].
  { left. by destruct l. }
  destruct (Z.ltb_spec (len l) (pr_ReplicaCount req)); [by right|]. unfold selectBestNodes.
  set (sorted := map fst (sort_slice _ _)).
  assert (sorted ≡ₚ l) as Hp.
  { subst sorted. rewrite sort_slice_perm, map_map, map_id. done. }
  destruct (Z.ltb_spec (pr_ReplicaCount req) 0); [split; [by intros ->|done]|].
  destruct (fold_left (first_pass _) sorted ([], ∅)) as [selected used] eqn:Hf.
  destruct (passes_selection (pr_ReplicaCount req) sorted
    (fold_left (second_pass (pr_ReplicaCount req)) sorted selected)) as (chosen & Hid & [Hfrom Hd Hlen Hzs]).
  - unfold len in *. by rewrite Hp.
  - by rewrite Hp.
  - by rewrite Hf.
  - rewrite Hid. unfold len at 1. rewrite length_map. fold (len chosen). rewrite Hlen, Z.ltb_irrefl.
    exists chosen. assert (chosen ⊆ l) as Hsub by (intros n Hn; rewrite <-Hp; auto). split_and!; [done| |].
    + split; [done..|]. rewrite Hzs. do 3 f_equal. unfold zones. by rewrite Hp.
    + intros node Hn. apply Helem. auto.
Qed.

End Selection.

(** A recommendation moves data between two healthy nodes, off one above the
    average and onto one below it by more than the threshold. *)
Lemma RebalanceRecommendations_sound `{GoRange} ps op :
  keyed ps → op ∈ RebalanceRecommendations ps →
  ∃ avg source target, ps_nodes ps !! ro_SourceNodeID op = Some source ∧
    ps_nodes ps !! ro_TargetNodeID op = Some target ∧ ro_SourceNodeID op ≠ ro_TargetNodeID op ∧
    sn_State source = NodeStateHealthy ∧ sn_State target = NodeStateHealthy ∧
    flt threshold (load_deviation avg source) = true ∧ flt (load_deviation avg target) (SFopp threshold) = true.
Proof.
  intros Hk. unfold RebalanceRecommendations. set (nodes := List.filter _ _).
  assert (∀ n, n ∈ nodes → ps_nodes ps !! sn_ID n = Some n ∧ sn_State n = NodeStateHealthy) as Hn.
  { intros n. subst nodes. rewrite list_elem_of_In, filter_In, <-list_elem_of_In, list_elem_of_fmap.
    intros [([id n'] & -> & Hin%elem_of_range_map) Hs%bool_decide_eq_true_1]. simpl in *.
    by rewrite (Hk id n' Hin). }
  destruct (len nodes <? 2); [by intros ?%elem_of_nil|]. set (avg := fdiv _ _).
  rewrite list_elem_of_In, in_flat_map. intros (n & Hin%list_elem_of_In & Hop). unfold rebalance_node in Hop.
  destruct (flt threshold _) eqn:Ht; [|done]. destruct (List.find _ nodes) as [o|] eqn:Ho; [|done].
  apply find_some in Ho as [Hoin%list_elem_of_In Hund]. unfold underloaded in Hund.
  apply andb_true_iff in Hund as [Hne%negb_true_iff%bool_decide_eq_false_1 Hlow].
  destruct Hop as [<-|[]]. destruct (Hn n Hin), (Hn o Hoin). exists avg, n, o. simpl. split_and!; congruence || done.
Qed.

(** ** Concrete runs *)

Module PlacementRuns.

#[local] Existing Instance sort_insertion.
#[local] Existing Instance range_canonical.

Definition node (id zone : string) (capacity used : Z) : StorageNode := {|
  sn_ID := id; sn_Zone := zone; sn_Region := "r"; sn_Capacity := capacity; sn_Used := used;
  sn_Available := capacity - used; sn_IOPSClass := IOPSClassHigh; sn_State := NodeStateHealthy;
  sn_ReadLatencyMs := f0; sn_WriteLatencyMs := f0; sn_ReadIOPS := 0; sn_WriteIOPS := 0;
  sn_Labels := ∅; sn_LastUpdated := 0 |}.

Definition cluster : PlacementStrategy :=
  fold_left RegisterNode
    [node "a" "z1" 100 10; node "b" "z1" 100 20; node "c" "z2" 100 90; node "d" "z3" 0 0]
    (NewPlacementStrategy DefaultStorageConfig).

Definition request : PlacementRequest := {|
  pr_StorageClass := StorageClassHot; pr_IOPSClass := ""; pr_ReplicaCount := 3; pr_Size := 5;
  pr_PreferredZone := ""; pr_ExcludeNodes := [] |}.

Lemma cluster_keyed : keyed cluster.
Proof. unfold cluster. simpl. repeat apply keyed_operations. intros id n Hn. done. Qed.

(** The best node of each zone first; the node without capacity is too small. *)
Lemma SelectNodes_correct_witness :
  SelectNodes cluster request = Some (Ok ["a"; "c"; "b"]%string) ∧
  ∃ chosen, ["a"; "c"; "b"]%string = map sn_ID chosen ∧
    selection 3 (getEligibleNodes cluster request) chosen.
Proof.
  assert (SelectNodes cluster request = Some (Ok ["a"; "c"; "b"]%string)) as Hs by (vm_compute; reflexivity).
  split; [exact Hs|]. pose proof (SelectNodes_correct cluster request cluster_keyed) as Hc. cbv zeta in Hc.
  rewrite Hs in Hc. destruct Hc as (chosen & H1 & H2 & _). exists chosen. split; [exact H1|exact H2].
Defined.

(** The capacities per zone are thrown away at every zone not seen last: the
    report of a cluster with three zones has one. *)
Example capacity_of_one_zone :
  cc_TotalCapacity (GetClusterCapacity 0 cluster) = 300 ∧
  size (cc_ZoneCapacity (GetClusterCapacity 0 cluster)) = 1%nat ∧ size (zones (map_to_list (ps_nodes cluster)).*2) = 3%nat.
Proof. vm_compute. done. Qed.

End PlacementRuns.
