(* ===== verification/Replication.v ===== *)
(** * Replicas of chunks (pkg/storage/replication.go)

    The manager records which nodes hold a chunk.  Most operations are
    functions of its state.  [ReplicateChunk] starts a goroutine per node, and
    each of them loads the list of replicas, appends to it and stores it
    without a lock: these steps interleave here, on slices that share their
    arrays as Go's [append] leaves them. *)

From S2P Require Import Prelude GoText GoFiles StorageTypes ChunkStore.

Record ReplicationManager := {
  rm_config : StorageConfig;
  rm_replicas : gmap string (list Replica);
  rm_replicaHealth : gmap string string
}.

#[export] Instance eta_ReplicationManager : Eta ReplicationManager := fun x =>
  Build_ReplicationManager (rm_config x) (rm_replicas x) (rm_replicaHealth x).

Definition NewReplicationManager (config : StorageConfig) : ReplicationManager :=
  {| rm_config := config; rm_replicas := ∅; rm_replicaHealth := ∅ |}.

Definition getReplicaKey (chunkID nodeID : string) : string := chunkID +:+ String ":" nodeID.

Definition getWriteQuorum (rm : ReplicationManager) : Z :=
  if negb (QuorumWrites (rm_config rm)) then 1
  else int64 (Z.quot (ReplicationFactor (rm_config rm)) 2 + 1).

(** The replica [replicateToNode] records; [now] gives its three readings of
    the clock. *)
Definition new_replica (now : Z * Z * Z) (chunkID data nodeID : string) : Replica := {|
  rp_ChunkID := chunkID;
  rp_NodeID := nodeID;
  rp_Status := ReplicaStatusHealthy;
  rp_LastVerified := now.1.1;
  rp_CreatedAt := now.1.2;
  rp_UpdatedAt := now.2;
  rp_Size := slen data;
  rp_Checksum := chunkID |}.

(** [replicateToNode] when nothing else runs; it does not fail. *)
Definition replicateToNode (now : Z * Z * Z) (rm : ReplicationManager) (chunkID data nodeID : string)
  : ReplicationManager :=
  let rm := rm <| rm_replicaHealth :=
              <[getReplicaKey chunkID nodeID := ReplicaStatusHealthy]> (rm_replicaHealth rm) |> in
  let replicas := default [] (rm_replicas rm !! chunkID) in
  rm <| rm_replicas := <[chunkID := replicas ++ [new_replica now chunkID data nodeID]]> (rm_replicas rm) |>.

Definition GetReplicas (rm : ReplicationManager) (chunkID : string) : list Replica :=
  default [] (rm_replicas rm !! chunkID).

Definition is_healthy (r : Replica) : bool := rp_Status r =?s ReplicaStatusHealthy.

Definition GetHealthyReplicas (rm : ReplicationManager) (chunkID : string) : list Replica :=
  List.filter is_healthy (GetReplicas rm chunkID).

Definition SelectPrimaryReplica (rm : ReplicationManager) (chunkID : string) : result string Replica :=
  match GetHealthyReplicas rm chunkID with
  | [] => Err ("no healthy replicas available for chunk: " +:+ chunkID)
  | r :: _ => Ok r
  end.

(** The first replica on the node is changed. *)
Fixpoint update_first (nodeID : string) (f : Replica → Replica) (l : list Replica) : list Replica :=
  match l with
  | [] => []
  | r :: l => if rp_NodeID r =?s nodeID then f r :: l else r :: update_first nodeID f l
  end.

Definition update_replica (rm : ReplicationManager) (chunkID nodeID : string) (f : Replica → Replica)
  : ReplicationManager :=
  rm <| rm_replicas := alter (update_first nodeID f) chunkID (rm_replicas rm) |>.

Definition UpdateReplicaHealth (now : Z) (rm : ReplicationManager) (chunkID nodeID status : string)
  : ReplicationManager :=
  let rm := rm <| rm_replicaHealth := <[getReplicaKey chunkID nodeID := status]> (rm_replicaHealth rm) |> in
  update_replica rm chunkID nodeID (fun r => (r <| rp_Status := status |>) <| rp_UpdatedAt := now |>).

Definition VerifyReplica (now : Z) (rm : ReplicationManager) (chunkID nodeID : string) : ReplicationManager :=
  let rm := update_replica rm chunkID nodeID (fun r => r <| rp_LastVerified := now |>) in
  rm <| rm_replicaHealth :=
    <[getReplicaKey chunkID nodeID := ReplicaStatusHealthy]> (rm_replicaHealth rm) |>.

Definition CheckReplicationHealth (rm : ReplicationManager) (chunkID : string) : bool * Z :=
  let healthy := GetHealthyReplicas rm chunkID in
  (ReplicationFactor (rm_config rm) <=? len healthy, len healthy).

Definition RemoveReplica (rm : ReplicationManager) (chunkID nodeID : string) : ReplicationManager :=
  let rm := rm <| rm_replicaHealth := delete (getReplicaKey chunkID nodeID) (rm_replicaHealth rm) |> in
  match rm_replicas rm !! chunkID with
  | None => rm
  | Some replicas =>
      match List.filter (fun r => negb (rp_NodeID r =?s nodeID)) replicas with
      | [] => rm <| rm_replicas := delete chunkID (rm_replicas rm) |>
      | newReplicas => rm <| rm_replicas := <[chunkID := newReplicas]> (rm_replicas rm) |>
      end
  end.

(** [io] is the failure of reading the chunk's file. *)
Definition RepairReplica `{Gzip} (io : option string) (now : Z * Z * Z) (rm : ReplicationManager)
  (cs : ChunkStore) (chunkID targetNodeID : string) : ReplicationManager * option string :=
  match SelectPrimaryReplica rm chunkID with
  | Err err => (rm, Some ("no healthy replica to copy from: " +:+ err))
  | Ok _ =>
      match ReadChunk io cs chunkID with
      | Err err => (rm, Some ("failed to read chunk from primary: " +:+ err))
      | Ok data => (replicateToNode now rm chunkID data targetNodeID, None)
      end
  end.

Definition is_stale (r : Replica) : bool := rp_Status r =?s ReplicaStatusStale.

Definition ReadRepair `{Gzip} (io : option string) (now : Z * Z * Z) (rm : ReplicationManager)
  (cs : ChunkStore) (chunkID : string) : ReplicationManager * option string :=
  if negb (EnableReadRepair (rm_config rm)) then (rm, None)
  else
    match List.filter is_stale (GetReplicas rm chunkID) with
    | [] => (rm, None)
    | staleReplicas =>
        match ReadChunk io cs chunkID with
        | Err err => (rm, Some ("failed to read chunk for repair: " +:+ err))
        | Ok data =>
            (fold_left (fun rm r => replicateToNode now rm chunkID data (rp_NodeID r)) staleReplicas rm, None)
        end
    end.

Record ReplicationStats := {
  rs_TotalChunks : Z;
  rs_TotalReplicas : Z;
  rs_HealthyReplicas : Z;
  rs_StaleReplicas : Z;
  rs_CorruptedReplicas : Z;
  rs_MissingReplicas : Z;
  rs_UnderReplicatedChunks : Z;
  rs_OverReplicatedChunks : Z;
  rs_LastUpdated : Z
}.

Definition count_status (status : string) (l : list Replica) : Z :=
  len (List.filter (fun r => rp_Status r =?s status) l).

(** The counters are increments of 64-bit numbers; a sum of increments is
    wrapped once. *)
Definition GetReplicationStats `{GoRange} (now : Z) (rm : ReplicationManager) : ReplicationStats :=
  let lists := (range_map (rm_replicas rm)).*2 in
  let all := concat lists in
  {| rs_TotalChunks := int64 (len lists);
     rs_TotalReplicas := int64 (len all);
     rs_HealthyReplicas := int64 (count_status ReplicaStatusHealthy all);
     rs_StaleReplicas := int64 (count_status ReplicaStatusStale all);
     rs_CorruptedReplicas := int64 (count_status ReplicaStatusCorrupted all);
     rs_MissingReplicas := int64 (count_status ReplicaStatusMissing all);
     rs_UnderReplicatedChunks := int64 (len (List.filter (fun l =>
       count_status ReplicaStatusHealthy l <? ReplicationFactor (rm_config rm)) lists));
     rs_OverReplicatedChunks := 0;
     rs_LastUpdated := now |}.

(** ** The goroutines of [ReplicateChunk] *)

(** A slice of replicas is a part of an array; [append] writes into the array
    while it has room. *)
Record Slice := { sl_arr : nat; sl_len : nat }.
Record Array := { ar_data : list Replica; ar_cap : nat }.

(** How far a goroutine is in [replicateToNode]. *)
Inductive PC :=
| Begin
| Marked
| Loaded (s : option Slice)
| Appended (s : Slice)
| Stored.

Record Goroutine := { go_replica : Replica; go_pc : PC }.

(** The arrays, the entry of the chunk in [rm.replicas], the health map and the
    goroutines. *)
Record Shared := {
  sh_heap : list Array;
  sh_cell : option Slice;
  sh_health : gmap string string;
  sh_threads : list Goroutine
}.

#[export] Instance eta_Shared : Eta Shared := fun x =>
  Build_Shared (sh_heap x) (sh_cell x) (sh_health x) (sh_threads x).

(** Write a slot of an array; slots fill up in order. *)
Definition write_slot (i : nat) (r : Replica) (l : list Replica) : list Replica :=
  if decide (i < length l)%nat then <[i := r]> l else l ++ [r].

(** [append(replicas, replica)]: [grow] is the capacity of a new array of the
    given length. *)
Definition append_slice (grow : nat → nat) (heap : list Array) (s : option Slice) (r : Replica)
  : list Array * Slice :=
  let fresh data :=
    (heap ++ [{| ar_data := data ++ [r]; ar_cap := grow (S (length data)) |}],
     {| sl_arr := length heap; sl_len := S (length data) |}) in
  match s with
  | None => fresh []
  | Some s =>
      match heap !! sl_arr s with
      | None => fresh []
      | Some a =>
          if decide (sl_len s < ar_cap a)%nat
          then (<[sl_arr s := {| ar_data := write_slot (sl_len s) r (ar_data a); ar_cap := ar_cap a |}]> heap,
                {| sl_arr := sl_arr s; sl_len := S (sl_len s) |})
          else fresh (take (sl_len s) (ar_data a))
      end
  end.

(** One step of goroutine [i], if it is not done. *)
Definition step (grow : nat → nat) (st : Shared) (i : nat) : option Shared :=
  match sh_threads st !! i with
  | None => None
  | Some g =>
      let goto st pc :=
        Some (st <| sh_threads := <[i := {| go_replica := go_replica g; go_pc := pc |}]> (sh_threads st) |>) in
      match go_pc g with
      | Begin =>
          let key := getReplicaKey (rp_ChunkID (go_replica g)) (rp_NodeID (go_replica g)) in
          goto (st <| sh_health := <[key := ReplicaStatusHealthy]> (sh_health st) |>) Marked
      | Marked => goto st (Loaded (sh_cell st))
      | Loaded s =>
          let '(heap, s) := append_slice grow (sh_heap st) s (go_replica g) in
          goto (st <| sh_heap := heap |>) (Appended s)
      | Appended s => goto (st <| sh_cell := Some s |>) Stored
      | Stored => None
      end
  end.

Fixpoint steps (grow : nat → nat) (st : Shared) (schedule : list nat) : option Shared :=
  match schedule with
  | [] => Some st
  | i :: schedule => step grow st i ≫= fun st => steps grow st schedule
  end.

Definition is_stored (g : Goroutine) : bool := match go_pc g with Stored => true | _ => false end.

(** The replicas a slice shows. *)
Definition slice_view (heap : list Array) (s : option Slice) : list Replica :=
  match s with
  | None => []
  | Some s => match heap !! sl_arr s with Some a => take (sl_len s) (ar_data a) | None => [] end
  end.

(** The state in which the goroutines start; [spare] is the room left in the
    array of the chunk's list. *)
Definition shared_start (spare : nat) (rm : ReplicationManager) (chunkID : string)
  (replicas : list Replica) : Shared :=
  let old := rm_replicas rm !! chunkID in
  {| sh_heap := match old with
                | Some l => [{| ar_data := l; ar_cap := (length l + spare)%nat |}]
                | None => []
                end;
     sh_cell := match old with
                | Some l => Some {| sl_arr := 0; sl_len := length l |}
                | None => None
                end;
     sh_health := rm_replicaHealth rm;
     sh_threads := map (fun r => {| go_replica := r; go_pc := Begin |}) replicas |}.

(** [ReplicateChunk]: [schedule] is the order in which the goroutines run until
    [wg.Wait()] returns.  [None] is the panic of a negative replication factor
    or a schedule in which not every goroutine ends. *)
Definition ReplicateChunk `{Gzip} (io : option string) (now : string → Z * Z * Z) (grow : nat → nat)
  (spare : nat) (schedule : list nat) (rm : ReplicationManager) (cs : ChunkStore) (chunkID : string)
  (targetNodes : list string) : option (ReplicationManager * option string) :=
  match ReadChunk io cs chunkID with
  | Err err => Some (rm, Some ("failed to read chunk for replication: " +:+ err))
  | Ok data =>
      let replicationFactor := ReplicationFactor (rm_config rm) in
      if len targetNodes <? replicationFactor then
        Some (rm, Some ("insufficient target nodes: need " +:+ show_Z replicationFactor +:+ ", got "
                        +:+ show_Z (len targetNodes)))
      else if replicationFactor <? 0 then None
      else
        let targetNodes := take (Z.to_nat replicationFactor) targetNodes in
        let replicas := map (fun nid => new_replica (now nid) chunkID data nid) targetNodes in
        match steps grow (shared_start spare rm chunkID replicas) schedule with
        | None => None
        | Some st =>
            if forallb is_stored (sh_threads st) then
              let rm := (rm <| rm_replicaHealth := sh_health st |>)
                            <| rm_replicas := match sh_cell st with
                                              | Some s => <[chunkID := slice_view (sh_heap st) (Some s)]> (rm_replicas rm)
                                              | None => rm_replicas rm
                                              end |> in
              let successCount := len targetNodes in
              let quorum := getWriteQuorum rm in
              Some (rm, if successCount <? quorum then
                          Some ("replication failed: only " +:+ show_Z successCount +:+ "/"
                                +:+ show_Z (len targetNodes) +:+ " nodes succeeded (quorum: "
                                +:+ show_Z quorum +:+ ")")
                        else None)
            else None
        end
  end.
