(* ===== verification/ReplicationSpec.v ===== *)
(** * What replication records

    The goroutines of [ReplicateChunk] may overwrite each other's entries:
    between one and all of the replicas are recorded, though success is
    reported for all.  Run one after the other they record all. *)

From S2P Require Import Prelude GoText GoCrypto GoFiles StorageTypes ChunkStore ChunkStoreSpec Replication.

#[local] Opaque sha256_hex.

(** ** The invariant of the goroutines *)

Section Invariant.
Context (grow : nat → nat) (old news : list Replica).

(** Arrays hold the old list and then new replicas. *)
Definition array_ok (a : Array) : Prop :=
  ∃ added, ar_data a = old ++ added ∧ added ⊆ news.

(** A slice that shows the old list and at least [lo] and at most [hi] more. *)
Definition slice_ok (heap : list Array) (lo hi : nat) (s : Slice) : Prop :=
  (∃ a, heap !! sl_arr s = Some a ∧ (sl_len s ≤ length (ar_data a))%nat) ∧
  (length old + lo ≤ sl_len s ≤ length old + hi)%nat.

(** What [Load] may have answered. *)
Definition cell_ok (heap : list Array) (hi : nat) (s : option Slice) : Prop :=
  match s with Some s => slice_ok heap 0 hi s | None => old = [] end.

(** The goroutines that have stored their list. *)
Definition finished (threads : list Goroutine) : nat := length (List.filter is_stored threads).

Definition thread_ok (heap : list Array) (hi : nat) (g : Goroutine) : Prop :=
  match go_pc g with
  | Loaded s => cell_ok heap hi s
  | Appended s => slice_ok heap 1 (S hi) s
  | _ => True
  end.

Record inv (st : Shared) : Prop := {
  inv_heap : Forall array_ok (sh_heap st);
  inv_cell : cell_ok (sh_heap st) (finished (sh_threads st)) (sh_cell st);
  inv_progress : (0 < finished (sh_threads st))%nat →
    ∃ s, sh_cell st = Some s ∧ (length old < sl_len s)%nat;
  inv_threads : Forall (thread_ok (sh_heap st) (finished (sh_threads st))) (sh_threads st);
  inv_replicas : map go_replica (sh_threads st) = news
}.

(** Arrays only get longer. *)
Definition heap_le (h h' : list Array) : Prop :=
  ∀ i a, h !! i = Some a → ∃ a', h' !! i = Some a' ∧ (length (ar_data a) ≤ length (ar_data a'))%nat.

Lemma slice_ok_mono h h' lo hi hi' s :
  heap_le h h' → (hi ≤ hi')%nat → slice_ok h lo hi s → slice_ok h' lo hi' s.
Proof.
  intros Hh Hle [(a & Ha & Hl) Hb]. destruct (Hh _ _ Ha) as (a' & Ha' & Hl').
  split; [exists a'; split; [done|lia]|lia].
Qed.

Lemma cell_ok_mono h h' hi hi' s : heap_le h h' → (hi ≤ hi')%nat → cell_ok h hi s → cell_ok h' hi' s.
Proof. destruct s; simpl; [|done]. apply slice_ok_mono. Qed.

Lemma thread_ok_mono h h' hi hi' g : heap_le h h' → (hi ≤ hi')%nat → thread_ok h hi g → thread_ok h' hi' g.
Proof.
  intros Hh Hle. unfold thread_ok. destruct (go_pc g); try done.
  - by apply cell_ok_mono.
  - apply slice_ok_mono; [done|lia].
Qed.

Lemma write_slot_length i r l : (length l ≤ length (write_slot i r l))%nat.
Proof. unfold write_slot. case_decide; [by rewrite length_insert|]. rewrite length_app. simpl. lia. Qed.

Lemma write_slot_covers i r l : (i ≤ length l)%nat → (S i ≤ length (write_slot i r l))%nat.
Proof. unfold write_slot. case_decide; [rewrite length_insert; lia|]. rewrite length_app. simpl. lia. Qed.

Lemma write_slot_ok i r a :
  array_ok a → r ∈ news → (length old ≤ i)%nat → (i ≤ length (ar_data a))%nat →
  ∃ added, write_slot i r (ar_data a) = old ++ added ∧ added ⊆ news.
Proof.
  intros (added & -> & Hsub) Hr Hlo Hhi. unfold write_slot. case_decide.
  - rewrite insert_app_r_alt by done. eexists. split; [done|].
    intros x [j Hj]%list_elem_of_lookup. destruct (decide (j = i - length old)%nat) as [->|Hne].
    + rewrite list_lookup_insert_eq in Hj by (rewrite length_app in *; lia). by simplify_eq.
    + rewrite list_lookup_insert_ne in Hj by done. apply Hsub. by eapply list_elem_of_lookup_2.
  - rewrite <-app_assoc. eexists. split; [done|]. set_solver.
Qed.

(** [append] keeps the arrays in order and shows one replica more. *)
Lemma append_slice_ok h hi s r :
  Forall array_ok h → cell_ok h hi s → r ∈ news →
  let '(h', s') := append_slice grow h s r in
  Forall array_ok h' ∧ heap_le h h' ∧ slice_ok h' 1 (S hi) s'.
Proof.
  intros Hh Hs Hr.
  assert (∀ data, (∃ added, data = old ++ added ∧ added ⊆ news ∧ (length added ≤ hi)%nat) →
    let a := {| ar_data := data ++ [r]; ar_cap := grow (S (length data)) |} in
    Forall array_ok (h ++ [a]) ∧ heap_le h (h ++ [a]) ∧
    slice_ok (h ++ [a]) 1 (S hi) {| sl_arr := length h; sl_len := S (length data) |}) as Hfresh.
  { intros data (added & -> & Hsub & Hlen). split_and!.
    - apply Forall_app. split; [done|]. apply Forall_singleton. exists (added ++ [r]).
      simpl. rewrite <-app_assoc. split; [done|]. set_solver.
    - intros i a Ha. exists a. split; [|lia]. by apply lookup_app_l_Some.
    - split; simpl.
      + eexists. rewrite lookup_app_r, Nat.sub_diag by lia. split; [done|]. simpl.
        rewrite !length_app. simpl. lia.
      + rewrite length_app. lia. }
  unfold append_slice. destruct s as [s|]; simpl in Hs.
  - destruct Hs as [(a & Ha & Hl) Hb]. rewrite Ha.
    pose proof (proj1 (Forall_lookup _ _) Hh _ _ Ha) as Hok. case_decide.
    + split_and!.
      * apply Forall_insert; [done|]. by apply write_slot_ok; [|done|lia|].
      * intros i a0 Ha0. destruct (decide (sl_arr s = i)) as [<-|Hne].
        -- eexists. rewrite list_lookup_insert_eq by (by eapply lookup_lt_Some). split; [done|]. simpl.
           simplify_eq. apply write_slot_length.
        -- exists a0. by rewrite list_lookup_insert_ne.
      * split; simpl; [|lia]. eexists. rewrite list_lookup_insert_eq by (by eapply lookup_lt_Some).
        split; [done|]. by apply write_slot_covers.
    + destruct Hok as (added & Hdata & Hsub).
      assert (length (take (sl_len s) (ar_data a)) = sl_len s) as Hlt by (rewrite length_take; lia).
      pose proof (Hfresh (take (sl_len s) (ar_data a))) as Hf. rewrite Hlt in Hf |- *. apply Hf.
      exists (take (sl_len s - length old) added). rewrite Hdata, take_app_ge by lia.
      split_and!; [done| |rewrite length_take; lia].
      intros x (i & Hi & _)%elem_of_take. apply Hsub. by eapply list_elem_of_lookup_2.
  - apply (Hfresh []). exists []. rewrite Hs. split_and!; [done|set_solver|simpl; lia].
Qed.

(** Replacing the counter of a goroutine. *)
Lemma finished_goto threads i g pc :
  threads !! i = Some g → is_stored g = false →
  finished (<[i := {| go_replica := go_replica g; go_pc := pc |}]> threads) =
    (finished threads + if is_stored {| go_replica := go_replica g; go_pc := pc |} then 1 else 0)%nat.
Proof.
  unfold finished. revert i. induction threads as [|g' threads IH]; intros i Hi Hg; [done|].
  destruct i as [|i]; simpl in Hi; simplify_eq.
  - cbn [insert list_insert List.filter]. rewrite Hg. destruct (is_stored {| go_replica := go_replica g; go_pc := pc |}); simpl; lia.
  - specialize (IH i Hi Hg).
    change (<[S i := {| go_replica := go_replica g; go_pc := pc |}]> (g' :: threads))
      with (g' :: <[i := {| go_replica := go_replica g; go_pc := pc |}]> threads).
    cbn [List.filter]. destruct (is_stored g'); cbn [length]; rewrite IH; done.
Qed.

Lemma replicas_goto threads i g pc :
  threads !! i = Some g →
  map go_replica (<[i := {| go_replica := go_replica g; go_pc := pc |}]> threads) = map go_replica threads.
Proof.
  intros Hi. change (go_replica <$> <[i := {| go_replica := go_replica g; go_pc := pc |}]> threads =
    go_replica <$> threads).
  rewrite list_fmap_insert. simpl. apply list_insert_id. by rewrite list_lookup_fmap, Hi.
Qed.

(** A goroutine moves on to [pc] over a heap that grew. *)
Lemma inv_goto st heap cell i g pc :
  inv st → sh_threads st !! i = Some g → is_stored g = false →
  Forall array_ok heap → heap_le (sh_heap st) heap →
  let threads := <[i := {| go_replica := go_replica g; go_pc := pc |}]> (sh_threads st) in
  thread_ok heap (finished threads) {| go_replica := go_replica g; go_pc := pc |} →
  (cell = sh_cell st ∧ finished threads = finished (sh_threads st) ∨
   ∃ s, cell = Some s ∧ slice_ok heap 1 (finished threads) s) →
  ∀ health, inv {| sh_heap := heap; sh_cell := cell; sh_health := health; sh_threads := threads |}.
Proof.
  intros [Hheap Hcell Hprog Hthr Hrep] Hi Hg Hh Hle threads Hok Hc health.
  assert (finished (sh_threads st) ≤ finished threads)%nat as Hf by (subst threads; rewrite finished_goto; [lia|done..]).
  split; simpl; [done| | | |].
  - destruct Hc as [[-> Heq]|(s & -> & Hs)].
    + eapply cell_ok_mono; [done| |done]. lia.
    + simpl. destruct Hs as [? Hb]. split; [done|lia].
  - intros Hpos. destruct Hc as [[-> Heq]|(s & -> & _ & Hb)]; [apply Hprog; by rewrite <-Heq|].
    exists s. split; [done|lia].
  - apply Forall_insert; [|done]. eapply Forall_impl; [done|]. intros g' Hg'. by eapply thread_ok_mono.
  - rewrite <-Hrep. by apply replicas_goto.
Qed.

Lemma heap_le_refl h : heap_le h h.
Proof. intros i a Ha. by exists a. Qed.

Lemma step_inv st i st' : inv st → step grow st i = Some st' → inv st'.
Proof.
  intros Hinv Hstep. unfold step in Hstep. destruct (sh_threads st !! i) as [g|] eqn:Hi; [|done].
  pose proof Hinv as [Hheap Hcell _ Hthr Hrep]. pose proof (proj1 (Forall_lookup _ _) Hthr _ _ Hi) as Hg.
  unfold thread_ok in Hg. destruct (go_pc g) as [| |s|s|] eqn:Hpc; [| | | |done].
  all: assert (is_stored g = false) as Hns by (unfold is_stored; by rewrite Hpc).
  all: assert (∀ pc, is_stored {| go_replica := go_replica g; go_pc := pc |} = false →
    finished (<[i := {| go_replica := go_replica g; go_pc := pc |}]> (sh_threads st)) =
    finished (sh_threads st)) as Hsame by (intros pc Hf; rewrite finished_goto, Hf by done; lia).
  - injection Hstep as <-. apply (inv_goto st _ _ i g Marked Hinv Hi Hns Hheap (heap_le_refl _)); [done|auto].
  - injection Hstep as <-. apply (inv_goto st _ _ i g _ Hinv Hi Hns Hheap (heap_le_refl _)); [|auto].
    rewrite Hsame by done. done.
  - assert (go_replica g ∈ news) as Hr.
    { rewrite <-Hrep. apply list_elem_of_fmap. exists g. split; [done|]. by eapply list_elem_of_lookup_2. }
    pose proof (append_slice_ok _ _ s _ Hheap Hg Hr) as Ha.
    destruct (append_slice grow (sh_heap st) s (go_replica g)) as [h' s']. destruct Ha as (Hh' & Hle & Hs').
    injection Hstep as <-. apply (inv_goto st _ _ i g _ Hinv Hi Hns Hh' Hle); [|auto].
    rewrite Hsame by done. done.
  - injection Hstep as <-. apply (inv_goto st _ _ i g Stored Hinv Hi Hns Hheap (heap_le_refl _)); [done|].
    right. exists s. split; [done|]. rewrite finished_goto by done. simpl. destruct Hg as [? ?]. split; [done|lia].
Qed.

Lemma steps_inv st schedule st' : inv st → steps grow st schedule = Some st' → inv st'.
Proof.
  revert st. induction schedule as [|i schedule IH]; intros st Hinv Hs; simpl in Hs; [by simplify_eq|].
  destruct (step grow st i) as [st1|] eqn:H1; [|done]. simpl in Hs. eapply IH; [|done]. by eapply step_inv.
Qed.

(** When all have stored, the list shows the old replicas and between one and
    all of the new ones. *)
Lemma inv_end st :
  inv st → forallb is_stored (sh_threads st) = true → news ≠ [] →
  ∃ added, slice_view (sh_heap st) (sh_cell st) = old ++ added ∧ added ⊆ news ∧
    (1 ≤ length added ≤ length news)%nat ∧ is_Some (sh_cell st).
Proof.
  intros [Hheap Hcell Hprog _ Hrep] Hall Hne.
  assert (finished (sh_threads st) = length news) as Hf.
  { unfold finished. rewrite filter_all by (by apply forallb_forall'). by rewrite <-Hrep, length_map. }
  destruct Hprog as (s & Hs & Hlt); [rewrite Hf; destruct news; [done|simpl; lia]|].
  rewrite Hs in *. simpl in *. destruct Hcell as [(a & Ha & Hl) Hb]. rewrite Ha.
  pose proof (proj1 (Forall_lookup _ _) Hheap _ _ Ha) as (added & Hd & Hsub).
  exists (take (sl_len s - length old) added). rewrite Hd in *. rewrite take_app_ge by lia.
  rewrite length_app in Hl. split_and!; [done| | | |done]; rewrite ?length_take; [|lia..].
  intros x (j & Hj & _)%elem_of_take. apply Hsub. by eapply list_elem_of_lookup_2.
Qed.

End Invariant.

(** ** Every schedule *)

Lemma start_inv spare rm chunkID replicas :
  inv (GetReplicas rm chunkID) replicas (shared_start spare rm chunkID replicas).
Proof.
  assert (finished (map (fun r => {| go_replica := r; go_pc := Begin |}) replicas) = 0%nat) as Hf.
  { unfold finished. by induction replicas. }
  unfold GetReplicas. split; simpl; rewrite ?Hf.
  - destruct (rm_replicas rm !! chunkID) as [l|]; [|done]. apply Forall_singleton. exists [].
    simpl. rewrite app_nil_r. split; [done|set_solver].
  - destruct (rm_replicas rm !! chunkID) as [l|]; [|done]. split; simpl; [|lia]. by eexists.
  - lia.
  - apply Forall_forall. intros g (r & -> & _)%list_elem_of_fmap. done.
  - rewrite map_map. apply map_id.
Qed.

Lemma quorum_reached rm : 0 < ReplicationFactor (rm_config rm) < 2 ^ 63 →
  getWriteQuorum rm ≤ ReplicationFactor (rm_config rm).
Proof.
  intros HR. unfold getWriteQuorum. destruct (negb _); [lia|]. set (R := ReplicationFactor _) in *.
  rewrite Z.quot_div_nonneg by lia.
  pose proof (Z.div_mod R 2). pose proof (Z.mod_pos_bound R 2). rewrite int64_id by (unfold in_int64; lia). lia.
Qed.

(** However the goroutines interleave, [ReplicateChunk] reports success and
    records for the chunk at least one and at most all of the replicas of its
    targets after those recorded before; other chunks keep theirs. *)
Theorem replicas_recorded `{Gzip} io now grow spare schedule rm cs chunkID targetNodes data rm' err :
  ReadChunk io cs chunkID = Ok data →
  0 < ReplicationFactor (rm_config rm) < 2 ^ 63 → ReplicationFactor (rm_config rm) ≤ len targetNodes →
  ReplicateChunk io now grow spare schedule rm cs chunkID targetNodes = Some (rm', err) →
  err = None ∧
  (∃ added, GetReplicas rm' chunkID = GetReplicas rm chunkID ++ added ∧
     1 ≤ len added ≤ ReplicationFactor (rm_config rm) ∧
     ∀ r, r ∈ added → ∃ nid, nid ∈ targetNodes ∧ r = new_replica (now nid) chunkID data nid) ∧
  (∀ other, other ≠ chunkID → GetReplicas rm' other = GetReplicas rm other).
Proof.
  intros Hread HR Hlen. unfold ReplicateChunk. rewrite Hread, (proj2 (Z.ltb_ge _ _)) by done.
  rewrite (proj2 (Z.ltb_ge _ 0)) by lia. set (R := ReplicationFactor (rm_config rm)) in *.
  set (targets := take (Z.to_nat R) targetNodes). set (news := map _ targets).
  destruct (steps grow _ schedule) as [st|] eqn:Hst; [|done].
  destruct (forallb is_stored (sh_threads st)) eqn:Hall; [|done]. intros [= <- <-].
  assert (len targets = R) as Hl by (unfold targets, len in *; rewrite length_take; lia).
  destruct (inv_end (GetReplicas rm chunkID) news st) as (added & Hview & Hsub & Hb & [s Hs]).
  - eapply steps_inv; [|done]. apply start_inv.
  - done.
  - intros Hnil. apply (f_equal length) in Hnil. unfold news in Hnil. rewrite length_map in Hnil.
    unfold len in Hl. simpl in Hnil. lia.
  - rewrite Hs in *. split_and!.
    + rewrite Hl, (proj2 (Z.ltb_ge _ _)); [done|]. unfold getWriteQuorum. simpl. by apply (quorum_reached rm).
    + exists added. unfold GetReplicas at 1. simpl. rewrite lookup_insert_eq. split_and!; [done|unfold len; lia| |].
      * unfold news in Hb. rewrite length_map in Hb. unfold len in *. lia.
      * intros r Hr. apply Hsub in Hr. apply list_elem_of_fmap in Hr as (nid & -> & Hin).
        exists nid. split; [|done]. apply elem_of_take in Hin as (j & Hj & _). by eapply list_elem_of_lookup_2.
    + intros other Hne. unfold GetReplicas. simpl. by rewrite lookup_insert_ne.
Qed.

(** ** One goroutine after the other *)

Definition cell_wf (st : Shared) : Prop :=
  match sh_cell st with
  | None => True
  | Some s => ∃ a, sh_heap st !! sl_arr s = Some a ∧ (sl_len s ≤ length (ar_data a))%nat
  end.

(** The replicas recorded in the shared state. *)
Definition recorded (st : Shared) : list Replica := slice_view (sh_heap st) (sh_cell st).

Lemma take_write_slot i r l : (i ≤ length l)%nat → take (S i) (write_slot i r l) = take i l ++ [r].
Proof.
  intros Hi. unfold write_slot. case_decide.
  - rewrite (take_S_r _ _ r) by (by apply list_lookup_insert_eq). by rewrite take_insert_ge by lia.
  - assert (i = length l) as -> by lia. rewrite take_ge, take_ge; [done|lia|]. rewrite length_app. simpl. lia.
Qed.

Lemma append_view grow heap cell r :
  match cell with
  | None => True
  | Some s => ∃ a, heap !! sl_arr s = Some a ∧ (sl_len s ≤ length (ar_data a))%nat
  end →
  let '(heap', s) := append_slice grow heap cell r in
  (∃ a, heap' !! sl_arr s = Some a ∧ (sl_len s ≤ length (ar_data a))%nat) ∧
  slice_view heap' (Some s) = slice_view heap cell ++ [r].
Proof.
  assert (∀ data c, let h := heap ++ [{| ar_data := data ++ [r]; ar_cap := c |}] in
    (∃ a, h !! length heap = Some a ∧ (S (length data) ≤ length (ar_data a))%nat) ∧
    slice_view h (Some {| sl_arr := length heap; sl_len := S (length data) |}) = data ++ [r]) as Hfresh.
  { intros data c. simpl. rewrite lookup_app_r, Nat.sub_diag by lia. simpl.
    split; [eexists; split; [done|simpl; rewrite length_app; simpl; lia]|].
    rewrite take_ge; [done|rewrite length_app; simpl; lia]. }
  unfold append_slice. destruct cell as [s|]; [|intros _; apply Hfresh].
  intros (a & Ha & Hl). simpl. rewrite Ha. case_decide.
  - simpl. rewrite list_lookup_insert_eq by (by eapply lookup_lt_Some). simpl. split.
    + eexists. split; [done|]. by apply write_slot_covers.
    + by apply take_write_slot.
  - pose proof (Hfresh (take (sl_len s) (ar_data a)) (grow (S (length (take (sl_len s) (ar_data a)))))) as Hf.
    exact Hf.
Qed.

(** The four steps of a goroutine that runs alone. *)
Lemma turn_alone grow st i r :
  sh_threads st !! i = Some {| go_replica := r; go_pc := Begin |} → cell_wf st →
  ∃ st', steps grow st [i; i; i; i] = Some st' ∧ cell_wf st' ∧ recorded st' = recorded st ++ [r] ∧
    is_Some (sh_cell st') ∧
    sh_health st' = <[getReplicaKey (rp_ChunkID r) (rp_NodeID r) := ReplicaStatusHealthy]> (sh_health st) ∧
    sh_threads st' = <[i := {| go_replica := r; go_pc := Stored |}]> (sh_threads st).
Proof.
  intros Hi Hwf. assert (i < length (sh_threads st))%nat as Hlt by (by eapply lookup_lt_Some).
  pose proof (append_view grow (sh_heap st) (sh_cell st) r Hwf) as Ha.
  destruct st as [heap cell health threads]. cbn [sh_heap sh_cell sh_health sh_threads] in *.
  assert (∀ h c e pc, step grow {| sh_heap := h; sh_cell := c; sh_health := e;
      sh_threads := <[i := {| go_replica := r; go_pc := pc |}]> threads |} i =
    let to h c e pc := Some {| sh_heap := h; sh_cell := c; sh_health := e;
      sh_threads := <[i := {| go_replica := r; go_pc := pc |}]> threads |} in
    match pc with
    | Begin => to h c (<[getReplicaKey (rp_ChunkID r) (rp_NodeID r) := ReplicaStatusHealthy]> e) Marked
    | Marked => to h c e (Loaded c)
    | Loaded s => let '(h', s') := append_slice grow h s r in to h' c e (Appended s')
    | Appended s => to h (Some s) e Stored
    | Stored => None
    end) as Hstep.
  { intros h c e pc. unfold step. cbn [sh_threads]. rewrite list_lookup_insert_eq by done.
    cbn [go_pc go_replica sh_heap]. destruct pc; try destruct (append_slice grow h s r);
      unfold with_field; cbn [sh_heap sh_cell sh_health sh_threads]; rewrite ?list_insert_insert_eq; reflexivity. }
  replace {| sh_heap := heap; sh_cell := cell; sh_health := health; sh_threads := threads |} with
    {| sh_heap := heap; sh_cell := cell; sh_health := health;
       sh_threads := <[i := {| go_replica := r; go_pc := Begin |}]> threads |}
    by (by rewrite (list_insert_id threads i _ Hi)).
  cbn [steps]. rewrite Hstep. cbn [mbind option_bind]. rewrite Hstep. cbn [mbind option_bind]. rewrite Hstep.
  destruct (append_slice grow heap cell r) as [h' s']. destruct Ha as [Ha Hv].
  cbn [mbind option_bind]. rewrite Hstep. eexists. split; [done|]. by split_and!.
Qed.

Definition one_by_one (i n : nat) : list nat := flat_map (fun i => [i; i; i; i]) (seq i n).

Definition mark_all (health : gmap string string) (rs : list Replica) : gmap string string :=
  fold_left (fun h r => <[getReplicaKey (rp_ChunkID r) (rp_NodeID r) := ReplicaStatusHealthy]> h) rs health.

Lemma steps_app grow st a b : steps grow st (a ++ b) = steps grow st a ≫= fun st => steps grow st b.
Proof.
  revert st. induction a as [|i a IH]; intros st; [done|]. cbn [steps app].
  destruct (step grow st i) as [st'|]; cbn [mbind option_bind]; [apply IH|done].
Qed.

Lemma run_one_by_one grow rs st past :
  sh_threads st = past ++ map (fun r => {| go_replica := r; go_pc := Begin |}) rs → cell_wf st →
  ∃ st', steps grow st (one_by_one (length past) (length rs)) = Some st' ∧
    recorded st' = recorded st ++ rs ∧ sh_health st' = mark_all (sh_health st) rs ∧
    sh_threads st' = past ++ map (fun r => {| go_replica := r; go_pc := Stored |}) rs ∧
    (rs ≠ [] → is_Some (sh_cell st')).
Proof.
  revert st past. induction rs as [|r rs IH]; intros st past Ht Hwf.
  { exists st. rewrite app_nil_r. by split_and!. }
  destruct (turn_alone grow st (length past) r) as (st1 & H1 & Hwf1 & Hrec1 & Hs1 & Hh1 & Ht1); [|done|].
  { rewrite Ht, lookup_app_r, Nat.sub_diag by lia. done. }
  destruct (IH st1 (past ++ [{| go_replica := r; go_pc := Stored |}])) as (st2 & H2 & Hrec2 & Hh2 & Ht2 & Hs2);
    [|done|].
  { rewrite Ht1, Ht, insert_app_r_alt, Nat.sub_diag by lia. simpl. by rewrite <-app_assoc. }
  exists st2. rewrite length_app, Nat.add_1_r in H2. unfold one_by_one in *. cbn [length seq flat_map].
  rewrite steps_app, H1. cbn [mbind option_bind]. rewrite H2. split_and!; [done|..].
  - by rewrite Hrec2, Hrec1, <-app_assoc.
  - by rewrite Hh2, Hh1.
  - by rewrite Ht2, <-app_assoc.
  - intros _. destruct rs; [by simplify_eq/=|by apply Hs2].
Qed.

(** [replicateToNode] on one target after the other. *)
Definition replicate_all (now : string → Z * Z * Z) (rm : ReplicationManager) (chunkID data : string)
  (targets : list string) : ReplicationManager :=
  fold_left (fun rm nid => replicateToNode (now nid) rm chunkID data nid) targets rm.

Lemma replicate_all_spec now rm chunkID data targets :
  let news := map (fun nid => new_replica (now nid) chunkID data nid) targets in
  replicate_all now rm chunkID data targets =
    {| rm_config := rm_config rm;
       rm_replicas := match targets with
                      | [] => rm_replicas rm
                      | _ => <[chunkID := GetReplicas rm chunkID ++ news]> (rm_replicas rm)
                      end;
       rm_replicaHealth := mark_all (rm_replicaHealth rm) news |}.
Proof.
  unfold replicate_all. revert rm. induction targets as [|nid targets IH]; intros rm; simpl; [by destruct rm|].
  rewrite IH. unfold replicateToNode, GetReplicas. simpl. rewrite lookup_insert_eq. simpl.
  destruct targets; simpl; f_equal. by rewrite insert_insert_eq, <-app_assoc.
Qed.

(** When the goroutines run one after the other, every replica is recorded. *)
Theorem sequential_replication `{Gzip} io now grow spare rm cs chunkID targetNodes data :
  ReadChunk io cs chunkID = Ok data →
  0 < ReplicationFactor (rm_config rm) < 2 ^ 63 → ReplicationFactor (rm_config rm) ≤ len targetNodes →
  ReplicateChunk io now grow spare (one_by_one 0 (Z.to_nat (ReplicationFactor (rm_config rm)))) rm cs chunkID
    targetNodes =
  Some (replicate_all now rm chunkID data (take (Z.to_nat (ReplicationFactor (rm_config rm))) targetNodes), None).
Proof.
  intros Hread HR Hlen. unfold ReplicateChunk. rewrite Hread, (proj2 (Z.ltb_ge _ _)) by done.
  rewrite (proj2 (Z.ltb_ge _ 0)) by lia. set (R := ReplicationFactor (rm_config rm)) in *.
  set (targets := take (Z.to_nat R) targetNodes). set (news := map _ targets).
  assert (length targets = Z.to_nat R) as Hl by (unfold targets, len in *; rewrite length_take; lia).
  assert (length news = Z.to_nat R) as Hn by (unfold news; by rewrite length_map).
  destruct (run_one_by_one grow news (shared_start spare rm chunkID news) []) as (st & Hst & Hrec & Hh & Ht & Hs).
  { done. }
  { unfold cell_wf, shared_start. simpl. destruct (rm_replicas rm !! chunkID); [|done]. by eexists. }
  rewrite Hn in Hst. simpl in Hst. rewrite Hst.
  replace (forallb is_stored (sh_threads st)) with true.
  2:{ rewrite Ht. clear. simpl. induction news; simpl; auto. }
  destruct Hs as [s Hs]; [by intros Heq; rewrite Heq in Hn; simpl in Hn; lia|].
  unfold recorded in Hrec. rewrite Hs in *. rewrite Hrec, Hh.
  assert (slice_view (sh_heap (shared_start spare rm chunkID news)) (sh_cell (shared_start spare rm chunkID news))
    = GetReplicas rm chunkID) as Hold.
  { unfold shared_start, GetReplicas. simpl. destruct (rm_replicas rm !! chunkID) as [l|]; simpl; [|done].
    by rewrite take_ge. }
  rewrite Hold, replicate_all_spec. fold news. f_equal. f_equal.
  - simpl. unfold with_field. simpl. f_equal. destruct targets; [simpl in Hl; lia|done].
  - unfold len. rewrite Hl, Z2Nat.id by lia. unfold getWriteQuorum. simpl.
    rewrite (proj2 (Z.ltb_ge _ _)); [done|]. by apply (quorum_reached rm).
Qed.

(** ** Repair *)

Section Repair.
Context `{Gzip}.

(** Repeated read repairs that find the chunk readable. *)
Fixpoint read_repairs (n : nat) (now : Z * Z * Z) (rm : ReplicationManager) (cs : ChunkStore)
  (chunkID : string) : ReplicationManager :=
  match n with
  | O => rm
  | S n => read_repairs n now (ReadRepair None now rm cs chunkID).1 cs chunkID
  end.

Lemma repair_all now rm chunkID data l :
  l ≠ [] →
  let rm' := fold_left (fun rm r => replicateToNode now rm chunkID data (rp_NodeID r)) l rm in
  rm_config rm' = rm_config rm ∧
  GetReplicas rm' chunkID =
    GetReplicas rm chunkID ++ map (fun r => new_replica now chunkID data (rp_NodeID r)) l.
Proof.
  intros Hne. simpl.
  replace (fold_left _ l rm) with (replicate_all (fun _ => now) rm chunkID data (map rp_NodeID l)).
  - rewrite replicate_all_spec. split; [done|]. unfold GetReplicas at 1. simpl. rewrite map_map.
    destruct l; [done|]. simpl. by rewrite lookup_insert_eq.
  - unfold replicate_all. clear. revert rm. induction l as [|r l IH]; intros rm; simpl; auto.
Qed.

Lemma ReadRepair_result now rm cs chunkID data :
  EnableReadRepair (rm_config rm) = true → ReadChunk None cs chunkID = Ok data →
  let rm' := (ReadRepair None now rm cs chunkID).1 in
  rm_config rm' = rm_config rm ∧
  GetReplicas rm' chunkID = GetReplicas rm chunkID ++
    map (fun r => new_replica now chunkID data (rp_NodeID r)) (List.filter is_stale (GetReplicas rm chunkID)).
Proof.
  intros He Hread. unfold ReadRepair. rewrite He. simpl.
  destruct (List.filter is_stale _) as [|r l]; [by rewrite app_nil_r|]. rewrite Hread. simpl fst.
  apply (repair_all now rm chunkID data (r :: l)). done.
Qed.

(** Read repair does not change the stale replicas it repairs: after any number
    of repairs they are still stale, and each repair has recorded one more
    replica for each of them. *)
Theorem read_repair_piles_up now rm cs chunkID data n :
  EnableReadRepair (rm_config rm) = true → ReadChunk None cs chunkID = Ok data →
  let stale := List.filter is_stale (GetReplicas rm chunkID) in
  let rm' := read_repairs n now rm cs chunkID in
  List.filter is_stale (GetReplicas rm' chunkID) = stale ∧
  len (GetHealthyReplicas rm' chunkID) = len (GetHealthyReplicas rm chunkID) + Z.of_nat n * len stale.
Proof.
  intros He Hread. revert rm He. induction n as [|n IH]; intros rm He; cbn [read_repairs]; [split; [done|lia]|].
  destruct (ReadRepair_result now rm cs chunkID data He Hread) as [Hc Hg].
  set (stale := List.filter is_stale (GetReplicas rm chunkID)) in *.
  set (rm1 := (ReadRepair None now rm cs chunkID).1) in *.
  assert (∀ l : list Replica,
    List.filter is_stale (map (fun r => new_replica now chunkID data (rp_NodeID r)) l) = [] ∧
    List.filter is_healthy (map (fun r => new_replica now chunkID data (rp_NodeID r)) l) =
      map (fun r => new_replica now chunkID data (rp_NodeID r)) l) as Hnew.
  { intros l. induction l as [|r l [IH1 IH2]]; simpl; [done|]. by rewrite IH1, IH2. }
  assert (List.filter is_stale (GetReplicas rm1 chunkID) = stale) as Hst.
  { rewrite Hg, List.filter_app, (proj1 (Hnew _)), app_nil_r. done. }
  destruct (IH rm1) as [IH1 IH2]; [by rewrite Hc|]. rewrite Hst in *. split; [done|]. rewrite IH2.
  unfold GetHealthyReplicas. rewrite Hg, List.filter_app, (proj2 (Hnew _)). unfold len.
  rewrite length_app, length_map. lia.
Qed.

End Repair.

(** ** Concrete runs *)

Module ReplicationRuns.

#[local] Existing Instance ChunkRuns.toy_gzip.

Definition id : string := sha256_hex "abc".
Definition chunks : ChunkStore := (WriteChunk (write_ok 1) (ChunkRuns.start false) "abc").1.
Definition manager : ReplicationManager := NewReplicationManager (ChunkRuns.config false).
Definition clock (nid : string) : Z * Z * Z := (0, 0, 0).
Definition targets : list string := ["n1"; "n2"; "n3"]%string.

(** All goroutines load the list before any of them stores it. *)
Definition racing : list nat := [0; 1; 2; 0; 1; 2; 0; 1; 2; 0; 1; 2]%nat.

Lemma chunk_readable : ReadChunk None chunks id = Ok "abc"%string.
Proof. vm_compute. reflexivity. Qed.

Definition raced : option (ReplicationManager * option string) :=
  ReplicateChunk None clock (fun n => n) 0 racing manager chunks id targets.

(** Success is reported for three nodes and one is recorded. *)
Example lost_replicas :
  option_map (fun x => (map rp_NodeID (GetReplicas x.1 id), x.2, CheckReplicationHealth x.1 id)) raced =
  Some (["n3"%string], None, (false, 1)).
Proof. vm_compute. reflexivity. Qed.

Lemma replicas_recorded_witness :
  ∃ rm, raced = Some (rm, None) ∧ ∃ added, GetReplicas rm id = added ∧ 1 ≤ len added ≤ 3.
Proof.
  pose proof lost_replicas as Hl. destruct raced as [[rm err]|] eqn:Hr; [|discriminate Hl].
  destruct (replicas_recorded None clock (fun n => n) 0 racing manager chunks id targets "abc" rm err)
    as (-> & (added & Hadd & Hb & _) & _).
  - exact chunk_readable.
  - split; reflexivity.
  - vm_compute. discriminate.
  - exact Hr.
  - exists rm. split; [reflexivity|]. exists added. split; [exact Hadd|exact Hb].
Defined.

Lemma sequential_replication_witness :
  option_map snd (ReplicateChunk None clock (fun n => n) 0 (one_by_one 0 3) manager chunks id targets) = Some None.
Proof.
  rewrite (sequential_replication None clock (fun n => n) 0 manager chunks id targets "abc").
  - reflexivity.
  - exact chunk_readable.
  - split; reflexivity.
  - vm_compute. discriminate.
Defined.

(** A node with a stale replica, repaired twice. *)
Definition stale_manager : ReplicationManager :=
  UpdateReplicaHealth 5 (replicateToNode (0, 0, 0) manager id "abc" "n1") id "n1" ReplicaStatusStale.

Lemma read_repair_piles_up_witness :
  len (GetHealthyReplicas (read_repairs 3 (9, 9, 9) stale_manager chunks id) id) = 3.
Proof.
  destruct (read_repair_piles_up (9, 9, 9) stale_manager chunks id "abc" 3) as [_ Hlen].
  - reflexivity.
  - exact chunk_readable.
  - rewrite Hlen. vm_compute. reflexivity.
Defined.

(** Three repairs of the replica on one node make the chunk count as fully
    replicated. *)
Example replicated_on_one_node :
  let rm := read_repairs 3 (9, 9, 9) stale_manager chunks id in
  CheckReplicationHealth rm id = (true, 3) ∧
  Forall (fun r => rp_NodeID r = "n1"%string) (GetReplicas rm id).
Proof. vm_compute. split; [reflexivity|]. repeat constructor. Qed.

End ReplicationRuns.
