(* ===== verification/Volumes.v ===== *)
(** * Node-local volumes (pkg/storage/volume.go)

    A volume is a directory of the node with an owner, the workload that
    created it.  The manager holds the volumes and, here, the files and
    directories they live in.  Its operations run under a lock of the volume
    and are modelled one at a time.  Failures of the operating system, the
    clock and modification times are arguments. *)

From S2P Require Import Prelude GoText GoFiles StorageTypes.

Local Open Scope string_scope.
Local Open Scope Z_scope.

Definition VolumeStateCreated : string := "created".
Definition VolumeStateMounted : string := "mounted".

Record Volume := {
  vo_ID : string;
  vo_Name : string;
  vo_WorkloadID : string;
  vo_NodeID : string;
  vo_Path : Path;
  vo_SizeBytes : Z;
  vo_UsedBytes : Z;
  vo_MountPoint : string;
  vo_MountPath : Path;
  vo_ReadOnly : bool;
  vo_StorageClass : string;
  vo_IOPSClass : string;
  vo_State : string;
  vo_CreatedAt : Z;
  vo_MountedAt : Z;
  vo_LastUsed : Z;
  vo_Labels : gmap string string;
  vo_Annotations : gmap string string
}.

#[export] Instance eta_Volume : Eta Volume := fun x =>
  Build_Volume (vo_ID x) (vo_Name x) (vo_WorkloadID x) (vo_NodeID x) (vo_Path x) (vo_SizeBytes x)
    (vo_UsedBytes x) (vo_MountPoint x) (vo_MountPath x) (vo_ReadOnly x) (vo_StorageClass x)
    (vo_IOPSClass x) (vo_State x) (vo_CreatedAt x) (vo_MountedAt x) (vo_LastUsed x) (vo_Labels x)
    (vo_Annotations x).

Record CreateVolumeRequest := {
  cv_VolumeID : string;
  cv_Name : string;
  cv_WorkloadID : string;
  cv_SizeBytes : Z;
  cv_IOPSClass : string;
  cv_Labels : gmap string string;
  cv_Annotations : gmap string string
}.

Record VolumeSnapshot := {
  vs_ID : string;
  vs_VolumeID : string;
  vs_SizeBytes : Z;
  vs_Path : Path;
  vs_CreatedAt : Z;
  vs_WorkloadID : string
}.

Record VolumeStats := {
  vt_NodeID : string;
  vt_TotalVolumes : Z;
  vt_MountedVolumes : Z;
  vt_TotalAllocatedBytes : Z;
  vt_TotalUsedBytes : Z;
  vt_HighIOPSVolumes : Z;
  vt_MediumIOPSVolumes : Z;
  vt_LowIOPSVolumes : Z;
  vt_LastUpdated : Z
}.

(** The errors of the operations: those of [validateWorkloadAccess], which
    callers tell apart, and the others by their text. *)
Inductive VolumeError :=
| AccessDenied (volumeID callerID ownerID : string)
| VolumeFailed (text : string).

(** ** State *)

Record VolumeManager := {
  vm_config : StorageConfig;
  vm_baseDir : Path;
  vm_nodeID : string;
  vm_volumes : gmap string Volume;
  vm_files : Files;
  vm_dirs : gset Path
}.

#[export] Instance eta_VolumeManager : Eta VolumeManager := fun x =>
  Build_VolumeManager (vm_config x) (vm_baseDir x) (vm_nodeID x) (vm_volumes x) (vm_files x) (vm_dirs x).

(** The path is the directory or lies in it. *)
Definition within (dir p : Path) : bool :=
  bool_decide (rooted dir = rooted p) && bool_decide (elems dir `prefix_of` elems p).

(** The directory and those it lies in. *)
Definition ancestors (p : Path) : list Path :=
  map (fun n => {| rooted := rooted p; elems := take n (elems p) |}) (seq 0 (S (length (elems p)))).

(** [os.MkdirAll] that succeeds. *)
Definition make_dirs (vm : VolumeManager) (p : Path) : VolumeManager :=
  vm <| vm_dirs := vm_dirs vm ∪ list_to_set (ancestors p) |>.

(** [os.RemoveAll]: it removes everything, or fails and leaves the entries that
    [kept] says. *)
Definition remove_all (failure : option (string * (Path → bool))) (vm : VolumeManager) (p : Path)
  : VolumeManager * option string :=
  let gone q := within p q && match failure with Some (_, kept) => negb (kept q) | None => true end in
  ((vm <| vm_files := filter (fun x => gone x.1 = false) (vm_files vm) |>)
       <| vm_dirs := filter (fun q => gone q = false) (vm_dirs vm) |>,
   fst <$> failure).

Definition store_volume (vm : VolumeManager) (id : string) (v : Volume) : VolumeManager :=
  vm <| vm_volumes := <[id := v]> (vm_volumes vm) |>.

Definition getVolumePath (vm : VolumeManager) (volumeID : string) : Path := Join (vm_baseDir vm) volumeID.

Definition checkAvailableSpace (requiredBytes : Z) : option string := None.
Definition setupVolumeIOPS (volume : Volume) : option string := None.

(** ** Operations *)

Definition GetVolume (vm : VolumeManager) (volumeID : string) : result VolumeError Volume :=
  match vm_volumes vm !! volumeID with
  | None => Err (VolumeFailed ("volume not found: " +:+ volumeID))
  | Some v => Ok v
  end.

Definition validateWorkloadAccess (vm : VolumeManager) (volumeID callerWorkloadID : string)
  : result VolumeError Volume :=
  let? volume := GetVolume vm volumeID in
  if vo_WorkloadID volume =?s callerWorkloadID then Ok volume
  else Err (AccessDenied volumeID callerWorkloadID (vo_WorkloadID volume)).

(** What [CreateVolume] meets: the errors of the two [os.MkdirAll] and of the
    [os.RemoveAll] that follows the second, and the two readings of the clock. *)
Record CreateIO := {
  cio_mkdir : option string;
  cio_mount : option string;
  cio_cleanup : option (string * (Path → bool));
  cio_created : Z;
  cio_used : Z
}.

Definition CreateVolume (io : CreateIO) (vm : VolumeManager) (req : CreateVolumeRequest)
  : VolumeManager * result VolumeError Volume :=
  let fail text := (vm, Err (VolumeFailed text)) in
  match vm_volumes vm !! cv_VolumeID req with
  | Some _ => fail ("volume already exists: " +:+ cv_VolumeID req)
  | None =>
      if cv_SizeBytes req <=? 0 then fail ("invalid volume size: " +:+ show_Z (cv_SizeBytes req))
      else match checkAvailableSpace (cv_SizeBytes req) with
      | Some err => fail ("insufficient space: " +:+ err)
      | None =>
          let volumePath := getVolumePath vm (cv_VolumeID req) in
          match cio_mkdir io with
          | Some err => fail ("failed to create volume directory: " +:+ err)
          | None =>
              let vm := make_dirs vm volumePath in
              let mountPath := Join volumePath "mount" in
              match cio_mount io with
              | Some err =>
                  ((remove_all (cio_cleanup io) vm volumePath).1,
                   Err (VolumeFailed ("failed to create mount point: " +:+ err)))
              | None =>
                  let vm := make_dirs vm mountPath in
                  let volume := {|
                    vo_ID := cv_VolumeID req;
                    vo_Name := cv_Name req;
                    vo_WorkloadID := cv_WorkloadID req;
                    vo_NodeID := vm_nodeID vm;
                    vo_Path := volumePath;
                    vo_SizeBytes := cv_SizeBytes req;
                    vo_UsedBytes := 0;
                    vo_MountPoint := "";
                    vo_MountPath := mountPath;
                    vo_ReadOnly := false;
                    vo_StorageClass := "";
                    vo_IOPSClass := cv_IOPSClass req;
                    vo_State := VolumeStateCreated;
                    vo_CreatedAt := cio_created io;
                    vo_MountedAt := zero_time;
                    vo_LastUsed := cio_used io;
                    vo_Labels := cv_Labels req;
                    vo_Annotations := cv_Annotations req |} in
                  (store_volume vm (cv_VolumeID req) volume, Ok volume)
              end
          end
      end
  end.

Definition MountVolume (mounted used : Z) (vm : VolumeManager) (volumeID workloadID : string)
  : VolumeManager * result VolumeError Path :=
  match validateWorkloadAccess vm volumeID workloadID with
  | Err err => (vm, Err err)
  | Ok volume =>
      if vo_State volume =?s VolumeStateMounted then (vm, Ok (vo_MountPath volume))
      else match setupVolumeIOPS volume with
      | Some err => (vm, Err (VolumeFailed ("failed to setup volume IOPS: " +:+ err)))
      | None =>
          let volume := ((volume <| vo_State := VolumeStateMounted |>) <| vo_MountedAt := mounted |>)
                          <| vo_LastUsed := used |> in
          (store_volume vm volumeID volume, Ok (vo_MountPath volume))
      end
  end.

Definition UnmountVolume (now : Z) (vm : VolumeManager) (volumeID workloadID : string)
  : VolumeManager * option VolumeError :=
  match validateWorkloadAccess vm volumeID workloadID with
  | Err err => (vm, Some err)
  | Ok volume =>
      if negb (vo_State volume =?s VolumeStateMounted)
      then (vm, Some (VolumeFailed ("volume not mounted: " +:+ volumeID)))
      else
        let volume := (volume <| vo_State := VolumeStateCreated |>) <| vo_LastUsed := now |> in
        (store_volume vm volumeID volume, None)
  end.

Definition DeleteVolume (rm : option (string * (Path → bool))) (vm : VolumeManager)
  (volumeID workloadID : string) : VolumeManager * option VolumeError :=
  match validateWorkloadAccess vm volumeID workloadID with
  | Err err => (vm, Some err)
  | Ok volume =>
      if vo_State volume =?s VolumeStateMounted
      then (vm, Some (VolumeFailed ("cannot delete mounted volume: " +:+ volumeID)))
      else
        let '(vm, err) := remove_all rm vm (vo_Path volume) in
        match err with
        | Some err => (vm, Some (VolumeFailed ("failed to delete volume directory: " +:+ err)))
        | None => (vm <| vm_volumes := delete volumeID (vm_volumes vm) |>, None)
        end
  end.

Definition ListVolumes `{GoRange} (vm : VolumeManager) : list Volume := (range_map (vm_volumes vm)).*2.

Definition ListVolumesByWorkload `{GoRange} (vm : VolumeManager) (workloadID : string) : list Volume :=
  List.filter (fun v => vo_WorkloadID v =?s workloadID) (ListVolumes vm).

Definition ResizeVolume (now : Z) (vm : VolumeManager) (volumeID workloadID : string) (newSize : Z)
  : VolumeManager * option VolumeError :=
  match validateWorkloadAccess vm volumeID workloadID with
  | Err err => (vm, Some err)
  | Ok volume =>
      if newSize <? vo_UsedBytes volume then
        (vm, Some (VolumeFailed ("cannot shrink volume below used space: used="
                   +:+ show_Z (vo_UsedBytes volume) +:+ ", requested=" +:+ show_Z newSize)))
      else match (if vo_SizeBytes volume <? newSize
                  then checkAvailableSpace (int64 (newSize - vo_SizeBytes volume)) else None) with
      | Some err => (vm, Some (VolumeFailed ("insufficient space for resize: " +:+ err)))
      | None =>
          let volume := (volume <| vo_SizeBytes := newSize |>) <| vo_LastUsed := now |> in
          (store_volume vm volumeID volume, None)
      end
  end.

(** The bytes of the files in a directory; [walk_err] is an error met on the
    way, and a directory that does not exist is one. *)
Definition calculateVolumeUsage (walk_err : option string) (vm : VolumeManager) (path : Path)
  : result string Z :=
  match walk_err with
  | Some err => Err err
  | None =>
      if bool_decide (path ∈ vm_dirs vm) then
        Ok (fold_left (fun totalSize x => int64 (totalSize + slen x.2)) (walk (vm_files vm) path) 0)
      else Err ("lstat " +:+ path_text path +:+ ": no such file or directory")
  end.

Definition UpdateVolumeUsage (walk_err : option string) (now : Z) (vm : VolumeManager)
  (volumeID workloadID : string) : VolumeManager * option VolumeError :=
  match validateWorkloadAccess vm volumeID workloadID with
  | Err err => (vm, Some err)
  | Ok volume =>
      match calculateVolumeUsage walk_err vm (vo_MountPath volume) with
      | Err err => (vm, Some (VolumeFailed ("failed to calculate volume usage: " +:+ err)))
      | Ok usedBytes =>
          let volume := (volume <| vo_UsedBytes := usedBytes |>) <| vo_LastUsed := now |> in
          (store_volume vm volumeID volume, None)
      end
  end.

(** [copyDirectory]: the directories and files below [src], at the same place
    below [dst].  When it fails it has copied the first files of the walk, and
    made the directories that [made] says.  The destination does not lie in the
    source. *)
Definition copy_target (src dst p : Path) : Path :=
  {| rooted := rooted dst; elems := elems dst ++ drop (length (elems src)) (elems p) |}.

Definition copyDirectory (failure : option (string * nat * (Path → bool))) (vm : VolumeManager)
  (src dst : Path) : VolumeManager * option string :=
  if bool_decide (src ∈ vm_dirs vm) then
    let visited := walk (vm_files vm) src in
    let '(copied, made, err) := match failure with
                                | Some (err, n, made) => (take n visited, made, Some err)
                                | None => (visited, fun _ => true, None)
                                end in
    let dirs := filter (fun q => within src q && made q = true) (vm_dirs vm) in
    ((vm <| vm_dirs := vm_dirs vm ∪ set_map (copy_target src dst) dirs |>)
         <| vm_files := fold_left (fun files x => <[copy_target src dst x.1 := x.2]> files) copied
                          (vm_files vm) |>, err)
  else (vm, Some ("lstat " +:+ path_text src +:+ ": no such file or directory")).

(** The errors of [os.MkdirAll], of the copy and of the removal after it. *)
Record SnapshotIO := {
  snio_mkdir : option string;
  snio_copy : option (string * nat * (Path → bool));
  snio_cleanup : option (string * (Path → bool));
  snio_now : Z
}.

Definition CreateSnapshot (io : SnapshotIO) (vm : VolumeManager) (volumeID snapshotID : string)
  : VolumeManager * result VolumeError VolumeSnapshot :=
  match GetVolume vm volumeID with
  | Err err => (vm, Err err)
  | Ok volume =>
      let snapshotPath := Join (Join (vm_baseDir vm) "snapshots") snapshotID in
      match snio_mkdir io with
      | Some err => (vm, Err (VolumeFailed ("failed to create snapshot directory: " +:+ err)))
      | None =>
          let vm := make_dirs vm snapshotPath in
          match copyDirectory (snio_copy io) vm (vo_MountPath volume) snapshotPath with
          | (vm, Some err) =>
              ((remove_all (snio_cleanup io) vm snapshotPath).1,
               Err (VolumeFailed ("failed to copy volume: " +:+ err)))
          | (vm, None) =>
              (vm, Ok {|
                vs_ID := snapshotID;
                vs_VolumeID := volumeID;
                vs_SizeBytes := vo_UsedBytes volume;
                vs_Path := snapshotPath;
                vs_CreatedAt := snio_now io;
                vs_WorkloadID := vo_WorkloadID volume |})
          end
      end
  end.

(** One turn of [CleanupWorkloadVolumes]; errors are logged. *)
Definition cleanup_volume (rm : string → option (string * (Path → bool))) (now : Z) (workloadID : string)
  (vm : VolumeManager) (volume : Volume) : VolumeManager :=
  let delete_it vm := (DeleteVolume (rm (vo_ID volume)) vm (vo_ID volume) workloadID).1 in
  if vo_State volume =?s VolumeStateMounted then
    match UnmountVolume now vm (vo_ID volume) workloadID with
    | (vm, Some _) => vm
    | (vm, None) => delete_it vm
    end
  else delete_it vm.

Definition CleanupWorkloadVolumes `{GoRange} (rm : string → option (string * (Path → bool))) (now : Z)
  (vm : VolumeManager) (workloadID : string) : VolumeManager :=
  fold_left (cleanup_volume rm now workloadID) (ListVolumesByWorkload vm workloadID) vm.

Definition GetVolumeStats `{GoRange} (now : Z) (vm : VolumeManager) : VolumeStats :=
  let vs := ListVolumes vm in
  let count f := int64 (len (List.filter f vs)) in
  {| vt_NodeID := vm_nodeID vm;
     vt_TotalVolumes := int64 (len vs);
     vt_MountedVolumes := count (fun v => vo_State v =?s VolumeStateMounted);
     vt_TotalAllocatedBytes := fold_left (fun t v => int64 (t + vo_SizeBytes v)) vs 0;
     vt_TotalUsedBytes := fold_left (fun t v => int64 (t + vo_UsedBytes v)) vs 0;
     vt_HighIOPSVolumes := count (fun v => vo_IOPSClass v =?s IOPSClassHigh);
     vt_MediumIOPSVolumes := count (fun v => vo_IOPSClass v =?s IOPSClassMedium);
     vt_LowIOPSVolumes := count (fun v => vo_IOPSClass v =?s IOPSClassLow);
     vt_LastUpdated := now |}.

(** ** Start *)

(** The names of the directories in a directory. *)
Definition child_dirs (vm : VolumeManager) (dir : Path) : list string :=
  omap (fun p => if decide (rooted p = rooted dir ∧ removelast (elems p) = elems dir ∧ elems p ≠ [])
                 then last (elems p) else None) (elements (vm_dirs vm)).

(** [info] is the modification time of an entry, unless it cannot be read;
    [walk_err] the error of walking the volume, which is ignored. *)
Definition load_volume (info : string → option Z) (walk_err : string → option string)
  (vm : VolumeManager) (volumeID : string) : VolumeManager :=
  if volumeID =?s "snapshots" then vm
  else
    match info volumeID with
    | None => vm
    | Some mtime =>
        let volumePath := getVolumePath vm volumeID in
        let mountPath := Join volumePath "mount" in
        let usedBytes := match calculateVolumeUsage (walk_err volumeID) vm mountPath with
                         | Ok n => n
                         | Err _ => 0
                         end in
        store_volume vm volumeID {|
          vo_ID := volumeID;
          vo_Name := "";
          vo_WorkloadID := "";
          vo_NodeID := vm_nodeID vm;
          vo_Path := volumePath;
          vo_SizeBytes := 0;
          vo_UsedBytes := usedBytes;
          vo_MountPoint := "";
          vo_MountPath := mountPath;
          vo_ReadOnly := false;
          vo_StorageClass := "";
          vo_IOPSClass := "";
          vo_State := VolumeStateCreated;
          vo_CreatedAt := mtime;
          vo_MountedAt := zero_time;
          vo_LastUsed := mtime;
          vo_Labels := ∅;
          vo_Annotations := ∅ |}
    end.

(** [readdir] is an error of [os.ReadDir]. *)
Definition loadVolumes (readdir : option string) (info : string → option Z)
  (walk_err : string → option string) (vm : VolumeManager) : VolumeManager :=
  match readdir with
  | Some _ => vm
  | None => fold_left (load_volume info walk_err) (child_dirs vm (vm_baseDir vm)) vm
  end.

Definition NewVolumeManager (mkdir readdir : option string) (info : string → option Z)
  (walk_err : string → option string) (files : Files) (dirs : gset Path) (config : StorageConfig)
  (nodeID : string) : result string VolumeManager :=
  let baseDir := Join (Clean (DataDir config)) "volumes" in
  match mkdir with
  | Some err => Err ("failed to create volumes directory: " +:+ err)
  | None =>
      let vm := {| vm_config := config; vm_baseDir := baseDir; vm_nodeID := nodeID; vm_volumes := ∅;
                   vm_files := files; vm_dirs := dirs |} in
      Ok (loadVolumes readdir info walk_err (make_dirs vm baseDir))
  end.
