(* ===== verification/VolumeSpec.v ===== *)
(** * Volumes are isolated

    Under names that are single path elements, no operation of a workload
    changes the volumes of another or the files in them, and each volume goes
    through its life cycle by the hands of its owner only. *)

From S2P Require Import Prelude GoText GoFiles StorageTypes Volumes.

(** ** Paths of volumes *)

(** A name for a volume or a snapshot: a single path element. *)
Definition proper (id : string) : Prop := plain id ∧ contains_char "/" id = false.

Lemma Join_proper p id : proper id → Join p id = {| rooted := rooted p; elems := elems p ++ [id] |}.
Proof. intros [H1 H2]. by apply Join_plain. Qed.

Lemma within_spec d p : within d p = true ↔ rooted d = rooted p ∧ elems d `prefix_of` elems p.
Proof. unfold within. by rewrite andb_true_iff, !bool_decide_eq_true. Qed.

Lemma within_Join base id p :
  proper id → within (Join base id) p = true ↔
  rooted base = rooted p ∧ ∃ rest, elems p = elems base ++ id :: rest.
Proof.
  intros Hid. rewrite within_spec, Join_proper by done. simpl. split.
  - intros [? [rest Hr]]. split; [done|]. exists rest. by rewrite Hr, <-app_assoc.
  - intros [? [rest Hr]]. split; [done|]. exists rest. by rewrite Hr, <-app_assoc.
Qed.

(** Different volumes do not overlap. *)
Lemma volumes_disjoint base id id' p :
  proper id → proper id' → within (Join base id) p = true → within (Join base id') p = true → id = id'.
Proof.
  intros Hid Hid'. rewrite !within_Join by done. intros [_ [r Hr]] [_ [r' Hr']].
  rewrite Hr in Hr'. apply app_inv_head in Hr'. by simplify_eq.
Qed.

(** A path below the base that is not in the volume. *)
Lemma within_deeper base id q p :
  proper id → within (Join base id) q = true → within q p = true → within (Join base id) p = true.
Proof.
  rewrite !within_spec. intros _ [H1 [r1 H2]] [H3 [r2 H4]]. split; [congruence|].
  exists (r1 ++ r2). by rewrite H4, H2, app_assoc.
Qed.

Lemma ancestors_spec p q : q ∈ ancestors p ↔ ∃ n, (n ≤ length (elems p))%nat ∧
  q = {| rooted := rooted p; elems := take n (elems p) |}.
Proof.
  unfold ancestors. rewrite list_elem_of_fmap. split.
  - intros (n & -> & Hn). apply elem_of_seq in Hn. exists n. split; [lia|done].
  - intros (n & Hn & ->). exists n. split; [done|]. apply elem_of_seq. lia.
Qed.

(** An ancestor of a path in one volume is not in another. *)
Lemma ancestors_other base id id' p q :
  proper id → proper id' → id ≠ id' → within (Join base id) p = true → q ∈ ancestors p →
  within (Join base id') q = false.
Proof.
  intros Hid Hid' Hne Hp (n & Hn & ->)%ancestors_spec. apply not_true_iff_false. intros Hq.
  apply Hne. eapply volumes_disjoint; [done..|]. eapply (within_deeper base id' _ p Hid' Hq).
  apply within_spec. simpl. split; [done|]. exists (drop n (elems p)). by rewrite take_drop.
Qed.

(** ** Well-formed managers *)

Record volume_wf (vm : VolumeManager) (id : string) (v : Volume) : Prop := {
  vw_id : vo_ID v = id;
  vw_proper : proper id;
  vw_snapshots : id ≠ "snapshots"%string;
  vw_path : vo_Path v = Join (vm_baseDir vm) id;
  vw_mount : vo_MountPath v = Join (vo_Path v) "mount";
  vw_state : vo_State v = VolumeStateCreated ∨ vo_State v = VolumeStateMounted
}.

Definition wf (vm : VolumeManager) : Prop := ∀ id v, vm_volumes vm !! id = Some v → volume_wf vm id v.

(** ** The life cycle of a volume, moved by workload [w] *)

Inductive moves (w : string) : option Volume → option Volume → Prop :=
| move_none v v' : vo_State v' = vo_State v → vo_WorkloadID v = w → vo_WorkloadID v' = w →
    moves w (Some v) (Some v')
| move_create v : vo_State v = VolumeStateCreated → vo_WorkloadID v = w → moves w None (Some v)
| move_mount v v' : vo_State v = VolumeStateCreated → vo_State v' = VolumeStateMounted →
    vo_WorkloadID v = w → vo_WorkloadID v' = w → moves w (Some v) (Some v')
| move_unmount v v' : vo_State v = VolumeStateMounted → vo_State v' = VolumeStateCreated →
    vo_WorkloadID v = w → vo_WorkloadID v' = w → moves w (Some v) (Some v')
| move_delete v : vo_State v = VolumeStateCreated → vo_WorkloadID v = w → moves w (Some v) None.

(** Files and directories of [p] are as before. *)
Definition untouched (vm vm' : VolumeManager) (p : Path) : Prop :=
  ∀ q, within p q = true → vm_files vm' !! q = vm_files vm !! q ∧ (q ∈ vm_dirs vm' ↔ q ∈ vm_dirs vm).

(** What workload [w] may do to the manager. *)
Record respects (w : string) (vm vm' : VolumeManager) : Prop := {
  re_base : vm_baseDir vm' = vm_baseDir vm;
  re_wf : wf vm';
  re_others : ∀ id v, vm_volumes vm !! id = Some v → vo_WorkloadID v ≠ w →
    vm_volumes vm' !! id = Some v ∧ untouched vm vm' (vo_Path v);
  re_moves : ∀ id, rtc (moves w) (vm_volumes vm !! id) (vm_volumes vm' !! id)
}.

Lemma respects_refl w vm : wf vm → respects w vm vm.
Proof. intros Hwf. split; [done..|by intros|]. intros id. apply rtc_refl. Qed.

Lemma respects_trans w a b c : respects w a b → respects w b c → respects w a c.
Proof.
  intros [B1 W1 O1 M1] [B2 W2 O2 M2]. split; [congruence|done| |].
  - intros id v Hv Hw. destruct (O1 id v Hv Hw) as [Hb Hu1]. destruct (O2 id v Hb Hw) as [Hc Hu2].
    split; [done|]. intros q Hq. destruct (Hu1 q Hq) as [? E1], (Hu2 q Hq) as [? E2]. split; [congruence|].
    by rewrite E2.
  - intros id. etrans; [apply M1|apply M2].
Qed.

(** Changing the record of one's own volume. *)
Lemma respects_store w vm id v v' :
  wf vm → vm_volumes vm !! id = Some v → vo_WorkloadID v = w → moves w (Some v) (Some v') →
  vo_ID v' = vo_ID v → vo_Path v' = vo_Path v → vo_MountPath v' = vo_MountPath v →
  (vo_State v' = VolumeStateCreated ∨ vo_State v' = VolumeStateMounted) →
  respects w vm (store_volume vm id v').
Proof.
  intros Hwf Hv Hw Hm Hid Hp Hmp Hs. pose proof (Hwf id v Hv) as [W1 W2 W3 W4 W5 W6]. split; [done| | |].
  - intros id' x. simpl. rewrite lookup_insert_Some. intros [[<- <-]|[_ Hx]].
    + by split; rewrite ?Hid, ?Hmp, ?Hp.
    + destruct (Hwf id' x Hx). by split.
  - intros id' x Hx Hne. simpl. split; [|by intros]. rewrite lookup_insert_ne; [done|]. intros <-. congruence.
  - intros id'. simpl. destruct (decide (id = id')) as [<-|Hne].
    + rewrite lookup_insert_eq, Hv. by apply rtc_once.
    + rewrite lookup_insert_ne by done. apply rtc_refl.
Qed.

(** Removing files of one's own volume. *)
Lemma remove_untouched failure vm p q :
  (∀ x, within q x = true → within p x = false) → untouched vm (remove_all failure vm p).1 q.
Proof.
  intros Hd x Hx. specialize (Hd x Hx). simpl. split.
  - destruct (vm_files vm !! x) as [d|] eqn:Hf.
    + apply map_lookup_filter_Some. split; [done|]. simpl. by rewrite Hd.
    + apply map_lookup_filter_None. by left.
  - rewrite elem_of_filter. rewrite Hd. simpl. tauto.
Qed.

Lemma respects_remove w failure vm id v :
  wf vm → vm_volumes vm !! id = Some v → vo_WorkloadID v = w →
  respects w vm (remove_all failure vm (vo_Path v)).1.
Proof.
  intros Hwf Hv Hw. pose proof (Hwf id v Hv) as [W1 W2 W3 W4 W5 W6].
  split; [done| | |intros; apply rtc_refl].
  - intros id' x Hx. destruct (Hwf id' x Hx). by split.
  - intros id' x Hx Hne. split; [done|]. destruct (Hwf id' x Hx) as [_ X2 _ X4 _ _].
    apply remove_untouched. intros q Hq. apply not_true_iff_false. intros Hq'. rewrite X4 in Hq. rewrite W4 in Hq'.
    assert (id = id') as -> by (by eapply volumes_disjoint). congruence.
Qed.

Lemma respects_forget w vm id v :
  wf vm → vm_volumes vm !! id = Some v → vo_WorkloadID v = w → vo_State v = VolumeStateCreated →
  respects w vm (vm <| vm_volumes := delete id (vm_volumes vm) |>).
Proof.
  intros Hwf Hv Hw Hs. split; [done| | |].
  - intros id' x. simpl. rewrite lookup_delete_Some. intros [_ Hx]. destruct (Hwf id' x Hx). by split.
  - intros id' x Hx Hne. simpl. split; [|by intros]. rewrite lookup_delete_ne; [done|]. intros <-. congruence.
  - intros id'. simpl. destruct (decide (id = id')) as [<-|Hne].
    + rewrite lookup_delete_eq, Hv. apply rtc_once. by constructor.
    + rewrite lookup_delete_ne by done. apply rtc_refl.
Qed.

(** ** The operations *)

Lemma access_ok vm id w v :
  validateWorkloadAccess vm id w = Ok v ↔ vm_volumes vm !! id = Some v ∧ vo_WorkloadID v = w.
Proof.
  unfold validateWorkloadAccess, GetVolume. destruct (vm_volumes vm !! id) as [v'|]; simpl; [|naive_solver].
  case_bool_decide; naive_solver.
Qed.

Ltac by_owner := 
  match goal with
  | |- context [validateWorkloadAccess ?vm ?id ?w] =>
      let v := fresh "v" in let Ha := fresh "Ha" in let Hv := fresh "Hv" in let Hw := fresh "Hw" in
      destruct (validateWorkloadAccess vm id w) as [v|] eqn:Ha; [|by apply respects_refl];
      apply access_ok in Ha as [Hv Hw]
  end.

Lemma MountVolume_respects t t' vm id w : wf vm → respects w vm (MountVolume t t' vm id w).1.
Proof.
  intros Hwf. unfold MountVolume. by_owner. case_bool_decide as Hs; [by apply respects_refl|]. simpl.
  destruct (Hwf id v Hv) as [_ _ _ _ _ [Hc|Hm]]; [|done].
  eapply respects_store; try done; [|by right]. by apply move_mount.
Qed.

Lemma UnmountVolume_respects now vm id w : wf vm → respects w vm (UnmountVolume now vm id w).1.
Proof.
  intros Hwf. unfold UnmountVolume. by_owner. case_bool_decide as Hs; simpl; [|by apply respects_refl].
  eapply respects_store; try done; [|by left]. by apply move_unmount.
Qed.

Lemma DeleteVolume_respects rm vm id w : wf vm → respects w vm (DeleteVolume rm vm id w).1.
Proof.
  intros Hwf. unfold DeleteVolume. by_owner. case_bool_decide as Hs; [by apply respects_refl|].
  pose proof (respects_remove w rm vm id v Hwf Hv Hw) as Hr.
  assert (vm_volumes (remove_all rm vm (vo_Path v)).1 = vm_volumes vm) as Hvs by done.
  destruct (remove_all rm vm (vo_Path v)) as [vm1 [err|]]; simpl in *; [done|].
  eapply respects_trans; [exact Hr|]. destruct (Hwf id v Hv) as [_ _ _ _ _ [Hc|Hm]]; [|done].
  apply (respects_forget w vm1 id v); [apply Hr|congruence|done..].
Qed.

Lemma ResizeVolume_respects now vm id w n : wf vm → respects w vm (ResizeVolume now vm id w n).1.
Proof.
  intros Hwf. unfold ResizeVolume. by_owner. destruct (_ <? _); [by apply respects_refl|].
  destruct (if _ <? n then _ else _); [by apply respects_refl|]. simpl.
  eapply respects_store; try done; [by apply move_none|]. by destruct (Hwf id v Hv).
Qed.

Lemma UpdateVolumeUsage_respects e now vm id w : wf vm → respects w vm (UpdateVolumeUsage e now vm id w).1.
Proof.
  intros Hwf. unfold UpdateVolumeUsage. by_owner. destruct (calculateVolumeUsage _ _ _); [|by apply respects_refl].
  simpl. eapply respects_store; try done; [by apply move_none|]. by destruct (Hwf id v Hv).
Qed.

Lemma CleanupWorkloadVolumes_respects `{GoRange} rm now vm w :
  wf vm → respects w vm (CleanupWorkloadVolumes rm now vm w).
Proof.
  unfold CleanupWorkloadVolumes. generalize (ListVolumesByWorkload vm w). intros l. revert vm.
  induction l as [|v l IH]; intros vm Hwf; simpl; [by apply respects_refl|].
  assert (respects w vm (cleanup_volume rm now w vm v)) as Hr.
  { unfold cleanup_volume. case_match; [|by apply DeleteVolume_respects].
    pose proof (UnmountVolume_respects now vm (vo_ID v) w Hwf) as Hu.
    destruct (UnmountVolume now vm (vo_ID v) w) as [vm1 [e|]]; [done|]. simpl in Hu.
    eapply respects_trans; [exact Hu|]. apply DeleteVolume_respects, Hu. }
  eapply respects_trans; [exact Hr|]. apply IH, Hr.
Qed.

(** A new volume disturbs no other. *)
Lemma make_dirs_untouched base vm id id' p :
  proper id → proper id' → id ≠ id' → within (Join base id) p = true →
  untouched vm (make_dirs vm p) (Join base id').
Proof.
  intros Hid Hid' Hne Hp q Hq. split; [done|].
  change (q ∈ vm_dirs vm ∪ list_to_set (ancestors p) ↔ q ∈ vm_dirs vm). rewrite elem_of_union, elem_of_list_to_set.
  split; [|by left]. intros [?|Ha]; [done|]. by rewrite (ancestors_other base id id' p q) in Hq.
Qed.

Lemma untouched_trans a b c p : untouched a b p → untouched b c p → untouched a c p.
Proof.
  intros H1 H2 q Hq. destruct (H1 q Hq) as [? E1], (H2 q Hq) as [? E2]. split; [congruence|]. by rewrite E2.
Qed.

Lemma mount_proper : proper "mount".
Proof. done. Qed.

Lemma within_self base id : proper id → within (Join base id) (Join base id) = true.
Proof. intros. by apply within_spec. Qed.

Lemma within_mount base id : proper id → within (Join base id) (Join (Join base id) "mount") = true.
Proof.
  intros Hid. apply within_spec. rewrite (Join_proper (Join base id) _ mount_proper). simpl.
  split; [done|]. by apply prefix_app_r.
Qed.

Lemma CreateVolume_respects io vm req :
  wf vm → proper (cv_VolumeID req) → cv_VolumeID req ≠ "snapshots"%string →
  respects (cv_WorkloadID req) vm (CreateVolume io vm req).1 ∧
  ∀ id v, vm_volumes vm !! id = Some v → untouched vm (CreateVolume io vm req).1 (vo_Path v).
Proof.
  intros Hwf Hid Hsn. unfold CreateVolume, checkAvailableSpace, getVolumePath.
  assert (respects (cv_WorkloadID req) vm vm ∧ ∀ id v, vm_volumes vm !! id = Some v → untouched vm vm (vo_Path v))
    as Hsame by (split; [by apply respects_refl|by intros]).
  destruct (vm_volumes vm !! cv_VolumeID req) eqn:Hnone; [done|].
  destruct (cv_SizeBytes req <=? 0); [done|]. destruct (cio_mkdir io); [done|].
  set (p := Join (vm_baseDir vm) (cv_VolumeID req)).
  assert (∀ id v, vm_volumes vm !! id = Some v → proper id ∧ cv_VolumeID req ≠ id ∧ vo_Path v = Join (vm_baseDir vm) id)
    as Hother.
  { intros id v Hv. destruct (Hwf id v Hv). split_and!; [done| |done]. intros <-. congruence. }
  assert (∀ id v, vm_volumes vm !! id = Some v → untouched vm (make_dirs vm p) (vo_Path v)) as Hd1.
  { intros id v Hv. destruct (Hother id v Hv) as (H1 & H2 & ->).
    eapply make_dirs_untouched; [exact Hid|done..|by apply within_self]. }
  destruct (cio_mount io) as [err|].
  - assert (∀ id v, vm_volumes vm !! id = Some v →
      untouched vm (remove_all (cio_cleanup io) (make_dirs vm p) p).1 (vo_Path v)) as Hu.
    { intros id v Hv. eapply untouched_trans; [by eapply Hd1|]. destruct (Hother id v Hv) as (H1 & H2 & ->).
      apply remove_untouched. intros q Hq. apply not_true_iff_false. intros Hq'. by apply H2, (volumes_disjoint (vm_baseDir vm) _ _ q). }
    split; [|done]. split; [done| | |intros; apply rtc_refl].
    + intros id v Hv. destruct (Hwf id v Hv). by split.
    + intros id v Hv _. split; [done|]. by eapply Hu.
  - assert (∀ id v, vm_volumes vm !! id = Some v →
      untouched vm (make_dirs (make_dirs vm p) (Join p "mount")) (vo_Path v)) as Hu.
    { intros id v Hv. eapply untouched_trans; [by eapply Hd1|]. destruct (Hother id v Hv) as (H1 & H2 & ->).
      eapply make_dirs_untouched; [exact Hid|done..|by apply within_mount]. }
    split; [|intros id v Hv; exact (Hu id v Hv)]. split; [done| | |].
    + intros id v. simpl. rewrite lookup_insert_Some. intros [[<- <-]|[_ Hv]]; [by split; [..|by left]|].
      destruct (Hwf id v Hv). by split.
    + intros id v Hv _. simpl. destruct (Hother id v Hv) as (_ & Hne & _). split; [by rewrite lookup_insert_ne|].
      exact (Hu id v Hv).
    + intros id. simpl. destruct (decide (cv_VolumeID req = id)) as [<-|Hne].
      * rewrite lookup_insert_eq, Hnone. apply rtc_once. by constructor.
      * rewrite lookup_insert_ne by done. apply rtc_refl.
Qed.

(** A snapshot disturbs no volume. *)
Lemma within_target src dst p : within dst (copy_target src dst p) = true.
Proof. apply within_spec. simpl. split; [done|]. by apply prefix_app_r. Qed.

Lemma copyDirectory_untouched failure vm src dst q :
  (∀ x, within q x = true → within dst x = false) → untouched vm (copyDirectory failure vm src dst).1 q.
Proof.
  intros Hd x Hx. specialize (Hd x Hx). unfold copyDirectory. case_bool_decide; [|done].
  assert (∀ p, copy_target src dst p ≠ x) as Hne.
  { intros p <-. by rewrite within_target in Hd. }
  destruct (match failure with Some _ => _ | None => _ end) as [[copied made] err]. simpl. split.
  - revert Hne. clear. generalize (vm_files vm). induction copied as [|[p d] copied IH]; intros m Hne; simpl; [done|].
    rewrite IH by done. by apply lookup_insert_ne.
  - rewrite elem_of_union, elem_of_map. split; [|by left]. intros [?|(p & -> & _)]; [done|]. by destruct (Hne p).
Qed.

Lemma CreateSnapshot_respects io vm id sid w :
  wf vm → proper sid → respects w vm (CreateSnapshot io vm id sid).1.
Proof.
  intros Hwf Hsid. unfold CreateSnapshot. destruct (GetVolume vm id) as [v|]; [|by apply respects_refl].
  destruct (snio_mkdir io); [by apply respects_refl|].
  set (p := Join (Join (vm_baseDir vm) "snapshots") sid).
  assert (proper "snapshots") as Hs by done.
  assert (within (Join (vm_baseDir vm) "snapshots") p = true) as Hp.
  { apply within_spec. unfold p. rewrite (Join_proper (Join _ _) sid) by done. cbn [rooted elems]. split; [done|].
    by apply prefix_app_r. }
  assert (∀ id v, vm_volumes vm !! id = Some v → ∀ x, within (vo_Path v) x = true → within p x = false) as Hd.
  { intros id' v' Hv' x Hx. destruct (Hwf id' v' Hv') as [_ H2 H3 H4 _ _]. apply not_true_iff_false. intros Hpx.
    apply H3. rewrite H4 in Hx. eapply (volumes_disjoint (vm_baseDir vm)); [done|exact Hs|done|].
    by eapply within_deeper. }
  assert (∀ vm', vm_baseDir vm' = vm_baseDir vm → vm_volumes vm' = vm_volumes vm →
    (∀ id v, vm_volumes vm !! id = Some v → untouched vm vm' (vo_Path v)) → respects w vm vm') as Hresp.
  { intros vm' Hb Hv' Hu. split; [done| | |].
    - intros id' v'. rewrite Hv'. intros Hx. destruct (Hwf id' v' Hx). split; try done. by rewrite Hb.
    - intros id' v' Hx _. rewrite Hv'. split; [done|]. by eapply Hu.
    - intros id'. rewrite Hv'. apply rtc_refl. }
  assert (∀ id v, vm_volumes vm !! id = Some v → untouched vm (make_dirs vm p) (vo_Path v)) as Hu1.
  { intros id' v' Hv'. destruct (Hwf id' v' Hv') as [_ H2 H3 H4 _ _]. rewrite H4.
    eapply make_dirs_untouched; [exact Hs|done|done|done]. }
  pose proof (copyDirectory_untouched (snio_copy io) (make_dirs vm p) (vo_MountPath v) p) as Hc.
  assert (vm_volumes (copyDirectory (snio_copy io) (make_dirs vm p) (vo_MountPath v) p).1 = vm_volumes vm ∧
    vm_baseDir (copyDirectory (snio_copy io) (make_dirs vm p) (vo_MountPath v) p).1 = vm_baseDir vm) as [Hcv Hcb].
  { unfold copyDirectory. case_bool_decide; [|done].
    by destruct (match snio_copy io with Some _ => _ | None => _ end) as [[copied made] err]. }
  destruct (copyDirectory _ _ _ p) as [vm2 [err|]]; simpl in *; apply Hresp; try done.
  - intros id' v' Hv'. eapply untouched_trans; [by eapply Hu1|]. eapply untouched_trans; [apply Hc; by eapply Hd|].
    apply remove_untouched. by eapply Hd.
  - intros id' v' Hv'. eapply untouched_trans; [by eapply Hu1|]. apply Hc. by eapply Hd.
Qed.

(** ** Histories *)

(** What a workload may ask of the manager. *)
Inductive VolumeOp :=
| Create (io : CreateIO) (req : CreateVolumeRequest)
| Mount (mounted used : Z) (id : string)
| Unmount (now : Z) (id : string)
| Delete (rm : option (string * (Path → bool))) (id : string)
| Resize (now : Z) (id : string) (newSize : Z)
| Usage (walk_err : option string) (now : Z) (id : string)
| Snapshot (io : SnapshotIO) (id snapshotID : string)
| Cleanup (rm : string → option (string * (Path → bool))) (now : Z).

Section Histories.
Context `{GoRange}.

Definition exec (w : string) (vm : VolumeManager) (op : VolumeOp) : VolumeManager :=
  match op with
  | Create io req => (CreateVolume io vm req).1
  | Mount t t' id => (MountVolume t t' vm id w).1
  | Unmount now id => (UnmountVolume now vm id w).1
  | Delete rm id => (DeleteVolume rm vm id w).1
  | Resize now id n => (ResizeVolume now vm id w n).1
  | Usage e now id => (UpdateVolumeUsage e now vm id w).1
  | Snapshot io id sid => (CreateSnapshot io vm id sid).1
  | Cleanup rm now => CleanupWorkloadVolumes rm now vm w
  end.

(** Workloads create volumes for themselves, under names that are single path
    elements other than the directory of the snapshots. *)
Definition allowed (w : string) (op : VolumeOp) : Prop :=
  match op with
  | Create io req => cv_WorkloadID req = w ∧ proper (cv_VolumeID req) ∧ cv_VolumeID req ≠ "snapshots"%string
  | Snapshot io id sid => proper sid
  | _ => True
  end.

Lemma exec_respects w vm op : wf vm → allowed w op → respects w vm (exec w vm op).
Proof.
  intros Hwf Hok. destruct op; simpl in *.
  - destruct Hok as (<- & H1 & H2). by apply CreateVolume_respects.
  - by apply MountVolume_respects.
  - by apply UnmountVolume_respects.
  - by apply DeleteVolume_respects.
  - by apply ResizeVolume_respects.
  - by apply UpdateVolumeUsage_respects.
  - by apply CreateSnapshot_respects.
  - by apply CleanupWorkloadVolumes_respects.
Qed.

(** The managers that can arise from [start]. *)
Inductive reachable (start : VolumeManager) : VolumeManager → Prop :=
| reach_start : reachable start start
| reach_op vm w op : reachable start vm → allowed w op → reachable start (exec w vm op).

(** The names of directories on the disk. *)
Definition clean_dirs (dirs : gset Path) : Prop := ∀ p, p ∈ dirs → Forall proper (elems p).

Lemma load_volume_wf info walk_err vm id : wf vm → proper id → wf (load_volume info walk_err vm id).
Proof.
  intros Hwf Hid. unfold load_volume. case_bool_decide; [done|]. destruct (info id); [|done].
  intros id' v. simpl. rewrite lookup_insert_Some. intros [[<- <-]|[_ Hv]]; [by split; [..|by left]|].
  destruct (Hwf id' v Hv). by split.
Qed.

Lemma child_dirs_proper vm id :
  (∀ p, p ∈ vm_dirs vm → elems (vm_baseDir vm) `prefix_of` elems p → elems p ≠ elems (vm_baseDir vm) →
     Forall proper (elems p)) →
  id ∈ child_dirs vm (vm_baseDir vm) → proper id.
Proof.
  intros Hc. unfold child_dirs. rewrite list_elem_of_omap. intros (p & Hp & Hid). rewrite elem_of_elements in Hp.
  case_decide as Hd; [|done]. destruct Hd as (_ & Hbase & Hne).
  assert (elems p = elems (vm_baseDir vm) ++ [id]) as He.
  { rewrite <-Hbase. destruct (elems p) as [|e es] using rev_ind; [done|]. rewrite last_snoc in Hid.
    simplify_eq. by rewrite removelast_last. }
  assert (Forall proper (elems p)) as Hf.
  { apply Hc; [done| |]; rewrite He; [by apply prefix_app_r|].
    intros Heq%(f_equal length). rewrite length_app in Heq. simpl in Heq. lia. }
  rewrite He in Hf. apply Forall_app in Hf as [_ Hf]. by inversion Hf.
Qed.

Lemma NewVolumeManager_wf mkdir readdir info walk_err files dirs config nodeID vm :
  clean_dirs dirs → NewVolumeManager mkdir readdir info walk_err files dirs config nodeID = Ok vm → wf vm.
Proof.
  intros Hclean. unfold NewVolumeManager. destruct mkdir; [done|]. set (base := Join _ "volumes").
  set (vm0 := make_dirs _ base). intros [= <-]. unfold loadVolumes. destruct readdir; [done|].
  assert (∀ id, id ∈ child_dirs vm0 (vm_baseDir vm0) → proper id) as Hp.
  { intros id. apply child_dirs_proper. intros p. unfold vm0, make_dirs.
    change (p ∈ dirs ∪ list_to_set (ancestors base) → elems base `prefix_of` elems p → elems p ≠ elems base →
      Forall proper (elems p)).
    rewrite elem_of_union, elem_of_list_to_set. intros [Hp|(n & Hn & ->)%ancestors_spec]; [by intros; apply Hclean|].
    simpl. intros Hpre%prefix_length Hne. destruct Hne. rewrite length_take in Hpre. apply take_ge. lia. }
  assert (wf vm0) as Hwf0 by (intros id v Hv; done).
  revert Hp Hwf0. generalize (child_dirs vm0 (vm_baseDir vm0)). intros l. generalize vm0. clear.
  induction l as [|id l IH]; intros vm Hp Hwf; simpl; [done|].
  apply IH; [intros; apply Hp; by right|]. apply load_volume_wf; [done|]. apply Hp. left.
Qed.

Lemma reachable_wf start vm : wf start → reachable start vm → wf vm.
Proof. intros Hwf. induction 1 as [|vm w op _ IH Hok]; [done|]. apply (exec_respects w vm op IH Hok). Qed.

End Histories.


(** ** Concrete runs *)

Module VolumeRuns.

#[local] Existing Instance range_canonical.

Definition config : StorageConfig := DefaultStorageConfig <| DataDir := "/data" |>.

Definition boot (files : Files) (dirs : gset Path) : VolumeManager :=
  match NewVolumeManager None None (fun _ => Some 0) (fun _ => None) files dirs config "node" with
  | Ok vm => vm
  | Err _ => {| vm_config := config; vm_baseDir := Clean "/"; vm_nodeID := ""; vm_volumes := ∅;
                vm_files := ∅; vm_dirs := ∅ |}
  end.

Definition start : VolumeManager := boot ∅ ∅.

Definition io_ok : CreateIO :=
  {| cio_mkdir := None; cio_mount := None; cio_cleanup := None; cio_created := 1; cio_used := 1 |}.

Definition request (id w : string) : CreateVolumeRequest := {|
  cv_VolumeID := id; cv_Name := id; cv_WorkloadID := w; cv_SizeBytes := 100; cv_IOPSClass := "";
  cv_Labels := ∅; cv_Annotations := ∅ |}.

(** A container writes a file. *)
Definition put (vm : VolumeManager) (p data : string) : VolumeManager :=
  vm <| vm_files := <[Clean p := data]> (vm_files vm) |>.

Definition with_alice : VolumeManager := exec "alice" start (Create io_ok (request "a" "alice")).
Definition alice_data : VolumeManager := put with_alice "/data/volumes/a/mount/db" "records".
Definition read (vm : VolumeManager) : option string := vm_files vm !! Clean "/data/volumes/a/mount/db".

Lemma alice_volume : ∃ v, vm_volumes with_alice !! "a"%string = Some v ∧ vo_WorkloadID v = "alice"%string.
Proof. eexists. split; reflexivity. Qed.


(** Names are not checked: a volume inside that of another workload belongs to
    whoever created it, and goes with the other's data. *)
Example nested_volume :
  let vm := exec "bob" alice_data (Create io_ok (request "a/mount" "bob")) in
  read vm = Some "records"%string ∧ read (exec "bob" vm (Delete None "a/mount")) = None.
Proof. vm_compute. done. Qed.

(** The volume named by a point is the directory of all volumes; the one named
    by its parent holds the chunks as well. *)
Example volume_of_everything :
  let vm := exec "bob" alice_data (Create io_ok (request "." "bob")) in
  read (exec "bob" vm (Delete None ".")) = None ∧
  (let vm := put (exec "bob" start (Create io_ok (request "../chunks" "bob"))) "/data/chunks/ab/ab12" "chunk" in
   vm_files (exec "bob" vm (Delete None "../chunks")) = ∅).
Proof. vm_compute. done. Qed.

(** Anyone may take a snapshot of a volume. *)
Example snapshot_by_anyone :
  vm_files (CreateSnapshot {| snio_mkdir := None; snio_copy := None; snio_cleanup := None; snio_now := 2 |}
              alice_data "a" "s1").1 !! Clean "/data/volumes/snapshots/s1/db" = Some "records"%string.
Proof. vm_compute. reflexivity. Qed.

(** A restart forgets the owner: the workload that created the volume is
    refused, and one without a name is the owner. *)
Example restart_forgets_owner :
  let vm := boot (vm_files alice_data) (vm_dirs alice_data) in
  (MountVolume 3 3 vm "a" "alice").2 = Err (AccessDenied "a" "alice" "") ∧
  is_ok (MountVolume 3 3 vm "a" "").2 = true.
Proof. vm_compute. done. Qed.

End VolumeRuns.
