(* ===== verification/ObjectMetadata.v ===== *)
(** * Metadata of buckets and objects (pkg/storage/metadata.go, consistency.go,
    errors.go, batch.go)

    [MetadataStore] caches buckets and objects and writes them to the Raft
    store, when it has one.  The caches hold pointers; the entry of a cache is
    the object they point to, and an operation that changes such an object
    before it fails has changed the entry.  Clock readings and the answers of
    the consensus library are arguments; JSON is the class [MetadataCodec].
    Metrics are dropped. *)

From S2P Require Import Prelude GoText GoFloat RaftFSM StorageTypes.

Local Open Scope string_scope.
Local Open Scope Z_scope.

(** ** Consistency of reads *)

Inductive ReadConsistency :=
| ReadConsistencyStrong
| ReadConsistencyEventual
| ReadConsistencyBounded.

#[export] Instance ReadConsistency_eq_dec : EqDecision ReadConsistency.
Proof. solve_decision. Defined.

Record ReadOptions := {
  ro_Consistency : ReadConsistency;
  ro_MaxStaleness : Z;
  ro_PreferLocal : bool
}.

Definition DefaultReadOptions : ReadOptions :=
  {| ro_Consistency := ReadConsistencyStrong; ro_MaxStaleness := 0; ro_PreferLocal := false |}.

Definition EventualReadOptions : ReadOptions :=
  {| ro_Consistency := ReadConsistencyEventual; ro_MaxStaleness := 0; ro_PreferLocal := true |}.

Definition BoundedReadOptions (maxStaleness : Z) : ReadOptions :=
  {| ro_Consistency := ReadConsistencyBounded; ro_MaxStaleness := maxStaleness;
     ro_PreferLocal := true |}.

(** ** Errors *)

(** [Wrap] is [fmt.Errorf] with the verb for an error at the end. *)
Inductive storage_error :=
| Failure (msg : string)
| NotLeaderError (leaderAddr nodeID operation : string)
| NotFoundError (resource : string)
| StaleReadError (maxStaleness actualStaleness lastModified : Z) (consistencyLevel : string)
| Wrap (msg : string) (err : storage_error).

Fixpoint error_text (e : storage_error) : string :=
  match e with
  | Failure msg => msg
  | NotLeaderError leader node op =>
      if leader =?s "" then
        "node " +:+ node +:+ " is not the RAFT leader (no leader known) for operation: " +:+ op
      else "node " +:+ node +:+ " is not the RAFT leader (redirect to " +:+ leader
           +:+ ") for operation: " +:+ op
  | NotFoundError r => "resource not found: " +:+ r
  | StaleReadError max actual _ level =>
      "data too stale for " +:+ level +:+ " consistency: last modified " +:+ Duration_String actual
      +:+ " ago (max " +:+ Duration_String max +:+ " allowed)"
  | Wrap msg e => msg +:+ ": " +:+ error_text e
  end.

(** [errors.As] looks through the wrapping. *)
Fixpoint as_not_leader (e : storage_error) : option string :=
  match e with
  | NotLeaderError leader _ _ => Some leader
  | Wrap _ e => as_not_leader e
  | _ => None
  end.

Definition IsNotLeaderError (e : storage_error) : bool :=
  match as_not_leader e with Some _ => true | None => false end.

Definition GetLeaderAddress (e : storage_error) : string := default "" (as_not_leader e).

Fixpoint IsNotFoundError (e : storage_error) : bool :=
  match e with NotFoundError _ => true | Wrap _ e => IsNotFoundError e | _ => false end.

(** A type assertion, which does not look through the wrapping. *)
Definition IsStaleReadError (e : storage_error) : bool :=
  match e with StaleReadError _ _ _ _ => true | _ => false end.

(** ** State *)

(** The Raft store with what its configuration and the library tell. *)
Record RaftNode := { rn_store : Store; rn_leader : string; rn_id : string }.

#[export] Instance eta_RaftNode : Eta RaftNode := fun n =>
  Build_RaftNode (rn_store n) (rn_leader n) (rn_id n).

(** [ms_raft] is nil on agents. *)
Record MetadataStore := {
  ms_raft : option RaftNode;
  ms_buckets : gmap string Bucket;
  ms_objects : gmap string Object
}.

#[export] Instance eta_MetadataStore : Eta MetadataStore := fun m =>
  Build_MetadataStore (ms_raft m) (ms_buckets m) (ms_objects m).

(** [json.Marshal] and [json.Unmarshal] of buckets, objects and of both
    caches. *)
Class MetadataCodec : Type := {
  bucket_marshal : Bucket → result string string;
  bucket_unmarshal : string → result string Bucket;
  object_marshal : Object → result string string;
  object_unmarshal : string → result string Object;
  caches_marshal : gmap string Bucket * gmap string Object → result string string;
  caches_unmarshal : string → result string (gmap string Bucket * gmap string Object)
}.

Record BucketMetadata := {
  bm_Name : string; bm_StorageClass : string; bm_UsedBytes : Z; bm_ObjectCount : Z; bm_CreatedAt : Z
}.

Record ObjectMetadata := {
  om_Key : string; om_Size : Z; om_Checksum : string; om_StorageClass : string;
  om_CreatedAt : Z; om_UpdatedAt : Z
}.

(** The fields of [StorageStats] that [GetStats] sets; the others are zero. *)
Record StorageStats := {
  st_TotalObjects : Z; st_TotalChunks : Z; st_TotalBytes : Z; st_BucketCount : Z; st_LastUpdated : Z
}.

Definition getObjectKey (bucket key : string) : string := bucket +:+ ":" +:+ key.

(** Whether the store has a Raft store that is not the leader. *)
Definition follower (ms : MetadataStore) : option RaftNode :=
  ms_raft ms ≫= fun n => if is_leader (rn_store n) then None else Some n.

Definition not_leader_error (n : RaftNode) (operation : string) : storage_error :=
  NotLeaderError (rn_leader n) (rn_id n) operation.

(** A metadata command or batch of them does not make the state machine
    panic. *)
Definition applyRAFTCommand (ans : raft_answer) (d : LogData) (ms : MetadataStore)
    : MetadataStore * option storage_error :=
  match ms_raft ms with
  | None => (ms, None)
  | Some n =>
      if negb (is_leader (rn_store n)) then (ms, Some (not_leader_error n "metadata_write"))
      else match ApplyRaw d ans (rn_store n) with
      | None => (ms, None)
      | Some (s, r) => (ms <| ms_raft := Some (n <| rn_store := s |>) |>, Failure <$> r)
      end
  end.

Definition set_bucket (name : string) (b : Bucket) (ms : MetadataStore) : MetadataStore :=
  ms <| ms_buckets := <[name := b]> (ms_buckets ms) |>.

Definition set_object (key : string) (o : Object) (ms : MetadataStore) : MetadataStore :=
  ms <| ms_objects := <[key := o]> (ms_objects ms) |>.

(** The operations of the metadata store. *)
Module meta.
Section operations.
Context `{GoRange, MetadataCodec}.

(** ** Buckets *)

Definition CreateBucket (now : Z) (ans : raft_answer) (bucket : Bucket) (ms : MetadataStore)
    : MetadataStore * option storage_error :=
  let name := bk_Name bucket in
  match ms_buckets ms !! name with
  | Some _ => (ms, Some (Failure ("bucket already exists: " +:+ name)))
  | None =>
      let bucket := bucket <| bk_CreatedAt := now |> <| bk_UpdatedAt := now |> in
      match bucket_marshal bucket with
      | Err err => (ms, Some (Failure ("failed to serialize bucket: " +:+ err)))
      | Ok value =>
          let cmd := {| mc_Op := "create_bucket"; mc_Bucket := name; mc_Key := ""; mc_Value := value |} in
          match applyRAFTCommand ans (MarshalMetadataCommand cmd) ms with
          | (ms, Some err) => (ms, Some (Wrap "failed to apply bucket creation to RAFT" err))
          | (ms, None) => (set_bucket name bucket ms, None)
          end
      end
  end.

Definition too_stale (now : Z) (opts : ReadOptions) (updatedAt : Z) : option storage_error :=
  if bool_decide (ro_Consistency opts = ReadConsistencyBounded) then
    let staleness := time_Sub now updatedAt in
    if ro_MaxStaleness opts <? staleness
    then Some (StaleReadError (ro_MaxStaleness opts) staleness updatedAt "bounded") else None
  else None.

(** The check for strong reads. *)
Definition misdirected (opts : ReadOptions) (operation : string) (ms : MetadataStore)
    : option storage_error :=
  if bool_decide (ro_Consistency opts = ReadConsistencyStrong)
  then (fun n => not_leader_error n operation) <$> follower ms else None.

Definition GetBucketWithOptions (now : Z) (name : string) (opts : ReadOptions) (ms : MetadataStore)
    : result storage_error Bucket :=
  match misdirected opts "get_bucket" ms with
  | Some err => Err err
  | None =>
      match ms_buckets ms !! name with
      | None => Err (NotFoundError ("bucket:" +:+ name))
      | Some bucket =>
          match too_stale now opts (bk_UpdatedAt bucket) with
          | Some err => Err err
          | None => Ok bucket
          end
      end
  end.

(** A strong read does not look at the clock. *)
Definition GetBucket (name : string) : MetadataStore → result storage_error Bucket :=
  GetBucketWithOptions 0 name DefaultReadOptions.

Definition UpdateBucket (now : Z) (bucket : Bucket) (ms : MetadataStore)
    : MetadataStore * option storage_error :=
  match ms_buckets ms !! bk_Name bucket with
  | None => (ms, Some (Failure ("bucket not found: " +:+ bk_Name bucket)))
  | Some _ => (set_bucket (bk_Name bucket) (bucket <| bk_UpdatedAt := now |>) ms, None)
  end.

(** The loop that counts the objects stops at the first. *)
Definition DeleteBucket (ans : raft_answer) (name : string) (ms : MetadataStore)
    : MetadataStore * option storage_error :=
  match ms_buckets ms !! name with
  | None => (ms, Some (Failure ("bucket not found: " +:+ name)))
  | Some _ =>
      let objectCount :=
        if existsb (fun o => ob_Bucket o =?s name) (range_map (ms_objects ms)).*2 then 1 else 0 in
      if 0 <? objectCount then
        (ms, Some (Failure ("bucket not empty: " +:+ name +:+ " (contains " +:+ show_Z objectCount
                            +:+ " objects)")))
      else
        let cmd := {| mc_Op := "delete_bucket"; mc_Bucket := name; mc_Key := ""; mc_Value := "" |} in
        match applyRAFTCommand ans (MarshalMetadataCommand cmd) ms with
        | (ms, Some err) => (ms, Some (Wrap "failed to apply bucket deletion to RAFT" err))
        | (ms, None) => (ms <| ms_buckets := delete name (ms_buckets ms) |>, None)
        end
  end.

Definition ListBuckets (ms : MetadataStore) : list BucketMetadata :=
  (fun bucket => {|
     bm_Name := bk_Name bucket; bm_StorageClass := bk_StorageClass bucket;
     bm_UsedBytes := bk_UsedBytes bucket;
     bm_ObjectCount := len (List.filter (fun o => ob_Bucket o =?s bk_Name bucket)
                              (range_map (ms_objects ms)).*2);
     bm_CreatedAt := bk_CreatedAt bucket |}) <$> (range_map (ms_buckets ms)).*2.

(** ** Objects *)

(** The times that a put sets. *)
Definition stamped (now : Z) (old : option Object) (object : Object) : Object :=
  object <| ob_CreatedAt := match old with Some o => ob_CreatedAt o | None => now end |>
         <| ob_UpdatedAt := now |> <| ob_AccessedAt := now |>.

(** [shared] tells that the object is the one in the cache, as for a caller
    that got it from there and changed it: then what [PutObject] sets in it is
    seen even when it fails.  The usage of the bucket is changed in place,
    before the quota is checked. *)
Definition PutObject (now : Z) (ans : raft_answer) (shared : bool) (object : Object)
    (ms : MetadataStore) : MetadataStore * option storage_error :=
  match GetBucket (ob_Bucket object) ms with
  | Err err => (ms, Some err)
  | Ok bucket =>
      let objectKey := getObjectKey (ob_Bucket object) (ob_Key object) in
      let old := ms_objects ms !! objectKey in
      let oldSize := from_option ob_Size 0 old in
      let object := stamped now old object in
      let seen o ms := if shared then set_object objectKey o ms else ms in
      let bucket := bucket <| bk_UsedBytes := int64 (bk_UsedBytes bucket - oldSize + ob_Size object) |> in
      let ms := set_bucket (ob_Bucket object) bucket ms in
      if (0 <? bk_QuotaBytes bucket) && (bk_QuotaBytes bucket <? bk_UsedBytes bucket) then
        (seen object ms,
         Some (Failure ("bucket quota exceeded: " +:+ bk_Name bucket +:+ " (quota: "
                        +:+ show_Z (bk_QuotaBytes bucket) +:+ ", used: "
                        +:+ show_Z (bk_UsedBytes bucket) +:+ ")")))
      else
        let object := if 0 <? oldSize
                      then object <| ob_Version := uint64 (ob_Version object + 1) |> else object in
        let ms := seen object ms in
        match object_marshal object with
        | Err err => (ms, Some (Failure ("failed to serialize object: " +:+ err)))
        | Ok value =>
            let cmd := {| mc_Op := "put_object_meta"; mc_Bucket := ob_Bucket object;
                          mc_Key := ob_Key object; mc_Value := value |} in
            match applyRAFTCommand ans (MarshalMetadataCommand cmd) ms with
            | (ms, Some err) => (ms, Some (Wrap "failed to apply object metadata to RAFT" err))
            | (ms, None) => (set_bucket (bk_Name bucket) bucket (set_object objectKey object ms), None)
            end
        end
  end.

(** [now] is the clock of the staleness check, [read] of the access time. *)
Definition GetObjectWithOptions (now read : Z) (bucket key : string) (opts : ReadOptions)
    (ms : MetadataStore) : MetadataStore * result storage_error Object :=
  match misdirected opts "get_object" ms with
  | Some err => (ms, Err err)
  | None =>
      let objectKey := getObjectKey bucket key in
      match ms_objects ms !! objectKey with
      | None => (ms, Err (NotFoundError ("object:" +:+ bucket +:+ "/" +:+ key)))
      | Some object =>
          match too_stale now opts (ob_UpdatedAt object) with
          | Some err => (ms, Err err)
          | None =>
              let object := object <| ob_AccessedAt := read |> in
              (set_object objectKey object ms, Ok object)
          end
      end
  end.

Definition GetObject (read : Z) (bucket key : string)
    : MetadataStore → MetadataStore * result storage_error Object :=
  GetObjectWithOptions 0 read bucket key DefaultReadOptions.

Definition DeleteObject (ans : raft_answer) (bucket key : string) (ms : MetadataStore)
    : MetadataStore * option storage_error :=
  let objectKey := getObjectKey bucket key in
  match ms_objects ms !! objectKey with
  | None => (ms, Some (Failure ("object not found: " +:+ bucket +:+ "/" +:+ key)))
  | Some object =>
      let cmd := {| mc_Op := "delete_object_meta"; mc_Bucket := bucket; mc_Key := key; mc_Value := "" |} in
      match applyRAFTCommand ans (MarshalMetadataCommand cmd) ms with
      | (ms, Some err) => (ms, Some (Wrap "failed to apply object deletion to RAFT" err))
      | (ms, None) =>
          let ms := ms <| ms_objects := delete objectKey (ms_objects ms) |> in
          (match ms_buckets ms !! bucket with
           | Some b => set_bucket bucket (b <| bk_UsedBytes := int64 (bk_UsedBytes b - ob_Size object) |>) ms
           | None => ms
           end, None)
      end
  end.

Definition listed_object (now : Z) (bucket prefix : string) (opts : ReadOptions) (o : Object) : bool :=
  (ob_Bucket o =?s bucket) && ((prefix =?s "") || HasPrefix (ob_Key o) prefix) &&
  match too_stale now opts (ob_UpdatedAt o) with Some _ => false | None => true end.

(** [checked] is the clock of the check of the bucket. *)
Definition ListObjectsWithOptions (checked now : Z) (bucket prefix : string) (maxKeys : Z)
    (opts : ReadOptions) (ms : MetadataStore) : result storage_error (list ObjectMetadata) :=
  match misdirected opts "list_objects" ms with
  | Some err => Err err
  | None =>
      match GetBucketWithOptions checked bucket opts ms with
      | Err err => Err err
      | Ok _ =>
          let objects := (fun o => {|
            om_Key := ob_Key o; om_Size := ob_Size o; om_Checksum := ob_Checksum o;
            om_StorageClass := ob_StorageClass o; om_CreatedAt := ob_CreatedAt o;
            om_UpdatedAt := ob_UpdatedAt o |}) <$>
            List.filter (listed_object now bucket prefix opts) (range_map (ms_objects ms)).*2 in
          Ok (if 0 <? maxKeys then take (Z.to_nat maxKeys) objects else objects)
      end
  end.

Definition ListObjects (bucket prefix : string) (maxKeys : Z)
    : MetadataStore → result storage_error (list ObjectMetadata) :=
  ListObjectsWithOptions 0 0 bucket prefix maxKeys DefaultReadOptions.

Definition UpdateObjectAccess (now : Z) (bucket key : string) (ms : MetadataStore)
    : MetadataStore * option storage_error :=
  let objectKey := getObjectKey bucket key in
  match ms_objects ms !! objectKey with
  | Some object => (set_object objectKey (object <| ob_AccessedAt := now |>) ms, None)
  | None => (ms, Some (Failure ("object not found: " +:+ bucket +:+ "/" +:+ key)))
  end.

Definition GetObjectsByChecksum (checksum : string) (ms : MetadataStore) : list Object :=
  List.filter (fun o => ob_Checksum o =?s checksum) (range_map (ms_objects ms)).*2.

Definition add_stats (s : StorageStats) (o : Object) : StorageStats := {|
  st_TotalObjects := int64 (st_TotalObjects s + 1);
  st_TotalChunks := int64 (st_TotalChunks s + len (ob_ChunkIDs o));
  st_TotalBytes := int64 (st_TotalBytes s + ob_Size o);
  st_BucketCount := st_BucketCount s; st_LastUpdated := st_LastUpdated s |}.

Definition GetStats (now : Z) (ms : MetadataStore) : StorageStats :=
  foldl add_stats {| st_TotalObjects := 0; st_TotalChunks := 0; st_TotalBytes := 0;
    st_BucketCount := int64 (Z.of_nat (size (ms_buckets ms))); st_LastUpdated := now |}
    (range_map (ms_objects ms)).*2.

(** ** Starting and serialization *)

(** One entry of the Raft store; [SplitN] gives two parts when there is a
    colon. *)
Definition load_entry (ms : MetadataStore) (kv : string * string) : MetadataStore :=
  let '(key, value) := kv in
  if HasPrefix key "bucket:" then
    match bucket_unmarshal value with
    | Err _ => ms
    | Ok bucket => set_bucket (TrimPrefix key "bucket:") bucket ms
    end
  else if HasPrefix key "object:" then
    if negb (contains_char ":" (TrimPrefix key "object:")) then ms
    else match object_unmarshal value with
    | Err _ => ms
    | Ok object => set_object (getObjectKey (ob_Bucket object) (ob_Key object)) object ms
    end
  else ms.

Definition initializeFromRAFT (now : Z) (n : RaftNode) (ms : MetadataStore) : MetadataStore :=
  foldl load_entry ms (range_map (GetAll now (fsm (rn_store n)))).

Definition NewMetadataStore (now : Z) (raftStore : option RaftNode) : MetadataStore :=
  let ms := {| ms_raft := raftStore; ms_buckets := ∅; ms_objects := ∅ |} in
  match raftStore with
  | Some n => initializeFromRAFT now n ms
  | None => ms
  end.

Definition SerializeMetadata (ms : MetadataStore) : result string string :=
  caches_marshal (ms_buckets ms, ms_objects ms).

Definition DeserializeMetadata (serialized : string) (ms : MetadataStore)
    : MetadataStore * option storage_error :=
  match caches_unmarshal serialized with
  | Err err => (ms, Some (Failure ("failed to deserialize metadata: " +:+ err)))
  | Ok (buckets, objects) => (ms <| ms_buckets := buckets |> <| ms_objects := objects |>, None)
  end.

End operations.
End meta.

(** ** Batches *)

Record BatchOperation := {
  bo_Type : string; bo_Bucket : string; bo_Key : string; bo_Value : string
}.

(** The operations gathered so far; the store is an argument of [Execute]. *)
Abbreviation MetadataBatch := (list BatchOperation).

Record OperationResult := {
  or_Index : Z; or_Type : string; or_Bucket : string; or_Key : string; or_Success : bool; or_Error : string
}.

Record BatchResult := {
  br_TotalOps : Z; br_SuccessCount : Z; br_FailureCount : Z; br_Results : list OperationResult
}.

Definition no_results : BatchResult :=
  {| br_TotalOps := 0; br_SuccessCount := 0; br_FailureCount := 0; br_Results := [] |}.

Module batch.
Section batches.
Context `{MetadataCodec}.

Definition encoded (type bucket key : string) (value : result string string) : BatchOperation :=
  match value with
  | Err err => {| bo_Type := "error"; bo_Bucket := bucket; bo_Key := key; bo_Value := err |}
  | Ok value => {| bo_Type := type; bo_Bucket := bucket; bo_Key := key; bo_Value := value |}
  end.

Definition CreateBucket (bucket : Bucket) (b : MetadataBatch) : MetadataBatch :=
  app b [encoded "create_bucket" (bk_Name bucket) "" (bucket_marshal bucket)].

Definition DeleteBucket (bucketName : string) (b : MetadataBatch) : MetadataBatch :=
  app b [encoded "delete_bucket" bucketName "" (Ok "")].

Definition PutObject (object : Object) (b : MetadataBatch) : MetadataBatch :=
  app b [encoded "put_object_meta" (ob_Bucket object) (ob_Key object) (object_marshal object)].

Definition DeleteObject (bucket key : string) (b : MetadataBatch) : MetadataBatch :=
  app b [encoded "delete_object_meta" bucket key (Ok "")].

(** The effect of one operation on the caches, and its error. *)
Definition apply_cached (op : BatchOperation) (ms : MetadataStore) : MetadataStore * option string :=
  if bo_Type op =?s "create_bucket" then
    match bucket_unmarshal (bo_Value op) with
    | Ok bucket => (set_bucket (bk_Name bucket) bucket ms, None)
    | Err err => (ms, Some err)
    end
  else if bo_Type op =?s "delete_bucket" then
    (ms <| ms_buckets := delete (bo_Bucket op) (ms_buckets ms) |>, None)
  else if bo_Type op =?s "put_object_meta" then
    match object_unmarshal (bo_Value op) with
    | Ok object => (set_object (getObjectKey (ob_Bucket object) (ob_Key object)) object ms, None)
    | Err err => (ms, Some err)
    end
  else if bo_Type op =?s "delete_object_meta" then
    (ms <| ms_objects := delete (getObjectKey (bo_Bucket op) (bo_Key op)) (ms_objects ms) |>, None)
  else (ms, None).

(** The loop over the operations from the [i]th on; a nil error prints as
    [<nil>]. *)
Fixpoint apply_all (i : Z) (ops : list BatchOperation) (acc : BatchResult) (ms : MetadataStore)
    : MetadataStore * BatchResult :=
  match ops with
  | [] => (ms, acc)
  | op :: ops =>
      let '(ms, err) := apply_cached op ms in
      let success := match err with None => true | Some _ => false end in
      apply_all (i + 1) ops {|
        br_TotalOps := br_TotalOps acc;
        br_SuccessCount := if success then br_SuccessCount acc + 1 else br_SuccessCount acc;
        br_FailureCount := if success then br_FailureCount acc else br_FailureCount acc + 1;
        br_Results := app (br_Results acc) [{|
          or_Index := i; or_Type := bo_Type op; or_Bucket := bo_Bucket op; or_Key := bo_Key op;
          or_Success := success; or_Error := default "<nil>" err |}] |} ms
  end.

Definition command (op : BatchOperation) : MetadataCommand :=
  {| mc_Op := bo_Type op; mc_Bucket := bo_Bucket op; mc_Key := bo_Key op; mc_Value := bo_Value op |}.

Definition ExecuteBatch (ans : raft_answer) (operations : list BatchOperation) (ms : MetadataStore)
    : MetadataStore * result storage_error BatchResult :=
  match operations with
  | [] => (ms, Ok no_results)
  | _ =>
      let cmd := {| Operations := command <$> operations |} in
      match applyRAFTCommand ans (MarshalMetadataBatch cmd) ms with
      | (ms, Some err) => (ms, Err (Wrap "failed to apply batch to RAFT" err))
      | (ms, None) =>
          let '(ms, r) := apply_all 0 operations {| br_TotalOps := len operations; br_SuccessCount := 0;
            br_FailureCount := 0; br_Results := [] |} ms in (ms, Ok r)
      end
  end.

(** The first operation that could not be encoded. *)
Fixpoint first_error (i : Z) (ops : list BatchOperation) : option string :=
  match ops with
  | [] => None
  | op :: ops =>
      if bo_Type op =?s "error"
      then Some ("operation " +:+ show_Z i +:+ " has error: " +:+ bo_Value op)
      else first_error (i + 1) ops
  end.

Definition Execute (ans : raft_answer) (b : MetadataBatch) (ms : MetadataStore)
    : MetadataStore * result storage_error BatchResult :=
  match b with
  | [] => (ms, Ok no_results)
  | _ =>
      match first_error 0 b with
      | Some err => (ms, Err (Failure err))
      | None => ExecuteBatch ans b ms
      end
  end.

End batches.
End batch.

Definition IsSuccess (br : BatchResult) : bool := br_FailureCount br =? 0.

Definition GetFailures (br : BatchResult) : list OperationResult :=
  List.filter (fun r => negb (or_Success r)) (br_Results br).
