(* ===== verification/ObjectStore.v ===== *)
(** * The object store (pkg/storage/store.go)

    Objects over the content engine, the replication and the metadata.  The
    goroutines that delete the chunks of a deleted object and that repair
    replicas after a read are kept in the state and run chunk by chunk at any
    later time.  [None] is a panic, or a loop that does not end. *)

From S2P Require Import Prelude GoText GoFloat GoCrypto GoFiles RaftFSM StorageTypes ChunkStore ContentEngine StoragePlacement Replication ObjectMetadata.

Local Open Scope string_scope.
Local Open Scope Z_scope.

(** ** State *)

Record UploadPart := {
  up_PartNumber : Z; up_Size : Z; up_Checksum : string; up_ChunkIDs : list string; up_UploadedAt : Z
}.

Record MultipartUpload := {
  mu_UploadID : string;
  mu_Bucket : string;
  mu_Key : string;
  mu_StorageClass : string;
  mu_ContentType : string;
  mu_Metadata : gmap string string;
  mu_Parts : gmap Z UploadPart;
  mu_TotalSize : Z;
  mu_CreatedAt : Z
}.

#[export] Instance eta_MultipartUpload : Eta MultipartUpload := fun u =>
  Build_MultipartUpload (mu_UploadID u) (mu_Bucket u) (mu_Key u) (mu_StorageClass u)
    (mu_ContentType u) (mu_Metadata u) (mu_Parts u) (mu_TotalSize u) (mu_CreatedAt u).

(** [os_deleting] and [os_repairing] are the chunks that the goroutines have
    still to delete and to repair. *)
Record ObjectStore := {
  os_config : StorageConfig;
  os_meta : MetadataStore;
  os_chunks : ChunkStore;
  os_replication : ReplicationManager;
  os_placement : PlacementStrategy;
  os_uploads : gmap string MultipartUpload;
  os_deleting : list (list string);
  os_repairing : list (list string)
}.

#[export] Instance eta_ObjectStore : Eta ObjectStore := fun s =>
  Build_ObjectStore (os_config s) (os_meta s) (os_chunks s) (os_replication s) (os_placement s)
    (os_uploads s) (os_deleting s) (os_repairing s).

Definition engine (os : ObjectStore) : ContentEngine := {| ce_config := os_config os |}.

Record CreateBucketRequest := {
  cb_Name : string; cb_StorageClass : string; cb_QuotaBytes : Z; cb_Labels : gmap string string;
  cb_Owner : string
}.

(** The data of a stream is what the reader delivers. *)
Record PutObjectRequest := {
  po_Bucket : string; po_Key : string; po_Data : string; po_StorageClass : string;
  po_ContentType : string; po_Metadata : gmap string string
}.

Record GetObjectResponse := {
  go_Data : string; go_Size : Z; go_Checksum : string; go_StorageClass : string;
  go_ContentType : string; go_Metadata : gmap string string; go_CreatedAt : Z; go_UpdatedAt : Z
}.

Definition bucket_of (req : CreateBucketRequest) : Bucket := {|
  bk_Name := cb_Name req; bk_StorageClass := cb_StorageClass req; bk_QuotaBytes := cb_QuotaBytes req;
  bk_UsedBytes := 0; bk_CreatedAt := 0; bk_UpdatedAt := 0; bk_Labels := cb_Labels req;
  bk_Owner := cb_Owner req |}.

Definition new_object (bucket key storageClass contentType : string) (metadata : gmap string string)
    (size : Z) (checksum : string) (chunkIDs : list string) : Object := {|
  ob_Bucket := bucket; ob_Key := key; ob_Size := size; ob_Checksum := checksum;
  ob_ChunkIDs := chunkIDs; ob_Chunks := []; ob_Replicas := []; ob_Version := 0;
  ob_StorageClass := storageClass; ob_ContentType := contentType; ob_Metadata := metadata;
  ob_CreatedAt := 0; ob_UpdatedAt := 0; ob_AccessedAt := 0; ob_ECEnabled := false;
  ob_DataShards := 0; ob_ParityShards := 0; ob_ShardIndices := [] |}.

Definition requested (req : PutObjectRequest) : Z → string → list string → Object :=
  new_object (po_Bucket req) (po_Key req) (po_StorageClass req) (po_ContentType req) (po_Metadata req).

(** What a replication of one chunk reads: see [ReplicateChunk]. *)
Record ReplicaInputs := {
  ri_io : option string;
  ri_now : string → Z * Z * Z;
  ri_grow : nat → nat;
  ri_spare : nat;
  ri_schedule : list nat
}.

(** The answers of the operating system when chunks are written, when those of
    a failed write are removed and when the content of a failed put is
    deleted; the replications; the clock and the answer for the metadata. *)
Record PutInputs := {
  pi_write : nat → WriteIO;
  pi_cleanup : nat → option string;
  pi_replicate : nat → ReplicaInputs;
  pi_delete : nat → option string;
  pi_now : Z;
  pi_raft : raft_answer
}.

Definition quota_exceeded (bucket : Bucket) (size : Z) : bool :=
  (0 <? bk_QuotaBytes bucket) && (bk_QuotaBytes bucket <? int64 (bk_UsedBytes bucket + size)).

Section store.
Context `{GoRange, GoSort, Gzip, MetadataCodec}.

(** ** Starting *)

Definition NewObjectStore (mkdir : option string) (mtime : Path → Z) (stop : option (nat * string))
    (now : Z) (files : Files) (config : StorageConfig) (raftStore : option RaftNode)
    : result string ObjectStore :=
  match NewChunkStore mkdir mtime stop files config with
  | Err err => Err ("failed to create chunk store: " +:+ err)
  | Ok chunks => Ok {|
      os_config := config; os_meta := meta.NewMetadataStore now raftStore; os_chunks := chunks;
      os_replication := NewReplicationManager config; os_placement := NewPlacementStrategy config;
      os_uploads := ∅; os_deleting := []; os_repairing := [] |}
  end.

(** [Stop]; stopping the repair engine does not change the store. *)
Definition Stop (rm : string → option string) (os : ObjectStore) : ObjectStore :=
  os <| os_chunks := (GarbageCollect rm (os_chunks os)).1 |>.

(** ** Buckets *)

Definition CreateBucket (now : Z) (ans : raft_answer) (req : CreateBucketRequest) (os : ObjectStore)
    : ObjectStore * option storage_error :=
  if cb_Name req =?s "" then (os, Some (Failure "bucket name cannot be empty"))
  else
    let '(ms, err) := meta.CreateBucket now ans (bucket_of req) (os_meta os) in
    (os <| os_meta := ms |>, Wrap "failed to create bucket" <$> err).

Definition GetBucket (name : string) (os : ObjectStore) : result storage_error Bucket :=
  meta.GetBucket name (os_meta os).

Definition DeleteBucket (ans : raft_answer) (name : string) (os : ObjectStore)
    : ObjectStore * option storage_error :=
  let '(ms, err) := meta.DeleteBucket ans name (os_meta os) in
  (os <| os_meta := ms |>, Wrap "failed to delete bucket" <$> err).

Definition ListBuckets (os : ObjectStore) : list BucketMetadata := meta.ListBuckets (os_meta os).

(** ** Replication *)

Definition iops_class (storageClass : string) : string :=
  if storageClass =?s StorageClassHot then IOPSClassHigh
  else if storageClass =?s StorageClassCold then IOPSClassLow
  else IOPSClassMedium.

(** A negative factor makes the slice expression panic. *)
Definition getTargetNodes (storageClass : string) (os : ObjectStore) : option (list string) :=
  let factor := ReplicationFactor (os_config os) in
  let req := {| pr_StorageClass := storageClass; pr_IOPSClass := iops_class storageClass;
                pr_ReplicaCount := factor; pr_Size := 0; pr_PreferredZone := "";
                pr_ExcludeNodes := [] |} in
  match SelectNodes (os_placement os) req with
  | None => None
  | Some (Ok nodes) => Some nodes
  | Some (Err _) =>
      let fallbackNodes := ["node-1"; "node-2"; "node-3"] in
      if factor <=? 3 then
        if factor <? 0 then None else Some (take (Z.to_nat factor) fallbackNodes)
      else Some fallbackNodes
  end.

Fixpoint replicate_all (i : nat → ReplicaInputs) (k : nat) (targetNodes chunkIDs : list string)
    (cs : ChunkStore) (rm : ReplicationManager) : option (ReplicationManager * option string) :=
  match chunkIDs with
  | [] => Some (rm, None)
  | chunkID :: chunkIDs =>
      match ReplicateChunk (ri_io (i k)) (ri_now (i k)) (ri_grow (i k)) (ri_spare (i k))
              (ri_schedule (i k)) rm cs chunkID targetNodes with
      | None => None
      | Some (rm, Some err) => Some (rm, Some ("failed to replicate chunk " +:+ chunkID +:+ ": " +:+ err))
      | Some (rm, None) => replicate_all i (S k) targetNodes chunkIDs cs rm
      end
  end.

Definition replicateChunks (i : nat → ReplicaInputs) (chunkIDs : list string) (storageClass : string)
    (os : ObjectStore) : option (ObjectStore * option string) :=
  match getTargetNodes storageClass os with
  | None => None
  | Some targetNodes =>
      match replicate_all i 0 targetNodes chunkIDs (os_chunks os) (os_replication os) with
      | None => None
      | Some (rm, err) => Some (os <| os_replication := rm |>, err)
      end
  end.

(** ** Objects *)

Definition set_chunks (cs : ChunkStore) (os : ObjectStore) : ObjectStore := os <| os_chunks := cs |>.

Definition discard (rm : nat → option string) (chunkIDs : list string) (os : ObjectStore) : ObjectStore :=
  set_chunks (DeleteContent rm (os_chunks os) chunkIDs).1 os.

Definition put_meta (now : Z) (ans : raft_answer) (object : Object) (os : ObjectStore)
    : ObjectStore * option storage_error :=
  let '(ms, err) := meta.PutObject now ans false object (os_meta os) in (os <| os_meta := ms |>, err).

(** What follows the writing of the chunks, in both ways of putting an
    object. *)
Definition commit (i : PutInputs) (req : PutObjectRequest) (size : Z) (checksum : string)
    (chunkIDs : list string) (os : ObjectStore) : option (ObjectStore * option storage_error) :=
  match replicateChunks (pi_replicate i) chunkIDs (po_StorageClass req) os with
  | None => None
  | Some (os, Some err) =>
      Some (discard (pi_delete i) chunkIDs os, Some (Failure ("failed to replicate chunks: " +:+ err)))
  | Some (os, None) =>
      match put_meta (pi_now i) (pi_raft i) (requested req size checksum chunkIDs) os with
      | (os, Some err) => Some (discard (pi_delete i) chunkIDs os, Some (Wrap "failed to store metadata" err))
      | (os, None) => Some (os, None)
      end
  end.

Definition PutObject (i : PutInputs) (req : PutObjectRequest) (os : ObjectStore)
    : option (ObjectStore * option storage_error) :=
  match meta.GetBucket (po_Bucket req) (os_meta os) with
  | Err err => Some (os, Some (Wrap "bucket not found" err))
  | Ok bucket =>
      if quota_exceeded bucket (slen (po_Data req)) then Some (os, Some (Failure "bucket quota exceeded"))
      else match StoreContent (engine os) (pi_write i) (pi_cleanup i) (os_chunks os) (po_Data req) with
      | None => None
      | Some (cs, Err err) => Some (set_chunks cs os, Some (Failure ("failed to store content: " +:+ err)))
      | Some (cs, Ok (chunkIDs, checksum)) =>
          commit i req (slen (po_Data req)) checksum chunkIDs (set_chunks cs os)
      end
  end.

(** The reader fails with [fail] after the data. *)
Definition PutObjectStream (i : PutInputs) (fail : option string) (req : PutObjectRequest)
    (os : ObjectStore) : option (ObjectStore * option storage_error) :=
  match meta.GetBucket (po_Bucket req) (os_meta os) with
  | Err err => Some (os, Some (Wrap "bucket not found" err))
  | Ok bucket =>
      match StoreContentStream (engine os) (pi_write i) (pi_cleanup i) fail (os_chunks os) (po_Data req) with
      | None => None
      | Some (cs, Err err) => Some (set_chunks cs os, Some (Failure ("failed to store content: " +:+ err)))
      | Some (cs, Ok (chunkIDs, checksum)) =>
          let os := set_chunks cs os in
          match GetContentSize cs chunkIDs with
          | Err err =>
              Some (discard (pi_delete i) chunkIDs os, Some (Failure ("failed to get content size: " +:+ err)))
          | Ok size =>
              if quota_exceeded bucket size then
                Some (discard (pi_delete i) chunkIDs os, Some (Failure "bucket quota exceeded"))
              else commit i req size checksum chunkIDs os
          end
      end
  end.

Definition get_meta (read : Z) (bucket key : string) (os : ObjectStore)
    : ObjectStore * result storage_error Object :=
  let '(ms, r) := meta.GetObject read bucket key (os_meta os) in (os <| os_meta := ms |>, r).

(** The goroutine that repairs the chunks after a read. *)
Definition start_repair (chunkIDs : list string) (os : ObjectStore) : ObjectStore :=
  if EnableReadRepair (os_config os)
  then os <| os_repairing := app (os_repairing os) [chunkIDs] |> else os.

(** [io] and [again] are the answers for the two reads of the chunks. *)
Definition GetObject (read : Z) (io again : nat → option string) (bucket key : string) (os : ObjectStore)
    : ObjectStore * result storage_error GetObjectResponse :=
  match get_meta read bucket key os with
  | (os, Err err) => (os, Err (Wrap "object not found" err))
  | (os, Ok object) =>
      match RetrieveContent io (os_chunks os) (ob_ChunkIDs object) with
      | Err err => (os, Err (Failure ("failed to retrieve content: " +:+ err)))
      | Ok data =>
          match VerifyContent again (os_chunks os) (ob_ChunkIDs object) (ob_Checksum object) with
          | Some err => (os, Err (Failure ("data integrity check failed: " +:+ err)))
          | None =>
              (start_repair (ob_ChunkIDs object) os,
               Ok {| go_Data := data; go_Size := ob_Size object; go_Checksum := ob_Checksum object;
                     go_StorageClass := ob_StorageClass object; go_ContentType := ob_ContentType object;
                     go_Metadata := ob_Metadata object; go_CreatedAt := ob_CreatedAt object;
                     go_UpdatedAt := ob_UpdatedAt object |})
          end
      end
  end.

(** What reaches the writer, and the error. *)
Definition GetObjectStream (read : Z) (io : nat → option string) (w : nat → option (nat * string))
    (bucket key : string) (os : ObjectStore) : ObjectStore * (string * option storage_error) :=
  match get_meta read bucket key os with
  | (os, Err err) => (os, ("", Some (Wrap "object not found" err)))
  | (os, Ok object) =>
      match RetrieveContentStream io w (os_chunks os) (ob_ChunkIDs object) with
      | (out, Some err) => (os, (out, Some (Failure ("failed to retrieve content: " +:+ err))))
      | (out, None) => (start_repair (ob_ChunkIDs object) os, (out, None))
      end
  end.

Definition start_deletion (chunkIDs : list string) (os : ObjectStore) : ObjectStore :=
  os <| os_deleting := app (os_deleting os) [chunkIDs] |>.

Definition DeleteObject (read : Z) (ans : raft_answer) (bucket key : string) (os : ObjectStore)
    : ObjectStore * option storage_error :=
  match get_meta read bucket key os with
  | (os, Err err) => (os, Some (Wrap "object not found" err))
  | (os, Ok object) =>
      match meta.DeleteObject ans bucket key (os_meta os) with
      | (ms, Some err) => (os <| os_meta := ms |>, Some (Wrap "failed to delete metadata" err))
      | (ms, None) => (start_deletion (ob_ChunkIDs object) (os <| os_meta := ms |>), None)
      end
  end.

Definition ListObjects (bucket prefix : string) (maxKeys : Z) (os : ObjectStore)
    : result storage_error (list ObjectMetadata) := meta.ListObjects bucket prefix maxKeys (os_meta os).

(** *** The goroutines *)

(** Goroutine [k] deletes its next chunk. *)
Definition deletion_step (rm : option string) (k : nat) (os : ObjectStore) : ObjectStore :=
  match os_deleting os !! k with
  | Some (chunkID :: chunkIDs) =>
      set_chunks (DeleteChunk rm (os_chunks os) chunkID).1
        (os <| os_deleting := <[k := chunkIDs]> (os_deleting os) |>)
  | _ => os
  end.

Definition repair_step (io : option string) (now : Z * Z * Z) (k : nat) (os : ObjectStore) : ObjectStore :=
  match os_repairing os !! k with
  | Some (chunkID :: chunkIDs) =>
      os <| os_replication := (ReadRepair io now (os_replication os) (os_chunks os) chunkID).1 |>
         <| os_repairing := <[k := chunkIDs]> (os_repairing os) |>
  | _ => os
  end.

(** ** Multipart uploads *)

Definition upload_id (nanos : Z) (key : string) : string :=
  "upload-" +:+ show_Z nanos +:+ "-" +:+ key.

(** [nanos] and [now] are two readings of the clock; the data of the request is
    not used. *)
Definition InitiateMultipartUpload (nanos now : Z) (req : PutObjectRequest) (os : ObjectStore)
    : ObjectStore * result storage_error string :=
  match meta.GetBucket (po_Bucket req) (os_meta os) with
  | Err err => (os, Err (Wrap "bucket not found" err))
  | Ok _ =>
      let uploadID := upload_id nanos (po_Key req) in
      let upload := {|
        mu_UploadID := uploadID; mu_Bucket := po_Bucket req; mu_Key := po_Key req;
        mu_StorageClass := po_StorageClass req; mu_ContentType := po_ContentType req;
        mu_Metadata := po_Metadata req; mu_Parts := ∅; mu_TotalSize := 0; mu_CreatedAt := now |} in
      (os <| os_uploads := <[uploadID := upload]> (os_uploads os) |>, Ok uploadID)
  end.

Definition upload_not_found (uploadID : string) : storage_error :=
  Failure ("upload not found: " +:+ uploadID).

(** [pi_now] is the time of the part. *)
Definition UploadPart_ (i : PutInputs) (uploadID : string) (partNumber : Z) (data : string)
    (os : ObjectStore) : option (ObjectStore * result storage_error string) :=
  match os_uploads os !! uploadID with
  | None => Some (os, Err (upload_not_found uploadID))
  | Some upload =>
      match StoreContent (engine os) (pi_write i) (pi_cleanup i) (os_chunks os) data with
      | None => None
      | Some (cs, Err err) => Some (set_chunks cs os, Err (Failure ("failed to store part: " +:+ err)))
      | Some (cs, Ok (chunkIDs, checksum)) =>
          match replicateChunks (pi_replicate i) chunkIDs (mu_StorageClass upload) (set_chunks cs os) with
          | None => None
          | Some (os, Some err) =>
              Some (discard (pi_delete i) chunkIDs os, Err (Failure ("failed to replicate chunks: " +:+ err)))
          | Some (os, None) =>
              let part := {| up_PartNumber := partNumber; up_Size := slen data; up_Checksum := checksum;
                             up_ChunkIDs := chunkIDs; up_UploadedAt := pi_now i |} in
              let upload := upload <| mu_Parts := <[partNumber := part]> (mu_Parts upload) |>
                                   <| mu_TotalSize := int64 (mu_TotalSize upload + up_Size part) |> in
              Some (os <| os_uploads := <[uploadID := upload]> (os_uploads os) |>, Ok checksum)
          end
      end
  end.

(** The loop over the parts [i], ..., with [n] of them to go. *)
Fixpoint assemble_parts (io : Z → nat → option string) (cs : ChunkStore) (parts : gmap Z UploadPart)
    (n : nat) (i : Z) (allChunkIDs : list string) (buffer : string)
    : result string (list string * string) :=
  match n with
  | O => Ok (allChunkIDs, buffer)
  | S n =>
      match parts !! i with
      | None => Err ("missing part " +:+ show_Z i)
      | Some part =>
          match RetrieveContent (io i) cs (up_ChunkIDs part) with
          | Err err => Err ("failed to retrieve part " +:+ show_Z i +:+ ": " +:+ err)
          | Ok data =>
              assemble_parts io cs parts n (i + 1) (app allChunkIDs (up_ChunkIDs part)) (buffer +:+ data)
          end
      end
  end.

Definition CompleteMultipartUpload (io : Z → nat → option string) (now : Z) (ans : raft_answer)
    (uploadID : string) (os : ObjectStore) : ObjectStore * option storage_error :=
  match os_uploads os !! uploadID with
  | None => (os, Some (upload_not_found uploadID))
  | Some upload =>
      match meta.GetBucket (mu_Bucket upload) (os_meta os) with
      | Err err => (os, Some (Wrap "bucket not found" err))
      | Ok bucket =>
          if quota_exceeded bucket (mu_TotalSize upload) then (os, Some (Failure "bucket quota exceeded"))
          else match assemble_parts io (os_chunks os) (mu_Parts upload) (size (mu_Parts upload)) 1 [] "" with
          | Err err => (os, Some (Failure err))
          | Ok (allChunkIDs, buffer) =>
              let object := new_object (mu_Bucket upload) (mu_Key upload) (mu_StorageClass upload)
                (mu_ContentType upload) (mu_Metadata upload) (mu_TotalSize upload)
                (calculateChecksum buffer) allChunkIDs in
              match put_meta now ans object os with
              | (os, Some err) => (os, Some (Wrap "failed to store metadata" err))
              | (os, None) => (os <| os_uploads := delete uploadID (os_uploads os) |>, None)
              end
          end
      end
  end.

(** One goroutine per part; they run in any order. *)
Definition AbortMultipartUpload (uploadID : string) (os : ObjectStore)
    : ObjectStore * option storage_error :=
  match os_uploads os !! uploadID with
  | None => (os, Some (upload_not_found uploadID))
  | Some upload =>
      let os := foldl (fun os part => start_deletion (up_ChunkIDs part) os) os
                  (map_to_list (mu_Parts upload)).*2 in
      (os <| os_uploads := delete uploadID (os_uploads os) |>, None)
  end.

(** ** Statistics *)

Definition GetStats (now : Z) (os : ObjectStore) : StorageStats := meta.GetStats now (os_meta os).

End store.
