(* ===== verification/ObjectStoreSpec.v ===== *)
(** * The object store keeps its objects

    The store is compared with a map from objects to their contents and a map
    of the uploads in progress.  For every history of operations, with whatever
    failures of the disk, of replication and of the cluster, and however the
    goroutines that delete chunks interleave with them, the chunks of every
    object are counted, so a read gives the content last put. *)

From S2P Require Import Prelude GoText GoFloat GoCrypto GoFiles RaftFSM StorageTypes ChunkStore ChunkStoreSpec ContentEngine ContentSpec StoragePlacement Replication ObjectMetadata ObjectStore.

#[local] Opaque sha256_hex.

(** Rewriting with inclusions of multisets. *)
#[local] Instance app_submseteq :
  Proper (submseteq ==> submseteq ==> submseteq) (@app string).
Proof. intros l1 l2 Hl k1 k2 Hk. by apply submseteq_app. Qed.

(** ** References of a map *)

Section totals.
Context `{Countable K} {A : Type} (f : A → list string).

Definition total (m : gmap K A) : list string := concat (f <$> (map_to_list m).*2).

Lemma total_empty : total ∅ = [].
Proof. unfold total. by rewrite map_to_list_empty. Qed.

Lemma total_fresh (m : gmap K A) k a : m !! k = None → total (<[k := a]> m) ≡ₚ f a ++ total m.
Proof. intros Hk. unfold total. by rewrite map_to_list_insert. Qed.

Lemma total_delete (m : gmap K A) k a : m !! k = Some a → total m ≡ₚ f a ++ total (delete k m).
Proof.
  intros Hk. rewrite <-(insert_delete_id m k a Hk) at 1. apply total_fresh, lookup_delete_eq.
Qed.

(** What was under [k] is dropped. *)
Lemma total_insert (m : gmap K A) k a : total (<[k := a]> m) ⊆+ f a ++ total m.
Proof.
  destruct (m !! k) as [b|] eqn:Hk.
  - rewrite <-insert_delete_eq, (total_fresh _ _ _ (lookup_delete_eq m k)), (total_delete m k b Hk).
    apply submseteq_app; [done|]. apply submseteq_inserts_l. done.
  - by rewrite (total_fresh m k a Hk).
Qed.

Lemma total_lookup (m : gmap K A) k a x : m !! k = Some a → x ∈ f a → x ∈ total m.
Proof. intros Hk Hx. rewrite (total_delete m k a Hk). apply elem_of_app. by left. Qed.
End totals.

(** ** Views of the metadata *)

(** What a read of an object needs. *)
Definition located (o : Object) : list string * string := (ob_ChunkIDs o, ob_Checksum o).

Definition view (ms : MetadataStore) : gmap string (list string * string) := located <$> ms_objects ms.

Lemma objects_view_set k o ms : view (set_object k o ms) = <[k := located o]> (view ms).
Proof. apply fmap_insert. Qed.

Lemma objects_view_lookup k ms : view ms !! k = located <$> ms_objects ms !! k.
Proof. apply lookup_fmap. Qed.

Lemma apply_raft_caches ans d ms :
  ms_objects (applyRAFTCommand ans d ms).1 = ms_objects ms ∧
  ms_buckets (applyRAFTCommand ans d ms).1 = ms_buckets ms.
Proof. unfold applyRAFTCommand. repeat case_match; by simplify_eq/=. Qed.

Section views.
Context `{GoRange, MetadataCodec}.

Lemma create_bucket_view now ans b ms : view (meta.CreateBucket now ans b ms).1 = view ms.
Proof.
  unfold meta.CreateBucket, view. repeat case_match; try done;
    match goal with E : applyRAFTCommand ?a ?d ?m = _ |- _ =>
      pose proof (proj1 (apply_raft_caches a d m)) as Hc; rewrite E in Hc end; simpl in *; by rewrite Hc.
Qed.

Lemma delete_bucket_view ans name ms : view (meta.DeleteBucket ans name ms).1 = view ms.
Proof.
  unfold meta.DeleteBucket, view. repeat case_match; try done;
    match goal with E : applyRAFTCommand ?a ?d ?m = _ |- _ =>
      pose proof (proj1 (apply_raft_caches a d m)) as Hc; rewrite E in Hc end; simpl in *; by rewrite Hc.
Qed.

Lemma put_object_view now ans o ms :
  view (meta.PutObject now ans false o ms).1 =
  match (meta.PutObject now ans false o ms).2 with
  | None => <[getObjectKey (ob_Bucket o) (ob_Key o) := located o]> (view ms)
  | Some _ => view ms
  end.
Proof.
  unfold meta.PutObject. destruct (meta.GetBucket _ _) as [b|]; [|done].
  cbv zeta. case_match; [done|]. case_match; [|done].
  match goal with |- context [applyRAFTCommand ?a ?d ?m] =>
    pose proof (proj1 (apply_raft_caches a d m)) as Hc; destruct (applyRAFTCommand a d m) as [ms' [e|]] end;
    simpl in Hc |- *; unfold view; simpl; rewrite Hc; [done|].
  rewrite fmap_insert. by case_match.
Qed.

Lemma get_object_view read b k ms :
  view (meta.GetObject read b k ms).1 = view ms ∧
  match (meta.GetObject read b k ms).2 with
  | Ok o => view ms !! getObjectKey b k = Some (located o)
  | Err _ => True
  end.
Proof.
  unfold meta.GetObject, meta.GetObjectWithOptions, meta.misdirected, meta.too_stale. cbn [ro_Consistency DefaultReadOptions].
  rewrite bool_decide_eq_true_2 by done. destruct (_ <$> follower ms); [done|].
  destruct (ms_objects ms !! _) as [o|] eqn:Ho; [|done]. rewrite bool_decide_eq_false_2 by done.
  cbn [fst snd]. rewrite objects_view_set, objects_view_lookup, Ho. split; [|done].
  apply insert_id. by rewrite objects_view_lookup, Ho.
Qed.

Lemma get_object_found read b k ms ids sum :
  follower ms = None → view ms !! getObjectKey b k = Some (ids, sum) →
  ∃ ms' o, meta.GetObject read b k ms = (ms', Ok o) ∧ ob_ChunkIDs o = ids ∧ ob_Checksum o = sum.
Proof.
  intros Hf Hv. unfold meta.GetObject, meta.GetObjectWithOptions, meta.misdirected, meta.too_stale.
  rewrite Hf. rewrite objects_view_lookup in Hv. destruct (ms_objects ms !! _) as [o|]; [|done].
  injection Hv as <- <-. eauto.
Qed.

Lemma get_object_missing read b k ms :
  follower ms = None → view ms !! getObjectKey b k = None →
  meta.GetObject read b k ms = (ms, Err (NotFoundError ("object:" +:+ b +:+ "/" +:+ k))).
Proof.
  intros Hf Hv. unfold meta.GetObject, meta.GetObjectWithOptions, meta.misdirected.
  rewrite Hf. rewrite objects_view_lookup in Hv. by destruct (ms_objects ms !! _).
Qed.

Lemma delete_object_view ans b k ms :
  view (meta.DeleteObject ans b k ms).1 =
  match (meta.DeleteObject ans b k ms).2 with
  | None => delete (getObjectKey b k) (view ms)
  | Some _ => view ms
  end.
Proof.
  unfold meta.DeleteObject. destruct (ms_objects ms !! _) as [o|]; [|done].
  match goal with |- context [applyRAFTCommand ?a ?d ?m] =>
    pose proof (proj1 (apply_raft_caches a d m)) as Hc; destruct (applyRAFTCommand a d m) as [ms' [e|]] end;
    simpl in Hc |- *; unfold view.
  - by rewrite Hc.
  - case_match; simpl; by rewrite Hc, fmap_delete.
Qed.
End views.

(** ** The specification *)

(** An upload in progress: the object it is for and the pieces of each part. *)
Record Upload := { ul_key : string; ul_parts : gmap Z (list string) }.

(** The pieces of every object and of every upload; the content is what they
    make together. *)
Record Contents := { objs : gmap string (list string); ups : gmap string Upload }.

#[export] Instance eta_Contents : Eta Contents := fun s => Build_Contents (objs s) (ups s).

(** The parts [i], ..., with [n] of them to go, one after the other. *)
Fixpoint gather (parts : gmap Z (list string)) (n : nat) (i : Z) : option (list string) :=
  match n with
  | O => Some []
  | S n => parts !! i ≫= fun ds => app ds <$> gather parts n (i + 1)
  end.

Definition put_content (k : string) (ds : list string) (s : Contents) : Contents :=
  s <| objs := <[k := ds]> (objs s) |>.

Definition put_part (id : string) (i : Z) (ds : list string) (s : Contents) : Contents :=
  s <| ups := alter (fun u => {| ul_key := ul_key u; ul_parts := <[i := ds]> (ul_parts u) |}) id (ups s) |>.

(** The operations, with what they read; [OCollect] is a collection whose
    removals succeed. *)
Inductive oop : Type :=
| OCreateBucket (now : Z) (ans : raft_answer) (req : CreateBucketRequest)
| ODeleteBucket (ans : raft_answer) (name : string)
| OPut (i : PutInputs) (req : PutObjectRequest)
| OPutStream (i : PutInputs) (fail : option string) (req : PutObjectRequest)
| OGet (read : Z) (io again : nat → option string) (bucket key : string)
| OGetStream (read : Z) (io : nat → option string) (w : nat → option (nat * string)) (bucket key : string)
| ODelete (read : Z) (ans : raft_answer) (bucket key : string)
| OInitiate (nanos now : Z) (req : PutObjectRequest)
| OUpload (i : PutInputs) (id : string) (part : Z) (data : string)
| OComplete (io : Z → nat → option string) (now : Z) (ans : raft_answer) (id : string)
| OAbort (id : string)
| ODeletion (rm : option string) (k : nat)
| ORepair (io : option string) (now : Z * Z * Z) (k : nat)
| OCollect.

(** The answer of an operation: a text, or an error. *)
Abbreviation answer := (result storage_error string).

Definition answered (r : ObjectStore * option storage_error) : ObjectStore * answer :=
  (r.1, match r.2 with None => Ok EmptyString | Some e => Err e end).

Section spec.
Context `{GoRange, GoSort, Gzip, MetadataCodec}.

(** [None] when the operation panics. *)
Definition oexec (o : oop) (os : ObjectStore) : option (ObjectStore * answer) :=
  match o with
  | OCreateBucket now ans req => Some (answered (CreateBucket now ans req os))
  | ODeleteBucket ans name => Some (answered (DeleteBucket ans name os))
  | OPut i req => answered <$> PutObject i req os
  | OPutStream i fail req => answered <$> PutObjectStream i fail req os
  | OGet read io again b k =>
      let '(os, r) := GetObject read io again b k os in
      Some (os, match r with Ok resp => Ok (go_Data resp) | Err e => Err e end)
  | OGetStream read io w b k =>
      let '(os, (out, err)) := GetObjectStream read io w b k os in
      Some (os, match err with None => Ok out | Some e => Err e end)
  | ODelete read ans b k => Some (answered (DeleteObject read ans b k os))
  | OInitiate nanos now req => Some (InitiateMultipartUpload nanos now req os)
  | OUpload i id part data => UploadPart_ i id part data os
  | OComplete io now ans id => Some (answered (CompleteMultipartUpload io now ans id os))
  | OAbort id => Some (answered (AbortMultipartUpload id os))
  | ODeletion rm k => Some (deletion_step rm k os, Ok EmptyString)
  | ORepair io now k => Some (repair_step io now k os, Ok EmptyString)
  | OCollect => Some (Stop (fun _ => None) os, Ok EmptyString)
  end.

Context (config : StorageConfig) (U : list string).

Abbreviation cut := (object_pieces {| ce_config := config |}).

(** The pieces an operation writes. *)
Definition op_pieces (o : oop) : list string :=
  match o with
  | OPut _ req | OPutStream _ _ req => cut (po_Data req)
  | OUpload _ _ _ data => cut data
  | _ => []
  end.

(** What an operation may answer, and what it does to the contents. *)
Definition ospec (o : oop) (a : answer) (s s' : Contents) : Prop :=
  match o, a with
  | OPut _ req, Ok _ | OPutStream _ _ req, Ok _ =>
      s' = put_content (getObjectKey (po_Bucket req) (po_Key req)) (cut (po_Data req)) s
  | OGet _ _ _ b k, Ok d | OGetStream _ _ _ b k, Ok d =>
      s' = s ∧ concat_bytes <$> objs s !! getObjectKey b k = Some d
  | ODelete _ _ b k, Ok _ =>
      is_Some (objs s !! getObjectKey b k) ∧ s' = s <| objs := delete (getObjectKey b k) (objs s) |>
  | OInitiate _ _ req, Ok id =>
      s' = s <| ups := <[id := {| ul_key := getObjectKey (po_Bucket req) (po_Key req); ul_parts := ∅ |}]>
                         (ups s) |>
  | OUpload _ id part data, Ok _ => is_Some (ups s !! id) ∧ s' = put_part id part (cut data) s
  | OComplete _ _ _ id, Ok _ =>
      ∃ u ds, ups s !! id = Some u ∧ gather (ul_parts u) (size (ul_parts u)) 1 = Some ds ∧
        s' = put_content (ul_key u) ds (s <| ups := delete id (ups s) |>)
  | OAbort id, Ok _ => is_Some (ups s !! id) ∧ s' = s <| ups := delete id (ups s) |>
  | _, _ => s' = s
  end.

(** ** The invariant *)

Definition ids : list string → list string := map sha256_hex.

Definition upload_refs (u : Upload) : list string := total ids (ul_parts u).

Definition held (s : Contents) : list string := total ids (objs s) ++ total upload_refs (ups s).

(** The references the store has to keep: to objects, uploads and to what is
    being deleted. *)
Definition live (os : ObjectStore) (s : Contents) : list string := held s ++ concat (os_deleting os).

Definition stored (ds : list string) : list string * string := (ids ds, sha256_hex (concat_bytes ds)).

Definition upload_view (u : MultipartUpload) : string * gmap Z (list string) :=
  (getObjectKey (mu_Bucket u) (mu_Key u), up_ChunkIDs <$> mu_Parts u).

Definition upload_ids (u : Upload) : string * gmap Z (list string) := (ul_key u, ids <$> ul_parts u).

(** The chunk store counts [l], which has at least the live references. *)
Record inv_with (os : ObjectStore) (s : Contents) (l : list string) : Prop := {
  iv_config : os_config os = config;
  iv_objs : view (os_meta os) = stored <$> objs s;
  iv_ups : upload_view <$> os_uploads os = upload_ids <$> ups s;
  iv_objs_U : ∀ k ds, objs s !! k = Some ds → ds ⊆ U;
  iv_ups_U : ∀ id u i ds, ups s !! id = Some u → ul_parts u !! i = Some ds → ds ⊆ U;
  iv_good : good U (os_chunks os) l;
  iv_live : live os s ⊆+ l
}.

Definition inv (os : ObjectStore) (s : Contents) (n : Z) : Prop := ∃ l, inv_with os s l ∧ len l ≤ n.

End spec.

Section steps.
Context `{GoRange, GoSort, Gzip, MetadataCodec} (config : StorageConfig) (U : list string).
Context (Hsize : 0 < ChunkSize config) (Hcf : collision_free U).

Abbreviation inv_with := (inv_with config U).
Abbreviation inv := (inv config U).

(** *** Changes that keep the references *)

Lemma inv_ext os os' s l :
  inv_with os s l → os_config os' = os_config os → view (os_meta os') = view (os_meta os) →
  os_uploads os' = os_uploads os → os_chunks os' = os_chunks os → os_deleting os' = os_deleting os →
  inv_with os' s l.
Proof.
  intros [H1' H2' H3' H4' H5' H6' H7'] Hc Hv Hu Hk Hd. split; try done; try congruence.
  unfold live in *. by rewrite Hd.
Qed.

Lemma inv_good os s l cs l' :
  inv_with os s l → good U cs l' → live os s ⊆+ l' → inv_with (set_chunks cs os) s l'.
Proof. intros []. by split. Qed.

Lemma live_put os s k ds l : live os s ⊆+ l → live os (put_content k ds s) ⊆+ ids ds ++ l.
Proof.
  intros Hl. trans (ids ds ++ live os s); [|by apply submseteq_app].
  unfold live, held, put_content. cbn [objs ups]. rewrite !app_assoc.
  repeat (apply submseteq_app; [|done]). apply total_insert.
Qed.

Lemma discard_inv rm os s ds l :
  inv_with os s (ds ++ l) → live os s ⊆+ l → len (ds ++ l) ≤ max_refs → inv_with (discard rm ds os) s l.
Proof.
  intros Hi Hl Hn. eapply inv_good; [done| |done]. by apply (good_deletes U), Hn; apply Hi.
Qed.

Lemma replicate_frame i ids cls os os' err :
  replicateChunks i ids cls os = Some (os', err) → ∃ rm, os' = os <| os_replication := rm |>.
Proof. unfold replicateChunks. intros Hr. repeat case_match; simplify_eq. eauto. Qed.

Lemma replicate_inv i ids cls os os' err s l :
  replicateChunks i ids cls os = Some (os', err) → inv_with os s l → live os s ⊆+ l →
  inv_with os' s l ∧ live os' s = live os s.
Proof. intros [rm ->]%replicate_frame Hi _. split; [by eapply inv_ext|done]. Qed.

(** *** Putting objects *)

Lemma put_meta_inv now ans o os s l ds :
  inv_with os s l → live os s ⊆+ l → located o = stored ds → ds ⊆ U →
  live os (put_content (getObjectKey (ob_Bucket o) (ob_Key o)) ds s) ⊆+ l →
  match put_meta now ans o os with
  | (os', Some _) => inv_with os' s l ∧ live os' s = live os s
  | (os', None) => inv_with os' (put_content (getObjectKey (ob_Bucket o) (ob_Key o)) ds s) l ∧
      os_uploads os' = os_uploads os ∧ os_deleting os' = os_deleting os ∧ os_config os' = os_config os ∧
      os_chunks os' = os_chunks os
  end.
Proof.
  intros Hi Hl Ho HU Hlive. unfold put_meta. pose proof (put_object_view now ans o (os_meta os)) as Hv.
  destruct (meta.PutObject _ _ _ _ _) as [ms [e|]]; cbn [fst snd] in Hv.
  - split; [|done]. by eapply inv_ext.
  - split; [|done]. destruct Hi as [H1' H2' H3' H4' H5' H6' H7']. split; try done.
    + change (os_meta _) with ms. rewrite Hv, H2', Ho. symmetry. apply fmap_insert.
    + intros k ds'. change (objs _) with (<[getObjectKey (ob_Bucket o) (ob_Key o) := ds]> (objs s)).
      intros [[_ <-]|[_ Hk]]%lookup_insert_Some; [done|by eapply H4'].
Qed.

Lemma commit_inv i req size ds os os' err s l :
  inv_with os s (ids ds ++ l) → live os s ⊆+ l → ds ⊆ U → len (ids ds ++ l) ≤ max_refs →
  commit i req size (sha256_hex (concat_bytes ds)) (ids ds) os = Some (os', err) →
  match err with
  | Some _ => inv_with os' s l
  | None => inv_with os' (put_content (getObjectKey (po_Bucket req) (po_Key req)) ds s) (ids ds ++ l)
  end.
Proof.
  intros Hi Hl HU Hn. unfold commit.
  destruct (replicateChunks _ _ _ _) as [[os1 err1]|] eqn:Hr; [|done].
  destruct (replicate_inv _ _ _ _ _ _ _ _ Hr Hi) as [Hi1 Hl1]; [by apply submseteq_inserts_l|].
  destruct err1 as [e1|].
  { intros [<- <-]%(inj Some)%pair_eq. apply discard_inv; [done|by rewrite Hl1|done]. }
  pose proof (put_meta_inv (pi_now i) (pi_raft i) (requested req size (sha256_hex (concat_bytes ds)) (ids ds))
    os1 s (ids ds ++ l) ds Hi1) as Hp. cbn [ob_Bucket ob_Key requested new_object] in Hp.
  destruct (put_meta _ _ _ os1) as [os2 [e2|]]; intros [<- <-]%(inj Some)%pair_eq.
  - destruct Hp as [Hi2 Hl2]; [rewrite Hl1; by apply submseteq_inserts_l|done|done| |].
    { apply live_put. by rewrite Hl1. }
    apply discard_inv; [done|by rewrite Hl2, Hl1|done].
  - apply Hp; [rewrite Hl1; by apply submseteq_inserts_l|done|done|]. apply live_put. by rewrite Hl1.
Qed.

Lemma len_ids ds (l : list string) : len (ids ds ++ l) = len l + len ds.
Proof. unfold len, ids. rewrite length_app, length_map. lia. Qed.

(** What the content engine leaves when it has stored [data]. *)
Lemma written_inv r os s l data :
  inv_with os s l → outcome {| ce_config := config |} U l data r →
  let ds := object_pieces {| ce_config := config |} data in
  match r with
  | None => False
  | Some (cs, Err _) => inv_with (set_chunks cs os) s l
  | Some (cs, Ok (cids, sum)) =>
      cids = ids ds ∧ sum = sha256_hex (concat_bytes ds) ∧ inv_with (set_chunks cs os) s (ids ds ++ l)
  end.
Proof.
  intros Hi Ho ds. destruct r as [[cs [[cids sum]|e]]|]; simpl in Ho; [| |done].
  - destruct Ho as (-> & -> & Hg). unfold ds. rewrite (object_pieces_concat {| ce_config := config |}) by done.
    split_and!; [done|done|]. eapply inv_good; [done|done|]. apply submseteq_inserts_l, Hi.
  - eapply inv_good; [done|done|apply Hi].
Qed.

Lemma inv_le os s l n n' : inv_with os s l → len l ≤ n → n ≤ n' → inv os s n'.
Proof. intros Hi Hl Hn. exists l. split; [done|lia]. Qed.

Lemma stored_inv (r : option (ChunkStore * result string (list string * string))) os s l data n :
  inv_with os s l → len l ≤ n → n + len (object_pieces {| ce_config := config |} data) ≤ max_refs →
  object_pieces {| ce_config := config |} data ⊆ U →
  (∃ io rm, r = StoreContent (engine os) io rm (os_chunks os) data) ∨
  (∃ io rm fail, r = StoreContentStream (engine os) io rm fail (os_chunks os) data) →
  outcome {| ce_config := config |} U l data r.
Proof.
  intros Hi Hl Hc HU Hr. assert (engine os = {| ce_config := config |}) as He
    by (unfold engine; by rewrite (iv_config _ _ _ _ _ Hi)).
  destruct Hr as [(io & rm & ->)|(io & rm & fail & ->)]; rewrite He;
    [apply store_outcome|apply stream_outcome]; try done; try apply Hi; lia.
Qed.

(** The contents after a put that answered [err]. *)
Definition after_put (req : PutObjectRequest) (err : option storage_error) (s : Contents) : Contents :=
  match err with
  | Some _ => s
  | None => put_content (getObjectKey (po_Bucket req) (po_Key req))
              (object_pieces {| ce_config := config |} (po_Data req)) s
  end.

Lemma commit_put i req size os os' err s l n :
  let ds := object_pieces {| ce_config := config |} (po_Data req) in
  inv_with os s (ids ds ++ l) → live os s ⊆+ l → ds ⊆ U → len l ≤ n → n + len ds ≤ max_refs →
  commit i req size (sha256_hex (concat_bytes ds)) (ids ds) os = Some (os', err) →
  inv os' (after_put req err s) (n + len ds).
Proof.
  intros ds Hi Hl HU Hn Hc Hcm. apply (commit_inv i req _ ds _ os' err s l) in Hcm; [|done..|rewrite len_ids; lia].
  destruct err; eapply inv_le; [done|exact Hn|unfold len; lia|done|rewrite len_ids; reflexivity|unfold len in *; lia].
Qed.

Lemma put_inv i req os os' err s n :
  let ds := object_pieces {| ce_config := config |} (po_Data req) in
  inv os s n → ds ⊆ U → n + len ds ≤ max_refs → PutObject i req os = Some (os', err) →
  inv os' (after_put req err s) (n + len ds).
Proof.
  intros ds (l & Hi & Hn) HU Hc. unfold PutObject.
  assert (0 ≤ len ds) by (unfold len; lia). pose proof (inv_le os s l n (n + len ds) Hi Hn ltac:(lia)) as Hsame.
  destruct (meta.GetBucket _ _) as [b|e]; [|by intros [<- <-]%(inj Some)%pair_eq].
  case_match; [by intros [<- <-]%(inj Some)%pair_eq|].
  destruct (StoreContent _ _ _ _ _) as [r|] eqn:Hst; [|done]; symmetry in Hst.
  pose proof (written_inv _ os s l (po_Data req) Hi (stored_inv _ os s l _ n Hi Hn Hc HU (or_introl (ex_intro _ _ (ex_intro _ _ Hst))))) as Hw.
  destruct r as [cs [[cids sum]|e]]; cbv zeta in Hw.
  - destruct Hw as (-> & -> & Hw). apply (commit_put i req _ _ os' err s l n Hw); [apply Hi|done..].
  - intros [<- <-]%(inj Some)%pair_eq. by eapply inv_le; [|exact Hn|lia].
Qed.

Lemma put_stream_inv i fail req os os' err s n :
  let ds := object_pieces {| ce_config := config |} (po_Data req) in
  inv os s n → ds ⊆ U → n + len ds ≤ max_refs → PutObjectStream i fail req os = Some (os', err) →
  inv os' (after_put req err s) (n + len ds).
Proof.
  intros ds (l & Hi & Hn) HU Hc. unfold PutObjectStream.
  assert (0 ≤ len ds) by (unfold len; lia). pose proof (inv_le os s l n (n + len ds) Hi Hn ltac:(lia)) as Hsame.
  destruct (meta.GetBucket _ _) as [b|e]; [|by intros [<- <-]%(inj Some)%pair_eq].
  destruct (StoreContentStream _ _ _ _ _ _) as [r|] eqn:Hst; [|done]; symmetry in Hst.
  pose proof (written_inv _ os s l (po_Data req) Hi (stored_inv _ os s l _ n Hi Hn Hc HU
    (or_intror (ex_intro _ _ (ex_intro _ _ (ex_intro _ _ Hst)))))) as Hw.
  destruct r as [cs [[cids sum]|e]]; cbv zeta in Hw |- *.
  - destruct Hw as (-> & -> & Hw).
    assert (inv (discard (pi_delete i) (ids ds) (set_chunks cs os)) s (n + len ds)) as Hdis.
    { eapply inv_le; [|exact Hn|lia]. apply discard_inv; [done|apply Hi|rewrite len_ids; fold ds; lia]. }
    destruct (GetContentSize _ _) as [size|e]; [|by intros [<- <-]%(inj Some)%pair_eq].
    case_match; [by intros [<- <-]%(inj Some)%pair_eq|].
    apply (commit_put i req _ _ os' err s l n Hw); [apply Hi|done..].
  - intros [<- <-]%(inj Some)%pair_eq. by eapply inv_le; [|exact Hn|lia].
Qed.

(** *** Reading *)

Lemma read_ok io cs id d : ReadChunk io cs id = Ok d → ReadChunk None cs id = Ok d.
Proof. unfold ReadChunk, ReadFile. destruct io; [|done]. by destruct (GetChunk cs id). Qed.

Lemma read_chunks_ok io cs ds d : ∀ i buffer,
  read_chunks io i cs buffer ds = Ok d → read_chunks (fun _ => None) i cs buffer ds = Ok d.
Proof.
  induction ds as [|c ds IH]; intros i buffer; simpl; [done|].
  destruct (ReadChunk (io i) cs c) eqn:Hr; [|done]. rewrite (read_ok _ _ _ _ Hr). apply IH.
Qed.

Lemma retrieve_any io cs l ds d :
  good U cs l → ds ⊆ U → ids ds ⊆ l → RetrieveContent io cs (ids ds) = Ok d → d = concat_bytes ds.
Proof.
  intros Hg HU Hl Hr. assert (RetrieveContent (fun _ => None) cs (ids ds) = Ok d) as Hr'.
  { revert Hr. unfold RetrieveContent. destruct (ids ds); [done|]. apply read_chunks_ok. }
  unfold ids in Hr'. rewrite (retrieve_good U Hcf cs l) in Hr' by done. by injection Hr'.
Qed.

Lemma write_chunks_read io w cs ds d : ∀ i buffer,
  write_chunks io w i cs buffer ds = (d, None) → read_chunks io i cs buffer ds = Ok d.
Proof.
  induction ds as [|c ds IH]; intros i buffer; simpl; [by intros [= ->]|].
  destruct (ReadChunk (io i) cs c); [|done]. destruct (w i) as [[]|]; [done|]. apply IH.
Qed.

(** The chunks of an object are among those counted. *)
Lemma object_counted os s l k ds : inv_with os s l → objs s !! k = Some ds → ids ds ⊆ l.
Proof.
  intros Hi Hk x Hx. eapply elem_of_submseteq; [|apply (iv_live _ _ _ _ _ Hi)].
  unfold live, held. rewrite !elem_of_app. left. left. by eapply total_lookup.
Qed.

Lemma get_meta_inv read b k os os' r s l :
  inv_with os s l → get_meta read b k os = (os', r) →
  inv_with os' s l ∧ live os' s = live os s ∧ os_chunks os' = os_chunks os ∧
  match r with
  | Ok o => ∃ ds, objs s !! getObjectKey b k = Some ds ∧ located o = stored ds ∧ ds ⊆ U
  | Err _ => True
  end.
Proof.
  intros Hi. unfold get_meta. destruct (get_object_view read b k (os_meta os)) as [Hv Ho].
  destruct (meta.GetObject _ _ _ _) as [ms r']. cbn [fst snd] in *. intros [<- <-]%pair_eq.
  split_and!; [by eapply inv_ext|done|done|]. destruct r' as [o|]; [|done].
  rewrite (iv_objs _ _ _ _ _ Hi), lookup_fmap in Ho. destruct (objs s !! _) as [ds|] eqn:Hk; [|done].
  apply (inj Some) in Ho. exists ds. split_and!; [done|done|]. by eapply (iv_objs_U _ _ _ _ _ Hi).
Qed.

Lemma start_repair_inv cids os s l : inv_with os s l → inv_with (start_repair cids os) s l.
Proof. intros Hi. unfold start_repair. case_match; [by eapply inv_ext|done]. Qed.

Lemma get_inv read io again b k os os' r s n :
  inv os s n → GetObject read io again b k os = (os', r) →
  inv os' s n ∧ match r with
                | Ok resp => concat_bytes <$> objs s !! getObjectKey b k = Some (go_Data resp)
                | Err _ => True
                end.
Proof.
  intros (l & Hi & Hn). unfold GetObject. destruct (get_meta _ _ _ _) as [os1 r1] eqn:Hg.
  destruct (get_meta_inv _ _ _ _ _ _ _ _ Hi Hg) as (Hi1 & _ & _ & Ho).
  assert (inv os1 s n) as Hinv by by exists l.
  destruct r1 as [o|e]; [|by intros [<- <-]%pair_eq]. destruct Ho as (ds & Hk & Ho & HU).
  injection Ho as Hids _. destruct (RetrieveContent _ _ _) as [d|] eqn:Hr; [|by intros [<- <-]%pair_eq].
  case_match; [by intros [<- <-]%pair_eq|]. intros [<- <-]%pair_eq. cbn [go_Data].
  rewrite Hids in Hr. split; [exists l; split; [by apply start_repair_inv|done]|].
  rewrite Hk. simpl. f_equal. symmetry.
  eapply retrieve_any; [apply Hi1|done|by eapply object_counted|done].
Qed.

Lemma get_stream_inv read io w b k os os' out err s n :
  inv os s n → GetObjectStream read io w b k os = (os', (out, err)) →
  inv os' s n ∧ match err with
                | None => concat_bytes <$> objs s !! getObjectKey b k = Some out
                | Some _ => True
                end.
Proof.
  intros (l & Hi & Hn). unfold GetObjectStream. destruct (get_meta _ _ _ _) as [os1 r1] eqn:Hg.
  destruct (get_meta_inv _ _ _ _ _ _ _ _ Hi Hg) as (Hi1 & _ & _ & Ho).
  assert (inv os1 s n) as Hinv by by exists l.
  destruct r1 as [o|e]; [|by intros [= <- <- <-]]. destruct Ho as (ds & Hk & Ho & HU). injection Ho as Hids _.
  destruct (RetrieveContentStream _ _ _ _) as [out' [e|]] eqn:Hr; [by intros [= <- <- <-]|].
  intros Heq. injection Heq as <- <- <-. split; [exists l; split; [by apply start_repair_inv|done]|].
  rewrite Hk. simpl. f_equal. symmetry. unfold RetrieveContentStream in Hr. apply write_chunks_read in Hr.
  rewrite Hids in Hr. eapply retrieve_any; [apply Hi1|done|by eapply object_counted|].
  unfold RetrieveContent. destruct (ids ds); [|exact Hr]. done.
Qed.

(** *** Deleting *)

Lemma delete_inv read ans b k os os' err s n :
  inv os s n → DeleteObject read ans b k os = (os', err) →
  match err with
  | Some _ => inv os' s n
  | None => is_Some (objs s !! getObjectKey b k) ∧
      inv os' (s <| objs := delete (getObjectKey b k) (objs s) |>) n
  end.
Proof.
  intros (l & Hi & Hn). unfold DeleteObject. destruct (get_meta _ _ _ _) as [os1 r1] eqn:Hg.
  destruct (get_meta_inv _ _ _ _ _ _ _ _ Hi Hg) as (Hi1 & Hl1 & _ & Ho).
  destruct r1 as [o|e]; [|intros [<- <-]%pair_eq; by exists l].
  destruct Ho as (ds & Hk & Ho & HU). injection Ho as Hids _.
  pose proof (delete_object_view ans b k (os_meta os1)) as Hv.
  destruct (meta.DeleteObject _ _ _ _) as [ms [e|]]; cbn [fst snd] in Hv; intros [<- <-]%pair_eq.
  { exists l. split; [|done]. by eapply inv_ext. }
  split; [done|]. exists l. split; [|done]. destruct Hi1 as [H1' H2' H3' H4' H5' H6' H7']. split; try done.
  - change (os_meta _) with ms. rewrite Hv, H2'. symmetry. apply fmap_delete.
  - intros k' ds'. change (objs _) with (delete (getObjectKey b k) (objs s)).
    intros [_ Hk']%lookup_delete_Some. by eapply H4'.
  - etrans; [|exact H7']. unfold live, held. change (os_deleting (start_deletion ?a ?b)) with (os_deleting os1 ++ [a]).
    change (objs (s <| objs := ?m |>)) with m. change (ups (s <| objs := ?m |>)) with (ups s).
    rewrite (total_delete ids (objs s) _ _ Hk), Hids, concat_app. simpl. rewrite app_nil_r. apply Permutation_submseteq.
    solve_Permutation.
Qed.

Lemma deletion_step_inv rm k os s n : inv os s n → n ≤ max_refs → inv (deletion_step rm k os) s n.
Proof.
  intros (l & Hi & Hn) Hmax. unfold deletion_step.
  destruct (os_deleting os !! k) as [[|c cs]|] eqn:Hk; [by exists l| |by exists l].
  set (os1 := os <| os_deleting := <[k := cs]> (os_deleting os) |>).
  assert (live os s ≡ₚ c :: live os1 s) as Hp.
  { unfold live. change (os_deleting os1) with (<[k := cs]> (os_deleting os)).
    rewrite <-(take_drop_middle (os_deleting os) k _ Hk) at 1. rewrite (insert_take_drop _ _ _ (lookup_lt_Some _ _ _ Hk)).
    rewrite !concat_app. simpl. solve_Permutation. }
  pose proof (iv_live _ _ _ _ _ Hi) as Hl. rewrite Hp in Hl. apply submseteq_cons_l in Hl as (l' & Hl' & Hsub).
  assert (len l = len l' + 1) as Hlen by (unfold len; rewrite Hl'; simpl; lia).
  exists l'. split; [|unfold len in *; lia]. eapply inv_good; [|apply (good_delete U)|done].
  - destruct Hi as [H1' H2' H3' H4' H5' H6' H7']. split; try done. etrans; [exact Hsub|].
    rewrite Hl'. by apply submseteq_cons.
  - eapply good_perm; [exact Hl'|apply Hi].
  - lia.
Qed.

Lemma collect_inv os s n : inv os s n → n ≤ max_refs → inv (Stop (fun _ => None) os) s n.
Proof.
  intros (l & Hi & Hn) Hmax. exists l. split; [|done]. eapply inv_good; [done| |apply Hi].
  apply good_collect; [apply Hi|lia].
Qed.

(** *** Uploads *)

Lemma upload_known os s l id u :
  inv_with os s l → os_uploads os !! id = Some u →
  ∃ v, ups s !! id = Some v ∧ ul_key v = getObjectKey (mu_Bucket u) (mu_Key u) ∧
    up_ChunkIDs <$> mu_Parts u = ids <$> ul_parts v.
Proof.
  intros Hi Hu. pose proof (f_equal (.!! id) (iv_ups _ _ _ _ _ Hi)) as Hv. cbv beta in Hv.
  rewrite !lookup_fmap, Hu in Hv. destruct (ups s !! id) as [v|]; [|done]. apply (inj Some) in Hv.
  exists v. split; [done|]. split; [symmetry; exact (f_equal fst Hv)|exact (f_equal snd Hv)].
Qed.

Lemma initiate_inv nanos now req os os' r s n :
  inv os s n → InitiateMultipartUpload nanos now req os = (os', r) →
  match r with
  | Err _ => inv os' s n
  | Ok id => inv os' (s <| ups := <[id := {| ul_key := getObjectKey (po_Bucket req) (po_Key req);
                                              ul_parts := ∅ |}]> (ups s) |>) n
  end.
Proof.
  intros (l & Hi & Hn). unfold InitiateMultipartUpload.
  destruct (meta.GetBucket _ _); intros [<- <-]%pair_eq; [|by exists l].
  exists l. split; [|done]. destruct Hi as [H1' H2' H3' H4' H5' H6' H7']. split; try done.
  - set (id := upload_id _ _). change (os_uploads (os <| os_uploads := ?m |>)) with m.
    change (ups (s <| ups := ?m |>)) with m. rewrite !fmap_insert, H3'. f_equal.
  - intros id u i ds. change (ups (s <| ups := ?m |>)) with m.
    intros [[_ <-]|[_ Hu]]%lookup_insert_Some; [done|by eapply H5'].
  - etrans; [|exact H7']. unfold live, held. change (ups (s <| ups := ?m |>)) with m.
    change (objs (s <| ups := ?m |>)) with (objs s). apply submseteq_app; [|done].
    apply submseteq_app; [done|]. etrans; [apply total_insert|]. done.
Qed.

Lemma total_part (m : gmap string Upload) id u i ds :
  m !! id = Some u →
  total upload_refs (<[id := {| ul_key := ul_key u; ul_parts := <[i := ds]> (ul_parts u) |}]> m) ⊆+
  ids ds ++ total upload_refs m.
Proof.
  intros Hu. rewrite <-insert_delete_eq, (total_fresh _ _ _ _ (lookup_delete_eq m id)).
  rewrite (total_delete upload_refs m id u Hu), app_assoc. apply submseteq_app; [|done].
  apply total_insert.
Qed.

Lemma upload_part_inv i id part data os os' r s n :
  let ds := object_pieces {| ce_config := config |} data in
  inv os s n → ds ⊆ U → n + len ds ≤ max_refs → UploadPart_ i id part data os = Some (os', r) →
  match r with
  | Err _ => inv os' s (n + len ds)
  | Ok _ => is_Some (ups s !! id) ∧ inv os' (put_part id part ds s) (n + len ds)
  end.
Proof.
  intros ds (l & Hi & Hn) HU Hc. unfold UploadPart_. assert (0 ≤ len ds) by (unfold len; lia).
  destruct (os_uploads os !! id) as [u|] eqn:Hu.
  2: { intros [<- <-]%(inj Some)%pair_eq. by eapply inv_le; [|exact Hn|lia]. }
  destruct (StoreContent _ _ _ _ _) as [r0|] eqn:Hst; [|done]; symmetry in Hst.
  pose proof (written_inv _ os s l data Hi (stored_inv _ os s l _ n Hi Hn Hc HU
    (or_introl (ex_intro _ _ (ex_intro _ _ Hst))))) as Hw.
  destruct r0 as [cs [[cids sum]|e]]; cbv zeta in Hw;
    [|intros [<- <-]%(inj Some)%pair_eq; by eapply inv_le; [|exact Hn|lia]].
  destruct Hw as (-> & -> & Hw). fold ds in Hw |- *.
  destruct (replicateChunks _ _ _ _) as [[os1 err1]|] eqn:Hr; [|done].
  destruct (replicate_inv _ _ _ _ _ _ _ _ Hr Hw) as [Hi1 Hl1]; [apply Hw|].
  pose proof (iv_live _ _ _ _ _ Hi) as Hl. change (live (set_chunks cs os) s) with (live os s) in Hl1.
  destruct err1 as [e1|]; intros [<- <-]%(inj Some)%pair_eq.
  { eapply inv_le; [|exact Hn|lia]. apply discard_inv; [done|by rewrite Hl1|rewrite len_ids; lia]. }
  assert (os_uploads os1 = os_uploads os) as Hups by (by apply replicate_frame in Hr as [rm ->]).
  destruct (upload_known os s l id u Hi Hu) as (v & Hv & Hkey & Hparts). split; [done|].
  apply (inv_le _ _ (ids ds ++ l) (len l + len ds)); [|by rewrite len_ids|lia].
  assert (ups (put_part id part ds s) =
    <[id := {| ul_key := ul_key v; ul_parts := <[part := ds]> (ul_parts v) |}]> (ups s)) as Hput.
  { apply map_eq. intros j. unfold put_part. simpl. destruct (decide (j = id)) as [->|Hj].
    - by rewrite lookup_alter_eq, lookup_insert_eq, Hv.
    - by rewrite lookup_alter_ne, lookup_insert_ne. }
  destruct Hi1 as [H1' H2' H3' H4' H5' H6' H7']. split; try done.
  - rewrite Hput. change (os_uploads (os1 <| os_uploads := ?m |>)) with m. rewrite !fmap_insert, H3'. f_equal.
    unfold upload_view, upload_ids. simpl. by rewrite !fmap_insert, Hparts, Hkey.
  - intros id' u' i' ds'. rewrite Hput. intros [[_ <-]|[_ Hu']]%lookup_insert_Some; [|by eapply H5'].
    simpl. intros [[_ <-]|[_ Hi']]%lookup_insert_Some; [done|by eapply H5'].
  - unfold live, held. rewrite Hput. change (os_deleting (os1 <| os_uploads := ?m |>)) with (os_deleting os1).
    change (objs (put_part id part ds s)) with (objs s). etrans; [|apply submseteq_app; [reflexivity|exact Hl]].
    rewrite <-Hl1. unfold live, held. rewrite (total_part (ups s) id v part ds Hv).
    apply Permutation_submseteq. solve_Permutation.
Qed.

(** *** Completing and aborting *)

Lemma gather_delete ps j n : ∀ i, j < i → gather (delete j ps) n i = gather ps n i.
Proof.
  induction n as [|n IH]; intros i Hj; simpl; [done|].
  rewrite lookup_delete_ne by lia. by rewrite IH by lia.
Qed.

Lemma gather_refs n : ∀ ps i ds, gather ps n i = Some ds → ids ds ⊆+ total ids ps.
Proof.
  induction n as [|n IH]; intros ps i ds; simpl; [intros [= <-]; apply submseteq_nil_l|].
  destruct (ps !! i) as [d|] eqn:Hi; [|done]. simpl. rewrite <-(gather_delete ps i n (i + 1)) by lia.
  destruct (gather (delete i ps) n (i + 1)) as [rest|] eqn:Hr; [|done]. intros [= <-].
  rewrite (total_delete ids ps i d Hi). unfold ids at 1. rewrite map_app. apply submseteq_app; [done|].
  by eapply IH.
Qed.

Lemma gather_sub n : ∀ ps i ds,
  gather ps n i = Some ds → (∀ j d, ps !! j = Some d → d ⊆ U) → ds ⊆ U.
Proof.
  induction n as [|n IH]; intros ps i ds; simpl; [intros [= <-]; set_solver|].
  destruct (ps !! i) as [d|] eqn:Hi; [|done]. simpl.
  destruct (gather ps n (i + 1)) as [rest|] eqn:Hr; [|done]. intros [= <-] HP.
  pose proof (HP i d Hi). pose proof (IH ps (i + 1) rest Hr HP). set_solver.
Qed.

Lemma assemble_gather io cs parts ps l n :
  up_ChunkIDs <$> parts = ids <$> ps → good U cs l → total ids ps ⊆+ l →
  (∀ j d, ps !! j = Some d → d ⊆ U) → ∀ i acc buf all buffer,
  assemble_parts io cs parts n i acc buf = Ok (all, buffer) →
  ∃ ds, gather ps n i = Some ds ∧ all = acc ++ ids ds ∧ buffer = buf +:+ concat_bytes ds.
Proof.
  intros Hparts Hg Hl HU. induction n as [|n IH]; intros i acc buf all buffer; simpl.
  { intros [= <- <-]. exists []. split_and!; [done|by rewrite app_nil_r|by rewrite string_app_nil_r]. }
  pose proof (f_equal (.!! i) Hparts) as Hp. cbv beta in Hp. rewrite !lookup_fmap in Hp.
  destruct (parts !! i) as [part|]; [|done]. destruct (ps !! i) as [d|] eqn:Hd; [|done].
  apply (inj Some) in Hp. destruct (RetrieveContent _ _ _) as [dat|] eqn:Hr; [|done]. rewrite Hp in Hr.
  assert (dat = concat_bytes d) as ->.
  { eapply retrieve_any; [done|by eapply HU| |done]. intros x Hx. eapply elem_of_submseteq; [|done].
    by eapply total_lookup. }
  intros (ds & Hds & -> & ->)%IH. simpl. rewrite Hds. exists (d ++ ds). split; [done|].
  rewrite Hp, concat_bytes_app, string_app_assoc. unfold ids. by rewrite map_app, app_assoc.
Qed.

Lemma complete_inv io now ans id os os' err s n :
  inv os s n → CompleteMultipartUpload io now ans id os = (os', err) →
  match err with
  | Some _ => inv os' s n
  | None => ∃ u ds, ups s !! id = Some u ∧ gather (ul_parts u) (size (ul_parts u)) 1 = Some ds ∧
      inv os' (put_content (ul_key u) ds (s <| ups := delete id (ups s) |>)) n
  end.
Proof.
  intros (l & Hi & Hn). assert (inv os s n) as Hsame by by exists l. unfold CompleteMultipartUpload.
  destruct (os_uploads os !! id) as [u|] eqn:Hu; [|by intros [<- <-]%pair_eq].
  destruct (meta.GetBucket _ _) as [b|]; [|by intros [<- <-]%pair_eq].
  case_match; [by intros [<- <-]%pair_eq|].
  destruct (upload_known os s l id u Hi Hu) as (v & Hv & Hkey & Hparts).
  assert (total ids (ul_parts v) ⊆+ l) as Hsub.
  { etrans; [|apply Hi]. unfold live, held. rewrite (total_delete upload_refs (ups s) id v Hv).
    apply submseteq_inserts_r, submseteq_inserts_l, submseteq_inserts_r. done. }
  assert (size (mu_Parts u) = size (ul_parts v)) as Hsz.
  { by rewrite <-(map_size_fmap up_ChunkIDs (mu_Parts u)), Hparts, map_size_fmap. }
  destruct (assemble_parts _ _ _ _ _ _ _) as [[all buffer]|] eqn:Ha; [|by intros [<- <-]%pair_eq].
  rewrite Hsz in Ha. pose proof (iv_ups_U _ _ _ _ _ Hi id v) as HU.
  apply (assemble_gather io (os_chunks os) _ (ul_parts v) l) in Ha as (ds & Hds & -> & ->);
    [|done|apply Hi|done|intros j d; by apply HU].
  set (o := new_object _ _ _ _ _ _ _ _). unfold put_meta.
  pose proof (put_object_view now ans o (os_meta os)) as Hview.
  destruct (meta.PutObject _ _ _ _ _) as [ms [e|]]; cbn [fst snd] in Hview; intros [<- <-]%pair_eq.
  { exists l. split; [|done]. by eapply inv_ext. }
  exists v, ds. split; [done|]. split; [done|]. exists l. split; [|done].
  destruct Hi as [H1' H2' H3' H4' H5' H6' H7']. split; try done.
  - change (os_meta _) with ms. change (objs _) with (<[ul_key v := ds]> (objs s)).
    by rewrite Hview, H2', Hkey, fmap_insert.
  - change (os_uploads _) with (delete id (os_uploads os)). change (ups _) with (delete id (ups s)).
    by rewrite !fmap_delete, H3'.
  - intros k ds'. change (objs _) with (<[ul_key v := ds]> (objs s)).
    intros [[_ <-]|[_ Hk]]%lookup_insert_Some; [|by eapply H4'].
    eapply (gather_sub _ _ _ _ Hds). intros j d. by apply HU.
  - intros id' u' i' ds'. change (ups _) with (delete id (ups s)).
    intros [_ Hu']%lookup_delete_Some. by eapply H5'.
  - etrans; [|exact H7']. unfold live, held. change (objs (put_content ?k ?d ?x)) with (<[k := d]> (objs x)).
    change (ups (put_content ?k ?d ?x)) with (ups x). change (ups (s <| ups := ?m |>)) with m.
    change (objs (s <| ups := ?m |>)) with (objs s).
    change (os_deleting (_ <| os_uploads := _ |>)) with (os_deleting os). apply submseteq_app; [|done].
    rewrite (total_delete upload_refs (ups s) id v Hv), total_insert.
    rewrite (gather_refs _ _ _ _ Hds). apply Permutation_submseteq. unfold upload_refs at 2. solve_Permutation.
Qed.

Lemma start_deletions l : ∀ os,
  foldl (fun os part => start_deletion (up_ChunkIDs part) os) os l =
  os <| os_deleting := os_deleting os ++ (up_ChunkIDs <$> l) |>.
Proof.
  induction l as [|p l IH]; intros os; simpl; [rewrite app_nil_r; by destruct os|].
  rewrite IH. unfold start_deletion. simpl. by rewrite <-app_assoc.
Qed.

Lemma total_fmap {K A B} `{Countable K} (f : B → list string) (g : A → B) (m : gmap K A) :
  total f (g <$> m) ≡ₚ total (f ∘ g) m.
Proof.
  unfold total. rewrite map_to_list_fmap. rewrite <-!list_fmap_compose. done.
Qed.

Lemma abort_inv id os os' err s n :
  inv os s n → AbortMultipartUpload id os = (os', err) →
  match err with
  | Some _ => inv os' s n
  | None => is_Some (ups s !! id) ∧ inv os' (s <| ups := delete id (ups s) |>) n
  end.
Proof.
  intros (l & Hi & Hn). unfold AbortMultipartUpload.
  destruct (os_uploads os !! id) as [u|] eqn:Hu; [|intros [<- <-]%pair_eq; by exists l].
  rewrite start_deletions. intros [<- <-]%pair_eq.
  destruct (upload_known os s l id u Hi Hu) as (v & Hv & Hkey & Hparts). split; [done|].
  exists l. split; [|done]. destruct Hi as [H1' H2' H3' H4' H5' H6' H7']. split; try done.
  - change (os_uploads _) with (delete id (os_uploads os)). change (ups _) with (delete id (ups s)).
    by rewrite !fmap_delete, H3'.
  - intros id' u' i' ds'. change (ups _) with (delete id (ups s)).
    intros [_ Hu']%lookup_delete_Some. by eapply H5'.
  - etrans; [|exact H7']. unfold live, held. change (ups (s <| ups := ?m |>)) with m.
    change (objs (s <| ups := ?m |>)) with (objs s).
    change (os_deleting (_ <| os_uploads := _ |>)) with
      (os_deleting os ++ (up_ChunkIDs <$> (map_to_list (mu_Parts u)).*2)).
    rewrite concat_app. fold (total up_ChunkIDs (mu_Parts u)).
    rewrite <-(total_fmap (fun x => x) up_ChunkIDs (mu_Parts u)), Hparts, total_fmap.
    rewrite (total_delete upload_refs (ups s) id v Hv). apply Permutation_submseteq.
    unfold upload_refs at 2. change (total ((λ x, x) ∘ ids) (ul_parts v)) with (total ids (ul_parts v)).
    solve_Permutation.
Qed.

(** *** Every operation *)

Lemma store_step_inv o os os' a s n :
  inv os s n → op_pieces config o ⊆ U → n + len (op_pieces config o) ≤ max_refs →
  oexec o os = Some (os', a) →
  ∃ s', ospec config o a s s' ∧ inv os' s' (n + len (op_pieces config o)).
Proof.
  intros Hi HU Hc. assert (n ≤ max_refs) as Hmax by (unfold len in *; lia).
  destruct o as [now ans req|ans name|i req|i fail req|read io again b k|read io w b k|read ans b k|
    nanos now req|i id part data|io now ans id|id|rm k|io now k|]; cbn [oexec op_pieces] in *;
    rewrite ?Z.add_0_r in *.
  - intros Hx%(inj Some). exists s. destruct Hi as (l & Hi & Hn).
    unfold CreateBucket in Hx. case_match; [|destruct (meta.CreateBucket _ _ _ _) as [ms err] eqn:Hm;
      pose proof (create_bucket_view now ans (bucket_of req) (os_meta os)) as Hv; rewrite Hm in Hv];
      unfold answered in Hx; apply pair_eq in Hx as [<- <-]; cbn [fst snd];
      (split; [by repeat case_match|]); exists l; (split; [by eapply inv_ext|done]).
  - intros Hx%(inj Some). exists s. destruct Hi as (l & Hi & Hn). unfold DeleteBucket in Hx.
    pose proof (delete_bucket_view ans name (os_meta os)) as Hv.
    destruct (meta.DeleteBucket _ _ _) as [ms err]. apply pair_eq in Hx as [<- <-]. cbn [fst snd] in *.
    split; [by destruct err|]. exists l. split; [by eapply inv_ext|done].
  - intros ([os1 err] & Hp & Hx)%fmap_Some. apply pair_eq in Hx as [-> ->]. cbn [fst snd].
    apply (put_inv _ _ _ _ _ s n) in Hp; [|done..].
    eexists. split; [|exact Hp]. by destruct err.
  - intros ([os1 err] & Hp & Hx)%fmap_Some. apply pair_eq in Hx as [-> ->]. cbn [fst snd].
    apply (put_stream_inv _ _ _ _ _ _ s n) in Hp; [|done..].
    eexists. split; [|exact Hp]. by destruct err.
  - destruct (GetObject _ _ _ _ _ _) as [os1 r] eqn:Hg. intros [<- <-]%(inj Some)%pair_eq.
    apply (get_inv _ _ _ _ _ _ _ _ s n) in Hg as [Hi' Hr]; [|done]. exists s. by destruct r.
  - destruct (GetObjectStream _ _ _ _ _ _) as [os1 [out err]] eqn:Hg. intros [<- <-]%(inj Some)%pair_eq.
    apply (get_stream_inv _ _ _ _ _ _ _ _ _ s n) in Hg as [Hi' Hr]; [|done]. exists s. by destruct err.
  - destruct (DeleteObject _ _ _ _ _) as [os1 err] eqn:Hd. intros [<- <-]%(inj Some)%pair_eq.
    apply (delete_inv _ _ _ _ _ _ _ s n) in Hd; [|done]. cbn [fst snd]. destruct err; [by exists s|].
    destruct Hd as [Hk Hi']. eexists. split; [split; [exact Hk|done]|exact Hi'].
  - destruct (InitiateMultipartUpload _ _ _ _) as [os1 r] eqn:Hd. intros [<- <-]%(inj Some)%pair_eq.
    apply (initiate_inv _ _ _ _ _ _ s n) in Hd; [|done]. destruct r; eexists; (split; [|exact Hd]); done.
  - intros Hd. apply (upload_part_inv _ _ _ _ _ _ _ s n) in Hd; [|done..]. destruct a; [|by exists s].
    destruct Hd as [Hk Hi']. eexists. split; [split; [exact Hk|done]|exact Hi'].
  - destruct (CompleteMultipartUpload _ _ _ _ _) as [os1 err] eqn:Hd. intros [<- <-]%(inj Some)%pair_eq.
    apply (complete_inv _ _ _ _ _ _ _ s n) in Hd; [|done]. cbn [fst snd]. destruct err; [by exists s|].
    destruct Hd as (u & ds & Hu & Hds & Hi'). eexists. split; [exists u, ds; by split_and!|exact Hi'].
  - destruct (AbortMultipartUpload _ _) as [os1 err] eqn:Hd. intros [<- <-]%(inj Some)%pair_eq.
    apply (abort_inv _ _ _ _ s n) in Hd; [|done]. cbn [fst snd]. destruct err; [by exists s|].
    destruct Hd as [Hk Hi']. eexists. split; [split; [exact Hk|done]|exact Hi'].
  - intros [<- <-]%(inj Some)%pair_eq. exists s. split; [done|by apply deletion_step_inv].
  - intros [<- <-]%(inj Some)%pair_eq. exists s. split; [done|]. destruct Hi as (l & Hi & Hn). exists l.
    split; [|done]. unfold repair_step. repeat case_match; try done. by eapply inv_ext.
  - intros [<- <-]%(inj Some)%pair_eq. exists s. split; [done|by apply collect_inv].
Qed.

(** A read that meets no failure gives the content. *)
Lemma get_complete read b k os s n :
  inv os s n → follower (os_meta os) = None →
  match objs s !! getObjectKey b k with
  | Some ds => ∃ os' resp, GetObject read (fun _ => None) (fun _ => None) b k os = (os', Ok resp) ∧
      go_Data resp = concat_bytes ds
  | None => GetObject read (fun _ => None) (fun _ => None) b k os =
      (os, Err (Wrap "object not found" (NotFoundError ("object:" +:+ b +:+ "/" +:+ k))))
  end.
Proof.
  intros (l & Hi & Hn) Hf. pose proof (f_equal (.!! getObjectKey b k) (iv_objs _ _ _ _ _ Hi)) as Hv.
  cbv beta in Hv. rewrite lookup_fmap in Hv. unfold GetObject, get_meta.
  destruct (objs s !! getObjectKey b k) as [ds|] eqn:Hk.
  - destruct (get_object_found read b k (os_meta os) _ _ Hf Hv) as (ms & o & -> & -> & ->).
    assert (RetrieveContent (fun _ => None) (os_chunks os) (ids ds) = Ok (concat_bytes ds)) as Hr.
    { unfold ids. apply (retrieve_good U Hcf (os_chunks os) l); [apply Hi|by eapply (iv_objs_U _ _ _ _ _ Hi)|].
      by eapply object_counted. }
    change (os_chunks (os <| os_meta := ms |>)) with (os_chunks os). rewrite Hr.
    unfold VerifyContent. rewrite Hr. unfold calculateChecksum. rewrite bool_decide_eq_true_2 by done. eauto.
  - rewrite (get_object_missing read b k (os_meta os) Hf Hv). by destruct os.
Qed.

End steps.

(** ** Histories *)

Fixpoint orun `{GoRange, GoSort, Gzip, MetadataCodec} (ops : list oop) (os : ObjectStore)
    : option (ObjectStore * list answer) :=
  match ops with
  | [] => Some (os, [])
  | o :: ops => oexec o os ≫= fun '(os, a) => orun ops os ≫= fun '(os, l) => Some (os, a :: l)
  end.

Inductive ospecs (config : StorageConfig) : list oop → list answer → Contents → Contents → Prop :=
| ospecs_nil s : ospecs config [] [] s s
| ospecs_cons o ops a l s s1 s2 :
    ospec config o a s s1 → ospecs config ops l s1 s2 → ospecs config (o :: ops) (a :: l) s s2.

Definition no_contents : Contents := {| objs := ∅; ups := ∅ |}.

Lemma run_inv `{GoRange, GoSort, Gzip, MetadataCodec} config U ops :
  0 < ChunkSize config → collision_free U → ∀ os os' l s n,
  inv config U os s n → flat_map (op_pieces config) ops ⊆ U →
  n + len (flat_map (op_pieces config) ops) ≤ max_refs → orun ops os = Some (os', l) →
  ∃ s', ospecs config ops l s s' ∧ inv config U os' s' max_refs.
Proof.
  intros Hsize Hcf. induction ops as [|o ops IH]; intros os os' l s n Hi HU Hc; cbn [orun flat_map] in *.
  - intros [= <- <-]. exists s. split; [constructor|]. destruct Hi as (k & Hi & Hn). exists k.
    split; [done|unfold len in *; simpl in *; lia].
  - unfold len in Hc. rewrite length_app in Hc. intros ([os1 a] & Ho & ([os2 l'] & Hr & [= <- <-])%bind_Some)%bind_Some.
    destruct (store_step_inv config U Hsize Hcf o os os1 a s n Hi) as (s1 & Hs1 & Hi1); [set_solver|unfold len; lia|done|].
    destruct (IH os1 os2 l' s1 _ Hi1) as (s2 & Hs2 & Hi2); [set_solver|unfold len; lia|done|].
    exists s2. split; [by econstructor|done].
Qed.

(** C21: the object store refines the map of contents: from an empty directory and
    without objects, for every history of operations that does not panic, with
    whatever failures of writes, removals, replications and of the cluster, and
    with the goroutines that delete chunks running in between, the answers
    follow the specification, and a read on a store that may read gives the
    content last put, or that there is none.  The pieces written must not
    collide under SHA-256, and the removals of a collection succeed. *)
Theorem object_store_refines `{GoRange, GoSort, Gzip, MetadataCodec} mtime now files config raft os0 ops os answers :
  0 < ChunkSize config →
  NewObjectStore None mtime None now files config raft = Ok os0 →
  (∀ p, is_Some (files !! p) → below (cs_baseDir (os_chunks os0)) p = false) →
  ms_objects (os_meta os0) = ∅ →
  collision_free (flat_map (op_pieces config) ops) →
  len (flat_map (op_pieces config) ops) ≤ max_refs →
  orun ops os0 = Some (os, answers) →
  ∃ s, ospecs config ops answers no_contents s ∧
    ∀ read b k, follower (os_meta os) = None →
      match objs s !! getObjectKey b k with
      | Some ds => ∃ os' resp, GetObject read (fun _ => None) (fun _ => None) b k os = (os', Ok resp) ∧
          go_Data resp = concat_bytes ds
      | None => GetObject read (fun _ => None) (fun _ => None) b k os =
          (os, Err (Wrap "object not found" (NotFoundError ("object:" +:+ b +:+ "/" +:+ k))))
      end.
Proof.
  intros Hsize Hnew Hfresh Hms Hcf Hc Hrun. set (U := flat_map (op_pieces config) ops) in *.
  unfold NewObjectStore in Hnew. destruct (NewChunkStore _ _ _ _ _) as [cs|] eqn:Hcs; [|done].
  injection Hnew as <-. destruct (fresh_rep _ _ _ _ Hcs Hfresh) as [Hr _].
  match type of Hrun with orun _ ?o = _ => set (os0 := o) in * end.
  assert (inv config U os0 no_contents 0) as Hi0.
  { exists []. split; [|done]. split; try done.
    - change (os_meta os0) with (meta.NewMetadataStore now raft) in *. unfold view. by rewrite Hms, !fmap_empty.
    - exists ∅. split_and!; [done| |done]. intros id. by rewrite lookup_empty. }
  destruct (run_inv config U ops Hsize Hcf os0 os answers no_contents 0 Hi0) as (s & Hs & Hi); [done..|].
  exists s. split; [done|]. intros read b k Hf. by apply (get_complete config U Hcf read b k os s max_refs).
Qed.

(** ** Concrete runs *)

Module ObjectRuns.

#[local] Existing Instances ChunkRuns.toy_gzip range_canonical sort_insertion.

(** An encoding by names, enough for stores that do not restart. *)
#[local] Instance name_codec : MetadataCodec := {|
  bucket_marshal b := Ok (bk_Name b); bucket_unmarshal _ := Err "not read"%string;
  object_marshal o := Ok (ob_Key o); object_unmarshal _ := Err "not read"%string;
  caches_marshal _ := Ok EmptyString; caches_unmarshal _ := Err "not read"%string |}.

(** Pieces of four bytes, one replica each. *)
Definition config : StorageConfig := DefaultStorageConfig <| ChunkSize := 4 |> <| ReplicationFactor := 1 |>.

Definition node (leader : bool) : RaftNode :=
  {| rn_store := {| fsm := NewFSM; is_leader := leader |}; rn_leader := "c1:8080"; rn_id := "c1" |}.

Definition fresh : ObjectStore := {|
  os_config := config; os_meta := meta.NewMetadataStore 0 (Some (node true));
  os_chunks := {| cs_config := config; cs_baseDir := Join (Clean (DataDir config)) "chunks"; cs_chunks := ∅;
                  cs_files := ∅ |};
  os_replication := NewReplicationManager config; os_placement := NewPlacementStrategy config;
  os_uploads := ∅; os_deleting := []; os_repairing := [] |}.

Lemma fresh_new : NewObjectStore None (fun _ => 0) None 0 ∅ config (Some (node true)) = Ok fresh.
Proof. vm_compute. reflexivity. Qed.

Definition ok_replica : ReplicaInputs :=
  {| ri_io := None; ri_now := fun _ => (0, 0, 0); ri_grow := fun n => n; ri_spare := 0;
     ri_schedule := [0; 0; 0; 0]%nat |}.

Definition putting (ans : raft_answer) : PutInputs :=
  {| pi_write := fun i => write_ok (Z.of_nat i); pi_cleanup := fun _ => None;
     pi_replicate := fun _ => ok_replica; pi_delete := fun _ => None; pi_now := 1; pi_raft := ans |}.

Definition yes : raft_answer := Committed (fun _ => 1).
Definition no : raft_answer := Rejected "no quorum".

Definition bucket (name : string) (quota : Z) : oop :=
  OCreateBucket 1 yes {| cb_Name := name; cb_StorageClass := StorageClassHot; cb_QuotaBytes := quota;
                         cb_Labels := ∅; cb_Owner := "" |}.

Definition request (b k d : string) : PutObjectRequest :=
  {| po_Bucket := b; po_Key := k; po_Data := d; po_StorageClass := StorageClassHot; po_ContentType := "";
     po_Metadata := ∅ |}.

Definition put (ans : raft_answer) (b k d : string) : oop := OPut (putting ans) (request b k d).

Definition get (b k : string) : oop := OGet 9 (fun _ => None) (fun _ => None) b k.

Definition texts (l : list answer) : list string :=
  (fun a => match a with Ok d => d | Err e => error_text e end) <$> l.

Definition results (ops : list oop) : option (list string) :=
  (fun r => texts r.2) <$> orun ops fresh.

(** An object is put, put again without success and deleted; another is uploaded in
    parts, the second part first, while the deletion runs. *)
Definition history : list oop := [
  bucket "b" 0; put yes "b" "x" "aaaabbbb"; put no "b" "x" "zzzz"; put yes "b" "y" "bbbbc";
  OInitiate 7 7 (request "b" "z" ""); OUpload (putting yes) "upload-7-z" 2 "bbbb";
  ODelete 8 yes "b" "x"; OUpload (putting yes) "upload-7-z" 1 "aaaa"; ODeletion None 0;
  OComplete (fun _ _ => None) 8 yes "upload-7-z"; ODeletion None 0; OCollect].

Example history_answers :
  results (history ++ [get "b" "x"; get "b" "y"; get "b" "z"]) =
  Some [""; ""; "failed to store metadata: failed to apply object metadata to RAFT: failed to apply command: no quorum";
        ""; "upload-7-z"; sha256_hex "bbbb"; ""; sha256_hex "aaaa"; ""; ""; ""; "";
        "object not found: resource not found: object:b/x"; "bbbbc"; "aaaabbbb"]%string.
Proof. vm_compute. reflexivity. Qed.

Lemma object_store_refines_witness :
  ∃ os l s, orun history fresh = Some (os, l) ∧ ospecs config history l no_contents s ∧
    ∃ os' resp, GetObject 9 (fun _ => None) (fun _ => None) "b" "z" os = (os', Ok resp) ∧
      concat_bytes <$> objs s !! "b:z"%string = Some (go_Data resp).
Proof.
  destruct (orun history fresh) as [[os l]|] eqn:Hrun;
    [|apply (f_equal (fun r => match r with Some _ => true | None => false end)) in Hrun; vm_compute in Hrun;
      discriminate Hrun].
  destruct (object_store_refines (fun _ => 0) 0 ∅ config (Some (node true)) fresh history os l)
    as (s & Hs & Hget).
  - reflexivity.
  - exact fresh_new.
  - intros p [x Hx]. rewrite lookup_empty in Hx. discriminate.
  - reflexivity.
  - apply collision_free_check. vm_compute. reflexivity.
  - vm_compute. discriminate.
  - exact Hrun.
  - exists os, l, s. split; [done|]. split; [exact Hs|].
    assert (follower (os_meta os) = None) as Hf.
    { replace os with (default fresh (fst <$> orun history fresh)) by (by rewrite Hrun). vm_compute. reflexivity. }
    specialize (Hget 9 "b"%string "z"%string Hf). change (getObjectKey "b" "z") with "b:z"%string in Hget.
    destruct (objs s !! "b:z"%string) as [ds|].
    + destruct Hget as (os' & resp & Hg & Hd). exists os', resp. split; [exact Hg|]. simpl. by rewrite Hd.
    + exfalso. apply (f_equal (fun r => is_ok r.2)) in Hget.
      replace os with (default fresh (fst <$> orun history fresh)) in Hget by (by rewrite Hrun).
      vm_compute in Hget. discriminate Hget.
Defined.

(** What a store shows of itself after a history. *)
Definition final {A} (f : ObjectStore → A) (ops : list oop) : option A := (fun r => f r.1) <$> orun ops fresh.

Definition chunk_count (os : ObjectStore) : nat := size (cs_chunks (os_chunks os)).

Definition used (b : string) (os : ObjectStore) : option Z := bk_UsedBytes <$> ms_buckets (os_meta os) !! b.

(** The chunks of an object that is put again stay, even after the object is
    deleted and a collection has run. *)
Example overwrite_leaks :
  final chunk_count [bucket "b" 0; put yes "b" "x" "aaaabbbb"; put yes "b" "x" "cccc";
    ODelete 8 yes "b" "x"; ODeletion None 0; OCollect] = Some 2%nat.
Proof. vm_compute. reflexivity. Qed.

(** Puts that the cluster refuses count towards the quota until nothing can be
    put into the empty bucket. *)
Example refused_puts_fill_quota :
  final (used "b") [bucket "b" 8; put no "b" "x" "aaaabb"] = Some (Some 6) ∧
  results [bucket "b" 8; put no "b" "x" "aaaabb"; put yes "b" "y" "cccc"] =
    Some [""; "failed to store metadata: failed to apply object metadata to RAFT: failed to apply command: no quorum";
          "bucket quota exceeded"]%string.
Proof. vm_compute. done. Qed.

(** An object within the quota cannot be replaced by one of the same size. *)
Example replacement_over_quota :
  results [bucket "b" 8; put yes "b" "x" "aaaabb"; put yes "b" "x" "aaaacc"] =
    Some [""; ""; "bucket quota exceeded"]%string.
Proof. vm_compute. done. Qed.

(** Names with a colon name the same object in two buckets. *)
Example colon_aliases :
  results [bucket "a" 0; bucket "a:b" 0; put yes "a" "b:c" "mine"; get "a:b" "c"] =
    Some [""; ""; ""; "mine"]%string.
Proof. vm_compute. done. Qed.

(** A part that is uploaded again counts twice in the size of the object. *)
Example reuploaded_part_size :
  final (fun os => ob_Size <$> ms_objects (os_meta os) !! "b:z"%string)
    [bucket "b" 0; OInitiate 7 7 (request "b" "z" ""); OUpload (putting yes) "upload-7-z" 1 "aaaa";
     OUpload (putting yes) "upload-7-z" 1 "bbbb"; OComplete (fun _ _ => None) 8 yes "upload-7-z"] = Some (Some 8).
Proof. vm_compute. done. Qed.

(** Every put starts from version zero. *)
Example version_stays_one :
  final (fun os => ob_Version <$> ms_objects (os_meta os) !! "b:x"%string)
    [bucket "b" 0; put yes "b" "x" "aaaa"; put yes "b" "x" "bbbb"; put yes "b" "x" "cccc"] = Some (Some 1).
Proof. vm_compute. done. Qed.

End ObjectRuns.
