(* ===== verification/Repair.v ===== *)
(** * Anti-entropy repair (pkg/storage/repair.go)

    The engine checks the chunks, queues repair tasks and has workers that run
    them; it also builds and compares Merkle trees of chunk identifiers.  A
    worker takes a task and finishes it in two steps, so that the tasks of
    several workers overlap.  Clock readings are arguments.  [None] is the panic
    of a send on the closed queue, or a loop out of fuel. *)

From S2P Require Import Prelude GoText GoCrypto GoFiles StorageTypes ChunkStore Replication Erasure.

Local Open Scope string_scope.
Local Open Scope Z_scope.

(** ** Tasks *)

Definition RepairTypeMissing : string := "missing".
Definition RepairTypeCorrupted : string := "corrupted".
Definition RepairTypeStale : string := "stale".

Definition RepairStatusPending : string := "pending".
Definition RepairStatusInProgress : string := "in_progress".
Definition RepairStatusCompleted : string := "completed".
Definition RepairStatusFailed : string := "failed".

Record RepairTask := {
  rt_ChunkID : string;
  rt_Type : string;
  rt_Priority : Z;
  rt_SourceNodeID : string;
  rt_TargetNodeID : string;
  rt_CreatedAt : Z;
  rt_StartedAt : Z;
  rt_CompletedAt : Z;
  rt_Status : string;
  rt_ErrorMessage : string;
  rt_BytesRepaired : Z
}.

#[export] Instance eta_RepairTask : Eta RepairTask := fun t =>
  Build_RepairTask (rt_ChunkID t) (rt_Type t) (rt_Priority t) (rt_SourceNodeID t) (rt_TargetNodeID t)
    (rt_CreatedAt t) (rt_StartedAt t) (rt_CompletedAt t) (rt_Status t) (rt_ErrorMessage t)
    (rt_BytesRepaired t).

Record RepairMetrics := {
  rx_ChunksChecked : Z;
  rx_ReplicasRepaired : Z;
  rx_CorruptionsFixed : Z;
  rx_StaleReplicasFixed : Z;
  rx_TasksCompleted : Z;
  rx_TasksFailed : Z;
  rx_LastCheckTime : Z;
  rx_ECObjectsChecked : Z;
  rx_ECShardsRepaired : Z;
  rx_ECDegradedReads : Z
}.

#[export] Instance eta_RepairMetrics : Eta RepairMetrics := fun x =>
  Build_RepairMetrics (rx_ChunksChecked x) (rx_ReplicasRepaired x) (rx_CorruptionsFixed x)
    (rx_StaleReplicasFixed x) (rx_TasksCompleted x) (rx_TasksFailed x) (rx_LastCheckTime x)
    (rx_ECObjectsChecked x) (rx_ECShardsRepaired x) (rx_ECDegradedReads x).

(** The queue is a channel; [re_workers] tells which task each worker runs. *)
Record RepairEngine := {
  re_config : StorageConfig;
  re_replication : ReplicationManager;
  re_chunks : ChunkStore;
  re_queue : list RepairTask;
  re_closed : bool;
  re_active : gmap string RepairTask;
  re_history : list RepairTask;
  re_metrics : RepairMetrics;
  re_workers : list (option RepairTask)
}.

#[export] Instance eta_RepairEngine : Eta RepairEngine := fun x =>
  Build_RepairEngine (re_config x) (re_replication x) (re_chunks x) (re_queue x) (re_closed x)
    (re_active x) (re_history x) (re_metrics x) (re_workers x).

Definition no_metrics : RepairMetrics :=
  {| rx_ChunksChecked := 0; rx_ReplicasRepaired := 0; rx_CorruptionsFixed := 0;
     rx_StaleReplicasFixed := 0; rx_TasksCompleted := 0; rx_TasksFailed := 0; rx_LastCheckTime := 0;
     rx_ECObjectsChecked := 0; rx_ECShardsRepaired := 0; rx_ECDegradedReads := 0 |}.

Definition NewRepairEngine (config : StorageConfig) (rm : ReplicationManager) (cs : ChunkStore)
    : RepairEngine :=
  {| re_config := config; re_replication := rm; re_chunks := cs; re_queue := []; re_closed := false;
     re_active := ∅; re_history := []; re_metrics := no_metrics; re_workers := [] |}.

Definition workerCount : nat := 5.

Definition Start (re : RepairEngine) : RepairEngine :=
  re <| re_workers := app (re_workers re) (repeat None workerCount) |>.

(** Closing a closed channel panics. *)
Definition Stop (re : RepairEngine) : option RepairEngine :=
  if re_closed re then None else Some (re <| re_closed := true |>).

Definition queue_capacity : Z := 1000.

(** The send with a default case: a full queue drops the task. *)
Definition enqueue (task : RepairTask) (re : RepairEngine) : option RepairEngine :=
  if re_closed re then None
  else if len (re_queue re) <? queue_capacity then Some (re <| re_queue := app (re_queue re) [task] |>)
  else Some re.

Definition on_metrics (f : RepairMetrics → RepairMetrics) (re : RepairEngine) : RepairEngine :=
  re <| re_metrics := f (re_metrics re) |>.

Definition set_replication (rm : ReplicationManager) (re : RepairEngine) : RepairEngine :=
  re <| re_replication := rm |>.

(** ** Checking *)

Definition new_task (now : Z) (chunkID type : string) (priority : Z) (target : string) : RepairTask := {|
  rt_ChunkID := chunkID; rt_Type := type; rt_Priority := priority; rt_SourceNodeID := "";
  rt_TargetNodeID := target; rt_CreatedAt := now; rt_StartedAt := 0; rt_CompletedAt := 0;
  rt_Status := RepairStatusPending; rt_ErrorMessage := ""; rt_BytesRepaired := 0 |}.

(** The task for a replica, if it needs one. *)
Definition replica_task (now : Z) (chunkID : string) (r : Replica) : option RepairTask :=
  if rp_Status r =?s ReplicaStatusCorrupted
  then Some (new_task now chunkID RepairTypeCorrupted 2 (rp_NodeID r))
  else if rp_Status r =?s ReplicaStatusStale
  then Some (new_task now chunkID RepairTypeStale 3 (rp_NodeID r))
  else None.

Fixpoint queue_replicas (now : Z) (chunkID : string) (replicas : list Replica) (re : RepairEngine)
    : option RepairEngine :=
  match replicas with
  | [] => Some re
  | r :: replicas =>
      match replica_task now chunkID r with
      | Some task => enqueue task re
      | None => Some re
      end ≫= queue_replicas now chunkID replicas
  end.

(** All readings of the clock are [now]. *)
Definition checkChunkHealth (now : Z) (chunkID : string) (re : RepairEngine) : option RepairEngine :=
  let '(hasEnough, _) := CheckReplicationHealth (re_replication re) chunkID in
  (if negb hasEnough then enqueue (new_task now chunkID RepairTypeMissing 1 "") re else Some re)
  ≫= fun re => queue_replicas now chunkID (GetReplicas (re_replication re) chunkID) re.

Fixpoint check_all (now : string → Z) (chunks : list Chunk) (re : RepairEngine) : option RepairEngine :=
  match chunks with
  | [] => Some re
  | chunk :: chunks => checkChunkHealth (now (ck_ID chunk)) (ck_ID chunk) re ≫= check_all now chunks
  end.

Definition performAntiEntropy `{GoRange} (now : string → Z) (done : Z) (re : RepairEngine)
    : option RepairEngine :=
  let chunks := ListChunks (re_chunks re) in
  on_metrics (fun x => x <| rx_LastCheckTime := done |>
                         <| rx_ChunksChecked := int64 (rx_ChunksChecked x + len chunks) |>)
  <$> check_all now chunks re.

(** The shards of an object that the chunk store has, and those it has not. *)
Definition missing_shards (cs : ChunkStore) (chunkIDs : list string) : Z :=
  len (List.filter (fun id => match GetChunk cs id with None => true | Some _ => false end) chunkIDs).

Definition available_shards (cs : ChunkStore) (chunkIDs : list string) : Z :=
  len (List.filter (fun id => match GetChunk cs id with None => false | Some _ => true end) chunkIDs).

Definition checkECObjectHealth (now : Z) (object : option Object) (encoder : option ErasureEncoder)
    (re : RepairEngine) : option (RepairEngine * option string) :=
  match object with
  | None => Some (re, None)
  | Some object =>
      if negb (ob_ECEnabled object) then Some (re, None)
      else match encoder with
      | None => Some (re, Some "erasure encoder required for EC objects")
      | Some ee =>
          let availableShards := available_shards (re_chunks re) (ob_ChunkIDs object) in
          let re := on_metrics (fun x => x <| rx_ECObjectsChecked := int64 (rx_ECObjectsChecked x + 1) |>) re in
          if negb (CanReconstruct ee availableShards) then
            Some (re, Some ("insufficient shards for object " +:+ ob_Bucket object +:+ "/" +:+ ob_Key object
                            +:+ ": have " +:+ show_Z availableShards +:+ ", need "
                            +:+ show_Z (GetDataShardCount ee)))
          else if 0 <? missing_shards (re_chunks re) (ob_ChunkIDs object) then
            (fun re => (re, None)) <$>
              enqueue (new_task now (ob_Bucket object +:+ ":" +:+ ob_Key object) "ec_missing_shards" 1 "") re
          else Some (re, None)
      end
  end.

Definition repairECObject (re : RepairEngine) : RepairEngine :=
  on_metrics (fun x => x <| rx_ECShardsRepaired := int64 (rx_ECShardsRepaired x + 1) |>) re.

(** ** Running tasks *)

(** What running one task reads: the answer of the disk, the clock of the new
    replica, of the change of health and of the task. *)
Record TaskInputs := { ti_io : option string; ti_now : Z * Z * Z; ti_health : Z; ti_completed : Z }.

Section tasks.
Context `{Gzip}.

Definition repair_on (i : TaskInputs) (chunkID node : string) (re : RepairEngine)
    : RepairEngine * option string :=
  let '(rm, err) := RepairReplica (ti_io i) (ti_now i) (re_replication re) (re_chunks re) chunkID node in
  (set_replication rm re, err).

Definition repairMissingReplica (i : TaskInputs) (task : RepairTask) (re : RepairEngine)
    : RepairEngine * option string :=
  let targetNode := if rt_TargetNodeID task =?s "" then "new-node" else rt_TargetNodeID task in
  match repair_on i (rt_ChunkID task) targetNode re with
  | (re, Some err) => (re, Some ("failed to repair missing replica: " +:+ err))
  | (re, None) =>
      (on_metrics (fun x => x <| rx_ReplicasRepaired := int64 (rx_ReplicasRepaired x + 1) |>) re, None)
  end.

Definition repairCorruptedReplica (i : TaskInputs) (task : RepairTask) (re : RepairEngine)
    : RepairEngine * option string :=
  let re := set_replication (RemoveReplica (re_replication re) (rt_ChunkID task) (rt_TargetNodeID task)) re in
  match repair_on i (rt_ChunkID task) (rt_TargetNodeID task) re with
  | (re, Some err) => (re, Some ("failed to create replacement replica: " +:+ err))
  | (re, None) =>
      (on_metrics (fun x => x <| rx_CorruptionsFixed := int64 (rx_CorruptionsFixed x + 1) |>) re, None)
  end.

Definition repairStaleReplica (i : TaskInputs) (task : RepairTask) (re : RepairEngine)
    : RepairEngine * option string :=
  match repair_on i (rt_ChunkID task) (rt_TargetNodeID task) re with
  | (re, Some err) => (re, Some ("failed to repair stale replica: " +:+ err))
  | (re, None) =>
      let re := set_replication (UpdateReplicaHealth (ti_health i) (re_replication re) (rt_ChunkID task)
                                   (rt_TargetNodeID task) ReplicaStatusHealthy) re in
      (on_metrics (fun x => x <| rx_StaleReplicasFixed := int64 (rx_StaleReplicasFixed x + 1) |>) re, None)
  end.

(** The body of [executeRepairTask] between the store into the active repairs
    and the deferred deletion. *)
Definition dispatch (i : TaskInputs) (task : RepairTask) (re : RepairEngine)
    : RepairEngine * option string :=
  if rt_Type task =?s RepairTypeMissing then repairMissingReplica i task re
  else if rt_Type task =?s RepairTypeCorrupted then repairCorruptedReplica i task re
  else if rt_Type task =?s RepairTypeStale then repairStaleReplica i task re
  else (re, Some ("unknown repair type: " +:+ rt_Type task)).

Definition recordRepairTask (task : RepairTask) (re : RepairEngine) : RepairEngine :=
  let history := app (re_history re) [task] in
  let history := if 100 <? len history then drop (Z.to_nat (len history - 100)) history else history in
  on_metrics (fun x =>
    if rt_Status task =?s RepairStatusCompleted
    then x <| rx_TasksCompleted := int64 (rx_TasksCompleted x + 1) |>
    else if rt_Status task =?s RepairStatusFailed
    then x <| rx_TasksFailed := int64 (rx_TasksFailed x + 1) |> else x)
    (re <| re_history := history |>).

(** Worker [w] receives a task and starts it. *)
Definition begin_task (started : Z) (w : nat) (re : RepairEngine) : RepairEngine :=
  match re_workers re !! w, re_queue re with
  | Some None, task :: queue =>
      let task := task <| rt_Status := RepairStatusInProgress |> <| rt_StartedAt := started |> in
      re <| re_queue := queue |> <| re_workers := <[w := Some task]> (re_workers re) |>
         <| re_active := <[rt_ChunkID task := task]> (re_active re) |>
  | _, _ => re
  end.

(** Worker [w] runs its task and records it. *)
Definition finish_task (i : TaskInputs) (w : nat) (re : RepairEngine) : RepairEngine :=
  match re_workers re !! w with
  | Some (Some task) =>
      let '(re, err) := dispatch i task re in
      let re := re <| re_active := delete (rt_ChunkID task) (re_active re) |> in
      let task := match err with
                  | Some e => task <| rt_Status := RepairStatusFailed |> <| rt_ErrorMessage := e |>
                  | None => task <| rt_Status := RepairStatusCompleted |>
                  end in
      recordRepairTask (task <| rt_CompletedAt := ti_completed i |>)
        (re <| re_workers := <[w := None]> (re_workers re) |>)
  | _ => re
  end.

End tasks.

(** ** Merkle trees *)

Record MerkleTree := { mt_Root : string; mt_Leaves : list string; mt_Depth : Z }.

(** The loop that builds the next level. *)
Fixpoint next_level (leaves : list string) : list string :=
  match leaves with
  | l1 :: l2 :: leaves => sha256_hex (l1 +:+ l2) :: next_level leaves
  | [l] => [l]
  | [] => []
  end.

(** A level is shorter than the one before, so as many calls as there are
    leaves are enough. *)
Fixpoint merkle_root (fuel : nat) (leaves : list string) : option string :=
  match leaves with
  | [] => Some ""
  | [l] => Some l
  | _ => match fuel with O => None | S fuel => merkle_root fuel (next_level leaves) end
  end.

Definition buildMerkleRoot (leaves : list string) : option string := merkle_root (length leaves) leaves.

Fixpoint depth_loop (fuel : nat) (leafCount depth : Z) : option Z :=
  if 1 <? leafCount then
    match fuel with
    | O => None
    | S fuel => depth_loop fuel (Z.quot (int64 (leafCount + 1)) 2) (depth + 1)
    end
  else Some depth.

Definition calculateDepth (leafCount : Z) : option Z :=
  if leafCount <=? 1 then Some 0 else depth_loop (Z.to_nat leafCount) leafCount 0.

(** [sort.Strings] *)
Definition sort_strings `{GoSort} (l : list string) : list string := sort_slice String.ltb l.

Definition BuildMerkleTree `{GoSort} (chunkIDs : list string) : option MerkleTree :=
  match chunkIDs with
  | [] => Some {| mt_Root := ""; mt_Leaves := []; mt_Depth := 0 |}
  | _ =>
      let leaves := sort_strings chunkIDs in
      buildMerkleRoot leaves ≫= fun root => calculateDepth (len leaves) ≫= fun depth =>
      Some {| mt_Root := root; mt_Leaves := leaves; mt_Depth := depth |}
  end.

Definition CompareMerkleTrees (tree1 tree2 : MerkleTree) : list string :=
  if mt_Root tree1 =?s mt_Root tree2 then []
  else
    app (List.filter (fun l => negb (bool_decide (l ∈ mt_Leaves tree2))) (mt_Leaves tree1))
      (List.filter (fun l => negb (bool_decide (l ∈ mt_Leaves tree1))) (mt_Leaves tree2)).
