(* ===== verification/RepairSpec.v ===== *)
(** * Repair and Merkle trees

    Building a Merkle tree ends after as many levels as its depth, whatever the
    order of the identifiers; comparing two trees of equally many identifiers
    finds every difference.  Rounds of checks and repairs of a chunk that can be
    read come to rest with enough healthy replicas and none corrupted or
    stale. *)

From stdpp Require sorting.
From S2P Require Import Prelude GoText GoCrypto GoFiles StorageTypes ChunkStore ChunkStoreSpec Replication Erasure Repair.

#[local] Opaque sha256_hex.

(** ** The order of strings *)

Lemma ltb_leb x y : String.ltb x y = negb (String.leb y x).
Proof.
  unfold String.ltb, String.leb. rewrite (String.compare_antisym x y). by destruct (String.compare y x).
Qed.

Lemma leb_trans x y z : String.leb x y = true → String.leb y z = true → String.leb x z = true.
Proof.
  intros H1%Is_true_true H2%Is_true_true. apply Is_true_true. change (String.le x z). by trans y.
Qed.

Lemma strict_weak_ltb : strict_weak String.ltb.
Proof.
  split; intros *; rewrite !ltb_leb; rewrite ?negb_true_iff, ?negb_false_iff.
  - destruct (String.leb_total x x); done.
  - intros H1 H2. destruct (String.leb z x) eqn:Hzx; [|done]. destruct (String.leb_total x y) as [Hxy|Hxy]; [|congruence].
    pose proof (leb_trans z x y Hzx Hxy). congruence.
  - intros H1 H2. by apply leb_trans with y.
Qed.

(** Two sorted lists of the same strings are equal. *)
Lemma sorted_unique l1 l2 :
  sorted_by String.ltb l1 → sorted_by String.ltb l2 → l1 ≡ₚ l2 → l1 = l2.
Proof.
  assert (∀ l, sorted_by String.ltb l → StronglySorted String.le l) as Hle.
  { intros l. apply strongly_sorted_mono. intros x y Hxy. rewrite ltb_leb in Hxy.
    apply negb_false_iff in Hxy. by apply Is_true_true. }
  intros H1 H2. apply (sorting.StronglySorted_unique String.le); eauto.
Qed.

(** ** Levels *)

Lemma next_level_length l : length (next_level l) = ((length l + 1) / 2)%nat.
Proof.
  assert (∀ n l, (length l ≤ n)%nat → length (next_level l) = ((length l + 1) / 2)%nat) as Hn.
  { clear l. induction n as [|n IH]; intros [|a [|b l]]; cbn [length next_level]; intros Hl; try done; try lia.
    rewrite IH by lia. replace (S (S (length l)) + 1)%nat with (length l + 1 + 1 * 2)%nat by lia.
    rewrite Nat.div_add by done. lia. }
  by eapply Hn.
Qed.

Lemma log2_up_half n : (2 ≤ n)%nat → Nat.log2_up n = S (Nat.log2_up ((n + 1) / 2)).
Proof.
  intros Hn. set (h := ((n + 1) / 2)%nat).
  assert (2 * h = n ∨ 2 * h = n + 1)%nat as Hh.
  { subst h. pose proof (Nat.div_mod_eq (n + 1) 2). pose proof (Nat.mod_upper_bound (n + 1) 2). lia. }
  apply Nat.log2_up_unique; [lia|]. cbn [pred].
  destruct (decide (h = 1)%nat) as [->|]; [change (Nat.log2_up 1) with 0%nat; simpl; lia|].
  pose proof (Nat.log2_up_spec h ltac:(lia)) as [H1 H2].
  assert (1 ≤ Nat.log2_up h)%nat as H3 by (apply (Nat.log2_up_pos h); lia).
  rewrite Nat.pow_succ_r'. assert (2 ^ Nat.log2_up h = 2 * 2 ^ pred (Nat.log2_up h))%nat as ->.
  { rewrite <-Nat.pow_succ_r'. f_equal. lia. }
  assert (2 ^ Nat.log2_up h = 2 * 2 ^ pred (Nat.log2_up h))%nat.
  { rewrite <-Nat.pow_succ_r'. f_equal. lia. }
  lia.
Qed.

Abbreviation levels d l := (Nat.iter d next_level l).

Lemma merkle_root_levels fuel l :
  (length l ≤ fuel)%nat → l ≠ [] →
  ∃ root, merkle_root fuel l = Some root ∧ levels (Nat.log2_up (length l)) l = [root].
Proof.
  revert l. induction fuel as [|fuel IH]; intros [|a [|b l]] Hl Hne; try done; try (simpl in Hl; lia).
  { by eexists. }
  set (m := a :: b :: l) in *. assert (2 ≤ length m)%nat by (subst m; simpl; lia).
  change (merkle_root (S fuel) m) with (merkle_root fuel (next_level m)).
  assert ((length m + 1) / 2 < length m)%nat by (apply Nat.Div0.div_lt_upper_bound; lia).
  destruct (IH (next_level m)) as (root & Hr & Hi).
  - rewrite next_level_length. lia.
  - subst m. done.
  - exists root. split; [done|]. rewrite log2_up_half by lia. rewrite Nat.iter_succ_r.
    by rewrite <-next_level_length.
Qed.

Lemma depth_loop_spec fuel (n : nat) depth :
  (n ≤ fuel)%nat → (1 ≤ n)%nat → Z.of_nat n < 2 ^ 63 - 1 →
  depth_loop fuel (Z.of_nat n) depth = Some (depth + Z.of_nat (Nat.log2_up n)).
Proof.
  revert n depth. induction fuel as [|fuel IH]; intros n depth Hf Hn Hb; [lia|].
  cbn [depth_loop]. destruct (Z.ltb_spec 1 (Z.of_nat n)) as [H2|H2].
  - rewrite int64_id by (unfold in_int64; lia). rewrite Z.quot_div_nonneg by lia.
    assert ((n + 1) / 2 < n)%nat by (apply Nat.Div0.div_lt_upper_bound; lia).
    assert (1 ≤ (n + 1) / 2)%nat by (apply Nat.div_le_lower_bound; lia).
    replace ((Z.of_nat n + 1) / 2) with (Z.of_nat ((n + 1) / 2)) by (rewrite Nat2Z.inj_div; f_equal; lia).
    rewrite IH by lia. rewrite (log2_up_half n) by lia. f_equal. lia.
  - assert (n = 1%nat) as -> by lia. f_equal. change (Nat.log2_up 1) with 0%nat. lia.
Qed.

Lemma Nat_log2_up_Z n : Z.of_nat (Nat.log2_up n) = Z.log2_up (Z.of_nat n).
Proof.
  destruct (decide (n ≤ 1)%nat).
  - rewrite Nat.log2_up_eqn0, Z.log2_up_eqn0 by lia. done.
  - symmetry. apply Z.log2_up_unique.
    + pose proof (Nat.log2_up_pos n). lia.
    + pose proof (Nat.log2_up_spec n ltac:(lia)) as [H1 H2]. pose proof (Nat.log2_up_pos n ltac:(lia)).
      rewrite <-Nat2Z.inj_pred by lia. change 2 with (Z.of_nat 2). rewrite <-!Nat2Z.inj_pow. lia.
Qed.

(** C25: building a Merkle tree terminates: within the fuel given the root is
    reached after exactly as many levels as the depth, which is the binary
    logarithm of the number of identifiers, rounded up.  The leaves are the
    identifiers in order, and the tree is the same for every order in which they
    are given. *)
Theorem merkle_tree_built `{GoSort} ids :
  len ids < 2 ^ 63 - 1 →
  ∃ tree, (∀ ids', ids' ≡ₚ ids → BuildMerkleTree ids' = Some tree) ∧
    mt_Leaves tree ≡ₚ ids ∧ sorted_by String.ltb (mt_Leaves tree) ∧
    mt_Depth tree = Z.log2_up (len ids) ∧
    (ids ≠ [] → levels (Z.to_nat (mt_Depth tree)) (mt_Leaves tree) = [mt_Root tree]).
Proof.
  intros Hl. set (leaves := sort_strings ids).
  assert (leaves ≡ₚ ids) as Hp by apply sort_slice_perm.
  assert (sorted_by String.ltb leaves) as Hs by apply sort_slice_sorted, strict_weak_ltb.
  destruct (decide (ids = [])) as [->|Hne].
  { exists {| mt_Root := ""; mt_Leaves := []; mt_Depth := 0 |}. split_and!; [|done|constructor|done|done].
    by intros ids' ->%Permutation_nil_r. }
  assert (length leaves = length ids) as Hlen by (by rewrite Hp).
  assert (1 ≤ length ids)%nat as Hpos by (destruct ids; [done|simpl; lia]).
  destruct (merkle_root_levels (length leaves) leaves) as (root & Hr & Hi); [done| |].
  { intros E. rewrite E in Hlen. simpl in Hlen. lia. }
  assert (calculateDepth (len leaves) = Some (Z.log2_up (len ids))) as Hd.
  { unfold calculateDepth, len in *. rewrite Hlen, <-Nat_log2_up_Z. destruct (Z.leb_spec (Z.of_nat (length ids)) 1).
    - by rewrite Nat.log2_up_eqn0 by lia.
    - rewrite Nat2Z.id. apply depth_loop_spec; lia. }
  exists {| mt_Root := root; mt_Leaves := leaves; mt_Depth := Z.log2_up (len ids) |}. cbn [mt_Leaves mt_Depth mt_Root].
  split_and!; [|done|done|done|].
  - intros ids' Hp'. assert (sort_strings ids' = leaves) as E.
    { apply sorted_unique; [apply sort_slice_sorted, strict_weak_ltb|done|].
      rewrite Hp, <-Hp'. apply sort_slice_perm. }
    unfold BuildMerkleTree. rewrite E. unfold buildMerkleRoot. rewrite Hr. simpl. rewrite Hd. simpl.
    destruct ids'; [|done]. by apply Permutation_nil_l in Hp'.
  - intros _. rewrite <-Hi. f_equal. unfold len. rewrite <-Nat_log2_up_Z, Hlen. lia.
Qed.

(** ** Comparing trees *)

(** What is hashed for the next level, and for the next [d] levels. *)
Fixpoint pairs (l : list string) : list string :=
  match l with a :: b :: l => (a +:+ b) :: pairs l | _ => [] end.

Fixpoint hashed (d : nat) (l : list string) : list string :=
  match d with O => [] | S d => pairs l ++ hashed d (next_level l) end.

Abbreviation digests := (Forall (fun s => String.length s = 64%nat)).

Lemma append_inj_length (a b c d : string) :
  String.length a = String.length c → a +:+ b = c +:+ d → a = c ∧ b = d.
Proof.
  revert c. induction a as [|x a IH]; intros [|y c] Hl Heq; try done.
  rewrite !append_cons in Heq. injection Heq as <- Heq. injection Hl as Hl.
  by destruct (IH c Hl Heq) as [-> ->].
Qed.

Lemma next_level_digests l : digests l → digests (next_level l).
Proof.
  assert (∀ n l, (length l ≤ n)%nat → digests l → digests (next_level l)) as Hn; [|by eapply Hn].
  clear l. induction n as [|n IH]; intros [|a [|b l]] Hl Hd; simpl in *; try done; try lia.
  rewrite !Forall_cons in Hd. destruct Hd as (_ & _ & Hd).
  constructor; [apply sha256_hex_length|]. apply IH; [lia|done].
Qed.

Lemma collision_free_sub U V : U ⊆ V → collision_free V → collision_free U.
Proof. unfold collision_free. set_solver. Qed.

Lemma next_level_inj l1 l2 :
  digests l1 → digests l2 → length l1 = length l2 → collision_free (pairs l1 ++ pairs l2) →
  next_level l1 = next_level l2 → l1 = l2.
Proof.
  assert (∀ n l1 l2, (length l1 ≤ n)%nat → digests l1 → digests l2 → length l1 = length l2 →
    collision_free (pairs l1 ++ pairs l2) → next_level l1 = next_level l2 → l1 = l2) as Hn; [|by eapply Hn].
  clear l1 l2. induction n as [|n IH]; intros [|a [|b l1]] [|a' [|b' l2]] Hl Hd1 Hd2 Hlen Hcf Heq;
    cbn [length next_level pairs] in *; try done; try lia.
  rewrite !Forall_cons in Hd1, Hd2. destruct Hd1 as (Ha & Hb & Hd1), Hd2 as (Ha' & Hb' & Hd2).
  injection Heq as Hh Heq. apply Hcf in Hh; [|set_solver..].
  apply append_inj_length in Hh as [-> ->]; [|congruence].
  do 2 f_equal. apply IH; [lia|done|done|lia| |done]. eapply collision_free_sub; [|done]. set_solver.
Qed.

Lemma levels_inj d l1 l2 :
  digests l1 → digests l2 → length l1 = length l2 → collision_free (hashed d l1 ++ hashed d l2) →
  levels d l1 = levels d l2 → l1 = l2.
Proof.
  revert l1 l2. induction d as [|d IH]; intros l1 l2 Hd1 Hd2 Hlen Hcf Heq; [done|].
  rewrite !Nat.iter_succ_r in Heq. cbn [hashed] in Hcf. apply next_level_inj; [done..| |].
  - eapply collision_free_sub; [|done]. set_solver.
  - apply IH; [by apply next_level_digests..| | |done].
    + by rewrite !next_level_length, Hlen.
    + eapply collision_free_sub; [|done]. set_solver.
Qed.

(** A tree as [BuildMerkleTree] makes it. *)
Lemma built_tree `{GoSort} ids tree :
  len ids < 2 ^ 63 - 1 → BuildMerkleTree ids = Some tree →
  mt_Leaves tree ≡ₚ ids ∧
  (ids ≠ [] → levels (Z.to_nat (Z.log2_up (len ids))) (sort_strings ids) = [mt_Root tree]) ∧
  mt_Leaves tree = sort_strings ids.
Proof.
  intros Hl Hb. assert (sort_strings ids ≡ₚ ids) as Hp by apply sort_slice_perm.
  unfold BuildMerkleTree in Hb. destruct ids as [|a ids].
  { injection Hb as <-. split_and!; [done|done|]. by apply Permutation_nil_r in Hp. }
  set (l := a :: ids) in *. apply bind_Some in Hb as (root & Hr & (depth & Hd & [= <-])%bind_Some).
  split_and!; [done| |done]. intros _. unfold buildMerkleRoot in Hr.
  destruct (merkle_root_levels (length (sort_strings l)) (sort_strings l)) as (root' & Hr' & Hi); [done| |].
  { intros E. rewrite E in Hp. apply Permutation_nil_l in Hp. done. }
  rewrite Hr' in Hr. injection Hr as ->. cbn [mt_Root]. rewrite <-Hi. f_equal.
  rewrite Hp. unfold len. rewrite <-Nat_log2_up_Z. lia.
Qed.

Lemma not_found (x : string) (l1 l2 : list string) :
  x ∈ List.filter (fun l => negb (bool_decide (l ∈ l2))) l1 ↔ x ∈ l1 ∧ x ∉ l2.
Proof.
  rewrite list_elem_of_In, filter_In, <-list_elem_of_In, negb_true_iff, bool_decide_eq_false. done.
Qed.

(** Comparing the trees of two sets of chunks reports only chunks that one of
    the sets has and the other has not.  It reports all of them when the sets
    have equally many chunks, the identifiers are digests and the strings
    hashed for the two trees do not collide under SHA-256. *)
Theorem merkle_compare `{GoSort} ids1 ids2 tree1 tree2 :
  len ids1 < 2 ^ 63 - 1 → len ids2 < 2 ^ 63 - 1 →
  BuildMerkleTree ids1 = Some tree1 → BuildMerkleTree ids2 = Some tree2 →
  (∀ x, x ∈ CompareMerkleTrees tree1 tree2 → (x ∈ ids1 ∧ x ∉ ids2) ∨ (x ∈ ids2 ∧ x ∉ ids1)) ∧
  (len ids1 = len ids2 → digests ids1 → digests ids2 →
   collision_free (hashed (Z.to_nat (Z.log2_up (len ids1))) (sort_strings ids1)
                   ++ hashed (Z.to_nat (Z.log2_up (len ids2))) (sort_strings ids2)) →
   ∀ x, (x ∈ ids1 ∧ x ∉ ids2) ∨ (x ∈ ids2 ∧ x ∉ ids1) → x ∈ CompareMerkleTrees tree1 tree2).
Proof.
  intros Hl1 Hl2 Hb1 Hb2. destruct (built_tree ids1 tree1 Hl1 Hb1) as (Hp1 & Hr1 & He1).
  destruct (built_tree ids2 tree2 Hl2 Hb2) as (Hp2 & Hr2 & He2).
  assert (∀ x, x ∈ mt_Leaves tree1 ↔ x ∈ ids1) as Hx1 by (intros x; by rewrite Hp1).
  assert (∀ x, x ∈ mt_Leaves tree2 ↔ x ∈ ids2) as Hx2 by (intros x; by rewrite Hp2).
  unfold CompareMerkleTrees. split.
  - intros x. case_match; [by intros ?%elem_of_nil|].
    rewrite elem_of_app, !not_found, !Hx1, !Hx2. tauto.
  - intros Hlen Hd1 Hd2 Hcf x Hx. destruct (bool_decide (mt_Root tree1 = mt_Root tree2)) eqn:Hroot.
    + exfalso. apply bool_decide_eq_true in Hroot.
      assert (ids1 ≠ [] ∧ ids2 ≠ []) as [Hn1 Hn2].
      { unfold len in Hlen. destruct ids1, ids2; simpl in *; try lia; [|done].
        by destruct Hx as [[?%elem_of_nil _]|[?%elem_of_nil _]]. }
      rewrite <-Hlen in Hr2, Hcf.
      assert (sort_strings ids1 = sort_strings ids2) as E.
      { eapply levels_inj; [| | |exact Hcf|].
        - rewrite <-He1, Hp1. done.
        - rewrite <-He2, Hp2. done.
        - rewrite <-He1, <-He2, Hp1, Hp2. unfold len in Hlen. lia.
        - rewrite Hr1, Hr2 by done. by rewrite Hroot. }
      rewrite <-!Hx1, <-!Hx2, He1, He2, E in Hx. tauto.
    + rewrite elem_of_app, !not_found, !Hx1, !Hx2. tauto.
Qed.

(** ** Lists of replicas *)

Definition corrupted (r : Replica) : Prop := rp_Status r = ReplicaStatusCorrupted.
Definition stale (r : Replica) : Prop := rp_Status r = ReplicaStatusStale.
Definition healthy (r : Replica) : Prop := rp_Status r = ReplicaStatusHealthy.
Definition bad (r : Replica) : Prop := corrupted r ∨ stale r.

Lemma healthy_not_bad r : healthy r → ¬ bad r.
Proof. unfold healthy, bad, corrupted, stale. intros ->. by intros [?|?]. Qed.

Lemma is_healthy_spec r : is_healthy r = true ↔ healthy r.
Proof. apply bool_decide_eq_true. Qed.

(** Only the first replica on a node can be other than healthy. *)
Fixpoint tidy (l : list Replica) : Prop :=
  match l with
  | [] => True
  | r :: l => Forall (fun x => rp_NodeID x = rp_NodeID r → healthy x) l ∧ tidy l
  end.

Lemma tidy_snoc l r : tidy l → healthy r → tidy (l ++ [r]).
Proof.
  induction l as [|x l IH]; simpl; [done|]. intros [Hx Hl] Hr. split; [|auto].
  apply Forall_app. split; [done|]. by apply Forall_singleton.
Qed.

Lemma tidy_filter f l : tidy l → tidy (List.filter f l).
Proof.
  induction l as [|x l IH]; simpl; [done|]. intros [Hx Hl]. case_match; [|auto]. split; [|auto].
  apply Forall_forall. intros y [Hy _]%list_elem_of_In%filter_In. apply (proj1 (Forall_forall _ _) Hx).
  by apply list_elem_of_In.
Qed.

Section update.
Context (n : string) (f : Replica → Replica) (Hf : ∀ r, rp_NodeID (f r) = rp_NodeID r).

Lemma update_first_in r l : r ∈ update_first n f l → r ∈ l ∨ ∃ x, x ∈ l ∧ rp_NodeID x = n ∧ r = f x.
Proof.
  induction l as [|x l IH]; simpl; [auto|]. destruct (bool_decide_reflect (rp_NodeID x = n));
    rewrite !elem_of_cons; [|intros [->|[?|(y & ? & ? & ?)]%IH]; eauto 6 using list_elem_of_further].
  intros [->|?]; [|auto]. right. exists x. by rewrite elem_of_cons; auto.
Qed.

Lemma tidy_update l : tidy l → tidy (update_first n f l).
Proof.
  induction l as [|x l IH]; simpl; [done|]. intros [Hx Hl].
  destruct (bool_decide_reflect (rp_NodeID x = n)) as [Hn|Hn]; simpl; [by rewrite Hf|].
  split; [|auto]. apply Forall_forall. intros y [Hy|(z & Hz & Hzn & ->)]%update_first_in Hn'.
  - by apply (proj1 (Forall_forall _ _) Hx).
  - rewrite Hf in Hn'. congruence.
Qed.
End update.

(** *** Operations keep the lists tidy *)

Definition tidy_manager (rm : ReplicationManager) : Prop := ∀ id, tidy (GetReplicas rm id).

Lemma get_alter f id id' (m : gmap string (list Replica)) :
  f [] = [] → default [] (alter f id m !! id') =
  if bool_decide (id = id') then f (default [] (m !! id')) else default [] (m !! id').
Proof.
  intros Hf. case_bool_decide as Hid; [subst; rewrite lookup_alter_eq|by rewrite lookup_alter_ne].
  by destruct (m !! id').
Qed.

Lemma tidy_replicate now rm id data n : tidy_manager rm → tidy_manager (replicateToNode now rm id data n).
Proof.
  intros Ht id'. unfold GetReplicas, replicateToNode. simpl. destruct (decide (id = id')) as [<-|].
  - rewrite lookup_insert_eq. simpl. apply tidy_snoc; [apply Ht|done].
  - rewrite lookup_insert_ne by done. apply Ht.
Qed.

Lemma tidy_health now rm id n status : tidy_manager rm → tidy_manager (UpdateReplicaHealth now rm id n status).
Proof.
  intros Ht id'. unfold GetReplicas, UpdateReplicaHealth, update_replica. simpl. rewrite get_alter by done.
  destruct (bool_decide _); [apply tidy_update; [done|]|]; apply Ht.
Qed.

Lemma tidy_verify now rm id n : tidy_manager rm → tidy_manager (VerifyReplica now rm id n).
Proof.
  intros Ht id'. unfold GetReplicas, VerifyReplica, update_replica. simpl. rewrite get_alter by done.
  destruct (bool_decide _); [apply tidy_update; [done|]|]; apply Ht.
Qed.

Lemma get_remove rm id n id' :
  GetReplicas (RemoveReplica rm id n) id' =
  if bool_decide (id = id') then List.filter (fun r => negb (rp_NodeID r =?s n)) (GetReplicas rm id')
  else GetReplicas rm id'.
Proof.
  unfold GetReplicas, RemoveReplica. simpl. case_bool_decide as Hid.
  - subst. destruct (rm_replicas rm !! id') as [l|] eqn:Hl; simpl; rewrite ?Hl; [|done].
    destruct (List.filter _ l); simpl; [by rewrite lookup_delete_eq|by rewrite lookup_insert_eq].
  - destruct (rm_replicas rm !! id) as [l|] eqn:Hl; simpl; [|done].
    destruct (List.filter _ l); simpl; [by rewrite lookup_delete_ne|by rewrite lookup_insert_ne].
Qed.

Lemma tidy_remove rm id n : tidy_manager rm → tidy_manager (RemoveReplica rm id n).
Proof. intros Ht id'. rewrite get_remove. destruct (bool_decide _); [apply tidy_filter|]; apply Ht. Qed.

(** ** Rounds of repair *)

Section rounds.
Context `{Gzip}.

(** The first worker runs [n] tasks; [i] gives what it reads for each. *)
Fixpoint drain (i : nat → Z * TaskInputs) (k n : nat) (re : RepairEngine) : RepairEngine :=
  match n with
  | O => re
  | S n => drain i (S k) n (finish_task (i k).2 0 (begin_task (i k).1 0 re))
  end.

(** A check of the chunk, then the tasks it queued. *)
Definition round (inputs : Z * (nat → Z * TaskInputs)) (chunkID : string) (re : RepairEngine)
    : option RepairEngine :=
  (fun re => drain inputs.2 0 (length (re_queue re)) re) <$> checkChunkHealth inputs.1 chunkID re.

Fixpoint rounds (l : list (Z * (nat → Z * TaskInputs))) (chunkID : string) (re : RepairEngine)
    : option RepairEngine :=
  match l with
  | [] => Some re
  | inputs :: l => round inputs chunkID re ≫= rounds l chunkID
  end.

Record idle (re : RepairEngine) : Prop := {
  idle_open : re_closed re = false;
  idle_queue : re_queue re = [];
  idle_worker : re_workers re !! 0%nat = Some None
}.

(** *** One task *)

(** What a task does to the replicas. *)
Definition repaired (i : TaskInputs) (task : RepairTask) (cs : ChunkStore) (rm : ReplicationManager)
    : ReplicationManager :=
  let repair rm n := RepairReplica (ti_io i) (ti_now i) rm cs (rt_ChunkID task) n in
  if rt_Type task =?s RepairTypeMissing
  then (repair rm (if rt_TargetNodeID task =?s "" then "new-node" else rt_TargetNodeID task)).1
  else if rt_Type task =?s RepairTypeCorrupted
  then (repair (RemoveReplica rm (rt_ChunkID task) (rt_TargetNodeID task)) (rt_TargetNodeID task)).1
  else if rt_Type task =?s RepairTypeStale
  then match repair rm (rt_TargetNodeID task) with
       | (rm, None) =>
           UpdateReplicaHealth (ti_health i) rm (rt_ChunkID task) (rt_TargetNodeID task) ReplicaStatusHealthy
       | (rm, Some _) => rm
       end
  else rm.

Lemma dispatch_repaired i task re :
  let re' := (dispatch i task re).1 in
  re_replication re' = repaired i task (re_chunks re) (re_replication re) ∧
  re_chunks re' = re_chunks re ∧ re_queue re' = re_queue re ∧ re_closed re' = re_closed re ∧
  re_workers re' = re_workers re.
Proof.
  unfold dispatch, repaired, repairMissingReplica, repairCorruptedReplica, repairStaleReplica, repair_on.
  destruct (rt_Type task =?s RepairTypeMissing); [|destruct (rt_Type task =?s RepairTypeCorrupted);
    [|destruct (rt_Type task =?s RepairTypeStale); [|done]]];
    cbv zeta; simpl;
    match goal with |- context [RepairReplica ?a ?b ?c ?d ?e ?f] => destruct (RepairReplica a b c d e f) as [rm [err|]] end;
    done.
Qed.

Lemma task_begun started re task queue :
  re_workers re !! 0%nat = Some None → re_queue re = task :: queue →
  let re' := begin_task started 0 re in
  re_workers re' !! 0%nat =
    Some (Some (task <| rt_Status := RepairStatusInProgress |> <| rt_StartedAt := started |>)) ∧
  re_replication re' = re_replication re ∧ re_chunks re' = re_chunks re ∧ re_queue re' = queue ∧
  re_closed re' = re_closed re.
Proof.
  intros Hw Hq. unfold begin_task. rewrite Hw, Hq. split_and!; [|done..].
  apply list_lookup_insert_eq. by eapply lookup_lt_Some.
Qed.

Lemma task_finished i re task :
  re_workers re !! 0%nat = Some (Some task) →
  let re' := finish_task i 0 re in
  re_replication re' = repaired i task (re_chunks re) (re_replication re) ∧
  re_chunks re' = re_chunks re ∧ re_queue re' = re_queue re ∧ re_closed re' = re_closed re ∧
  re_workers re' !! 0%nat = Some None.
Proof.
  intros Hw. unfold finish_task. rewrite Hw. pose proof (dispatch_repaired i task re) as Hd.
  destruct (dispatch i task re) as [re' err]. destruct Hd as (Hr & Hc & Hq & Hcl & Hw').
  split_and!; [done..|]. apply list_lookup_insert_eq. cbn [fst] in Hw'. change (0 < length (re_workers re'))%nat.
  rewrite Hw'. by eapply lookup_lt_Some.
Qed.

Lemma work_done i started re task queue :
  re_workers re !! 0%nat = Some None → re_queue re = task :: queue →
  let re' := finish_task i 0 (begin_task started 0 re) in
  re_replication re' = repaired i task (re_chunks re) (re_replication re) ∧
  re_chunks re' = re_chunks re ∧ re_queue re' = queue ∧ re_closed re' = re_closed re ∧
  re_workers re' !! 0%nat = Some None.
Proof.
  intros Hw Hq. destruct (task_begun started re task queue Hw Hq) as (Hw1 & Hr1 & Hc1 & Hq1 & Hcl1).
  destruct (task_finished i _ _ Hw1) as (Hr & Hc & Hq' & Hcl & Hw'). cbv zeta.
  rewrite Hr, Hc, Hq', Hcl, Hc1, Hr1, Hq1, Hcl1. done.
Qed.

(** *** All tasks of a check *)

Context (chunkID data : string).

Abbreviation replicas rm := (GetReplicas rm chunkID).

Lemma get_replicate now rm n :
  ∃ r, replicas (replicateToNode now rm chunkID data n) = replicas rm ++ [r] ∧
    healthy r ∧ rp_NodeID r = n.
Proof.
  exists (new_replica now chunkID data n). unfold GetReplicas, replicateToNode. simpl.
  by rewrite lookup_insert_eq.
Qed.

Lemma repair_possible now rm cs n :
  ReadChunk None cs chunkID = Ok data → (∃ r, r ∈ replicas rm ∧ healthy r) →
  RepairReplica None now rm cs chunkID n = (replicateToNode now rm chunkID data n, None).
Proof.
  intros Hread (r & Hr & Hh). unfold RepairReplica, SelectPrimaryReplica.
  destruct (GetHealthyReplicas rm chunkID) eqn:E; [|by rewrite Hread].
  exfalso. unfold GetHealthyReplicas in E. rewrite filter_nil_iff in E.
  specialize (E r Hr). apply is_healthy_spec in Hh. congruence.
Qed.

Definition known_task (t : RepairTask) : Prop :=
  rt_ChunkID t = chunkID ∧
  (rt_Type t = RepairTypeMissing ∨ rt_Type t = RepairTypeCorrupted ∨ rt_Type t = RepairTypeStale).

Definition repairs (t : RepairTask) (r : Replica) : Prop :=
  rt_TargetNodeID t = rp_NodeID r ∧ rt_Type t ≠ RepairTypeMissing.

(** A healthy replica that no task removes. *)
Definition safe (todo : list RepairTask) (r : Replica) : Prop :=
  healthy r ∧ ∀ t, t ∈ todo → rt_Type t = RepairTypeCorrupted → rt_TargetNodeID t ≠ rp_NodeID r.

(** The tasks to come repair every replica that needs it. *)
Record repairable (todo : list RepairTask) (l : list Replica) : Prop := {
  rb_tidy : tidy l;
  rb_known : Forall known_task todo;
  rb_bad : ∀ r, r ∈ l → bad r → ∃ t, t ∈ todo ∧ repairs t r;
  rb_safe : ∃ r, r ∈ l ∧ safe todo r
}.

Lemma safe_tail t todo r : safe (t :: todo) r → safe todo r.
Proof. intros [Hh Hs]. split; [done|]. intros t' Ht'. apply Hs. by apply list_elem_of_further. Qed.

(** After its task nothing is left to repair on a node. *)
Lemma repairable_step t todo l l' :
  repairable (t :: todo) l → tidy l' →
  (∀ r, r ∈ l' → bad r → r ∈ l ∧ (rt_Type t ≠ RepairTypeMissing → rp_NodeID r ≠ rt_TargetNodeID t)) →
  (∀ r, r ∈ l → safe (t :: todo) r → ∃ r', r' ∈ l' ∧ healthy r' ∧ rp_NodeID r' = rp_NodeID r) →
  repairable todo l'.
Proof.
  intros [_ Hk Hb (s & Hs & Hsafe)] Ht' Hb' Hs'. apply Forall_cons in Hk as [Hk1 Hk]. split; [done|done| |].
  - intros r Hr Hbad. destruct (Hb' r Hr Hbad) as [Hrl Hne]. destruct (Hb r Hrl Hbad) as (t' & Ht & Hn & Hty).
    apply elem_of_cons in Ht as [->|Ht]; [|by exists t'].
    exfalso. by apply (Hne Hty).
  - destruct (Hs' s Hs Hsafe) as (s' & Hs1 & Hh & Hn). exists s'. split; [done|]. split; [done|].
    rewrite Hn. intros t' Ht. apply Hsafe. by apply list_elem_of_further.
Qed.

Lemma new_replica_bad (l : list Replica) x r : healthy x → r ∈ l ++ [x] → bad r → r ∈ l.
Proof.
  intros Hx [Hr| ->%list_elem_of_singleton]%elem_of_app Hb; [done|]. by apply healthy_not_bad in Hx.
Qed.

Lemma missing_repairable t todo l x :
  rt_Type t = RepairTypeMissing → repairable (t :: todo) l → healthy x → repairable todo (l ++ [x]).
Proof.
  intros Hty Hrb Hx. eapply repairable_step; [done|by apply tidy_snoc, Hx; apply Hrb| |].
  - intros r Hr Hb. split; [by eapply new_replica_bad|done].
  - intros r Hr [Hh _]. exists r. split; [|done]. apply elem_of_app. by left.
Qed.

Lemma filtered (l : list Replica) n r :
  r ∈ List.filter (fun r => negb (rp_NodeID r =?s n)) l ↔ r ∈ l ∧ rp_NodeID r ≠ n.
Proof.
  rewrite list_elem_of_In, filter_In, <-list_elem_of_In, negb_true_iff, bool_decide_eq_false. done.
Qed.

Lemma corrupted_repairable t todo l x :
  rt_Type t = RepairTypeCorrupted → repairable (t :: todo) l → healthy x →
  let l' := List.filter (fun r => negb (rp_NodeID r =?s rt_TargetNodeID t)) l in
  (∃ r, r ∈ l' ∧ healthy r) ∧ repairable todo (l' ++ [x]).
Proof.
  intros Hty Hrb Hx l'. assert (∀ r, r ∈ l → safe (t :: todo) r → r ∈ l') as Hs.
  { intros r Hr [_ Hs]. apply filtered. split; [done|]. intros E. apply (Hs t); [apply list_elem_of_here|done..]. }
  split.
  - destruct (rb_safe _ _ Hrb) as (s & Hsl & Hsafe). exists s. split; [auto|apply Hsafe].
  - eapply repairable_step; [done|apply tidy_snoc, Hx; apply tidy_filter, Hrb| |].
    + intros r Hr Hb. eapply new_replica_bad in Hr; [|done..]. by apply filtered in Hr as [Hr Hn].
    + intros r Hr Hsafe. exists r. split; [apply elem_of_app; auto|]. split; [apply Hsafe|done].
Qed.

Lemma update_healthy n f l r :
  (∀ x, healthy (f x)) → tidy l → r ∈ update_first n f l → rp_NodeID r = n → healthy r.
Proof.
  intros Hf. induction l as [|x l IH]; simpl; [by intros _ ?%elem_of_nil|]. intros [Hx Hl].
  destruct (bool_decide_reflect (rp_NodeID x = n)) as [Hn|Hn]; intros [->|Hr]%elem_of_cons Hrn; auto; try congruence.
  apply (proj1 (Forall_forall _ _) Hx); [done|congruence].
Qed.

Lemma update_keeps n f l r :
  (∀ x, healthy (f x)) → (∀ x, rp_NodeID (f x) = rp_NodeID x) → r ∈ l → healthy r →
  ∃ r', r' ∈ update_first n f l ∧ healthy r' ∧ rp_NodeID r' = rp_NodeID r.
Proof.
  intros Hf Hn. induction l as [|x l IH]; simpl; [by intros ?%elem_of_nil|].
  destruct (bool_decide_reflect (rp_NodeID x = n)); intros [->|Hr]%elem_of_cons Hh.
  - exists (f x). split; [apply list_elem_of_here|]. auto.
  - exists r. split; [by apply list_elem_of_further|done].
  - exists x. split; [apply list_elem_of_here|done].
  - destruct (IH Hr Hh) as (r' & Hr' & ?). exists r'. split; [by apply list_elem_of_further|done].
Qed.

Lemma stale_repairable t todo l x f :
  rt_Type t = RepairTypeStale → repairable (t :: todo) l → healthy x →
  (∀ x, healthy (f x)) → (∀ x, rp_NodeID (f x) = rp_NodeID x) →
  repairable todo (update_first (rt_TargetNodeID t) f (l ++ [x])).
Proof.
  intros Hty Hrb Hx Hf Hn. assert (tidy (l ++ [x])) as Ht by (apply tidy_snoc, Hx; apply Hrb).
  eapply repairable_step; [done|by apply tidy_update| |].
  - intros r Hr Hb. assert (rp_NodeID r ≠ rt_TargetNodeID t) as Hne.
    { intros E. by apply (update_healthy _ _ _ _ Hf Ht Hr), healthy_not_bad in E. }
    split; [|done]. apply update_first_in in Hr as [Hr|(y & _ & Hy & ->)]; [by eapply new_replica_bad|].
    by rewrite Hn in Hne.
  - intros r Hr [Hh _]. apply update_keeps; [done..| |done]. apply elem_of_app. by left.
Qed.

Lemma repaired_repairable i t todo cs rm :
  ti_io i = None → ReadChunk None cs chunkID = Ok data → repairable (t :: todo) (replicas rm) →
  repairable todo (replicas (repaired i t cs rm)) ∧ rm_config (repaired i t cs rm) = rm_config rm.
Proof.
  intros Hio Hread Hrb. destruct (proj1 (Forall_cons _ _ _) (rb_known _ _ Hrb)) as [[Hid Hty] _].
  unfold repaired. rewrite Hio, Hid. destruct Hty as [Hty|[Hty|Hty]]; rewrite Hty; simpl.
  - rewrite (repair_possible (ti_now i) rm cs _ Hread).
    + simpl. destruct (get_replicate (ti_now i) rm (if rt_TargetNodeID t =?s "" then "new-node"%string else rt_TargetNodeID t))
        as (x & -> & Hx & _). split; [by eapply missing_repairable|done].
    + destruct (rb_safe _ _ Hrb) as (s & Hs & Hh & _). eauto.
  - set (rm1 := RemoveReplica rm chunkID (rt_TargetNodeID t)).
    assert (replicas rm1 = List.filter (fun r => negb (rp_NodeID r =?s rt_TargetNodeID t)) (replicas rm)) as E1.
    { unfold rm1. rewrite get_remove. by rewrite bool_decide_eq_true_2. }
    assert (rm_config rm1 = rm_config rm) as Ec.
    { unfold rm1, RemoveReplica. simpl. by repeat case_match. }
    destruct (get_replicate (ti_now i) rm1 (rt_TargetNodeID t)) as (x & Ex & Hx & _).
    destruct (corrupted_repairable t todo (replicas rm) x Hty Hrb Hx) as [Hh Hr]. rewrite <-E1 in Hh, Hr.
    rewrite (repair_possible (ti_now i) rm1 cs _ Hread Hh). simpl. by rewrite Ex.
  - rewrite (repair_possible (ti_now i) rm cs _ Hread).
    + destruct (get_replicate (ti_now i) rm (rt_TargetNodeID t)) as (x & Ex & Hx & _). split; [|done].
      unfold UpdateReplicaHealth, update_replica, GetReplicas in *. simpl in Ex |- *.
      rewrite get_alter, bool_decide_eq_true_2 by done. rewrite Ex.
      by eapply stale_repairable.
    + destruct (rb_safe _ _ Hrb) as (s & Hs & Hh & _). eauto.
Qed.

Definition all_read (i : nat → Z * TaskInputs) : Prop := ∀ k, ti_io (i k).2 = None.

(** An engine in which the chunk can be read, with [todo] in the queue. *)
Record working (config : StorageConfig) (todo : list RepairTask) (re : RepairEngine) : Prop := {
  wk_open : re_closed re = false;
  wk_queue : re_queue re = todo;
  wk_worker : re_workers re !! 0%nat = Some None;
  wk_read : ReadChunk None (re_chunks re) chunkID = Ok data;
  wk_config : rm_config (re_replication re) = config
}.

Lemma drain_repairs config i todo k re :
  all_read i → working config todo re → repairable todo (replicas (re_replication re)) →
  working config [] (drain i k (length todo) re) ∧
  repairable [] (replicas (re_replication (drain i k (length todo) re))).
Proof.
  intros Hio. revert k re. induction todo as [|t todo IH]; intros k re Hw Hrb; [done|]. simpl.
  destruct Hw as [Ho Hq Hwk Hread Hc].
  destruct (work_done (i k).2 (i k).1 re t todo Hwk Hq) as (Hr' & Hcs' & Hq' & Ho' & Hw').
  destruct (repaired_repairable (i k).2 t todo (re_chunks re) (re_replication re) (Hio k) Hread Hrb) as [Hrb' Hc'].
  rewrite <-Hr' in Hrb', Hc'. apply IH; [|done]. split; congruence.
Qed.

(** *** The tasks of a check *)

Definition queued (now : Z) (rm : ReplicationManager) : list RepairTask :=
  (if ReplicationFactor (rm_config rm) <=? len (GetHealthyReplicas rm chunkID) then []
   else [new_task now chunkID RepairTypeMissing 1 ""]) ++
  omap (replica_task now chunkID) (replicas rm).

Lemma queue_replicas_all now l re :
  re_closed re = false → len (re_queue re) + len l ≤ queue_capacity →
  queue_replicas now chunkID l re =
    Some (re <| re_queue := re_queue re ++ omap (replica_task now chunkID) l |>).
Proof.
  unfold len. revert re. induction l as [|r l IH]; intros re Ho Hl.
  { simpl. rewrite app_nil_r. by destruct re. }
  cbn [length] in Hl. cbn [queue_replicas]. destruct (replica_task now chunkID r) as [t|] eqn:Ht.
  - unfold enqueue, len. rewrite Ho, (proj2 (Z.ltb_lt _ _)) by lia. cbn [mbind option_bind].
    rewrite IH; [|done|simpl; rewrite length_app; simpl; lia]. simpl. rewrite Ht, <-app_assoc. done.
  - cbn [mbind option_bind]. rewrite IH by (done || lia). simpl. by rewrite Ht.
Qed.

Lemma check_queues now re :
  re_closed re = false → re_queue re = [] → len (replicas (re_replication re)) < queue_capacity →
  checkChunkHealth now chunkID re = Some (re <| re_queue := queued now (re_replication re) |>).
Proof.
  intros Ho Hq Hl. unfold checkChunkHealth, CheckReplicationHealth, queued. cbv zeta.
  destruct (_ <=? _); cbn [negb].
  - cbn [mbind option_bind]. rewrite queue_replicas_all by (done || rewrite Hq; unfold len in *; simpl; lia).
    by rewrite Hq.
  - unfold enqueue. rewrite Ho, Hq. change (len [] <? queue_capacity) with true. cbn [mbind option_bind].
    rewrite queue_replicas_all; [done|done|]. unfold len in *. simpl. simpl in Hl. lia.
Qed.

Lemma task_of_replica now r t : replica_task now chunkID r = Some t →
  known_task t ∧ rt_TargetNodeID t = rp_NodeID r ∧ rt_Type t ≠ RepairTypeMissing ∧
  (rt_Type t = RepairTypeCorrupted → corrupted r).
Proof.
  unfold replica_task, known_task. case_bool_decide; [|case_bool_decide]; intros [= <-]; split_and!; auto; done.
Qed.

Lemma bad_task now r : bad r → ∃ t, replica_task now chunkID r = Some t ∧ repairs t r.
Proof.
  unfold bad, corrupted, stale, replica_task, repairs. intros [->| ->]; simpl; eexists; (split; [done|]); done.
Qed.

Lemma queued_repairable now rm s :
  tidy (replicas rm) → s ∈ replicas rm → healthy s →
  (∀ r, r ∈ replicas rm → corrupted r → rp_NodeID r ≠ rp_NodeID s) → repairable (queued now rm) (replicas rm).
Proof.
  intros Ht Hs Hh Hc. unfold queued. split; [done| | |].
  - apply Forall_app. split; [case_match; repeat constructor; auto|].
    apply Forall_forall. intros t (r & Hr & Hrt)%list_elem_of_omap. by eapply task_of_replica.
  - intros r Hr Hb. destruct (bad_task now r Hb) as (t & Hrt & Hrep). exists t. split; [|done].
    apply elem_of_app. right. apply list_elem_of_omap. eauto.
  - exists s. split; [done|]. split; [done|]. intros t [Ht'|(r & Hr & Hrt)%list_elem_of_omap]%elem_of_app Hty.
    + destruct (_ <=? _); [by apply elem_of_nil in Ht'|]. apply list_elem_of_singleton in Ht' as ->. done.
    + destruct (task_of_replica now r t Hrt) as (_ & Hn & _ & Hcr). rewrite Hn. by apply Hc, Hcr.
Qed.

(** *** Convergence *)

(** Nothing is corrupted or stale, and [k] replicas are healthy, or enough. *)
Record calm (config : StorageConfig) (k : Z) (re : RepairEngine) : Prop := {
  ca_working : working config [] re;
  ca_tidy : tidy (replicas (re_replication re));
  ca_good : ∀ r, r ∈ replicas (re_replication re) → ¬ bad r;
  ca_count : Z.min k (ReplicationFactor config) ≤ len (GetHealthyReplicas (re_replication re) chunkID)
}.

Lemma len_pos {A} (l : list A) : 1 ≤ len l ↔ ∃ x, x ∈ l.
Proof.
  unfold len. destruct l as [|x l]; simpl.
  - split; [lia|]. by intros (x & ?%elem_of_nil).
  - split; [|lia]. intros _. exists x. apply list_elem_of_here.
Qed.

Lemma healthy_in rm r : r ∈ GetHealthyReplicas rm chunkID ↔ r ∈ replicas rm ∧ healthy r.
Proof.
  unfold GetHealthyReplicas. by rewrite list_elem_of_In, filter_In, <-list_elem_of_In, is_healthy_spec.
Qed.

Lemma first_round config inputs re :
  all_read inputs.2 → working config [] re → tidy (replicas (re_replication re)) →
  len (replicas (re_replication re)) < queue_capacity →
  (∃ s, s ∈ replicas (re_replication re) ∧ healthy s ∧
    ∀ r, r ∈ replicas (re_replication re) → corrupted r → rp_NodeID r ≠ rp_NodeID s) →
  ∃ re', round inputs chunkID re = Some re' ∧ calm config 1 re'.
Proof.
  intros Hio Hw Ht Hl (s & Hs & Hh & Hc). unfold round.
  rewrite check_queues by (done || apply Hw). cbn [fmap option_fmap option_map]. eexists. split; [done|].
  set (todo := queued inputs.1 (re_replication re)). set (re1 := re <| re_queue := todo |>).
  assert (working config todo re1) as Hw1 by (destruct Hw; split; done).
  destruct (drain_repairs config inputs.2 todo 0 re1 Hio Hw1) as [Hw' [Ht' _ Hb' (r & Hr & Hrh & _)]].
  { by eapply queued_repairable. }
  split; [exact Hw'|exact Ht'| |].
  - intros x Hx Hbad. destruct (Hb' x Hx Hbad) as (t & Ht0 & _). by apply elem_of_nil in Ht0.
  - etrans; [apply Z.le_min_l|]. apply len_pos. exists r. by apply healthy_in.
Qed.

Lemma calm_tasks now l : (∀ r, r ∈ l → ¬ bad r) → omap (replica_task now chunkID) l = [].
Proof.
  intros Hg. induction l as [|r l IH]; [done|]. cbn [omap list_omap].
  assert (¬ bad r) as Hb by (apply Hg, list_elem_of_here). unfold bad, corrupted, stale in Hb. unfold replica_task.
  rewrite !bool_decide_eq_false_2 by tauto. apply IH. intros x Hx. apply Hg. by apply list_elem_of_further.
Qed.

Lemma next_round config k inputs re :
  all_read inputs.2 → 1 ≤ k → calm config k re →
  ∃ re', round inputs chunkID re = Some re' ∧ calm config (k + 1) re' ∧
    (ReplicationFactor config ≤ len (GetHealthyReplicas (re_replication re) chunkID) → re' = re).
Proof.
  intros Hio Hk [Hw Ht Hg Hn]. unfold round, checkChunkHealth, CheckReplicationHealth. cbv zeta.
  assert (∀ re1, re_replication re1 = re_replication re → queue_replicas inputs.1 chunkID (replicas (re_replication re1)) re1 = Some re1) as Hq.
  { intros re1 ->. clear -Hg. revert Hg. generalize (replicas (re_replication re)). intros l Hg.
    induction l as [|r l IH]; [done|]. pose proof (calm_tasks inputs.1 (r :: l) Hg) as Hr. simpl in Hr |- *.
    destruct (replica_task inputs.1 chunkID r); [done|]. simpl. apply IH. intros x Hx. apply Hg. by apply list_elem_of_further. }
  rewrite (wk_config _ _ _ Hw).
  destruct (Z.leb_spec (ReplicationFactor config) (len (GetHealthyReplicas (re_replication re) chunkID))) as [Hr|Hr].
  - cbn [negb mbind option_bind]. rewrite Hq by done. simpl. rewrite (wk_queue _ _ _ Hw). simpl.
    exists re. split; [done|]. split; [|done]. split; try done. lia.
  - cbn [negb]. unfold enqueue. rewrite (wk_open _ _ _ Hw), (wk_queue _ _ _ Hw).
    change (len [] <? queue_capacity) with true. cbn [mbind option_bind].
    set (re1 := re <| re_queue := _ |>). rewrite Hq by done. cbn [fmap option_fmap option_map].
    eexists. split; [done|]. split; [|lia].
    assert (∃ s, s ∈ GetHealthyReplicas (re_replication re) chunkID) as (s & Hs) by (apply len_pos; lia).
    apply healthy_in in Hs as [Hs Hh]. set (t := new_task _ _ _ _ _) in re1.
    destruct (work_done (inputs.2 0%nat).2 (inputs.2 0%nat).1 re1 t []) as (Hr' & Hcs' & Hq' & Ho' & Hw');
      [apply Hw|done|].
    change (re_replication re1) with (re_replication re) in Hr'. change (re_chunks re1) with (re_chunks re) in Hr', Hcs'.
    change (drain inputs.2 0 (length (re_queue re1)) re1) with
      (finish_task (inputs.2 0%nat).2 0 (begin_task (inputs.2 0%nat).1 0 re1)).
    set (re2 := finish_task _ _ _) in *.
    assert (re_replication re2 = replicateToNode (ti_now (inputs.2 0%nat).2) (re_replication re) chunkID data "new-node") as E.
    { rewrite Hr'. unfold repaired. rewrite (Hio 0%nat). cbn [t rt_Type new_task rt_ChunkID rt_TargetNodeID]. simpl.
      rewrite (repair_possible _ _ _ _ (wk_read _ _ _ Hw)); [done|eauto]. }
    destruct (get_replicate (ti_now (inputs.2 0%nat).2) (re_replication re) "new-node") as (x & Ex & Hx & _).
    rewrite <-E in Ex. split.
    + split; [by rewrite Ho'; apply Hw|done|done|rewrite Hcs'; apply Hw|rewrite E; apply Hw].
    + rewrite Ex. by apply tidy_snoc.
    + intros r Hrin Hb. rewrite Ex in Hrin. eapply (Hg r); [|done]. by eapply new_replica_bad.
    + unfold GetHealthyReplicas in *. rewrite Ex, List.filter_app. simpl.
      apply is_healthy_spec in Hx. rewrite Hx. unfold len in *. rewrite length_app. simpl. lia.
Qed.

Lemma more_rounds config k l re :
  Forall (fun inputs => all_read inputs.2) l → 1 ≤ k → calm config k re →
  ∃ re', rounds l chunkID re = Some re' ∧ calm config (k + len l) re'.
Proof.
  unfold len. intros Hl. revert k re. induction Hl as [|inputs l Hio Hl IH]; intros k re Hk Hc.
  { exists re. simpl. by rewrite Z.add_0_r. }
  destruct (next_round config k inputs re Hio Hk Hc) as (re1 & Hr & Hc1 & _).
  destruct (IH (k + 1) re1) as (re' & Hr' & Hc'); [lia|done|]. exists re'. simpl. rewrite Hr. simpl.
  split; [done|]. replace (k + Z.of_nat (S (length l))) with (k + 1 + Z.of_nat (length l)) by lia. done.
Qed.
End rounds.


(** ** Concrete runs *)

Module RepairRuns.

#[local] Existing Instances ChunkRuns.toy_gzip range_canonical sort_insertion.

Definition id : string := sha256_hex "abc".
Definition chunks : ChunkStore := (WriteChunk (write_ok 1) (ChunkRuns.start false) "abc").1.

Definition replicated (nodes : list (string * string)) : ReplicationManager :=
  fold_left (fun rm '(n, status) =>
    UpdateReplicaHealth 2 (replicateToNode (1, 1, 1) rm id "abc" n) id n status)
    nodes (NewReplicationManager (ChunkRuns.config false)).

Definition engine_of (rm : ReplicationManager) : RepairEngine :=
  Start (NewRepairEngine (ChunkRuns.config false) rm chunks).

Definition inputs : Z * (nat → Z * TaskInputs) :=
  (5, fun _ => (6, {| ti_io := None; ti_now := (7, 7, 7); ti_health := 8; ti_completed := 9 |})).

Definition shown (re : option RepairEngine) : option (list (string * string)) :=
  (fun re => (fun r => (rp_NodeID r, rp_Status r)) <$> GetReplicas (re_replication re) id) <$> re.

(** One replica of each kind; three are wanted. *)
Definition mixed : RepairEngine := engine_of (replicated
  [("n1", ReplicaStatusHealthy); ("n2", ReplicaStatusStale); ("n3", ReplicaStatusCorrupted)]%string).

Lemma chunk_read : ReadChunk None chunks id = Ok "abc"%string.
Proof. vm_compute. reflexivity. Qed.


(** The stale replica is kept and one more is recorded for its node; the copy
    for the missing replica goes to a node that does not exist. *)
Example mixed_repaired :
  shown (round inputs id mixed) =
  Some [("n1", "healthy"); ("n2", "healthy"); ("new-node", "healthy"); ("n2", "healthy"); ("n3", "healthy")]%string.
Proof. vm_compute. reflexivity. Qed.

(** A chunk on one node comes to count as replicated three times. *)
Example placeholder_replicas :
  shown (rounds [inputs; inputs; inputs] id (engine_of (replicated [("n1", ReplicaStatusHealthy)]%string))) =
  Some [("n1", "healthy"); ("new-node", "healthy"); ("new-node", "healthy")]%string.
Proof. vm_compute. reflexivity. Qed.

(** Repairing a corrupted replica drops the healthy ones of its node first;
    then nothing is left to copy from, though the chunk can be read. *)
Example repair_loses_replicas :
  let rm := (replicated [("n1", ReplicaStatusCorrupted); ("n1", ReplicaStatusCorrupted)]%string)
              <| rm_config := (ChunkRuns.config false) <| ReplicationFactor := 1 |> |> in
  CheckReplicationHealth rm id = (true, 1) ∧ shown (round inputs id (engine_of rm)) = Some [] ∧
  shown (rounds [inputs; inputs] id (engine_of rm)) = Some [].
Proof. vm_compute. done. Qed.

(** A check that runs after the engine has been stopped sends on the closed
    queue. *)
Example check_after_stop :
  (Stop mixed ≫= performAntiEntropy (fun _ => 5) 6) = None.
Proof. vm_compute. reflexivity. Qed.

(** A task for missing shards is never carried out. *)
Example shards_not_repaired (i : TaskInputs) (re : RepairEngine) :
  dispatch i (new_task 0 "b:k" "ec_missing_shards" 1 "") re =
    (re, Some "unknown repair type: ec_missing_shards"%string).
Proof. reflexivity. Qed.

(** Two tasks of one chunk: the first to end hides the other from the active
    repairs. *)
Example active_repair_hidden :
  let re := default mixed (checkChunkHealth 5 id mixed) in
  let re := finish_task (inputs.2 0%nat).2 0 (begin_task 6 1 (begin_task 6 0 re)) in
  re_active re = ∅ ∧ is_Some (mjoin (re_workers re !! 1%nat)).
Proof. vm_compute. split; [reflexivity|eauto]. Qed.

(** *** Merkle trees *)

Definition a : string := sha256_hex "a".
Definition b : string := sha256_hex "b".
Definition c : string := sha256_hex "c".

Definition tree (ids : list string) : MerkleTree :=
  default {| mt_Root := ""; mt_Leaves := []; mt_Depth := 0 |} (BuildMerkleTree ids).

Lemma merkle_tree_built_witness :
  ∃ t, BuildMerkleTree [a; b; c] = Some t ∧ BuildMerkleTree [c; a; b] = Some t ∧ mt_Depth t = 2.
Proof.
  destruct (merkle_tree_built [a; b; c]) as (t & Hb & _ & _ & Hd & _); [vm_compute; reflexivity|].
  exists t. split; [apply Hb; reflexivity|]. split; [|exact Hd]. apply Hb.
  apply (Permutation_cons_append [a; b] c).
Defined.

Lemma merkle_compare_witness : c ∈ CompareMerkleTrees (tree [a; b]) (tree [a; c]).
Proof.
  destruct (merkle_compare [a; b] [a; c] (tree [a; b]) (tree [a; c])) as [_ Hc].
  - vm_compute. reflexivity.
  - vm_compute. reflexivity.
  - vm_compute. reflexivity.
  - vm_compute. reflexivity.
  - apply Hc.
    + reflexivity.
    + repeat constructor; apply sha256_hex_length.
    + repeat constructor; apply sha256_hex_length.
    + apply collision_free_check. vm_compute. reflexivity.
    + right. split; [apply list_elem_of_further, list_elem_of_here|].
      apply (bool_decide_unpack (c ∉ [a; b])). vm_compute. exact I.
Defined.

(** A chunk whose content is two identifiers stands for the two chunks: the
    trees of different sets have the same root. *)
Example merkle_collision : CompareMerkleTrees (tree [a; b]) (tree [sha256_hex (b +:+ a)]) = [].
Proof. vm_compute. reflexivity. Qed.

End RepairRuns.
