(* ===== verification/StorageManager.v ===== *)
(** * The storage manager (pkg/storage/manager.go)

    The manager owns an object store, with the repair engine in it, and keeps
    the storage nodes of the cluster: their records, their last reports and a
    placement strategy of its own.  Two loops check the nodes and rebalance.
    The object store and the repair engine share the records of replicas and
    the chunks.  [None] is a panic. *)

From S2P Require Import Prelude GoText GoFloat GoCrypto GoFiles RaftFSM StorageTypes ChunkStore ContentEngine StoragePlacement Replication ObjectMetadata ObjectStore Erasure Repair.

Local Open Scope string_scope.
Local Open Scope Z_scope.

(** ** Data *)

Record NodeInfo := {
  ni_ID : string;
  ni_Address : string;
  ni_Zone : string;
  ni_Region : string;
  ni_StorageCapacity : Z;
  ni_IOPSClass : string;
  ni_Labels : gmap string string;
  ni_RegisteredAt : Z
}.

Record NodeStorageStats := {
  ns_TotalBytes : Z;
  ns_UsedBytes : Z;
  ns_AvailableBytes : Z;
  ns_ChunkCount : Z;
  ns_VolumeCount : Z;
  ns_LastUpdated : Z
}.

Record AllocateVolumeRequest := {
  av_VolumeID : string;
  av_WorkloadID : string;
  av_SizeBytes : Z;
  av_IOPSClass : string;
  av_PreferredZone : string;
  av_ExcludeNodes : list string
}.

Record VolumeAllocation := {
  va_VolumeID : string;
  va_NodeID : string;
  va_SizeBytes : Z;
  va_IOPSClass : string;
  va_WorkloadID : string;
  va_AllocatedAt : Z
}.

Record ClusterStorageStats := {
  cl_TotalNodes : Z;
  cl_HealthyNodes : Z;
  cl_TotalCapacity : Z;
  cl_UsedCapacity : Z;
  cl_AvailableCapacity : Z;
  cl_UsagePercent : float64;
  cl_TotalBuckets : Z;
  cl_TotalObjects : Z;
  cl_TotalObjectBytes : Z;
  cl_TotalChunks : Z;
  cl_HealthyReplicas : Z;
  cl_StaleReplicas : Z;
  cl_CorruptedReplicas : Z;
  cl_UnderReplicatedChunks : Z;
  cl_RepairsCompleted : Z;
  cl_RepairsFailed : Z;
  cl_LastUpdated : Z
}.

Record RebalancingStatus := {
  bs_Active : bool; bs_LastRun : Z; bs_OperationsCompleted : Z; bs_OperationsFailed : Z
}.

Record Rebalancer := { rb_lastRun : Z; rb_completedOps : Z; rb_failedOps : Z }.

#[export] Instance eta_Rebalancer : Eta Rebalancer := fun x =>
  Build_Rebalancer (rb_lastRun x) (rb_completedOps x) (rb_failedOps x).

Definition NewRebalancer : Rebalancer := {| rb_lastRun := zero_time; rb_completedOps := 0; rb_failedOps := 0 |}.

(** [sm_triggered] goroutines of [TriggerRebalancing] have not looked at
    [rebalancingActive] yet; [sm_rebalancing] calls of [executeRebalancing] are
    between their two critical sections. *)
Record StorageManager := {
  sm_config : StorageConfig;
  sm_objects : ObjectStore;
  sm_repair : RepairEngine;
  sm_placement : PlacementStrategy;
  sm_nodes : gmap string NodeInfo;
  sm_nodeStats : gmap string NodeStorageStats;
  sm_rebalancer : Rebalancer;
  sm_active : bool;
  sm_triggered : nat;
  sm_rebalancing : nat
}.

#[export] Instance eta_StorageManager : Eta StorageManager := fun x =>
  Build_StorageManager (sm_config x) (sm_objects x) (sm_repair x) (sm_placement x) (sm_nodes x)
    (sm_nodeStats x) (sm_rebalancer x) (sm_active x) (sm_triggered x) (sm_rebalancing x).

(** ** The rebalancer *)

(** A placeholder: nothing is moved. *)
Definition executeOperation (op : RebalanceOperation) : option string := None.

Definition Execute (now : Z) (operations : list RebalanceOperation) (r : Rebalancer) : Rebalancer :=
  fold_left (fun r op =>
    match executeOperation op with
    | Some _ => r <| rb_failedOps := int64 (rb_failedOps r + 1) |>
    | None => r <| rb_completedOps := int64 (rb_completedOps r + 1) |>
    end) operations (r <| rb_lastRun := now |>).

(** ** Nodes *)

Definition storage_node (node : NodeInfo) : StorageNode := {|
  sn_ID := ni_ID node; sn_Zone := ni_Zone node; sn_Region := ni_Region node;
  sn_Capacity := ni_StorageCapacity node; sn_Used := 0; sn_Available := ni_StorageCapacity node;
  sn_IOPSClass := ni_IOPSClass node; sn_State := NodeStateHealthy; sn_ReadLatencyMs := f0;
  sn_WriteLatencyMs := f0; sn_ReadIOPS := 0; sn_WriteIOPS := 0; sn_Labels := ni_Labels node;
  sn_LastUpdated := zero_time |}.

(** It does not fail, as [PlacementStrategy.RegisterNode] does not. *)
Definition RegisterNode (node : NodeInfo) (sm : StorageManager) : StorageManager :=
  sm <| sm_nodes := <[ni_ID node := node]> (sm_nodes sm) |>
     <| sm_placement := StoragePlacement.RegisterNode (sm_placement sm) (storage_node node) |>.

Definition UnregisterNode (nodeID : string) (sm : StorageManager) : StorageManager :=
  sm <| sm_nodes := delete nodeID (sm_nodes sm) |>
     <| sm_nodeStats := delete nodeID (sm_nodeStats sm) |>
     <| sm_placement := StoragePlacement.UnregisterNode (sm_placement sm) nodeID |>.

(** The report is stored also when the node is not known. *)
Definition UpdateNodeStats (now : Z) (nodeID : string) (stats : NodeStorageStats) (sm : StorageManager)
    : StorageManager * option string :=
  let sm := sm <| sm_nodeStats := <[nodeID := stats]> (sm_nodeStats sm) |> in
  let '(ps, err) := UpdateNodeCapacity now (sm_placement sm) nodeID (ns_UsedBytes stats) (ns_TotalBytes stats) in
  (sm <| sm_placement := ps |>, err).

Definition GetNode (nodeID : string) (sm : StorageManager) : result string NodeInfo :=
  match sm_nodes sm !! nodeID with
  | Some node => Ok node
  | None => Err ("node not found: " +:+ nodeID)
  end.

Definition ListNodes `{GoRange} (sm : StorageManager) : list NodeInfo := (range_map (sm_nodes sm)).*2.

(** ** Health checks *)

Definition stale_after : Z := 2 * minute.

Definition set_state (state : string) (now : Z) (node : StorageNode) : StorageNode :=
  node <| sn_State := state |> <| sn_LastUpdated := now |>.

(** The body of the loop; the clock is read for the age of the report and for
    the change. *)
Definition check_node (now : string → Z * Z) (stats : gmap string NodeStorageStats) (ps : PlacementStrategy)
    (node : NodeInfo) : PlacementStrategy :=
  let id := ni_ID node in
  match stats !! id, ps_nodes ps !! id with
  | Some st, Some sn =>
      if stale_after <? time_Sub (now id).1 (ns_LastUpdated st) then
        if negb (sn_State sn =?s NodeStateDegraded)
        then ps <| ps_nodes := <[id := set_state NodeStateDegraded (now id).2 sn]> (ps_nodes ps) |> else ps
      else
        if sn_State sn =?s NodeStateDegraded
        then ps <| ps_nodes := <[id := set_state NodeStateHealthy (now id).2 sn]> (ps_nodes ps) |> else ps
  | _, _ => ps
  end.

Definition performHealthChecks `{GoRange} (now : string → Z * Z) (sm : StorageManager) : StorageManager :=
  sm <| sm_placement :=
          fold_left (check_node now (sm_nodeStats sm)) (range_map (sm_nodes sm)).*2 (sm_placement sm) |>.

(** ** Rebalancing *)

Definition TriggerRebalancing (sm : StorageManager) : StorageManager * option string :=
  if sm_active sm then (sm, Some "rebalancing already in progress")
  else (sm <| sm_triggered := S (sm_triggered sm) |>, None).

(** The first critical section of [executeRebalancing]. *)
Definition begin_rebalancing (sm : StorageManager) : StorageManager :=
  if sm_active sm then sm
  else sm <| sm_active := true |> <| sm_rebalancing := S (sm_rebalancing sm) |>.

(** A goroutine of [TriggerRebalancing] begins. *)
Definition begin_triggered (sm : StorageManager) : StorageManager :=
  match sm_triggered sm with
  | O => sm
  | S n => begin_rebalancing (sm <| sm_triggered := n |>)
  end.

(** A turn of [rebalancingLoop]. *)
Definition rebalancing_turn (sm : StorageManager) : StorageManager :=
  if negb (sm_active sm) then begin_rebalancing sm else sm.

(** The rest of [executeRebalancing], with the deferred critical section. *)
Definition end_rebalancing `{GoRange} (now : Z) (sm : StorageManager) : StorageManager :=
  match sm_rebalancing sm with
  | O => sm
  | S n =>
      let operations := RebalanceRecommendations (sm_placement sm) in
      let sm := if len operations =? 0 then sm
                else sm <| sm_rebalancer := Execute now operations (sm_rebalancer sm) |> in
      sm <| sm_active := false |> <| sm_rebalancing := n |>
  end.

Definition GetRebalancingStatus (sm : StorageManager) : RebalancingStatus := {|
  bs_Active := sm_active sm; bs_LastRun := rb_lastRun (sm_rebalancer sm);
  bs_OperationsCompleted := rb_completedOps (sm_rebalancer sm);
  bs_OperationsFailed := rb_failedOps (sm_rebalancer sm) |}.

(** ** Objects *)

(** A step of the repair engine, on the replicas and chunks of the store. *)
Definition repairing (f : RepairEngine → option RepairEngine) (sm : StorageManager) : option StorageManager :=
  let os := sm_objects sm in
  let re := sm_repair sm in
  re ← f (re <| re_replication := os_replication os |> <| re_chunks := os_chunks os |>);
  let os := os <| os_replication := re_replication re |> <| os_chunks := re_chunks re |> in
  Some (sm <| sm_repair := re |> <| sm_objects := os |>).

Definition with_store {A} (f : ObjectStore → ObjectStore * A) (sm : StorageManager) : StorageManager * A :=
  let '(os, a) := f (sm_objects sm) in (sm <| sm_objects := os |>, a).

Section manager.
Context `{GoRange, GoSort, Gzip, MetadataCodec}.

Definition NewStorageManager (mkdir : option string) (mtime : Path → Z) (stop : option (nat * string))
    (now : Z) (files : Files) (config : StorageConfig) : result string StorageManager :=
  match NewObjectStore mkdir mtime stop now files config None with
  | Err err => Err ("failed to create object store: " +:+ err)
  | Ok os => Ok {|
      sm_config := config; sm_objects := os;
      sm_repair := NewRepairEngine config (os_replication os) (os_chunks os);
      sm_placement := NewPlacementStrategy config; sm_nodes := ∅; sm_nodeStats := ∅;
      sm_rebalancer := NewRebalancer; sm_active := false; sm_triggered := 0; sm_rebalancing := 0 |}
  end.

(** The loops it starts are the steps above. *)
Definition Start (sm : StorageManager) : option StorageManager :=
  repairing (fun re => Some (Repair.Start re)) sm.

Definition Stop (rm : string → option string) (sm : StorageManager) : option StorageManager :=
  sm ← repairing Repair.Stop sm;
  Some (sm <| sm_objects := ObjectStore.Stop rm (sm_objects sm) |>).

Definition PutObject (i : PutInputs) (req : PutObjectRequest) (sm : StorageManager)
    : option (StorageManager * option storage_error) :=
  '(os, err) ← ObjectStore.PutObject i req (sm_objects sm); Some (sm <| sm_objects := os |>, err).

Definition GetObject (read : Z) (io again : nat → option string) (bucket key : string) (sm : StorageManager)
    : StorageManager * result storage_error GetObjectResponse :=
  with_store (ObjectStore.GetObject read io again bucket key) sm.

Definition DeleteObject (read : Z) (ans : raft_answer) (bucket key : string) (sm : StorageManager)
    : StorageManager * option storage_error :=
  with_store (ObjectStore.DeleteObject read ans bucket key) sm.

Definition ListObjects (bucket prefix : string) (maxKeys : Z) (sm : StorageManager)
    : result storage_error (list ObjectMetadata) :=
  ObjectStore.ListObjects bucket prefix maxKeys (sm_objects sm).

Definition CreateBucket (now : Z) (ans : raft_answer) (req : CreateBucketRequest) (sm : StorageManager)
    : StorageManager * option storage_error :=
  with_store (ObjectStore.CreateBucket now ans req) sm.

Definition DeleteBucket (ans : raft_answer) (name : string) (sm : StorageManager)
    : StorageManager * option storage_error :=
  with_store (ObjectStore.DeleteBucket ans name) sm.

Definition ListBuckets (sm : StorageManager) : list BucketMetadata := ObjectStore.ListBuckets (sm_objects sm).

(** ** Volumes *)

Definition volume_placement (req : AllocateVolumeRequest) : PlacementRequest := {|
  pr_StorageClass := StorageClassEphemeral; pr_IOPSClass := av_IOPSClass req; pr_ReplicaCount := 1;
  pr_Size := av_SizeBytes req; pr_PreferredZone := av_PreferredZone req;
  pr_ExcludeNodes := av_ExcludeNodes req |}.

(** Nothing is recorded. *)
Definition AllocateVolume (now : Z) (req : AllocateVolumeRequest) (sm : StorageManager)
    : option (result string VolumeAllocation) :=
  match SelectNodes (sm_placement sm) (volume_placement req) with
  | None => None
  | Some (Err err) => Some (Err ("failed to select node for volume: " +:+ err))
  | Some (Ok []) => None
  | Some (Ok (nodeID :: _)) =>
      Some (Ok {| va_VolumeID := av_VolumeID req; va_NodeID := nodeID; va_SizeBytes := av_SizeBytes req;
                  va_IOPSClass := av_IOPSClass req; va_WorkloadID := av_WorkloadID req;
                  va_AllocatedAt := now |})
  end.

(** ** Statistics *)

Definition GetClusterStats (now objects_now capacity_now replication_now : Z) (sm : StorageManager)
    : ClusterStorageStats :=
  let objectStats := ObjectStore.GetStats objects_now (sm_objects sm) in
  let capacity := GetClusterCapacity capacity_now (sm_placement sm) in
  let replicationStats := GetReplicationStats replication_now (os_replication (sm_objects sm)) in
  let repairMetrics := re_metrics (sm_repair sm) in
  {| cl_TotalNodes := cc_TotalNodes capacity; cl_HealthyNodes := cc_HealthyNodes capacity;
     cl_TotalCapacity := cc_TotalCapacity capacity; cl_UsedCapacity := cc_TotalUsed capacity;
     cl_AvailableCapacity := cc_TotalAvailable capacity; cl_UsagePercent := cc_UsagePercent capacity;
     cl_TotalBuckets := st_BucketCount objectStats; cl_TotalObjects := st_TotalObjects objectStats;
     cl_TotalObjectBytes := st_TotalBytes objectStats; cl_TotalChunks := rs_TotalChunks replicationStats;
     cl_HealthyReplicas := rs_HealthyReplicas replicationStats;
     cl_StaleReplicas := rs_StaleReplicas replicationStats;
     cl_CorruptedReplicas := rs_CorruptedReplicas replicationStats;
     cl_UnderReplicatedChunks := rs_UnderReplicatedChunks replicationStats;
     cl_RepairsCompleted := rx_TasksCompleted repairMetrics; cl_RepairsFailed := rx_TasksFailed repairMetrics;
     cl_LastUpdated := now |}.

End manager.
