(* ===== verification/StorageManagerSpec.v ===== *)
(** * Where the storage manager puts things

    Two theorems on the manager and everything it owns, for every history of
    calls, repairs, checks and rebalancings: where the replicas of objects are
    recorded, and on which nodes volumes are allocated. *)

From S2P Require Import Prelude GoText GoFloat GoCrypto GoFiles RaftFSM StorageTypes ChunkStore ChunkStoreSpec ContentEngine StoragePlacement Replication ReplicationSpec ObjectMetadata ObjectStore ObjectStoreSpec Erasure Repair StorageManager.

Local Open Scope string_scope.
Local Open Scope Z_scope.

(** ** Records of replicas *)

(** The names written in the code. *)
Definition made_up : list string := ["node-1"; "node-2"; "node-3"; "new-node"].

Definition confined (rm : ReplicationManager) : Prop :=
  ∀ chunk r, r ∈ GetReplicas rm chunk → rp_NodeID r ∈ made_up.

Lemma confined_new config : confined (NewReplicationManager config).
Proof. intros chunk r. unfold GetReplicas. cbn. rewrite lookup_empty. by intros ?%elem_of_nil. Qed.

(** Changes of the replicas of one chunk. *)
Lemma confined_set rm rm' chunk :
  confined rm → (∀ other, other ≠ chunk → GetReplicas rm' other = GetReplicas rm other) →
  (∀ r, r ∈ GetReplicas rm' chunk → rp_NodeID r ∈ made_up) → confined rm'.
Proof. intros Hc Ho Hr other r. destruct (decide (other = chunk)) as [->|Hne]; [apply Hr|rewrite Ho by done; apply Hc]. Qed.

Lemma replicateToNode_confined now rm chunk data node :
  node ∈ made_up → confined rm → confined (replicateToNode now rm chunk data node).
Proof.
  intros Hn Hc. apply (confined_set rm _ chunk Hc); unfold GetReplicas; cbn.
  - intros other Ho. by rewrite lookup_insert_ne.
  - intros r. rewrite lookup_insert_eq. cbn. rewrite elem_of_app, list_elem_of_singleton.
    intros [Hr| ->]; [by apply (Hc chunk)|done].
Qed.

Lemma update_first_nodes node f l r :
  (∀ r, rp_NodeID (f r) = rp_NodeID r) → r ∈ update_first node f l → rp_NodeID r ∈ map rp_NodeID l.
Proof.
  intros Hf. induction l as [|x l IH]; cbn; [by intros ?%elem_of_nil|]. case_match; rewrite !elem_of_cons.
  - intros [->|Hr]; [left; apply Hf|right]. by apply (list_elem_of_fmap_2 rp_NodeID).
  - intros [->|Hr]; [by left|right; auto].
Qed.

Lemma UpdateReplicaHealth_confined now rm chunk node status :
  confined rm → confined (UpdateReplicaHealth now rm chunk node status).
Proof.
  intros Hc. apply (confined_set rm _ chunk Hc); unfold GetReplicas; cbn.
  - intros other Ho. by rewrite lookup_alter_ne.
  - intros r. rewrite lookup_alter_eq. destruct (rm_replicas rm !! chunk) as [l|] eqn:Hl; cbn; [|by intros ?%elem_of_nil].
    intros (x & -> & Hx)%update_first_nodes%list_elem_of_fmap; [|done]. apply (Hc chunk). unfold GetReplicas. by rewrite Hl.
Qed.

Lemma RemoveReplica_confined rm chunk node : confined rm → confined (RemoveReplica rm chunk node).
Proof.
  intros Hc. unfold RemoveReplica. cbn. destruct (rm_replicas rm !! chunk) as [l|] eqn:Hl; [|done].
  assert (∀ r, r ∈ List.filter (fun r => negb (rp_NodeID r =?s node)) l → rp_NodeID r ∈ made_up) as Hr.
  { intros r. rewrite list_elem_of_In, filter_In, <-list_elem_of_In. intros [Hr _]. apply (Hc chunk).
    unfold GetReplicas. by rewrite Hl. }
  destruct (List.filter _ l) as [|x l']; apply (confined_set rm _ chunk Hc); unfold GetReplicas; cbn;
    try (intros other Ho; by rewrite ?lookup_delete_ne, ?lookup_insert_ne).
  - rewrite lookup_delete_eq. by intros ? ?%elem_of_nil.
  - by rewrite lookup_insert_eq.
Qed.

Section replication.
Context `{Gzip}.

Lemma RepairReplica_confined io now rm cs chunk node :
  node ∈ made_up → confined rm → confined (RepairReplica io now rm cs chunk node).1.
Proof. intros Hn Hc. unfold RepairReplica. repeat case_match; try done. by apply replicateToNode_confined. Qed.

Lemma ReadRepair_confined io now rm cs chunk : confined rm → confined (ReadRepair io now rm cs chunk).1.
Proof.
  intros Hc. unfold ReadRepair. destruct (negb _); [done|].
  assert (∀ r, r ∈ List.filter is_stale (GetReplicas rm chunk) → rp_NodeID r ∈ made_up) as Hs.
  { intros r. rewrite list_elem_of_In, filter_In, <-list_elem_of_In. intros [Hr _]. by apply (Hc chunk). }
  destruct (List.filter is_stale _) as [|s l]; [done|]. destruct (ReadChunk io cs chunk) as [data|]; [|done].
  change (confined (fold_left (fun rm r => replicateToNode now rm chunk data (rp_NodeID r)) (s :: l) rm)).
  revert rm Hc Hs. generalize (s :: l). clear s l.
  induction l as [|s l IH]; intros rm Hc Hs; [done|]. cbn. apply IH.
  - apply replicateToNode_confined; [|done]. apply Hs. by left.
  - intros r Hr. apply Hs. by right.
Qed.

(** However its goroutines interleave. *)
Lemma ReplicateChunk_confined io now grow spare schedule rm cs chunk targets rm' err :
  ReplicateChunk io now grow spare schedule rm cs chunk targets = Some (rm', err) →
  targets ⊆ made_up → confined rm → confined rm'.
Proof.
  intros Hr Ht Hc. unfold ReplicateChunk in Hr. destruct (ReadChunk io cs chunk) as [data|]; [|by simplify_eq].
  destruct (len targets <? _); [by simplify_eq|]. destruct (_ <? 0); [done|]. set (news := map _ _) in Hr.
  destruct (steps grow _ schedule) as [st|] eqn:Hst; [|done]. destruct (forallb is_stored (sh_threads st)) eqn:Hall; [|done].
  pose proof (steps_inv _ _ _ _ _ _ (start_inv spare rm chunk news) Hst) as Hi.
  assert (∀ r, r ∈ news → rp_NodeID r ∈ made_up) as Hn.
  { intros r (n & -> & (j & Hj & _)%elem_of_take)%list_elem_of_fmap. apply Ht. by eapply list_elem_of_lookup_2. }
  simplify_eq. apply (confined_set rm _ chunk Hc); unfold GetReplicas; cbn.
  - intros other Ho. destruct (sh_cell st); [by rewrite lookup_insert_ne|done].
  - intros r. destruct (sh_cell st) as [s|] eqn:Hs; [|apply (Hc chunk)]. rewrite lookup_insert_eq. cbn.
    destruct (sh_heap st !! sl_arr s) as [a|] eqn:Ha; [|by intros ?%elem_of_nil].
    destruct Hi as [Hheap _ _ _ _]. destruct (proj1 (Forall_lookup _ _) Hheap _ _ Ha) as (added & Hd & Hsub).
    intros (j & Hj & _)%elem_of_take. apply list_elem_of_lookup_2 in Hj. rewrite Hd, elem_of_app in Hj.
    destruct Hj as [Hj|Hj]; [by apply (Hc chunk)|by apply Hn, Hsub].
Qed.

End replication.

(** ** The object store *)

Section objects.
Context `{GoRange, GoSort, Gzip, MetadataCodec}.

(** The placement strategy of the object store stays empty, so the names of the
    fallback are taken. *)
Definition secluded (os : ObjectStore) : Prop :=
  ps_nodes (os_placement os) = ∅ ∧ confined (os_replication os).

Lemma secluded_ext os os' :
  secluded os → os_placement os' = os_placement os → os_replication os' = os_replication os → secluded os'.
Proof. unfold secluded. by intros Hs -> ->. Qed.

Lemma no_nodes ps req : ps_nodes ps = ∅ → SelectNodes ps req = Some (Err "no eligible nodes available").
Proof. intros Hp. unfold SelectNodes, getEligibleNodes. by rewrite Hp, range_map_empty. Qed.

Lemma fallback_nodes class os nodes :
  ps_nodes (os_placement os) = ∅ → getTargetNodes class os = Some nodes → nodes ⊆ made_up.
Proof.
  intros Hp. unfold getTargetNodes. rewrite no_nodes by done.
  assert (["node-1"; "node-2"; "node-3"] ⊆ made_up) as Hf by (intros x; unfold made_up; rewrite !elem_of_cons; tauto).
  repeat case_match; intros; simplify_eq; [|done]. intros x (j & Hj & _)%elem_of_take. apply Hf. by eapply list_elem_of_lookup_2.
Qed.

Lemma replicate_all_confined i targets cs ids : targets ⊆ made_up → ∀ k rm rm' err,
  replicate_all i k targets ids cs rm = Some (rm', err) → confined rm → confined rm'.
Proof.
  intros Ht. induction ids as [|id ids IH]; intros k rm rm' err; cbn; [by intros [= <- <-]|].
  destruct (ReplicateChunk _ _ _ _ _ _ _ _ _) as [[rm1 [e|]]|] eqn:Hr; intros Hx Hc; simplify_eq;
    pose proof (ReplicateChunk_confined _ _ _ _ _ _ _ _ _ _ _ Hr Ht Hc); [done|by eapply IH].
Qed.

Lemma replicateChunks_secluded i ids class os os' err :
  replicateChunks i ids class os = Some (os', err) → secluded os → secluded os'.
Proof.
  intros Hr [Hp Hc]. unfold replicateChunks in Hr. destruct (getTargetNodes class os) as [targets|] eqn:Ht; [|done].
  destruct (replicate_all _ _ _ _ _ _) as [[rm e]|] eqn:Ha; [|done]. simplify_eq.
  split; [done|]. cbn. eapply replicate_all_confined; [by eapply fallback_nodes|done..].
Qed.

Lemma put_meta_secluded now ans o os : secluded os → secluded (put_meta now ans o os).1.
Proof. intros Hs. unfold put_meta. destruct (meta.PutObject _ _ _ _ _). by eapply secluded_ext. Qed.

Lemma get_meta_secluded read b k os : secluded os → secluded (get_meta read b k os).1.
Proof. intros Hs. unfold get_meta. destruct (meta.GetObject _ _ _ _). by eapply secluded_ext. Qed.

Lemma commit_secluded i req size sum ids os os' err :
  commit i req size sum ids os = Some (os', err) → secluded os → secluded os'.
Proof.
  intros Hc Hs. unfold commit in Hc. destruct (replicateChunks _ _ _ _) as [[os1 [e|]]|] eqn:Hr; simplify_eq.
  - apply (replicateChunks_secluded _ _ _ _ _ _ Hr) in Hs. by eapply secluded_ext.
  - apply (replicateChunks_secluded _ _ _ _ _ _ Hr) in Hs.
    pose proof (put_meta_secluded (pi_now i) (pi_raft i) (requested req size sum ids) os1 Hs) as Hm.
    destruct (put_meta _ _ _ _) as [os2 [e|]]; simplify_eq; [by eapply secluded_ext|done].
Qed.

Lemma start_repair_secluded ids os : secluded os → secluded (start_repair ids os).
Proof. intros Hs. unfold start_repair. case_match; [by eapply secluded_ext|done]. Qed.

Lemma put_secluded i req os os' err : ObjectStore.PutObject i req os = Some (os', err) → secluded os → secluded os'.
Proof.
  intros Hp Hs. unfold ObjectStore.PutObject in Hp. repeat case_match; simplify_eq; try done; try (by eapply secluded_ext).
  eapply commit_secluded; [done|]. by eapply secluded_ext.
Qed.

Lemma put_stream_secluded i fail req os os' err :
  PutObjectStream i fail req os = Some (os', err) → secluded os → secluded os'.
Proof.
  intros Hp Hs. unfold PutObjectStream in Hp. repeat case_match; simplify_eq; try done; try (by eapply secluded_ext).
  eapply commit_secluded; [done|]. by eapply secluded_ext.
Qed.

Lemma get_secluded read io again b k os : secluded os → secluded (ObjectStore.GetObject read io again b k os).1.
Proof.
  intros Hs%(get_meta_secluded read b k). unfold ObjectStore.GetObject. destruct (get_meta _ _ _ _) as [os1 [o|e]]; [|done].
  repeat case_match; try done. by apply start_repair_secluded.
Qed.

Lemma get_stream_secluded read io w b k os : secluded os → secluded (GetObjectStream read io w b k os).1.
Proof.
  intros Hs%(get_meta_secluded read b k). unfold GetObjectStream. destruct (get_meta _ _ _ _) as [os1 [o|e]]; [|done].
  repeat case_match; try done. by apply start_repair_secluded.
Qed.

Lemma delete_secluded read ans b k os : secluded os → secluded (ObjectStore.DeleteObject read ans b k os).1.
Proof.
  intros Hs%(get_meta_secluded read b k). unfold ObjectStore.DeleteObject. destruct (get_meta _ _ _ _) as [os1 [o|e]]; [|done].
  repeat case_match; by eapply secluded_ext.
Qed.

Lemma upload_secluded i id part data os os' r :
  UploadPart_ i id part data os = Some (os', r) → secluded os → secluded os'.
Proof.
  intros Hp Hs. unfold UploadPart_ in Hp. repeat case_match; simplify_eq; try done; try (by eapply secluded_ext);
    match goal with Hr : replicateChunks _ _ _ _ = _ |- _ =>
      apply replicateChunks_secluded in Hr; [by eapply (secluded_ext _ _ Hr)|by eapply secluded_ext] end.
Qed.

Lemma complete_secluded io now ans id os : secluded os → secluded (CompleteMultipartUpload io now ans id os).1.
Proof.
  intros Hs. unfold CompleteMultipartUpload. destruct (os_uploads os !! id) as [u|]; [|done].
  destruct (meta.GetBucket _ _) as [b|]; [|done]. case_match; [done|]. destruct (assemble_parts _ _ _ _ _ _ _) as [[ids d]|]; [|done].
  match goal with |- context [put_meta now ans ?o os] => pose proof (put_meta_secluded now ans o os Hs) as Hm;
    destruct (put_meta now ans o os) as [os1 [e|]] end; [done|by eapply secluded_ext].
Qed.

Lemma abort_secluded id os : secluded os → secluded (AbortMultipartUpload id os).1.
Proof.
  intros Hs. unfold AbortMultipartUpload. destruct (os_uploads os !! id) as [u|]; [|done]. cbn.
  enough (∀ l os, secluded os → secluded (foldl (fun os part => start_deletion (up_ChunkIDs part) os) os l)) as Hf
    by (eapply secluded_ext; [by apply Hf|done..]).
  induction l as [|p l IH]; intros os0 Hs0; cbn; [done|]. apply IH. by eapply secluded_ext.
Qed.

Lemma repair_step_secluded io now k os : secluded os → secluded (repair_step io now k os).
Proof.
  intros [Hp Hc]. unfold repair_step. repeat case_match; try done. split; [done|]. cbn. by apply ReadRepair_confined.
Qed.

Lemma oexec_secluded o os os' a : oexec o os = Some (os', a) → secluded os → secluded os'.
Proof.
  intros Ho Hs. destruct o as [| | | |read io again b k|read io w b k|read ans b k| | |io now ans id|id| | |]; cbn [oexec] in Ho.
  - injection Ho as <- _. cbn. unfold ObjectStore.CreateBucket. repeat case_match; [done|by eapply secluded_ext].
  - injection Ho as <- _. cbn. unfold ObjectStore.DeleteBucket. case_match. by eapply secluded_ext.
  - apply fmap_Some in Ho as ([os1 e] & Hp & [= -> _]). by eapply put_secluded.
  - apply fmap_Some in Ho as ([os1 e] & Hp & [= -> _]). by eapply put_stream_secluded.
  - pose proof (get_secluded read io again b k os Hs) as Hg. destruct (ObjectStore.GetObject _ _ _ _ _ os). by injection Ho as <- _.
  - pose proof (get_stream_secluded read io w b k os Hs) as Hg. destruct (GetObjectStream _ _ _ _ _ os) as [? [? ?]]. by injection Ho as <- _.
  - injection Ho as <- _. by apply delete_secluded.
  - injection Ho as Ho. unfold InitiateMultipartUpload in Ho. repeat case_match; simplify_eq; [by eapply secluded_ext|done].
  - by eapply upload_secluded.
  - injection Ho as <- _. by apply complete_secluded.
  - injection Ho as <- _. by apply abort_secluded.
  - injection Ho as <- _. unfold deletion_step. repeat case_match; try done.
  - injection Ho as <- _. by apply repair_step_secluded.
  - injection Ho as <- _. by eapply secluded_ext.
Qed.

End objects.

(** ** The repair engine *)

Section engine.
Context `{GoRange, Gzip}.

(** Tasks without a target are for missing replicas, which get a made-up one. *)
Definition task_confined (t : RepairTask) : Prop :=
  rt_TargetNodeID t ∈ made_up ∨ rt_TargetNodeID t = "" ∧ rt_Type t = RepairTypeMissing.

Record engine_confined (re : RepairEngine) : Prop := {
  ec_replicas : confined (re_replication re);
  ec_queue : Forall task_confined (re_queue re);
  ec_workers : ∀ w t, re_workers re !! w = Some (Some t) → task_confined t
}.

Lemma engine_ext re re' :
  engine_confined re → re_replication re' = re_replication re → re_queue re' = re_queue re →
  re_workers re' = re_workers re → engine_confined re'.
Proof. intros [H1 H2 H3] E1 E2 E3. split; by rewrite ?E1, ?E2, ?E3. Qed.

Lemma enqueue_confined t re re' :
  enqueue t re = Some re' → task_confined t → engine_confined re →
  engine_confined re' ∧ re_replication re' = re_replication re.
Proof.
  intros He Ht [H1 H2 H3]. unfold enqueue in He. repeat case_match; simplify_eq; [|done]. split; [|done].
  split; [done| |done]. cbn. apply Forall_app_2; [done|]. by constructor.
Qed.

Lemma queue_replicas_confined now chunk l : Forall (fun r => rp_NodeID r ∈ made_up) l → ∀ re re',
  queue_replicas now chunk l re = Some re' → engine_confined re →
  engine_confined re' ∧ re_replication re' = re_replication re.
Proof.
  induction 1 as [|r l Hr Hl IH]; intros re re' Hq He; cbn in Hq; [by simplify_eq|].
  apply bind_Some in Hq as (re1 & H1 & H2). unfold replica_task in H1.
  assert (engine_confined re1 ∧ re_replication re1 = re_replication re) as [He1 <-].
  { repeat case_match; simplify_eq; try done; eapply enqueue_confined; try done; by left. }
  by apply IH.
Qed.

Lemma checkChunkHealth_confined now chunk re re' :
  checkChunkHealth now chunk re = Some re' → engine_confined re → engine_confined re'.
Proof.
  intros Hc He. unfold checkChunkHealth in Hc. destruct (CheckReplicationHealth _ _) as [enough n].
  apply bind_Some in Hc as (re1 & H1 & H2).
  assert (engine_confined re1 ∧ re_replication re1 = re_replication re) as [He1 Hr].
  { destruct (negb enough); [|by simplify_eq]. eapply enqueue_confined; [done|by right|done]. }
  eapply queue_replicas_confined; [|done..]. apply Forall_forall. intros r. rewrite Hr. apply He.
Qed.

Lemma check_all_confined now chunks : ∀ re re',
  check_all now chunks re = Some re' → engine_confined re → engine_confined re'.
Proof.
  induction chunks as [|c chunks IH]; intros re re' Hc He; cbn [check_all] in Hc; [by simplify_eq|].
  apply bind_Some in Hc as (re1 & H1 & H2). eapply IH; [done|]. by eapply checkChunkHealth_confined.
Qed.

Lemma performAntiEntropy_confined now done_ re re' :
  performAntiEntropy now done_ re = Some re' → engine_confined re → engine_confined re'.
Proof.
  intros Hp He. apply fmap_Some in Hp as (re1 & Hc & ->).
  apply (check_all_confined _ _ _ _ Hc) in He. by eapply engine_ext.
Qed.

Lemma begin_task_confined started w re : engine_confined re → engine_confined (begin_task started w re).
Proof.
  intros He. pose proof He as [H1 H2 H3]. unfold begin_task. destruct (re_workers re !! w) as [[?|]|]; try done.
  destruct (re_queue re) as [|t q]; [done|]. apply Forall_cons_1 in H2 as [Ht Hq].
  split; [done|done|]. cbn. intros v t'. rewrite list_lookup_insert_Some. intros [(_ & [= <-] & _)|[_ Hv]]; [|by eapply H3].
  exact Ht.
Qed.

(** A task runs on the replicas only. *)
Lemma dispatch_confined i t re :
  task_confined t → engine_confined re →
  confined (re_replication (dispatch i t re).1) ∧ re_queue (dispatch i t re).1 = re_queue re ∧
  re_workers (dispatch i t re).1 = re_workers re.
Proof.
  intros Ht [Hc _ _].
  assert (∀ node rm, node ∈ made_up → confined rm →
    confined (RepairReplica (ti_io i) (ti_now i) rm (re_chunks re) (rt_ChunkID t) node).1) as Hrep
    by (intros; by apply RepairReplica_confined).
  unfold dispatch. destruct (rt_Type t =?s RepairTypeMissing) eqn:Hm.
  - unfold repairMissingReplica, repair_on. set (node := if _ =?s "" then _ else _).
    assert (node ∈ made_up) as Hn.
    { subst node. destruct (rt_TargetNodeID t =?s "") eqn:E; [unfold made_up; rewrite !elem_of_cons; tauto|].
      destruct Ht as [Ht|[Ht _]]; [done|]. by rewrite Ht in E. }
    specialize (Hrep node _ Hn Hc). destruct (RepairReplica _ _ _ _ _ node) as [rm [e|]]; done.
  - apply bool_decide_eq_false_1 in Hm. destruct Ht as [Ht|[_ Ht]]; [|done].
    pose proof (Hrep _ _ Ht (RemoveReplica_confined _ (rt_ChunkID t) (rt_TargetNodeID t) Hc)) as Hrm.
    specialize (Hrep _ _ Ht Hc).
    destruct (rt_Type t =?s RepairTypeCorrupted); [|destruct (rt_Type t =?s RepairTypeStale); [|done]].
    + unfold repairCorruptedReplica, repair_on. cbv zeta. revert Hrm. generalize (RemoveReplica (re_replication re) (rt_ChunkID t) (rt_TargetNodeID t)).
      intros rm0 Hrm. cbn. by destruct (RepairReplica _ _ rm0 _ _ _) as [rm [e|]].
    + unfold repairStaleReplica, repair_on. destruct (RepairReplica _ _ _ _ _ _) as [rm [e|]]; [done|].
      split; [|done]. cbn. by apply UpdateReplicaHealth_confined.
Qed.

Lemma finish_task_confined i w re : engine_confined re → engine_confined (finish_task i w re).
Proof.
  intros He. pose proof He as [H1 H2 H3]. unfold finish_task. destruct (re_workers re !! w) as [[t|]|] eqn:Hw; try done.
  pose proof (dispatch_confined i t re (H3 _ _ Hw) He) as (Hd1 & Hd2 & Hd3).
  destruct (dispatch i t re) as [re1 err]. cbn in Hd1, Hd2, Hd3. split; cbn; [done|by rewrite Hd2|]. rewrite Hd3.
  intros v t'. rewrite list_lookup_insert_Some. intros [(_ & Hx & _)|[_ Hv]]; [done|by eapply H3].
Qed.

End engine.

(** ** Histories *)

(** What may happen to a manager: its methods that change it; with [SStore] the
    other operations and the goroutines of the object store; turns of its loops
    and of the repair engine. *)
Inductive sop : Type :=
| SStart
| SStop (rm : string → option string)
| SRegister (node : NodeInfo)
| SUnregister (nodeID : string)
| SReport (now : Z) (nodeID : string) (stats : NodeStorageStats)
| SPut (i : PutInputs) (req : PutObjectRequest)
| SGet (read : Z) (io again : nat → option string) (bucket key : string)
| SDelete (read : Z) (ans : raft_answer) (bucket key : string)
| SCreateBucket (now : Z) (ans : raft_answer) (req : CreateBucketRequest)
| SDeleteBucket (ans : raft_answer) (name : string)
| SStore (o : oop)
| SCheckNodes (now : string → Z * Z)
| STrigger
| SBegin
| STurn
| SEnd (now : Z)
| SAntiEntropy (now : string → Z) (done : Z)
| STake (started : Z) (w : nat)
| SFinish (i : TaskInputs) (w : nat).

Section histories.
Context `{GoRange, GoSort, Gzip, MetadataCodec}.

Definition sexec (o : sop) (sm : StorageManager) : option StorageManager :=
  match o with
  | SStart => Start sm
  | SStop rm => Stop rm sm
  | SRegister node => Some (RegisterNode node sm)
  | SUnregister nodeID => Some (UnregisterNode nodeID sm)
  | SReport now nodeID stats => Some (UpdateNodeStats now nodeID stats sm).1
  | SPut i req => fst <$> PutObject i req sm
  | SGet read io again b k => Some (GetObject read io again b k sm).1
  | SDelete read ans b k => Some (DeleteObject read ans b k sm).1
  | SCreateBucket now ans req => Some (CreateBucket now ans req sm).1
  | SDeleteBucket ans name => Some (DeleteBucket ans name sm).1
  | SStore o => (fun x => sm <| sm_objects := x.1 |>) <$> oexec o (sm_objects sm)
  | SCheckNodes now => Some (performHealthChecks now sm)
  | STrigger => Some (TriggerRebalancing sm).1
  | SBegin => Some (begin_triggered sm)
  | STurn => Some (rebalancing_turn sm)
  | SEnd now => Some (end_rebalancing now sm)
  | SAntiEntropy now done => repairing (performAntiEntropy now done) sm
  | STake started w => repairing (fun re => Some (begin_task started w re)) sm
  | SFinish i w => repairing (fun re => Some (finish_task i w re)) sm
  end.

Fixpoint srun (ops : list sop) (sm : StorageManager) : option StorageManager :=
  match ops with
  | [] => Some sm
  | o :: ops => sexec o sm ≫= srun ops
  end.

Lemma srun_keeps (P : list sop → StorageManager → Prop) ops :
  (∀ past o sm sm', P past sm → sexec o sm = Some sm' → P (app past [o]) sm') →
  ∀ past sm sm', P past sm → srun ops sm = Some sm' → P (app past ops) sm'.
Proof.
  intros HP. induction ops as [|o ops IH]; intros past sm sm' Hs Hr; cbn [srun] in Hr.
  - rewrite app_nil_r. by injection Hr as <-.
  - apply bind_Some in Hr as (sm1 & Ho & Hr1). rewrite cons_middle, app_assoc. eapply IH; [|done]. by eapply HP.
Qed.

(** *** Replicas *)

Definition contained (sm : StorageManager) : Prop :=
  secluded (sm_objects sm) ∧ Forall task_confined (re_queue (sm_repair sm)) ∧
  ∀ w t, re_workers (sm_repair sm) !! w = Some (Some t) → task_confined t.

Lemma repairing_contained f sm sm' :
  repairing f sm = Some sm' → (∀ re re', f re = Some re' → engine_confined re → engine_confined re') →
  contained sm → contained sm'.
Proof.
  intros Hr Hf ([Hp Hc] & Hq & Hw). unfold repairing in Hr. cbv zeta in Hr.
  apply bind_Some in Hr as (re & Hre & [= <-]).
  apply Hf in Hre; [|by split]. destruct Hre. by split_and!.
Qed.

Lemma with_store_contained {A} (f : ObjectStore → ObjectStore * A) sm :
  (secluded (sm_objects sm) → secluded (f (sm_objects sm)).1) → contained sm → contained (with_store f sm).1.
Proof. intros Hf (Hs & Ht). unfold with_store. apply Hf in Hs. by destruct (f _). Qed.

(** Operations that leave the objects and the repairs alone. *)
Lemma contained_ext sm sm' :
  contained sm → sm_objects sm' = sm_objects sm → sm_repair sm' = sm_repair sm → contained sm'.
Proof. unfold contained. by intros Hc -> ->. Qed.

Lemma sexec_contained o sm sm' : sexec o sm = Some sm' → contained sm → contained sm'.
Proof.
  intros Ho Hc. destruct o as [|rm|node|id|now id st|i req|read io again b k|read ans b k|now ans req|ans name|o|now| | | |now|now d|started w|i w];
    cbn [sexec] in Ho.
  - eapply repairing_contained; [exact Ho| |done]. intros re re' [= <-] [Hr Hq Hk]. split; [done..|].
    cbn. intros w t. rewrite lookup_app_Some. intros [Hw|[_ Hw]]; [by eapply Hk|].
    by apply list_elem_of_lookup_2, list_elem_of_In, (repeat_spec workerCount) in Hw.
  - apply bind_Some in Ho as (sm1 & Hst & [= <-]).
    apply repairing_contained in Hst as ([Hp Hs] & Ht); [by split|intros re re' Hr He|done].
    unfold Repair.Stop in Hr. case_match; simplify_eq. by eapply engine_ext.
  - injection Ho as <-. by eapply contained_ext.
  - injection Ho as <-. by eapply contained_ext.
  - injection Ho as <-. unfold UpdateNodeStats. case_match. by eapply contained_ext.
  - apply fmap_Some in Ho as ([sm1 e] & Hp & ->). apply bind_Some in Hp as ([os1 e1] & Hp & [= <- _]).
    destruct Hc as [Hs Ht]. split; [by eapply put_secluded|done].
  - injection Ho as <-. apply with_store_contained; [apply get_secluded|done].
  - injection Ho as <-. apply with_store_contained; [apply delete_secluded|done].
  - injection Ho as <-. apply with_store_contained; [|done].
    exact (oexec_secluded (OCreateBucket now ans req) _ _ _ eq_refl).
  - injection Ho as <-. apply with_store_contained; [|done].
    exact (oexec_secluded (ODeleteBucket ans name) _ _ _ eq_refl).
  - apply fmap_Some in Ho as ([os1 a] & Hp & ->). destruct Hc as [Hs Ht]. split; [by eapply oexec_secluded|done].
  - injection Ho as <-. by eapply contained_ext.
  - injection Ho as <-. unfold TriggerRebalancing. case_match; by eapply contained_ext.
  - injection Ho as <-. unfold begin_triggered, begin_rebalancing. repeat case_match; by eapply contained_ext.
  - injection Ho as <-. unfold rebalancing_turn, begin_rebalancing. repeat case_match; by eapply contained_ext.
  - injection Ho as <-. unfold end_rebalancing. repeat case_match; by eapply contained_ext.
  - eapply repairing_contained; [exact Ho| |done]. intros re re'. apply performAntiEntropy_confined.
  - eapply repairing_contained; [exact Ho| |done]. intros re re' [= <-]. apply begin_task_confined.
  - eapply repairing_contained; [exact Ho| |done]. intros re re' [= <-]. apply finish_task_confined.
Qed.

(** A manager that has just been made. *)
Lemma new_contained mkdir mtime stop now files config sm :
  NewStorageManager mkdir mtime stop now files config = Ok sm → contained sm.
Proof.
  unfold NewStorageManager, NewObjectStore. destruct (NewChunkStore _ _ _ _ _) as [cs|]; [|done].
  intros [= <-]. split; [split|split]; cbn; [done|apply confined_new|constructor|by intros w t ?%list_elem_of_lookup_2%elem_of_nil].
Qed.

(** C23: the nodes that are registered never hold replicas of objects: after every
    history of a manager, each replica that its object store has on record is
    on one of four nodes named in the code.  The nodes registered with the
    manager are known to its own placement strategy, and the object store has
    another one. *)
Theorem replicas_miss_the_nodes mkdir mtime stop now files config ops sm0 sm chunk r :
  NewStorageManager mkdir mtime stop now files config = Ok sm0 → srun ops sm0 = Some sm →
  r ∈ GetReplicas (os_replication (sm_objects sm)) chunk → rp_NodeID r ∈ made_up.
Proof.
  intros Hn%new_contained Hr. assert (contained sm) as ((_ & Hc) & _); [|apply Hc].
  refine (srun_keeps (fun _ => contained) ops _ [] sm0 sm Hn Hr). intros _ o sm1 sm2 Hs Ho. by eapply sexec_contained.
Qed.

(** *** Nodes *)

(** What matters of a node for the volumes: the free bytes and whether it
    counts as healthy, while it is registered, and the time of its last
    report. *)
Record Standing := { sg_node : option (Z * bool); sg_report : option Z }.

Definition unknown : Standing := {| sg_node := None; sg_report := None |}.

(** The reports that come late make a node count as degraded at the next check
    only, and so do new reports for healthy; a node that has never reported
    stays healthy. *)
Definition standing_step (id : string) (v : Standing) (o : sop) : Standing :=
  match o with
  | SRegister node =>
      if decide (ni_ID node = id) then {| sg_node := Some (ni_StorageCapacity node, true); sg_report := sg_report v |} else v
  | SUnregister nodeID => if decide (nodeID = id) then unknown else v
  | SReport _ nodeID st =>
      if decide (nodeID = id) then
        {| sg_node := (fun x => (int64 (ns_TotalBytes st - ns_UsedBytes st), x.2)) <$> sg_node v;
           sg_report := Some (ns_LastUpdated st) |}
      else v
  | SCheckNodes now =>
      match sg_node v, sg_report v with
      | Some (free, _), Some t =>
          {| sg_node := Some (free, time_Sub (now id).1 t <=? stale_after); sg_report := Some t |}
      | _, _ => v
      end
  | _ => v
  end.

Definition standing (ops : list sop) (id : string) : Standing := foldl (standing_step id) unknown ops.

Definition state_of (healthy : bool) : string := if healthy then NodeStateHealthy else NodeStateDegraded.

Record node_tracked (sm : StorageManager) (id : string) (v : Standing) : Prop := {
  nt_placed : (fun sn => (sn_Available sn, sn_State sn)) <$> ps_nodes (sm_placement sm) !! id =
              (fun x => (x.1, state_of x.2)) <$> sg_node v;
  nt_report : ns_LastUpdated <$> sm_nodeStats sm !! id = sg_report v;
  nt_known : is_Some (sm_nodes sm !! id) ↔ is_Some (ps_nodes (sm_placement sm) !! id);
  nt_key : ∀ info, sm_nodes sm !! id = Some info → ni_ID info = id;
  nt_key_placed : ∀ sn, ps_nodes (sm_placement sm) !! id = Some sn → sn_ID sn = id
}.

Definition tracked (ops : list sop) (sm : StorageManager) : Prop := ∀ id, node_tracked sm id (standing ops id).

(** One node after a check. *)
Definition checked (now : string → Z * Z) (stats : gmap string NodeStorageStats) (id : string) (sn : StorageNode)
    : StorageNode :=
  match stats !! id with
  | Some st =>
      if stale_after <? time_Sub (now id).1 (ns_LastUpdated st) then
        if negb (sn_State sn =?s NodeStateDegraded) then set_state NodeStateDegraded (now id).2 sn else sn
      else if sn_State sn =?s NodeStateDegraded then set_state NodeStateHealthy (now id).2 sn else sn
  | None => sn
  end.

Lemma check_node_lookup now stats ps node id :
  ps_nodes (check_node now stats ps node) !! id =
  if decide (ni_ID node = id) then checked now stats id <$> ps_nodes ps !! id else ps_nodes ps !! id.
Proof.
  unfold check_node, checked. destruct (decide (ni_ID node = id)) as [<-|Hne].
  - destruct (stats !! ni_ID node) as [st|]; [|by destruct (ps_nodes ps !! _)].
    destruct (ps_nodes ps !! ni_ID node) as [sn|] eqn:Hn; [|done].
    repeat case_match; cbn; rewrite ?lookup_insert_eq, ?Hn; cbn; by simplify_option_eq.
  - repeat case_match; cbn; by rewrite ?lookup_insert_ne.
Qed.

Lemma checks_lookup now stats id l : NoDup (ni_ID <$> l) → ∀ ps,
  ps_nodes (fold_left (check_node now stats) l ps) !! id =
  if decide (id ∈ ni_ID <$> l) then checked now stats id <$> ps_nodes ps !! id else ps_nodes ps !! id.
Proof.
  induction l as [|node l IH]; intros Hnd ps; cbn [fold_left fmap list_fmap]; [by rewrite decide_False by apply not_elem_of_nil|].
  apply NoDup_cons in Hnd as [Hnot Hnd]. rewrite (IH Hnd), check_node_lookup.
  destruct (decide (ni_ID node = id)) as [<-|Hne].
  - by rewrite (decide_False _ _ Hnot), decide_True by (by left).
  - destruct (decide (id ∈ ni_ID <$> l)).
    + by rewrite decide_True by (by right).
    + rewrite decide_False; [done|]. by rewrite elem_of_cons; intros [?|?].
Qed.

Lemma check_now now sm id :
  (∀ id info, sm_nodes sm !! id = Some info → ni_ID info = id) →
  (is_Some (sm_nodes sm !! id) ↔ is_Some (ps_nodes (sm_placement sm) !! id)) →
  ps_nodes (sm_placement (performHealthChecks now sm)) !! id =
  checked now (sm_nodeStats sm) id <$> ps_nodes (sm_placement sm) !! id.
Proof.
  intros Hk Hn.
  assert (ni_ID <$> (range_map (sm_nodes sm)).*2 = (range_map (sm_nodes sm)).*1) as Hids.
  { rewrite <-list_fmap_compose. apply list_fmap_ext. intros i [k info] Hi%list_elem_of_lookup_2%elem_of_range_map. by apply Hk. }
  unfold performHealthChecks. cbn. rewrite checks_lookup, Hids by (rewrite Hids; apply range_map_keys).
  case_decide as Hin; [done|]. destruct (ps_nodes (sm_placement sm) !! id) as [sn|]; [|done].
  destruct (proj2 Hn (mk_is_Some _ _ eq_refl)) as [info Hi]. destruct Hin. apply list_elem_of_fmap.
  exists (id, info). split; [done|]. by apply elem_of_range_map.
Qed.

(** Operations that leave the nodes alone. *)
Lemma tracked_ext ops o sm sm' :
  tracked ops sm → sm_placement sm' = sm_placement sm → sm_nodes sm' = sm_nodes sm →
  sm_nodeStats sm' = sm_nodeStats sm → (∀ id v, standing_step id v o = v) → tracked (app ops [o]) sm'.
Proof.
  intros Ht Hp Hn Hs Hv id. unfold standing. rewrite foldl_app. cbn. rewrite Hv.
  destruct (Ht id). split; by rewrite ?Hp, ?Hn, ?Hs.
Qed.

Lemma repairing_nodes f sm sm' :
  repairing f sm = Some sm' → sm_placement sm' = sm_placement sm ∧ sm_nodes sm' = sm_nodes sm ∧
  sm_nodeStats sm' = sm_nodeStats sm.
Proof. unfold repairing. cbv zeta. by intros (re & _ & [= <-])%bind_Some. Qed.

Lemma tracked_repairing f ops o sm sm' :
  repairing f sm = Some sm' → tracked ops sm → (∀ id v, standing_step id v o = v) → tracked (app ops [o]) sm'.
Proof. intros (Hp & Hn & Hs)%repairing_nodes Ht Hv. by eapply tracked_ext. Qed.

Lemma tracked_with_store {A} (f : ObjectStore → ObjectStore * A) ops o sm :
  tracked ops sm → (∀ id v, standing_step id v o = v) → tracked (app ops [o]) (with_store f sm).1.
Proof. intros Ht Hv. unfold with_store. destruct (f _). by eapply tracked_ext. Qed.

Lemma register_tracked node sm id v :
  node_tracked sm id v → node_tracked (RegisterNode node sm) id (standing_step id v (SRegister node)).
Proof.
  intros [Hp Hr Hn Hk Hkp]. cbn. case_decide as Hid.
  - subst id. split; cbn; rewrite ?lookup_insert_eq; [done|done|by split; eauto| |]; by intros ? [= <-].
  - split; cbn; rewrite ?lookup_insert_ne by done; done.
Qed.

Lemma unregister_tracked nodeID sm id v :
  node_tracked sm id v → node_tracked (UnregisterNode nodeID sm) id (standing_step id v (SUnregister nodeID)).
Proof.
  intros [Hp Hr Hn Hk Hkp]. cbn. case_decide as Hid.
  - subst id. split; cbn; by rewrite ?lookup_delete_eq.
  - split; cbn; rewrite ?lookup_delete_ne by done; done.
Qed.

Lemma report_tracked now nodeID st sm id v :
  node_tracked sm id v → node_tracked (UpdateNodeStats now nodeID st sm).1 id (standing_step id v (SReport now nodeID st)).
Proof.
  intros [Hp Hr Hn Hk Hkp]. unfold UpdateNodeStats, UpdateNodeCapacity. cbn.
  destruct (ps_nodes (sm_placement sm) !! nodeID) as [sn|] eqn:Hsn; case_decide as Hid; cbn.
  - subst id. rewrite Hsn in *. split; cbn; rewrite ?lookup_insert_eq; try done.
    + destruct (sg_node v) as [[free h]|]; [|done]. injection Hp as _ Hst. cbn. by rewrite Hst.
    + rewrite Hn. by split; eauto.
    + intros ? [= <-]. cbn. by apply Hkp.
  - split; cbn; rewrite ?lookup_insert_ne by done; done.
  - subst id. rewrite Hsn in *. split; cbn; rewrite ?lookup_insert_eq, ?Hsn; try done. by destruct (sg_node v).
  - split; cbn; rewrite ?lookup_insert_ne by done; done.
Qed.

Lemma check_tracked now ops sm : tracked ops sm → tracked (app ops [SCheckNodes now]) (performHealthChecks now sm).
Proof.
  intros Ht id. unfold standing. rewrite foldl_app. cbn [foldl]. fold (standing ops id).
  pose proof (check_now now sm id (fun id => nt_key _ _ _ (Ht id)) (nt_known _ _ _ (Ht id))) as Hc.
  destruct (Ht id) as [Hp Hr Hn Hk Hkp]. destruct (standing ops id) as [node report]. cbn [sg_node sg_report] in *.
  assert (∀ sn, sn_ID (checked now (sm_nodeStats sm) id sn) = sn_ID sn) as Hid by (intros sn; unfold checked; by repeat case_match).
  split; rewrite ?Hc.
  - destruct (ps_nodes (sm_placement sm) !! id) as [sn|]; destruct node as [[free h]|]; try done; cbn in *.
    injection Hp as Hf Hst. unfold checked. destruct (sm_nodeStats sm !! id) as [st|]; cbn in Hr; subst report; cbn; [|by rewrite Hf, Hst].
    assert ((sn_State sn =?s NodeStateDegraded) = negb h) as Hd by (rewrite Hst; by destruct h).
    rewrite Hd, Z.leb_antisym. destruct (stale_after <? _), h; cbn; by rewrite ?Hf, ?Hst.
  - cbn. rewrite Hr. by destruct node as [[free h]|], report.
  - by rewrite fmap_is_Some.
  - done.
  - intros sn (sn1 & Hsn & ->)%fmap_Some. rewrite Hid. by apply Hkp.
Qed.

Lemma sexec_tracked ops o sm sm' : tracked ops sm → sexec o sm = Some sm' → tracked (app ops [o]) sm'.
Proof.
  intros Ht Ho. destruct o as [|rm|node|id|now id st|i req|read io again b k|read ans b k|now ans req|ans name|o|now| | | |now|now d|started w|i w];
    cbn [sexec] in Ho.
  - eapply tracked_repairing; [exact Ho|done..].
  - apply bind_Some in Ho as (sm1 & (Hp & Hn & Hs)%repairing_nodes & [= <-]). by eapply tracked_ext.
  - injection Ho as <-. intros id. unfold standing. rewrite foldl_app. apply register_tracked, Ht.
  - injection Ho as <-. intros id'. unfold standing. rewrite foldl_app. apply unregister_tracked, Ht.
  - injection Ho as <-. intros id'. unfold standing. rewrite foldl_app. apply report_tracked, Ht.
  - apply fmap_Some in Ho as ([sm1 e] & Hp & ->). apply bind_Some in Hp as ([os1 e1] & Hp & [= <- _]). by eapply tracked_ext.
  - injection Ho as <-. by apply tracked_with_store.
  - injection Ho as <-. by apply tracked_with_store.
  - injection Ho as <-. by apply tracked_with_store.
  - injection Ho as <-. by apply tracked_with_store.
  - apply fmap_Some in Ho as ([os1 a] & Hp & ->). by eapply tracked_ext.
  - injection Ho as <-. by apply check_tracked.
  - injection Ho as <-. unfold TriggerRebalancing. case_match; by eapply tracked_ext.
  - injection Ho as <-. unfold begin_triggered, begin_rebalancing. repeat case_match; by eapply tracked_ext.
  - injection Ho as <-. unfold rebalancing_turn, begin_rebalancing. repeat case_match; by eapply tracked_ext.
  - injection Ho as <-. unfold end_rebalancing. repeat case_match; by eapply tracked_ext.
  - eapply tracked_repairing; [exact Ho|done..].
  - eapply tracked_repairing; [exact Ho|done..].
  - eapply tracked_repairing; [exact Ho|done..].
Qed.

Lemma new_tracked mkdir mtime stop now files config sm :
  NewStorageManager mkdir mtime stop now files config = Ok sm → tracked [] sm.
Proof.
  unfold NewStorageManager. destruct (NewObjectStore _ _ _ _ _ _ _) as [os|]; [|done].
  intros [= <-] id. split; cbn; rewrite ?lookup_empty; try done; split; by intros [? ?].
Qed.

(** A node on which a volume may be allocated. *)
Definition fits (ops : list sop) (req : AllocateVolumeRequest) (id : string) : Prop :=
  ∃ free, sg_node (standing ops id) = Some (free, true) ∧ av_SizeBytes req ≤ free ∧ id ∉ av_ExcludeNodes req.

Lemma isExcluded_spec id l : isExcluded id l = false ↔ id ∉ l.
Proof.
  unfold isExcluded. rewrite <-not_true_iff_false, existsb_exists. apply not_iff_compat. split.
  - intros (x & Hx%list_elem_of_In & ->%bool_decide_eq_true_1). done.
  - intros Hx%list_elem_of_In. exists id. split; [done|]. by apply bool_decide_eq_true_2.
Qed.

Lemma eligible_fits ops sm req id sn :
  tracked ops sm → ps_nodes (sm_placement sm) !! id = Some sn →
  eligible (volume_placement req) sn = true ↔ fits ops req id.
Proof.
  intros Ht Hsn. destruct (Ht id) as [Hp _ _ _ Hid]. rewrite Hsn in Hp. unfold fits, eligible.
  destruct (sg_node (standing ops id)) as [[free h]|]; [|done]. injection Hp as Hf Hs.
  rewrite !andb_true_iff, !negb_true_iff, Hs, Hf, (Hid sn Hsn). cbn [volume_placement pr_Size pr_StorageClass pr_ExcludeNodes].
  rewrite isExcluded_spec, Z.ltb_ge. split.
  - intros ((((Hh & Hz) & _) & _) & Hx). exists free. split_and!; [|done..]. by destruct h.
  - intros (f & [= <- ->] & Hz & Hx). by split_and!.
Qed.

(** C22: a volume is allocated on a node that is registered, that is healthy by the
    last check, and that has room by its last report, and an allocation is
    refused only when there is no such node, whatever else has happened to the
    manager: this is decided by the history of each node alone.  A node that
    stops reporting is avoided from the first check on that is two minutes after
    its last report, and one that has never reported is never avoided.  The
    class of a request is not looked at, and allocations take no room. *)
Theorem volume_allocation mkdir mtime stop tm files config ops sm0 sm now req :
  NewStorageManager mkdir mtime stop tm files config = Ok sm0 → srun ops sm0 = Some sm →
  match AllocateVolume now req sm with
  | None => False
  | Some (Err _) => ∀ id, ¬ fits ops req id
  | Some (Ok a) =>
      fits ops req (va_NodeID a) ∧ is_Some (sm_nodes sm !! va_NodeID a) ∧
      va_VolumeID a = av_VolumeID req ∧ va_SizeBytes a = av_SizeBytes req
  end.
Proof.
  intros Hn%new_tracked Hr.
  pose proof (srun_keeps tracked ops sexec_tracked [] sm0 sm Hn Hr) as Ht. cbn in Ht.
  assert (keyed (sm_placement sm)) as Hk by (intros id sn; apply (nt_key_placed _ _ _ (Ht id))).
  pose proof (SelectNodes_correct (sm_placement sm) (volume_placement req) Hk) as Hs. cbv zeta in Hs. unfold AllocateVolume.
  assert (∀ sn, sn ∈ getEligibleNodes (sm_placement sm) (volume_placement req) →
    fits ops req (sn_ID sn) ∧ is_Some (sm_nodes sm !! sn_ID sn)) as Hf.
  { intros sn [Hl He]%eligible_elem; [|done]. split; [by eapply eligible_fits|]. apply (nt_known _ _ _ (Ht _)). by eexists. }
  destruct (SelectNodes _ _) as [[ids|err]|].
  - destruct Hs as (chosen & -> & [Hfrom _ Hlen _] & _). destruct chosen as [|sn chosen]; [discriminate Hlen|].
    cbn. destruct (Hf sn) as [Hx Hy]; [apply Hfrom; by left|]. by split_and!.
  - intros id Hx. assert (getEligibleNodes (sm_placement sm) (volume_placement req) = []) as He.
    { destruct Hs as [Hs|Hs]; [done|]. destruct (getEligibleNodes _ _); [done|]. unfold len in Hs. cbn in Hs. lia. }
    pose proof Hx as (free & Hg & _). pose proof (nt_placed _ _ _ (Ht id)) as Hp. rewrite Hg in Hp.
    apply fmap_Some in Hp as (sn & Hsn & _). pose proof (proj2 (eligible_fits _ _ _ _ _ Ht Hsn) Hx) as Hel.
    assert (sn ∈ getEligibleNodes (sm_placement sm) (volume_placement req)) as Hin.
    { apply eligible_elem; [done|]. by rewrite (Hk id sn Hsn). }
    rewrite He in Hin. by apply elem_of_nil in Hin.
  - destruct Hs as [_ Hs]. discriminate Hs.
Qed.

(** *** Rebalancing *)

Definition exclusive (sm : StorageManager) : Prop := sm_rebalancing sm = if sm_active sm then 1%nat else 0%nat.

Lemma repairing_exclusive f sm sm' : repairing f sm = Some sm' → exclusive sm → exclusive sm'.
Proof. unfold repairing. cbv zeta. by intros (re & _ & [= <-])%bind_Some. Qed.

Lemma with_store_exclusive {A} (f : ObjectStore → ObjectStore * A) sm : exclusive sm → exclusive (with_store f sm).1.
Proof. intros Hx. unfold with_store. by destruct (f _). Qed.

Lemma begin_exclusive sm : exclusive sm → exclusive (begin_rebalancing sm).
Proof.
  unfold begin_rebalancing, exclusive. destruct (sm_active sm) eqn:Ha; [by rewrite Ha|]. cbn. by intros ->.
Qed.

Lemma end_exclusive now sm : exclusive sm → exclusive (end_rebalancing now sm).
Proof.
  unfold end_rebalancing, exclusive. intros Hx. destruct (sm_rebalancing sm) as [|n] eqn:Hn; [by rewrite Hn|].
  destruct (sm_active sm); [|done]. injection Hx as ->. by case_match.
Qed.

Lemma sexec_exclusive o sm sm' : sexec o sm = Some sm' → exclusive sm → exclusive sm'.
Proof.
  intros Ho Hx. destruct o as [|rm|node|id|now id st|i req|read io again b k|read ans b k|now ans req|ans name|o|now| | | |now|now d|started w|i w];
    cbn [sexec] in Ho.
  - exact (repairing_exclusive _ _ _ Ho Hx).
  - apply bind_Some in Ho as (sm1 & Hst & [= <-]). by apply (repairing_exclusive _ _ _ Hst) in Hx.
  - by injection Ho as <-.
  - by injection Ho as <-.
  - injection Ho as <-. unfold UpdateNodeStats. by case_match.
  - apply fmap_Some in Ho as ([sm1 e] & Hp & ->). by apply bind_Some in Hp as ([os1 e1] & _ & [= <- _]).
  - injection Ho as <-. by apply with_store_exclusive.
  - injection Ho as <-. by apply with_store_exclusive.
  - injection Ho as <-. by apply with_store_exclusive.
  - injection Ho as <-. by apply with_store_exclusive.
  - by apply fmap_Some in Ho as ([os1 a] & _ & ->).
  - by injection Ho as <-.
  - injection Ho as <-. unfold TriggerRebalancing. by case_match.
  - injection Ho as <-. unfold begin_triggered. case_match; [done|]. by apply begin_exclusive.
  - injection Ho as <-. unfold rebalancing_turn. case_match; [by apply begin_exclusive|done].
  - injection Ho as <-. by apply end_exclusive.
  - exact (repairing_exclusive _ _ _ Ho Hx).
  - exact (repairing_exclusive _ _ _ Ho Hx).
  - exact (repairing_exclusive _ _ _ Ho Hx).
Qed.

(** At most one rebalancing runs at any time, however many are triggered. *)
Lemma one_rebalancing mkdir mtime stop tm files config ops sm0 sm :
  NewStorageManager mkdir mtime stop tm files config = Ok sm0 → srun ops sm0 = Some sm → exclusive sm.
Proof.
  intros Hn Hr. refine (srun_keeps (fun _ => exclusive) ops _ [] sm0 sm _ Hr).
  - intros _ o sm1 sm2 Hs Ho. by eapply sexec_exclusive.
  - unfold NewStorageManager in Hn. destruct (NewObjectStore _ _ _ _ _ _ _); [|done]. by injection Hn as <-.
Qed.

End histories.

(** ** A cluster of two nodes *)

Module StorageRuns.

#[local] Existing Instances ChunkRuns.toy_gzip range_canonical sort_insertion ObjectRuns.name_codec.

Definition start : StorageManager := {|
  sm_config := ObjectRuns.config;
  sm_objects := ObjectRuns.fresh <| os_meta := meta.NewMetadataStore 0 None |>;
  sm_repair := NewRepairEngine ObjectRuns.config (NewReplicationManager ObjectRuns.config) (os_chunks ObjectRuns.fresh);
  sm_placement := NewPlacementStrategy ObjectRuns.config; sm_nodes := ∅; sm_nodeStats := ∅;
  sm_rebalancer := NewRebalancer; sm_active := false; sm_triggered := 0; sm_rebalancing := 0 |}.

Lemma start_new : NewStorageManager None (fun _ => 0) None 0 ∅ ObjectRuns.config = Ok start.
Proof. vm_compute. reflexivity. Qed.

Definition node (id zone : string) : NodeInfo := {|
  ni_ID := id; ni_Address := ""; ni_Zone := zone; ni_Region := "r"; ni_StorageCapacity := 100;
  ni_IOPSClass := IOPSClassHigh; ni_Labels := ∅; ni_RegisteredAt := 0 |}.

Definition report (used at_ : Z) : NodeStorageStats := {|
  ns_TotalBytes := 100; ns_UsedBytes := used; ns_AvailableBytes := 100 - used; ns_ChunkCount := 0;
  ns_VolumeCount := 0; ns_LastUpdated := at_ |}.

Definition bucket : CreateBucketRequest := {|
  cb_Name := "b"; cb_StorageClass := StorageClassHot; cb_QuotaBytes := 0; cb_Labels := ∅; cb_Owner := "" |}.

Definition cluster : list sop := [
  SStart; SRegister (node "a" "z1"); SRegister (node "b" "z2"); SCreateBucket 1 ObjectRuns.yes bucket;
  SPut (ObjectRuns.putting ObjectRuns.yes) (ObjectRuns.request "b" "x" "aaaa")].

Definition after (ops : list sop) : StorageManager := default start (srun ops start).

Lemma after_run ops : match srun ops start with Some _ => true | None => false end = true → srun ops start = Some (after ops).
Proof. unfold after. by destruct (srun ops start). Qed.

(** The only replica of the object is on a node that nobody has registered. *)
Example replica_on_no_node :
  map rp_NodeID (GetReplicas (os_replication (sm_objects (after cluster))) (sha256_hex "aaaa")) = ["node-1"] ∧
  map_to_list (sm_nodes (after cluster)) = [("a", node "a" "z1"); ("b", node "b" "z2")].
Proof. vm_compute. done. Qed.

Lemma cluster_run : srun cluster start = Some (after cluster).
Proof. apply after_run. vm_compute. reflexivity. Qed.

Lemma replicas_miss_the_nodes_witness :
  ∃ r, r ∈ GetReplicas (os_replication (sm_objects (after cluster))) (sha256_hex "aaaa") ∧ rp_NodeID r ∈ made_up.
Proof.
  assert ("node-1" ∈ map rp_NodeID (GetReplicas (os_replication (sm_objects (after cluster))) (sha256_hex "aaaa"))) as Hin.
  { rewrite (proj1 replica_on_no_node). by left. }
  apply list_elem_of_fmap in Hin as (r & _ & Hr). exists r. split; [exact Hr|].
  exact (replicas_miss_the_nodes None (fun _ => 0) None 0 ∅ ObjectRuns.config cluster start (after cluster) (sha256_hex "aaaa") r
    start_new cluster_run Hr).
Defined.

Definition volume (size : Z) : AllocateVolumeRequest := {|
  av_VolumeID := "v"; av_WorkloadID := "w"; av_SizeBytes := size; av_IOPSClass := IOPSClassHigh;
  av_PreferredZone := ""; av_ExcludeNodes := [] |}.

(** Node "a" reports once, after which three minutes pass. *)
Definition silent : list sop := [
  SRegister (node "a" "z1"); SRegister (node "b" "z2"); SReport 0 "a" (report 10 0); SReport 0 "b" (report 60 0);
  SReport 0 "b" (report 60 (2 * minute)); SCheckNodes (fun _ => (3 * minute, 3 * minute))].

Definition chosen (size : Z) (ops : list sop) : option (result string string) :=
  (fun r => match r with Ok a => Ok (va_NodeID a) | Err e => Err e end) <$> AllocateVolume 0 (volume size) (after ops).

(** It is avoided until it is checked after the next report. *)
Example silent_avoided :
  chosen 20 (take 5 silent) = Some (Ok "a") ∧ chosen 20 silent = Some (Ok "b") ∧
  chosen 50 silent = Some (Err "failed to select node for volume: no eligible nodes available") ∧
  chosen 50 (app silent [SReport 0 "a" (report 10 (3 * minute))]) =
    Some (Err "failed to select node for volume: no eligible nodes available") ∧
  chosen 50 (app silent [SReport 0 "a" (report 10 (3 * minute)); SCheckNodes (fun _ => (4 * minute, 4 * minute))]) =
    Some (Ok "a").
Proof. vm_compute. done. Qed.

Lemma silent_run : srun silent start = Some (after silent).
Proof. apply after_run. vm_compute. reflexivity. Qed.

Lemma volume_allocation_witness : fits silent (volume 20) "b" ∧ ∀ id, ¬ fits silent (volume 50) id.
Proof.
  pose proof (volume_allocation None (fun _ => 0) None 0 ∅ ObjectRuns.config silent start (after silent) 0 (volume 20) start_new silent_run) as H1.
  pose proof (volume_allocation None (fun _ => 0) None 0 ∅ ObjectRuns.config silent start (after silent) 0 (volume 50) start_new silent_run) as H2.
  destruct silent_avoided as (_ & Hb & He & _). unfold chosen in Hb, He.
  destruct (AllocateVolume 0 (volume 20) (after silent)) as [[a|e]|]; try discriminate Hb.
  destruct (AllocateVolume 0 (volume 50) (after silent)) as [[a'|e']|]; try discriminate He.
  injection Hb as Hb. rewrite Hb in H1. split; [apply H1|exact H2].
Defined.

(** Two volumes of 60 are allocated on the node, which has 100. *)
Example allocated_twice :
  let ops := [SRegister (node "a" "z1")] in
  chosen 60 ops = Some (Ok "a") ∧ chosen 60 ops = Some (Ok "a") ∧ chosen 101 ops ≠ Some (Ok "a").
Proof. vm_compute. done. Qed.

(** The reports and the checks take no lock: one that has loaded the node stores it
    again after [UnregisterNode] has removed it, and volumes are allocated on
    the node that [GetNode] does not find. *)
Example stored_again :
  let sm := after [SRegister (node "a" "z1")] in
  let removed := UnregisterNode "a" sm in
  match ps_nodes (sm_placement sm) !! "a" with
  | Some loaded =>
      let ps := sm_placement removed in
      let sm' := removed <| sm_placement := ps <| ps_nodes := <["a" := set_capacity 1 10 100 loaded]> (ps_nodes ps) |> |> in
      GetNode "a" sm' = Err "node not found: a" ∧ va_NodeID <$> (AllocateVolume 0 (volume 60) sm' ≫= fun r =>
        match r with Ok a => Some a | Err _ => None end) = Some "a"
  | None => False
  end.
Proof. vm_compute. done. Qed.

(** Rebalancing counts its operations as completed and recommends them again. *)
Example rebalanced_in_vain :
  let ops := [SRegister (node "a" "z1"); SRegister (node "b" "z2"); SReport 0 "a" (report 90 0)] in
  let turn := [STrigger; SBegin; SEnd 1] in
  bs_OperationsCompleted (GetRebalancingStatus (after (app ops turn))) = 1 ∧
  bs_OperationsCompleted (GetRebalancingStatus (after (app ops (app turn turn)))) = 2 ∧
  sm_placement (after (app ops (app turn turn))) = sm_placement (after ops).
Proof. vm_compute. done. Qed.

End StorageRuns.
