(* ===== verification/ColdData.v ===== *)
(** * Cold data (pkg/storage/cold_data.go)

    Objects that have not been used for long are turned into erasure-coded
    shards.  The manager works on the objects in the cache of the metadata: what
    it sets in one of them is seen there at once, before the change has been
    stored. *)

From S2P Require Import Prelude GoText GoFloat GoFiles RaftFSM StorageTypes ChunkStore ContentEngine Erasure ObjectMetadata.

Local Open Scope string_scope.
Local Open Scope Z_scope.

(** The metadata and the chunks are shared with the object store. *)
Record ColdDataManager := {
  cd_metadataStore : MetadataStore;
  cd_chunkStore : ChunkStore;
  cd_erasureEncoder : option ErasureEncoder;
  cd_config : StorageConfig
}.

#[export] Instance eta_ColdDataManager : Eta ColdDataManager := fun m =>
  Build_ColdDataManager (cd_metadataStore m) (cd_chunkStore m) (cd_erasureEncoder m) (cd_config m).

(** What an encoding reads: the number of nodes, the clock of the access, the answers for the chunks
    read, the shards written and those removed after a failed write, the clock of
    the change, the clock and the answer for the metadata and the answers for
    the removals when these fail. *)
Record EncodeInputs := {
  ei_nodes : option Z;
  ei_read : Z;
  ei_io : nat → option string;
  ei_write : nat → WriteIO;
  ei_cleanup : nat → option string;
  ei_updated : Z;
  ei_now : Z;
  ei_raft : raft_answer;
  ei_rollback : nat → option string
}.

Section cold.
Context `{GoRange, Gzip, MetadataCodec, ReedSolomon}.

(** Missing parts of the configuration are [None]; [logger] tells whether there
    is one. *)
Definition NewColdDataManager (metadataStore : option MetadataStore) (contentEngine : option ContentEngine)
    (chunkStore : option ChunkStore) (logger : bool) (config : StorageConfig)
    : result string ColdDataManager :=
  match metadataStore, contentEngine, chunkStore with
  | None, _, _ => Err "metadata store is required"
  | _, None, _ => Err "content engine is required"
  | _, _, None => Err "chunk store is required"
  | Some ms, Some _, Some cs =>
      if negb logger then Err "logger is required"
      else if ec_Enabled (Erasure config) then
        match NewErasureEncoder (Erasure config) with
        | Err err => Err ("failed to create erasure encoder: " +:+ err)
        | Ok ee => Ok {| cd_metadataStore := ms; cd_chunkStore := cs; cd_erasureEncoder := Some ee;
                         cd_config := config |}
        end
      else Ok {| cd_metadataStore := ms; cd_chunkStore := cs; cd_erasureEncoder := None;
                 cd_config := config |}
  end.

Definition set_meta (ms : MetadataStore) (m : ColdDataManager) : ColdDataManager :=
  m <| cd_metadataStore := ms |>.

(** ** Finding cold objects *)

(** One object of the listing: [read] and [now] are the clock when it is looked
    up and when its age is taken. *)
Definition identify_object (read now : Z) (threshold : Z) (bucket key : string)
    (acc : ColdDataManager * list Object) : ColdDataManager * list Object :=
  let '(m, coldObjects) := acc in
  match meta.GetObject read bucket key (cd_metadataStore m) with
  | (ms, Err _) => (set_meta ms m, coldObjects)
  | (ms, Ok obj) =>
      (set_meta ms m,
       if ob_ECEnabled obj then coldObjects
       else if IsObjectCold now (Some obj) threshold then app coldObjects [obj] else coldObjects)
  end.

(** One bucket; at most a thousand of its objects. *)
Definition identify_bucket (read now : string → Z) (threshold : Z) (bucket : string)
    (acc : ColdDataManager * list Object) : ColdDataManager * list Object :=
  match meta.ListObjects bucket "" 1000 (cd_metadataStore acc.1) with
  | Err _ => acc
  | Ok objects =>
      foldl (fun acc o => let k := getObjectKey bucket (om_Key o) in
                          identify_object (read k) (now k) threshold bucket (om_Key o) acc) acc objects
  end.

Definition IdentifyColdObjects (read now : string → Z) (threshold : Z) (m : ColdDataManager)
    : ColdDataManager * list Object :=
  foldl (fun acc b => identify_bucket read now threshold (bm_Name b) acc) (m, [])
    (meta.ListBuckets (cd_metadataStore m)).

(** ** Changing the class *)

Definition TransitionToCold (read updated now : Z) (ans : raft_answer) (bucket key : string)
    (m : ColdDataManager) : ColdDataManager * option storage_error :=
  match meta.GetObject read bucket key (cd_metadataStore m) with
  | (ms, Err err) => (set_meta ms m, Some (Wrap "failed to get object" err))
  | (ms, Ok object) =>
      if ob_StorageClass object =?s StorageClassCold then (set_meta ms m, None)
      else
        let object := object <| ob_StorageClass := StorageClassCold |> <| ob_UpdatedAt := updated |> in
        match meta.PutObject now ans true object (set_object (getObjectKey bucket key) object ms) with
        | (ms, Some err) => (set_meta ms m, Some (Wrap "failed to update object metadata" err))
        | (ms, None) => (set_meta ms m, None)
        end
  end.

(** ** Shards *)

(** The refusal when there are too few nodes; [nodeCount] is [None] without a
    function that counts them. *)
Definition too_few_nodes (nodeCount : option Z) (m : ColdDataManager) : option storage_error :=
  match nodeCount with
  | None => None
  | Some n =>
      if IsErasureCodingEligible (Erasure (cd_config m)) n then None
      else Some (Failure ("cluster does not meet erasure coding requirements: need "
                          +:+ show_Z (ec_MinNodeCount (Erasure (cd_config m)))
                          +:+ " nodes, have " +:+ show_Z n))
  end.

Definition encoded_object (config : ErasureConfig) (newChunkIDs : list string) (updated : Z)
    (object : Object) : Object :=
  object <| ob_ECEnabled := true |> <| ob_DataShards := ec_DataShards config |>
         <| ob_ParityShards := ec_ParityShards config |> <| ob_ChunkIDs := newChunkIDs |>
         <| ob_ShardIndices := map Z.of_nat (seq 0 (length newChunkIDs)) |> <| ob_UpdatedAt := updated |>.

Definition cleanupShards (rm : nat → option string) (cs : ChunkStore) (chunkIDs : list string) : ChunkStore :=
  delete_chunks rm 0 cs chunkIDs.

Definition EncodeWithEC (i : EncodeInputs) (bucket key : string) (m : ColdDataManager)
    : ColdDataManager * option storage_error :=
  match cd_erasureEncoder m with
  | None => (m, Some (Failure "erasure coding is not enabled"))
  | Some ee =>
      match too_few_nodes (ei_nodes i) m with
      | Some err => (m, Some err)
      | None =>
          match meta.GetObject (ei_read i) bucket key (cd_metadataStore m) with
          | (ms, Err err) => (set_meta ms m, Some (Wrap "failed to get object" err))
          | (ms, Ok object) =>
              let m := set_meta ms m in
              if ob_ECEnabled object then (m, None)
              else match RetrieveContent (ei_io i) (cd_chunkStore m) (ob_ChunkIDs object) with
              | Err err => (m, Some (Failure ("failed to retrieve object content: " +:+ err)))
              | Ok originalData =>
                  match Encode ee originalData with
                  | Err err => (m, Some (Failure ("failed to encode data: " +:+ err)))
                  | Ok shards =>
                      match store_chunks "shard" (ei_write i) (ei_cleanup i) 0 (cd_chunkStore m) [] shards with
                      | (cs, Err err) => (m <| cd_chunkStore := cs |>, Some (Failure err))
                      | (cs, Ok newChunkIDs) =>
                          let object := encoded_object (Erasure (cd_config m)) newChunkIDs (ei_updated i) object in
                          match meta.PutObject (ei_now i) (ei_raft i) true object
                                  (set_object (getObjectKey bucket key) object ms) with
                          | (ms, Some err) =>
                              ((set_meta ms m) <| cd_chunkStore := cleanupShards (ei_rollback i) cs newChunkIDs |>,
                               Some (Wrap "failed to update object metadata" err))
                          | (ms, None) => ((set_meta ms m) <| cd_chunkStore := cs |>, None)
                          end
                      end
                  end
              end
          end
      end
  end.

(** The shards that can be read, in their places. *)
Fixpoint read_each (io : nat → option string) (cs : ChunkStore) (i : nat) (chunkIDs : list string)
    : list (option string) :=
  match chunkIDs with
  | [] => []
  | chunkID :: chunkIDs =>
      match ReadChunk (io i) cs chunkID with Ok data => Some data | Err _ => None end
      :: read_each io cs (S i) chunkIDs
  end.

Definition DecodeFromEC (read : Z) (io : nat → option string) (bucket key : string) (m : ColdDataManager)
    : ColdDataManager * result storage_error string :=
  match cd_erasureEncoder m with
  | None => (m, Err (Failure "erasure coding is not enabled"))
  | Some ee =>
      match meta.GetObject read bucket key (cd_metadataStore m) with
      | (ms, Err err) => (set_meta ms m, Err (Wrap "failed to get object" err))
      | (ms, Ok object) =>
          (set_meta ms m,
           if negb (ob_ECEnabled object) then Err (Failure "object is not erasure coded")
           else
             let shards := read_each io (cd_chunkStore m) 0 (ob_ChunkIDs object) in
             if negb (CanReconstruct ee (available shards)) then
               Err (Failure (insufficient (available shards) (GetDataShardCount ee)))
             else match Decode ee shards (ob_Size object) with
             | Err err => Err (Failure ("failed to decode shards: " +:+ err))
             | Ok data => Ok data
             end)
      end
  end.

(** ** The periodic task *)

(** Errors of single objects are logged. *)
Definition ProcessColdData (read now : string → Z) (i : string → EncodeInputs) (nodeCount : option Z)
    (m : ColdDataManager) : ColdDataManager :=
  if negb (ec_Enabled (Erasure (cd_config m))) then m
  else match too_few_nodes nodeCount m with
  | Some _ => m
  | None =>
      let '(m, coldObjects) :=
        IdentifyColdObjects read now (ec_ColdThreshold (Erasure (cd_config m))) m in
      foldl (fun m o => (EncodeWithEC (i (getObjectKey (ob_Bucket o) (ob_Key o)))
                           (ob_Bucket o) (ob_Key o) m).1) m coldObjects
  end.

End cold.
