(* ===== verification/ColdDataSpec.v ===== *)
(** * Objects as shards

    An object that is encoded without an error is decoded from any large enough
    set of shards; a plain read of it fails from then on.  Looking for cold
    objects is an access to every object, so age never makes one cold. *)

From S2P Require Import Prelude GoText GoFloat GoCrypto GoFiles RaftFSM StorageTypes ChunkStore ChunkStoreSpec ContentEngine ContentSpec Erasure ErasureSpec StoragePlacement Replication ObjectMetadata ObjectStore ObjectStoreSpec ColdData.

#[local] Opaque sha256_hex.

(** ** The metadata store *)

Section metadata.
Context `{GoRange, MetadataCodec}.

Lemma apply_raft_follower ans d ms : follower (applyRAFTCommand ans d ms).1 = follower ms.
Proof.
  unfold applyRAFTCommand, follower. destruct (ms_raft ms) as [n|] eqn:Hn; [|simpl; by rewrite Hn].
  destruct (is_leader (rn_store n)) eqn:Hl; simpl; [|rewrite Hn; simpl; by rewrite Hl].
  unfold ApplyRaw, submit. rewrite Hl. simpl. destruct ans as [clock|err]; [|simpl; by rewrite Hl].
  destruct (Apply _ _ _) as [[]|]; simpl; [done|]. rewrite Hn. simpl. by rewrite Hl.
Qed.

(** An answer to a strong read: the object in the cache, accessed now. *)
Lemma get_object_ok read b k ms ms' o :
  meta.GetObject read b k ms = (ms', Ok o) →
  ∃ o0, follower ms = None ∧ ms_objects ms !! getObjectKey b k = Some o0 ∧
    o = o0 <| ob_AccessedAt := read |> ∧ ms' = set_object (getObjectKey b k) o ms.
Proof.
  unfold meta.GetObject, meta.GetObjectWithOptions, meta.misdirected, meta.too_stale. cbn [ro_Consistency DefaultReadOptions].
  rewrite bool_decide_eq_true_2 by done. destruct (follower ms) eqn:Hf; [done|]. simpl.
  destruct (ms_objects ms !! getObjectKey b k) as [o0|]; [|done].
  intros [<- [= <-]]%pair_eq. by exists o0.
Qed.

Lemma get_object_here read b k ms o :
  follower ms = None → ms_objects ms !! getObjectKey b k = Some o →
  meta.GetObject read b k ms =
    (set_object (getObjectKey b k) (o <| ob_AccessedAt := read |>) ms, Ok (o <| ob_AccessedAt := read |>)).
Proof.
  intros Hf Ho. unfold meta.GetObject, meta.GetObjectWithOptions, meta.misdirected, meta.too_stale. rewrite Hf, Ho. done.
Qed.

(** What a put keeps of the object. *)
Definition same_content (o o' : Object) : Prop :=
  ob_Size o' = ob_Size o ∧ ob_ChunkIDs o' = ob_ChunkIDs o ∧ ob_Checksum o' = ob_Checksum o ∧
  ob_ECEnabled o' = ob_ECEnabled o.

Lemma put_object_ok now ans shared o ms ms' :
  meta.PutObject now ans shared o ms = (ms', None) →
  follower ms' = None ∧
  ∃ o', ms_objects ms' !! getObjectKey (ob_Bucket o) (ob_Key o) = Some o' ∧ same_content o o'.
Proof.
  unfold meta.PutObject. destruct (meta.GetBucket _ _) as [bk|] eqn:Hb; [|done]. cbv zeta.
  assert (follower ms = None) as Hf.
  { unfold meta.GetBucket, meta.GetBucketWithOptions, meta.misdirected in Hb. cbn [ro_Consistency DefaultReadOptions] in Hb.
    rewrite bool_decide_eq_true_2 in Hb by done. by destruct (follower ms). }
  case_match; [done|]. case_match; [|done].
  match goal with |- context [applyRAFTCommand ?a ?d ?m] =>
    pose proof (apply_raft_follower a d m) as Hf'; destruct (applyRAFTCommand a d m) as [ms1 [e|]] end; [done|].
  intros [<- _]%pair_eq. cbn [fst] in Hf'. split.
  - change (follower ms1 = None). rewrite Hf'. by destruct shared.
  - eexists. split; [apply lookup_insert_eq|]. unfold same_content. by destruct (0 <? from_option _ _ _).
Qed.

End metadata.

(** ** Encoding *)

Section encoding.
Context `{GoRange, GoSort, Gzip, MetadataCodec, ReedSolomon, !ReedSolomonLaws}.
Context (U : list string) (Hcf : collision_free U).

(** The content of an object, cut into [ds], is counted in [l]. *)
Record stores (m : ColdDataManager) (l : list string) (b k : string) (o : Object) (ds : list string) : Prop := {
  so_good : good U (cd_chunkStore m) l;
  so_object : ms_objects (cd_metadataStore m) !! getObjectKey b k = Some o;
  so_bucket : ob_Bucket o = b;
  so_key : ob_Key o = k;
  so_plain : ob_ECEnabled o = false;
  so_ids : ob_ChunkIDs o = ids ds;
  so_size : ob_Size o = slen (concat_bytes ds);
  so_checksum : ob_Checksum o = sha256_hex (concat_bytes ds);
  so_counted : ids ds ⊆ l;
  so_pieces : ds ⊆ U
}.

(** What a successful encoding leaves. *)
Lemma encode_ok i b k m m' l o ds ee shards :
  stores m l b k o ds → cd_erasureEncoder m = Some ee →
  Encode ee (concat_bytes ds) = Ok shards → shards ⊆ U → len l + len shards ≤ max_refs →
  EncodeWithEC i b k m = (m', None) →
  good U (cd_chunkStore m') (ids shards ++ l) ∧ cd_erasureEncoder m' = Some ee ∧
  follower (cd_metadataStore m') = None ∧
  ∃ o', ms_objects (cd_metadataStore m') !! getObjectKey b k = Some o' ∧ ob_ECEnabled o' = true ∧
    ob_ChunkIDs o' = ids shards ∧ ob_Size o' = slen (concat_bytes ds) ∧
    ob_Checksum o' = sha256_hex (concat_bytes ds).
Proof.
  intros [Hg Ho Hb Hk Hp Hids Hsize Hsum Hl HU] Hee Henc Hsh Hmax. unfold EncodeWithEC. rewrite Hee.
  destruct (too_few_nodes _ _); [done|].
  destruct (meta.GetObject _ _ _ _) as [ms [o1|]] eqn:Hget; [|done].
  apply get_object_ok in Hget as (o0 & Hf & Ho0 & -> & ->). rewrite Ho in Ho0. injection Ho0 as <-.
  cbv zeta. change (ob_ECEnabled (o <| ob_AccessedAt := ei_read i |>)) with (ob_ECEnabled o).
  change (ob_ChunkIDs (o <| ob_AccessedAt := ei_read i |>)) with (ob_ChunkIDs o). rewrite Hp, Hids.
  change (cd_chunkStore (set_meta ?ms m)) with (cd_chunkStore m).
  destruct (RetrieveContent _ _ _) as [d|] eqn:Hr; [|done].
  apply (retrieve_any U Hcf _ _ l) in Hr; [subst d|done..]. rewrite Henc.
  pose proof (store_chunks_good U Hcf "shard" (ei_write i) (ei_cleanup i) 0 (cd_chunkStore m) [] shards l Hg Hsh Hmax) as Hs.
  destruct (store_chunks _ _ _ _ _ _ _) as [cs [newIDs|]]; [|done]. destruct Hs as [-> Hg']. cbn [app] in Hg' |- *.
  match goal with |- context [meta.PutObject ?n ?a true ?x ?s] =>
    destruct (meta.PutObject n a true x s) as [ms' [e|]] eqn:Hput end; [done|].
  intros [<- _]%pair_eq. apply put_object_ok in Hput as (Hf' & o' & Ho' & Hsz & Hci & Hck & Hec).
  split_and!; [exact Hg'|exact Hee|exact Hf'|]. exists o'. cbn in Ho', Hsz, Hci, Hck, Hec. rewrite Hb, Hk in Ho'.
  split_and!; [exact Ho'|done|done|by rewrite Hsz|by rewrite Hck].
Qed.

Lemma read_each_view cs io i ds :
  Forall (fun d => ReadChunk None cs (sha256_hex d) = Ok d) ds →
  read_each io cs i (ids ds) = ErasureSpec.view io i ds.
Proof.
  intros Hr. revert i. induction Hr as [|d ds Hd Hr IH]; intros i; [done|]. cbn [ids map read_each ErasureSpec.view].
  rewrite (IH (S i)). f_equal. destruct (io i) as [e|]; simpl; [|by rewrite Hd].
  unfold ReadChunk in *. by destruct (GetChunk cs (sha256_hex d)).
Qed.

(** The shards hold more than the data. *)
Lemma encoded_longer ee data shards :
  usable ee data → Encode ee data = Ok shards → concat_bytes shards ≠ data.
Proof.
  intros Hu He. destruct (Encode_spec ee data Hu) as (input & size & e & Hin & Hs & Hre & He' & Hlen & n & Hc).
  rewrite He in He'. injection He' as <-. destruct Hu as [Hk Hm Hnew _ _ _].
  destruct (rs_Encode_spec _ _ size input Hnew Hs Hin) as (parity & Hre' & Hpl & Hps).
  rewrite Hre in Hre'. injection Hre' as Hsh. destruct Hin as (_ & _ & Hil & _).
  set (kn := Z.to_nat (ec_DataShards (ee_config ee))) in *.
  assert (drop kn shards = parity) as Hd.
  { rewrite Hsh. apply drop_app_length'. rewrite length_take. unfold len in Hil. lia. }
  rewrite <-(firstn_skipn kn shards), concat_bytes_app, Hc, Hd. intros E. apply (f_equal slen) in E.
  rewrite !slen_app in E. destruct parity as [|p parity]; [unfold len in Hpl; simpl in Hpl; lia|].
  apply Forall_cons in Hps as [Hp _]. simpl in E. rewrite slen_app in E. unfold slen in E. lia.
Qed.

(** C20: an object that is encoded without an error is decoded to its content from
    every set of shards that can be read and is large enough, and refused
    otherwise.  A plain read of it fails its integrity check, unless the content
    and the shards put together collide under SHA-256. *)
Theorem encoded_object_read i b k m m' l o ds config ee shards :
  NewErasureEncoder config = Ok ee → cd_erasureEncoder m = Some ee → stores m l b k o ds →
  concat_bytes ds ≠ "" → ec_DataShards config + ec_ParityShards config < 2 ^ 63 →
  slen (concat_bytes ds) + ec_DataShards config < 2 ^ 63 →
  Encode ee (concat_bytes ds) = Ok shards → shards ⊆ U → len l + len shards ≤ max_refs →
  EncodeWithEC i b k m = (m', None) →
  (∀ read io, (DecodeFromEC read io b k m').2 =
     if alive io 0 (length shards) <? ec_DataShards config
     then Err (Failure (insufficient (alive io 0 (length shards)) (ec_DataShards config)))
     else Ok (concat_bytes ds)) ∧
  (collision_free [concat_bytes ds; concat_bytes shards] →
   ∀ os read, os_meta os = cd_metadataStore m' → os_chunks os = cd_chunkStore m' →
     ∃ err, (GetObject read (fun _ => None) (fun _ => None) b k os).2 =
       Err (Failure ("data integrity check failed: " +:+ err))).
Proof.
  intros Hnew Hee Hst Hne Ht Hs He HU Hmax Henc.
  destruct (NewErasureEncoder_usable config ee (concat_bytes ds)) as [Hu Hcfg]; [done..|].
  destruct (encode_ok i b k m m' l o ds ee shards Hst Hee He HU Hmax Henc)
    as (Hg & Hee' & Hf & o' & Ho' & Hec & Hids & Hsz & Hsum).
  assert (Forall (fun d => ReadChunk None (cd_chunkStore m') (sha256_hex d) = Ok d) shards) as Hread.
  { apply Forall_forall. intros d Hd. eapply (good_lookup U Hcf); [exact Hg| |by apply HU].
    apply elem_of_app. left. apply list_elem_of_fmap. eauto. }
  split.
  - intros read io. unfold DecodeFromEC. rewrite Hee', (get_object_here read b k _ o' Hf Ho'). cbn [snd].
    change (ob_ECEnabled (o' <| ob_AccessedAt := read |>)) with (ob_ECEnabled o').
    change (ob_ChunkIDs (o' <| ob_AccessedAt := read |>)) with (ob_ChunkIDs o').
    change (ob_Size (o' <| ob_AccessedAt := read |>)) with (ob_Size o'). rewrite Hec, Hids, Hsz. cbn [negb]. cbv zeta.
    rewrite (read_each_view _ io 0 shards Hread), view_available. unfold CanReconstruct, GetDataShardCount.
    rewrite (Decode_damaged ee _ shards _ Hu He (view_damages io 0 shards)), view_available, Hcfg.
    destruct (Z.ltb_spec (alive io 0 (length shards)) (ec_DataShards config)).
    + by rewrite (proj2 (Z.leb_gt _ _)) by lia.
    + by rewrite (proj2 (Z.leb_le _ _)) by lia.
  - intros Hcf2 os read Hms Hcs. unfold GetObject, get_meta. rewrite Hms, (get_object_here read b k _ o' Hf Ho').
    change (os_chunks (os <| os_meta := ?x |>)) with (os_chunks os). rewrite Hcs.
    change (ob_ChunkIDs (o' <| ob_AccessedAt := read |>)) with (ob_ChunkIDs o').
    change (ob_Checksum (o' <| ob_AccessedAt := read |>)) with (ob_Checksum o'). rewrite Hids, Hsum.
    assert (RetrieveContent (fun _ => None) (cd_chunkStore m') (ids shards) = Ok (concat_bytes shards)) as Hr.
    { apply (retrieve_good U Hcf _ _ shards Hg HU). intros x Hx. apply elem_of_app. by left. }
    rewrite Hr. unfold VerifyContent. rewrite Hr. unfold calculateChecksum.
    rewrite bool_decide_eq_false_2; [eauto|]. intros E. apply (encoded_longer ee _ shards Hu He).
    apply Hcf2; [set_solver|set_solver|done].
Qed.

End encoding.

(** ** Looking for cold objects *)

Section identifying.
Context `{GoRange, Gzip, MetadataCodec, ReedSolomon}.
Context (read now : string → Z) (threshold : Z).
Context (Hread : ∀ k, IsZero (read k) = false) (Hnow : ∀ k, time_Sub (now k) (read k) ≤ threshold).

Definition all_class_cold (acc : ColdDataManager * list Object) : Prop :=
  Forall (fun o => ob_StorageClass o = StorageClassCold) acc.2.

Lemma identify_object_class b k acc :
  let key := getObjectKey b k in
  all_class_cold acc → all_class_cold (identify_object (read key) (now key) threshold b k acc).
Proof.
  destruct acc as [m objs]. intros key Hall. unfold all_class_cold, identify_object in *.
  destruct (meta.GetObject _ _ _ _) as [ms [o|]] eqn:Hget; [|done]. cbn [snd] in *.
  apply get_object_ok in Hget as (o0 & _ & _ & -> & _).
  destruct (ob_ECEnabled _) eqn:Hec; [done|]. unfold IsObjectCold. rewrite Hec.
  change (ob_AccessedAt (o0 <| ob_AccessedAt := read key |>)) with (read key). rewrite Hread.
  rewrite (proj2 (Z.ltb_ge threshold _)) by apply Hnow.
  case_bool_decide as Hc; [|done]. apply Forall_app. split; [done|]. by apply Forall_singleton.
Qed.

Lemma foldl_keeps {A B} (P : A → Prop) (f : A → B → A) l a :
  (∀ a b, P a → P (f a b)) → P a → P (foldl f a l).
Proof. intros Hf. revert a. induction l as [|b l IH]; intros a Ha; simpl; auto. Qed.

(** The search finds no object by its age: it looks up every object, which
    counts as an access, before it takes the time since the last access.  Only
    objects of the cold class are found, as long as a look-up does not take
    longer than the threshold. *)
Theorem found_by_class_only m : all_class_cold (IdentifyColdObjects read now threshold m).
Proof.
  unfold IdentifyColdObjects. apply (foldl_keeps all_class_cold); [|by apply Forall_nil]. intros acc b Hall. unfold identify_bucket.
  destruct (meta.ListObjects _ _ _ _) as [l|]; [|done]. apply (foldl_keeps all_class_cold); [|done].
  intros acc' o Hall'. by apply identify_object_class.
Qed.
End identifying.

(** ** Concrete runs *)

Module ColdRuns.

#[local] Existing Instances ChunkRuns.toy_gzip range_canonical sort_insertion ObjectRuns.name_codec.
#[local] Existing Instances ErasureRuns.xor_code ErasureRuns.xor_laws.

Definition pieces : list string := ["abcd"; "e"]%string.

Definition chunks : ChunkStore :=
  (store_chunks "chunk" ContentRuns.ok_io ContentRuns.no_fault 0 (ChunkRuns.start false) [] pieces).1.

Definition object : Object :=
  new_object "b" "x" StorageClassHot "" ∅ 5 (sha256_hex "abcde") (ids pieces).

Definition bucket : Bucket := {|
  bk_Name := "b"; bk_StorageClass := StorageClassHot; bk_QuotaBytes := 0; bk_UsedBytes := 5;
  bk_CreatedAt := 1; bk_UpdatedAt := 1; bk_Labels := ∅; bk_Owner := "" |}.

Definition manager : ColdDataManager := {|
  cd_metadataStore := {| ms_raft := Some (ObjectRuns.node true); ms_buckets := {[ "b"%string := bucket ]};
                         ms_objects := {[ "b:x"%string := object ]} |};
  cd_chunkStore := chunks; cd_erasureEncoder := Some ErasureRuns.ee;
  cd_config := DefaultStorageConfig <| Erasure := ErasureRuns.config |> |}.

Definition encoding (ans : raft_answer) : EncodeInputs := {|
  ei_nodes := Some 3; ei_read := 5; ei_io := fun _ => None; ei_write := ContentRuns.ok_io;
  ei_cleanup := ContentRuns.no_fault; ei_updated := 6; ei_now := 7; ei_raft := ans;
  ei_rollback := ContentRuns.no_fault |}.

Definition U : list string := pieces ++ ErasureRuns.shards.

Lemma U_collision_free : collision_free U.
Proof. apply collision_free_check. vm_compute. reflexivity. Qed.

Lemma chunks_good : good U chunks (ids pieces).
Proof.
  pose proof (store_chunks_good U U_collision_free "chunk" ContentRuns.ok_io ContentRuns.no_fault 0
    (ChunkRuns.start false) [] pieces []) as Hg. cbn [app] in Hg.
  replace ((store_chunks "chunk" ContentRuns.ok_io ContentRuns.no_fault 0 (ChunkRuns.start false) [] pieces).2)
    with (@Ok string (list string) (ids pieces)) in Hg by (vm_compute; reflexivity).
  rewrite app_nil_r in Hg. apply Hg.
  - exists ∅. split; [|split].
    + split; [intros id d n Ha; rewrite lookup_empty in Ha; discriminate|reflexivity].
    + intros id. rewrite lookup_empty. reflexivity.
    + intros id d n Ha. rewrite lookup_empty in Ha. discriminate.
  - unfold U. intros d Hd. apply elem_of_app. by left.
  - vm_compute. discriminate.
Qed.

Lemma object_stored : stores U manager (ids pieces) "b" "x" object pieces.
Proof.
  split; try reflexivity; [exact chunks_good|]. intros d Hd. apply elem_of_app. by left.
Qed.

Definition encoded : ColdDataManager := (EncodeWithEC (encoding ObjectRuns.yes) "b" "x" manager).1.

Lemma encoded_ok : EncodeWithEC (encoding ObjectRuns.yes) "b" "x" manager = (encoded, None).
Proof.
  assert ((EncodeWithEC (encoding ObjectRuns.yes) "b" "x" manager).2 = None) as He by (vm_compute; reflexivity).
  unfold encoded. destruct (EncodeWithEC _ _ _ _) as [m e]. cbn [fst snd] in *. by rewrite He.
Qed.

Lemma encoded_object_read_witness :
  (DecodeFromEC 9 ErasureRuns.lost "b" "x" encoded).2 = Ok "abcde"%string ∧
  ∃ err, (GetObject 9 (fun _ => None) (fun _ => None) "b" "x"
            (ObjectRuns.fresh <| os_meta := cd_metadataStore encoded |> <| os_chunks := cd_chunkStore encoded |>)).2
    = Err (Failure ("data integrity check failed: " +:+ err)).
Proof.
  destruct (encoded_object_read U U_collision_free (encoding ObjectRuns.yes) "b" "x" manager encoded (ids pieces)
    object pieces ErasureRuns.config ErasureRuns.ee ErasureRuns.shards) as [Hd Hg].
  - reflexivity.
  - reflexivity.
  - exact object_stored.
  - discriminate.
  - reflexivity.
  - reflexivity.
  - vm_compute. reflexivity.
  - intros d Hd. apply elem_of_app. by right.
  - vm_compute. discriminate.
  - exact encoded_ok.
  - split.
    + rewrite Hd. replace (alive _ _ _ <? _) with false by (vm_compute; reflexivity). reflexivity.
    + apply Hg; [|reflexivity|reflexivity]. apply collision_free_check. vm_compute. reflexivity.
Defined.

(** An encoding that the cluster refuses has changed the object in the cache
    already, and removes the shards it now names: the object is lost to this
    coordinator, though its chunks are still there. *)
Definition refused : ColdDataManager := (EncodeWithEC (encoding ObjectRuns.no) "b" "x" manager).1.

Example refused_encoding_loses_object :
  (match (DecodeFromEC 9 (fun _ => None) "b" "x" refused).2 with Ok d => d | Err e => error_text e end) =
    "insufficient shards for reconstruction: have 0, need 2"%string ∧
  RetrieveContent (fun _ => None) (cd_chunkStore refused) (ids pieces) = Ok "abcde"%string.
Proof. vm_compute. done. Qed.

(** The class of an object changes here though the cluster has refused it. *)
Example refused_transition_kept :
  (fun o => ob_StorageClass o) <$>
    ms_objects (cd_metadataStore (TransitionToCold 5 6 7 ObjectRuns.no "b" "x" manager).1) !! "b:x"%string =
  Some StorageClassCold.
Proof. vm_compute. reflexivity. Qed.

(** An object that was accessed long before the threshold is not found. *)
Example old_object_not_found :
  IsObjectCold 1000 (Some (object <| ob_AccessedAt := 1 |>)) 10 = true ∧
  (IdentifyColdObjects (fun _ => 1000) (fun _ => 1001) 10
    (manager <| cd_metadataStore := set_object "b:x" (object <| ob_AccessedAt := 1 |>) (cd_metadataStore manager) |>)).2 = [].
Proof. vm_compute. done. Qed.

End ColdRuns.
