(* ===== verification/SecretCrypto.v ===== *)
(** * Envelope encryption of secrets (pkg/secrets/encryption.go)

    A random data key encrypts the value, the master key encrypts the data
    key.  AES-GCM is an interface: [seal] and [open] of a cipher, with the
    laws its documentation states.  Bytes read from [rand.Reader] are
    arguments; [None] is a failed read. *)

From S2P Require Import Prelude GoText.

Definition AlgorithmAES256GCM : string := "AES-256-GCM".
Definition DataKeySize : Z := 32.
Definition NonceSize : Z := 12.
Definition MaxSecretSize : Z := 1024 * 1024.
Definition MaxSecretKeys : Z := 100.

(** ** AES-GCM *)

Class AEAD : Type := {
  seal : string → string → string → string;
  open : string → string → string → option string
}.

(** Opening a sealed text with its key and nonce gives it back, and a sealed
    text carries at least its authentication tag. *)
Class AEADLaws (A : AEAD) : Prop := {
  open_seal : ∀ k n p, open k n (seal k n p) = Some p;
  seal_nonempty : ∀ k n p, seal k n p ≠ EmptyString
}.

(** [aes.NewCipher] accepts keys of 16, 24 and 32 bytes. *)
Definition NewCipher (key : string) : option string :=
  if (slen key =? 16) || (slen key =? 24) || (slen key =? 32) then None
  else Some ("crypto/aes: invalid key size " +:+ show_Z (slen key))%string.

(** ** Keys *)

Record MasterKey := {
  mk_ID : string;
  mk_Algorithm : string;
  mk_Key : string;
  mk_Active : bool;
  mk_CreatedAt : Z;
  mk_RotatedAt : Z
}.

(** The encryptor is its master key. *)
Record EnvelopeEncryptor := { masterKey : MasterKey }.

Definition NewEnvelopeEncryptor (key : option MasterKey) : result string EnvelopeEncryptor :=
  match key with
  | None => Err "master key is required"%string
  | Some k =>
      if negb (slen (mk_Key k) =? DataKeySize) then
        Err ("master key must be " +:+ show_Z DataKeySize +:+ " bytes, got "
             +:+ show_Z (slen (mk_Key k)))
      else if negb (mk_Algorithm k =?s AlgorithmAES256GCM) then
        Err ("unsupported algorithm: " +:+ mk_Algorithm k)
      else Ok {| masterKey := k |}
  end.

Definition ValidateMasterKey (key : option MasterKey) : option string :=
  match key with
  | None => Some "master key is nil"%string
  | Some k =>
      if mk_ID k =?s "" then Some "master key ID is empty"%string
      else if negb (slen (mk_Key k) =? DataKeySize) then
        Some ("master key must be " +:+ show_Z DataKeySize +:+ " bytes, got "
              +:+ show_Z (slen (mk_Key k)))
      else if negb (mk_Algorithm k =?s AlgorithmAES256GCM) then
        Some ("unsupported algorithm: " +:+ mk_Algorithm k)
      else None
  end.

(** [GenerateKeyID]: 16 random bytes in hexadecimal, or the clock. *)
Definition GenerateKeyID (bytes : option string) (now : Z) : string :=
  match bytes with
  | Some b => "key-" +:+ hex_encode b
  | None => "key-" +:+ show_Z (now / second)
  end.

Definition GenerateMasterKey (key id : option string) (now : Z) : result string MasterKey :=
  match key with
  | None => Err "failed to generate master key"%string
  | Some k => Ok {| mk_ID := GenerateKeyID id now; mk_Algorithm := AlgorithmAES256GCM;
                    mk_Key := k; mk_Active := true; mk_CreatedAt := now;
                    mk_RotatedAt := zero_time |}
  end.

(** [RotateMasterKey]: the old key, marked inactive in place, and the new one. *)
Definition RotateMasterKey (oldKey : MasterKey) (key id : option string) (now : Z)
    : MasterKey * result string MasterKey :=
  match GenerateMasterKey key id now with
  | Err e => (oldKey, Err e)
  | Ok newKey =>
      ({| mk_ID := mk_ID oldKey; mk_Algorithm := mk_Algorithm oldKey; mk_Key := mk_Key oldKey;
          mk_Active := false; mk_CreatedAt := mk_CreatedAt oldKey; mk_RotatedAt := now |},
       Ok newKey)
  end.

(** ** Encryption *)

(** The random bytes of one encryption, in the order they are read. *)
Record Randomness := {
  rnd_dataKey : option string;
  rnd_nonce : option string;
  rnd_keyNonce : option string
}.

(** Encrypted value, wrapped data key and nonce. *)
Record Envelope := { env_data : string; env_key : string; env_nonce : string }.

Section envelope.
Context `{AEAD}.

Definition encryptWithKey (plaintext key : string) (nonce : option string)
    : result string (string * string) :=
  match NewCipher key with
  | Some err => Err ("failed to create cipher: " +:+ err)
  | None =>
      match nonce with
      | None => Err "failed to generate nonce"%string
      | Some n => Ok (seal key n plaintext, n)
      end
  end.

Definition decryptWithKey (ciphertext key nonce : string) : result string string :=
  match NewCipher key with
  | Some err => Err ("failed to create cipher: " +:+ err)
  | None =>
      match open key nonce ciphertext with
      | None => Err "decryption failed"%string
      | Some p => Ok p
      end
  end.

Definition Encrypt (rnd : Randomness) (e : EnvelopeEncryptor) (plaintext : string)
    : result string Envelope :=
  if slen plaintext =? 0 then Err "plaintext cannot be empty"%string
  else if MaxSecretSize <? slen plaintext then
    Err ("plaintext exceeds maximum size of " +:+ show_Z MaxSecretSize +:+ " bytes")
  else match rnd_dataKey rnd with
  | None => Err "failed to generate data key"%string
  | Some dataKey =>
      match encryptWithKey plaintext dataKey (rnd_nonce rnd) with
      | Err err => Err ("failed to encrypt data: " +:+ err)
      | Ok (encryptedData, nonce) =>
          match encryptWithKey dataKey (mk_Key (masterKey e)) (rnd_keyNonce rnd) with
          | Err err => Err ("failed to encrypt data key: " +:+ err)
          | Ok (encryptedDataKey, dataKeyNonce) =>
              Ok {| env_data := encryptedData; env_key := dataKeyNonce +:+ encryptedDataKey;
                    env_nonce := nonce |}
          end
      end
  end.

Definition Decrypt (e : EnvelopeEncryptor) (encryptedData encryptedDataKey nonce : string)
    : result string string :=
  if slen encryptedData =? 0 then Err "encrypted data cannot be empty"%string
  else if slen encryptedDataKey =? 0 then Err "encrypted data key cannot be empty"%string
  else if negb (slen nonce =? NonceSize) then
    Err ("invalid nonce size: expected " +:+ show_Z NonceSize +:+ ", got " +:+ show_Z (slen nonce))
  else if slen encryptedDataKey <? NonceSize then
    Err ("encrypted data key too short: expected at least " +:+ show_Z NonceSize
         +:+ " bytes, got " +:+ show_Z (slen encryptedDataKey))
  else
    let dataKeyNonce := take_bytes (Z.to_nat NonceSize) encryptedDataKey in
    let encryptedKey := drop_bytes (Z.to_nat NonceSize) encryptedDataKey in
    match decryptWithKey encryptedKey (mk_Key (masterKey e)) dataKeyNonce with
    | Err err => Err ("failed to decrypt data key: " +:+ err)
    | Ok dataKey =>
        if negb (slen dataKey =? DataKeySize) then
          Err ("invalid data key size: expected " +:+ show_Z DataKeySize +:+ ", got "
               +:+ show_Z (slen dataKey))
        else match decryptWithKey encryptedData dataKey nonce with
        | Err err => Err ("failed to decrypt data: " +:+ err)
        | Ok plaintext => Ok plaintext
        end
    end.

Definition ReEncryptWithNewKey (rnd : Randomness) (encryptedData encryptedDataKey nonce : string)
    (oldKey newKey : MasterKey) : result string Envelope :=
  match NewEnvelopeEncryptor (Some oldKey) with
  | Err err => Err ("failed to create old encryptor: " +:+ err)
  | Ok oldEncryptor =>
      match Decrypt oldEncryptor encryptedData encryptedDataKey nonce with
      | Err err => Err ("failed to decrypt with old key: " +:+ err)
      | Ok plaintext =>
          match NewEnvelopeEncryptor (Some newKey) with
          | Err err => Err ("failed to create new encryptor: " +:+ err)
          | Ok newEncryptor =>
              match Encrypt rnd newEncryptor plaintext with
              | Err err => Err ("failed to encrypt with new key: " +:+ err)
              | Ok env => Ok env
              end
          end
      end
  end.

End envelope.

(** ** Properties *)

(** Random bytes of the sizes the code asks for. *)
Definition rand_ok (rnd : Randomness) : Prop :=
  ∃ dk n kn, rnd = {| rnd_dataKey := Some dk; rnd_nonce := Some n; rnd_keyNonce := Some kn |} ∧
    slen dk = DataKeySize ∧ slen n = NonceSize ∧ slen kn = NonceSize.

Definition key_ok (k : MasterKey) : Prop :=
  slen (mk_Key k) = DataKeySize ∧ mk_Algorithm k = AlgorithmAES256GCM.

Lemma NewEnvelopeEncryptor_ok k : key_ok k → NewEnvelopeEncryptor (Some k) = Ok {| masterKey := k |}.
Proof. intros [Hl Ha]. unfold NewEnvelopeEncryptor. by rewrite Hl, Ha, bool_decide_eq_true_2. Qed.

Lemma NewCipher_32 k : slen k = DataKeySize → NewCipher k = None.
Proof. intros Hk. unfold NewCipher. by rewrite Hk. Qed.

Lemma slen_pos s : s ≠ EmptyString → 0 < slen s.
Proof. unfold slen. destruct s; [done|]. simpl. lia. Qed.

Lemma slen_nonneg s : 0 ≤ slen s.
Proof. unfold slen. lia. Qed.

Section envelope_laws.
Context {A : AEAD} {HA : AEADLaws A}.

Lemma Encrypt_ok rnd k p :
  key_ok k → rand_ok rnd → 0 < slen p ≤ MaxSecretSize →
  ∃ env, Encrypt rnd {| masterKey := k |} p = Ok env.
Proof.
  intros [Hk _] (dk & n & kn & -> & Hd & Hn & Hkn) Hp. unfold Encrypt, encryptWithKey.
  rewrite (proj2 (Z.eqb_neq _ _)), (proj2 (Z.ltb_ge _ _)) by lia. simpl.
  rewrite !NewCipher_32 by done. eauto.
Qed.

(** What was encrypted is what decryption returns. *)
Lemma Decrypt_Encrypt rnd k p env :
  key_ok k → rand_ok rnd → Encrypt rnd {| masterKey := k |} p = Ok env →
  slen (env_nonce env) = NonceSize ∧ env_key env ≠ EmptyString ∧
  Decrypt {| masterKey := k |} (env_data env) (env_key env) (env_nonce env) = Ok p.
Proof.
  intros [Hk _] (dk & n & kn & -> & Hd & Hn & Hkn). unfold Encrypt, encryptWithKey. simpl.
  case_match; [done|]. case_match; [done|].
  rewrite !NewCipher_32 by done. intros [= <-]. simpl. split; [done|].
  pose proof (slen_pos _ (seal_nonempty dk n p)).
  pose proof (slen_pos _ (seal_nonempty (mk_Key k) kn dk)).
  assert (slen (kn +:+ seal (mk_Key k) kn dk) > NonceSize) as Hlen by (rewrite slen_app; lia).
  split; [intros Heq; rewrite Heq in Hlen; done|].
  unfold Decrypt. rewrite !(proj2 (Z.eqb_neq _ 0)) by (unfold NonceSize in *; lia).
  rewrite Hn, (proj2 (Z.ltb_ge _ _)) by lia. cbn [negb Z.eqb].
  assert (Z.to_nat NonceSize = String.length kn) as -> by (unfold slen in Hkn; lia).
  destruct (take_drop_app kn (seal (mk_Key k) kn dk)) as [-> ->].
  unfold decryptWithKey. simpl. rewrite NewCipher_32, open_seal by done.
  rewrite Hd. simpl. by rewrite NewCipher_32, open_seal.
Qed.

(** Envelope encryption round-trips: for a 32-byte master key and random
    bytes of the requested sizes, every non-empty value of at most 1 MiB is
    encrypted without an error, decryption under the same key returns it, and
    so does decryption under a new key after re-encryption. *)
Theorem envelope_roundtrip rnd rnd' k k' p :
  key_ok k → key_ok k' → rand_ok rnd → rand_ok rnd' → 0 < slen p ≤ MaxSecretSize →
  ∃ env env',
    Encrypt rnd {| masterKey := k |} p = Ok env ∧
    Decrypt {| masterKey := k |} (env_data env) (env_key env) (env_nonce env) = Ok p ∧
    ReEncryptWithNewKey rnd' (env_data env) (env_key env) (env_nonce env) k k' = Ok env' ∧
    Decrypt {| masterKey := k' |} (env_data env') (env_key env') (env_nonce env') = Ok p.
Proof.
  intros Hk Hk' Hr Hr' Hp.
  destruct (Encrypt_ok rnd k p Hk Hr Hp) as [env Henv].
  destruct (Encrypt_ok rnd' k' p Hk' Hr' Hp) as [env' Henv'].
  destruct (Decrypt_Encrypt rnd k p env Hk Hr Henv) as (_ & _ & Hdec).
  destruct (Decrypt_Encrypt rnd' k' p env' Hk' Hr' Henv') as (_ & _ & Hdec').
  exists env, env'. split; [done|]. split; [done|]. split; [|done].
  unfold ReEncryptWithNewKey. by rewrite !NewEnvelopeEncryptor_ok, Hdec, Henv'.
Qed.

End envelope_laws.

(** ** A transparent cipher that satisfies the laws *)

Definition clear_cipher : AEAD := {|
  seal := fun k n p => "#" +:+ k +:+ n +:+ p;
  open := fun k n c => strip_prefix ("#" +:+ k +:+ n) c
|}.

#[export] Instance clear_cipher_laws : AEADLaws clear_cipher.
Proof.
  split.
  - intros k n p. apply strip_prefix_spec. unfold seal, clear_cipher. by rewrite !string_app_assoc.
  - intros k n p. unfold seal, clear_cipher. by simpl_append.
Qed.

Definition sample_key (c : ascii) : MasterKey :=
  {| mk_ID := "k"; mk_Algorithm := AlgorithmAES256GCM;
     mk_Key := String c "0123456789012345678901234567890"; mk_Active := true; mk_CreatedAt := 0;
     mk_RotatedAt := 0 |}.

Lemma sample_key_ok c : key_ok (sample_key c).
Proof. by split. Qed.

Definition sample_rand : Randomness :=
  {| rnd_dataKey := Some "abcdefghijklmnopqrstuvwxyzabcdef"%string;
     rnd_nonce := Some "0123456789ab"%string; rnd_keyNonce := Some "cdefghijklmn"%string |}.

Lemma sample_rand_ok : rand_ok sample_rand.
Proof. by repeat eexists. Qed.

Lemma envelope_roundtrip_witness :
  ∃ env env',
    @Encrypt clear_cipher sample_rand {| masterKey := sample_key "a" |} "hello" = Ok env ∧
    @Decrypt clear_cipher {| masterKey := sample_key "a" |} (env_data env) (env_key env)
      (env_nonce env) = Ok "hello"%string ∧
    @ReEncryptWithNewKey clear_cipher sample_rand (env_data env) (env_key env) (env_nonce env)
      (sample_key "a") (sample_key "b") = Ok env' ∧
    @Decrypt clear_cipher {| masterKey := sample_key "b" |} (env_data env') (env_key env')
      (env_nonce env') = Ok "hello"%string.
Proof.
  apply (@envelope_roundtrip clear_cipher clear_cipher_laws sample_rand sample_rand
    (sample_key "a") (sample_key "b") "hello"); try apply sample_key_ok; try apply sample_rand_ok.
  by vm_compute.
Defined.
