(* ===== verification/SecretTokens.v ===== *)
(** * Access tokens of secrets (pkg/secrets/token.go)

    The JSON web token library is an interface: [sign] and [parse], where
    [parse] includes the library's own checks of the signature, of the
    signing method and of the validity period at the time it is called.
    [uuid.New] and the clock are arguments.  [ValidateToken] reads the clock
    up to three times, inside [parse], for the expiry and for [LastUsedAt]. *)

From S2P Require Import Prelude GoText.
From stdpp Require Import relations.
Local Open Scope Z_scope.

Definition DefaultTokenTTL : Z := 15 * minute.
Definition MaxTokenTTL : Z := 24 * hour.

(** [SecretTokenClaims] with its embedded registered claims; the dates are
    truncated to seconds, as [jwt.NewNumericDate] does. *)
Record SecretTokenClaims := {
  cl_SecretRef : string;
  cl_Audience : string;
  cl_TokenID : string;
  cl_ID : string;
  cl_Issuer : string;
  cl_Subject : string;
  cl_Aud : list string;
  cl_ExpiresAt : Z;
  cl_NotBefore : Z;
  cl_IssuedAt : Z
}.

Class JWT : Type := {
  sign : string → SecretTokenClaims → result string string;
  parse : Z → string → string → result string SecretTokenClaims
}.

Record SecretAccessToken := {
  tok_ID : string;
  tok_SecretRef : string;
  tok_Audience : string;
  tok_IssuedAt : Z;
  tok_ExpiresAt : Z;
  tok_Token : string;
  tok_UsesRemaining : Z;
  tok_LastUsedAt : Z
}.

Record TokenManager := {
  signingKey : string;
  tokens : gmap string SecretAccessToken
}.

Definition with_tokens (tm : TokenManager) (ts : gmap string SecretAccessToken) : TokenManager :=
  {| signingKey := signingKey tm; tokens := ts |}.

Definition NewTokenManager (key : string) : result string TokenManager :=
  if key =?s "" then Err "signing key is required"%string
  else Ok {| signingKey := key; tokens := ∅ |}.

Definition numeric_date (t : Z) : Z := t / second * second.

(** One use less, at [now]. *)
Definition use_once (tok : SecretAccessToken) (now : Z) : SecretAccessToken := {|
  tok_ID := tok_ID tok; tok_SecretRef := tok_SecretRef tok; tok_Audience := tok_Audience tok;
  tok_IssuedAt := tok_IssuedAt tok; tok_ExpiresAt := tok_ExpiresAt tok;
  tok_Token := tok_Token tok; tok_UsesRemaining := int64 (tok_UsesRemaining tok - 1);
  tok_LastUsedAt := now |}.

Section tokens.
Context `{JWT}.

Definition claims_for (secretRef audience tokenID : string) (now expiresAt : Z)
    : SecretTokenClaims := {|
  cl_SecretRef := secretRef; cl_Audience := audience; cl_TokenID := tokenID; cl_ID := tokenID;
  cl_Issuer := "cloudless-secrets"; cl_Subject := audience; cl_Aud := [audience];
  cl_ExpiresAt := numeric_date expiresAt; cl_NotBefore := numeric_date now;
  cl_IssuedAt := numeric_date now |}.

Definition GenerateToken (tokenID : string) (now : Z) (tm : TokenManager)
    (secretRef audience : string) (ttl maxUses : Z)
    : TokenManager * result string SecretAccessToken :=
  if secretRef =?s "" then (tm, Err "secret reference is required"%string)
  else if audience =?s "" then (tm, Err "audience is required"%string)
  else
    let ttl := if ttl <=? 0 then DefaultTokenTTL else ttl in
    if MaxTokenTTL <? ttl then (tm, Err "TTL cannot exceed 24h0m0s"%string)
    else
      let expiresAt := now + ttl in
      match sign (signingKey tm) (claims_for secretRef audience tokenID now expiresAt) with
      | Err err => (tm, Err ("failed to sign token: " +:+ err))
      | Ok tokenString =>
          let accessToken := {|
            tok_ID := tokenID; tok_SecretRef := secretRef; tok_Audience := audience;
            tok_IssuedAt := now; tok_ExpiresAt := expiresAt; tok_Token := tokenString;
            tok_UsesRemaining := maxUses; tok_LastUsedAt := zero_time |} in
          (with_tokens tm (<[tokenID := accessToken]> (tokens tm)), Ok accessToken)
      end.

(** The three clock readings of [ValidateToken]. *)
Record Readings := { at_parse : Z; at_check : Z; at_use : Z }.

Definition ValidateToken (r : Readings) (tm : TokenManager)
    (tokenString secretRef audience : string) : TokenManager * result string SecretTokenClaims :=
  if tokenString =?s "" then (tm, Err "token is required"%string)
  else match parse (at_parse r) (signingKey tm) tokenString with
  | Err err => (tm, Err ("token validation failed: " +:+ err))
  | Ok claims =>
      if negb (cl_SecretRef claims =?s secretRef) then
        (tm, Err ("token secret reference mismatch: expected " +:+ secretRef +:+ ", got "
                  +:+ cl_SecretRef claims))
      else if negb (cl_Audience claims =?s audience) then
        (tm, Err ("token audience mismatch: expected " +:+ audience +:+ ", got "
                  +:+ cl_Audience claims))
      else match tokens tm !! cl_TokenID claims with
      | None => (tm, Err "token not found in tracking system"%string)
      | Some tracked =>
          if tok_ExpiresAt tracked <? at_check r then (tm, Err "token has expired"%string)
          else if tok_UsesRemaining tracked =? 0 then
            (tm, Err "token has no remaining uses"%string)
          else if 0 <? tok_UsesRemaining tracked then
            (with_tokens tm (<[cl_TokenID claims := use_once tracked (at_use r)]> (tokens tm)),
             Ok claims)
          else (tm, Ok claims)
      end
  end.

Definition RevokeToken (tm : TokenManager) (tokenID : string) : TokenManager * option string :=
  if tokenID =?s "" then (tm, Some "token ID is required"%string)
  else match tokens tm !! tokenID with
  | None => (tm, Some ("token not found: " +:+ tokenID))
  | Some _ => (with_tokens tm (delete tokenID (tokens tm)), None)
  end.

Context `{GoRange}.

(** A loop that deletes the tokens that satisfy [p] and counts them. *)
Definition delete_where (p : SecretAccessToken → bool) (tm : TokenManager) : TokenManager * Z :=
  foldl (fun '(g, count) kt =>
    if p kt.2 then (with_tokens g (delete kt.1 (tokens g)), int64 (count + 1)) else (g, count))
    (tm, 0) (range_map (tokens tm)).

Definition RevokeTokensForSecret (tm : TokenManager) (secretRef : string) : TokenManager * Z :=
  delete_where (fun t => tok_SecretRef t =?s secretRef) tm.

Definition CleanupExpiredTokens (now : Z) (tm : TokenManager) : TokenManager * Z :=
  delete_where (fun t => (tok_ExpiresAt t <? now) || (tok_UsesRemaining t =? 0)) tm.

Definition active (now : Z) (t : SecretAccessToken) : bool :=
  (now <? tok_ExpiresAt t) && negb (tok_UsesRemaining t =? 0).

Definition GetActiveTokens (now : Z) (tm : TokenManager) : list SecretAccessToken :=
  List.filter (active now) (range_map (tokens tm)).*2.

Definition GetTokensForSecret (now : Z) (tm : TokenManager) (secretRef : string)
    : list SecretAccessToken :=
  List.filter (fun t => (tok_SecretRef t =?s secretRef) && active now t) (range_map (tokens tm)).*2.

(** The counters of [GetTokenStats]. *)
Record TokenStats := { st_total : Z; st_active : Z; st_expired : Z; st_used_up : Z }.

Definition add_token_stats (now : Z) (s : TokenStats) (t : SecretAccessToken) : TokenStats :=
  if tok_ExpiresAt t <? now then
    {| st_total := st_total s; st_active := st_active s; st_expired := int64 (st_expired s + 1);
       st_used_up := st_used_up s |}
  else if tok_UsesRemaining t =? 0 then
    {| st_total := st_total s; st_active := st_active s; st_expired := st_expired s;
       st_used_up := int64 (st_used_up s + 1) |}
  else
    {| st_total := st_total s; st_active := int64 (st_active s + 1); st_expired := st_expired s;
       st_used_up := st_used_up s |}.

Definition GetTokenStats (now : Z) (tm : TokenManager) : TokenStats :=
  foldl (add_token_stats now)
    {| st_total := Z.of_nat (size (tokens tm)); st_active := 0; st_expired := 0; st_used_up := 0 |}
    (range_map (tokens tm)).*2.

End tokens.

(** ** Acceptance *)

Section acceptance.
Context `{JWT}.

(** A presented token is accepted: exactly the conditions of the code. *)
Definition accepted (r : Readings) (tm : TokenManager) (tokenString secretRef audience : string)
    (claims : SecretTokenClaims) (tracked : SecretAccessToken) : Prop :=
  tokenString ≠ EmptyString ∧
  parse (at_parse r) (signingKey tm) tokenString = Ok claims ∧
  cl_SecretRef claims = secretRef ∧ cl_Audience claims = audience ∧
  tokens tm !! cl_TokenID claims = Some tracked ∧
  at_check r ≤ tok_ExpiresAt tracked ∧ tok_UsesRemaining tracked ≠ 0.

(** The tokens after an accepted use. *)
Definition after_use (r : Readings) (tm : TokenManager) (claims : SecretTokenClaims)
    (tracked : SecretAccessToken) : TokenManager :=
  if 0 <? tok_UsesRemaining tracked
  then with_tokens tm (<[cl_TokenID claims := use_once tracked (at_use r)]> (tokens tm)) else tm.

Lemma ValidateToken_ok r tm t ref aud tm' claims :
  ValidateToken r tm t ref aud = (tm', Ok claims) ↔
  ∃ tracked, accepted r tm t ref aud claims tracked ∧ tm' = after_use r tm claims tracked.
Proof.
  unfold ValidateToken, accepted, after_use. split.
  - destruct (bool_decide _) eqn:H1; [done|].
    destruct (parse _ _ _) as [c|] eqn:H2; [|done].
    destruct (negb _) eqn:H3; [done|]. destruct (negb (_ =?s aud)) eqn:H4; [done|].
    destruct (tokens tm !! cl_TokenID c) as [tracked|] eqn:H5; [|done].
    destruct (_ <? at_check r) eqn:H6; [done|]. destruct (_ =? 0) eqn:H7; [done|].
    bool_to_prop. intros Hv. exists tracked.
    destruct (0 <? tok_UsesRemaining tracked); simplify_eq/=; auto 10.
  - intros (tracked & (Ht & -> & <- & <- & -> & He & Hu) & ->).
    rewrite !bool_decide_eq_false_2, !bool_decide_eq_true_2 by done. simpl.
    rewrite (proj2 (Z.ltb_ge _ _)), (proj2 (Z.eqb_neq _ _)) by done. by case_match.
Qed.

Lemma ValidateToken_err r tm t ref aud tm' e :
  ValidateToken r tm t ref aud = (tm', Err e) → tm' = tm.
Proof. unfold ValidateToken. intros. by case_all. Qed.

End acceptance.

(** ** Deleting tokens *)

Lemma delete_loop (p : SecretAccessToken → bool) (l : list (string * SecretAccessToken)) tm n :
  NoDup l.*1 →
  let r := foldl (fun '((g, count) : TokenManager * Z) kt => if p kt.2
    then (with_tokens g (delete kt.1 (tokens g)), int64 (count + 1)) else (g, count)) (tm, n) l in
  signingKey r.1 = signingKey tm ∧
  ∀ k, tokens r.1 !! k =
    match (list_to_map l : gmap string SecretAccessToken) !! k with
    | Some t => if p t then None else tokens tm !! k
    | None => tokens tm !! k
    end.
Proof.
  intros Hnd. revert tm n. induction l as [|[j t] l IH]; intros tm n; csimpl; [done|].
  apply NoDup_cons in Hnd as [Hj Hnd].
  assert ((list_to_map l : gmap string SecretAccessToken) !! j = None) as Hlj
    by (by apply not_elem_of_list_to_map_1).
  destruct (p t) eqn:Hp.
  - destruct (IH Hnd (with_tokens tm (delete j (tokens tm))) (int64 (n + 1))) as [Hs Hk].
    split; [done|]. intros k. rewrite Hk. simpl. destruct (decide (k = j)) as [->|Hne].
    + by rewrite Hlj, lookup_insert_eq, Hp, lookup_delete_eq.
    + by rewrite lookup_insert_ne, lookup_delete_ne.
  - destruct (IH Hnd tm n) as [Hs Hk]. split; [done|]. intros k. rewrite Hk.
    destruct (decide (k = j)) as [->|Hne].
    + by rewrite Hlj, lookup_insert_eq, Hp.
    + by rewrite lookup_insert_ne.
Qed.

Lemma delete_where_spec `{GoRange} p tm :
  signingKey (delete_where p tm).1 = signingKey tm ∧
  ∀ k, tokens (delete_where p tm).1 !! k =
    match tokens tm !! k with Some t => if p t then None else Some t | None => None end.
Proof.
  assert (NoDup (range_map (tokens tm)).*1) as Hnd
    by (rewrite range_map_perm; apply NoDup_fst_map_to_list).
  assert ((list_to_map (range_map (tokens tm)) : gmap string SecretAccessToken) = tokens tm) as Hl.
  { apply map_eq. intros k. apply option_eq. intros a.
    rewrite <-elem_of_list_to_map by done. apply elem_of_range_map. }
  destruct (delete_loop p (range_map (tokens tm)) tm 0 Hnd) as [Hs Hk].
  split; [done|]. intros k. unfold delete_where. rewrite Hk, Hl. by destruct (tokens tm !! k).
Qed.

(** ** Histories of a token manager *)

Inductive event : Type :=
| Issued (id : string) (maxUses : Z)
| Used (id : string)
| Other.

Inductive tstep `{JWT, GoRange} : TokenManager → event → TokenManager → Prop :=
| ts_generate id now tm ref aud ttl n tm' tok :
    in_int64 n → GenerateToken id now tm ref aud ttl n = (tm', Ok tok) →
    tstep tm (Issued id n) tm'
| ts_generate_fails id now tm ref aud ttl n tm' e :
    GenerateToken id now tm ref aud ttl n = (tm', Err e) → tstep tm Other tm'
| ts_validate r tm t ref aud tm' claims :
    ValidateToken r tm t ref aud = (tm', Ok claims) → tstep tm (Used (cl_TokenID claims)) tm'
| ts_refuse r tm t ref aud tm' e :
    ValidateToken r tm t ref aud = (tm', Err e) → tstep tm Other tm'
| ts_revoke tm id : tstep tm Other (RevokeToken tm id).1
| ts_revoke_secret tm ref : tstep tm Other (RevokeTokensForSecret tm ref).1
| ts_cleanup now tm : tstep tm Other (CleanupExpiredTokens now tm).1.

(** A history, newest event first. *)
Inductive history `{JWT, GoRange} (key : string) : list event → TokenManager → Prop :=
| h_new tm : NewTokenManager key = Ok tm → history key [] tm
| h_step evs tm ev tm' : history key evs tm → tstep tm ev tm' → history key (ev :: evs) tm'.

Definition used (id : string) (evs : list event) : Z :=
  len (List.filter (fun e => match e with Used i => i =?s id | _ => false end) evs).

Definition issued_ids (evs : list event) : list string :=
  flat_map (fun e => match e with Issued i _ => [i] | _ => [] end) evs.

Lemma issued_ids_spec id evs : id ∈ issued_ids evs ↔ ∃ n, Issued id n ∈ evs.
Proof.
  unfold issued_ids. rewrite list_elem_of_In, in_flat_map. split.
  - intros (e & He & Hi). apply list_elem_of_In in He. destruct e; simpl in Hi; [|done|done].
    destruct Hi as [->|[]]. eauto.
  - intros (n & Hn). exists (Issued id n). rewrite <-list_elem_of_In. simpl. auto.
Qed.

(** What holds of one identifier: a tracked token has as many uses left as
    it was issued with, less the uses so far. *)
Record id_inv (evs : list event) (tm : TokenManager) (id : string) : Prop := {
  inv_tracked : ∀ tok, tokens tm !! id = Some tok →
    ∃ n, Issued id n ∈ evs ∧ in_int64 n ∧ (n < 0 → tok_UsesRemaining tok < 0) ∧
      (0 ≤ n → 0 ≤ tok_UsesRemaining tok ∧ tok_UsesRemaining tok + used id evs = n);
  inv_bound : ∀ n, Issued id n ∈ evs → 0 ≤ n → used id evs ≤ n;
  inv_fresh : id ∉ issued_ids evs → used id evs = 0
}.

Lemma used_cons e id evs :
  used id (e :: evs) = used id evs + match e with Used i => if i =?s id then 1 else 0 | _ => 0 end.
Proof. unfold used, len. simpl. destruct e; simpl; [lia| |lia]. case_match; simpl; lia. Qed.

(** An event that says nothing about [id] keeps its invariant when its token
    is unchanged or gone. *)
Lemma id_inv_other evs tm tm' id e :
  (∀ n, e ≠ Issued id n) → e ≠ Used id →
  tokens tm' !! id = tokens tm !! id ∨ tokens tm' !! id = None →
  id_inv evs tm id → id_inv (e :: evs) tm' id.
Proof.
  intros He1 He2 Htok [Ht Hb Hf].
  assert (used id (e :: evs) = used id evs) as Hu.
  { rewrite used_cons. destruct e; try lia. rewrite bool_decide_eq_false_2; [lia|].
    intros ->. by apply He2. }
  split; rewrite ?Hu.
  - intros tok Hk. destruct Htok as [Hsame|Hgone]; [|by rewrite Hgone in Hk].
    rewrite Hsame in Hk. destruct (Ht tok Hk) as (n & Hn & Hr). exists n. split; [by right|done].
  - intros n [Hn|Hn]%elem_of_cons; [by destruct (He1 n)|]. by apply Hb.
  - intros Hnot. apply Hf. intros (n & Hn)%issued_ids_spec. apply Hnot, issued_ids_spec.
    exists n. by right.
Qed.

Lemma id_inv_issue evs tm tm' id n tok :
  in_int64 n → id ∉ issued_ids evs → tokens tm' !! id = Some tok → tok_UsesRemaining tok = n →
  id_inv evs tm id → id_inv (Issued id n :: evs) tm' id.
Proof.
  intros Hr Hfresh Htok Hn [Ht Hb Hf]. specialize (Hf Hfresh).
  split; rewrite ?used_cons, ?Hf.
  - intros tok' Hk. rewrite Htok in Hk. injection Hk as <-. exists n.
    split; [left|]. split; [done|]. lia.
  - intros m [Hm|Hm]%elem_of_cons Hpos; [lia|]. destruct Hfresh. apply issued_ids_spec. eauto.
  - intros Hnot. destruct Hnot. apply issued_ids_spec. exists n. left.
Qed.

Lemma issued_unique id n m evs :
  NoDup (issued_ids evs) → Issued id n ∈ evs → Issued id m ∈ evs → n = m.
Proof.
  induction evs as [|e evs IH]; intros Hnd Hn Hm; [by apply elem_of_nil in Hn|].
  assert (NoDup (issued_ids evs)) as Hnd'
    by (unfold issued_ids in Hnd; simpl in Hnd; by apply NoDup_app in Hnd as (_ & _ & ?)).
  apply elem_of_cons in Hn as [Hn|Hn], Hm as [Hm|Hm]; [congruence| | |by apply IH].
  - subst e. apply NoDup_app in Hnd as (_ & Hd & _). destruct (Hd id); [left|].
    apply issued_ids_spec. eauto.
  - subst e. apply NoDup_app in Hnd as (_ & Hd & _). destruct (Hd id); [left|].
    apply issued_ids_spec. eauto.
Qed.

Lemma id_inv_use evs tm tm' id tok :
  NoDup (issued_ids evs) → tokens tm !! id = Some tok → tok_UsesRemaining tok ≠ 0 →
  (0 < tok_UsesRemaining tok → ∃ now, tokens tm' !! id = Some (use_once tok now)) →
  (tok_UsesRemaining tok < 0 → tokens tm' !! id = Some tok) →
  id_inv evs tm id → id_inv (Used id :: evs) tm' id.
Proof.
  intros Hnd Htok Hne Hpos Hneg [Ht Hb Hf].
  destruct (Ht tok Htok) as (n & Hn & Hr & Hn0 & Hn1).
  assert (used id (Used id :: evs) = used id evs + 1) as Hu
    by (rewrite used_cons, bool_decide_eq_true_2 by done; lia).
  split; rewrite ?Hu.
  - intros tok' Htok'. exists n. split; [by right|]. split; [done|].
    destruct (decide (0 < tok_UsesRemaining tok)) as [Hp|Hp].
    + destruct (Hpos Hp) as [now Hnow]. rewrite Hnow in Htok'. injection Htok' as <-. simpl.
      assert (0 ≤ n) by lia. destruct (Hn1 ltac:(done)) as [_ Hsum].
      assert (0 ≤ used id evs) by (unfold used, len; lia). unfold in_int64 in Hr.
      rewrite int64_id by (unfold in_int64; lia). lia.
    + rewrite Hneg in Htok' by lia. injection Htok' as <-. lia.
  - intros m [Hm|Hm]%elem_of_cons Hm0; [done|].
    assert (m = n) as -> by (by eapply issued_unique). lia.
  - intros Hnot. destruct Hnot. apply issued_ids_spec. exists n. by right.
Qed.

Section histories.
Context `{JWT, GoRange}.

Lemma GenerateToken_ok id now tm ref aud ttl n tm' tok :
  GenerateToken id now tm ref aud ttl n = (tm', Ok tok) →
  tokens tm' = <[id := tok]> (tokens tm) ∧ signingKey tm' = signingKey tm ∧
  tok_UsesRemaining tok = n ∧ tok_SecretRef tok = ref ∧ tok_Audience tok = aud ∧
  now < tok_ExpiresAt tok ≤ now + MaxTokenTTL ∧
  sign (signingKey tm) (claims_for ref aud id now (tok_ExpiresAt tok)) = Ok (tok_Token tok).
Proof.
  unfold GenerateToken. intros Hg.
  case_all; bool_to_prop; unfold DefaultTokenTTL, MaxTokenTTL, hour, minute, second in *;
    repeat split; (done || lia).
Qed.

Lemma GenerateToken_err id now tm ref aud ttl n tm' e :
  GenerateToken id now tm ref aud ttl n = (tm', Err e) → tm' = tm.
Proof. unfold GenerateToken. intros. by case_all. Qed.

(** Operations other than issuing and using keep a token or remove it. *)
Lemma delete_where_or p tm id :
  tokens (delete_where p tm).1 !! id = tokens tm !! id ∨ tokens (delete_where p tm).1 !! id = None.
Proof.
  rewrite (proj2 (delete_where_spec p tm)). destruct (tokens tm !! id); [case_match|]; auto.
Qed.

Lemma RevokeToken_or tm id id' :
  tokens (RevokeToken tm id').1 !! id = tokens tm !! id ∨ tokens (RevokeToken tm id').1 !! id = None.
Proof.
  unfold RevokeToken. case_match; [by left|]. case_match; [|by left]. simpl.
  destruct (decide (id = id')) as [->|Hne]; [right; apply lookup_delete_eq|left].
  by apply lookup_delete_ne.
Qed.

Lemma tstep_inv evs tm e tm' id :
  NoDup (issued_ids (e :: evs)) → (∀ i, id_inv evs tm i) → tstep tm e tm' → id_inv (e :: evs) tm' id.
Proof.
  intros Hnd Hinv Hstep.
  assert (NoDup (issued_ids evs)) as Hnd'
    by (unfold issued_ids in Hnd; simpl in Hnd; by apply NoDup_app in Hnd as (_ & _ & ?)).
  destruct Hstep as [i now tm ref aud ttl n tm' tok Hn Hg|i now tm ref aud ttl n tm' e Hg
    |r tm t ref aud tm' claims Hv|r tm t ref aud tm' e Hv|tm i|tm ref|now tm].
  - apply GenerateToken_ok in Hg as (Ht & _ & Hu & _). apply NoDup_cons in Hnd as [Hi _].
    destruct (decide (i = id)) as [->|Hne].
    + eapply id_inv_issue; [done|done|by rewrite Ht, lookup_insert_eq|done|apply Hinv].
    + eapply id_inv_other; [congruence|done| |apply Hinv]. left. by rewrite Ht, lookup_insert_ne.
  - apply GenerateToken_err in Hg as ->. eapply id_inv_other; [done|done|by left|apply Hinv].
  - apply ValidateToken_ok in Hv as (tracked & (_ & _ & _ & _ & Htok & _ & Hne) & ->).
    unfold after_use. destruct (decide (cl_TokenID claims = id)) as [<-|Hid].
    + eapply id_inv_use; [done|exact Htok|done| | |apply Hinv].
      * intros Hp. rewrite (proj2 (Z.ltb_lt _ _) Hp). exists (at_use r). apply lookup_insert_eq.
      * intros Hp. by rewrite (proj2 (Z.ltb_ge _ _)) by lia.
    + eapply id_inv_other; [done|congruence| |apply Hinv]. left.
      case_match; [|done]. by apply lookup_insert_ne.
  - apply ValidateToken_err in Hv as ->. eapply id_inv_other; [done|done|by left|apply Hinv].
  - eapply id_inv_other; [done|done|apply RevokeToken_or|apply Hinv].
  - eapply id_inv_other; [done|done|apply delete_where_or|apply Hinv].
  - eapply id_inv_other; [done|done|apply delete_where_or|apply Hinv].
Qed.

Lemma history_inv key evs tm :
  history key evs tm → NoDup (issued_ids evs) → ∀ id, id_inv evs tm id.
Proof.
  induction 1 as [tm Hnew|evs tm e tm' Hh IH Hstep]; intros Hnd id.
  - unfold NewTokenManager in Hnew. case_match; [done|]. injection Hnew as <-.
    split; simpl; [done|by intros ? ?%elem_of_nil|done].
  - eapply tstep_inv; [done| |done]. apply IH.
    unfold issued_ids in *. simpl in Hnd. by apply NoDup_app in Hnd as (_ & _ & ?).
Qed.

(** In every history of operations one after the other, a token issued
    for at most [n] uses is accepted at most [n] times, whatever strings,
    secrets and audiences are presented, when token identifiers are unique. *)
Theorem token_uses_bounded key evs tm id n :
  history key evs tm → NoDup (issued_ids evs) → Issued id n ∈ evs → 0 ≤ n → used id evs ≤ n.
Proof. intros Hh Hnd. by apply (history_inv key evs tm Hh Hnd id). Qed.

(** After the tokens of a secret are revoked, every token that was issued
    for it is refused at every time and for every audience, and the tokens of
    other secrets are tracked as before.  The tokens of the library are
    authentic (a parsed token was signed with the key) and a signed string
    stands for one set of claims. *)
Theorem revoked_tokens_refused
    (authentic : ∀ now key t c, parse now key t = Ok c → sign key c = Ok t)
    (unambiguous : ∀ key c c' t, sign key c = Ok t → sign key c' = Ok t → c = c')
    id now tm0 ref aud ttl n tm tok r ref' aud' :
  GenerateToken id now tm0 ref aud ttl n = (tm, Ok tok) →
  let tm' := (RevokeTokensForSecret tm ref).1 in
  is_ok (ValidateToken r tm' (tok_Token tok) ref' aud').2 = false ∧
  ∀ id' tok', tokens tm !! id' = Some tok' → tok_SecretRef tok' ≠ ref →
    tokens tm' !! id' = Some tok'.
Proof.
  intros Hg. apply GenerateToken_ok in Hg as (Ht & Hkey & _ & Href & _ & _ & Hsign).
  destruct (delete_where_spec (fun t => tok_SecretRef t =?s ref) tm) as [Hk Hd]. cbn zeta. split.
  - destruct (ValidateToken _ _ _ _ _) as [tm2 [claims|e]] eqn:Hv; [exfalso|done].
    apply ValidateToken_ok in Hv as (tracked & (_ & Hp & _ & _ & Htok & _) & _).
    apply authentic in Hp. unfold RevokeTokensForSecret in Hp, Htok. rewrite Hk, Hkey in Hp.
    assert (cl_TokenID claims = id) as Hid by (by rewrite (unambiguous _ _ _ _ Hp Hsign)).
    rewrite Hid, Hd, Ht, lookup_insert_eq, Href in Htok.
    by rewrite bool_decide_eq_true_2 in Htok.
  - intros id' tok' Hin Hne. unfold RevokeTokensForSecret. rewrite Hd, Hin.
    by rewrite bool_decide_eq_false_2.
Qed.

End histories.

(** ** Concurrent validation

    [GetSecret] validates tokens under the read lock, so several validations
    of one token interleave.  Each thread tests the counter twice and then
    decrements it, in three separate accesses. *)

Inductive pc : Type := Enter | NonZero | Positive | Accepted | Refused.

(** One access of a thread to the shared counter. *)
Definition access (uses : Z) (p : pc) : Z * pc :=
  match p with
  | Enter => if uses =? 0 then (uses, Refused) else (uses, NonZero)
  | NonZero => if 0 <? uses then (uses, Positive) else (uses, Accepted)
  | Positive => (int64 (uses - 1), Accepted)
  | Accepted | Refused => (uses, p)
  end.

Definition race_state : Type := Z * list pc.

Inductive race_step : race_state → race_state → Prop :=
| rs_access uses ps i p :
    ps !! i = Some p → race_step (uses, ps) ((access uses p).1, <[i := (access uses p).2]> ps).

(** A thread that runs alone behaves as [ValidateToken] does on the counter. *)
Lemma thread_alone uses :
  let '(u1, p1) := access uses Enter in
  let '(u2, p2) := access u1 p1 in
  let '(u3, p3) := access u2 p2 in
  p3 = (if uses =? 0 then Refused else Accepted) ∧
  u3 = (if 0 <? uses then int64 (uses - 1) else uses).
Proof.
  simpl. destruct (uses =? 0) eqn:E0; bool_to_prop; simpl.
  - by subst.
  - destruct (0 <? uses) eqn:E1; by simpl; rewrite ?E1.
Qed.

Lemma race_at uses ps i p uses' p' :
  ps !! i = Some p → access uses p = (uses', p') → race_step (uses, ps) (uses', <[i := p']> ps).
Proof. intros Hi Ha. pose proof (rs_access uses ps i p Hi) as Hs. by rewrite Ha in Hs. Qed.

(** Two validations of a single-use token that interleave are both
    accepted, and they leave the counter at -1, which means unlimited: every
    later validation of the token is accepted too. *)
Theorem single_use_token_race :
  rtc race_step (1, [Enter; Enter]) (-1, [Accepted; Accepted]) ∧
  ∀ k : nat, rtc race_step (-1, replicate k Enter) (-1, replicate k Accepted).
Proof.
  split.
  - eapply rtc_l; [apply (race_at 1 [Enter; Enter] 0 Enter 1 NonZero); done|].
    eapply rtc_l; [apply (race_at 1 [NonZero; Enter] 1 Enter 1 NonZero); done|].
    eapply rtc_l; [apply (race_at 1 [NonZero; NonZero] 0 NonZero 1 Positive); done|].
    eapply rtc_l; [apply (race_at 1 [Positive; NonZero] 1 NonZero 1 Positive); done|].
    eapply rtc_l; [apply (race_at 1 [Positive; Positive] 0 Positive 0 Accepted); done|].
    eapply rtc_l; [apply (race_at 0 [Accepted; Positive] 1 Positive (-1) Accepted); done|].
    apply rtc_refl.
  - intros k.
    assert (∀ j l, rtc race_step (-1, l ++ replicate j Enter) (-1, l ++ replicate j Accepted)) as Hj;
      [|apply (Hj k [])].
    induction j as [|j IH]; intros l; [apply rtc_refl|]. cbn [replicate].
    eapply rtc_l; [apply (race_at (-1) _ (length l) Enter (-1) NonZero); [by rewrite list_lookup_middle|done]|].
    eapply rtc_l; [apply (race_at (-1) _ (length l) NonZero (-1) Accepted); [|done]|].
    { rewrite list_lookup_insert_eq; [done|]. rewrite length_app. simpl. lia. }
    rewrite list_insert_insert_eq.
    replace (<[length l := Accepted]> (l ++ Enter :: replicate j Enter))
      with ((l ++ [Accepted]) ++ replicate j Enter)
      by (rewrite insert_app_r_alt by lia; rewrite Nat.sub_diag; simpl; by rewrite <-app_assoc).
    replace (l ++ Accepted :: replicate j Accepted) with ((l ++ [Accepted]) ++ replicate j Accepted)
      by (by rewrite <-app_assoc).
    apply IH.
Qed.

(** ** Witnesses *)

#[export] Instance claims_eq_dec : EqDecision SecretTokenClaims.
Proof. solve_decision. Defined.

(** A library that signs and knows one set of claims. *)
Definition one_claims : SecretTokenClaims := claims_for "ns/db" "web" "id-1" 0 (60 * second).

Definition one_token : JWT := {|
  sign := fun key c => if decide (c = one_claims) then Ok "header.claims.mac"%string
                       else Err "unsupported"%string;
  parse := fun now key t => if decide (t = "header.claims.mac"%string) then Ok one_claims
                            else Err "signature is invalid"%string
|}.

Definition empty_manager : TokenManager := {| signingKey := "key"; tokens := ∅ |}.

Definition issue_one : TokenManager * result string SecretAccessToken :=
  @GenerateToken one_token "id-1" 0 empty_manager "ns/db" "web" (60 * second) 1.

Definition read_at (t : Z) : Readings := {| at_parse := t; at_check := t; at_use := t |}.

Definition use_one (tm : TokenManager) : TokenManager * result string SecretTokenClaims :=
  @ValidateToken one_token (read_at second) tm "header.claims.mac" "ns/db" "web".

(** The first use is accepted, the second refused. *)
Example one_use :
  (use_one issue_one.1).2 = Ok one_claims ∧
  (use_one (use_one issue_one.1).1).2 = Err "token has no remaining uses"%string.
Proof. split; reflexivity. Qed.

Lemma token_uses_bounded_witness : used "id-1" [Used "id-1"; Issued "id-1" 1] ≤ 1.
Proof.
  apply (@token_uses_bounded one_token range_canonical "key" [Used "id-1"; Issued "id-1" 1]
    (use_one issue_one.1).1 "id-1" 1).
  - eapply (h_step _ _ issue_one.1).
    + eapply (h_step _ _ empty_manager); [by apply h_new|].
      eapply (ts_generate "id-1" 0 _ "ns/db" "web" (60 * second) 1); [done|reflexivity].
    + apply (ts_validate (read_at second) _ "header.claims.mac" "ns/db" "web" _ one_claims).
      reflexivity.
  - simpl. apply NoDup_singleton.
  - in_list.
  - lia.
Defined.

Lemma revoked_tokens_refused_witness :
  is_ok (@ValidateToken one_token (read_at second)
    (@RevokeTokensForSecret range_canonical issue_one.1 "ns/db").1 "header.claims.mac"
    "ns/db" "web").2 = false.
Proof.
  refine (proj1 (@revoked_tokens_refused one_token range_canonical _ _ "id-1" 0 empty_manager
    "ns/db" "web" (60 * second) 1 issue_one.1 _ (read_at second) "ns/db" "web" eq_refl)).
  - intros now key t c. simpl. case_decide; [|done]. intros [= <-]. by rewrite decide_True; subst.
  - intros key c c' t. simpl. repeat case_decide; congruence.
Defined.
