(* ===== verification/Secrets.v ===== *)
(** * The secret manager and its stores (pkg/secrets/manager.go, store.go)

    The manager works on a store given by the class [SecretStore].  A store
    may hand out references to the secrets it holds: [st_mutate] is the effect
    on the store of changing such a secret in place, nothing for the
    in-memory store, which copies, and a change of the cached secret for the
    Raft-backed store.  Clock readings, random bytes and the answers of the
    consensus library are arguments. *)

From S2P Require Import Prelude GoText GoFloat RaftFSM SecretCrypto SecretTokens.

(** ** Secrets *)

(** A nil map or slice is [None] where the code tells it from an empty one. *)
Record Secret := {
  sec_Name : string;
  sec_Namespace : string;
  sec_Description : string;
  sec_Labels : gmap string string;
  sec_Annotations : option (gmap string string);
  sec_Data : gmap string string;
  sec_EncryptedDataKey : option string;
  sec_KeyID : string;
  sec_Algorithm : string;
  sec_Audiences : list string;
  sec_TTL : Z;
  sec_Version : Z;
  sec_Immutable : bool;
  sec_CreatedAt : Z;
  sec_UpdatedAt : Z;
  sec_RotatedAt : option Z;
  sec_ExpiresAt : option Z;
  sec_DeletedAt : option Z;
  sec_DeleteAfter : Z
}.

(** A Go map read: the zero value for a missing key or a nil map. *)
Definition annotation (s : Secret) (k : string) : option string :=
  default ∅ (sec_Annotations s) !! k.

(** Marshalling and unmarshalling again, for text that is valid UTF-8 and
    dates that RFC 3339 can write: an empty map that is omitted comes back as
    nil. *)
Definition json_copy (s : Secret) : Secret := {|
  sec_Name := sec_Name s; sec_Namespace := sec_Namespace s; sec_Description := sec_Description s;
  sec_Labels := sec_Labels s;
  sec_Annotations := match sec_Annotations s with
                     | Some a => if decide (a = ∅) then None else Some a
                     | None => None
                     end;
  sec_Data := sec_Data s; sec_EncryptedDataKey := sec_EncryptedDataKey s; sec_KeyID := sec_KeyID s;
  sec_Algorithm := sec_Algorithm s; sec_Audiences := sec_Audiences s; sec_TTL := sec_TTL s;
  sec_Version := sec_Version s; sec_Immutable := sec_Immutable s; sec_CreatedAt := sec_CreatedAt s;
  sec_UpdatedAt := sec_UpdatedAt s; sec_RotatedAt := sec_RotatedAt s;
  sec_ExpiresAt := sec_ExpiresAt s; sec_DeletedAt := sec_DeletedAt s;
  sec_DeleteAfter := sec_DeleteAfter s
|}.

Record SecretFilter := {
  sf_Namespace : string;
  sf_Labels : gmap string string;
  sf_Name : string;
  sf_Prefix : string;
  sf_Limit : Z;
  sf_Offset : Z
}.

Definition no_filter : SecretFilter :=
  {| sf_Namespace := ""; sf_Labels := ∅; sf_Name := ""; sf_Prefix := ""; sf_Limit := 0;
     sf_Offset := 0 |}.

(** ["%s/%s"] of namespace and name. *)
Definition secret_ref (namespace name : string) : string := namespace +:+ "/" +:+ name.

(** ** Stores *)

(** What the outside answers during one store call. *)
Record StoreEnv := { se_raft : raft_answer; se_now : Z }.

(** The interface of the manager's stores.  Neither store's [List] can fail,
    [Close] does nothing, and the manager never saves a nil secret. *)
Class SecretStore (S : Type) : Type := {
  st_Save : StoreEnv → S → Secret → S * option string;
  st_Get : StoreEnv → S → string → string → S * result string (option Secret);
  st_List : S → SecretFilter → list Secret;
  st_Delete : StoreEnv → S → string → string → S * option string;
  st_mutate : S → Secret → S
}.

Section stores.
Context `{GoRange}.

(** The filters of [List], the same in both stores. *)
Definition matches_filter (filter : SecretFilter) (secret : Secret) : bool :=
  if negb (sf_Namespace filter =?s "") && negb (sec_Namespace secret =?s sf_Namespace filter)
  then false
  else if negb (sf_Name filter =?s "") && negb (sec_Name secret =?s sf_Name filter) then false
  else if negb (sf_Prefix filter =?s "") && negb (HasPrefix (sec_Name secret) (sf_Prefix filter))
  then false
  else forallb (fun kv => default ""%string (sec_Labels secret !! kv.1) =?s kv.2)
         (range_map (sf_Labels filter)).

Definition limit_offset {A} (filter : SecretFilter) (secrets : list A) : list A :=
  let secrets :=
    if (0 <? sf_Offset filter) && (sf_Offset filter <? len secrets)
    then drop (Z.to_nat (sf_Offset filter)) secrets else secrets in
  if (0 <? sf_Limit filter) && (sf_Limit filter <? len secrets)
  then take (Z.to_nat (sf_Limit filter)) secrets else secrets.

(** *** The in-memory store *)

Record InMemorySecretStore := { secrets : gmap string Secret }.

Definition NewInMemorySecretStore : InMemorySecretStore := {| secrets := ∅ |}.

Definition mem_Save (e : StoreEnv) (s : InMemorySecretStore) (secret : Secret)
    : InMemorySecretStore * option string :=
  ({| secrets := <[secret_ref (sec_Namespace secret) (sec_Name secret) := json_copy secret]>
                   (secrets s) |}, None).

Definition mem_Get (e : StoreEnv) (s : InMemorySecretStore) (namespace name : string)
    : InMemorySecretStore * result string (option Secret) :=
  if (namespace =?s "") || (name =?s "") then (s, Err "namespace and name are required"%string)
  else (s, Ok (json_copy <$> secrets s !! secret_ref namespace name)).

Definition mem_List (s : InMemorySecretStore) (filter : SecretFilter) : list Secret :=
  limit_offset filter
    (json_copy <$> List.filter (matches_filter filter) (range_map (secrets s)).*2).

Definition mem_Delete (e : StoreEnv) (s : InMemorySecretStore) (namespace name : string)
    : InMemorySecretStore * option string :=
  if (namespace =?s "") || (name =?s "") then (s, Some "namespace and name are required"%string)
  else ({| secrets := delete (secret_ref namespace name) (secrets s) |}, None).

(** *** The Raft-backed store *)

(** The JSON encoding of a secret. *)
Class SecretCodec : Type := {
  marshal : Secret → string;
  unmarshal : string → option Secret
}.

Context `{SecretCodec}.

Record RaftSecretStore := { raftStore : Store; cache : gmap string Secret }.

Definition getKey (namespace name : string) : string := "secret/" +:+ namespace +:+ "/" +:+ name.

(** [loadCache] reads nothing from the Raft store. *)
Definition loadCache (s : RaftSecretStore) : RaftSecretStore := s.

Definition NewRaftSecretStore (r : option Store) : result string RaftSecretStore :=
  match r with
  | None => Err "raft store is required"%string
  | Some r => Ok (loadCache {| raftStore := r; cache := ∅ |})
  end.

(** [None] is a panic of the state machine, which a single command never
    causes. *)
Definition raft_Save (e : StoreEnv) (s : RaftSecretStore) (secret : Secret)
    : RaftSecretStore * option string :=
  let key := getKey (sec_Namespace secret) (sec_Name secret) in
  match Store_Set key (marshal secret) (se_raft e) (raftStore s) with
  | Some (r, None) => ({| raftStore := r; cache := <[key := secret]> (cache s) |}, None)
  | Some (r, Some err) =>
      ({| raftStore := r; cache := cache s |}, Some ("failed to store secret in RAFT: " +:+ err))
  | None => (s, None)
  end.

Definition raft_Get (e : StoreEnv) (s : RaftSecretStore) (namespace name : string)
    : RaftSecretStore * result string (option Secret) :=
  if (namespace =?s "") || (name =?s "") then (s, Err "namespace and name are required"%string)
  else
    let key := getKey namespace name in
    match cache s !! key with
    | Some cached => (s, Ok (Some cached))
    | None =>
        match Store_Get (se_now e) key (raftStore s) with
        | Err err => (s, Err ("failed to get secret from RAFT: " +:+ err))
        | Ok data =>
            if data =?s "" then (s, Ok None) else
            match unmarshal data with
            | None => (s, Err "failed to deserialize secret"%string)
            | Some secret =>
                ({| raftStore := raftStore s; cache := <[key := secret]> (cache s) |},
                 Ok (Some secret))
            end
        end
    end.

Definition raft_List (s : RaftSecretStore) (filter : SecretFilter) : list Secret :=
  limit_offset filter (List.filter (matches_filter filter) (range_map (cache s)).*2).

Definition raft_Delete (e : StoreEnv) (s : RaftSecretStore) (namespace name : string)
    : RaftSecretStore * option string :=
  if (namespace =?s "") || (name =?s "") then (s, Some "namespace and name are required"%string)
  else
    let key := getKey namespace name in
    match Store_Delete key (se_raft e) (raftStore s) with
    | Some (r, None) => ({| raftStore := r; cache := delete key (cache s) |}, None)
    | Some (r, Some err) =>
        ({| raftStore := r; cache := cache s |}, Some ("failed to delete secret from RAFT: " +:+ err))
    | None => (s, None)
    end.

(** The cached secret is the object the caller changed. *)
Definition raft_mutate (s : RaftSecretStore) (secret : Secret) : RaftSecretStore :=
  let key := getKey (sec_Namespace secret) (sec_Name secret) in
  match cache s !! key with
  | Some _ => {| raftStore := raftStore s; cache := <[key := secret]> (cache s) |}
  | None => s
  end.

End stores.

#[export] Instance in_memory_store `{GoRange} : SecretStore InMemorySecretStore := {|
  st_Save := mem_Save; st_Get := mem_Get; st_List := mem_List; st_Delete := mem_Delete;
  st_mutate := fun s _ => s
|}.

#[export] Instance raft_secret_store `{GoRange, SecretCodec} : SecretStore RaftSecretStore := {|
  st_Save := raft_Save; st_Get := raft_Get; st_List := raft_List; st_Delete := raft_Delete;
  st_mutate := raft_mutate
|}.

(** ** The manager *)

Definition SecretActionCreate : string := "create".
Definition SecretActionRead : string := "read".
Definition SecretActionUpdate : string := "update".
Definition SecretActionDelete : string := "delete".
Definition SecretActionRotate : string := "rotate".
Definition SecretActionAccess : string := "access".

(** [Metadata] holds at most the number of revoked tokens. *)
Record SecretAuditEntry := {
  ae_Timestamp : Z;
  ae_Action : string;
  ae_SecretRef : string;
  ae_Actor : string;
  ae_Audience : string;
  ae_Success : bool;
  ae_Reason : string;
  ae_TokensRevoked : option Z
}.

Record ManagerConfig := {
  mc_MasterKeyID : string;
  mc_MasterKey : string;
  mc_EnableAutoRotation : bool;
  mc_RotationInterval : Z;
  mc_TokenTTL : Z;
  mc_TokenSigningKey : string;
  mc_MaxTokenUsesDefault : Z;
  mc_DataDir : string;
  mc_EnableAuditLog : bool;
  mc_AuditRetention : Z
}.

Definition DefaultManagerConfig : ManagerConfig := {|
  mc_MasterKeyID := "default-master-key"; mc_MasterKey := "";
  mc_EnableAutoRotation := true; mc_RotationInterval := 90 * 24 * hour;
  mc_TokenTTL := 15 * minute; mc_TokenSigningKey := ""; mc_MaxTokenUsesDefault := 1;
  mc_DataDir := ""; mc_EnableAuditLog := true; mc_AuditRetention := 90 * 24 * hour
|}.

Record Manager (S : Type) := {
  m_config : ManagerConfig;
  m_encryptor : EnvelopeEncryptor;
  m_tokens : TokenManager;
  m_store : S;
  m_masterKey : MasterKey;
  m_audit : list SecretAuditEntry
}.
Arguments m_config {S} _.
Arguments m_encryptor {S} _.
Arguments m_tokens {S} _.
Arguments m_store {S} _.
Arguments m_masterKey {S} _.
Arguments m_audit {S} _.

Definition set_store {S} (m : Manager S) (s : S) : Manager S :=
  {| m_config := m_config m; m_encryptor := m_encryptor m; m_tokens := m_tokens m; m_store := s;
     m_masterKey := m_masterKey m; m_audit := m_audit m |}.

Definition set_tokens {S} (m : Manager S) (t : TokenManager) : Manager S :=
  {| m_config := m_config m; m_encryptor := m_encryptor m; m_tokens := t; m_store := m_store m;
     m_masterKey := m_masterKey m; m_audit := m_audit m |}.

Definition set_audit {S} (m : Manager S) (a : list SecretAuditEntry) : Manager S :=
  {| m_config := m_config m; m_encryptor := m_encryptor m; m_tokens := m_tokens m;
     m_store := m_store m; m_masterKey := m_masterKey m; m_audit := a |}.

(** [m.audit] keeps the last 10000 entries. *)
Definition addAuditEntry {S} (m : Manager S) (entry : SecretAuditEntry) : Manager S :=
  let audit := m_audit m ++ [entry] in
  set_audit m (if 10000 <? len audit then drop 1 audit else audit).

Definition audit_entry (now : Z) (action ref actor audience reason : string) (success : bool)
    (revoked : option Z) : SecretAuditEntry :=
  {| ae_Timestamp := now; ae_Action := action; ae_SecretRef := ref; ae_Actor := actor;
     ae_Audience := audience; ae_Success := success; ae_Reason := reason;
     ae_TokensRevoked := revoked |}.

Definition NewManager {S} (now : Z) (config : ManagerConfig) (store : S)
    : result string (Manager S) :=
  if negb (slen (mc_MasterKey config) =? DataKeySize) then
    Err ("master key must be " +:+ show_Z DataKeySize +:+ " bytes")
  else
    let key := {| mk_ID := mc_MasterKeyID config; mk_Algorithm := AlgorithmAES256GCM;
                  mk_Key := mc_MasterKey config; mk_Active := true; mk_CreatedAt := now;
                  mk_RotatedAt := zero_time |} in
    match NewEnvelopeEncryptor (Some key) with
    | Err err => Err ("failed to create encryptor: " +:+ err)
    | Ok encryptor =>
        match NewTokenManager (mc_TokenSigningKey config) with
        | Err err => Err ("failed to create token manager: " +:+ err)
        | Ok tokenManager =>
            Ok {| m_config := config; m_encryptor := encryptor; m_tokens := tokenManager;
                  m_store := store; m_masterKey := key; m_audit := [] |}
        end
    end.

(** The functional options of [CreateSecret]. *)
Inductive SecretOption : Type :=
| WithLabels (labels : gmap string string)
| WithAudiences (audiences : list string)
| WithTTL (ttl : Z)
| WithExpiration (expiresAt : Z)
| WithImmutable.

(** [d.Seconds()] of a duration. *)
Definition Seconds (d : Z) : float64 :=
  fadd (f_of_Z (Z.quot d second)) (fdiv (f_of_Z (Z.rem d second)) (f_of_Z 1000000000)).

Definition apply_option (s : Secret) (o : SecretOption) : Secret :=
  let '(labels, audiences, ttl, expires, immutable) :=
    match o with
    | WithLabels l => (l, sec_Audiences s, sec_TTL s, sec_ExpiresAt s, sec_Immutable s)
    | WithAudiences a => (sec_Labels s, a, sec_TTL s, sec_ExpiresAt s, sec_Immutable s)
    | WithTTL t =>
        (sec_Labels s, sec_Audiences s, int64_of_f (Seconds t), sec_ExpiresAt s, sec_Immutable s)
    | WithExpiration t => (sec_Labels s, sec_Audiences s, sec_TTL s, Some t, sec_Immutable s)
    | WithImmutable => (sec_Labels s, sec_Audiences s, sec_TTL s, sec_ExpiresAt s, true)
    end in
  {| sec_Name := sec_Name s; sec_Namespace := sec_Namespace s;
     sec_Description := sec_Description s; sec_Labels := labels;
     sec_Annotations := sec_Annotations s; sec_Data := sec_Data s;
     sec_EncryptedDataKey := sec_EncryptedDataKey s; sec_KeyID := sec_KeyID s;
     sec_Algorithm := sec_Algorithm s; sec_Audiences := audiences; sec_TTL := ttl;
     sec_Version := sec_Version s; sec_Immutable := immutable; sec_CreatedAt := sec_CreatedAt s;
     sec_UpdatedAt := sec_UpdatedAt s; sec_RotatedAt := sec_RotatedAt s; sec_ExpiresAt := expires;
     sec_DeletedAt := sec_DeletedAt s; sec_DeleteAfter := sec_DeleteAfter s |}.

(** [strings.Contains(name, "/")] is [contains_char]. *)
Definition validateSecretName (namespace name : string) : option string :=
  if namespace =?s "" then Some "namespace: namespace is required"%string
  else if name =?s "" then Some "name: name is required"%string
  else if 253 <? slen name then Some "name: name must be <= 253 characters"%string
  else if contains_char "/" name then Some "name: name cannot contain '/'"%string
  else None.

(** The first failing check of the loop over the values. *)
Fixpoint validate_values (l : list (string * string)) : option string :=
  match l with
  | [] => None
  | (key, value) :: rest =>
      if key =?s "" then Some "data: secret key cannot be empty"%string
      else if slen value =? 0 then
        Some ("data: secret value for key '" +:+ key +:+ "' cannot be empty")
      else if MaxSecretSize <? slen value then
        Some ("data: secret value for key '" +:+ key +:+ "' exceeds maximum size")
      else validate_values rest
  end.

Definition validateSecretData `{GoRange} (data : gmap string string) : option string :=
  if Z.of_nat (size data) =? 0 then Some "data: secret data cannot be empty"%string
  else if MaxSecretKeys <? Z.of_nat (size data) then
    Some ("data: secret cannot have more than " +:+ show_Z MaxSecretKeys +:+ " keys")
  else validate_values (range_map data).

(** A loop over a map that computes a new map and stops at the first error. *)
Definition collect `{GoRange} {A B} (f : string → A → result string B) (m : gmap string A)
    : result string (gmap string B) :=
  foldl (fun acc kv =>
    match acc with
    | Err e => Err e
    | Ok r => match f kv.1 kv.2 with Err e => Err e | Ok b => Ok (<[kv.1 := b]> r) end
    end) (Ok ∅) (range_map m).

Definition edk_key (key : string) : string := "edk." +:+ key.
Definition nonce_key (key : string) : string := "nonce." +:+ key.

(** The two annotations of an encrypted value. *)
Definition annotate (a : gmap string string) (kv : string * Envelope) : gmap string string :=
  <[nonce_key kv.1 := hex_encode (env_nonce kv.2)]>
    (<[edk_key kv.1 := hex_encode (env_key kv.2)]> a).

(** The inputs of one operation: the clock, by reading, random bytes, by key,
    and what the outside answers to the store's calls. *)
Record Inputs := {
  in_clock : nat → Z;
  in_rand : string → Randomness;
  in_get : StoreEnv;
  in_save : StoreEnv
}.

Record SecretAccessRequest := {
  req_SecretName : string;
  req_Namespace : string;
  req_Audience : string;
  req_AccessToken : string
}.

Record SecretAccessResponse := {
  resp_Name : string;
  resp_Namespace : string;
  resp_Data : gmap string string;
  resp_Version : Z;
  resp_ExpiresAt : option Z
}.

Record SecretMetadata := {
  sm_Name : string;
  sm_Namespace : string;
  sm_Labels : gmap string string;
  sm_Version : Z;
  sm_CreatedAt : Z;
  sm_UpdatedAt : Z;
  sm_Keys : list string
}.

Section manager.
Context {S : Type} `{GoRange, AEAD, JWT, !SecretStore S}.

(** Encrypting every value with its own data key. *)
Definition encrypt_all (rnd : string → Randomness) (e : EnvelopeEncryptor)
    (data : gmap string string) : result string (gmap string Envelope) :=
  collect (fun key value =>
    match Encrypt (rnd key) e value with
    | Err err => Err ("failed to encrypt secret value for key " +:+ key +:+ ": " +:+ err)
    | Ok env => Ok env
    end) data.

Definition CreateSecret (i : Inputs) (m : Manager S) (namespace name : string)
    (data : gmap string string) (opts : list SecretOption) : Manager S * result string Secret :=
  match validateSecretName namespace name with
  | Some err => (m, Err err)
  | None =>
  match validateSecretData data with
  | Some err => (m, Err err)
  | None =>
      let '(s1, existing) := st_Get (in_get i) (m_store m) namespace name in
      let m := set_store m s1 in
      let taken := match existing with
                   | Ok (Some ex) => match sec_DeletedAt ex with None => true | Some _ => false end
                   | _ => false
                   end in
      if taken then (m, Err ("secret already exists: " +:+ secret_ref namespace name))
      else match encrypt_all (in_rand i) (m_encryptor m) data with
      | Err err => (m, Err err)
      | Ok envs =>
          let secret := {|
            sec_Name := name; sec_Namespace := namespace; sec_Description := "";
            sec_Labels := ∅; sec_Annotations := None; sec_Data := env_data <$> envs;
            sec_EncryptedDataKey := None; sec_KeyID := mk_ID (m_masterKey m);
            sec_Algorithm := AlgorithmAES256GCM; sec_Audiences := []; sec_TTL := 0;
            sec_Version := 1; sec_Immutable := false; sec_CreatedAt := in_clock i 0%nat;
            sec_UpdatedAt := in_clock i 1%nat; sec_RotatedAt := None; sec_ExpiresAt := None;
            sec_DeletedAt := None; sec_DeleteAfter := 0 |} in
          let secret := foldl apply_option secret opts in
          let secret := {|
            sec_Name := sec_Name secret; sec_Namespace := sec_Namespace secret;
            sec_Description := sec_Description secret; sec_Labels := sec_Labels secret;
            sec_Annotations :=
              Some (foldl annotate (default ∅ (sec_Annotations secret)) (range_map envs));
            sec_Data := sec_Data secret; sec_EncryptedDataKey := sec_EncryptedDataKey secret;
            sec_KeyID := sec_KeyID secret; sec_Algorithm := sec_Algorithm secret;
            sec_Audiences := sec_Audiences secret; sec_TTL := sec_TTL secret;
            sec_Version := sec_Version secret; sec_Immutable := sec_Immutable secret;
            sec_CreatedAt := sec_CreatedAt secret; sec_UpdatedAt := sec_UpdatedAt secret;
            sec_RotatedAt := sec_RotatedAt secret; sec_ExpiresAt := sec_ExpiresAt secret;
            sec_DeletedAt := sec_DeletedAt secret; sec_DeleteAfter := sec_DeleteAfter secret |} in
          let '(s2, err) := st_Save (in_save i) (m_store m) secret in
          let m := set_store m s2 in
          match err with
          | Some e => (m, Err ("failed to save secret: " +:+ e))
          | None =>
              (addAuditEntry m (audit_entry (in_clock i 2%nat) SecretActionCreate
                 (secret_ref namespace name) "system" "" "" true None), Ok secret)
          end
      end
  end
  end.

(** Decrypting one value of a secret, in the per-key or the legacy format. *)
Definition decrypt_value (e : EnvelopeEncryptor) (secret : Secret) (key encryptedValue : string)
    : result string string :=
  let edkHex := default ""%string (annotation secret (edk_key key)) in
  let nonceHex := default ""%string (annotation secret (nonce_key key)) in
  let metadata : result string (string * string) :=
    if negb (edkHex =?s "") && negb (nonceHex =?s "") then
      match hex_decode edkHex with
      | None => Err ("failed to decode EDK for key " +:+ key)
      | Some edk =>
          match hex_decode nonceHex with
          | None => Err ("failed to decode nonce for key " +:+ key)
          | Some nonce => Ok (edk, nonce)
          end
      end
    else
      let legacyNonce := default ""%string (annotation secret "nonce") in
      match sec_EncryptedDataKey secret with
      | None => Err ("encryption metadata not found for key " +:+ key)
      | Some edk =>
          if slen legacyNonce =? 0 then Err ("encryption metadata not found for key " +:+ key)
          else match hex_decode legacyNonce with
          | None => Err "failed to decode legacy nonce"%string
          | Some nonce => Ok (edk, nonce)
          end
      end in
  match metadata with
  | Err err => Err err
  | Ok (edk, nonce) =>
      match Decrypt e encryptedValue edk nonce with
      | Err err => Err ("failed to decrypt secret value for key " +:+ key +:+ ": " +:+ err)
      | Ok p => Ok p
      end
  end.

Definition decrypt_all (e : EnvelopeEncryptor) (secret : Secret)
    : result string (gmap string string) :=
  collect (decrypt_value e secret) (sec_Data secret).

Definition GetSecret (i : Inputs) (r : Readings) (m : Manager S) (req : SecretAccessRequest)
    : Manager S * result string SecretAccessResponse :=
  let secretRef := secret_ref (req_Namespace req) (req_SecretName req) in
  let '(tm, valid) := ValidateToken r (m_tokens m) (req_AccessToken req) secretRef (req_Audience req) in
  let m := set_tokens m tm in
  match valid with
  | Err err =>
      (addAuditEntry m (audit_entry (in_clock i 0%nat) SecretActionAccess secretRef
         (req_Audience req) "" ("token validation failed: " +:+ err) false None),
       Err ("access denied: " +:+ err))
  | Ok _ =>
      let '(s1, got) := st_Get (in_get i) (m_store m) (req_Namespace req) (req_SecretName req) in
      let m := set_store m s1 in
      match got with
      | Err err => (m, Err ("failed to retrieve secret: " +:+ err))
      | Ok None => (m, Err ("secret not found: " +:+ secretRef))
      | Ok (Some secret) =>
          match sec_DeletedAt secret with
          | Some _ => (m, Err "secret has been deleted"%string)
          | None =>
              let isExpired := match sec_ExpiresAt secret with
                               | Some t => t <? in_clock i 0%nat
                               | None => false
                               end in
              if isExpired then (m, Err "secret has expired"%string)
              else match decrypt_all (m_encryptor m) secret with
              | Err err => (m, Err err)
              | Ok decryptedData =>
                  (addAuditEntry m (audit_entry (in_clock i 1%nat) SecretActionAccess secretRef
                     (req_Audience req) (req_Audience req) "" true None),
                   Ok {| resp_Name := sec_Name secret; resp_Namespace := sec_Namespace secret;
                         resp_Data := decryptedData; resp_Version := sec_Version secret;
                         resp_ExpiresAt := sec_ExpiresAt secret |})
              end
          end
      end
  end.

Definition GenerateAccessToken (i : Inputs) (tokenID : string) (m : Manager S)
    (namespace name audience : string) (ttl maxUses : Z)
    : Manager S * result string SecretAccessToken :=
  let '(s1, got) := st_Get (in_get i) (m_store m) namespace name in
  let m := set_store m s1 in
  match got with
  | Ok (Some secret) =>
      match sec_DeletedAt secret with
      | Some _ => (m, Err "secret has been deleted"%string)
      | None =>
          if (0 <? len (sec_Audiences secret)) &&
             negb (existsb (fun aud => (aud =?s audience) || (aud =?s "*")) (sec_Audiences secret))
          then (m, Err ("audience " +:+ audience +:+ " is not allowed to access this secret"))
          else
            let ttl := if 0 <? sec_TTL secret then int64 (sec_TTL secret * second) else ttl in
            let ttl := if ttl =? 0 then mc_TokenTTL (m_config m) else ttl in
            let '(tm, token) := GenerateToken tokenID (in_clock i 0%nat) (m_tokens m)
              (secret_ref namespace name) audience ttl maxUses in
            let m := set_tokens m tm in
            match token with
            | Err err => (m, Err ("failed to generate token: " +:+ err))
            | Ok t => (m, Ok t)
            end
      end
  | _ => (m, Err ("secret not found: " +:+ secret_ref namespace name))
  end.

(** [UpdateSecret]; [None] is the panic of writing to a nil map. *)
Definition UpdateSecret (i : Inputs) (m : Manager S) (namespace name : string)
    (data : gmap string string) : option (Manager S * result string Secret) :=
  let '(s1, got) := st_Get (in_get i) (m_store m) namespace name in
  let m := set_store m s1 in
  match got with
  | Ok (Some secret) =>
      if sec_Immutable secret then
        Some (m, Err "secret is immutable and cannot be updated"%string)
      else match sec_DeletedAt secret with
      | Some _ => Some (m, Err "secret has been deleted"%string)
      | None =>
          match encrypt_all (in_rand i) (m_encryptor m) data with
          | Err err => Some (m, Err err)
          | Ok envs =>
              let annotations :=
                match sec_Annotations secret with
                | Some a => Some (Some (foldl annotate a (range_map envs)))
                | None => if Z.of_nat (size envs) =? 0 then Some None else None
                end in
              match annotations with
              | None => None
              | Some ann =>
                  let secret := {|
                    sec_Name := sec_Name secret; sec_Namespace := sec_Namespace secret;
                    sec_Description := sec_Description secret; sec_Labels := sec_Labels secret;
                    sec_Annotations := ann; sec_Data := env_data <$> envs;
                    sec_EncryptedDataKey := None; sec_KeyID := sec_KeyID secret;
                    sec_Algorithm := sec_Algorithm secret; sec_Audiences := sec_Audiences secret;
                    sec_TTL := sec_TTL secret; sec_Version := uint64 (sec_Version secret + 1);
                    sec_Immutable := sec_Immutable secret; sec_CreatedAt := sec_CreatedAt secret;
                    sec_UpdatedAt := in_clock i 0%nat; sec_RotatedAt := sec_RotatedAt secret;
                    sec_ExpiresAt := sec_ExpiresAt secret; sec_DeletedAt := sec_DeletedAt secret;
                    sec_DeleteAfter := sec_DeleteAfter secret |} in
                  let s2 := st_mutate (m_store m) secret in
                  let '(s3, err) := st_Save (in_save i) s2 secret in
                  let m := set_store m s3 in
                  match err with
                  | Some e => Some (m, Err ("failed to save updated secret: " +:+ e))
                  | None =>
                      let '(tm, revoked) :=
                        RevokeTokensForSecret (m_tokens m) (secret_ref namespace name) in
                      Some (addAuditEntry (set_tokens m tm)
                        (audit_entry (in_clock i 1%nat) SecretActionUpdate
                           (secret_ref namespace name) "system" "" "" true (Some revoked)),
                        Ok secret)
                  end
              end
          end
      end
  | _ => Some (m, Err ("secret not found: " +:+ secret_ref namespace name))
  end.

Definition mark_deleted (secret : Secret) (now : Z) : Secret := {|
  sec_Name := sec_Name secret; sec_Namespace := sec_Namespace secret;
  sec_Description := sec_Description secret; sec_Labels := sec_Labels secret;
  sec_Annotations := sec_Annotations secret; sec_Data := sec_Data secret;
  sec_EncryptedDataKey := sec_EncryptedDataKey secret; sec_KeyID := sec_KeyID secret;
  sec_Algorithm := sec_Algorithm secret; sec_Audiences := sec_Audiences secret;
  sec_TTL := sec_TTL secret; sec_Version := sec_Version secret;
  sec_Immutable := sec_Immutable secret; sec_CreatedAt := sec_CreatedAt secret;
  sec_UpdatedAt := sec_UpdatedAt secret; sec_RotatedAt := sec_RotatedAt secret;
  sec_ExpiresAt := sec_ExpiresAt secret; sec_DeletedAt := Some now;
  sec_DeleteAfter := sec_DeleteAfter secret |}.

Definition DeleteSecret (i : Inputs) (m : Manager S) (namespace name : string)
    : Manager S * option string :=
  let '(s1, got) := st_Get (in_get i) (m_store m) namespace name in
  let m := set_store m s1 in
  match got with
  | Ok (Some secret) =>
      let '(tm, revoked) := RevokeTokensForSecret (m_tokens m) (secret_ref namespace name) in
      let m := set_tokens m tm in
      let secret := mark_deleted secret (in_clock i 0%nat) in
      let s2 := st_mutate (m_store m) secret in
      let '(s3, err) := st_Save (in_save i) s2 secret in
      let m := set_store m s3 in
      match err with
      | Some e => (m, Some ("failed to mark secret as deleted: " +:+ e))
      | None =>
          (addAuditEntry m (audit_entry (in_clock i 1%nat) SecretActionDelete
             (secret_ref namespace name) "system" "" "" true (Some revoked)), None)
      end
  | _ => (m, Some ("secret not found: " +:+ secret_ref namespace name))
  end.

Definition secret_metadata (secret : Secret) : SecretMetadata := {|
  sm_Name := sec_Name secret; sm_Namespace := sec_Namespace secret;
  sm_Labels := sec_Labels secret; sm_Version := sec_Version secret;
  sm_CreatedAt := sec_CreatedAt secret; sm_UpdatedAt := sec_UpdatedAt secret;
  sm_Keys := (range_map (sec_Data secret)).*1 |}.

Definition ListSecrets (m : Manager S) (filter : SecretFilter) : list SecretMetadata :=
  secret_metadata <$>
  List.filter (fun s => match sec_DeletedAt s with None => true | Some _ => false end)
    (st_List (m_store m) filter).

Definition GetMasterKey (m : Manager S) : MasterKey := {|
  mk_ID := mk_ID (m_masterKey m); mk_Algorithm := mk_Algorithm (m_masterKey m); mk_Key := "";
  mk_Active := mk_Active (m_masterKey m); mk_CreatedAt := mk_CreatedAt (m_masterKey m);
  mk_RotatedAt := mk_RotatedAt (m_masterKey m) |}.

Definition Manager_CleanupExpiredTokens (now : Z) (m : Manager S) : Manager S * Z :=
  let '(tm, n) := CleanupExpiredTokens now (m_tokens m) in (set_tokens m tm, n).

(** The [limit] most recent entries. *)
Definition GetAuditLog (m : Manager S) (limit : Z) : list SecretAuditEntry :=
  let n := len (m_audit m) in
  let limit := if (limit <=? 0) || (n <? limit) then n else limit in
  let start := n - limit in
  let start := if start <? 0 then 0 else start in
  drop (Z.to_nat start) (m_audit m).

End manager.

(** ** Rotation of the master key *)

(** The state of the loop over the values of one secret: re-encrypted
    values, the secret's annotations (changed in place) and the last error. *)
Record RotateAcc := {
  ra_data : gmap string string;
  ra_annotations : option (gmap string string);
  ra_failed : option string
}.

Definition fail_key (acc : RotateAcc) (err : string) : RotateAcc :=
  {| ra_data := ra_data acc; ra_annotations := ra_annotations acc; ra_failed := Some err |}.

Section rotation.
Context {S : Type} `{GoRange, AEAD, !SecretStore S}.

(** One value.  The annotations are read from the object that earlier turns
    of the loop have changed. *)
Definition rotate_value (rnd : string → Randomness) (oldKey newKey : MasterKey)
    (acc : RotateAcc) (kv : string * string) : RotateAcc :=
  let key := kv.1 in
  let ann := default ∅ (ra_annotations acc) in
  match ann !! nonce_key key with
  | None => fail_key acc ("missing nonce for key " +:+ key)
  | Some nonceHex =>
      match hex_decode nonceHex with
      | None => fail_key acc ("failed to decode nonce for key " +:+ key
                              +:+ ": invalid hex or wrong size")
      | Some nonce =>
          if negb (slen nonce =? NonceSize) then
            fail_key acc ("failed to decode nonce for key " +:+ key
                          +:+ ": invalid hex or wrong size")
          else match ann !! edk_key key with
          | None => fail_key acc ("missing encrypted data key for key " +:+ key)
          | Some edkHex =>
              match hex_decode edkHex with
              | None => fail_key acc ("failed to decode encrypted data key for key " +:+ key)
              | Some edk =>
                  match ReEncryptWithNewKey (rnd key) kv.2 edk nonce oldKey newKey with
                  | Err err => fail_key acc ("failed to re-encrypt key " +:+ key +:+ ": " +:+ err)
                  | Ok env =>
                      {| ra_data := <[key := env_data env]> (ra_data acc);
                         ra_annotations := Some (annotate ann (key, env));
                         ra_failed := ra_failed acc |}
                  end
              end
          end
      end
  end.

Definition rotate_values (rnd : string → Randomness) (oldKey newKey : MasterKey) (secret : Secret)
    : RotateAcc :=
  foldl (rotate_value rnd oldKey newKey)
    {| ra_data := ∅; ra_annotations := sec_Annotations secret; ra_failed := None |}
    (range_map (sec_Data secret)).

(** The secret after the loop over its values, before it is saved; [done]
    tells whether every value was re-encrypted. *)
Definition with_annotations (secret : Secret) (a : option (gmap string string)) : Secret := {|
  sec_Name := sec_Name secret; sec_Namespace := sec_Namespace secret;
  sec_Description := sec_Description secret; sec_Labels := sec_Labels secret;
  sec_Annotations := a; sec_Data := sec_Data secret;
  sec_EncryptedDataKey := sec_EncryptedDataKey secret; sec_KeyID := sec_KeyID secret;
  sec_Algorithm := sec_Algorithm secret; sec_Audiences := sec_Audiences secret;
  sec_TTL := sec_TTL secret; sec_Version := sec_Version secret;
  sec_Immutable := sec_Immutable secret; sec_CreatedAt := sec_CreatedAt secret;
  sec_UpdatedAt := sec_UpdatedAt secret; sec_RotatedAt := sec_RotatedAt secret;
  sec_ExpiresAt := sec_ExpiresAt secret; sec_DeletedAt := sec_DeletedAt secret;
  sec_DeleteAfter := sec_DeleteAfter secret |}.

Definition rotated (secret : Secret) (acc : RotateAcc) (newKey : MasterKey) (now : Z) : Secret := {|
  sec_Name := sec_Name secret; sec_Namespace := sec_Namespace secret;
  sec_Description := sec_Description secret; sec_Labels := sec_Labels secret;
  sec_Annotations := ra_annotations acc; sec_Data := ra_data acc;
  sec_EncryptedDataKey := sec_EncryptedDataKey secret; sec_KeyID := mk_ID newKey;
  sec_Algorithm := sec_Algorithm secret; sec_Audiences := sec_Audiences secret;
  sec_TTL := sec_TTL secret; sec_Version := sec_Version secret;
  sec_Immutable := sec_Immutable secret; sec_CreatedAt := sec_CreatedAt secret;
  sec_UpdatedAt := now; sec_RotatedAt := Some now;
  sec_ExpiresAt := sec_ExpiresAt secret; sec_DeletedAt := sec_DeletedAt secret;
  sec_DeleteAfter := sec_DeleteAfter secret |}.

(** The inputs of a rotation: fresh key material, the clock, random bytes by
    secret and key, and the store's environment by secret. *)
Record RotateInputs := {
  ri_key : option string;
  ri_id : option string;
  ri_now : Z;
  ri_rand : string → string → Randomness;
  ri_save : string → StoreEnv
}.

(** The state of the loop over the secrets. *)
Record RotateState := {
  rt_store : S;
  rt_success : Z;
  rt_failed : gmap string string;
  rt_audit : list SecretAuditEntry
}.

Definition rotate_secret (i : RotateInputs) (oldKey newKey : MasterKey) (st : RotateState)
    (secret : Secret) : RotateState :=
  match sec_DeletedAt secret with
  | Some _ => st
  | None =>
      let ref := secret_ref (sec_Namespace secret) (sec_Name secret) in
      let acc := rotate_values (ri_rand i ref) oldKey newKey secret in
      let failed := match ra_failed acc with
                    | Some err => <[ref := err]> (rt_failed st)
                    | None => rt_failed st
                    end in
      if Z.of_nat (size (ra_data acc)) =? Z.of_nat (size (sec_Data secret)) then
        let secret := rotated secret acc newKey (ri_now i) in
        let s1 := st_mutate (rt_store st) secret in
        let '(s2, err) := st_Save (ri_save i ref) s1 secret in
        match err with
        | Some e =>
            {| rt_store := s2; rt_success := rt_success st;
               rt_failed := <[ref := ("failed to save re-encrypted secret: " +:+ e)%string]> failed;
               rt_audit := rt_audit st |}
        | None =>
            {| rt_store := s2; rt_success := int64 (rt_success st + 1); rt_failed := failed;
               rt_audit := rt_audit st ++
                 [audit_entry (ri_now i) SecretActionRotate ref "system" "master-key-rotation"
                    ("Re-encrypted with key " +:+ mk_ID newKey) true None] |}
        end
      else
        {| rt_store := st_mutate (rt_store st) (with_annotations secret (ra_annotations acc));
           rt_success := rt_success st; rt_failed := failed; rt_audit := rt_audit st |}
  end.

Definition set_keys (m : Manager S) (st : RotateState) (current : MasterKey)
    (e : EnvelopeEncryptor) (audit : list SecretAuditEntry) : Manager S :=
  {| m_config := m_config m; m_encryptor := e; m_tokens := m_tokens m; m_store := rt_store st;
     m_masterKey := current; m_audit := audit |}.

(** [Manager.RotateMasterKey].  The old key object, which the encryptor
    shares, is marked inactive at once. *)
Definition Manager_RotateMasterKey (i : RotateInputs) (m : Manager S) : Manager S * option string :=
  let '(oldKey, generated) := RotateMasterKey (m_masterKey m) (ri_key i) (ri_id i) (ri_now i) in
  match generated with
  | Err err => (m, Some ("failed to generate new master key: " +:+ err))
  | Ok newKey =>
      let allSecrets := st_List (m_store m) no_filter in
      let st := foldl (rotate_secret i oldKey newKey)
        {| rt_store := m_store m; rt_success := 0; rt_failed := ∅; rt_audit := m_audit m |}
        allSecrets in
      if 0 <? Z.of_nat (size (rt_failed st)) then
        (set_keys m st oldKey {| masterKey := oldKey |} (rt_audit st),
         Some ("failed to rotate " +:+ show_Z (Z.of_nat (size (rt_failed st))) +:+ " out of "
               +:+ show_Z (len allSecrets) +:+ " secrets (see logs for details)"))
      else match NewEnvelopeEncryptor (Some newKey) with
      | Err err =>
          (set_keys m st newKey {| masterKey := oldKey |} (rt_audit st),
           Some ("failed to create encryptor with new key: " +:+ err))
      | Ok newEncryptor =>
          (set_keys m st newKey newEncryptor
             (rt_audit st ++
              [audit_entry (ri_now i) SecretActionRotate "all" "system" "master-key-rotation"
                 ("Rotated from " +:+ mk_ID oldKey +:+ " to " +:+ mk_ID newKey
                  +:+ ", re-encrypted " +:+ show_Z (rt_success st) +:+ " secrets") true None]), None)
      end
  end.

End rotation.
