(* ===== verification/SecretStores.v ===== *)
(** * What a secret store promises (pkg/secrets/store.go)

    The class [StoreLaws] states what the secret manager relies on: a saved
    secret is read back up to [≡], equality after a JSON round trip, and an
    operation on one reference does not change what is read at another.  Both
    stores of the code discharge it. *)

From S2P Require Import Prelude GoText RaftFSM SecretCrypto SecretTokens Secrets.

(** ** Equality of secrets up to a JSON round trip *)

#[export] Instance secret_equiv : Equiv Secret := fun x y => json_copy x = json_copy y.

#[export] Instance secret_equivalence : Equivalence (≡@{Secret}).
Proof. split; red; unfold equiv, secret_equiv; intros; congruence. Qed.

Lemma json_copy_idemp x : json_copy (json_copy x) = json_copy x.
Proof. unfold json_copy. simpl. destruct (sec_Annotations x) as [a|]; [|done]. by repeat case_decide. Qed.

Lemma json_copy_equiv x : json_copy x ≡ x.
Proof. apply json_copy_idemp. Qed.

Definition ref_of (x : Secret) : string := secret_ref (sec_Namespace x) (sec_Name x).

(** Every field but a nil map is kept. *)
Lemma equiv_fields x y : x ≡ y →
  sec_Name x = sec_Name y ∧ sec_Namespace x = sec_Namespace y ∧ sec_Data x = sec_Data y ∧
  sec_EncryptedDataKey x = sec_EncryptedDataKey y ∧ sec_Audiences x = sec_Audiences y ∧
  sec_TTL x = sec_TTL y ∧ sec_Version x = sec_Version y ∧ sec_Immutable x = sec_Immutable y ∧
  sec_ExpiresAt x = sec_ExpiresAt y ∧ sec_DeletedAt x = sec_DeletedAt y ∧
  default ∅ (sec_Annotations x) = default ∅ (sec_Annotations y).
Proof.
  unfold equiv, secret_equiv, json_copy. intros [=]. repeat split; try done.
  destruct (sec_Annotations x), (sec_Annotations y); simpl; repeat case_decide; congruence.
Qed.

#[export] Instance ref_of_proper : Proper ((≡) ==> (=)) ref_of.
Proof. intros x y (Hn & Hs & _)%equiv_fields. unfold ref_of. by rewrite Hn, Hs. Qed.

#[export] Instance deleted_proper : Proper ((≡) ==> (=)) sec_DeletedAt.
Proof. by intros x y (_ & _ & _ & _ & _ & _ & _ & _ & _ & Hd & _)%equiv_fields. Qed.

#[export] Instance annotation_proper : Proper ((≡) ==> (=) ==> (=)) annotation.
Proof. intros x y (_ & _ & _ & _ & _ & _ & _ & _ & _ & _ & Ha)%equiv_fields k ? <-. unfold annotation. by rewrite Ha. Qed.

(** ** The interface *)

(** What [Get] returns, without its effect on the store. *)
Definition got {S} `{SecretStore S} (e : StoreEnv) (s : S) (namespace name : string)
    : result string (option Secret) := (st_Get e s namespace name).2.

(** Reads of every other reference are the same in both stores. *)
Definition others_kept {S} `{SecretStore S} (ref : string) (s s' : S) : Prop :=
  ∀ e namespace name, secret_ref namespace name ≠ ref →
    got e s' namespace name = got e s namespace name.

Class StoreLaws (S : Type) `{SecretStore S} : Type := {
  (** The store holds each secret under its own reference. *)
  st_wf : S → Prop;
  wf_Get : ∀ e s ns n, st_wf s → st_wf (st_Get e s ns n).1;
  wf_Save : ∀ e s x, st_wf s → st_wf (st_Save e s x).1;
  wf_mutate : ∀ s x, st_wf s → st_wf (st_mutate s x);
  get_ref : ∀ e s ns n x, st_wf s → got e s ns n = Ok (Some x) →
    ref_of x = secret_ref ns n ∧ ns ≠ EmptyString ∧ n ≠ EmptyString;
  get_required : ∀ e s ns n, ns = EmptyString ∨ n = EmptyString →
    got e s ns n = Err "namespace and name are required"%string;
  get_by_ref : ∀ e s ns n ns' n', secret_ref ns n = secret_ref ns' n' →
    ns ≠ EmptyString → n ≠ EmptyString → ns' ≠ EmptyString → n' ≠ EmptyString →
    got e s ns n = got e s ns' n';
  get_again : ∀ e e' s ns n x, got e s ns n = Ok (Some x) →
    got e' (st_Get e s ns n).1 ns n = Ok (Some x);
  get_missing : ∀ e s ns n, (∀ x, got e s ns n ≠ Ok (Some x)) → (st_Get e s ns n).1 = s;
  get_others : ∀ e s ns n, others_kept (secret_ref ns n) s (st_Get e s ns n).1;
  save_others : ∀ e s x, others_kept (ref_of x) s (st_Save e s x).1;
  mutate_others : ∀ s x, others_kept (ref_of x) s (st_mutate s x);
  save_get : ∀ e e' s x ns n, (st_Save e s x).2 = None → ref_of x = secret_ref ns n →
    ns ≠ EmptyString → n ≠ EmptyString →
    ∃ y, got e' (st_Save e s x).1 ns n = Ok (Some y) ∧ y ≡ x
}.

#[export] Instance others_kept_preorder {S} `{SecretStore S} ref : PreOrder (others_kept (S := S) ref).
Proof. split; [done|]. intros s1 s2 s3 H1 H2 e ns n Hne. by rewrite H2, H1. Qed.

(** ** The in-memory store *)

Lemma required_false ns n :
  ns ≠ EmptyString → n ≠ EmptyString → (ns =?s "") || (n =?s "") = false.
Proof. intros. by rewrite !bool_decide_eq_false_2. Qed.

Lemma required_true ns n : ns = EmptyString ∨ n = EmptyString → (ns =?s "") || (n =?s "") = true.
Proof. intros [->| ->]; [done|]. apply orb_true_r. Qed.

Lemma mem_got `{GoRange} e s ns n :
  got (S := InMemorySecretStore) e s ns n =
  if (ns =?s "") || (n =?s "") then Err "namespace and name are required"%string
  else Ok (json_copy <$> secrets s !! secret_ref ns n).
Proof. unfold got. simpl. unfold mem_Get. by case_match. Qed.

Lemma mem_Get_store e s ns n : (mem_Get e s ns n).1 = s.
Proof. unfold mem_Get. by case_match. Qed.

#[export] Program Instance in_memory_laws `{GoRange} : StoreLaws InMemorySecretStore := {|
  st_wf := fun s => ∀ k x, secrets s !! k = Some x → k = ref_of x
|}.
Next Obligation. intros R e s ns n Hwf. simpl. by rewrite mem_Get_store. Qed.
Next Obligation.
  intros R e s x Hwf k y. simpl. intros [[<- <-]|[Hne Hk]]%lookup_insert_Some; [|eauto].
  by rewrite json_copy_equiv.
Qed.
Next Obligation. done. Qed.
Next Obligation.
  intros R e s ns n x Hwf. rewrite mem_got. case_match; [done|]. intros [= Hx].
  apply fmap_Some in Hx as (y & Hy & ->). rewrite json_copy_equiv, <-(Hwf _ _ Hy).
  bool_to_prop. done.
Qed.
Next Obligation. intros R e s ns n Hr. by rewrite mem_got, required_true. Qed.
Next Obligation.
  intros R e s ns n ns' n' Hr ? ? ? ?. by rewrite !mem_got, !required_false, Hr.
Qed.
Next Obligation.
  intros R e e' s ns n x. rewrite !mem_got. simpl. by rewrite mem_Get_store.
Qed.
Next Obligation. intros R e s ns n _. apply mem_Get_store. Qed.
Next Obligation.
  intros R e s ns n e' ns' n' _. rewrite !mem_got. simpl. by rewrite mem_Get_store.
Qed.
Next Obligation.
  intros R e s x e' ns n Hne. rewrite !mem_got. simpl. by rewrite lookup_insert_ne.
Qed.
Next Obligation. done. Qed.
Next Obligation.
  intros R e e' s x ns n _ Hr Hns Hn. rewrite mem_got, required_false by done. simpl.
  exists (json_copy (json_copy x)). unfold ref_of in Hr. rewrite Hr, lookup_insert_eq.
  split; [done|]. by rewrite !json_copy_equiv.
Qed.

(** ** The Raft-backed store *)

Class SecretCodecLaws `{SecretCodec} : Prop := {
  unmarshal_marshal : ∀ x, unmarshal (marshal x) = Some (json_copy x);
  marshal_nonempty : ∀ x, marshal x ≠ EmptyString
}.

Definition cache_key (ref : string) : string := "secret/" +:+ ref.

Lemma cache_key_inj r r' : cache_key r = cache_key r' → r = r'.
Proof. unfold cache_key. by intros ?%(inj _). Qed.

Section raft_laws.
Context `{GoRange, !SecretCodec}.

(** What [Get] answers on a miss. *)
Definition fetch (e : StoreEnv) (r : Store) (key : string) : result string (option Secret) :=
  match Store_Get (se_now e) key r with
  | Err err => Err ("failed to get secret from RAFT: " +:+ err)
  | Ok data =>
      if data =?s "" then Ok None
      else match unmarshal data with
           | None => Err "failed to deserialize secret"%string
           | Some x => Ok (Some x)
           end
  end.

Lemma raft_got e (s : RaftSecretStore) ns n :
  got e s ns n =
  if (ns =?s "") || (n =?s "") then Err "namespace and name are required"%string
  else match cache s !! cache_key (secret_ref ns n) with
       | Some x => Ok (Some x)
       | None => fetch e (raftStore s) (cache_key (secret_ref ns n))
       end.
Proof.
  unfold got. simpl. unfold raft_Get, fetch, cache_key, secret_ref, getKey.
  repeat (case_match; simpl; try congruence).
Qed.

(** Reading changes nothing but the cache, and only at a missed key. *)
Definition cache_after (e : StoreEnv) (s : RaftSecretStore) (ns n : string) : gmap string Secret :=
  match got e s ns n with
  | Ok (Some x) => <[cache_key (secret_ref ns n) := x]> (cache s)
  | _ => cache s
  end.

Lemma raft_Get_store e (s : RaftSecretStore) ns n :
  (raft_Get e s ns n).1 = {| raftStore := raftStore s; cache := cache_after e s ns n |}.
Proof.
  unfold cache_after. rewrite raft_got.
  unfold raft_Get, fetch, cache_key, secret_ref, getKey. destruct s as [r c]. simpl.
  repeat (case_match; simplify_eq/=; try done). by rewrite insert_id.
Qed.

Lemma raft_Save_store e (s : RaftSecretStore) x :
  (raft_Save e s x = (s, (raft_Save e s x).2) ∧ (raft_Save e s x).2 ≠ None) ∨
  ∃ r, raft_Save e s x =
         ({| raftStore := r; cache := <[cache_key (ref_of x) := x]> (cache s) |}, None) ∧
       abs (fsm r) = <[cache_key (ref_of x) := (marshal x, 0)]> (abs (fsm (raftStore s))).
Proof.
  unfold raft_Save. change (getKey _ _) with (cache_key (ref_of x)).
  destruct (Store_Set_cases (cache_key (ref_of x)) (marshal x) (se_raft e) (raftStore s))
    as [(r & -> & Hr)|(err & ->)]; [right; eauto|left]. by destruct s.
Qed.

Lemma fetch_abs e r r' key :
  abs (fsm r') !! key = abs (fsm r) !! key → fetch e r' key = fetch e r key.
Proof. intros Hk. unfold fetch, Store_Get. by rewrite !Get_abs, Hk. Qed.

Lemma fetch_Some e r key x :
  fetch e r key = Ok (Some x) →
  ∃ v exp, abs (fsm r) !! key = Some (v, exp) ∧ unmarshal v = Some x.
Proof.
  unfold fetch, Store_Get. rewrite Get_abs.
  destruct (abs (fsm r) !! key) as [[v exp]|]; [|done]. intros. case_all. eauto.
Qed.

Record raft_wf (s : RaftSecretStore) : Prop := {
  wf_cache : ∀ k x, cache s !! k = Some x → k = cache_key (ref_of x);
  wf_raft : ∀ ref v exp x, abs (fsm (raftStore s)) !! cache_key ref = Some (v, exp) →
    unmarshal v = Some x → ref_of x = ref
}.

Lemma raft_wf_Save `{!SecretCodecLaws} e s x : raft_wf s → raft_wf (raft_Save e s x).1.
Proof.
  intros [Hc Hr]. destruct (raft_Save_store e s x) as [[-> _]|(r & -> & Hab)]; [done|]. simpl.
  split; simpl.
  - intros k y [[<- <-]|[_ Hk]]%lookup_insert_Some; eauto.
  - intros ref v exp y. rewrite Hab.
    intros [[Heq%cache_key_inj [= <- _]]|[_ Hk]]%lookup_insert_Some; [|eauto].
    rewrite unmarshal_marshal. intros [= <-]. by rewrite json_copy_equiv.
Qed.

Lemma raft_get_ref e s ns n x :
  raft_wf s → got e s ns n = Ok (Some x) →
  ref_of x = secret_ref ns n ∧ ns ≠ EmptyString ∧ n ≠ EmptyString.
Proof.
  intros [Hc Hr]. rewrite raft_got. case_match eqn:Hreq; [done|]. bool_to_prop.
  destruct (cache s !! _) as [y|] eqn:Hy.
  - intros [= <-]. apply Hc, cache_key_inj in Hy. done.
  - intros (v & exp & Hv & Hu)%fetch_Some. by rewrite (Hr _ _ _ _ Hv Hu).
Qed.

Lemma raft_wf_Get e s ns n : raft_wf s → raft_wf (raft_Get e s ns n).1.
Proof.
  intros Hwf. pose proof Hwf as [Hc Hr]. rewrite raft_Get_store. split; simpl; [|done].
  unfold cache_after. destruct (got e s ns n) as [[x|]|] eqn:Hg; [|done..].
  intros k y [[<- <-]|[_ Hk]]%lookup_insert_Some; [|eauto].
  by destruct (raft_get_ref e s ns n x Hwf Hg) as (-> & _).
Qed.

(** Two stores that agree at a key answer alike for its reference. *)
Lemma raft_got_local e (s s' : RaftSecretStore) ns n :
  cache s' !! cache_key (secret_ref ns n) = cache s !! cache_key (secret_ref ns n) →
  abs (fsm (raftStore s')) !! cache_key (secret_ref ns n) =
    abs (fsm (raftStore s)) !! cache_key (secret_ref ns n) →
  got e s' ns n = got e s ns n.
Proof. intros Hc Hr. rewrite !raft_got, Hc. by rewrite (fetch_abs _ _ _ _ Hr). Qed.

Lemma cache_key_ne r r' : r ≠ r' → cache_key r' ≠ cache_key r.
Proof. intros Hne Heq. by apply Hne, cache_key_inj. Qed.

#[export] Program Instance raft_laws `{!SecretCodecLaws} : StoreLaws RaftSecretStore := {|
  st_wf := raft_wf
|}.
Next Obligation. intros. by apply raft_wf_Get. Qed.
Next Obligation. intros. by apply raft_wf_Save. Qed.
Next Obligation.
  intros L s x [Hc Hr]. simpl. unfold raft_mutate. case_match; [|done]. split; [|done]. simpl.
  intros k y [[<- <-]|[_ Hk]]%lookup_insert_Some; eauto.
Qed.
Next Obligation. intros L e s ns n x. apply raft_get_ref. Qed.
Next Obligation. intros L e s ns n Hr. by rewrite raft_got, required_true. Qed.
Next Obligation.
  intros L e s ns n ns' n' Hr ? ? ? ?. by rewrite !raft_got, !required_false, Hr.
Qed.
Next Obligation.
  intros L e e' s ns n x Hx. simpl. rewrite raft_Get_store. unfold cache_after. rewrite Hx.
  rewrite raft_got in Hx |- *. case_match; [done|]. simpl. by rewrite lookup_insert_eq.
Qed.
Next Obligation.
  intros L e s ns n Hx. simpl. rewrite raft_Get_store. unfold cache_after.
  destruct (got e s ns n) as [[x|]|]; [by destruct (Hx x)|by destruct s..].
Qed.
Next Obligation.
  intros L e s ns n e' ns' n' Hne. simpl. rewrite raft_Get_store. apply raft_got_local; [|done].
  simpl. unfold cache_after. repeat case_match; try done.
  by apply lookup_insert_ne, cache_key_ne.
Qed.
Next Obligation.
  intros L e s x e' ns n Hne. simpl.
  destruct (raft_Save_store e s x) as [[-> _]|(r & -> & Hab)]; [done|].
  apply raft_got_local; simpl; rewrite ?Hab; by apply lookup_insert_ne, cache_key_ne.
Qed.
Next Obligation.
  intros L s x e ns n Hne. simpl. unfold raft_mutate. case_match; [|done].
  apply raft_got_local; [|done]. by apply lookup_insert_ne, cache_key_ne.
Qed.
Next Obligation.
  intros L e e' s x ns n. simpl.
  destruct (raft_Save_store e s x) as [[_ ?]|(r & -> & Hab)]; [done|]. intros _ Hr Hns Hn.
  rewrite raft_got, required_false by done. simpl. rewrite Hr, lookup_insert_eq. eauto.
Qed.

End raft_laws.

(** ** Complete listings *)

(** [List] without a filter returns every secret that [Get] finds, once. *)
Record listed {S} `{SecretStore S} (s : S) : Prop := {
  list_refs : NoDup (ref_of <$> st_List s no_filter);
  list_sound : ∀ y e ns n, y ∈ st_List s no_filter → ref_of y = secret_ref ns n →
    ns ≠ EmptyString → n ≠ EmptyString → ∃ x, got e s ns n = Ok (Some x) ∧ x ≡ y;
  list_complete : ∀ e ns n x, got e s ns n = Ok (Some x) →
    secret_ref ns n ∈ ref_of <$> st_List s no_filter
}.

Lemma no_filter_all `{GoRange} {B} (f : Secret → B) l :
  limit_offset no_filter (f <$> List.filter (matches_filter no_filter) l) = f <$> l.
Proof.
  assert (List.filter (matches_filter no_filter) l = l) as ->; [|done].
  assert (range_map (∅ : gmap string string) = []) as Hr.
  { apply length_zero_iff_nil. by rewrite range_map_length. }
  induction l as [|x l IH]; simpl; [done|]. unfold matches_filter at 1. simpl. by rewrite Hr, IH.
Qed.

Lemma elem_of_values `{GoRange} {B} (m : gmap string B) x :
  x ∈ (range_map m).*2 ↔ ∃ k, m !! k = Some x.
Proof.
  rewrite list_elem_of_fmap. split.
  - intros ([k y] & -> & Hk). exists k. by apply elem_of_range_map.
  - intros [k Hk]. exists (k, x). by rewrite elem_of_range_map.
Qed.

(** When a map holds each secret under a key made of its reference, the
    references of its values do not repeat. *)
Lemma values_refs `{GoRange} (key : string → string) (m : gmap string Secret) :
  (∀ r r', key r = key r' → r = r') → (∀ k x, m !! k = Some x → k = key (ref_of x)) →
  NoDup (ref_of <$> (range_map m).*2).
Proof.
  intros Hinj Hm. apply (NoDup_fmap_1 key). rewrite <-list_fmap_compose.
  assert (key ∘ ref_of <$> (range_map m).*2 = (range_map m).*1) as ->; [|apply range_map_keys].
  assert (∀ kx, kx ∈ range_map m → kx.1 = key (ref_of kx.2)) as Hall.
  { intros [k x] Hk. simpl. apply Hm. by apply elem_of_range_map. }
  induction (range_map m) as [|kx l IH]; [done|]. csimpl. f_equal.
  - symmetry. apply Hall. in_list.
  - apply IH. intros kx' Hkx'. apply Hall. by right.
Qed.

Lemma mem_List_all `{GoRange} (s : InMemorySecretStore) :
  st_List s no_filter = json_copy <$> (range_map (secrets s)).*2.
Proof. simpl. unfold mem_List. apply no_filter_all. Qed.

Lemma mem_listed `{GoRange} (s : InMemorySecretStore) : st_wf s → listed s.
Proof.
  intros Hwf. simpl in Hwf.
  assert (ref_of <$> st_List s no_filter = ref_of <$> (range_map (secrets s)).*2) as Hrefs.
  { rewrite mem_List_all, <-list_fmap_compose. apply list_fmap_ext. intros _ x _. simpl.
    by rewrite json_copy_equiv. }
  split.
  - rewrite Hrefs. apply (values_refs id); [done|]. apply Hwf.
  - intros y e ns n Hy Hr Hns Hn. rewrite mem_List_all in Hy.
    apply list_elem_of_fmap in Hy as (x & -> & Hx). apply elem_of_values in Hx as [k Hk].
    rewrite mem_got, required_false by done. rewrite json_copy_equiv in Hr.
    rewrite <-Hr, <-(Hwf k x Hk), Hk. simpl. eauto.
  - intros e ns n x. rewrite mem_got, Hrefs. case_match; [done|]. intros [= Hx].
    apply fmap_Some in Hx as (y & Hy & _). rewrite (Hwf _ _ Hy).
    apply list_elem_of_fmap_2, elem_of_values. eauto.
Qed.

(** The Raft-backed store lists its cache: the listing is complete once every
    stored secret has been read or written on this node. *)
Lemma raft_listed `{GoRange, SecretCodec} (s : RaftSecretStore) :
  raft_wf s →
  (∀ e ref x, fetch e (raftStore s) (cache_key ref) = Ok (Some x) →
     is_Some (cache s !! cache_key ref)) →
  listed s.
Proof.
  intros [Hc Hr] Hfull.
  assert (st_List s no_filter = (range_map (cache s)).*2) as Hall.
  { simpl. unfold raft_List. rewrite <-(list_fmap_id (List.filter _ _)), no_filter_all.
    apply list_fmap_id. }
  split; rewrite Hall.
  - apply (values_refs cache_key); [apply cache_key_inj|done].
  - intros y e ns n [k Hk]%elem_of_values Href Hns Hn. rewrite raft_got, required_false by done.
    rewrite <-Href, <-(Hc _ _ Hk), Hk. eauto.
  - intros e ns n x. rewrite raft_got. case_match; [done|]. intros Hx.
    assert (is_Some (cache s !! cache_key (secret_ref ns n))) as [y Hy]
      by (case_match eqn:Hmiss; [by eexists|rewrite <-Hmiss; by eapply Hfull]).
    rewrite (cache_key_inj _ _ (Hc _ _ Hy)). apply list_elem_of_fmap_2, elem_of_values. eauto.
Qed.

(** ** A codec that satisfies the laws *)

#[export] Instance secret_eq_dec : EqDecision Secret.
Proof. solve_decision. Defined.

#[export] Instance secret_countable : Countable Secret.
Proof.
  apply (inj_countable' (fun x => (sec_Name x, sec_Namespace x, sec_Description x, sec_Labels x,
    sec_Annotations x, sec_Data x, sec_EncryptedDataKey x, sec_KeyID x, sec_Algorithm x,
    (sec_Audiences x, sec_TTL x, sec_Version x, sec_Immutable x, sec_CreatedAt x, sec_UpdatedAt x,
     sec_RotatedAt x, sec_ExpiresAt x, sec_DeletedAt x, sec_DeleteAfter x)))
    (fun '(n, ns, de, la, an, da, ed, ki, al, (au, lt, ve, im, ca, ua, ra, ea, dl, df)) =>
      Build_Secret n ns de la an da ed ki al au lt ve im ca ua ra ea dl df)).
  by intros [].
Defined.

Fixpoint bits (p : positive) : string :=
  match p with
  | xH => "{"
  | xO q => String "0" (bits q)
  | xI q => String "1" (bits q)
  end.

Fixpoint of_bits (s : string) : positive :=
  match s with
  | String "0" t => xO (of_bits t)
  | String "1" t => xI (of_bits t)
  | _ => xH
  end.

Definition bit_codec : SecretCodec := {|
  marshal := fun x => bits (countable.encode (json_copy x));
  unmarshal := fun s => countable.decode (of_bits s)
|}.

#[export] Instance bit_codec_laws : @SecretCodecLaws bit_codec.
Proof.
  assert (∀ p, of_bits (bits p) = p) as Hbits.
  { intros p. induction p as [p IH|p IH|]; simpl; by rewrite ?IH. }
  split; intros x.
  - simpl. rewrite Hbits. apply decode_encode.
  - simpl. by destruct (countable.encode (json_copy x)).
Qed.
