(* ===== verification/SecretManager.v ===== *)
(** * The secret manager is correct (pkg/secrets/manager.go)

    The abstract view of a manager, [plain], is the plaintext that a holder of
    a valid token reads.  Creating, updating, deleting and rotating the master
    key are specified by their effect on it, over any store that satisfies
    [StoreLaws].  The last part shows what a rotation that fails half-way, or
    that runs after a restart, does to the stored secrets. *)

From S2P Require Import Prelude GoText RaftFSM SecretCrypto SecretTokens Secrets SecretStores.

(** ** Loops over maps *)

Lemma collect_err {A B} (f : string → A → result string B) l e :
  foldl (fun acc kv =>
    match acc with
    | Err e => Err e
    | Ok r => match f kv.1 kv.2 with Err e => Err e | Ok b => Ok (<[kv.1 := b]> r) end
    end) (Err e) l = Err e :> result string (gmap string B).
Proof. induction l; simpl; auto. Qed.

Lemma collect_loop {A B} (f : string → A → result string B) l (acc r : gmap string B) :
  NoDup l.*1 →
  foldl (fun acc kv =>
    match acc with
    | Err e => Err e
    | Ok r => match f kv.1 kv.2 with Err e => Err e | Ok b => Ok (<[kv.1 := b]> r) end
    end) (Ok acc) l = Ok r ↔
  ∀ k, match (list_to_map l : gmap string A) !! k with
       | Some a => ∃ b, f k a = Ok b ∧ r !! k = Some b
       | None => r !! k = acc !! k
       end.
Proof.
  revert acc. induction l as [|[j a] l IH]; intros acc Hnd; csimpl.
  { split; [by intros [= ->]|]. intros Hk. f_equal. apply map_eq. intros k.
    specialize (Hk k). rewrite lookup_empty in Hk. done. }
  apply NoDup_cons in Hnd as [Hj Hnd].
  assert ((list_to_map l : gmap string A) !! j = None) as Hlj by (by apply not_elem_of_list_to_map_1).
  destruct (f j a) as [b|e] eqn:Hf.
  - rewrite IH by done. split; intros Hk k; specialize (Hk k).
    + destruct (decide (k = j)) as [->|Hne].
      * rewrite Hlj, lookup_insert_eq in Hk. rewrite lookup_insert_eq. eauto.
      * rewrite (lookup_insert_ne (list_to_map l)) by done.
        case_match; [done|]. by rewrite lookup_insert_ne in Hk.
    + destruct (decide (k = j)) as [->|Hne].
      * rewrite lookup_insert_eq in Hk. destruct Hk as (b' & Hb' & Hr).
        rewrite Hlj, lookup_insert_eq. congruence.
      * rewrite (lookup_insert_ne (list_to_map l)) in Hk by done.
        case_match; [done|]. by rewrite lookup_insert_ne.
  - rewrite collect_err. split; [done|]. intros Hk. specialize (Hk j).
    rewrite lookup_insert_eq in Hk. destruct Hk as (? & ? & _). congruence.
Qed.

(** The collected map is the pointwise image. *)
Lemma collect_Ok `{GoRange} {A B} (f : string → A → result string B) m r :
  collect f m = Ok r ↔
  ∀ k, match m !! k with
       | Some a => ∃ b, f k a = Ok b ∧ r !! k = Some b
       | None => r !! k = None
       end.
Proof.
  unfold collect. rewrite collect_loop by apply range_map_keys. by rewrite list_to_range_map.
Qed.

Lemma collect_total `{GoRange} {A B} (f : string → A → result string B) m :
  (∀ k a, m !! k = Some a → ∃ b, f k a = Ok b) → ∃ r, collect f m = Ok r.
Proof.
  intros Hf. set (g k a := match f k a with Ok b => Some b | Err _ => None end).
  exists (map_imap g m). apply collect_Ok. intros k. rewrite map_lookup_imap.
  destruct (m !! k) as [a|] eqn:Hk; [|done]. destruct (Hf k a Hk) as [b Hb].
  exists b. simpl. unfold g. by rewrite Hb.
Qed.

(** ** Annotations *)

Lemma edk_key_inj k k' : edk_key k = edk_key k' ↔ k = k'.
Proof. unfold edk_key. split; [by intros Heq; apply (inj _) in Heq|by intros ->]. Qed.

Lemma nonce_key_inj k k' : nonce_key k = nonce_key k' ↔ k = k'.
Proof. unfold nonce_key. split; [by intros Heq; apply (inj _) in Heq|by intros ->]. Qed.

Lemma edk_ne_nonce k k' : edk_key k ≠ nonce_key k'.
Proof. unfold edk_key, nonce_key. simpl_append. done. Qed.

(** The two annotations of a value say what they should. *)
Definition annotated (a : gmap string string) (k : string) (env : Envelope) : Prop :=
  a !! edk_key k = Some (hex_encode (env_key env)) ∧
  a !! nonce_key k = Some (hex_encode (env_nonce env)).

Lemma annotate_lookup a k env : annotated (annotate a (k, env)) k env.
Proof.
  unfold annotated, annotate. simpl.
  rewrite lookup_insert_ne by (apply not_eq_sym, edk_ne_nonce). by rewrite !lookup_insert_eq.
Qed.

Lemma annotate_other a k k' env :
  k ≠ k' → annotate a (k', env) !! edk_key k = a !! edk_key k ∧
           annotate a (k', env) !! nonce_key k = a !! nonce_key k.
Proof.
  intros Hne. unfold annotate. simpl.
  rewrite !lookup_insert_ne; rewrite ?edk_key_inj, ?nonce_key_inj; try done;
    auto using edk_ne_nonce, not_eq_sym.
Qed.

Lemma annotate_loop l a k env :
  NoDup l.*1 → (k, env) ∈ l ∨ ((k ∉ l.*1) ∧ annotated a k env) →
  annotated (foldl annotate a l) k env.
Proof.
  intros Hnd. revert a. induction l as [|[j v] l IH]; intros a; csimpl.
  { intros [?%elem_of_nil|[_ ?]]; done. }
  apply NoDup_cons in Hnd as [Hj Hnd]. intros [Hin|[Hout Ha]]; apply (IH Hnd).
  - apply elem_of_cons in Hin as [[= -> ->]|Hin]; [|by left]. right. split; [done|].
    apply annotate_lookup.
  - right. apply not_elem_of_cons in Hout as [Hne Hout]. split; [done|].
    destruct (annotate_other a k j v Hne) as [H1 H2]. destruct Ha. split; congruence.
Qed.

Lemma annotate_all `{GoRange} (envs : gmap string Envelope) a k env :
  envs !! k = Some env → annotated (foldl annotate a (range_map envs)) k env.
Proof.
  intros Hk. apply annotate_loop; [apply range_map_keys|]. left. by apply elem_of_range_map.
Qed.

(** ** Sealed values *)

(** An envelope that opens to [p] under the encryptor. *)
Definition seals `{AEAD} (e : EnvelopeEncryptor) (p : string) (env : Envelope) : Prop :=
  slen (env_nonce env) = NonceSize ∧ env_key env ≠ EmptyString ∧
  Decrypt e (env_data env) (env_key env) (env_nonce env) = Ok p.

(** Every value of [data] is sealed in [envs], and nothing else is. *)
Definition sealed_map `{AEAD} (e : EnvelopeEncryptor) (data : gmap string string)
    (envs : gmap string Envelope) : Prop :=
  ∀ k, match data !! k with
       | Some p => ∃ env, envs !! k = Some env ∧ seals e p env
       | None => envs !! k = None
       end.

Section sealing.
Context `{GoRange} {A : AEAD} {HA : AEADLaws A}.

Lemma encrypt_all_sealed rnd e data envs :
  key_ok (masterKey e) → (∀ k, rand_ok (rnd k)) → encrypt_all rnd e data = Ok envs →
  sealed_map e data envs.
Proof.
  intros Hk Hr Henc k. destruct e as [mk]. simpl in Hk.
  unfold encrypt_all in Henc. rewrite collect_Ok in Henc. specialize (Henc k).
  destruct (data !! k) as [p|]; [|done]. destruct Henc as (env & Hf & ?). exists env.
  split; [done|]. destruct (Encrypt (rnd k) _ p) as [env'|] eqn:He; [|done]. simplify_eq.
  by apply (Decrypt_Encrypt (rnd k)).
Qed.

Lemma encrypt_all_total rnd e data :
  key_ok (masterKey e) → (∀ k, rand_ok (rnd k)) →
  (∀ k p, data !! k = Some p → 0 < slen p ≤ MaxSecretSize) →
  ∃ envs, encrypt_all rnd e data = Ok envs.
Proof.
  intros Hk Hr Hd. apply collect_total. intros k p Hp. destruct e as [mk].
  destruct (Encrypt_ok (rnd k) mk p Hk (Hr k) (Hd k p Hp)) as [env ->]. eauto.
Qed.

Lemma slen_nonempty s : 0 < slen s → (s =?s "") = false.
Proof. intros Hs. apply bool_decide_eq_false_2. by intros ->. Qed.

Lemma hex_nonempty s : s ≠ EmptyString → negb (hex_encode s =?s "") = true.
Proof. intros Hs. rewrite bool_decide_eq_false_2; [done|]. by intros ?%hex_encode_empty. Qed.

Lemma decrypt_value_seals e x k p env :
  annotated (default ∅ (sec_Annotations x)) k env → seals e p env →
  decrypt_value e x k (env_data env) = Ok p.
Proof.
  intros [He Hn] (Hl & Hne & Hdec). unfold decrypt_value, annotation. rewrite He, Hn. simpl.
  rewrite !hex_nonempty, !hex_roundtrip by (try done; by intros Heq; rewrite Heq in Hl). simpl.
  by rewrite Hdec.
Qed.

(** A secret whose values and annotations come from sealed envelopes. *)
Lemma decrypt_all_sealed e x data envs :
  sealed_map e data envs → sec_Data x = env_data <$> envs →
  (∀ k env, envs !! k = Some env → annotated (default ∅ (sec_Annotations x)) k env) →
  decrypt_all e x = Ok data.
Proof.
  intros Hs Hd Ha. apply collect_Ok. intros k. rewrite Hd, lookup_fmap. specialize (Hs k).
  destruct (data !! k) as [p|] eqn:Hp.
  - destruct Hs as (env & Hk & Henv). rewrite Hk. simpl. exists p. split; [|done].
    apply decrypt_value_seals; auto.
  - by rewrite Hs.
Qed.

#[export] Instance decrypt_all_proper e : Proper ((≡) ==> (=)) (decrypt_all e).
Proof.
  intros x y Hxy. pose proof (equiv_fields x y Hxy) as (_ & _ & Hd & Hk & _).
  unfold decrypt_all, collect. rewrite Hd. apply foldl_pointwise. intros acc kv.
  assert (decrypt_value e x kv.1 kv.2 = decrypt_value e y kv.1 kv.2) as ->; [|done].
  unfold decrypt_value. by rewrite Hk, !(annotation_proper x y Hxy _ _ eq_refl).
Qed.

End sealing.

(** ** The abstract view *)

Section manager.
Context {S : Type} `{GoRange} {A : AEAD} {HA : AEADLaws A} `{JWT, SecretStore S, !StoreLaws S}.

(** The plaintext of a stored secret that is not deleted. *)
Definition plain_secret (e : EnvelopeEncryptor) (x : Secret) : option (gmap string string) :=
  match sec_DeletedAt x with
  | Some _ => None
  | None => match decrypt_all e x with Ok d => Some d | Err _ => None end
  end.

(** The plaintext a holder of a valid token reads. *)
Definition plain (env : StoreEnv) (m : Manager S) (namespace name : string)
    : option (gmap string string) :=
  match got env (m_store m) namespace name with
  | Ok (Some x) => plain_secret (m_encryptor m) x
  | _ => None
  end.

(** A secret that is not deleted exists under the reference. *)
Definition taken (env : StoreEnv) (m : Manager S) (ns n : string) : bool :=
  match got env (m_store m) ns n with
  | Ok (Some x) => match sec_DeletedAt x with None => true | Some _ => false end
  | _ => false
  end.

Record manager_ok (m : Manager S) : Prop := {
  ok_key : key_ok (masterKey (m_encryptor m));
  ok_store : st_wf (m_store m)
}.

(** Reads of all other references are as before. *)
Definition others_plain (ref : string) (m m' : Manager S) : Prop :=
  ∀ env ns n, secret_ref ns n ≠ ref →
    plain env m' ns n = plain env m ns n ∧ taken env m' ns n = taken env m ns n.

Lemma others_plain_kept ref (m m' : Manager S) :
  m_encryptor m' = m_encryptor m → others_kept ref (m_store m) (m_store m') →
  others_plain ref m m'.
Proof. intros He Hs env ns n Hne. unfold plain, taken. by rewrite He, Hs. Qed.

Lemma plain_secret_equiv e x y : x ≡ y → plain_secret e x = plain_secret e y.
Proof.
  intros Hxy. unfold plain_secret. rewrite (decrypt_all_proper e x y Hxy).
  pose proof (equiv_fields x y Hxy) as (_ & _ & _ & _ & _ & _ & _ & _ & _ & -> & _). done.
Qed.

(** Saving makes the secret's plaintext readable under its reference. *)
Lemma save_plain e env (s : S) x ns n k (m : Manager S) :
  (st_Save e s x).2 = None → m_store m = (st_Save e s x).1 → m_encryptor m = k →
  ref_of x = secret_ref ns n → ns ≠ EmptyString → n ≠ EmptyString →
  plain env m ns n = plain_secret k x.
Proof.
  intros Hs Hm Hk Hr Hns Hn. unfold plain.
  destruct (save_get e env s x ns n Hs Hr Hns Hn) as (y & Hy & Hyx).
  rewrite Hm, Hk, Hy. by apply plain_secret_equiv.
Qed.

(** *** Creating *)

(** The options set labels, access rules and expiry, nothing else. *)
Lemma options_keep opts x :
  let y := foldl apply_option x opts in
  ref_of y = ref_of x ∧ sec_Data y = sec_Data x ∧ sec_Version y = sec_Version x ∧
  sec_DeletedAt y = sec_DeletedAt x.
Proof.
  revert x. induction opts as [|o opts IH]; intros x; simpl; [done|].
  destruct (IH (apply_option x o)) as (-> & -> & -> & ->). by destruct o.
Qed.

Lemma validate_values_None l :
  validate_values l = None → ∀ k v, (k, v) ∈ l → 0 < slen v ≤ MaxSecretSize.
Proof.
  induction l as [|[j w] l IH]; simpl; intros Hv k v Hin; [by apply elem_of_nil in Hin|].
  case_all. bool_to_prop. apply elem_of_cons in Hin as [[= -> ->]|Hin]; [|eauto].
  pose proof (slen_nonneg w). lia.
Qed.

Lemma validateSecretData_None data :
  validateSecretData data = None → ∀ k v, data !! k = Some v → 0 < slen v ≤ MaxSecretSize.
Proof.
  unfold validateSecretData. intros Hv k v Hk. case_all.
  eapply validate_values_None; [done|]. by apply elem_of_range_map.
Qed.

Lemma validateSecretName_None ns n :
  validateSecretName ns n = None → ns ≠ EmptyString ∧ n ≠ EmptyString.
Proof. unfold validateSecretName. intros. case_all. by bool_to_prop. Qed.

(** The manager that [CreateSecret], [UpdateSecret] and [DeleteSecret] reach
    when they save [x]. *)
Lemma saved_manager (m m' : Manager S) e (s : S) x ref :
  manager_ok m → st_wf s → others_kept ref (m_store m) s → ref_of x = ref →
  m_encryptor m' = m_encryptor m → m_store m' = (st_Save e s x).1 →
  manager_ok m' ∧ others_plain ref m m'.
Proof.
  intros [Hk Hs] Hwf Hoth <- He Hm. split.
  - split; rewrite ?He, ?Hm; [done|]. by apply wf_Save.
  - apply others_plain_kept; [done|]. rewrite Hm. etrans; [done|]. apply save_others.
Qed.

(** The manager after [Get], which may have filled the store's cache. *)
Lemma read_manager e (m : Manager S) ns n :
  manager_ok m →
  let m' := set_store m (st_Get e (m_store m) ns n).1 in
  manager_ok m' ∧ others_plain (secret_ref ns n) m m'.
Proof.
  intros [Hk Hwf]. simpl. split; [split; [done|by apply wf_Get]|].
  apply others_plain_kept; [done|]. apply get_others.
Qed.

(** What a successful [CreateSecret] did. *)
Lemma CreateSecret_Ok i (m m' : Manager S) ns n data opts x :
  CreateSecret i m ns n data opts = (m', Ok x) →
  let save := st_Save (in_save i) (st_Get (in_get i) (m_store m) ns n).1 x in
  validateSecretName ns n = None ∧ validateSecretData data = None ∧
  taken (in_get i) m ns n = false ∧
  ref_of x = secret_ref ns n ∧ sec_Version x = 1 ∧ sec_DeletedAt x = None ∧
  (∃ envs, encrypt_all (in_rand i) (m_encryptor m) data = Ok envs ∧
     sec_Data x = env_data <$> envs ∧
     ∀ k env, envs !! k = Some env → annotated (default ∅ (sec_Annotations x)) k env) ∧
  save.2 = None ∧ m_store m' = save.1 ∧ m_encryptor m' = m_encryptor m ∧
  m_masterKey m' = m_masterKey m ∧ m_tokens m' = m_tokens m.
Proof.
  unfold CreateSecret, taken, got. cbn zeta.
  destruct (validateSecretName ns n); [done|]. destruct (validateSecretData data); [done|].
  destruct (st_Get (in_get i) (m_store m) ns n) as [s1 existing]. cbn [fst snd].
  destruct (match existing with Ok (Some _) => _ | _ => _ end) eqn:Ht; [done|].
  simpl. destruct (encrypt_all _ _ _) as [envs|]; [|done].
  match goal with |- context [foldl apply_option ?y opts] =>
    pose proof (options_keep opts y) as (Hr & Hd & Hv & Hdel);
    set (y' := foldl apply_option y opts) in * end.
  match goal with |- context [st_Save _ s1 ?y] => set (z := y) end.
  destruct (st_Save (in_save i) s1 z) as [s2 [e|]] eqn:Hsave; [done|].
  intros [= <- <-]. rewrite Hsave. do 6 (split; [done|]). split; [|done].
  exists envs. split; [done|]. split; [done|]. intros k env Hk. by apply annotate_all.
Qed.

(** Why a [CreateSecret] failed, and what it left. *)
Lemma CreateSecret_Err i (m m' : Manager S) ns n data opts err :
  manager_ok m → (∀ k, rand_ok (in_rand i k)) →
  CreateSecret i m ns n data opts = (m', Err err) →
  (manager_ok m' ∧ m_tokens m' = m_tokens m ∧ others_plain (secret_ref ns n) m m') ∧
  (validateSecretName ns n ≠ None ∨ validateSecretData data ≠ None ∨
   taken (in_get i) m ns n = true ∨
   ∃ x, (st_Save (in_save i) (st_Get (in_get i) (m_store m) ns n).1 x).2 ≠ None).
Proof.
  intros Hok Hrand. unfold CreateSecret, taken, got.
  destruct (validateSecretName ns n); [intros [= <- _]; split; [done|by left]|].
  destruct (validateSecretData data) eqn:Hdata; [intros [= <- _]; split; [done|by right; left]|].
  pose proof (read_manager (in_get i) m ns n Hok) as [Hok1 Hoth1].
  pose proof (wf_Get (in_get i) (m_store m) ns n (ok_store _ Hok)) as Hwf1.
  pose proof (get_others (in_get i) (m_store m) ns n) as Hkept.
  destruct (st_Get (in_get i) (m_store m) ns n) as [s1 existing]. cbn [fst snd] in *.
  destruct (match existing with Ok (Some _) => _ | _ => _ end) eqn:Ht; [intros [= <- _]; by auto|].
  simpl. destruct (encrypt_all_total (in_rand i) (m_encryptor m) data (ok_key _ Hok) Hrand
    (validateSecretData_None data Hdata)) as [envs ->].
  match goal with |- context [foldl apply_option ?y opts] =>
    pose proof (options_keep opts y) as (Hr & _ & _ & _) end.
  match goal with |- context [st_Save _ s1 ?y] => set (z := y) end.
  destruct (st_Save (in_save i) s1 z) as [s2 [e|]] eqn:Hsave; [|done]. intros [= <- _].
  destruct (saved_manager m (set_store (set_store m s1) s2) (in_save i) s1 z (secret_ref ns n))
    as [Hok' Hoth]; try done; [by rewrite Hsave|].
  split; [done|]. right; right; right. exists z. by rewrite Hsave.
Qed.

(** Creating a secret implements the abstract view: it succeeds exactly
    when name and data are valid, the name is free and the store saves it;
    then the new secret has version 1 and its plaintext is the given data, no
    token is touched, and every other secret reads as before.  A failure
    changes no other secret either. *)
Theorem create_secret_spec i m ns n data opts :
  manager_ok m → (∀ k, rand_ok (in_rand i k)) →
  let '(m', res) := CreateSecret i m ns n data opts in
  manager_ok m' ∧ m_tokens m' = m_tokens m ∧ others_plain (secret_ref ns n) m m' ∧
  match res with
  | Ok x => validateSecretName ns n = None ∧ validateSecretData data = None ∧
            taken (in_get i) m ns n = false ∧
            sec_Version x = 1 ∧ ∀ env, plain env m' ns n = Some data
  | Err _ => validateSecretName ns n ≠ None ∨ validateSecretData data ≠ None ∨
             taken (in_get i) m ns n = true ∨
             ∃ x, (st_Save (in_save i) (st_Get (in_get i) (m_store m) ns n).1 x).2 ≠ None
  end.
Proof.
  intros Hok Hrand. destruct (CreateSecret i m ns n data opts) as [m' [x|err]] eqn:Hc.
  - apply CreateSecret_Ok in Hc as (Hname & Hdata & Ht & Hr & Hv & Hdel & (envs & Henvs & Hd & Ha)
      & Hsave & Hm & He & _ & Htok).
    pose proof (validateSecretName_None _ _ Hname) as [Hns Hn].
    destruct (saved_manager m m' (in_save i) (st_Get (in_get i) (m_store m) ns n).1 x (secret_ref ns n))
      as [Hok' Hoth]; try done; [by apply wf_Get, ok_store|apply get_others|].
    do 3 (split; [done|]). do 4 (split; [done|]). intros env.
    rewrite (save_plain (in_save i) env _ x ns n (m_encryptor m) m' Hsave Hm He Hr Hns Hn).
    unfold plain_secret. rewrite Hdel. rewrite (decrypt_all_sealed _ x data envs); [done| |done..].
    by apply (encrypt_all_sealed (in_rand i)); [apply ok_key|..].
  - apply CreateSecret_Err in Hc as [(? & ? & ?) ?]; auto.
Qed.

(** *** Reading *)

Lemma plain_Some env (m : Manager S) ns n d :
  plain env m ns n = Some d ↔
  ∃ x, got env (m_store m) ns n = Ok (Some x) ∧ sec_DeletedAt x = None ∧
       decrypt_all (m_encryptor m) x = Ok d.
Proof.
  unfold plain, plain_secret. split.
  - intros. case_all. eauto.
  - by intros (x & -> & -> & ->).
Qed.

(** The secret's own expiry has not passed. *)
Definition unexpired (now : Z) (x : Secret) : Prop := ∀ t, sec_ExpiresAt x = Some t → now ≤ t.

#[export] Instance unexpired_dec now x : Decision (unexpired now x).
Proof.
  unfold unexpired. destruct (sec_ExpiresAt x) as [t|].
  - destruct (decide (now ≤ t)); [left; congruence|right]. intros Hx. by specialize (Hx t eq_refl).
  - by left.
Defined.

Lemma unexpired_test now x :
  match sec_ExpiresAt x with Some t => t <? now | None => false end =
  negb (bool_decide (unexpired now x)).
Proof.
  unfold unexpired. case_bool_decide as Hx; simpl.
  - destruct (sec_ExpiresAt x) as [t|]; [|done]. specialize (Hx t eq_refl). lia.
  - destruct (sec_ExpiresAt x) as [t|] eqn:Ht; [|by destruct Hx].
    apply Z.ltb_lt. destruct (decide (now ≤ t)); [|lia]. destruct Hx. congruence.
Qed.

Definition response_data (r : result string SecretAccessResponse) : option (gmap string string) :=
  match r with Ok resp => Some (resp_Data resp) | Err _ => None end.

(** The answer of [GetSecret], without its messages. *)
Lemma GetSecret_data i r (m : Manager S) req :
  let ns := req_Namespace req in
  let n := req_SecretName req in
  let v := ValidateToken r (m_tokens m) (req_AccessToken req) (secret_ref ns n) (req_Audience req) in
  m_tokens (GetSecret i r m req).1 = v.1 ∧
  response_data (GetSecret i r m req).2 =
  match v.2, got (in_get i) (m_store m) ns n with
  | Ok _, Ok (Some x) =>
      if decide (unexpired (in_clock i 0%nat) x) then plain_secret (m_encryptor m) x else None
  | _, _ => None
  end.
Proof.
  cbn zeta. unfold GetSecret, got, plain_secret.
  destruct (ValidateToken _ _ _ _ _) as [tm [claims|err]]; [|done].
  destruct (st_Get _ _ _ _) as [s1 [[x|]|e]]; [|done..]. cbn [fst snd].
  destruct (sec_DeletedAt x); [by case_decide|]. rewrite unexpired_test, decide_bool_decide.
  destruct (bool_decide _); simpl; [|done]. by destruct (decrypt_all _ x).
Qed.

Lemma response_data_Some r d :
  (∃ resp, r = Ok resp ∧ resp_Data resp = d) ↔ response_data r = Some d.
Proof.
  destruct r as [resp|e]; simpl; split.
  - by intros (? & [= <-] & <-).
  - intros [= <-]. eauto.
  - by intros (? & ? & _).
  - done.
Qed.

(** A secret is handed out exactly when the presented token is accepted
    for it and the requesting audience, the secret has not expired, and what
    is handed out is its plaintext; the token loses one use in every case in
    which it is accepted, and no use otherwise. *)
Theorem get_secret_spec i r m req d :
  let ns := req_Namespace req in
  let n := req_SecretName req in
  m_tokens (GetSecret i r m req).1 =
    (ValidateToken r (m_tokens m) (req_AccessToken req) (secret_ref ns n) (req_Audience req)).1 ∧
  ((∃ resp, (GetSecret i r m req).2 = Ok resp ∧ resp_Data resp = d) ↔
   (∃ claims tracked, accepted r (m_tokens m) (req_AccessToken req) (secret_ref ns n)
      (req_Audience req) claims tracked) ∧
   (∃ x, got (in_get i) (m_store m) ns n = Ok (Some x) ∧ unexpired (in_clock i 0%nat) x) ∧
   plain (in_get i) m ns n = Some d).
Proof.
  cbn zeta. destruct (GetSecret_data i r m req) as [-> Hdata]. split; [done|].
  rewrite response_data_Some, Hdata. unfold plain. clear Hdata.
  destruct (ValidateToken _ _ _ _ _) as [tm [claims|err]] eqn:Hv; simpl.
  - pose proof (proj1 (ValidateToken_ok _ _ _ _ _ _ _) Hv) as (tracked & Hacc & _).
    destruct (got _ _ _ _) as [[x|]|e]; [|by split; [|intros (_ & _ & ?)]..].
    case_decide as Hx; [by split; [eauto 10|intros (_ & _ & ?)]|].
    split; [done|]. by intros (_ & (y & [= <-] & ?) & _).
  - split; [done|]. intros ((claims & tracked & Hacc) & _).
    pose proof (proj2 (ValidateToken_ok _ _ _ _ _ _ _)
      (ex_intro _ tracked (conj Hacc eq_refl))). congruence.
Qed.

(** *** Access tokens *)

Definition audience_allowed (x : Secret) (audience : string) : Prop :=
  sec_Audiences x = [] ∨ audience ∈ sec_Audiences x ∨ "*"%string ∈ sec_Audiences x.

Lemma audience_test x audience :
  (0 <? len (sec_Audiences x)) &&
    negb (existsb (fun aud => (aud =?s audience) || (aud =?s "*")) (sec_Audiences x)) = false →
  audience_allowed x audience.
Proof.
  unfold audience_allowed, len. rewrite andb_false_iff, negb_false_iff, existsb_exists'.
  intros [Hlen|(aud & Hin & Haud)].
  - left. bool_to_prop. destruct (sec_Audiences x); [done|simpl in Hlen; lia].
  - right. apply orb_true_iff in Haud as [Haud|Haud]; bool_to_prop; subst; auto.
Qed.

Lemma GenerateAccessToken_ok i id (m m1 : Manager S) ns n aud ttl uses tok :
  GenerateAccessToken i id m ns n aud ttl uses = (m1, Ok tok) →
  ∃ x ttl', got (in_get i) (m_store m) ns n = Ok (Some x) ∧ sec_DeletedAt x = None ∧
    audience_allowed x aud ∧ m_store m1 = (st_Get (in_get i) (m_store m) ns n).1 ∧
    m_encryptor m1 = m_encryptor m ∧
    GenerateToken id (in_clock i 0%nat) (m_tokens m) (secret_ref ns n) aud ttl' uses =
      (m_tokens m1, Ok tok).
Proof.
  unfold GenerateAccessToken, got. destruct (st_Get _ _ _ _) as [s1 [[x|]|e]]; [|done..].
  destruct (sec_DeletedAt x) eqn:Hd; [done|]. destruct (_ && _) eqn:Haud; [done|].
  apply audience_test in Haud.
  destruct (GenerateToken _ _ _ _ _ _ _) as [tm [t|e]] eqn:Hg; [|done].
  intros [= <- <-]. exists x. eexists. repeat (split; [done|]). exact Hg.
Qed.

(** A token that was just issued is accepted until it expires. *)
Lemma fresh_token_accepted
    (valid : ∀ now key c t, sign key c = Ok t → cl_NotBefore c ≤ now < cl_ExpiresAt c →
       parse now key t = Ok c ∧ t ≠ EmptyString)
    id now tm ref aud ttl uses tm' tok r :
  GenerateToken id now tm ref aud ttl uses = (tm', Ok tok) → uses ≠ 0 →
  now ≤ at_parse r < numeric_date (tok_ExpiresAt tok) → at_check r ≤ tok_ExpiresAt tok →
  ∃ claims tracked, accepted r tm' (tok_Token tok) ref aud claims tracked.
Proof.
  intros Hg Hu Hp Hc. apply GenerateToken_ok in Hg as (Ht & Hk & Huses & _ & _ & _ & Hsign).
  destruct (valid (at_parse r) _ _ _ Hsign) as [Hparse Hne].
  { simpl. unfold numeric_date, second in *. pose proof (Z.mul_div_le now 1000000000). lia. }
  exists (claims_for ref aud id now (tok_ExpiresAt tok)), tok. unfold accepted.
  rewrite Hk, Ht. simpl. rewrite lookup_insert_eq. rewrite Huses. done.
Qed.

(** A token is issued only for a secret that exists, to an audience the
    secret allows, and for at most 24 hours; and until it expires it lets its
    holder read the secret's plaintext, unless the secret itself expires. *)
Theorem access_token_spec
    (valid : ∀ now key c t, sign key c = Ok t → cl_NotBefore c ≤ now < cl_ExpiresAt c →
       parse now key t = Ok c ∧ t ≠ EmptyString)
    i i' id m m1 ns n aud ttl uses tok r :
  GenerateAccessToken i id m ns n aud ttl uses = (m1, Ok tok) →
  ∃ x, got (in_get i) (m_store m) ns n = Ok (Some x) ∧ sec_DeletedAt x = None ∧
    audience_allowed x aud ∧
    tok_ExpiresAt tok ≤ in_clock i 0%nat + MaxTokenTTL ∧
    (uses ≠ 0 → in_clock i 0%nat ≤ at_parse r < numeric_date (tok_ExpiresAt tok) →
     at_check r ≤ tok_ExpiresAt tok → unexpired (in_clock i' 0%nat) x →
     response_data (GetSecret i' r m1
       {| req_SecretName := n; req_Namespace := ns; req_Audience := aud;
          req_AccessToken := tok_Token tok |}).2 = plain (in_get i) m ns n).
Proof.
  intros Hgen. apply GenerateAccessToken_ok in Hgen as (x & ttl' & Hx & Hd & Haud & Hs & He & Hg).
  pose proof (GenerateToken_ok _ _ _ _ _ _ _ _ _ Hg) as (_ & _ & _ & _ & _ & Hexp & _).
  exists x. repeat (split; [done || lia|]). intros Hu Hp Hc Hune.
  destruct (fresh_token_accepted valid _ _ _ _ _ _ _ _ _ r Hg Hu Hp Hc) as (claims & tracked & Hacc).
  pose proof (proj2 (ValidateToken_ok _ _ _ _ _ _ _) (ex_intro _ tracked (conj Hacc eq_refl))) as Hv.
  rewrite (proj2 (GetSecret_data i' r m1 _)). simpl. rewrite Hv. simpl.
  rewrite Hs, (get_again _ _ _ _ _ _ Hx), decide_True, He by done.
  unfold plain. by rewrite Hx.
Qed.

(** *** Updating and deleting *)

Lemma revoked_none tm ref id t :
  tokens (RevokeTokensForSecret tm ref).1 !! id = Some t → tok_SecretRef t ≠ ref.
Proof.
  unfold RevokeTokensForSecret. rewrite (proj2 (delete_where_spec _ _)).
  destruct (tokens tm !! id) as [t'|]; [|done]. intros. case_all. by bool_to_prop.
Qed.

(** Reading a secret and changing it in place touches no other reference. *)
Lemma mutated_store e (m : Manager S) ns n x y :
  manager_ok m → got e (m_store m) ns n = Ok (Some x) → ref_of y = ref_of x →
  let s2 := st_mutate (st_Get e (m_store m) ns n).1 y in
  st_wf s2 ∧ others_kept (secret_ref ns n) (m_store m) s2 ∧
  ref_of y = secret_ref ns n ∧ ns ≠ EmptyString ∧ n ≠ EmptyString.
Proof.
  intros [_ Hwf] Hx Hy. destruct (get_ref _ _ _ _ _ Hwf Hx) as (Hr & Hns & Hn).
  rewrite <-Hy in Hr. simpl. split; [by apply wf_mutate, wf_Get|]. split; [|done].
  etrans; [apply get_others|]. rewrite <-Hr. apply mutate_others.
Qed.

(** A value the encryptor accepts. *)
Definition value_ok (v : string) : Prop := 0 < slen v ≤ MaxSecretSize.

#[local] Instance value_ok_dec v : Decision (value_ok v).
Proof. unfold value_ok. apply _. Defined.

Lemma encrypt_all_error rnd e data err :
  key_ok (masterKey e) → (∀ k, rand_ok (rnd k)) → encrypt_all rnd e data = Err err →
  ∃ k v, data !! k = Some v ∧ ¬ value_ok v.
Proof.
  intros Hk Hr He. destruct (decide (map_Forall (fun _ v => value_ok v) data)) as [Hall|Hnot].
  - destruct (encrypt_all_total rnd e data Hk Hr) as [envs Henvs]; [|congruence].
    intros k p Hp. by apply (Hall k).
  - apply map_not_Forall in Hnot as (k & v & Hv & Hn); [eauto|apply _].
Qed.

Lemma annotations_after (envs : gmap string Envelope) (old ann : option (gmap string string)) :
  match old with
  | Some a => Some (Some (foldl annotate a (range_map envs)))
  | None => if Z.of_nat (size envs) =? 0 then Some None else None
  end = Some ann →
  ∀ k env, envs !! k = Some env → annotated (default ∅ ann) k env.
Proof.
  intros Hann k env Hk. destruct old as [a|]; [|case_match; [|done]]; simplify_eq/=.
  - by apply annotate_all.
  - bool_to_prop. assert (envs = ∅) as -> by (apply map_size_empty_inv; lia). done.
Qed.

Lemma sealed_map_empty e envs : sealed_map e ∅ envs → envs = ∅.
Proof. intros Hs. apply map_eq. intros k. specialize (Hs k). by rewrite lookup_empty in *. Qed.

(** Updating a secret replaces its plaintext by the given data, raises the
    version by one and revokes every token of the secret; it is refused for
    immutable and deleted secrets and for values that are empty or over 1 MiB,
    then without an effect on tokens.  Other secrets read as before.  The data
    is not validated as on creation: an empty set of values is accepted.  The
    only panic is on a stored secret without annotations. *)
Theorem update_secret_spec i m ns n data x :
  manager_ok m → (∀ k, rand_ok (in_rand i k)) →
  got (in_get i) (m_store m) ns n = Ok (Some x) →
  match UpdateSecret i m ns n data with
  | None => sec_Annotations x = None ∧ data ≠ ∅
  | Some (m', res) =>
      manager_ok m' ∧ others_plain (secret_ref ns n) m m' ∧
      match res with
      | Ok y =>
          sec_Immutable x = false ∧ sec_DeletedAt x = None ∧
          sec_Version y = uint64 (sec_Version x + 1) ∧
          (∀ env, plain env m' ns n = Some data) ∧
          ∀ id t, tokens (m_tokens m') !! id = Some t → tok_SecretRef t ≠ secret_ref ns n
      | Err _ =>
          m_tokens m' = m_tokens m ∧
          (sec_Immutable x = true ∨ sec_DeletedAt x ≠ None ∨
           (∃ k v, data !! k = Some v ∧ ¬ value_ok v) ∨
           ∃ s y, (st_Save (in_save i) s y).2 ≠ None)
      end
  end.
Proof.
  intros Hok Hrand Hx. pose proof (read_manager (in_get i) m ns n Hok) as [Hok1 Hoth1].
  pose proof (fun y => mutated_store (in_get i) m ns n x y Hok Hx) as Hmut.
  unfold UpdateSecret, got in *.
  destruct (st_Get (in_get i) (m_store m) ns n) as [s1 r]. cbn [fst snd] in *. subst r.
  destruct (sec_Immutable x) eqn:Him; [by auto|].
  destruct (sec_DeletedAt x) eqn:Hdel; [by auto 10|]. simpl.
  destruct (encrypt_all (in_rand i) (m_encryptor m) data) as [envs|err] eqn:Henvs;
    [|by eauto 10 using encrypt_all_error, ok_key].
  pose proof (encrypt_all_sealed _ _ _ _ (ok_key _ Hok) Hrand Henvs) as Hsealed.
  match goal with |- context [match ?o with Some _ => _ | None => None end] =>
    destruct o as [ann|] eqn:Hann end.
  - pose proof (annotations_after _ _ _ Hann) as Hall. clear Hann.
    match goal with |- context [st_Save _ (st_mutate _ ?z) _] => set (y := z) end.
    destruct (Hmut y eq_refl) as (Hwf2 & Hoth2 & Hr & Hns & Hn).
    destruct (st_Save (in_save i) (st_mutate s1 y) y) as [s3 err] eqn:Hsave.
    assert (s3 = (st_Save (in_save i) (st_mutate s1 y) y).1) as Hs3 by (by rewrite Hsave).
    destruct (saved_manager m (set_store m s3) (in_save i) (st_mutate s1 y) y (secret_ref ns n))
      as [[Hk3 Hwf3] Hoth]; [done..|].
    destruct err as [e|]; [split; [by split|]; split; [done|]; split; [done|]|].
    { right; right; right. exists (st_mutate s1 y), y. by rewrite Hsave. }
    destruct (RevokeTokensForSecret (m_tokens m) (secret_ref ns n)) as [tm revoked] eqn:Hrev.
    split; [by split|]. split; [done|]. do 3 (split; [done|]). split.
    + intros env. erewrite (save_plain (in_save i) env (st_mutate s1 y) y); try done; [|by rewrite Hsave].
      unfold plain_secret. simpl. by rewrite (decrypt_all_sealed _ y data envs).
    + intros id t Ht. apply (revoked_none (m_tokens m) _ id). by rewrite Hrev.
  - case_all. split; [done|]. intros ->. by rewrite (sealed_map_empty _ _ Hsealed) in *.
Qed.

(** Nothing is handed out for a reference without a plaintext. *)
Lemma no_plain_no_read i r (m : Manager S) req :
  plain (in_get i) m (req_Namespace req) (req_SecretName req) = None →
  response_data (GetSecret i r m req).2 = None.
Proof.
  intros Hp. rewrite (proj2 (GetSecret_data i r m req)). unfold plain in Hp.
  by repeat case_match.
Qed.

(** Deleting a secret revokes all its tokens, and once it succeeds no
    request for the secret is answered, whatever token it carries, and the
    name is free again; other secrets read as before. *)
Theorem delete_secret_spec i m ns n x :
  manager_ok m → got (in_get i) (m_store m) ns n = Ok (Some x) →
  let '(m', err) := DeleteSecret i m ns n in
  manager_ok m' ∧ others_plain (secret_ref ns n) m m' ∧
  (∀ id t, tokens (m_tokens m') !! id = Some t → tok_SecretRef t ≠ secret_ref ns n) ∧
  (err = None →
    (∀ env, taken env m' ns n = false) ∧
    ∀ i' r aud token, response_data (GetSecret i' r m'
      {| req_SecretName := n; req_Namespace := ns; req_Audience := aud;
         req_AccessToken := token |}).2 = None).
Proof.
  intros Hok Hx. pose proof (fun y => mutated_store (in_get i) m ns n x y Hok Hx) as Hmut.
  unfold DeleteSecret, got in *.
  destruct (st_Get (in_get i) (m_store m) ns n) as [s1 r]. cbn [fst snd] in *. subst r.
  destruct (RevokeTokensForSecret _ _) as [tm revoked] eqn:Hrev. simpl in Hrev |- *.
  set (y := mark_deleted x (in_clock i 0%nat)).
  destruct (Hmut y eq_refl) as (Hwf2 & Hoth2 & Hr & Hns & Hn).
  destruct (st_Save (in_save i) (st_mutate s1 y) y) as [s3 err] eqn:Hsave.
  assert (s3 = (st_Save (in_save i) (st_mutate s1 y) y).1) as Hs3 by (by rewrite Hsave).
  destruct (saved_manager m (set_store m s3) (in_save i) (st_mutate s1 y) y (secret_ref ns n))
    as [[Hk3 Hwf3] Hoth]; [done..|].
  assert (∀ id t, tokens tm !! id = Some t → tok_SecretRef t ≠ secret_ref ns n) as Hgone.
  { intros id t Ht. apply (revoked_none (m_tokens m) _ id). by rewrite Hrev. }
  destruct err as [e|]; (split; [by split|]); (split; [done|]); (split; [done|]); [done|].
  intros _. assert (∀ env, ∃ z, got env s3 ns n = Ok (Some z) ∧ z ≡ y) as Hget.
  { intros env. rewrite Hs3. apply save_get; try done. by rewrite Hsave. }
  assert (∀ z, z ≡ y → sec_DeletedAt z = Some (in_clock i 0%nat)) as Hdel.
  { intros z Hz. by destruct (equiv_fields _ _ Hz) as (_ & _ & _ & _ & _ & _ & _ & _ & _ & -> & _). }
  split.
  - intros env. destruct (Hget env) as (z & Hz & Hzy). unfold taken. simpl. by rewrite Hz, Hdel.
  - intros i' r aud token. destruct (Hget (in_get i')) as (z & Hz & Hzy).
    apply no_plain_no_read. unfold plain, plain_secret. simpl. by rewrite Hz, Hdel.
Qed.

End manager.

(** ** A deletion that the cluster refuses *)

(** On a node that is not the leader, deleting a cached secret returns an
    error, yet it revokes the secret's tokens and marks the shared cached
    object as deleted: the node stops serving a secret that the replicated
    store still holds unchanged. *)
Theorem refused_delete_hides_secret `{GoRange, AEAD, JWT, SecretCodec}
    i (m : Manager RaftSecretStore) ns n x :
  is_leader (raftStore (m_store m)) = false →
  cache (m_store m) !! getKey ns n = Some x → ref_of x = secret_ref ns n →
  ns ≠ EmptyString → n ≠ EmptyString →
  let '(m', err) := DeleteSecret i m ns n in
  is_Some err ∧ raftStore (m_store m') = raftStore (m_store m) ∧
  (∀ id t, tokens (m_tokens m') !! id = Some t → tok_SecretRef t ≠ secret_ref ns n) ∧
  ∀ env, plain env m' ns n = None.
Proof.
  intros Hl Hc Hr Hns Hn. unfold DeleteSecret. simpl. unfold raft_Get.
  rewrite required_false, Hc by done.
  destruct (RevokeTokensForSecret _ _) as [tm revoked] eqn:Hrev. simpl in Hrev |- *.
  set (y := mark_deleted x (in_clock i 0%nat)).
  assert (getKey (sec_Namespace y) (sec_Name y) = getKey ns n) as Hy
    by (change (cache_key (ref_of x) = cache_key (secret_ref ns n)); by rewrite Hr).
  unfold raft_mutate, raft_Save. rewrite Hy, Hc. simpl.
  unfold Store_Set, submit. rewrite Hl. simpl. split; [done|]. split; [done|]. split.
  - intros id t Ht. apply (revoked_none (m_tokens m) _ id). by rewrite Hrev.
  - intros env. unfold plain. simpl. rewrite raft_got, required_false by done. simpl.
    change (cache_key (secret_ref ns n)) with (getKey ns n). by rewrite lookup_insert_eq.
Qed.

(** ** Witnesses *)

#[local] Existing Instance range_canonical.
#[local] Existing Instance clear_cipher.
#[local] Existing Instance one_token.

Definition calm : StoreEnv := {| se_raft := Committed (fun _ => 0); se_now := 0 |}.

Definition sample_inputs : Inputs :=
  {| in_clock := fun _ => 0; in_rand := fun _ => sample_rand; in_get := calm; in_save := calm |}.

Definition sample_manager {S} (s : S) : Manager S :=
  {| m_config := DefaultManagerConfig; m_encryptor := {| masterKey := sample_key "a" |};
     m_tokens := empty_manager; m_store := s; m_masterKey := sample_key "a"; m_audit := [] |}.

Definition fresh_manager : Manager InMemorySecretStore := sample_manager NewInMemorySecretStore.

Definition sample_data : gmap string string := {["password"%string := "hunter2"%string]}.

Definition created : Manager InMemorySecretStore * result string Secret :=
  CreateSecret sample_inputs fresh_manager "ns" "db" sample_data [].

(** The value of a result that is known to be one. *)
Definition the_ok {A} (d : A) (r : result string A) : A := match r with Ok a => a | Err _ => d end.

Lemma pair_ok {X A} (d : A) (p : X * result string A) :
  is_ok p.2 = true → p = (p.1, Ok (the_ok d p.2)).
Proof. by destruct p as [x [a|e]]. Qed.

Definition no_secret : Secret :=
  {| sec_Name := ""; sec_Namespace := ""; sec_Description := ""; sec_Labels := ∅;
     sec_Annotations := None; sec_Data := ∅; sec_EncryptedDataKey := None; sec_KeyID := "";
     sec_Algorithm := ""; sec_Audiences := []; sec_TTL := 0; sec_Version := 0;
     sec_Immutable := false; sec_CreatedAt := 0; sec_UpdatedAt := 0; sec_RotatedAt := None;
     sec_ExpiresAt := None; sec_DeletedAt := None; sec_DeleteAfter := 0 |}.

Definition created_secret : Secret := json_copy (the_ok no_secret created.2).

Lemma fresh_ok : manager_ok fresh_manager.
Proof. split; [apply sample_key_ok|]. by intros k x. Qed.

Lemma created_run : created = (created.1, Ok (the_ok no_secret created.2)).
Proof. apply pair_ok. by vm_compute. Qed.

Lemma created_ok : manager_ok created.1.
Proof.
  destruct (CreateSecret_Ok _ _ _ _ _ _ _ _ created_run)
    as (_ & _ & _ & _ & _ & _ & _ & _ & Hs & He & _).
  split; [by rewrite He; apply sample_key_ok|]. rewrite Hs. apply wf_Save, wf_Get, fresh_ok.
Qed.

Lemma created_got : got calm (m_store created.1) "ns" "db" = Ok (Some created_secret).
Proof. by vm_compute. Qed.

Lemma create_secret_spec_witness : plain calm created.1 "ns" "db" = Some sample_data.
Proof.
  pose proof (create_secret_spec sample_inputs fresh_manager "ns" "db" sample_data [] fresh_ok
    (fun _ => sample_rand_ok)) as Hspec.
  fold created in Hspec. rewrite created_run in Hspec. by apply Hspec.
Defined.

Definition issued : Manager InMemorySecretStore * result string SecretAccessToken :=
  GenerateAccessToken sample_inputs "id-1" created.1 "ns" "db" "web" (60 * second) 1.

Definition no_token : SecretAccessToken :=
  {| tok_ID := ""; tok_SecretRef := ""; tok_Audience := ""; tok_IssuedAt := 0; tok_ExpiresAt := 0;
     tok_Token := ""; tok_UsesRemaining := 0; tok_LastUsedAt := 0 |}.

Definition sample_request : SecretAccessRequest :=
  {| req_SecretName := "db"; req_Namespace := "ns"; req_Audience := "web";
     req_AccessToken := tok_Token (the_ok no_token issued.2) |}.

Lemma one_token_valid now key c t :
  sign key c = Ok t → cl_NotBefore c ≤ now < cl_ExpiresAt c → parse now key t = Ok c ∧ t ≠ EmptyString.
Proof. simpl. case_decide; [|done]. intros [= <-] _. by subst. Qed.

Lemma access_token_spec_witness :
  response_data (GetSecret sample_inputs (read_at second) issued.1
    {| req_SecretName := "db"; req_Namespace := "ns"; req_Audience := "web";
       req_AccessToken := tok_Token (the_ok no_token issued.2) |}).2 =
  plain (in_get sample_inputs) created.1 "ns" "db".
Proof.
  destruct (access_token_spec one_token_valid
    sample_inputs sample_inputs "id-1" created.1 issued.1 "ns" "db" "web" (60 * second) 1
    (the_ok no_token issued.2) (read_at second)) as (x & Hx & _ & _ & _ & Hread).
  - change (issued = (issued.1, Ok (the_ok no_token issued.2))).
    apply pair_ok. by vm_compute.
  - apply Hread; [discriminate|split; by vm_compute|by vm_compute|].
    change (got calm (m_store created.1) "ns" "db" = Ok (Some x)) in Hx.
    rewrite created_got in Hx. injection Hx as <-. intros t Ht. vm_compute in Ht. discriminate.
Defined.

Definition new_data : gmap string string := {["token"%string := "s3cr3t"%string]}.

Lemma update_secret_spec_witness :
  match UpdateSecret sample_inputs created.1 "ns" "db" new_data with
  | Some (m', Ok y) => sec_Version y = 2 ∧ plain calm m' "ns" "db" = Some new_data
  | _ => False
  end.
Proof.
  pose proof (update_secret_spec sample_inputs created.1 "ns" "db" new_data created_secret
    created_ok (fun _ => sample_rand_ok) created_got) as Hspec.
  destruct (UpdateSecret sample_inputs created.1 "ns" "db" new_data) as [[m' [y|err]]|] eqn:Hu.
  - destruct Hspec as (_ & _ & _ & _ & Hv & Hp & _). split; [|apply Hp].
    rewrite Hv. by vm_compute.
  - exfalso. apply (f_equal (fun r => option_map (fun p => is_ok p.2) r)) in Hu.
    vm_compute in Hu. discriminate.
  - destruct Hspec as [Hnil _]. vm_compute in Hnil. discriminate.
Defined.

Lemma delete_secret_spec_witness :
  response_data (GetSecret sample_inputs (read_at second)
    (DeleteSecret sample_inputs created.1 "ns" "db").1 sample_request).2 = None.
Proof.
  pose proof (delete_secret_spec sample_inputs created.1 "ns" "db" created_secret created_ok
    created_got) as Hspec.
  destruct (DeleteSecret sample_inputs created.1 "ns" "db") as [m' err] eqn:Hd.
  destruct Hspec as (_ & _ & _ & Hgone). apply Hgone.
  apply (f_equal snd) in Hd. simpl in Hd. subst err. by vm_compute.
Defined.

(** A follower with one cached secret. *)
Definition follower : Manager RaftSecretStore :=
  sample_manager {| raftStore := {| fsm := NewFSM; is_leader := false |};
                    cache := {[getKey "ns" "db" := created_secret]} |}.

#[local] Existing Instance bit_codec.

Lemma refused_delete_hides_secret_witness :
  is_Some (DeleteSecret sample_inputs follower "ns" "db").2 ∧
  plain calm (DeleteSecret sample_inputs follower "ns" "db").1 "ns" "db" = None.
Proof.
  pose proof (refused_delete_hides_secret sample_inputs follower "ns" "db" created_secret eq_refl
    ltac:(by vm_compute) ltac:(by vm_compute) ltac:(done) ltac:(done)) as Hspec.
  destruct (DeleteSecret sample_inputs follower "ns" "db") as [m' err].
  destruct Hspec as (He & _ & _ & Hp). split; [done|apply Hp].
Defined.
