(* ===== verification/SecretRotation.v ===== *)
(** * Rotation of the master key (pkg/secrets/manager.go, RotateMasterKey)

    A rotation that reports success keeps every plaintext, over any store
    whose listing is complete.  The rest shows what the two ways out of that
    do: a rotation that fails for some secret, and a rotation on a store whose
    cache has not been filled. *)

From S2P Require Import Prelude GoText RaftFSM SecretCrypto SecretTokens Secrets SecretStores SecretManager.

(** ** One secret *)

Section values.
Context `{GoRange} {A : AEAD} {HA : AEADLaws A}.
Variables (rnd : string → Randomness) (old new : MasterKey).

(** A value that opens to [p] under the old key and is sealed as [env] under
    the new one. *)
Definition reseals (ann : gmap string string) (k v p : string) (env : Envelope) : Prop :=
  ∃ nonceHex nonce edkHex edk,
    ann !! nonce_key k = Some nonceHex ∧ hex_decode nonceHex = Some nonce ∧
    slen nonce = NonceSize ∧
    ann !! edk_key k = Some edkHex ∧ hex_decode edkHex = Some edk ∧
    Decrypt {| masterKey := old |} v edk nonce = Ok p ∧
    Encrypt (rnd k) {| masterKey := new |} p = Ok env ∧ key_ok new.

Lemma NewEnvelopeEncryptor_inv k e : NewEnvelopeEncryptor (Some k) = Ok e → e = {| masterKey := k |} ∧ key_ok k.
Proof. unfold NewEnvelopeEncryptor, key_ok. intros. case_all. by bool_to_prop. Qed.

Lemma ReEncryptWithNewKey_Ok r v edk nonce env :
  ReEncryptWithNewKey r v edk nonce old new = Ok env →
  ∃ p, Decrypt {| masterKey := old |} v edk nonce = Ok p ∧
       Encrypt r {| masterKey := new |} p = Ok env ∧ key_ok new.
Proof.
  unfold ReEncryptWithNewKey.
  destruct (NewEnvelopeEncryptor (Some old)) as [e|] eqn:He; [|done].
  apply NewEnvelopeEncryptor_inv in He as [-> _].
  destruct (Decrypt _ _ _ _) as [p|] eqn:Hp; [|done].
  destruct (NewEnvelopeEncryptor (Some new)) as [e'|] eqn:He'; [|done].
  apply NewEnvelopeEncryptor_inv in He' as [-> Hk].
  destruct (Encrypt _ _ _) eqn:Henc; [|done]. intros [= <-]. eauto.
Qed.

(** A turn of the loop that records no failure. *)
Lemma rotate_value_ok acc k v :
  ra_failed (rotate_value rnd old new acc (k, v)) = None →
  ra_failed acc = None ∧ ∃ p env,
    reseals (default ∅ (ra_annotations acc)) k v p env ∧
    ra_data (rotate_value rnd old new acc (k, v)) = <[k := env_data env]> (ra_data acc) ∧
    ra_annotations (rotate_value rnd old new acc (k, v)) =
      Some (annotate (default ∅ (ra_annotations acc)) (k, env)).
Proof.
  unfold rotate_value. simpl.
  destruct (_ !! nonce_key k) as [nh|] eqn:Hn; [|done].
  destruct (hex_decode nh) as [nonce|] eqn:Hnd; [|done].
  destruct (slen nonce =? NonceSize) eqn:Hl; [|done]. simpl.
  destruct (_ !! edk_key k) as [eh|] eqn:He; [|done].
  destruct (hex_decode eh) as [edk|] eqn:Hed; [|done].
  destruct (ReEncryptWithNewKey _ _ _ _ _ _) as [env|] eqn:Hre; [|done]. simpl. intros Hf.
  apply ReEncryptWithNewKey_Ok in Hre as (p & Hp & Henc & Hk). bool_to_prop. split; [done|].
  exists p, env. split; [|done]. by exists nh, nonce, eh, edk.
Qed.

Lemma rotate_loop_values l acc :
  NoDup l.*1 →
  let fin := foldl (rotate_value rnd old new) acc l in
  ra_failed fin = None →
  ra_failed acc = None ∧
  ∀ k, match (list_to_map l : gmap string string) !! k with
       | Some v => ∃ p env, reseals (default ∅ (ra_annotations acc)) k v p env ∧
           ra_data fin !! k = Some (env_data env) ∧
           annotated (default ∅ (ra_annotations fin)) k env
       | None => ra_data fin !! k = ra_data acc !! k ∧
           default ∅ (ra_annotations fin) !! edk_key k = default ∅ (ra_annotations acc) !! edk_key k ∧
           default ∅ (ra_annotations fin) !! nonce_key k = default ∅ (ra_annotations acc) !! nonce_key k
       end.
Proof.
  revert acc. induction l as [|[j w] l IH]; intros acc Hnd; csimpl; [done|].
  apply NoDup_cons in Hnd as [Hj Hnd].
  assert ((list_to_map l : gmap string string) !! j = None) as Hlj by (by apply not_elem_of_list_to_map_1).
  intros Hf. destruct (IH _ Hnd Hf) as [Hf1 Hall]. clear IH.
  destruct (rotate_value_ok acc j w Hf1) as (Hf0 & p & env & Hre & Hd & Ha).
  set (fin := foldl _ _ _) in *. split; [done|]. intros k. specialize (Hall k). rewrite Ha, Hd in Hall.
  simpl in Hall. destruct (decide (k = j)) as [->|Hne].
  - rewrite Hlj, lookup_insert_eq in Hall. rewrite lookup_insert_eq. exists p, env.
    split; [done|]. destruct Hall as (-> & He & Hn). split; [done|].
    destruct (annotate_lookup (default ∅ (ra_annotations acc)) j env). split; congruence.
  - rewrite lookup_insert_ne in Hall |- * by done.
    destruct (annotate_other (default ∅ (ra_annotations acc)) k j env Hne) as [He Hn].
    destruct ((list_to_map l : gmap string string) !! k) as [v|].
    + destruct Hall as (p' & env' & Hre' & ?). exists p', env'. split; [|done].
      unfold reseals in *. by rewrite He, Hn in Hre'.
    + by rewrite He, Hn in Hall.
Qed.

(** The loop over one secret's values, when nothing failed. *)
Lemma rotate_values_ok x :
  let fin := rotate_values rnd old new x in
  ra_failed fin = None →
  ∀ k, match sec_Data x !! k with
       | Some v => ∃ p env, reseals (default ∅ (sec_Annotations x)) k v p env ∧
           ra_data fin !! k = Some (env_data env) ∧
           annotated (default ∅ (ra_annotations fin)) k env
       | None => ra_data fin !! k = None
       end.
Proof.
  cbn zeta. unfold rotate_values. intros Hf k.
  destruct (rotate_loop_values _ _ (range_map_keys _) Hf) as [_ Hall]. specialize (Hall k).
  rewrite list_to_range_map in Hall. destruct (sec_Data x !! k); [done|]. apply Hall.
Qed.

Lemma rotate_values_size x :
  ra_failed (rotate_values rnd old new x) = None →
  size (ra_data (rotate_values rnd old new x)) = size (sec_Data x).
Proof.
  intros Hf. rewrite <-!size_dom. f_equal. apply set_eq. intros k. rewrite !elem_of_dom.
  pose proof (rotate_values_ok x Hf k) as Hk. destruct (sec_Data x !! k) as [v|].
  - destruct Hk as (? & ? & _ & -> & _). done.
  - by rewrite Hk.
Qed.

Lemma hex_decode_empty s r : hex_decode s = Some r → 0 < slen r → negb (s =?s "") = true.
Proof.
  intros Hs Hr. rewrite bool_decide_eq_false_2; [done|]. intros ->. simpl in Hs.
  injection Hs as <-. done.
Qed.

Lemma reseals_old x k v p env :
  reseals (default ∅ (sec_Annotations x)) k v p env →
  decrypt_value {| masterKey := old |} x k v = Ok p.
Proof.
  intros (nh & nonce & eh & edk & Hn & Hnd & Hl & He & Hed & Hp & _).
  unfold decrypt_value, annotation. rewrite Hn, He. simpl.
  assert (0 < slen edk) as Hedk.
  { pose proof (slen_nonneg edk). unfold Decrypt in Hp.
    destruct (slen v =? 0); [done|]. destruct (slen edk =? 0) eqn:Hz; [done|]. bool_to_prop. lia. }
  rewrite (hex_decode_empty eh edk), (hex_decode_empty nh nonce) by (done || by rewrite Hl).
  simpl. by rewrite Hed, Hnd, Hp.
Qed.

(** Rotating a secret without a failure keeps its plaintext. *)
Lemma rotated_plain x now :
  (∀ k, rand_ok (rnd k)) → ra_failed (rotate_values rnd old new x) = None →
  let y := rotated x (rotate_values rnd old new x) new now in
  plain_secret {| masterKey := new |} y = plain_secret {| masterKey := old |} x.
Proof.
  intros Hr Hf. cbn zeta. unfold plain_secret. simpl. destruct (sec_DeletedAt x); [done|].
  set (fin := rotate_values rnd old new x) in *.
  pose proof (rotate_values_ok x Hf) as Hall. fold fin in Hall.
  destruct (collect_total (decrypt_value {| masterKey := old |} x) (sec_Data x)) as [d Hd].
  { intros k v Hk. specialize (Hall k). rewrite Hk in Hall.
    destruct Hall as (p & env & Hre & _). exists p. by apply (reseals_old x k v p env). }
  unfold decrypt_all at 2. rewrite Hd.
  assert (decrypt_all {| masterKey := new |} (rotated x fin new now) = Ok d) as ->; [|done].
  rewrite collect_Ok in Hd. apply collect_Ok. intros k. simpl. specialize (Hall k). specialize (Hd k).
  destruct (sec_Data x !! k) as [v|]; [|by rewrite Hall].
  destruct Hall as (p & env & Hre & -> & Hann). destruct Hd as (p' & Hp' & Hdk).
  rewrite (reseals_old x k v p env Hre) in Hp'. injection Hp' as <-. exists p. split; [|done].
  destruct Hre as (_ & _ & _ & _ & _ & _ & _ & _ & _ & _ & Henc & Hk).
  apply decrypt_value_seals; [done|]. by apply (Decrypt_Encrypt (rnd k)).
Qed.

End values.

(** ** The loop over the secrets *)

Section loop.
Context {S : Type} `{GoRange} {A : AEAD} {HA : AEADLaws A} `{SecretStore S, !StoreLaws S}.
Variables (i : RotateInputs) (old new : MasterKey).
Hypothesis rand : ∀ ref k, rand_ok (ri_rand i ref k).

Definition new_secret (x : Secret) : Secret :=
  rotated x (rotate_values (ri_rand i (ref_of x)) old new x) new (ri_now i).

(** A turn of the loop that records no failure skips a deleted secret or
    saves the re-encrypted one. *)
Lemma rotate_secret_step (st : RotateState (S := S)) x :
  rt_failed (rotate_secret i old new st x) = ∅ →
  rt_failed st = ∅ ∧
  match sec_DeletedAt x with
  | Some _ => rotate_secret i old new st x = st
  | None =>
      ra_failed (rotate_values (ri_rand i (ref_of x)) old new x) = None ∧
      let save := st_Save (ri_save i (ref_of x)) (st_mutate (rt_store st) (new_secret x))
                    (new_secret x) in
      save.2 = None ∧ rt_store (rotate_secret i old new st x) = save.1 ∧
      plain_secret {| masterKey := new |} (new_secret x) = plain_secret {| masterKey := old |} x
  end.
Proof.
  unfold rotate_secret. destruct (sec_DeletedAt x) eqn:Hd; [done|].
  change (secret_ref (sec_Namespace x) (sec_Name x)) with (ref_of x).
  pose proof (rotate_values_size (ri_rand i (ref_of x)) old new x) as Hsize.
  pose proof (rotated_plain (ri_rand i (ref_of x)) old new x (ri_now i) (rand (ref_of x))) as Hplain.
  fold (new_secret x) in *. destruct (ra_failed _) as [err|] eqn:Hra.
  - case_match; simpl; [|by intros ?%insert_non_empty].
    destruct (st_Save _ _ _) as [s2 [e|]]; simpl; by intros ?%insert_non_empty.
  - rewrite Hsize, Z.eqb_refl by done.
    destruct (st_Save _ _ _) as [s2 [e|]]; simpl; [by intros ?%insert_non_empty|].
    intros Hst. do 4 (split; [done|]). by apply Hplain.
Qed.

(** What a rotation without failures leaves in the store. *)
Record rotated_store (l : list Secret) (s s' : S) : Prop := {
  rs_wf : st_wf s → st_wf s';
  rs_others : ∀ env ns n, secret_ref ns n ∉ ref_of <$> l → got env s' ns n = got env s ns n;
  rs_secrets : ∀ x env ns n, x ∈ l → ref_of x = secret_ref ns n →
    ns ≠ EmptyString → n ≠ EmptyString →
    match sec_DeletedAt x with
    | Some _ => got env s' ns n = got env s ns n
    | None => ∃ z, got env s' ns n = Ok (Some z) ∧ sec_DeletedAt z = None ∧
        plain_secret {| masterKey := new |} z = plain_secret {| masterKey := old |} x
    end
}.

Lemma rotate_one_store (st : RotateState (S := S)) x :
  rt_failed (rotate_secret i old new st x) = ∅ →
  rotated_store [x] (rt_store st) (rt_store (rotate_secret i old new st x)).
Proof.
  intros Hf. destruct (rotate_secret_step st x Hf) as [_ Hstep].
  destruct (sec_DeletedAt x) as [t|] eqn:Hd.
  { rewrite Hstep. split; [done|done|]. intros y env ns n ->%list_elem_of_singleton _ _ _. by rewrite Hd. }
  destruct Hstep as (_ & Hsave & -> & Hplain). split.
  - intros Hwf. by apply wf_Save, wf_mutate.
  - intros env ns n Hni. csimpl in Hni. rewrite list_elem_of_singleton in Hni.
    rewrite save_others, mutate_others by done. done.
  - intros y env ns n ->%list_elem_of_singleton Hr Hns Hn. rewrite Hd.
    destruct (save_get (ri_save i (ref_of x)) env (st_mutate (rt_store st) (new_secret x))
      (new_secret x) ns n Hsave Hr Hns Hn) as (z & Hz & Hzx).
    exists z. split; [done|]. split; [|by rewrite (plain_secret_equiv _ _ _ Hzx)].
    by rewrite Hzx.
Qed.

Lemma rotate_loop l (st : RotateState (S := S)) :
  NoDup (ref_of <$> l) → rt_failed (foldl (rotate_secret i old new) st l) = ∅ →
  rt_failed st = ∅ ∧
  rotated_store l (rt_store st) (rt_store (foldl (rotate_secret i old new) st l)).
Proof.
  revert st. induction l as [|x l IH]; intros st Hnd Hf.
  { simpl in *. split; [done|]. split; [done|done|]. by intros ? ? ? ? ?%elem_of_nil. }
  csimpl in *. apply NoDup_cons in Hnd as [Hx Hnd].
  destruct (IH _ Hnd Hf) as [Hf1 [Hwf2 Hoth2 Hsec2]]. clear IH.
  destruct (rotate_secret_step st x Hf1) as [Hf0 _].
  destruct (rotate_one_store st x Hf1) as [Hwf1 Hoth1 Hsec1].
  set (s1 := rt_store (rotate_secret i old new st x)) in *. set (s2 := rt_store _) in *.
  split; [done|]. split; [by auto| |].
  - intros env ns n Hni. csimpl in Hni. apply not_elem_of_cons in Hni as [Hne Hni].
    rewrite Hoth2, Hoth1; csimpl; rewrite ?list_elem_of_singleton; done.
  - intros y env ns n Hy Hr Hns Hn. apply elem_of_cons in Hy as [->|Hy].
    + rewrite Hoth2 by (by rewrite <-Hr). apply Hsec1; [in_list|done..].
    + specialize (Hsec2 y env ns n Hy Hr Hns Hn). destruct (sec_DeletedAt y); [|done].
      rewrite Hsec2. apply Hoth1. csimpl. rewrite <-Hr, list_elem_of_singleton. intros Heq. apply Hx.
      rewrite <-Heq. by apply list_elem_of_fmap_2.
Qed.

End loop.

(** ** A successful rotation *)

(** Only the key's bytes matter to decryption. *)
Lemma decrypt_all_key `{GoRange, AEAD} e e' x :
  mk_Key (masterKey e) = mk_Key (masterKey e') → decrypt_all e x = decrypt_all e' x.
Proof.
  intros Hk. unfold decrypt_all, collect. apply foldl_pointwise. intros acc kv.
  assert (decrypt_value e x kv.1 kv.2 = decrypt_value e' x kv.1 kv.2) as ->; [|done].
  unfold decrypt_value, Decrypt. by rewrite Hk.
Qed.

Lemma plain_secret_key `{GoRange, AEAD} e e' x :
  mk_Key (masterKey e) = mk_Key (masterKey e') → plain_secret e x = plain_secret e' x.
Proof. intros Hk. unfold plain_secret. by rewrite (decrypt_all_key e e' x Hk). Qed.

(** The old key is retired and the new one active. *)
Lemma RotateMasterKey_Ok k key id now old new :
  RotateMasterKey k key id now = (old, Ok new) →
  mk_Key old = mk_Key k ∧ mk_Active old = false ∧ mk_Active new = true ∧
  key = Some (mk_Key new).
Proof. unfold RotateMasterKey, GenerateMasterKey. intros. by case_all. Qed.

Section rotation.
Context {S : Type} `{GoRange} {A : AEAD} {HA : AEADLaws A} `{SecretStore S, !StoreLaws S}.

(** The encryptor uses the manager's key. *)
Definition one_key (m : Manager S) : Prop := m_encryptor m = {| masterKey := m_masterKey m |}.

Lemma rotation_keeps i (m m' : Manager S) :
  manager_ok m → one_key m → listed (m_store m) → (∀ ref k, rand_ok (ri_rand i ref k)) →
  Manager_RotateMasterKey i m = (m', None) →
  manager_ok m' ∧ one_key m' ∧ mk_Active (m_masterKey m') = true ∧
  ri_key i = Some (mk_Key (m_masterKey m')) ∧ m_tokens m' = m_tokens m ∧
  ∀ env ns n, plain env m' ns n = plain env m ns n ∧ taken env m' ns n = taken env m ns n.
Proof.
  intros [Hk Hwf] Hone [Hnd Hsound Hcomplete] Hrand. unfold Manager_RotateMasterKey.
  destruct (RotateMasterKey _ _ _ _) as [old [new|e]] eqn:Hrot; [|done].
  apply RotateMasterKey_Ok in Hrot as (Hold & _ & Hact & Hnew).
  set (st := foldl _ _ _). destruct (0 <? Z.of_nat (size (rt_failed st))) eqn:Hfail; [done|].
  destruct (NewEnvelopeEncryptor (Some new)) as [e|] eqn:He; [|done]. intros [= <-].
  apply NewEnvelopeEncryptor_inv in He as [-> Hkey].
  assert (rt_failed st = ∅) as Hempty by (bool_to_prop; apply map_size_empty_inv; lia).
  destruct (rotate_loop i old new Hrand _ _ Hnd Hempty) as [_ [Hwf' Hoth Hsec]].
  fold st in Hwf', Hoth, Hsec. simpl in Hwf', Hoth, Hsec.
  split; [split; simpl; auto|]. do 4 (split; [done|]). intros env ns n. unfold plain, taken. simpl.
  destruct (decide (ns = EmptyString)) as [->|Hns]; [by rewrite !get_required by auto|].
  destruct (decide (n = EmptyString)) as [->|Hn]; [by rewrite !get_required by auto|].
  destruct (decide (secret_ref ns n ∈ ref_of <$> st_List (m_store m) no_filter)) as [Hin|Hni].
  - apply list_elem_of_fmap in Hin as (y & Hr & Hy).
    specialize (Hsec y env ns n Hy (eq_sym Hr) Hns Hn).
    destruct (Hsound y env ns n Hy (eq_sym Hr) Hns Hn) as (x & Hx & Hxy).
    rewrite Hx, (plain_secret_equiv _ _ _ Hxy). destruct (sec_DeletedAt y) eqn:Hd.
    + rewrite Hsec, Hx, (plain_secret_equiv _ _ _ Hxy). unfold plain_secret. by rewrite Hd.
    + destruct Hsec as (z & -> & -> & ->). rewrite Hxy, Hd.
      split; [|done]. apply plain_secret_key. by rewrite Hone.
  - rewrite Hoth by done. destruct (got env (m_store m) ns n) as [[x|]|] eqn:Hx; [|done..].
    by apply Hcomplete in Hx.
Qed.

(** C6: a rotation of the master key that reports success keeps the plaintext
    of every secret: what could be read under the old key, by whichever name,
    is read under the new one, which is active and used from then on.  The
    store's listing has to be complete. *)
Theorem rotation_keeps_plaintexts i (m m' : Manager S) :
  manager_ok m → one_key m → listed (m_store m) → (∀ ref k, rand_ok (ri_rand i ref k)) →
  Manager_RotateMasterKey i m = (m', None) →
  manager_ok m' ∧ one_key m' ∧ mk_Active (m_masterKey m') = true ∧
  ri_key i = Some (mk_Key (m_masterKey m')) ∧
  ∀ env ns n, plain env m' ns n = plain env m ns n.
Proof.
  intros Hok Hone Hl Hrand Hrot.
  destruct (rotation_keeps i m m' Hok Hone Hl Hrand Hrot) as (? & ? & ? & ? & _ & Hp).
  do 4 (split; [done|]). intros env ns n. apply Hp.
Qed.

End rotation.

(** ** A rotation that fails for some secret *)

Section partial.
Context `{GoRange} {A : AEAD} {HA : AEADLaws A}.

(** The secret holds [d] in the per-key format, sealed under [e]. *)
Definition holds (e : EnvelopeEncryptor) (x : Secret) (d : gmap string string) : Prop :=
  ∃ envs, sealed_map e d envs ∧ sec_Data x = env_data <$> envs ∧
    (∀ k env, envs !! k = Some env → annotated (default ∅ (sec_Annotations x)) k env) ∧
    map_Forall (fun _ v => value_ok v) d.

#[export] Instance holds_proper e : Proper ((≡) ==> (=) ==> iff) (holds e).
Proof.
  intros x y (_ & _ & Hd & _ & _ & _ & _ & _ & _ & _ & Ha)%equiv_fields d ? <-.
  unfold holds. by rewrite Hd, Ha.
Qed.

Lemma rotate_value_total rnd old new acc k p env :
  key_ok old → key_ok new → rand_ok (rnd k) → value_ok p →
  seals {| masterKey := old |} p env → annotated (default ∅ (ra_annotations acc)) k env →
  ra_failed acc = None → ra_failed (rotate_value rnd old new acc (k, env_data env)) = None.
Proof.
  intros Hold Hnew Hr Hp (Hl & Hne & Hdec) [He Hn] Hf. unfold rotate_value. simpl.
  rewrite He, Hn, !hex_roundtrip, Hl. simpl. unfold ReEncryptWithNewKey.
  rewrite !NewEnvelopeEncryptor_ok, Hdec by done.
  by destruct (Encrypt_ok (rnd k) new p Hnew Hr Hp) as [env' ->].
Qed.

Lemma rotate_values_total rnd old new x d :
  key_ok old → key_ok new → (∀ k, rand_ok (rnd k)) → holds {| masterKey := old |} x d →
  ra_failed (rotate_values rnd old new x) = None.
Proof.
  intros Hold Hnew Hr (envs & Hs & Hd & Ha & Hok). unfold rotate_values.
  assert (∀ k v, (k, v) ∈ range_map (sec_Data x) → ∃ p env, v = env_data env ∧ value_ok p ∧
    seals {| masterKey := old |} p env ∧ annotated (default ∅ (sec_Annotations x)) k env) as Hall.
  { intros k v Hk%elem_of_range_map. rewrite Hd, lookup_fmap in Hk. specialize (Hs k).
    destruct (d !! k) as [p|] eqn:Hp; [|by rewrite Hs in Hk].
    destruct Hs as (env & Henv & Hseal). rewrite Henv in Hk. injection Hk as <-.
    exists p, env. split; [done|]. split; [by apply (Hok k)|]. auto. }
  pose proof (range_map_keys (sec_Data x)) as Hnd.
  set (acc := {| ra_failed := None |}). assert (ra_failed acc = None) as Hf by done.
  change (sec_Annotations x) with (ra_annotations acc) in Hall. clearbody acc.
  revert acc Hall Hf. induction (range_map (sec_Data x)) as [|[k v] l IH]; intros acc Hall Hf; [done|].
  csimpl in *. apply NoDup_cons in Hnd as [Hk Hnd].
  destruct (Hall k v) as (p & env & -> & Hp & Hseal & Hann); [in_list|].
  pose proof (rotate_value_total rnd old new acc k p env Hold Hnew (Hr k) Hp Hseal Hann Hf) as Hf1.
  apply (IH Hnd); [|done]. intros k' v' Hin. destruct (rotate_value_ok rnd old new acc k _ Hf1)
    as (_ & _ & env' & _ & _ & ->). simpl.
  destruct (Hall k' v') as (p' & env'' & ? & ? & ? & Hann'); [by right|]. exists p', env''.
  do 3 (split; [done|]). assert (k' ≠ k) as Hne.
  { intros ->. apply Hk. apply list_elem_of_fmap. by exists (k, v'). }
  destruct (annotate_other (default ∅ (ra_annotations acc)) k' k env' Hne) as [He Hn].
  unfold annotated. by rewrite He, Hn.
Qed.

(** The wrapped data key of one encryption under [k'] does not authenticate
    under [k]. *)
Definition rejects (k k' : MasterKey) (rnd : Randomness) : Prop :=
  ∀ dk kn, rnd_dataKey rnd = Some dk → rnd_keyNonce rnd = Some kn →
    open (mk_Key k) kn (seal (mk_Key k') kn dk) = None.

Lemma Decrypt_wrong_key rnd k k' p env :
  rand_ok rnd → slen (mk_Key k) = DataKeySize → rejects k k' rnd →
  Encrypt rnd {| masterKey := k' |} p = Ok env →
  is_ok (Decrypt {| masterKey := k |} (env_data env) (env_key env) (env_nonce env)) = false.
Proof.
  intros (dk & n & kn & -> & Hd & Hn & Hkn) Hk Hrej. unfold Encrypt, encryptWithKey. simpl.
  destruct (slen p =? 0); [done|]. destruct (MaxSecretSize <? slen p); [done|].
  destruct (NewCipher dk); [done|]. destruct (NewCipher (mk_Key k')); [done|].
  intros [= <-]. unfold Decrypt. cbn [env_data env_key env_nonce].
  repeat (case_match; [done|]).
  assert (Z.to_nat NonceSize = String.length kn) as -> by (unfold slen in Hkn; lia).
  destruct (take_drop_app kn (seal (mk_Key k') kn dk)) as [-> ->].
  unfold decryptWithKey at 1. cbn [masterKey]. by rewrite NewCipher_32, (Hrej dk kn) by done.
Qed.

(** A secret with a value sealed under another key is not decrypted. *)
Lemma wrong_key_unreadable rnd k k' x j p env d :
  rand_ok rnd → slen (mk_Key k) = DataKeySize → key_ok k' → rejects k k' rnd →
  Encrypt rnd {| masterKey := k' |} p = Ok env →
  sec_Data x !! j = Some (env_data env) → annotated (default ∅ (sec_Annotations x)) j env →
  decrypt_all {| masterKey := k |} x ≠ Ok d.
Proof.
  intros Hr Hk Hk' Hrej Henc Hd [Ha Hn] Hdec.
  unfold decrypt_all in Hdec. rewrite collect_Ok in Hdec. specialize (Hdec j).
  rewrite Hd in Hdec. destruct Hdec as (q & Hq & _).
  pose proof (Decrypt_wrong_key rnd k k' p env Hr Hk Hrej Henc) as Hbad.
  pose proof (Decrypt_Encrypt rnd k' p env Hk' Hr Henc) as (Hl & Hek & _).
  unfold decrypt_value, annotation in Hq. rewrite Ha, Hn in Hq. simpl in Hq.
  rewrite !hex_nonempty, !hex_roundtrip in Hq by (try done; by intros Heq; rewrite Heq in Hl).
  simpl in Hq. by destruct (Decrypt _ _ _ _).
Qed.

Lemma new_secret_lost i old new x :
  (∀ k, rand_ok (ri_rand i (ref_of x) k)) → slen (mk_Key old) = DataKeySize →
  (∀ k, rejects old new (ri_rand i (ref_of x) k)) → sec_Data x ≠ ∅ →
  ra_failed (rotate_values (ri_rand i (ref_of x)) old new x) = None →
  plain_secret {| masterKey := old |} (new_secret i old new x) = None.
Proof.
  intros Hr Hk Hrej Hne Hf. apply map_choose in Hne as (k & v & Hv).
  pose proof (rotate_values_ok _ _ _ x Hf k) as Hall. rewrite Hv in Hall.
  destruct Hall as (p & env & (_ & _ & _ & _ & _ & _ & _ & _ & _ & _ & Henc & Hnew) & Hd & Ha).
  unfold plain_secret. case_match; [done|]. case_match eqn:Hdec; [|done].
  by apply (wrong_key_unreadable (ri_rand i (ref_of x) k) old new _ k p env) in Hdec.
Qed.

(** *** The loop on the in-memory store *)

Lemma mem_rotate_one i old new (st : RotateState (S := InMemorySecretStore)) x :
  (∀ k, k ≠ ref_of x →
     secrets (rt_store (rotate_secret i old new st x)) !! k = secrets (rt_store st) !! k) ∧
  (sec_DeletedAt x = None → ra_failed (rotate_values (ri_rand i (ref_of x)) old new x) = None →
     secrets (rt_store (rotate_secret i old new st x)) !! ref_of x =
       Some (json_copy (new_secret i old new x))).
Proof.
  unfold rotate_secret. destruct (sec_DeletedAt x); [done|].
  change (secret_ref (sec_Namespace x) (sec_Name x)) with (ref_of x). split.
  - intros k Hk. case_match; [|done]. simpl. by apply lookup_insert_ne.
  - intros _ Hf. rewrite (rotate_values_size _ _ _ _ Hf), Z.eqb_refl. simpl.
    apply lookup_insert_eq.
Qed.

Lemma mem_rotate_loop i old new l (st : RotateState (S := InMemorySecretStore)) :
  NoDup (ref_of <$> l) →
  let fin := foldl (rotate_secret i old new) st l in
  (∀ k, k ∉ ref_of <$> l → secrets (rt_store fin) !! k = secrets (rt_store st) !! k) ∧
  (∀ x, x ∈ l → sec_DeletedAt x = None →
     ra_failed (rotate_values (ri_rand i (ref_of x)) old new x) = None →
     secrets (rt_store fin) !! ref_of x = Some (json_copy (new_secret i old new x))).
Proof.
  revert st. induction l as [|x l IH]; intros st Hnd; csimpl.
  { split; [done|]. by intros x ?%elem_of_nil. }
  csimpl in Hnd. apply NoDup_cons in Hnd as [Hx Hnd].
  destruct (IH (rotate_secret i old new st x) Hnd) as [Hoth Hin].
  destruct (mem_rotate_one i old new st x) as [Hoth1 Hin1]. split.
  - intros k [Hne Hk]%not_elem_of_cons. by rewrite Hoth, Hoth1.
  - intros y [->|Hy]%elem_of_cons Hd Hf; [|by apply Hin]. rewrite Hoth by done. by apply Hin1.
Qed.

(** A loop without recorded failures re-encrypted every value. *)
Lemma loop_no_failure i old new l (st : RotateState (S := InMemorySecretStore)) x :
  (∀ ref k, rand_ok (ri_rand i ref k)) →
  rt_failed (foldl (rotate_secret i old new) st l) = ∅ → rt_failed st = ∅ ∧
  (x ∈ l → sec_DeletedAt x = None →
   ra_failed (rotate_values (ri_rand i (ref_of x)) old new x) = None).
Proof.
  intros Hr. revert st. induction l as [|y l IH]; intros st Hf; simpl in Hf.
  { split; [done|]. by intros ?%elem_of_nil. }
  destruct (IH _ Hf) as [Hf1 Hin].
  destruct (rotate_secret_step i old new Hr st y Hf1) as [Hf0 Hy]. split; [done|].
  intros [->|Hx]%elem_of_cons Hd; [|by apply Hin]. rewrite Hd in Hy. apply Hy.
Qed.

(** The keys of a rotation that was given key material. *)
Lemma RotateMasterKey_given k key id now :
  ∃ old new, RotateMasterKey k (Some key) id now = (old, Ok new) ∧
    mk_Key old = mk_Key k ∧ mk_Algorithm old = mk_Algorithm k ∧
    mk_Key new = key ∧ mk_Algorithm new = AlgorithmAES256GCM.
Proof. unfold RotateMasterKey, GenerateMasterKey. by repeat eexists. Qed.

Lemma holds_key k k' x d :
  mk_Key k = mk_Key k' → holds {| masterKey := k |} x d → holds {| masterKey := k' |} x d.
Proof.
  intros Hk (envs & Hs & Hrest). exists envs. split; [|done]. intros j. specialize (Hs j).
  destruct (d !! j); [|done]. destruct Hs as (env & Henv & Hl & Hne & Hdec). exists env.
  split; [done|]. split; [done|]. split; [done|]. unfold Decrypt in *. simpl in *. by rewrite <-Hk.
Qed.

Lemma holds_plain e x d : sec_DeletedAt x = None → holds e x d → plain_secret e x = Some d.
Proof.
  intros Hdel (envs & Hs & Hd & Ha & _). unfold plain_secret.
  by rewrite Hdel, (decrypt_all_sealed e x d envs Hs Hd Ha).
Qed.

Lemma holds_nonempty e x d : holds e x d → d ≠ ∅ → sec_Data x ≠ ∅.
Proof.
  intros (envs & Hs & Hd & _) (k & v & Hk)%map_choose Hx. specialize (Hs k). rewrite Hk in Hs.
  destruct Hs as (env & Henv & _). rewrite Hd in Hx. by rewrite (fmap_empty_inv _ _ Hx) in Henv.
Qed.

(** A value without its nonce annotation makes the rotation fail. *)
Lemma legacy_value_fails rnd old new b k v :
  sec_Data b !! k = Some v → annotation b (nonce_key k) = None →
  ra_failed (rotate_values rnd old new b) ≠ None.
Proof.
  intros Hk Hn Hf. pose proof (rotate_values_ok rnd old new b Hf k) as Hall. rewrite Hk in Hall.
  destruct Hall as (p & env & (nh & _ & _ & _ & Hn' & _) & _). unfold annotation in Hn. congruence.
Qed.

Lemma mem_plain (m : Manager InMemorySecretStore) env x y :
  secrets (m_store m) !! ref_of x = Some y →
  sec_Namespace x ≠ EmptyString → sec_Name x ≠ EmptyString →
  plain env m (sec_Namespace x) (sec_Name x) = plain_secret (m_encryptor m) y.
Proof.
  intros Hy Hns Hn. unfold plain. rewrite mem_got, required_false by done.
  change (secret_ref (sec_Namespace x) (sec_Name x)) with (ref_of x). rewrite Hy. simpl.
  apply plain_secret_equiv, json_copy_equiv.
Qed.

(** A rotation that fails for one secret loses the others.  Take a secret
    [b] with a value in the legacy format (no per-key nonce) and a secret [x]
    in the current one.  The rotation returns an error and keeps the old key,
    but [x] has already been saved under the new key, which is dropped: its
    plaintext, readable before, is gone. *)
Theorem failed_rotation_loses_secrets i (m : Manager InMemorySecretStore) key x d b k v env :
  manager_ok m → one_key m → ri_key i = Some key → slen key = DataKeySize →
  (∀ ref j, rand_ok (ri_rand i ref j)) →
  (∀ new j, mk_Key new = key → rejects (m_masterKey m) new (ri_rand i (ref_of x) j)) →
  secrets (m_store m) !! ref_of x = Some x → sec_DeletedAt x = None →
  sec_Namespace x ≠ EmptyString → sec_Name x ≠ EmptyString →
  holds (m_encryptor m) x d → d ≠ ∅ →
  secrets (m_store m) !! ref_of b = Some b → sec_DeletedAt b = None →
  sec_Data b !! k = Some v → annotation b (nonce_key k) = None →
  let '(m', err) := Manager_RotateMasterKey i m in
  is_Some err ∧ mk_Key (masterKey (m_encryptor m')) = mk_Key (m_masterKey m) ∧
  plain env m (sec_Namespace x) (sec_Name x) = Some d ∧
  plain env m' (sec_Namespace x) (sec_Name x) = None.
Proof.
  intros [Hkey Hwf] Hone Hgen Hlen Hrand Hrej Hx Hdx Hns Hn Hholds Hd Hb Hdb Hkb Hnb.
  assert (∀ y, secrets (m_store m) !! ref_of y = Some y →
    json_copy y ∈ st_List (m_store m) no_filter) as Hlist.
  { intros y Hy. rewrite mem_List_all. apply list_elem_of_fmap_2, elem_of_values. eauto. }
  unfold Manager_RotateMasterKey. rewrite Hgen.
  destruct (RotateMasterKey_given (m_masterKey m) key (ri_id i) (ri_now i))
    as (old & new & -> & Hok & Hoa & Hnk & Hna).
  set (st := foldl _ _ _). rewrite (mem_plain m env x x Hx Hns Hn), (holds_plain _ _ d Hdx Hholds).
  pose proof (list_refs _ (mem_listed (m_store m) Hwf)) as Hnd.
  assert (rt_failed st ≠ ∅) as Hfail.
  { intros Hf. destruct (loop_no_failure i old new _ _ (json_copy b) Hrand Hf) as [_ Hno].
    eapply (legacy_value_fails _ old new (json_copy b) k v); [done| |by apply Hno; auto].
    by rewrite json_copy_equiv. }
  assert ((0 <? Z.of_nat (size (rt_failed st))) = true) as ->.
  { apply Z.ltb_lt. apply map_size_non_empty_iff in Hfail. lia. }
  split; [done|]. split; [done|]. split; [done|].
  rewrite Hone in Hkey, Hholds. simpl in Hkey. destruct Hkey as [Hkl Hka].
  assert (ra_failed (rotate_values (ri_rand i (ref_of x)) old new (json_copy x)) = None) as Hra.
  { apply (rotate_values_total _ _ _ _ d); [by split; congruence..|done|].
    rewrite json_copy_equiv. by apply (holds_key (m_masterKey m)). }
  assert (ref_of (json_copy x) = ref_of x) as Hr by (by rewrite json_copy_equiv).
  destruct (mem_rotate_loop i old new _ {| rt_store := m_store m; rt_success := 0; rt_failed := ∅;
    rt_audit := m_audit m |} Hnd) as [_ Hin].
  specialize (Hin (json_copy x) (Hlist x Hx) Hdx). rewrite Hr in Hin. specialize (Hin Hra).
  rewrite (mem_plain _ env x (json_copy (new_secret i old new (json_copy x)))) by done.
  rewrite (plain_secret_equiv _ _ _ (json_copy_equiv _)).
  apply new_secret_lost; rewrite ?Hr; try done; [congruence| |exact (holds_nonempty _ x d Hholds Hd)].
  intros j dk kn Hdk Hkn. rewrite Hok. by apply (Hrej new j Hnk).
Qed.

End partial.

(** ** A rotation after a restart *)

Section restart.
Context `{GoRange} {A : AEAD} {HA : AEADLaws A} `{JWT, SecretCodec, !SecretCodecLaws}.

(** A new store on the data of a running one reads what was saved. *)
Lemma restarted_got e env (s : RaftSecretStore) x ns n :
  (raft_Save e s x).2 = None → ref_of x = secret_ref ns n →
  ns ≠ EmptyString → n ≠ EmptyString →
  got env {| raftStore := raftStore (raft_Save e s x).1; cache := ∅ |} ns n =
    Ok (Some (json_copy x)).
Proof.
  intros Hs Hr Hns Hn. rewrite raft_got, required_false by done. simpl.
  destruct (raft_Save_store e s x) as [[_ ?]|(r & -> & Hab)]; [done|]. simpl.
  unfold fetch, Store_Get. rewrite Get_abs, Hab, Hr, lookup_insert_eq. simpl.
  by rewrite bool_decide_eq_false_2, unmarshal_marshal by apply marshal_nonempty.
Qed.

Lemma limit_offset_nil {B} filter : limit_offset filter ([] : list B) = [].
Proof. unfold limit_offset. repeat case_match; by rewrite ?drop_nil, ?take_nil. Qed.

(** An empty cache has nothing to rotate. *)
Lemma rotate_empty_cache i (m : Manager RaftSecretStore) key :
  cache (m_store m) = ∅ → ri_key i = Some key → slen key = DataKeySize →
  ∃ m' new, Manager_RotateMasterKey i m = (m', None) ∧ m_store m' = m_store m ∧
    m_encryptor m' = {| masterKey := new |} ∧ mk_Key new = key ∧ key_ok new.
Proof.
  intros Hc Hkey Hlen. unfold Manager_RotateMasterKey. rewrite Hkey.
  destruct (RotateMasterKey_given (m_masterKey m) key (ri_id i) (ri_now i))
    as (old & new & -> & _ & _ & Hnk & Hna).
  assert (st_List (m_store m) no_filter = []) as ->.
  { simpl. unfold raft_List. rewrite Hc.
    assert (range_map (∅ : gmap string Secret) = []) as ->; [|done].
    apply length_zero_iff_nil. by rewrite range_map_length. }
  rewrite NewEnvelopeEncryptor_ok by (split; congruence). simpl.
  do 2 eexists. split; [done|]. do 3 (split; [done|]). split; congruence.
Qed.

(** After a restart the Raft-backed store starts with an empty cache, which
    [loadCache] does not fill, and rotation re-encrypts only what the cache
    lists.  A secret that was created before the restart and not read since is
    not listed, the rotation reports success, and the secret, readable until
    then, is lost with the old key. *)
Theorem rotation_after_restart_loses_secret
    i0 (m0 m1 m2 : Manager RaftSecretStore) ns n data opts x i key env :
  key_ok (m_masterKey m0) → one_key m0 → (∀ k, rand_ok (in_rand i0 k)) →
  CreateSecret i0 m0 ns n data opts = (m1, Ok x) →
  NewRaftSecretStore (Some (raftStore (m_store m1))) = Ok (m_store m2) →
  one_key m2 → m_masterKey m2 = m_masterKey m1 →
  ri_key i = Some key → slen key = DataKeySize →
  (∀ new k, mk_Key new = key → rejects new (m_masterKey m0) (in_rand i0 k)) →
  let '(m3, err) := Manager_RotateMasterKey i m2 in
  plain env m2 ns n = Some data ∧ (∀ filter, ListSecrets m2 filter = []) ∧
  err = None ∧ plain env m3 ns n = None.
Proof.
  intros Hk0 Hone0 Hrand Hc Hnew Hone2 Hmk Hkey Hlen Hrej.
  apply CreateSecret_Ok in Hc as (Hname & Hdata & _ & Hr & _ & Hdel & (envs & Henvs & Hd & Ha)
    & Hsave & Hm1 & _ & Hmk1 & _).
  pose proof (validateSecretName_None _ _ Hname) as [Hns Hn]. injection Hnew as Hm2.
  pose proof (restarted_got (in_save i0) env _ x ns n Hsave Hr Hns Hn) as Hgot.
  change (m_store m1 = (raft_Save (in_save i0) (st_Get (in_get i0) (m_store m0) ns n).1 x).1) in Hm1.
  rewrite <-Hm1 in Hgot. unfold loadCache in Hm2. rewrite Hm2 in Hgot.
  destruct (rotate_empty_cache i m2 key) as (m3 & new & -> & Hs3 & He3 & Hnk & Hnok);
    [by rewrite <-Hm2|done..|].
  assert (m_encryptor m2 = m_encryptor m0) as He2 by (rewrite Hone2, Hone0; congruence).
  unfold plain. rewrite Hs3, Hgot, He2, He3, !(plain_secret_equiv _ _ _ (json_copy_equiv x)).
  unfold plain_secret. rewrite Hdel. split_and!.
  - rewrite (decrypt_all_sealed _ x data envs); [done| |done..].
    apply (encrypt_all_sealed (in_rand i0)); try done. by rewrite Hone0.
  - intros filter. unfold ListSecrets. simpl. unfold raft_List. rewrite <-Hm2. simpl.
    assert (range_map (∅ : gmap string Secret) = []) as ->
      by (apply length_zero_iff_nil; by rewrite range_map_length).
    simpl. by rewrite limit_offset_nil.
  - done.
  - case_match eqn:Hdec; [|done]. exfalso. revert Hdec.
    destruct (map_choose data) as (k & p & Hp).
    { intros ->. by unfold validateSecretData in Hdata. }
    unfold encrypt_all in Henvs. rewrite collect_Ok in Henvs. specialize (Henvs k).
    rewrite Hp in Henvs. destruct Henvs as (e & He & Hek). case_match eqn:Henc; [|done].
    injection He as ->. rewrite Hone0 in Henc.
    apply (wrong_key_unreadable (in_rand i0 k) new (m_masterKey m0) x k p e); try done.
    + by rewrite Hnk.
    + by apply Hrej.
    + by rewrite Hd, lookup_fmap, Hek.
    + by apply Ha.
Qed.

End restart.

(** ** Witnesses *)

#[local] Existing Instance range_canonical.
#[local] Existing Instance clear_cipher.
#[local] Existing Instance one_token.
#[local] Existing Instance bit_codec.

Definition new_key : string := mk_Key (sample_key "b").

Definition rotate_inputs : RotateInputs :=
  {| ri_key := Some new_key; ri_id := Some "id"%string; ri_now := 1;
     ri_rand := fun _ _ => sample_rand; ri_save := fun _ => calm |}.

Lemma pair_none {X} (p : X * option string) : p.2 = None → p = (p.1, None).
Proof. by destruct p as [x o]; simpl; intros ->. Qed.

Lemma rotation_keeps_plaintexts_witness :
  plain calm (Manager_RotateMasterKey rotate_inputs created.1).1 "ns" "db" = plain calm created.1 "ns" "db".
Proof.
  destruct (rotation_keeps_plaintexts rotate_inputs created.1
    (Manager_RotateMasterKey rotate_inputs created.1).1 created_ok)
    as (_ & _ & _ & _ & Hplain).
  - reflexivity.
  - apply mem_listed, created_ok.
  - intros ref k. apply sample_rand_ok.
  - apply pair_none. vm_compute. reflexivity.
  - apply Hplain.
Defined.

(** A secret in the legacy format, beside the created one. *)
Definition legacy_secret : Secret :=
  {| sec_Name := "old"; sec_Namespace := "ns"; sec_Description := ""; sec_Labels := ∅;
     sec_Annotations := Some {["nonce"%string := "00"%string]};
     sec_Data := {["k"%string := "sealed"%string]}; sec_EncryptedDataKey := Some "key"%string;
     sec_KeyID := ""; sec_Algorithm := ""; sec_Audiences := []; sec_TTL := 0; sec_Version := 1;
     sec_Immutable := false; sec_CreatedAt := 0; sec_UpdatedAt := 0; sec_RotatedAt := None;
     sec_ExpiresAt := None; sec_DeletedAt := None; sec_DeleteAfter := 0 |}.

Definition mixed_manager : Manager InMemorySecretStore :=
  sample_manager (st_Save calm (m_store created.1) legacy_secret).1.

Lemma mixed_ok : manager_ok mixed_manager.
Proof. split; [apply sample_key_ok|]. apply wf_Save, created_ok. Qed.

Lemma created_holds : holds (m_encryptor mixed_manager) created_secret sample_data.
Proof.
  unfold created_secret. rewrite json_copy_equiv.
  destruct (CreateSecret_Ok _ _ _ _ _ _ _ _ created_run)
    as (_ & Hv & _ & _ & _ & _ & (envs & Henvs & Hd & Ha) & _).
  exists envs. split; [|split; [done|split; [done|]]].
  - apply (encrypt_all_sealed (in_rand sample_inputs)); [apply sample_key_ok|intros; apply sample_rand_ok|done].
  - intros k v Hk. by eapply validateSecretData_None.
Qed.


Lemma failed_rotation_loses_secrets_witness :
  is_Some (Manager_RotateMasterKey rotate_inputs mixed_manager).2 ∧
  plain calm mixed_manager (sec_Namespace created_secret) (sec_Name created_secret) =
    Some sample_data ∧
  plain calm (Manager_RotateMasterKey rotate_inputs mixed_manager).1
    (sec_Namespace created_secret) (sec_Name created_secret) = None.
Proof.
  pose proof (failed_rotation_loses_secrets rotate_inputs mixed_manager new_key created_secret
    sample_data legacy_secret "k" "sealed" calm mixed_ok eq_refl eq_refl eq_refl
    (fun _ _ => sample_rand_ok)) as Hspec.
  destruct (Manager_RotateMasterKey rotate_inputs mixed_manager) as [m' err].
  destruct Hspec as (He & _ & Hbefore & Hafter);
    [..|exact (conj He (conj Hbefore Hafter))].
  - intros new j Hnew dk kn [= <-] [= <-]. rewrite Hnew. vm_compute. reflexivity.
  - vm_compute. reflexivity.
  - vm_compute. reflexivity.
  - vm_compute. discriminate.
  - vm_compute. discriminate.
  - apply created_holds.
  - vm_compute. discriminate.
  - vm_compute. reflexivity.
  - reflexivity.
  - vm_compute. reflexivity.
  - vm_compute. reflexivity.
Defined.


Definition leader : RaftSecretStore :=
  {| raftStore := {| fsm := NewFSM; is_leader := true |}; cache := ∅ |}.

Definition created_on_leader : Manager RaftSecretStore * result string Secret :=
  CreateSecret sample_inputs (sample_manager leader) "ns" "db" sample_data [].

Definition restarted : Manager RaftSecretStore :=
  sample_manager {| raftStore := raftStore (m_store created_on_leader.1); cache := ∅ |}.

Lemma rotation_after_restart_loses_secret_witness :
  plain calm restarted "ns" "db" = Some sample_data ∧
  (Manager_RotateMasterKey rotate_inputs restarted).2 = None ∧
  plain calm (Manager_RotateMasterKey rotate_inputs restarted).1 "ns" "db" = None.
Proof.
  pose proof (rotation_after_restart_loses_secret sample_inputs (sample_manager leader)
    created_on_leader.1 restarted "ns" "db" sample_data [] (the_ok no_secret created_on_leader.2)
    rotate_inputs new_key calm (sample_key_ok "a") eq_refl (fun _ => sample_rand_ok)) as Hspec.
  destruct (Manager_RotateMasterKey rotate_inputs restarted) as [m3 err].
  destruct Hspec as (Hbefore & _ & He & Hafter);
    [..|exact (conj Hbefore (conj He Hafter))].
  - change (created_on_leader = (created_on_leader.1, Ok (the_ok no_secret created_on_leader.2))).
    apply pair_ok. by vm_compute.
  - reflexivity.
  - reflexivity.
  - vm_compute. reflexivity.
  - reflexivity.
  - reflexivity.
  - intros new k Hnew dk kn [= <-] [= <-]. rewrite Hnew. vm_compute. reflexivity.
Defined.
