(* ===== verification/SecretsService.v ===== *)
(** * The secrets service (pkg/coordinator/secrets_service.go)

    The handlers of the gRPC service over the secret manager.  A handler is a
    function of the manager, which is [None] when the service is not enabled,
    of the request, of what the coordinator knows of the leadership and of the
    inputs of the manager's operation.  Errors are a status code and a text;
    the code is found by searching the text of the manager's error.  A
    Timestamp is the number of nanoseconds it stands for. *)

From S2P Require Import Prelude GoText GoFloat RaftFSM SecretCrypto SecretTokens Secrets.

Local Open Scope string_scope.
Local Open Scope Z_scope.

(** ** Messages (pkg/api/cloudless.proto)

    Fields that no handler reads are left out of the requests. *)

Module sapi.

Record SecretMetadata := {
  name : string;
  namespace : string;
  version : Z;
  audiences : list string;
  ttl_seconds : Z;
  immutable : bool;
  created_at : option Z;
  updated_at : option Z;
  expires_at : option Z;
  labels : gmap string string;
  data_key_count : Z
}.

Record SecretData := {
  encrypted_data : gmap string string;
  encrypted_data_key : option string;
  key_id : string;
  algorithm : string
}.

Record SecretResponse := { sr_metadata : SecretMetadata; sr_data : SecretData }.

Record AccessToken := {
  token_id : string;
  secret_ref : string;
  audience : string;
  token : string;
  issued_at : Z;
  tok_expires_at : Z;
  uses_remaining : Z;
  last_used_at : option Z
}.

Record MasterKeyInfo := {
  mki_key_id : string;
  mki_algorithm : string;
  mki_active : bool;
  mki_created_at : Z
}.

Record SecretAuditEntry := {
  timestamp : Z;
  action : string;
  ae_secret_ref : string;
  actor : string;
  success : bool;
  reason : string
}.

Record CreateSecretRequest := {
  c_name : string;
  c_namespace : string;
  c_data : gmap string string;
  c_audiences : list string;
  c_ttl_seconds : Z;
  c_immutable : bool;
  c_expires_at : option Z;
  c_labels : gmap string string
}.

Record GetSecretRequest := {
  g_name : string;
  g_namespace : string;
  g_access_token : string;
  g_audience : string
}.

Record GetSecretResponse := { gr_metadata : SecretMetadata; gr_data : gmap string string }.

Record UpdateSecretRequest := {
  u_name : string;
  u_namespace : string;
  u_data : gmap string string
}.

Record DeleteSecretRequest := { d_name : string; d_namespace : string }.

Record ListSecretsRequest := {
  l_namespace : string;
  l_label_selector : gmap string string;
  l_name_prefix : string;
  l_limit : Z
}.

Record GenerateAccessTokenRequest := {
  t_name : string;
  t_namespace : string;
  t_audience : string;
  t_ttl_seconds : Z;
  t_max_uses : Z
}.

Inductive RevokeTarget :=
| TokenId (id : string)
| SecretRef (ref : string).

Record RotateMasterKeyResponse := {
  old_key : MasterKeyInfo;
  new_key : MasterKeyInfo;
  secrets_re_encrypted : Z
}.

Record GetSecretAuditLogRequest := {
  a_secret_ref : string;
  a_start_time : option Z;
  a_end_time : option Z;
  a_limit : Z
}.

End sapi.

(** ** Status codes *)

Inductive Code :=
| Unavailable | FailedPrecondition | InvalidArgument | AlreadyExists | NotFound
| Unauthenticated | PermissionDenied | Unimplemented | Internal.

Definition rpc_error : Type := Code * string.

(** [strings.Contains] *)
Fixpoint Contains (s needle : string) : bool :=
  HasPrefix s needle ||
  match s with
  | EmptyString => false
  | String _ s' => Contains s' needle
  end.

(** What the coordinator knows of the cluster during a request. *)
Record Peer := { p_IsLeader : bool; p_GetLeader : string }.

(** ** Conversions *)

Definition secretMetadataToProto (secret : Secret) : sapi.SecretMetadata := {|
  sapi.name := sec_Name secret; sapi.namespace := sec_Namespace secret;
  sapi.version := sec_Version secret; sapi.audiences := sec_Audiences secret;
  sapi.ttl_seconds := sec_TTL secret; sapi.immutable := sec_Immutable secret;
  sapi.created_at := Some (sec_CreatedAt secret); sapi.updated_at := Some (sec_UpdatedAt secret);
  sapi.expires_at := sec_ExpiresAt secret; sapi.labels := sec_Labels secret;
  sapi.data_key_count := int32 (Z.of_nat (size (sec_Data secret))) |}.

Definition secretToProto (secret : Secret) : sapi.SecretResponse := {|
  sapi.sr_metadata := {|
    sapi.name := sec_Name secret; sapi.namespace := sec_Namespace secret;
    sapi.version := sec_Version secret; sapi.audiences := sec_Audiences secret;
    sapi.ttl_seconds := sec_TTL secret; sapi.immutable := sec_Immutable secret;
    sapi.created_at := Some (sec_CreatedAt secret); sapi.updated_at := Some (sec_UpdatedAt secret);
    sapi.expires_at := sec_ExpiresAt secret; sapi.labels := sec_Labels secret;
    sapi.data_key_count := int32 (Z.of_nat (size (sec_Data secret))) |};
  sapi.sr_data := {|
    sapi.encrypted_data := sec_Data secret; sapi.encrypted_data_key := sec_EncryptedDataKey secret;
    sapi.key_id := sec_KeyID secret; sapi.algorithm := sec_Algorithm secret |} |}.

Definition accessTokenToProto (token : SecretAccessToken) : sapi.AccessToken := {|
  sapi.token_id := tok_ID token; sapi.secret_ref := tok_SecretRef token;
  sapi.audience := tok_Audience token; sapi.token := tok_Token token;
  sapi.issued_at := tok_IssuedAt token; sapi.tok_expires_at := tok_ExpiresAt token;
  sapi.uses_remaining := int32 (tok_UsesRemaining token);
  sapi.last_used_at := if IsZero (tok_LastUsedAt token) then None else Some (tok_LastUsedAt token) |}.

Definition key_info (k : MasterKey) : sapi.MasterKeyInfo := {|
  sapi.mki_key_id := mk_ID k; sapi.mki_algorithm := mk_Algorithm k;
  sapi.mki_active := mk_Active k; sapi.mki_created_at := mk_CreatedAt k |}.

(** The options of a request to create a secret, in the order they apply. *)
Definition create_options (req : sapi.CreateSecretRequest) : list SecretOption :=
  (if 0 <? len (sapi.c_audiences req) then [WithAudiences (sapi.c_audiences req)] else []) ++
  (if 0 <? Z.of_nat (size (sapi.c_labels req)) then [WithLabels (sapi.c_labels req)] else []) ++
  (if 0 <? sapi.c_ttl_seconds req then [WithTTL (int64 (sapi.c_ttl_seconds req * second))] else []) ++
  (if sapi.c_immutable req then [WithImmutable] else []) ++
  match sapi.c_expires_at req with Some t => [WithExpiration t] | None => [] end.

(** ** Codes of the manager's errors *)

Definition create_error (namespace name err : string) : rpc_error :=
  if Contains err "already exists" then
    (AlreadyExists, "secret already exists: " +:+ namespace +:+ "/" +:+ name)
  else (Internal, "failed to create secret: " +:+ err).

Definition get_error (namespace name err : string) : rpc_error :=
  if Contains err "not found" then
    (NotFound, "secret not found: " +:+ namespace +:+ "/" +:+ name)
  else if Contains err "invalid token" || Contains err "expired" then
    (Unauthenticated, "invalid or expired access token")
  else if Contains err "permission denied" || Contains err "audience" then
    (PermissionDenied, "access denied: " +:+ err)
  else (Internal, "failed to get secret: " +:+ err).

Definition update_error (namespace name err : string) : rpc_error :=
  if Contains err "not found" then
    (NotFound, "secret not found: " +:+ namespace +:+ "/" +:+ name)
  else if Contains err "immutable" then
    (FailedPrecondition, "cannot update immutable secret: " +:+ namespace +:+ "/" +:+ name)
  else (Internal, "failed to update secret: " +:+ err).

Definition delete_error (namespace name err : string) : rpc_error :=
  if Contains err "not found" then
    (NotFound, "secret not found: " +:+ namespace +:+ "/" +:+ name)
  else (Internal, "failed to delete secret: " +:+ err).

Definition token_error (namespace name audience err : string) : rpc_error :=
  if Contains err "not found" then
    (NotFound, "secret not found: " +:+ namespace +:+ "/" +:+ name)
  else if Contains err "audience" || Contains err "not allowed" then
    (PermissionDenied, "audience " +:+ audience +:+ " not allowed for secret "
                       +:+ namespace +:+ "/" +:+ name)
  else (Internal, "failed to generate access token: " +:+ err).

(** ** Handlers *)

Definition not_enabled : rpc_error := (Unavailable, "secrets service is not enabled").
Definition name_required : rpc_error := (InvalidArgument, "secret name is required").
Definition namespace_required : rpc_error := (InvalidArgument, "namespace is required").
Definition data_required : rpc_error := (InvalidArgument, "secret data cannot be empty").
Definition audience_required : rpc_error := (InvalidArgument, "audience is required").

Definition redirect (p : Peer) : rpc_error :=
  (FailedPrecondition, "not the leader, redirect to: " +:+ p_GetLeader p).

(** The first guard that holds refuses the request. *)
Fixpoint refusal (guards : list (bool * rpc_error)) : option rpc_error :=
  match guards with
  | [] => None
  | (c, e) :: guards => if c then Some e else refusal guards
  end.

Section service.
Context {S : Type} `{GoRange, AEAD, JWT, !SecretStore S}.

(** [coordinator.secretsManager], nil when the service is not enabled. *)
Definition SecretsServiceServer : Type := option (Manager S).

Definition create_guards (p : Peer) (req : sapi.CreateSecretRequest) : list (bool * rpc_error) :=
  [(negb (p_IsLeader p), redirect p);
   (sapi.c_name req =?s "", name_required);
   (sapi.c_namespace req =?s "", namespace_required);
   (Z.of_nat (size (sapi.c_data req)) =? 0, data_required)].

Definition HandleCreateSecret (i : Inputs) (p : Peer) (s : SecretsServiceServer)
    (req : sapi.CreateSecretRequest) : SecretsServiceServer * result rpc_error sapi.SecretResponse :=
  match s with
  | None => (s, Err not_enabled)
  | Some m =>
      match refusal (create_guards p req) with
      | Some e => (s, Err e)
      | None =>
          let '(m, r) := CreateSecret i m (sapi.c_namespace req) (sapi.c_name req)
                           (sapi.c_data req) (create_options req) in
          (Some m, match r with
                   | Err err => Err (create_error (sapi.c_namespace req) (sapi.c_name req) err)
                   | Ok secret => Ok (secretToProto secret)
                   end)
      end
  end.

Definition get_guards (req : sapi.GetSecretRequest) : list (bool * rpc_error) :=
  [(sapi.g_name req =?s "", name_required);
   (sapi.g_namespace req =?s "", namespace_required);
   (sapi.g_access_token req =?s "", (Unauthenticated, "access token is required"));
   (sapi.g_audience req =?s "", audience_required)].

Definition access_request (req : sapi.GetSecretRequest) : SecretAccessRequest :=
  {| req_SecretName := sapi.g_name req; req_Namespace := sapi.g_namespace req;
     req_Audience := sapi.g_audience req; req_AccessToken := sapi.g_access_token req |}.

Definition access_response (r : SecretAccessResponse) : sapi.GetSecretResponse := {|
  sapi.gr_metadata := {|
    sapi.name := resp_Name r; sapi.namespace := resp_Namespace r; sapi.version := resp_Version r;
    sapi.audiences := []; sapi.ttl_seconds := 0; sapi.immutable := false;
    sapi.created_at := None; sapi.updated_at := None; sapi.expires_at := resp_ExpiresAt r;
    sapi.labels := ∅; sapi.data_key_count := 0 |};
  sapi.gr_data := resp_Data r |}.

Definition HandleGetSecret (i : Inputs) (r : Readings) (s : SecretsServiceServer)
    (req : sapi.GetSecretRequest) : SecretsServiceServer * result rpc_error sapi.GetSecretResponse :=
  match s with
  | None => (s, Err not_enabled)
  | Some m =>
      match refusal (get_guards req) with
      | Some e => (s, Err e)
      | None =>
          let '(m, res) := GetSecret i r m (access_request req) in
          (Some m, match res with
                   | Err err => Err (get_error (sapi.g_namespace req) (sapi.g_name req) err)
                   | Ok resp => Ok (access_response resp)
                   end)
      end
  end.

Definition update_guards (p : Peer) (req : sapi.UpdateSecretRequest) : list (bool * rpc_error) :=
  [(negb (p_IsLeader p), redirect p);
   (sapi.u_name req =?s "", name_required);
   (sapi.u_namespace req =?s "", namespace_required);
   (Z.of_nat (size (sapi.u_data req)) =? 0, data_required)].

(** [None] is the panic of the manager's [UpdateSecret]. *)
Definition HandleUpdateSecret (i : Inputs) (p : Peer) (s : SecretsServiceServer)
    (req : sapi.UpdateSecretRequest)
    : option (SecretsServiceServer * result rpc_error sapi.SecretResponse) :=
  match s with
  | None => Some (s, Err not_enabled)
  | Some m =>
      match refusal (update_guards p req) with
      | Some e => Some (s, Err e)
      | None =>
          '(m, r) ← UpdateSecret i m (sapi.u_namespace req) (sapi.u_name req) (sapi.u_data req);
          Some (Some m, match r with
                        | Err err => Err (update_error (sapi.u_namespace req) (sapi.u_name req) err)
                        | Ok secret => Ok (secretToProto secret)
                        end)
      end
  end.

Definition delete_guards (p : Peer) (req : sapi.DeleteSecretRequest) : list (bool * rpc_error) :=
  [(negb (p_IsLeader p), redirect p);
   (sapi.d_name req =?s "", name_required);
   (sapi.d_namespace req =?s "", namespace_required)].

Definition HandleDeleteSecret (i : Inputs) (p : Peer) (s : SecretsServiceServer)
    (req : sapi.DeleteSecretRequest) : SecretsServiceServer * option rpc_error :=
  match s with
  | None => (s, Some not_enabled)
  | Some m =>
      match refusal (delete_guards p req) with
      | Some e => (s, Some e)
      | None =>
          let '(m, err) := DeleteSecret i m (sapi.d_namespace req) (sapi.d_name req) in
          (Some m, delete_error (sapi.d_namespace req) (sapi.d_name req) <$> err)
      end
  end.

Definition list_filter (req : sapi.ListSecretsRequest) : SecretFilter :=
  {| sf_Namespace := sapi.l_namespace req; sf_Labels := sapi.l_label_selector req;
     sf_Name := ""; sf_Prefix := sapi.l_name_prefix req; sf_Limit := sapi.l_limit req;
     sf_Offset := 0 |}.

Definition listed_metadata (d : SecretMetadata) : sapi.SecretMetadata := {|
  sapi.name := sm_Name d; sapi.namespace := sm_Namespace d; sapi.version := sm_Version d;
  sapi.audiences := []; sapi.ttl_seconds := 0; sapi.immutable := false;
  sapi.created_at := Some (sm_CreatedAt d); sapi.updated_at := Some (sm_UpdatedAt d);
  sapi.expires_at := None; sapi.labels := sm_Labels d;
  sapi.data_key_count := int32 (len (sm_Keys d)) |}.

Definition HandleListSecrets (s : SecretsServiceServer) (req : sapi.ListSecretsRequest)
    : result rpc_error (list sapi.SecretMetadata) :=
  match s with
  | None => Err not_enabled
  | Some m =>
      if sapi.l_namespace req =?s "" then Err namespace_required
      else Ok (listed_metadata <$> ListSecrets m (list_filter req))
  end.

Definition token_guards (p : Peer) (req : sapi.GenerateAccessTokenRequest)
    : list (bool * rpc_error) :=
  [(negb (p_IsLeader p), redirect p);
   (sapi.t_name req =?s "", name_required);
   (sapi.t_namespace req =?s "", namespace_required);
   (sapi.t_audience req =?s "", audience_required)].

Definition token_ttl (req : sapi.GenerateAccessTokenRequest) : Z :=
  if 0 <? sapi.t_ttl_seconds req then int64 (sapi.t_ttl_seconds req * second) else 15 * minute.

Definition token_uses (req : sapi.GenerateAccessTokenRequest) : Z :=
  if 0 <? sapi.t_max_uses req then sapi.t_max_uses req else 1.

Definition HandleGenerateAccessToken (i : Inputs) (tokenID : string) (p : Peer)
    (s : SecretsServiceServer) (req : sapi.GenerateAccessTokenRequest)
    : SecretsServiceServer * result rpc_error sapi.AccessToken :=
  match s with
  | None => (s, Err not_enabled)
  | Some m =>
      match refusal (token_guards p req) with
      | Some e => (s, Err e)
      | None =>
          let '(m, r) := GenerateAccessToken i tokenID m (sapi.t_namespace req) (sapi.t_name req)
                           (sapi.t_audience req) (token_ttl req) (token_uses req) in
          (Some m, match r with
                   | Err err => Err (token_error (sapi.t_namespace req) (sapi.t_name req)
                                       (sapi.t_audience req) err)
                   | Ok token => Ok (accessTokenToProto token)
                   end)
      end
  end.

(** Revocation is not implemented: the answer is always an error. *)
Definition HandleRevokeAccessToken (p : Peer) (s : SecretsServiceServer)
    (target : option sapi.RevokeTarget) : rpc_error :=
  match s with
  | None => not_enabled
  | Some _ =>
      if negb (p_IsLeader p) then redirect p
      else match target with
      | Some (sapi.TokenId id) =>
          if id =?s "" then (InvalidArgument, "token ID is required")
          else (Unimplemented, "token revocation not yet implemented")
      | Some (sapi.SecretRef ref) =>
          if ref =?s "" then (InvalidArgument, "secret ref is required")
          else (Unimplemented, "secret token revocation not yet implemented")
      | None => (InvalidArgument, "must specify either token_id or secret_ref")
      end
  end.

Definition HandleValidateAccessToken (s : SecretsServiceServer) (token : string) : rpc_error :=
  match s with
  | None => not_enabled
  | Some _ =>
      if token =?s "" then (InvalidArgument, "token is required")
      else (Unimplemented, "token validation without consumption is not yet implemented")
  end.

Definition HandleRotateMasterKey (i : RotateInputs) (p : Peer) (s : SecretsServiceServer)
    : SecretsServiceServer * result rpc_error sapi.RotateMasterKeyResponse :=
  match s with
  | None => (s, Err not_enabled)
  | Some m =>
      if negb (p_IsLeader p) then (s, Err (redirect p))
      else
        let oldProtoKey := key_info (GetMasterKey m) in
        let '(m, err) := Manager_RotateMasterKey i m in
        (Some m,
         match err with
         | Some err => Err (Internal, "failed to rotate master key: " +:+ err)
         | None => Ok {| sapi.old_key := oldProtoKey; sapi.new_key := key_info (GetMasterKey m);
                         sapi.secrets_re_encrypted := 0 |}
         end)
  end.

Definition HandleGetMasterKeyInfo (s : SecretsServiceServer) : result rpc_error sapi.MasterKeyInfo :=
  match s with
  | None => Err not_enabled
  | Some m => Ok (key_info (GetMasterKey m))
  end.

Definition audit_proto (e : SecretAuditEntry) : sapi.SecretAuditEntry := {|
  sapi.timestamp := ae_Timestamp e; sapi.action := ae_Action e;
  sapi.ae_secret_ref := ae_SecretRef e; sapi.actor := ae_Actor e; sapi.success := ae_Success e;
  sapi.reason := ae_Reason e |}.

(** The entries of the period, both ends included. *)
Definition in_period (req : sapi.GetSecretAuditLogRequest) (e : SecretAuditEntry) : bool :=
  negb match sapi.a_start_time req with Some t => ae_Timestamp e <? t | None => false end &&
  negb match sapi.a_end_time req with Some t => t <? ae_Timestamp e | None => false end.

(** The limit is applied before the filters. *)
Definition HandleGetSecretAuditLog (s : SecretsServiceServer) (req : sapi.GetSecretAuditLogRequest)
    : result rpc_error (list sapi.SecretAuditEntry) :=
  match s with
  | None => Err not_enabled
  | Some m =>
      let limit := if 0 <? sapi.a_limit req then sapi.a_limit req else 100 in
      let entries := GetAuditLog m limit in
      let filteredEntries :=
        if negb (sapi.a_secret_ref req =?s "") then
          List.filter (fun e => ae_SecretRef e =?s sapi.a_secret_ref req) entries
        else entries in
      let filteredEntries :=
        match sapi.a_start_time req, sapi.a_end_time req with
        | None, None => filteredEntries
        | _, _ => List.filter (in_period req) filteredEntries
        end in
      Ok (audit_proto <$> filteredEntries)
  end.

End service.
Arguments SecretsServiceServer : clear implicits.

(** ** Start-up (pkg/coordinator/coordinator.go) *)

Record SecretsConfig := {
  cfg_SecretsEnabled : bool;
  cfg_SecretsMasterKey : string;
  cfg_SecretsMasterKeyID : string;
  cfg_SecretsTokenSigningKey : string;
  cfg_SecretsTokenTTL : Z;
  cfg_SecretsRotationEnabled : bool;
  cfg_SecretsRotationInterval : Z;
  cfg_TokenSecret : string
}.

(** The defaults and checks of [Config.Validate] on these fields. *)
Definition validate_secrets_config (c : SecretsConfig) : result string SecretsConfig :=
  if negb (cfg_SecretsEnabled c) then Ok c
  else if (0 <? slen (cfg_SecretsMasterKey c)) && negb (slen (cfg_SecretsMasterKey c) =? 32) then
    Err ("secrets master key must be exactly 32 bytes for AES-256, got "
         +:+ show_Z (slen (cfg_SecretsMasterKey c)))
  else
    let id := if cfg_SecretsMasterKeyID c =?s "" then "default-master-key"
              else cfg_SecretsMasterKeyID c in
    let signing := if slen (cfg_SecretsTokenSigningKey c) =? 0 then cfg_TokenSecret c
                   else cfg_SecretsTokenSigningKey c in
    if slen signing <? 32 then
      Err ("secrets token signing key must be at least 32 bytes, got " +:+ show_Z (slen signing))
    else Ok {|
      cfg_SecretsEnabled := true; cfg_SecretsMasterKey := cfg_SecretsMasterKey c;
      cfg_SecretsMasterKeyID := id; cfg_SecretsTokenSigningKey := signing;
      cfg_SecretsTokenTTL := if cfg_SecretsTokenTTL c =? 0 then 15 * minute
                             else cfg_SecretsTokenTTL c;
      cfg_SecretsRotationEnabled := cfg_SecretsRotationEnabled c;
      cfg_SecretsRotationInterval := if cfg_SecretsRotationInterval c =? 0 then 90 * 24 * hour
                                     else cfg_SecretsRotationInterval c;
      cfg_TokenSecret := cfg_TokenSecret c |}.

(** The service of a coordinator that starts on the replicated store.  [key]
    and [id] are the random bytes of a generated master key; [dir] tells
    whether the secrets directory could be made. *)
Definition start_secrets (now : Z) (key id : option string) (dir : bool) (secretsDir : string)
    (c : SecretsConfig) (raftStore : Store)
    : result string (SecretsServiceServer RaftSecretStore) :=
  if negb (cfg_SecretsEnabled c) then Ok None
  else if negb dir then Err "failed to create secrets directory"
  else
    let masterKey :=
      if slen (cfg_SecretsMasterKey c) =? 32 then Ok (cfg_SecretsMasterKey c)
      else match GenerateMasterKey key id now with
           | Err err => Err ("failed to generate master key: " +:+ err)
           | Ok k => Ok (mk_Key k)
           end in
    match masterKey with
    | Err err => Err err
    | Ok masterKey =>
        let secretsConfig := {|
          mc_MasterKeyID := cfg_SecretsMasterKeyID c; mc_MasterKey := masterKey;
          mc_EnableAutoRotation := cfg_SecretsRotationEnabled c;
          mc_RotationInterval := cfg_SecretsRotationInterval c;
          mc_TokenTTL := cfg_SecretsTokenTTL c;
          mc_TokenSigningKey := cfg_SecretsTokenSigningKey c;
          mc_MaxTokenUsesDefault := 1; mc_DataDir := secretsDir; mc_EnableAuditLog := true;
          mc_AuditRetention := 90 * 24 * hour |} in
        match NewRaftSecretStore (Some raftStore) with
        | Err err => Err ("failed to create secret store: " +:+ err)
        | Ok secretStore =>
            match NewManager now secretsConfig secretStore with
            | Err err => Err ("failed to initialize secrets manager: " +:+ err)
            | Ok m => Ok (Some m)
            end
        end
    end.
