(* ===== verification/SecretsServiceSpec.v ===== *)
(** * What the secrets service promises

    The specification is a vault: for each reference it says that there is no
    secret, that there is one with given contents, or nothing.  Histories of
    calls of the service and their answers refine its steps.  The second part
    counts the answered reads against the uses that were granted, the third
    gives the status codes of refused reads. *)

From S2P Require Import Prelude GoText GoFloat RaftFSM SecretCrypto SecretTokens Secrets SecretStores SecretManager SecretRotation SecretsService.

Local Open Scope Z_scope.

(** ** Calls and answers *)

Inductive Call :=
| CCreate (i : Inputs) (p : Peer) (req : sapi.CreateSecretRequest)
| CGet (i : Inputs) (r : Readings) (req : sapi.GetSecretRequest)
| CUpdate (i : Inputs) (p : Peer) (req : sapi.UpdateSecretRequest)
| CDelete (i : Inputs) (p : Peer) (req : sapi.DeleteSecretRequest)
| CToken (i : Inputs) (tokenID : string) (p : Peer) (req : sapi.GenerateAccessTokenRequest)
| CRotate (i : RotateInputs) (p : Peer)
| CList (req : sapi.ListSecretsRequest)
| CRevoke (p : Peer) (target : option sapi.RevokeTarget)
| CValidate (token : string)
| CKeyInfo
| CAudit (req : sapi.GetSecretAuditLogRequest).

Inductive Answer :=
| Refused (e : rpc_error)
| Written (x : sapi.SecretResponse)
| Read (x : sapi.GetSecretResponse)
| Deleted
| Granted (t : sapi.AccessToken)
| Rotated (x : sapi.RotateMasterKeyResponse)
| Listing (l : list sapi.SecretMetadata)
| KeyInfo (k : sapi.MasterKeyInfo)
| AuditLog (l : list sapi.SecretAuditEntry).

Definition answer {A} (f : A → Answer) (r : result rpc_error A) : Answer :=
  match r with Ok a => f a | Err e => Refused e end.

(** ** The vault *)

Inductive Entry :=
| Absent
| Holds (d : gmap string string)
| Unknown.

Definition Vault : Type := string → Entry.

Definition set_entry (ref : string) (e : Entry) (V : Vault) : Vault :=
  fun ref' => if ref' =?s ref then e else V ref'.

Lemma set_entry_eq ref e V : set_entry ref e V ref = e.
Proof. unfold set_entry. by rewrite bool_decide_eq_true_2. Qed.

Lemma set_entry_ne ref ref' e V : ref' ≠ ref → set_entry ref e V ref' = V ref'.
Proof. intros. unfold set_entry. by rewrite bool_decide_eq_false_2. Qed.

(** The reference a call is about. *)
Definition call_ref (c : Call) : string :=
  match c with
  | CCreate _ _ req => secret_ref (sapi.c_namespace req) (sapi.c_name req)
  | CGet _ _ req => secret_ref (sapi.g_namespace req) (sapi.g_name req)
  | CUpdate _ _ req => secret_ref (sapi.u_namespace req) (sapi.u_name req)
  | CDelete _ _ req => secret_ref (sapi.d_namespace req) (sapi.d_name req)
  | CToken _ _ _ req => secret_ref (sapi.t_namespace req) (sapi.t_name req)
  | _ => ""
  end.

Section service.
Context {S : Type} `{GoRange} {A : AEAD} {HA : AEADLaws A} `{JWT, SecretStore S, !StoreLaws S}.

Definition serve (c : Call) (s : SecretsServiceServer S) : option (SecretsServiceServer S * Answer) :=
  match c with
  | CCreate i p req => let '(s, r) := HandleCreateSecret i p s req in Some (s, answer Written r)
  | CGet i r req => let '(s, r) := HandleGetSecret i r s req in Some (s, answer Read r)
  | CUpdate i p req => '(s, r) ← HandleUpdateSecret i p s req; Some (s, answer Written r)
  | CDelete i p req =>
      let '(s, e) := HandleDeleteSecret i p s req in
      Some (s, match e with Some e => Refused e | None => Deleted end)
  | CToken i id p req =>
      let '(s, r) := HandleGenerateAccessToken i id p s req in Some (s, answer Granted r)
  | CRotate i p => let '(s, r) := HandleRotateMasterKey i p s in Some (s, answer Rotated r)
  | CList req => Some (s, answer Listing (HandleListSecrets s req))
  | CRevoke p target => Some (s, Refused (HandleRevokeAccessToken p s target))
  | CValidate token => Some (s, Refused (HandleValidateAccessToken s token))
  | CKeyInfo => Some (s, answer KeyInfo (HandleGetMasterKeyInfo s))
  | CAudit req => Some (s, answer AuditLog (HandleGetSecretAuditLog s req))
  end.

(** The store answered a call of [Save] with an error. *)
Definition save_fails (e : StoreEnv) : Prop := ∃ (s : S) x, (st_Save e s x).2 ≠ None.

(** The steps of the vault.  A refused call changes nothing, unless the store
    failed to save; a rotation that fails leaves everything open. *)
Inductive vault_step (V : Vault) (c : Call) : Answer → Vault → Prop :=
| v_created i p req x :
    c = CCreate i p req → (∀ d, V (call_ref c) ≠ Holds d) →
    vault_step V c (Written x) (set_entry (call_ref c) (Holds (sapi.c_data req)) V)
| v_updated i p req x :
    c = CUpdate i p req → V (call_ref c) ≠ Absent →
    vault_step V c (Written x) (set_entry (call_ref c) (Holds (sapi.u_data req)) V)
| v_deleted i p req :
    c = CDelete i p req → vault_step V c Deleted (set_entry (call_ref c) Absent V)
| v_read i r req x :
    c = CGet i r req →
    V (call_ref c) = Holds (sapi.gr_data x) ∨ V (call_ref c) = Unknown →
    vault_step V c (Read x) V
| v_granted i id p req t :
    c = CToken i id p req → V (call_ref c) ≠ Absent → vault_step V c (Granted t) V
| v_rotated i p x : c = CRotate i p → vault_step V c (Rotated x) V
| v_lost i p e : c = CRotate i p → vault_step V c (Refused e) (fun _ => Unknown)
| v_failed i e :
    match c with
    | CCreate j _ _ | CUpdate j _ _ | CDelete j _ _ => j = i
    | _ => False
    end → save_fails (in_save i) →
    vault_step V c (Refused e) (set_entry (call_ref c) Unknown V)
| v_refused e : vault_step V c (Refused e) V
| v_listed req l : c = CList req → vault_step V c (Listing l) V
| v_key k : c = CKeyInfo → vault_step V c (KeyInfo k) V
| v_audit req l : c = CAudit req → vault_step V c (AuditLog l) V.

Inductive vault_run (V : Vault) : list (Call * Answer) → Vault → Prop :=
| vr_start : vault_run V [] V
| vr_step h c a V1 V2 : vault_run V h V1 → vault_step V1 c a V2 → vault_run V (h ++ [(c, a)]) V2.

(** ** Reading the vault off a manager *)

Definition entry_ok (m : Manager S) (ref : string) (e : Entry) : Prop :=
  ∀ env ns n, secret_ref ns n = ref → ns ≠ EmptyString → n ≠ EmptyString →
  match e with
  | Absent => taken env m ns n = false
  | Holds d => d ≠ ∅ ∧ plain env m ns n = Some d
  | Unknown => True
  end.

Definition vault_ok (m : Manager S) (V : Vault) : Prop := ∀ ref, entry_ok m ref (V ref).

(** Random bytes have the length that was asked for, numbers of uses are
    int32, and a rotation is asked for when the store lists all its secrets. *)
Definition call_ok (c : Call) (m : Manager S) : Prop :=
  match c with
  | CCreate i _ _ | CUpdate i _ _ => ∀ k, rand_ok (in_rand i k)
  | CRotate i _ =>
      (∀ ref k, rand_ok (ri_rand i ref k)) ∧ (∀ k, ri_key i = Some k → slen k = DataKeySize) ∧
      listed (m_store m)
  | CToken _ _ _ req => sapi.t_max_uses req < 2 ^ 31
  | _ => True
  end.

Inductive calls (m : Manager S) : list (Call * Answer) → Manager S → Prop :=
| cs_start : calls m [] m
| cs_step h c a m1 m2 :
    calls m h m1 → call_ok c m1 → serve c (Some m1) = Some (Some m2, a) →
    calls m (h ++ [(c, a)]) m2.

(** ** Steps of the manager *)

Lemma view_by_ref env (m : Manager S) ns n ns' n' :
  secret_ref ns n = secret_ref ns' n' →
  ns ≠ EmptyString → n ≠ EmptyString → ns' ≠ EmptyString → n' ≠ EmptyString →
  plain env m ns n = plain env m ns' n' ∧ taken env m ns n = taken env m ns' n'.
Proof. intros. unfold plain, taken. by rewrite (get_by_ref env (m_store m) ns n ns' n'). Qed.

Lemma plain_taken env (m : Manager S) ns n d : plain env m ns n = Some d → taken env m ns n = true.
Proof.
  unfold plain, taken, plain_secret. by destruct (got _ _ _ _) as [[x|]|]; [destruct (sec_DeletedAt x)|..].
Qed.

(** The parts of the manager that reading leaves alone. *)
Definition keys_kept (m m' : Manager S) : Prop :=
  m_encryptor m' = m_encryptor m ∧ m_masterKey m' = m_masterKey m.

Definition only_read (e : StoreEnv) (ns n : string) (m m' : Manager S) : Prop :=
  keys_kept m m' ∧ (m_store m' = m_store m ∨ m_store m' = (st_Get e (m_store m) ns n).1).

(** A [Get] answers the same afterwards, as far as an entry can tell. *)
Lemma entry_read e ns n m m' V :
  manager_ok m → only_read e ns n m m' → vault_ok m V → manager_ok m' ∧ vault_ok m' V.
Proof.
  intros Hok [[Henc _] Hs] HV.
  assert (m_store m' = m_store m ∨
          ∃ x, got e (m_store m) ns n = Ok (Some x) ∧ m_store m' = (st_Get e (m_store m) ns n).1)
    as Hs'.
  { destruct Hs as [Hs|Hs]; [by left|]. destruct (got e (m_store m) ns n) as [[x|]|] eqn:Hx.
    - right. eauto.
    - left. by rewrite Hs, get_missing; [|rewrite Hx].
    - left. by rewrite Hs, get_missing; [|rewrite Hx]. }
  destruct Hok as [Hk Hwf]. split.
  { split; [by rewrite Henc|]. destruct Hs as [->| ->]; [done|by apply wf_Get]. }
  intros ref env ns' n' Href Hns' Hn'. specialize (HV ref env ns' n' Href Hns' Hn') as Hv.
  unfold plain, taken in *. rewrite Henc. destruct Hs' as [->|(x & Hx & ->)]; [done|].
  destruct (decide (secret_ref ns' n' = secret_ref ns n)) as [Heq|Hne]; [|by rewrite get_others].
  destruct (get_ref _ _ _ _ _ Hwf Hx) as (_ & Hns & Hn).
  rewrite (get_by_ref env _ ns' n' ns n), (get_again e env _ _ _ _ Hx) by done.
  specialize (HV ref e ns n (eq_trans (eq_sym Heq) Href) Hns Hn). unfold plain, taken in HV.
  by rewrite Hx in HV.
Qed.

(** A call that is about one reference and leaves the others as they are. *)
Lemma entry_write ref e m m' V :
  others_plain ref m m' → vault_ok m V → entry_ok m' ref e → vault_ok m' (set_entry ref e V).
Proof.
  intros Hoth HV He ref'. destruct (decide (ref' = ref)) as [->|Hne].
  - by rewrite set_entry_eq.
  - rewrite set_entry_ne by done. intros env ns n Href Hns Hn.
    destruct (Hoth env ns n) as [-> ->]; [congruence|]. by apply (HV ref').
Qed.

(** One way to write a reference stands for all. *)
Lemma entry_at m ns n e :
  ns ≠ EmptyString → n ≠ EmptyString →
  (∀ env, match e with
          | Absent => taken env m ns n = false
          | Holds d => d ≠ ∅ ∧ plain env m ns n = Some d
          | Unknown => True
          end) → entry_ok m (secret_ref ns n) e.
Proof.
  intros Hns Hn He env ns' n' Href Hns' Hn'.
  destruct (view_by_ref env m ns' n' ns n) as [-> ->]; [done..|]. apply He.
Qed.

Lemma only_read_same e ns n m m' :
  keys_kept m m' → m_store m' = m_store m ∨ m_store m' = (st_Get e (m_store m) ns n).1 →
  only_read e ns n m m'.
Proof. done. Qed.

Local Ltac read_only :=
  match goal with Hc : _ = _ |- _ => injection Hc as <- _ end;
  left; apply only_read_same; [done|]; simpl;
  match goal with
  | H : st_Get _ _ _ _ = _ |- _ => rewrite H; by right
  | |- _ => by left
  end.

Lemma CreateSecret_refused i m ns n data opts m' err :
  CreateSecret i m ns n data opts = (m', Err err) →
  only_read (in_get i) ns n m m' ∨ save_fails (in_save i).
Proof.
  unfold CreateSecret. intros Hc.
  destruct (validateSecretName ns n); [read_only|].
  destruct (validateSecretData data); [read_only|].
  destruct (st_Get _ _ _ _) as [s1 ex] eqn:Hget. simpl in Hc.
  destruct (match ex with Ok (Some _) => _ | _ => _ end); [read_only|].
  destruct (encrypt_all _ _ _) as [envs|]; [|read_only].
  match type of Hc with context [st_Save _ s1 ?y] => set (z := y) in *; clearbody z end.
  destruct (st_Save _ s1 z) as [s2 [e|]] eqn:Hs; [|done]. right. exists s1, z. by rewrite Hs.
Qed.

Lemma CreateSecret_keys i m ns n data opts : keys_kept m (CreateSecret i m ns n data opts).1.
Proof.
  unfold CreateSecret, keys_kept. destruct (validateSecretName ns n); [done|].
  destruct (validateSecretData data); [done|]. destruct (st_Get _ _ _ _) as [s1 ex].
  destruct (match ex with Ok (Some _) => _ | _ => _ end); [done|].
  destruct (encrypt_all _ _ _) as [envs|]; [|done]. by destruct (st_Save _ _ _) as [s2 [e|]].
Qed.

Lemma UpdateSecret_refused i m ns n data m' err :
  UpdateSecret i m ns n data = Some (m', Err err) →
  only_read (in_get i) ns n m m' ∨ save_fails (in_save i).
Proof.
  unfold UpdateSecret. intros Hc.
  destruct (st_Get _ _ _ _) as [s1 [[x|]|]] eqn:Hget; [|read_only..].
  destruct (sec_Immutable x); [read_only|].
  destruct (sec_DeletedAt x); [read_only|].
  destruct (encrypt_all _ _ _) as [envs|]; [|read_only].
  match type of Hc with match ?o with Some _ => _ | None => _ end = _ => destruct o as [ann|]; [|done] end.
  match type of Hc with context [st_Save _ (st_mutate _ ?y) _] => set (z := y) in *; clearbody z end.
  destruct (st_Save _ _ z) as [s2 [e|]] eqn:Hs; [|by destruct (RevokeTokensForSecret _ _)].
  right. eexists _, z. by rewrite Hs.
Qed.

Lemma UpdateSecret_keys i m ns n data m' r :
  UpdateSecret i m ns n data = Some (m', r) → keys_kept m m'.
Proof.
  unfold UpdateSecret, keys_kept. intros Hc.
  destruct (st_Get _ _ _ _) as [s1 [[x|]|]]; [|by simplify_eq..].
  destruct (sec_Immutable x); [by simplify_eq|]. destruct (sec_DeletedAt x); [by simplify_eq|].
  destruct (encrypt_all _ _ _) as [envs|]; [|by simplify_eq].
  match type of Hc with match ?o with Some _ => _ | None => _ end = _ => destruct o as [ann|]; [|done] end.
  destruct (st_Save _ _ _) as [s2 [e|]]; [by simplify_eq|].
  destruct (RevokeTokensForSecret _ _). by simplify_eq.
Qed.

Lemma DeleteSecret_refused i m ns n m' err :
  DeleteSecret i m ns n = (m', Some err) →
  only_read (in_get i) ns n m m' ∨ save_fails (in_save i).
Proof.
  unfold DeleteSecret. intros Hc.
  destruct (st_Get _ _ _ _) as [s1 [[x|]|]] eqn:Hget; [|read_only..].
  destruct (RevokeTokensForSecret _ _) as [tm k]. simpl in Hc. set (z := mark_deleted _ _) in *. clearbody z.
  destruct (st_Save _ _ z) as [s2 [e|]] eqn:Hs; [|done]. right. eexists _, z. by rewrite Hs.
Qed.

Lemma DeleteSecret_keys i m ns n : keys_kept m (DeleteSecret i m ns n).1.
Proof.
  unfold DeleteSecret, keys_kept. destruct (st_Get _ _ _ _) as [s1 [[x|]|]]; [|done..].
  destruct (RevokeTokensForSecret _ _) as [tm k]. by destruct (st_Save _ _ _) as [s2 [e|]].
Qed.

Lemma GetSecret_only_read i r m req :
  only_read (in_get i) (req_Namespace req) (req_SecretName req) m (GetSecret i r m req).1.
Proof.
  unfold GetSecret, only_read, keys_kept. destruct (ValidateToken _ _ _ _ _) as [tm [c|]]; [|by auto].
  simpl. destruct (st_Get _ _ _ _) as [s1 [[x|]|]]; [|by auto..].
  destruct (sec_DeletedAt x); [by auto|].
  destruct (match sec_ExpiresAt x with Some _ => _ | None => _ end); [by auto|].
  destruct (decrypt_all _ _); by auto.
Qed.

Lemma GenerateAccessToken_only_read i id m ns n aud ttl uses :
  only_read (in_get i) ns n m (GenerateAccessToken i id m ns n aud ttl uses).1.
Proof.
  unfold GenerateAccessToken, only_read, keys_kept.
  destruct (st_Get _ _ _ _) as [s1 [[x|]|]]; [|by auto..]. destruct (sec_DeletedAt x); [by auto|].
  destruct (_ && _); [by auto|]. destruct (GenerateToken _ _ _ _ _ _ _) as [tm [t|]]; by auto.
Qed.

(** The guards of a handler leave a name and a namespace. *)
Lemma refusal_None (c : bool) (e : rpc_error) gs : refusal ((c, e) :: gs) = None ↔ c = false ∧ refusal gs = None.
Proof. simpl. destruct c; naive_solver. Qed.

Lemma rotate_secret_wf i old new (st : RotateState (S := S)) x :
  st_wf (rt_store st) → st_wf (rt_store (rotate_secret i old new st x)).
Proof.
  intros Hwf. unfold rotate_secret. destruct (sec_DeletedAt x); [done|].
  destruct (_ =? _); simpl; [|by apply wf_mutate].
  pose proof (wf_Save (ri_save i (secret_ref (sec_Namespace x) (sec_Name x)))
    (st_mutate (rt_store st) (rotated x (rotate_values (ri_rand i (secret_ref (sec_Namespace x) (sec_Name x))) old new x)
       new (ri_now i)))
    (rotated x (rotate_values (ri_rand i (secret_ref (sec_Namespace x) (sec_Name x))) old new x)
       new (ri_now i)) (wf_mutate _ _ Hwf)) as Hs.
  destruct (st_Save _ _ _) as [s2 [e|]]; done.
Qed.

(** A rotation that fails leaves a usable manager. *)
Lemma rotation_usable i m :
  manager_ok m → one_key m → (∀ k, ri_key i = Some k → slen k = DataKeySize) →
  let m' := (Manager_RotateMasterKey i m).1 in manager_ok m' ∧ one_key m'.
Proof.
  intros [Hk Hwf] Hone Hlen. pose proof Hk as Hk'. unfold one_key in *. rewrite Hone in Hk'. simpl in Hk'.
  unfold Manager_RotateMasterKey.
  destruct (RotateMasterKey _ _ _ _) as [old [new|e]] eqn:Hrot; [|done].
  pose proof (RotateMasterKey_Ok _ _ _ _ _ _ Hrot) as (Hold & _ & _ & Hnew). set (st := foldl _ _ _).
  assert (st_wf (rt_store st)) as Hwf'.
  { subst st. match goal with |- context [foldl _ ?a _] => generalize a, (Hwf : st_wf (rt_store a)) end.
    induction (st_List _ _) as [|x l IH]; [done|]. intros a Ha. simpl. by apply IH, rotate_secret_wf. }
  assert (key_ok old ∧ key_ok new) as [Hko Hkn].
  { unfold key_ok, RotateMasterKey, GenerateMasterKey in *. specialize (Hlen _ Hnew). rewrite Hnew in Hrot.
    injection Hrot as <- <-. done. }
  rewrite (NewEnvelopeEncryptor_ok new Hkn). by case_match; (split; [split|]).
Qed.

(** ** Simulation *)

Record service_ok (m : Manager S) (V : Vault) : Prop := {
  so_manager : manager_ok m;
  so_key : one_key m;
  so_vault : vault_ok m V
}.

Definition simulated (V : Vault) (c : Call) (a : Answer) (m' : Manager S) : Prop :=
  ∃ V', vault_step V c a V' ∧ service_ok m' V'.

Lemma one_key_kept m m' : keys_kept m m' → one_key m → one_key m'.
Proof. unfold one_key. by intros [-> ->]. Qed.

Lemma simulated_read V c a e ns n m m' :
  service_ok m V → only_read e ns n m m' → vault_step V c a V → simulated V c a m'.
Proof.
  intros [Hok Hk HV] Hr Hstep. destruct (entry_read e ns n m m' V Hok Hr HV) as [Hok' HV'].
  exists V. split; [done|]. split; [done| |done]. by apply (one_key_kept m); [apply Hr|].
Qed.

(** A call that was refused, or whose store failed. *)
Lemma simulated_refused V c e i ns n m m' :
  service_ok m V → call_ref c = secret_ref ns n →
  match c with CCreate j _ _ | CUpdate j _ _ | CDelete j _ _ => j = i | _ => False end →
  manager_ok m' → keys_kept m m' → others_plain (secret_ref ns n) m m' →
  only_read (in_get i) ns n m m' ∨ save_fails (in_save i) → simulated V c (Refused e) m'.
Proof.
  intros Hs Href Hc Hok Hkeys Hoth [Hr|Hf].
  { by apply (simulated_read V c _ _ _ _ m m' Hs Hr), v_refused. }
  exists (set_entry (call_ref c) Unknown V). split; [by apply (v_failed V c i)|].
  destruct Hs as [_ Hk HV]. split; [done|by apply (one_key_kept m)|]. rewrite Href.
  by apply (entry_write _ _ m).
Qed.

(** A call that writes an entry. *)
Lemma simulated_write V c a e ns n m m' :
  service_ok m V → ns ≠ EmptyString → n ≠ EmptyString →
  manager_ok m' → keys_kept m m' → others_plain (secret_ref ns n) m m' →
  (∀ env, match e with
          | Absent => taken env m' ns n = false
          | Holds d => d ≠ ∅ ∧ plain env m' ns n = Some d
          | Unknown => True
          end) →
  vault_step V c a (set_entry (secret_ref ns n) e V) → simulated V c a m'.
Proof.
  intros [_ Hk HV] Hns Hn Hok Hkeys Hoth He Hstep. exists (set_entry (secret_ref ns n) e V).
  split; [done|]. split; [done|by apply (one_key_kept m)|].
  apply (entry_write _ _ m); [done..|]. by apply entry_at.
Qed.

(** What an entry says of the state before a call. *)
Lemma entry_taken V m ns n env :
  service_ok m V → ns ≠ EmptyString → n ≠ EmptyString → taken env m ns n = true →
  V (secret_ref ns n) ≠ Absent.
Proof.
  intros Hs Hns Hn Ht HV. pose proof (so_vault _ _ Hs _ env ns n eq_refl Hns Hn) as He.
  rewrite HV in He. congruence.
Qed.

Lemma entry_free V m ns n env d :
  service_ok m V → ns ≠ EmptyString → n ≠ EmptyString → taken env m ns n = false →
  V (secret_ref ns n) ≠ Holds d.
Proof.
  intros Hs Hns Hn Ht HV. pose proof (so_vault _ _ Hs _ env ns n eq_refl Hns Hn) as He.
  rewrite HV in He. destruct He as [_ He%plain_taken]. congruence.
Qed.

Lemma size_nonempty (data : gmap string string) : (Z.of_nat (size data) =? 0) = false → data ≠ ∅.
Proof. intros Hs ->. done. Qed.

Lemma create_step V i p req m m' a :
  service_ok m V → (∀ k, rand_ok (in_rand i k)) →
  serve (CCreate i p req) (Some m) = Some (Some m', a) → simulated V (CCreate i p req) a m'.
Proof.
  intros Hs Hrand. unfold serve, HandleCreateSecret.
  destruct (refusal (create_guards p req)) as [e|] eqn:Hg.
  { intros [= <- <-]. exists V. split; [apply v_refused|done]. }
  unfold create_guards in Hg. rewrite !refusal_None in Hg. destruct Hg as (_ & Hn & Hns & Hdata & _).
  apply bool_decide_eq_false in Hn, Hns.
  pose proof (create_secret_spec i m (sapi.c_namespace req) (sapi.c_name req) (sapi.c_data req)
    (create_options req) (so_manager _ _ Hs) Hrand) as Hspec.
  pose proof (CreateSecret_keys i m (sapi.c_namespace req) (sapi.c_name req) (sapi.c_data req)
    (create_options req)) as Hkeys.
  destruct (CreateSecret _ _ _ _ _ _) as [m1 [x|err]] eqn:Hc; intros [= <- <-];
    destruct Hspec as (Hok & _ & Hoth & Hres); simpl in Hkeys.
  - destruct Hres as (_ & _ & Ht & _ & Hp).
    apply (simulated_write V _ _ (Holds (sapi.c_data req)) (sapi.c_namespace req) (sapi.c_name req) m);
      try done.
    + intros env. split; [by apply size_nonempty|done].
    + apply (v_created V (CCreate i p req) i p req); [done|]. simpl. intros d. by eapply entry_free.
  - eapply simulated_refused; try done. by eapply CreateSecret_refused.
Qed.

Lemma got_taken env m ns n x :
  got env (m_store m) ns n = Ok (Some x) → sec_DeletedAt x = None → taken env m ns n = true.
Proof. unfold taken. by intros -> ->. Qed.

(** Without a secret an update or a deletion only reads. *)
Lemma UpdateSecret_missing i m ns n data m' r :
  (∀ x, got (in_get i) (m_store m) ns n ≠ Ok (Some x)) →
  UpdateSecret i m ns n data = Some (m', r) →
  (∃ err, r = Err err) ∧ only_read (in_get i) ns n m m'.
Proof.
  unfold UpdateSecret, got. destruct (st_Get _ _ _ _) as [s1 [[x|]|]] eqn:Hget; simpl; intros Hx;
    [by destruct (Hx x)|..]; intros [= <- <-]; split; eauto; apply only_read_same; try done;
    rewrite Hget; by right.
Qed.

Lemma DeleteSecret_missing i m ns n m' r :
  (∀ x, got (in_get i) (m_store m) ns n ≠ Ok (Some x)) →
  DeleteSecret i m ns n = (m', r) → (∃ err, r = Some err) ∧ only_read (in_get i) ns n m m'.
Proof.
  unfold DeleteSecret, got. destruct (st_Get _ _ _ _) as [s1 [[x|]|]] eqn:Hget; simpl; intros Hx;
    [by destruct (Hx x)|..]; intros [= <- <-]; split; eauto; apply only_read_same; try done;
    rewrite Hget; by right.
Qed.

Lemma found_or_not env (s : S) ns n :
  (∃ x, got env s ns n = Ok (Some x)) ∨ ∀ x, got env s ns n ≠ Ok (Some x).
Proof. destruct (got env s ns n) as [[x|]|]; [left; eauto|by right..]. Qed.

Lemma update_step V i p req m m' a :
  service_ok m V → (∀ k, rand_ok (in_rand i k)) →
  serve (CUpdate i p req) (Some m) = Some (Some m', a) → simulated V (CUpdate i p req) a m'.
Proof.
  intros Hs Hrand. unfold serve, HandleUpdateSecret.
  destruct (refusal (update_guards p req)) as [e|] eqn:Hg.
  { intros [= <- <-]. exists V. split; [apply v_refused|done]. }
  unfold update_guards in Hg. rewrite !refusal_None in Hg. destruct Hg as (_ & Hn & Hns & Hdata & _).
  apply bool_decide_eq_false in Hn, Hns.
  destruct (UpdateSecret _ _ _ _ _) as [[m1 r]|] eqn:Hu; [|done]. simpl. intros [= <- <-].
  destruct (found_or_not (in_get i) (m_store m) (sapi.u_namespace req) (sapi.u_name req)) as [[x Hx]|Hx].
  - pose proof (update_secret_spec i m _ _ (sapi.u_data req) x (so_manager _ _ Hs) Hrand Hx) as Hspec.
    rewrite Hu in Hspec. destruct Hspec as (Hok & Hoth & Hres). pose proof (UpdateSecret_keys _ _ _ _ _ _ _ Hu).
    destruct r as [y|err]; simpl.
    + destruct Hres as (_ & Hdel & _ & Hp & _).
      apply (simulated_write V _ _ (Holds (sapi.u_data req)) (sapi.u_namespace req) (sapi.u_name req) m);
        try done.
      * intros env. split; [by apply size_nonempty|done].
      * apply (v_updated V (CUpdate i p req) i p req); [done|]. simpl.
        eapply entry_taken; [done..|]. by apply (got_taken (in_get i) m _ _ x).
    + eapply simulated_refused; try done. by eapply UpdateSecret_refused.
  - apply UpdateSecret_missing in Hu as [[err ->] Hr]; [|done]. simpl.
    by apply (simulated_read V _ _ _ _ _ m m1 Hs Hr), v_refused.
Qed.

Lemma delete_step V i p req m m' a :
  service_ok m V →
  serve (CDelete i p req) (Some m) = Some (Some m', a) → simulated V (CDelete i p req) a m'.
Proof.
  intros Hs. unfold serve, HandleDeleteSecret.
  destruct (refusal (delete_guards p req)) as [e|] eqn:Hg.
  { intros [= <- <-]. exists V. split; [apply v_refused|done]. }
  unfold delete_guards in Hg. rewrite !refusal_None in Hg. destruct Hg as (_ & Hn & Hns & _).
  apply bool_decide_eq_false in Hn, Hns.
  destruct (DeleteSecret _ _ _ _) as [m1 r] eqn:Hd. intros [= <- <-].
  destruct (found_or_not (in_get i) (m_store m) (sapi.d_namespace req) (sapi.d_name req)) as [[x Hx]|Hx].
  - pose proof (delete_secret_spec i m _ _ x (so_manager _ _ Hs) Hx) as Hspec.
    pose proof (DeleteSecret_keys i m (sapi.d_namespace req) (sapi.d_name req)) as Hkeys.
    rewrite Hd in Hspec, Hkeys. destruct Hspec as (Hok & Hoth & _ & Hres).
    destruct r as [err|]; simpl.
    + eapply simulated_refused; try done. by eapply DeleteSecret_refused.
    + apply (simulated_write V _ _ Absent (sapi.d_namespace req) (sapi.d_name req) m); try done.
      * by apply Hres.
      * by apply (v_deleted V (CDelete i p req) i p req).
  - apply DeleteSecret_missing in Hd as [[err ->] Hr]; [|done]. simpl.
    by apply (simulated_read V _ _ _ _ _ m m1 Hs Hr), v_refused.
Qed.

Lemma get_step V i r req m m' a :
  service_ok m V →
  serve (CGet i r req) (Some m) = Some (Some m', a) → simulated V (CGet i r req) a m'.
Proof.
  intros Hs. unfold serve, HandleGetSecret.
  destruct (refusal (get_guards req)) as [e|] eqn:Hg.
  { intros [= <- <-]. exists V. split; [apply v_refused|done]. }
  unfold get_guards in Hg. rewrite !refusal_None in Hg. destruct Hg as (Hn & Hns & _).
  apply bool_decide_eq_false in Hn, Hns.
  pose proof (GetSecret_only_read i r m (access_request req)) as Hr.
  pose proof (proj2 (GetSecret_data i r m (access_request req))) as Hd.
  destruct (GetSecret _ _ _ _) as [m1 res]. simpl in Hr, Hd. intros [= <- <-].
  apply (simulated_read V _ _ _ _ _ m m1 Hs Hr). destruct res as [resp|err]; simpl; [|apply v_refused].
  apply (v_read V (CGet i r req) i r req); [done|]. simpl in *.
  destruct (ValidateToken _ _ _ _ _) as [tm [c|]]; [|done]. simpl in Hd.
  pose proof (so_vault _ _ Hs _ (in_get i) _ _ eq_refl Hns Hn) as He. unfold plain, taken in He.
  destruct (got _ _ _ _) as [[x|]|] eqn:Hx; [|done..]. case_decide; [|done].
  destruct (V _) as [|d|]; [exfalso|left|by right].
  - unfold plain_secret in Hd. by destruct (sec_DeletedAt x).
  - destruct He as [_ He]. congruence.
Qed.

Lemma token_step V i id p req m m' a :
  service_ok m V →
  serve (CToken i id p req) (Some m) = Some (Some m', a) → simulated V (CToken i id p req) a m'.
Proof.
  intros Hs. unfold serve, HandleGenerateAccessToken.
  destruct (refusal (token_guards p req)) as [e|] eqn:Hg.
  { intros [= <- <-]. exists V. split; [apply v_refused|done]. }
  unfold token_guards in Hg. rewrite !refusal_None in Hg. destruct Hg as (_ & Hn & Hns & _).
  apply bool_decide_eq_false in Hn, Hns.
  pose proof (GenerateAccessToken_only_read i id m (sapi.t_namespace req) (sapi.t_name req)
    (sapi.t_audience req) (token_ttl req) (token_uses req)) as Hr.
  destruct (GenerateAccessToken _ _ _ _ _ _ _ _) as [m1 [t|err]] eqn:Hgen; intros [= <- <-];
    apply (simulated_read V _ _ _ _ _ m m1 Hs Hr); [|apply v_refused].
  apply GenerateAccessToken_ok in Hgen as (x & _ & Hx & Hd & _).
  apply (v_granted V (CToken i id p req) i id p req); [done|]. simpl.
  eapply entry_taken; [done..|]. by apply (got_taken (in_get i) m _ _ x).
Qed.

Lemma rotate_step V i p m m' a :
  service_ok m V → call_ok (CRotate i p) m →
  serve (CRotate i p) (Some m) = Some (Some m', a) → simulated V (CRotate i p) a m'.
Proof.
  intros [Hok Hk HV] (Hrand & Hlen & Hl). unfold serve, HandleRotateMasterKey.
  destruct (negb _). { intros [= <- <-]. exists V. split; [apply v_refused|done]. }
  pose proof (rotation_usable i m Hok Hk Hlen) as [Hok' Hk'].
  destruct (Manager_RotateMasterKey i m) as [m1 [err|]] eqn:Hrot; simpl in *; intros [= <- <-].
  - exists (fun _ => Unknown). split; [by apply (v_lost V (CRotate i p) i p)|]. done.
  - apply rotation_keeps in Hrot as (_ & _ & _ & _ & _ & Hview); [|done..].
    exists V. split; [by apply (v_rotated V (CRotate i p) i p)|]. split; [done..|].
    intros ref env ns n Href Hns Hn. destruct (Hview env ns n) as [-> ->]. by apply (HV ref).
Qed.

(** Readable secrets have annotations, so that updating them does not write to
    a nil map. *)
Lemma plain_annotations e x d :
  plain_secret e x = Some d → d ≠ ∅ → sec_Annotations x ≠ None.
Proof.
  unfold plain_secret. destruct (sec_DeletedAt x); [done|].
  destruct (decrypt_all e x) as [d'|] eqn:Hd; [|done]. intros [= ->] Hne Ha.
  apply map_choose in Hne as (k & v & Hk). pose proof (proj1 (collect_Ok _ _ _) Hd k) as Hv.
  rewrite Hk in Hv. destruct (sec_Data x !! k) as [w|]; [|done]. destruct Hv as (b & Hv & _).
  unfold decrypt_value, annotation in Hv. rewrite Ha in Hv. simpl in Hv.
  by destruct (sec_EncryptedDataKey x).
Qed.

Lemma serve_total V c m :
  service_ok m V → (∀ i p req, c = CUpdate i p req → V (call_ref c) ≠ Unknown) →
  ∃ m' a, serve c (Some m) = Some (Some m', a).
Proof.
  intros Hs Hc. destruct c as [i p req|i r req|i p req|i p req|i id p req|i p|req|p t|t| |req];
    try (simpl; eauto; fail).
  - unfold serve, HandleCreateSecret. destruct (refusal _); [eauto|]. destruct (CreateSecret _ _ _ _ _ _); eauto.
  - unfold serve, HandleGetSecret. destruct (refusal _); [eauto|]. destruct (GetSecret _ _ _ _); eauto.
  - unfold serve, HandleUpdateSecret. destruct (refusal _) eqn:Hg; [eauto|].
    unfold update_guards in Hg. rewrite !refusal_None in Hg. destruct Hg as (_ & Hn & Hns & _).
    apply bool_decide_eq_false in Hn, Hns. specialize (Hc i p req eq_refl). simpl in Hc.
    pose proof (so_vault _ _ Hs _ (in_get i) _ _ eq_refl Hns Hn) as He. unfold plain, taken, got in He.
    unfold UpdateSecret. destruct (st_Get _ _ _ _) as [s1 [[x|]|]]; [|simpl; eauto..]. simpl in He.
    destruct (sec_Immutable x); [simpl; eauto|]. destruct (sec_DeletedAt x) eqn:Hdel; [simpl; eauto|].
    destruct (encrypt_all _ _ _) as [envs|]; [|simpl; eauto].
    destruct (V _) as [|d|]; [done| |done]. destruct He as [Hne Hp].
    apply plain_annotations in Hp; [|done]. destruct (sec_Annotations x) as [ann|]; [|done]. simpl.
    destruct (st_Save _ _ _) as [s2 [e|]]; [simpl; eauto|]. destruct (RevokeTokensForSecret _ _). simpl. eauto.
  - unfold serve, HandleDeleteSecret. destruct (refusal _); [eauto|]. destruct (DeleteSecret _ _ _ _); eauto.
  - unfold serve, HandleGenerateAccessToken. destruct (refusal _); [eauto|].
    destruct (GenerateAccessToken _ _ _ _ _ _ _ _); eauto.
  - unfold serve, HandleRotateMasterKey. destruct (negb _); [eauto|].
    destruct (Manager_RotateMasterKey i m); eauto.
Qed.

Lemma serve_step V c m m' a :
  service_ok m V → call_ok c m → serve c (Some m) = Some (Some m', a) → simulated V c a m'.
Proof.
  intros Hs Hc. destruct c as [i p req|i r req|i p req|i p req|i id p req|i p|req|p t|t| |req].
  - by apply create_step.
  - by apply get_step.
  - by apply update_step.
  - by apply delete_step.
  - by apply token_step.
  - by apply rotate_step.
  - intros [= <- <-]. exists V. split; [|done]. simpl. case_match; simpl; [by apply v_refused|by apply (v_listed _ _ req)].
  - intros [= <- <-]. exists V. by split; [apply v_refused|].
  - intros [= <- <-]. exists V. by split; [apply v_refused|].
  - intros [= <- <-]. exists V. by split; [apply v_key|].
  - intros [= <- <-]. exists V. by split; [apply (v_audit _ _ req)|].
Qed.

Lemma history_simulated m0 V0 h m :
  service_ok m0 V0 → calls m0 h m → ∃ V, vault_run V0 h V ∧ service_ok m V.
Proof.
  intros Hs Hh. induction Hh as [|h c a m1 m2 Hh IH Hc Hstep]; [exists V0; by split; [apply vr_start|]|].
  destruct IH as (V & HV & Hm). destruct (serve_step V c m1 m2 a Hm Hc Hstep) as (V' & Hv & Hm').
  exists V'. split; [by eapply vr_step|done].
Qed.


(** ** Reads and grants *)

(** Tokens are kept or removed. *)
Definition shrinks (tm tm' : TokenManager) : Prop :=
  signingKey tm' = signingKey tm ∧
  ∀ id, tokens tm' !! id = tokens tm !! id ∨ tokens tm' !! id = None.

Lemma shrinks_refl tm : shrinks tm tm.
Proof. split; [done|]. by left. Qed.

Lemma shrinks_revoke tm ref : shrinks tm (RevokeTokensForSecret tm ref).1.
Proof.
  split; [apply delete_where_spec|]. intros id. apply delete_where_or.
Qed.

Lemma CreateSecret_tokens i m ns n data opts :
  shrinks (m_tokens m) (m_tokens (CreateSecret i m ns n data opts).1).
Proof.
  unfold CreateSecret. destruct (validateSecretName ns n); [apply shrinks_refl|].
  destruct (validateSecretData data); [apply shrinks_refl|]. destruct (st_Get _ _ _ _) as [s1 ex].
  destruct (match ex with Ok (Some _) => _ | _ => _ end); [apply shrinks_refl|].
  destruct (encrypt_all _ _ _) as [envs|]; [|apply shrinks_refl].
  destruct (st_Save _ _ _) as [s2 [e|]]; apply shrinks_refl.
Qed.

Lemma UpdateSecret_tokens i m ns n data m' r :
  UpdateSecret i m ns n data = Some (m', r) → shrinks (m_tokens m) (m_tokens m').
Proof.
  unfold UpdateSecret. intros Hc. pose proof (shrinks_refl (m_tokens m)).
  destruct (st_Get _ _ _ _) as [s1 [[x|]|]]; [|by simplify_eq..].
  destruct (sec_Immutable x); [by simplify_eq|]. destruct (sec_DeletedAt x); [by simplify_eq|].
  destruct (encrypt_all _ _ _) as [envs|]; [|by simplify_eq].
  match type of Hc with match ?o with Some _ => _ | None => _ end = _ => destruct o as [ann|]; [|done] end.
  destruct (st_Save _ _ _) as [s2 [e|]]; [by simplify_eq|]. simpl in Hc.
  pose proof (shrinks_revoke (m_tokens m) (secret_ref ns n)) as Hr.
  destruct (RevokeTokensForSecret _ _). by simplify_eq.
Qed.

Lemma DeleteSecret_tokens i m ns n : shrinks (m_tokens m) (m_tokens (DeleteSecret i m ns n).1).
Proof.
  unfold DeleteSecret. destruct (st_Get _ _ _ _) as [s1 [[x|]|]]; [|apply shrinks_refl..]. simpl.
  pose proof (shrinks_revoke (m_tokens m) (secret_ref ns n)) as Hr.
  destruct (RevokeTokensForSecret _ _) as [tm k]. by destruct (st_Save _ _ _) as [s2 [e|]].
Qed.

Lemma rotation_tokens i m : m_tokens (Manager_RotateMasterKey i m).1 = m_tokens m.
Proof.
  unfold Manager_RotateMasterKey. destruct (RotateMasterKey _ _ _ _) as [old [new|e]]; [|done].
  case_match; [done|]. by case_match.
Qed.

(** The grants of an audience for a reference, with their identifiers. *)
Definition grant (ref aud : string) (ca : Call * Answer) : option (string * Z) :=
  match ca with
  | (CToken _ id _ req, Granted _) =>
      if (secret_ref (sapi.t_namespace req) (sapi.t_name req) =?s ref) && (sapi.t_audience req =?s aud)
      then Some (id, token_uses req) else None
  | _ => None
  end.

Definition grants (ref aud : string) (h : list (Call * Answer)) : list (string * Z) :=
  omap (grant ref aud) h.

Definition granted (ref aud : string) (h : list (Call * Answer)) : Z :=
  foldr (fun g n => g.2 + n) 0 (grants ref aud h).

Definition is_read (ref aud : string) (ca : Call * Answer) : bool :=
  match ca with
  | (CGet _ _ req, Read _) =>
      (secret_ref (sapi.g_namespace req) (sapi.g_name req) =?s ref) && (sapi.g_audience req =?s aud)
  | _ => false
  end.

Definition reads (ref aud : string) (h : list (Call * Answer)) : Z :=
  len (List.filter (is_read ref aud) h).

(** The identifiers that were drawn for tokens. *)
Definition drawn (h : list (Call * Answer)) : list string :=
  omap (fun ca => match ca.1 with CToken _ id _ _ => Some id | _ => None end) h.

(** Only tokens that were handed out earlier pass the check of the signature. *)
Definition unforged (key : string) (h : list (Call * Answer)) : Prop :=
  ∀ h1 i r req a h2 c, h = h1 ++ (CGet i r req, a) :: h2 →
    parse (at_parse r) key (sapi.g_access_token req) = Ok c →
    ∃ call t, (call, Granted t) ∈ h1 ∧ sapi.token t = sapi.g_access_token req.

(** The uses that are left of the grants. *)
Definition remaining (tm : TokenManager) (id : string) : Z :=
  match tokens tm !! id with Some t => tok_UsesRemaining t | None => 0 end.

Definition left_of (tm : TokenManager) (l : list (string * Z)) : Z :=
  foldr (fun g n => remaining tm g.1 + n) 0 l.

Lemma left_le tm tm' l :
  (∀ id, id ∈ l.*1 → remaining tm' id ≤ remaining tm id) → left_of tm' l ≤ left_of tm l.
Proof.
  induction l as [|[id n] l IH]; simpl; [done|]. intros Hle. csimpl in Hle.
  assert (remaining tm' id ≤ remaining tm id) by (apply Hle; by left).
  assert (left_of tm' l ≤ left_of tm l) by (apply IH; intros; apply Hle; by right).
  unfold left_of in *. lia.
Qed.

Lemma left_used tm tm' l id :
  id ∈ l.*1 → remaining tm' id ≤ remaining tm id - 1 →
  (∀ id', remaining tm' id' ≤ remaining tm id') → left_of tm' l + 1 ≤ left_of tm l.
Proof.
  intros Hid Huse Hle. induction l as [|[id' n] l IH]; csimpl in *; [by apply elem_of_nil in Hid|].
  apply elem_of_cons in Hid as [<-|Hid].
  - pose proof (left_le tm tm' l (fun j _ => Hle j)). unfold left_of in *. lia.
  - specialize (IH Hid). specialize (Hle id'). unfold left_of in *. lia.
Qed.

Lemma left_nonneg tm l : (∀ id, 0 ≤ remaining tm id) → 0 ≤ left_of tm l.
Proof. intros Hr. induction l as [|[id n] l IH]; simpl; [done|]. specialize (Hr id). unfold left_of in *. lia. Qed.

Section bounded.
Hypothesis authentic : ∀ now key t c, parse now key t = Ok c → sign key c = Ok t.
Hypothesis unambiguous : ∀ key c c' t, sign key c = Ok t → sign key c' = Ok t → c = c'.
Variable key : string.

Record grants_inv (h : list (Call * Answer)) (tm : TokenManager) : Prop := {
  gi_key : signingKey tm = key;
  gi_uses : ∀ id t, tokens tm !! id = Some t → 0 ≤ tok_UsesRemaining t < 2 ^ 31;
  gi_signed : ∀ c t, (c, Granted t) ∈ h → ∃ i id p req now expires, c = CToken i id p req ∧
    sign key (claims_for (call_ref c) (sapi.t_audience req) id now expires) = Ok (sapi.token t);
  gi_left : ∀ ref aud, reads ref aud h + left_of tm (grants ref aud h) ≤ granted ref aud h
}.

Lemma remaining_nonneg h tm id : grants_inv h tm → 0 ≤ remaining tm id.
Proof. intros Hi. unfold remaining. case_match; [|done]. by apply (gi_uses _ _ Hi id). Qed.

Lemma grants_app ref aud h ca :
  grants ref aud (h ++ [ca]) = grants ref aud h ++ option_list (grant ref aud ca).
Proof. unfold grants. rewrite omap_app. by destruct (grant ref aud ca) eqn:Hg; simpl; rewrite Hg. Qed.

Lemma reads_app ref aud h ca :
  reads ref aud (h ++ [ca]) = reads ref aud h + (if is_read ref aud ca then 1 else 0).
Proof.
  unfold reads, len. rewrite List.filter_app, length_app. simpl. destruct (is_read ref aud ca); simpl; lia.
Qed.

Lemma foldr_add_app {B} (f : B → Z) l l' :
  foldr (fun x n => f x + n) 0 (l ++ l') = foldr (fun x n => f x + n) 0 l + foldr (fun x n => f x + n) 0 l'.
Proof. induction l as [|x l IH]; simpl; [done|]. rewrite IH. lia. Qed.

(** A step that grants nothing and answers no read. *)
Lemma inv_quiet h tm tm' c a :
  grants_inv h tm → (∀ t, a ≠ Granted t) → (∀ x, a ≠ Read x) → signingKey tm' = signingKey tm →
  (∀ id, tokens tm' !! id = tokens tm !! id ∨ tokens tm' !! id = None ∨
     ∃ t t', tokens tm !! id = Some t ∧ tokens tm' !! id = Some t' ∧
       0 ≤ tok_UsesRemaining t' ≤ tok_UsesRemaining t) →
  grants_inv (h ++ [(c, a)]) tm'.
Proof.
  intros Hi Hg Hr Hk Ht. split.
  - rewrite Hk. apply Hi.
  - intros id t' Ht'. destruct (Ht id) as [Heq|[?|(t & t1 & Hold & Hnew & Hle)]]; [|congruence|].
    + apply (gi_uses _ _ Hi id). congruence.
    + pose proof (gi_uses _ _ Hi id t Hold). simplify_eq. lia.
  - intros c' t [Hin|Hin%list_elem_of_singleton]%elem_of_app; [by apply (gi_signed _ _ Hi)|]. simplify_eq.
    by destruct (Hg t).
  - intros ref aud. pose proof (gi_left _ _ Hi ref aud) as Hl. unfold granted in *.
    rewrite reads_app, grants_app.
    assert (grant ref aud (c, a) = None) as -> by (destruct c, a; try done; by destruct (Hg t)).
    assert (is_read ref aud (c, a) = false) as -> by (destruct c, a; try done; by destruct (Hr x)).
    rewrite app_nil_r.
    pose proof (left_le tm tm' (grants ref aud h)) as Hle. cut (left_of tm' (grants ref aud h) ≤ left_of tm (grants ref aud h)); [lia|].
    apply Hle. intros id _. pose proof (remaining_nonneg h tm id Hi) as Hnn. unfold remaining in *.
    destruct (Ht id) as [->|[->|(t & t1 & Hold & -> & ?)]]; [done|done|]. rewrite Hold. lia.
Qed.

Lemma inv_shrinks h tm tm' c a :
  grants_inv h tm → (∀ t, a ≠ Granted t) → (∀ x, a ≠ Read x) → shrinks tm tm' →
  grants_inv (h ++ [(c, a)]) tm'.
Proof.
  intros Hi Hg Hr [Hk Ht]. apply (inv_quiet h tm); [done..|]. intros id. destruct (Ht id); auto.
Qed.

(** Using a token that was handed out for the reference and the audience. *)
Lemma inv_read h tm i r req a tm' v :
  grants_inv h tm → (∀ t, a ≠ Granted t) →
  (∀ c, parse (at_parse r) key (sapi.g_access_token req) = Ok c →
     ∃ call t, (call, Granted t) ∈ h ∧ sapi.token t = sapi.g_access_token req) →
  ValidateToken r tm (sapi.g_access_token req) (secret_ref (sapi.g_namespace req) (sapi.g_name req))
    (sapi.g_audience req) = (tm', v) →
  ((∃ x, a = Read x) → ∃ c, v = Ok c) →
  grants_inv (h ++ [(CGet i r req, a)]) tm'.
Proof.
  intros Hi Hg Hun Hv Ha. destruct v as [c|e].
  2: { apply ValidateToken_err in Hv as ->. apply (inv_quiet h tm); [done|done| |done|by left].
       intros x ->. by destruct Ha as [c ?]; eauto. }
  apply ValidateToken_ok in Hv as (tok & (_ & Hparse & Href & Haud & Htok & _ & Hne) & ->).
  rewrite (gi_key _ _ Hi) in Hparse.
  destruct (Hun c Hparse) as (call & t & Hin & Htoken). apply authentic in Hparse.
  destruct (gi_signed _ _ Hi call t Hin) as (j & id & p & req' & now & expires & -> & Hsign).
  rewrite Htoken in Hsign. pose proof (unambiguous _ _ _ _ Hparse Hsign) as ->. simpl in Href, Haud, Htok.
  pose proof (gi_uses _ _ Hi id tok Htok) as Hu.
  assert (int64 (tok_UsesRemaining tok - 1) = tok_UsesRemaining tok - 1) as Hint.
  { apply int64_id. unfold in_int64. lia. }
  unfold after_use. rewrite (proj2 (Z.ltb_lt _ _)) by lia. simpl.
  set (tm' := with_tokens _ _).
  assert (remaining tm' id = remaining tm id - 1) as Hid.
  { unfold remaining. subst tm'. simpl. by rewrite lookup_insert_eq, Htok. }
  assert (∀ id', id' ≠ id → remaining tm' id' = remaining tm id') as Hother.
  { intros id' Hne'. unfold remaining. subst tm'. simpl. by rewrite lookup_insert_ne. }
  split.
  - apply Hi.
  - intros id' t'. subst tm'. simpl. intros [[<- <-]|[_ Ht']]%lookup_insert_Some; [simpl; lia|].
    by apply (gi_uses _ _ Hi id').
  - intros c' t' [Hin'|Hin'%list_elem_of_singleton]%elem_of_app; [by apply (gi_signed _ _ Hi)|].
    simplify_eq. by destruct (Hg t').
  - intros ref aud. pose proof (gi_left _ _ Hi ref aud) as Hl. unfold granted in *.
    rewrite reads_app, grants_app. change (grant ref aud (CGet i r req, a)) with (@None (string * Z)).
    rewrite app_nil_r.
    assert (∀ id', remaining tm' id' ≤ remaining tm id') as Hle.
    { intros id'. destruct (decide (id' = id)) as [->|]; [lia|]. rewrite Hother by done. done. }
    destruct (is_read ref aud (CGet i r req, a)) eqn:Hread.
    + cut (left_of tm' (grants ref aud h) + 1 ≤ left_of tm (grants ref aud h)); [lia|].
      apply (left_used tm tm' _ id); [|lia|done].
      apply list_elem_of_fmap. exists (id, token_uses req'). split; [done|].
      apply list_elem_of_omap. eexists. split; [exact Hin|]. simpl.
      destruct a; try done. simpl in Hread. rewrite <-Href, <-Haud in Hread. by rewrite Hread.
    + cut (left_of tm' (grants ref aud h) ≤ left_of tm (grants ref aud h)); [lia|].
      apply left_le. auto.
Qed.

Lemma token_uses_range req : sapi.t_max_uses req < 2 ^ 31 → 0 < token_uses req < 2 ^ 31.
Proof. unfold token_uses. destruct (0 <? _) eqn:Hu; bool_to_prop; lia. Qed.

Lemma drawn_app h ca :
  drawn (h ++ [ca]) = drawn h ++ match ca.1 with CToken _ id _ _ => [id] | _ => [] end.
Proof. unfold drawn. rewrite omap_app. simpl. by destruct ca as [[]]. Qed.

Lemma grants_drawn ref aud h id : id ∈ (grants ref aud h).*1 → id ∈ drawn h.
Proof.
  intros ([id' n] & -> & Hin)%list_elem_of_fmap. apply list_elem_of_omap in Hin as ([c a] & Hin & Hg).
  apply list_elem_of_omap. exists (c, a). split; [done|]. simpl in *.
  destruct c, a; try done. by case_match; simplify_eq.
Qed.

Lemma inv_grant h tm i id p req tok tm' ttl :
  grants_inv h tm → id ∉ drawn h → sapi.t_max_uses req < 2 ^ 31 →
  GenerateToken id (in_clock i 0%nat) tm (secret_ref (sapi.t_namespace req) (sapi.t_name req))
    (sapi.t_audience req) ttl (token_uses req) = (tm', Ok tok) →
  grants_inv (h ++ [(CToken i id p req, Granted (accessTokenToProto tok))]) tm'.
Proof.
  intros Hi Hfresh Hmax Hgen. apply GenerateToken_ok in Hgen as (Ht & Hk & Hu & _ & _ & _ & Hsign).
  pose proof (token_uses_range req Hmax) as Huses. split.
  - rewrite Hk. apply Hi.
  - intros id' t'. rewrite Ht. intros [[<- <-]|[_ Ht']]%lookup_insert_Some; [lia|].
    by apply (gi_uses _ _ Hi id').
  - intros c' t' [Hin'|Hin'%list_elem_of_singleton]%elem_of_app; [by apply (gi_signed _ _ Hi)|].
    simplify_eq. rewrite (gi_key _ _ Hi) in Hsign. eauto 10.
  - intros ref aud. pose proof (gi_left _ _ Hi ref aud) as Hl. unfold granted, left_of in *.
    rewrite reads_app, grants_app, !foldr_add_app. cbn [is_read grant].
    assert (left_of tm' (grants ref aud h) ≤ left_of tm (grants ref aud h)) as Hold.
    { apply left_le. intros id' Hin. unfold remaining. rewrite Ht, lookup_insert_ne; [done|].
      intros ->. by apply Hfresh, (grants_drawn ref aud). }
    unfold left_of in Hold. destruct (_ && _); simpl; [|lia].
    assert (remaining tm' id = token_uses req); [|lia].
    unfold remaining. by rewrite Ht, lookup_insert_eq.
Qed.

Lemma unforged_app h ca : unforged key (h ++ [ca]) → unforged key h.
Proof.
  intros Hu h1 i r req a h2 c -> Hp. apply (Hu h1 i r req a (h2 ++ [ca]) c); [|done].
  by rewrite <-app_assoc.
Qed.

Lemma inv_step h c a m m' :
  grants_inv h (m_tokens m) → NoDup (drawn (h ++ [(c, a)])) → unforged key (h ++ [(c, a)]) →
  call_ok c m → serve c (Some m) = Some (Some m', a) → grants_inv (h ++ [(c, a)]) (m_tokens m').
Proof.
  intros Hi Hnd Hun Hok.
  assert (∀ e, grants_inv (h ++ [(c, Refused e)]) (m_tokens m)) as Hrefused.
  { intros e. by apply (inv_shrinks h (m_tokens m)); [..|apply shrinks_refl]. }
  destruct c as [i p req|i r req|i p req|i p req|i id p req|i p|req|p t|t| |req].
  - unfold serve, HandleCreateSecret. destruct (refusal _); [by intros [= <- <-]|].
    pose proof (CreateSecret_tokens i m (sapi.c_namespace req) (sapi.c_name req) (sapi.c_data req)
      (create_options req)) as Hs.
    destruct (CreateSecret _ _ _ _ _ _) as [m1 [x|e]]; intros [= <- <-];
      by apply (inv_shrinks h (m_tokens m)).
  - unfold serve, HandleGetSecret. destruct (refusal _); [by intros [= <- <-]|].
    destruct (GetSecret_data i r m (access_request req)) as [Ht Hd]. simpl in Ht, Hd.
    destruct (GetSecret _ _ _ _) as [m1 res]. simpl in Ht, Hd. intros [= <- <-].
    destruct (ValidateToken _ _ _ _ _) as [tm v] eqn:Hv. simpl in Ht, Hd. subst tm.
    apply (inv_read h (m_tokens m) i r req _ _ v); [done|by destruct res| |done|].
    + intros c Hp. by eapply (Hun h i r req _ []); [reflexivity|].
    + intros [x Hx]. destruct res as [resp|]; [|done]. destruct v as [c|]; [by eauto|done].
  - unfold serve, HandleUpdateSecret. destruct (refusal _); [by intros [= <- <-]|].
    destruct (UpdateSecret _ _ _ _ _) as [[m1 [x|e]]|] eqn:Hu; [..|done]; intros [= <- <-];
      apply (inv_shrinks h (m_tokens m)); try done; by eapply UpdateSecret_tokens.
  - unfold serve, HandleDeleteSecret. destruct (refusal _); [by intros [= <- <-]|].
    pose proof (DeleteSecret_tokens i m (sapi.d_namespace req) (sapi.d_name req)) as Hs.
    destruct (DeleteSecret _ _ _ _) as [m1 [e|]]; intros [= <- <-]; by apply (inv_shrinks h (m_tokens m)).
  - unfold serve, HandleGenerateAccessToken. destruct (refusal _); [by intros [= <- <-]|].
    destruct (GenerateAccessToken _ _ _ _ _ _ _ _) as [m1 [t|e]] eqn:Hg; intros [= <- <-].
    + apply GenerateAccessToken_ok in Hg as (x & ttl & _ & _ & _ & _ & _ & Hg).
      eapply inv_grant; [done| |done|exact Hg].
      rewrite drawn_app in Hnd. simpl in Hnd. apply NoDup_app in Hnd as (_ & Hnd & _).
      intros Hin. apply (Hnd _ Hin). by left.
    + assert (m_tokens m1 = m_tokens m) as ->; [|apply Hrefused]. revert Hg. unfold GenerateAccessToken.
      destruct (st_Get _ _ _ _) as [s1 [[x|]|]]; [|by intros [= <- _]..].
      destruct (sec_DeletedAt x); [by intros [= <- _]|]. destruct (_ && _); [by intros [= <- _]|].
      destruct (GenerateToken _ _ _ _ _ _ _) as [tm [t|e']] eqn:Hg; [done|]. intros [= <- _].
      by apply GenerateToken_err in Hg.
  - unfold serve, HandleRotateMasterKey. destruct (negb _); [by intros [= <- <-]|].
    pose proof (rotation_tokens i m) as Hs.
    destruct (Manager_RotateMasterKey i m) as [m1 [e|]]; simpl in Hs; intros [= <- <-]; rewrite Hs;
      apply (inv_shrinks h (m_tokens m)); try done; apply shrinks_refl.
  - intros [= <- <-]. simpl. case_match; [apply Hrefused|].
    by apply (inv_shrinks h (m_tokens m)); [..|apply shrinks_refl].
  - by intros [= <- <-].
  - by intros [= <- <-].
  - intros [= <- <-]. by apply (inv_shrinks h (m_tokens m)); [..|apply shrinks_refl].
  - intros [= <- <-]. by apply (inv_shrinks h (m_tokens m)); [..|apply shrinks_refl].
Qed.

End bounded.

(** ** The codes of refused reads *)

Definition code_of {B} (r : result rpc_error B) : option Code :=
  match r with Ok _ => None | Err (c, _) => Some c end.

Lemma Contains_app a s needle : Contains s needle = true → Contains (a +:+ s) needle = true.
Proof. intros Hs. induction a as [|c a IH]; [done|]. simpl. by rewrite IH, orb_true_r. Qed.

Lemma not_found_code ns n ref :
  (get_error ns n ("secret not found: " +:+ ref)).1 = NotFound.
Proof.
  unfold get_error. change ("secret not found: " +:+ ref)%string with ("secret " +:+ ("not found: " +:+ ref))%string.
  rewrite Contains_app; [done|]. by destruct ref.
Qed.

End service.

(** ** Runs *)

Module ServiceRuns.
#[local] Existing Instance range_canonical.
#[local] Existing Instance clear_cipher.
#[local] Existing Instance one_token.

Definition leading : Peer := {| p_IsLeader := true; p_GetLeader := "10.0.0.1:7000" |}.

Definition create_db : Call := CCreate sample_inputs leading {|
  sapi.c_name := "db"; sapi.c_namespace := "ns"; sapi.c_data := sample_data; sapi.c_audiences := [];
  sapi.c_ttl_seconds := 0; sapi.c_immutable := false; sapi.c_expires_at := None; sapi.c_labels := ∅ |}.

Definition token_db : Call := CToken sample_inputs "id-1" leading {|
  sapi.t_name := "db"; sapi.t_namespace := "ns"; sapi.t_audience := "web"; sapi.t_ttl_seconds := 60;
  sapi.t_max_uses := 1 |}.

Definition get_request : sapi.GetSecretRequest := {|
  sapi.g_name := "db"; sapi.g_namespace := "ns"; sapi.g_access_token := "header.claims.mac";
  sapi.g_audience := "web" |}.

Definition get_db : Call := CGet sample_inputs (read_at second) get_request.

Definition rotate_key : Call := CRotate rotate_inputs leading.

Definition step (c : Call) (m : Manager InMemorySecretStore) : Manager InMemorySecretStore * Answer :=
  match serve c (Some m) with Some (Some m', a) => (m', a) | _ => (m, Deleted) end.

Definition served (c : Call) (m : Manager InMemorySecretStore) : bool :=
  match serve c (Some m) with Some (Some _, _) => true | _ => false end.

Lemma calls_step m h m1 c :
  calls m h m1 → call_ok c m1 → served c m1 = true →
  calls m (h ++ [(c, (step c m1).2)]) (step c m1).1.
Proof.
  intros Hh Hc. unfold served, step. destruct (serve c (Some m1)) as [[[m2|] a]|] eqn:Hs; try done.
  intros _. by apply (cs_step m h c a m1 m2).
Qed.

Definition m1 := (step create_db fresh_manager).1.
Definition m2 := (step token_db m1).1.
Definition m3 := (step get_db m2).1.
Definition m4 := (step get_db m3).1.

Definition db_history : list (Call * Answer) :=
  ((([] ++ [(create_db, (step create_db fresh_manager).2)]) ++ [(token_db, (step token_db m1).2)])
   ++ [(get_db, (step get_db m2).2)]) ++ [(get_db, (step get_db m3).2)].

Lemma db_calls : calls fresh_manager db_history m4.
Proof.
  apply calls_step; [apply calls_step; [apply calls_step; [apply calls_step; [apply cs_start|..]|..]|..]|..];
    try by vm_compute.
  intros k. apply sample_rand_ok.
Qed.

Lemma fresh_service_ok : service_ok fresh_manager (fun _ => Absent).
Proof.
  split; [apply fresh_ok|done|]. intros ref env ns n _ Hns Hn. unfold taken.
  by rewrite mem_got, required_false.
Qed.

(** The answers: the secret is read once, then the token is used up. *)
Example db_answers :
  (match (step get_db m2).2 with Read x => sapi.gr_data x = sample_data | _ => False end) ∧
  (step get_db m3).2 = Refused (Internal, "failed to get secret: access denied: token has no remaining uses"%string).
Proof. by vm_compute. Qed.


Lemma one_token_authentic now key t c : parse now key t = Ok c → sign key c = Ok t.
Proof. simpl. case_decide; [|done]. intros [= <-]. by rewrite decide_True; subst. Qed.

Lemma one_token_unambiguous key c c' t : sign key c = Ok t → sign key c' = Ok t → c = c'.
Proof. simpl. repeat case_decide; congruence. Qed.

Lemma second_before {B} (a b : B) l h1 x h2 : a :: b :: l = h1 ++ x :: h2 → a ≠ x → b ≠ x → b ∈ h1.
Proof. destruct h1 as [|y [|z h1]]; intros Heq Ha Hb; simplify_eq/=; in_list. Qed.


End ServiceRuns.
