(* ===== verification/SecretsClient.v ===== *)
(** * The secrets client of an agent (pkg/agent/secrets.go)

    The client asks the coordinator for an access token, reads the secret with
    it and keeps the contents in a cache until shortly before the token expires.
    Its operations are programs: a call is a reading of the clock, a step on the
    cache under its lock, or a request to the secrets service.  Logging is
    dropped, and so is the ticker of the clean-up. *)

From S2P Require Import Prelude GoText SecretsService Goroutines.

Local Open Scope string_scope.
Local Open Scope Z_scope.
Local Open Scope prog_scope.

(** ** State *)

Record SecretCacheEntry := {
  sce_Data : gmap string string;
  sce_AccessToken : string;
  sce_ExpiresAt : Z;
  sce_Namespace : string;
  sce_Name : string;
  sce_Version : Z
}.

Abbreviation Cache := (gmap string SecretCacheEntry).

(** The settings of [NewSecretsClient]. *)
Definition tokenRefreshThreshold : Z := 5 * minute.
Definition cacheCleanupInterval : Z := 10 * minute.

Definition cacheKey (namespace name audience : string) : string :=
  namespace +:+ "/" +:+ name +:+ "/" +:+ audience.

(** The expiry claim of a token, read without checking its signature; a token
    may be without one. *)
Class UnverifiedJWT : Type := ParseUnverified : string → result string (option Z).

Definition extractTokenExpiration `{UnverifiedJWT} (tokenString : string) : result string Z :=
  match ParseUnverified tokenString with
  | Err err => Err ("failed to parse JWT token: " +:+ err)
  | Ok None => Err "token missing expiration claim"
  | Ok (Some t) => Ok t
  end.

(** ** Calls *)

Inductive Sc : Type → Type :=
| Now : Sc Z
| OnCache {X} (f : Cache → X * Cache) : Sc X
| Generate (req : sapi.GenerateAccessTokenRequest) : Sc (result rpc_error (option sapi.AccessToken))
| Fetch (req : sapi.GetSecretRequest)
    : Sc (result rpc_error (option sapi.SecretMetadata * gmap string string)).

Definition code_name (c : Code) : string :=
  match c with
  | Unavailable => "Unavailable" | FailedPrecondition => "FailedPrecondition"
  | InvalidArgument => "InvalidArgument" | AlreadyExists => "AlreadyExists"
  | NotFound => "NotFound" | Unauthenticated => "Unauthenticated"
  | PermissionDenied => "PermissionDenied" | Unimplemented => "Unimplemented"
  | Internal => "Internal"
  end.

(** The text of an error of the service. *)
Definition status_text (e : rpc_error) : string :=
  "rpc error: code = " +:+ code_name e.1 +:+ " desc = " +:+ e.2.

(** ** Requests *)

Definition token_request (namespace name audience : string) : sapi.GenerateAccessTokenRequest := {|
  sapi.t_name := name; sapi.t_namespace := namespace; sapi.t_audience := audience;
  sapi.t_ttl_seconds := 3600; sapi.t_max_uses := 100 |}.

Definition generateAccessToken (namespace name audience : string) : Prog Sc (result string string) :=
  let! resp := call (Generate (token_request namespace name audience)) in
  Ret (match resp with
       | Err e => Err ("failed to generate access token: " +:+ status_text e)
       | Ok None => Err "no token returned from coordinator"
       | Ok (Some token) => Ok (sapi.token token)
       end).

Definition retrieve_error (namespace name audience : string) (e : rpc_error) : string :=
  match e.1 with
  | NotFound => "secret not found: " +:+ namespace +:+ "/" +:+ name
  | PermissionDenied =>
      "access denied to secret " +:+ namespace +:+ "/" +:+ name +:+ " for audience " +:+ audience
  | Unauthenticated => "invalid or expired access token"
  | _ => "failed to retrieve secret: " +:+ status_text e
  end.

Definition retrieveSecret (namespace name audience accessToken : string)
    : Prog Sc (result string (gmap string string * Z)) :=
  let! resp := call (Fetch {| sapi.g_name := name; sapi.g_namespace := namespace;
                              sapi.g_access_token := accessToken; sapi.g_audience := audience |}) in
  Ret (match resp with
       | Err e => Err (retrieve_error namespace name audience e)
       | Ok (None, _) => Err "no metadata in response"
       | Ok (Some meta, data) => Ok (data, sapi.version meta)
       end).

(** ** The cache *)

(** [time.Now()] is before the time at which the entry is refreshed; the clock
    is not read when there is no entry. *)
Definition fresh_entry (entry : option SecretCacheEntry) : Prog Sc bool :=
  match entry with
  | None => Ret false
  | Some e => let! now := call Now in Ret (now <? sce_ExpiresAt e - tokenRefreshThreshold)
  end.

(** The token of the entry if it can still be used, a new one otherwise. *)
Definition current_token (entry : option SecretCacheEntry) (namespace name audience : string)
    : Prog Sc (result string string) :=
  let! usable := fresh_entry (e ← entry; if sce_AccessToken e =?s "" then None else Some e) in
  match entry with
  | Some e =>
      if usable then Ret (Ok (sce_AccessToken e))
      else generateAccessToken namespace name audience
  | None => generateAccessToken namespace name audience
  end.

Definition expiry_of `{UnverifiedJWT} (accessToken : string) : Prog Sc Z :=
  match extractTokenExpiration accessToken with
  | Ok t => Ret t
  | Err _ => let! now := call Now in Ret (now + hour)
  end.

Definition GetSecret `{UnverifiedJWT} (namespace name audience : string)
    : Prog Sc (result string (gmap string string)) :=
  let key := cacheKey namespace name audience in
  let! entry := call (OnCache (fun c => (c !! key, c))) in
  let! valid := fresh_entry entry in
  match entry, valid with
  | Some e, true => Ret (Ok (sce_Data e))
  | _, _ =>
      let! token := current_token entry namespace name audience else "failed to generate access token: " in
      let! got := retrieveSecret namespace name audience token else "" in
      let! expiresAt := expiry_of token in
      let! _ := call (OnCache (fun c => (tt, <[key := {|
        sce_Data := got.1; sce_AccessToken := token; sce_ExpiresAt := expiresAt;
        sce_Namespace := namespace; sce_Name := name; sce_Version := got.2 |}]> c))) in
      Ret (Ok got.1)
  end.

Definition InvalidateCache (namespace name audience : string) : Prog Sc unit :=
  call (OnCache (fun c => (tt, delete (cacheKey namespace name audience) c))).

Definition ClearCache : Prog Sc unit := call (OnCache (fun _ => (tt, ∅))).

Definition cleanupExpiredEntries : Prog Sc unit :=
  let! now := call Now in
  call (OnCache (fun c => (tt, filter (fun ke => ¬ sce_ExpiresAt ke.2 < now) c))).

(** The numbers of all, valid and expired entries. *)
Definition GetCacheStats : Prog Sc (Z * Z * Z) :=
  let! c := call (OnCache (fun c => (c, c))) in
  let! now := call Now in
  let valid := Z.of_nat (size (filter (fun ke : string * SecretCacheEntry => now < sce_ExpiresAt ke.2) c)) in
  Ret (Z.of_nat (size c), valid, Z.of_nat (size c) - valid).
