(* ===== verification/SecretsClientSpec.v ===== *)
(** * What agents see of the secrets of the cluster

    The clients of the agents and the secrets service together: goroutines that
    read secrets through the cache of an agent run interleaved with others that
    create, change and delete secrets.  What a client answers is what the vault
    of [SecretsServiceSpec] held at a moment that is less than a day past. *)

From S2P Require Import Prelude GoText RaftFSM SecretCrypto SecretTokens Secrets SecretStores SecretManager SecretRotation SecretsService SecretsServiceSpec Goroutines SecretsClient.

Local Open Scope Z_scope.

(** ** The world of the goroutines *)

(** What the network does with a request. *)
Inductive Network := Works | LostRequest (e : rpc_error) | LostAnswer (e : rpc_error).

(** What the outside answers at one moment. *)
Record Moment := {
  mo_clock : Z;
  mo_network : Network;
  mo_inputs : Inputs;
  mo_readings : Readings;
  mo_tokenID : string;
  mo_peer : Peer
}.

(** An answer of a client, with the time at which it was asked. *)
Record Reply := {
  re_asked : Z; re_namespace : string; re_name : string; re_audience : string;
  re_data : gmap string string
}.

Record World (S : Type) := {
  w_tick : nat;
  w_cache : Cache;
  w_server : SecretsServiceServer S;
  w_history : list (nat * (Call * Answer));
  w_replies : list Reply
}.
Arguments w_tick {S} _.
Arguments w_cache {S} _.
Arguments w_server {S} _.
Arguments w_history {S} _.
Arguments w_replies {S} _.

(** A call of a client, one of another user of the service, or the return of a
    client's call. *)
Inductive Event : Type → Type :=
| OfClient {X} (c : Sc X) : Event X
| OfUser (c : Call) : Event unit
| Replied (r : Reply) : Event unit.

Section world.
Context {S : Type} `{GoRange} {A : AEAD} {HA : AEADLaws A} `{JWT, SecretStore S, !StoreLaws S, UnverifiedJWT}.
Context (moment : nat → Moment).

(** A request that reaches the service; a panic stops the service. *)
Definition request (c : Call) (w : World S) : result rpc_error Answer * World S :=
  match w_server w with
  | None => (Err not_enabled, w)
  | Some _ =>
      match serve c (w_server w) with
      | None => (Err not_enabled, {| w_tick := w_tick w; w_cache := w_cache w; w_server := None;
                                     w_history := w_history w; w_replies := w_replies w |})
      | Some (s, a) =>
          (Ok a, {| w_tick := w_tick w; w_cache := w_cache w; w_server := s;
                    w_history := w_history w ++ [(w_tick w, (c, a))]; w_replies := w_replies w |})
      end
  end.

Definition over_network (c : Call) (w : World S) : result rpc_error Answer * World S :=
  match mo_network (moment (w_tick w)) with
  | LostRequest e => (Err e, w)
  | LostAnswer e => (Err e, (request c w).2)
  | Works => request c w
  end.

Definition token_answer (r : result rpc_error Answer) : result rpc_error (option sapi.AccessToken) :=
  match r with
  | Ok (Granted t) => Ok (Some t)
  | Ok (Refused e) | Err e => Err e
  | Ok _ => Ok None
  end.

Definition secret_answer (r : result rpc_error Answer)
    : result rpc_error (option sapi.SecretMetadata * gmap string string) :=
  match r with
  | Ok (Read x) => Ok (Some (sapi.gr_metadata x), sapi.gr_data x)
  | Ok (Refused e) | Err e => Err e
  | Ok _ => Ok (None, ∅)
  end.

Definition client_call {X} (c : Sc X) (w : World S) : X * World S :=
  let o := moment (w_tick w) in
  match c in Sc X return X * World S with
  | Now => (mo_clock o, w)
  | OnCache f =>
      ((f (w_cache w)).1, {| w_tick := w_tick w; w_cache := (f (w_cache w)).2; w_server := w_server w;
                             w_history := w_history w; w_replies := w_replies w |})
  | Generate req =>
      let '(r, w) := over_network (CToken (mo_inputs o) (mo_tokenID o) (mo_peer o) req) w in
      (token_answer r, w)
  | Fetch req =>
      let '(r, w) := over_network (CGet (mo_inputs o) (mo_readings o) req) w in (secret_answer r, w)
  end.

Definition tick (w : World S) : World S := {|
  w_tick := Datatypes.S (w_tick w); w_cache := w_cache w; w_server := w_server w;
  w_history := w_history w; w_replies := w_replies w |}.

Definition event_call (X : Type) (c : Event X) (w : World S) : X * World S :=
  let '(x, w) :=
    match c in Event X return X * World S with
    | OfClient c => client_call c w
    | OfUser c => (tt, (request c w).2)
    | Replied r => (tt, {| w_tick := w_tick w; w_cache := w_cache w; w_server := w_server w;
                           w_history := w_history w; w_replies := r :: w_replies w |})
    end in
  (x, tick w).

(** ** The goroutines *)

Local Open Scope prog_scope.

Definition reader (namespace name audience : string) : Prog Event unit :=
  let! asked := call (OfClient Now) in
  let! r := lift (@OfClient) (GetSecret namespace name audience) in
  match r with
  | Err _ => Ret tt
  | Ok data => call (Replied {| re_asked := asked; re_namespace := namespace; re_name := name;
                                re_audience := audience; re_data := data |})
  end.

Definition user (c : Call) : Prog Event unit := call (OfUser c).

(** What an agent does besides reading: it forgets entries of its cache. *)
Definition forgetter (p : Prog Sc unit) : Prog Event unit := lift (@OfClient) p.

(** ** What is relied on *)

Abbreviation clock n := (mo_clock (moment n)).

Context (skew : Z).
Hypothesis skew_nonneg : 0 ≤ skew.
Hypothesis clock_mono : ∀ i j, (i ≤ j)%nat → clock i ≤ clock j.
Hypothesis clocks_close : ∀ n k, in_clock (mo_inputs (moment n)) k ≤ clock n + skew.
Hypothesis dates_readable : ∀ key c t, sign key c = Ok t → ParseUnverified t = Ok (Some (cl_ExpiresAt c)).
Context (m0 : Manager S).

(** The service handed out [data] of a reference to an audience at a moment. *)
Definition handed_out (w : World S) (ref aud : string) (data : gmap string string) (n : nat) : Prop :=
  ∃ i r req x, (n, (CGet i r req, Read x)) ∈ w_history w ∧
    secret_ref (sapi.g_namespace req) (sapi.g_name req) = ref ∧ sapi.g_audience req = aud ∧
    sapi.gr_data x = data.

(** The expiry of a token is at most a day after some moment of the past. *)
Definition dated (w : World S) (token : string) (expiry : Z) : Prop :=
  ParseUnverified token = Ok (Some expiry) ∧
  ∃ n, (n < w_tick w)%nat ∧ expiry ≤ clock n + skew + MaxTokenTTL.

Definition simple (audience : string) : Prop := contains_char "/" audience = false.

Record justified (w : World S) (key : string) (e : SecretCacheEntry) : Prop := {
  j_dated : dated w (sce_AccessToken e) (sce_ExpiresAt e);
  j_handed : ∃ ns name aud n, cacheKey ns name aud = key ∧ simple aud ∧
    handed_out w (secret_ref ns name) aud (sce_Data e) n ∧
    sce_ExpiresAt e ≤ clock n + skew + MaxTokenTTL
}.

Definition recent (w : World S) (r : Reply) : Prop :=
  ∃ n, handed_out w (secret_ref (re_namespace r) (re_name r)) (re_audience r) (re_data r) n ∧
    re_asked r - clock n < MaxTokenTTL - tokenRefreshThreshold + skew.

(** ** The invariant *)

Record consistent (w : World S) : Prop := {
  co_service : ∃ m, calls m0 (w_history w).*2 m ∧ (w_server w = Some m ∨ w_server w = None);
  co_cache : ∀ key e, w_cache w !! key = Some e → justified w key e;
  co_replies : ∀ r, r ∈ w_replies w → recent w r
}.

Definition extends (w w' : World S) : Prop :=
  (w_tick w ≤ w_tick w')%nat ∧ ∃ h, w_history w' = w_history w ++ h.

#[local] Instance extends_preorder : PreOrder extends.
Proof.
  split.
  - intros w. split; [done|]. exists []. by rewrite app_nil_r.
  - intros w1 w2 w3 [Ht1 [h1 E1]] [Ht2 [h2 E2]]. split; [lia|]. exists (h1 ++ h2).
    by rewrite E2, E1, app_assoc.
Qed.

Lemma handed_out_extends w w' ref aud data n :
  extends w w' → handed_out w ref aud data n → handed_out w' ref aud data n.
Proof.
  intros [_ [h E]] (i & r & req & x & Hin & Hrest). exists i, r, req, x. split; [|done].
  rewrite E. apply elem_of_app. by left.
Qed.

Lemma dated_extends w w' token t : extends w w' → dated w token t → dated w' token t.
Proof. intros [Ht _] (Hp & n & Hn & Hle). split; [done|]. exists n. split; [lia|done]. Qed.

Lemma justified_extends w w' key e : extends w w' → justified w key e → justified w' key e.
Proof.
  intros Hx [Hd (ns & name & aud & n & Hk & Ha & Hh & Hle)]. split; [by eapply dated_extends|].
  exists ns, name, aud, n. eauto using handed_out_extends.
Qed.

Lemma recent_extends w w' r : extends w w' → recent w r → recent w' r.
Proof. intros Hx (n & Hh & Hle). exists n. eauto using handed_out_extends. Qed.

(** Whatever only lets time pass and adds to the history keeps the cache and
    the replies. *)
Lemma consistent_extends w w' m :
  consistent w → extends w w' → w_cache w' = w_cache w → w_replies w' = w_replies w →
  calls m0 (w_history w').*2 m → (w_server w' = Some m ∨ w_server w' = None) → consistent w'.
Proof.
  intros [_ Hc Hr] Hx Ec Er Hm Hs. split; [by exists m| |].
  - rewrite Ec. eauto using justified_extends.
  - rewrite Er. eauto using recent_extends.
Qed.

(** ** Requests *)

(** A service that runs goes on running. *)
Lemma serve_keeps c (m : Manager S) s a : serve c (Some m) = Some (s, a) → ∃ m', s = Some m'.
Proof.
  destruct c; cbn; unfold HandleCreateSecret, HandleGetSecret, HandleUpdateSecret, HandleDeleteSecret,
    HandleGenerateAccessToken, HandleRotateMasterKey; repeat case_match; intros; simplify_option_eq;
    repeat case_match; simplify_eq; eauto.
Qed.

Definition admissible (c : Call) : Prop := ∀ m : Manager S, call_ok c m.

Lemma request_advances c w :
  admissible c → consistent w → let '(r, w') := request c w in
  consistent w' ∧ extends w w' ∧ w_tick w' = w_tick w ∧
  ∀ a, r = Ok a → (w_tick w, (c, a)) ∈ w_history w' ∧
    ∃ m m', w_server w = Some m ∧ serve c (Some m) = Some (m', a).
Proof.
  intros Hc Hw. pose proof (co_service w Hw) as (m & Hm & Hs). unfold request.
  destruct (w_server w) as [s|] eqn:Es; [|by split_and!].
  assert (s = m) as -> by naive_solver.
  destruct (serve c (Some m)) as [[s' a]|] eqn:Ea.
  - assert (extends w {| w_tick := w_tick w; w_cache := w_cache w; w_server := s';
      w_history := w_history w ++ [(w_tick w, (c, a))]; w_replies := w_replies w |}) as Hx.
    { split; [done|by eexists]. }
    assert (∃ m', s' = Some m') as [m' ->] by (by eapply serve_keeps).
    split_and!; [|done|done|].
    + eapply (consistent_extends w _ m'); [done..| |by left]. cbn. rewrite fmap_app. by eapply cs_step.
    + intros a' [= <-]. cbn. split; [apply elem_of_app; right; by apply list_elem_of_singleton|eauto].
  - assert (extends w {| w_tick := w_tick w; w_cache := w_cache w; w_server := None;
      w_history := w_history w; w_replies := w_replies w |}) as Hx.
    { split; [done|]. exists []. by rewrite app_nil_r. }
    split_and!; [|done..]. eapply (consistent_extends w _ m); [done..|by right].
Qed.

Lemma over_network_advances c w :
  admissible c → consistent w → let '(r, w') := over_network c w in
  consistent w' ∧ extends w w' ∧ w_tick w' = w_tick w ∧
  ∀ a, r = Ok a → (w_tick w, (c, a)) ∈ w_history w' ∧
    ∃ m m', w_server w = Some m ∧ serve c (Some m) = Some (m', a).
Proof.
  intros Hc Hw. pose proof (request_advances c w Hc Hw) as Hr. unfold over_network.
  destruct (mo_network _) as [|e|e]; destruct (request c w) as [r w']; cbn; [done| |naive_solver].
  by split_and!; [|reflexivity|..].
Qed.

Lemma tick_extends w : extends w (tick w).
Proof. split; [cbn; lia|]. exists []. by rewrite app_nil_r. Qed.

Lemma tick_consistent w : consistent w → consistent (tick w).
Proof.
  intros Hw. destruct (co_service w Hw) as (m & Hm & Hs). pose proof (tick_extends w).
  by eapply (consistent_extends w _ m).
Qed.

(** ** Calls of a client *)

Abbreviation client p Q w := (upholds (fun X c => event_call X (OfClient c)) consistent extends p Q w).

Lemma client_call_spec {X} (c : Sc X) (Q : X → World S → Prop) w :
  consistent w →
  (∀ w1, consistent w1 → extends w w1 → let '(x, w2) := client_call c w1 in
     consistent w2 ∧ extends w1 w2 ∧ ∀ w3, extends (tick w2) w3 → Q x w3) →
  client (call c) Q w.
Proof.
  intros Hw Hc. apply upholds_call; [apply _|done|]. intros w1 Hw1 Hx. unfold event_call.
  specialize (Hc w1 Hw1 Hx). destruct (client_call c w1) as [x w2].
  destruct Hc as (Hw2 & Hx2 & HQ). cbn. pose proof (tick_extends w2).
  split_and!; [by apply tick_consistent|by transitivity w2|done].
Qed.

Lemma now_spec w :
  consistent w → client (call Now) (fun t w' => ∃ n, (w_tick w ≤ n < w_tick w')%nat ∧ t = clock n) w.
Proof.
  intros Hw. apply client_call_spec; [done|]. intros w1 Hw1 [Ht _]. cbn. split_and!; [done|reflexivity|].
  intros w3 [Ht3 _]. cbn in Ht3. exists (w_tick w1). split; [lia|done].
Qed.

(** A look at the cache, or a change of it that keeps the entries justified. *)
Lemma cache_spec {X} (f : Cache → X * Cache) (Q : X → World S → Prop) w :
  consistent w →
  (∀ w1, consistent w1 → extends w w1 →
     (∀ key e, (f (w_cache w1)).2 !! key = Some e → justified w1 key e) ∧
     ∀ w3, extends w1 w3 → Q (f (w_cache w1)).1 w3) →
  client (call (OnCache f)) Q w.
Proof.
  intros Hw Hf. apply client_call_spec; [done|]. intros w1 Hw1 Hx. destruct (Hf w1 Hw1 Hx) as [Hj HQ].
  cbn. set (w2 := {| w_cache := _ |}).
  assert (extends w1 w2) as Hx2 by (split; [done|]; exists []; by rewrite app_nil_r).
  split_and!; [|done|].
  - split; [exact (co_service w1 Hw1)| |].
    + intros key e Hk. eapply justified_extends; [exact Hx2|]. by apply Hj.
    + intros r Hr. eapply recent_extends; [exact Hx2|]. by apply (co_replies w1 Hw1).
  - intros w3 Hx3. apply HQ. transitivity w2; [done|]. transitivity (tick w2); [apply tick_extends|done].
Qed.

(** ** Tokens and secrets *)

Lemma numeric_date_le t : numeric_date t ≤ t.
Proof. unfold numeric_date, second. pose proof (Z.mul_div_le t 1000000000). lia. Qed.

Lemma granted_token i id p req (m : Manager S) s t :
  serve (CToken i id p req) (Some m) = Some (s, Granted t) →
  ∃ key c, sign key c = Ok (sapi.token t) ∧ cl_ExpiresAt c ≤ in_clock i 0%nat + MaxTokenTTL.
Proof.
  unfold serve, HandleGenerateAccessToken. destruct (refusal _); [done|]. unfold GenerateAccessToken.
  destruct (st_Get _ _ _ _) as [s1 [[x|]|]]; [|done..]. destruct (sec_DeletedAt x); [done|].
  destruct (_ && _); [done|]. set (ttl := if _ =? 0 then _ else _). unfold GenerateToken.
  destruct (_ =?s "")%string; [done|]. destruct (_ =?s "")%string; [done|].
  set (ttl' := if ttl <=? 0 then _ else _). destruct (MaxTokenTTL <? ttl') eqn:Ht; [done|].
  destruct (sign _ _) as [tok|] eqn:Es; [|done]. intros [= _ <-]. do 2 eexists. split; [exact Es|]. cbn.
  pose proof (numeric_date_le (in_clock i 0%nat + ttl')). lia.
Qed.

Lemma generate_spec ns name aud w :
  consistent w →
  client (generateAccessToken ns name aud) (fun r w' => ∀ token, r = Ok token → ∃ expiry, dated w' token expiry) w.
Proof.
  intros Hw. eapply (upholds_bind _ _ _ _ _
    (fun r w' => ∀ t, r = Ok (Some t) → ∃ expiry, dated w' (sapi.token t) expiry)).
  - apply client_call_spec; [done|]. intros w1 Hw1 Hx. cbn [client_call]. set (c := CToken _ _ _ _).
    pose proof (over_network_advances c w1 ltac:(by intros m) Hw1) as Ho.
    destruct (over_network c w1) as [r w2]. destruct Ho as (Hw2 & Hx2 & Ht2 & Hr).
    split_and!; [done|done|]. intros w3 [Ht3 _] t Ht. cbn in Ht3.
    destruct r as [[| | | |t'| | | |]|]; try done. injection Ht as ->.
    destruct (Hr _ eq_refl) as (_ & m & s & _ & Hs).
    destruct (granted_token _ _ _ _ _ _ _ Hs) as (key & cl & Hk & Hle).
    exists (cl_ExpiresAt cl). split; [by eapply dates_readable|]. exists (w_tick w1). split; [lia|].
    pose proof (clocks_close (w_tick w1) 0%nat). lia.
  - intros r w' Hw' _ Hr. apply upholds_ret; [done|]. intros w'' Hx'' token Htok.
    destruct r as [[t|]|]; try done. injection Htok as <-.
    destruct (Hr t eq_refl) as [expiry Hd]. exists expiry. by eapply dated_extends.
Qed.

Lemma retrieve_spec ns name aud token w :
  consistent w →
  client (retrieveSecret ns name aud token) (fun r w' => ∀ data v, r = Ok (data, v) →
    ∃ n, (w_tick w ≤ n < w_tick w')%nat ∧ handed_out w' (secret_ref ns name) aud data n) w.
Proof.
  intros Hw. eapply (upholds_bind _ _ _ _ _ (fun r w' => ∀ md data, r = Ok (Some md, data) →
    ∃ n, (w_tick w ≤ n < w_tick w')%nat ∧ handed_out w' (secret_ref ns name) aud data n)).
  - apply client_call_spec; [done|]. intros w1 Hw1 [Ht _]. cbn [client_call]. set (c := CGet _ _ _).
    pose proof (over_network_advances c w1 ltac:(by intros m) Hw1) as Ho.
    destruct (over_network c w1) as [r w2]. destruct Ho as (Hw2 & Hx2 & Ht2 & Hr).
    split_and!; [done|done|]. intros w3 Hx3 md data Hd.
    destruct r as [[| |x| | | | | |]|]; try done. injection Hd as <- <-.
    destruct (Hr _ eq_refl) as (Hin & _). pose proof (proj1 Hx3) as Ht3. cbn in Ht3.
    exists (w_tick w1). split; [lia|]. eapply handed_out_extends; [exact Hx3|].
    do 4 eexists. split_and!; [exact Hin|done..].
  - intros r w' Hw' Hx' Hr. apply upholds_ret; [done|]. intros w'' Hx'' data v Hd.
    destruct r as [[[md|] d]|]; try done. injection Hd as <- <-.
    destruct (Hr md d eq_refl) as (n & Hn & Hh). pose proof (proj1 Hx''). exists n. split; [lia|].
    by eapply handed_out_extends.
Qed.

(** ** Reading through the cache *)

Lemma contains_char_last c a b : contains_char c (a +:+ String c b) = true.
Proof. induction a as [|d a IH]; simpl; case_decide; done. Qed.

Lemma last_slash a a' b b' :
  (a +:+ "/" +:+ b = a' +:+ "/" +:+ b')%string → simple b → simple b' → a = a' ∧ b = b'.
Proof.
  unfold simple. revert a'. induction a as [|c a IH]; intros [|c' a'] E Hb Hb'; cbn in E.
  - injection E as E. by change (b = b') in E.
  - injection E as <- E. change (b = a' +:+ String "/" b') in E. by rewrite E, contains_char_last in Hb.
  - injection E as -> E. change (a +:+ String "/" b = b') in E. by rewrite <-E, contains_char_last in Hb'.
  - injection E as -> E. destruct (IH a' E Hb Hb') as [-> ->]. done.
Qed.

Lemma cacheKey_inj ns name aud ns' name' aud' :
  cacheKey ns name aud = cacheKey ns' name' aud' → simple aud → simple aud' →
  secret_ref ns name = secret_ref ns' name' ∧ aud = aud'.
Proof.
  unfold cacheKey, secret_ref. intros E. apply last_slash. by rewrite !string_app_assoc.
Qed.

Lemma fresh_spec entry w :
  consistent w →
  client (fresh_entry entry) (fun b _ => b = true → ∃ e, entry = Some e ∧
    clock (w_tick w) < sce_ExpiresAt e - tokenRefreshThreshold) w.
Proof.
  intros Hw. destruct entry as [e|]; [|by apply upholds_ret].
  eapply upholds_bind; [apply _|by apply now_spec|]. intros t w1 Hw1 Hx1 (n & Hn & ->).
  apply upholds_ret; [done|]. intros w2 _ Hlt. exists e. split; [done|]. pose proof (clock_mono (w_tick w) n). lia.
Qed.

Lemma current_token_spec entry ns name aud w :
  consistent w → (∀ e, entry = Some e → dated w (sce_AccessToken e) (sce_ExpiresAt e)) →
  client (current_token entry ns name aud) (fun r w' => ∀ token, r = Ok token → ∃ expiry, dated w' token expiry) w.
Proof.
  intros Hw He. eapply upholds_bind; [apply _|by apply fresh_spec|]. intros b w1 Hw1 Hx1 _.
  destruct entry as [e|]; [|by apply generate_spec]. destruct b; [|by apply generate_spec].
  apply upholds_ret; [done|]. intros w2 Hx2 token [= <-]. exists (sce_ExpiresAt e).
  eapply dated_extends; [|by apply He]. by transitivity w1.
Qed.

Lemma expiry_spec token t w :
  consistent w → dated w token t → client (expiry_of token) (fun t' _ => t' = t) w.
Proof.
  intros Hw [Hp _]. unfold expiry_of, extractTokenExpiration. rewrite Hp. by apply upholds_ret.
Qed.

(** The secret was handed out for the audience, by now or in the lifetime of a
    token. *)
Definition obtained (ns name aud : string) (t : Z) (w : World S) (r : result string (gmap string string)) : Prop :=
  ∀ data, r = Ok data → ∃ n, handed_out w (secret_ref ns name) aud data n ∧
    t - clock n < MaxTokenTTL - tokenRefreshThreshold + skew.

Lemma obtained_extends ns name aud t w w' r :
  extends w w' → obtained ns name aud t w r → obtained ns name aud t w' r.
Proof. intros Hx Ho data Hd. destruct (Ho data Hd) as (n & Hh & Hlt). exists n. eauto using handed_out_extends. Qed.

Lemma obtained_since ns name aud t t' w r : t ≤ t' → obtained ns name aud t' w r → obtained ns name aud t w r.
Proof. intros Ht Ho data Hd. destruct (Ho data Hd) as (n & Hh & Hlt). exists n. split; [done|lia]. Qed.

(** Without a usable entry: a token, the secret, and a new entry. *)
Lemma refill_spec entry ns name aud w :
  consistent w → simple aud →
  (∀ e, entry = Some e → dated w (sce_AccessToken e) (sce_ExpiresAt e)) →
  client
    (let! token := current_token entry ns name aud else "failed to generate access token: " in
     let! got := retrieveSecret ns name aud token else "" in
     let! expiresAt := expiry_of token in
     let! _ := call (OnCache (fun c => (tt, <[cacheKey ns name aud := {|
       sce_Data := got.1; sce_AccessToken := token; sce_ExpiresAt := expiresAt;
       sce_Namespace := ns; sce_Name := name; sce_Version := got.2 |}]> c))) in
     Ret (Ok got.1))
    (fun r w' => obtained ns name aud (clock (w_tick w)) w' r) w.
Proof.
  intros Hw Ha He. eapply upholds_attempt; [apply _|by apply current_token_spec| |done].
  intros token w1 Hw1 Hx1 Htok. destruct (Htok token eq_refl) as [expiry Hd].
  eapply upholds_attempt; [apply _|by apply retrieve_spec| |done].
  intros [data v] w2 Hw2 Hx2 Hdata. destruct (Hdata data v eq_refl) as (n & Hn & Hh).
  eapply upholds_bind; [apply _|apply (expiry_spec token expiry); [done|by apply (dated_extends w1)]|].
  intros t w3 Hw3 Hx3 ->. eapply (upholds_bind _ _ _ _ _ (fun _ _ => True)).
  - apply cache_spec; [done|]. intros w4 Hw4 Hx4. split; [|done].
    intros key e. cbn [snd]. rewrite lookup_insert_Some. intros [[<- <-]|[_ Hk]]; [|by apply (co_cache w4 Hw4)].
    assert (extends w1 w4) by (transitivity w2; [done|]; by transitivity w3). split; cbn; [by apply (dated_extends w1)|].
    exists ns, name, aud, n. split_and!; [done..| |].
    + eapply handed_out_extends; [|exact Hh]. by transitivity w3.
    + destruct Hd as (_ & k & Hk & Hle). pose proof (clock_mono k n). pose proof (proj1 Hx2). lia.
  - intros _ w4 Hw4 Hx4 _. apply upholds_ret; [done|]. intros w5 Hx5 data' [= <-]. exists n. split.
    + eapply handed_out_extends; [|exact Hh]. transitivity w3; [done|]. by transitivity w4.
    + pose proof (clock_mono (w_tick w) n). pose proof (proj1 Hx1).
      unfold MaxTokenTTL, tokenRefreshThreshold, hour, minute, second. lia.
Qed.

Lemma GetSecret_spec ns name aud w :
  consistent w → simple aud →
  client (GetSecret ns name aud) (fun r w' => obtained ns name aud (clock (w_tick w)) w' r) w.
Proof.
  intros Hw Ha.
  eapply (upholds_bind _ _ _ _ _ (fun entry w' => ∀ e, entry = Some e → justified w' (cacheKey ns name aud) e)).
  { apply cache_spec; [done|]. intros w1 Hw1 Hx1. split; [exact (co_cache w1 Hw1)|]. intros w3 Hx3 e He.
    eapply justified_extends; [exact Hx3|]. by apply (co_cache w1 Hw1). }
  intros entry w1 Hw1 Hx1 He. pose proof (clock_mono _ _ (proj1 Hx1)) as Hclock.
  eapply upholds_bind; [apply _|by apply fresh_spec|]. intros valid w2 Hw2 Hx2 Hv.
  pose proof (clock_mono _ _ (proj1 Hx2)) as Hclock2. destruct entry as [e|]; [destruct valid|].
  - apply upholds_ret; [done|]. intros w3 Hx3 data [= <-]. destruct (Hv eq_refl) as (e' & [= <-] & Hlt).
    destruct (j_handed _ _ _ (He e eq_refl)) as (ns' & name' & aud' & n & Hk & Ha' & Hh & Hle).
    destruct (cacheKey_inj _ _ _ _ _ _ Hk Ha' Ha) as [Hr ->]. rewrite Hr in Hh. exists n. split; [|lia].
    eapply handed_out_extends; [|exact Hh]. by transitivity w2.
  - eapply upholds_mono; [apply (refill_spec (Some e)); [done..|]|].
    + intros e' [= <-]. eapply dated_extends; [exact Hx2|]. apply (He e eq_refl).
    + intros r w3 _ Ho. eapply obtained_since; [|exact Ho]. lia.
  - eapply upholds_mono; [by apply (refill_spec None)|].
    intros r w3 _ Ho. eapply obtained_since; [|exact Ho]. lia.
Qed.

(** ** Goroutines *)

Abbreviation safe p w := (upholds event_call consistent extends p (fun _ _ => True) w).

Lemma reply_safe r w : consistent w → recent w r → safe (call (Replied r)) w.
Proof.
  intros Hw Hr. apply upholds_call; [apply _|done|]. intros w1 Hw1 Hx. cbn. set (w2 := {| w_cache := w_cache w1 |}).
  assert (extends w1 w2) as Hx2 by (split; [done|]; exists []; by rewrite app_nil_r).
  split_and!; [|transitivity w2; [done|apply tick_extends]|done].
  apply tick_consistent. split; [exact (co_service w1 Hw1)| |].
  - intros key e Hke. eapply justified_extends; [exact Hx2|]. by apply (co_cache w1 Hw1).
  - intros r'. cbn. intros [->|Hr']%elem_of_cons; (eapply recent_extends; [exact Hx2|]).
    + by apply (recent_extends w).
    + by apply (co_replies w1 Hw1).
Qed.

Lemma reader_safe ns name aud w : consistent w → simple aud → safe (reader ns name aud) w.
Proof.
  intros Hw Ha. eapply upholds_bind; [apply _|apply (upholds_lift _ _ _ _ (call Now)); by apply now_spec|].
  intros asked w1 Hw1 Hx1 (n & Hn & ->).
  eapply upholds_bind; [apply _|apply upholds_lift; by apply GetSecret_spec|].
  intros [data|err] w2 Hw2 Hx2 Ho; [|by apply upholds_ret].
  apply reply_safe; [done|]. destruct (Ho data eq_refl) as (k & Hh & Hlt). exists k. split; [done|]. cbn.
  pose proof (clock_mono n (w_tick w1)). lia.
Qed.

Lemma user_safe c w : consistent w → admissible c → safe (user c) w.
Proof.
  intros Hw Hc. apply upholds_call; [apply _|done|]. intros w1 Hw1 Hx. cbn.
  pose proof (request_advances c w1 Hc Hw1) as Hr. destruct (request c w1) as [r w2]. cbn.
  destruct Hr as (Hw2 & Hx2 & _). split_and!; [by apply tick_consistent| |done].
  transitivity w2; [done|apply tick_extends].
Qed.

(** A step on the cache that only removes entries. *)
Lemma forget_spec (f : Cache → Cache) w :
  consistent w → (∀ c key e, f c !! key = Some e → c !! key = Some e) →
  client (call (OnCache (fun c => (tt, f c)))) (fun _ _ => True) w.
Proof.
  intros Hw Hf. apply cache_spec; [done|]. intros w1 Hw1 _. split; [|done].
  intros key e Hke. by apply (co_cache w1 Hw1), Hf.
Qed.

(** What runs in the cluster: readers, other users of the service, and the
    clean-up and invalidation of the cache. *)
Inductive goroutine : Prog Event unit → Prop :=
| g_reader ns name aud : simple aud → goroutine (reader ns name aud)
| g_user c : admissible c → goroutine (user c)
| g_invalidate ns name aud : goroutine (forgetter (InvalidateCache ns name aud))
| g_clear : goroutine (forgetter ClearCache)
| g_cleanup : goroutine (forgetter cleanupExpiredEntries).

Lemma goroutine_safe p w : consistent w → goroutine p → safe p w.
Proof.
  intros Hw [ns name aud Ha|c Hc|ns name aud| |]; [by apply reader_safe|by apply user_safe|..]; apply upholds_lift.
  - apply forget_spec; [done|]. intros c key e. rewrite lookup_delete_Some. by intros [_ ?].
  - apply (forget_spec (fun _ => ∅)); [done|]. intros c key e. by rewrite lookup_empty.
  - eapply upholds_bind; [apply _|by apply now_spec|]. intros now w1 Hw1 _ _. apply forget_spec; [done|].
    intros c key e. rewrite map_lookup_filter_Some. by intros [? _].
Qed.

(** ** What clients answer *)

Definition start : World S := {|
  w_tick := 0; w_cache := ∅; w_server := Some m0; w_history := []; w_replies := [] |}.

Lemma start_consistent : consistent start.
Proof. split; [exists m0; split; [apply cs_start|by left]|by intros key e; cbn; rewrite lookup_empty|]. intros r Hr. by apply elem_of_nil in Hr. Qed.

Lemma cluster_consistent l l' w' :
  Forall goroutine l → interleave event_call (l, start) (l', w') → consistent w'.
Proof.
  intros Hl Hx.
  refine (proj1 (interleave_within event_call (advances consistent extends) l start l' w' _ Hx) start_consistent).
  eapply Forall_impl; [exact Hl|]. intros p Hp. apply upholds_goroutine, goroutine_safe, Hp. apply start_consistent.
Qed.

(** The history before an answer. *)
Lemma calls_before h1 c a h2 m :
  calls m0 (h1 ++ (c, a) :: h2) m →
  ∃ m1 m2, calls m0 h1 m1 ∧ call_ok c m1 ∧ serve c (Some m1) = Some (Some m2, a).
Proof.
  revert m. induction h2 as [|ca h2 IH] using rev_ind; intros m Hh.
  - inversion Hh as [Hn|h c' a' m1 m2 Hh' Hc Hs Hn]; [by destruct h1|].
    apply app_inj_tail in Hn as [-> [= -> ->]]. subst. eauto.
  - inversion Hh as [Hn|h c' a' m1 m2 Hh' Hc Hs Hn]; [by destruct h1|].
    rewrite app_comm_cons, app_assoc in Hn. apply app_inj_tail in Hn as [-> _]. eauto.
Qed.


End world.

(** ** Runs of the secrets client over the service

    An agent reads a secret, an administrator changes it, and the agent goes on
    answering the old contents; an audience with a slash is given the contents
    of another secret. *)

Local Open Scope Z_scope.

Module ClientRuns.
#[local] Existing Instance range_canonical.
#[local] Existing Instance clear_cipher.

(** A library that signs and knows the claims of a token for an hour. *)
Definition hour_claims : SecretTokenClaims := claims_for "ns/db" "web" "id-1" 0 hour.

#[local] Instance hour_token : JWT := {
  sign := fun key c => if decide (c = hour_claims) then Ok "header.claims.mac"%string
                       else Err "unsupported"%string;
  parse := fun now key t => if decide (t = "header.claims.mac"%string) then Ok hour_claims
                            else Err "signature is invalid"%string
}.

#[local] Instance hour_expiry : UnverifiedJWT := fun t =>
  if decide (t = "header.claims.mac"%string) then Ok (Some (cl_ExpiresAt hour_claims))
  else Err "token is malformed"%string.

Lemma hour_readable key c t : sign key c = Ok t → ParseUnverified t = Ok (Some (cl_ExpiresAt c)).
Proof. simpl. case_decide; [|done]. subst. by intros [= <-]. Qed.

(** A second passes with every call. *)
Definition at_second (n : nat) : Moment := {|
  mo_clock := Z.of_nat n * second; mo_network := Works; mo_inputs := sample_inputs;
  mo_readings := read_at second; mo_tokenID := "id-1"; mo_peer := ServiceRuns.leading |}.

Definition create_db : Call := ServiceRuns.create_db.

Definition update_db : Call := CUpdate sample_inputs ServiceRuns.leading {|
  sapi.u_name := "db"; sapi.u_namespace := "ns"; sapi.u_data := new_data |}.

Definition delete_db : Call := CDelete sample_inputs ServiceRuns.leading {|
  sapi.d_name := "db"; sapi.d_namespace := "ns" |}.

Definition day : list (Prog Event unit) :=
  [user create_db; reader "ns" "db" "web"; user update_db; user delete_db; reader "ns" "db" "web"].

Definition evening : World InMemorySecretStore := in_turn (event_call at_second) day (start fresh_manager).

(** The client is asked twice, and answers the first contents although they
    were replaced and the secret was deleted in between. *)
Example stale_answer :
  (fun r => (re_asked r, re_data r)) <$> w_replies evening =
  [(9 * second, sample_data); (1 * second, sample_data)] ∧
  (fun x => x.2.2) <$> drop 4 (w_history evening) = [Deleted].
Proof. vm_compute. split; reflexivity. Qed.

Lemma day_goroutines : Forall (goroutine (S := InMemorySecretStore)) day.
Proof.
  repeat constructor; try exact (fun _ => I); intros m k; apply sample_rand_ok.
Qed.

Definition reply (asked : Z) : Reply := {|
  re_asked := asked; re_namespace := "ns"; re_name := "db"; re_audience := "web"; re_data := sample_data |}.

Lemma evening_replies : w_replies evening = [reply (9 * second); reply second].
Proof. vm_compute. reflexivity. Qed.


(** ** Slashes *)

(** The entry of the secret [db] for the audience [x/web] is taken for that of
    the secret [db/x] for the audience [web]: the contents are answered to an
    audience that they were not handed out to. *)
Definition other_entry : SecretCacheEntry := {|
  sce_Data := sample_data; sce_AccessToken := "header.claims.mac"; sce_ExpiresAt := hour;
  sce_Namespace := "ns"; sce_Name := "db"; sce_Version := 1 |}.

Example mixed_up :
  let w := {| w_tick := 0; w_cache := {[cacheKey "ns" "db" "x/web" := other_entry]};
              w_server := Some fresh_manager; w_history := []; w_replies := [] |} in
  re_data <$> w_replies (in_turn (event_call at_second) [reader "ns" "db/x" "web"] w) = [sample_data].
Proof. vm_compute. reflexivity. Qed.

End ClientRuns.
